(* ===== verification/_CoqProject ===== *)
-Q . S2P
Prelude.v
GoStrings.v
Base64.v
Sha256.v
NetIP.v
Ports.v
Selector.v
Policy.v
Compile.v
PathMachine.v
Endpoints.v
PathOrder.v
RelayFrame.v
RelayServer.v
RelayClient.v
RelayPath.v
Alloc.v
Names.v
Limiter.v
Filter.v
Hub.v
LockRecord.v
Backup.v
Stun.v
StunServer.v
Discover.v
Store.v
Effects.v
Tables.v
Enroll.v
Users.v
LockService.v
Registry.v
Routes.v
NetMap.v
PolicySvc.v
Handlers.v
Control.v
ControlSafety.v
LockSafety.v
NetMapSafety.v
Visibility.v
Changes.v
PolicySafety.v
Wire.v
ClientMap.v
Config.v
Pins.v
Device.v
DeviceSafety.v
DeviceFilter.v
RouteTable.v
Sysctl.v
WgDevice.v
Paths.v
PathsSafety.v
Uapi.v
Nft.v
NftSafety.v
Sessions.v
Dns.v
Hosts.v
DnsRegistry.v
DnsSafety.v
Http.v
Rest.v
Rpc.v
ClientLock.v
LockFlow.v
HubDevice.v
HubForward.v
Api.v
ApiSafety.v
ApiPrivacy.v
Reports.v
Backoff.v
SyncLoop.v
Status.v
Pinning.v
Restore.v
