(* ===== verification/Prelude.v ===== *)
(** * Thawr: a verification of the mesh VPN

    Thawr joins devices to a private overlay network over WireGuard.  One
    server keeps a database of users, tokens, peers and routes, compiles a
    policy document against it and sends every device a map of the peers it may
    see; devices bring up a WireGuard interface from their map, look for direct
    paths to each other and fall back to a relay on the server.  This library
    models the Go code under src/ and proves what makes it correct.

    ** The program and the files that model it

    Foundations.
    - [Prelude] (this file): notations, tactics, machine integers, bytes as
      numbers, slices with their bounds.
    - [GoStrings], [NetIP], [Base64], [Sha256]: what the code uses of Go's
      strings, strconv, net/netip, encoding/base64 and crypto/sha256; its float64
      is in [Backoff].

    The policy (src/internal/control/policy).
    - [Ports], [Selector], [Policy]: the language, its parser and validation
      (selector.go, policy.go, validate.go).
    - [Compile]: compilation to bitsets and the queries on them (compile.go);
      [grants], [selects] and [grants_route] say what the text means.
    - [PolicySvc], [PolicySafety], [Changes]: the running policy and the cache of
      its compiled form (control/policysvc.go), step by step under concurrency;
      the generation of the database tells what changes it.

    The database and the control plane (src/internal/store,
    src/internal/control).
    - [Store], [Effects], [Tables]: tables as lists of rows, statements as
      transactions with the constraints of the migrations; the constraints over
      any run.
    - [Alloc], [Names], [Limiter], [Enroll], [Users], [Registry], [Routes],
      [LockService], [NetMap]: one file per file of the control plane, each
      handler whole, with the errors it returns.
    - [Endpoints], [Hub], [Visibility]: what is kept in memory: reported
      endpoints, streams and their wake-ups, and peers by key for the relay.
    - [Handlers], [Control]: the handlers on one database, as a transition
      function on calls; [ControlSafety], [LockSafety] and [NetMapSafety] are
      what holds over any sequence of calls.

    The server around it (src/internal/api, src/internal/server,
    src/internal/dns, src/internal/relay, src/internal/stun, src/internal/lock).
    - [LockRecord]: signed records of the network lock and the rule by which one
      follows another (lock/record.go, key.go).
    - [Wire]: the messages of a map (api/convert.go).
    - [Sessions], [Http], [Rest], [Rpc], [Api]: browser sessions, the patterns
      and role checks, the REST handlers, the RPCs, and all of them as one state
      ([Api.api_step]); [ApiSafety] and [ApiPrivacy] state what it lets through.
    - [HubDevice], [HubForward]: the server's own WireGuard interface and what it
      forwards for phones (server.go, overlay6.go).
    - [Dns], [DnsRegistry], [DnsSafety], [Hosts]: the name server, the
      tables it answers from and the hosts file.
    - [RelayFrame], [RelayServer], [RelayClient]: the relay's frames, its server
      and its client (relay/frame.go, server.go, client.go), whose goroutines are
      cut where they take a lock or use a channel; [RelayPath] is a packet's way
      from one device to the other.
    - [Stun], [StunServer], [Discover]: STUN messages, the server with its
      sockets and their limits per source, and the client's two attempts
      (stun/stun.go, server.go, client.go).
    - [Config]: the server's configuration, its checks, and what is read off it
      (config/config.go, validate.go, load.go, resolvconf.go).
    - [Backup], [Restore]: archives, what a backup holds, and a restore with all
      its failures and the check of the restored database (backup/backup.go,
      server/backup.go, restore.go, keys.go, store/migrate.go).

    The device (src/internal/client, src/internal/control/path,
    src/internal/wg).
    - [ClientMap], [Pins], [Device]: the map as the device has it, the accepted
      keys, and the daemon that applies maps; [DeviceSafety] and [DeviceFilter]
      state what it trusts and lets in.
    - [ClientLock], [LockFlow]: what a signer's device signs (client/lock.go), why,
      and that it takes effect on the server and on other devices.
    - [PathMachine], [PathOrder], [Paths]: the path of each peer, the candidates in
      the order they are tried, and the ticks that step the machines;
      [PathsSafety] relates them to the device.
    - [Reports]: the addresses a device finds and reports (client/discovery.go,
      endpoints.go), up to the server's table.
    - [Pinning]: enrolment on the device, the certificate it pins and the one the
      server keeps and shows (client/enroll.go, tls.go, server/tlscert.go,
      certs.go).
    - [Backoff], [SyncLoop], [Status]: the delays between attempts, the loop that
      keeps a device connected, cut at its blocking points, and what the device
      says about itself (client/daemon.go, localapi.go, dropwindow.go).
    - [WgDevice], [Uapi]: the interface of a WireGuard device, the kernel's
      adapter, and the text protocol of the userspace one, whose text says the
      configuration.
    - [RouteTable], [Sysctl]: the routes through the interface and the forwarding
      of the host, with what is done when a request fails.
    - [Filter], [Nft], [NftSafety]: the userspace packet filter, the
      kernel's, and their equivalence.

    ** How the parts meet

    A file of the code is a file here, a struct a record, a method a function
    that returns the next state with its answer.  Where a part of the program
    relies on another through an interface, so do the theorems:
    - the relay asks [RelayServer.Visibility], which [Visibility] implements
      from the hub and the database;
    - the name server asks [Dns.Source], implemented by the hub's registry and
      the device's map in [DnsRegistry];
    - the paths use [WgDevice.Device], implemented by the kernel adapter over the
      class [WgDevice.Kernel];
    - the kernel's filter runs on [Nft.Machine], the documented expressions;
    - [PolicySvc] gives enrolment and maps their view of the policy
      ([service_policies], [NetMap.PolicyVisibility]).
    The long theorems follow a decision through the program:
    [DeviceFilter.packets_follow_policy] goes from the policy's text over the
    database, the map, the wire and the device's filter to a packet;
    [HubForward.hub_forwards_policy] does the same on the hub,
    [DnsSafety.hub_names_follow_policy] for names,
    [Visibility.relay_follows_policy] for the relay,
    [RelayPath.relayed_packets] from a datagram over two clients and the relay,
    [Reports.server_learns] from a device's interfaces to the server's table,
    [ApiSafety.api_refines_control] from requests to calls of [Control], and
    [NftSafety.kernel_filters_alike] from the userspace filter to the kernel's.

    ** What the theorems show

    - The policy: compiled answers are the text's ([Compile.Allowed_correct]),
      port sets have one form, a reload runs an acceptable file or changes
      nothing, and a lookup is of a policy and a database of its own time.
    - The control plane: constraints of the tables, single use of tokens, names
      and routes that need an admin, maps that say what the text says, allowed
      addresses without overlap, the lineage of the network lock.
    - The API: every call has a caller who was authenticated for it; a member
      is answered as if other people's devices did not exist, but for the filter
      of the member's own devices.
    - The device: only accepted keys are configured and each has an origin;
      pins survive a restart; the interface holds what the last map lists;
      endpoints follow the paths; rounds of probes try every candidate and end.
    - Reaching each other: reports are repeated until they are taken, discovery
      believes answers to its own requests, the STUN server floods nobody, relay
      clients keep peers apart and connected.
    - The host: a configuration that is accepted is one the server can run with;
      routes follow their table, forwarding is undone, archives write where they
      say, and a restore loses nothing.
    - Staying connected: a device trusts the one server it enrolled with;
      attempts are paced and never end, a new lock key gets through (but one
      made by [LockInit]), and the status of a device is what it was
      configured with.
    - Packets and bytes: decoders stay in bounds and invert the encoders; the
      filters, in user space and in the kernel, decide by their rules and flows.
    Each theorem with hypotheses is applied at a concrete input after it.

    ** Conventions, bounds and fuel

    - Integers are [Z] with their wrap written out where the width matters
      ([u64], [i64]); [time.Time] is nanoseconds since the zero time, with the
      saturating [Sub] of Go; byte strings are lists of bytes.
    - Clocks, random bytes, the order in which Go ranges over maps, whether a
      write reached the disk and what the network answered are inputs.
    - A mutex makes a method one step.  Code that runs without one is cut into
      steps that interleave: [PolicySvc], [RelayServer], [RelayClient], [Api],
      [Paths], [SyncLoop].
    - Third-party code is a parameter: Ed25519 and Argon2id, WireGuard's key
      type, YAML and JSON, the DNS message codec, nftables and WireGuard in the
      kernel, a SQLite file with the SQL of its migrations.  A theorem that needs a property of one states it.
    - Fuel appears where Go loops until something happens: the allocator's
      search (one more than the addresses used, [Alloc.search_spec]), trimming
      and parsing of texts (their length), numbered names (the code's own bound),
      the IPv6 parser (eight groups), frames of a stream
      ([RelayFrame.codec_roundtrip] asks for more than there are), STUN
      attributes and DNS records (their number), fields of a line (its length).
      [Discover] makes its two attempts.

    ** Not modelled

    The command line, service managers, file permissions, sockets, the TLS
    handshake and X.509, netlink and its platform variants, metrics, logging, the web
    UI, the YAML decoder and the local API's HTTP handlers: they
    call the parts above or the operating system and decide nothing the
    theorems speak of.  The project's manifest lists each with its reason.
    Failures of the disk under the database are not modelled; a crash between
    two writes is where [Pins] and [Device] take it as an input. *)

From Stdlib Require Export Strings.Byte.
From stdpp Require Export base tactics list numbers strings gmap sorting.

Declare Scope go_scope.
Delimit Scope go_scope with go.
Open Scope Z_scope.

(** ** Fallible code

    A Go function returning [(T, error)] is a [result]: the error is a value
    of a component's own error type.  A run-time panic (index out of range,
    slice bounds) is the [None] of an [option] around the whole result. *)

Inductive result (E A : Type) : Type :=
  | Ok (a : A)
  | Err (e : E).
Arguments Ok {E A} a.
Arguments Err {E A} e.

#[export] Instance result_ret {E} : MRet (result E) := λ A a, Ok a.
#[export] Instance result_bind {E} : MBind (result E) := λ A B f m,
  match m with Ok a => f a | Err e => Err e end.
#[export] Instance result_fmap {E} : FMap (result E) := λ A B f m,
  match m with Ok a => Ok (f a) | Err e => Err e end.

Definition is_ok {E A} (r : result E A) : bool :=
  match r with Ok _ => true | Err _ => false end.

Definition of_option {E A} (e : E) (o : option A) : result E A :=
  match o with Some a => Ok a | None => Err e end.

Lemma result_bind_ok {E A B} (f : A → result E B) m b :
  m ≫= f = Ok b ↔ ∃ a, m = Ok a ∧ f a = Ok b.
Proof. destruct m; simpl; split; [eauto|by intros (?&[=->]&?)|done|by intros (?&?&?)]. Qed.

Lemma result_bind_err {E A B} (f : A → result E B) m e :
  m ≫= f = Err e ↔ m = Err e ∨ ∃ a, m = Ok a ∧ f a = Err e.
Proof.
  destruct m; simpl; split; [eauto|by intros [?|(?&[=->]&?)]| |].
  - intros [=]; subst; auto.
  - intros [[=->]|(?&?&?)]; done.
Qed.

(** ** Automation *)

(** Turns the boolean tests of the code into propositions, everywhere. *)
Ltac go_bool :=
  repeat match goal with
  | H : _ && _ = true |- _ => apply andb_true_iff in H; destruct H
  | H : _ || _ = false |- _ => apply orb_false_iff in H; destruct H
  | H : _ || _ = true |- _ => apply orb_true_iff in H
  | H : _ && _ = false |- _ => apply andb_false_iff in H
  | H : negb _ = true |- _ => apply negb_true_iff in H
  | H : negb _ = false |- _ => apply negb_false_iff in H
  | H : (_ <? _)%Z = true |- _ => apply Z.ltb_lt in H
  | H : (_ <? _)%Z = false |- _ => apply Z.ltb_ge in H
  | H : (_ <=? _)%Z = true |- _ => apply Z.leb_le in H
  | H : (_ <=? _)%Z = false |- _ => apply Z.leb_gt in H
  | H : (_ =? _)%Z = true |- _ => apply Z.eqb_eq in H
  | H : (_ =? _)%Z = false |- _ => apply Z.eqb_neq in H
  | H : bool_decide _ = true |- _ => apply bool_decide_eq_true_1 in H
  | H : bool_decide _ = false |- _ => apply bool_decide_eq_false_1 in H
  | H : Is_true _ |- _ => apply Is_true_eq_true in H
  end.

(** Case analysis on every [if] and [match] of the goal, tests made
    propositional, contradictory branches closed. *)
Ltac go_cases :=
  repeat (case_match; simplify_eq/=; go_bool; try done).

(** Case analysis on the tests of a hypothesis that is an equation. *)
Ltac go_inv H :=
  repeat match type of H with
  | context [match ?x with _ => _ end] =>
      let E := fresh "E" in destruct x eqn:E; simplify_eq/=; go_bool; try done
  end.

(** ** Machine integers and bytes

    [byte] is the standard library's 256-constructor type; wider unsigned
    integers are [Z] with the wrap-around written out. *)

Definition u16 (z : Z) : Z := z `mod` 2 ^ 16.
Definition u32 (z : Z) : Z := z `mod` 2 ^ 32.
Definition u64 (z : Z) : Z := z `mod` 2 ^ 64.

(** [int64] arithmetic, used for [time.Duration]. *)
Definition i64 (z : Z) : Z := (z + 2 ^ 63) `mod` 2 ^ 64 - 2 ^ 63.

#[export] Instance byte_eq_dec : EqDecision byte := Byte.byte_eq_dec.
#[export] Program Instance byte_countable : Countable byte :=
  inj_countable Byte.to_N Byte.of_N _.
Next Obligation. intros b. apply Byte.of_to_N. Qed.

Definition bz (b : byte) : Z := Z.of_N (Byte.to_N b).
Definition zb (z : Z) : byte :=
  default Byte.x00 (Byte.of_N (Z.to_N (z `mod` 256))).

Lemma bz_range b : 0 <= bz b < 256.
Proof. unfold bz. pose proof (Byte.to_N_bounded b). lia. Qed.

Lemma zb_bz b : zb (bz b) = b.
Proof.
  unfold zb. rewrite Z.mod_small by apply bz_range.
  unfold bz. by rewrite N2Z.id, Byte.of_to_N.
Qed.

Lemma bz_zb z : bz (zb z) = z `mod` 256.
Proof.
  unfold zb, bz. pose proof (Z.mod_pos_bound z 256 eq_refl) as Hb.
  destruct (Byte.of_N _) eqn:E; simpl.
  - apply Byte.to_of_N in E. rewrite E. lia.
  - apply Byte.of_N_None_iff in E. lia.
Qed.

Lemma bz_inj a b : bz a = bz b → a = b.
Proof. intros H. by rewrite <- (zb_bz a), <- (zb_bz b), H. Qed.

(** Bytewise exclusive or ([^] on Go bytes). *)
Definition bxor (a b : byte) : byte := zb (Z.lxor (bz a) (bz b)).

Lemma bxor_involutive a b : bxor (bxor a b) b = a.
Proof.
  unfold bxor. apply bz_inj. rewrite !bz_zb.
  pose proof (bz_range a); pose proof (bz_range b).
  assert (∀ x, 0 <= x < 256 → x `mod` 256 = Z.land x (Z.ones 8)) as Hland.
  { intros x Hx. by rewrite Z.land_ones. }
  rewrite <- (Z.land_ones _ 8) by lia.
  change 256 with (2 ^ 8). rewrite <- (Z.land_ones _ 8) by lia.
  apply Z.bits_inj'; intros i Hi.
  rewrite Z.land_spec, Z.lxor_spec, Z.land_spec, Z.lxor_spec.
  destruct (Z.lt_ge_cases i 8).
  - rewrite Z.ones_spec_low by lia. by destruct (Z.testbit (bz a) i), (Z.testbit (bz b) i).
  - rewrite Z.ones_spec_high by lia. rewrite andb_false_r.
    destruct (decide (bz a = 0)) as [->|]; [by rewrite Z.testbit_0_l|].
    symmetry. apply Z.bits_above_log2; [lia|].
    apply Z.lt_le_trans with 8; [|done]. apply Z.log2_lt_pow2; lia.
Qed.

Lemma xor_range n a b : 0 <= n → 0 <= a < 2 ^ n → 0 <= b < 2 ^ n → 0 <= Z.lxor a b < 2 ^ n.
Proof.
  intros Hn Ha Hb. assert (0 <= Z.lxor a b) by (by apply Z.lxor_nonneg; lia). split; [done|].
  destruct (Z.eq_dec (Z.lxor a b) 0) as [->|Hne]; [lia|]. apply Z.log2_lt_pow2; [lia|].
  eapply Z.le_lt_trans; [apply Z.log2_lxor; lia|].
  assert (0 < n) by (destruct (Z.eq_dec n 0) as [->|]; [|lia]; assert (a = 0) as -> by lia; assert (b = 0) as -> by lia; done).
  apply Z.max_lub_lt.
  - destruct (Z.eq_dec a 0) as [->|]; [done|]. apply Z.log2_lt_pow2; lia.
  - destruct (Z.eq_dec b 0) as [->|]; [done|]. apply Z.log2_lt_pow2; lia.
Qed.

(** Big-endian encoding of an unsigned integer in [n] bytes. *)
Fixpoint be_enc (n : nat) (z : Z) : list byte :=
  match n with
  | O => []
  | S k => be_enc k (z `div` 256) ++ [zb z]
  end.

Definition be_dec (l : list byte) : Z := foldl (λ acc b, acc * 256 + bz b) 0 l.

Lemma be_dec_snoc l b : be_dec (l ++ [b]) = be_dec l * 256 + bz b.
Proof. unfold be_dec. by rewrite foldl_app. Qed.

Lemma length_be_enc n z : length (be_enc n z) = n.
Proof. revert z; induction n as [|n IH]; intros z; [done|]. simpl. rewrite length_app, IH. simpl; lia. Qed.

Lemma be_dec_enc n z : be_dec (be_enc n z) = z `mod` 256 ^ Z.of_nat n.
Proof.
  revert z. induction n as [|n IH]; intros z.
  - simpl. by rewrite Z.mod_1_r.
  - cbn [be_enc]. rewrite be_dec_snoc, IH, bz_zb, Nat2Z.inj_succ, Z.pow_succ_r by lia.
    rewrite (Z.mul_comm 256 (256 ^ _)), Z.mul_comm.
    pose proof (Z.pow_pos_nonneg 256 (Z.of_nat n)).
    rewrite (Z.mul_comm (256 ^ _) 256), Z.rem_mul_r by lia. lia.
Qed.

Lemma be_dec_range l : 0 <= be_dec l < 256 ^ Z.of_nat (length l).
Proof.
  induction l as [|b l IH] using rev_ind; [done|].
  rewrite be_dec_snoc, length_app; simpl.
  rewrite Nat2Z.inj_add, Z.pow_add_r by lia. pose proof (bz_range b).
  change (256 ^ Z.of_nat 1) with 256. nia.
Qed.

Lemma be_enc_dec l : be_enc (length l) (be_dec l) = l.
Proof.
  induction l as [|b l IH] using rev_ind; [done|].
  rewrite length_app, Nat.add_comm. cbn [length Nat.add be_enc].
  rewrite be_dec_snoc. pose proof (bz_range b). f_equal.
  - by rewrite Z.div_add_l, Z.div_small, Z.add_0_r, IH by lia.
  - f_equal. apply bz_inj. rewrite bz_zb.
    rewrite Z.add_comm, Z.mod_add, Z.mod_small by lia. done.
Qed.

Lemma be_dec_enc_small n z : 0 <= z < 256 ^ Z.of_nat n → be_dec (be_enc n z) = z.
Proof. intros H. by rewrite be_dec_enc, Z.mod_small. Qed.

Lemma be_enc_inj n x y :
  0 <= x < 256 ^ Z.of_nat n → 0 <= y < 256 ^ Z.of_nat n → be_enc n x = be_enc n y → x = y.
Proof. intros Hx Hy H. apply (f_equal be_dec) in H. by rewrite !be_dec_enc_small in H. Qed.

(** ** Byte slices

    An index or slice out of range panics: [None]. *)

(** [b[i]] and [b[lo:hi]]. *)
Definition at_ (b : list byte) (i : Z) : option Z :=
  if 0 <=? i then bz <$> b !! Z.to_nat i else None.
Definition slice (b : list byte) (lo hi : Z) : option (list byte) :=
  if (0 <=? lo) && (lo <=? hi) && (hi <=? Z.of_nat (length b))
  then Some (take (Z.to_nat (hi - lo)) (drop (Z.to_nat lo) b)) else None.
Definition slice_from (b : list byte) (lo : Z) : option (list byte) := slice b lo (Z.of_nat (length b)).
Definition uint16_at (b : list byte) (lo : Z) : option Z := be_dec <$> slice b lo (lo + 2).

Definition blen (b : list byte) : Z := Z.of_nat (length b).

Lemma at_some b i : 0 <= i < blen b → is_Some (at_ b i).
Proof.
  intros H. unfold at_. rewrite (proj2 (Z.leb_le _ _)) by lia. unfold blen in H.
  destruct (lookup_lt_is_Some_2 b (Z.to_nat i)) as [x ->]; [lia|]. by eexists.
Qed.

Lemma slice_some b lo hi : 0 <= lo <= hi → hi <= blen b → is_Some (slice b lo hi).
Proof.
  intros H1 H2. unfold slice. unfold blen in H2.
  rewrite (proj2 (Z.leb_le 0 lo)), (proj2 (Z.leb_le lo hi)), (proj2 (Z.leb_le hi _)) by lia. by eexists.
Qed.

Lemma uint16_some b lo : 0 <= lo → lo + 2 <= blen b → is_Some (uint16_at b lo).
Proof. intros H1 H2. unfold uint16_at. destruct (slice_some b lo (lo + 2)) as [x ->]; [lia|done|]. by eexists. Qed.

Lemma at_mid l a x z i : l = a ++ [x] ++ z → i = blen a → at_ l i = Some (bz x).
Proof.
  intros -> ->. unfold at_, blen. rewrite (proj2 (Z.leb_le _ _)) by lia. rewrite Nat2Z.id.
  change ([x] ++ z) with (x :: z). by rewrite list_lookup_middle.
Qed.

Lemma blen_app a b : blen (a ++ b) = blen a + blen b.
Proof. unfold blen. rewrite length_app. lia. Qed.

Lemma blen_be_enc n z : blen (be_enc n z) = Z.of_nat n.
Proof. unfold blen. by rewrite length_be_enc. Qed.

Lemma slice_mid l a m z lo hi : l = a ++ m ++ z → lo = blen a → hi = lo + blen m → slice l lo hi = Some m.
Proof.
  intros -> -> ->. unfold slice, blen. rewrite !length_app.
  rewrite (proj2 (Z.leb_le 0 _)), (proj2 (Z.leb_le (Z.of_nat (length a)) _)), (proj2 (Z.leb_le (_ + _) _)) by lia. cbn [andb].
  rewrite Nat2Z.id. replace (Z.to_nat (Z.of_nat (length a) + Z.of_nat (length m) - Z.of_nat (length a))) with (length m) by lia.
  by rewrite drop_app_length, take_app_length.
Qed.

Lemma slice_from_app l a t lo : l = a ++ t → lo = blen a → slice_from l lo = Some t.
Proof.
  intros -> ->. unfold slice_from. apply (slice_mid _ a t []); [by rewrite app_nil_r|done|].
  unfold blen. rewrite length_app. lia.
Qed.

Lemma uint16_mid l a v z lo : l = a ++ be_enc 2 v ++ z → lo = blen a → 0 <= v < 65536 → uint16_at l lo = Some v.
Proof.
  intros -> -> H. unfold uint16_at. rewrite (slice_mid _ a (be_enc 2 v) z) by (done || (unfold blen; rewrite length_be_enc; lia)).
  change (Some (be_dec (be_enc 2 v)) = Some v). by rewrite be_dec_enc_small by lia.
Qed.

Lemma bz_zb_small z : 0 <= z < 256 → bz (zb z) = z.
Proof. intros. by rewrite bz_zb, Z.mod_small. Qed.

Lemma at_range b i z : at_ b i = Some z → 0 <= z < 256.
Proof. unfold at_. destruct (0 <=? i); [|done]. intros (x & _ & ->)%fmap_Some. apply bz_range. Qed.

Lemma uint16_range b lo z : uint16_at b lo = Some z → 0 <= z < 65536.
Proof.
  unfold uint16_at, slice. destruct (_ && _); [|done]. intros [= <-]. pose proof (be_dec_range (take (Z.to_nat (lo + 2 - lo)) (drop (Z.to_nat lo) b))) as H.
  assert (256 ^ Z.of_nat (length (take (Z.to_nat (lo + 2 - lo)) (drop (Z.to_nat lo) b))) <= 256 ^ 2); [|lia].
  apply Z.pow_le_mono_r; [lia|]. rewrite length_take. lia.
Qed.

(** Discharges accesses the context shows to be in range. *)
Ltac in_bounds :=
  repeat match goal with
  | |- context [at_ ?b ?i] => destruct (at_some b i) as [? ->]; [first [done|lia]|]
  | |- context [uint16_at ?b ?i] => destruct (uint16_some b i) as [? ->]; [first [done|lia]|first [done|lia]|]
  | |- context [slice ?b ?i ?j] => destruct (slice_some b i j) as [? ->]; [first [done|lia]|first [done|lia]|]
  end; cbn [mbind option_bind fmap option_fmap option_map].

Lemma existsb_true_iff {A} (f : A → bool) l : existsb f l = true ↔ ∃ x, x ∈ l ∧ f x = true.
Proof. rewrite existsb_exists. by setoid_rewrite list_elem_of_In. Qed.

(** ** Sorting

    Go's [sort.SliceStable] has exactly one result, which insertion sort
    computes; [sort.Slice] promises a sorted permutation only, so a caller's
    theorem must not depend on how ties fall. *)

Section Sorting.
Context {A : Type} (less : A → A → bool).

Fixpoint sinsert (x : A) (l : list A) : list A :=
  match l with
  | [] => [x]
  | y :: l' => if less x y then x :: l else y :: sinsert x l'
  end.

Definition stable_sort (l : list A) : list A := foldl (λ acc x, sinsert x acc) [] l.

(** The order a sorted slice satisfies: nothing later is less. *)
Definition nless (a b : A) : Prop := less b a = false.

Lemma sinsert_perm x l : sinsert x l ≡ₚ x :: l.
Proof.
  induction l as [|y l IH]; simpl; [done|]. destruct (less x y); [done|].
  rewrite IH. apply Permutation_swap.
Qed.

Lemma stable_sort_perm l : stable_sort l ≡ₚ l.
Proof.
  unfold stable_sort. rewrite <- (app_nil_r l) at 2. generalize (@nil A).
  induction l as [|x l IH]; intros acc; simpl; [done|].
  rewrite IH, sinsert_perm. by rewrite Permutation_middle.
Qed.

Lemma elem_of_stable_sort x l : x ∈ stable_sort l ↔ x ∈ l.
Proof. by rewrite stable_sort_perm. Qed.
End Sorting.

(** Sorting looks at keys only. *)
Section SortingKeys.
Context {A B : Type} (less : A → A → bool) (less' : B → B → bool) (f : A → B) (Hf : ∀ a b, less' (f a) (f b) = less a b).

Lemma sinsert_fmap x l : sinsert less' (f x) (f <$> l) = f <$> sinsert less x l.
Proof. induction l as [|y l IH]; simpl; [done|]. rewrite Hf. destruct (less x y); [done|]. by rewrite fmap_cons, <- IH. Qed.

Lemma stable_sort_fmap l : stable_sort less' (f <$> l) = f <$> stable_sort less l.
Proof.
  unfold stable_sort. change (@nil B) with (f <$> @nil A). generalize (@nil A).
  induction l as [|x l IH]; intros acc; simpl; [done|]. by rewrite <- IH, sinsert_fmap.
Qed.
End SortingKeys.

(** What [sort] requires of a [less] function. *)
Class StrictWeak {A} (less : A → A → bool) : Prop := {
  less_asym a b : less a b = true → less b a = false;
  nless_trans a b c : less b a = false → less c b = false → less c a = false;
}.

Section SortingSorted.
Context {A : Type} (less : A → A → bool) `{!StrictWeak less}.

#[export] Instance nless_Transitive : Transitive (nless less).
Proof. intros a b c. unfold nless. intros. by eapply nless_trans. Qed.

Lemma sinsert_sorted x l :
  StronglySorted (nless less) l → StronglySorted (nless less) (sinsert less x l).
Proof.
  induction 1 as [|y l Hl IH Hy]; simpl; [repeat constructor|].
  destruct (less x y) eqn:E.
  - constructor; [by constructor|]. apply less_asym in E.
    constructor; [done|]. eapply Forall_impl; [exact Hy|].
    intros z Hz. by transitivity y.
  - constructor; [done|]. rewrite sinsert_perm. by constructor.
Qed.

Lemma stable_sort_sorted l : StronglySorted (nless less) (stable_sort less l).
Proof.
  unfold stable_sort. assert (StronglySorted (nless less) []) as H by constructor.
  revert H. generalize (@nil A).
  induction l as [|x l IH]; intros acc Hacc; simpl; [done|].
  by apply IH, sinsert_sorted.
Qed.

Lemma sinsert_before x l : (∀ y, y ∈ l → less x y = true) → sinsert less x l = x :: l.
Proof. intros H. destruct l as [|y l]; [done|]. simpl. by rewrite (H y) by left. Qed.

(** Leaving rows out commutes with sorting. *)
Lemma filter_sinsert (P : A → Prop) `{!∀ x, Decision (P x)} x l : StronglySorted (nless less) l →
  filter P (sinsert less x l) = if decide (P x) then sinsert less x (filter P l) else filter P l.
Proof.
  induction 1 as [|y l Hl IH Hy]; simpl; [rewrite filter_cons, filter_nil; by case_decide|].
  destruct (less x y) eqn:E.
  - rewrite filter_cons. case_decide; [|done]. rewrite sinsert_before; [done|].
    intros z [_ Hz]%list_elem_of_filter. apply elem_of_cons in Hz as [->|Hz]; [done|]. eapply Forall_forall in Hy; [|done].
    destruct (less x z) eqn:Ez; [done|]. unfold nless in Hy. by rewrite (nless_trans y z x Hy Ez) in E.
  - rewrite !filter_cons, IH. destruct (decide (P y)); simpl; [|done]. destruct (decide (P x)); [|done]. simpl. by rewrite E.
Qed.

Lemma filter_stable_sort (P : A → Prop) `{!∀ x, Decision (P x)} l : filter P (stable_sort less l) = stable_sort less (filter P l).
Proof.
  unfold stable_sort. assert (StronglySorted (nless less) []) as Hnil by constructor. rewrite <- (filter_nil P) at 2.
  revert Hnil. generalize (@nil A). induction l as [|x l IH]; intros acc Hacc; simpl; [done|].
  rewrite filter_cons, IH by by apply sinsert_sorted. rewrite filter_sinsert by done. by destruct (decide (P x)).
Qed.

(** A sorted slice is determined by its elements when ties are equal. *)
Lemma sorted_unique l1 l2 :
  AntiSymm (=) (nless less) →
  StronglySorted (nless less) l1 → StronglySorted (nless less) l2 → l1 ≡ₚ l2 → l1 = l2.
Proof. intros ? H1 H2 Hp. by apply (StronglySorted_unique (nless less)). Qed.
End SortingSorted.

(** [less] given by a key in a totally ordered integer. *)
#[export] Instance key_strict_weak {A} (f : A → Z) : StrictWeak (λ a b, f a <? f b).
Proof. split; intros; go_bool; [apply Z.ltb_ge|apply Z.ltb_ge]; lia. Qed.

Lemma StronglySorted_fmap {A B} (R : A → A → Prop) (S : B → B → Prop) (f : A → B) l :
  (∀ a b, R a b → S (f a) (f b)) → StronglySorted R l → StronglySorted S (f <$> l).
Proof.
  intros HRS. induction 1; simpl; constructor; [done|].
  apply Forall_fmap. eapply Forall_impl; [done|]. naive_solver.
Qed.

(** Lexicographic byte order on strings, as Go's [<] compares them. *)
Definition str_ltb (a b : string) : bool := String.ltb a b.

Lemma str_nless_le a b : str_ltb b a = false ↔ String.le a b.
Proof.
  unfold str_ltb, String.ltb, String.le, String.leb. rewrite String.compare_antisym.
  destruct (String.compare a b); simpl; naive_solver.
Qed.

Lemma str_ltb_le a b : str_ltb a b = true ↔ String.le a b ∧ a ≠ b.
Proof.
  destruct (str_ltb a b) eqn:E; split; try done.
  - intros _. split.
    + apply str_nless_le. apply not_true_is_false. intros E'.
      unfold str_ltb, String.ltb in *. rewrite String.compare_antisym in E'.
      by destruct (String.compare a b).
    + intros ->. assert (String.le b b) as H by reflexivity.
      apply str_nless_le in H. congruence.
  - apply str_nless_le in E. intros [? []]. by apply (anti_symm String.le).
Qed.

#[export] Instance str_strict_weak : StrictWeak str_ltb.
Proof.
  split.
  - intros a b H. apply str_ltb_le in H as [??]. by apply str_nless_le.
  - intros a b c. rewrite !str_nless_le. intros. by transitivity b.
Qed.

(** ** Lists *)

Lemma filter_none {A} (P : A → Prop) `{!∀ x, Decision (P x)} (l : list A) :
  (∀ x, x ∈ l → ¬ P x) → filter P l = [].
Proof.
  induction l as [|x l IH]; intros Hl; [done|].
  rewrite filter_cons_False by (apply Hl; constructor). apply IH. intros y Hy. apply Hl. by constructor.
Qed.

Lemma filter_all {A} (P : A → Prop) `{!∀ x, Decision (P x)} (l : list A) :
  (∀ x, x ∈ l → P x) → filter P l = l.
Proof.
  induction l as [|x l IH]; intros Hl; [done|].
  rewrite filter_cons_True by (apply Hl; constructor). f_equal. apply IH. intros y Hy. apply Hl. by constructor.
Qed.

Lemma filter_ext_in {A} (P Q : A → Prop) `{!∀ x, Decision (P x), !∀ x, Decision (Q x)} (l : list A) :
  (∀ x, x ∈ l → P x ↔ Q x) → filter P l = filter Q l.
Proof.
  induction l as [|x l IH]; intros Hl; [done|]. rewrite !filter_cons, IH by (intros y Hy; apply Hl; by right).
  specialize (Hl x ltac:(by left)). destruct (decide (P x)), (decide (Q x)); tauto || done.
Qed.

Lemma elem_of_concat {A} (x : A) ls : x ∈ concat ls ↔ ∃ l, l ∈ ls ∧ x ∈ l.
Proof. rewrite list_elem_of_In, in_concat. by setoid_rewrite <- list_elem_of_In. Qed.

Lemma elem_of_concat_imap {A B} (f : nat → A → list B) l y :
  y ∈ concat (imap f l) ↔ ∃ i x, l !! i = Some x ∧ y ∈ f i x.
Proof.
  rewrite elem_of_concat. setoid_rewrite elem_of_lookup_imap. naive_solver.
Qed.

Lemma concat_nil {A} (l : list (list A)) : concat l = [] ↔ Forall (λ x, x = []) l.
Proof.
  induction l as [|x l IH]; simpl; [by split|].
  rewrite Forall_cons, <- IH. split; [apply app_nil|by intros [-> ->]].
Qed.

Lemma concat_imap_nil {A B} (f : nat → A → list B) l :
  concat (imap f l) = [] ↔ ∀ i x, l !! i = Some x → f i x = [].
Proof.
  rewrite concat_nil, Forall_lookup. setoid_rewrite list_lookup_imap_Some. naive_solver.
Qed.

Lemma elem_of_concat_fmap {A B} (f : A → list B) l y :
  y ∈ concat (f <$> l) ↔ ∃ x, x ∈ l ∧ y ∈ f x.
Proof. rewrite elem_of_concat. setoid_rewrite list_elem_of_fmap. naive_solver. Qed.

(** A key without duplicates determines the row. *)
Lemma key_unique {A B} (f : A → B) l x y : NoDup (f <$> l) → x ∈ l → y ∈ l → f x = f y → x = y.
Proof.
  intros Hnd [i Hi]%list_elem_of_lookup [j Hj]%list_elem_of_lookup Hk.
  assert (i = j) as ->; [|congruence]. eapply NoDup_lookup; [exact Hnd|..]; rewrite list_lookup_fmap.
  - by rewrite Hi.
  - rewrite Hj. simpl. by rewrite Hk.
Qed.

Lemma Forall2_elem_r {A B} (R : A → B → Prop) l l' y : Forall2 R l l' → y ∈ l' → ∃ x, x ∈ l ∧ R x y.
Proof.
  intros H [i Hi]%list_elem_of_lookup. destruct (Forall2_lookup_r _ _ _ _ _ H Hi) as (x & Hx & ?).
  exists x. split; [by eapply list_elem_of_lookup_2|done].
Qed.

(** A table built by inserting row after row. *)
Lemma foldl_insert_lookup {K A V} `{Countable K} (k : A → K) (v : A → V) (l : list A) (x : A) :
  NoDup (k <$> l) → x ∈ l → foldl (λ m y, <[k y := v y]> m) (∅ : gmap K V) l !! k x = Some (v x).
Proof.
  induction l as [|y l IH] using rev_ind; intros Hnd Hx; [by apply elem_of_nil in Hx|]. rewrite foldl_app. cbn [foldl].
  rewrite fmap_app in Hnd. apply NoDup_app in Hnd as (Hnd & Hni & _). apply elem_of_app in Hx as [Hx|Hx].
  - rewrite lookup_insert_ne; [by apply IH|]. intros He. apply (Hni (k x)); [by apply list_elem_of_fmap_2|]. rewrite <- He. left.
  - apply list_elem_of_singleton in Hx as ->. by rewrite lookup_insert_eq.
Qed.

Lemma Forall2_elem_l {A B} (R : A → B → Prop) l l' x : Forall2 R l l' → x ∈ l → ∃ y, y ∈ l' ∧ R x y.
Proof.
  intros H [i Hi]%list_elem_of_lookup. destruct (Forall2_lookup_l _ _ _ _ _ H Hi) as (y & Hy & ?).
  exists y. split; [by eapply list_elem_of_lookup_2|done].
Qed.

Lemma Forall2_impl_in {A B} (R R' : A → B → Prop) l l' : Forall2 R l l' → (∀ x y, x ∈ l → R x y → R' x y) → Forall2 R' l l'.
Proof. induction 1 as [|x y l l' Hx H IH]; intros Hr; constructor; [apply Hr; [left|done]|apply IH; intros ? ? ?; apply Hr; by right]. Qed.

(** Keys stay distinct through a filter that keeps the key. *)
Lemma NoDup_omap_key {A B K} (f : A → K) (g : B → K) (h : A → option B) l :
  (∀ x y, h x = Some y → g y = f x) → NoDup (f <$> l) → NoDup (g <$> omap h l).
Proof.
  intros Hh. induction l as [|x l IH]; intros Hnd; [constructor|]. rewrite fmap_cons in Hnd. apply NoDup_cons in Hnd as [Hx Hnd].
  cbn [omap list_omap]. destruct (h x) as [y|] eqn:E; [|by apply IH]. rewrite fmap_cons. apply NoDup_cons. split; [|by apply IH].
  intros (z & Hz & (w & Hw & Hwz)%list_elem_of_omap)%list_elem_of_fmap. apply Hx, list_elem_of_fmap. exists w. split; [|done].
  rewrite <- (Hh _ _ E), Hz. by apply Hh.
Qed.

Lemma NoDup_fmap_filter {A B} (f : A → B) (P : A → Prop) `{!∀ x, Decision (P x)} l : NoDup (f <$> l) → NoDup (f <$> filter P l).
Proof.
  induction l as [|x l IH]; [done|]. rewrite fmap_cons, NoDup_cons. intros [Hx Hl].
  destruct (decide (P x)); [|rewrite filter_cons_False by done; by apply IH].
  rewrite filter_cons_True, fmap_cons, NoDup_cons by done. split; [|by apply IH].
  intros (y & Hy & [_ Hin]%list_elem_of_filter)%list_elem_of_fmap. apply Hx, list_elem_of_fmap. eauto.
Qed.

(** ** Time

    A Go [time.Time] is its nanoseconds since the zero time, so [IsZero] is
    [= 0]; a [time.Duration] is an int64 number of nanoseconds and
    [time.Time.Sub] saturates. *)

Definition second : Z := 1000000000.
Definition maxDuration : Z := 2 ^ 63 - 1.
Definition minDuration : Z := - 2 ^ 63.

(** [time.Time.Sub]: saturating. *)
Definition Sub (t u : Z) : Z := minDuration `max` ((t - u) `min` maxDuration).

Lemma Sub_ge t u x : 0 <= x → x <= Sub t u → u + x <= t.
Proof. unfold Sub, minDuration. lia. Qed.

Lemma Sub_le t u x : x < maxDuration → Sub t u <= x → t <= u + x.
Proof. unfold Sub, minDuration, maxDuration. lia. Qed.

Lemma Sub_mono t t' u : t <= t' → Sub t u <= Sub t' u.
Proof. unfold Sub. lia. Qed.

(** ** Sliding windows

    Several parts keep the times of recent events: drop those older than the
    window, append the new one. *)

Definition slide (w now : Z) (l : list Z) : list Z := filter (λ t, Sub now t < w) l ++ [now].

(** Pruning as it goes keeps exactly the times inside the window. *)
Lemma slide_run w ts now :
  StronglySorted Z.le (ts ++ [now]) →
  slide w now (foldl (λ l t, slide w t l) [] ts) = filter (λ t, Sub now t < w) ts ++ [now].
Proof.
  unfold slide. revert now. induction ts as [|t ts IH] using rev_ind; intros now Hs; [done|].
  apply StronglySorted_app in Hs as (Hc & Hs & _).
  rewrite foldl_app. cbn [foldl]. rewrite IH, !filter_app by done. f_equal. f_equal.
  apply list_filter_filter_l. intros x Hx.
  assert (t <= now) as Hle. { apply Hc; [apply elem_of_app; right|]; by constructor. }
  pose proof (Sub_mono t now x Hle). lia.
Qed.
