(* ===== verification/GoStrings.v ===== *)
(** What the program uses of Go's [strings] and [strconv] packages.

    A Go string is a byte string; here a [string] (its bytes as [ascii]) or,
    while it is taken apart, the list of its bytes. *)

From Stdlib Require Import Strings.Ascii.
From stdpp Require Import pretty.
From S2P Require Import Prelude.

Abbreviation bytes := (list ascii).

Definition chars (s : string) : bytes := String.list_ascii_of_string s.
Definition of_chars (l : bytes) : string := String.string_of_list_ascii l.

Lemma of_chars_chars s : of_chars (chars s) = s.
Proof. apply String.string_of_list_ascii_of_string. Qed.
Lemma chars_of_chars l : chars (of_chars l) = l.
Proof. apply String.list_ascii_of_string_of_list_ascii. Qed.
Lemma chars_app a b : chars (a +:+ b) = chars a ++ chars b.
Proof. unfold chars. by induction a as [|c a IH]; [|unfold "+:+" in *; simpl; rewrite IH]. Qed.
Lemma chars_inj a b : chars a = chars b → a = b.
Proof. intros H. by rewrite <- (of_chars_chars a), <- (of_chars_chars b), H. Qed.
Lemma of_chars_app a b : of_chars (a ++ b) = of_chars a +:+ of_chars b.
Proof. apply chars_inj. by rewrite chars_app, !chars_of_chars. Qed.
Lemma length_chars s : length (chars s) = String.length s.
Proof. unfold chars. by induction s; simpl; [|f_equal]. Qed.

(** [byte] view of a string, for code that encodes it. *)
Definition string_bytes (s : string) : list byte := String.list_byte_of_string s.

Lemma string_bytes_inj a b : string_bytes a = string_bytes b → a = b.
Proof.
  intros H. rewrite <- (String.string_of_list_byte_of_string a).
  unfold string_bytes in H. rewrite H. apply String.string_of_list_byte_of_string.
Qed.

(** ** Characters *)

Definition code (c : ascii) : Z := Z.of_N (N_of_ascii c).
Definition in_range (lo hi : ascii) (c : ascii) : bool := (code lo <=? code c) && (code c <=? code hi).
Definition is_digit : ascii → bool := in_range "0" "9".
Definition is_lower : ascii → bool := in_range "a" "z".
Definition is_upper : ascii → bool := in_range "A" "Z".

Lemma code_inj a b : code a = code b → a = b.
Proof.
  unfold code. intros H%N2Z.inj.
  by rewrite <- (ascii_N_embedding a), <- (ascii_N_embedding b), H.
Qed.

(** ** Cutting *)

(** [strings.Cut] with a one-byte separator. *)
Fixpoint cut (sep : ascii) (l : bytes) : option (bytes * bytes) :=
  match l with
  | [] => None
  | c :: l' =>
      if decide (c = sep) then Some ([], l')
      else '(a, b) ← cut sep l'; Some (c :: a, b)
  end.

(** The split at [strings.LastIndex] of a one-byte separator. *)
Fixpoint cut_last (sep : ascii) (l : bytes) : option (bytes * bytes) :=
  match l with
  | [] => None
  | c :: l' =>
      match cut_last sep l' with
      | Some (a, b) => Some (c :: a, b)
      | None => if decide (c = sep) then Some ([], l') else None
      end
  end.

(** [strings.Split] with a one-byte separator; never empty. *)
Fixpoint split (sep : ascii) (l : bytes) : list bytes :=
  match l with
  | [] => [[]]
  | c :: l' =>
      if decide (c = sep) then [] :: split sep l'
      else match split sep l' with
           | w :: ws => (c :: w) :: ws
           | [] => [[c]]
           end
  end.

Lemma cut_app sep a b : sep ∉ a → cut sep (a ++ sep :: b) = Some (a, b).
Proof.
  induction a as [|c a IH]; simpl; intros Hn.
  - by rewrite decide_True.
  - rewrite decide_False by set_solver. rewrite IH by set_solver. done.
Qed.

Lemma cut_none sep a : sep ∉ a → cut sep a = None.
Proof.
  induction a as [|c a IH]; simpl; intros Hn; [done|].
  rewrite decide_False by set_solver. rewrite IH by set_solver. done.
Qed.

Lemma cut_last_none sep a : sep ∉ a → cut_last sep a = None.
Proof.
  induction a as [|c a IH]; simpl; intros Hn; [done|].
  rewrite IH by set_solver. rewrite decide_False by set_solver. done.
Qed.

Lemma cut_last_app sep a b : sep ∉ b → cut_last sep (a ++ sep :: b) = Some (a, b).
Proof.
  intros Hn. induction a as [|c a IH]; simpl.
  - rewrite cut_last_none by done. by rewrite decide_True.
  - by rewrite IH.
Qed.

Lemma split_none sep a : sep ∉ a → split sep a = [a].
Proof.
  induction a as [|c a IH]; simpl; intros Hn; [done|].
  rewrite decide_False by set_solver. by rewrite IH by set_solver.
Qed.

Lemma split_app sep a b : sep ∉ a → split sep (a ++ sep :: b) = a :: split sep b.
Proof.
  induction a as [|c a IH]; simpl; intros Hn.
  - by rewrite decide_True.
  - rewrite decide_False by set_solver. by rewrite IH by set_solver.
Qed.

(** [strings.HasPrefix] and the rest of the string ([strings.CutPrefix]). *)
Fixpoint cut_prefix (p l : bytes) : option bytes :=
  match p, l with
  | [], _ => Some l
  | c :: p', d :: l' => if decide (c = d) then cut_prefix p' l' else None
  | _ :: _, [] => None
  end.

(** [strings.CutSuffix], [strings.HasSuffix] and [strings.TrimSuffix]. *)
Definition cut_suffix (suf l : bytes) : option bytes := reverse <$> cut_prefix (reverse suf) (reverse l).
Definition has_suffix (suf l : bytes) : bool := bool_decide (is_Some (cut_suffix suf l)).
Definition trim_suffix (suf l : bytes) : bytes := default l (cut_suffix suf l).

Lemma cut_prefix_app p l : cut_prefix p (p ++ l) = Some l.
Proof. induction p as [|c p IH]; simpl; [by destruct l|]. by rewrite decide_True. Qed.

Lemma cut_prefix_Some p l r : cut_prefix p l = Some r → l = p ++ r.
Proof.
  revert l. induction p as [|c p IH]; intros [|d l]; simpl; intros; simplify_eq; try done.
  case_decide; [|done]. subst. f_equal. by apply IH.
Qed.

Lemma cut_suffix_app l suf : cut_suffix suf (l ++ suf) = Some l.
Proof. unfold cut_suffix. rewrite reverse_app, cut_prefix_app. cbn. by rewrite reverse_involutive. Qed.

Lemma cut_suffix_Some suf l r : cut_suffix suf l = Some r → l = r ++ suf.
Proof.
  unfold cut_suffix. intros (x & Hx%cut_prefix_Some & ->)%fmap_Some. rewrite <- (reverse_involutive l), Hx, reverse_app.
  by rewrite reverse_involutive.
Qed.

(** ** White space

    [strings.TrimSpace] strips the Unicode white space code points at both
    ends; these are their UTF-8 encodings. *)

Definition u8seq (l : list N) : bytes := ascii_of_N <$> l.

Definition spaces : list bytes := u8seq <$>
  [[9]; [10]; [11]; [12]; [13]; [32]; [194;133]; [194;160]; [225;154;128];
   [226;128;128]; [226;128;129]; [226;128;130]; [226;128;131]; [226;128;132]; [226;128;133];
   [226;128;134]; [226;128;135]; [226;128;136]; [226;128;137]; [226;128;138]; [226;128;168];
   [226;128;169]; [226;128;175]; [226;129;159]; [227;128;128]]%N.

Definition strip_one (pats : list bytes) (l : bytes) : option bytes :=
  foldr (λ p acc, match cut_prefix p l with Some r => Some r | None => acc end) None pats.

Fixpoint trim_left (fuel : nat) (pats : list bytes) (l : bytes) : bytes :=
  match fuel with
  | O => l
  | S k => match strip_one pats l with Some r => trim_left k pats r | None => l end
  end.

(** Every step strips at least one byte, so the length is enough fuel. *)
Definition trim_space (l : bytes) : bytes :=
  let l1 := trim_left (length l) spaces l in
  reverse (trim_left (length l1) (reverse <$> spaces) (reverse l1)).

(** A byte no white space sequence starts or ends with. *)
Definition plain (c : ascii) : bool := (33 <=? code c) && (code c <=? 126).

Lemma strip_one_plain c l : plain c = true → strip_one spaces (c :: l) = None.
Proof.
  unfold plain. intros H. go_bool. unfold strip_one, spaces. cbn [fmap list_fmap foldr u8seq].
  repeat match goal with
  | |- context [cut_prefix (?a :: ?p) (c :: l)] =>
      replace (cut_prefix (a :: p) (c :: l)) with (@None bytes)
        by (simpl; rewrite decide_False; [done|]; intros <-; vm_compute in *; naive_solver)
  end; done.
Qed.

Lemma strip_one_rev_plain c l : plain c = true → strip_one (reverse <$> spaces) (c :: l) = None.
Proof.
  unfold plain. intros H. go_bool. unfold strip_one, spaces.
  cbn [fmap list_fmap foldr u8seq reverse rev_append].
  repeat match goal with
  | |- context [cut_prefix (?a :: ?p) (c :: l)] =>
      replace (cut_prefix (a :: p) (c :: l)) with (@None bytes)
        by (simpl; rewrite decide_False; [done|]; intros <-; vm_compute in *; naive_solver)
  end; done.
Qed.

(** Strings without blanks or non-ASCII bytes are left alone. *)
Lemma trim_space_plain l : Forall (λ c, plain c = true) l → trim_space l = l.
Proof.
  intros H. unfold trim_space.
  assert (trim_left (length l) spaces l = l) as ->.
  { destruct H as [|c l Hc _]; [done|]. cbn [length trim_left]. by rewrite strip_one_plain. }
  apply Forall_reverse in H. rewrite <- length_reverse.
  destruct (reverse l) as [|c l'] eqn:E.
  - apply (f_equal reverse) in E. by rewrite reverse_involutive in E.
  - apply Forall_cons in H as [Hc _]. cbn [length trim_left].
    rewrite strip_one_rev_plain, <- E by done. by rewrite reverse_involutive.
Qed.

Lemma strip_one_None pats l : strip_one pats l = None ↔ ∀ p, p ∈ pats → cut_prefix p l = None.
Proof.
  induction pats as [|q pats IH]; cbn [strip_one foldr]; [split; [by intros _ p ?%elem_of_nil|done]|].
  destruct (cut_prefix q l) eqn:E; [split; [done|intros H; rewrite (H q) in E by left; done]|].
  rewrite IH. split; [intros H p [-> | Hp]%elem_of_cons; [done|by apply H]|intros H p Hp; apply H; by right].
Qed.

Lemma strip_one_Some pats l r : strip_one pats l = Some r → ∃ p, p ∈ pats ∧ l = p ++ r.
Proof.
  induction pats as [|q pats IH]; cbn [strip_one foldr]; [done|]. destruct (cut_prefix q l) eqn:E.
  - intros [= ->]. exists q. split; [by left|by apply cut_prefix_Some].
  - intros H. destruct (IH H) as (p & Hp & ->). exists p. split; [by right|done].
Qed.

(** The start of a string without white space at its start has none. *)
Lemma strip_one_prefix pats l m : strip_one pats (l ++ m) = None → strip_one pats l = None.
Proof.
  rewrite !strip_one_None. intros H p Hp. specialize (H p Hp). destruct (cut_prefix p l) as [r|] eqn:E; [|done].
  apply cut_prefix_Some in E as ->. by rewrite <- app_assoc, cut_prefix_app in H.
Qed.

Lemma trim_left_id n pats l : strip_one pats l = None → trim_left n pats l = l.
Proof. destruct n; [done|]. cbn. by intros ->. Qed.

Lemma trim_left_suffix n pats l : ∃ q, l = q ++ trim_left n pats l.
Proof.
  revert l. induction n as [|n IH]; intros l; cbn; [by exists []|]. destruct (strip_one pats l) as [r|] eqn:E; [|by exists []].
  apply strip_one_Some in E as (p & _ & ->). destruct (IH r) as [q Hq]. exists (p ++ q). by rewrite <- app_assoc, <- Hq.
Qed.

Lemma trim_left_done n pats l : [] ∉ pats → (length l ≤ n)%nat → strip_one pats (trim_left n pats l) = None.
Proof.
  intros Hne. revert l. induction n as [|n IH]; intros l Hl; cbn.
  - destruct l; [|cbn in Hl; lia]. apply strip_one_None. intros [|c p] Hp; done.
  - destruct (strip_one pats l) as [r|] eqn:E; [|done]. apply IH. apply strip_one_Some in E as ([|c p] & Hp & ->); [done|].
    cbn in Hl. rewrite length_app in Hl. lia.
Qed.

Lemma trim_space_idem l : trim_space (trim_space l) = trim_space l.
Proof.
  unfold trim_space. set (l1 := trim_left (length l) spaces l). set (r := trim_left (length l1) (reverse <$> spaces) (reverse l1)).
  assert (strip_one spaces l1 = None) as H1 by (apply trim_left_done; [apply (bool_decide_unpack _); by vm_compute|done]).
  assert (strip_one (reverse <$> spaces) r = None) as H2
    by (apply trim_left_done; [apply (bool_decide_unpack _); by vm_compute|by rewrite length_reverse]).
  assert (strip_one spaces (reverse r) = None) as H3.
  { destruct (trim_left_suffix (length l1) (reverse <$> spaces) (reverse l1)) as [q Hq]. fold r in Hq.
    apply (f_equal reverse) in Hq. rewrite reverse_involutive, reverse_app in Hq. rewrite Hq in H1. by eapply strip_one_prefix. }
  by rewrite !(trim_left_id _ spaces), reverse_involutive, trim_left_id by done.
Qed.

(** A trimmed text with a line feed after it is that text trimmed. *)
Lemma strip_one_newline t : strip_one spaces t = None → t ≠ [] → strip_one spaces (t ++ u8seq [10%N]) = None.
Proof.
  intros H Hne. apply strip_one_None. intros p Hp. destruct (cut_prefix p (t ++ u8seq [10%N])) as [r|] eqn:E; [|done]. apply cut_prefix_Some in E.
  assert (Forall (λ p, last p = head (u8seq [10%N]) → p = u8seq [10%N]) spaces) as Hlast by (apply (bool_decide_unpack _); by vm_compute).
  rewrite Forall_forall in Hlast. specialize (Hlast p Hp). destruct r as [|c r _] using rev_ind.
  - rewrite app_nil_r in E. subst p. rewrite last_app in Hlast. specialize (Hlast eq_refl). apply (f_equal length) in Hlast.
    rewrite length_app in Hlast. destruct t; [done|]. cbn in Hlast. lia.
  - rewrite app_assoc in E. apply app_inj_tail in E as [-> _]. rewrite strip_one_None in H. specialize (H p Hp). by rewrite cut_prefix_app in H.
Qed.

Lemma trim_space_newline l : trim_space (trim_space l ++ u8seq [10%N]) = trim_space l.
Proof.
  assert (strip_one spaces (trim_space l) = None ∧ strip_one (reverse <$> spaces) (reverse (trim_space l)) = None) as [H1 H2].
  { split.
    - rewrite <- trim_space_idem. unfold trim_space at 1. set (l1 := trim_left _ _ (trim_space l)). set (r := trim_left (length l1) (reverse <$> spaces) (reverse l1)).
      destruct (trim_left_suffix (length l1) (reverse <$> spaces) (reverse l1)) as [q Hq]. fold r in Hq.
      apply (f_equal reverse) in Hq. rewrite reverse_involutive, reverse_app in Hq. apply (strip_one_prefix _ _ (reverse q)). rewrite <- Hq.
      apply trim_left_done; [apply (bool_decide_unpack _); by vm_compute|done].
    - unfold trim_space. rewrite reverse_involutive. apply trim_left_done; [apply (bool_decide_unpack _); by vm_compute|by rewrite length_reverse]. }
  destruct (trim_space l) as [|c t] eqn:E; [by vm_compute|]. rewrite <- E in *. generalize dependent (trim_space l). intros m -> H1 H2.
  set (m := c :: t) in *. unfold trim_space. rewrite (trim_left_id _ spaces) by (by apply strip_one_newline). rewrite reverse_app.
  change (reverse (u8seq [10%N])) with (u8seq [10%N]). rewrite length_app, Nat.add_comm. cbn [length u8seq fmap list_fmap Nat.add]. cbn [trim_left].
  assert (strip_one (reverse <$> spaces) ([ascii_of_N 10] ++ reverse m) = Some (reverse m)) as -> by (cbn; reflexivity).
  rewrite trim_left_id by done. by rewrite reverse_involutive.
Qed.

(** ** Decimal numbers *)

Definition digit_val (c : ascii) : Z := code c - 48.

Fixpoint parse_dec_go (acc : Z) (l : bytes) : option Z :=
  match l with
  | [] => Some acc
  | c :: l' => if is_digit c then parse_dec_go (acc * 10 + digit_val c) l' else None
  end.

Definition parse_dec (l : bytes) : option Z :=
  match l with [] => None | _ => parse_dec_go 0 l end.

(** [strconv.ParseUint(s, 10, bits)]; the error is not inspected. *)
Definition parse_uint (bits : Z) (l : bytes) : option Z :=
  n ← parse_dec l; if n <? 2 ^ bits then Some n else None.

(** [strconv.Atoi] on a 64-bit platform. *)
Definition atoi (l : bytes) : option Z :=
  match l with
  | c :: l' =>
      if decide (c = "-"%char) then
        n ← parse_dec l'; if n <=? 2 ^ 63 then Some (- n) else None
      else
        n ← parse_dec (if decide (c = "+"%char) then l' else l);
        if n <? 2 ^ 63 then Some n else None
  | [] => None
  end.

(** [strconv.Itoa] and [%d]. *)
Definition itoa (z : Z) : string := pretty z.

Lemma parse_dec_go_nonneg l acc n : 0 <= acc → parse_dec_go acc l = Some n → 0 <= n.
Proof.
  revert acc. induction l as [|c l IH]; simpl; intros acc Hacc H; simplify_eq; [done|].
  destruct (is_digit c) eqn:E; [|done]. apply IH in H; [done|].
  unfold is_digit, in_range in E. go_bool. change (code "0") with 48 in *.
  unfold digit_val. lia.
Qed.

Lemma parse_uint_range bits l n : parse_uint bits l = Some n → 0 <= n < 2 ^ bits.
Proof.
  unfold parse_uint. destruct (parse_dec l) as [m|] eqn:E; simpl; [|done].
  destruct (m <? 2 ^ bits) eqn:E2; intros; simplify_eq. go_bool.
  split; [|done]. unfold parse_dec in E. destruct l; [done|].
  by eapply parse_dec_go_nonneg in E.
Qed.

Lemma parse_dec_go_pretty_N x s :
  parse_dec_go 0 (chars (pretty_N_go x s)) = parse_dec_go (Z.of_N x) (chars s).
Proof.
  revert s. induction (N.lt_wf_0 x) as [x _ IH]; intros s.
  destruct (decide (x = 0)%N) as [->|Hx]; [by rewrite pretty_N_go_0|].
  rewrite pretty_N_go_step by lia. rewrite IH by (apply N.div_lt; lia).
  unfold chars. cbn [String.list_ascii_of_string parse_dec_go].
  assert (x `mod` 10 < 10)%N as Hm by (apply N.mod_lt; lia).
  replace (is_digit (pretty_N_char (x `mod` 10))) with true.
  - f_equal. pose proof (N.div_mod x 10).
    assert (digit_val (pretty_N_char (x `mod` 10)) = Z.of_N (x `mod` 10)) as ->; [|lia].
    generalize dependent (x `mod` 10)%N. intros m Hm _.
    assert (m = 0 ∨ m = 1 ∨ m = 2 ∨ m = 3 ∨ m = 4 ∨ m = 5 ∨ m = 6 ∨ m = 7 ∨ m = 8 ∨ m = 9)%N by lia.
    naive_solver.
  - generalize dependent (x `mod` 10)%N. intros m Hm.
    assert (m = 0 ∨ m = 1 ∨ m = 2 ∨ m = 3 ∨ m = 4 ∨ m = 5 ∨ m = 6 ∨ m = 7 ∨ m = 8 ∨ m = 9)%N by lia.
    naive_solver.
Qed.

Lemma parse_dec_go_digits acc l n :
  parse_dec_go acc l = Some n → Forall (λ c, is_digit c = true) l.
Proof.
  revert acc. induction l as [|c l IH]; intros acc; simpl; [by constructor|].
  destruct (is_digit c) eqn:E; [|done]. intros. constructor; eauto.
Qed.

(** Printing a non-negative number and parsing it back. *)
Lemma parse_dec_itoa n : 0 <= n → parse_dec (chars (itoa n)) = Some n.
Proof.
  intros Hn. unfold itoa. destruct n as [|p|p]; [done| |lia].
  change (pretty (Z.pos p)) with (pretty (N.pos p)). unfold pretty, pretty_N.
  rewrite decide_False by done. pose proof (parse_dec_go_pretty_N (N.pos p) "") as H.
  unfold parse_dec. destruct (chars (pretty_N_go (N.pos p) "")) eqn:E.
  - simpl in H. naive_solver.
  - by rewrite H.
Qed.

Lemma itoa_digits n : 0 <= n → Forall (λ c, is_digit c = true) (chars (itoa n)).
Proof.
  intros Hn. apply parse_dec_itoa in Hn. unfold parse_dec in Hn.
  destruct (chars (itoa n)); [done|]. by eapply parse_dec_go_digits.
Qed.

Lemma itoa_nonempty n : 0 <= n → chars (itoa n) ≠ [].
Proof. intros Hn E. apply parse_dec_itoa in Hn. by rewrite E in Hn. Qed.

Lemma atoi_itoa_cases n : 0 <= n → atoi (chars (itoa n)) = if n <? 2 ^ 63 then Some n else None.
Proof.
  intros Hn. pose proof (parse_dec_itoa n Hn) as Hp. pose proof (itoa_digits n Hn) as Hd.
  unfold atoi. destruct (chars (itoa n)) as [|c l]; [done|]. apply Forall_cons in Hd as [Hc _].
  destruct (decide (c = "-"%char)) as [->|]; [done|]. destruct (decide (c = "+"%char)) as [->|]; [done|].
  by rewrite Hp.
Qed.

Lemma atoi_itoa n : 0 <= n < 2 ^ 63 → atoi (chars (itoa n)) = Some n.
Proof. intros Hn. rewrite atoi_itoa_cases by lia. by rewrite (proj2 (Z.ltb_lt n (2 ^ 63))) by lia. Qed.

Lemma parse_uint_itoa bits n : 0 <= n < 2 ^ bits → parse_uint bits (chars (itoa n)) = Some n.
Proof.
  intros Hn. unfold parse_uint. rewrite parse_dec_itoa by lia. simpl.
  by rewrite (proj2 (Z.ltb_lt _ _)) by lia.
Qed.

Lemma itoa_inj a b : itoa a = itoa b → a = b.
Proof. apply pretty_Z_inj. Qed.

Lemma digit_not_in c l :
  is_digit c = false → Forall (λ c, is_digit c = true) l → c ∉ l.
Proof. intros Hc Hl Hin. rewrite Forall_forall in Hl. apply Hl in Hin. congruence. Qed.

Lemma is_digit_plain c : is_digit c = true → plain c = true.
Proof.
  unfold is_digit, in_range, plain. change (code "0") with 48. change (code "9") with 57.
  intros H. go_bool. apply andb_true_iff. split; apply Z.leb_le; lia.
Qed.

(** [strings.ToLower] as far as its result is compared with ASCII text: ASCII
    letters, and the two code points outside ASCII (U+0130, U+212A) whose lower
    case is the ASCII letter i or k.  Every other non-ASCII code point maps to a
    non-ASCII one and is left as it is. *)
Fixpoint to_lower (l : bytes) : bytes :=
  match l with
  | [] => []
  | c :: l1 =>
      let here := if is_upper c then ascii_of_N (N_of_ascii c + 32) else c in
      match l1 with
      | d :: l2 =>
          if decide (code c = 196 ∧ code d = 176) then "i"%char :: to_lower l2
          else match l2 with
          | e :: l3 =>
              if decide (code c = 226 ∧ code d = 132 ∧ code e = 170)
              then "k"%char :: to_lower l3
              else here :: to_lower l1
          | [] => here :: to_lower l1
          end
      | [] => [here]
      end
  end.

Example to_lower_tcp : to_lower (chars "TcP") = chars "tcp".
Proof. reflexivity. Qed.
Example itoa_1280 : itoa 1280 = "1280".
Proof. reflexivity. Qed.
