(* ===== verification/Base64.v ===== *)
(** Base64 as [encoding/base64] has it: the standard alphabet with padding, for
    keys and signatures, and the URL alphabet without, for secrets. *)

From Stdlib Require Import Strings.Ascii.
From S2P Require Import Prelude GoStrings.

Fixpoint sextets (l : list byte) : list Z :=
  match l with
  | a :: b :: c :: r =>
      let n := be_dec [a; b; c] in
      Z.shiftr n 18 :: Z.land (Z.shiftr n 12) 63 :: Z.land (Z.shiftr n 6) 63 :: Z.land n 63 :: sextets r
  | [a; b] => let n := Z.shiftl (be_dec [a; b]) 2 in [Z.shiftr n 12; Z.land (Z.shiftr n 6) 63; Z.land n 63]
  | [a] => let n := Z.shiftl (bz a) 4 in [Z.shiftr n 6; Z.land n 63]
  | [] => []
  end.

Definition url_alphabet : bytes :=
  chars "ABCDEFGHIJKLMNOPQRSTUVWXYZabcdefghijklmnopqrstuvwxyz0123456789-_".
Definition std_alphabet : bytes :=
  chars "ABCDEFGHIJKLMNOPQRSTUVWXYZabcdefghijklmnopqrstuvwxyz0123456789+/".

Definition letter (alphabet : bytes) (z : Z) : ascii := default "A"%char (alphabet !! Z.to_nat z).

(** [RawURLEncoding.EncodeToString]. *)
Definition raw_url_base64 (l : list byte) : string := of_chars (letter url_alphabet <$> sextets l).

(** What fills the last group of four. *)
Definition padding (n : nat) : bytes := match (n mod 3)%nat with 1%nat => ["="%char; "="%char] | 2%nat => ["="%char] | _ => [] end.

(** [StdEncoding.EncodeToString]. *)
Definition std_base64 (l : list byte) : string := of_chars ((letter std_alphabet <$> sextets l) ++ padding (length l)).

Definition sextet (c : ascii) : option Z :=
  match list_find (λ d, d = c) std_alphabet with Some (i, _) => Some (Z.of_nat i) | None => None end.

Definition is_newline (c : ascii) : bool := bool_decide (c = ascii_of_N 10) || bool_decide (c = ascii_of_N 13).

(** Groups of four; the padding ends the text, and the bits a padded group
    leaves over are not looked at. *)
Fixpoint decode_groups (l : bytes) : option (list byte) :=
  match l with
  | [] => Some []
  | a :: b :: c :: d :: r =>
      va ← sextet a; vb ← sextet b;
      if bool_decide (c = "="%char) then
        if bool_decide (d = "="%char) && bool_decide (r = []) then Some (be_enc 1 (Z.shiftr (va * 2 ^ 6 + vb) 4)) else None
      else
        vc ← sextet c;
        if bool_decide (d = "="%char) then
          if bool_decide (r = []) then Some (be_enc 2 (Z.shiftr (va * 2 ^ 12 + vb * 2 ^ 6 + vc) 2)) else None
        else
          vd ← sextet d; rest ← decode_groups r;
          Some (be_enc 3 (va * 2 ^ 18 + vb * 2 ^ 12 + vc * 2 ^ 6 + vd) ++ rest)
  | _ => None
  end.

(** [StdEncoding.DecodeString]: line breaks are skipped. *)
Definition std_decode (s : string) : option (list byte) := decode_groups (filter (λ c, is_newline c = false) (chars s)).

Example base64_demo :
  raw_url_base64 [Byte.x14; Byte.xfb; Byte.x9c; Byte.x03; Byte.xd9; Byte.x7e] = "FPucA9l-" ∧
  std_base64 [Byte.x14; Byte.xfb; Byte.x9c; Byte.x03] = "FPucAw==" ∧
  std_decode "FPuc
Aw==" = Some [Byte.x14; Byte.xfb; Byte.x9c; Byte.x03] ∧ std_decode "FPucA===" = None.
Proof. vm_compute. done. Qed.

(** ** Lemmas *)

Definition sextet_ok (z : Z) : Prop := 0 <= z < 64.

Lemma land_63 n : Z.land n 63 = n `mod` 64.
Proof. change 63 with (Z.ones 6). by rewrite Z.land_ones. Qed.

Lemma letters_checked :
  Forall (λ i, sextet (letter std_alphabet (Z.of_nat i)) = Some (Z.of_nat i) ∧
               letter std_alphabet (Z.of_nat i) ≠ "="%char ∧ is_newline (letter std_alphabet (Z.of_nat i)) = false) (seq 0 64).
Proof. repeat constructor; done. Qed.

Lemma letter_spec z :
  sextet_ok z → sextet (letter std_alphabet z) = Some z ∧ letter std_alphabet z ≠ "="%char ∧
    is_newline (letter std_alphabet z) = false.
Proof.
  intros Hz. pose proof letters_checked as H. rewrite Forall_forall in H.
  specialize (H (Z.to_nat z)). rewrite Z2Nat.id in H by apply Hz. apply H, elem_of_seq.
  unfold sextet_ok in Hz. lia.
Qed.

Lemma be_dec_3 a b c : be_dec [a; b; c] = bz a * 65536 + bz b * 256 + bz c.
Proof. unfold be_dec. simpl. lia. Qed.
Lemma be_dec_2 a b : be_dec [a; b] = bz a * 256 + bz b.
Proof. unfold be_dec. simpl. lia. Qed.

Lemma sextets_range l : Forall sextet_ok (sextets l).
Proof.
  induction l as [l IH] using (induction_ltof1 _ (@length _)). unfold ltof in IH. unfold sextet_ok in *.
  destruct l as [|a [|b [|c r]]]; cbn [sextets];
    rewrite ?be_dec_3, ?be_dec_2, ?land_63, ?Z.shiftr_div_pow2, ?Z.shiftl_mul_pow2 by lia.
  - constructor.
  - pose proof (bz_range a). repeat constructor; Z.to_euclidean_division_equations; lia.
  - pose proof (bz_range a). pose proof (bz_range b). repeat constructor; Z.to_euclidean_division_equations; lia.
  - pose proof (bz_range a). pose proof (bz_range b). pose proof (bz_range c).
    repeat (constructor; [Z.to_euclidean_division_equations; lia|]). apply IH. simpl. lia.
Qed.

Lemma be_enc_1 a : be_enc 1 (bz a) = [a].
Proof. change [a] with ([] ++ [a]) at 1. exact (be_enc_dec [a]). Qed.

Lemma decode_sextets l : decode_groups ((letter std_alphabet <$> sextets l) ++ padding (length l)) = Some l.
Proof.
  induction l as [l IH] using (induction_ltof1 _ (@length _)). unfold ltof in IH.
  pose proof (sextets_range l) as Hr.
  destruct l as [|a [|b [|c r]]]; cbn [sextets] in *; [done|..].
  - apply Forall_cons in Hr as [H1 [H2 _]%Forall_cons]. cbn [fmap list_fmap app length padding decode_groups].
    change (padding 1) with ["="%char; "="%char]. cbn [app].
    rewrite (proj1 (letter_spec _ H1)), (proj1 (letter_spec _ H2)). cbn [mbind option_bind].
    cbn [bool_decide decide_rel]. f_equal.
    rewrite <- be_enc_1. f_equal. clear. pose proof (bz_range a).
    rewrite land_63, !Z.shiftr_div_pow2, Z.shiftl_mul_pow2 by lia. Z.to_euclidean_division_equations; lia.
  - apply Forall_cons in Hr as [H1 [H2 [H3 _]%Forall_cons]%Forall_cons]. cbn [fmap list_fmap app length].
    change (padding 2) with ["="%char]. cbn [app decode_groups].
    destruct (letter_spec _ H1) as (-> & _), (letter_spec _ H2) as (-> & _), (letter_spec _ H3) as (Hs3 & Hn3 & _).
    cbn [mbind option_bind]. rewrite bool_decide_eq_false_2 by done. rewrite Hs3. cbn [mbind option_bind bool_decide decide_rel].
    f_equal. transitivity (be_enc 2 (be_dec [a; b])); [|exact (be_enc_dec [a; b])]. f_equal. clear. pose proof (bz_range a). pose proof (bz_range b).
    rewrite !land_63, !Z.shiftr_div_pow2, Z.shiftl_mul_pow2, be_dec_2 by lia. Z.to_euclidean_division_equations; lia.
  - apply Forall_cons in Hr as [H1 [H2 [H3 [H4 _]%Forall_cons]%Forall_cons]%Forall_cons].
    assert (padding (length (a :: b :: c :: r)) = padding (length r)) as ->.
    { unfold padding. cbn [length]. change (S (S (S (length r)))) with (3 + length r)%nat.
      by rewrite <- (Nat.mul_1_l 3) at 1; rewrite Nat.add_comm, Nat.Div0.mod_add. }
    cbn [fmap list_fmap app decode_groups].
    destruct (letter_spec _ H1) as (-> & _), (letter_spec _ H2) as (-> & _), (letter_spec _ H3) as (Hs3 & Hn3 & _),
      (letter_spec _ H4) as (Hs4 & Hn4 & _).
    cbn [mbind option_bind]. rewrite bool_decide_eq_false_2 by done. rewrite Hs3. cbn [mbind option_bind].
    rewrite bool_decide_eq_false_2 by done. rewrite Hs4. cbn [mbind option_bind].
    fold (fmap (M := list) (letter std_alphabet)). rewrite IH by (simpl; lia). cbn [mbind option_bind].
    f_equal. change (a :: b :: c :: r) with ([a; b; c] ++ r). f_equal.
    transitivity (be_enc 3 (be_dec [a; b; c])); [|exact (be_enc_dec [a; b; c])]. f_equal. clear.
    pose proof (be_dec_range [a; b; c]) as Hd. set (n := be_dec [a; b; c]) in *. cbn [length] in Hd.
    change (256 ^ Z.of_nat 3) with 16777216 in Hd.
    rewrite !land_63, !Z.shiftr_div_pow2 by lia. Z.to_euclidean_division_equations; lia.
Qed.

Lemma std_decode_encode l : std_decode (std_base64 l) = Some l.
Proof.
  unfold std_decode, std_base64. rewrite chars_of_chars.
  rewrite filter_all; [apply decode_sextets|]. intros c [(z & -> & Hz)%list_elem_of_fmap | Hc]%elem_of_app.
  - pose proof (sextets_range l) as Hr. rewrite Forall_forall in Hr. by apply letter_spec, Hr.
  - unfold padding in Hc. destruct (length l mod 3)%nat as [|[|[|]]]; simpl in Hc;
      repeat (apply elem_of_cons in Hc as [-> | Hc]; [done|]); by apply elem_of_nil in Hc.
Qed.

Lemma std_base64_inj l l' : std_base64 l = std_base64 l' → l = l'.
Proof. intros H. pose proof (std_decode_encode l) as Hl. rewrite H, std_decode_encode in Hl. congruence. Qed.
