(* ===== verification/Sha256.v ===== *)
(** SHA-256 (Go's [crypto/sha256]), which the program hashes policy files,
    keys and secrets with, and [encoding/hex]. *)

From Stdlib Require Import Strings.Ascii.
From S2P Require Import Prelude GoStrings.

Definition rotr (n x : Z) : Z := Z.lor (Z.shiftr x n) (u32 (Z.shiftl x (32 - n))).
Definition ch (x y z : Z) : Z := Z.lxor (Z.land x y) (Z.land (2 ^ 32 - 1 - x) z).
Definition maj (x y z : Z) : Z := Z.lxor (Z.lxor (Z.land x y) (Z.land x z)) (Z.land y z).
Definition bsig0 (x : Z) : Z := Z.lxor (Z.lxor (rotr 2 x) (rotr 13 x)) (rotr 22 x).
Definition bsig1 (x : Z) : Z := Z.lxor (Z.lxor (rotr 6 x) (rotr 11 x)) (rotr 25 x).
Definition ssig0 (x : Z) : Z := Z.lxor (Z.lxor (rotr 7 x) (rotr 18 x)) (Z.shiftr x 3).
Definition ssig1 (x : Z) : Z := Z.lxor (Z.lxor (rotr 17 x) (rotr 19 x)) (Z.shiftr x 10).

(** The constants by their definition: the first 32 bits of the fractional
    parts of the cube roots of the first 64 primes, and of the square roots of
    the first eight. *)
Definition is_prime (n : nat) : bool :=
  forallb (λ d, negb (n mod d =? 0)%nat) (seq 2 (Nat.sqrt n - 1)).
Definition first_primes : list nat := filter (λ n, is_prime n = true) (seq 2 310).

(** The integer cube root, bit by bit from bit [k - 1] down. *)
Fixpoint cube_root (k : nat) (r n : Z) : Z :=
  match k with
  | O => r
  | S k' =>
      let r' := r + 2 ^ Z.of_nat k' in
      cube_root k' (if r' * r' * r' <=? n then r' else r) n
  end.

Definition round_constants : list Z :=
  Eval vm_compute in (λ p, u32 (cube_root 36 0 (Z.of_nat p * 2 ^ 96))) <$> first_primes.
Definition initial_hash : list Z :=
  Eval vm_compute in (λ p, u32 (Z.sqrt (Z.of_nat p * 2 ^ 64))) <$> take 8 first_primes.

(** The message schedule, newest word first. *)
Fixpoint schedule (fuel : nat) (ws : list Z) : list Z :=
  match fuel with
  | O => ws
  | S k =>
      let w i := nth i ws 0 in
      schedule k (u32 (ssig1 (w 1%nat) + w 6%nat + ssig0 (w 14%nat) + w 15%nat) :: ws)
  end.

Definition round (st : list Z) (kw : Z * Z) : list Z :=
  match st with
  | [a; b; c; d; e; f; g; h] =>
      let t1 := h + bsig1 e + ch e f g + kw.1 + kw.2 in
      let t2 := bsig0 a + maj a b c in
      [u32 (t1 + t2); a; b; c; u32 (d + t1); e; f; g]
  | _ => st
  end.

Definition compress (st : list Z) (words : list Z) : list Z :=
  let w := reverse (schedule 48 (reverse words)) in
  zip_with (λ x y, u32 (x + y)) st (foldl round st (zip round_constants w)).

(** The list cut into pieces of [n]. *)
Fixpoint chunks {A} (fuel n : nat) (l : list A) : list (list A) :=
  match fuel, l with
  | S k, _ :: _ => take n l :: chunks k n (drop n l)
  | _, _ => []
  end.

Definition pad (msg : list byte) : list byte :=
  let len := length msg in
  msg ++ [Byte.x80] ++ replicate ((119 - len `mod` 64) `mod` 64) Byte.x00
    ++ be_enc 8 (8 * Z.of_nat len).

Definition sha256 (msg : list byte) : list byte :=
  let p := pad msg in
  let blocks := chunks (S (length p)) 64 p in
  let words b := be_dec <$> chunks 16 4 b in
  concat (be_enc 4 <$> foldl (λ st b, compress st (words b)) initial_hash blocks).

Definition hex_char (z : Z) : ascii := ascii_of_N (Z.to_N (if z <? 10 then 48 + z else 87 + z)).
(** [hex.EncodeToString]. *)
Definition hex (l : list byte) : string :=
  of_chars (concat ((λ b, [hex_char (bz b `div` 16); hex_char (bz b `mod` 16)]) <$> l)).

Example sha256_empty :
  hex (sha256 []) = "e3b0c44298fc1c149afbf4c8996fb92427ae41e4649b934ca495991b7852b855".
Proof. vm_compute. reflexivity. Qed.
Example sha256_abc :
  hex (sha256 (string_bytes "abc")) = "ba7816bf8f01cfea414140de5dae2223b00361a396177a9cb410ff61f20015ad".
Proof. vm_compute. reflexivity. Qed.
Example sha256_two_blocks :
  hex (sha256 (string_bytes "abcdbcdecdefdefgefghfghighijhijkijkljklmklmnlmnomnopnopq"))
  = "248d6a61d20638b8e5c026930c3e6039a33ce45964ff2167f6ecedd419db06c1".
Proof. vm_compute. reflexivity. Qed.
