(* ===== verification/NetIP.v ===== *)
(** Go's [net/netip]: addresses, prefixes and address-port pairs as the
    program uses them, with their text forms.

    An address is invalid (the zero [Addr]), IPv4, or IPv6 with an optional
    zone; its bits are an integer of 32 or 128 bits.  An IPv4-mapped IPv6
    address stays an [Addr6], as in Go. *)

From Stdlib Require Import Strings.Ascii.
From S2P Require Import Prelude GoStrings.

Inductive addr : Type :=
  | AddrNone
  | Addr4 (a : Z)
  | Addr6 (a : Z) (zone : string).

#[export] Instance addr_eq_dec : EqDecision addr.
Proof. solve_decision. Defined.

#[export] Program Instance addr_countable : Countable addr :=
  inj_countable'
    (λ x, match x with
          | AddrNone => inl ()
          | Addr4 a => inr (inl a)
          | Addr6 a z => inr (inr (a, z))
          end)
    (λ x, match x with
          | inl () => AddrNone
          | inr (inl a) => Addr4 a
          | inr (inr (a, z)) => Addr6 a z
          end) _.
Next Obligation. by intros []. Qed.

(** The bits fit their width. *)
Definition addr_wf (x : addr) : Prop :=
  match x with
  | AddrNone => True
  | Addr4 a => 0 <= a < 2 ^ 32
  | Addr6 a _ => 0 <= a < 2 ^ 128
  end.

Definition IsValid (x : addr) : bool := match x with AddrNone => false | _ => true end.
Definition Is4 (x : addr) : bool := match x with Addr4 _ => true | _ => false end.
Definition Is6 (x : addr) : bool := match x with Addr6 _ _ => true | _ => false end.
Definition Zone (x : addr) : string := match x with Addr6 _ z => z | _ => "" end.
Definition hasZone (x : addr) : bool := bool_decide (Zone x ≠ "").
Definition BitLen (x : addr) : Z :=
  match x with AddrNone => 0 | Addr4 _ => 32 | Addr6 _ _ => 128 end.
Definition addr_bits (x : addr) : Z :=
  match x with AddrNone => 0 | Addr4 a => a | Addr6 a _ => a end.

Definition Is4In6 (x : addr) : bool :=
  match x with Addr6 a _ => a `div` 2 ^ 32 =? 65535 | _ => false end.

Definition Unmap (x : addr) : addr :=
  if Is4In6 x then Addr4 (addr_bits x `mod` 2 ^ 32) else x.

(** [Addr.Compare], [Addr.Less]: by bit length, then by value, then by zone. *)
Definition addr_ltb (x y : addr) : bool :=
  if BitLen x =? BitLen y then
    if addr_bits x =? addr_bits y then str_ltb (Zone x) (Zone y)
    else addr_bits x <? addr_bits y
  else BitLen x <? BitLen y.

Definition Next (x : addr) : addr :=
  match x with
  | AddrNone => AddrNone
  | Addr4 a => if a + 1 =? 2 ^ 32 then AddrNone else Addr4 (a + 1)
  | Addr6 a z => if a + 1 =? 2 ^ 128 then AddrNone else Addr6 (a + 1) z
  end.

Definition v4byte0 (a : Z) : Z := a `div` 2 ^ 24.
Definition v6byte0 (a : Z) : Z := a `div` 2 ^ 120.

Definition IsLoopback (x : addr) : bool :=
  match Unmap x with
  | AddrNone => false
  | Addr4 a => v4byte0 a =? 127
  | Addr6 a _ => a =? 1
  end.
Definition IsUnspecified (x : addr) : bool :=
  bool_decide (x = Addr4 0) || bool_decide (x = Addr6 0 "").
Definition IsMulticast (x : addr) : bool :=
  match Unmap x with
  | AddrNone => false
  | Addr4 a => Z.land (v4byte0 a) 240 =? 224
  | Addr6 a _ => v6byte0 a =? 255
  end.

(** [As4], [As16], [AddrFrom4], [AddrFrom16], [AddrFromSlice]. *)
Definition addr4_bytes (a : Z) : list byte := be_enc 4 a.
Definition As16 (x : addr) : list byte :=
  match x with
  | AddrNone => be_enc 16 0
  | Addr4 a => be_enc 16 (65535 * 2 ^ 32 + a)
  | Addr6 a _ => be_enc 16 a
  end.
Definition AddrFrom4 (b : list byte) : addr := Addr4 (be_dec b).
Definition AddrFrom16 (b : list byte) : addr := Addr6 (be_dec b) "".
Definition AddrFromSlice (b : list byte) : option addr :=
  match length b with
  | 4%nat => Some (AddrFrom4 b)
  | 16%nat => Some (AddrFrom16 b)
  | _ => None
  end.

(** ** Prefixes *)

(** [bits] is -1 for an invalid prefix. *)
Record prefix := Prefix { paddr : addr; pbits : Z }.

#[export] Instance prefix_eq_dec : EqDecision prefix.
Proof. solve_decision. Defined.
#[export] Program Instance prefix_countable : Countable prefix :=
  inj_countable' (λ p, (paddr p, pbits p)) (λ '(a, b), Prefix a b) _.
Next Obligation. by intros []. Qed.

(** The zero [Prefix]. *)
Definition NoPrefix : prefix := Prefix AddrNone (-1).

Definition withoutZone (x : addr) : addr :=
  match x with Addr6 a _ => Addr6 a "" | _ => x end.

Definition PrefixFrom (x : addr) (bits : Z) : prefix :=
  Prefix (withoutZone x)
    (if IsValid x && (0 <=? bits) && (bits <=? BitLen x) then bits else -1).

Definition PIsValid (p : prefix) : bool := 0 <=? pbits p.

(** The invariant of every [Prefix] value the constructors build. *)
Definition prefix_wf (p : prefix) : Prop :=
  addr_wf (paddr p) ∧ Zone (paddr p) = "" ∧
  (pbits p = -1 ∨ IsValid (paddr p) = true ∧ 0 <= pbits p <= BitLen (paddr p)).

(** The first [bits] bits of an address of width [w]. *)
Definition mask_top (w bits a : Z) : Z := a `div` 2 ^ (w - bits) * 2 ^ (w - bits).

Definition addr_mask (x : addr) (bits : Z) : addr :=
  match x with
  | AddrNone => AddrNone
  | Addr4 a => Addr4 (mask_top 32 bits a)
  | Addr6 a _ => Addr6 (mask_top 128 bits a) ""
  end.

Definition Masked (p : prefix) : prefix :=
  if PIsValid p then Prefix (addr_mask (paddr p) (pbits p)) (pbits p) else NoPrefix.

Definition Contains (p : prefix) (x : addr) : bool :=
  if negb (PIsValid p) || hasZone x then false
  else match paddr p, x with
       | Addr4 a, Addr4 b => a `div` 2 ^ (32 - pbits p) =? b `div` 2 ^ (32 - pbits p)
       | Addr6 a _, Addr6 b _ => a `div` 2 ^ (128 - pbits p) =? b `div` 2 ^ (128 - pbits p)
       | _, _ => false
       end.

Definition Overlaps (p o : prefix) : bool :=
  if negb (PIsValid p) || negb (PIsValid o) then false
  else if bool_decide (p = o) then true
  else if negb (eqb (Is4 (paddr p)) (Is4 (paddr o))) then false
  else let minBits := Z.min (pbits p) (pbits o) in
       if minBits =? 0 then true
       else bool_decide (addr_mask (paddr p) minBits = addr_mask (paddr o) minBits).

(** ** Address and port *)

Record addrport := AddrPort { apaddr : addr; apport : Z }.

#[export] Instance addrport_eq_dec : EqDecision addrport.
Proof. solve_decision. Defined.
#[export] Program Instance addrport_countable : Countable addrport :=
  inj_countable' (λ p, (apaddr p, apport p)) (λ '(a, b), AddrPort a b) _.
Next Obligation. by intros []. Qed.

Definition NoAddrPort : addrport := AddrPort AddrNone 0.
Definition APIsValid (ap : addrport) : bool := IsValid (apaddr ap).

(** ** Text forms *)

Definition v4_octet (a : Z) (i : Z) : Z := (a `div` 2 ^ (8 * (3 - i))) `mod` 256.

Definition v4_string (a : Z) : string :=
  itoa (v4_octet a 0) +:+ "." +:+ itoa (v4_octet a 1) +:+ "." +:+
  itoa (v4_octet a 2) +:+ "." +:+ itoa (v4_octet a 3).

Definition hex_digit (z : Z) : ascii :=
  ascii_of_N (Z.to_N (if z <? 10 then 48 + z else 87 + z)).

(** Lower-case hexadecimal of a 16-bit group, without leading zeros. *)
Definition hex16 (z : Z) : bytes :=
  let d i := hex_digit ((z `div` 16 ^ i) `mod` 16) in
  if 4096 <=? z then [d 3; d 2; d 1; d 0]
  else if 256 <=? z then [d 2; d 1; d 0]
  else if 16 <=? z then [d 1; d 0]
  else [d 0].

Definition v6_group (a : Z) (i : nat) : Z := (a `div` 2 ^ (16 * (7 - Z.of_nat i))) `mod` 2 ^ 16.
Definition v6_groups (a : Z) : list Z := v6_group a <$> seq 0 8.

(** Length of the run of zero groups starting the list. *)
Fixpoint zero_run (gs : list Z) : nat :=
  match gs with g :: gs' => if g =? 0 then S (zero_run gs') else 0%nat | [] => 0%nat end.

(** The first longest run of at least two zero groups: (start, length). *)
Fixpoint best_run (i : nat) (gs : list Z) (best : nat * nat) : nat * nat :=
  match gs with
  | [] => best
  | _ :: gs' =>
      let l := zero_run gs in
      best_run (S i) gs' (if ((2 <=? l)%nat && (best.2 <? l)%nat)%bool then (i, l) else best)
  end.

Definition join_groups (gs : list Z) : bytes :=
  match hex16 <$> gs with
  | [] => []
  | w :: ws => foldl (λ acc w, acc ++ ":"%char :: w) w ws
  end.

Definition v6_chars (a : Z) : bytes :=
  let gs := v6_groups a in
  match best_run 0 gs (0%nat, 0%nat) with
  | (_, O) => join_groups gs
  | (s, l) => join_groups (take s gs) ++ chars "::" ++ join_groups (drop (s + l) gs)
  end.

Definition zone_suffix (z : string) : string := if decide (z = "") then "" else "%" +:+ z.

Definition addr_string (x : addr) : string :=
  match x with
  | AddrNone => "invalid IP"
  | Addr4 a => v4_string a
  | Addr6 a z =>
      (if Is4In6 x then "::ffff:" +:+ v4_string (a `mod` 2 ^ 32)
       else of_chars (v6_chars a)) +:+ zone_suffix z
  end.

Definition prefix_string (p : prefix) : string :=
  if PIsValid p then addr_string (paddr p) +:+ "/" +:+ itoa (pbits p) else "invalid Prefix".

Definition addrport_string (ap : addrport) : string :=
  match apaddr ap with
  | AddrNone => "invalid AddrPort"
  | Addr4 a => v4_string a +:+ ":" +:+ itoa (apport ap)
  | Addr6 _ _ => "[" +:+ addr_string (apaddr ap) +:+ "]:" +:+ itoa (apport ap)
  end.

Example v6_s1 : addr_string (Addr6 (0xfd00 * 2 ^ 112 + 7) "") = "fd00::7". Proof. reflexivity. Qed.
Example v6_s2 : addr_string (Addr6 0 "") = "::". Proof. reflexivity. Qed.
Example v6_s3 : addr_string (Addr6 (65535 * 2 ^ 32 + 0x64400007) "") = "::ffff:100.64.0.7".
Proof. reflexivity. Qed.
Example v6_s4 : addr_string (Addr6 (0x20010db800000001 * 2 ^ 64 + 0x00000000000a0001) "eth0")
  = "2001:db8:0:1::a:1%eth0". Proof. reflexivity. Qed.

(** ** Parsing

    The parsers return [None] for every malformed text: no caller inspects
    the error. *)

Definition parse_v4_field (l : bytes) : option Z :=
  match l with
  | c :: _ :: _ => if decide (c = "0"%char) then None
                   else n ← parse_dec l; if n <=? 255 then Some n else None
  | _ => n ← parse_dec l; if n <=? 255 then Some n else None
  end.

Definition parse_v4 (l : bytes) : option Z :=
  match split "." l with
  | [f0; f1; f2; f3] =>
      a ← parse_v4_field f0; b ← parse_v4_field f1; c ← parse_v4_field f2;
      d ← parse_v4_field f3; Some (((a * 256 + b) * 256 + c) * 256 + d)
  | _ => None
  end.

Definition hex_val (c : ascii) : option Z :=
  if is_digit c then Some (code c - 48)
  else if in_range "a" "f" c then Some (code c - 87)
  else if in_range "A" "F" c then Some (code c - 55)
  else None.

(** The leading hexadecimal digits: their count, value, and the rest. *)
Fixpoint hex_run (n : nat) (acc : Z) (l : bytes) : nat * Z * bytes :=
  match l with
  | c :: l' => match hex_val c with
               | Some d => hex_run (S n) (acc * 16 + d) l'
               | None => (n, acc, l)
               end
  | [] => (n, acc, [])
  end.

(** The group loop of [parseIPv6]: [gs] the 16-bit groups read so far, [ell]
    where the [::] stood.  Each round adds a group, so 8 rounds of fuel do. *)
Fixpoint parse_v6_loop (fuel : nat) (gs : list Z) (ell : option nat) (s : bytes)
    : option (list Z * option nat * bytes) :=
  match fuel with
  | O => Some (gs, ell, s)
  | S k =>
      let '(n, v, rest) := hex_run 0 0 s in
      if ((4 <? n) || (n =? 0))%nat then None
      else match rest with
      | c :: rest1 =>
          if decide (c = "."%char) then
            if bool_decide (ell = None) && negb (length gs =? 6)%nat then None
            else if (6 <? length gs)%nat then None
            else a ← parse_v4 s;
                 Some (gs ++ [a `div` 2 ^ 16; a `mod` 2 ^ 16], ell, [])
          else if decide (c = ":"%char) then
            match rest1 with
            | [] => None
            | d :: rest2 =>
                if decide (d = ":"%char) then
                  if ell then None
                  else match rest2 with
                       | [] => Some (gs ++ [v], Some (S (length gs)), [])
                       | _ => parse_v6_loop k (gs ++ [v]) (Some (S (length gs))) rest2
                       end
                else parse_v6_loop k (gs ++ [v]) ell rest1
            end
          else None
      | [] => Some (gs ++ [v], ell, [])
      end
  end.

Definition groups_value (gs : list Z) : Z := foldl (λ acc g, acc * 2 ^ 16 + g) 0 gs.

Definition finish_v6 (r : list Z * option nat * bytes) : option Z :=
  match r with
  | (gs, ell, []) =>
      if (length gs <? 8)%nat then
        e ← ell; Some (groups_value (take e gs ++ replicate (8 - length gs) 0 ++ drop e gs))
      else match ell with None => Some (groups_value gs) | Some _ => None end
  | _ => None
  end.

Definition parse_v6_plain (s : bytes) : option Z :=
  match cut_prefix (chars "::") s with
  | Some [] => Some 0
  | Some s' => r ← parse_v6_loop 8 [] (Some 0%nat) s'; finish_v6 r
  | None => r ← parse_v6_loop 8 [] None s; finish_v6 r
  end.

Definition parse_v6 (l : bytes) : option addr :=
  match cut "%" l with
  | Some (_, []) => None
  | Some (s, z) => a ← parse_v6_plain s; Some (Addr6 a (of_chars z))
  | None => a ← parse_v6_plain l; Some (Addr6 a "")
  end.

(** [netip.ParseAddr]: the first of the three separators decides the family. *)
Fixpoint addr_family (l : bytes) : option ascii :=
  match l with
  | [] => None
  | c :: l' => if decide (c = "."%char ∨ c = ":"%char ∨ c = "%"%char) then Some c
               else addr_family l'
  end.

Definition parse_addr (l : bytes) : option addr :=
  c ← addr_family l;
  if decide (c = "."%char) then a ← parse_v4 l; Some (Addr4 a)
  else if decide (c = ":"%char) then parse_v6 l
  else None.

Definition ParseAddr (s : string) : option addr := parse_addr (chars s).

Definition parse_prefix (l : bytes) : option prefix :=
  '(h, b) ← cut_last "/" l;
  ip ← parse_addr h;
  if Is6 ip && hasZone ip then None
  else if (1 <? length b)%nat && negb (match b with c :: _ => in_range "1" "9" c | [] => true end)
  then None
  else n ← atoi b;
       if (n <? 0) || (BitLen ip <? n) then None else Some (PrefixFrom ip n).

Definition ParsePrefix (s : string) : option prefix := parse_prefix (chars s).

Definition strip_brackets (l : bytes) : option bytes :=
  match l with
  | c :: l' =>
      if decide (c = "["%char) then
        match reverse l' with
        | d :: m => if decide (d = "]"%char) then Some (reverse m) else None
        | [] => None
        end
      else None
  | [] => None
  end.

Definition ParseAddrPort (s : string) : option addrport :=
  '(h, p) ← cut_last ":" (chars s);
  match h, p with
  | [], _ | _, [] => None
  | c :: _, _ =>
      let v6 := bool_decide (c = "["%char) in
      h' ← (if v6 then strip_brackets h else Some h);
      port ← parse_uint 16 p;
      ip ← parse_addr h';
      if v6 && Is4 ip then None
      else if negb v6 && Is6 ip then None
      else Some (AddrPort ip port)
  end.

Example pa1 : ParseAddr "100.64.0.7" = Some (Addr4 0x64400007). Proof. reflexivity. Qed.
Example pa2 : ParseAddr "fd00::7" = Some (Addr6 (0xfd00 * 2 ^ 112 + 7) ""). Proof. reflexivity. Qed.
Example pa3 : ParseAddr "::ffff:100.64.0.7" = Some (Addr6 (65535 * 2 ^ 32 + 0x64400007) "").
Proof. reflexivity. Qed.
Example pa4 : ParseAddr "1:2:3:4:5:6:7:8%eth0" = Some (Addr6 0x00010002000300040005000600070008 "eth0").
Proof. reflexivity. Qed.
Example pa5 : ParseAddr "1:2:3:4:5:6:7::" = Some (Addr6 0x00010002000300040005000600070000 "").
Proof. reflexivity. Qed.
Example pa6 : (ParseAddr "1::2::3", ParseAddr "01.2.3.4", ParseAddr "1.2.3", ParseAddr "1:2:3:4:5:6:7:8:9")
  = (None, None, None, None). Proof. reflexivity. Qed.
Example pa7 : ParseAddr "1:2:3:4:5:6::7:8" = None. Proof. reflexivity. Qed.
Example pp1 : ParsePrefix "10.1.0.0/24" = Some (Prefix (Addr4 0x0a010000) 24). Proof. reflexivity. Qed.
Example pp2 : (ParsePrefix "10.1.0.0/33", ParsePrefix "10.1.0.0/+8", ParsePrefix "10.1.0.0/08")
  = (None, None, None). Proof. reflexivity. Qed.
Example pap1 : ParseAddrPort "[fd00::7]:22" = Some (AddrPort (Addr6 (0xfd00 * 2 ^ 112 + 7) "") 22).
Proof. reflexivity. Qed.

(** ** Lemmas *)

Lemma v4_octet_range a i : 0 <= v4_octet a i < 256.
Proof. apply Z.mod_pos_bound. lia. Qed.

Lemma v4_octets a : 0 <= a < 2 ^ 32 →
  ((v4_octet a 0 * 256 + v4_octet a 1) * 256 + v4_octet a 2) * 256 + v4_octet a 3 = a.
Proof.
  intros Ha. unfold v4_octet.
  change (2 ^ (8 * (3 - 0))) with 16777216. change (2 ^ (8 * (3 - 1))) with 65536.
  change (2 ^ (8 * (3 - 2))) with 256. change (2 ^ (8 * (3 - 3))) with 1.
  Z.to_euclidean_division_equations. lia.
Qed.

(** An octet's decimal form is a valid field. *)
Lemma parse_v4_field_itoa n : 0 <= n < 256 → parse_v4_field (chars (itoa n)) = Some n.
Proof.
  intros Hn.
  pose (f := λ k, bool_decide (parse_v4_field (chars (itoa (Z.of_nat k))) = Some (Z.of_nat k))).
  assert (forallb f (seq 0 256) = true) as H by (vm_compute; done).
  rewrite forallb_forall in H. specialize (H (Z.to_nat n)). unfold f in H.
  rewrite Z2Nat.id in H by lia. eapply bool_decide_eq_true, H, in_seq. lia.
Qed.

Lemma itoa_no_dot n c : 0 <= n → is_digit c = false → c ∉ chars (itoa n).
Proof. intros. apply digit_not_in; [done|]. by apply itoa_digits. Qed.

Lemma parse_v4_string a : 0 <= a < 2 ^ 32 → parse_v4 (chars (v4_string a)) = Some a.
Proof.
  intros Ha. unfold v4_string. rewrite !chars_app. change (chars ".") with ["."%char]. cbn [app].
  pose proof (v4_octet_range a 0). pose proof (v4_octet_range a 1).
  pose proof (v4_octet_range a 2). pose proof (v4_octet_range a 3).
  unfold parse_v4. rewrite !split_app, split_none by (apply itoa_no_dot; [lia|done]).
  rewrite !parse_v4_field_itoa by lia. simpl. by rewrite v4_octets.
Qed.

Lemma addr_family_digits d c l :
  d ≠ [] → Forall (λ c, is_digit c = true) d →
  c = "."%char ∨ c = ":"%char ∨ c = "%"%char → addr_family (d ++ c :: l) = Some c.
Proof.
  intros _ Hd Hc. induction Hd as [|x d Hx Hd IH]; simpl; [by rewrite decide_True|].
  rewrite decide_False; [done|]. intros [->|[->| ->]]; done.
Qed.

Theorem ParseAddr_v4_string a : 0 <= a < 2 ^ 32 → ParseAddr (addr_string (Addr4 a)) = Some (Addr4 a).
Proof.
  intros Ha. unfold ParseAddr, parse_addr. simpl addr_string.
  assert (addr_family (chars (v4_string a)) = Some "."%char) as ->.
  { unfold v4_string. rewrite chars_app.
    pose proof (v4_octet_range a 0).
    apply addr_family_digits; [apply itoa_nonempty; lia|apply itoa_digits; lia|auto]. }
  simpl. by rewrite parse_v4_string.
Qed.

Lemma v4_string_chars a c : is_digit c = false → c ≠ "."%char → c ∉ chars (v4_string a).
Proof.
  intros Hc Hd. unfold v4_string. rewrite !chars_app. change (chars ".") with ["."%char].
  rewrite !not_elem_of_app, list_elem_of_singleton.
  pose proof (v4_octet_range a 0). pose proof (v4_octet_range a 1).
  pose proof (v4_octet_range a 2). pose proof (v4_octet_range a 3).
  repeat split; try done; apply itoa_no_dot; done || lia.
Qed.

(** The text form of an IPv4 prefix parses back to it. *)
Theorem ParsePrefix_v4_string a n :
  0 <= a < 2 ^ 32 → 0 <= n <= 32 →
  ParsePrefix (prefix_string (Prefix (Addr4 a) n)) = Some (Prefix (Addr4 a) n).
Proof.
  intros Ha Hn. unfold ParsePrefix, parse_prefix, prefix_string, PIsValid. simpl pbits.
  rewrite (proj2 (Z.leb_le _ _)) by lia. rewrite !chars_app.
  change (chars "/") with ["/"%char]. cbn [app paddr].
  rewrite cut_last_app by (apply itoa_no_dot; [lia|done]). cbn [mbind option_bind].
  pose proof (ParseAddr_v4_string a Ha) as Hp. unfold ParseAddr in Hp. rewrite Hp.
  cbn [mbind option_bind Is6 andb BitLen].
  assert ((1 <? length (chars (itoa n)))%nat
    && negb (match chars (itoa n) with c :: _ => in_range "1" "9" c | [] => true end) = false) as ->.
  { assert (n ∈ seqZ 0 33) as Hin by (apply elem_of_seqZ; lia). vm_compute in Hin.
    repeat (apply elem_of_cons in Hin as [->|Hin]; [reflexivity|]). by apply elem_of_nil in Hin. }
  rewrite atoi_itoa by lia. cbn [mbind option_bind].
  rewrite (proj2 (Z.ltb_ge n 0)), (proj2 (Z.ltb_ge 32 n)) by lia. simpl.
  unfold PrefixFrom; simpl. by rewrite !(proj2 (Z.leb_le _ _)) by lia.
Qed.

(** What the parsers produce. *)

Lemma parse_addr_valid l a : parse_addr l = Some a → IsValid a = true.
Proof.
  unfold parse_addr, parse_v6. intros H. destruct (addr_family l) as [c|]; simpl in H; [|done].
  case_decide; [destruct (parse_v4 l); simplify_eq/=; done|].
  case_decide; [|done]. destruct (cut _ _) as [[s [|z zs]]|]; [done|..];
    destruct (parse_v6_plain _); simplify_eq/=; done.
Qed.

Lemma PrefixFrom_valid a n :
  IsValid a = true → 0 <= n <= BitLen a → PrefixFrom a n = Prefix (withoutZone a) n.
Proof.
  intros Ha Hn. unfold PrefixFrom. rewrite Ha. simpl.
  by rewrite !(proj2 (Z.leb_le _ _)) by lia.
Qed.

Lemma ParsePrefix_valid s p :
  ParsePrefix s = Some p →
  ∃ a n, p = Prefix (withoutZone a) n ∧ IsValid a = true ∧ 0 <= n <= BitLen a.
Proof.
  unfold ParsePrefix, parse_prefix. destruct (cut_last _ _) as [[h b]|]; cbn [mbind option_bind]; [|done].
  destruct (parse_addr h) as [a|] eqn:Ea; cbn [mbind option_bind]; [|done].
  apply parse_addr_valid in Ea. destruct (Is6 a && hasZone a); [done|].
  destruct ((1 <? length b)%nat && _); [done|].
  destruct (atoi b) as [n|]; cbn [mbind option_bind]; [|done].
  destruct ((n <? 0) || (BitLen a <? n)) eqn:E; intros; simplify_eq. go_bool.
  exists a, n. split; [|split; [done|lia]]. apply PrefixFrom_valid; [done|lia].
Qed.

Lemma mask_top_idemp w n a : n <= w → mask_top w n (mask_top w n a) = mask_top w n a.
Proof. intros. unfold mask_top. rewrite Z.div_mul; [done|]. apply Z.pow_nonzero; lia. Qed.

Lemma Masked_idemp p : PIsValid p = true → pbits p <= BitLen (paddr p) → Masked (Masked p) = Masked p.
Proof.
  unfold Masked. intros Hv Hb. rewrite Hv. simpl. unfold PIsValid in *. simpl. rewrite Hv.
  f_equal. destruct (paddr p); simpl in *; [done|..]; by rewrite mask_top_idemp.
Qed.

Lemma mask_full w a : mask_top w w a = a.
Proof. unfold mask_top. rewrite Z.sub_diag. change (2 ^ 0) with 1. by rewrite Z.div_1_r, Z.mul_1_r. Qed.

(** Masking never produces an IPv4-mapped address from one that is not. *)
Lemma Is4In6_mask a n : 0 <= n <= BitLen a → Is4In6 a = false → Is4In6 (addr_mask a n) = false.
Proof.
  destruct a as [|a|a z]; simpl; try done. intros Hn Ha. go_bool. apply Z.eqb_neq. intros H.
  unfold mask_top in H. destruct (Z.le_gt_cases 96 n).
  - apply Ha. rewrite <- H. replace (2 ^ 32) with (2 ^ (128 - n) * 2 ^ (n - 96))
      by (rewrite <- Z.pow_add_r by lia; f_equal; lia).
    assert (0 < 2 ^ (128 - n)) by (apply Z.pow_pos_nonneg; lia).
    assert (0 < 2 ^ (n - 96)) by (apply Z.pow_pos_nonneg; lia).
    rewrite <- !Z.div_div by lia. by rewrite Z.div_mul by lia.
  - replace (2 ^ (128 - n)) with (2 ^ (95 - n) * 2 * 2 ^ 32) in H at 2.
    + rewrite !Z.mul_assoc, Z.div_mul in H by lia. lia.
    + change 2 with (2 ^ 1) at 2. rewrite <- !Z.pow_add_r by lia. f_equal; lia.
Qed.

Lemma Masked_valid a n : 0 <= n → Masked (Prefix a n) = Prefix (addr_mask a n) n.
Proof. intros. unfold Masked, PIsValid. simpl. by rewrite (proj2 (Z.leb_le _ _)). Qed.

Lemma PIsValid_Prefix a n : 0 <= n → PIsValid (Prefix a n) = true.
Proof. intros. by apply Z.leb_le. Qed.

Lemma BitLen_withoutZone a : BitLen (withoutZone a) = BitLen a.
Proof. by destruct a. Qed.

Lemma addr_mask_full a : addr_mask a (BitLen a) = withoutZone a.
Proof. destruct a; simpl; [done|..]; by rewrite mask_full. Qed.

Lemma BitLen_nonneg a : 0 <= BitLen a.
Proof. by destruct a. Qed.

(** An IPv4 address that was parsed fits 32 bits. *)
Lemma parse_v4_field_range l n : parse_v4_field l = Some n → 0 <= n <= 255.
Proof.
  assert (∀ l n, (n ← parse_dec l; if n <=? 255 then Some n else None) = Some n → 0 <= n <= 255) as H.
  { intros l' n' H. destruct (parse_dec l') as [m|] eqn:E; cbn [mbind option_bind] in H; [|done].
    destruct (Z.leb_spec m 255); [|done]. injection H as <-. split; [|done]. destruct l' as [|c l']; [done|]. by eapply parse_dec_go_nonneg; [|exact E]. }
  unfold parse_v4_field. destruct l as [|c [|d l]]; try apply H. case_decide; [done|]. apply H.
Qed.

Lemma ParseAddr_v4_range s a : ParseAddr s = Some (Addr4 a) → 0 <= a < 2 ^ 32.
Proof.
  unfold ParseAddr, parse_addr, parse_v6. intros H. destruct (addr_family (chars s)) as [c|]; cbn [mbind option_bind] in H; [|done].
  case_decide.
  - destruct (parse_v4 (chars s)) as [v|] eqn:E; cbn [mbind option_bind] in H; [|done]. injection H as <-.
    unfold parse_v4 in E. destruct (split _ _) as [|f0 [|f1 [|f2 [|f3 [|? ?]]]]]; try done.
    destruct (parse_v4_field f0) as [x0|] eqn:E0; cbn [mbind option_bind] in E; [|done].
    destruct (parse_v4_field f1) as [x1|] eqn:E1; cbn [mbind option_bind] in E; [|done].
    destruct (parse_v4_field f2) as [x2|] eqn:E2; cbn [mbind option_bind] in E; [|done].
    destruct (parse_v4_field f3) as [x3|] eqn:E3; cbn [mbind option_bind] in E; [|done].
    apply parse_v4_field_range in E0, E1, E2, E3. injection E as <-. lia.
  - case_decide; [|done]. destruct (cut _ _) as [[t [|z zs]]|]; [done|..]; destruct (parse_v6_plain _); done.
Qed.
