(* ===== verification/Ports.v ===== *)
(** Port ranges of the policy language: [internal/control/policy/selector.go],
    [PortRange], [ParsePorts], [parsePort], [mergeRanges], [ParseProto].

    The merge is characterised twice: by the ports it covers and by the normal
    form it produces, which together make it the canonical representation of a
    port set, whatever order [sort.Slice] leaves equal keys in. *)

From Stdlib Require Import Strings.Ascii.
From S2P Require Import Prelude GoStrings.

Record PortRange := { Lo : Z; Hi : Z }.

#[export] Instance PortRange_eq_dec : EqDecision PortRange.
Proof. solve_decision. Defined.

Definition AllPorts : PortRange := {| Lo := 1; Hi := 65535 |}.

(** The loop of [mergeRanges] over the sorted slice, [last] being the last
    element of [out]. *)
Fixpoint coalesce (last : PortRange) (rest : list PortRange) : list PortRange :=
  match rest with
  | [] => [last]
  | r :: rest' =>
      if Lo r <=? Hi last + 1 then
        coalesce (if Hi last <? Hi r then {| Lo := Lo last; Hi := Hi r |} else last) rest'
      else last :: coalesce r rest'
  end.

Definition coalesce_all (l : list PortRange) : list PortRange :=
  match l with [] => [] | r :: rest => coalesce r rest end.

Definition lo_less (a b : PortRange) : bool := Lo a <? Lo b.

Definition mergeRanges (l : list PortRange) : list PortRange :=
  coalesce_all (stable_sort lo_less l).

Inductive port_error := EmptyPortList | BadPort (s : bytes) | ReversedRange (s : bytes).

Definition parsePort (s : bytes) : result port_error Z :=
  match parse_uint 16 (trim_space s) with
  | Some n => if n =? 0 then Err (BadPort s) else Ok n
  | None => Err (BadPort s)
  end.

(** One element of the comma-separated list. *)
Definition parse_part (part : bytes) : result port_error PortRange :=
  let part := trim_space part in
  match cut "-" part with
  | None => a ← parsePort part; Ok {| Lo := a; Hi := a |}
  | Some (lo, hi) =>
      a ← parsePort lo; b ← parsePort hi;
      if b <? a then Err (ReversedRange part) else Ok {| Lo := a; Hi := b |}
  end.

Fixpoint parse_parts (l : list bytes) : result port_error (list PortRange) :=
  match l with
  | [] => Ok []
  | p :: l' => r ← parse_part p; rs ← parse_parts l'; Ok (r :: rs)
  end.

Definition ParsePorts (raw : bytes) : result port_error (list PortRange) :=
  let s := trim_space raw in
  match s with
  | [] => Err EmptyPortList
  | _ => if decide (s = chars "*") then Ok [AllPorts]
         else rs ← parse_parts (split "," s); Ok (mergeRanges rs)
  end.

Definition ProtoAny : string := "any".
Definition ProtoTCP : string := "tcp".
Definition ProtoUDP : string := "udp".
Definition ProtoICMP : string := "icmp".

(** [ParseProto]; [None] is the error. *)
Definition ParseProto (raw : string) : option string :=
  let p := of_chars (to_lower (trim_space (chars raw))) in
  if decide (p = "" ∨ p = ProtoAny) then Some ProtoAny
  else if decide (p = ProtoTCP ∨ p = ProtoUDP ∨ p = ProtoICMP) then Some p
  else None.

(** ** Meaning of a list of ranges *)

Definition covers (l : list PortRange) (p : Z) : Prop := ∃ r, r ∈ l ∧ Lo r <= p <= Hi r.
Definition range_wf (r : PortRange) : Prop := Lo r <= Hi r.

(** Normal form: non-empty ranges, increasing, with a gap between them. *)
Definition apart (a b : PortRange) : Prop := Hi a + 1 < Lo b.
Definition normal (l : list PortRange) : Prop := Forall range_wf l ∧ StronglySorted apart l.

Lemma covers_nil p : ¬ covers [] p.
Proof. intros (r & Hr & _). by apply elem_of_nil in Hr. Qed.
Lemma covers_cons r l p : covers (r :: l) p ↔ Lo r <= p <= Hi r ∨ covers l p.
Proof.
  unfold covers. split.
  - intros (x & [->|Hx]%elem_of_cons & ?); eauto.
  - intros [?|(x & ? & ?)]; [exists r|exists x]; split; try done; by constructor.
Qed.
Lemma covers_app l1 l2 p : covers (l1 ++ l2) p ↔ covers l1 p ∨ covers l2 p.
Proof.
  induction l1 as [|r l1 IH]; simpl.
  - split; [by right|]. intros [[]%covers_nil|]; done.
  - rewrite !covers_cons, IH. tauto.
Qed.
#[export] Instance covers_perm : Proper ((≡ₚ) ==> eq ==> iff) covers.
Proof. intros l1 l2 Hl p ? <-. unfold covers. by setoid_rewrite Hl. Qed.

Lemma lo_sorted_cons r l :
  StronglySorted (nless lo_less) (r :: l) ↔
  StronglySorted (nless lo_less) l ∧ Forall (λ x, Lo r <= Lo x) l.
Proof.
  split.
  - intros H. inversion_clear H. split; [done|]. eapply Forall_impl; [done|].
    intros x. unfold nless, lo_less. intros. by go_bool.
  - intros [? Hf]. constructor; [done|]. eapply Forall_impl; [exact Hf|].
    intros x Hx. unfold nless, lo_less. by apply Z.ltb_ge.
Qed.

Lemma coalesce_covers last l p :
  StronglySorted (nless lo_less) (last :: l) →
  covers (coalesce last l) p ↔ covers (last :: l) p.
Proof.
  revert last. induction l as [|r l IH]; intros last Hs; [done|]. simpl.
  apply lo_sorted_cons in Hs as [Hs Hle]. pose proof Hs as Hs'.
  apply lo_sorted_cons in Hs' as [Hl Hr]. apply Forall_cons in Hle as [Hlr Hle].
  destruct (Lo r <=? Hi last + 1) eqn:E; go_bool.
  - rewrite IH.
    + rewrite !covers_cons. destruct (Hi last <? Hi r) eqn:E2; go_bool; simpl; intuition lia.
    + apply lo_sorted_cons. split; [done|]. by destruct (_ <? _).
  - rewrite !covers_cons, IH by done. by rewrite covers_cons.
Qed.

Lemma coalesce_normal last l :
  StronglySorted (nless lo_less) (last :: l) → Forall range_wf (last :: l) →
  normal (coalesce last l) ∧ Forall (λ x, Lo last <= Lo x) (coalesce last l).
Proof.
  revert last. induction l as [|r l IH]; intros last Hs Hwf; simpl.
  { repeat constructor; by apply Forall_cons in Hwf as []. }
  apply lo_sorted_cons in Hs as [Hs Hle]. pose proof Hs as Hs'.
  apply lo_sorted_cons in Hs' as [Hl Hr]. apply Forall_cons in Hle as [Hlr Hle].
  apply Forall_cons in Hwf as [Hw Hwf]. pose proof Hwf as [Hwr Hwl]%Forall_cons.
  unfold range_wf in *. destruct (Lo r <=? Hi last + 1) eqn:E; go_bool.
  - set (m := if Hi last <? Hi r then _ else _). assert (Lo m = Lo last ∧ Hi last <= Hi m) as [Hm Hm'].
    { unfold m. destruct (Hi last <? Hi r) eqn:E2; go_bool; simpl; lia. }
    rewrite <- Hm. apply IH; [apply lo_sorted_cons|].
    + by rewrite Hm.
    + constructor; [lia|done].
  - destruct (IH r) as [[Hn Hsep] Hlo]; [done|done|]. repeat split.
    + by constructor.
    + constructor; [done|]. eapply Forall_impl; [exact Hlo|]. intros x Hx. unfold apart. simpl in Hx. lia.
    + constructor; [lia|]. eapply Forall_impl; [exact Hlo|]. simpl. lia.
Qed.

Lemma coalesce_all_covers l p :
  StronglySorted (nless lo_less) l → covers (coalesce_all l) p ↔ covers l p.
Proof. destruct l; [done|]. apply coalesce_covers. Qed.

Lemma coalesce_all_normal l :
  StronglySorted (nless lo_less) l → Forall range_wf l → normal (coalesce_all l).
Proof.
  destruct l; simpl; intros; [repeat constructor|]. by apply coalesce_normal.
Qed.

#[export] Instance lo_less_strict_weak : StrictWeak lo_less := key_strict_weak Lo.

Lemma mergeRanges_covers l p : covers (mergeRanges l) p ↔ covers l p.
Proof.
  unfold mergeRanges. rewrite coalesce_all_covers by apply stable_sort_sorted, _.
  by rewrite stable_sort_perm.
Qed.

Lemma mergeRanges_normal l : Forall range_wf l → normal (mergeRanges l).
Proof.
  intros. apply coalesce_all_normal; [apply stable_sort_sorted, _|]. by rewrite stable_sort_perm.
Qed.

(** Every port of a normal list that is not covered bounds its ranges, so the
    covered set determines the list. *)
Lemma normal_cons_inv r l :
  normal (r :: l) → Lo r <= Hi r ∧ normal l ∧ ∀ p, covers l p → Hi r + 1 < p.
Proof.
  intros [Hw Hs]. apply Forall_cons in Hw as [Hr Hl]. inversion_clear Hs as [|? ? Hs' Hf].
  repeat split; try done. intros p (x & Hx & ?). rewrite Forall_forall in Hf.
  apply Hf in Hx. unfold apart in Hx. lia.
Qed.

Lemma normal_unique l1 l2 :
  normal l1 → normal l2 → (∀ p, covers l1 p ↔ covers l2 p) → l1 = l2.
Proof.
  revert l2. induction l1 as [|a l1 IH]; intros l2 H1 H2 Hc.
  - destruct l2 as [|b l2]; [done|]. apply normal_cons_inv in H2 as (? & _).
    exfalso. apply (covers_nil (Lo b)), Hc, covers_cons. lia.
  - apply normal_cons_inv in H1 as (Ha & Hn1 & Hf1).
    destruct l2 as [|b l2].
    { exfalso. apply (covers_nil (Lo a)), Hc, covers_cons. lia. }
    apply normal_cons_inv in H2 as (Hb & Hn2 & Hf2).
    setoid_rewrite covers_cons in Hc.
    assert (Lo a = Lo b) as Hlo.
    { destruct (proj1 (Hc (Lo a))) as [?|?%Hf2]; [lia| |];
      destruct (proj2 (Hc (Lo b))) as [?|?%Hf1]; lia. }
    assert (Hi a = Hi b) as Hhi.
    { destruct (Z.lt_trichotomy (Hi a) (Hi b)) as [?|[?|?]]; [|done|].
      - destruct (proj2 (Hc (Hi a + 1))) as [?|?%Hf1]; lia.
      - destruct (proj1 (Hc (Hi b + 1))) as [?|?%Hf2]; lia. }
    f_equal; [destruct a, b; simpl in *; by f_equal|].
    apply IH; [done..|]. intros p. specialize (Hc p).
    split; intros Hp.
    + destruct (proj1 Hc) as [?|?]; [by right| |done]. apply Hf1 in Hp. lia.
    + destruct (proj2 Hc) as [?|?]; [by right| |done]. apply Hf2 in Hp. lia.
Qed.

(** ** Parsing *)

Definition port_ok (p : Z) : Prop := 1 <= p <= 65535.
Definition range_ok (r : PortRange) : Prop := port_ok (Lo r) ∧ port_ok (Hi r) ∧ range_wf r.

Lemma parsePort_ok s n : parsePort s = Ok n → port_ok n.
Proof.
  unfold parsePort, port_ok. destruct (parse_uint 16 _) eqn:E; [|done].
  apply parse_uint_range in E. destruct (z =? 0) eqn:E0; intros; simplify_eq. go_bool. lia.
Qed.

Lemma parse_part_ok s r : parse_part s = Ok r → range_ok r.
Proof.
  unfold parse_part, range_ok, range_wf. destruct (cut _ _) as [[lo hi]|].
  - intros (a & Ha%parsePort_ok & (b & Hb%parsePort_ok & Hr)%result_bind_ok)%result_bind_ok.
    destruct (b <? a) eqn:E; simplify_eq/=. by go_bool.
  - intros (a & Ha%parsePort_ok & Hr)%result_bind_ok. simplify_eq/=. done.
Qed.

Lemma parse_parts_ok l rs :
  parse_parts l = Ok rs → Forall range_ok rs ∧ length rs = length l.
Proof.
  revert rs. induction l as [|p l IH]; simpl; intros rs H; simplify_eq; [done|].
  apply result_bind_ok in H as (r & Hr%parse_part_ok & Hb).
  apply result_bind_ok in Hb as (rs' & [? Hl]%IH & Hb). simplify_eq/=.
  split; [by constructor|by rewrite Hl].
Qed.

Lemma coalesce_bounds (P : Z → Prop) last l :
  P (Lo last) ∧ P (Hi last) → Forall (λ r, P (Lo r) ∧ P (Hi r)) l →
  Forall (λ r, P (Lo r) ∧ P (Hi r)) (coalesce last l).
Proof.
  revert last. induction l as [|r l IH]; intros last Hlast Hl; simpl; [by constructor|].
  apply Forall_cons in Hl as [Hr Hl]. destruct (_ <=? _); [|by constructor; auto].
  apply IH; [|done]. destruct (_ <? _); naive_solver.
Qed.

Lemma mergeRanges_ok l : Forall range_ok l → Forall range_ok (mergeRanges l).
Proof.
  intros H. assert (normal (mergeRanges l)) as [Hw _].
  { apply mergeRanges_normal. eapply Forall_impl; [exact H|]. by intros r (?&?&?). }
  assert (Forall (λ r, port_ok (Lo r) ∧ port_ok (Hi r)) (mergeRanges l)) as Hp.
  { unfold mergeRanges, coalesce_all. rewrite <- (stable_sort_perm lo_less l) in H.
    destruct (stable_sort _ _) as [|r l']; [done|]. apply Forall_cons in H as [(?&?&?) Hl].
    apply coalesce_bounds; [done|]. eapply Forall_impl; [exact Hl|]. by intros ? (?&?&?). }
  rewrite Forall_forall in *. intros r Hr. specialize (Hw r Hr). specialize (Hp r Hr).
  by destruct Hp.
Qed.

Lemma mergeRanges_nil_inv l : mergeRanges l = [] → l = [].
Proof.
  unfold mergeRanges, coalesce_all. destruct (stable_sort lo_less l) as [|r l'] eqn:E.
  - intros _. pose proof (stable_sort_perm lo_less l) as Hp. rewrite E in Hp.
    by apply Permutation_nil.
  - clear E. revert r. induction l' as [|x l' IH]; intros r; simpl; [done|].
    destruct (_ <=? _); [apply IH|done].
Qed.

(** The spelling of a list of ranges the file format documents. *)
Definition render_range (r : PortRange) : bytes :=
  if Lo r =? Hi r then chars (itoa (Lo r)) else chars (itoa (Lo r)) ++ "-"%char :: chars (itoa (Hi r)).
Fixpoint render_ports (r : PortRange) (rs : list PortRange) : bytes :=
  match rs with
  | [] => render_range r
  | r' :: rs' => render_range r ++ ","%char :: render_ports r' rs'
  end.

Definition portchar (c : ascii) : bool := is_digit c || bool_decide (c = "-"%char) || bool_decide (c = ","%char).

Lemma trim_space_ports l : Forall (λ c, portchar c = true) l → trim_space l = l.
Proof.
  intros H. apply trim_space_plain. eapply Forall_impl; [exact H|]. intros c.
  unfold portchar. intros Hc. go_bool. destruct Hc as [Hc|Hc]; go_bool; [|by subst].
  destruct Hc as [Hc|Hc]; go_bool; [by apply is_digit_plain|by subst].
Qed.

Lemma itoa_portchar n : 0 <= n → Forall (λ c, portchar c = true) (chars (itoa n)).
Proof.
  intros Hn. eapply Forall_impl; [by apply itoa_digits|]. intros c Hc. unfold portchar. by rewrite Hc.
Qed.

Lemma parsePort_itoa n : port_ok n → parsePort (chars (itoa n)) = Ok n.
Proof.
  unfold port_ok. intros Hn. unfold parsePort.
  rewrite trim_space_ports by (apply itoa_portchar; lia).
  rewrite parse_uint_itoa by lia. by rewrite (proj2 (Z.eqb_neq _ _)) by lia.
Qed.

Lemma render_range_portchar r : range_ok r → Forall (λ c, portchar c = true) (render_range r).
Proof.
  unfold range_ok, port_ok. intros (?&?&?). unfold render_range.
  destruct (_ =? _); [apply itoa_portchar; lia|].
  apply Forall_app_2; [apply itoa_portchar; lia|]. constructor; [done|]. apply itoa_portchar; lia.
Qed.

Lemma parse_part_render r : range_ok r → parse_part (render_range r) = Ok r.
Proof.
  intros Hr. unfold parse_part. rewrite trim_space_ports by by apply render_range_portchar.
  destruct Hr as (Ha & Hb & Hw). unfold render_range, range_wf, port_ok in *.
  destruct (Lo r =? Hi r) eqn:E; go_bool.
  - rewrite cut_none by (apply digit_not_in; [done|]; apply itoa_digits; lia).
    rewrite parsePort_itoa by done. simpl. by destruct r; simpl in *; subst.
  - rewrite cut_app by (apply digit_not_in; [done|]; apply itoa_digits; lia).
    rewrite parsePort_itoa by done. cbn [mbind result_bind]. rewrite parsePort_itoa by done.
    cbn [mbind result_bind]. rewrite (proj2 (Z.ltb_ge _ _)) by lia. by destruct r.
Qed.

Lemma render_range_no_comma r : range_ok r → ","%char ∉ render_range r.
Proof.
  unfold range_ok, port_ok, render_range. intros (?&?&?).
  assert (∀ n, 1 <= n → ","%char ∉ chars (itoa n)) as Hd.
  { intros n Hn. apply digit_not_in; [done|]. apply itoa_digits; lia. }
  destruct (_ =? _); [by apply Hd; lia|].
  rewrite not_elem_of_app, not_elem_of_cons. split; [apply Hd; lia|]. split; [done|apply Hd; lia].
Qed.

Lemma split_render r rs :
  Forall range_ok (r :: rs) → split "," (render_ports r rs) = render_range <$> (r :: rs).
Proof.
  revert r. induction rs as [|r' rs IH]; intros r [Hr Hrs]%Forall_cons; simpl.
  - by rewrite split_none by by apply render_range_no_comma.
  - rewrite split_app by by apply render_range_no_comma. by rewrite IH.
Qed.

Lemma parse_parts_render rs :
  Forall range_ok rs → parse_parts (render_range <$> rs) = Ok rs.
Proof.
  induction 1 as [|r rs Hr Hrs IH]; [done|]. rewrite fmap_cons. cbn [parse_parts].
  rewrite parse_part_render by done. cbn [mbind result_bind]. by rewrite IH.
Qed.

Lemma render_ports_portchar r rs :
  Forall range_ok (r :: rs) → Forall (λ c, portchar c = true) (render_ports r rs).
Proof.
  revert r. induction rs as [|r' rs IH]; intros r [Hr Hrs]%Forall_cons; simpl.
  - by apply render_range_portchar.
  - apply Forall_app_2; [by apply render_range_portchar|]. constructor; [done|]. by apply IH.
Qed.

(** ** Properties *)

(** [mergeRanges] computes the canonical form of a port set: the result
    covers exactly the input's ports; its ranges are non-empty, increasing and
    separated by a gap; any other list of ranges covering the same ports merges
    to the same result; and the result does not depend on the order in which an
    unstable [sort.Slice] leaves ranges with equal lower bounds. *)
Theorem mergeRanges_canonical l (Hwf : Forall range_wf l) :
  (∀ p, covers (mergeRanges l) p ↔ covers l p) ∧
  normal (mergeRanges l) ∧
  (∀ l', Forall range_wf l' → (∀ p, covers l' p ↔ covers l p) → mergeRanges l' = mergeRanges l) ∧
  (∀ s, s ≡ₚ l → StronglySorted (nless lo_less) s → coalesce_all s = mergeRanges l).
Proof.
  split; [intros; apply mergeRanges_covers|]. split; [by apply mergeRanges_normal|]. split.
  - intros l' Hwf' Hc. apply normal_unique; [by apply mergeRanges_normal..|].
    intros p. by rewrite !mergeRanges_covers.
  - intros s Hp Hs. apply normal_unique.
    + apply coalesce_all_normal; [done|]. by rewrite Hp.
    + by apply mergeRanges_normal.
    + intros p. rewrite coalesce_all_covers, mergeRanges_covers by done. by rewrite Hp.
Qed.

Lemma mergeRanges_canonical_witness :
  mergeRanges [{| Lo := 90; Hi := 99 |}; {| Lo := 1; Hi := 5 |}; {| Lo := 6; Hi := 9 |}]
    = [{| Lo := 1; Hi := 9 |}; {| Lo := 90; Hi := 99 |}] ∧
  normal (mergeRanges [{| Lo := 90; Hi := 99 |}; {| Lo := 1; Hi := 5 |}; {| Lo := 6; Hi := 9 |}]).
Proof.
  split; [reflexivity|].
  apply (mergeRanges_canonical [{| Lo := 90; Hi := 99 |}; {| Lo := 1; Hi := 5 |}; {| Lo := 6; Hi := 9 |}]).
  repeat constructor; done.
Defined.

(** Parsing a port list.  Whatever [ParsePorts] accepts is a non-empty
    normal list of ranges inside 1-65535; and it accepts every comma-separated
    list of ports and ascending ranges of the documented syntax, with exactly
    the merge of those ranges as its result. *)
Theorem ParsePorts_correct :
  (∀ raw rs, ParsePorts raw = Ok rs → rs ≠ [] ∧ normal rs ∧ Forall range_ok rs) ∧
  (∀ r rs, Forall range_ok (r :: rs) → ParsePorts (render_ports r rs) = Ok (mergeRanges (r :: rs))).
Proof.
  split.
  - intros raw rs. unfold ParsePorts. destruct (trim_space raw) as [|c s] eqn:Et; [done|].
    case_decide; [intros; simplify_eq; repeat constructor; done|].
    intros (l & [Hl Hlen]%parse_parts_ok & H')%result_bind_ok. simplify_eq.
    split; [|split].
    + intros ->%mergeRanges_nil_inv. clear Et. unfold split in Hlen. simpl in Hlen.
      repeat case_match; done.
    + apply mergeRanges_normal. eapply Forall_impl; [exact Hl|]. by intros ? (?&?&?).
    + by apply mergeRanges_ok.
  - intros r rs Hrs. pose proof (render_ports_portchar r rs Hrs) as Hc. unfold ParsePorts.
    rewrite trim_space_ports by done. rewrite split_render by done.
    rewrite parse_parts_render by done.
    destruct (render_ports r rs) as [|c s] eqn:E.
    { apply Forall_cons in Hrs as [(?&?&?) _]. unfold port_ok in *.
      assert (render_range r = []) as Hn by (destruct rs; simpl in E; [done|by destruct (render_range r)]).
      unfold render_range in Hn. exfalso. apply (itoa_nonempty (Lo r)); [lia|].
      destruct (_ =? _); [done|]. by destruct (chars (itoa (Lo r))). }
    case_decide as Hstar; [|done]. rewrite Hstar in Hc. by apply Forall_cons in Hc as [??].
Qed.
