(* ===== verification/Selector.v ===== *)
(** Selectors of the policy language: [internal/control/policy/selector.go],
    [Selector], [ParseSelector], [validLabel], [Dst], [ParseDst]; and the label
    test of [internal/control/ids.go], written there as a regular expression. *)

From Stdlib Require Import Strings.Ascii.
From S2P Require Import Prelude GoStrings NetIP Ports.

(** The Go struct [{Kind; Name; Prefix}] with the fields each kind uses. *)
Inductive Selector : Type :=
  | SelAny
  | SelUser (name : string)
  | SelGroup (name : string)
  | SelTag (name : string)
  | SelPeer (name : string)
  | SelSelf
  | SelCIDR (p : prefix)
  | SelInternet.

#[export] Instance Selector_eq_dec : EqDecision Selector.
Proof. solve_decision. Defined.

Definition sel_string (s : Selector) : string :=
  match s with
  | SelAny => "*"
  | SelUser n => "user:" +:+ n
  | SelGroup n => "group:" +:+ n
  | SelTag n => "tag:" +:+ n
  | SelPeer n => "peer:" +:+ n
  | SelSelf => "self"
  | SelCIDR p => prefix_string p
  | SelInternet => "internet"
  end.

Definition alnum (c : ascii) : bool := is_lower c || is_digit c.

(** The loop of [validLabel]: [i] is the byte index, [n] the length. *)
Fixpoint label_from (i n : nat) (l : bytes) : bool :=
  match l with
  | [] => true
  | c :: l' =>
      if alnum c then label_from (S i) n l'
      else if bool_decide (c = "-"%char) && (0 <? i)%nat && (i <? n - 1)%nat then label_from (S i) n l'
      else false
  end.

Definition validLabel (s : string) : bool :=
  let l := chars s in
  if bool_decide (s = "") || (63 <? length l)%nat then false
  else label_from 0 (length l) l.

(** [control.validLabel]: ^[a-z0-9]([a-z0-9-]{0,61}[a-z0-9])?$ *)
Definition labelRe (s : string) : bool :=
  match chars s with
  | [] => false
  | c :: rest =>
      alnum c && match reverse rest with
                 | [] => true
                 | z :: mid =>
                     alnum z && (length mid <=? 61)%nat
                     && forallb (λ c, alnum c || bool_decide (c = "-"%char)) mid
                 end
  end.

Inductive sel_error :=
  | EmptySelector
  | OnlyInDst (s : string)
  | MappedPrefix (s : string)
  | NotPlainAddr (s : string)
  | BadLabel (s : string)
  | UnknownKind (s : string)
  | NotSelector (s : string).

(** The last two ways of [ParseSelector]: [kind:name] and a bare user name. *)
Definition parse_named (s : string) : result sel_error Selector :=
  match cut ":" (chars s) with
  | Some (kind, nm) =>
      let name := of_chars nm in
      if negb (validLabel name) then Err (BadLabel s)
      else if decide (kind = chars "user") then Ok (SelUser name)
      else if decide (kind = chars "group") then Ok (SelGroup name)
      else if decide (kind = chars "tag") then Ok (SelTag name)
      else if decide (kind = chars "peer") then Ok (SelPeer name)
      else Err (UnknownKind s)
  | None => if validLabel s then Ok (SelUser s) else Err (NotSelector s)
  end.

Definition ParseSelector (raw : string) (dst : bool) : result sel_error Selector :=
  let s := of_chars (trim_space (chars raw)) in
  if decide (s = "") then Err EmptySelector
  else if decide (s = "*") then Ok SelAny
  else if decide (s = "self") then if dst then Ok SelSelf else Err (OnlyInDst s)
  else if decide (s = "internet") then if dst then Ok SelInternet else Err (OnlyInDst s)
  else match ParsePrefix s with
  | Some p => if Is4In6 (paddr p) then Err (MappedPrefix s) else Ok (SelCIDR (Masked p))
  | None =>
      match ParseAddr s with
      | Some a => if Is4In6 a || hasZone a then Err (NotPlainAddr s)
                  else Ok (SelCIDR (PrefixFrom a (BitLen a)))
      | None => parse_named s
      end
  end.

Record Dst := { Host : Selector; Ports : list PortRange }.

Inductive dst_error := NoPorts (s : string) | DstHost (e : sel_error) | DstPorts (e : port_error).

Definition ParseDst (raw : string) : result dst_error Dst :=
  let s := trim_space (chars raw) in
  match cut_last ":" s with
  | None => Err (NoPorts (of_chars s))
  | Some (h, rest) =>
      match ParseSelector (of_chars (default h (strip_brackets h))) true with
      | Err e => Err (DstHost e)
      | Ok host => match ParsePorts rest with
                   | Err e => Err (DstPorts e)
                   | Ok ports => Ok {| Host := host; Ports := ports |}
                   end
      end
  end.

Example sel1 : ParseSelector " group:ops " false = Ok (SelGroup "ops"). Proof. reflexivity. Qed.
Example sel2 : ParseSelector "10.1.2.3/8" true = Ok (SelCIDR (Prefix (Addr4 0x0a000000) 8)).
Proof. reflexivity. Qed.
Example sel3 : ParseSelector "self" false = Err (OnlyInDst "self"). Proof. reflexivity. Qed.
Example sel4 : ParseSelector "alice" false = Ok (SelUser "alice"). Proof. reflexivity. Qed.
Example dst1 : ParseDst "[fd00::7]:22,80" =
  Ok {| Host := SelCIDR (Prefix (Addr6 (0xfd00 * 2 ^ 112 + 7) "") 128);
        Ports := [{| Lo := 22; Hi := 22 |}; {| Lo := 80; Hi := 80 |}] |}.
Proof. reflexivity. Qed.
Example dst2 : ParseDst "fd00::7:22" =
  Ok {| Host := SelCIDR (Prefix (Addr6 (0xfd00 * 2 ^ 112 + 7) "") 128); Ports := [{| Lo := 22; Hi := 22 |}] |}.
Proof. reflexivity. Qed.

(** ** Labels *)

Definition label_char (c : ascii) : bool := alnum c || bool_decide (c = "-"%char).

Lemma label_from_spec i l :
  (0 < i)%nat →
  label_from i (i + length l) l
  = forallb label_char l && match last l with Some z => alnum z | None => true end.
Proof.
  revert i. induction l as [|c l IH]; intros i Hi; [done|].
  cbn [label_from forallb length]. unfold label_char at 1.
  replace (i + S (length l))%nat with (S i + length l)%nat by lia.
  rewrite IH by lia. rewrite last_cons.
  destruct (alnum c) eqn:Ea; simpl.
  - destruct (last l); [done|]. by rewrite Ea.
  - rewrite Nat.sub_0_r. rewrite (proj2 (Nat.ltb_lt 0 i)) by done.
    destruct (bool_decide (c = "-"%char)) eqn:Ed; simpl; [|done].
    destruct l as [|d l]; simpl.
    + rewrite Nat.add_0_r, Nat.ltb_irrefl. by rewrite Ea.
    + rewrite (proj2 (Nat.ltb_lt _ _)) by lia. rewrite !last_cons. by destruct (last l).
Qed.

Lemma forallb_reverse {A} (f : A → bool) l : forallb f (reverse l) = forallb f l.
Proof.
  induction l as [|x l IH]; [done|]. rewrite reverse_cons, forallb_app, IH. simpl.
  by rewrite andb_true_r, andb_comm.
Qed.

Lemma validLabel_labelRe s : validLabel s = labelRe s.
Proof.
  unfold validLabel, labelRe. pose proof (of_chars_chars s) as Hs.
  destruct (chars s) as [|c rest].
  { simpl in Hs. subst. done. }
  rewrite bool_decide_false by (intros ->; done). cbn [orb length label_from].
  rewrite Nat.ltb_irrefl, andb_false_r. cbn [andb].
  destruct (alnum c) eqn:Ec; [|by destruct (63 <? _)%nat]. cbn [andb].
  replace (S (length rest)) with (1 + length rest)%nat by lia.
  rewrite label_from_spec by lia.
  induction rest as [|z mid _] using rev_ind; [done|].
  rewrite reverse_app, last_snoc, length_app, forallb_app. cbn [reverse rev_append app length forallb].
  rewrite length_reverse, forallb_reverse. fold label_char.
  replace (63 <? 1 + (length mid + 1))%nat with (negb (length mid <=? 61)%nat).
  - unfold label_char at 2. change (λ c0 : ascii, alnum c0 || bool_decide (c0 = "-"%char)) with label_char. destruct (length mid <=? 61)%nat, (alnum z), (forallb label_char mid); simpl; rewrite ?andb_false_r; done.
  - rewrite <- Nat.ltb_antisym. by destruct (Nat.ltb_spec 61 (length mid)),
      (Nat.ltb_spec 63 (1 + (length mid + 1))); try lia.
Qed.

Lemma validLabel_chars s :
  validLabel s = true → chars s ≠ [] ∧ Forall (λ c, label_char c = true) (chars s).
Proof.
  rewrite validLabel_labelRe. unfold labelRe. destruct (chars s) as [|c rest]; [done|].
  intros H. go_bool. split; [done|]. constructor; [unfold label_char; by rewrite H|].
  rewrite <- (reverse_involutive rest). destruct (reverse rest) as [|z mid]; [constructor|].
  go_bool. apply Forall_reverse. constructor; [unfold label_char; by rewrite H0|].
  rewrite forallb_forall in H1. apply List.Forall_forall. intros x Hx. by apply H1.
Qed.

Lemma in_range_code lo hi c : in_range lo hi c = true ↔ code lo <= code c <= code hi.
Proof. unfold in_range. rewrite andb_true_iff, !Z.leb_le. done. Qed.

Lemma label_char_code c :
  label_char c = true → code c = 45 ∨ 48 <= code c <= 57 ∨ 97 <= code c <= 122.
Proof.
  unfold label_char, alnum, is_lower, is_digit. intros H. go_bool.
  destruct H as [H|H]; go_bool; [|by subst; left].
  destruct H as [H|H]; apply in_range_code in H.
  - change (code "a") with 97 in H. change (code "z") with 122 in H. lia.
  - change (code "0") with 48 in H. change (code "9") with 57 in H. lia.
Qed.

Lemma label_char_plain c : label_char c = true → plain c = true.
Proof.
  intros H%label_char_code. unfold plain. apply andb_true_iff. split; apply Z.leb_le; lia.
Qed.

Lemma label_not_in s c : validLabel s = true → label_char c = false → c ∉ chars s.
Proof.
  intros [_ H]%validLabel_chars Hc Hin. rewrite Forall_forall in H. apply H in Hin. congruence.
Qed.

(** ** Round trip of selectors *)

(** What [ParseSelector] can produce. *)
Definition sel_wf (dst : bool) (s : Selector) : Prop :=
  match s with
  | SelAny => True
  | SelUser n | SelGroup n | SelTag n | SelPeer n => validLabel n = true
  | SelSelf | SelInternet => dst = true
  | SelCIDR p => PIsValid p = true ∧ Masked p = p ∧ Is4In6 (paddr p) = false
  end.

(** IPv4 prefixes whose bits fit. *)
Definition sel_v4 (s : Selector) : Prop :=
  match s with
  | SelCIDR p => Is4 (paddr p) = true ∧ addr_wf (paddr p) ∧ pbits p <= 32
  | _ => True
  end.

Lemma parse_named_kind (kind : string) (name : string) s :
  s = kind +:+ ":" +:+ name → ":"%char ∉ chars kind →
  parse_named s =
    if negb (validLabel name) then Err (BadLabel s)
    else if decide (chars kind = chars "user") then Ok (SelUser name)
    else if decide (chars kind = chars "group") then Ok (SelGroup name)
    else if decide (chars kind = chars "tag") then Ok (SelTag name)
    else if decide (chars kind = chars "peer") then Ok (SelPeer name)
    else Err (UnknownKind s).
Proof.
  intros Hs Hk. unfold parse_named. rewrite Hs at 1. rewrite !chars_app.
  change (chars ":") with [":"%char]. cbn [app]. rewrite cut_app by done.
  by rewrite of_chars_chars.
Qed.

(** A kind prefix starting with a non-hexadecimal letter is no address. *)
Lemma not_addr c l :
  hex_val c = None → c ∉ [":"; "."; "%"]%char →
  addr_family (c :: l) = Some ":"%char → parse_addr (c :: l) = None.
Proof.
  intros Hh Hc Hf. unfold parse_addr. rewrite Hf. simpl. unfold parse_v6.
  assert (∀ l', parse_v6_plain (c :: l') = None) as Hp.
  { intros l'. unfold parse_v6_plain. simpl. rewrite decide_False by set_solver.
    by rewrite Hh. }
  assert (cut "%" (c :: l) = None ∨ ∃ s z, cut "%" (c :: l) = Some (c :: s, z)) as [->|(s & z & ->)].
  { simpl. rewrite decide_False by set_solver. destruct (cut "%" l) as [[]|]; simpl; eauto. }
  - by rewrite Hp.
  - rewrite Hp. by destruct z.
Qed.

Lemma kind_selector (kind name : string) c k dst :
  chars kind = c :: k → hex_val c = None → Forall (λ x, label_char x = true) (c :: k) →
  validLabel name = true →
  ParseSelector (kind +:+ ":" +:+ name) dst = parse_named (kind +:+ ":" +:+ name).
Proof.
  intros Hk Hh Hkc Hn. unfold ParseSelector.
  assert (chars (kind +:+ ":" +:+ name) = c :: k ++ ":"%char :: chars name) as Hc.
  { rewrite !chars_app, Hk. done. }
  pose proof (validLabel_chars _ Hn) as [_ Hnc].
  assert (Forall (λ x, plain x = true) (chars (kind +:+ ":" +:+ name))) as Hp.
  { rewrite Hc. change (c :: k ++ ?x) with ((c :: k) ++ x). apply Forall_app_2.
    - eapply Forall_impl; [exact Hkc|]. apply label_char_plain.
    - constructor; [done|]. eapply Forall_impl; [exact Hnc|]. apply label_char_plain. }
  rewrite trim_space_plain, of_chars_chars by done.
  assert (∀ t, ":"%char ∉ chars t → kind +:+ ":" +:+ name ≠ t) as Hne.
  { intros t Ht <-. apply Ht. rewrite Hc. apply elem_of_cons. right.
    apply elem_of_app. right. constructor. }
  rewrite !decide_False by (apply Hne; vm_compute; set_solver).
  assert ("/"%char ∉ chars (kind +:+ ":" +:+ name)) as Hslash.
  { rewrite Hc. intros Hin. change (c :: k ++ ?x) with ((c :: k) ++ x) in Hin.
    rewrite !Forall_forall in *. apply elem_of_app in Hin as [Hin%Hkc|Hin]; [done|].
    apply elem_of_cons in Hin as [?|Hin%Hnc]; done. }
  unfold ParsePrefix, parse_prefix. rewrite cut_last_none by done. cbn [mbind option_bind].
  unfold ParseAddr. rewrite Hc. rewrite not_addr; [done|done| |].
  - apply Forall_cons in Hkc as [Hkc _]. rewrite !elem_of_cons, elem_of_nil. intros Hin.
    destruct Hin as [->|[->|[->|[]]]]; done.
  - clear -Hkc. change (c :: k ++ ?x) with ((c :: k) ++ x).
    induction Hkc as [|x l Hx Hl IH]; simpl; [done|]. rewrite decide_False; [done|].
    intros [->|[->| ->]]; done.
Qed.

Lemma v4_prefix_selector p dst :
  PIsValid p = true → Masked p = p → Is4In6 (paddr p) = false →
  Is4 (paddr p) = true → addr_wf (paddr p) → pbits p <= 32 →
  ParseSelector (prefix_string p) dst = Ok (SelCIDR p).
Proof.
  destruct p as [[|a|] n]; simpl; try done. intros Hv Hm Hi _ Ha Hn.
  unfold PIsValid in Hv. simpl in Hv. go_bool.
  pose proof (ParsePrefix_v4_string a n Ha ltac:(lia)) as Hp.
  assert (chars (prefix_string (Prefix (Addr4 a) n))
          = chars (v4_string a) ++ "/"%char :: chars (itoa n)) as Hc.
  { unfold prefix_string, PIsValid. simpl. rewrite (proj2 (Z.leb_le _ _)) by lia.
    by rewrite !chars_app. }
  set (s := prefix_string (Prefix (Addr4 a) n)) in *.
  assert (Forall (λ x, plain x = true) (chars s)) as Hpl.
  { rewrite Hc. apply Forall_app_2.
    - apply Forall_forall. intros x Hx. destruct (is_digit x) eqn:E; [by apply is_digit_plain|].
      destruct (decide (x = "."%char)) as [->|]; [done|]. by apply v4_string_chars in Hx.
    - constructor; [done|]. eapply Forall_impl; [by apply itoa_digits|]. apply is_digit_plain. }
  unfold ParseSelector. rewrite trim_space_plain, of_chars_chars by done.
  assert (∀ t, "/"%char ∉ chars t → s ≠ t) as Hne.
  { intros t Ht Hst. apply Ht. rewrite <- Hst, Hc. apply elem_of_app. right. constructor. }
  rewrite !decide_False by (apply Hne; vm_compute; set_solver).
  rewrite Hp. simpl. by rewrite Hm.
Qed.

(** The case of a [kind:name] selector. *)
Local Ltac kind_case kind n H :=
  match goal with |- context [ParseSelector ?s _] => change s with (kind +:+ ":" +:+ n) end;
  erewrite kind_selector; [|reflexivity|reflexivity|repeat constructor|exact H];
  rewrite (parse_named_kind kind n) by (reflexivity || (vm_compute; set_solver));
  rewrite H; reflexivity.

Lemma ParseSelector_string s dst :
  sel_wf dst s → sel_v4 s → ParseSelector (sel_string s) dst = Ok s.
Proof.
  intros Hwf H4. destruct s as [|n|n|n|n| |p|]; simpl in *.
  - done.
  - kind_case "user" n Hwf.
  - kind_case "group" n Hwf.
  - kind_case "tag" n Hwf.
  - kind_case "peer" n Hwf.
  - by subst.
  - destruct Hwf as (?&?&?), H4 as (?&?&?). by apply v4_prefix_selector.
  - by subst.
Qed.

Lemma ParseSelector_wf raw dst s : ParseSelector raw dst = Ok s → sel_wf dst s.
Proof.
  unfold ParseSelector. set (t := of_chars _). intros H.
  do 4 (case_decide; [destruct dst; by simplify_eq/=|]).
  destruct (ParsePrefix t) as [p|] eqn:Ep.
  { apply ParsePrefix_valid in Ep as (a & n & -> & Ha & Hn).
    simpl in H. destruct (Is4In6 _) eqn:E; simplify_eq. unfold sel_wf.
    rewrite <- BitLen_withoutZone in Hn. pose proof Hn as [Hn0 ?].
    split; [|split]; [|apply Masked_idemp; [by apply PIsValid_Prefix|simpl; lia]|];
      rewrite Masked_valid by lia.
    - by apply PIsValid_Prefix.
    - by apply Is4In6_mask. }
  destruct (ParseAddr t) as [a|] eqn:Ea.
  { apply parse_addr_valid in Ea. destruct (_ || _) eqn:E; simplify_eq. go_bool.
    pose proof (BitLen_nonneg a). rewrite PrefixFrom_valid by (done || lia). unfold sel_wf.
    split; [by apply PIsValid_Prefix|]. split; [|by destruct a].
    rewrite Masked_valid, <- (BitLen_withoutZone a), addr_mask_full by done. by destruct a. }
  unfold parse_named in H. destruct (cut ":" (chars t)) as [[kind nm]|].
  - destruct (validLabel (of_chars nm)) eqn:El; [simpl in H|done].
    repeat (case_decide; [by simplify_eq/=|]). done.
  - destruct (validLabel t) eqn:El; by simplify_eq/=.
Qed.

Lemma ParseSelector_cases raw dst :
  (∃ s, ParseSelector raw dst = Ok s ∧ sel_wf dst s) ∨ ∃ e, ParseSelector raw dst = Err e.
Proof.
  destruct (ParseSelector raw dst) eqn:E; [left|right]; [|by eauto].
  eexists. split; [done|]. by eapply ParseSelector_wf.
Qed.

(** ** Properties *)

(** The two label tests of the program, the loop of the policy package and
    the regular expression of the control package, accept the same names, and
    an accepted name is not empty and made of lower-case letters, digits and
    hyphens only. *)
Theorem labels_agree s :
  validLabel s = labelRe s ∧
  (validLabel s = true → s ≠ "" ∧ (String.length s ≤ 63)%nat ∧
     Forall (λ c, label_char c = true) (chars s)).
Proof.
  split; [apply validLabel_labelRe|]. intros H. pose proof (validLabel_chars s H) as [Hne Hc].
  split; [by intros ->|]. split; [|done]. unfold validLabel in H.
  destruct (bool_decide _ || _) eqn:E; [done|]. go_bool. apply Nat.ltb_ge in H1.
  by rewrite <- length_chars.
Qed.

(** Selectors survive printing and parsing.  Everything [ParseSelector]
    accepts is well formed (a valid label, a canonical prefix that is not
    IPv4-mapped, self and internet only as a destination), and the printed form
    of a well-formed selector, CIDRs being IPv4, parses back to it. *)
Theorem ParseSelector_roundtrip :
  (∀ raw dst s, ParseSelector raw dst = Ok s → sel_wf dst s) ∧
  (∀ dst s, sel_wf dst s → sel_v4 s → ParseSelector (sel_string s) dst = Ok s).
Proof. split; [exact ParseSelector_wf|]. intros. by apply ParseSelector_string. Qed.
