(* ===== verification/Policy.v ===== *)
(** The policy document: [internal/control/policy/policy.go] ([Parse],
    [parseRules], [PeerReferences]) and [validate.go] ([Validate]).

    The YAML decoder is a third-party package and is a parameter of [Parse].
    Go iterates maps in random order; the error and warning lists use the order
    of [map_to_list], and the theorems only speak of which errors there are. *)

From S2P Require Import Prelude GoStrings Sha256 NetIP Ports Selector.

Definition Version : Z := 1.

(** [Rule]: one accept rule as written in the file. *)
Record Rule := { Action : string; Src : list string; DstS : list string; Proto : string }.

Record parsedRule := { psrc : list Selector; pdst : list Dst; pproto : string }.

(** The decoded YAML document: the fields of [Policy] with a yaml key. *)
Record document := {
  docVersion : Z;
  docGroups : gmap string (list string);
  docTagOwners : gmap string (list string);
  docACLs : list Rule;
}.

Record Policy := {
  doc : document;
  Hash : string;
  Source : list byte;
  rules : list parsedRule;
}.

Definition Groups (p : Policy) := docGroups (doc p).
Definition TagOwners (p : Policy) := docTagOwners (doc p).
Definition ACLs (p : Policy) := docACLs (doc p).

Definition EmptyDoc : document :=
  {| docVersion := Version; docGroups := ∅; docTagOwners := ∅; docACLs := [] |}.
(** [Empty]: the default-deny policy used when no file exists. *)
Definition Empty : Policy := {| doc := EmptyDoc; Hash := ""; Source := []; rules := [] |}.

(** Where an error was found, and what it is. *)
Inductive field_error :=
  | GroupName (g : string)
  | GroupEmpty (g : string)
  | GroupMember (g : string) (i : nat)
  | TagKey (t : string)
  | TagNoOwners (t : string)
  | TagOwner (t : string) (i : nat)
  | RuleAction (i : nat)
  | RuleNoSrc (i : nat)
  | RuleSrc (i j : nat) (e : sel_error)
  | RuleNoDst (i : nat)
  | RuleDst (i j : nat) (e : dst_error)
  | RuleProto (i : nat)
  | RuleICMPPorts (i j : nat).

Definition is_user_name (m : string) : bool :=
  match ParseSelector m false with Ok (SelUser _) => true | _ => false end.
Definition is_tag_name (m : string) : bool :=
  match ParseSelector m false with Ok (SelTag _) => true | _ => false end.
Definition is_owner_name (m : string) : bool :=
  match ParseSelector m false with Ok (SelUser _) | Ok (SelGroup _) => true | _ => false end.

(** [if cond then [e] else []], the shape of every check below. *)
Definition when {A} (b : bool) (e : A) : list A := if b then [e] else [].

Definition group_errors (g : string * list string) : list field_error :=
  when (negb (validLabel g.1)) (GroupName g.1)
  ++ when (bool_decide (g.2 = [])) (GroupEmpty g.1)
  ++ concat (imap (λ i m, when (negb (is_user_name m)) (GroupMember g.1 i)) g.2).

Definition tag_errors (t : string * list string) : list field_error :=
  when (negb (is_tag_name t.1)) (TagKey t.1)
  ++ when (bool_decide (t.2 = [])) (TagNoOwners t.1)
  ++ concat (imap (λ i o, when (negb (is_owner_name o)) (TagOwner t.1 i)) t.2).

(** Keeps what parses and reports the rest with its index. *)
Fixpoint parse_each {E A} (f : string → result E A) (j : nat) (l : list string)
    : list A * list (nat * E) :=
  match l with
  | [] => ([], [])
  | s :: l' =>
      let '(ok, bad) := parse_each f (S j) l' in
      match f s with Ok a => (a :: ok, bad) | Err e => (ok, (j, e) :: bad) end
  end.

Definition all_ports (d : Dst) : bool := bool_decide (Ports d = [AllPorts]).

(** The body of the loop over [p.ACLs]. *)
Definition parse_rule (i : nat) (r : Rule) : parsedRule * list field_error :=
  let '(src, srcBad) := parse_each (λ s, ParseSelector s false) 0 (Src r) in
  let '(dst, dstBad) := parse_each ParseDst 0 (DstS r) in
  let proto := ParseProto (Proto r) in
  let pr := {| psrc := src; pdst := dst; pproto := default "" proto |} in
  (pr,
   when (bool_decide (Action r ≠ "accept")) (RuleAction i)
   ++ when (bool_decide (Src r = [])) (RuleNoSrc i)
   ++ ((λ '(j, e), RuleSrc i j e) <$> srcBad)
   ++ when (bool_decide (DstS r = [])) (RuleNoDst i)
   ++ ((λ '(j, e), RuleDst i j e) <$> dstBad)
   ++ when (bool_decide (proto = None)) (RuleProto i)
   ++ (if decide (pproto pr = ProtoICMP)
       then concat (imap (λ j d, when (negb (all_ports d)) (RuleICMPPorts i j)) dst) else [])).

Definition parseRules (d : document) : list parsedRule * list field_error :=
  let parsed := imap parse_rule (docACLs d) in
  (parsed.*1,
   concat (group_errors <$> map_to_list (docGroups d))
   ++ concat (tag_errors <$> map_to_list (docTagOwners d))
   ++ concat parsed.*2).

Inductive policy_error :=
  | YAMLError
  | BadVersion (v : Z)
  | BadFields (es : list field_error).

Section Parse.
(** gopkg.in/yaml.v3: [None] when the text is malformed or has unknown
    fields; an empty text decodes to the zero document. *)
Variable decode : list byte → option document.

Definition Parse (data : list byte) : result policy_error Policy :=
  match decode data with
  | None => Err YAMLError
  | Some d =>
      if decide (docVersion d ≠ Version) then Err (BadVersion (docVersion d))
      else match parseRules d with
           | (rs, []) => Ok {| doc := d; Hash := hex (take 6 (sha256 data)); Source := data; rules := rs |}
           | (_, es) => Err (BadFields es)
           end
  end.
End Parse.

(** [PeerReferences]: for every selected peer name, the places that select it,
    as (rule, is-destination, index), in the order they are found. *)
Definition rule_references (i : nat) (r : parsedRule) : list (string * (nat * bool * nat)) :=
  concat (imap (λ j s, match s with SelPeer n => [(n, (i, false, j))] | _ => [] end) (psrc r))
  ++ concat (imap (λ j d, match Host d with SelPeer n => [(n, (i, true, j))] | _ => [] end) (pdst r)).

Definition add_reference (m : gmap string (list (nat * bool * nat))) (kv : string * (nat * bool * nat)) :=
  <[kv.1 := default [] (m !! kv.1) ++ [kv.2]]> m.

Definition PeerReferences (p : Policy) : gmap string (list (nat * bool * nat)) :=
  foldl add_reference ∅ (concat (imap rule_references (rules p))).

(** ** Validation against the registry *)

Record Registry := {
  regUsers : list string;
  regPeers : list string;
  regTags : list string;
  Overlay : prefix;
  Overlay6 : prefix;
}.

Inductive place :=
  | InGroup (g : string) (i : nat)
  | InTagOwners (t : string) (i : nat)
  | InSrc (i j : nat)
  | InDst (i j : nat).

Inductive reg_error :=
  | UnknownUser (w : place) (n : string)
  | UnknownGroup (w : place) (n : string)
  | OutsideOverlay6 (w : place) (p : prefix)
  | OverlapsOverlay (w : place) (p : prefix).
Inductive reg_warning :=
  | NoSuchTag (w : place) (n : string)
  | NoSuchPeer (w : place) (n : string).

(** [Selector.Name], empty for the kinds without one. *)
Definition sel_name (s : Selector) : string :=
  match s with SelUser n | SelGroup n | SelTag n | SelPeer n => n | _ => "" end.

(** The closure [check]: errors and warnings of one selector. *)
Definition check (p : Policy) (reg : Registry) (w : place) (s : Selector)
    : list reg_error * list reg_warning :=
  match s with
  | SelUser n => (when (negb (bool_decide (n ∈ regUsers reg))) (UnknownUser w n), [])
  | SelGroup n => (when (bool_decide (Groups p !! n = None)) (UnknownGroup w n), [])
  | SelTag n => ([], when (negb (bool_decide ("tag:" +:+ n ∈ regTags reg))) (NoSuchTag w n))
  | SelPeer n => ([], when (negb (bool_decide (n ∈ regPeers reg))) (NoSuchPeer w n))
  | SelCIDR x =>
      if Is6 (paddr x) then
        (when (PIsValid (Overlay6 reg)
               && ((pbits x <? pbits (Overlay6 reg)) || negb (Contains (Overlay6 reg) (paddr x))))
           (OutsideOverlay6 w x), [])
      else
        (when (PIsValid (Overlay reg) && Overlaps x (Overlay reg)
               && negb (Contains (Overlay reg) (paddr x)))
           (OverlapsOverlay w x), [])
  | SelAny | SelSelf | SelInternet => ([], [])
  end.

Definition member_errors (reg : Registry) (g : string * list string) : list reg_error :=
  concat (imap (λ i m, match ParseSelector m false with
    | Ok s => when (negb (bool_decide (sel_name s ∈ regUsers reg))) (UnknownUser (InGroup g.1 i) (sel_name s))
    | Err _ => []
    end) (g.2)).

(** [sortedKeys]: the entries of a map in the order of their keys. *)
Definition key_less {A} (a b : string * A) : bool := str_ltb a.1 b.1.
Definition sorted_entries {A} (m : gmap string A) : list (string * A) :=
  stable_sort key_less (map_to_list m).

(** Every selector [Validate] checks, with its place. *)
Definition owner_selectors (t : string * list string) : list (place * Selector) :=
  concat (imap (λ i o, match ParseSelector o false with
    | Ok s => [(InTagOwners t.1 i, s)] | Err _ => [] end) (t.2)).
Definition rule_selectors (i : nat) (r : parsedRule) : list (place * Selector) :=
  imap (λ j s, (InSrc i j, s)) (psrc r) ++ imap (λ j d, (InDst i j, Host d)) (pdst r).

Definition checked_selectors (p : Policy) : list (place * Selector) :=
  concat (owner_selectors <$> sorted_entries (TagOwners p)) ++ concat (imap rule_selectors (rules p)).

(** (errors, warnings); the Go function fails when there are errors. *)
Definition Validate (p : Policy) (reg : Registry) : list reg_error * list reg_warning :=
  let found := (λ ws, check p reg ws.1 ws.2) <$> checked_selectors p in
  (concat (member_errors reg <$> sorted_entries (Groups p)) ++ concat found.*1, concat found.*2).

(** ** Lemmas *)

Lemma when_nil {A} b (e : A) : when b e = [] ↔ b = false.
Proof. by destruct b. Qed.

Lemma concat_fmap_nil {A B} (f : A → list B) l :
  concat (f <$> l) = [] ↔ ∀ x, x ∈ l → f x = [].
Proof. by rewrite concat_nil, Forall_fmap, Forall_forall. Qed.

Lemma elem_of_sorted_entries {A} (m : gmap string A) k v :
  (k, v) ∈ sorted_entries m ↔ m !! k = Some v.
Proof. unfold sorted_entries. by rewrite elem_of_stable_sort, elem_of_map_to_list. Qed.

Lemma parse_each_ok {E A} (f : string → result E A) j l ok :
  parse_each f j l = (ok, []) ↔ Forall2 (λ s a, f s = Ok a) l ok.
Proof.
  revert j ok. induction l as [|s l IH]; simpl; intros j ok.
  { split; [intros; simplify_eq; constructor|by intros ->%Forall2_nil_inv_l]. }
  destruct (parse_each f (S j) l) as [ok' bad'] eqn:Ep.
  destruct (f s) eqn:Ef.
  - split.
    + intros; simplify_eq. constructor; [done|]. by apply (IH (S j)).
    + intros H. inversion H as [|? a' ? l' Ha Hl]; subst. apply (IH (S j)) in Hl. congruence.
  - split; [done|]. intros H. inversion H; congruence.
Qed.

(** ** What the checks mean *)

Definition rule_ok (r : Rule) (pr : parsedRule) : Prop :=
  Action r = "accept" ∧ Src r ≠ [] ∧ DstS r ≠ [] ∧
  Forall2 (λ s sel, ParseSelector s false = Ok sel) (Src r) (psrc pr) ∧
  Forall2 (λ s d, ParseDst s = Ok d) (DstS r) (pdst pr) ∧
  ParseProto (Proto r) = Some (pproto pr) ∧
  (pproto pr = ProtoICMP → ∀ d, d ∈ pdst pr → Ports d = [AllPorts]).

Definition groups_ok (gs : gmap string (list string)) : Prop :=
  ∀ g ms, gs !! g = Some ms →
    validLabel g = true ∧ ms ≠ [] ∧ ∀ m, m ∈ ms → ∃ u, ParseSelector m false = Ok (SelUser u).

Definition tag_owners_ok (ts : gmap string (list string)) : Prop :=
  ∀ t os, ts !! t = Some os →
    (∃ n, ParseSelector t false = Ok (SelTag n)) ∧ os ≠ [] ∧
    ∀ o, o ∈ os → ∃ n, ParseSelector o false = Ok (SelUser n) ∨ ParseSelector o false = Ok (SelGroup n).

Lemma is_user_name_spec m : is_user_name m = true ↔ ∃ u, ParseSelector m false = Ok (SelUser u).
Proof. unfold is_user_name. split; [intros; go_cases; eauto|by intros [u ->]]. Qed.
Lemma is_tag_name_spec m : is_tag_name m = true ↔ ∃ u, ParseSelector m false = Ok (SelTag u).
Proof. unfold is_tag_name. split; [intros; go_cases; eauto|by intros [u ->]]. Qed.
Lemma is_owner_name_spec m : is_owner_name m = true ↔
  ∃ n, ParseSelector m false = Ok (SelUser n) ∨ ParseSelector m false = Ok (SelGroup n).
Proof. unfold is_owner_name. split; [intros; go_cases; eauto|by intros [u [-> | ->]]]. Qed.

(** No error for any element of an indexed list of checks. *)
Lemma each_ok {A B} (f : A → bool) (e : nat → B) l :
  concat (imap (λ i m, when (negb (f m)) (e i)) l) = [] ↔ ∀ m, m ∈ l → f m = true.
Proof.
  rewrite concat_imap_nil. setoid_rewrite when_nil. setoid_rewrite negb_false_iff.
  setoid_rewrite list_elem_of_lookup. naive_solver.
Qed.

Lemma group_errors_nil g ms :
  group_errors (g, ms) = [] ↔
  validLabel g = true ∧ ms ≠ [] ∧ ∀ m, m ∈ ms → ∃ u, ParseSelector m false = Ok (SelUser u).
Proof.
  unfold group_errors; simpl. setoid_rewrite <- is_user_name_spec.
  rewrite <- (each_ok is_user_name (GroupMember g)).
  split.
  - intros [H1 [H2 H3]%app_nil]%app_nil. apply when_nil in H1, H2. by go_bool.
  - intros (H1 & H2 & H3). rewrite H1, H3, bool_decide_false by done. done.
Qed.

Lemma tag_errors_nil t os :
  tag_errors (t, os) = [] ↔
  (∃ n, ParseSelector t false = Ok (SelTag n)) ∧ os ≠ [] ∧
    ∀ o, o ∈ os → ∃ n, ParseSelector o false = Ok (SelUser n) ∨ ParseSelector o false = Ok (SelGroup n).
Proof.
  unfold tag_errors; simpl. setoid_rewrite <- is_owner_name_spec. rewrite <- is_tag_name_spec.
  rewrite <- (each_ok is_owner_name (TagOwner t)).
  split.
  - intros [H1 [H2 H3]%app_nil]%app_nil. apply when_nil in H1, H2. by go_bool.
  - intros (H1 & H2 & H3). rewrite H1, H3, bool_decide_false by done. done.
Qed.

Lemma icmp_errors_nil i proto dst :
  (if decide (proto = ProtoICMP)
   then concat (imap (λ j d, when (negb (all_ports d)) (RuleICMPPorts i j)) dst) else []) = []
  ↔ (proto = ProtoICMP → ∀ d, d ∈ dst → Ports d = [AllPorts]).
Proof.
  case_decide; [|naive_solver]. rewrite (each_ok all_ports).
  unfold all_ports. setoid_rewrite bool_decide_eq_true. naive_solver.
Qed.

Lemma parse_rule_ok i r pr : parse_rule i r = (pr, []) ↔ rule_ok r pr.
Proof.
  unfold parse_rule, rule_ok. rewrite <- (parse_each_ok _ 0), <- (parse_each_ok _ 0).
  split.
  - destruct (parse_each _ 0 (Src r)) as [src sbad].
    destruct (parse_each ParseDst 0 (DstS r)) as [dst dbad].
    intros [= <- [H1 [H2 [H3 [H4 [H5 [H6 H]%app_nil]%app_nil]%app_nil]%app_nil]%app_nil]%app_nil].
    apply when_nil in H1, H2, H4, H6. apply fmap_nil_inv in H3, H5.
    pose proof (proj1 (icmp_errors_nil _ _ _) H) as Hic.
    go_bool. subst. simpl in *. destruct (ParseProto (Proto r)); [|done].
    split; [by apply dec_stable|]. done.
  - intros (Ha & Hs & Hd & -> & -> & Hp & Hic). rewrite Hp.
    cbn [default from_option]. rewrite (proj2 (icmp_errors_nil i _ _)) by done.
    rewrite !bool_decide_false by (done || (intros Hn; by apply Hn)). by destruct pr.
Qed.

Lemma imap_pairs_ok {A B C} (f : nat → A → B * list C) (R : A → B → Prop) l bs :
  (∀ i a b, f i a = (b, []) ↔ R a b) →
  ((imap f l).*1 = bs ∧ concat (imap f l).*2 = [] ↔ Forall2 R l bs).
Proof.
  intros Hf. revert f bs Hf. induction l as [|a l IH]; intros f bs Hf; simpl.
  { split; [intros [<- _]; constructor|by intros ->%Forall2_nil_inv_l]. }
  specialize (IH (f ∘ S)). split.
  - intros [<- [Ha Hl]%app_nil]. constructor.
    + apply (Hf 0%nat). rewrite <- Ha. by destruct (f 0%nat a).
    + apply IH; [|done]. intros. apply Hf.
  - intros H. inversion H as [|? b ? bs' Hab Hl]; subst. apply (Hf 0%nat) in Hab.
    apply IH in Hl as [<- Hl]; [|intros; apply Hf]. by rewrite Hab.
Qed.

Lemma parseRules_ok d rs :
  parseRules d = (rs, []) ↔
  groups_ok (docGroups d) ∧ tag_owners_ok (docTagOwners d) ∧ Forall2 rule_ok (docACLs d) rs.
Proof.
  unfold parseRules, groups_ok, tag_owners_ok. setoid_rewrite <- group_errors_nil.
  setoid_rewrite <- tag_errors_nil. rewrite <- (imap_pairs_ok parse_rule rule_ok) by apply parse_rule_ok.
  split.
  - intros [= <- [Hg [Ht Hr]%app_nil]%app_nil]. split_and!; try done.
    + intros g ms Hm. apply concat_fmap_nil with (x := (g, ms)) in Hg; [done|].
      by apply elem_of_map_to_list.
    + intros t os Hm. apply concat_fmap_nil with (x := (t, os)) in Ht; [done|].
      by apply elem_of_map_to_list.
  - intros (Hg & Ht & <- & ->). f_equal. rewrite app_nil_r. apply app_nil. split.
    + apply concat_fmap_nil. intros [g ms] Hm%elem_of_map_to_list. by apply Hg.
    + apply concat_fmap_nil. intros [t os] Hm%elem_of_map_to_list. by apply Ht.
Qed.

(** ** Properties *)

(** [Parse] accepts exactly the well-formed documents.  It succeeds iff the
    YAML decodes, the version is the supported one, every group has a valid
    name and at least one member, all of them user names, every tagOwners key
    is a tag with at least one user or group as owner, and every rule accepts,
    names at least one source and destination, all of which parse, has a known
    protocol, and opens port * only when it is an ICMP rule.  The policy then
    holds exactly the parsed rules, in order, and the hash of the text. *)
Theorem Parse_correct decode data p :
  Parse decode data = Ok p ↔
  ∃ d rs, decode data = Some d ∧ docVersion d = Version ∧
    groups_ok (docGroups d) ∧ tag_owners_ok (docTagOwners d) ∧ Forall2 rule_ok (docACLs d) rs ∧
    p = {| doc := d; Hash := hex (take 6 (sha256 data)); Source := data; rules := rs |}.
Proof.
  unfold Parse. destruct (decode data) as [d|]; [|naive_solver].
  destruct (decide (docVersion d ≠ Version)) as [Hv|Hv].
  { split; [done|]. naive_solver. }
  apply dec_stable in Hv. destruct (parseRules d) as [rs es] eqn:Er. split.
  - destruct es; [|done]. intros [= <-]. apply parseRules_ok in Er as (?&?&?). eauto 10.
  - intros (d' & rs' & [= <-] & _ & Hg & Ht & Hr & ->).
    assert (parseRules d = (rs', [])) as Er' by by apply parseRules_ok.
    rewrite Er' in Er. by simplify_eq.
Qed.

(** ** Validation *)

(** What [Validate] demands of a selector; tags and peers are never errors. *)
Definition sel_known (p : Policy) (reg : Registry) (s : Selector) : Prop :=
  match s with
  | SelUser n => n ∈ regUsers reg
  | SelGroup n => is_Some (Groups p !! n)
  | SelCIDR x =>
      if Is6 (paddr x) then
        PIsValid (Overlay6 reg) = true →
        pbits (Overlay6 reg) <= pbits x ∧ Contains (Overlay6 reg) (paddr x) = true
      else
        PIsValid (Overlay reg) = true → Overlaps x (Overlay reg) = true →
        Contains (Overlay reg) (paddr x) = true
  | _ => True
  end.

Lemma check_ok p reg w s : (check p reg w s).1 = [] ↔ sel_known p reg s.
Proof.
  destruct s as [|n|n|n|n| |x|]; simpl; try done.
  - rewrite when_nil, negb_false_iff. by rewrite bool_decide_eq_true.
  - rewrite when_nil, bool_decide_eq_false. by rewrite not_eq_None_Some.
  - destruct (Is6 (paddr x)); simpl; rewrite when_nil.
    + destruct (PIsValid (Overlay6 reg)); simpl; [|naive_solver].
      rewrite orb_false_iff, Z.ltb_ge, negb_false_iff. naive_solver.
    + destruct (PIsValid (Overlay reg)), (Overlaps x (Overlay reg)); simpl; try naive_solver.
      rewrite negb_false_iff. naive_solver.
Qed.

Lemma member_errors_ok reg g ms :
  member_errors reg (g, ms) = [] ↔
  ∀ m s, m ∈ ms → ParseSelector m false = Ok s → sel_name s ∈ regUsers reg.
Proof.
  unfold member_errors; simpl. rewrite concat_imap_nil. split.
  - intros H m s [i Hi]%list_elem_of_lookup Hs. specialize (H _ _ Hi). rewrite Hs in H.
    apply when_nil in H. by go_bool.
  - intros H i m Hi. destruct (ParseSelector m false) as [s|] eqn:Hs; [|done].
    apply when_nil, negb_false_iff, bool_decide_eq_true. eapply H; [|done].
    by eapply list_elem_of_lookup_2.
Qed.

(** [Validate] is sound and complete: it reports no error iff every group
    member is an existing user and every selector of the tag owners and rules
    is known to the registry: users and groups exist, an IPv6 prefix lies
    inside the IPv6 overlay, and an IPv4 prefix does not contain the overlay.
    Unknown tags and peers never make it fail. *)
Theorem Validate_correct p reg :
  (Validate p reg).1 = [] ↔
  (∀ g ms m s, Groups p !! g = Some ms → m ∈ ms → ParseSelector m false = Ok s →
     sel_name s ∈ regUsers reg) ∧
  (∀ w s, (w, s) ∈ checked_selectors p → sel_known p reg s).
Proof.
  unfold Validate; simpl. setoid_rewrite <- check_ok.
  split.
  - intros [Hg Hc]%app_nil. split.
    + intros g ms m s Hms Hm Hs. apply concat_fmap_nil with (x := (g, ms)) in Hg.
      * by eapply member_errors_ok in Hg.
      * by apply elem_of_sorted_entries.
    + intros w s Hw. rewrite <- list_fmap_compose in Hc.
      by apply concat_fmap_nil with (x := (w, s)) in Hc.
  - intros [Hg Hc]. apply app_nil. split.
    + apply concat_fmap_nil. intros [g ms] Hm%elem_of_sorted_entries.
      apply member_errors_ok. eauto.
    + rewrite <- list_fmap_compose. apply concat_fmap_nil. intros [w s] Hw. by eapply Hc.
Qed.
