(* ===== verification/Compile.v ===== *)
(** Compilation of a policy against the registered peers:
    [internal/control/policy/compile.go].

    [CompileWith] resolves every selector to a bitset over the peer list;
    [Allowed], [Visible], [FilterFor], [ForwardFor], [RoutesFor],
    [ExitNodesFor] and [MayUseTag] answer from those bitsets.  The second half
    states what the policy text means ([selects], [grants], [grants_route]) and
    proves that the compiled form gives exactly those answers. *)

From S2P Require Import Prelude GoStrings NetIP Ports Selector Policy.

(** [policy.Peer]. *)
Record Peer := {
  ID : string;
  Name : string;
  Owner : string;
  Tags : list string;
  IPv4 : addr;
  IPv6 : addr;
  Routes : list prefix;
}.

Record PortRule := { prProto : string; prLo : Z; prHi : Z }.
Record FilterRule := { frSrc : addr; frProto : string; frLo : Z; frHi : Z }.
Record ForwardRule := { fwSrc : addr; fwDst : prefix; fwProto : string; fwLo : Z; fwHi : Z }.
Record Route := { rtPrefix : prefix; rtVia : string }.

Definition ExitPrefix : prefix := Prefix (Addr4 0) 0.
Definition ExitPrefix6 : prefix := Prefix (Addr6 0 "") 0.

Record Summary := { sRules : Z; sPeers : Z; sVisiblePairs : Z }.

(** ** Bitsets: [b[i/64] |= 1 << (i%64)] *)

Abbreviation bitset := (list Z).

Definition newBitset (n : nat) : bitset := replicate ((n + 63) / 64)%nat 0.
Definition bset (b : bitset) (i : nat) : bitset :=
  alter (λ w, Z.lor w (Z.shiftl 1 (Z.of_nat (i mod 64)))) (i / 64)%nat b.
Definition bhas (b : bitset) (i : nat) : bool :=
  match b !! (i / 64)%nat with
  | Some w => negb (Z.land w (Z.shiftl 1 (Z.of_nat (i mod 64))) =? 0)
  | None => false
  end.
(** The loop [for i, w := range resolve(s) { b[i] |= w }]. *)
Definition bor (b c : bitset) : bitset := zip_with Z.lor b c.

Record crule := { csrc : bitset; cdst : bitset; cself : bool; cproto : string; cports : list PortRange }.
Record rrule := { rsrc : bitset; rprefix : prefix; rinternet : bool; rproto : string; rports : list PortRange }.

Record Compiled := {
  cHash : string;
  peers : list Peer;
  index : gmap string nat;
  crules : list crule;
  routeRules : list rrule;
  tagOwners : gmap string (gset string);
  summary : Summary;
}.

(** [IsRoute]: an IPv4 prefix entirely outside the overlay. *)
Definition IsRoute (p overlay : prefix) : bool :=
  PIsValid overlay && PIsValid p && Is4 (paddr p) && negb (Overlaps p overlay).

(** One arm of the switch in [resolve]: does the selector take this peer? *)
Definition takes (groups : gmap string (gset string)) (sel : Selector) (pe : Peer) : bool :=
  match sel with
  | SelAny => true
  | SelUser n => bool_decide (Owner pe ≠ "") && bool_decide (Owner pe = n)
  | SelGroup n => bool_decide (Owner pe ≠ "") && bool_decide (Owner pe ∈ default ∅ (groups !! n))
  | SelTag n => existsb (λ t, bool_decide (t = "tag:" +:+ n)) (Tags pe)
  | SelPeer n => bool_decide (Name pe = n)
  | SelCIDR x => (IsValid (IPv4 pe) && Contains x (IPv4 pe)) || (IsValid (IPv6 pe) && Contains x (IPv6 pe))
  | SelSelf | SelInternet => false
  end.

Section CompileWith.
Context (p : Policy) (ps : list Peer) (overlay : prefix).

Definition groups : gmap string (gset string) := list_to_set <$> Groups p.

Definition resolve (sel : Selector) : bitset :=
  foldl (λ b '(i, pe), if takes groups sel pe then bset b i else b)
    (newBitset (length ps)) (imap pair ps).

Definition union_of (sels : list Selector) : bitset :=
  foldl (λ b s, bor b (resolve s)) (newBitset (length ps)) sels.

(** One destination of one rule: a route rule, a peer rule, or nothing
    ([continue] with an invalid overlay). *)
Definition compile_dst (src : bitset) (proto : string) (d : Dst) : option (crule + rrule) :=
  match Host d with
  | SelInternet =>
      if PIsValid overlay
      then Some (inr {| rsrc := src; rprefix := ExitPrefix; rinternet := true; rproto := proto; rports := Ports d |})
      else None
  | SelCIDR x =>
      if IsRoute x overlay
      then Some (inr {| rsrc := src; rprefix := x; rinternet := false; rproto := proto; rports := Ports d |})
      else Some (inl {| csrc := src; cdst := resolve (SelCIDR x); cself := false; cproto := proto; cports := Ports d |})
  | SelSelf => Some (inl {| csrc := src; cdst := []; cself := true; cproto := proto; cports := Ports d |})
  | s => Some (inl {| csrc := src; cdst := resolve s; cself := false; cproto := proto; cports := Ports d |})
  end.

Definition compile_rule (r : parsedRule) : list (crule + rrule) :=
  omap (compile_dst (union_of (psrc r)) (pproto r)) (pdst r).

Definition compiled_rules : list (crule + rrule) := concat (compile_rule <$> rules p).

(** The set of users one owners list allows. *)
Definition owner_users (owners : list string) : gset string :=
  foldl (λ s o, match ParseSelector o false with
                | Ok (SelUser n) => {[n]} ∪ s
                | Ok (SelGroup n) => default ∅ (groups !! n) ∪ s
                | _ => s
                end) ∅ owners.

Definition build_index : gmap string nat :=
  foldl (λ m '(i, pe), <[ID pe := i]> m) ∅ (imap pair ps).
End CompileWith.

Definition peer_at (c : Compiled) (i : nat) : option Peer := peers c !! i.

(** [matches]: rule [r] lets peer [src] reach peer [dst] (indices). *)
Definition matches (c : Compiled) (r : crule) (src dst : nat) : bool :=
  if negb (bhas (csrc r) src) then false
  else if cself r then
    match peer_at c src, peer_at c dst with
    | Some a, Some b =>
        bool_decide (Owner a ≠ "") && bool_decide (Owner a = Owner b) && negb (src =? dst)%nat
    | _, _ => false
    end
  else bhas (cdst r) dst.

(** Does one advertised prefix carry the prefix of a route rule? *)
Definition carries (r : rrule) (adv : prefix) : bool :=
  if rinternet r then bool_decide (adv = ExitPrefix)
  else bool_decide (adv ≠ ExitPrefix) && (pbits adv <=? pbits (rprefix r)) && Contains adv (paddr (rprefix r)).

Definition serves (c : Compiled) (r : rrule) (j : nat) : bool :=
  match peer_at c j with Some pe => existsb (carries r) (Routes pe) | None => false end.

Definition protos : list string := [ProtoAny; ProtoTCP; ProtoUDP; ProtoICMP].

(** [byProto]: the port ranges of the matching rules, per protocol. *)
Definition by_proto (rs : list crule) : gmap string (list PortRange) :=
  foldl (λ m r, <[cproto r := default [] (m !! cproto r) ++ cports r]> m) ∅ rs.

Definition allowedIdx (c : Compiled) (i j : nat) : list PortRule :=
  let m := by_proto (filter (λ r, matches c r i j = true) (crules c)) in
  concat ((λ proto, (λ pr, {| prProto := proto; prLo := Lo pr; prHi := Hi pr |})
                      <$> mergeRanges (default [] (m !! proto))) <$> protos).

(** The guard shared by [Allowed] and [Visible]. *)
Definition index_pair (c : Compiled) (a b : string) : option (nat * nat) :=
  i ← index c !! a; j ← index c !! b; if (i =? j)%nat then None else Some (i, j).

Definition Allowed (c : Compiled) (src dst : string) : list PortRule :=
  match index_pair c src dst with Some (i, j) => allowedIdx c i j | None => [] end.

Definition forwardAny (c : Compiled) (i j : nat) : bool :=
  if (i =? j)%nat then false
  else existsb (λ r, bhas (rsrc r) i && serves c r j) (routeRules c).

Definition anyIdx (c : Compiled) (i j : nat) : bool :=
  existsb (λ r, matches c r i j) (crules c) || forwardAny c i j.

Definition visibleIdx (c : Compiled) (i j : nat) : bool := anyIdx c i j || anyIdx c j i.

Definition Visible (c : Compiled) (a b : string) : bool :=
  match index_pair c a b with Some (i, j) => visibleIdx c i j | None => false end.

(** The number of visible pairs i < j. *)
Definition visible_pairs (c : Compiled) (n : nat) : Z :=
  Z.of_nat (length (filter (λ ij, visibleIdx c ij.1 ij.2 = true)
    (concat ((λ i, (λ j, (i, j)) <$> seq (S i) (n - S i)) <$> seq 0 n)))).

Definition CompileWith (p : Policy) (ps : list Peer) (overlay : prefix) : Compiled :=
  let rs := compiled_rules p ps overlay in
  let c0 := {|
    cHash := Hash p;
    peers := ps;
    index := build_index ps;
    crules := omap (λ r, match r with inl x => Some x | inr _ => None end) rs;
    routeRules := omap (λ r, match r with inl _ => None | inr x => Some x end) rs;
    tagOwners := owner_users p <$> TagOwners p;
    summary := {| sRules := 0; sPeers := 0; sVisiblePairs := 0 |} |} in
  {| cHash := cHash c0; peers := peers c0; index := index c0; crules := crules c0;
     routeRules := routeRules c0; tagOwners := tagOwners c0;
     summary := {| sRules := Z.of_nat (length (ACLs p)); sPeers := Z.of_nat (length ps);
                   sVisiblePairs := visible_pairs c0 (length ps) |} |}.

Definition Compile (p : Policy) (ps : list Peer) : Compiled := CompileWith p ps NoPrefix.

(** The filter rules one source contributes. *)
Definition filter_rules_of (c : Compiled) (j i : nat) (src : Peer) : list FilterRule :=
  if (i =? j)%nat || negb (IsValid (IPv4 src)) then []
  else concat ((λ pr,
    {| frSrc := IPv4 src; frProto := prProto pr; frLo := prLo pr; frHi := prHi pr |} ::
    (if IsValid (IPv6 src)
     then [{| frSrc := IPv6 src; frProto := prProto pr; frLo := prLo pr; frHi := prHi pr |}] else []))
    <$> allowedIdx c i j).

Definition src_less (a b : FilterRule) : bool := addr_ltb (frSrc a) (frSrc b).

Definition FilterFor (c : Compiled) (dst : string) : list FilterRule :=
  match index c !! dst with
  | None => []
  | Some j => stable_sort src_less (concat (imap (filter_rules_of c j) (peers c)))
  end.

(** Keys of [ForwardFor]'s accumulator: (source, destination, protocol). *)
Abbreviation fkey := (addr * prefix * string)%type.

(** The (key, ports) pairs one source contributes through router [j], in the
    order the loops append them. *)
Definition forward_entries (c : Compiled) (j i : nat) (src : Peer) : list (fkey * list PortRange) :=
  if (i =? j)%nat || negb (IsValid (IPv4 src)) then []
  else concat ((λ rr,
    if bhas (rsrc rr) i && serves c rr j then
      ((IPv4 src, rprefix rr, rproto rr), rports rr) ::
      (if rinternet rr && IsValid (IPv6 src)
       then [((IPv6 src, ExitPrefix6, rproto rr), rports rr)] else [])
    else []) <$> routeRules c).

(** [byKey] and [order] after appending one entry. *)
Definition add_entry (st : gmap fkey (list PortRange) * list fkey) (e : fkey * list PortRange) :=
  match st.1 !! e.1 with
  | None => (<[e.1 := e.2]> st.1, st.2 ++ [e.1])
  | Some ps => (<[e.1 := ps ++ e.2]> st.1, st.2)
  end.

Definition fwd_less (a b : ForwardRule) : bool :=
  if decide (fwSrc a = fwSrc b) then str_ltb (prefix_string (fwDst a)) (prefix_string (fwDst b))
  else addr_ltb (fwSrc a) (fwSrc b).

Definition ForwardFor (c : Compiled) (router : string) : list ForwardRule :=
  match index c !! router with
  | None => []
  | Some j =>
      let '(byKey, order) := foldl add_entry (∅, []) (concat (imap (forward_entries c j) (peers c))) in
      stable_sort fwd_less (concat ((λ k : fkey,
        (λ pr, {| fwSrc := k.1.1; fwDst := k.1.2; fwProto := k.2; fwLo := Lo pr; fwHi := Hi pr |})
          <$> mergeRanges (default [] (byKey !! k))) <$> order))
  end.

(** [via] after considering router [j] for route rule [rr]. *)
Definition via_step (c : Compiled) (i : nat) (rr : rrule) (via : gmap prefix string) (jp : nat * Peer) :=
  if (jp.1 =? i)%nat || negb (serves c rr jp.1) then via
  else match via !! rprefix rr with
       | Some cur => if str_ltb (ID jp.2) cur then <[rprefix rr := ID jp.2]> via else via
       | None => <[rprefix rr := ID jp.2]> via
       end.

Definition via_of (c : Compiled) (i : nat) : gmap prefix string :=
  foldl (λ via rr, if rinternet rr || negb (bhas (rsrc rr) i) then via
                   else foldl (via_step c i rr) via (imap pair (peers c)))
    ∅ (routeRules c).

Definition route_less (a b : Route) : bool := str_ltb (prefix_string (rtPrefix a)) (prefix_string (rtPrefix b)).

Definition RoutesFor (c : Compiled) (src : string) : list Route :=
  match index c !! src with
  | None => []
  | Some i => stable_sort route_less
                ((λ pv, {| rtPrefix := pv.1; rtVia := pv.2 |}) <$> map_to_list (via_of c i))
  end.

(** [seen] and [out] after considering router [j]. *)
Definition exit_step (c : Compiled) (i : nat) (rr : rrule) (st : gset string * list string) (jp : nat * Peer) :=
  if negb (jp.1 =? i)%nat && serves c rr jp.1 && negb (bool_decide (ID jp.2 ∈ st.1))
  then ({[ID jp.2]} ∪ st.1, st.2 ++ [ID jp.2]) else st.

Definition ExitNodesFor (c : Compiled) (src : string) : list string :=
  match index c !! src with
  | None => []
  | Some i =>
      stable_sort str_ltb
        (foldl (λ st rr, if negb (rinternet rr) || negb (bhas (rsrc rr) i) then st
                         else foldl (exit_step c i rr) st (imap pair (peers c)))
           (∅, []) (routeRules c)).2
  end.

Definition MayUseTag (c : Compiled) (user tag : string) : bool :=
  bool_decide (user ∈ default ∅ (tagOwners c !! tag)).

(** ** Bitset lemmas *)

Lemma land_bit w k : 0 <= k → Z.land w (Z.shiftl 1 k) = if Z.testbit w k then 2 ^ k else 0.
Proof.
  intros Hk. rewrite Z.shiftl_1_l. apply Z.bits_inj'. intros n Hn. rewrite Z.land_spec.
  destruct (decide (n = k)) as [->|Hne].
  - rewrite Z.pow2_bits_true by done. destruct (Z.testbit w k); [|by rewrite Z.testbit_0_l].
    by rewrite Z.pow2_bits_true.
  - rewrite Z.pow2_bits_false by done. rewrite andb_false_r.
    destruct (Z.testbit w k); [by rewrite Z.pow2_bits_false|by rewrite Z.testbit_0_l].
Qed.

Lemma bhas_testbit b i :
  bhas b i = match b !! (i / 64)%nat with Some w => Z.testbit w (Z.of_nat (i mod 64)) | None => false end.
Proof.
  unfold bhas. destruct (b !! _) as [w|]; [|done]. rewrite land_bit by lia.
  destruct (Z.testbit _ _); [|done]. pose proof (Z.pow_pos_nonneg 2 (Z.of_nat (i mod 64))).
  rewrite (proj2 (Z.eqb_neq _ _)) by lia. done.
Qed.

Lemma length_bset b i : length (bset b i) = length b.
Proof. apply length_alter. Qed.

Lemma bhas_bset b i j :
  (i / 64 < length b)%nat → bhas (bset b i) j = bhas b j || (i =? j)%nat.
Proof.
  intros Hi. rewrite !bhas_testbit. unfold bset.
  destruct (decide (i / 64 = j / 64)%nat) as [E|E].
  - rewrite E, list_lookup_alter_eq. rewrite E in Hi.
    destruct (lookup_lt_is_Some_2 b (j / 64)%nat Hi) as [w ->]. cbn [fmap option_fmap option_map].
    rewrite Z.lor_spec. f_equal. rewrite Z.shiftl_1_l.
    destruct (Nat.eqb_spec i j) as [->|Hne]; [by apply Z.pow2_bits_true; lia|].
    apply Z.pow2_bits_false. intros Hm%Nat2Z.inj. apply Hne.
    rewrite (Nat.div_mod_eq i 64), (Nat.div_mod_eq j 64). lia.
  - rewrite list_lookup_alter_ne by done.
    destruct (Nat.eqb_spec i j) as [->|Hne]; [done|]. by rewrite orb_false_r.
Qed.

Lemma length_newBitset n i : (i < n)%nat → (i / 64 < length (newBitset n))%nat.
Proof.
  intros H. unfold newBitset. rewrite length_replicate.
  apply Nat.Div0.div_lt_upper_bound. pose proof (Nat.div_mod_eq (n + 63) 64).
  pose proof (Nat.mod_upper_bound (n + 63) 64). lia.
Qed.

Lemma bhas_newBitset n i : bhas (newBitset n) i = false.
Proof.
  rewrite bhas_testbit. unfold newBitset. destruct (replicate _ _ !! _) as [w|] eqn:E; [|done].
  apply lookup_replicate in E as [-> _]. apply Z.testbit_0_l.
Qed.

Lemma bhas_bor b c i : length b = length c → bhas (bor b c) i = bhas b i || bhas c i.
Proof.
  intros Hl. rewrite !bhas_testbit. unfold bor. rewrite lookup_zip_with.
  generalize (i / 64)%nat (Z.of_nat (i mod 64)). intros q k.
  destruct (b !! q) as [w|] eqn:Eb; simpl.
  - destruct (lookup_lt_is_Some_2 c q) as [v ->].
    { rewrite <- Hl. by eapply lookup_lt_Some. }
    apply Z.lor_spec.
  - apply lookup_ge_None in Eb. destruct (c !! q) eqn:Ec; [|done].
    apply lookup_lt_Some in Ec. lia.
Qed.

Lemma length_bor b c : length b = length c → length (bor b c) = length b.
Proof. intros. unfold bor. rewrite length_zip_with. lia. Qed.

(** A fold that sets the bits of the selected positions. *)
Lemma fold_bset (f : Peer → bool) l b :
  Forall (λ ip : nat * Peer, (ip.1 / 64 < length b)%nat) l →
  let b' := foldl (λ b '(i, pe), if f pe then bset b i else b) b l in
  length b' = length b ∧
  ∀ j, bhas b' j = true ↔ bhas b j = true ∨ ∃ pe, (j, pe) ∈ l ∧ f pe = true.
Proof.
  revert b. induction l as [|[i pe] l IH]; intros b Hl; simpl.
  { split; [done|]. intros j. split; [by left|]. intros [?|(?&[]%elem_of_nil&_)]; done. }
  apply Forall_cons in Hl as [Hi Hl]. simpl in Hi.
  set (b1 := if f pe then bset b i else b).
  assert (length b1 = length b) as Hlen by (unfold b1; destruct (f pe); [apply length_bset|done]).
  destruct (IH b1) as [IHl IHb]; [by rewrite Hlen|]. split; [congruence|].
  intros j. rewrite IHb. unfold b1. setoid_rewrite elem_of_cons.
  assert (bhas (if f pe then bset b i else b) j = true ↔ bhas b j = true ∨ j = i ∧ f pe = true) as ->.
  { destruct (f pe); [rewrite bhas_bset, orb_true_iff, Nat.eqb_eq by done|]; intuition congruence. }
  split.
  - intros [[?|[-> ?]]|(x & ? & ?)]; [by left|right; eauto..].
  - intros [?|(x & [[= -> ->]|?] & ?)]; [by left; left|by left; right|right; eauto].
Qed.

Lemma elem_of_imap_pair {A} (l : list A) i x : (i, x) ∈ imap pair l ↔ l !! i = Some x.
Proof.
  rewrite list_elem_of_lookup. setoid_rewrite list_lookup_imap_Some. naive_solver.
Qed.

Section Resolve.
Context (p : Policy) (ps : list Peer).

Lemma resolve_spec sel :
  length (resolve p ps sel) = length (newBitset (length ps)) ∧
  ∀ i, bhas (resolve p ps sel) i = true ↔
       ∃ pe, ps !! i = Some pe ∧ takes (groups p) sel pe = true.
Proof.
  unfold resolve. destruct (fold_bset (takes (groups p) sel) (imap pair ps) (newBitset (length ps)))
    as [Hl Hb].
  { apply Forall_forall. intros [i pe] Hi%elem_of_imap_pair. simpl.
    apply length_newBitset. by eapply lookup_lt_Some. }
  split; [done|]. intros i. rewrite Hb, bhas_newBitset. setoid_rewrite elem_of_imap_pair. naive_solver.
Qed.

Lemma union_of_spec sels :
  length (union_of p ps sels) = length (newBitset (length ps)) ∧
  ∀ i, bhas (union_of p ps sels) i = true ↔
       ∃ s, s ∈ sels ∧ bhas (resolve p ps s) i = true.
Proof.
  unfold union_of. induction sels as [|s sels IH] using rev_ind; simpl.
  { split; [done|]. intros i. rewrite bhas_newBitset. split; [done|]. by intros (?&[]%elem_of_nil&_). }
  destruct IH as [IHl IHb]. destruct (resolve_spec s) as [Hl _].
  rewrite foldl_app. simpl. split; [rewrite length_bor; congruence|].
  intros i. rewrite bhas_bor, orb_true_iff, IHb by congruence.
  setoid_rewrite elem_of_app. setoid_rewrite list_elem_of_singleton. naive_solver.
Qed.
End Resolve.

(** ** What the policy text means *)

(** A selector takes a peer. *)
Definition selects (p : Policy) (s : Selector) (pe : Peer) : Prop :=
  match s with
  | SelAny => True
  | SelUser n => n ≠ "" ∧ Owner pe = n
  | SelGroup g => Owner pe ≠ "" ∧ ∃ ms, Groups p !! g = Some ms ∧ Owner pe ∈ ms
  | SelTag n => "tag:" +:+ n ∈ Tags pe
  | SelPeer n => Name pe = n
  | SelCIDR x => (IsValid (IPv4 pe) = true ∧ Contains x (IPv4 pe) = true) ∨
                 (IsValid (IPv6 pe) = true ∧ Contains x (IPv6 pe) = true)
  | SelSelf | SelInternet => False
  end.

(** The destination host of a rule takes peer [b] for source [a]; a subnet
    route or "internet" selects no peer. *)
Definition dst_selects (p : Policy) (overlay : prefix) (h : Selector) (a b : Peer) : Prop :=
  match h with
  | SelSelf => Owner a ≠ "" ∧ Owner a = Owner b
  | SelCIDR x => IsRoute x overlay = false ∧ selects p h b
  | _ => selects p h b
  end.

(** Some rule of the text lets [a] reach [b] on [port] with protocol [proto]. *)
Definition grants (p : Policy) (overlay : prefix) (a b : Peer) (proto : string) (port : Z) : Prop :=
  ∃ r d s, r ∈ rules p ∧ d ∈ pdst r ∧ s ∈ psrc r ∧ pproto r = proto ∧
    selects p s a ∧ dst_selects p overlay (Host d) a b ∧ covers (Ports d) port.

(** The same without looking at ports: some rule names the pair. *)
Definition grants_any (p : Policy) (overlay : prefix) (a b : Peer) : Prop :=
  ∃ r d s, r ∈ rules p ∧ d ∈ pdst r ∧ s ∈ psrc r ∧
    selects p s a ∧ dst_selects p overlay (Host d) a b.

(** The prefix a destination routes to, if it is a route. *)
Definition route_of (overlay : prefix) (h : Selector) : option (prefix * bool) :=
  match h with
  | SelInternet => if PIsValid overlay then Some (ExitPrefix, true) else None
  | SelCIDR x => if IsRoute x overlay then Some (x, false) else None
  | _ => None
  end.

(** Router [b] advertises (and an admin approved) a prefix that carries the
    route: the default route for "internet", a covering subnet otherwise. *)
Definition advertises (b : Peer) (x : prefix) (internet : bool) : Prop :=
  if internet then ExitPrefix ∈ Routes b
  else ∃ adv, adv ∈ Routes b ∧ adv ≠ ExitPrefix ∧ pbits adv <= pbits x ∧ Contains adv (paddr x) = true.

(** Some rule lets [a] reach prefix [x] through router [b]. *)
Definition grants_route (p : Policy) (overlay : prefix) (a b : Peer) (x : prefix) (internet : bool)
    (proto : string) (port : Z) : Prop :=
  ∃ r d s, r ∈ rules p ∧ d ∈ pdst r ∧ s ∈ psrc r ∧ pproto r = proto ∧ selects p s a ∧
    route_of overlay (Host d) = Some (x, internet) ∧ advertises b x internet ∧ covers (Ports d) port.

Definition grants_route_any (p : Policy) (overlay : prefix) (a b : Peer) (x : prefix) (internet : bool) : Prop :=
  ∃ r d s, r ∈ rules p ∧ d ∈ pdst r ∧ s ∈ psrc r ∧ selects p s a ∧
    route_of overlay (Host d) = Some (x, internet) ∧ advertises b x internet.

Lemma takes_spec p s pe : takes (groups p) s pe = true ↔ selects p s pe.
Proof.
  destruct s as [|n|g|n|n| |x|]; simpl; try done.
  - rewrite andb_true_iff, !bool_decide_eq_true. naive_solver.
  - rewrite andb_true_iff, !bool_decide_eq_true. unfold groups. rewrite lookup_fmap.
    destruct (Groups p !! g) as [ms|]; simpl.
    + rewrite elem_of_list_to_set. naive_solver.
    + split; [set_solver|]. by intros (_ & ? & ? & _).
  - rewrite existsb_exists. setoid_rewrite bool_decide_eq_true.
    setoid_rewrite <- list_elem_of_In. naive_solver.
  - by rewrite bool_decide_eq_true.
  - by rewrite orb_true_iff, !andb_true_iff.
Qed.

Section Correct.
Context (p : Policy) (ps : list Peer) (overlay : prefix).
Let c := CompileWith p ps overlay.

Lemma bhas_resolve s i pe : ps !! i = Some pe → bhas (resolve p ps s) i = true ↔ selects p s pe.
Proof.
  intros Hi. destruct (resolve_spec p ps s) as [_ H]. rewrite H.
  setoid_rewrite takes_spec. naive_solver.
Qed.

Lemma bhas_union sels i pe :
  ps !! i = Some pe → bhas (union_of p ps sels) i = true ↔ ∃ s, s ∈ sels ∧ selects p s pe.
Proof.
  intros Hi. destruct (union_of_spec p ps sels) as [_ H]. rewrite H.
  by setoid_rewrite (bhas_resolve _ i pe Hi).
Qed.

Lemma elem_of_compiled x :
  x ∈ compiled_rules p ps overlay ↔
  ∃ r d, r ∈ rules p ∧ d ∈ pdst r ∧
    compile_dst p ps overlay (union_of p ps (psrc r)) (pproto r) d = Some x.
Proof.
  unfold compiled_rules, compile_rule. rewrite list_elem_of_In, in_concat.
  setoid_rewrite <- list_elem_of_In. setoid_rewrite list_elem_of_fmap.
  split.
  - intros (l & (r & -> & Hr) & Hx). apply list_elem_of_omap in Hx as (d & Hd & Hx). eauto.
  - intros (r & d & Hr & Hd & Hx). eexists. split; [eauto|]. apply list_elem_of_omap. eauto.
Qed.

Lemma elem_of_crules x : x ∈ crules c ↔ inl x ∈ compiled_rules p ps overlay.
Proof.
  unfold c, CompileWith; simpl. rewrite list_elem_of_omap.
  split; [intros ([y|y] & ? & ?); by simplify_eq|]. intros. by eexists.
Qed.

Lemma elem_of_routeRules x : x ∈ routeRules c ↔ inr x ∈ compiled_rules p ps overlay.
Proof.
  unfold c, CompileWith; simpl. rewrite list_elem_of_omap.
  split; [intros ([y|y] & ? & ?); by simplify_eq|]. intros. by eexists.
Qed.

(** A compiled peer rule matches a pair iff its text selects both ends. *)
Lemma matches_compile src proto d x i j a b :
  ps !! i = Some a → ps !! j = Some b → i ≠ j →
  compile_dst p ps overlay src proto d = Some (inl x) →
  csrc x = src ∧ cproto x = proto ∧ cports x = Ports d ∧
  (matches c x i j = true ↔ bhas src i = true ∧ dst_selects p overlay (Host d) a b).
Proof.
  intros Hi Hj Hij H. unfold compile_dst in H.
  assert (∀ s, bhas (resolve p ps s) j = true ↔ selects p s b) as Hres
    by by intros; apply bhas_resolve.
  assert (peer_at c i = Some a ∧ peer_at c j = Some b) as [Hpi Hpj] by done.
  assert (bool_decide (Owner a ≠ "") && bool_decide (Owner a = Owner b) && negb (i =? j)%nat = true
          ↔ Owner a ≠ "" ∧ Owner a = Owner b) as Hself.
  { rewrite (proj2 (Nat.eqb_neq i j)) by done. rewrite !andb_true_iff, !bool_decide_eq_true. naive_solver. }
  unfold matches. rewrite Hpi, Hpj.
  destruct (Host d) as [|n|n|n|n| |y|] eqn:Eh; simplify_eq/=;
    try (destruct (IsRoute y overlay) eqn:Er; simplify_eq/=);
    try (destruct (PIsValid overlay); simplify_eq/=); (split_and!; [done..|]);
    (destruct (bhas src i); simpl; [|naive_solver]);
    (rewrite Hself || rewrite Hres); naive_solver.
Qed.

(** A peer rule exists for a destination iff it is no route. *)
Lemma compile_dst_inl src proto d a b :
  dst_selects p overlay (Host d) a b →
  ∃ x, compile_dst p ps overlay src proto d = Some (inl x).
Proof.
  unfold compile_dst, dst_selects. destruct (Host d); simpl; try (by eauto).
  intros [-> _]. eauto.
Qed.

Lemma compile_dst_inr src proto d x :
  compile_dst p ps overlay src proto d = Some (inr x) ↔
  ∃ y it, route_of overlay (Host d) = Some (y, it) ∧
    x = {| rsrc := src; rprefix := y; rinternet := it; rproto := proto; rports := Ports d |}.
Proof.
  unfold compile_dst, route_of. destruct (Host d); try naive_solver.
  - destruct (IsRoute p0 overlay); naive_solver.
  - destruct (PIsValid overlay); naive_solver.
Qed.

Lemma serves_spec x j b :
  ps !! j = Some b → serves c x j = true ↔ advertises b (rprefix x) (rinternet x).
Proof.
  intros Hj. unfold serves, peer_at. change (peers c) with ps. rewrite Hj, existsb_exists.
  setoid_rewrite <- list_elem_of_In. unfold carries, advertises. destruct (rinternet x).
  - setoid_rewrite bool_decide_eq_true. naive_solver.
  - setoid_rewrite andb_true_iff. setoid_rewrite andb_true_iff.
    setoid_rewrite bool_decide_eq_true. setoid_rewrite Z.leb_le. naive_solver.
Qed.
End Correct.

(** ** Indices and accumulated ports *)

Lemma build_index_snoc ps pe :
  build_index (ps ++ [pe]) = <[ID pe := length ps]> (build_index ps).
Proof. unfold build_index. rewrite imap_app, foldl_app. simpl. by rewrite Nat.add_0_r. Qed.

Lemma build_index_spec ps id i :
  NoDup (ID <$> ps) → build_index ps !! id = Some i ↔ ∃ pe, ps !! i = Some pe ∧ ID pe = id.
Proof.
  induction ps as [|pe ps IH] using rev_ind; intros Hnd.
  { unfold build_index. simpl. rewrite lookup_empty. naive_solver. }
  rewrite fmap_app in Hnd. apply NoDup_app in Hnd as (Hnd & Hnot & _). rewrite build_index_snoc.
  destruct (decide (ID pe = id)) as [<-|Hne].
  - rewrite lookup_insert_eq. split.
    + intros [= <-]. exists pe. by rewrite list_lookup_middle.
    + intros (pe' & Hl & Hid). apply lookup_snoc_Some in Hl as [[Hlt Hl]|[<- _]]; [|done].
      exfalso. apply (Hnot (ID pe)); [|by constructor]. rewrite <- Hid.
      apply list_elem_of_fmap_2. by eapply list_elem_of_lookup_2.
  - rewrite lookup_insert_ne by done. rewrite IH by done. split; intros (pe' & Hl & Hid).
    + exists pe'. split; [|done]. by apply lookup_app_l_Some.
    + apply lookup_snoc_Some in Hl as [[_ Hl]|[_ <-]]; [by eauto|done].
Qed.

Lemma covers_concat ls port : covers (concat ls) port ↔ ∃ l, l ∈ ls ∧ covers l port.
Proof.
  induction ls as [|l ls IH]; simpl.
  - split; [by intros ?%covers_nil|]. by intros (? & []%elem_of_nil & _).
  - rewrite covers_app, IH. setoid_rewrite elem_of_cons. naive_solver.
Qed.

Lemma by_proto_lookup rs k :
  default [] (by_proto rs !! k) = concat (cports <$> filter (λ r, cproto r = k) rs).
Proof.
  unfold by_proto. induction rs as [|r rs IH] using rev_ind; [done|].
  rewrite foldl_app, filter_app, fmap_app, concat_app, <- IH. simpl. rewrite filter_cons, filter_nil.
  destruct (decide (cproto r = k)) as [<-|Hne]; simpl.
  - rewrite lookup_insert_eq. simpl. by rewrite app_nil_r.
  - rewrite lookup_insert_ne by done. by rewrite app_nil_r.
Qed.

(** A list of port rules opens a port for a protocol. *)
Definition opens (l : list PortRule) (proto : string) (port : Z) : Prop :=
  ∃ pr, pr ∈ l ∧ prProto pr = proto ∧ prLo pr <= port <= prHi pr.

Lemma opens_allowedIdx c i j proto port :
  opens (allowedIdx c i j) proto port ↔
  proto ∈ protos ∧ ∃ r, r ∈ crules c ∧ matches c r i j = true ∧ cproto r = proto ∧ covers (cports r) port.
Proof.
  unfold opens, allowedIdx. set (rs := filter _ (crules c)).
  assert (∀ k, covers (mergeRanges (default [] (by_proto rs !! k))) port ↔
    ∃ r, r ∈ crules c ∧ matches c r i j = true ∧ cproto r = k ∧ covers (cports r) port) as Hcov.
  { intros k. rewrite mergeRanges_covers, by_proto_lookup, covers_concat.
    setoid_rewrite list_elem_of_fmap. unfold rs. setoid_rewrite list_elem_of_filter.
    setoid_rewrite list_elem_of_filter. naive_solver. }
  rewrite <- Hcov. setoid_rewrite list_elem_of_In at 1. setoid_rewrite in_concat.
  setoid_rewrite <- list_elem_of_In. setoid_rewrite list_elem_of_fmap. unfold covers at 1.
  split.
  - intros (pr & (l & (k & -> & Hk) & Hpr) & Hp & Hb).
    apply list_elem_of_fmap in Hpr as (x & -> & Hx). simpl in *. subst. eauto.
  - intros (Hk & x & Hx & Hb). eexists {| prProto := proto; prLo := Lo x; prHi := Hi x |}.
    split; [|done]. eexists. split; [by exists proto|]. apply list_elem_of_fmap. eauto.
Qed.

Lemma visibleIdx_sym c i j : visibleIdx c i j = visibleIdx c j i.
Proof. unfold visibleIdx. apply orb_comm. Qed.

Section Answers.
Context (p : Policy) (ps : list Peer) (overlay : prefix).
Hypothesis ids_unique : NoDup (ID <$> ps).
Let c := CompileWith p ps overlay.

Lemma index_spec id i : index c !! id = Some i ↔ ∃ pe, ps !! i = Some pe ∧ ID pe = id.
Proof. by apply build_index_spec. Qed.

Lemma index_of i pe : ps !! i = Some pe → index c !! ID pe = Some i.
Proof. intros. apply index_spec. eauto. Qed.

Lemma index_none id : id ∉ ID <$> ps → index c !! id = None.
Proof.
  intros H. destruct (index c !! id) as [i|] eqn:E; [|done].
  apply index_spec in E as (pe & Hi & <-). destruct H.
  apply list_elem_of_fmap_2. by eapply list_elem_of_lookup_2.
Qed.

Lemma index_pair_of i j a b :
  ps !! i = Some a → ps !! j = Some b → i ≠ j → index_pair c (ID a) (ID b) = Some (i, j).
Proof.
  intros Hi Hj Hij. unfold index_pair. rewrite (index_of i a), (index_of j b) by done. simpl.
  by rewrite (proj2 (Nat.eqb_neq i j)).
Qed.

(** A matching peer rule, in the terms of the text. *)
Lemma crule_grants i j a b (P : crule → Prop) (Q : parsedRule → Dst → Prop) :
  ps !! i = Some a → ps !! j = Some b → i ≠ j →
  (∀ x r d, cproto x = pproto r → cports x = Ports d → P x ↔ Q r d) →
  (∃ x, x ∈ crules c ∧ matches c x i j = true ∧ P x) ↔
  (∃ r d s, r ∈ rules p ∧ d ∈ pdst r ∧ s ∈ psrc r ∧ selects p s a ∧
     dst_selects p overlay (Host d) a b ∧ Q r d).
Proof.
  intros Hi Hj Hij HPQ. split.
  - intros (x & Hx & Hm & HP). apply elem_of_crules, elem_of_compiled in Hx as (r & d & Hr & Hd & Hx).
    destruct (matches_compile p ps overlay _ _ _ _ i j a b Hi Hj Hij Hx) as (_ & Hpr & Hpo & Hmx).
    apply Hmx in Hm as [Hs Hds]. eapply bhas_union in Hs as (s & Hs & Hsel); [|done].
    exists r, d, s. rewrite <- HPQ by done. done.
  - intros (r & d & s & Hr & Hd & Hs & Hsel & Hds & HQ).
    destruct (compile_dst_inl p ps overlay (union_of p ps (psrc r)) (pproto r) d a b Hds) as [x Hx].
    destruct (matches_compile p ps overlay _ _ _ _ i j a b Hi Hj Hij Hx) as (_ & Hpr & Hpo & Hmx).
    exists x. split; [|split].
    + apply elem_of_crules, elem_of_compiled. eauto.
    + apply Hmx. split; [|done]. eapply bhas_union; [done|]. eauto.
    + by apply (HPQ x r d).
Qed.

Lemma rrule_grants i j a b (P : rrule → Prop) (Q : parsedRule → Dst → Prop) y it :
  ps !! i = Some a → ps !! j = Some b →
  (∀ x r d, rproto x = pproto r → rports x = Ports d → P x ↔ Q r d) →
  (∃ x, x ∈ routeRules c ∧ bhas (rsrc x) i = true ∧ serves c x j = true ∧
        rprefix x = y ∧ rinternet x = it ∧ P x) ↔
  (∃ r d s, r ∈ rules p ∧ d ∈ pdst r ∧ s ∈ psrc r ∧ selects p s a ∧
     route_of overlay (Host d) = Some (y, it) ∧ advertises b y it ∧ Q r d).
Proof.
  intros Hi Hj HPQ. split.
  - intros (x & Hx & Hs & Hv & <- & <- & HP).
    apply elem_of_routeRules, elem_of_compiled in Hx as (r & d & Hr & Hd & Hx).
    apply compile_dst_inr in Hx as (y & it & Hro & ->). simpl in *.
    eapply bhas_union in Hs as (s & Hs & Hsel); [|done]. eapply serves_spec in Hv; [|done].
    exists r, d, s. split_and!; try done. by eapply HPQ; [| |exact HP].
  - intros (r & d & s & Hr & Hd & Hs & Hsel & Hro & Had & HQ).
    set (x := {| rsrc := union_of p ps (psrc r); rprefix := y; rinternet := it;
                 rproto := pproto r; rports := Ports d |}).
    exists x. split_and!; try done.
    + apply elem_of_routeRules, elem_of_compiled. exists r, d. split_and!; try done.
      apply compile_dst_inr. eauto.
    + simpl. eapply bhas_union; [done|]. eauto.
    + by eapply serves_spec.
    + by apply (HPQ x r d).
Qed.

Lemma opens_allowed i j a b proto port :
  ps !! i = Some a → ps !! j = Some b → i ≠ j →
  opens (allowedIdx c i j) proto port ↔ proto ∈ protos ∧ grants p overlay a b proto port.
Proof.
  intros Hi Hj Hij. rewrite opens_allowedIdx.
  rewrite (crule_grants i j a b (λ x, cproto x = proto ∧ covers (cports x) port)
            (λ r d, pproto r = proto ∧ covers (Ports d) port)) by (done || (intros ??? E1 E2; cbv beta; by rewrite E1, E2)).
  unfold grants. apply and_iff_compat_l. split; intros (r & d & s & ?); exists r, d, s; intuition.
Qed.

Lemma existsb_iff {A} (f : A → bool) l : existsb f l = true ↔ ∃ x, x ∈ l ∧ f x = true.
Proof. rewrite existsb_exists. by setoid_rewrite list_elem_of_In. Qed.

Lemma anyIdx_spec i j a b :
  ps !! i = Some a → ps !! j = Some b → i ≠ j →
  anyIdx c i j = true ↔
    grants_any p overlay a b ∨ ∃ x it, grants_route_any p overlay a b x it.
Proof.
  intros Hi Hj Hij. unfold anyIdx, forwardAny. rewrite (proj2 (Nat.eqb_neq i j)) by done.
  rewrite orb_true_iff, !existsb_iff. setoid_rewrite andb_true_iff. apply Morphisms_Prop.or_iff_morphism.
  - pose proof (crule_grants i j a b (λ _, True) (λ _ _, True) Hi Hj Hij ltac:(done)) as H.
    unfold grants_any. split.
    + intros (x & Hx & Hm). destruct (proj1 H) as (r & d & s & ?); [by eauto|]. exists r, d, s. intuition.
    + intros (r & d & s & ?). destruct (proj2 H) as (x & ?); [exists r, d, s; intuition|]. exists x; intuition.
  - unfold grants_route_any. split.
    + intros (x & Hx & Hs & Hv). exists (rprefix x), (rinternet x).
      destruct (proj1 (rrule_grants i j a b (λ _, True) (λ _ _, True) (rprefix x) (rinternet x)
        Hi Hj ltac:(done))) as (r & d & s & ?); [by eauto 10|]. exists r, d, s. intuition.
    + intros (y & it & r & d & s & ?).
      destruct (proj2 (rrule_grants i j a b (λ _, True) (λ _ _, True) y it Hi Hj ltac:(done)))
        as (x & ? & ? & ? & _); [exists r, d, s; intuition|]. exists x. intuition.
Qed.
End Answers.

(** ** Lemmas for the derived tables *)

#[export] Instance addr_ltb_strict_weak : StrictWeak addr_ltb.
Proof.
  split; intros x y; [|intros z]; unfold addr_ltb.
  - intros H. rewrite Z.eqb_sym, (Z.eqb_sym (addr_bits y)).
    destruct (BitLen x =? BitLen y); [|go_bool; apply Z.ltb_ge; lia].
    destruct (addr_bits x =? addr_bits y); [by apply less_asym|go_bool; apply Z.ltb_ge; lia].
  - intros H1 H2.
    destruct (Z.eqb_spec (BitLen y) (BitLen x)), (Z.eqb_spec (BitLen z) (BitLen y)),
      (Z.eqb_spec (BitLen z) (BitLen x)); go_bool; try (apply Z.ltb_ge; lia); try lia.
    destruct (Z.eqb_spec (addr_bits y) (addr_bits x)), (Z.eqb_spec (addr_bits z) (addr_bits y)),
      (Z.eqb_spec (addr_bits z) (addr_bits x)); go_bool; try (apply Z.ltb_ge; lia); try lia.
    by eapply nless_trans.
Qed.

(** A [less] that compares a key. *)
Lemma strict_weak_on {A B} (f : A → B) (less : B → B → bool) `{!StrictWeak less} :
  StrictWeak (λ a b, less (f a) (f b)).
Proof. split; intros *; [apply less_asym|apply nless_trans]. Qed.

#[export] Instance src_less_strict_weak : StrictWeak src_less := strict_weak_on frSrc addr_ltb.
#[export] Instance route_less_strict_weak : StrictWeak route_less :=
  strict_weak_on (λ r, prefix_string (rtPrefix r)) str_ltb.

(** The address a source appears under. *)
Definition source_addr (a : Peer) (x : addr) : Prop :=
  IsValid (IPv4 a) = true ∧ (x = IPv4 a ∨ IsValid (IPv6 a) = true ∧ x = IPv6 a).

Lemma filter_rules_of_spec c j i src fr :
  fr ∈ filter_rules_of c j i src ↔
  i ≠ j ∧ ∃ pr, pr ∈ allowedIdx c i j ∧ source_addr src (frSrc fr) ∧
    frProto fr = prProto pr ∧ frLo fr = prLo pr ∧ frHi fr = prHi pr.
Proof.
  unfold filter_rules_of, source_addr. destruct (Nat.eqb_spec i j) as [->|Hij]; simpl.
  { split; [by intros ?%elem_of_nil|naive_solver]. }
  destruct (IsValid (IPv4 src)); simpl; [|split; [by intros ?%elem_of_nil|naive_solver]].
  rewrite elem_of_concat_fmap. setoid_rewrite elem_of_cons. split.
  - intros (pr & Hpr & [->|H]); [naive_solver|]. destruct (IsValid (IPv6 src)).
    + apply list_elem_of_singleton in H as ->. naive_solver.
    + by apply elem_of_nil in H.
  - intros (_ & pr & Hpr & [_ Hs] & H1 & H2 & H3). exists pr. split; [done|].
    destruct fr; simpl in *; subst. destruct Hs as [->|[-> ->]]; [by left|]. right. by constructor.
Qed.

(** [byKey] and [order] after all entries. *)
Lemma add_entry_spec (es : list (fkey * list PortRange)) :
  let st := foldl add_entry (∅, []) es in
  NoDup st.2 ∧ (∀ k, k ∈ st.2 ↔ is_Some (st.1 !! k)) ∧
  ∀ k, st.1 !! k = (if decide (k ∈ es.*1) then
                      Some (concat ((filter (λ e, e.1 = k) es).*2)) else None).
Proof.
  induction es as [|[k v] es IH] using rev_ind; simpl.
  { split_and!; [constructor| |]; intros k'; rewrite lookup_empty.
    - split; [by intros ?%elem_of_nil|by intros [??]].
    - done. }
  rewrite foldl_app. simpl. destruct (foldl add_entry (∅, []) es) as [m o] eqn:E.
  simpl in IH. destruct IH as (Hnd & Ho & Hm). unfold add_entry. simpl.
  assert (∀ k', k' ∈ (es ++ [(k, v)]).*1 ↔ k' ∈ es.*1 ∨ k' = k) as Hel.
  { intros k'. rewrite fmap_app, elem_of_app. simpl. by rewrite list_elem_of_singleton. }
  assert (∀ k', concat (filter (λ e, e.1 = k') (es ++ [(k, v)])).*2
    = concat (filter (λ e, e.1 = k') es).*2 ++ if decide (k' = k) then v else []) as Hf.
  { intros k'. rewrite filter_app, filter_cons, filter_nil, fmap_app, concat_app. simpl. f_equal.
    destruct (decide (k = k')); [rewrite decide_True by done|rewrite decide_False by done]; simpl.
    - apply app_nil_r.
    - done. }
  assert (k ∉ es.*1 → concat (filter (λ e, e.1 = k) es).*2 = []) as Hnone.
  { intros Hk. rewrite filter_none; [done|].
    intros e He Hek. apply Hk. rewrite <- Hek. by apply list_elem_of_fmap_2. }
  destruct (m !! k) as [old|] eqn:Ek; simpl.
  - split_and!; [done| |].
    + intros k'. rewrite Ho. destruct (decide (k = k')) as [<-|]; [|by rewrite lookup_insert_ne].
      rewrite lookup_insert_eq, Ek. naive_solver.
    + intros k'. rewrite Hf. destruct (decide (k' = k)) as [->|Hne].
      * rewrite lookup_insert_eq, decide_True by (apply Hel; by right).
        rewrite Hm in Ek. case_decide; by simplify_eq.
      * rewrite lookup_insert_ne, Hm, app_nil_r by done.
        apply decide_ext. rewrite Hel. naive_solver.
  - assert (k ∉ o) as Hko by (rewrite Ho, Ek; by intros [??]).
    split_and!.
    + apply NoDup_app. split_and!; [done| |by apply NoDup_singleton].
      intros x Hx ->%list_elem_of_singleton. done.
    + intros k'. rewrite elem_of_app, list_elem_of_singleton, Ho.
      destruct (decide (k = k')) as [<-|]; [rewrite lookup_insert_eq|rewrite lookup_insert_ne by done];
        naive_solver.
    + intros k'. rewrite Hf. destruct (decide (k' = k)) as [->|Hne].
      * rewrite lookup_insert_eq, decide_True by (apply Hel; by right).
        rewrite Hm in Ek. case_decide; [done|]. by rewrite Hnone.
      * rewrite lookup_insert_ne, Hm, app_nil_r by done.
        apply decide_ext. rewrite Hel. naive_solver.
Qed.

(** The forward rules a router installs open (source, prefix, protocol, port). *)
Definition forwards (l : list ForwardRule) (src : addr) (dst : prefix) (proto : string) (port : Z) : Prop :=
  ∃ f, f ∈ l ∧ fwSrc f = src ∧ fwDst f = dst ∧ fwProto f = proto ∧ fwLo f <= port <= fwHi f.

(** What one source contributes for one key. *)
Lemma forward_entries_spec c j i a k ports :
  (k, ports) ∈ forward_entries c j i a ↔
  i ≠ j ∧ IsValid (IPv4 a) = true ∧ ∃ rr, rr ∈ routeRules c ∧ bhas (rsrc rr) i = true ∧
    serves c rr j = true ∧ ports = rports rr ∧
    (k = (IPv4 a, rprefix rr, rproto rr) ∨
     rinternet rr = true ∧ IsValid (IPv6 a) = true ∧ k = (IPv6 a, ExitPrefix6, rproto rr)).
Proof.
  unfold forward_entries. destruct (Nat.eqb_spec i j) as [->|Hij]; simpl.
  { split; [by intros ?%elem_of_nil|naive_solver]. }
  destruct (IsValid (IPv4 a)); simpl; [|split; [by intros ?%elem_of_nil|naive_solver]].
  rewrite elem_of_concat_fmap. split.
  - intros (rr & Hrr & Hk). destruct (bhas (rsrc rr) i && serves c rr j) eqn:E; [|by apply elem_of_nil in Hk].
    go_bool. split_and!; try done. exists rr. split_and!; try done.
    + apply elem_of_cons in Hk as [[= -> ->]|Hk]; [done|].
      destruct (rinternet rr && _); [|by apply elem_of_nil in Hk].
      by apply list_elem_of_singleton in Hk as [= -> ->].
    + apply elem_of_cons in Hk as [[= -> ->]|Hk]; [by left|]. right.
      destruct (rinternet rr), (IsValid (IPv6 a)); try (by apply elem_of_nil in Hk).
      by apply list_elem_of_singleton in Hk as [= -> ->].
  - intros (_ & _ & rr & Hrr & Hb & Hs & -> & Hk). exists rr. split; [done|]. rewrite Hb, Hs. simpl.
    apply elem_of_cons. destruct Hk as [->|(Hi & Hv & ->)]; [by left|right].
    rewrite Hi, Hv. by constructor.
Qed.

Definition all_entries (c : Compiled) (j : nat) : list (fkey * list PortRange) :=
  concat (imap (forward_entries c j) (peers c)).

Lemma forwards_ForwardFor c router j src dst proto port :
  index c !! router = Some j →
  forwards (ForwardFor c router) src dst proto port ↔
  ∃ ports, ((src, dst, proto), ports) ∈ all_entries c j ∧ covers ports port.
Proof.
  intros Hj. unfold ForwardFor. rewrite Hj. fold (all_entries c j).
  pose proof (add_entry_spec (all_entries c j)) as Hspec.
  destruct (foldl add_entry (∅, []) (all_entries c j)) as [m o]. simpl in Hspec.
  destruct Hspec as (_ & Ho & Hm). unfold forwards. setoid_rewrite elem_of_stable_sort.
  setoid_rewrite elem_of_concat_fmap.
  assert (covers (mergeRanges (default [] (m !! (src, dst, proto)))) port ↔
    ∃ ports, ((src, dst, proto), ports) ∈ all_entries c j ∧ covers ports port) as Hcov.
  { rewrite mergeRanges_covers, Hm. case_decide as Hin; simpl.
    - rewrite covers_concat. setoid_rewrite list_elem_of_fmap.
      setoid_rewrite list_elem_of_filter. split.
      + intros (l & ([k ps] & -> & Hk & He) & Hc). simpl in *. subst. eauto.
      + intros (ports & He & Hc). exists ports. split; [|done]. by exists (src, dst, proto, ports).
    - split; [by intros ?%covers_nil|]. intros (ports & He & _). destruct Hin.
      change (src, dst, proto) with (src, dst, proto, ports).1. by apply list_elem_of_fmap_2. }
  rewrite <- Hcov. split.
  - intros (f & (k & Hk & Hf) & <- & <- & <- & Hb).
    apply list_elem_of_fmap in Hf as (x & -> & Hx). simpl in *.
    destruct k as [[k1 k2] k3]. simpl. by exists x.
  - intros Hc. pose proof Hc as (x & Hx & Hb).
    exists {| fwSrc := src; fwDst := dst; fwProto := proto; fwLo := Lo x; fwHi := Hi x |}.
    split; [|done]. exists (src, dst, proto). split.
    + apply Ho. destruct (m !! (src, dst, proto)); [done|]. by apply elem_of_nil in Hx.
    + apply list_elem_of_fmap. by exists x.
Qed.

(** ** Subnet routers: the lowest peer id serving a prefix *)

(** [via] maps prefix [y] to the least id among [cand y]. *)
Definition least_via (cand : prefix → string → Prop) (via : gmap prefix string) : Prop :=
  ∀ y, match via !! y with
       | Some id => cand y id ∧ ∀ id', cand y id' → String.le id id'
       | None => ∀ id', ¬ cand y id'
       end.

Lemma least_via_equiv cand cand' via :
  (∀ y id, cand y id ↔ cand' y id) → least_via cand via → least_via cand' via.
Proof.
  intros Hc H y. specialize (H y). destruct (via !! y).
  - rewrite <- Hc. split; [by apply H|]. intros id'. rewrite <- Hc. apply H.
  - intros id'. rewrite <- Hc. apply H.
Qed.

Lemma via_step_least c i rr cand via jp :
  least_via cand via →
  least_via (λ y id, cand y id ∨ (y = rprefix rr ∧ jp.1 ≠ i ∧ serves c rr jp.1 = true ∧ id = ID jp.2))
    (via_step c i rr via jp).
Proof.
  intros H. destruct jp as [j pe]. unfold via_step. simpl.
  destruct (Nat.eqb_spec j i) as [->|Hji]; simpl.
  { eapply least_via_equiv; [|exact H]. naive_solver. }
  destruct (serves c rr j) eqn:Es; simpl.
  2:{ eapply least_via_equiv; [|exact H]. naive_solver. }
  assert (least_via (λ y id, cand y id ∨ y = rprefix rr ∧ id = ID pe)
    (match via !! rprefix rr with
     | Some cur => if str_ltb (ID pe) cur then <[rprefix rr:=ID pe]> via else via
     | None => <[rprefix rr:=ID pe]> via end)) as Hl.
  2:{ eapply least_via_equiv; [|exact Hl]. naive_solver. }
  intros y. pose proof (H y) as Hy. pose proof (H (rprefix rr)) as Hr.
  destruct (decide (y = rprefix rr)) as [->|Hne].
  - clear Hy. destruct (via !! rprefix rr) as [cur|] eqn:Ev.
    + destruct (str_ltb (ID pe) cur) eqn:El.
      * rewrite lookup_insert_eq. apply str_ltb_le in El as [El _]. split; [by right|].
        intros id' [Hc|[_ ->]]; [|done]. transitivity cur; [done|]. by apply Hr.
      * rewrite Ev. apply str_nless_le in El. split; [by left; apply Hr|].
        intros id' [Hc|[_ ->]]; [by apply Hr|done].
    + rewrite lookup_insert_eq. split; [by right|]. intros id' [Hc|[_ ->]]; [|done]. by apply Hr in Hc.
  - assert ((match via !! rprefix rr with
     | Some cur => if str_ltb (ID pe) cur then <[rprefix rr:=ID pe]> via else via
     | None => <[rprefix rr:=ID pe]> via end) !! y = via !! y) as ->.
    { destruct (via !! rprefix rr); [destruct (str_ltb _ _)|]; by rewrite ?lookup_insert_ne. }
    destruct (via !! y); [|naive_solver]. destruct Hy. split; [by left|]. naive_solver.
Qed.

Lemma via_steps_least c i rr cand via l :
  least_via cand via →
  least_via (λ y id, cand y id ∨ (y = rprefix rr ∧ ∃ j pe, (j, pe) ∈ l ∧ j ≠ i ∧ serves c rr j = true ∧ id = ID pe))
    (foldl (via_step c i rr) via l).
Proof.
  revert cand via. induction l as [|[j pe] l IH]; intros cand via H; simpl.
  { eapply least_via_equiv; [|exact H]. intros y id. split; [by left|].
    intros [?|(_ & ? & ? & []%elem_of_nil & _)]; done. }
  eapply least_via_equiv; [|apply IH, via_step_least, H]. intros y id. simpl.
  setoid_rewrite elem_of_cons. split.
  - intros [[?|(-> & ? & ? & ->)]|(-> & j' & pe' & ? & ? & ? & ->)]; [by left|right|right]; eauto 10.
  - intros [?|(-> & j' & pe' & [[= -> ->]|?] & ? & ? & ->)]; [by left; left|left; right|right]; eauto 10.
Qed.

Lemma via_of_least c i :
  least_via (λ y id, ∃ rr j pe, rr ∈ routeRules c ∧ rinternet rr = false ∧ bhas (rsrc rr) i = true ∧
      rprefix rr = y ∧ peers c !! j = Some pe ∧ j ≠ i ∧ serves c rr j = true ∧ id = ID pe)
    (via_of c i).
Proof.
  unfold via_of. induction (routeRules c) as [|rr rs IH] using rev_ind.
  { intros y. simpl. rewrite lookup_empty. intros id' (rr & ? & ? & []%elem_of_nil & _). }
  rewrite foldl_app. simpl. destruct (rinternet rr || negb (bhas (rsrc rr) i)) eqn:E.
  - eapply least_via_equiv; [|exact IH]. intros y id. setoid_rewrite elem_of_app.
    setoid_rewrite list_elem_of_singleton. go_bool. split.
    + intros (rr' & j & pe & H). exists rr', j, pe. tauto.
    + intros (rr' & j & pe & [?| ->] & H1 & H2 & H3); [exists rr', j, pe; tauto|].
      destruct E as [E|E]; [congruence|]. go_bool. congruence.
  - go_bool. eapply least_via_equiv; [|apply via_steps_least, IH]. intros y id. simpl.
    setoid_rewrite elem_of_app. setoid_rewrite list_elem_of_singleton.
    setoid_rewrite elem_of_imap_pair. split.
    + intros [(rr' & j & pe & ?)|(-> & j & pe & ?)]; [exists rr', j, pe; tauto|].
      exists rr, j, pe. tauto.
    + intros (rr' & j & pe & [?| ->] & Hi & Hs & <- & Hj); [left; exists rr', j, pe; tauto|].
      right. split; [done|]. by exists j, pe.
Qed.

Lemma addr_nless_antisym x y : nless addr_ltb x y → nless addr_ltb y x → x = y.
Proof.
  unfold nless, addr_ltb. rewrite (Z.eqb_sym (BitLen y)), (Z.eqb_sym (addr_bits y)).
  destruct (Z.eqb_spec (BitLen x) (BitLen y)); intros; go_bool; [|lia].
  destruct (Z.eqb_spec (addr_bits x) (addr_bits y)); go_bool; [|lia].
  rewrite str_nless_le in *. assert (Zone x = Zone y) by by apply (anti_symm String.le).
  destruct x, y; simpl in *; congruence.
Qed.

#[export] Instance fwd_less_strict_weak : StrictWeak fwd_less.
Proof.
  split.
  - intros a b. unfold fwd_less.
    destruct (decide (fwSrc a = fwSrc b)) as [Eab|Nab].
    + rewrite decide_True by done. apply less_asym.
    + rewrite decide_False by done. apply less_asym.
  - intros a b d. unfold fwd_less. intros Hba Hcb.
    destruct (decide (fwSrc b = fwSrc a)) as [Eab|Nab].
    + rewrite <- Eab. destruct (decide (fwSrc d = fwSrc b)) as [Ebd|Nbd]; [by eapply nless_trans|done].
    + destruct (decide (fwSrc d = fwSrc b)) as [Ebd|Nbd].
      * rewrite Ebd. rewrite decide_False by done. done.
      * destruct (decide (fwSrc d = fwSrc a)) as [Ead|Nad]; [|by eapply nless_trans].
        destruct Nab. rewrite Ead in Hcb. by apply addr_nless_antisym.
Qed.

(** Which ids the exit node loop collects. *)
Lemma exit_steps_spec c i rr l st :
  let st' := foldl (exit_step c i rr) st l in
  (∀ x, x ∈ st.1 ↔ x ∈ st.2) → NoDup st.2 →
  (∀ x, x ∈ st'.1 ↔ x ∈ st'.2) ∧ NoDup st'.2 ∧
  ∀ x, x ∈ st'.2 ↔ x ∈ st.2 ∨ ∃ j pe, (j, pe) ∈ l ∧ j ≠ i ∧ serves c rr j = true ∧ x = ID pe.
Proof.
  revert st. induction l as [|[j pe] l IH]; intros st st' Hst Hnd.
  { split_and!; [done..|]. intros x. split; [by left|]. intros [?|(? & ? & []%elem_of_nil & _)]; done. }
  unfold st'. cbn [foldl].
  assert ((∀ x, x ∈ (exit_step c i rr st (j, pe)).1 ↔ x ∈ (exit_step c i rr st (j, pe)).2) ∧
    NoDup (exit_step c i rr st (j, pe)).2 ∧
    ∀ x, x ∈ (exit_step c i rr st (j, pe)).2 ↔ x ∈ st.2 ∨ j ≠ i ∧ serves c rr j = true ∧ x = ID pe)
    as (H1 & H2 & H3).
  { unfold exit_step. cbn [fst snd].
    destruct (Nat.eqb_spec j i) as [->|Hji]; simpl; [split_and!; naive_solver|].
    destruct (serves c rr j) eqn:Es; simpl; [|split_and!; naive_solver].
    destruct (bool_decide (ID pe ∈ st.1)) eqn:Eb; go_bool; simpl.
    - split_and!; [done..|]. intros x. split; [by left|]. intros [?|(_ & _ & ->)]; [done|by apply Hst].
    - rewrite Hst in Eb. split_and!.
      + intros x. rewrite elem_of_union, elem_of_singleton, elem_of_app, list_elem_of_singleton, Hst. tauto.
      + apply NoDup_app. split_and!; [done| |apply NoDup_singleton].
        intros x Hx ->%list_elem_of_singleton. done.
      + intros x. rewrite elem_of_app, list_elem_of_singleton. tauto. }
  destruct (IH _ H1 H2) as (I1 & I2 & I3). split_and!; [done..|].
  intros x. rewrite I3, H3. setoid_rewrite elem_of_cons. split.
  - intros [[?|(? & ? & ->)]|(j' & pe' & ? & ? & ? & ->)]; [by left|right|right]; eauto 10.
  - intros [?|(j' & pe' & [[= -> ->]|?] & ? & ? & ->)]; [by left; left|left; right|right]; eauto 10.
Qed.

Definition exit_ids (c : Compiled) (i : nat) : gset string * list string :=
  foldl (λ st rr, if negb (rinternet rr) || negb (bhas (rsrc rr) i) then st
                  else foldl (exit_step c i rr) st (imap pair (peers c))) (∅, []) (routeRules c).

Lemma exit_ids_spec c i :
  (∀ x, x ∈ (exit_ids c i).1 ↔ x ∈ (exit_ids c i).2) ∧ NoDup (exit_ids c i).2 ∧
  ∀ x, x ∈ (exit_ids c i).2 ↔ ∃ rr j pe, rr ∈ routeRules c ∧ rinternet rr = true ∧
    bhas (rsrc rr) i = true ∧ peers c !! j = Some pe ∧ j ≠ i ∧ serves c rr j = true ∧ x = ID pe.
Proof.
  unfold exit_ids. induction (routeRules c) as [|rr rs IH] using rev_ind.
  { simpl. split_and!; [|constructor|]; intros x.
    - split; [by intros ?%elem_of_empty|by intros ?%elem_of_nil].
    - split; [by intros ?%elem_of_nil|by intros (? & ? & ? & []%elem_of_nil & _)]. }
  rewrite foldl_app. cbn [foldl]. destruct IH as (IH1 & IH2 & IH3).
  destruct (negb (rinternet rr) || negb (bhas (rsrc rr) i)) eqn:E.
  - split_and!; [done..|]. intros x. rewrite IH3. setoid_rewrite elem_of_app.
    setoid_rewrite list_elem_of_singleton. split.
    + intros (rr' & j & pe & H). exists rr', j, pe. tauto.
    + intros (rr' & j & pe & [?| ->] & H1 & H2 & H3); [exists rr', j, pe; tauto|].
      rewrite H1, H2 in E. done.
  - go_bool. destruct (exit_steps_spec c i rr (imap pair (peers c)) _ IH1 IH2) as (H1' & H2' & H3').
    split_and!; [done..|]. intros x. rewrite H3', IH3. setoid_rewrite elem_of_app.
    setoid_rewrite list_elem_of_singleton. setoid_rewrite elem_of_imap_pair. split.
    + intros [(rr' & j & pe & ?)|(j & pe & ?)]; [exists rr', j, pe; tauto|]. exists rr, j, pe. tauto.
    + intros (rr' & j & pe & [?| ->] & H4 & H5 & H6 & H7); [left; exists rr', j, pe; tauto|].
      right. exists j, pe. tauto.
Qed.

(** An owners entry admits a user. *)
Definition owner_admits (p : Policy) (o user : string) : Prop :=
  ParseSelector o false = Ok (SelUser user) ∨
  ∃ g ms, ParseSelector o false = Ok (SelGroup g) ∧ Groups p !! g = Some ms ∧ user ∈ ms.

Lemma owner_users_spec p owners user :
  user ∈ owner_users p owners ↔ ∃ o, o ∈ owners ∧ owner_admits p o user.
Proof.
  unfold owner_users. induction owners as [|o os IH] using rev_ind; simpl.
  { split; [by intros ?%elem_of_empty|by intros (? & []%elem_of_nil & _)]. }
  rewrite foldl_app. setoid_rewrite elem_of_app. setoid_rewrite list_elem_of_singleton. simpl.
  assert (∀ P : Prop, (P ↔ owner_admits p o user) → P ∨ (∃ o', o' ∈ os ∧ owner_admits p o' user) ↔
    ∃ o', (o' ∈ os ∨ o' = o) ∧ owner_admits p o' user) as Hcase.
  { intros P HP. split.
    - intros [?|(o' & ? & ?)]; [exists o; tauto|exists o'; tauto].
    - intros (o' & [?| ->] & ?); [right; eauto|tauto]. }
  assert (False ↔ owner_admits p o user →
    user ∈ foldl (λ s o, match ParseSelector o false with
      | Ok (SelUser n) => {[n]} ∪ s | Ok (SelGroup n) => default ∅ (groups p !! n) ∪ s | _ => s end) ∅ os ↔
    ∃ o', (o' ∈ os ∨ o' = o) ∧ owner_admits p o' user) as Hskip.
  { intros H%Hcase. rewrite <- H, IH. tauto. }
  unfold owner_admits in Hcase, Hskip at 1.
  destruct (ParseSelector o false) as [[|n|g|n|n| |x|]|e]; try (apply Hskip; naive_solver).
  - rewrite elem_of_union, elem_of_singleton, IH. apply Hcase. naive_solver.
  - rewrite elem_of_union, IH. apply Hcase. unfold groups. rewrite lookup_fmap.
    destruct (Groups p !! g) as [ms|] eqn:Eg; simpl.
    + rewrite elem_of_list_to_set. split; [naive_solver|].
      intros [?|(g' & ms' & ? & ? & ?)]; by simplify_eq.
    + split; [by intros ?%elem_of_empty|]. intros [?|(g' & ms' & ? & ? & ?)]; by simplify_eq.
Qed.

(** ** The answers the control plane serves *)

Section Positions.
Context (p : Policy) (ps : list Peer) (overlay : prefix).
Hypothesis ids_unique : NoDup (ID <$> ps).

(** Distinct positions are distinct ids. *)
Lemma ids_inj i j a b : ps !! i = Some a → ps !! j = Some b → ID a = ID b ↔ i = j.
Proof.
  intros Hi Hj. split.
  - intros E. apply (NoDup_lookup (ID <$> ps) i j (ID a)); [done|..]; rewrite list_lookup_fmap.
    + by rewrite Hi.
    + rewrite Hj. simpl. by rewrite E.
  - intros ->. congruence.
Qed.

Lemma position a : a ∈ ps → ∃ i, ps !! i = Some a ∧ index (CompileWith p ps overlay) !! ID a = Some i.
Proof. intros [i Hi]%list_elem_of_lookup. exists i. split; [done|]. by apply index_of. Qed.

Lemma index_pair_none x y :
  x ∉ ID <$> ps ∨ y ∉ ID <$> ps → index_pair (CompileWith p ps overlay) x y = None.
Proof.
  intros H. unfold index_pair. destruct H as [H|H].
  - rewrite (index_none p ps overlay ids_unique x H). done.
  - rewrite (index_none p ps overlay ids_unique y H). by destruct (index (CompileWith p ps overlay) !! x).
Qed.

Lemma index_pair_same x : index_pair (CompileWith p ps overlay) x x = None.
Proof.
  unfold index_pair. destruct (index _ !! x); simpl; [|done]. by rewrite Nat.eqb_refl.
Qed.
End Positions.

(** C1: [Allowed] answers exactly what the policy text grants between two
    registered peers, for the four protocols; a peer to itself and unknown
    ids get nothing. *)
Theorem Allowed_correct (p : Policy) (ps : list Peer) (overlay : prefix) :
  NoDup (ID <$> ps) →
  (∀ a b proto port, a ∈ ps → b ∈ ps → ID a ≠ ID b →
     opens (Allowed (CompileWith p ps overlay) (ID a) (ID b)) proto port ↔
     proto ∈ protos ∧ grants p overlay a b proto port) ∧
  (∀ x, Allowed (CompileWith p ps overlay) x x = []) ∧
  (∀ x y, x ∉ ID <$> ps ∨ y ∉ ID <$> ps → Allowed (CompileWith p ps overlay) x y = []).
Proof.
  intros Hnd. unfold Allowed. split_and!.
  - intros a b proto port Ha Hb Hab.
    destruct (position p ps overlay Hnd a Ha) as (i & Hi & _).
    destruct (position p ps overlay Hnd b Hb) as (j & Hj & _).
    assert (i ≠ j) as Hij by (by rewrite <- (ids_inj ps Hnd i j a b)).
    rewrite (index_pair_of p ps overlay Hnd i j a b) by done. by apply opens_allowed.
  - intros x. by rewrite index_pair_same.
  - intros x y H. by rewrite index_pair_none.
Qed.

(** Two peers are visible to each other exactly when some rule, of either
    direction, names them (any ports) or routes one through the other; the
    relation is symmetric, and never holds of one peer or an unknown id. *)
Theorem Visible_correct (p : Policy) (ps : list Peer) (overlay : prefix) :
  NoDup (ID <$> ps) →
  (∀ a b, a ∈ ps → b ∈ ps → ID a ≠ ID b →
     Visible (CompileWith p ps overlay) (ID a) (ID b) = true ↔
     (grants_any p overlay a b ∨ ∃ x it, grants_route_any p overlay a b x it) ∨
     (grants_any p overlay b a ∨ ∃ x it, grants_route_any p overlay b a x it)) ∧
  (∀ x y, Visible (CompileWith p ps overlay) x y = Visible (CompileWith p ps overlay) y x) ∧
  (∀ x, Visible (CompileWith p ps overlay) x x = false) ∧
  (∀ x y, x ∉ ID <$> ps ∨ y ∉ ID <$> ps → Visible (CompileWith p ps overlay) x y = false).
Proof.
  intros Hnd. unfold Visible. split_and!.
  - intros a b Ha Hb Hab.
    destruct (position p ps overlay Hnd a Ha) as (i & Hi & _).
    destruct (position p ps overlay Hnd b Hb) as (j & Hj & _).
    assert (i ≠ j) as Hij by (by rewrite <- (ids_inj ps Hnd i j a b)).
    rewrite (index_pair_of p ps overlay Hnd i j a b) by done.
    unfold visibleIdx. rewrite orb_true_iff.
    rewrite (anyIdx_spec p ps overlay i j a b), (anyIdx_spec p ps overlay j i b a) by done. done.
  - intros x y. unfold index_pair. destruct (index _ !! x) as [i|], (index _ !! y) as [j|]; try done. simpl.
    rewrite Nat.eqb_sym. destruct (j =? i)%nat; [done|]. apply visibleIdx_sym.
  - intros x. by rewrite index_pair_same.
  - intros x y H. by rewrite index_pair_none.
Qed.

(** The filter table of a peer accepts exactly the (source address,
    protocol, port) triples the text grants, under the source's IPv4 address
    and its IPv6 one; it is sorted by source, and an unknown peer gets an
    empty table. *)
Theorem FilterFor_correct (p : Policy) (ps : list Peer) (overlay : prefix) :
  NoDup (ID <$> ps) →
  (∀ b x proto port, b ∈ ps →
     (∃ fr, fr ∈ FilterFor (CompileWith p ps overlay) (ID b) ∧ frSrc fr = x ∧ frProto fr = proto ∧
            frLo fr <= port <= frHi fr) ↔
     proto ∈ protos ∧ ∃ a, a ∈ ps ∧ ID a ≠ ID b ∧ source_addr a x ∧ grants p overlay a b proto port) ∧
  (∀ y, StronglySorted (nless src_less) (FilterFor (CompileWith p ps overlay) y)) ∧
  (∀ y, y ∉ ID <$> ps → FilterFor (CompileWith p ps overlay) y = []).
Proof.
  intros Hnd. unfold FilterFor. split_and!.
  - intros b x proto port Hb. destruct (position p ps overlay Hnd b Hb) as (j & Hj & ->).
    setoid_rewrite elem_of_stable_sort. setoid_rewrite elem_of_concat_imap.
    setoid_rewrite filter_rules_of_spec. change (peers (CompileWith p ps overlay)) with ps. split.
    + intros (fr & (i & a & Hi & Hij & pr & Hpr & Hs & -> & -> & ->) & <- & <- & Hport).
      apply and_comm. rewrite <- (ids_inj ps Hnd i j a b) in Hij by done.
      destruct (proj1 (opens_allowed p ps overlay i j a b (prProto pr) port Hi Hj
        ltac:(by rewrite <- (ids_inj ps Hnd i j a b)))) as [Hp Hg]; [by exists pr|].
      split; [|done]. exists a. split_and!; [by eapply list_elem_of_lookup_2|done..].
    + intros (Hp & a & [i Hi]%list_elem_of_lookup & Hab & Hs & Hg).
      assert (i ≠ j) as Hij by (by rewrite <- (ids_inj ps Hnd i j a b)).
      destruct (proj2 (opens_allowed p ps overlay i j a b proto port Hi Hj Hij)) as (pr & Hpr & <- & Hport); [done|].
      exists {| frSrc := x; frProto := prProto pr; frLo := prLo pr; frHi := prHi pr |}.
      split; [|done]. exists i, a. split_and!; [done..|]. by exists pr.
  - intros y. destruct (index _ !! y); [apply stable_sort_sorted; apply _|constructor].
  - intros y Hy. by rewrite index_none.
Qed.

(** The port ranges of a policy fit, as [ParsePorts] leaves them. *)
Definition policy_ports (p : Policy) : Prop := ∀ r d, r ∈ rules p → d ∈ pdst r → Forall range_ok (Ports d).

Lemma compile_dst_ports p ps overlay src proto d x : compile_dst p ps overlay src proto d = Some (inl x) → cports x = Ports d.
Proof. unfold compile_dst. repeat case_match; intros; by simplify_eq. Qed.

Lemma allowedIdx_ports p ps overlay i j pr : policy_ports p → pr ∈ allowedIdx (CompileWith p ps overlay) i j → port_ok (prLo pr) ∧ port_ok (prHi pr).
Proof.
  intros Hok Hpr. unfold allowedIdx in Hpr. apply elem_of_concat_fmap in Hpr as (k & _ & Hpr). apply list_elem_of_fmap in Hpr as (r & -> & Hr).
  cbn [prLo prHi]. rewrite by_proto_lookup in Hr.
  assert (Forall range_ok (concat (cports <$> filter (λ r, cproto r = k) (filter (λ r, matches (CompileWith p ps overlay) r i j = true) (crules (CompileWith p ps overlay))))))
    as Hall.
  { apply Forall_forall. intros x (c & Hc & Hx)%elem_of_concat_fmap. apply list_elem_of_filter in Hc as [_ Hc]. apply list_elem_of_filter in Hc as [_ Hc].
    apply elem_of_crules, elem_of_compiled in Hc as (r0 & d & Hr0 & Hd & Hc). apply compile_dst_ports in Hc. rewrite Hc in Hx.
    pose proof (Hok r0 d Hr0 Hd) as Hf. rewrite Forall_forall in Hf. by apply Hf. }
  apply mergeRanges_ok in Hall. rewrite Forall_forall in Hall. by destruct (Hall r Hr) as (? & ? & _).
Qed.

Lemma FilterFor_ports p ps overlay y fr : policy_ports p → fr ∈ FilterFor (CompileWith p ps overlay) y → port_ok (frLo fr) ∧ port_ok (frHi fr).
Proof.
  intros Hok Hfr. unfold FilterFor in Hfr. destruct (index _ !! y) as [j|]; [|by apply elem_of_nil in Hfr].
  apply elem_of_stable_sort in Hfr. apply elem_of_concat_imap in Hfr as (i & a & _ & Hfr). apply filter_rules_of_spec in Hfr as (_ & pr & Hpr & _ & _ & -> & ->).
  by eapply allowedIdx_ports.
Qed.

(** The forward table of a router lets through exactly the flows the
    text routes through it: the rule's prefix for the source's IPv4 address,
    and for an exit node also ::/0 for the source's IPv6 one; sorted by source
    then prefix, empty for an unknown router. *)
Theorem ForwardFor_correct (p : Policy) (ps : list Peer) (overlay : prefix) :
  NoDup (ID <$> ps) →
  (∀ b src dst proto port, b ∈ ps →
     forwards (ForwardFor (CompileWith p ps overlay) (ID b)) src dst proto port ↔
     ∃ a y it, a ∈ ps ∧ ID a ≠ ID b ∧ IsValid (IPv4 a) = true ∧
       grants_route p overlay a b y it proto port ∧
       (src = IPv4 a ∧ dst = y ∨
        it = true ∧ IsValid (IPv6 a) = true ∧ src = IPv6 a ∧ dst = ExitPrefix6)) ∧
  (∀ y, StronglySorted (nless fwd_less) (ForwardFor (CompileWith p ps overlay) y)) ∧
  (∀ y, y ∉ ID <$> ps → ForwardFor (CompileWith p ps overlay) y = []).
Proof.
  intros Hnd. split_and!.
  - intros b src dst proto port Hb. destruct (position p ps overlay Hnd b Hb) as (j & Hj & Hix).
    rewrite (forwards_ForwardFor _ _ j) by done. unfold all_entries.
    setoid_rewrite elem_of_concat_imap. setoid_rewrite forward_entries_spec.
    change (peers (CompileWith p ps overlay)) with ps. split.
    + intros (ports & (i & a & Hi & Hij & Hv & rr & Hrr & Hs & Hsv & -> & Hk) & Hc).
      exists a, (rprefix rr), (rinternet rr). split_and!; [by eapply list_elem_of_lookup_2| |done| |].
      * by rewrite (ids_inj ps Hnd i j).
      * destruct (proj1 (rrule_grants p ps overlay i j a b (λ x, rproto x = proto ∧ covers (rports x) port)
          (λ r d, pproto r = proto ∧ covers (Ports d) port) (rprefix rr) (rinternet rr) Hi Hj
          ltac:(intros ??? E1 E2; cbv beta; by rewrite E1, E2))) as (r & d & s & ?).
        { exists rr. split_and!; try done. by destruct Hk as [[= _ _ ->]|(_ & _ & [= _ _ ->])]. }
        exists r, d, s. tauto.
      * destruct Hk as [[= -> -> _]|(? & ? & [= -> -> _])]; [by left|by right].
    + intros (a & y & it & [i Hi]%list_elem_of_lookup & Hab & Hv & (r & d & s & Hg) & Hk).
      destruct (proj2 (rrule_grants p ps overlay i j a b (λ x, rproto x = proto ∧ covers (rports x) port)
          (λ r d, pproto r = proto ∧ covers (Ports d) port) y it Hi Hj ltac:(intros ??? E1 E2; cbv beta; by rewrite E1, E2)))
        as (rr & Hrr & Hs & Hsv & <- & <- & <- & Hc); [exists r, d, s; tauto|].
      exists (rports rr). split; [|done]. exists i, a. split_and!; [done|by rewrite <- (ids_inj ps Hnd i j a b)|done|].
      exists rr. split_and!; [done..|]. destruct Hk as [[-> ->]|(? & ? & -> & ->)]; [by left|by right].
  - intros y. unfold ForwardFor. destruct (index _ !! y); [|constructor].
    destruct (foldl _ _ _). apply stable_sort_sorted. apply _.
  - intros y Hy. unfold ForwardFor. by rewrite index_none.
Qed.

(** The routes of a peer list each subnet the text grants it through some
    other router exactly once, via the router with the lowest id among those
    that serve it, sorted by prefix; exit nodes are not subnet routes. *)
Theorem RoutesFor_correct (p : Policy) (ps : list Peer) (overlay : prefix) :
  NoDup (ID <$> ps) →
  (∀ a y v, a ∈ ps →
     {| rtPrefix := y; rtVia := v |} ∈ RoutesFor (CompileWith p ps overlay) (ID a) ↔
     (∃ b, b ∈ ps ∧ ID b ≠ ID a ∧ ID b = v ∧ grants_route_any p overlay a b y false) ∧
     (∀ b, b ∈ ps → ID b ≠ ID a → grants_route_any p overlay a b y false → String.le v (ID b))) ∧
  (∀ x, NoDup (rtPrefix <$> RoutesFor (CompileWith p ps overlay) x) ∧
        StronglySorted (nless route_less) (RoutesFor (CompileWith p ps overlay) x)) ∧
  (∀ x, x ∉ ID <$> ps → RoutesFor (CompileWith p ps overlay) x = []).
Proof.
  intros Hnd. unfold RoutesFor. split_and!.
  - intros a y v Ha. destruct (position p ps overlay Hnd a Ha) as (i & Hi & ->).
    set (c := CompileWith p ps overlay).
    assert (∀ id, (∃ rr j pe, rr ∈ routeRules c ∧ rinternet rr = false ∧ bhas (rsrc rr) i = true ∧
      rprefix rr = y ∧ peers c !! j = Some pe ∧ j ≠ i ∧ serves c rr j = true ∧ id = ID pe) ↔
      ∃ b, b ∈ ps ∧ ID b ≠ ID a ∧ ID b = id ∧ grants_route_any p overlay a b y false) as Hcand.
    { intros id. change (peers c) with ps. split.
      - intros (rr & j & b & Hrr & Hin & Hs & Hy & Hj & Hji & Hsv & ->).
        exists b. split_and!; [by eapply list_elem_of_lookup_2|by rewrite (ids_inj ps Hnd j i b a Hj Hi)|done|].
        destruct (proj1 (rrule_grants p ps overlay i j a b (λ _, True) (λ _ _, True) y false Hi Hj
          ltac:(done))) as (r & d & s & ?); [by eauto 10|]. exists r, d, s. tauto.
      - intros (b & [j Hj]%list_elem_of_lookup & Hba & <- & r & d & s & ?).
        destruct (proj2 (rrule_grants p ps overlay i j a b (λ _, True) (λ _ _, True) y false Hi Hj
          ltac:(done))) as (rr & ?); [exists r, d, s; tauto|].
        exists rr, j, b. assert (j ≠ i) by (by rewrite <- (ids_inj ps Hnd j i b a)). tauto. }
    pose proof (via_of_least c i y) as Hl. cbv beta in Hl.
    rewrite elem_of_stable_sort, list_elem_of_fmap.
    assert ((∃ pv : prefix * string, {| rtPrefix := y; rtVia := v |} = {| rtPrefix := pv.1; rtVia := pv.2 |} ∧
      pv ∈ map_to_list (via_of c i)) ↔ via_of c i !! y = Some v) as ->.
    { rewrite <- elem_of_map_to_list. split; [by intros ([y' v'] & [= -> ->] & ?)|]. intros. by exists (y, v). }
    destruct (via_of c i !! y) as [id|]; setoid_rewrite Hcand in Hl; clear Hcand.
    + destruct Hl as [Hc Hmin]. split.
      * intros [= <-]. split; [done|]. intros b Hb Hba Hg. apply Hmin. eauto.
      * intros [Hv Hle]. f_equal. destruct Hc as (b & Hb & Hba & <- & Hg).
        apply (anti_symm String.le); [by apply Hmin|by apply Hle].
    + split; [done|]. intros [Hv _]. by apply Hl in Hv.
  - intros x. split.
    + destruct (index _ !! x); [|constructor]. rewrite stable_sort_perm, <- list_fmap_compose.
      apply NoDup_fst_map_to_list.
    + destruct (index _ !! x); [|constructor]. apply stable_sort_sorted. apply _.
  - intros x Hx. by rewrite index_none.
Qed.

(** The exit nodes offered to a peer are exactly the other peers that
    advertise an approved default route and to which a rule with destination
    "internet" sends it, each once, in id order; [MayUseTag] holds exactly of
    the users an owner entry of the tag admits. *)
Theorem ExitNodesFor_MayUseTag_correct (p : Policy) (ps : list Peer) (overlay : prefix) :
  NoDup (ID <$> ps) →
  (∀ a x, a ∈ ps →
     x ∈ ExitNodesFor (CompileWith p ps overlay) (ID a) ↔
     ∃ b, b ∈ ps ∧ ID b = x ∧ ID b ≠ ID a ∧ ∃ y, grants_route_any p overlay a b y true) ∧
  (∀ x, NoDup (ExitNodesFor (CompileWith p ps overlay) x) ∧
        StronglySorted (nless str_ltb) (ExitNodesFor (CompileWith p ps overlay) x)) ∧
  (∀ user tag, MayUseTag (CompileWith p ps overlay) user tag = true ↔
     ∃ owners o, TagOwners p !! tag = Some owners ∧ o ∈ owners ∧ owner_admits p o user).
Proof.
  intros Hnd. split_and!.
  - intros a x Ha. unfold ExitNodesFor. destruct (position p ps overlay Hnd a Ha) as (i & Hi & ->).
    set (c := CompileWith p ps overlay). fold (exit_ids c i).
    rewrite elem_of_stable_sort. destruct (exit_ids_spec c i) as (_ & _ & ->).
    change (peers c) with ps. split.
    + intros (rr & j & b & Hrr & Hin & Hs & Hj & Hji & Hsv & ->).
      exists b. split_and!; [by eapply list_elem_of_lookup_2|done|by rewrite (ids_inj ps Hnd j i b a Hj Hi)|].
      exists (rprefix rr).
      destruct (proj1 (rrule_grants p ps overlay i j a b (λ _, True) (λ _ _, True) (rprefix rr) true Hi Hj
        ltac:(done))) as (r & d & s & ?); [by eauto 10|]. exists r, d, s. tauto.
    + intros (b & [j Hj]%list_elem_of_lookup & <- & Hba & y & r & d & s & ?).
      destruct (proj2 (rrule_grants p ps overlay i j a b (λ _, True) (λ _ _, True) y true Hi Hj
        ltac:(done))) as (rr & ?); [exists r, d, s; tauto|].
      exists rr, j, b. assert (j ≠ i) by (by rewrite <- (ids_inj ps Hnd j i b a)). tauto.
  - intros x. unfold ExitNodesFor. destruct (index _ !! x) as [i|]; [|split; constructor].
    fold (exit_ids (CompileWith p ps overlay) i). split; [|apply stable_sort_sorted; apply _].
    rewrite stable_sort_perm. apply exit_ids_spec.
  - intros user tag. unfold MayUseTag. rewrite bool_decide_eq_true.
    change (tagOwners (CompileWith p ps overlay)) with (owner_users p <$> TagOwners p).
    rewrite lookup_fmap. destruct (TagOwners p !! tag) as [owners|]; simpl.
    + rewrite owner_users_spec. naive_solver.
    + split; [by intros ?%elem_of_empty|]. by intros (? & ? & ? & _).
Qed.

(** ** A small policy *)

Definition demo_policy : Policy :=
  {| doc := {| docVersion := 1; docGroups := {["dev" := ["alice"]]};
               docTagOwners := {["tag:web" := ["group:dev"]]}; docACLs := [] |};
     Hash := "h"; Source := [];
     rules := [
       {| psrc := [SelGroup "dev"]; pdst := [{| Host := SelTag "web"; Ports := [{| Lo := 80; Hi := 80 |}] |}];
          pproto := ProtoTCP |};
       {| psrc := [SelAny];
          pdst := [{| Host := SelCIDR (Prefix (Addr4 167837696) 24); Ports := [AllPorts] |};
                   {| Host := SelInternet; Ports := [AllPorts] |}];
          pproto := ProtoAny |} ] |}.

Definition demo_peer (id owner : string) (tags : list string) (ip : Z) (routes : list prefix) : Peer :=
  {| ID := id; Name := id; Owner := owner; Tags := tags; IPv4 := Addr4 ip;
     IPv6 := Addr6 (ip + 2 ^ 100) ""; Routes := routes |}.

(** alice's laptop, a web server that serves 10.1.0.0/24, and an exit node. *)
Definition demo_a := demo_peer "a" "alice" [] 1681915905 [].
Definition demo_w := demo_peer "w" "" ["tag:web"] 1681915906 [Prefix (Addr4 167837696) 24].
Definition demo_x := demo_peer "x" "bob" [] 1681915907 [ExitPrefix].
Definition demo_peers := [demo_a; demo_w; demo_x].
Definition demo_overlay : prefix := Prefix (Addr4 1681915904) 10.
Definition demo := CompileWith demo_policy demo_peers demo_overlay.

Example demo_allowed : Allowed demo "a" "w" = [{| prProto := ProtoTCP; prLo := 80; prHi := 80 |}].
Proof. vm_compute. reflexivity. Qed.

Example demo_reverse : Allowed demo "w" "a" = [].
Proof. vm_compute. reflexivity. Qed.

Example demo_routes : RoutesFor demo "a" = [{| rtPrefix := Prefix (Addr4 167837696) 24; rtVia := "w" |}].
Proof. vm_compute. reflexivity. Qed.

Example demo_exits : ExitNodesFor demo "w" = ["x"].
Proof. vm_compute. reflexivity. Qed.

Lemma demo_ids : NoDup (ID <$> demo_peers).
Proof. apply (bool_decide_unpack _). vm_compute. exact I. Qed.

Lemma Allowed_correct_witness :
  NoDup (ID <$> demo_peers) ∧
  (opens (Allowed demo "a" "w") ProtoTCP 80 ↔
   ProtoTCP ∈ protos ∧ grants demo_policy demo_overlay demo_a demo_w ProtoTCP 80).
Proof.
  split; [exact demo_ids|].
  apply (proj1 (Allowed_correct demo_policy demo_peers demo_overlay demo_ids) demo_a demo_w);
    [by repeat constructor|by repeat constructor|done].
Defined.

Lemma Visible_correct_witness :
  NoDup (ID <$> demo_peers) ∧ Visible demo "a" "x" = Visible demo "x" "a".
Proof.
  split; [exact demo_ids|].
  apply (proj1 (proj2 (Visible_correct demo_policy demo_peers demo_overlay demo_ids)) "a" "x").
Defined.

Lemma FilterFor_correct_witness :
  NoDup (ID <$> demo_peers) ∧ FilterFor demo "nobody" = [].
Proof.
  split; [exact demo_ids|].
  apply (proj2 (proj2 (FilterFor_correct demo_policy demo_peers demo_overlay demo_ids)) "nobody").
  apply (bool_decide_unpack _). vm_compute. exact I.
Defined.

Lemma ForwardFor_correct_witness :
  NoDup (ID <$> demo_peers) ∧ StronglySorted (nless fwd_less) (ForwardFor demo "x").
Proof.
  split; [exact demo_ids|].
  apply (proj1 (proj2 (ForwardFor_correct demo_policy demo_peers demo_overlay demo_ids)) "x").
Defined.

Lemma RoutesFor_correct_witness :
  NoDup (ID <$> demo_peers) ∧
  ∃ b, b ∈ demo_peers ∧ ID b ≠ "a" ∧ ID b = "w" ∧
    grants_route_any demo_policy demo_overlay demo_a b (Prefix (Addr4 167837696) 24) false.
Proof.
  split; [exact demo_ids|].
  apply (proj1 (RoutesFor_correct demo_policy demo_peers demo_overlay demo_ids) demo_a
    (Prefix (Addr4 167837696) 24) "w"); [by constructor|].
  vm_compute. by constructor.
Defined.

Lemma ExitNodesFor_MayUseTag_correct_witness :
  NoDup (ID <$> demo_peers) ∧ MayUseTag demo "alice" "tag:web" = true ∧ NoDup (ExitNodesFor demo "w").
Proof.
  pose proof (ExitNodesFor_MayUseTag_correct demo_policy demo_peers demo_overlay demo_ids) as (_ & H & _).
  split; [exact demo_ids|]. split; [by vm_compute|apply (H "w")].
Defined.
