(* ===== verification/PathMachine.v ===== *)
(** The per-peer path state machine: [internal/control/path/machine.go].

    A Go [time.Time] is its nanoseconds since the zero time, so [IsZero] is
    [= 0]; a [time.Duration] is an int64 number of nanoseconds and [Sub]
    saturates.  [Machine] has the fields of the Go struct and [Step] its
    branches; the methods that mutate the receiver return the new machine. *)

From S2P Require Import Prelude NetIP.

Inductive State := Idle | Probing | Direct | Relay | Unreachable.
Inductive Action := ActNone | ActSink | ActProbe | ActRelay.

#[export] Instance state_eq_dec : EqDecision State.
Proof. solve_decision. Defined.
#[export] Instance action_eq_dec : EqDecision Action.
Proof. solve_decision. Defined.

Record Options := { ProbeWindow : Z; StallAfter : Z; RetryAfter : Z; UseRelay : bool }.

Definition withDefaults (o : Options) : Options :=
  {| ProbeWindow := if ProbeWindow o <=? 0 then 2 * second else ProbeWindow o;
     StallAfter := if StallAfter o <=? 0 then 180 * second else StallAfter o;
     RetryAfter := if RetryAfter o <=? 0 then 60 * second else RetryAfter o;
     UseRelay := UseRelay o |}.

Record Input := {
  Now : Z;
  Intent : bool;
  Reach : bool;
  inHandshake : Z;
  inEndpoint : addrport;
  Rx : Z;
  Tx : Z;
}.

Record Output := { outState : State; outEndpoint : addrport; outAction : Action; Changed : bool }.

Record Machine := MkMachine {
  opts : Options;
  state : State;
  candidates : list addrport;
  dirty : bool;
  idx : nat;
  endpoint : addrport;
  started : bool;
  wanted : bool;
  freshIntent : bool;
  fromRelay : bool;
  lag : Z;
  window : Z;
  retryIdx : nat;
  windowStart : Z;
  lastProbe : Z;
  lastRound : Z;
  handshake : Z;
  rx : Z;
  tx : Z;
  probes : nat;
}.

(** Field assignments. *)
Definition set_state (v : State) (m : Machine) : Machine :=
  MkMachine (opts m) v (candidates m) (dirty m) (idx m) (endpoint m) (started m) (wanted m)
    (freshIntent m) (fromRelay m) (lag m) (window m) (retryIdx m) (windowStart m) (lastProbe m)
    (lastRound m) (handshake m) (rx m) (tx m) (probes m).
Definition set_candidates (v : list addrport) (m : Machine) : Machine :=
  MkMachine (opts m) (state m) v (dirty m) (idx m) (endpoint m) (started m) (wanted m)
    (freshIntent m) (fromRelay m) (lag m) (window m) (retryIdx m) (windowStart m) (lastProbe m)
    (lastRound m) (handshake m) (rx m) (tx m) (probes m).
Definition set_dirty (v : bool) (m : Machine) : Machine :=
  MkMachine (opts m) (state m) (candidates m) v (idx m) (endpoint m) (started m) (wanted m)
    (freshIntent m) (fromRelay m) (lag m) (window m) (retryIdx m) (windowStart m) (lastProbe m)
    (lastRound m) (handshake m) (rx m) (tx m) (probes m).
Definition set_idx (v : nat) (m : Machine) : Machine :=
  MkMachine (opts m) (state m) (candidates m) (dirty m) v (endpoint m) (started m) (wanted m)
    (freshIntent m) (fromRelay m) (lag m) (window m) (retryIdx m) (windowStart m) (lastProbe m)
    (lastRound m) (handshake m) (rx m) (tx m) (probes m).
Definition set_endpoint (v : addrport) (m : Machine) : Machine :=
  MkMachine (opts m) (state m) (candidates m) (dirty m) (idx m) v (started m) (wanted m)
    (freshIntent m) (fromRelay m) (lag m) (window m) (retryIdx m) (windowStart m) (lastProbe m)
    (lastRound m) (handshake m) (rx m) (tx m) (probes m).
Definition set_started (v : bool) (m : Machine) : Machine :=
  MkMachine (opts m) (state m) (candidates m) (dirty m) (idx m) (endpoint m) v (wanted m)
    (freshIntent m) (fromRelay m) (lag m) (window m) (retryIdx m) (windowStart m) (lastProbe m)
    (lastRound m) (handshake m) (rx m) (tx m) (probes m).
Definition set_wanted (v : bool) (m : Machine) : Machine :=
  MkMachine (opts m) (state m) (candidates m) (dirty m) (idx m) (endpoint m) (started m) v
    (freshIntent m) (fromRelay m) (lag m) (window m) (retryIdx m) (windowStart m) (lastProbe m)
    (lastRound m) (handshake m) (rx m) (tx m) (probes m).
Definition set_freshIntent (v : bool) (m : Machine) : Machine :=
  MkMachine (opts m) (state m) (candidates m) (dirty m) (idx m) (endpoint m) (started m) (wanted
    m) v (fromRelay m) (lag m) (window m) (retryIdx m) (windowStart m) (lastProbe m) (lastRound
    m) (handshake m) (rx m) (tx m) (probes m).
Definition set_fromRelay (v : bool) (m : Machine) : Machine :=
  MkMachine (opts m) (state m) (candidates m) (dirty m) (idx m) (endpoint m) (started m) (wanted
    m) (freshIntent m) v (lag m) (window m) (retryIdx m) (windowStart m) (lastProbe m)
    (lastRound m) (handshake m) (rx m) (tx m) (probes m).
Definition set_lag (v : Z) (m : Machine) : Machine :=
  MkMachine (opts m) (state m) (candidates m) (dirty m) (idx m) (endpoint m) (started m) (wanted
    m) (freshIntent m) (fromRelay m) v (window m) (retryIdx m) (windowStart m) (lastProbe m)
    (lastRound m) (handshake m) (rx m) (tx m) (probes m).
Definition set_window (v : Z) (m : Machine) : Machine :=
  MkMachine (opts m) (state m) (candidates m) (dirty m) (idx m) (endpoint m) (started m) (wanted
    m) (freshIntent m) (fromRelay m) (lag m) v (retryIdx m) (windowStart m) (lastProbe m)
    (lastRound m) (handshake m) (rx m) (tx m) (probes m).
Definition set_retryIdx (v : nat) (m : Machine) : Machine :=
  MkMachine (opts m) (state m) (candidates m) (dirty m) (idx m) (endpoint m) (started m) (wanted
    m) (freshIntent m) (fromRelay m) (lag m) (window m) v (windowStart m) (lastProbe m)
    (lastRound m) (handshake m) (rx m) (tx m) (probes m).
Definition set_windowStart (v : Z) (m : Machine) : Machine :=
  MkMachine (opts m) (state m) (candidates m) (dirty m) (idx m) (endpoint m) (started m) (wanted
    m) (freshIntent m) (fromRelay m) (lag m) (window m) (retryIdx m) v (lastProbe m) (lastRound
    m) (handshake m) (rx m) (tx m) (probes m).
Definition set_lastProbe (v : Z) (m : Machine) : Machine :=
  MkMachine (opts m) (state m) (candidates m) (dirty m) (idx m) (endpoint m) (started m) (wanted
    m) (freshIntent m) (fromRelay m) (lag m) (window m) (retryIdx m) (windowStart m) v
    (lastRound m) (handshake m) (rx m) (tx m) (probes m).
Definition set_lastRound (v : Z) (m : Machine) : Machine :=
  MkMachine (opts m) (state m) (candidates m) (dirty m) (idx m) (endpoint m) (started m) (wanted
    m) (freshIntent m) (fromRelay m) (lag m) (window m) (retryIdx m) (windowStart m) (lastProbe
    m) v (handshake m) (rx m) (tx m) (probes m).
Definition set_handshake (v : Z) (m : Machine) : Machine :=
  MkMachine (opts m) (state m) (candidates m) (dirty m) (idx m) (endpoint m) (started m) (wanted
    m) (freshIntent m) (fromRelay m) (lag m) (window m) (retryIdx m) (windowStart m) (lastProbe
    m) (lastRound m) v (rx m) (tx m) (probes m).
Definition set_rx (v : Z) (m : Machine) : Machine :=
  MkMachine (opts m) (state m) (candidates m) (dirty m) (idx m) (endpoint m) (started m) (wanted
    m) (freshIntent m) (fromRelay m) (lag m) (window m) (retryIdx m) (windowStart m) (lastProbe
    m) (lastRound m) (handshake m) v (tx m) (probes m).
Definition set_tx (v : Z) (m : Machine) : Machine :=
  MkMachine (opts m) (state m) (candidates m) (dirty m) (idx m) (endpoint m) (started m) (wanted
    m) (freshIntent m) (fromRelay m) (lag m) (window m) (retryIdx m) (windowStart m) (lastProbe
    m) (lastRound m) (handshake m) (rx m) v (probes m).
Definition set_probes (v : nat) (m : Machine) : Machine :=
  MkMachine (opts m) (state m) (candidates m) (dirty m) (idx m) (endpoint m) (started m) (wanted
    m) (freshIntent m) (fromRelay m) (lag m) (window m) (retryIdx m) (windowStart m) (lastProbe
    m) (lastRound m) (handshake m) (rx m) (tx m) v.

Definition New (o : Options) : Machine :=
  MkMachine (withDefaults o) Idle [] false 0 NoAddrPort false false false false 0 0 0 0 0 0 0 0 0 0.

(** Go's [/] truncates; a duration option is positive after [withDefaults]. *)
Definition SetStagger (on : bool) (m : Machine) : Machine :=
  set_lag (if on then Z.quot (ProbeWindow (opts m)) 2 else 0) m.

Definition Hold (now : Z) (m : Machine) : Machine :=
  if decide (state m = Probing) then set_windowStart now m else m.

Definition SetCandidates (l : list addrport) (m : Machine) : Machine :=
  if decide (candidates m = l) then m else set_dirty true (set_candidates l m).

Definition set_path (s : State) (e : addrport) (m : Machine) : Machine := set_endpoint e (set_state s m).

Definition useRelay (m : Machine) : Machine * Action :=
  (set_fromRelay false (set_path Relay NoAddrPort m), ActRelay).

(** The lookup fails exactly when [idx >= len(candidates)]. *)
Definition probeNext (now : Z) (m : Machine) : Machine * Action :=
  match candidates m !! idx m with
  | None =>
      if UseRelay (opts m) then useRelay m
      else (set_path Unreachable NoAddrPort m, ActSink)
  | Some e =>
      let m := set_path Probing e m in
      let m := set_windowStart now (set_lastProbe now (set_window (ProbeWindow (opts m)) m)) in
      (set_probes (S (probes m)) m, ActProbe)
  end.

Definition startRound (now : Z) (m : Machine) : Machine * Action :=
  let m := set_fromRelay false (set_freshIntent false (set_dirty false m)) in
  let m := set_idx 0 (set_lastRound now m) in
  let '(m, act) := probeNext now m in
  (set_window (i64 (window m + lag m)) m, act).

(** Called with a non-empty candidate list only, so [%] does not panic. *)
Definition retryFromRelay (now : Z) (m : Machine) : Machine * Action :=
  let m := set_fromRelay true (set_lastRound now m) in
  let m := set_idx (retryIdx m mod length (candidates m)) m in
  let m := set_retryIdx (S (idx m)) m in
  let '(m, act) := probeNext now m in
  (set_window (i64 (window m + lag m)) m, act).

(** What [Step] computes before its switch. *)
Definition note_intent (i : Input) (m : Machine) : Machine :=
  if Intent i || Reach i then set_freshIntent true (set_wanted true m) else m.
Definition advances (m : Machine) (i : Input) : bool := handshake m <? inHandshake i.
Definition note_handshake (i : Input) (m : Machine) : Machine :=
  if advances m i then set_handshake (inHandshake i) m else m.
Definition reach_due (m : Machine) (i : Input) : bool :=
  Reach i && ((lastRound m =? 0) || (Z.quot (RetryAfter (opts m)) 2 <=? Sub (Now i) (lastRound m))).
Definition learned (adv : bool) (i : Input) : bool := adv && APIsValid (inEndpoint i).
Definition has_candidates (m : Machine) : bool := negb (bool_decide (candidates m = [])).
Definition retry_due (m : Machine) (i : Input) : bool :=
  RetryAfter (opts m) <=? Sub (Now i) (lastRound m).
Definition probe_settled (m : Machine) (i : Input) : bool :=
  ProbeWindow (opts m) <=? Sub (Now i) (lastProbe m).
Definition window_over (m : Machine) (i : Input) : bool :=
  window m <=? Sub (Now i) (windowStart m).
Definition stalled (m : Machine) (i : Input) : bool :=
  negb (handshake m =? 0) && (StallAfter (opts m) <? Sub (Now i) (handshake m))
  && (tx m <? Tx i) && (Rx i =? rx m).

(** The switch of [Step]: [adv] and [reach] as computed before it, [a] the
    action so far. *)
Definition step_idle (adv reach : bool) (i : Input) (a : Action) (m : Machine) : Machine * Action :=
  if learned adv i then (set_path Direct (inEndpoint i) m, a)
  else if wanted m && (bool_decide (state m = Idle) || dirty m || reach || (freshIntent m && retry_due m i))
  then startRound (Now i) m
  else (m, a).

Definition step_probing (adv : bool) (i : Input) (a : Action) (m : Machine) : Machine * Action :=
  if learned adv i then (set_path Direct (inEndpoint i) m, a)
  else if adv && negb (fromRelay m) then (set_state Direct m, a)
  else if Reach i && fromRelay m then startRound (Now i) m
  else if dirty m && probe_settled m i then startRound (Now i) m
  else if window_over m i && fromRelay m then useRelay m
  else if window_over m i then probeNext (Now i) (set_idx (S (idx m)) m)
  else (m, a).

Definition step_direct (adv : bool) (i : Input) (a : Action) (m : Machine) : Machine * Action :=
  let m := if learned adv i then set_endpoint (inEndpoint i) m else m in
  if stalled m i && wanted m then startRound (Now i) m else (m, a).

Definition step_relay (adv reach : bool) (i : Input) (a : Action) (m : Machine) : Machine * Action :=
  if learned adv i then (set_path Direct (inEndpoint i) m, a)
  else if dirty m && probe_settled m i then startRound (Now i) m
  else if reach && has_candidates m then startRound (Now i) m
  else if has_candidates m && retry_due m i then retryFromRelay (Now i) m
  else (m, a).

Definition step_state (adv reach : bool) (i : Input) (a : Action) (m : Machine) : Machine * Action :=
  match state m with
  | Idle | Unreachable => step_idle adv reach i a m
  | Probing => step_probing adv i a m
  | Direct => step_direct adv i a m
  | Relay => step_relay adv reach i a m
  end.

Definition Step (m : Machine) (i : Input) : Machine * Output :=
  let a := if started m then ActNone else ActSink in
  let m0 := note_intent i (set_started true m) in
  let '(m1, act) := step_state (advances m0 i) (reach_due m0 i) i a (note_handshake i m0) in
  let m2 := set_tx (Tx i) (set_rx (Rx i) m1) in
  (m2, {| outState := state m2; outEndpoint := endpoint m2; outAction := act;
          Changed := negb (bool_decide (state m2 = state m) && bool_decide (endpoint m2 = endpoint m)) |}).

(** ** Runs of the machine

    The daemon calls the methods in any order; [cmd] is what it last told the
    device to do. *)

Inductive op :=
  | OpStep (i : Input)
  | OpHold (now : Z)
  | OpStagger (on : bool)
  | OpCandidates (l : list addrport).

Inductive cmd := CmdSink | CmdAt (e : addrport) | CmdRelay.

(** The device command an action stands for. *)
Definition exec (a : Action) (e : addrport) (c : option cmd) : option cmd :=
  match a with
  | ActNone => c
  | ActSink => Some CmdSink
  | ActProbe => Some (CmdAt e)
  | ActRelay => Some CmdRelay
  end.

Definition apply (mc : Machine * option cmd) (o : op) : Machine * option cmd :=
  match o with
  | OpStep i => let '(m, out) := Step mc.1 i in (m, exec (outAction out) (outEndpoint out) mc.2)
  | OpHold now => (Hold now mc.1, mc.2)
  | OpStagger on => (SetStagger on mc.1, mc.2)
  | OpCandidates l => (SetCandidates l mc.1, mc.2)
  end.

Definition run (o : Options) (ops : list op) : Machine * option cmd :=
  foldl apply (New o, None) ops.

(** Candidate lists hold valid addresses, as [Order] produces them. *)
Definition op_ok (o : op) : Prop :=
  match o with OpCandidates l => Forall (λ e, APIsValid e = true) l | _ => True end.

(** What holds of the machine between calls. *)
Record Inv (m : Machine) : Prop := {
  inv_candidates : Forall (λ e, APIsValid e = true) (candidates m);
  inv_unset : state m ≠ Probing → state m ≠ Direct → endpoint m = NoAddrPort;
  inv_set : state m = Probing ∨ state m = Direct → APIsValid (endpoint m) = true;
  inv_current : state m = Probing → dirty m = false → candidates m !! idx m = Some (endpoint m);
  inv_relay : state m = Relay → UseRelay (opts m) = true;
  inv_unreachable : state m = Unreachable → UseRelay (opts m) = false;
  inv_fromRelay : fromRelay m = true → UseRelay (opts m) = true ∧ (state m = Probing ∨ state m = Direct);
  inv_wanted : state m ≠ Idle → state m ≠ Direct → wanted m = true;
  inv_started : started m = false → state m = Idle;
}.

(** The last command is the one the state calls for; a direct path is left to
    WireGuard. *)
Definition synced (m : Machine) (c : option cmd) : Prop :=
  started m = true →
  match state m with
  | Idle | Unreachable => c = Some CmdSink
  | Probing => c = Some (CmdAt (endpoint m))
  | Relay => c = Some CmdRelay
  | Direct => True
  end.

(** What [probeNext], [startRound], [retryFromRelay] and [useRelay] do to the
    path: probe a listed candidate, or give up in the configured way. *)
Inductive placed (m m' : Machine) (a : Action) : Prop :=
  | placed_probe e : candidates m !! idx m' = Some e → a = ActProbe → state m' = Probing →
      endpoint m' = e → placed m m' a
  | placed_relay : UseRelay (opts m) = true → a = ActRelay → state m' = Relay →
      endpoint m' = NoAddrPort → fromRelay m' = false → placed m m' a
  | placed_sink : UseRelay (opts m) = false → a = ActSink → state m' = Unreachable →
      endpoint m' = NoAddrPort → placed m m' a.

(** The fields a move of the path leaves alone. *)
Definition framed (m m' : Machine) : Prop :=
  opts m' = opts m ∧ candidates m' = candidates m ∧ started m' = started m ∧ wanted m' = wanted m ∧
  lag m' = lag m ∧ handshake m' = handshake m ∧ rx m' = rx m ∧ tx m' = tx m.

Lemma probeNext_placed now m m' a :
  probeNext now m = (m', a) →
  placed m m' a ∧ framed m m' ∧ idx m' = idx m ∧ dirty m' = dirty m ∧
  (fromRelay m' = true → fromRelay m = true) ∧ lastRound m' = lastRound m.
Proof.
  unfold probeNext, useRelay. intros H. destruct (candidates m !! idx m) as [e|] eqn:E.
  - simplify_eq. split; [|done]. by eapply placed_probe.
  - destruct (UseRelay (opts m)) eqn:Er; simplify_eq; (split; [|done]).
    + by apply placed_relay.
    + by apply placed_sink.
Qed.

Lemma startRound_placed now m m' a :
  startRound now m = (m', a) →
  placed m m' a ∧ framed m m' ∧ dirty m' = false ∧ fromRelay m' = false ∧ lastRound m' = now ∧ idx m' = 0%nat.
Proof.
  unfold startRound. intros H. destruct (probeNext _ _) as [m1 a1] eqn:E.
  apply probeNext_placed in E as (Hp & Hf & Hi & Hd & Hr & Hl). simplify_eq. simpl in *.
  split_and!; try done; [|destruct (fromRelay m1); naive_solver].
  destruct Hp as [e| |]; simpl in *; [eapply placed_probe|apply placed_relay|apply placed_sink]; done.
Qed.

Lemma retryFromRelay_placed now m m' a :
  candidates m ≠ [] → UseRelay (opts m) = true → retryFromRelay now m = (m', a) →
  framed m m' ∧ dirty m' = dirty m ∧ lastRound m' = now ∧ a = ActProbe ∧ state m' = Probing ∧
  candidates m !! idx m' = Some (endpoint m').
Proof.
  intros Hc Hu. unfold retryFromRelay. intros H. destruct (probeNext _ _) as [m1 a1] eqn:E.
  pose proof E as E'. apply probeNext_placed in E as (Hp & Hf & Hi & Hd & Hr & Hl). simplify_eq. simpl in *.
  assert (idx m1 < length (candidates m))%nat as Hlt.
  { rewrite Hi. apply Nat.mod_upper_bound. by destruct (candidates m). }
  unfold probeNext in E'. simpl in E'. rewrite <- Hi in E'.
  destruct (lookup_lt_is_Some_2 _ _ Hlt) as [e He]. rewrite He in E'. simplify_eq. unfold framed. simpl in *. split_and!; try done; try (by apply Hf); [by rewrite <- H|]. rewrite He. by rewrite <- H.
Qed.

Lemma placed_synced m m' a c : placed m m' a → synced m' (exec a (endpoint m') c).
Proof. intros [e ? -> Hs <-|? -> Hs|? -> Hs] ?; by rewrite Hs. Qed.

(** A move of the path re-establishes the invariant. *)
Lemma placed_inv m m' a :
  Forall (λ e, APIsValid e = true) (candidates m) → wanted m = true → started m = true →
  placed m m' a → framed m m' → (fromRelay m' = true → UseRelay (opts m) = true ∧ a = ActProbe) → Inv m'.
Proof.
  intros Hc Hw Hst Hp (Ho & Hca & Hst' & Hw' & _) Hr.
  destruct Hp as [e He -> Hs Hep|Hu -> Hs Hep Hf|Hu -> Hs Hep]; split;
    rewrite ?Hs, ?Hep, ?Hca, ?Ho, ?Hst', ?Hw'; try done; try (by intros [|]); try (by intros [? ?]%Hr);
    try congruence.
  - intros _. eapply Forall_lookup_1 in Hc; [|exact He]. done.
  - intros H%Hr. tauto.
Qed.

Definition passive (a : Action) : Prop := a = ActNone ∨ a = ActSink.

Lemma exec_passive a e e' c : passive a → exec a e c = exec a e' c.
Proof. by intros [-> | ->]. Qed.

(** The post-condition of every branch of the switch. *)
Definition settled (c : option cmd) (r : Machine * Action) : Prop :=
  Inv r.1 ∧ synced r.1 (exec r.2 (endpoint r.1) c).

Lemma settled_startRound now m c :
  Inv m → wanted m = true → started m = true → settled c (startRound now m).
Proof.
  intros HI Hw Hs. destruct (startRound now m) as [m' a] eqn:E.
  apply startRound_placed in E as (Hp & Hf & Hd & Hr & _). split.
  - eapply placed_inv; [apply HI|done..|]. simpl. by rewrite Hr.
  - by eapply placed_synced.
Qed.

(** Re-proves the invariant field by field after an assignment. *)
Ltac inv_fields HI :=
  let I1 := fresh "I" in let I2 := fresh "I" in let I3 := fresh "I" in let I4 := fresh "I" in
  let I5 := fresh "I" in let I6 := fresh "I" in let I7 := fresh "I" in let I8 := fresh "I" in
  let I9 := fresh "I" in
  destruct HI as [I1 I2 I3 I4 I5 I6 I7 I8 I9]; split; simpl in *; intros; try done;
  first [ congruence | by auto
        | match goal with H : fromRelay _ = true |- _ => destruct (I7 H) as [? [?|?]]; solve [auto|congruence] end
        | match goal with H : _ = _ ∨ _ = _ |- _ => destruct H; solve [auto|congruence] end ].

Lemma settled_learned m i c a :
  Inv m → started m = true → APIsValid (inEndpoint i) = true → settled c (set_path Direct (inEndpoint i) m, a).
Proof. intros HI Hs Hv. split; [|done]. inv_fields HI. Qed.

Lemma settled_same m c a : Inv m → synced m (exec a (endpoint m) c) → settled c (m, a).
Proof. by split. Qed.

Lemma step_idle_settled adv reach i a m c :
  Inv m → started m = true → synced m (exec a (endpoint m) c) → settled c (step_idle adv reach i a m).
Proof.
  intros HI Hs Hc. unfold step_idle, learned. destruct (adv && _) eqn:E1; go_bool.
  { by apply settled_learned. }
  destruct (wanted m && _) eqn:E2; [go_bool|by apply settled_same].
  by apply settled_startRound.
Qed.

Lemma step_probing_settled adv i a m c :
  Inv m → state m = Probing → started m = true → synced m (exec a (endpoint m) c) →
  settled c (step_probing adv i a m).
Proof.
  intros HI Hst Hs Hc. assert (wanted m = true) as Hw by (apply inv_wanted; rewrite ?Hst; done).
  unfold step_probing, learned. destruct (adv && APIsValid _) eqn:E1; go_bool.
  { by apply settled_learned. }
  destruct (adv && negb _) eqn:E2; go_bool.
  { split; [|done]. inv_fields HI. }
  destruct (Reach i && fromRelay m) eqn:E3; [by apply settled_startRound|].
  destruct (dirty m && _) eqn:E4; [by apply settled_startRound|].
  destruct (window_over m i && fromRelay m) eqn:E5; go_bool.
  { destruct (inv_fromRelay m HI) as [Hu _]; [done|]. split; [|done].
    inv_fields HI. }
  destruct (window_over m i) eqn:E6; [|by apply settled_same].
  assert (fromRelay m = false) as Hf by (destruct E5; congruence).
  destruct (probeNext _ _) as [m' a'] eqn:E. apply probeNext_placed in E as (Hp & Hfr & _ & _ & Hr & _).
  split; [|by eapply placed_synced].
  eapply (placed_inv (set_idx (S (idx m)) m) m' a'); [apply (inv_candidates m HI)|exact Hw|exact Hs|exact Hp|exact Hfr|].
  simpl in *. intros H%Hr. congruence.
Qed.

Lemma step_direct_settled adv i a m c :
  Inv m → state m = Direct → started m = true → settled c (step_direct adv i a m).
Proof.
  intros HI Hst Hs. unfold step_direct.
  set (m1 := if learned adv i then _ else m).
  assert (Inv m1 ∧ state m1 = Direct ∧ started m1 = true) as (HI1 & Hst1 & Hs1).
  { subst m1. unfold learned. destruct (adv && _) eqn:E; [|done]. go_bool. split; [|done].
    inv_fields HI. }
  destruct (stalled m1 i && wanted m1) eqn:E; go_bool; [by apply settled_startRound|].
  apply settled_same; [done|]. intros _. by rewrite Hst1.
Qed.

Lemma step_relay_settled adv reach i a m c :
  Inv m → state m = Relay → started m = true → synced m (exec a (endpoint m) c) →
  settled c (step_relay adv reach i a m).
Proof.
  intros HI Hst Hs Hc. assert (wanted m = true) as Hw by (apply inv_wanted; rewrite ?Hst; done).
  unfold step_relay, learned. destruct (adv && _) eqn:E1; go_bool.
  { by apply settled_learned. }
  destruct (dirty m && _) eqn:E2; [by apply settled_startRound|].
  destruct (reach && _) eqn:E3; [by apply settled_startRound|].
  destruct (has_candidates m && _) eqn:E4; go_bool; [|by apply settled_same].
  unfold has_candidates in *. go_bool.
  destruct (retryFromRelay _ _) as [m' a'] eqn:E.
  apply retryFromRelay_placed in E as (Hf & Hd & Hl & -> & Hp & Hcand); [|done|by apply (inv_relay m HI)].
  assert (placed m m' ActProbe) as Hpl by (by eapply placed_probe).
  split; [|by eapply placed_synced].
  eapply (placed_inv m m' ActProbe); [apply (inv_candidates m HI)|exact Hw|exact Hs|exact Hpl|exact Hf|].
  intros _. split; [|done]. by apply (inv_relay m HI).
Qed.

Lemma Step_settled m i c :
  Inv m → synced m c → settled c ((Step m i).1, outAction (Step m i).2).
Proof.
  intros HI Hc. unfold Step.
  set (a := if started m then ActNone else ActSink).
  set (m0 := note_handshake i (note_intent i (set_started true m))).
  assert (Inv m0 ∧ started m0 = true ∧ state m0 = state m ∧ endpoint m0 = endpoint m) as (HI0 & Hs0 & Hst0 & He0).
  { subst m0. unfold note_handshake, note_intent. destruct (Intent i || Reach i), (advances _ i); simpl;
      (split; [|done]); inv_fields HI. }
  assert (synced m0 (exec a (endpoint m0) c)) as Hc0.
  { subst a. intros _. rewrite Hst0, He0. destruct (started m) eqn:Es; [by apply Hc|].
    by rewrite (inv_started m HI Es). }
  assert (∀ adv reach, settled c (step_state adv reach i a m0)) as H.
  { intros. unfold step_state. destruct (state m0) eqn:E.
    - by apply step_idle_settled.
    - by apply step_probing_settled.
    - by apply step_direct_settled.
    - by apply step_relay_settled.
    - by apply step_idle_settled. }
  specialize (H (advances (note_intent i (set_started true m)) i) (reach_due (note_intent i (set_started true m)) i)).
  fold m0. destruct (step_state _ _ i a m0) as [m1 act]. destruct H as [H1 H2]. split; simpl in *; [|done].
  destruct H1. split; simpl in *; done.
Qed.

Lemma run_inv o ops :
  Forall op_ok ops → Inv (run o ops).1 ∧ synced (run o ops).1 (run o ops).2.
Proof.
  induction ops as [|op ops IH] using rev_ind; intros Hok.
  { split; [|done]. split; simpl; try done. by intros [|]. }
  apply Forall_app in Hok as [Hok [Hop _]%Forall_cons]. specialize (IH Hok) as [HI Hs].
  unfold run in *. rewrite foldl_app. simpl. destruct (foldl apply _ ops) as [m c]. simpl in *.
  destruct op as [i|now|on|l]; simpl.
  - pose proof (Step_settled m i c HI Hs) as [H1 H2]. destruct (Step m i) as [m' out] eqn:E. simpl in *.
    split; [done|]. replace (outEndpoint out) with (endpoint m'); [done|].
    unfold Step in E. destruct (step_state _ _ _ _ _). by simplify_eq.
  - unfold Hold. case_decide; [|done]. split; [|done]. destruct HI. by split.
  - split; [|done]. destruct HI. by split.
  - unfold SetCandidates. case_decide; [done|]. split; [|done].
    destruct HI. split; simpl in *; try done.
Qed.

(** *** What a step leaves alone *)

Lemma framed_refl m : framed m m.
Proof. done. Qed.

Lemma startRound_framed now m : framed m (startRound now m).1.
Proof. destruct (startRound now m) eqn:E. by apply startRound_placed in E as (_ & ? & _). Qed.

Lemma retryFromRelay_framed now m : framed m (retryFromRelay now m).1.
Proof.
  unfold retryFromRelay. destruct (probeNext _ _) eqn:E. by apply probeNext_placed in E as (_ & ? & _).
Qed.

Lemma probeNext_framed now m : framed m (probeNext now m).1.
Proof. destruct (probeNext now m) eqn:E. by apply probeNext_placed in E as (_ & ? & _). Qed.

Lemma step_state_framed adv reach i a m : framed m (step_state adv reach i a m).1.
Proof.
  pose proof (startRound_framed (Now i)) as H1. pose proof (retryFromRelay_framed (Now i)) as H2.
  pose proof (probeNext_framed (Now i) (set_idx (S (idx m)) m)) as H3.
  unfold step_state, step_idle, step_probing, step_direct, step_relay.
  destruct (state m); repeat case_match;
    first [done|apply H1|apply H2|apply H3|apply (H1 (set_endpoint (inEndpoint i) m))].
Qed.

(** [m] with the flags of [Step]'s prologue. *)
Definition noted (i : Input) (m : Machine) : Machine := note_handshake i (note_intent i (set_started true m)).

Lemma noted_fields i m :
  opts (noted i m) = opts m ∧ candidates (noted i m) = candidates m ∧ state (noted i m) = state m ∧
  started (noted i m) = true ∧ wanted (noted i m) = wanted m || (Intent i || Reach i) ∧
  handshake (noted i m) = handshake m `max` inHandshake i ∧ idx (noted i m) = idx m ∧
  fromRelay (noted i m) = fromRelay m ∧ dirty (noted i m) = dirty m ∧ lastRound (noted i m) = lastRound m ∧
  endpoint (noted i m) = endpoint m ∧ window (noted i m) = window m ∧
  windowStart (noted i m) = windowStart m ∧ lastProbe (noted i m) = lastProbe m ∧
  rx (noted i m) = rx m ∧ tx (noted i m) = tx m.
Proof.
  unfold noted, note_handshake, note_intent, advances.
  destruct (Intent i || Reach i) eqn:E1; simpl.
  - destruct (handshake m <? inHandshake i) eqn:E2; go_bool; simpl; split_and!; try done; try lia; by rewrite orb_true_r.
  - destruct (handshake m <? inHandshake i) eqn:E2; go_bool; simpl; split_and!; try done; try lia; by rewrite orb_false_r.
Qed.

Lemma noted_lag i m : lag (noted i m) = lag m.
Proof. unfold noted, note_handshake, note_intent. by repeat case_match. Qed.

(** [Step] in terms of [step_state]. *)
Definition first_action (m : Machine) : Action := if started m then ActNone else ActSink.

Lemma Step_eq m i :
  let r := step_state (handshake m <? inHandshake i)
    (Reach i && ((lastRound m =? 0) || (Z.quot (RetryAfter (opts m)) 2 <=? Sub (Now i) (lastRound m))))
    i (first_action m) (noted i m) in
  (Step m i).1 = set_tx (Tx i) (set_rx (Rx i) r.1) ∧ outAction (Step m i).2 = r.2 ∧
  outState (Step m i).2 = state r.1 ∧ outEndpoint (Step m i).2 = endpoint r.1.
Proof.
  assert (advances (note_intent i (set_started true m)) i = (handshake m <? inHandshake i)) as Ha.
  { unfold advances, note_intent. by destruct (Intent i || Reach i). }
  assert (reach_due (note_intent i (set_started true m)) i =
    (Reach i && ((lastRound m =? 0) || (Z.quot (RetryAfter (opts m)) 2 <=? Sub (Now i) (lastRound m))))) as Hr.
  { unfold reach_due, note_intent. by destruct (Intent i || Reach i). }
  unfold Step, noted, first_action. rewrite Ha, Hr. by destruct (step_state _ _ _ _ _).
Qed.

Lemma Step_wanted m i : wanted (Step m i).1 = wanted m || (Intent i || Reach i).
Proof.
  destruct (Step_eq m i) as [-> _]. simpl.
  destruct (step_state_framed (handshake m <? inHandshake i) (Reach i && ((lastRound m =? 0) ||
    (Z.quot (RetryAfter (opts m)) 2 <=? Sub (Now i) (lastRound m)))) i (first_action m) (noted i m))
    as (_ & _ & _ & -> & _). apply noted_fields.
Qed.

Lemma run_snoc o ops op : run o (ops ++ [op]) = apply (run o ops) op.
Proof. unfold run. by rewrite foldl_app. Qed.

Lemma run_wanted o ops :
  wanted (run o ops).1 = true → ∃ i, OpStep i ∈ ops ∧ (Intent i = true ∨ Reach i = true).
Proof.
  induction ops as [|op ops IH] using rev_ind; [done|]. rewrite run_snoc. intros H.
  setoid_rewrite elem_of_app. setoid_rewrite list_elem_of_singleton.
  assert (wanted (run o ops).1 = true ∨ ∃ i, op = OpStep i ∧ (Intent i = true ∨ Reach i = true)) as [Hw|(i & -> & Hi)].
  { destruct op as [i|now|on|l]; simpl in H.
    - destruct (Step (run o ops).1 i) as [m' out] eqn:E. simpl in H.
      replace m' with (Step (run o ops).1 i).1 in H by by rewrite E.
      rewrite Step_wanted in H. go_bool. destruct H as [?|H]; [by left|right; go_bool; eauto].
    - left. unfold Hold in H. by case_decide.
    - by left.
    - left. unfold SetCandidates in H. by case_decide. }
  - destruct (IH Hw) as (i & ? & ?). eauto.
  - eauto.
Qed.

(** No step that ends in a direct path gives a command, but for the first. *)
Lemma startRound_not_direct now m : state (startRound now m).1 ≠ Direct.
Proof.
  destruct (startRound now m) as [m' a] eqn:E. apply startRound_placed in E as (Hp & _). simpl.
  destruct Hp as [? _ _ ->|_ _ ->|_ _ ->]; done.
Qed.

Lemma probeNext_not_direct now m : state (probeNext now m).1 ≠ Direct.
Proof.
  destruct (probeNext now m) as [m' a] eqn:E. apply probeNext_placed in E as (Hp & _). simpl.
  destruct Hp as [? _ _ ->|_ _ ->|_ _ ->]; done.
Qed.

Lemma retryFromRelay_not_direct now m : state (retryFromRelay now m).1 ≠ Direct.
Proof.
  unfold retryFromRelay. destruct (probeNext _ _) as [m1 a1] eqn:E. simpl.
  match type of E with probeNext _ ?x = _ => pose proof (probeNext_not_direct now x) as H end.
  by rewrite E in H.
Qed.

Lemma step_state_direct adv reach i a m :
  state (step_state adv reach i a m).1 = Direct →
  (step_state adv reach i a m).2 = a ∧
  endpoint (step_state adv reach i a m).1 = if learned adv i then inEndpoint i else endpoint m.
Proof.
  pose proof (startRound_not_direct (Now i)) as H1. pose proof (retryFromRelay_not_direct (Now i)) as H2.
  pose proof (probeNext_not_direct (Now i)) as H3.
  unfold step_state, step_idle, step_probing, step_direct, step_relay.
  destruct (state m) eqn:Es, (learned adv i); cbn [fst snd]; repeat case_match; cbn; first [done|congruence|by intros ?%H1|by intros ?%H2|by intros ?%H3].
Qed.

Lemma Step_direct m i :
  state (Step m i).1 = Direct →
  outAction (Step m i).2 = first_action m ∧
  endpoint (Step m i).1 = if learned (handshake m <? inHandshake i) i then inEndpoint i else endpoint m.
Proof.
  destruct (Step_eq m i) as (-> & -> & _). destruct (noted_fields i m) as (_ & _ & _ & _ & _ & _ & _ & _ & _ & _ & <- & _). cbn. apply step_state_direct.
Qed.

(** Where the last command of a direct path comes from: the calls before it
    became direct. *)
Definition became_direct (o : Options) (ops : list op) (c : option cmd) : Prop :=
  ∃ ops1 i ops2, ops = ops1 ++ OpStep i :: ops2 ∧ state (run o ops1).1 ≠ Direct ∧
    (∀ l, l `prefix_of` ops2 → state (run o (ops1 ++ OpStep i :: l)).1 = Direct) ∧
    c = if started (run o ops1).1 then (run o ops1).2 else Some CmdSink.

Lemma direct_since o ops :
  Forall op_ok ops → state (run o ops).1 = Direct → became_direct o ops (run o ops).2.
Proof.
  induction ops as [|op ops IH] using rev_ind; intros Hok Hd; [done|]. apply Forall_app in Hok as [Hok _].
  destruct (run_inv o ops Hok) as [HI _]. pose proof Hd as Hd'. rewrite run_snoc in Hd |- *. destruct (decide (state (run o ops).1 = Direct)) as [E|E].
  - assert ((apply (run o ops) op).2 = (run o ops).2) as ->.
    { destruct op as [i| | |]; [|done..]. cbn in Hd |- *. pose proof (Step_direct (run o ops).1 i) as Hs.
      destruct (Step _ i) as [m' out]. cbn in *. destruct (Hs Hd) as [-> _]. unfold first_action.
      destruct (started (run o ops).1) eqn:Es; [done|]. by rewrite (inv_started _ HI Es) in E. }
    destruct (IH Hok E) as (ops1 & i & ops2 & -> & Hn & Hall & Hc). exists ops1, i, (ops2 ++ [op]). split_and!; [by rewrite <- app_assoc|done| |done].
    intros l [k Hk]. destruct k as [|x k _] using rev_ind.
    + rewrite app_nil_r in Hk. subst l. by rewrite app_comm_cons, app_assoc.
    + rewrite app_assoc in Hk. apply app_inj_tail in Hk as [-> _]. apply Hall. by exists k.
  - destruct op as [i|now|on|l]; cbn in Hd |- *.
    + pose proof (Step_direct (run o ops).1 i) as Hs. exists ops, i, []. split_and!; [done|done| |].
      * intros l ->%prefix_nil_inv. exact Hd'.
      * destruct (Step _ i) as [m' out]. cbn in *. destruct (Hs Hd) as [-> _]. unfold first_action. by destruct (started _).
    + unfold Hold in Hd. by case_decide.
    + done.
    + unfold SetCandidates in Hd. by case_decide.
Qed.

(** A machine that was stepped has given a command. *)
Lemma run_commanded o ops : Forall op_ok ops → started (run o ops).1 = true → is_Some (run o ops).2.
Proof.
  assert (∀ l, Forall op_ok l → started (run o l).1 = true → state (run o l).1 ≠ Direct → is_Some (run o l).2) as Hother.
  { intros l Hl Hs Hd. destruct (run_inv o l Hl) as [_ Hy]. specialize (Hy Hs). destruct (state (run o l).1); first [done|by rewrite Hy|by destruct Hy as [-> _]]. }
  intros Hok Hs. destruct (decide (state (run o ops).1 = Direct)) as [Hd|Hd]; [|by apply Hother].
  destruct (direct_since o ops Hok Hd) as (ops1 & i & ops2 & -> & Hn & _ & ->). apply Forall_app in Hok as [Hok _].
  destruct (started (run o ops1).1) eqn:E; [by apply Hother|done].
Qed.

(** C21: the device follows the machine.  After any calls that included a
    step, the last command given is the one the state stands for: the sink
    while idle or unreachable, the endpoint being tried while probing (always
    a valid address, and the current candidate unless the list just changed),
    the relay proxy in relay.  A direct path is left to WireGuard: the last
    command is still the one given before the step that made it direct, and
    none was given by that step or since; but a machine that becomes direct in
    its very first step gives the sink in that step. *)
Theorem commands_follow_state (o : Options) (ops : list op) :
  Forall op_ok ops →
  let (m, c) := run o ops in
  started m = true →
  match state m with
  | Idle | Unreachable => c = Some CmdSink ∧ endpoint m = NoAddrPort
  | Probing => c = Some (CmdAt (endpoint m)) ∧ APIsValid (endpoint m) = true ∧
               (dirty m = false → candidates m !! idx m = Some (endpoint m))
  | Relay => c = Some CmdRelay ∧ endpoint m = NoAddrPort
  | Direct => APIsValid (endpoint m) = true ∧ became_direct o ops c
  end.
Proof.
  intros Hok. pose proof (run_inv o ops Hok) as [HI Hs]. pose proof (direct_since o ops Hok) as Hd. destruct (run o ops) as [m c]. simpl in *.
  intros Hst. specialize (Hs Hst). destruct HI as [_ H2 H3 H4 _ _ _ _ _]. destruct (state m); auto 10.
Qed.

(** Nothing is probed, relayed or given up before traffic intent; only a
    machine configured with a relay ends there, only one without becomes
    unreachable; the single retry from the relay happens only with a relay. *)
Theorem states_are_configured (o : Options) (ops : list op) :
  Forall op_ok ops →
  let m := (run o ops).1 in
  (state m = Probing ∨ state m = Relay ∨ state m = Unreachable →
     ∃ i, OpStep i ∈ ops ∧ (Intent i = true ∨ Reach i = true)) ∧
  (state m = Relay → UseRelay o = true) ∧
  (state m = Unreachable → UseRelay o = false) ∧
  (fromRelay m = true → UseRelay o = true).
Proof.
  intros Hok m. pose proof (run_inv o ops Hok) as [HI _]. fold m in HI.
  assert (opts m = withDefaults o) as Ho.
  { subst m. clear. induction ops as [|op ops IH] using rev_ind; [done|]. rewrite run_snoc.
    destruct op as [i|now|on|l]; simpl.
    - destruct (Step (run o ops).1 i) as [m' out] eqn:E. simpl.
      replace m' with (Step (run o ops).1 i).1 by by rewrite E.
      destruct (Step_eq (run o ops).1 i) as [-> _]. simpl. etrans; [apply step_state_framed|].
      etrans; [apply noted_fields|done].
    - unfold Hold. by case_decide.
    - done.
    - unfold SetCandidates. by case_decide. }
  assert (UseRelay (opts m) = UseRelay o) as Hu by by rewrite Ho.
  destruct HI as [_ _ _ _ H5 H6 H7 H8 _]. rewrite Hu in *. split_and!; try done.
  - intros Hs. apply (run_wanted o ops), H8; by destruct Hs as [E|[E|E]]; rewrite E.
  - intros H. by apply H7.
Qed.

(** *** Direct paths *)

Lemma step_idle_direct adv reach i a m :
  state m ≠ Direct → state (step_idle adv reach i a m).1 = Direct ↔ learned adv i = true.
Proof.
  intros Hs. pose proof (startRound_not_direct (Now i) m). unfold step_idle.
  destruct (learned adv i); [done|]. by destruct (wanted m && _).
Qed.

Lemma step_probing_direct adv i a m :
  state m = Probing →
  state (step_probing adv i a m).1 = Direct ↔ learned adv i = true ∨ adv = true ∧ fromRelay m = false.
Proof.
  intros Hs. pose proof (startRound_not_direct (Now i) m) as S1.
  pose proof (probeNext_not_direct (Now i) (set_idx (S (idx m)) m)) as S2.
  unfold step_probing. destruct (learned adv i); [split; by auto|].
  destruct (adv && negb (fromRelay m)) eqn:E; go_bool; [split; by auto|].
  assert (¬ (false = true ∨ adv = true ∧ fromRelay m = false)) as Hn.
  { intros [?|[-> Hf]]; [done|]. rewrite Hf in E. by destruct E. }
  split; [|by intros ?%Hn]. intros HD. exfalso. revert HD.
  repeat case_match; try done. simpl. by rewrite Hs.
Qed.

Lemma step_relay_direct adv reach i a m :
  state m = Relay → state (step_relay adv reach i a m).1 = Direct ↔ learned adv i = true.
Proof.
  intros Hs. pose proof (startRound_not_direct (Now i) m).
  pose proof (retryFromRelay_not_direct (Now i) m). unfold step_relay.
  destruct (learned adv i); [done|]. repeat case_match; try done. simpl. by rewrite Hs.
Qed.

(** A path becomes direct exactly when the handshake time advanced and
    either the device reports the peer's address or the candidate of a full
    round is being tried; a direct path is given up exactly when it is wanted
    and stalled (no handshake for longer than StallAfter while traffic was
    sent and none received). *)
Theorem direct_iff_handshake (m : Machine) (i : Input) :
  (state m ≠ Direct →
     state (Step m i).1 = Direct ↔
     handshake m < inHandshake i ∧
     (APIsValid (inEndpoint i) = true ∨ state m = Probing ∧ fromRelay m = false)) ∧
  (state m = Direct →
     state (Step m i).1 ≠ Direct ↔
     (wanted m = true ∨ Intent i = true ∨ Reach i = true) ∧
     let h := handshake m `max` inHandshake i in
     h ≠ 0 ∧ StallAfter (opts m) < Sub (Now i) h ∧ tx m < Tx i ∧ Rx i = rx m).
Proof.
  destruct (Step_eq m i) as [-> _]. simpl.
  destruct (noted_fields i m) as (Ho & _ & Hst & _ & Hw & Hh & _ & Hr & _ & _ & _ & _ & _ & _ & Hrx & Htx).
  pose proof (startRound_not_direct (Now i)) as S1.
  set (reach := Reach i && _). unfold step_state. rewrite Hst. split.
  - intros Hd. rewrite <- Z.ltb_lt. destruct (state m) eqn:Es; try done.
    + rewrite step_idle_direct by by rewrite Hst. unfold learned. rewrite andb_true_iff. naive_solver.
    + rewrite step_probing_direct by done. unfold learned. rewrite andb_true_iff, Hr. naive_solver.
    + rewrite step_relay_direct by done. unfold learned. rewrite andb_true_iff. naive_solver.
    + rewrite step_idle_direct by by rewrite Hst. unfold learned. rewrite andb_true_iff. naive_solver.
  - intros Hd. rewrite Hd. unfold step_direct.
    set (n := if learned _ i then _ else noted i m).
    assert (state n = Direct ∧ wanted n = wanted (noted i m) ∧ stalled n i = stalled (noted i m) i) as (Hn & Hnw & ->).
    { subst n. destruct (learned _ i); simpl; (split_and!; [congruence|done..]). }
    rewrite Hnw, Hw. unfold stalled. rewrite Ho, Hh, Hrx, Htx.
    match goal with |- context [if ?b then startRound _ _ else _] => destruct b eqn:E end.
    + split; [|intros _; apply S1]. intros _. go_bool. split; [|cbv zeta; split_and!; first [done|lia]].
      match goal with H : _ = true ∨ _ = true |- _ => destruct H; go_bool; auto end.
    + simpl. split; [by intros []|]. intros (H1 & H2 & H3 & H4 & H5). exfalso.
      rewrite (proj2 (Z.eqb_neq _ _) H2), (proj2 (Z.ltb_lt _ _) H3), (proj2 (Z.ltb_lt _ _) H4),
        (proj2 (Z.eqb_eq _ _) H5) in E. simpl in E. apply orb_false_iff in E as [E1 E2].
      apply orb_false_iff in E2 as [E2 E3]. destruct H1 as [?|[?|?]]; congruence.
Qed.

(** A probe is sent from the probing state only. *)
Lemma probeNext_probe now m : (probeNext now m).2 = ActProbe → state (probeNext now m).1 = Probing.
Proof.
  destruct (probeNext now m) as [m' a] eqn:E. apply probeNext_placed in E as (Hp & _). simpl. by destruct Hp as [? _ _ -> | _ -> | _ ->].
Qed.

Lemma startRound_probe now m : (startRound now m).2 = ActProbe → state (startRound now m).1 = Probing.
Proof.
  destruct (startRound now m) as [m' a] eqn:E. apply startRound_placed in E as (Hp & _). simpl. by destruct Hp as [? _ _ -> | _ -> | _ ->].
Qed.

Lemma retryFromRelay_probe now m : (retryFromRelay now m).2 = ActProbe → state (retryFromRelay now m).1 = Probing.
Proof.
  unfold retryFromRelay. destruct (probeNext _ _) as [m1 a1] eqn:E. simpl. match type of E with probeNext _ ?x = _ => pose proof (probeNext_probe now x) as H end.
  by rewrite E in H.
Qed.

Lemma Step_probe m i : outAction (Step m i).2 = ActProbe → state (Step m i).1 = Probing ∧ outEndpoint (Step m i).2 = endpoint (Step m i).1.
Proof.
  destruct (Step_eq m i) as (-> & -> & _ & ->). simpl. set (r := step_state _ _ _ _ _). intros H. split; [|done]. revert H. subst r.
  assert (first_action m ≠ ActProbe) as Ha by (unfold first_action; by destruct (started m)).
  pose proof (probeNext_probe (Now i)) as H1. pose proof (startRound_probe (Now i)) as H2. pose proof (retryFromRelay_probe (Now i)) as H3.
  unfold step_state, step_idle, step_probing, step_direct, step_relay. repeat (case_match; try done; auto).
Qed.

(** *** A round of probes *)

Fixpoint steps (m : Machine) (ins : list Input) : Machine * list Output :=
  match ins with
  | [] => (m, [])
  | i :: ins' => let '(m1, o) := Step m i in let '(m2, os) := steps m1 ins' in (m2, o :: os)
  end.

(** Each step comes once the current window is over: [w] after [start] for the
    first, a probe window after the previous one for the others. *)
Fixpoint paced (w pw start : Z) (ins : list Input) : Prop :=
  match ins with
  | [] => True
  | i :: ins' => w <= Sub (Now i) start ∧ paced pw pw (Now i) ins'
  end.

(** Probing in a full round over an unchanged candidate list. *)
Definition in_round (m : Machine) : Prop :=
  state m = Probing ∧ started m = true ∧ fromRelay m = false ∧ dirty m = false.

Definition exhausted (m : Machine) : State * Action :=
  if UseRelay (opts m) then (Relay, ActRelay) else (Unreachable, ActSink).

(** A step without a handshake, before and after the window ends. *)
Lemma quiet_step m i :
  in_round m → inHandshake i <= handshake m →
  let r := Step m i in
  candidates r.1 = candidates m ∧ opts r.1 = opts m ∧ handshake r.1 = handshake m ∧
  (Sub (Now i) (windowStart m) < window m →
     in_round r.1 ∧ idx r.1 = idx m ∧ endpoint r.1 = endpoint m ∧ outAction r.2 = ActNone) ∧
  (window m <= Sub (Now i) (windowStart m) →
     outState r.2 = state r.1 ∧ outEndpoint r.2 = endpoint r.1 ∧
     match candidates m !! S (idx m) with
     | Some e => in_round r.1 ∧ idx r.1 = S (idx m) ∧ endpoint r.1 = e ∧ outAction r.2 = ActProbe ∧
                 windowStart r.1 = Now i ∧ window r.1 = ProbeWindow (opts m)
     | None => (state r.1, outAction r.2) = exhausted m ∧ endpoint r.1 = NoAddrPort
     end).
Proof.
  intros (Hst & Hs & Hf & Hd) Hq. cbv zeta. destruct (Step_eq m i) as (-> & -> & -> & ->).
  destruct (noted_fields i m) as (Ho & Hc & Hst' & Hs' & _ & Hh & Hi & Hr & Hdi & _ & He & Hw & Hws & _).
  rewrite (proj2 (Z.ltb_ge _ _) Hq). rewrite Z.max_l in Hh by done.
  unfold step_state. rewrite Hst', Hst. unfold step_probing, learned. simpl.
  rewrite Hr, Hf, Hdi, Hd, andb_false_r. simpl. unfold window_over. rewrite Hw, Hws, andb_false_r.
  unfold first_action. rewrite Hs.
  destruct (window m <=? Sub (Now i) (windowStart m)) eqn:E; go_bool; simpl.
  - destruct (probeNext _ _) as [m' a] eqn:Ep. pose proof Ep as Ep'.
    apply probeNext_placed in Ep' as (_ & (Fo & Fc & Fs & _ & _ & Fh & _) & Fi & Fd & Fr & _). simpl in *.
    split_and!; try congruence; [lia|]. intros _. split_and!; [done..|].
    unfold probeNext in Ep. simpl in Ep. rewrite Hi, Hc, Ho in Ep. destruct (candidates m !! S (idx m)) as [e|].
    + simplify_eq. unfold in_round. simpl. split_and!; congruence.
    + unfold exhausted. revert Ep. unfold useRelay. destruct (UseRelay (opts m)); intros; by simplify_eq.
  - split_and!; try congruence; [|lia]. intros _. unfold in_round. simpl. split_and!; congruence.
Qed.

(** In a round, the steps before and after the windows' ends. *)
Lemma round_steps (m : Machine) :
  in_round m → (idx m < length (candidates m))%nat →
  (∀ i, inHandshake i <= handshake m → Sub (Now i) (windowStart m) < window m →
     let r := Step m i in
     in_round r.1 ∧ candidates r.1 = candidates m ∧ idx r.1 = idx m ∧ endpoint r.1 = endpoint m ∧
     outAction r.2 = ActNone) ∧
  (∀ ins, Forall (λ i, inHandshake i <= handshake m) ins →
     paced (window m) (ProbeWindow (opts m)) (windowStart m) ins →
     length ins = (length (candidates m) - idx m)%nat →
     let r := steps m ins in
     outEndpoint <$> filter (λ o, outAction o = ActProbe) r.2 = drop (S (idx m)) (candidates m) ∧
     (state r.1, outAction <$> last r.2) = ((exhausted m).1, Some (exhausted m).2)).
Proof.
  intros Hm Hidx. split.
  { intros i Hq Hw. destruct (quiet_step m i Hm Hq) as (Hc & _ & _ & H & _).
    specialize (H Hw) as (?&?&?&?). done. }
  intros ins. revert m Hm Hidx. induction ins as [|i ins IH]; intros m Hm Hidx Hq Hp Hl; [simpl in Hl; lia|].
  apply Forall_cons in Hq as [Hqi Hq]. destruct Hp as [Hw Hp].
  pose proof (quiet_step m i Hm Hqi) as (Hc & Ho & Hh & _ & H). specialize (H Hw) as (Hos & Hoe & H).
  simpl. destruct (Step m i) as [m1 o]. simpl in *.
  destruct (candidates m !! S (idx m)) as [e|] eqn:E.
  - destruct H as (Hm1 & Hi1 & He1 & Ha & Hws & Hwin).
    assert (S (idx m) < length (candidates m))%nat as Hlt by by eapply lookup_lt_Some.
    specialize (IH m1 Hm1). rewrite Hc, Hi1, Ho, Hh, Hws, Hwin in IH.
    specialize (IH Hlt Hq Hp ltac:(lia)) as [IH1 IH2].
    destruct (steps m1 ins) as [m2 os]. cbn [fst snd] in *. rewrite filter_cons_True, fmap_cons by done.
    rewrite Hoe, He1. split.
    + rewrite IH1. symmetry. by apply drop_S.
    + assert (exhausted m1 = exhausted m) as Hex by (unfold exhausted; by rewrite Ho).
      rewrite Hex in IH2. destruct os as [|o' os]; [by simplify_eq|]. done.
  - destruct H as [Hx _]. apply lookup_ge_None in E. assert (ins = []) as -> by (destruct ins; [done|simpl in Hl; lia]).
    simpl. rewrite drop_ge by done. assert (outAction o ≠ ActProbe).
    { unfold exhausted in Hx. destruct (UseRelay _); congruence. }
    rewrite filter_cons_False, filter_nil by done. split; [done|]. destruct (exhausted m). by simplify_eq/=.
Qed.

(** A round that begins with the step [i]: the first candidate is probed, in a
    window of [ProbeWindow], longer by the stagger. *)
Definition first_probe (i : Input) (m m' : Machine) : Prop :=
  in_round m' ∧ candidates m' = candidates m ∧ opts m' = opts m ∧ idx m' = 0%nat ∧ candidates m !! 0%nat = Some (endpoint m') ∧
  windowStart m' = Now i ∧ window m' = i64 (ProbeWindow (opts m) + lag m).

Lemma startRound_begins i m m' :
  started m = true → startRound (Now i) m = (m', ActProbe) → first_probe i m m'.
Proof.
  intros Hs. unfold startRound, probeNext, useRelay. cbn. destruct (candidates m) as [|e l] eqn:E; cbn; [by destruct (UseRelay _)|].
  intros [= <-]. unfold first_probe, in_round. cbn. by rewrite E.
Qed.

(** A step that probes, other than the single retry from the relay, begins a
    round or tries the next candidate of the one it is in. *)
Lemma step_state_probes adv reach i a m :
  started m = true → a ≠ ActProbe → let r := step_state adv reach i a m in
  r.2 = ActProbe → fromRelay r.1 = false →
  first_probe i m r.1 ∨ state m = Probing ∧ idx r.1 = S (idx m) ∧ candidates m !! S (idx m) = Some (endpoint r.1).
Proof.
  intros Hs Ha r. subst r.
  unfold step_state, step_idle, step_probing, step_direct, step_relay.
  assert (∀ m1, m1 = m ∨ m1 = set_endpoint (inEndpoint i) m → (startRound (Now i) m1).2 = ActProbe → first_probe i m (startRound (Now i) m1).1) as H1.
  { intros m1 Hm1 Hp. assert (started m1 = true) as Hs1 by (destruct Hm1 as [-> | ->]; done).
    pose proof (startRound_begins i m1 (startRound (Now i) m1).1 Hs1) as H. rewrite <- Hp in H. destruct (startRound (Now i) m1) as [m' a']. cbn in *.
    destruct Hm1 as [-> | ->]; by apply H. }
  destruct (state m) eqn:Es; repeat (case_match; cbn [fst snd] in * ); try done; intros Hp Hf; try (left; apply H1; by auto).
  - revert Hp Hf. unfold probeNext, useRelay. cbn. destruct (candidates m !! S (idx m)) eqn:E; [by right|]. by case_match.
  - revert Hp Hf. unfold retryFromRelay, probeNext, useRelay. cbn. repeat (case_match; simplify_eq/=); done.
Qed.

(** C38: a probe round tries its candidates in order and then gives up.  A
    step that probes, the single retry from the relay apart, begins a round
    with the first candidate of the list or, in a round, tries the one after the
    current.  In a round over an unchanged list and without a handshake, a step
    before the current window ends changes nothing, and steps that come once per
    window probe exactly the remaining candidates, in the order of the list,
    and the step after the last one ends the round in the relay state when one is
    configured, unreachable otherwise: so from its beginning a round probes
    every candidate of the list, once each. *)
Theorem probe_round (m : Machine) :
  (∀ i, let r := Step m i in outAction r.2 = ActProbe → fromRelay r.1 = false →
     first_probe i m r.1 ∨ state m = Probing ∧ idx r.1 = S (idx m) ∧ candidates m !! S (idx m) = Some (endpoint r.1)) ∧
  (in_round m → (idx m < length (candidates m))%nat →
   (∀ i, inHandshake i <= handshake m → Sub (Now i) (windowStart m) < window m →
     let r := Step m i in
     in_round r.1 ∧ candidates r.1 = candidates m ∧ idx r.1 = idx m ∧ endpoint r.1 = endpoint m ∧
     outAction r.2 = ActNone) ∧
   (∀ ins, Forall (λ i, inHandshake i <= handshake m) ins →
     paced (window m) (ProbeWindow (opts m)) (windowStart m) ins →
     length ins = (length (candidates m) - idx m)%nat →
     let r := steps m ins in
     outEndpoint <$> filter (λ o, outAction o = ActProbe) r.2 = drop (S (idx m)) (candidates m) ∧
     (state r.1, outAction <$> last r.2) = ((exhausted m).1, Some (exhausted m).2))) ∧
  (∀ i ins, let m' := (Step m i).1 in first_probe i m m' →
     Forall (λ j, inHandshake j <= handshake m') ins →
     paced (i64 (ProbeWindow (opts m) + lag m)) (ProbeWindow (opts m)) (Now i) ins → length ins = length (candidates m) →
     let r := steps m' ins in
     endpoint m' :: (outEndpoint <$> filter (λ o, outAction o = ActProbe) r.2) = candidates m ∧
     (state r.1, outAction <$> last r.2) = ((exhausted m).1, Some (exhausted m).2)).
Proof.
  split_and!; [|by apply round_steps|].
  - intros i. cbv zeta. destruct (Step_eq m i) as (-> & -> & _ & _). destruct (noted_fields i m) as (Ho & Hc & Hst & Hs & _ & _ & Hi & _).
    intros Hp Hf. destruct (step_state_probes (handshake m <? inHandshake i) (Reach i && ((lastRound m =? 0) || (Z.quot (RetryAfter (opts m)) 2 <=? Sub (Now i) (lastRound m))))
      i (first_action m) (noted i m)) as [H|H]; [done|unfold first_action; by destruct (started m)|done|done| |].
    + left. destruct H as (Hr & H2 & H3 & H4 & H5 & H6 & H7). rewrite Hc in H2, H5. rewrite Ho in H3, H7. rewrite noted_lag in H7. unfold first_probe, in_round in *. cbn. destruct Hr as (? & ? & ? & ?). by split_and!.
    + right. by rewrite Hc, Hst, Hi in H.
  - intros i ins m' (Hr & Hc & Ho & Hi & He & Hws & Hw) Hq Hp Hl. assert (idx m' < length (candidates m'))%nat as Hlt by (rewrite Hi, Hc; by eapply lookup_lt_Some).
    destruct (round_steps m' Hr Hlt) as [_ H]. rewrite Hi, Hc, Ho, Hws, Hw, Nat.sub_0_r in H. destruct (H ins Hq Hp Hl) as [H1 H2].
    assert (exhausted m' = exhausted m) as Hex by (unfold exhausted; by rewrite Ho). rewrite Hex in H2. split; [|done]. rewrite H1. by rewrite <- (drop_S _ _ 0 He).
Qed.

(** *** How often rounds begin *)

(** The step begins a full round: it probes the first candidate, not as the
    single retry from the relay. *)
Definition begins_round (m : Machine) (i : Input) : bool :=
  bool_decide (outAction (Step m i).2 = ActProbe) && (idx (Step m i).1 =? 0)%nat
  && negb (fromRelay (Step m i).1).

Fixpoint round_times (m : Machine) (ins : list Input) : list Z :=
  match ins with
  | [] => []
  | i :: ins' => (if begins_round m i then [Now i] else []) ++ round_times (Step m i).1 ins'
  end.

Section Pacing.
Context (RA : Z) (RA_pos : 0 < RA).

(** [prev] is when the last full round began, [now] the time of the last step. *)
Record paced_inv (m : Machine) (now : Z) (prev : option Z) : Prop := {
  pi_retry : RetryAfter (opts m) = RA;
  pi_handshake : handshake m = 0;
  pi_state : state m ≠ Direct;
  pi_dirty : dirty m = true → state m = Idle;
  pi_idle : state m = Idle → prev = None;
  pi_fromRelay : fromRelay m = true → state m = Probing;
  pi_now : lastRound m <= now;
  pi_prev : ∀ t, prev = Some t → 0 < t <= lastRound m ∧ (fromRelay m = true → t + RA <= lastRound m);
}.

(** The outcome of one step: a new round no sooner than half of [RA], or none. *)
Definition paced_step (prev : option Z) (now : Z) (r : Machine * Action) : Prop :=
  let begins := bool_decide (r.2 = ActProbe) && (idx r.1 =? 0)%nat && negb (fromRelay r.1) in
  if begins then (∀ t, prev = Some t → t + RA / 2 <= now) ∧ paced_inv r.1 now (Some now)
  else paced_inv r.1 now prev.

Lemma half_RA : 0 <= RA / 2 <= RA.
Proof. split; [apply Z.div_pos; lia|apply Z.div_le_upper_bound; lia]. Qed.

Lemma paced_startRound now0 now m prev :
  paced_inv m now0 prev → now0 <= now → 0 < now →
  (∀ t, prev = Some t → t + RA / 2 <= now) → paced_step prev now (startRound now m).
Proof.
  intros [] Hle Hpos Hgap. destruct (startRound now m) as [m' a] eqn:E.
  apply startRound_placed in E as (Hp & (Fo & _ & _ & _ & _ & Fh & _) & Hd & Hf & Hl & Hi).
  assert (∀ prev', (∀ t, prev' = Some t → 0 < t <= now) → paced_inv m' now prev') as HJ.
  { intros prev' Hp'. split; rewrite ?Fo, ?Fh, ?Hd, ?Hf, ?Hl; try done; [by destruct Hp as [? _ _ ->|_ _ ->|_ _ ->]..| |].
    - destruct Hp as [? _ _ ->|_ _ ->|_ _ ->]; done.
    - intros t Ht. split; [by apply Hp'|done]. }
  unfold paced_step. simpl. rewrite Hf, Hi. simpl.
  destruct (bool_decide (a = ActProbe)); simpl.
  - split; [done|]. apply HJ. intros t [= <-]. lia.
  - apply HJ. intros t Ht. pose proof half_RA. destruct (pi_prev0 t Ht). specialize (Hgap t Ht). lia.
Qed.

Lemma paced_same now0 now m m' prev a :
  paced_inv m now0 prev → now0 <= now → passive a →
  opts m' = opts m → handshake m' = handshake m → lastRound m' = lastRound m → dirty m' = dirty m →
  state m' = state m → fromRelay m' = fromRelay m → paced_step prev now (m', a).
Proof.
  intros [] Hle Ha Ho Hh Hl Hd Hs Hf. unfold paced_step. simpl.
  rewrite bool_decide_false by (by destruct Ha as [-> | ->]). simpl.
  split; rewrite ?Ho, ?Hh, ?Hl, ?Hd, ?Hs, ?Hf; try done. lia.
Qed.

Lemma paced_step_state now0 m i prev reach a :
  paced_inv m now0 prev → now0 <= Now i → 0 < Now i → passive a →
  (reach = true → lastRound m = 0 ∨ RA / 2 <= Sub (Now i) (lastRound m)) →
  paced_step prev (Now i) (step_state false reach i a m).
Proof.
  intros HJ Hle Hpos Ha Hreach. pose proof half_RA as Hhalf.
  assert (∀ t, prev = Some t → RA / 2 <= Sub (Now i) (lastRound m) → t + RA / 2 <= Now i) as Hgap.
  { intros t Ht Hs. destruct (pi_prev _ _ _ HJ t Ht). apply Sub_ge in Hs; lia. }
  assert (∀ t, prev = Some t → reach = true → t + RA / 2 <= Now i) as Hgap'.
  { intros t Ht [H|H]%Hreach; [|by apply Hgap]. destruct (pi_prev _ _ _ HJ t Ht). lia. }
  assert (∀ t, prev = Some t → retry_due m i = true → t + RA <= Now i) as Hretry.
  { unfold retry_due. rewrite (pi_retry _ _ _ HJ). intros t Ht Hr. go_bool.
    destruct (pi_prev _ _ _ HJ t Ht). apply Sub_ge in Hr; lia. }
  assert (paced_step prev (Now i) (m, a)) as Hsame by (by eapply paced_same).
  assert (state m = Idle ∨ state m = Unreachable → paced_step prev (Now i) (step_idle false reach i a m)) as Hidle.
  { intros Hs. unfold step_idle. simpl. destruct (wanted m && _) eqn:E; [|done].
    apply andb_true_iff in E as [_ E].
    eapply paced_startRound; [done..|]. intros t Ht.
    destruct (decide (state m = Idle)) as [Hi|Hi]; [by rewrite (pi_idle _ _ _ HJ Hi) in Ht|].
    rewrite !orb_true_iff in E. destruct E as [[[E|E]|E]|E]; go_bool; try done.
    - by destruct Hi; apply (pi_dirty _ _ _ HJ).
    - by apply Hgap'.
    - specialize (Hretry t Ht ltac:(done)). lia. }
  unfold step_state. destruct (state m) eqn:Es; auto.
  - unfold step_probing. simpl. destruct (Reach i && fromRelay m) eqn:E1; go_bool.
    { eapply paced_startRound; [done..|]. intros t Ht.
      destruct (pi_prev _ _ _ HJ t Ht) as [_ Hfr]. pose proof (pi_now _ _ _ HJ). specialize (Hfr ltac:(done)). lia. }
    destruct (dirty m && _) eqn:E2; go_bool.
    { rewrite (pi_dirty _ _ _ HJ) in Es; done. }
    destruct (window_over m i && fromRelay m) eqn:E3; go_bool.
    { unfold paced_step. simpl. destruct HJ. split; simpl; try done; [|lia|].
      - intros Hdd%pi_dirty0. congruence.
      - intros t Ht. destruct (pi_prev0 t Ht). split; [lia|done]. }
    destruct (window_over m i) eqn:E4; [|done].
    assert (fromRelay m = false) as Hf by (destruct E3; congruence).
    destruct (probeNext _ _) as [m' a'] eqn:E.
    apply probeNext_placed in E as (Hp & (Fo & _ & _ & _ & _ & Fh & _) & Hi & Hd & Hf' & Hl). simpl in *.
    unfold paced_step. simpl. rewrite Hi, andb_false_r. simpl.
    assert (fromRelay m' = false) as Hf2 by (destruct (fromRelay m'); [rewrite <- Hf; symmetry; by apply Hf'|done]).
    destruct HJ. split; rewrite ?Fo, ?Fh, ?Hd, ?Hf2, ?Hl; try done.
    + destruct Hp as [? _ _ ->|_ _ ->|_ _ ->]; done.
    + intros Hdd%pi_dirty0. congruence.
    + destruct Hp as [? _ _ ->|_ _ ->|_ _ ->]; done.
    + lia.
    + intros t Ht. destruct (pi_prev0 t Ht). split; [lia|done].
  - by destruct (pi_state _ _ _ HJ).
  - unfold step_relay. simpl. destruct (dirty m && _) eqn:E2; go_bool.
    { rewrite (pi_dirty _ _ _ HJ) in Es; done. }
    destruct (reach && _) eqn:E3; go_bool.
    { eapply paced_startRound; [done..|]. intros t Ht. by apply Hgap'. }
    destruct (has_candidates m && _) eqn:E4; go_bool; [|done].
    unfold retryFromRelay. destruct (probeNext _ _) as [m' a'] eqn:E.
    unfold has_candidates in *. go_bool.
    assert (∃ e, candidates m !! (retryIdx m `mod` length (candidates m))%nat = Some e) as [e He].
    { apply lookup_lt_is_Some_2, Nat.mod_upper_bound. by destruct (candidates m). }
    unfold probeNext in E. simpl in E. rewrite He in E. simplify_eq. unfold paced_step. simpl.
    rewrite andb_false_r. destruct HJ. split; simpl; try done.
    + intros Hdd%pi_dirty0. congruence.
    + intros t Ht. specialize (Hretry t Ht ltac:(done)). destruct (pi_prev0 t Ht). lia.
Qed.

Lemma paced_Step now0 m i prev :
  paced_inv m now0 prev → now0 <= Now i → 0 < Now i → inHandshake i <= 0 →
  if begins_round m i then
    (∀ t, prev = Some t → t + RA / 2 <= Now i) ∧ paced_inv (Step m i).1 (Now i) (Some (Now i))
  else paced_inv (Step m i).1 (Now i) prev.
Proof.
  intros HJ Hle Hpos Hq. unfold begins_round.
  assert (handshake m <? inHandshake i = false) as Hadv.
  { apply Z.ltb_ge. rewrite (pi_handshake _ _ _ HJ). done. }
  destruct (Step_eq m i) as (-> & -> & _). simpl. rewrite Hadv.
  set (reach := Reach i && _).
  destruct (noted_fields i m) as (Ho & _ & Hst & _ & _ & Hh & _ & Hr & Hd & Hl & _).
  assert (paced_inv (noted i m) now0 prev) as HJ'.
  { pose proof (pi_handshake _ _ _ HJ). destruct HJ. split; rewrite ?Ho, ?Hst, ?Hh, ?Hr, ?Hd, ?Hl; try done. lia. }
  assert (paced_step prev (Now i) (step_state false reach i (first_action m) (noted i m))) as H.
  { apply (paced_step_state now0); [done..| |].
    - unfold first_action, passive. destruct (started m); auto.
    - subst reach. rewrite (pi_retry _ _ _ HJ), Hl, Z.quot_div_nonneg by lia. intros Hb.
      apply andb_true_iff in Hb as [_ Hb]. apply orb_true_iff in Hb as [Hb|Hb]; go_bool; auto. }
  unfold paced_step in H. destruct (step_state _ _ _ _ _) as [m1 a]. simpl in *.
  destruct (bool_decide _ && _ && _).
  - destruct H as [H1 []]. split; [done|]. by split.
  - destruct H. by split.
Qed.

Lemma round_times_paced ins : ∀ m now0 prev,
  paced_inv m now0 prev →
  Forall (λ i, 0 < Now i ∧ inHandshake i <= 0) ins → StronglySorted Z.le (now0 :: (Now <$> ins)) →
  StronglySorted (λ t u, t + RA / 2 <= u) (round_times m ins) ∧
  Forall (λ u, now0 <= u ∧ ∀ t, prev = Some t → t + RA / 2 <= u) (round_times m ins).
Proof.
  induction ins as [|i ins IH]; intros m now0 prev HJ Hok Hs; simpl; [repeat constructor|].
  apply Forall_cons in Hok as [[Hpos Hq] Hok].
  apply StronglySorted_inv in Hs as [Hs Hall]. simpl in Hall. apply Forall_cons in Hall as [Hle _].
  pose proof (paced_Step now0 m i prev HJ Hle Hpos Hq) as H. simpl in Hs.
  destruct (begins_round m i); simpl.
  - destruct H as [Hgap HJ']. destruct (IH _ _ _ HJ' Hok Hs) as [I1 I2]. split.
    + constructor; [done|]. eapply Forall_impl; [exact I2|]. intros u [_ Hu]. by apply Hu.
    + constructor; [done|]. eapply Forall_impl; [exact I2|]. simpl. intros u [Hu1 Hu2].
      split; [lia|]. intros t Ht. pose proof half_RA. specialize (Hgap t Ht). lia.
  - destruct (IH _ _ _ H Hok Hs) as [I1 I2]. split; [done|].
    eapply Forall_impl; [exact I2|]. simpl. intros u [Hu1 Hu2]. split; [lia|done].
Qed.
End Pacing.

(** A peer whose candidates stay the same and that never completes a
    handshake begins full probe rounds at least half of RetryAfter apart,
    whatever traffic intent and reach requests arrive: two peers cannot drive
    each other into back-to-back rounds. *)
Theorem rounds_spaced (o : Options) (stagger : bool) (l : list addrport) (ins : list Input) :
  Forall (λ i, 0 < Now i ∧ inHandshake i <= 0) ins → StronglySorted Z.le (Now <$> ins) →
  StronglySorted (λ t u, t + RetryAfter (withDefaults o) / 2 <= u)
    (round_times (SetCandidates l (SetStagger stagger (New o))) ins).
Proof.
  intros Hok Hs. assert (0 < RetryAfter (withDefaults o)) as HRA.
  { simpl. destruct (RetryAfter o <=? 0) eqn:E; go_bool; [done|lia]. }
  apply (round_times_paced _ HRA ins _ 0 None); [|done|].
  - unfold SetCandidates. case_decide; by split.
  - constructor; [done|]. rewrite Forall_fmap. eapply Forall_impl; [exact Hok|]. simpl. lia.
Qed.

(** ** A run on concrete inputs *)

Definition demo_ep (n : Z) : addrport := AddrPort (Addr4 (2130706432 + n)) 51820.
Definition demo_input (t : Z) (reach : bool) : Input :=
  {| Now := t * second; Intent := true; Reach := reach; inHandshake := 0; inEndpoint := NoAddrPort; Rx := 0; Tx := 0 |}.
Definition demo_opts : Options := {| ProbeWindow := 0; StallAfter := 0; RetryAfter := 0; UseRelay := true |}.
Definition demo_ops : list op :=
  [OpCandidates [demo_ep 1; demo_ep 2]; OpStep (demo_input 1 false); OpStep (demo_input 3 false)].
Definition demo_machine : Machine :=
  (run demo_opts [OpCandidates [demo_ep 1; demo_ep 2]; OpStep (demo_input 1 false)]).1.

Example demo_second_candidate : (run demo_opts demo_ops).2 = Some (CmdAt (demo_ep 2)).
Proof. vm_compute. reflexivity. Qed.

(** Reach requests every 10 s from the relay start rounds 30 s apart at least. *)
Example demo_rounds :
  round_times (SetCandidates [demo_ep 1] (New demo_opts)) ((λ t, demo_input (10 * t + 1) true) <$> [0; 1; 2; 3; 4; 5; 6; 7])
  = [second; 31 * second; 61 * second].
Proof. vm_compute. reflexivity. Qed.

Lemma commands_follow_state_witness :
  Forall op_ok demo_ops ∧
  let (m, c) := run demo_opts demo_ops in
  started m = true → match state m with Probing => c = Some (CmdAt (endpoint m)) | _ => True end.
Proof.
  assert (Forall op_ok demo_ops) as Hok by (repeat constructor).
  split; [exact Hok|]. pose proof (commands_follow_state demo_opts demo_ops Hok) as H. revert H.
  destruct (run demo_opts demo_ops) as [m c]. intros H Hs. specialize (H Hs). destruct (state m); try exact I. apply H.
Defined.

Lemma states_are_configured_witness :
  Forall op_ok demo_ops ∧ ∃ i, OpStep i ∈ demo_ops ∧ (Intent i = true ∨ Reach i = true).
Proof.
  assert (Forall op_ok demo_ops) as Hok by (repeat constructor).
  split; [exact Hok|]. apply (states_are_configured demo_opts demo_ops Hok). left. reflexivity.
Defined.

Lemma probe_round_witness :
  in_round demo_machine ∧ (idx demo_machine < length (candidates demo_machine))%nat ∧
  let r := steps demo_machine [demo_input 3 false; demo_input 5 false] in
  outEndpoint <$> filter (λ o, outAction o = ActProbe) r.2 = [demo_ep 2] ∧ state r.1 = Relay.
Proof.
  assert (in_round demo_machine) as H1 by (vm_compute; auto).
  assert (idx demo_machine < length (candidates demo_machine))%nat as H2 by (vm_compute; lia).
  split; [exact H1|]. split; [exact H2|].
  destruct (proj2 (proj1 (proj2 (probe_round demo_machine)) H1 H2) [demo_input 3 false; demo_input 5 false]) as [H3 H4].
  - repeat constructor; vm_compute; discriminate.
  - repeat constructor; vm_compute; discriminate.
  - reflexivity.
  - split; [exact H3|]. exact (f_equal fst H4).
Defined.

Lemma rounds_spaced_witness :
  StronglySorted Z.le (Now <$> [demo_input 1 true; demo_input 2 true]) ∧
  StronglySorted (λ t u, t + RetryAfter (withDefaults demo_opts) / 2 <= u)
    (round_times (SetCandidates [demo_ep 1] (SetStagger true (New demo_opts))) [demo_input 1 true; demo_input 2 true]).
Proof.
  assert (StronglySorted Z.le (Now <$> [demo_input 1 true; demo_input 2 true])) as Hs
    by (repeat constructor; vm_compute; discriminate).
  split; [exact Hs|]. apply rounds_spaced; [|exact Hs].
  repeat constructor; vm_compute; discriminate.
Defined.
