(* ===== verification/Endpoints.v ===== *)
(** The table of reported endpoints and paths: [internal/control/endpoints.go].

    Candidates are kept in memory per peer, with the address the hub last saw
    the peer's WireGuard packets come from.  Entries older than five minutes
    are dropped when read.  The methods hold the table's mutex, so each is one
    step; the clock they read is an argument. *)

From S2P Require Import Prelude NetIP.

(** [EndpointKind] is a Go [int]; any other value is an unknown kind. *)
Definition EndpointLocal : Z := 1.
Definition EndpointReflexive : Z := 2.
Definition EndpointStable : Z := 3.

Record Endpoint := { Addr : addrport; Kind : Z }.

#[export] Instance endpoint_eq_dec : EqDecision Endpoint.
Proof. solve_decision. Defined.

Definition MaxEndpoints : nat := 16.
Definition endpointTTL : Z := 300 * second.

Record endpointEntry := { endpoints : list Endpoint; symmetric : bool; listenPort : Z; updated : Z }.
Record observedEntry := { oAddr : addrport; oUpdated : Z }.

Record EndpointTable := {
  reported : gmap string endpointEntry;
  observed : gmap string observedEntry;
}.

Definition NewEndpointTable : EndpointTable := {| reported := ∅; observed := ∅ |}.

Inductive endpoint_error :=
  | TooMany
  | NotIPPort (e : Endpoint)
  | NotRoutable (e : Endpoint)
  | UnknownKind (e : Endpoint).

(** The checks of one endpoint, in the order of the loop body. *)
Definition endpoint_error_of (e : Endpoint) : option endpoint_error :=
  if negb (APIsValid (Addr e)) || (apport (Addr e) =? 0) then Some (NotIPPort e)
  else
    let a := Unmap (apaddr (Addr e)) in
    if IsLoopback a || IsUnspecified a || IsMulticast a then Some (NotRoutable e)
    else if (Kind e <? EndpointLocal) || (EndpointStable <? Kind e) then Some (UnknownKind e)
    else None.

Definition ValidateEndpoints (eps : list Endpoint) : result endpoint_error unit :=
  if (MaxEndpoints <? length eps)%nat then Err TooMany
  else match head (omap endpoint_error_of eps) with
       | Some e => Err e
       | None => Ok tt
       end.

(** [Set]: whether the report changed, or why it was refused. *)
Definition Set_ (now : Z) (id : string) (eps : list Endpoint) (sym : bool) (port : Z) (t : EndpointTable)
    : EndpointTable * result endpoint_error bool :=
  match ValidateEndpoints eps with
  | Err e => (t, Err e)
  | Ok _ =>
      let changed :=
        match reported t !! id with
        | None => true
        | Some old => negb (bool_decide (symmetric old = sym)) || negb (listenPort old =? port)
                      || negb (bool_decide (endpoints old = eps))
        end in
      ({| reported := <[id := {| endpoints := eps; symmetric := sym; listenPort := port; updated := now |}]> (reported t);
          observed := observed t |}, Ok changed)
  end.

Definition SetObserved (now : Z) (id : string) (ap : addrport) (t : EndpointTable) : EndpointTable * bool :=
  let a := Unmap (apaddr ap) in
  if negb (APIsValid ap) || (apport ap =? 0) || IsLoopback a || IsUnspecified a then (t, false)
  else
    let ap := AddrPort a (apport ap) in
    ({| reported := reported t; observed := <[id := {| oAddr := ap; oUpdated := now |}]> (observed t) |},
     match observed t !! id with None => true | Some old => negb (bool_decide (oAddr old = ap)) end).

Definition containsAddr (eps : list Endpoint) (a : addrport) : bool :=
  existsb (λ e, bool_decide (Addr e = a)) eps.

(** The two halves of [Get]: what is returned, and the entries dropped. *)
Definition Get (now : Z) (id : string) (t : EndpointTable) : EndpointTable * (list Endpoint * bool) :=
  let '(rep, eps, sym) :=
    match reported t !! id with
    | Some e => if endpointTTL <? Sub now (updated e) then (delete id (reported t), [], false)
                else (reported t, endpoints e, symmetric e)
    | None => (reported t, [], false)
    end in
  let '(obs, eps) :=
    match observed t !! id with
    | Some o => if endpointTTL <? Sub now (oUpdated o) then (delete id (observed t), eps)
                else (observed t, if containsAddr eps (oAddr o) then eps
                                  else eps ++ [{| Addr := oAddr o; Kind := EndpointReflexive |}])
    | None => (observed t, eps)
    end in
  ({| reported := rep; observed := obs |}, (eps, sym)).

Definition Delete (id : string) (t : EndpointTable) : EndpointTable :=
  {| reported := delete id (reported t); observed := delete id (observed t) |}.

(** ** The path table *)

Record PathState := { PeerID : string; PState : string; PEndpoint : string; Updated : Z }.

Definition PathTable := gmap string (list PathState).

Definition SetPaths (now : Z) (id : string) (paths : list PathState) (t : PathTable) : PathTable :=
  <[id := (λ p, {| PeerID := PeerID p; PState := PState p; PEndpoint := PEndpoint p; Updated := now |}) <$> paths]> t.
Definition GetPaths (id : string) (t : PathTable) : list PathState := default [] (t !! id).
Definition DeletePaths (id : string) (t : PathTable) : PathTable := delete id t.

(** [None] when the text is no "ip:port". *)
Definition ParseEndpoint (s : string) (kind : Z) : option Endpoint :=
  (λ ap, {| Addr := ap; Kind := kind |}) <$> ParseAddrPort s.

(** ** The table as a function of what was reported

    [call] is one method call with the time it ran at; the specification looks
    only at the calls, newest first, and never forgets. *)

Inductive call :=
  | CSet (now : Z) (id : string) (eps : list Endpoint) (sym : bool) (port : Z)
  | CObserve (now : Z) (id : string) (ap : addrport)
  | CGet (now : Z) (id : string)
  | CDelete (now : Z) (id : string).

Definition call_time (c : call) : Z :=
  match c with CSet t _ _ _ _ | CObserve t _ _ | CGet t _ | CDelete t _ => t end.

Definition do_call (c : call) (t : EndpointTable) : EndpointTable :=
  match c with
  | CSet now id eps sym port => (Set_ now id eps sym port t).1
  | CObserve now id ap => (SetObserved now id ap t).1
  | CGet now id => (Get now id t).1
  | CDelete _ id => Delete id t
  end.

(** The table after the calls of a history, the newest at its head. *)
Fixpoint table_of (h : list call) : EndpointTable :=
  match h with [] => NewEndpointTable | c :: h' => do_call c (table_of h') end.

(** What an endpoint must be to be handed out. *)
Definition routable (ap : addrport) : Prop :=
  APIsValid ap = true ∧ apport ap ≠ 0 ∧
  IsLoopback (Unmap (apaddr ap)) = false ∧ IsUnspecified (Unmap (apaddr ap)) = false.

#[export] Instance routable_dec ap : Decision (routable ap).
Proof. unfold routable. apply _. Defined.

Definition endpoint_ok (e : Endpoint) : Prop :=
  routable (Addr e) ∧ IsMulticast (Unmap (apaddr (Addr e))) = false ∧ EndpointLocal <= Kind e <= EndpointStable.

#[export] Instance endpoint_ok_dec e : Decision (endpoint_ok e).
Proof. unfold endpoint_ok. apply _. Defined.

Definition report_ok (eps : list Endpoint) : Prop := (length eps <= MaxEndpoints)%nat ∧ Forall endpoint_ok eps.

#[export] Instance report_ok_dec eps : Decision (report_ok eps).
Proof. unfold report_ok. apply _. Defined.

(** The newest accepted report of a peer since it was last deleted. *)
Fixpoint last_report (id : string) (h : list call) : option endpointEntry :=
  match h with
  | [] => None
  | CSet now id' eps sym port :: h' =>
      if decide (id' = id ∧ report_ok eps)
      then Some {| endpoints := eps; symmetric := sym; listenPort := port; updated := now |}
      else last_report id h'
  | CDelete _ id' :: h' => if decide (id' = id) then None else last_report id h'
  | _ :: h' => last_report id h'
  end.

Fixpoint last_observed (id : string) (h : list call) : option observedEntry :=
  match h with
  | [] => None
  | CObserve now id' ap :: h' =>
      if decide (id' = id ∧ routable ap)
      then Some {| oAddr := AddrPort (Unmap (apaddr ap)) (apport ap); oUpdated := now |}
      else last_observed id h'
  | CDelete _ id' :: h' => if decide (id' = id) then None else last_observed id h'
  | _ :: h' => last_observed id h'
  end.

Definition live (now t : Z) : bool := negb (endpointTTL <? Sub now t).

Definition spec_get (now : Z) (id : string) (h : list call) : list Endpoint * bool :=
  let '(eps, sym) :=
    match last_report id h with
    | Some e => if live now (updated e) then (endpoints e, symmetric e) else ([], false)
    | None => ([], false)
    end in
  (match last_observed id h with
   | Some o => if live now (oUpdated o) && negb (containsAddr eps (oAddr o))
               then eps ++ [{| Addr := oAddr o; Kind := EndpointReflexive |}] else eps
   | None => eps
   end, sym).

(** ** Lemmas *)

Lemma endpoint_error_none e : endpoint_error_of e = None ↔ endpoint_ok e.
Proof.
  unfold endpoint_error_of, endpoint_ok, routable. split.
  - intros H. destruct (negb _ || _) eqn:E1; [done|]. destruct (_ || _ || _) eqn:E2; [done|].
    destruct (_ || _) eqn:E3 in H; [done|]. go_bool. done.
  - intros ((Hv & Hp & Hl & Hu) & Hm & Hk). rewrite Hv, Hl, Hu, Hm, (proj2 (Z.eqb_neq _ _) Hp). simpl.
    rewrite (proj2 (Z.ltb_ge _ _)), (proj2 (Z.ltb_ge _ _)) by lia. done.
Qed.

Lemma ValidateEndpoints_ok eps : ValidateEndpoints eps = Ok tt ↔ report_ok eps.
Proof.
  unfold ValidateEndpoints, report_ok. destruct (Nat.ltb_spec MaxEndpoints (length eps)) as [Hlt|Hle].
  - split; [done|]. intros [? _]. lia.
  - assert (Forall endpoint_ok eps ↔ omap endpoint_error_of eps = []) as Heq.
    { induction eps as [|e eps IH]; [by split; [|constructor]|]. simpl.
      simpl in Hle. rewrite Forall_cons, <- endpoint_error_none, IH by lia.
      destruct (endpoint_error_of e); naive_solver. }
    rewrite Heq. destruct (omap endpoint_error_of eps); simpl; naive_solver.
Qed.

Lemma Set_table now id eps sym port t :
  (Set_ now id eps sym port t).1 =
  if decide (report_ok eps)
  then {| reported := <[id := {| endpoints := eps; symmetric := sym; listenPort := port; updated := now |}]> (reported t);
          observed := observed t |}
  else t.
Proof.
  unfold Set_. pose proof (ValidateEndpoints_ok eps) as H. destruct (ValidateEndpoints eps) as [[]|e].
  - rewrite decide_True by by apply H. done.
  - rewrite decide_False; [done|]. by intros ?%H.
Qed.

Lemma SetObserved_table now id ap t :
  (SetObserved now id ap t).1 =
  if decide (routable ap)
  then {| reported := reported t;
          observed := <[id := {| oAddr := AddrPort (Unmap (apaddr ap)) (apport ap); oUpdated := now |}]> (observed t) |}
  else t.
Proof.
  unfold SetObserved. destruct (_ || _) eqn:E; simpl.
  - rewrite decide_False; [done|]. intros (Hv & Hp & Hl & Hu).
    by rewrite Hv, Hl, Hu, (proj2 (Z.eqb_neq _ _) Hp) in E.
  - go_bool. by rewrite decide_True.
Qed.

(** A table row may lag behind the specification only when it has expired. *)
Definition tracks {A} (time : A → Z) (now : Z) (row spec : option A) : Prop :=
  row = spec ∨ row = None ∧ ∃ a, spec = Some a ∧ endpointTTL < Sub now (time a).

Lemma tracks_later {A} (time : A → Z) now now' row spec :
  now <= now' → tracks time now row spec → tracks time now' row spec.
Proof.
  intros Hle [?|(-> & a & -> & H)]; [by left|right]. split; [done|]. exists a. split; [done|].
  pose proof (Sub_mono now now' (time a) Hle). lia.
Qed.

(** Reading a row drops it only if it has expired. *)
Lemma tracks_drop {A} (time : A → Z) now (m : gmap string A) spec id id' :
  (∀ k, tracks time now (m !! k) (spec k)) →
  tracks time now
    (match m !! id with Some a => if endpointTTL <? Sub now (time a) then delete id m else m | None => m end !! id')
    (spec id').
Proof.
  intros H. destruct (m !! id) as [a|] eqn:E; [|done].
  destruct (endpointTTL <? Sub now (time a)) eqn:Et; [|done]. go_bool.
  destruct (decide (id = id')) as [<-|Hne]; [|by rewrite lookup_delete_ne].
  rewrite lookup_delete_eq. right. split; [done|]. exists a. split; [|done].
  destruct (H id) as [<-|[Hn _]]; congruence.
Qed.

Lemma Get_reported now id t :
  reported (Get now id t).1 =
    match reported t !! id with Some e => if endpointTTL <? Sub now (updated e) then delete id (reported t) else reported t
    | None => reported t end.
Proof. unfold Get. repeat case_match; by simplify_eq/=. Qed.

Lemma Get_observed now id t :
  observed (Get now id t).1 =
    match observed t !! id with Some e => if endpointTTL <? Sub now (oUpdated e) then delete id (observed t) else observed t
    | None => observed t end.
Proof. unfold Get. repeat case_match; by simplify_eq/=. Qed.

(** Histories are newest first, with a clock that never goes back. *)
Definition ordered (now : Z) (h : list call) : Prop :=
  StronglySorted (λ a b, b <= a) (now :: (call_time <$> h)).

Lemma table_tracks h : ∀ now,
  ordered now h →
  ∀ id, tracks updated now (reported (table_of h) !! id) (last_report id h) ∧
        tracks oUpdated now (observed (table_of h) !! id) (last_observed id h).
Proof.
  induction h as [|c h IH]; intros now Ho id; [by split; left|].
  unfold ordered in Ho. simpl in Ho. apply StronglySorted_inv in Ho as [Ho Hle].
  apply Forall_cons in Hle as [Hle _]. specialize (IH _ Ho).
  assert (∀ k, tracks updated now (reported (table_of h) !! k) (last_report k h)) as Hr.
  { intros k. eapply tracks_later; [exact Hle|]. apply IH. }
  assert (∀ k, tracks oUpdated now (observed (table_of h) !! k) (last_observed k h)) as Hb.
  { intros k. eapply tracks_later; [exact Hle|]. apply IH. }
  destruct c as [t id' eps sym port|t id' ap|t id'|t id']; cbn [do_call table_of last_report last_observed call_time] in *.
  - rewrite Set_table. destruct (decide (report_ok eps)) as [Hok|Hok]; simpl.
    + split; [|apply Hb]. destruct (decide (id' = id)) as [<-|Hne].
      * rewrite lookup_insert_eq, decide_True by done. by left.
      * rewrite lookup_insert_ne, decide_False by naive_solver. apply Hr.
    + rewrite decide_False by naive_solver. by split.
  - rewrite SetObserved_table. destruct (decide (routable ap)) as [Hok|Hok]; simpl.
    + split; [apply Hr|]. destruct (decide (id' = id)) as [<-|Hne].
      * rewrite lookup_insert_eq, decide_True by done. by left.
      * rewrite lookup_insert_ne, decide_False by naive_solver. apply Hb.
    + rewrite decide_False by naive_solver. by split.
  - rewrite Get_reported, Get_observed. split; (eapply tracks_later; [exact Hle|]).
    + apply (tracks_drop updated t _ (λ k, last_report k h)). apply IH.
    + apply (tracks_drop oUpdated t _ (λ k, last_observed k h)). apply IH.
  - unfold Delete. simpl. destruct (decide (id' = id)) as [<-|Hne].
    + rewrite !lookup_delete_eq. by split; left.
    + rewrite !lookup_delete_ne by done. by split.
Qed.

Lemma last_report_ok id h e : last_report id h = Some e → report_ok (endpoints e).
Proof. induction h as [|[] h IH]; simpl; intros H; try case_decide; naive_solver. Qed.

Lemma last_observed_ok id h o : last_observed id h = Some o → routable (oAddr o).
Proof.
  induction h as [|[] h IH]; simpl; intros H; try case_decide; try naive_solver.
  destruct H0 as [-> (H1 & H2 & H3 & H4)]. simplify_eq. unfold routable, APIsValid in *. simpl.
  assert (Unmap (Unmap (apaddr ap)) = Unmap (apaddr ap)) as ->.
  { unfold Unmap. destruct (Is4In6 (apaddr ap)) eqn:E; [done|]. by rewrite E. }
  split_and!; try done. unfold Unmap. by destruct (Is4In6 _).
Qed.

(** The endpoint table is its history.  Whatever calls were made, with a
    clock that never goes back, [Get] answers from the newest accepted report
    and the newest routable observed address since the peer was last deleted,
    each while it is at most five minutes old: dropping expired rows on read
    is never observable, and reads and other peers' calls change nothing.
    Every address handed out is a routable ip:port, and there are at most
    MaxEndpoints + 1 of them. *)
Theorem Get_refines_history (h : list call) (now : Z) (id : string) :
  ordered now h →
  (Get now id (table_of h)).2 = spec_get now id h ∧
  (length (spec_get now id h).1 <= S MaxEndpoints)%nat ∧
  Forall (λ e, routable (Addr e)) (spec_get now id h).1.
Proof.
  intros Ho. split.
  - destruct (table_tracks h now Ho id) as [Hr Hb]. unfold Get, spec_get, live.
    destruct Hr as [->|(-> & e & -> & He)], Hb as [->|(-> & o & -> & Hob)].
    + destruct (last_report id h) as [e|]; [destruct (endpointTTL <? Sub now (updated e))|]; simpl;
        (destruct (last_observed id h) as [o|]; [|done]);
        (destruct (endpointTTL <? Sub now (oUpdated o)); simpl; [done|]); try done; by destruct (containsAddr _ _).
    + rewrite (proj2 (Z.ltb_lt _ _) Hob). simpl.
      destruct (last_report id h) as [e|]; [|done]. by destruct (endpointTTL <? Sub now (updated e)).
    + rewrite (proj2 (Z.ltb_lt _ _) He). simpl. destruct (last_observed id h) as [o|]; [|done].
      by destruct (endpointTTL <? Sub now (oUpdated o)).
    + by rewrite (proj2 (Z.ltb_lt _ _) He), (proj2 (Z.ltb_lt _ _) Hob).
  - unfold spec_get.
    assert (∀ eps sym, (match last_report id h with
      | Some e => if live now (updated e) then (endpoints e, symmetric e) else ([], false)
      | None => ([], false) end) = (eps, sym) →
      (length eps <= MaxEndpoints)%nat ∧ Forall (λ e, routable (Addr e)) eps) as Hrep.
    { intros eps sym. assert ((length (@nil Endpoint) <= MaxEndpoints)%nat) by (simpl; lia).
      destruct (last_report id h) as [e|] eqn:E; [|by intros [= <- <-]].
      destruct (live _ _); intros [= <- <-]; [|done]. apply last_report_ok in E as [Hl Hf].
      split; [done|]. eapply Forall_impl; [exact Hf|]. by intros ? []. }
    destruct (match last_report id h with Some e => _ | None => _ end) as [eps sym].
    specialize (Hrep eps sym eq_refl) as [Hl Hf]. simpl.
    destruct (last_observed id h) as [o|] eqn:E; [|split; [lia|done]]. apply last_observed_ok in E.
    destruct (live now _ && _); [|split; [lia|done]].
    rewrite length_app. simpl. split; [lia|]. apply Forall_app. split; [done|]. constructor; [done|constructor].
Qed.

Lemma Get_refines_history_witness :
  let h := [CGet 400000000000 "a";
            CObserve 10 "a" (AddrPort (Addr4 3232235521) 4000);
            CSet 5 "a" [{| Addr := AddrPort (Addr4 167772161) 51820; Kind := EndpointLocal |}] false 51820] in
  ordered 400000000001 h ∧ (Get 400000000001 "a" (table_of h)).2 = ([], false).
Proof.
  intros h. assert (ordered 400000000001 h) as Ho by (repeat constructor; vm_compute; discriminate).
  split; [exact Ho|]. destruct (Get_refines_history h 400000000001 "a" Ho) as [H _].
  etransitivity; [exact H|]. vm_compute. reflexivity.
Defined.
