(* ===== verification/PathOrder.v ===== *)
(** The order candidates are probed in: [internal/control/path/order.go].
    [Order] feeds [SetCandidates] of the path machine. *)

From S2P Require Import Prelude GoStrings NetIP Endpoints.

Record ranked := { raddr : addrport; class : Z }.

(** [sameLAN]: does [a] share a /24 with one of ours? *)
Definition sameLAN (ours : list addr) (a : addr) : bool :=
  if negb (Is4 a) then false
  else
    let want := Masked (PrefixFrom a 24) in
    existsb (λ o, Is4 o && bool_decide (Masked (PrefixFrom o 24) = want)) ours.

Section Order.
Context (ours : list addr) (selfSymmetric peerSymmetric : bool).

(** The switch on the kind; [None] is [continue]. *)
Definition class_of (e : Endpoint) : option Z :=
  if Kind e =? EndpointLocal then Some (if sameLAN ours (apaddr (Addr e)) then 0 else 1)
  else if Kind e =? EndpointReflexive then (if selfSymmetric && peerSymmetric then None else Some 2)
  else if Kind e =? EndpointStable then Some 3
  else None.

(** The loop, with [seen]. *)
Fixpoint rank (seen : gset addrport) (theirs : list Endpoint) : list ranked :=
  match theirs with
  | [] => []
  | e :: rest =>
      if negb (APIsValid (Addr e)) || bool_decide (Addr e ∈ seen) then rank seen rest
      else match class_of e with
           | None => rank seen rest
           | Some k => {| raddr := Addr e; class := k |} :: rank ({[Addr e]} ∪ seen) rest
           end
  end.

Definition rank_less (a b : ranked) : bool :=
  if negb (class a =? class b) then class a <? class b
  else str_ltb (addrport_string (raddr a)) (addrport_string (raddr b)).

Definition Order (theirs : list Endpoint) : list addrport :=
  raddr <$> stable_sort rank_less (rank ∅ theirs).

#[export] Instance rank_less_strict_weak : StrictWeak rank_less.
Proof.
  split; unfold rank_less.
  - intros a b. rewrite Z.eqb_sym. destruct (Z.eqb_spec (class b) (class a)); simpl.
    + apply less_asym.
    + intros H. go_bool. apply Z.ltb_ge. lia.
  - intros a b c. destruct (Z.eqb_spec (class b) (class a)), (Z.eqb_spec (class c) (class b)),
      (Z.eqb_spec (class c) (class a)); simpl; intros; go_bool; try lia; try (apply Z.ltb_ge; lia).
    by eapply nless_trans.
Qed.

Lemma rank_spec seen theirs :
  NoDup (raddr <$> rank seen theirs) ∧
  ∀ a, a ∈ raddr <$> rank seen theirs ↔
       a ∉ seen ∧ APIsValid a = true ∧ ∃ e, e ∈ theirs ∧ Addr e = a ∧ class_of e ≠ None.
Proof.
  revert seen. induction theirs as [|e rest IH]; intros seen; simpl.
  { split; [constructor|]. intros a. split; [by intros ?%elem_of_nil|]. by intros (_ & _ & ? & []%elem_of_nil & _). }
  destruct (IH seen) as [Hnd Hel]. destruct (negb _ || _) eqn:E.
  - split; [done|]. intros a. rewrite Hel. setoid_rewrite elem_of_cons. split.
    + intros (? & ? & e' & ? & ?). eauto 10.
    + intros (Hs & Hv & e' & [->|He] & Ha & Hc); [|eauto 10]. subst. go_bool.
      destruct E as [E|E]; go_bool; congruence.
  - go_bool. destruct (class_of e) as [k|] eqn:Ek; simpl.
    + destruct (IH ({[Addr e]} ∪ seen)) as [Hnd' Hel']. split.
      * constructor; [|done]. rewrite Hel'. set_solver.
      * intros a. rewrite elem_of_cons, Hel'. setoid_rewrite elem_of_cons. split.
        -- intros [->|(Hn & Hv & e' & He & Ha & Hc)].
           ++ split_and!; [done..|]. exists e. split_and!; [by left|done|congruence].
           ++ split_and!; [set_solver|done|]. eauto 10.
        -- intros (Hs & Hv & e' & [->|He] & Ha & Hc); [by left|].
           destruct (decide (a = Addr e)) as [|Hne]; [by left|right].
           split_and!; [set_solver|done|]. eauto 10.
    + split; [done|]. intros a. rewrite Hel. setoid_rewrite elem_of_cons. split.
      * intros (? & ? & e' & ? & ?). eauto 10.
      * intros (Hs & Hv & e' & [->|He] & Ha & Hc); [done|eauto 10].
Qed.

(** Every ranked entry carries the class of an endpoint of the list. *)
Lemma rank_class seen theirs r :
  r ∈ rank seen theirs → ∃ e, e ∈ theirs ∧ Addr e = raddr r ∧ class_of e = Some (class r).
Proof.
  revert seen. induction theirs as [|e rest IH]; intros seen; simpl; [by intros ?%elem_of_nil|].
  destruct (negb _ || _).
  - intros (e' & ? & ?)%IH. exists e'. by rewrite elem_of_cons; auto.
  - destruct (class_of e) as [k|] eqn:Ek.
    + intros [->|(e' & ? & ?)%IH]%elem_of_cons.
      * exists e. split; [by constructor|done].
      * exists e'. by rewrite elem_of_cons; auto.
    + intros (e' & ? & ?)%IH. exists e'. by rewrite elem_of_cons; auto.
Qed.

(** With distinct addresses, ranking keeps every usable endpoint. *)
Lemma rank_distinct seen theirs r :
  NoDup (Addr <$> theirs) → (∀ e, e ∈ theirs → Addr e ∉ seen) →
  r ∈ rank seen theirs ↔
  ∃ e, e ∈ theirs ∧ APIsValid (Addr e) = true ∧ Addr e = raddr r ∧ class_of e = Some (class r).
Proof.
  intros Hnd Hs. split.
  - intros Hr. destruct (rank_class _ _ _ Hr) as (e & He & Ha & Hc). exists e. split_and!; try done.
    rewrite Ha. destruct (rank_spec seen theirs) as [_ H].
    destruct (proj1 (H (raddr r))) as (_ & Hv & _); [by apply list_elem_of_fmap_2|done].
  - intros (e & He & Hv & Ha & Hc).
    assert (raddr r ∈ raddr <$> rank seen theirs) as (r' & Hr & Hr')%list_elem_of_fmap.
    { apply rank_spec. split_and!; [rewrite <- Ha; by apply Hs|by rewrite <- Ha|].
      exists e. split_and!; [done..|congruence]. }
    destruct (rank_class _ _ _ Hr') as (e' & He' & Ha' & Hc').
    assert (e' = e) as ->.
    { apply list_elem_of_lookup in He as [i Hi]. apply list_elem_of_lookup in He' as [j Hj].
      assert (i = j) as ->; [|congruence]. apply (NoDup_lookup (Addr <$> theirs) i j (Addr e)); [done|..];
        rewrite list_lookup_fmap; [by rewrite Hi|rewrite Hj; simpl; congruence]. }
    destruct r, r'; simpl in *. congruence.
Qed.
End Order.

(** The probing order.  [Order] lists each usable address once: exactly
    the valid addresses reported with a known kind, the reflexive ones left
    out when both sides are behind symmetric NAT; sorted by class (same /24,
    other local, reflexive, stable), ties broken by the address text.  Both
    sides agree: the order of the report does not matter when its addresses
    are distinct and print differently. *)
Theorem Order_correct (ours : list addr) (ss ps : bool) (theirs : list Endpoint) :
  NoDup (Order ours ss ps theirs) ∧
  (∀ a, a ∈ Order ours ss ps theirs ↔
     APIsValid a = true ∧ ∃ e, e ∈ theirs ∧ Addr e = a ∧ EndpointLocal <= Kind e <= EndpointStable ∧
       ¬ (Kind e = EndpointReflexive ∧ ss = true ∧ ps = true)) ∧
  (∃ rs, Order ours ss ps theirs = raddr <$> rs ∧ StronglySorted (nless rank_less) rs ∧
     Forall (λ r, ∃ e, e ∈ theirs ∧ Addr e = raddr r ∧ class_of ours ss ps e = Some (class r)) rs) ∧
  (∀ theirs', theirs ≡ₚ theirs' → NoDup (Addr <$> theirs) →
     (∀ e1 e2, e1 ∈ theirs → e2 ∈ theirs →
        addrport_string (Addr e1) = addrport_string (Addr e2) → Addr e1 = Addr e2) →
     Order ours ss ps theirs' = Order ours ss ps theirs).
Proof.
  unfold Order. split_and!.
  - rewrite stable_sort_perm. apply rank_spec.
  - intros a. rewrite stable_sort_perm. destruct (rank_spec ours ss ps ∅ theirs) as [_ ->].
    assert (∀ e, class_of ours ss ps e ≠ None ↔ EndpointLocal <= Kind e <= EndpointStable ∧
      ¬ (Kind e = EndpointReflexive ∧ ss = true ∧ ps = true)) as Hc.
    { intros e. unfold class_of, EndpointLocal, EndpointReflexive, EndpointStable.
      destruct (Z.eqb_spec (Kind e) 1); [split; [intros _|done]; split; [lia|]; intros [? _]; lia|].
      destruct (Z.eqb_spec (Kind e) 2).
      - destruct (ss && ps) eqn:Es.
        + apply andb_true_iff in Es as [-> ->]. split; [by intros []|]. intros [_ []]. done.
        + split; [|done]. intros _. split; [lia|]. intros (_ & -> & ->). done.
      - destruct (Z.eqb_spec (Kind e) 3); [split; [intros _|done]; split; [lia|]; intros [? _]; lia|].
        split; [done|]. intros [? _]. lia. }
    setoid_rewrite Hc. set_solver.
  - exists (stable_sort rank_less (rank ours ss ps ∅ theirs)). split_and!; [done|apply stable_sort_sorted; apply _|].
    apply Forall_forall. intros r. rewrite elem_of_stable_sort. apply rank_class.
  - intros theirs' Hp Hnd Hstr. f_equal.
    assert (NoDup (Addr <$> theirs')) as Hnd' by by rewrite <- Hp.
    assert (∀ r, r ∈ rank ours ss ps ∅ theirs' ↔ r ∈ rank ours ss ps ∅ theirs) as Hsame.
    { intros r. rewrite !rank_distinct by (done || set_solver). by setoid_rewrite Hp. }
    assert (∀ t, NoDup (rank ours ss ps ∅ t)) as Hndr.
    { intros t. apply (NoDup_fmap_1 raddr). apply rank_spec. }
    apply (StronglySorted_unique_strong (nless rank_less)); [|apply stable_sort_sorted; apply _..|].
    + intros r1 r2. rewrite !elem_of_stable_sort, Hsame. intros H1 H2 H3 H4.
      apply rank_class in H1 as (e1 & He1 & Ha1 & _). apply rank_class in H2 as (e2 & He2 & Ha2 & _).
      unfold nless, rank_less in H3, H4. rewrite Z.eqb_sym in H4.
      destruct (Z.eqb_spec (class r2) (class r1)) as [Hc|Hc]; simpl in H3, H4; go_bool; [|lia].
      rewrite str_nless_le in H3, H4.
      assert (Addr e1 = Addr e2) as Ha.
      { apply Hstr; [done..|]. rewrite Ha1, Ha2. by apply (anti_symm String.le). }
      destruct r1, r2; simpl in *. congruence.
    + rewrite !stable_sort_perm. by apply NoDup_Permutation.
Qed.

Example order_demo :
  Order [Addr4 3232235777] true true
    [{| Addr := AddrPort (Addr4 167772161) 1; Kind := EndpointStable |};
     {| Addr := AddrPort (Addr4 134744072) 2; Kind := EndpointReflexive |};
     {| Addr := AddrPort (Addr4 3232235778) 3; Kind := EndpointLocal |}]
  = [AddrPort (Addr4 3232235778) 3; AddrPort (Addr4 167772161) 1].
Proof. vm_compute. reflexivity. Qed.
