(* ===== verification/RelayFrame.v ===== *)
(** The relay's frame codec: [internal/relay/frame.go].

    A frame is a type byte, a 32-byte key, a 16-bit length and the payload.
    The reader is a byte stream that ends in end-of-file or another error. *)

From S2P Require Import Prelude.

Abbreviation Key := (list byte).

Definition TypeSend : byte := Byte.x01.
Definition TypeRecv : byte := Byte.x02.
Definition TypePing : byte := Byte.x03.
Definition TypePong : byte := Byte.x04.
Definition TypePeerGone : byte := Byte.x05.

Definition HeaderLen : nat := 35.
Definition MaxPayload : nat := 1500.

Record Frame := { FType : byte; FKey : Key; Payload : list byte }.

#[export] Instance frame_eq_dec : EqDecision Frame.
Proof. solve_decision. Defined.

(** The [[32]byte] of the Go type. *)
Definition frame_wf (f : Frame) : Prop := length (FKey f) = 32%nat.

Definition zeroKey : Key := replicate 32 Byte.x00.

Inductive frame_error := ErrOversize (n : Z) | ErrTruncated | ErrBuffer | ErrEOF | ErrRead.

(** [Frame.Append] onto [buf]. *)
Definition Append (f : Frame) (buf : list byte) : result frame_error (list byte) :=
  if (MaxPayload <? length (Payload f))%nat then Err (ErrOversize (Z.of_nat (length (Payload f))))
  else Ok (buf ++ [FType f] ++ FKey f ++ be_enc 2 (u16 (Z.of_nat (length (Payload f)))) ++ Payload f).

(** A connection being read: the bytes to come, and whether they end in a
    clean end of file or another error. *)
Record stream := { data : list byte; clean : bool }.

Inductive read_error := EOF | UnexpectedEOF | OtherError.

(** [io.ReadFull] of [n] bytes. *)
Definition ReadFull (r : stream) (n : nat) : result read_error (list byte) * stream :=
  if (n <=? length (data r))%nat
  then (Ok (take n (data r)), {| data := drop n (data r); clean := clean r |})
  else (Err (if clean r then (if bool_decide (data r = []) then EOF else UnexpectedEOF) else OtherError),
        {| data := []; clean := clean r |}).

Definition ReadFrame (r : stream) (buf_len : nat) : result frame_error Frame * stream :=
  if (buf_len <? HeaderLen + MaxPayload)%nat then (Err ErrBuffer, r)
  else
    match ReadFull r HeaderLen with
    | (Err UnexpectedEOF, r) => (Err ErrTruncated, r)
    | (Err EOF, r) => (Err ErrEOF, r)
    | (Err OtherError, r) => (Err ErrRead, r)
    | (Ok h, r) =>
        let n := be_dec (take 2 (drop 33 h)) in
        if Z.of_nat MaxPayload <? n then (Err (ErrOversize n), r)
        else
          match ReadFull r (Z.to_nat n) with
          | (Err OtherError, r) => (Err ErrRead, r)
          | (Err _, r) => (Err ErrTruncated, r)
          | (Ok p, r) => (Ok {| FType := hd Byte.x00 h; FKey := take 32 (drop 1 h); Payload := p |}, r)
          end
    end.

Definition IsWireGuard (payload : list byte) : bool :=
  (4 <=? length payload)%nat && (1 <=? bz (hd Byte.x00 payload)) && (bz (hd Byte.x00 payload) <=? 4).

(** ** Lemmas *)

#[local] Arguments be_enc : simpl never.
#[local] Arguments be_dec : simpl never.

(** The bytes of a frame. *)
Definition frame_bytes (f : Frame) : list byte :=
  FType f :: FKey f ++ be_enc 2 (Z.of_nat (length (Payload f))) ++ Payload f.

Lemma Append_ok f buf :
  (length (Payload f) <= MaxPayload)%nat → Append f buf = Ok (buf ++ frame_bytes f).
Proof.
  intros H. unfold Append, frame_bytes. rewrite (proj2 (Nat.ltb_ge _ _)) by done.
  unfold u16. rewrite Z.mod_small; [done|]. unfold MaxPayload in H. lia.
Qed.

Lemma ReadFull_app l1 l2 cl :
  ReadFull {| data := l1 ++ l2; clean := cl |} (length l1) = (Ok l1, {| data := l2; clean := cl |}).
Proof.
  unfold ReadFull. simpl. rewrite (proj2 (Nat.leb_le _ _)) by (rewrite length_app; lia).
  by rewrite take_app_length, drop_app_length.
Qed.

Lemma ReadFull_inv r n l r' :
  ReadFull r n = (Ok l, r') → data r = l ++ data r' ∧ length l = n ∧ clean r' = clean r.
Proof.
  unfold ReadFull. destruct (n <=? length (data r))%nat eqn:E; [|done]. intros [= <- <-]. simpl.
  apply Nat.leb_le in E. by rewrite take_drop, length_take, Nat.min_l.
Qed.

(** The header of a frame, cut into its three fields. *)
Definition header (f : Frame) : list byte := FType f :: FKey f ++ be_enc 2 (Z.of_nat (length (Payload f))).

Lemma header_fields f :
  frame_wf f → length (header f) = HeaderLen ∧ take 32 (drop 1 (header f)) = FKey f ∧
  take 2 (drop 33 (header f)) = be_enc 2 (Z.of_nat (length (Payload f))).
Proof.
  unfold frame_wf, header. intros Hk. split_and!.
  - simpl. rewrite length_app, length_be_enc, Hk. done.
  - rewrite skipn_cons, drop_0, <- Hk. apply take_app_length.
  - rewrite skipn_cons, <- Hk, drop_app_length. apply take_ge. by rewrite length_be_enc.
Qed.

Lemma ReadFrame_app f rest cl n :
  frame_wf f → (length (Payload f) <= MaxPayload)%nat → (HeaderLen + MaxPayload <= n)%nat →
  ReadFrame {| data := frame_bytes f ++ rest; clean := cl |} n = (Ok f, {| data := rest; clean := cl |}).
Proof.
  intros Hk Hp Hn. destruct (header_fields f Hk) as (Hlen & Hkey & Hlp).
  unfold ReadFrame. rewrite (proj2 (Nat.ltb_ge _ _)) by done.
  assert (frame_bytes f ++ rest = header f ++ Payload f ++ rest) as ->.
  { unfold frame_bytes, header. simpl. by rewrite <- !app_assoc. }
  rewrite <- Hlen, ReadFull_app. unfold MaxPayload in Hp.
  rewrite Hlp, be_dec_enc_small by lia. rewrite (proj2 (Z.ltb_ge _ _)) by (unfold MaxPayload; lia).
  rewrite Nat2Z.id, ReadFull_app, Hkey. by destruct f.
Qed.

Lemma ReadFrame_inv r n f r' :
  ReadFrame r n = (Ok f, r') →
  frame_wf f ∧ (length (Payload f) <= MaxPayload)%nat ∧ data r = frame_bytes f ++ data r' ∧ clean r' = clean r.
Proof.
  unfold ReadFrame. destruct (_ <? _)%nat; [done|].
  destruct (ReadFull r HeaderLen) as [[h|[]] r1] eqn:E1; try done.
  destruct (Z.ltb_spec (Z.of_nat MaxPayload) (be_dec (take 2 (drop 33 h)))) as [|Hle]; [done|].
  destruct (ReadFull r1 _) as [[p|[]] r2] eqn:E2; try done. intros [= <- <-].
  apply ReadFull_inv in E1 as (Hd1 & Hl1 & Hc1). apply ReadFull_inv in E2 as (Hd2 & Hl2 & Hc2).
  unfold HeaderLen in Hl1. pose proof (be_dec_range (take 2 (drop 33 h))) as Hr.
  assert (length (take 2 (drop 33 h)) = 2%nat) as Hl by (rewrite length_take, length_drop; lia).
  unfold frame_wf, frame_bytes. cbn [FType FKey Payload]. split_and!.
  - rewrite length_take, length_drop. lia.
  - lia.
  - assert (be_enc 2 (Z.of_nat (length p)) = take 2 (drop 33 h)) as ->.
    { rewrite Hl2, Z2Nat.id by lia. rewrite <- Hl at 1. apply be_enc_dec. }
    rewrite Hd1, Hd2. destruct h as [|b h]; [done|]. simpl in *. rewrite !app_assoc. f_equal. f_equal. f_equal.
    rewrite drop_0. rewrite <- (take_drop 32 h) at 1. f_equal. symmetry. apply take_ge.
    rewrite length_drop. lia.
  - congruence.
Qed.

(** Reading frames until the stream fails. *)
Fixpoint ReadAll (fuel : nat) (r : stream) : list Frame * frame_error :=
  match fuel with
  | O => ([], ErrRead)
  | S k => match ReadFrame r (HeaderLen + MaxPayload) with
           | (Ok f, r') => let '(fs, e) := ReadAll k r' in (f :: fs, e)
           | (Err e, _) => ([], e)
           end
  end.

Definition wire (fs : list Frame) : list byte := concat (frame_bytes <$> fs).

(** The first bytes of a frame and no more. *)
Lemma ReadFrame_prefix f k :
  frame_wf f → (length (Payload f) <= MaxPayload)%nat → (0 < k < length (frame_bytes f))%nat →
  (ReadFrame {| data := take k (frame_bytes f); clean := true |} (HeaderLen + MaxPayload)).1 = Err ErrTruncated.
Proof.
  intros Hk Hp [H0 Hlt]. destruct (header_fields f Hk) as (Hlen & Hkey & Hlp).
  assert (frame_bytes f = header f ++ Payload f) as Hb.
  { unfold frame_bytes, header. simpl. by rewrite <- app_assoc. }
  rewrite Hb in *. rewrite length_app in Hlt. unfold ReadFrame. rewrite (proj2 (Nat.ltb_ge _ _)) by done.
  destruct (decide (k < length (header f))%nat) as [Hs|Hs].
  - unfold ReadFull. cbn [data]. rewrite (proj2 (Nat.leb_gt _ _)).
    + cbn [data clean fst]. rewrite bool_decide_false; [done|]. intros Hn%(f_equal length).
      rewrite length_take, length_app in Hn. cbn [length] in Hn. lia.
    + rewrite length_take, length_app. lia.
  - rewrite take_app_ge by lia. rewrite <- Hlen, ReadFull_app. unfold MaxPayload in Hp.
    rewrite Hlp, be_dec_enc_small by lia. rewrite (proj2 (Z.ltb_ge _ _)) by (unfold MaxPayload; lia).
    rewrite Nat2Z.id. unfold ReadFull. cbn [data]. rewrite (proj2 (Nat.leb_gt _ _)) by (rewrite length_take; lia).
    simpl. by case_bool_decide.
Qed.

(** The codec is a bijection between frames and the bytes on the wire.
    Frames with a 32-byte key and at most MaxPayload bytes, written one after
    the other, are read back exactly, then a clean end of file; [Append]
    refuses exactly the larger ones; whatever is read was written by [Append];
    a stream cut inside a frame is reported as truncated, never as a frame or
    a clean end. *)
Theorem codec_roundtrip :
  (∀ fs fuel, Forall (λ f, frame_wf f ∧ (length (Payload f) <= MaxPayload)%nat) fs → (length fs < fuel)%nat →
     foldl (λ acc f, acc ≫= Append f) (Ok []) fs = Ok (wire fs) ∧
     ReadAll fuel {| data := wire fs; clean := true |} = (fs, ErrEOF)) ∧
  (∀ f buf, is_ok (Append f buf) = true ↔ (length (Payload f) <= MaxPayload)%nat) ∧
  (∀ r n f r', ReadFrame r n = (Ok f, r') →
     frame_wf f ∧ ∃ enc, Append f [] = Ok enc ∧ data r = enc ++ data r') ∧
  (∀ f k, frame_wf f → (length (Payload f) <= MaxPayload)%nat → (0 < k < length (frame_bytes f))%nat →
     (ReadFrame {| data := take k (frame_bytes f); clean := true |} (HeaderLen + MaxPayload)).1 = Err ErrTruncated).
Proof.
  split_and!.
  - intros fs fuel Hfs Hfuel. split.
    + clear fuel Hfuel. induction fs as [|f fs IH] using rev_ind; [done|].
      apply Forall_app in Hfs as [Hfs [[_ Hp] _]%Forall_cons]. rewrite foldl_app, IH by done. simpl.
      rewrite Append_ok by done. unfold wire. rewrite fmap_app, concat_app. cbn [concat fmap list_fmap]. by rewrite app_nil_r.
    + revert fs Hfs Hfuel. induction fuel as [|fuel IH]; intros fs Hfs Hfuel; [lia|].
      destruct fs as [|f fs]; [done|]. apply Forall_cons in Hfs as [[Hw Hp] Hfs].
      unfold wire. rewrite fmap_cons. cbn [concat ReadAll]. rewrite ReadFrame_app by done.
      fold (wire fs). rewrite (IH fs); [done|done|simpl in Hfuel; lia].
  - intros f buf. unfold Append. destruct (Nat.ltb_spec MaxPayload (length (Payload f))); simpl; split; try done; lia.
  - intros r n f r' H. apply ReadFrame_inv in H as (Hw & Hp & Hd & _). split; [done|].
    exists (frame_bytes f). by rewrite Append_ok.
  - apply ReadFrame_prefix.
Qed.
