(* ===== verification/RelayServer.v ===== *)
(** The relay: [internal/relay/server.go].

    [Serve], [reader], [writer], [pinger], [Prune] and [Close] run concurrently
    on shared state; here each is cut at the points where it holds a lock or
    touches a channel, and [handle] runs one such piece.  Sessions are kept in a
    store by number, as the Go code keeps them by pointer: the map from keys
    points into it, and a replaced session lives on until its goroutines end.
    One event reads the clock once. *)

From Stdlib Require Import Floats.SpecFloat.
From S2P Require Import Prelude RelayFrame.

(** ** IEEE double arithmetic of the token bucket *)

Definition f64_of_Z (z : Z) : spec_float := binary_normalize 53 1024 z 0 false.
Definition f64_add : spec_float → spec_float → spec_float := SFadd 53 1024.
Definition f64_sub : spec_float → spec_float → spec_float := SFsub 53 1024.
Definition f64_mul : spec_float → spec_float → spec_float := SFmul 53 1024.
Definition f64_div : spec_float → spec_float → spec_float := SFdiv 53 1024.

(** [time.Duration.Seconds]. *)
Definition Seconds (d : Z) : spec_float :=
  f64_add (f64_of_Z (Z.quot d second)) (f64_div (f64_of_Z (Z.rem d second)) (f64_of_Z second)).

(** ** State *)

(** What the relay asks of the control plane; [None] is a failed lookup. *)
Class Visibility (V : Type) := visible : V → Key → Key → option bool.

Record ServerOptions := {
  MaxBytesPerSecond : Z;
  QueueSize : Z;
  PingInterval : Z;
  MissedPings : Z;
  MaxViolationsPerMinute : Z;
}.

Definition withDefaults (o : ServerOptions) : ServerOptions :=
  {| MaxBytesPerSecond := MaxBytesPerSecond o;
     QueueSize := if QueueSize o <=? 0 then 256 else QueueSize o;
     PingInterval := if PingInterval o <=? 0 then 30 * second else PingInterval o;
     MissedPings := if MissedPings o <=? 0 then 3 else MissedPings o;
     MaxViolationsPerMinute := if MaxViolationsPerMinute o <=? 0 then 10 else MaxViolationsPerMinute o |}.

Record session := MkSession {
  key : Key;
  out : list Frame;
  done : bool;
  missed : Z;
  gone : gmap Key Z;
  violations : list Z;
  tokens : spec_float;
  refilled : Z;
}.

Record Stats := { sFrames : Z; sBytes : Z; sDrops : Z; sViolations : Z }.

Record Server := MkServer {
  opts : ServerOptions;
  store : gmap nat session;
  sessions : gmap Key nat;
  closed : bool;
  stats : Stats;
  next : nat;
}.

Definition NewServer (o : ServerOptions) : Server :=
  MkServer (withDefaults o) ∅ ∅ false {| sFrames := 0; sBytes := 0; sDrops := 0; sViolations := 0 |} 0.

Definition set_done (s : session) : session :=
  MkSession (key s) (out s) true (missed s) (gone s) (violations s) (tokens s) (refilled s).
Definition set_out (l : list Frame) (s : session) : session :=
  MkSession (key s) l (done s) (missed s) (gone s) (violations s) (tokens s) (refilled s).
Definition set_missed (n : Z) (s : session) : session :=
  MkSession (key s) (out s) (done s) n (gone s) (violations s) (tokens s) (refilled s).
Definition set_gone (g : gmap Key Z) (s : session) : session :=
  MkSession (key s) (out s) (done s) (missed s) g (violations s) (tokens s) (refilled s).
Definition set_violations (l : list Z) (s : session) : session :=
  MkSession (key s) (out s) (done s) (missed s) (gone s) l (tokens s) (refilled s).
Definition set_bucket (t : spec_float) (r : Z) (s : session) : session :=
  MkSession (key s) (out s) (done s) (missed s) (gone s) (violations s) t r.

Definition upd (id : nat) (f : session → session) (srv : Server) : Server :=
  MkServer (opts srv) (alter f id (store srv)) (sessions srv) (closed srv) (stats srv) (next srv).
Definition set_sessions (m : gmap Key nat) (srv : Server) : Server :=
  MkServer (opts srv) (store srv) m (closed srv) (stats srv) (next srv).
Definition count (df db dd dv : Z) (srv : Server) : Server :=
  let st := stats srv in
  MkServer (opts srv) (store srv) (sessions srv) (closed srv)
    {| sFrames := u64 (sFrames st + df); sBytes := u64 (sBytes st + db);
       sDrops := u64 (sDrops st + dd); sViolations := u64 (sViolations st + dv) |} (next srv).

(** [session.close]. *)
Definition close (id : nat) (srv : Server) : Server := upd id set_done srv.

(** [session.enqueue]. *)
Definition enqueue (id : nat) (f : Frame) (srv : Server) : Server * bool :=
  match store srv !! id with
  | None => (srv, false)
  | Some s =>
      if done s then (srv, false)
      else if Z.of_nat (length (out s)) <? QueueSize (opts srv)
      then (upd id (set_out (out s ++ [f])) srv, true)
      else (count 0 0 1 0 srv, false)
  end.

(** [allowBytes] on the session's bucket: the new bucket and the verdict. *)
Definition allowBytes (rate now n : Z) (s : session) : session * bool :=
  if rate <=? 0 then (s, true)
  else
    let t := f64_add (tokens s) (f64_mul (Seconds (Sub now (refilled s))) (f64_of_Z rate)) in
    let t := if SFltb (f64_of_Z rate) t then f64_of_Z rate else t in
    if SFltb t (f64_of_Z n) then (set_bucket t now s, false)
    else (set_bucket (f64_sub t (f64_of_Z n)) now s, true).

Definition peerGoneInterval : Z := second.

(** Whether PEER_GONE is due, and the table after it. *)
Definition gone_due (now : Z) (dst : Key) (s : session) : bool :=
  match gone s !! dst with
  | Some last => negb (Sub now last <? peerGoneInterval)
  | None => true
  end.

Definition peerGone (id : nat) (s : session) (now : Z) (dst : Key) (srv : Server) : Server * bool :=
  if gone_due now dst s
  then ((enqueue id {| FType := TypePeerGone; FKey := dst; Payload := [] |}
           (upd id (set_gone (<[dst := now]> (gone s))) srv)).1, true)
  else (srv, false).

(** The violations of the last minute, the new one included. *)
Definition minute : Z := 60 * second.
Definition recent (now : Z) (l : list Z) : list Z := slide minute now l.

Definition violation (id : nat) (s : session) (now : Z) (srv : Server) : Server * bool :=
  let l := recent now (violations s) in
  (upd id (set_violations l) srv, MaxViolationsPerMinute (opts srv) <? Z.of_nat (length l)).

(** Registered, or replacing an older session for the same key. *)
Definition open (k : Key) (now : Z) (srv : Server) : Server :=
  let srv := match sessions srv !! k with Some old => close old srv | None => srv end in
  let s := MkSession k [] false 0 ∅ [] (f64_of_Z (MaxBytesPerSecond (opts srv))) now in
  MkServer (opts srv) (<[next srv := s]> (store srv)) (<[k := next srv]> (sessions srv)) (closed srv)
    (stats srv) (S (next srv)).

(** The end of [Serve]: close, and unregister unless replaced. *)
Definition finish (id : nat) (srv : Server) : Server :=
  let srv := close id srv in
  match store srv !! id with
  | Some s => if decide (sessions srv !! key s = Some id)
              then set_sessions (delete (key s) (sessions srv)) srv else srv
  | None => srv
  end.

Definition recv_frame (src : Key) (p : list byte) : Frame := {| FType := TypeRecv; FKey := src; Payload := p |}.

(** What the outside sees of an event: a frame written to a session's
    connection, the [Absent] callback, a refused connection. *)
Inductive output := Wrote (id : nat) (f : Frame) | Absent (src dst : Key) | Refused.

Section Relay.
Context {V : Type} `{!Visibility V}.

(** [forward]: the last component says that the session must end. *)
Definition forward (id : nat) (s : session) (f : Frame) (now : Z) (v : V) (srv : Server)
    : Server * list output * bool :=
  if negb (IsWireGuard (Payload f)) then (count 0 0 1 0 srv, [], false)
  else
    let '(s, ok) := allowBytes (MaxBytesPerSecond (opts srv)) now (Z.of_nat (length (Payload f))) s in
    let srv := upd id (λ _, s) srv in
    if negb ok then (count 0 0 1 0 srv, [], false)
    else
      match visible v (key s) (FKey f) with
      | None => (count 0 0 1 0 srv, [], false)
      | Some false =>
          let '(srv, _) := peerGone id s now (FKey f) (count 0 0 0 1 srv) in
          let '(srv, stop) := violation id (default s (store srv !! id)) now srv in
          (srv, [], stop)
      | Some true =>
          match sessions srv !! FKey f with
          | None =>
              let '(srv, told) := peerGone id s now (FKey f) srv in
              (srv, if told then [Absent (key s) (FKey f)] else [], false)
          | Some dst =>
              let '(srv, sent) := enqueue dst (recv_frame (key s) (Payload f)) srv in
              (if sent then count 1 (Z.of_nat (length (Payload f))) 0 0 srv else srv, [], false)
          end
      end.

(** One piece of one goroutine. *)
Inductive event :=
  | EvServe (k : Key) (now : Z)
  | EvFrame (id : nat) (f : Frame) (now : Z) (v : V)
  | EvReadFail (id : nat)
  | EvWrite (id : nat) (ok : bool)
  | EvTick (id : nat)
  | EvCancel (id : nat)
  | EvPrune (keep : Key → bool)
  | EvClose.

Definition on_frame (id : nat) (s : session) (f : Frame) (now : Z) (v : V) (srv : Server) : Server * list output :=
  if decide (FType f = TypeSend) then
    let '(srv, os, stop) := forward id s f now v srv in
    (if stop then finish id srv else srv, os)
  else if decide (FType f = TypePing) then
    ((enqueue id {| FType := TypePong; FKey := zeroKey; Payload := [] |} srv).1, [])
  else if decide (FType f = TypePong) then (upd id (set_missed 0) srv, [])
  else (srv, []).

Definition on_write (id : nat) (s : session) (ok : bool) (srv : Server) : Server * list output :=
  match out s with
  | [] => (srv, [])
  | f :: rest =>
      let srv := upd id (set_out rest) srv in
      if ok then (srv, [Wrote id f]) else (close id srv, [])
  end.

Definition on_tick (id : nat) (s : session) (srv : Server) : Server :=
  if done s then srv
  else
    let srv := upd id (set_missed (missed s + 1)) srv in
    if MissedPings (opts srv) <? missed s + 1 then close id srv
    else (enqueue id {| FType := TypePing; FKey := zeroKey; Payload := [] |} srv).1.

(** [Prune] and [Close] walk the registered sessions. *)
Definition close_where (P : Key → bool) (srv : Server) : Server :=
  MkServer (opts srv)
    (map_imap (λ id s, Some (if P (key s) && bool_decide (sessions srv !! key s = Some id) then set_done s else s)) (store srv))
    (sessions srv) (closed srv) (stats srv) (next srv).

Definition set_closed (srv : Server) : Server :=
  MkServer (opts srv) (store srv) (sessions srv) true (stats srv) (next srv).

Definition with_session (id : nat) (srv : Server) (k : session → Server * list output) : Server * list output :=
  match store srv !! id with Some s => k s | None => (srv, []) end.

Definition handle (srv : Server) (e : event) : Server * list output :=
  match e with
  | EvServe k now => if closed srv then (srv, [Refused]) else (open k now srv, [])
  | EvFrame id f now v => with_session id srv (λ s, on_frame id s f now v srv)
  | EvReadFail id => (finish id srv, [])
  | EvWrite id ok => with_session id srv (λ s, on_write id s ok srv)
  | EvTick id => with_session id srv (λ s, (on_tick id s srv, []))
  | EvCancel id => (close id srv, [])
  | EvPrune keep => (close_where (λ k, negb (keep k)) srv, [])
  | EvClose => (set_closed (close_where (λ _, true) srv), [])
  end.

Definition run (o : ServerOptions) (es : list event) : Server * list output :=
  foldl (λ '(srv, os) e, let '(srv', os') := handle srv e in (srv', os ++ os')) (NewServer o, []) es.

Definition Connected (k : Key) (srv : Server) : bool := bool_decide (is_Some (sessions srv !! k)).
End Relay.

(** ** Invariant *)

Section Safety.
Context {V : Type} `{!Visibility V}.

(** A RECV frame for the session of key [d] answers a SEND the relay let
    through: read from a session of the frame's own key, addressed to [d], with
    the same WireGuard payload, the pair visible at that moment. *)
Definition justified (es : list (@event V)) (keys : gmap nat Key) (d : Key) (f : Frame) : Prop :=
  ∃ id g now v, EvFrame id g now v ∈ es ∧ keys !! id = Some (FKey f) ∧ FType g = TypeSend ∧ FKey g = d ∧
    Payload g = Payload f ∧ IsWireGuard (Payload f) = true ∧ visible v (FKey f) d = Some true.

Definition keys_of (srv : Server) : gmap nat Key := key <$> store srv.

Record Inv (o : ServerOptions) (es : list (@event V)) (srv : Server) : Prop := {
  inv_opts : opts srv = withDefaults o;
  inv_registered : ∀ k id, sessions srv !! k = Some id → keys_of srv !! id = Some k;
  inv_live : ∀ id s, store srv !! id = Some s → done s = false → sessions srv !! key s = Some id;
  inv_queue : ∀ id s, store srv !! id = Some s → Z.of_nat (length (out s)) <= QueueSize (opts srv);
  inv_next : ∀ id s, store srv !! id = Some s → (id < next srv)%nat;
  inv_recv : ∀ id s f, store srv !! id = Some s → f ∈ out s → FType f = TypeRecv →
    justified es (keys_of srv) (key s) f;
  inv_closed : closed srv = true → ∀ id s, store srv !! id = Some s → done s = true;
  inv_missed : ∀ id s, store srv !! id = Some s → done s = false → missed s <= MissedPings (opts srv);
}.

Lemma justified_mono es es' keys keys' d f :
  es ⊆ es' → keys ⊆ keys' → justified es keys d f → justified es' keys' d f.
Proof.
  intros He Hk (id & g & now & v & H1 & H2 & H3). exists id, g, now, v.
  split; [by apply He|]. split; [by eapply lookup_weaken|done].
Qed.

Lemma inv_mono o es es' srv : es ⊆ es' → Inv o es srv → Inv o es' srv.
Proof.
  intros He []. split; try done. intros. eapply justified_mono; [exact He|done|]. eauto.
Qed.

Lemma withDefaults_queue o : 0 < QueueSize (withDefaults o).
Proof. simpl. destruct (QueueSize o <=? 0) eqn:E; go_bool; lia. Qed.

Lemma withDefaults_pings o : 0 < MissedPings (withDefaults o).
Proof. simpl. destruct (MissedPings o <=? 0) eqn:E; go_bool; lia. Qed.

Lemma keys_of_upd id g srv : (∀ s, store srv !! id = Some s → key (g s) = key s) → keys_of (upd id g srv) = keys_of srv.
Proof.
  intros Hk. apply map_eq. intros i. unfold keys_of, upd. simpl. rewrite !lookup_fmap.
  destruct (decide (i = id)) as [->|Hne]; [|by rewrite lookup_alter_ne].
  rewrite lookup_alter_eq. destruct (store srv !! id) as [s|] eqn:E; simpl; [|done]. by rewrite Hk.
Qed.

Lemma upd_lookup id g srv i s :
  store (upd id g srv) !! i = Some s →
  (i = id ∧ ∃ s0, store srv !! id = Some s0 ∧ s = g s0) ∨ (i ≠ id ∧ store srv !! i = Some s).
Proof.
  unfold upd. simpl. destruct (decide (i = id)) as [->|Hne].
  - rewrite lookup_alter_eq. intros (s0 & ? & ->)%fmap_Some. eauto.
  - rewrite lookup_alter_ne by done. auto.
Qed.

Lemma upd_upd id g1 g2 srv : upd id g2 (upd id g1 srv) = upd id (g2 ∘ g1) srv.
Proof.
  unfold upd. simpl. f_equal. apply map_eq. intros i.
  destruct (decide (i = id)) as [->|Hne]; [|by rewrite !lookup_alter_ne].
  rewrite !lookup_alter_eq. by destruct (store srv !! id).
Qed.

(** Updating one session. *)
Lemma upd_inv o es srv id g :
  Inv o es srv →
  (∀ s, store srv !! id = Some s →
     key (g s) = key s ∧ (done s = true → done (g s) = true) ∧
     Z.of_nat (length (out (g s))) <= QueueSize (opts srv) ∧
     (∀ f, f ∈ out (g s) → FType f = TypeRecv → f ∈ out s ∨ justified es (keys_of srv) (key s) f) ∧
     (done (g s) = false → missed (g s) <= MissedPings (opts srv))) →
  Inv o es (upd id g srv).
Proof.
  intros HI Hg. assert (keys_of (upd id g srv) = keys_of srv) as Hk.
  { apply keys_of_upd. intros s Hs. by apply Hg. }
  split; rewrite ?Hk; try apply HI.
  - intros i s [(-> & s0 & H0 & ->)|[Hne Hs]]%upd_lookup Hd; simpl.
    + destruct (Hg s0 H0) as (-> & Hd' & _). apply (inv_live _ _ _ HI); [done|].
      destruct (done s0); [by rewrite Hd' in Hd|done].
    + by apply (inv_live _ _ _ HI).
  - intros i s [(-> & s0 & H0 & ->)|[Hne Hs]]%upd_lookup; [by apply (Hg s0 H0)|by apply (inv_queue _ _ _ HI i)].
  - intros i s [(-> & s0 & H0 & ->)|[Hne Hs]]%upd_lookup; simpl; by eapply (inv_next _ _ _ HI).
  - intros i s f [(-> & s0 & H0 & ->)|[Hne Hs]]%upd_lookup Hf Ht.
    + destruct (Hg s0 H0) as (-> & _ & _ & Hj & _). destruct (Hj f Hf Ht) as [Hin|?]; [|done].
      by apply (inv_recv _ _ _ HI id).
    + by apply (inv_recv _ _ _ HI i).
  - intros Hc i s [(-> & s0 & H0 & ->)|[Hne Hs]]%upd_lookup.
    + apply (Hg s0 H0). by apply (inv_closed _ _ _ HI Hc id).
    + by apply (inv_closed _ _ _ HI Hc i).
  - intros i s [(-> & s0 & H0 & ->)|[Hne Hs]]%upd_lookup; [by apply (Hg s0 H0)|by apply (inv_missed _ _ _ HI i)].
Qed.

(** Updates that touch neither the key, the queue nor a closed session. *)
Lemma upd_quiet_inv o es srv id g :
  Inv o es srv → (∀ s, key (g s) = key s ∧ (done s = true → done (g s) = true) ∧ out (g s) = out s ∧
    (missed (g s) = missed s ∨ missed (g s) = 0)) →
  Inv o es (upd id g srv).
Proof.
  intros HI Hg. apply upd_inv; [done|]. intros s Hs. destruct (Hg s) as (-> & Hd & -> & Hm).
  split_and!; try done; [by eapply inv_queue|auto|]. intros Hd'.
  destruct Hm as [-> | ->].
  - apply (inv_missed _ _ _ HI id); [done|]. destruct (done s); [|done]. by rewrite Hd in Hd'.
  - rewrite (inv_opts _ _ _ HI). pose proof (withDefaults_pings o). lia.
Qed.

Lemma count_inv o es srv a b d e : Inv o es srv → Inv o es (count a b d e srv).
Proof. intros []. by split. Qed.

Lemma close_inv o es srv id : Inv o es srv → Inv o es (close id srv).
Proof. intros. apply upd_quiet_inv; auto. Qed.

Lemma keys_of_lookup srv id s : store srv !! id = Some s → keys_of srv !! id = Some (key s).
Proof. intros H. unfold keys_of. by rewrite lookup_fmap, H. Qed.

Lemma keys_of_inv srv id k : keys_of srv !! id = Some k → ∃ s, store srv !! id = Some s ∧ key s = k.
Proof. unfold keys_of. rewrite lookup_fmap. intros (s & ? & ->)%fmap_Some. eauto. Qed.

Lemma enqueue_inv o es srv id f :
  Inv o es srv →
  (FType f = TypeRecv → ∀ s, store srv !! id = Some s → justified es (keys_of srv) (key s) f) →
  Inv o es (enqueue id f srv).1.
Proof.
  intros HI Hf. unfold enqueue. destruct (store srv !! id) as [s|] eqn:E; [|done].
  destruct (done s) eqn:Ed; [done|]. destruct (_ <? _) eqn:El; simpl; [|by apply count_inv].
  go_bool. apply upd_inv; [done|]. intros s' Hs'. simplify_eq. simpl. split_and!; try done.
  - rewrite length_app. simpl. lia.
  - intros f' [?| ->%list_elem_of_singleton]%elem_of_app Ht; [by left|]. right. by apply Hf.
  - by apply (inv_missed _ _ _ HI id).
Qed.

Lemma finish_inv o es srv id : Inv o es srv → Inv o es (finish id srv).
Proof.
  intros HI%(close_inv _ _ _ id). unfold finish. set (srv' := close id srv) in *.
  destruct (store srv' !! id) as [s|] eqn:E; [|done]. case_decide as Hr; [|done].
  assert (done s = true) as Hd.
  { apply upd_lookup in E as [(_ & s0 & _ & ->)|[? _]]; done. }
  destruct HI as [I1 I2 I3 I4 I5 I6 I7 I8]. split; try done; simpl.
  - intros k i [? Hk]%lookup_delete_Some. by apply I2.
  - intros i s' Hs' Hd'. rewrite lookup_delete_ne; [by apply I3|].
    intros Hkey. specialize (I3 i s' Hs' Hd'). rewrite <- Hkey, Hr in I3. injection I3 as ->. change (store srv' !! i = Some s') in Hs'. congruence.
Qed.

Lemma open_inv o es srv k now : Inv o es srv → closed srv = false → Inv o es (open k now srv).
Proof.
  intros HI Hc. unfold open.
  set (srv1 := match sessions srv !! k with Some old => close old srv | None => srv end).
  assert (Inv o es srv1) as HI1 by (subst srv1; destruct (sessions srv !! k); [by apply close_inv|done]).
  assert (∀ i s, store srv1 !! i = Some s → done s = false → key s ≠ k) as Hold.
  { intros i s Hs Hd <-. assert (sessions srv1 = sessions srv) as Hse by (subst srv1; by destruct (sessions srv !! key s)).
    pose proof (inv_live _ _ _ HI1 i s Hs Hd) as Hl. rewrite Hse in Hl.
    subst srv1. rewrite Hl in Hs. unfold close in Hs. apply upd_lookup in Hs as [(_ & s0 & _ & ->)|[? _]]; done. }
  assert (store srv1 !! next srv1 = None) as Hfresh.
  { destruct (store srv1 !! next srv1) eqn:E; [|done]. apply (inv_next _ _ _ HI1) in E. lia. }
  assert (closed srv1 = false) as Hc1 by (subst srv1; by destruct (sessions srv !! k)).
  clearbody srv1. set (s := MkSession _ _ _ _ _ _ _ _).
  assert (keys_of srv1 ⊆ key <$> (<[next srv1:=s]> (store srv1))) as Hsub.
  { unfold keys_of. rewrite fmap_insert. apply insert_subseteq. by rewrite lookup_fmap, Hfresh. }
  destruct HI1 as [I1 I2 I3 I4 I5 I6 I7 I8]. split; simpl; try done.
  - intros k' i [(<- & <-)|[Hne Hk]]%lookup_insert_Some.
    + unfold keys_of. simpl. by rewrite fmap_insert, lookup_insert_eq.
    + eapply lookup_weaken; [by apply I2|exact Hsub].
  - intros i s' [(<- & <-)|[Hne Hs]]%lookup_insert_Some Hd; [by rewrite lookup_insert_eq|].
    rewrite lookup_insert_ne; [by apply I3|]. intros E. by apply (Hold i s').
  - intros i s' [(<- & <-)|[Hne Hs]]%lookup_insert_Some; [|by apply (I4 i)]. simpl. rewrite I1.
    pose proof (withDefaults_queue o). lia.
  - intros i s' [(<- & <-)|[Hne Hs]]%lookup_insert_Some; [lia|]. specialize (I5 i s' Hs). lia.
  - intros i s' f [(<- & <-)|[Hne Hs]]%lookup_insert_Some Hf Ht; [by apply elem_of_nil in Hf|].
    eapply justified_mono; [done|exact Hsub|]. by apply (I6 i).
  - congruence.
  - intros i s' [(<- & <-)|[Hne Hs]]%lookup_insert_Some Hd; [|by apply (I8 i)]. simpl. rewrite I1.
    pose proof (withDefaults_pings o). lia.
Qed.

Lemma close_where_keys P srv : keys_of (close_where P srv) = keys_of srv.
Proof.
  apply map_eq. intros i. unfold keys_of, close_where. simpl. rewrite !lookup_fmap, map_lookup_imap.
  destruct (store srv !! i) as [s|]; simpl; [|done]. by destruct (_ && _).
Qed.

Lemma close_where_lookup P srv i s :
  store (close_where P srv) !! i = Some s →
  ∃ s0, store srv !! i = Some s0 ∧ key s = key s0 ∧ out s = out s0 ∧ (done s = false → done s0 = false) ∧ missed s = missed s0 ∧
        (P (key s0) = true → sessions srv !! key s0 = Some i → done s = true).
Proof.
  unfold close_where. simpl. rewrite map_lookup_imap. destruct (store srv !! i) as [s0|]; simpl; [|done].
  intros [= <-]. exists s0. split; [done|]. destruct (P (key s0)); simpl; [|done].
  by case_bool_decide.
Qed.

Lemma close_where_inv o es srv P : Inv o es srv → Inv o es (close_where P srv).
Proof.
  intros HI. split; rewrite ?close_where_keys; try apply HI.
  - intros i s (s0 & Hs & -> & _ & Hd & _ & _)%close_where_lookup Hd'. simpl. apply (inv_live _ _ _ HI); auto.
  - intros i s (s0 & Hs & _ & -> & _)%close_where_lookup. by apply (inv_queue _ _ _ HI i).
  - intros i s (s0 & Hs & _)%close_where_lookup. by apply (inv_next _ _ _ HI i s0).
  - intros i s f (s0 & Hs & -> & -> & _)%close_where_lookup. by apply (inv_recv _ _ _ HI i).
  - intros Hc i s (s0 & Hs & _ & _ & Hd & _)%close_where_lookup.
    pose proof (inv_closed _ _ _ HI Hc i s0 Hs). destruct (done s); [done|]. naive_solver.
  - intros i s (s0 & Hs & _ & _ & Hd & -> & _)%close_where_lookup Hd'. apply (inv_missed _ _ _ HI i s0); auto.
Qed.

(** *** Every event keeps the invariant *)

Lemma allowBytes_same rate now n s :
  let s' := (allowBytes rate now n s).1 in
  key s' = key s ∧ out s' = out s ∧ done s' = done s ∧ missed s' = missed s.
Proof. unfold allowBytes. destruct (rate <=? 0); [done|]. simpl. by destruct (SFltb _ _). Qed.

Lemma peerGone_inv o es srv id s now dst : Inv o es srv → Inv o es (peerGone id s now dst srv).1.
Proof.
  intros HI. unfold peerGone. destruct (gone_due now dst s); [|done]. simpl.
  apply enqueue_inv; [|done]. apply upd_quiet_inv; auto.
Qed.

Lemma violation_inv o es srv id s now : Inv o es srv → Inv o es (violation id s now srv).1.
Proof. intros HI. apply upd_quiet_inv; auto. Qed.

Lemma forward_inv o es srv id s f now v :
  Inv o es srv → store srv !! id = Some s → EvFrame id f now v ∈ es → FType f = TypeSend →
  Inv o es (forward id s f now v srv).1.1.
Proof.
  intros HI Hs Hev Ht. unfold forward. destruct (IsWireGuard (Payload f)) eqn:Hw; simpl; [|by apply count_inv].
  pose proof (allowBytes_same (MaxBytesPerSecond (opts srv)) now (Z.of_nat (length (Payload f))) s) as (Hk & Ho & Hd & Hm).
  destruct (allowBytes _ _ _ s) as [s1 ok]. simpl in Hk, Ho, Hd, Hm.
  set (srv1 := upd id (λ _, s1) srv).
  assert (Inv o es srv1) as HI1.
  { apply upd_inv; [done|]. intros s' Hs'. simplify_eq. rewrite Hk, Ho, Hd, Hm.
    split_and!; try done; [by eapply inv_queue|auto|by eapply inv_missed]. }
  assert (keys_of srv1 !! id = Some (key s1)) as Hkey.
  { unfold srv1, keys_of, upd. simpl. by rewrite lookup_fmap, lookup_alter_eq, Hs. }
  assert (sessions srv = sessions srv1) as -> by done.
  clearbody srv1. destruct ok; simpl; [|by apply count_inv].
  destruct (visible v (key s1) (FKey f)) as [[]|] eqn:Hv; [| |by apply count_inv].
  - destruct (sessions srv1 !! FKey f) as [dst|] eqn:Hdst.
    + assert (Inv o es (enqueue dst (recv_frame (key s1) (Payload f)) srv1).1) as HI2.
      { apply enqueue_inv; [done|]. intros _ s' Hs'. exists id, f, now, v.
        apply (inv_registered _ _ _ HI1), keys_of_inv in Hdst as (s2 & Hs2 & Hkd). simplify_eq.
        by rewrite Hkd. }
      destruct (enqueue dst _ srv1) as [srv2 sent]. simpl in *. destruct sent; [by apply count_inv|done].
    + pose proof (peerGone_inv o es srv1 id s1 now (FKey f) HI1) as HI2.
      by destruct (peerGone id s1 now (FKey f) srv1).
  - pose proof (peerGone_inv o es _ id s1 now (FKey f) (count_inv _ _ _ 0 0 0 1 HI1)) as HI2.
    destruct (peerGone id s1 now (FKey f) _) as [srv2 told]. simpl in HI2.
    exact (violation_inv o es srv2 id (default s1 (store srv2 !! id)) now HI2).
Qed.

(** A frame written to a connection was in that session's queue. *)
Definition wrote_justified (es : list (@event V)) (srv : Server) (x : output) : Prop :=
  match x with
  | Wrote id f => FType f = TypeRecv → ∃ d, keys_of srv !! id = Some d ∧ justified es (keys_of srv) d f
  | _ => True
  end.

Lemma forward_outputs id s f now v srv :
  Forall (λ x, ∃ a b, x = Absent a b) (forward id s f now v srv).1.2.
Proof.
  unfold forward, violation. destruct (negb (IsWireGuard _)); simpl; [constructor|].
  destruct (allowBytes _ _ _ s) as [s1 ok]. destruct ok; simpl; [|constructor].
  destruct (visible v _ _) as [[]|]; [|by destruct (peerGone _ _ _ _ _); constructor|constructor].
  destruct (sessions _ !! FKey f).
  - destruct (enqueue _ _ _). constructor.
  - destruct (peerGone _ _ _ _ _) as [? []]; [|constructor]. constructor; [eauto|constructor].
Qed.

Lemma handle_inv o es srv e :
  Inv o es srv → e ∈ es →
  Inv o es (handle srv e).1 ∧ Forall (wrote_justified es (handle srv e).1) (handle srv e).2.
Proof.
  intros HI He. destruct e as [k now|id f now v|id|id ok|id|id|keep|]; simpl.
  - destruct (closed srv) eqn:Hc; simpl; [split; [done|by repeat constructor]|].
    split; [by apply open_inv|constructor].
  - unfold with_session. destruct (store srv !! id) as [s|] eqn:Hs; [|split; [done|constructor]].
    unfold on_frame. repeat case_decide; simpl.
    + pose proof (forward_inv o es srv id s f now v HI Hs He ltac:(done)) as HI'.
      pose proof (forward_outputs id s f now v srv) as Ho.
      destruct (forward id s f now v srv) as [[srv' os] stop]. simpl in *.
      split; [destruct stop; [by apply finish_inv|done]|].
      eapply Forall_impl; [exact Ho|]. by intros ? (? & ? & ->).
    + split; [|constructor]. by apply enqueue_inv.
    + split; [|constructor]. apply upd_quiet_inv; auto.
    + by split; [|constructor].
  - split; [by apply finish_inv|constructor].
  - unfold with_session. destruct (store srv !! id) as [s|] eqn:Hs; [|split; [done|constructor]].
    unfold on_write. destruct (out s) as [|f rest] eqn:Ho; [by split; [|constructor]|].
    assert (Inv o es (upd id (set_out rest) srv)) as HI'.
    { apply upd_inv; [done|]. intros s' Hs'. simplify_eq. simpl. split_and!; try done.
      - pose proof (inv_queue _ _ _ HI id _ Hs) as Hq. rewrite Ho in Hq. simpl in Hq. lia.
      - intros f' Hf' _. left. rewrite Ho. by constructor.
      - by apply (inv_missed _ _ _ HI id). }
    destruct ok; simpl; [|split; [by apply close_inv|constructor]].
    split; [done|constructor; [|constructor]].
    intros Ht. exists (key s). rewrite keys_of_upd by done. split; [by apply keys_of_lookup|].
    apply (inv_recv _ _ _ HI id); [done|rewrite Ho; by constructor|done].
  - unfold with_session. destruct (store srv !! id) as [s|] eqn:Hs; simpl; (split; [|constructor]); [|done].
    unfold on_tick. destruct (done s) eqn:Hd; [done|]. change (opts (upd _ _ srv)) with (opts srv).
    destruct (Z.ltb_spec (MissedPings (opts srv)) (missed s + 1)).
    + unfold close. rewrite upd_upd. apply upd_inv; [done|]. intros s' Hs'. simplify_eq. simpl.
      split_and!; try done; [by eapply inv_queue|auto].
    + apply enqueue_inv; [|done]. apply upd_inv; [done|]. intros s' Hs'. simplify_eq. simpl.
      split_and!; try done; [by eapply inv_queue|auto].
  - split; [by apply close_inv|constructor].
  - split; [by apply close_where_inv|constructor].
  - split; [|constructor]. pose proof (close_where_inv o es srv (λ _, true) HI) as HI'.
    destruct HI' as [I1 I2 I3 I4 I5 I6 I7 I8]. split; try done. intros _ id s Hs.
    destruct (done s) eqn:Hd; [done|].
    pose proof Hs as (s0 & Hs0 & Hk & _ & Hd0 & _ & Hc)%close_where_lookup. rewrite <- Hd. apply Hc; [done|].
    rewrite <- Hk. by apply (I3 id s).
Qed.

(** *** What happens to a session already there

    It keeps its key, never comes back to life and, except for a tick of its
    pinger and its own PONG (ids outside [X]), keeps its count of missed pings. *)

Definition grows (X : nat → Prop) (srv srv' : Server) : Prop :=
  ∀ id s, store srv !! id = Some s →
    ∃ s', store srv' !! id = Some s' ∧ key s' = key s ∧ (done s = true → done s' = true) ∧
          (X id → missed s' = missed s).

#[export] Instance grows_preorder X : PreOrder (grows X).
Proof.
  split; unfold grows; [intros srv id s Hs; by exists s|].
  intros srv1 srv2 srv3 H1 H2 id s Hs. destruct (H1 _ _ Hs) as (s2 & Hs2 & Hk & Hd & Hm).
  destruct (H2 _ _ Hs2) as (s3 & Hs3 & Hk' & Hd' & Hm'). exists s3. split_and!; try congruence; auto.
  intros Hb. rewrite Hm', Hm; auto.
Qed.

Lemma grows_same X srv srv' : store srv' = store srv → grows X srv srv'.
Proof. intros H id s Hs. exists s. by rewrite H. Qed.

#[local] Hint Extern 0 (grows _ _ _) => apply grows_same; reflexivity : core.

Lemma grows_keys X srv srv' : grows X srv srv' → keys_of srv ⊆ keys_of srv'.
Proof.
  intros H. apply map_subseteq_spec. intros id k (s & Hs & <-)%keys_of_inv.
  destruct (H id s Hs) as (s' & Hs' & <- & _). by apply keys_of_lookup.
Qed.

Lemma grows_upd X id g srv :
  (∀ s, store srv !! id = Some s → key (g s) = key s ∧ (done s = true → done (g s) = true) ∧
     (X id → missed (g s) = missed s)) →
  grows X srv (upd id g srv).
Proof.
  intros H i s Hs. unfold upd. simpl. destruct (decide (i = id)) as [->|Hne].
  - rewrite lookup_alter_eq, Hs. simpl. exists (g s). split; [done|]. by apply H.
  - rewrite lookup_alter_ne by done. by exists s.
Qed.

Lemma grows_enqueue X id f srv : grows X srv (enqueue id f srv).1.
Proof.
  unfold enqueue. destruct (store srv !! id); [|done]. destruct (done _); [done|].
  destruct (_ <? _); [by apply grows_upd|done].
Qed.

Lemma grows_finish X id srv : grows X srv (finish id srv).
Proof.
  assert (grows X srv (close id srv)) as H by by apply grows_upd.
  unfold finish. destruct (store _ !! id); [|done]. by case_decide.
Qed.

Lemma grows_peerGone X id s now dst srv : grows X srv (peerGone id s now dst srv).1.
Proof.
  unfold peerGone. destruct (gone_due now dst s); [|done]. simpl.
  etrans; [|apply grows_enqueue]. by apply grows_upd.
Qed.

Lemma grows_forward X id s f now v srv :
  store srv !! id = Some s → grows X srv (forward id s f now v srv).1.1.
Proof.
  intros Hs. unfold forward. destruct (negb (IsWireGuard _)); [done|].
  pose proof (allowBytes_same (MaxBytesPerSecond (opts srv)) now (Z.of_nat (length (Payload f))) s)
    as (Hk & _ & Hd & Hm).
  destruct (allowBytes _ _ _ s) as [s1 ok]. simpl in Hk, Hd, Hm.
  assert (grows X srv (upd id (λ _, s1) srv)) as H1.
  { apply grows_upd. intros s' Hs'. simplify_eq. split_and!; [done|by rewrite Hd|done]. }
  set (srv1 := upd id (λ _, s1) srv) in *. destruct ok; cbn [negb]; [|done].
  destruct (visible v _ _) as [[]|]; [| |done].
  - destruct (sessions srv1 !! FKey f) as [dst|].
    + pose proof (grows_enqueue X dst (recv_frame (key s1) (Payload f)) srv1) as H2.
      destruct (enqueue dst _ srv1) as [srv2 sent]. destruct sent; by etrans.
    + pose proof (grows_peerGone X id s1 now (FKey f) srv1) as H2. destruct (peerGone _ _ _ _ _). by etrans.
  - pose proof (grows_peerGone X id s1 now (FKey f) (count 0 0 0 1 srv1)) as H2.
    destruct (peerGone _ _ _ _ _) as [srv2 b2]. simpl. etrans; [exact H1|]. etrans; [exact H2|]. by apply grows_upd.
Qed.

Lemma grows_open X o es k now srv : Inv o es srv → grows X srv (open k now srv).
Proof.
  intros HI. unfold open. set (srv1 := match sessions srv !! k with Some old => close old srv | None => srv end).
  assert (grows X srv srv1) as H1 by (subst srv1; destruct (sessions srv !! k); [by apply grows_upd|done]).
  assert (Inv o es srv1) as HI1 by (subst srv1; destruct (sessions srv !! k); [by apply close_inv|done]).
  etrans; [exact H1|]. clearbody srv1. intros id s Hs. simpl. exists s.
  pose proof (inv_next _ _ _ HI1 id s Hs). by rewrite lookup_insert_ne by lia.
Qed.

Lemma grows_close_where X P srv : grows X srv (close_where P srv).
Proof.
  intros id s Hs. unfold close_where. simpl. rewrite map_lookup_imap, Hs. simpl.
  eexists. split; [done|]. by destruct (_ && _).
Qed.

(** The events that touch a count of missed pings: a tick, a PONG. *)
Definition pongs (e : @event V) : option nat :=
  match e with EvFrame id f _ _ => if decide (FType f = TypePong) then Some id else None | _ => None end.
Definition ticks (e : @event V) : option nat := match e with EvTick id => Some id | _ => None end.

Lemma grows_handle X o es srv e :
  Inv o es srv → (∀ i, X i → pongs e ≠ Some i ∧ ticks e ≠ Some i) → grows X srv (handle srv e).1.
Proof.
  intros HI Hb. destruct e as [k now|id f now v|id|id ok|id|id|keep|]; simpl.
  - destruct (closed srv); [done|]. by eapply grows_open.
  - unfold with_session. destruct (store srv !! id) as [s|] eqn:Hs; [|by apply grows_same]. unfold on_frame.
    unfold pongs, ticks in Hb.
    destruct (decide (FType f = TypeSend)); [|destruct (decide (FType f = TypePing));
      [apply grows_enqueue|destruct (decide (FType f = TypePong)); [|by apply grows_same]]].
    + pose proof (grows_forward X id s f now v srv Hs) as H1. destruct (forward _ _ _ _ _ _) as [[srv1 os] stop].
      simpl in *. destruct stop; [|done]. etrans; [exact H1|apply grows_finish].
    + apply grows_upd. intros s' _. split_and!; [done..|]. intros Hbt. by destruct (Hb id Hbt).
  - apply grows_finish.
  - unfold with_session. destruct (store srv !! id) as [s|] eqn:Hs; [|by apply grows_same]. unfold on_write.
    destruct (out s) as [|f rest]; [done|]. destruct ok; [by apply grows_upd|]. simpl.
    etrans; [by apply (grows_upd X id (set_out rest))|by apply grows_upd].
  - unfold with_session. destruct (store srv !! id) as [s|] eqn:Hs; [|by apply grows_same]. unfold on_tick. simpl.
    destruct (done s); [done|].
    assert (grows X srv (upd id (set_missed (missed s + 1)) srv)) as H1.
    { apply grows_upd. intros s' _. split_and!; [done..|]. intros Hbt. by destruct (Hb id Hbt). }
    destruct (_ <? _); (etrans; [exact H1|]); [by apply grows_upd|apply grows_enqueue].
  - by apply grows_upd.
  - apply grows_close_where.
  - apply (grows_close_where X (λ _, true)).
Qed.

Lemma relay_run_snoc o es e :
  run o (es ++ [e]) = let r := handle (run o es).1 e in (r.1, (run o es).2 ++ r.2).
Proof.
  unfold run. rewrite foldl_app. simpl. destruct (foldl _ _ es) as [srv os]. simpl.
  by destruct (handle srv e).
Qed.

Lemma relay_run_inv o es : Inv o es (run o es).1 ∧ Forall (wrote_justified es (run o es).1) (run o es).2.
Proof.
  induction es as [|e es [IH1 IH2]] using rev_ind.
  { split; [|constructor]. split; try done. }
  rewrite relay_run_snoc. cbn [fst snd].
  assert (es ⊆ es ++ [e]) as Hsub by (intros x; rewrite elem_of_app; auto).
  pose proof (inv_mono _ _ _ _ Hsub IH1) as HI.
  destruct (handle_inv o (es ++ [e]) _ e HI) as [H1 H2]; [apply elem_of_app; right; by constructor|].
  split; [done|]. apply Forall_app. split; [|done].
  eapply Forall_impl; [exact IH2|]. intros [id f| |]; simpl; try done.
  intros Hj Ht. destruct (Hj Ht) as (d & Hd & Hjd). pose proof (grows_keys (λ _, False) _ _ (grows_handle (λ _, False) o _ _ e HI ltac:(done))) as Hg.
  exists d. split; [by eapply lookup_weaken|]. by eapply justified_mono.
Qed.
End Safety.

(** Every RECV frame written answers a SEND that was let through. *)
Lemma relay_writes {V} `{!Visibility V} (o : ServerOptions) (es : list (@event V)) id f :
  Wrote id f ∈ (run o es).2 → FType f = TypeRecv →
  ∃ s id' s' g now v, store (run o es).1 !! id = Some s ∧ store (run o es).1 !! id' = Some s' ∧ key s' = FKey f ∧
    EvFrame id' g now v ∈ es ∧ FType g = TypeSend ∧ FKey g = key s ∧ Payload g = Payload f ∧
    IsWireGuard (Payload f) = true ∧ visible v (key s') (key s) = Some true.
Proof.
  pose proof (relay_run_inv o es) as [HI Hos]. destruct (run o es) as [srv os]. cbn [fst snd] in *.
  intros Hin Ht. rewrite Forall_forall in Hos. specialize (Hos _ Hin Ht) as (d & Hd & Hj).
  apply keys_of_inv in Hd as (s & Hs & <-). destruct Hj as (id' & g & now & v & Hev & Hk & H1 & H2 & H3 & H4 & H5).
  apply keys_of_inv in Hk as (s' & Hs' & Hk'). exists s, id', s', g, now, v. by rewrite Hk'.
Qed.

(** The relay never misdelivers.  Whatever happens and in whatever order,
    every RECV frame written to a session's connection answers a SEND read
    from a session authenticated with the key the frame names, addressed to
    the receiving session's key, with the same payload, which looks like
    WireGuard, and the control plane had answered that the two peers see each
    other.  Queues never exceed their bound, each key has at most one live
    session (the registered one), and after Close none is live. *)
Theorem relay_delivery {V} `{!Visibility V} (o : ServerOptions) (es : list (@event V)) :
  let (srv, os) := run o es in
  (∀ id f, Wrote id f ∈ os → FType f = TypeRecv →
     ∃ s id' s' g now v, store srv !! id = Some s ∧ store srv !! id' = Some s' ∧ key s' = FKey f ∧
       EvFrame id' g now v ∈ es ∧ FType g = TypeSend ∧ FKey g = key s ∧ Payload g = Payload f ∧
       IsWireGuard (Payload f) = true ∧ visible v (key s') (key s) = Some true) ∧
  (∀ id s, store srv !! id = Some s →
     Z.of_nat (length (out s)) <= QueueSize (withDefaults o) ∧
     (done s = false → sessions srv !! key s = Some id) ∧
     (closed srv = true → done s = true)).
Proof.
  pose proof (relay_writes o es) as Hw. pose proof (relay_run_inv o es) as [HI _]. destruct (run o es) as [srv os]. cbn [fst snd] in *. split.
  - exact Hw.
  - intros id s Hs. split_and!.
    + rewrite <- (inv_opts _ _ _ HI). by apply (inv_queue _ _ _ HI id).
    + by apply (inv_live _ _ _ HI).
    + intros Hc. by apply (inv_closed _ _ _ HI Hc id).
Qed.

(** ** Rate limits and keepalive *)

(** The times the client is told that [dst] is gone, over a sequence of
    attempts on one session's table. *)
Fixpoint told (dst : Key) (s : session) (calls : list (Z * Key)) : list Z :=
  match calls with
  | [] => []
  | (now, d) :: rest =>
      if gone_due now d s
      then (if decide (d = dst) then [now] else []) ++ told dst (set_gone (<[d := now]> (gone s)) s) rest
      else told dst s rest
  end.

Lemma told_spaced dst calls : ∀ s,
  StronglySorted Z.le (calls.*1) →
  StronglySorted (λ t u, t + second <= u) (told dst s calls) ∧
  Forall (λ u, (∃ c, c ∈ calls ∧ c.1 = u) ∧ ∀ t, gone s !! dst = Some t → t + second <= u) (told dst s calls).
Proof.
  induction calls as [|[now d] calls IH]; intros s Hs; simpl; [repeat constructor|].
  simpl in Hs. apply StronglySorted_inv in Hs as [Hs Hle].
  assert (∀ l, Forall (λ u, (∃ c, c ∈ calls ∧ c.1 = u) ∧ ∀ t, gone s !! dst = Some t → t + second <= u) l →
    Forall (λ u, (∃ c, c ∈ (now, d) :: calls ∧ c.1 = u) ∧ ∀ t, gone s !! dst = Some t → t + second <= u) l) as Hw.
  { intros l Hl. eapply Forall_impl; [exact Hl|]. intros u [(c & Hc & <-) Hu]. split; [|done].
    exists c. split; [by constructor|done]. }
  destruct (gone_due now d s) eqn:Hg.
  2:{ destruct (IH s Hs) as [H1 H2]. split; [done|by apply Hw]. }
  destruct (IH (set_gone (<[d := now]> (gone s)) s) Hs) as [H1 H2]. simpl in H2.
  destruct (decide (d = dst)) as [->|Hne]; simpl.
  - assert (∀ t, gone s !! dst = Some t → t + second <= now) as Hgap.
    { intros t Ht. unfold gone_due in Hg. rewrite Ht in Hg. unfold peerGoneInterval in Hg. go_bool.
      apply Sub_ge; [unfold second; lia|done]. }
    rewrite lookup_insert_eq in H2. split.
    + constructor; [done|]. eapply Forall_impl; [exact H2|]. intros u [_ Hu]. by apply Hu.
    + constructor; [split; [exists (now, dst); split; [by constructor|done]|done]|].
      eapply Forall_impl; [exact H2|]. intros u [(c & Hc & <-) Hu].
      split; [exists c; split; [by constructor|done]|]. intros t Ht.
      specialize (Hu now eq_refl). specialize (Hgap t Ht). unfold second in *. lia.
  - split; [done|]. rewrite lookup_insert_ne in H2 by done. by apply Hw.
Qed.

(** What a misbehaving client can cause is bounded.  It is told that a
    destination is gone (and the server is asked to wake it) at most once per
    second per destination; and a violation ends the session exactly when it
    makes more than MaxViolationsPerMinute of them within the last minute. *)
Theorem relay_limits (s : session) :
  (∀ dst calls, StronglySorted Z.le (calls.*1) →
     StronglySorted (λ t u, t + second <= u) (told dst s calls)) ∧
  (∀ id srv ts now, StronglySorted Z.le (ts ++ [now]) →
     violations s = foldl (λ l t, recent t l) [] ts →
     ((violation id s now srv).2 = true ↔
      MaxViolationsPerMinute (opts srv) < Z.of_nat (length (filter (λ t, Sub now t < minute) ts ++ [now])))).
Proof.
  split.
  - intros dst calls Hs. by apply told_spaced.
  - intros id srv ts now Hs Hv. unfold violation. simpl. rewrite Z.ltb_lt, Hv. unfold recent.
    by rewrite slide_run.
Qed.

Section Keepalive.
Context {V : Type} `{!Visibility V}.

Fixpoint count_ticks (id : nat) (es : list (@event V)) : Z :=
  match es with
  | [] => 0
  | e :: es' => (if decide (ticks e = Some id) then 1 else 0) + count_ticks id es'
  end.

(** A tick counts one more missed ping or ends the session. *)
Lemma tick_progress id s srv :
  store srv !! id = Some s → done s = false →
  ∃ s', store (on_tick id s srv) !! id = Some s' ∧
        (done s' = true ∨ missed s' = missed s + 1 ∧ missed s' <= MissedPings (opts srv)).
Proof.
  intros Hs Hd. unfold on_tick. rewrite Hd. set (srv1 := upd id (set_missed (missed s + 1)) srv).
  assert (store srv1 !! id = Some (set_missed (missed s + 1) s)) as Hs1.
  { subst srv1. unfold upd. simpl. by rewrite lookup_alter_eq, Hs. }
  change (opts srv1) with (opts srv).
  destruct (Z.ltb_spec (MissedPings (opts srv)) (missed s + 1)) as [Hlt|Hle].
  - exists (set_done (set_missed (missed s + 1) s)). split; [|by left].
    unfold close, upd. simpl. rewrite lookup_alter_eq. unfold srv1, upd. simpl. by rewrite lookup_alter_eq, Hs.
  - destruct (grows_enqueue (λ _, True) id {| FType := TypePing; FKey := zeroKey; Payload := [] |} srv1 id _ Hs1)
      as (s' & Hs' & _ & _ & Hm). exists s'. split; [done|]. right. rewrite Hm by done. simpl. lia.
Qed.

Lemma on_tick_opts id s srv : opts (on_tick id s srv) = opts srv.
Proof.
  unfold on_tick. destruct (done s); [done|]. destruct (_ <? _); [done|].
  unfold enqueue. destruct (store _ !! id); [|done]. destruct (done _); [done|]. by destruct (_ <? _).
Qed.

(** A session's pings go unanswered: it dies within its allowance. *)
Lemma keepalive_run o id es' : ∀ es s,
  store (run o es).1 !! id = Some s → (∀ e, e ∈ es' → pongs e ≠ Some id) →
  done s = true ∨ MissedPings (withDefaults o) < missed s + count_ticks id es' →
  ∃ s', store (run o (es ++ es')).1 !! id = Some s' ∧ done s' = true.
Proof.
  induction es' as [|e es' IH]; intros es s Hs Hp Hm.
  { rewrite app_nil_r. exists s. split; [done|]. destruct Hm as [?|Hm]; [done|]. cbn [count_ticks] in Hm.
    destruct (done s) eqn:Hd; [done|]. pose proof (relay_run_inv o es) as [HI _].
    pose proof (inv_missed _ _ _ HI id s Hs Hd) as Hb. rewrite (inv_opts _ _ _ HI) in Hb. lia. }
  rewrite cons_middle, app_assoc. pose proof (relay_run_inv o es) as [HI _].
  assert (∃ s1, store (run o (es ++ [e])).1 !! id = Some s1 ∧
    (done s1 = true ∨ MissedPings (withDefaults o) < missed s1 + count_ticks id es')) as (s1 & Hs1 & Hm1).
  2:{ apply (IH (es ++ [e]) s1); [done| |done]. intros e' He'. apply Hp. by constructor. }
  rewrite relay_run_snoc. cbn [fst]. cbn [count_ticks] in Hm.
  destruct (done s) eqn:Hd.
  { destruct (grows_handle (λ _, False) o _ _ e HI ltac:(done) id s Hs) as (s' & Hs' & _ & Hd' & _). eauto. }
  destruct Hm as [?|Hm]; [done|]. destruct (decide (ticks e = Some id)) as [Ht|Ht].
  - destruct e; try discriminate Ht. injection Ht as ->. cbn [handle]. unfold with_session. rewrite Hs. cbn [fst].
    destruct (tick_progress id s (run o es).1 Hs Hd) as (s' & Hs' & [Hd'|[Hm' _]]); [eauto|].
    exists s'. split; [done|]. right. rewrite Hm'. lia.
  - destruct (grows_handle (λ i, i = id) o _ _ e HI) with (id := id) (s := s) as (s' & Hs' & _ & _ & Hm'); [|done|].
    { intros i ->. split; [apply Hp; by constructor|done]. }
    exists s'. split; [done|]. right. rewrite Hm' by done. lia.
Qed.
End Keepalive.

(** A silent client is dropped.  From any state of the relay, a session
    whose pinger ticks more often than MissedPings allows without a PONG from
    it is closed, whatever else happens meanwhile, and stays closed; and no
    live session ever counts more missed pings than allowed. *)
Theorem keepalive {V} `{!Visibility V} (o : ServerOptions) (es es' : list (@event V)) (id : nat) (s : session) :
  store (run o es).1 !! id = Some s →
  (done s = false → missed s <= MissedPings (withDefaults o)) ∧
  ((∀ e, e ∈ es' → pongs e ≠ Some id) → MissedPings (withDefaults o) - missed s < count_ticks id es' →
   ∃ s', store (run o (es ++ es')).1 !! id = Some s' ∧ done s' = true).
Proof.
  intros Hs. split.
  - intros Hd. pose proof (relay_run_inv o es) as [HI _]. rewrite <- (inv_opts _ _ _ HI).
    by apply (inv_missed _ _ _ HI id).
  - intros Hp Hn. apply (keepalive_run o id es' es s Hs Hp). right. lia.
Qed.

(** ** A relay with two clients *)

Definition demo_key (n : Z) : Key := zb n :: replicate 31 Byte.x00.
#[local] Instance demo_vis : Visibility bool := λ v _ _, Some v.
Definition demo_options : ServerOptions :=
  {| MaxBytesPerSecond := 100; QueueSize := 0; PingInterval := 0; MissedPings := 0; MaxViolationsPerMinute := 0 |}.
Definition demo_payload : list byte := [Byte.x01; Byte.x00; Byte.x00; Byte.x00].
Definition demo_send (n : Z) : Frame := {| FType := TypeSend; FKey := demo_key n; Payload := demo_payload |}.
Definition demo_events : list (@event bool) :=
  [EvServe (demo_key 1) 0; EvServe (demo_key 2) 0; EvFrame 0 (demo_send 2) 5 true; EvWrite 1 true;
   EvFrame 0 (demo_send 2) 6 false].

Example demo_delivered : (run demo_options demo_events).2 = [Wrote 1 (recv_frame (demo_key 1) demo_payload)].
Proof. vm_compute. reflexivity. Qed.

(** 100 bytes per second: 25 frames of 4 bytes at once, one more after 40 ms. *)
Definition demo_bucket : session := MkSession (demo_key 1) [] false 0 ∅ [] (f64_of_Z 100) 0.
Definition demo_allowed (times : list Z) : list bool :=
  (foldl (λ '(s, l) t, let '(s', ok) := allowBytes 100 t 4 s in (s', l ++ [ok])) (demo_bucket, []) times).2.

Example demo_rate :
  demo_allowed (replicate 26 0 ++ [40 * 1000000; 40 * 1000000]) = replicate 25 true ++ [false; true; false].
Proof. vm_compute. reflexivity. Qed.

Lemma keepalive_witness :
  let o := demo_options in
  (∃ s, store (run o demo_events).1 !! 0%nat = Some s) ∧
  ∃ s', store (run o (demo_events ++ replicate 4 (EvTick 0))).1 !! 0%nat = Some s' ∧ done s' = true.
Proof.
  intros o. assert (∃ s, store (run o demo_events).1 !! 0%nat = Some s ∧ missed s = 0) as (s & Hs & Hm).
  { eexists. vm_compute. split; reflexivity. }
  split; [by exists s|].
  apply (keepalive o demo_events (replicate 4 (EvTick 0)) 0 s Hs).
  - intros e He. apply elem_of_replicate in He as [-> _]. discriminate.
  - rewrite Hm. vm_compute. reflexivity.
Defined.
