(* ===== verification/RelayClient.v ===== *)
(** The relay client of a device: [internal/relay/client.go].

    One loopback socket (a proxy) per relayed peer, one connection that opens
    when the first proxy does and closes when none has been there for a while.
    [Endpoint], [Release], [Close], the functions of timers, the runner, and
    the reader, the writer and the pinger of a connection run concurrently; here
    each is cut at the points where it holds the lock or touches a channel, and
    [step] does one such piece.  A goroutine's clock, its network and whether a
    socket can be made are inputs of its step.  A runner and the channel it will
    close have one number, as [Endpoint] makes them together. *)

From S2P Require Import Prelude RelayFrame.

(** ** State *)

(** Where a runner is: before the test for idleness, in [Dial], in [serve] with
    the pings missed, in [serve] after [stop], waiting to try again, leaving,
    and past the lock of its deferred function. *)
Inductive stage := Looping | Dialing | Serving (missed : Z) | Stopping | Waiting | Leaving | Unlocked.
Record runner := { rStage : stage; rCancelled : bool }.

#[export] Instance stage_eq_dec : EqDecision stage.
Proof. solve_decision. Defined.

Record ClientOptions := { IdleTimeout : Z; MissedPings : Z }.
Definition withDefaults (o : ClientOptions) : ClientOptions :=
  {| IdleTimeout := if IdleTimeout o <=? 0 then 300 * second else IdleTimeout o; MissedPings := if MissedPings o <=? 0 then 3 else MissedPings o |}.

Record Client := {
  proxies : gmap Key nat;      (** the socket of a peer *)
  owner : gmap nat Key;        (** the peer of every socket there was *)
  sockets : gset nat;          (** the open ones *)
  releasing : gmap Key nat;    (** the timer of a peer *)
  armed : gmap nat Key;        (** timers that will go off *)
  fired : gmap nat Key;        (** functions of timers that wait for the lock *)
  idleSince : Z;
  running : bool;
  current : option nat;        (** [cancel] and [done] *)
  finished : gset nat;         (** closed channels *)
  cancelling : list nat;       (** calls of [Close] before [cancel] *)
  closed : bool;
  connected : bool;
  out : list Frame;
  runners : gmap nat runner;
  crashed : bool;              (** a channel was closed twice *)
  next : nat;
}.

Definition NewClient : Client :=
  {| proxies := ∅; owner := ∅; sockets := ∅; releasing := ∅; armed := ∅; fired := ∅; idleSince := 0; running := false; current := None; finished := ∅;
     cancelling := []; closed := false; connected := false; out := []; runners := ∅; crashed := false; next := 0 |}.

(** The parts of the state that steps replace together. *)
Definition with_timers (rel : gmap Key nat) (a f : gmap nat Key) (c : Client) : Client :=
  {| proxies := proxies c; owner := owner c; sockets := sockets c; releasing := rel; armed := a; fired := f; idleSince := idleSince c; running := running c;
     current := current c; finished := finished c; cancelling := cancelling c; closed := closed c; connected := connected c; out := out c;
     runners := runners c; crashed := crashed c; next := next c |}.
Definition with_proxies (p : gmap Key nat) (w : gmap nat Key) (s : gset nat) (c : Client) : Client :=
  {| proxies := p; owner := w; sockets := s; releasing := releasing c; armed := armed c; fired := fired c; idleSince := idleSince c; running := running c;
     current := current c; finished := finished c; cancelling := cancelling c; closed := closed c; connected := connected c; out := out c;
     runners := runners c; crashed := crashed c; next := next c |}.
Definition with_idle (t : Z) (c : Client) : Client :=
  {| proxies := proxies c; owner := owner c; sockets := sockets c; releasing := releasing c; armed := armed c; fired := fired c; idleSince := t; running := running c;
     current := current c; finished := finished c; cancelling := cancelling c; closed := closed c; connected := connected c; out := out c;
     runners := runners c; crashed := crashed c; next := next c |}.
Definition with_runners (m : gmap nat runner) (c : Client) : Client :=
  {| proxies := proxies c; owner := owner c; sockets := sockets c; releasing := releasing c; armed := armed c; fired := fired c; idleSince := idleSince c; running := running c;
     current := current c; finished := finished c; cancelling := cancelling c; closed := closed c; connected := connected c; out := out c;
     runners := m; crashed := crashed c; next := next c |}.
Definition with_run (run : bool) (cur : option nat) (c : Client) : Client :=
  {| proxies := proxies c; owner := owner c; sockets := sockets c; releasing := releasing c; armed := armed c; fired := fired c; idleSince := idleSince c; running := run;
     current := cur; finished := finished c; cancelling := cancelling c; closed := closed c; connected := connected c; out := out c;
     runners := runners c; crashed := crashed c; next := next c |}.
Definition with_finished (s : gset nat) (x : bool) (c : Client) : Client :=
  {| proxies := proxies c; owner := owner c; sockets := sockets c; releasing := releasing c; armed := armed c; fired := fired c; idleSince := idleSince c; running := running c;
     current := current c; finished := s; cancelling := cancelling c; closed := closed c; connected := connected c; out := out c;
     runners := runners c; crashed := x; next := next c |}.
Definition with_closing (x : bool) (l : list nat) (c : Client) : Client :=
  {| proxies := proxies c; owner := owner c; sockets := sockets c; releasing := releasing c; armed := armed c; fired := fired c; idleSince := idleSince c; running := running c;
     current := current c; finished := finished c; cancelling := l; closed := x; connected := connected c; out := out c;
     runners := runners c; crashed := crashed c; next := next c |}.
Definition with_link (up : bool) (q : list Frame) (c : Client) : Client :=
  {| proxies := proxies c; owner := owner c; sockets := sockets c; releasing := releasing c; armed := armed c; fired := fired c; idleSince := idleSince c; running := running c;
     current := current c; finished := finished c; cancelling := cancelling c; closed := closed c; connected := up; out := q;
     runners := runners c; crashed := crashed c; next := next c |}.
Definition with_next (n : nat) (c : Client) : Client :=
  {| proxies := proxies c; owner := owner c; sockets := sockets c; releasing := releasing c; armed := armed c; fired := fired c; idleSince := idleSince c; running := running c;
     current := current c; finished := finished c; cancelling := cancelling c; closed := closed c; connected := connected c; out := out c;
     runners := runners c; crashed := crashed c; next := n |}.

Definition Peers (c : Client) : nat := size (proxies c).

(** ** The pieces *)

(** What the outside sees: what [Endpoint] returns, a frame on the connection, a
    datagram to WireGuard's port from a proxy. *)
Inductive output := Answer (k : Key) (s : option nat) | Wrote (f : Frame) | Delivered (s : nat) (p : list byte).

Definition queue_size : nat := 256.
Definition enqueue (f : Frame) (c : Client) : Client :=
  if (length (out c) <? queue_size)%nat then with_link (connected c) (out c ++ [f]) c else c.
Definition control_frame (t : byte) : Frame := {| FType := t; FKey := zeroKey; Payload := [] |}.

(** [Endpoint]; the sockets and the runner take fresh numbers. *)
Definition Endpoint (k : Key) (socket : bool) (c : Client) : Client * option nat :=
  if closed c then (c, None)
  else
    let c := match releasing c !! k with
             | Some t => with_timers (delete k (releasing c)) (delete t (armed c)) (fired c) c
             | None => c
             end in
    match proxies c !! k with
    | Some s => (c, Some s)
    | None =>
        if negb socket then (c, None)
        else
          let s := next c in
          let c := with_next (S s) (with_proxies (<[k := s]> (proxies c)) (<[s := k]> (owner c)) ({[s]} ∪ sockets c) c) in
          if running c then (c, Some s)
          else
            let r := next c in
            (with_next (S r) (with_runners (<[r := {| rStage := Looping; rCancelled := false |}]> (runners c)) (with_run true (Some r) c)), Some s)
    end.

Definition Release (k : Key) (c : Client) : Client :=
  match proxies c !! k, releasing c !! k with
  | Some _, None => with_next (S (next c)) (with_timers (<[k := next c]> (releasing c)) (<[next c := k]> (armed c)) (fired c) c)
  | _, _ => c
  end.

Definition dropProxy (k : Key) (now : Z) (c : Client) : Client :=
  let c := with_timers (delete k (releasing c)) (armed c) (fired c) c in
  let c := match proxies c !! k with
           | Some s => with_proxies (delete k (proxies c)) (owner c) (sockets c ∖ {[s]}) c
           | None => c
           end in
  if decide (proxies c = ∅) then with_idle now c else c.

(** [Close] up to the end of its lock. *)
Definition Close (c : Client) : Client :=
  let stopped : gset nat := map_img (releasing c) in
  let c := with_timers ∅ (filter (λ t, t.1 ∉ stopped) (armed c)) (fired c) c in
  let c := with_proxies ∅ (owner c) (sockets c ∖ map_img (proxies c)) c in
  with_closing true (match current c with Some r => r :: cancelling c | None => cancelling c end) c.

Section Steps.
Context (o : ClientOptions).

Definition idle (now : Z) (c : Client) : bool :=
  bool_decide (proxies c = ∅) && negb (idleSince c =? 0) && (IdleTimeout o <=? Sub now (idleSince c)).

Definition move (r : nat) (st : stage) (c : Client) : Client := with_runners (alter (λ x, {| rStage := st; rCancelled := rCancelled x |}) r (runners c)) c.

(** A piece of a goroutine.  [EvWaited] may end by the context or by the timer,
    when both are there; a goroutine of a connection that has ended may still
    lose one frame ([EvWrite] outside [serve]) or leave a ping. *)
Inductive event :=
  | EvEndpoint (k : Key) (socket : bool)
  | EvRelease (k : Key)
  | EvFire (t : nat)
  | EvDrop (t : nat) (now : Z)
  | EvClose
  | EvCancel (r : nat)
  | EvLoop (r : nat) (now : Z)
  | EvDial (r : nat) (ok : bool)
  | EvWaited (r : nat) (done : bool)
  | EvStop (r : nat)
  | EvServed (r : nat)
  | EvWrite (r : nat) (ok : bool)
  | EvPing (r : nat)
  | EvIdleTick (r : nat) (now : Z)
  | EvRead (r : nat) (f : Frame)
  | EvUnlock (r : nat)
  | EvFinish (r : nat)
  | EvDatagram (s : nat) (p : list byte).

Definition in_serve (st : stage) : bool := match st with Serving _ | Stopping => true | _ => false end.

(** What the reader does with a frame. *)
Definition on_read (r : nat) (st : stage) (f : Frame) (c : Client) : Client * list output :=
  if decide (FType f = TypeRecv) then (c, match proxies c !! FKey f with Some s => [Delivered s (Payload f)] | None => [] end)
  else if decide (FType f = TypePing) then (enqueue (control_frame TypePong) c, [])
  else if decide (FType f = TypePong) then (match st with Serving _ => move r (Serving 0) c | _ => c end, [])
  else (c, []).

Definition on_ping (r : nat) (st : stage) (c : Client) : Client :=
  match st with
  | Serving m => if MissedPings o <? m + 1 then move r Stopping c else enqueue (control_frame TypePing) (move r (Serving (m + 1)) c)
  | _ => enqueue (control_frame TypePing) c
  end.

Definition on_write (r : nat) (st : stage) (ok : bool) (c : Client) : option (Client * list output) :=
  match out c with
  | [] => None
  | f :: rest =>
      let c' := with_link (connected c) rest c in
      if in_serve st then if ok then Some (c', [Wrote f]) else Some (move r Stopping c', [])
      else if ok then None else Some (c', [])
  end.

(** The end of a runner's deferred function: [close(c.done)]. *)
Definition finish (r : nat) (c : Client) : Client :=
  let c := with_runners (delete r (runners c)) c in
  match current c with
  | Some d => if decide (d ∈ finished c) then with_finished (finished c) true c else with_finished ({[d]} ∪ finished c) (crashed c) c
  | None => c
  end.

(** [None]: the piece cannot run now. *)
Definition step (e : event) (c : Client) : option (Client * list output) :=
  if crashed c then None
  else
    match e with
    | EvEndpoint k socket => let '(c, a) := Endpoint k socket c in Some (c, [Answer k a])
    | EvRelease k => Some (Release k c, [])
    | EvFire t => k ← armed c !! t; Some (with_timers (releasing c) (delete t (armed c)) (<[t := k]> (fired c)) c, [])
    | EvDrop t now => k ← fired c !! t; Some (dropProxy k now (with_timers (releasing c) (armed c) (delete t (fired c)) c), [])
    | EvClose => Some (Close c, [])
    | EvCancel r => if decide (r ∈ cancelling c) then Some (with_runners (alter (λ x, {| rStage := rStage x; rCancelled := true |}) r (runners c)) c, []) else None
    | EvDatagram s p =>
        k ← owner c !! s;
        Some (if (MaxPayload <? length p)%nat || negb (IsWireGuard p) then c else enqueue {| FType := TypeSend; FKey := k; Payload := p |} c, [])
    | EvLoop r now => x ← runners c !! r; match rStage x with Looping => Some (move r (if idle now c then Leaving else Dialing) c, []) | _ => None end
    | EvDial r ok =>
        x ← runners c !! r;
        match rStage x with
        | Dialing => Some (if ok : bool then with_link true (out c) (move r (Serving 0) c) else move r (if rCancelled x then Leaving else Waiting) c, [])
        | _ => None
        end
    | EvWaited r done =>
        x ← runners c !! r;
        match rStage x with
        | Waiting => if done && negb (rCancelled x) then None else Some (move r (if done : bool then Leaving else Looping) c, [])
        | _ => None
        end
    | EvStop r => x ← runners c !! r; match rStage x with Serving _ => if rCancelled x then Some (move r Stopping c, []) else None | _ => None end
    | EvServed r =>
        x ← runners c !! r;
        if in_serve (rStage x) then Some (with_link false (out c) (move r (if rCancelled x then Leaving else Waiting) c), []) else None
    | EvWrite r ok => x ← runners c !! r; on_write r (rStage x) ok c
    | EvPing r => x ← runners c !! r; Some (on_ping r (rStage x) c, [])
    | EvIdleTick r now => x ← runners c !! r; match rStage x with Serving _ => Some (if idle now c then move r Stopping c else c, []) | _ => None end
    | EvRead r f => x ← runners c !! r; if in_serve (rStage x) then Some (on_read r (rStage x) f c) else None
    | EvUnlock r => x ← runners c !! r; match rStage x with Leaving => Some (with_run false (current c) (move r Unlocked c), []) | _ => None end
    | EvFinish r => x ← runners c !! r; match rStage x with Unlocked => Some (finish r c, []) | _ => None end
    end.
End Steps.

(** ** Traces *)

(** What ran, the newest first, with what was seen of it; [P] restricts when a
    piece runs. *)
Notation history := (list (event * list output)).

Inductive trace (P : event → Client → Prop) (o : ClientOptions) : history → Client → Prop :=
  | trace_start : trace P o [] NewClient
  | trace_step h c e c' os : trace P o h c → P e c → step (withDefaults o) e c = Some (c', os) → trace P o ((e, os) :: h) c'.

(** ** What holds however the pieces are interleaved *)

Record proxies_ok (p : gmap Key nat) (w : gmap nat Key) (s : gset nat) (rel : gmap Key nat) (cl : bool) (n : nat) : Prop := {
  po_open : ∀ x, x ∈ s ↔ ∃ k, p !! k = Some x;
  po_owner : ∀ k x, p !! k = Some x → w !! x = Some k;
  po_fresh : ∀ x k, w !! x = Some k → (x < n)%nat;
  po_releasing : ∀ k t, rel !! k = Some t → is_Some (p !! k);
  po_closed : cl = true → p = ∅;
}.
Notation proxies_inv c := (proxies_ok (proxies c) (owner c) (sockets c) (releasing c) (closed c) (next c)).

Definition active (m : gmap nat runner) (r : nat) : Prop := ∃ x, m !! r = Some x ∧ rStage x ≠ Unlocked.
Record runners_ok (m : gmap nat runner) (run : bool) (n : nat) : Prop := {
  ro_one : ∀ r r', active m r → active m r' → r = r';
  ro_running : run = true ↔ ∃ r, active m r;
  ro_fresh : ∀ r x, m !! r = Some x → (r < n)%nat;
}.
Notation runners_inv c := (runners_ok (runners c) (running c) (next c)).

(** A frame that answers a datagram, or a control frame. *)
Definition sent_by (h : history) (w : gmap nat Key) (f : Frame) : Prop :=
  (∃ s os, (EvDatagram s (Payload f), os) ∈ h ∧ w !! s = Some (FKey f) ∧ IsWireGuard (Payload f) = true ∧ (length (Payload f) <= MaxPayload)%nat ∧ FType f = TypeSend)
  ∨ f = control_frame TypePing ∨ f = control_frame TypePong.
Definition delivered_by (h : history) (w : gmap nat Key) (s : nat) (p : list byte) : Prop :=
  ∃ r f os, (EvRead r f, os) ∈ h ∧ FType f = TypeRecv ∧ Payload f = p ∧ w !! s = Some (FKey f).
Definition seen_ok (h : history) (w : gmap nat Key) (x : output) : Prop :=
  match x with Wrote f => sent_by h w f | Delivered s p => delivered_by h w s p | Answer _ _ => True end.
Record queue_ok (h : history) (w : gmap nat Key) (q : list Frame) : Prop := {
  qo_bound : (length q <= queue_size)%nat;
  qo_frames : ∀ f, f ∈ q → sent_by h w f;
}.

Lemma sent_by_mono h h' w w' f : h ⊆ h' → w ⊆ w' → sent_by h w f → sent_by h' w' f.
Proof.
  intros Hh Hw [(s & os & H1 & H2 & H3)|?]; [left|by right]. exists s, os. split; [by apply Hh|]. split; [by eapply lookup_weaken|done].
Qed.

Lemma seen_ok_mono h h' w w' x : h ⊆ h' → w ⊆ w' → seen_ok h w x → seen_ok h' w' x.
Proof.
  intros Hh Hw. destruct x as [k a|f|s p]; cbn; [done|by apply sent_by_mono|]. intros (r & f & os & H1 & H2 & H3 & H4). exists r, f, os.
  split_and!; [by apply Hh|done|done|by eapply lookup_weaken].
Qed.

Lemma queue_ok_mono h h' w w' q : h ⊆ h' → w ⊆ w' → queue_ok h w q → queue_ok h' w' q.
Proof. intros Hh Hw [H1 H2]. split; [done|]. intros f Hf. by eapply sent_by_mono, H2. Qed.

Lemma enqueue_ok h f c : sent_by h (owner c) f → queue_ok h (owner c) (out c) → queue_ok h (owner c) (out (enqueue f c)).
Proof.
  intros Hf [H1 H2]. unfold enqueue. destruct (Nat.ltb_spec (length (out c)) queue_size); [|by split]. split; cbn.
  - rewrite length_app. cbn. lia.
  - intros g [?| ->%list_elem_of_singleton]%elem_of_app; [by apply H2|done].
Qed.

(** [enqueue] is about the queue only. *)
Lemma enqueue_same f c : ∃ q, enqueue f c = with_link (connected c) q c.
Proof. unfold enqueue. destruct (_ <? _)%nat; [by eexists|]. exists (out c). by destruct c. Qed.

Lemma active_alter (g : runner → runner) m r r' : (∀ x, rStage (g x) ≠ Unlocked ↔ rStage x ≠ Unlocked) → active (alter g r m) r' ↔ active m r'.
Proof.
  intros Hg. unfold active. destruct (decide (r' = r)) as [-> | Hne]; [|by rewrite lookup_alter_ne].
  rewrite lookup_alter_eq. destruct (m !! r) as [x|]; cbn; [|naive_solver]. naive_solver.
Qed.

Lemma active_move (m : gmap nat runner) r st r' x : m !! r = Some x → rStage x ≠ Unlocked → st ≠ Unlocked →
  active (alter (λ x, {| rStage := st; rCancelled := rCancelled x |}) r m) r' ↔ active m r'.
Proof.
  intros Hx Hs Hst. unfold active. destruct (decide (r' = r)) as [-> | Hne]; [|by rewrite lookup_alter_ne]. rewrite lookup_alter_eq, Hx. cbn. naive_solver.
Qed.

Lemma alter_fresh (g : runner → runner) (m : gmap nat runner) r (n : nat) : (∀ r x, m !! r = Some x → (r < n)%nat) → ∀ r' x, alter g r m !! r' = Some x → (r' < n)%nat.
Proof. intros H r' x Hx. apply lookup_alter_Some in Hx as [(-> & y & Hy & _)|[_ Hy]]; by eapply H. Qed.

(** A runner moves on, or is cancelled. *)
Lemma runners_move (m : gmap nat runner) run n r st x : m !! r = Some x → rStage x ≠ Unlocked → st ≠ Unlocked → runners_ok m run n →
  runners_ok (alter (λ x, {| rStage := st; rCancelled := rCancelled x |}) r m) run n.
Proof.
  intros Hx Hs Hst [H1 H2 H3]. split; [| |by apply alter_fresh].
  - intros r1 r2. rewrite !(active_move m r st _ x) by done. apply H1.
  - rewrite H2. by setoid_rewrite (active_move m r st _ x); [| | |].
Qed.

Lemma runners_cancel m run n r : runners_ok m run n → runners_ok (alter (λ x, {| rStage := rStage x; rCancelled := true |}) r m) run n.
Proof.
  intros [H1 H2 H3]. split; [| |by apply alter_fresh].
  - intros r1 r2. rewrite !active_alter by done. apply H1.
  - rewrite H2. by setoid_rewrite active_alter.
Qed.

Lemma runners_later m run n n' : (n <= n')%nat → runners_ok m run n → runners_ok m run n'.
Proof. intros Hn [H1 H2 H3]. split; [done|done|]. intros r x Hx. specialize (H3 r x Hx). lia. Qed.

Lemma runners_start m n : runners_ok m false n → runners_ok (<[n := {| rStage := Looping; rCancelled := false |}]> m) true (S n).
Proof.
  intros [H1 H2 H3]. assert (∀ r, ¬ active m r) as Hno by (intros r Hr; assert (false = true) by (apply H2; by exists r); done).
  assert (∀ r, active (<[n := {| rStage := Looping; rCancelled := false |}]> m) r → r = n) as Hn.
  { intros r (x & [[-> _]|[_ Hx]]%lookup_insert_Some & Hs); [done|]. exfalso. apply (Hno r). by exists x. }
  split.
  - intros r r' ->%Hn ->%Hn. done.
  - split; [|done]. intros _. exists n. eexists. by rewrite lookup_insert_eq.
  - intros r x [[-> _]|[_ Hx]]%lookup_insert_Some; [lia|]. specialize (H3 r x Hx). lia.
Qed.

(** The deferred function, and the end of the goroutine. *)
Lemma runners_unlock m run n r x : m !! r = Some x → rStage x = Leaving → runners_ok m run n →
  runners_ok (alter (λ x, {| rStage := Unlocked; rCancelled := rCancelled x |}) r m) false n.
Proof.
  intros Hx Hs [H1 H2 H3].
  assert (∀ r', ¬ active (alter (λ x, {| rStage := Unlocked; rCancelled := rCancelled x |}) r m) r') as Hno.
  { intros r' (y & Hy & Hu). apply lookup_alter_Some in Hy as [(-> & z & _ & ->)|[Hne Hy]]; [done|]. apply Hne. symmetry. apply H1; [by exists y|]. exists x. by rewrite Hs. }
  split; [|split; [done|]|by apply alter_fresh]; [by intros r1 r2 ?%Hno|]. by intros (r' & ?%Hno).
Qed.

Lemma runners_delete m run n r x : m !! r = Some x → rStage x = Unlocked → runners_ok m run n → runners_ok (delete r m) run n.
Proof.
  intros Hx Hs [H1 H2 H3]. assert (∀ r', active (delete r m) r' ↔ active m r') as Ha.
  { intros r'. unfold active. destruct (decide (r' = r)) as [-> | Hne]; [|by rewrite lookup_delete_ne]. rewrite lookup_delete_eq. naive_solver congruence. }
  split; [intros r1 r2; rewrite !Ha; apply H1|rewrite H2; by setoid_rewrite Ha|]. intros r' y [_ Hy]%lookup_delete_Some. by eapply H3.
Qed.

(** *** The proxies *)

Lemma proxies_later p w s rel cl n n' : (n <= n')%nat → proxies_ok p w s rel cl n → proxies_ok p w s rel cl n'.
Proof. intros Hn [H1 H2 H3 H4 H5]. split; try done. intros x k Hx. specialize (H3 x k Hx). lia. Qed.

Lemma proxies_timers p w s rel rel' cl n : (∀ k t, rel' !! k = Some t → is_Some (rel !! k) ∨ is_Some (p !! k)) → proxies_ok p w s rel cl n → proxies_ok p w s rel' cl n.
Proof. intros Hr [H1 H2 H3 H4 H5]. split; try done. intros k t Hk. destruct (Hr k t Hk) as [[t' Ht]|?]; [by eapply H4|done]. Qed.

Lemma proxies_new p w s rel n k : proxies_ok p w s rel false n → p !! k = None →
  proxies_ok (<[k := n]> p) (<[n := k]> w) ({[n]} ∪ s) rel false (S n) ∧ w ⊆ <[n := k]> w.
Proof.
  intros [H1 H2 H3 H4 H5] Hk. assert (w !! n = None) as Hn by (destruct (w !! n) eqn:E; [apply H3 in E; lia|done]). split; [|by apply insert_subseteq].
  split; [| | | |done].
  - intros x. rewrite elem_of_union, elem_of_singleton, H1. split.
    + intros [-> | (k' & Hk')]; [exists k; by rewrite lookup_insert_eq|]. exists k'. rewrite lookup_insert_ne; [done|]. intros ->. congruence.
    + intros (k' & [[_ ->]|[_ Hk']]%lookup_insert_Some); [by left|right; by exists k'].
  - intros k' x [[-> ->]|[Hne Hk']]%lookup_insert_Some; [by rewrite lookup_insert_eq|]. rewrite lookup_insert_ne; [by apply H2|]. intros ->. apply H2, H3 in Hk'. lia.
  - intros x k' [[-> _]|[_ Hx]]%lookup_insert_Some; [lia|]. specialize (H3 x k' Hx). lia.
  - intros k' t Ht. apply lookup_insert_is_Some'. right. by eapply H4.
Qed.

Lemma Endpoint_ok k socket c : proxies_inv c → runners_inv c →
  let c' := (Endpoint k socket c).1 in proxies_inv c' ∧ runners_inv c' ∧ owner c ⊆ owner c' ∧ out c' = out c.
Proof.
  intros HP HR. unfold Endpoint. destruct (closed c) eqn:Ec; [by cbn; rewrite Ec|].
  set (c1 := match releasing c !! k with Some t => _ | None => c end).
  assert (proxies_inv c1 ∧ runners_inv c1 ∧ owner c1 = owner c ∧ out c1 = out c ∧ closed c1 = false) as (HP1 & HR1 & Hw & Ho & Hc1).
  { unfold c1. destruct (releasing c !! k); [|by rewrite Ec]. cbn. rewrite Ec. split_and!; [|done..]. eapply proxies_timers; [|done].
    intros k' t [_ Hk']%lookup_delete_Some. left. by eexists. }
  rewrite <- Hw, <- Ho. clearbody c1. clear HP HR Hw Ho Ec. destruct (proxies c1 !! k) as [s|] eqn:Ek; [done|]. destruct socket; [|done]. cbn [negb].
  rewrite Hc1 in HP1. destruct (proxies_new _ _ _ _ _ _ HP1 Ek) as [HP2 Hsub]. cbn [running]. cbn. destruct (running c1) eqn:Er; cbn; rewrite Hc1; (split; [|split; [|done]]).
  - done.
  - eapply runners_later; [|rewrite Er; done]. lia.
  - eapply proxies_later; [|done]. lia.
  - apply runners_start. eapply runners_later; [|done]. lia.
Qed.

Lemma Release_ok k c : proxies_inv c → runners_inv c → proxies_inv (Release k c) ∧ runners_inv (Release k c) ∧ owner (Release k c) = owner c ∧ out (Release k c) = out c.
Proof.
  intros HP HR. unfold Release. destruct (proxies c !! k) as [s|] eqn:Ek; [|done]. destruct (releasing c !! k); [done|]. cbn. split_and!; [|eapply runners_later; [|done]; lia|done..].
  eapply proxies_later; [|eapply proxies_timers; [|done]]; [lia|]. intros k' t [[<- _]|[_ Hk']]%lookup_insert_Some; [right; by eexists|left; by eexists].
Qed.

Lemma proxies_delete p w s rel cl n k x : proxies_ok p w s rel cl n → p !! k = Some x → rel !! k = None →
  proxies_ok (delete k p) w (s ∖ {[x]}) rel cl n.
Proof.
  intros [H1 H2 H3 H4 H5] Hk Hr. split; [| |done| |].
  - intros y. rewrite elem_of_difference, elem_of_singleton, H1. split.
    + intros [(k' & Hk') Hne]. exists k'. rewrite lookup_delete_ne; [done|]. intros ->. congruence.
    + intros (k' & [Hne Hk']%lookup_delete_Some). split; [by exists k'|]. intros ->. apply H2 in Hk, Hk'. congruence.
  - intros k' y [_ Hk']%lookup_delete_Some. by apply H2.
  - intros k' t Ht. rewrite lookup_delete_ne; [by eapply H4|]. intros ->. congruence.
  - intros Hc. rewrite (H5 Hc). apply delete_empty.
Qed.

Lemma dropProxy_same k now c : runners (dropProxy k now c) = runners c ∧ running (dropProxy k now c) = running c ∧ next (dropProxy k now c) = next c ∧
  owner (dropProxy k now c) = owner c ∧ out (dropProxy k now c) = out c ∧ closed (dropProxy k now c) = closed c ∧
  releasing (dropProxy k now c) = delete k (releasing c) ∧ proxies (dropProxy k now c) = delete k (proxies c).
Proof. unfold dropProxy. cbn [proxies with_timers]. destruct (proxies c !! k) eqn:E; case_decide; cbn; split_and!; try done; by rewrite delete_id. Qed.

Lemma dropProxy_ok k now c : proxies_inv c → proxies_inv (dropProxy k now c).
Proof.
  intros HP. assert (proxies_ok (proxies c) (owner c) (sockets c) (delete k (releasing c)) (closed c) (next c)) as HP1.
  { eapply proxies_timers; [|done]. intros k' t [_ Hk']%lookup_delete_Some. left. by eexists. }
  unfold dropProxy. cbn [proxies with_timers]. destruct (proxies c !! k) as [s|] eqn:E; case_decide; cbn; try done;
    (apply proxies_delete with (k := k); [done|done|by apply lookup_delete_eq]).
Qed.

Lemma Close_ok c : proxies_inv c → proxies_inv (Close c).
Proof.
  intros [H1 H2 H3 H4 H5]. cbn. split; [| |done| |done].
  - intros x. rewrite elem_of_difference. split; [|by intros (k & ?)]. intros [Hx Hn]. apply H1 in Hx as (k & Hk). destruct Hn. by eapply elem_of_map_img_2.
  - by intros k x ?.
  - by intros k t ?.
Qed.

(** *** Every piece *)

(** The runner of a piece. *)
Ltac runner_of r x E := destruct (runners _ !! r) as [x|] eqn:E; [|done]; cbn [mbind option_bind].

Section Keeps.
Context (o : ClientOptions) (h : history).

Record safe (h : history) (c : Client) : Prop := {
  sf_proxies : proxies_inv c;
  sf_runners : runners_inv c;
  sf_queue : queue_ok h (owner c) (out c);
}.

Definition keeps (e : event) (c c' : Client) (os : list output) : Prop :=
  safe ((e, os) :: h) c' ∧ owner c ⊆ owner c' ∧ Forall (seen_ok ((e, os) :: h) (owner c')) os.

Lemma safe_later x c : safe h c → safe (x :: h) c.
Proof. intros [H1 H2 H3]. split; [done|done|]. eapply queue_ok_mono; [|done|done]. by apply list_subseteq_cons_r || set_solver. Qed.

(** Pieces that move a runner and leave the queue. *)
Lemma keeps_move e c r x st : safe h c → runners c !! r = Some x → rStage x ≠ Unlocked → st ≠ Unlocked → keeps e c (move r st c) [].
Proof. intros [H1 H2 H3]%(safe_later (e, [])) Hx Hs Hst. split; [|by split; [|constructor]]. split; [done|by eapply runners_move|done]. Qed.

Lemma keeps_link e c c' up : keeps e c c' [] → keeps e c (with_link up (out c') c') [].
Proof. intros ([H1 H2 H3] & Hw & _). split; [|by split; [|constructor]]. by split. Qed.

Lemma keeps_same e c : safe h c → keeps e c c [].
Proof. intros H. split; [by apply safe_later|]. by split; [|constructor]. Qed.

Lemma keeps_enqueue e c c' f : keeps e c c' [] → sent_by ((e, []) :: h) (owner c') f → keeps e c (enqueue f c') [].
Proof.
  intros ([H1 H2 H3] & Hw & _) Hf. pose proof (enqueue_ok _ f c' Hf H3) as Hq. destruct (enqueue_same f c') as [q E]. rewrite E in *.
  split; [|by split; [|constructor]]. by split.
Qed.

Lemma keeps_on_read e c r x f : safe h c → runners c !! r = Some x → in_serve (rStage x) = true → e = EvRead r f →
  keeps e c (on_read r (rStage x) f c).1 (on_read r (rStage x) f c).2.
Proof.
  intros Hs Hx Hin He. unfold on_read. repeat case_decide; cbn [fst snd].
  - destruct (proxies c !! FKey f) as [s|] eqn:Es; [|by apply keeps_same]. split; [by apply safe_later|]. split; [done|]. repeat constructor. cbn.
    exists r, f. eexists. split; [rewrite He; by left|]. split_and!; [done|done|]. by apply (po_owner _ _ _ _ _ _ (sf_proxies _ _ Hs)).
  - apply keeps_enqueue; [by apply keeps_same|]. right. by right.
  - destruct (rStage x) eqn:E; try by apply keeps_same. eapply keeps_move; [done|done|by rewrite E|done].
  - by apply keeps_same.
Qed.

Lemma keeps_on_ping e c r x : safe h c → runners c !! r = Some x → keeps e c (on_ping o r (rStage x) c) [].
Proof.
  intros Hs Hx. unfold on_ping. assert (∀ c', keeps e c c' [] → keeps e c (enqueue (control_frame TypePing) c') []) as Hp by (intros c' Hk; apply keeps_enqueue; [done|right; by left]).
  destruct (rStage x) eqn:E; try (apply Hp, keeps_same; done). case_match; [|apply Hp]; (eapply keeps_move; [done|done|by rewrite E|done]).
Qed.

Lemma keeps_on_write e c r x ok c' os : safe h c → runners c !! r = Some x → on_write r (rStage x) ok c = Some (c', os) → keeps e c c' os.
Proof.
  intros Hs Hx. unfold on_write. destruct (out c) as [|f rest] eqn:Eo; [done|].
  destruct Hs as [H1 H2 [Hb Hf]]. rewrite Eo in Hb, Hf.
  assert (∀ os, queue_ok ((e, os) :: h) (owner c) rest) as Hq.
  { intros os'. split; [cbn in Hb; lia|]. intros g Hg. eapply sent_by_mono; [|done|apply Hf; by right]. set_solver. }
  destruct (in_serve (rStage x)) eqn:Ein; destruct ok; try done; intros [= <- <-]; (split; [|split; [done|]]).
  - by split.
  - constructor; [|constructor]. eapply sent_by_mono; [|done|apply Hf; by left]. set_solver.
  - split; [done| |apply Hq]. eapply runners_move; [done|by destruct (rStage x)|done|done].
  - constructor.
  - by split.
  - constructor.
Qed.

Lemma keeps_finish e c r x : safe h c → runners c !! r = Some x → rStage x = Unlocked → keeps e c (finish r c) [].
Proof.
  intros [H1 H2 H3]%(safe_later (e, [])) Hx Hs. pose proof (runners_delete _ _ _ _ _ Hx Hs H2) as Hd. unfold finish. cbn [current with_runners finished crashed].
  destruct (current c); [case_decide|]; (split; [|by split; [|constructor]]); by split.
Qed.

Lemma step_keeps e c c' os : safe h c → step o e c = Some (c', os) → keeps e c c' os.
Proof.
  intros Hs. unfold step. destruct (crashed c); [done|].
  destruct e as [k socket|k|t|t now| |r|r now|r ok|r done|r|r|r ok|r|r now|r f|r|r|s p]; cbn [mbind option_bind].
  - destruct (Endpoint_ok k socket c) as (H1 & H2 & H3 & H4); [apply Hs..|]. destruct (Endpoint k socket c) as [c1 a]. intros [= <- <-]. cbn [fst] in *.
    split; [|by split; [|repeat constructor]]. split; [done|done|]. rewrite H4. eapply queue_ok_mono; [|done|apply Hs]. set_solver.
  - intros [= <- <-]. destruct (Release_ok k c) as (H1 & H2 & H3 & H4); [apply Hs..|]. split; [|by rewrite H3; split; [|constructor]]. split; [done|done|]. rewrite H3, H4.
    eapply queue_ok_mono; [|done|apply Hs]. set_solver.
  - destruct (armed c !! t) as [k|]; [|done]. cbn [mbind option_bind]. intros [= <- <-]. apply (safe_later (EvFire t, [])) in Hs as [H1 H2 H3]. split; [|by split; [|constructor]]. by split.
  - destruct (fired c !! t) as [k|]; [|done]. cbn [mbind option_bind]. intros [= <- <-]. apply (safe_later (EvDrop t now, [])) in Hs as [H1 H2 H3].
    set (c1 := with_timers _ _ _ c). destruct (dropProxy_same k now c1) as (E1 & E2 & E3 & E4 & E5 & _).
    split; [|rewrite E4; by split; [|constructor]]. split; [by apply dropProxy_ok|by rewrite E1, E2, E3|by rewrite E4, E5].
  - intros [= <- <-]. apply (safe_later (EvClose, [])) in Hs as [H1 H2 H3]. split; [|by split; [|constructor]]. split; [by apply Close_ok|done|done].
  - case_decide; [|done]. intros [= <- <-]. apply (safe_later (EvCancel r, [])) in Hs as [H1 H2 H3]. split; [|by split; [|constructor]]. split; [done|by apply runners_cancel|done].
  - runner_of r x Ex. destruct (rStage x) eqn:E; try done. intros [= <- <-]. by eapply (keeps_move _ _ _ x); [| |rewrite E|destruct (idle _ _ _)].
  - runner_of r x Ex. destruct (rStage x) eqn:E; try done. destruct ok; intros [= <- <-]; [apply (keeps_link _ _ (move r _ c)); by eapply (keeps_move _ _ _ x); [| |rewrite E|]|].
    by eapply (keeps_move _ _ _ x); [| |rewrite E|destruct (rCancelled x)].
  - runner_of r x Ex. destruct (rStage x) eqn:E; try done. destruct (done && _); [done|]. intros [= <- <-]. by eapply (keeps_move _ _ _ x); [| |rewrite E|destruct done].
  - runner_of r x Ex. destruct (rStage x) eqn:E; try done. destruct (rCancelled x); [|done]. intros [= <- <-]. by eapply (keeps_move _ _ _ x); [| |rewrite E|].
  - runner_of r x Ex. destruct (in_serve (rStage x)) eqn:E; [|done]. intros [= <- <-]. apply (keeps_link _ _ (move r _ c)). by eapply (keeps_move _ _ _ x); [| |destruct (rStage x)|destruct (rCancelled x)].
  - runner_of r x Ex. intros Hw. by eapply keeps_on_write.
  - runner_of r x Ex. intros [= <- <-]. by apply keeps_on_ping.
  - runner_of r x Ex. destruct (rStage x) eqn:E; try done. intros [= <- <-]. destruct (idle _ _ _); [|by apply keeps_same]. by eapply (keeps_move _ _ _ x); [| |rewrite E|].
  - runner_of r x Ex. destruct (in_serve (rStage x)) eqn:E; [|done]. intros Hr. pose proof (keeps_on_read (EvRead r f) c r x f Hs Ex E eq_refl) as Hk. destruct (on_read r (rStage x) f c) as [c1 os1]. injection Hr as <- <-. exact Hk.
  - runner_of r x Ex. destruct (rStage x) eqn:E; try done. intros [= <- <-]. apply (safe_later (EvUnlock r, [])) in Hs as [H1 H2 H3]. split; [|by split; [|constructor]]. split; [done| |done]. by eapply runners_unlock.
  - runner_of r x Ex. destruct (rStage x) eqn:E; try done. intros [= <- <-]. by eapply keeps_finish.
  - destruct (owner c !! s) as [k|] eqn:Ek; [|done]. cbn [mbind option_bind]. intros [= <- <-]. destruct (_ || _) eqn:Eb; [by apply keeps_same|]. go_bool.
    apply keeps_enqueue; [by apply keeps_same|]. left. exists s, []. split; [by left|]. split_and!; [done|done|cbn; by apply Nat.ltb_ge|done].
Qed.
End Keeps.

Lemma trace_safe P o h c : trace P o h c → safe h c ∧ Forall (λ x, Forall (seen_ok h (owner c)) x.2) h.
Proof.
  induction 1 as [|h c e c' os Ht [Hs Hall] HP Hstep].
  - split; [|constructor]. split; [|split|split; [cbn; lia|by intros f ?%elem_of_nil]].
    + split; [|done..]. intros x. cbn. split; [set_solver|by intros (k & ?)].
    + by intros r r' (x & ? & _).
    + split; [done|by intros (r & x & ? & _)].
    + done.
  - destruct (step_keeps _ h e c c' os Hs Hstep) as (Hs' & Hw & Hos). split; [done|]. constructor; [done|].
    eapply Forall_impl; [exact Hall|]. intros x Hx. eapply Forall_impl; [exact Hx|]. intros y. apply seen_ok_mono; [set_solver|done].
Qed.

(** ** What holds when [Endpoint] keeps out of three windows

    Between a runner's finding that nobody needs it and the end of its goroutine,
    and between a timer's going off and its function's lock for the same peer. *)

Definition calm (e : event) (c : Client) : Prop :=
  match e with
  | EvEndpoint k _ => closed c = true ∨ ((∀ r x, runners c !! r = Some x → rStage x ≠ Leaving ∧ rStage x ≠ Unlocked) ∧ ∀ t, fired c !! t ≠ Some k)
  | _ => True
  end.

(** The addresses [Endpoint] gave out that have not been released. *)
Definition lend (x : event * list output) (m : gmap Key nat) : gmap Key nat :=
  match x with
  | (EvEndpoint k _, [Answer _ (Some s)]) => <[k := s]> m
  | (EvRelease k, _) => delete k m
  | (EvClose, _) => ∅
  | _ => m
  end.
Definition lent (h : history) : gmap Key nat := foldr lend ∅ h.

Record timers_ok (rel : gmap Key nat) (a f : gmap nat Key) (n : nat) : Prop := {
  to_armed : ∀ t k, a !! t = Some k → rel !! k = Some t ∧ (t < n)%nat;
  to_fired : ∀ t k, f !! t = Some k → rel !! k = Some t ∧ (t < n)%nat;
  to_once : ∀ t, is_Some (a !! t) → f !! t = None;
}.

Record run_ok (m : gmap nat runner) (cur : option nat) (fin : gset nat) (n : nat) : Prop := {
  uo_current : ∀ r x, m !! r = Some x → cur = Some r ∧ r ∉ fin;
  uo_finished : ∀ d, d ∈ fin → (d < n)%nat;
}.

(** A runner that will not leave of itself. *)
Definition staying (m : gmap nat runner) : Prop := ∃ r x, m !! r = Some x ∧ rStage x ≠ Leaving ∧ rStage x ≠ Unlocked.

Record calm_ok (h : history) (c : Client) : Prop := {
  co_crashed : crashed c = false;
  co_run : run_ok (runners c) (current c) (finished c) (next c);
  co_cancelled : (∀ r x, runners c !! r = Some x → rCancelled x = true → closed c = true) ∧ (cancelling c ≠ [] → closed c = true);
  co_timers : closed c = false → timers_ok (releasing c) (armed c) (fired c) (next c);
  co_lent : ∀ k s, lent h !! k = Some s → closed c = false ∧ proxies c !! k = Some s ∧ releasing c !! k = None;
  co_staying : closed c = false → proxies c ≠ ∅ → staying (runners c);
}.

Section Calm.
Context (o : ClientOptions) (h : history).

Lemma calm_same e os c : calm_ok h c → lend (e, os) (lent h) = lent h → calm_ok ((e, os) :: h) c.
Proof. intros [H1 H2 H3 H4 H5 H6] Hl. split; try done. change (lent ((e, os) :: h)) with (lend (e, os) (lent h)). by rewrite Hl. Qed.

Lemma calm_link g up q c : calm_ok g c → calm_ok g (with_link up q c).
Proof. by intros [H1 H2 H3 H4 H5 H6]. Qed.

Lemma calm_enqueue g f c : calm_ok g c → calm_ok g (enqueue f c).
Proof. destruct (enqueue_same f c) as [q ->]. apply calm_link. Qed.

Lemma run_ok_alter (f : runner → runner) r m cur fin n : run_ok m cur fin n → run_ok (alter f r m) cur fin n.
Proof. intros [H1 H2]. split; [|done]. intros r' x Hx. apply lookup_alter_Some in Hx as [(-> & y & Hy & _)|[_ Hy]]; by eapply H1. Qed.

(** A runner moves: it stays unless nobody is there to serve. *)
Lemma calm_move e os c r x st : calm_ok h c → runners c !! r = Some x → lend (e, os) (lent h) = lent h →
  (st ≠ Leaving ∧ st ≠ Unlocked) ∨ closed c = true ∨ proxies c = ∅ → calm_ok ((e, os) :: h) (move r st c).
Proof.
  intros [H1 H2 [H3 H3'] H4 H5 H6] Hx Hl Hst. split; [done|by apply run_ok_alter| |done| |].
  - split; [|done]. intros r' y Hy. cbn [move with_runners runners] in Hy. apply lookup_alter_Some in Hy as [(-> & z & Hz & ->)|[_ Hy]]. { exact (H3 _ _ Hz). } exact (H3 _ _ Hy).
  - change (lent ((e, os) :: h)) with (lend (e, os) (lent h)). by rewrite Hl.
  - intros Hc Hp. cbn in *. destruct Hst as [Hst|[?|?]]; [|congruence|done]. eexists r, _. by rewrite lookup_alter_eq, Hx.
Qed.

(** With peers to serve, the runner there is the one that stays. *)
Lemma staying_one c r x : run_ok (runners c) (current c) (finished c) (next c) → staying (runners c) → runners c !! r = Some x → rStage x ≠ Leaving ∧ rStage x ≠ Unlocked.
Proof. intros [H1 _] (r' & y & Hy & Hs) Hx. destruct (H1 _ _ Hx) as [E1 _], (H1 _ _ Hy) as [E2 _]. rewrite E1 in E2. injection E2 as ->. congruence. Qed.

Lemma calm_leave c r x : calm_ok h c → runners c !! r = Some x → rStage x = Leaving ∨ rStage x = Unlocked →
  closed c = true ∨ proxies c = ∅.
Proof.
  intros [H1 H2 _ _ _ H6] Hx Hs. destruct (closed c) eqn:Ec; [by left|]. right. destruct (decide (proxies c = ∅)) as [?|Hp]; [done|]. exfalso.
  destruct (staying_one c r x H2 (H6 eq_refl Hp) Hx). naive_solver.
Qed.

Lemma calm_finish os c r x : safe h c → calm_ok h c → runners c !! r = Some x → rStage x = Unlocked → calm_ok ((EvFinish r, os) :: h) (finish r c).
Proof.
  intros Hsafe Hco Hx Hs. pose proof (calm_leave c r x Hco Hx (or_intror Hs)) as Hno.
  destruct Hco as [H1 H2 [H3 H3'] H4 H5 H6]. destruct (uo_current _ _ _ _ H2 _ _ Hx) as [Hcur Hfin].
  unfold finish. cbn [current with_runners finished crashed]. rewrite Hcur. rewrite decide_False by done.
  assert (∀ r' y, delete r (runners c) !! r' = Some y → False) as Hnone.
  { intros r' y [Hne Hy]%lookup_delete_Some. destruct (uo_current _ _ _ _ H2 _ _ Hy) as [E _]. congruence. }
  split; [done| | |done|done|].
  - split; [by intros r' y ?%Hnone|]. intros d [->%elem_of_singleton|Hd]%elem_of_union; [|by apply H2]. cbn. by eapply (ro_fresh _ _ _ (sf_runners _ _ Hsafe)).
  - split; [by intros r' y ?%Hnone|done].
  - cbn. intros Hc Hp. destruct Hno; [congruence|done].
Qed.

(** *** [Endpoint], [Release] and the timers *)

Lemma calm_unrelease k c : calm_ok h c → closed c = false → (∀ t, fired c !! t ≠ Some k) →
  let c' := match releasing c !! k with Some t => with_timers (delete k (releasing c)) (delete t (armed c)) (fired c) c | None => c end in
  calm_ok h c' ∧ releasing c' !! k = None ∧ proxies c' = proxies c ∧ runners c' = runners c ∧ running c' = running c ∧ next c' = next c ∧ closed c' = false.
Proof.
  intros Hco Hc Hf. destruct (releasing c !! k) as [t|] eqn:Er; [|done]. cbn. split; [|by rewrite lookup_delete_eq].
  destruct Hco as [H1 H2 H3 H4 H5 H6]. split; [done|done|done| | |done]; cbn.
  - intros _. destruct (H4 Hc) as [T1 T2 T3]. split.
    + intros t' k' [Hne Hk]%lookup_delete_Some. destruct (T1 _ _ Hk) as [E ?]. rewrite lookup_delete_ne; [done|]. intros ->. congruence.
    + intros t' k' Hk. destruct (T2 _ _ Hk) as [E ?]. rewrite lookup_delete_ne; [done|]. intros ->. by apply (Hf t').
    + intros t' [k' [_ Hk]%lookup_delete_Some]. apply T3. by eexists.
  - intros k' s Hs. destruct (H5 _ _ Hs) as (? & ? & E). split_and!; [done|done|]. by apply lookup_delete_None; right.
Qed.

Lemma calm_answer k socket c s : calm_ok h c → proxies c !! k = Some s → releasing c !! k = None → closed c = false →
  calm_ok ((EvEndpoint k socket, [Answer k (Some s)]) :: h) c.
Proof.
  intros [H1 H2 H3 H4 H5 H6] Hp Hr Hc. split; try done. cbn. intros k' s' [[<- <-]|[_ Hs]]%lookup_insert_Some; [done|by apply H5].
Qed.

Lemma calm_new k c : calm_ok h c → proxies c !! k = None → releasing c !! k = None → closed c = false →
  let c' := with_next (S (next c)) (with_proxies (<[k := next c]> (proxies c)) (<[next c := k]> (owner c)) ({[next c]} ∪ sockets c) c) in
  (staying (runners c) → calm_ok ((EvEndpoint k true, [Answer k (Some (next c))]) :: h) c') ∧
  (runners c = ∅ → calm_ok ((EvEndpoint k true, [Answer k (Some (next c))]) :: h)
     (with_next (S (S (next c))) (with_runners (<[S (next c) := {| rStage := Looping; rCancelled := false |}]> (runners c)) (with_run true (Some (S (next c))) c')))).
Proof.
  intros [H1 H2 [H3 H3'] H4 H5 H6] Hp Hr Hc c'.
  assert (∀ n', (next c < n')%nat → timers_ok (releasing c) (armed c) (fired c) n') as Ht.
  { intros n' Hn. destruct (H4 Hc) as [T1 T2 T3]. split; [| |done]; intros t k' Hk; [destruct (T1 _ _ Hk)|destruct (T2 _ _ Hk)]; split; (done || lia). }
  assert (∀ k' s, <[k := next c]> (lent h) !! k' = Some s → closed c = false ∧ <[k := next c]> (proxies c) !! k' = Some s ∧ releasing c !! k' = None) as Hlent.
  { intros k' s [[<- <-]|[Hne Hs]]%lookup_insert_Some; [by rewrite lookup_insert_eq|]. rewrite lookup_insert_ne by done. by apply H5. }
  split; intros Hs; split; cbn; try done; try (intros; apply Ht; lia).
  - split; [apply H2|]. intros d Hd. apply H2 in Hd. cbn. lia.
  - split.
    + intros r x [[<- _]|[_ Hx]]%lookup_insert_Some; [|by rewrite Hs in Hx]. split; [done|]. intros Hd. apply H2 in Hd. cbn in Hd. lia.
    + intros d Hd. apply H2 in Hd. cbn. lia.
  - split; [|done]. intros r x [[_ <-]|[_ Hx]]%lookup_insert_Some; [done|by rewrite Hs in Hx].
  - intros _ _. eexists _, _. by rewrite lookup_insert_eq.
Qed.

Lemma calm_endpoint k socket c : safe h c → calm_ok h c → calm (EvEndpoint k socket) c →
  let '(c', a) := Endpoint k socket c in calm_ok ((EvEndpoint k socket, [Answer k a]) :: h) c'.
Proof.
  intros Hsafe Hco Hcalm. unfold Endpoint. destruct (closed c) eqn:Ec; [by apply calm_same|]. destruct Hcalm as [?|[Hrun Hf]]; [congruence|].
  destruct (calm_unrelease k c Hco Ec Hf) as (Hco1 & Hr1 & Hp1 & Hm1 & Hn1 & _ & Hc1). set (c1 := match releasing c !! k with Some t => _ | None => c end) in *.
  assert (staying (runners c1) ∨ runners c1 = ∅ ∧ running c1 = false) as Hst.
  { rewrite Hm1, Hn1. pose proof (sf_runners _ _ Hsafe) as [_ Hrr _]. destruct (running c) eqn:E.
    - left. destruct Hrr as [Hrr _]. destruct (Hrr eq_refl) as (r & x & Hx & Hu). exists r, x. split; [done|by apply (Hrun r)].
    - right. split; [|done]. apply map_empty. intros r. destruct (runners c !! r) as [x|] eqn:Ex; [|done]. exfalso. assert (false = true); [|done]. apply Hrr.
      exists r, x. split; [done|]. by apply (Hrun r). }
  destruct (proxies c1 !! k) as [s|] eqn:Ek; [by apply calm_answer|]. destruct socket; [|by apply calm_same]. cbn [negb].
  destruct (calm_new k c1 Hco1 Ek Hr1 Hc1) as [Hold Hnew]. cbn [running with_next with_proxies next]. destruct Hst as [Hst|[Hst Hrun1]].
  - specialize (Hold Hst). clear Hnew. destruct (running c1) eqn:E; [exact Hold|]. exfalso. destruct Hst as (r & x & Hx & _ & Hu). rewrite Hm1 in Hx.
    pose proof (sf_runners _ _ Hsafe) as [_ Hrr _]. assert (running c = true) by (apply Hrr; by exists r, x). congruence.
  - rewrite Hrun1. by apply Hnew.
Qed.

Lemma calm_release k c : calm_ok h c → calm_ok ((EvRelease k, []) :: h) (Release k c).
Proof.
  intros [H1 H2 H3 H4 H5 H6]. assert (∀ k' s, delete k (lent h) !! k' = Some s → k' ≠ k ∧ closed c = false ∧ proxies c !! k' = Some s ∧ releasing c !! k' = None) as Hl.
  { intros k' s [Hne Hs]%lookup_delete_Some. split; [done|by apply H5]. }
  unfold Release. destruct (proxies c !! k) as [s|] eqn:Ep; [destruct (releasing c !! k) as [t|] eqn:Er|]; (split; try done; cbn [lent foldr lend]); try (intros k' s' Hs'; by apply Hl in Hs' as (_ & ?)).
  - cbn. destruct H2 as [R1 R2]. split; [done|]. intros d Hd. apply R2 in Hd. cbn in *. lia.
  - cbn. intros Hc. destruct (H4 Hc) as [T1 T2 T3]. split.
    + intros t k' [[<- <-]|[Hne Hk]]%lookup_insert_Some; [rewrite lookup_insert_eq; split; [done|lia]|]. destruct (T1 _ _ Hk) as [E ?]. rewrite lookup_insert_ne by congruence. split; [done|lia].
    + intros t k' Hk. destruct (T2 _ _ Hk) as [E ?]. rewrite lookup_insert_ne by congruence. split; [done|lia].
    + intros t [k' [[<- _]|[_ Hk]]%lookup_insert_Some]; [|apply T3; by eexists]. destruct (fired c !! next c) eqn:E; [apply T2 in E; lia|done].
  - cbn. intros k' s' Hs'. apply Hl in Hs' as (Hne & ? & ? & ?). by rewrite lookup_insert_ne.
Qed.

Lemma calm_fire t k c : calm_ok h c → armed c !! t = Some k → calm_ok ((EvFire t, []) :: h) (with_timers (releasing c) (delete t (armed c)) (<[t := k]> (fired c)) c).
Proof.
  intros [H1 H2 H3 H4 H5 H6] Ht. split; try done. cbn. intros Hc. destruct (H4 Hc) as [T1 T2 T3]. split.
  - intros t' k' [_ Hk]%lookup_delete_Some. by apply T1.
  - intros t' k' [[<- <-]|[_ Hk]]%lookup_insert_Some; [by apply T1|by apply T2].
  - intros t' [k' [Hne Hk]%lookup_delete_Some]. rewrite lookup_insert_ne by done. apply T3. by eexists.
Qed.

Lemma calm_drop t k now c : calm_ok h c → fired c !! t = Some k →
  calm_ok ((EvDrop t now, []) :: h) (dropProxy k now (with_timers (releasing c) (armed c) (delete t (fired c)) c)).
Proof.
  intros [H1 H2 H3 H4 H5 H6] Ht. set (c1 := with_timers _ _ _ c). destruct (dropProxy_same k now c1) as (E1 & _ & E3 & _ & _ & E6 & E7 & E8).
  assert (crashed (dropProxy k now c1) = crashed c ∧ current (dropProxy k now c1) = current c ∧ finished (dropProxy k now c1) = finished c ∧
    cancelling (dropProxy k now c1) = cancelling c ∧ armed (dropProxy k now c1) = armed c ∧ fired (dropProxy k now c1) = delete t (fired c)) as (F1 & F2 & F3 & F4 & F5 & F6).
  { unfold dropProxy. cbn [proxies with_timers]. destruct (proxies c1 !! k); by case_decide. }
  split; rewrite ?E1, ?E3, ?E6, ?E7, ?E8, ?F1, ?F2, ?F3, ?F4, ?F5, ?F6; try done.
  - cbn. intros Hc. destruct (H4 Hc) as [T1 T2 T3]. destruct (T2 _ _ Ht) as [Ek _]. split.
    + intros t' k' Hk. destruct (T1 _ _ Hk) as [E ?]. split; [|done]. rewrite lookup_delete_ne; [done|]. intros ->. rewrite Ek in E. injection E as ->.
      rewrite T3 in Ht; [done|by eexists].
    + intros t' k' [Hne Hk]%lookup_delete_Some. destruct (T2 _ _ Hk) as [E ?]. rewrite lookup_delete_ne; [done|]. intros ->. congruence.
    + intros t' Hk. apply lookup_delete_None. right. by apply T3.
  - cbn [lent foldr lend]. intros k' s Hs. destruct (H5 _ _ Hs) as (Hc & Hp & Hr). assert (k' ≠ k) as Hne by (intros ->; destruct (H4 Hc) as [_ T2 _]; destruct (T2 _ _ Ht); congruence).
    cbn. by rewrite !lookup_delete_ne.
  - cbn. intros Hc Hp. apply H6; [done|]. intros E. apply Hp. rewrite E. apply delete_empty.
Qed.

Lemma calm_cancel r c : calm_ok h c → r ∈ cancelling c →
  calm_ok ((EvCancel r, []) :: h) (with_runners (alter (λ x, {| rStage := rStage x; rCancelled := true |}) r (runners c)) c).
Proof.
  intros [H1 H2 [H3 H3'] H4 H5 H6] Hr. assert (closed c = true) as Hc by (apply H3'; intros E; rewrite E in Hr; by apply elem_of_nil in Hr).
  split; [done|by apply run_ok_alter|by split|done|done|]. cbn. congruence.
Qed.

Lemma calm_close c : calm_ok h c → calm_ok ((EvClose, []) :: h) (Close c).
Proof. by intros [H1 H2 [H3 H3'] H4 H5 H6]. Qed.

(** A piece of a runner, or of its connection. *)
Lemma calm_read e os r x f c : calm_ok h c → runners c !! r = Some x → lend (e, os) (lent h) = lent h → calm_ok ((e, os) :: h) (on_read r (rStage x) f c).1.
Proof.
  intros Hco Hx Hl. unfold on_read. repeat case_decide; cbn [fst]; [by apply calm_same|by apply calm_enqueue, calm_same| |by apply calm_same].
  destruct (rStage x); try by apply calm_same. by eapply calm_move; [| | |left].
Qed.

Lemma calm_ping e os r x c : calm_ok h c → runners c !! r = Some x → lend (e, os) (lent h) = lent h → calm_ok ((e, os) :: h) (on_ping o r (rStage x) c).
Proof.
  intros Hco Hx Hl. unfold on_ping. destruct (rStage x); try by apply calm_enqueue, calm_same. case_match; [|apply calm_enqueue]; by eapply calm_move; [| | |left].
Qed.

Lemma calm_write e os r x ok c c' : calm_ok h c → runners c !! r = Some x → lend (e, os) (lent h) = lent h → on_write r (rStage x) ok c = Some (c', os) →
  calm_ok ((e, os) :: h) c'.
Proof.
  intros Hco Hx Hl. unfold on_write. destruct (out c) as [|f rest]; [done|]. pose proof (calm_link _ (connected c) rest _ Hco) as Hco'.
  destruct (in_serve (rStage x)), ok; try done; intros [= <- <-].
  - apply calm_link. by apply calm_same.
  - apply (calm_link _ (connected c) rest (move r Stopping c)). by eapply calm_move; [| | |left].
  - apply calm_link. by apply calm_same.
Qed.

Lemma calm_step e c c' os : safe h c → calm_ok h c → calm e c → step o e c = Some (c', os) → calm_ok ((e, os) :: h) c'.
Proof.
  intros Hs Hco Hcalm. assert (∀ r x, runners c !! r = Some x → rCancelled x = true → closed c = true) as Hcan by apply Hco. unfold step. destruct (crashed c); [done|].
  destruct e as [k socket|k|t|t now| |r|r now|r ok|r done|r|r|r ok|r|r now|r f|r|r|s p]; cbn [mbind option_bind].
  - pose proof (calm_endpoint k socket c Hs Hco Hcalm) as H. destruct (Endpoint k socket c) as [c1 a]. by intros [= <- <-].
  - intros [= <- <-]. by apply calm_release.
  - destruct (armed c !! t) as [k|] eqn:E; [|done]. intros [= <- <-]. by apply calm_fire.
  - destruct (fired c !! t) as [k|] eqn:E; [|done]. intros [= <- <-]. by apply calm_drop.
  - intros [= <- <-]. by apply calm_close.
  - case_decide; [|done]. intros [= <- <-]. by apply calm_cancel.
  - runner_of r x Ex. destruct (rStage x); try done. intros [= <- <-]. eapply calm_move; [done..|]. destruct (idle o now c) eqn:Ei; [|by left]. right. right.
    unfold idle in Ei. go_bool. done.
  - runner_of r x Ex. destruct (rStage x); try done. destruct ok; intros [= <- <-].
    + apply (calm_link _ true (out c) (move r (Serving 0) c)). by eapply calm_move; [| | |left].
    + eapply calm_move; [done..|]. destruct (rCancelled x) eqn:E; [right; left; by eapply Hcan|by left].
  - runner_of r x Ex. destruct (rStage x); try done. destruct (done && negb (rCancelled x)) eqn:E; [done|]. intros [= <- <-]. eapply calm_move; [done..|].
    destruct done; [|by left]. right. left. destruct (rCancelled x) eqn:E'; [by eapply Hcan|done].
  - runner_of r x Ex. destruct (rStage x); try done. destruct (rCancelled x); [|done]. intros [= <- <-]. by eapply calm_move; [| | |left].
  - runner_of r x Ex. destruct (in_serve (rStage x)); [|done]. intros [= <- <-]. apply (calm_link _ false (out c) (move r _ c)). eapply calm_move; [done..|].
    destruct (rCancelled x) eqn:E; [right; left; by eapply Hcan|by left].
  - runner_of r x Ex. by apply calm_write.
  - runner_of r x Ex. intros [= <- <-]. by apply calm_ping.
  - runner_of r x Ex. destruct (rStage x); try done. intros [= <- <-]. destruct (idle o now c); [|by apply calm_same]. by eapply calm_move; [| | |left].
  - runner_of r x Ex. destruct (in_serve (rStage x)); [|done]. pose proof (calm_read (EvRead r f) os r x f c Hco Ex eq_refl) as H. destruct (on_read r (rStage x) f c) as [c1 os1].
    intros Hr. injection Hr as -> ->. done.
  - runner_of r x Ex. destruct (rStage x) eqn:E; try done. intros [= <- <-]. pose proof (calm_leave c r x Hco Ex (or_introl E)) as Hno.
    destruct (calm_move (EvUnlock r) [] c r x Unlocked Hco Ex eq_refl (or_intror Hno)) as [H1 H2 H3 H4 H5 H6]. by split.
  - runner_of r x Ex. destruct (rStage x) eqn:E; try done. intros [= <- <-]. by eapply calm_finish.
  - destruct (owner c !! s) as [k|]; [|done]. intros [= <- <-]. destruct (_ || _); [by apply calm_same|]. by apply calm_enqueue, calm_same.
Qed.
End Calm.

Lemma trace_calm o h c : trace calm o h c → calm_ok h c.
Proof.
  induction 1 as [|h c e c' os Ht IH HP Hstep]; [|by eapply calm_step; [apply (trace_safe calm o h c Ht)| | |]].
  split; [done|by split|by split| |done|done]. intros _. split; [done..|]. done.
Qed.

(** ** A connection for those who need it *)

Fixpoint steps (o : ClientOptions) (l : list event) (c : Client) : option Client :=
  match l with [] => Some c | e :: l => '(c, _) ← step o e c; steps o l c end.

Lemma busy_not_idle o now c : proxies c ≠ ∅ → idle o now c = false.
Proof. intros Hp. unfold idle. by rewrite bool_decide_false. Qed.

Lemma connects o c r x : crashed c = false → proxies c ≠ ∅ → runners c !! r = Some x → rCancelled x = false → rStage x ≠ Leaving → rStage x ≠ Unlocked →
  ∃ l c', steps o l c = Some c' ∧ connected c' = true ∧ l `suffix_of` [EvServed r; EvWaited r false; EvLoop r 0; EvDial r true].
Proof.
  intros Hcr Hp Hx Hca H1 H2.
  assert (∀ c y, crashed c = false → runners c !! r = Some y → rStage y = Dialing → ∃ c', steps o [EvDial r true] c = Some c' ∧ connected c' = true) as Hdial.
  { intros d y Hd Hy Hs. cbn [steps]. unfold step. rewrite Hd, Hy. cbn [mbind option_bind]. rewrite Hs. by eexists. }
  assert (∀ c y, crashed c = false → proxies c ≠ ∅ → runners c !! r = Some y → rStage y = Looping → ∃ c', steps o [EvLoop r 0; EvDial r true] c = Some c' ∧ connected c' = true) as Hloop.
  { intros d y Hd Hpd Hy Hs. remember [EvDial r true] as l. cbn [steps]. unfold step. rewrite Hd, Hy. cbn [mbind option_bind]. rewrite Hs, busy_not_idle by done. subst l. eapply Hdial; [done| |].
    - cbn. by rewrite lookup_alter_eq, Hy. - done. }
  assert (∀ c y, crashed c = false → proxies c ≠ ∅ → runners c !! r = Some y → rStage y = Waiting →
    ∃ c', steps o [EvWaited r false; EvLoop r 0; EvDial r true] c = Some c' ∧ connected c' = true) as Hwait.
  { intros d y Hd Hpd Hy Hs. remember [EvLoop r 0; EvDial r true] as l. cbn [steps]. unfold step. rewrite Hd, Hy. cbn [mbind option_bind]. rewrite Hs. cbn [andb]. subst l.
    eapply Hloop; [done|done| |]. - cbn. by rewrite lookup_alter_eq, Hy. - done. }
  assert (in_serve (rStage x) = true → ∃ c', steps o [EvServed r; EvWaited r false; EvLoop r 0; EvDial r true] c = Some c' ∧ connected c' = true) as Hserve.
  { intros Hs. remember [EvWaited r false; EvLoop r 0; EvDial r true] as l. cbn [steps]. unfold step. rewrite Hcr, Hx. cbn [mbind option_bind]. rewrite Hs, Hca. subst l.
    eapply Hwait; [done|done| |]. - cbn. by rewrite lookup_alter_eq, Hx. - done. }
  destruct (rStage x) eqn:E; try done.
  - destruct (Hloop c x) as (c' & ? & ?); [done..|]. eexists _, c'. split; [done|]. split; [done|]. by exists [EvServed r; EvWaited r false].
  - destruct (Hdial c x) as (c' & ? & ?); [done..|]. eexists _, c'. split; [done|]. split; [done|]. by exists [EvServed r; EvWaited r false; EvLoop r 0].
  - destruct Hserve as (c' & ? & ?); [done|]. eexists _, c'. split; [done|]. by split; [|exists []].
  - destruct Hserve as (c' & ? & ?); [done|]. eexists _, c'. split; [done|]. by split; [|exists []].
  - destruct (Hwait c x) as (c' & ? & ?); [done..|]. eexists _, c'. split; [done|]. split; [done|]. by exists [EvServed r].
Qed.

(** ** What the client promises *)

(** C19: however its goroutines are interleaved, the client neither mixes peers up
    nor leaks.  Every open socket is the proxy of one peer, and the other way
    round; only proxies are being released; after [Close] there are none, and
    none is made.  At most one runner is there.  No more than 256 frames wait.  A
    frame that is written is a control frame or carries a WireGuard datagram that
    was sent to the proxy of the peer it is for, and what a proxy delivers was
    received from the relay as coming from its peer. *)
Theorem client_safe o h c (Ht : trace (λ _ _, True) o h c) :
  (∀ s, s ∈ sockets c ↔ ∃ k, proxies c !! k = Some s ∧ owner c !! s = Some k) ∧
  (∀ k t, releasing c !! k = Some t → is_Some (proxies c !! k)) ∧
  (closed c = true → sockets c = ∅ ∧ ∀ k socket, Endpoint k socket c = (c, None)) ∧
  (∀ r r', active (runners c) r → active (runners c) r' → r = r') ∧
  (length (out c) <= queue_size)%nat ∧
  (∀ e os x, (e, os) ∈ h → x ∈ os → seen_ok h (owner c) x).
Proof.
  destruct (trace_safe _ o h c Ht) as [[[P1 P2 P3 P4 P5] [R1 _ _] [Q1 _]] Hall]. split_and!; [|done| |done|done|].
  - intros s. rewrite P1. split; [|naive_solver]. intros (k & Hk). exists k. split; [done|by apply P2].
  - intros Hc. split; [|intros k socket; unfold Endpoint; by rewrite Hc]. apply set_eq. intros s. rewrite P1, (P5 Hc). split; [by intros (k & ?)|set_solver].
  - intros e os x He Hx. rewrite Forall_forall in Hall. specialize (Hall _ He). rewrite Forall_forall in Hall. by apply Hall.
Qed.

(** C20: the peers stay connected.  As long as no call of [Endpoint] falls between a
    runner's finding itself idle and the end of its goroutine, nor between the
    timer of a peer going off and the drop of that peer's proxy: no channel is
    closed twice; every address given out and not released since is that of an
    open proxy; a client with proxies has one runner that is not about to leave,
    and four of its steps lead to a connection; and once the channel that [Close]
    waits for is closed, no goroutine of a runner is left. *)
Theorem peers_stay_connected o h c (Ht : trace calm o h c) :
  crashed c = false ∧
  (∀ k s, lent h !! k = Some s → proxies c !! k = Some s ∧ s ∈ sockets c ∧ releasing c !! k = None) ∧
  (proxies c ≠ ∅ → ∃ r, running c = true ∧ current c = Some r ∧ ∃ l c', steps (withDefaults o) l c = Some c' ∧ connected c' = true ∧
     l `suffix_of` [EvServed r; EvWaited r false; EvLoop r 0; EvDial r true]) ∧
  (∀ r, current c = Some r → r ∈ finished c → runners c = ∅).
Proof.
  destruct (trace_safe _ o h c Ht) as [[HP HR _] _]. destruct (trace_calm o h c Ht) as [H1 H2 [H3 _] H4 H5 H6]. split_and!; [done| | |].
  - intros k s Hs. destruct (H5 k s Hs) as (_ & Hp & Hr). split_and!; [done| |done]. apply (po_open _ _ _ _ _ _ HP). by exists k.
  - intros Hp. assert (closed c = false) as Hc by (destruct (closed c) eqn:E; [by rewrite (po_closed _ _ _ _ _ _ HP eq_refl) in Hp|done]).
    destruct (H6 Hc Hp) as (r & x & Hx & Hl & Hu). exists r. split; [apply (ro_running _ _ _ HR); by exists r, x|]. split; [by apply (uo_current _ _ _ _ H2 r x)|].
    apply (connects _ c r x); try done. destruct (rCancelled x) eqn:E; [by rewrite (H3 r x) in Hc|done].
  - intros r Hr Hf. apply map_empty. intros r'. destruct (runners c !! r') as [x|] eqn:Ex; [|done]. destruct (uo_current _ _ _ _ H2 _ _ Ex) as [E Hn]. congruence.
Qed.

(** ** Runs *)

Definition demo_options : ClientOptions := {| IdleTimeout := 0; MissedPings := 0 |}.
Definition ka : Key := replicate 32 Byte.x0a.
Definition kb : Key := replicate 32 Byte.x0b.
Definition demo_run (l : list event) : option Client := steps (withDefaults demo_options) l NewClient.

(** The events one after the other, with their history. *)
Fixpoint replay (o : ClientOptions) (l : list event) (h : history) (c : Client) : option (history * Client) :=
  match l with [] => Some (h, c) | e :: l => '(c, os) ← step (withDefaults o) e c; replay o l ((e, os) :: h) c end.

Lemma trace_replay (P : event → Client → Prop) o l : ∀ h c h' c', trace P o h c → replay o l h c = Some (h', c') → (∀ e d, e ∈ l → P e d) → trace P o h' c'.
Proof.
  induction l as [|e l IH]; intros h c h' c' Ht Hs HP; cbn [replay] in Hs; [by injection Hs as <- <-|].
  destruct (step (withDefaults o) e c) as [[d os]|] eqn:E; [|done]. cbn [mbind option_bind] in Hs.
  eapply (IH ((e, os) :: h) d); [by eapply trace_step; [|apply HP; left|]|done|]. intros e' d' He. apply HP. by right.
Qed.

Definition demo_events : list event :=
  [EvEndpoint ka true; EvDatagram 0 [Byte.x01; Byte.x00; Byte.x00; Byte.x00]; EvLoop 1 1; EvDial 1 true; EvWrite 1 true;
   EvRead 1 {| FType := TypeRecv; FKey := ka; Payload := [Byte.x02] |}; EvEndpoint kb true].

Lemma client_safe_witness :
  ∃ h c, trace (λ _ _, True) demo_options h c ∧ size (sockets c) = 2%nat ∧
    (∀ r r', active (runners c) r → active (runners c) r' → r = r') ∧ (length (out c) <= queue_size)%nat.
Proof.
  assert ((λ hc, size (sockets hc.2)) <$> replay demo_options demo_events [] NewClient = Some 2%nat) as Hz by (by vm_compute).
  destruct (replay demo_options demo_events [] NewClient) as [[h c]|] eqn:E; [|done]. cbn in Hz. injection Hz as Hz.
  pose proof (trace_replay (λ _ _, True) demo_options demo_events [] NewClient h c (trace_start _ _) E ltac:(done)) as Ht.
  destruct (client_safe demo_options h c Ht) as (_ & _ & _ & H1 & H2 & _). exists h, c. by split_and!.
Defined.

Lemma peers_stay_connected_witness :
  ∃ h c, trace calm demo_options h c ∧ crashed c = false ∧ proxies c !! ka = Some 0%nat.
Proof.
  assert (∃ c os, step (withDefaults demo_options) (EvEndpoint ka true) NewClient = Some (c, os) ∧ os = [Answer ka (Some 0%nat)]) as (c & os & E & ->) by (eexists _, _; by split; [vm_compute|]).
  assert (trace calm demo_options [(EvEndpoint ka true, [Answer ka (Some 0%nat)])] c) as Ht.
  { eapply trace_step; [apply trace_start| |exact E]. right. by split. }
  destruct (peers_stay_connected demo_options _ c Ht) as (Hc & Hl & _). eexists _, c. split; [done|]. split; [done|]. by apply (Hl ka 0%nat).
Defined.

(** A runner finds itself idle; a peer is wanted before it has said so: the
    peer has an address, and nothing will ever connect. *)
Definition idle_start : list event := [EvEndpoint ka true; EvRelease ka; EvFire 2; EvDrop 2 1; EvLoop 1 (301 * second)].
Example stranded :
  (λ c, (map_to_list (proxies c), running c, size (runners c))) <$> demo_run (idle_start ++ [EvEndpoint kb true; EvUnlock 1; EvFinish 1; EvEndpoint kb true])
  = Some ([(kb, 3%nat)], false, 0%nat).
Proof. by vm_compute. Qed.

(** A peer is wanted between a runner's lock and its closing of the channel: it
    closes that of the new runner, which then closes it again. *)
Example closed_twice :
  crashed <$> demo_run (idle_start ++ [EvUnlock 1; EvEndpoint kb true; EvFinish 1; EvRelease kb; EvFire 5; EvDrop 5 (302 * second); EvLoop 4 (700 * second); EvUnlock 4; EvFinish 4])
  = Some true.
Proof. by vm_compute. Qed.

(** A timer has gone off, and the peer is wanted again before its function has
    the lock: the address given out is that of a socket about to be closed. *)
Example dead_address :
  (λ c, (bool_decide (0%nat ∈ sockets c), size (proxies c))) <$> demo_run [EvEndpoint ka true; EvRelease ka; EvFire 2; EvEndpoint ka true; EvDrop 2 1] = Some (false, 0%nat).
Proof. by vm_compute. Qed.
