(* ===== verification/RelayPath.v ===== *)
(** A packet's way through the relay: two clients and the server between them.

    The connections are TLS streams: the frames a client reads are frames the
    server wrote to its session, and the frames the server reads from a session
    are frames its client wrote.  A session is authenticated by its node secret,
    so its client is the device of its key. *)

From S2P Require Import Prelude RelayFrame.
From S2P Require RelayServer RelayClient.

Section Path.
Context {V : Type} `{!RelayServer.Visibility V}.

(** The history of the client of every session. *)
Record linked (es : list (RelayServer.event (V:=V))) (os : list RelayServer.output)
    (clients : nat → list (RelayClient.event * list RelayClient.output)) : Prop := {
  li_sent : ∀ id g now v, RelayServer.EvFrame id g now v ∈ es → ∃ e xs, (e, xs) ∈ clients id ∧ RelayClient.Wrote g ∈ xs;
  li_received : ∀ id r f xs, (RelayClient.EvRead r f, xs) ∈ clients id → RelayServer.Wrote id f ∈ os;
}.

(** C18: WireGuard's packets through the relay are authentic and allowed.  Whenever
    the client of a device delivers a datagram from the proxy of a peer, a
    client of that peer was given this very datagram, for the device, it is a
    WireGuard message, and the control plane had said that the two see each
    other: however the goroutines of the clients and of the server are
    interleaved. *)
Theorem relayed_packets so es co clients cs
    (Hlinked : linked es (RelayServer.run so es).2 clients)
    (Hclients : ∀ id, RelayClient.trace (λ _ _, True) co (clients id) (cs id)) :
  ∀ id s p e xs a, (e, xs) ∈ clients id → RelayClient.Delivered s p ∈ xs → RelayClient.owner (cs id) !! s = Some a →
    ∃ x id' x' e' xs' s' now v g,
      RelayServer.store (RelayServer.run so es).1 !! id = Some x ∧ RelayServer.store (RelayServer.run so es).1 !! id' = Some x' ∧ RelayServer.key x' = a ∧
      RelayServer.EvFrame id' g now v ∈ es ∧ (e', xs') ∈ clients id' ∧ e' = RelayClient.EvDatagram s' p ∧
      RelayClient.owner (cs id') !! s' = Some (RelayServer.key x) ∧ IsWireGuard p = true ∧ RelayServer.visible v a (RelayServer.key x) = Some true.
Proof.
  intros id s p e xs a Hin Hd Ha.
  assert (∀ id e xs y, (e, xs) ∈ clients id → y ∈ xs → RelayClient.seen_ok (clients id) (RelayClient.owner (cs id)) y) as Hseen.
  { intros i e' xs' y Hi Hy. destruct (RelayClient.trace_safe _ _ _ _ (Hclients i)) as [_ Hall]. rewrite Forall_forall in Hall. specialize (Hall _ Hi). rewrite Forall_forall in Hall. by apply Hall. }
  destruct (Hseen _ _ _ _ Hin Hd) as (r & f & zs & Hr & Ht & Hp & Ho). rewrite Ha in Ho. injection Ho as ->.
  apply (li_received _ _ _ Hlinked) in Hr. destruct (RelayServer.relay_writes so es id f Hr Ht) as (x & id' & x' & g & now & v & Hx & Hx' & Hk & Hev & Hg & Hgk & Hgp & Hw & Hv).
  destruct (li_sent _ _ _ Hlinked _ _ _ _ Hev) as (e' & ys & Hy & Hwrote).
  destruct (Hseen _ _ _ _ Hy Hwrote) as [(s' & zs' & Hdat & Hown & _ & _ & _)|[->| ->]]; [|done|done].
  rewrite Hgp, Hp in Hdat. rewrite Hgk in Hown. exists x, id', x', (RelayClient.EvDatagram s' p), zs', s', now, v, g. rewrite Hp in Hw. rewrite Hk in Hv. by split_and!.
Qed.
End Path.

(** ** Two devices *)

Definition packet : list byte := [Byte.x01; Byte.x00; Byte.x00; Byte.x00].
#[local] Instance everyone : RelayServer.Visibility unit := λ _ _ _, Some true.
Definition demo_relay : list (RelayServer.event (V:=unit)) :=
  [RelayServer.EvServe RelayClient.ka 1; RelayServer.EvServe RelayClient.kb 1;
   RelayServer.EvFrame 0 {| FType := TypeSend; FKey := RelayClient.kb; Payload := packet |} 1 (); RelayServer.EvWrite 1 true].
Definition sender : list RelayClient.event :=
  [RelayClient.EvEndpoint RelayClient.kb true; RelayClient.EvDatagram 0 packet; RelayClient.EvLoop 1 1; RelayClient.EvDial 1 true; RelayClient.EvWrite 1 true].
Definition receiver : list RelayClient.event :=
  [RelayClient.EvEndpoint RelayClient.ka true; RelayClient.EvLoop 1 1; RelayClient.EvDial 1 true;
   RelayClient.EvRead 1 {| FType := TypeRecv; FKey := RelayClient.ka; Payload := packet |}].
Definition demo_relay_options : RelayServer.ServerOptions :=
  {| RelayServer.MaxBytesPerSecond := 0; RelayServer.QueueSize := 0; RelayServer.PingInterval := 0; RelayServer.MissedPings := 0; RelayServer.MaxViolationsPerMinute := 0 |}.
Definition replayed (l : list RelayClient.event) : list (RelayClient.event * list RelayClient.output) * RelayClient.Client :=
  default ([], RelayClient.NewClient) (RelayClient.replay RelayClient.demo_options l [] RelayClient.NewClient).
Definition events_of (id : nat) : list RelayClient.event := match id with 0%nat => sender | 1%nat => receiver | _ => [] end.

Lemma demo_replayed id : RelayClient.trace (λ _ _, True) RelayClient.demo_options (replayed (events_of id)).1 (replayed (events_of id)).2.
Proof.
  unfold replayed. destruct (RelayClient.replay _ (events_of id) [] _) as [[h c]|] eqn:E; [|apply RelayClient.trace_start].
  by eapply RelayClient.trace_replay; [apply RelayClient.trace_start|exact E|].
Qed.

Lemma demo_linked : linked demo_relay (RelayServer.run demo_relay_options demo_relay).2 (λ id, (replayed (events_of id)).1).
Proof.
  split.
  - intros id g now v Hin. unfold demo_relay in Hin. rewrite !elem_of_cons, elem_of_nil in Hin. destruct Hin as [?|[?|[[= -> -> _ _]|[?|[]]]]]; try done.
    eexists (RelayClient.EvWrite 1 true), _. split; [vm_compute; by left|by left].
  - intros id r f xs Hin.
    assert (Forall (λ y, match y.1 with RelayClient.EvRead _ f => id = 1%nat ∧ f = {| FType := TypeRecv; FKey := RelayClient.ka; Payload := packet |} | _ => True end)
      (replayed (events_of id)).1) as Hall by (destruct id as [|[|id]]; vm_compute; by repeat constructor).
    rewrite Forall_forall in Hall. destruct (Hall _ Hin) as [-> ->]. vm_compute. by left.
Qed.

Lemma relayed_packets_witness :
  ∃ x id', RelayServer.store (RelayServer.run demo_relay_options demo_relay).1 !! 1%nat = Some x ∧ RelayServer.visible () RelayClient.ka (RelayServer.key x) = Some true ∧
    id' = 0%nat.
Proof.
  destruct (relayed_packets demo_relay_options demo_relay RelayClient.demo_options _ _ demo_linked demo_replayed
    1%nat 0%nat packet (RelayClient.EvRead 1 {| FType := TypeRecv; FKey := RelayClient.ka; Payload := packet |}) [RelayClient.Delivered 0 packet] RelayClient.ka)
    as (x & id' & x' & e' & xs' & s' & now & v & g & Hx & Hx' & Hk & Hev & _ & _ & _ & _ & Hv).
  - vm_compute. by left.
  - by left.
  - by vm_compute.
  - exists x, id'. split; [done|]. destruct v. split; [done|]. unfold demo_relay in Hev. rewrite !elem_of_cons, elem_of_nil in Hev. destruct Hev as [?|[?|[[= ? _ _]|[?|[]]]]]; done.
Defined.
