(* ===== verification/Alloc.v ===== *)
(** Overlay addresses: [internal/control/allocator.go] and
    [internal/control/ipv6.go].

    A peer's IPv4 address is the lowest free host address of the overlay; its
    IPv6 address is derived from it. *)

From S2P Require Import Prelude GoStrings NetIP.

Inductive alloc_error := NotIPv4 | ErrExhausted.

(** [lastAddr]: the broadcast address.  [As4] panics ([None]) on the zero
    address. *)
Definition lastAddr (p : prefix) : option addr :=
  match paddr p with
  | Addr4 a =>
      let hostBits := 32 - pbits p in
      let mask := if 32 <=? hostBits then 4294967295 else u32 (Z.shiftl 1 hostBits - 1) in
      Some (Addr4 (Z.lor a mask))
  | _ => None
  end.

(** The loop from [a] up to [broadcast]; each turn but the last meets a used
    address, so [fuel] one above the number of used ones is enough. *)
Fixpoint search (fuel : nat) (p : prefix) (used : gset addr) (broadcast a : addr) : result alloc_error addr :=
  match fuel with
  | O => Err ErrExhausted
  | S k =>
      if IsValid a && Contains p a && addr_ltb a broadcast
      then if decide (a ∈ used) then search k p used broadcast (Next a) else Ok a
      else Err ErrExhausted
  end.

Definition NextAddress (p : prefix) (allocated : list addr) : option (result alloc_error addr) :=
  if negb (Is4 (paddr p)) then Some (Err NotIPv4)
  else
    let p := Masked p in
    let used : gset addr := list_to_set (Unmap <$> allocated) in
    let hub := Next (paddr p) in
    broadcast ← lastAddr p;
    Some (search (S (length allocated)) p used broadcast (Next hub)).

(** [IPv6For]: the last four bytes of the prefix replaced. *)
Definition IPv6For (p : prefix) (v4 : addr) : addr :=
  let v4 := Unmap v4 in
  match v4 with
  | Addr4 a =>
      if negb (PIsValid p) || negb (Is6 (paddr p)) || Is4In6 (paddr p) || negb (pbits p =? 64) then AddrNone
      else AddrFrom16 (take 12 (As16 (paddr (Masked p))) ++ addr4_bytes a)
  | _ => AddrNone
  end.

(** [NewULAPrefix] from the five bytes the random source gave. *)
Definition NewULAPrefix (rnd : list byte) : option prefix :=
  if (5 <=? length rnd)%nat
  then Some (PrefixFrom (AddrFrom16 (Byte.xfd :: take 5 rnd ++ replicate 10 Byte.x00)) 64)
  else None.

(** [addrString]. *)
Definition addrString (a : addr) : string := if IsValid a then addr_string a else "".

Example alloc_demo :
  NextAddress (Prefix (Addr4 1681915904) 10) [Addr4 1681915906; Addr4 1681915908] = Some (Ok (Addr4 1681915907)).
Proof. vm_compute. reflexivity. Qed.

Example ipv6_demo :
  addr_string (IPv6For (Prefix (Addr6 (253 * 2 ^ 120) "") 64) (Addr4 1681915911)) = "fd00::6440:7".
Proof. vm_compute. reflexivity. Qed.

(** ** The IPv4 allocator *)

Lemma size_list_to_set_le (l : list addr) : (size (list_to_set l : gset addr) <= length l)%nat.
Proof.
  induction l as [|a l IH]; [done|]. simpl. rewrite size_union_alt, size_singleton.
  assert (size ((list_to_set l : gset addr) ∖ {[a]}) <= size (list_to_set l : gset addr))%nat
    by (apply subseteq_size; set_solver). lia.
Qed.

(** The broadcast address of network [net] with [bits] bits. *)
Lemma lastAddr_spec net bits :
  0 <= bits <= 32 → 0 <= net < 2 ^ 32 → net `mod` 2 ^ (32 - bits) = 0 →
  lastAddr (Prefix (Addr4 net) bits) = Some (Addr4 (net + 2 ^ (32 - bits) - 1)).
Proof.
  intros Hb Hn Hm. unfold lastAddr. simpl. f_equal. f_equal.
  set (h := 32 - bits) in *. assert (0 <= h <= 32) as Hh by lia.
  assert ((if 32 <=? h then 4294967295 else u32 (Z.shiftl 1 h - 1)) = Z.ones h) as ->.
  { destruct (Z.leb_spec 32 h); [by replace h with 32 by lia|].
    rewrite Z.ones_equiv, Z.shiftl_1_l. unfold u32. apply Z.mod_small.
    pose proof (Z.pow_pos_nonneg 2 h). assert (2 ^ h < 2 ^ 32) by (apply Z.pow_lt_mono_r; lia). lia. }
  assert (Z.land net (Z.ones h) = 0) as Hland by (by rewrite Z.land_ones by lia).
  rewrite <- Z.lxor_lor, <- Z.add_nocarry_lxor by done. rewrite Z.ones_equiv. lia.
Qed.

Section Search.
Context (net bits : Z) (used : gset addr).
Hypothesis Hbits : 0 <= bits <= 32.
Hypothesis Hnet : 0 <= net < 2 ^ 32.
Hypothesis Hmask : net `mod` 2 ^ (32 - bits) = 0.

(** Host addresses: past the network and the hub, below the broadcast. *)
Definition candidate (x : Z) : Prop := net + 2 <= x < net + 2 ^ (32 - bits) - 1.

Lemma candidate_range x : candidate x → 0 <= x < 2 ^ 32 - 1.
Proof.
  unfold candidate. intros Hc. set (h := 32 - bits) in *. assert (0 <= h <= 32) by lia.
  assert (2 ^ 32 = 2 ^ h * 2 ^ (32 - h)) as H32 by (rewrite <- Z.pow_add_r; [f_equal; lia|lia|lia]).
  pose proof (Z.pow_pos_nonneg 2 h). pose proof (Z.pow_pos_nonneg 2 (32 - h)).
  pose proof (Z.div_mod net (2 ^ h)). rewrite Hmask in *.
  assert (net `div` 2 ^ h < 2 ^ (32 - h)) by (apply Z.div_lt_upper_bound; lia). nia.
Qed.

Lemma guard_candidate x :
  net + 2 <= x → 0 <= x < 2 ^ 32 →
  IsValid (Addr4 x) && Contains (Prefix (Addr4 net) bits) (Addr4 x)
    && addr_ltb (Addr4 x) (Addr4 (net + 2 ^ (32 - bits) - 1)) = true ↔ candidate x.
Proof.
  intros Hx Hr. unfold candidate, Contains, PIsValid, addr_ltb. change (hasZone (Addr4 x)) with false.
  cbn [paddr pbits IsValid BitLen addr_bits Zone]. rewrite (proj2 (Z.leb_le 0 bits)) by lia. cbn [negb orb andb].
  rewrite Z.eqb_refl.
  pose proof (Z.pow_pos_nonneg 2 (32 - bits)).
  rewrite andb_true_iff. split.
  - intros [_ Hlt]. destruct (Z.eqb_spec x (net + 2 ^ (32 - bits) - 1)); [done|]. go_bool. lia.
  - intros [_ Hlt]. split.
    + apply Z.eqb_eq. pose proof (Z.div_mod net (2 ^ (32 - bits))). rewrite Hmask in *.
      apply Z.div_unique with (x - net); lia.
    + destruct (Z.eqb_spec x (net + 2 ^ (32 - bits) - 1)); [lia|]. apply Z.ltb_lt. lia.
Qed.

(** What the loop has met so far is used, and what it returns is the first
    candidate that is not. *)
Lemma search_spec fuel x (seen : list Z) :
  net + 2 <= x → (x <= 2 ^ 32) →
  NoDup seen → Forall (λ y, y < x ∧ Addr4 y ∈ used) seen →
  (∀ y, candidate y → y < x → Addr4 y ∈ used) →
  (size used < fuel + length seen)%nat →
  let r := search fuel (Prefix (Addr4 net) bits) used (Addr4 (net + 2 ^ (32 - bits) - 1))
             (if x =? 2 ^ 32 then AddrNone else Addr4 x) in
  (∃ z, r = Ok (Addr4 z) ∧ candidate z ∧ Addr4 z ∉ used ∧ ∀ y, candidate y → y < z → Addr4 y ∈ used) ∨
  (r = Err ErrExhausted ∧ ∀ y, candidate y → Addr4 y ∈ used).
Proof.
  revert x seen. induction fuel as [|fuel IH]; intros x seen Hlo Hhi Hnd Hseen Hbelow Hsize; cbv zeta.
  { exfalso. assert (list_to_set (Addr4 <$> seen) ⊆ used) as Hsub.
    { intros a. rewrite elem_of_list_to_set, list_elem_of_fmap. intros (y & -> & Hy).
      rewrite Forall_forall in Hseen. by apply Hseen. }
    apply subseteq_size in Hsub. rewrite size_list_to_set in Hsub.
    - rewrite length_fmap in Hsub. simpl in Hsize. lia.
    - apply NoDup_fmap_2; [by intros ?? [=]|done]. }
  cbn [search]. destruct (Z.eqb_spec x (2 ^ 32)) as [->|Hne].
  { right. split; [done|]. intros y Hy. apply Hbelow; [done|]. apply candidate_range in Hy. lia. }
  pose proof (guard_candidate x Hlo ltac:(lia)) as Hg. destruct (_ && _ && _).
  - destruct (decide (Addr4 x ∈ used)) as [Hu|Hu].
    + replace (Next (Addr4 x)) with (if x + 1 =? 2 ^ 32 then AddrNone else Addr4 (x + 1)) by done.
      apply (IH (x + 1) (x :: seen)); [lia|lia| | | |simpl; lia].
      * constructor; [|done]. rewrite Forall_forall in Hseen. intros Hin%Hseen. lia.
      * constructor; [split; [lia|done]|]. eapply Forall_impl; [exact Hseen|]. simpl. intros y [? ?]. split; [lia|done].
      * intros y Hy Hlt. destruct (decide (y = x)) as [->|]; [done|]. apply Hbelow; [done|lia].
    + left. exists x. split; [done|]. split; [by apply Hg|]. done.
  - right. split; [done|]. intros y Hy. apply Hbelow; [done|].
    assert (¬ candidate x) as Hnc by (intros Hc; by apply Hg in Hc). unfold candidate in *. lia.
Qed.
End Search.

Lemma NextAddress_spec (p : prefix) (net : Z) (allocated : list addr) :
  prefix_wf p → paddr p = Addr4 net → 0 <= pbits p →
  let base := mask_top 32 (pbits p) net in
  let host x := base + 2 <= x < base + 2 ^ (32 - pbits p) - 1 in
  (∃ x, NextAddress p allocated = Some (Ok (Addr4 x)) ∧ host x ∧ Addr4 x ∉ Unmap <$> allocated ∧
        ∀ y, host y → y < x → Addr4 y ∈ Unmap <$> allocated) ∨
  (NextAddress p allocated = Some (Err ErrExhausted) ∧ ∀ y, host y → Addr4 y ∈ Unmap <$> allocated).
Proof.
  intros (Hwf & _ & Hb) Hp Hpos base host. rewrite Hp in *. simpl in Hwf, Hb.
  assert (pbits p <= 32) as Hle by (destruct Hb as [?|[_ ?]]; lia).
  pose proof (Z.pow_pos_nonneg 2 (32 - pbits p)) as Hpow.
  assert (0 <= base < 2 ^ 32) as Hbase.
  { unfold base, mask_top. pose proof (Z.div_mod net (2 ^ (32 - pbits p))).
    pose proof (Z.mod_pos_bound net (2 ^ (32 - pbits p))).
    pose proof (Z.div_pos net (2 ^ (32 - pbits p))). nia. }
  assert (base `mod` 2 ^ (32 - pbits p) = 0) as Hmod by (apply Z.mod_mul; lia).
  unfold NextAddress. rewrite Hp. simpl negb. cbv iota.
  assert (Masked p = Prefix (Addr4 base) (pbits p)) as Hm.
  { unfold Masked, PIsValid. by rewrite (proj2 (Z.leb_le _ _)), Hp by lia. }
  rewrite Hm. cbv zeta. rewrite lastAddr_spec by (done || lia). cbn [mbind option_bind paddr].
  set (used := list_to_set _ : gset addr).
  assert (∀ a, a ∈ used ↔ a ∈ Unmap <$> allocated) as Hused by (intros; apply elem_of_list_to_set).
  assert (size used <= length allocated)%nat as Hsz.
  { subst used. rewrite <- (length_fmap Unmap). apply size_list_to_set_le. }
  clearbody used. setoid_rewrite <- Hused.
  assert (base + 2 <= 2 ^ 32 ∨ base = 2 ^ 32 - 1) as [Hb2|Hlast] by lia.
  - replace (Next (Next (Addr4 base))) with (if base + 2 =? 2 ^ 32 then AddrNone else Addr4 (base + 2)).
    2:{ cbn [Next]. rewrite (proj2 (Z.eqb_neq (base + 1) (2 ^ 32))) by lia. cbn [Next].
        replace (base + 1 + 1) with (base + 2) by lia. done. }
    destruct (search_spec base (pbits p) used ltac:(lia) Hbase Hmod (S (length allocated)) (base + 2) [])
      as [(z & Hr & Hc & Hu & Hlow)|[Hr Hall]]; [lia|lia|constructor|constructor| |simpl; lia|..].
    + intros y [? _] ?. lia.
    + left. exists z. by rewrite Hr.
    + right. by rewrite Hr.
  - right. assert (Next (Next (Addr4 base)) = AddrNone) as -> by by rewrite Hlast.
    split; [done|]. unfold host. intros y Hy. exfalso.
    pose proof (candidate_range base (pbits p) ltac:(lia) Hbase Hmod y Hy). lia.
Qed.

(** The allocator hands out the lowest free host address.  For a valid
    IPv4 prefix it never panics: either it returns a host address (never the
    network, the hub or the broadcast) that is not allocated while every lower
    one is, or it reports exhaustion and every host address is allocated. *)
Theorem NextAddress_correct (p : prefix) (net : Z) (allocated : list addr) :
  prefix_wf p → paddr p = Addr4 net → 0 <= pbits p →
  let base := mask_top 32 (pbits p) net in
  let host x := base + 2 <= x < base + 2 ^ (32 - pbits p) - 1 in
  (∃ x, NextAddress p allocated = Some (Ok (Addr4 x)) ∧ host x ∧ Addr4 x ∉ Unmap <$> allocated ∧
        ∀ y, host y → y < x → Addr4 y ∈ Unmap <$> allocated) ∨
  (NextAddress p allocated = Some (Err ErrExhausted) ∧ ∀ y, host y → Addr4 y ∈ Unmap <$> allocated).
Proof. apply NextAddress_spec. Qed.

Lemma NextAddress_correct_witness :
  prefix_wf (Prefix (Addr4 1681915904) 10) ∧
  ((∃ x, NextAddress (Prefix (Addr4 1681915904) 10) [] = Some (Ok (Addr4 x))) ∨
   NextAddress (Prefix (Addr4 1681915904) 10) [] = Some (Err ErrExhausted)).
Proof.
  assert (prefix_wf (Prefix (Addr4 1681915904) 10)) as Hwf.
  { split; [simpl; lia|]. split; [reflexivity|]. right. simpl. split; [reflexivity|lia]. }
  split; [exact Hwf|].
  destruct (NextAddress_correct (Prefix (Addr4 1681915904) 10) 1681915904 [] Hwf eq_refl ltac:(simpl; lia))
    as [(x & Hx & _)|[Hx _]]; [left; by exists x|by right].
Defined.

(** ** Address pairs *)

Lemma be_dec_app l1 l2 : be_dec (l1 ++ l2) = be_dec l1 * 256 ^ Z.of_nat (length l2) + be_dec l2.
Proof.
  induction l2 as [|b l2 IH] using rev_ind.
  - rewrite app_nil_r. unfold be_dec at 3. simpl. lia.
  - rewrite app_assoc, !be_dec_snoc, IH, length_app. simpl.
    rewrite Nat2Z.inj_add, Z.pow_add_r by lia. change (256 ^ Z.of_nat 1) with 256. lia.
Qed.

Lemma be_dec_take n m z :
  (m <= n)%nat → 0 <= z → be_dec (take m (be_enc n z)) = (z `div` 256 ^ Z.of_nat (n - m)) `mod` 256 ^ Z.of_nat m.
Proof.
  intros Hmn Hz. pose proof (be_dec_app (take m (be_enc n z)) (drop m (be_enc n z))) as H.
  rewrite take_drop, be_dec_enc, length_drop, length_be_enc in H.
  pose proof (be_dec_range (drop m (be_enc n z))) as Hr. rewrite length_drop, length_be_enc in Hr.
  set (q := 256 ^ Z.of_nat (n - m)) in *. assert (0 < q) as Hq by (apply Z.pow_pos_nonneg; lia).
  assert (256 ^ Z.of_nat n = q * 256 ^ Z.of_nat m) as Hn.
  { unfold q. rewrite <- Z.pow_add_r by lia. f_equal. lia. }
  assert (0 < 256 ^ Z.of_nat m) by (apply Z.pow_pos_nonneg; lia).
  rewrite Hn, Z.rem_mul_r in H by lia.
  pose proof (Z.mod_pos_bound z q Hq). nia.
Qed.

(** [IPv6For] in arithmetic: the /64 network plus the IPv4 address. *)
Lemma IPv6For_value n a z :
  0 <= n < 2 ^ 128 → 0 <= a < 2 ^ 32 → Is4In6 (Addr6 n z) = false →
  IPv6For (Prefix (Addr6 n z) 64) (Addr4 a) = Addr6 (mask_top 128 64 n + a) "".
Proof.
  intros Hn Ha H4. unfold IPv6For. change (Unmap (Addr4 a)) with (Addr4 a).
  change (PIsValid (Prefix (Addr6 n z) 64)) with true. cbn [pbits paddr Is6]. rewrite H4. unfold AddrFrom16.
  change (negb true || negb true || false || negb (64 =? 64)) with false. cbv iota. f_equal.
  unfold Masked. change (PIsValid (Prefix (Addr6 n z) 64)) with true.
  cbn [pbits paddr addr_mask As16]. rewrite be_dec_app. unfold addr4_bytes.
  rewrite length_be_enc, be_dec_enc_small by done. f_equal.
  assert (0 <= mask_top 128 64 n < 2 ^ 128) as Hm.
  { unfold mask_top. pose proof (Z.div_mod n (2 ^ (128 - 64))). pose proof (Z.mod_pos_bound n (2 ^ (128 - 64))).
    pose proof (Z.div_pos n (2 ^ (128 - 64))). lia. }
  rewrite be_dec_take by lia. change (256 ^ Z.of_nat (16 - 12)) with (2 ^ 32). change (256 ^ Z.of_nat 12) with (2 ^ 96).
  change (256 ^ Z.of_nat 4) with (2 ^ 32).
  rewrite Z.mod_small.
  - unfold mask_top. change (128 - 64) with (32 + 32). rewrite Z.pow_add_r by lia.
    rewrite Z.mul_assoc, Z.div_mul by lia. done.
  - split; [apply Z.div_pos; lia|]. apply Z.div_lt_upper_bound; [lia|]. lia.
Qed.

(** IPv4 and IPv6 addresses come in pairs.  [IPv6For] fails exactly when
    the prefix is no IPv6 /64 or the address no IPv4; otherwise the address
    lies inside the prefix, carries the IPv4 address in its last 32 bits, and
    distinct IPv4 addresses get distinct IPv6 ones.  A generated prefix is a
    unique local /64 that [IPv6For] accepts. *)
Theorem IPv6For_pairs :
  (∀ p v4, prefix_wf p →
     IPv6For p v4 = AddrNone ↔
     ¬ (PIsValid p = true ∧ Is6 (paddr p) = true ∧ Is4In6 (paddr p) = false ∧ pbits p = 64 ∧ Is4 (Unmap v4) = true)) ∧
  (∀ p a, prefix_wf p → 0 <= a < 2 ^ 32 → IPv6For p (Addr4 a) ≠ AddrNone →
     Contains p (IPv6For p (Addr4 a)) = true ∧ Is6 (IPv6For p (Addr4 a)) = true ∧
     addr_bits (IPv6For p (Addr4 a)) `mod` 2 ^ 32 = a) ∧
  (∀ p a b, prefix_wf p → 0 <= a < 2 ^ 32 → 0 <= b < 2 ^ 32 →
     IPv6For p (Addr4 a) ≠ AddrNone → IPv6For p (Addr4 a) = IPv6For p (Addr4 b) → a = b) ∧
  (∀ rnd p a, NewULAPrefix rnd = Some p → 0 <= a < 2 ^ 32 →
     IPv6For p (Addr4 a) ≠ AddrNone ∧ addr_bits (paddr p) `div` 2 ^ 120 = 253).
Proof.
  assert (∀ p v4, IPv6For p v4 = AddrNone ↔
    ¬ (PIsValid p = true ∧ Is6 (paddr p) = true ∧ Is4In6 (paddr p) = false ∧ pbits p = 64 ∧ Is4 (Unmap v4) = true)) as H1.
  { intros p v4. unfold IPv6For. destruct (Unmap v4) as [|a|a z]; simpl; [naive_solver| |naive_solver].
    destruct (PIsValid p), (Is6 (paddr p)), (Is4In6 (paddr p)); simpl; try naive_solver.
    destruct (Z.eqb_spec (pbits p) 64); simpl; naive_solver. }
  assert (∀ p a, prefix_wf p → 0 <= a < 2 ^ 32 → IPv6For p (Addr4 a) ≠ AddrNone →
    ∃ n z, p = Prefix (Addr6 n z) 64 ∧ 0 <= n < 2 ^ 128 ∧ IPv6For p (Addr4 a) = Addr6 (mask_top 128 64 n + a) "") as H2.
  { intros [pa pb] a (Hwf & _) Ha Hn. pose proof (H1 (Prefix pa pb) (Addr4 a)) as H. simpl in *.
    destruct (decide (0 <=? pb = true ∧ Is6 pa = true ∧ Is4In6 pa = false ∧ pb = 64 ∧ true = true))
      as [(_ & H6 & H4 & -> & _)|Hno]; [|by destruct Hn; apply H].
    destruct pa as [|?|n z]; try done. exists n, z. split; [done|]. split; [exact Hwf|]. by apply IPv6For_value. }
  assert (∀ n, mask_top 128 64 n `mod` 2 ^ 64 = 0) as Hmod.
  { intros n. unfold mask_top. apply Z.mod_mul. lia. }
  split_and!.
  - auto.
  - intros p a Hwf Ha Hn. destruct (H2 p a Hwf Ha Hn) as (n & z & -> & Hnr & ->). split_and!; [|done|].
    + unfold Contains. cbn [PIsValid pbits paddr]. change (hasZone (Addr6 _ "")) with false. cbn [negb orb].
      change (negb (0 <=? 64) || false) with false. cbv iota. apply Z.eqb_eq.
      unfold mask_top. rewrite Z.div_add_l by lia. change (128 - 64) with 64.
      rewrite (Z.div_small a) by lia. lia.
    + cbn [addr_bits]. unfold mask_top. change (128 - 64) with (32 + 32). rewrite Z.pow_add_r, Z.mul_assoc by lia.
      rewrite Z.add_comm, Z.mod_add by lia. by apply Z.mod_small.
  - intros p a b Hwf Ha Hb Hn E. assert (IPv6For p (Addr4 b) ≠ AddrNone) as Hn' by by rewrite <- E.
    destruct (H2 p a Hwf Ha Hn) as (n & z & -> & _ & Ea). destruct (H2 _ b Hwf Hb Hn') as (n' & z' & [= <- <-] & _ & Eb).
    rewrite Ea, Eb in E. injection E. lia.
  - intros rnd p a Hp Ha. unfold NewULAPrefix in Hp. destruct (Nat.leb_spec 5 (length rnd)) as [Hl|]; [|done].
    set (bs := Byte.xfd :: take 5 rnd ++ replicate 10 Byte.x00) in Hp.
    assert (be_dec bs = 253 * 2 ^ 120 + be_dec (take 5 rnd ++ replicate 10 Byte.x00)
      ∧ 0 <= be_dec (take 5 rnd ++ replicate 10 Byte.x00) < 2 ^ 120) as [Hbs Hr].
    { subst bs. set (t := take 5 rnd ++ replicate 10 Byte.x00).
      assert (length t = 15%nat) as Hlt by (subst t; rewrite length_app, length_take, length_replicate; lia).
      pose proof (be_dec_range t) as Hr. rewrite Hlt in Hr. change (256 ^ Z.of_nat 15) with (2 ^ 120) in Hr.
      split; [|done]. change (Byte.xfd :: t) with ([Byte.xfd] ++ t). rewrite be_dec_app, Hlt. done. }
    injection Hp as <-. unfold AddrFrom16, PrefixFrom. cbn [withoutZone IsValid BitLen paddr addr_bits].
    rewrite Hbs. set (v := 253 * 2 ^ 120 + _).
    assert (v `div` 2 ^ 120 = 253) as Hv by (subst v; rewrite Z.div_add_l, Z.div_small by lia; lia).
    split; [|done]. rewrite H1. intros []. split_and!; try done.
    cbn [paddr Is4In6]. apply Z.eqb_neq. intros Hd.
    assert (v < 65536 * 2 ^ 32) by (pose proof (Z.div_mod v (2 ^ 32)); pose proof (Z.mod_pos_bound v (2 ^ 32)); lia).
    subst v. lia.
Qed.
