(* ===== verification/Names.v ===== *)
(** Peer names and client versions: [internal/control/names.go], the name
    tests of [internal/control/ids.go] and the version gate of
    [internal/control/enroll.go]. *)

From Stdlib Require Import Strings.Ascii.
From S2P Require Import Prelude GoStrings Selector.

(** ** Names *)

Definition HubName : string := "hub".
Definition validPeerName (s : string) : bool := labelRe s && negb (bool_decide (s = HubName)).

Definition is_dash (c : ascii) : bool := bool_decide (c = "-"%char).

(** The loop of [SanitizeName] over the lowered text.  It runs over bytes: a
    rune outside ASCII takes the default branch, and its further bytes find
    [lastDash] set, so they add nothing. *)
Fixpoint sanitize (lastDash : bool) (l : bytes) : bytes :=
  match l with
  | [] => []
  | c :: l' =>
      if alnum c then c :: sanitize false l'
      else if lastDash then sanitize true l' else "-"%char :: sanitize true l'
  end.

(** [strings.TrimRight(s, "-")]. *)
Fixpoint strip_dashes (l : bytes) : bytes :=
  match l with
  | [] => []
  | c :: l' => if is_dash c then strip_dashes l' else l
  end.
Definition trim_right_dash (l : bytes) : bytes := reverse (strip_dashes (reverse l)).

Definition SanitizeName (hostname : string) : string :=
  let name := trim_right_dash (sanitize true (to_lower (chars hostname))) in
  let name := if (63 <? length name)%nat then trim_right_dash (take 63 name) else name in
  if bool_decide (name = []) then "peer" else of_chars name.

(** [Peers.NamesWithPrefix]: names equal to the prefix or LIKE prefix-%; LIKE
    ignores the case of ASCII letters. *)
Definition fold_case (s : string) : bytes := (λ c, if is_upper c then ascii_of_N (N_of_ascii c + 32) else c) <$> chars s.
Definition has_like_prefix (p n : string) : bool :=
  match cut_prefix (fold_case (p +:+ "-")) (fold_case n) with Some _ => true | None => false end.
Definition NamesWithPrefix (names : list string) (p : string) : list string :=
  filter (λ n, n = p ∨ has_like_prefix p n = true) names.

Definition suffix (i : Z) : string := "-" +:+ itoa i.

(** The [i]-th name tried. *)
Definition numbered (base : string) (i : Z) : string :=
  let c := base +:+ suffix i in
  if (63 <? String.length c)%nat
  then of_chars (take (63 - String.length (suffix i)) (chars base)) +:+ suffix i
  else c.

(** The loop [for i := 2; i < 10000; i++]. *)
Fixpoint try_numbered (fuel : nat) (i : Z) (base : string) (free : string → bool) : option string :=
  match fuel with
  | O => None
  | S k => if free (numbered base i) then Some (numbered base i) else try_numbered k (i + 1) base free
  end.

(** The closure [free]. *)
Definition name_free (taken : list string) (reserved : string → bool) (n : string) : bool :=
  negb (bool_decide (n ∈ taken)) && negb (reserved n).

Definition uniqueName (names : list string) (base : string) (reserved : string → bool) : option string :=
  let free := name_free (NamesWithPrefix names base) reserved in
  if free base then Some base else try_numbered (Z.to_nat 9998) 2 base free.

(** ** Versions *)

(** [strings.SplitN(v, ".", 3)] and the two numbers before the third part. *)
Definition parseMajorMinor (v : string) : option (Z * Z) :=
  let l := chars v in
  let l := match cut_prefix ["v"%char] l with Some l' => l' | None => l end in
  match split "." l with
  | p0 :: p1 :: _ =>
      maj ← atoi p0;
      minor ← atoi (match cut "-" p1 with Some (a, _) => a | None => p1 end);
      Some (maj, minor)
  | _ => None
  end.

(** [true] is a nil error. *)
Definition checkVersion (client minimum : string) : bool :=
  if bool_decide (minimum = "") then true
  else match parseMajorMinor client, parseMajorMinor minimum with
       | Some (cMaj, cMin), Some (mMaj, mMin) => negb ((cMaj <? mMaj) || ((cMaj =? mMaj) && (cMin <? mMin)))
       | _, _ => true
       end.

Definition NewerMajorMinor (server client : string) : bool :=
  match parseMajorMinor server, parseMajorMinor client with
  | Some (sMaj, sMin), Some (cMaj, cMin) => (cMaj <? sMaj) || ((sMaj =? cMaj) && (cMin <? sMin))
  | _, _ => false
  end.

Definition platform (os arch : string) : string :=
  if bool_decide (os = "") then arch else if bool_decide (arch = "") then os else os +:+ "/" +:+ arch.

Example sanitize_demo : SanitizeName "Bob's  MacBook-Pro.local." = "bob-s-macbook-pro-local".
Proof. vm_compute. reflexivity. Qed.
Example sanitize_empty : SanitizeName "---" = "peer".
Proof. vm_compute. reflexivity. Qed.
Example unique_demo : uniqueName ["web"; "web-2"] "web" (λ _, false) = Some "web-3".
Proof. vm_compute. reflexivity. Qed.
Example version_demo : checkVersion "v0.9.3-rc1" "0.10" = false ∧ checkVersion "dev" "0.10" = true.
Proof. vm_compute. split; reflexivity. Qed.

(** ** Lemmas *)

Lemma label_intro c l z :
  last (c :: l) = Some z → alnum c = true → alnum z = true →
  Forall (λ x, label_char x = true) (c :: l) → (length (c :: l) <= 63)%nat →
  validLabel (of_chars (c :: l)) = true.
Proof.
  intros Hlast Hc Hz Hall Hlen. rewrite validLabel_labelRe. unfold labelRe. rewrite chars_of_chars, Hc. simpl.
  destruct l as [|y mid _] using rev_ind; [done|]. rewrite reverse_snoc.
  rewrite app_comm_cons, last_snoc in Hlast. simplify_eq. rewrite Hz. simpl.
  apply Forall_cons in Hall as [_ Hall]. apply Forall_app in Hall as [Hall _].
  rewrite length_reverse. rewrite length_cons, length_app in Hlen. simpl in Hlen.
  rewrite (proj2 (Nat.leb_le _ _)) by lia. simpl.
  rewrite forallb_reverse. apply forallb_forall. intros x Hx%list_elem_of_In.
  rewrite Forall_forall in Hall. by apply Hall.
Qed.

Lemma strip_dashes_suffix l : ∃ k, l = k ++ strip_dashes l ∧ Forall (λ c, is_dash c = true) k.
Proof.
  induction l as [|c l [k [Hk Hd]]]; simpl; [by exists []|]. destruct (is_dash c) eqn:E.
  - exists (c :: k). rewrite Hk at 1. split; [done|by constructor].
  - exists []. by split; [|constructor].
Qed.

Lemma strip_dashes_head l : match strip_dashes l with c :: _ => is_dash c = false | [] => True end.
Proof. induction l as [|c l IH]; simpl; [done|]. by destruct (is_dash c) eqn:E. Qed.

(** Trimming keeps a prefix whose last character is no hyphen. *)
Lemma trim_right_dash_spec l :
  (∃ k, l = trim_right_dash l ++ k ∧ Forall (λ c, is_dash c = true) k) ∧
  match last (trim_right_dash l) with Some z => is_dash z = false | None => True end.
Proof.
  unfold trim_right_dash. destruct (strip_dashes_suffix (reverse l)) as (k & Hk & Hd). split.
  - exists (reverse k). rewrite <- (reverse_involutive l) at 1. rewrite Hk at 1. rewrite reverse_app.
    split; [done|]. by apply Forall_reverse.
  - pose proof (strip_dashes_head (reverse l)) as H. rewrite last_reverse. by destruct (strip_dashes _).
Qed.

Lemma sanitize_chars b l : Forall (λ c, label_char c = true) (sanitize b l).
Proof.
  revert b. induction l as [|c l IH]; intros b; simpl; [constructor|].
  destruct (alnum c) eqn:E; [constructor; [unfold label_char; by rewrite E|done]|].
  destruct b; [done|]. by constructor.
Qed.

Lemma sanitize_head l : match sanitize true l with c :: _ => alnum c = true | [] => True end.
Proof. induction l as [|c l IH]; simpl; [done|]. by destruct (alnum c) eqn:E. Qed.

Lemma label_not_dash c : label_char c = true → is_dash c = false → alnum c = true.
Proof. unfold label_char, is_dash. intros H1 H2. rewrite H2, orb_false_r in H1. done. Qed.

(** A trimmed prefix of a text that starts with a letter or digit is a label. *)
Lemma trimmed_label c l :
  alnum c = true → Forall (λ x, label_char x = true) (c :: l) → (length (c :: l) <= 63)%nat →
  validLabel (of_chars (trim_right_dash (c :: l))) = true ∧ trim_right_dash (c :: l) ≠ [].
Proof.
  intros Hc Hall Hlen. destruct (trim_right_dash_spec (c :: l)) as [(k & Hk & Hd) Hl].
  destruct (trim_right_dash (c :: l)) as [|c' l'] eqn:E.
  { exfalso. simpl in Hk. subst k. apply Forall_cons in Hd as [Hd _]. unfold is_dash in Hd.
    go_bool. subst c. done. }
  simpl in Hk. injection Hk as <- Hk. split; [|done].
  destruct (last (c :: l')) as [z|] eqn:Ez; [|by rewrite last_None in Ez].
  rewrite Hk, app_comm_cons in Hall, Hlen. apply Forall_app in Hall as [Hall _]. rewrite length_app in Hlen.
  apply (label_intro c l' z); try done; [|lia].
  apply label_not_dash; [|done]. rewrite Forall_forall in Hall. apply Hall. by apply last_Some_elem_of in Ez.
Qed.

Lemma try_numbered_spec fuel i base free :
  match try_numbered fuel i base free with
  | Some n => free n = true ∧ ∃ j, n = numbered base j ∧ i <= j < i + Z.of_nat fuel
  | None => ∀ j, i <= j < i + Z.of_nat fuel → free (numbered base j) = false
  end.
Proof.
  revert i. induction fuel as [|fuel IH]; intros i; simpl; [lia|].
  destruct (free (numbered base i)) eqn:E; [split; [done|]; exists i; split; [done|lia]|].
  specialize (IH (i + 1)). destruct (try_numbered fuel (i + 1) base free).
  - destruct IH as (? & j & ? & ?). split; [done|]. exists j. split; [done|lia].
  - intros j Hj. destruct (decide (j = i)) as [->|]; [done|]. apply IH. lia.
Qed.

Lemma fold_case_app a b : fold_case (a +:+ b) = fold_case a ++ fold_case b.
Proof. unfold fold_case. by rewrite chars_app, fmap_app. Qed.

Lemma elem_of_NamesWithPrefix names base rest :
  base +:+ "-" +:+ rest ∈ names → base +:+ "-" +:+ rest ∈ NamesWithPrefix names base.
Proof.
  intros H. unfold NamesWithPrefix. apply list_elem_of_filter. split; [right|done].
  unfold has_like_prefix. rewrite !fold_case_app, app_assoc. by rewrite cut_prefix_app.
Qed.

(** Numbers below 10000 have at most four digits. *)
Lemma itoa_short i : 0 <= i < 10000 → (length (chars (itoa i)) <= 4)%nat.
Proof.
  intros Hi. assert (forallb (λ i, (length (chars (itoa i)) <=? 4)%nat) (seqZ 0 10000) = true) as H
    by (vm_compute; reflexivity).
  rewrite forallb_forall in H. apply Nat.leb_le, H. apply list_elem_of_In, elem_of_seqZ. lia.
Qed.

Lemma validLabel_inv s :
  validLabel s = true →
  ∃ c l, chars s = c :: l ∧ alnum c = true ∧ Forall (λ x, label_char x = true) (c :: l) ∧ (length (c :: l) <= 63)%nat.
Proof.
  intros Hv. pose proof (validLabel_chars s Hv) as [Hne Hall].
  assert (length (chars s) <= 63)%nat as Hlen.
  { unfold validLabel in Hv. destruct (bool_decide (s = "") || (63 <? length (chars s))%nat) eqn:E; [done|].
    apply orb_false_iff in E as [_ E]. by apply Nat.ltb_ge in E. }
  rewrite validLabel_labelRe in Hv. unfold labelRe in Hv.
  destruct (chars s) as [|c l]; [done|]. go_bool. exists c, l. done.
Qed.

(** Every name tried for a valid base is a valid label ending in its number. *)
Lemma numbered_label base i :
  validLabel base = true → 2 <= i < 10000 →
  validLabel (numbered base i) = true ∧
  ((String.length base <= 58)%nat → numbered base i = base +:+ "-" +:+ itoa i).
Proof.
  intros Hv Hi. destruct (validLabel_inv base Hv) as (c & l & Hb & Hc & Hall & Hlen).
  pose proof (itoa_short i ltac:(lia)) as Hshort. pose proof (itoa_digits i ltac:(lia)) as Hdig.
  pose proof (itoa_nonempty i ltac:(lia)) as Hne.
  assert (length (chars (suffix i)) = S (length (chars (itoa i)))) as Hsuf by (unfold suffix; by rewrite chars_app).
  assert (∀ k, (1 <= k)%nat → (length (take k (chars base)) + length (chars (suffix i)) <= 63)%nat →
    validLabel (of_chars (take k (chars base) ++ chars (suffix i))) = true) as Hlab.
  { intros k Hk Hl. rewrite Hb in *. destruct k as [|k]; [lia|]. cbn [take app].
    destruct (last (chars (suffix i))) as [z|] eqn:Ez.
    2:{ apply last_None in Ez. rewrite Ez in Hsuf. done. }
    assert (is_digit z = true) as Hz.
    { unfold suffix in Ez. rewrite chars_app, last_app in Ez.
      destruct (last (chars (itoa i))) as [y|] eqn:Ey; [|by apply last_None in Ey].
      injection Ez as ->. apply last_Some_elem_of in Ey. rewrite Forall_forall in Hdig. by apply Hdig. }
    assert (∀ x, is_digit x = true → alnum x = true) as Hda by (intros x Hx; unfold alnum; by rewrite Hx, orb_true_r).
    apply (label_intro c _ z); [|done|by apply Hda| |].
    - rewrite app_comm_cons, last_app, Ez. done.
    - apply Forall_cons. split; [unfold label_char; by rewrite Hc|]. apply Forall_app. split.
      + apply Forall_take. by apply Forall_cons in Hall as [_ ?].
      + unfold suffix. rewrite chars_app. apply Forall_cons. split; [done|].
        eapply Forall_impl; [exact Hdig|]. intros x Hx. unfold label_char. by rewrite (Hda x Hx).
    - cbn [take length] in Hl. rewrite length_cons, length_app. lia. }
  unfold numbered. rewrite <- !length_chars, chars_app, length_app.
  destruct (Nat.ltb_spec 63 (length (chars base) + length (chars (suffix i)))) as [Hlt|Hle].
  - split; [|lia]. specialize (Hlab (63 - length (chars (suffix i)))%nat).
    rewrite of_chars_app, of_chars_chars in Hlab. apply Hlab; [lia|]. rewrite length_take. lia.
  - split; [|done]. specialize (Hlab (length (chars base))).
    rewrite take_ge, of_chars_app, !of_chars_chars in Hlab by done. apply Hlab; [rewrite Hb; simpl; lia|lia].
Qed.

Lemma SanitizeName_label (h : string) : validLabel (SanitizeName h) = true.
Proof.
  unfold SanitizeName. set (l := sanitize true _).
  pose proof (sanitize_chars true (to_lower (chars h))) as Hall. fold l in Hall.
  pose proof (sanitize_head (to_lower (chars h))) as Hh. fold l in Hh. clearbody l.
  destruct l as [|c l]; [done|].
  destruct (trim_right_dash_spec (c :: l)) as [(k & Hk & Hd) Hz].
  destruct (trim_right_dash (c :: l)) as [|c' l'] eqn:E.
  { exfalso. simpl in Hk. subst k. apply Forall_cons in Hd as [Hd _]. unfold is_dash in Hd. go_bool. subst c. done. }
  simpl in Hk. injection Hk as <- Hk.
  assert (Forall (λ x, label_char x = true) (c :: l')) as Hall'.
  { rewrite Hk, app_comm_cons in Hall. by apply Forall_app in Hall as [? _]. }
  destruct (Nat.ltb_spec 63 (length (c :: l'))) as [Hlt|Hle].
  + change (take 63 (c :: l')) with (c :: take 62 l').
    destruct (trimmed_label c (take 62 l')) as [Hv Hne]; [done| | |].
    * apply (Forall_take _ 63 (c :: l')), Hall'.
    * rewrite length_cons, length_take. lia.
    * by rewrite bool_decide_false.
  + rewrite bool_decide_false by done. destruct (last (c :: l')) as [z|] eqn:Ez; [|by rewrite last_None in Ez].
    apply (label_intro c l' z); try done. apply label_not_dash; [|done].
    rewrite Forall_forall in Hall'. apply Hall'. by apply last_Some_elem_of in Ez.
Qed.

Lemma uniqueName_some names base reserved n :
  validLabel base = true → uniqueName names base reserved = Some n →
  validLabel n = true ∧ reserved n = false ∧ ((String.length base <= 58)%nat → n ∉ names).
Proof.
  intros Hv H. unfold uniqueName in H.
  set (free := name_free (NamesWithPrefix names base) reserved) in *.
  assert (∀ x, free x = true → x ∉ NamesWithPrefix names base ∧ reserved x = false) as Hfree.
  { intros x Hx. unfold free, name_free in Hx. by go_bool. }
  destruct (free base) eqn:Eb.
  + injection H as <-. destruct (Hfree base Eb) as [Hn Hr]. split_and!; try done.
    intros _ Hin. apply Hn. unfold NamesWithPrefix. apply list_elem_of_filter. auto.
  + pose proof (try_numbered_spec (Z.to_nat 9998) 2 base free) as Ht. rewrite H in Ht.
    destruct Ht as (Hf & i & -> & Hi). destruct (Hfree _ Hf) as [Hn Hr].
    destruct (numbered_label base i Hv ltac:(lia)) as [Hl Hplain]. split_and!; try done.
    intros Hlen Hin. apply Hn. rewrite Hplain in * by done. by apply elem_of_NamesWithPrefix.
Qed.

Lemma uniqueName_reserved names base reserved n : uniqueName names base reserved = Some n → reserved n = false.
Proof.
  intros H. unfold uniqueName in H. set (free := name_free (NamesWithPrefix names base) reserved) in *.
  assert (∀ x, free x = true → reserved x = false) as Hfree.
  { intros x Hx. unfold free, name_free in Hx. by go_bool. }
  destruct (free base) eqn:Eb; [injection H as <-; by apply Hfree|].
  pose proof (try_numbered_spec (Z.to_nat 9998) 2 base free) as Ht. rewrite H in Ht. by apply Hfree, Ht.
Qed.

Lemma uniqueName_none names base reserved n :
  uniqueName names base reserved = None → n = base ∨ (∃ i, 2 <= i < 10000 ∧ n = numbered base i) → n ∈ names ∨ reserved n = true.
Proof.
  intros H Hn. unfold uniqueName in H.
  set (free := name_free (NamesWithPrefix names base) reserved) in *.
  assert (∀ x, free x = false → x ∈ names ∨ reserved x = true) as Hfree.
  { intros x Hx. unfold free, name_free in Hx. apply andb_false_iff in Hx as [Hx|Hx]; go_bool; [left|by right].
    by apply list_elem_of_filter in Hx as [_ ?]. }
  destruct (free base) eqn:Eb; [done|].
  pose proof (try_numbered_spec (Z.to_nat 9998) 2 base free) as Ht. rewrite H in Ht.
  destruct Hn as [->|(i & Hi & ->)]; apply Hfree; [done|]. apply Ht. lia.
Qed.

(** C39: names are DNS labels and are free.  Whatever a host is called,
    [SanitizeName] gives a label.  For a label as base, [uniqueName] gives a
    label that is not reserved, and one that no peer holds as long as the base
    leaves room for a hyphen and four digits; it gives up only when the base
    and all its numbered forms are taken or reserved. *)
Theorem names_are_labels :
  (∀ h, validLabel (SanitizeName h) = true) ∧
  (∀ names base reserved n, validLabel base = true → uniqueName names base reserved = Some n →
     validLabel n = true ∧ reserved n = false ∧ ((String.length base <= 58)%nat → n ∉ names)) ∧
  (∀ names base reserved, uniqueName names base reserved = None →
     ∀ n, n = base ∨ (∃ i, 2 <= i < 10000 ∧ n = numbered base i) → n ∈ names ∨ reserved n = true).
Proof. split; [exact SanitizeName_label|]. split; [exact uniqueName_some|]. intros. by eapply uniqueName_none. Qed.

(** A base that fills the label is cut before numbering, and the query for
    names with the base as prefix does not see the cut names: the name found
    may be taken although a free one exists. *)
Definition long_base : string := of_chars (replicate 63 "a"%char).

Lemma uniqueName_truncated_taken :
  uniqueName [long_base; numbered long_base 2] long_base (λ _, false) = Some (numbered long_base 2) ∧
  numbered long_base 3 ∉ [long_base; numbered long_base 2].
Proof. split; [by vm_compute|]. apply (bool_decide_unpack _). by vm_compute. Qed.
