(* ===== verification/Limiter.v ===== *)
(** Login and enrolment limits: [internal/control/limiter.go].

    Both structures are maps behind a mutex, pruned as they are used; each
    method is one step and takes the time its clock shows. *)

From S2P Require Import Prelude.

(** [prune]: the prefix of times before the cutoff goes. *)
Fixpoint prune (cutoff : Z) (l : list Z) : list Z :=
  match l with
  | t :: l' => if t <? cutoff then prune cutoff l' else l
  | [] => []
  end.

(** Every call with the time it was made. *)
Definition newest_first (now : Z) (times : list Z) : Prop := StronglySorted (λ a b, b <= a) (now :: times).

(** ** [limiter]: backoff after failures *)

Record limitEntry := { failures : list Z; last : Z }.

Section Limiter.
Context (window : Z) (threshold : Z) (maxDelay : Z).

Abbreviation limiter := (gmap string limitEntry).

(** The wait after [n] failures; the shift is at most 30, so it fits. *)
Definition backoff (n : Z) : Z :=
  let delay := Z.shiftl 1 ((n - threshold) `min` 30) * second in
  if maxDelay <? delay then maxDelay else delay.

Definition allow (now : Z) (key : string) (l : limiter) : limiter * bool :=
  match l !! key with
  | None => (l, true)
  | Some e =>
      let e := {| failures := prune (now - window) (failures e); last := last e |} in
      let n := Z.of_nat (length (failures e)) in
      (<[key := e]> l, (n <? threshold) || (backoff n <=? Sub now (last e)))
  end.

Definition fail (now : Z) (key : string) (l : limiter) : limiter :=
  let old := match l !! key with Some e => failures e | None => [] end in
  let l := <[key := {| failures := prune (now - window) old ++ [now]; last := now |}]> l in
  filter (λ ke, ke.1 = key ∨ now - window <= last ke.2) l.

Definition reset (key : string) (l : limiter) : limiter := delete key l.

(** *** The limit as a function of the calls *)

Inductive call := CAllow (now : Z) (key : string) | CFail (now : Z) (key : string) | CReset (now : Z) (key : string).

Definition call_time (c : call) : Z := match c with CAllow t _ | CFail t _ | CReset t _ => t end.

Fixpoint limiter_of (h : list call) : limiter :=
  match h with
  | [] => ∅
  | CAllow t k :: h' => (allow t k (limiter_of h')).1
  | CFail t k :: h' => fail t k (limiter_of h')
  | CReset _ k :: h' => reset k (limiter_of h')
  end.

(** The failures of a key since its last reset, oldest first. *)
Fixpoint fails (key : string) (h : list call) : list Z :=
  match h with
  | [] => []
  | CFail t k :: h' => if decide (k = key) then fails key h' ++ [t] else fails key h'
  | CReset _ k :: h' => if decide (k = key) then [] else fails key h'
  | CAllow _ _ :: h' => fails key h'
  end.

(** An attempt may go on when fewer than [threshold] failures lie in the
    window, or the newest one is at least the backoff ago. *)
Definition spec_allow (now : Z) (key : string) (h : list call) : bool :=
  let n := Z.of_nat (length (filter (λ t, now - window <= t) (fails key h))) in
  (n <? threshold) ||
  match list.last (fails key h) with Some t => backoff n <=? Sub now t | None => true end.
End Limiter.

(** ** [rateLimit]: a maximum per window *)

Section RateLimit.
Context (window : Z) (max : Z).

Abbreviation rateLimit := (gmap string (list Z)).

Definition rate_allow (now : Z) (key : string) (r : rateLimit) : rateLimit * bool :=
  let cutoff := now - window in
  let kept := filter (λ t, cutoff <= t) (default [] (r !! key)) in
  let r := filter (λ kt, kt.1 = key ∨ match list.last kt.2 with Some t => cutoff <=? t | None => false end = true) r in
  if max <=? Z.of_nat (length kept) then (<[key := kept]> r, false)
  else (<[key := kept ++ [now]]> r, true).

Fixpoint rate_of (h : list (Z * string)) : rateLimit :=
  match h with [] => ∅ | (t, k) :: h' => (rate_allow t k (rate_of h')).1 end.

(** The accepted attempts of a key, oldest first: accepted when fewer than
    [max] accepted ones lie in the window. *)
Fixpoint accepted (key : string) (h : list (Z * string)) : list Z :=
  match h with
  | [] => []
  | (t, k) :: h' =>
      if decide (k = key ∧ Z.of_nat (length (filter (λ u, t - window <= u) (accepted key h'))) < max)
      then accepted key h' ++ [t] else accepted key h'
  end.
End RateLimit.

(** ** Lemmas *)

Lemma prune_filter c l : StronglySorted Z.le l → prune c l = filter (λ t, c <= t) l.
Proof.
  induction 1 as [|t l Hl IH Hall]; [done|]. simpl. destruct (Z.ltb_spec t c).
  - rewrite filter_cons_False by lia. done.
  - rewrite filter_cons_True by done. f_equal. symmetry. apply filter_all. intros x Hx.
    rewrite Forall_forall in Hall. specialize (Hall x Hx). lia.
Qed.

Lemma filter_later (c c' : Z) (l : list Z) : c <= c' → filter (λ t, c' <= t) (filter (λ t, c <= t) l) = filter (λ t, c' <= t) l.
Proof. intros H. apply list_filter_filter_l. intros x. lia. Qed.

Lemma filter_sorted (P : Z → Prop) `{!∀ x, Decision (P x)} l : StronglySorted Z.le l → StronglySorted Z.le (filter P l).
Proof.
  induction 1 as [|t l Hl IH Hall]; [constructor|]. rewrite filter_cons. case_decide; [|done].
  constructor; [done|]. apply Forall_forall. intros x [_ Hx]%list_elem_of_filter.
  rewrite Forall_forall in Hall. by apply Hall.
Qed.

Lemma newest_first_cons now t times : newest_first now (t :: times) → t <= now ∧ newest_first t times.
Proof. intros H. apply StronglySorted_inv in H as [H Hall]. by apply Forall_cons in Hall as [? _]. Qed.

Section LimiterSpec.
Context (window threshold maxDelay : Z).
Context (Hthr : 0 < threshold).

Lemma fails_sorted key h now :
  newest_first now (call_time <$> h) → StronglySorted Z.le (fails key h) ∧ Forall (λ t, t <= now) (fails key h).
Proof.
  revert now. induction h as [|c h IH]; intros now Hn; [by repeat constructor|].
  rewrite fmap_cons in Hn. apply newest_first_cons in Hn as [Hle Hn]. destruct (IH _ Hn) as [IH1 IH2].
  assert (Forall (λ t, t <= now) (fails key h)) as IH3 by (eapply Forall_impl; [exact IH2|]; simpl; lia).
  destruct c as [t k|t k|t k]; simpl in *; try case_decide; try (by split); [|by repeat constructor].
  split.
  - apply StronglySorted_app. split_and!; [|done|repeat constructor].
    intros x y Hx ->%list_elem_of_singleton. rewrite Forall_forall in IH2. by apply IH2.
  - apply Forall_app. split; [done|]. by repeat constructor.
Qed.

(** What a row may have lost: only failures that no later window holds. *)
Definition row_ok (now : Z) (row : option limitEntry) (fs : list Z) : Prop :=
  match row with
  | Some e => list.last fs = Some (last e) ∧ StronglySorted Z.le (failures e) ∧
      ∀ now', now <= now' → filter (λ t, now' - window <= t) (failures e) = filter (λ t, now' - window <= t) fs
  | None => ∀ now', now <= now' → filter (λ t, now' - window <= t) fs = []
  end.

Lemma row_later now now' row fs : now <= now' → row_ok now row fs → row_ok now' row fs.
Proof.
  intros Hle. destruct row as [e|]; simpl.
  - intros (? & ? & H). split_and!; [done..|]. intros. apply H. lia.
  - intros H ??. apply H. lia.
Qed.

Lemma limiter_rows h : ∀ now,
  newest_first now (call_time <$> h) →
  ∀ key, row_ok now (limiter_of window threshold maxDelay h !! key) (fails key h).
Proof.
  induction h as [|c h IH]; intros now Hn key; [simpl; by rewrite lookup_empty|].
  rewrite fmap_cons in Hn. apply newest_first_cons in Hn as [Hle Hn]. specialize (IH _ Hn).
  destruct c as [t k|t k|t k]; simpl in *; (eapply row_later; [exact Hle|]).
  - unfold allow. pose proof (IH k) as Hk. destruct (limiter_of _ _ _ h !! k) as [e|] eqn:E; [|apply IH]. simpl.
    destruct (decide (k = key)) as [<-|Hne]; [|rewrite lookup_insert_ne by done; apply IH].
    rewrite lookup_insert_eq. destruct Hk as (Hlast & Hs & Hf). simpl. split_and!; [done| |].
    + rewrite prune_filter by done. by apply filter_sorted.
    + intros now' Hnow. rewrite prune_filter, filter_later by (done || lia). by apply Hf.
  - unfold fail. destruct (decide (k = key)) as [<-|Hne].
    + rewrite map_lookup_filter_Some_2 with (x := {| failures := prune (t - window)
        (match limiter_of window threshold maxDelay h !! k with Some e => failures e | None => [] end) ++ [t]; last := t |});
        [|by rewrite lookup_insert_eq|by left].
      simpl. destruct (fails_sorted k h t Hn) as [Hfs Hft]. specialize (IH k).
      assert (∃ old, match limiter_of window threshold maxDelay h !! k with Some e => failures e | None => [] end = old ∧
        StronglySorted Z.le old ∧ Forall (λ u, u <= t) (filter (λ u, t - window <= u) old) ∧
        ∀ now', t <= now' → filter (λ u, now' - window <= u) old = filter (λ u, now' - window <= u) (fails k h))
        as (old & -> & Hos & Hot & Hof).
      { eexists. split; [done|]. destruct (limiter_of _ _ _ h !! k) as [e|].
        - destruct IH as (_ & Hs & Hf). split_and!; [done| |done]. rewrite Hf by done.
          apply Forall_forall. intros x [_ Hx]%list_elem_of_filter. rewrite Forall_forall in Hft. by apply Hft.
        - split_and!; [constructor|constructor|]. intros. by rewrite IH. }
      split_and!; [by rewrite last_snoc| |].
      * rewrite prune_filter by done. apply StronglySorted_app. split_and!; [|by apply filter_sorted|repeat constructor].
        intros x y Hx ->%list_elem_of_singleton. rewrite Forall_forall in Hot. by apply Hot.
      * intros now' Hnow. rewrite prune_filter, !filter_app, filter_later, Hof by (done || lia). done.
    + rewrite map_lookup_filter, lookup_insert_ne by done. specialize (IH key).
      destruct (limiter_of _ _ _ h !! key) as [e|]; simpl; [|by simpl in IH]. case_guard as Hg; simpl; [done|].
      destruct IH as (Hlast & Hs & Hf). intros now' Hnow. apply filter_none. intros x Hx Hlt.
      assert (x <= last e) as Hxl; [|apply Hg; right; lia].
      destruct (fails_sorted key h t Hn) as [Hfs _].
      apply last_Some in Hlast as [l' Hl']. rewrite Hl' in *. apply StronglySorted_app in Hfs as (Hc & _ & _).
      apply elem_of_app in Hx as [Hx|Hx%list_elem_of_singleton]; [|lia]. apply Hc; [done|by constructor].
  - unfold reset. destruct (decide (k = key)) as [<-|Hne]; [by rewrite lookup_delete_eq|].
    rewrite lookup_delete_ne by done. apply IH.
Qed.
End LimiterSpec.

Section RateSpec.
Context (window max : Z).

Lemma accepted_sorted key h now :
  newest_first now (h.*1) →
  StronglySorted Z.le (accepted window max key h) ∧ Forall (λ t, t <= now) (accepted window max key h).
Proof.
  revert now. induction h as [|[t k] h IH]; intros now Hn; [by repeat constructor|].
  rewrite fmap_cons in Hn. apply newest_first_cons in Hn as [Hle Hn]. destruct (IH _ Hn) as [IH1 IH2]. simpl in Hle.
  assert (Forall (λ t, t <= now) (accepted window max key h)) as IH3 by (eapply Forall_impl; [exact IH2|]; simpl; lia).
  simpl. case_decide; [|done]. split.
  - apply StronglySorted_app. split_and!; [|done|repeat constructor].
    intros x y Hx ->%list_elem_of_singleton. rewrite Forall_forall in IH2. by apply IH2.
  - apply Forall_app. split; [done|]. by repeat constructor.
Qed.

Definition rate_row_ok (now : Z) (row : list Z) (acc : list Z) : Prop :=
  StronglySorted Z.le row ∧ Forall (λ t, t <= now) row ∧
  ∀ now', now <= now' → filter (λ t, now' - window <= t) row = filter (λ t, now' - window <= t) acc.

Lemma rate_row_later now now' row acc : now <= now' → rate_row_ok now row acc → rate_row_ok now' row acc.
Proof.
  intros Hle (H1 & H2 & H3). split_and!; [done| |].
  - eapply Forall_impl; [exact H2|]. simpl. lia.
  - intros. apply H3. lia.
Qed.

Lemma rate_rows h : ∀ now,
  newest_first now (h.*1) →
  ∀ key, rate_row_ok now (default [] (rate_of window max h !! key)) (accepted window max key h).
Proof.
  induction h as [|[t k] h IH]; intros now Hn key.
  { simpl. rewrite lookup_empty. split_and!; [constructor|constructor|done]. }
  rewrite fmap_cons in Hn. apply newest_first_cons in Hn as [Hle Hn]. specialize (IH _ Hn).
  eapply rate_row_later; [exact Hle|]. simpl in *. unfold rate_allow.
  set (r := rate_of window max h) in *.
  set (kept := filter (λ u, t - window <= u) (default [] (r !! k))).
  destruct (IH k) as (Hs & Hall & Hf).
  assert (kept = filter (λ u, t - window <= u) (accepted window max k h)) as Hkept by by apply Hf.
  assert (StronglySorted Z.le kept) as Hks by by apply filter_sorted.
  assert (Forall (λ u, u <= t) kept) as Hkt.
  { apply Forall_forall. intros x [_ Hx]%list_elem_of_filter. rewrite Forall_forall in Hall. by apply Hall. }
  assert (∀ now', t <= now' → filter (λ u, now' - window <= u) kept
    = filter (λ u, now' - window <= u) (accepted window max k h)) as Hkf.
  { intros now' Hnow. rewrite Hkept. apply filter_later. lia. }
  destruct (decide (k = key)) as [<-|Hne].
  - destruct (Z.leb_spec max (Z.of_nat (length kept))) as [Hfull|Hroom]; simpl; rewrite lookup_insert_eq; simpl.
    + rewrite decide_False by (rewrite <- Hkept; lia). by split_and!.
    + rewrite decide_True by (rewrite <- Hkept; done). split_and!.
      * apply StronglySorted_app. split_and!; [|done|repeat constructor].
        intros x y Hx ->%list_elem_of_singleton. rewrite Forall_forall in Hkt. by apply Hkt.
      * apply Forall_app. split; [done|]. by repeat constructor.
      * intros now' Hnow. by rewrite !filter_app, Hkf.
  - rewrite (decide_False (P := k = key ∧ _)) by (intros [? _]; done).
    match goal with |- rate_row_ok _ (default [] ((if _ then (<[_:=_]> ?M, _) else _).1 !! _)) _ =>
      enough (rate_row_ok t (default [] (M !! key)) (accepted window max key h)) as Hrest end.
    { destruct (max <=? Z.of_nat (length kept)); simpl; by rewrite lookup_insert_ne. }
    rewrite map_lookup_filter. destruct (IH key) as (Hs' & Hall' & Hf').
    destruct (r !! key) as [row|]; simpl in *; [|done]. case_guard as Hg; simpl; [done|].
    split_and!; [constructor|constructor|]. intros now' Hnow. rewrite <- Hf' by done. symmetry.
    apply filter_none. intros x Hx Hlt. apply Hg. right.
    destruct (list.last row) as [z|] eqn:Ez.
    + apply Z.leb_le. apply last_Some in Ez as [l' ->]. apply StronglySorted_app in Hs' as (Hc & _ & _).
      apply elem_of_app in Hx as [Hx|Hx%list_elem_of_singleton]; [|lia].
      assert (x <= z) by (apply Hc; [done|by constructor]). lia.
    + apply last_None in Ez. subst. by apply elem_of_nil in Hx.
Qed.
End RateSpec.

(** The limits are what they say, whatever was pruned on the way.  With a
    clock that never goes back, the failure limiter allows an attempt exactly
    when fewer than [threshold] failures since the last success lie in the
    window or the newest is at least the backoff ago; the rate limit accepts an
    attempt exactly when fewer than [max] accepted ones of that key lie in the
    window.  Other keys' calls have no effect. *)
Theorem limits_correct (window threshold maxDelay max : Z) :
  0 < threshold →
  (∀ h now key, newest_first now (call_time <$> h) →
     (allow window threshold maxDelay now key (limiter_of window threshold maxDelay h)).2
     = spec_allow window threshold maxDelay now key h) ∧
  (∀ h now key, newest_first now (h.*1) →
     (rate_allow window max now key (rate_of window max h)).2
     = bool_decide (Z.of_nat (length (filter (λ u, now - window <= u) (accepted window max key h))) < max)).
Proof.
  intros Hthr. split.
  - intros h now key Hn. pose proof (limiter_rows window threshold maxDelay h now Hn key) as Hrow.
    unfold allow, spec_allow. destruct (limiter_of window threshold maxDelay h !! key) as [e|].
    + destruct Hrow as (Hlast & Hs & Hf). simpl. rewrite prune_filter, Hf, Hlast by done. done.
    + simpl in Hrow. rewrite Hrow by done. simpl. by rewrite (proj2 (Z.ltb_lt _ _)).
  - intros h now key Hn. destruct (rate_rows window max h now Hn key) as (_ & _ & Hf).
    unfold rate_allow. rewrite Hf by done.
    destruct (Z.leb_spec max (Z.of_nat (length (filter (λ u, now - window <= u) (accepted window max key h))))); simpl.
    + rewrite bool_decide_false; [done|lia].
    + by rewrite bool_decide_true.
Qed.

Lemma limits_correct_witness :
  0 < 5 ∧ newest_first 100 (call_time <$> [CFail 60 "a"; CFail 50 "a"]) ∧
  (allow 60 5 300 100 "a" (limiter_of 60 5 300 [CFail 60 "a"; CFail 50 "a"])).2 = true.
Proof.
  assert (newest_first 100 (call_time <$> [CFail 60 "a"; CFail 50 "a"])) as Hn
    by (repeat constructor; vm_compute; discriminate).
  split; [reflexivity|]. split; [exact Hn|].
  destruct (limits_correct 60 5 300 1 eq_refl) as [H _].
  etransitivity; [exact (H [CFail 60 "a"; CFail 50 "a"] 100 "a" Hn)|]. vm_compute. reflexivity.
Defined.
