(* ===== verification/Filter.v ===== *)
(** The userspace packet filter: [internal/wg/filter.go].

    The packet decoder indexes bytes that may not be there; an access out of
    range panics, which is [None] here, outside the [ok] result.  The clock is
    an argument: a method takes what each of its calls of [now] returned. *)

From S2P Require Import Prelude GoStrings NetIP.

(** ** Data *)

Definition ProtoAny : string := "any".
Definition ProtoTCP : string := "tcp".
Definition ProtoUDP : string := "udp".
Definition ProtoICMP : string := "icmp".

Record FilterRule := { fSrc : prefix; fDst : addr; fProto : string; fLo : Z; fHi : Z }.
Record ForwardRule := { wSrc : prefix; wDst : prefix; wProto : string; wLo : Z; wHi : Z }.

Inductive FilterHook := HookInput | HookForward.

#[export] Instance hook_eq_dec : EqDecision FilterHook.
Proof. solve_decision. Defined.

Record FilterSet := {
  Interface : string;
  Hook : FilterHook;
  sLocal : addr;
  sLocal6 : addr;
  sVisible : list addr;
  sRules : list FilterRule;
  sForward : list ForwardRule;
  Masquerade : list prefix;
  MasqueradeFrom : prefix;
  MasqueradeFrom6 : prefix;
  routerOnly : bool;
}.

Definition locals (s : FilterSet) : list addr := filter (λ a, IsValid a = true) [sLocal s; sLocal6 s].

Definition flowUDP : Z := 120 * second.
Definition flowTCP : Z := 3600 * second.
Definition flowTCPDone : Z := 30 * second.
Definition flowICMP : Z := 30 * second.
Definition sweepEvery : Z := 30 * second.

Definition protoICMP : Z := 1.
Definition protoTCP : Z := 6.
Definition protoUDP : Z := 17.
Definition protoICMPv6 : Z := 58.

Record compiledFilter := {
  hook : FilterHook;
  local : addr;
  local6 : addr;
  visible : gset addr;
  rules : list FilterRule;
  forward : list ForwardRule;
}.

Record flowKey := FlowKey { kproto : Z; klocal : addr; kremote : addr; klocalPort : Z; kremotePort : Z }.

#[export] Instance flowKey_eq_dec : EqDecision flowKey.
Proof. solve_decision. Defined.
#[export] Instance flowKey_countable : Countable flowKey.
Proof.
  refine (inj_countable' (λ k, (kproto k, klocal k, kremote k, klocalPort k, kremotePort k))
    (λ '(p, l, r, lp, rp), FlowKey p l r lp rp) _). by intros [].
Defined.

Record packetFilter := MkFilter {
  fset : option compiledFilter;
  flows : gmap flowKey Z;
  lastSweep : Z;
  drops : Z;
}.

Definition newPacketFilter (now : Z) : packetFilter := MkFilter None ∅ now 0.

Definition compile_set (s : FilterSet) : compiledFilter :=
  {| hook := Hook s; local := sLocal s; local6 := sLocal6 s; visible := list_to_set (sVisible s);
     rules := sRules s; forward := sForward s |}.

(** [packetFilter.Set]. *)
Definition Install (s : FilterSet) (f : packetFilter) : packetFilter :=
  MkFilter (Some (compile_set s)) (flows f) (lastSweep f) (drops f).

(** [Stats]: rules, drops, flows. *)
Definition Stats (f : packetFilter) : nat * Z * nat :=
  (match fset f with Some c => length (rules c) | None => O end, drops f, size (flows f)).

(** ** Decoding packets *)

Record packet := { proto : Z; src : addr; dst : addr; sport : Z; dport : Z; tcpFlags : Z }.

Definition isICMP (p : packet) : bool := (proto p =? protoICMP) || (proto p =? protoICMPv6).

(** [Some None] is [ok = false]. *)
Definition parseTransport (p : packet) (t : list byte) : option (option packet) :=
  if proto p =? protoTCP then
    if blen t <? 14 then Some None
    else
      s ← uint16_at t 0; d ← uint16_at t 2; f ← at_ t 13;
      Some (Some {| proto := proto p; src := src p; dst := dst p; sport := s; dport := d; tcpFlags := f |})
  else if proto p =? protoUDP then
    if blen t <? 4 then Some None
    else
      s ← uint16_at t 0; d ← uint16_at t 2;
      Some (Some {| proto := proto p; src := src p; dst := dst p; sport := s; dport := d; tcpFlags := tcpFlags p |})
  else if (proto p =? protoICMP) || (proto p =? protoICMPv6) then
    if blen t <? 8 then Some None
    else
      s ← at_ t 0; d ← uint16_at t 4;
      Some (Some {| proto := proto p; src := src p; dst := dst p; sport := s; dport := d; tcpFlags := tcpFlags p |})
  else Some (Some p).

Definition parseIPv4 (b : list byte) : option (option packet) :=
  if blen b <? 20 then Some None
  else
    b0 ← at_ b 0;
    if negb (Z.shiftr b0 4 =? 4) then Some None
    else
      let ihl := Z.land b0 15 * 4 in
      if (ihl <? 20) || (blen b <? ihl) then Some None
      else
        pr ← at_ b 9; s ← slice b 12 16; d ← slice b 16 20; frag ← uint16_at b 6;
        let p := {| proto := pr; src := AddrFrom4 s; dst := AddrFrom4 d; sport := 0; dport := 0; tcpFlags := 0 |} in
        if negb (Z.land frag 8191 =? 0) then Some (Some p)
        else t ← slice_from b ihl; parseTransport p t.

Definition ext6HopByHop : Z := 0.
Definition ext6Routing : Z := 43.
Definition ext6Fragment : Z := 44.
Definition ext6DestOpts : Z := 60.
Definition ext6Max : nat := 8.

Definition set_proto (n : Z) (p : packet) : packet :=
  {| proto := n; src := src p; dst := dst p; sport := sport p; dport := dport p; tcpFlags := tcpFlags p |}.

(** The loop [for range ext6Max]. *)
Fixpoint walk6 (n : nat) (b : list byte) (p : packet) (next off : Z) : option (option packet) :=
  match n with
  | O => Some None
  | S n =>
      if (next =? ext6HopByHop) || (next =? ext6Routing) || (next =? ext6DestOpts) then
        if blen b <? off + 2 then Some None
        else next' ← at_ b off; l ← at_ b (off + 1); walk6 n b p next' (off + (l + 1) * 8)
      else if next =? ext6Fragment then
        if blen b <? off + 8 then Some None
        else
          fragOff ← (λ z, Z.shiftr z 3) <$> uint16_at b (off + 2); next' ← at_ b off;
          if negb (fragOff =? 0) then Some (Some (set_proto next' p))
          else walk6 n b p next' (off + 8)
      else if blen b <? off then Some None
      else t ← slice_from b off; parseTransport (set_proto next p) t
  end.

Definition parseIPv6 (b : list byte) : option (option packet) :=
  if blen b <? 40 then Some None
  else
    b0 ← at_ b 0;
    if negb (Z.shiftr b0 4 =? 6) then Some None
    else
      s ← slice b 8 24; d ← slice b 24 40; next ← at_ b 6;
      walk6 ext6Max b {| proto := 0; src := AddrFrom16 s; dst := AddrFrom16 d; sport := 0; dport := 0; tcpFlags := 0 |} next 40.

Definition parsePacket (b : list byte) : option (option packet) :=
  if blen b =? 0 then Some None
  else
    b0 ← at_ b 0;
    if Z.shiftr b0 4 =? 4 then parseIPv4 b
    else if Z.shiftr b0 4 =? 6 then parseIPv6 b
    else Some None.

(** [p, ok := parsePacket(b)] where no access panics. *)
Definition parsed (b : list byte) : option packet := default None (parsePacket b).

(** ** The verdict *)

Definition icmpEchoReply : Z := 0.
Definition icmpUnreachable : Z := 3.
Definition icmpEchoRequest : Z := 8.
Definition icmpTimeExceed : Z := 11.
Definition icmpParamProb : Z := 12.
Definition icmp6Unreachable : Z := 1.
Definition icmp6ParamProb : Z := 4.
Definition icmp6EchoRequest : Z := 128.
Definition icmp6EchoReply : Z := 129.
Definition icmp6RouterSolicit : Z := 133.
Definition icmp6Redirect : Z := 137.

Definition echoRequest (p : packet) : Z := if proto p =? protoICMPv6 then icmp6EchoRequest else icmpEchoRequest.
Definition echoReply (p : packet) : Z := if proto p =? protoICMPv6 then icmp6EchoReply else icmpEchoReply.

Definition icmp6Always (p : packet) : bool :=
  (proto p =? protoICMPv6) &&
  (((icmp6Unreachable <=? sport p) && (sport p <=? icmp6ParamProb)) ||
   ((icmp6RouterSolicit <=? sport p) && (sport p <=? icmp6Redirect))).

Definition tcp_ttl (p : packet) : Z := if negb (Z.land (tcpFlags p) 5 =? 0) then flowTCPDone else flowTCP.

(** The flow a packet of this host belongs to and its lifetime. *)
Definition out_flow (p : packet) : option (flowKey * Z) :=
  if proto p =? protoTCP then Some (FlowKey (proto p) (src p) (dst p) (sport p) (dport p), tcp_ttl p)
  else if proto p =? protoUDP then Some (FlowKey (proto p) (src p) (dst p) (sport p) (dport p), flowUDP)
  else if isICMP p then
    if negb (sport p =? echoRequest p) then None
    else Some (FlowKey (proto p) (src p) (dst p) (dport p) 0, flowICMP)
  else None.

(** The flow an arriving packet answers. *)
Definition reply_flow (p : packet) : option (flowKey * Z) :=
  if proto p =? protoTCP then Some (FlowKey (proto p) (dst p) (src p) (dport p) (sport p), tcp_ttl p)
  else if proto p =? protoUDP then Some (FlowKey (proto p) (dst p) (src p) (dport p) (sport p), flowUDP)
  else if isICMP p then
    if negb (sport p =? echoReply p) then None
    else Some (FlowKey (proto p) (dst p) (src p) (dport p) 0, flowICMP)
  else None.

Definition with_flows (m : gmap flowKey Z) (f : packetFilter) : packetFilter :=
  MkFilter (fset f) m (lastSweep f) (drops f).

Definition sweepLocked (now : Z) (f : packetFilter) : packetFilter :=
  if Sub now (lastSweep f) <? sweepEvery then f
  else MkFilter (fset f) (filter (λ ke, now < ke.2) (flows f)) now (drops f).

(** [now] dates the flow, [now'] the sweep. *)
Definition Outbound (now now' : Z) (b : list byte) (f : packetFilter) : packetFilter :=
  match parsed b with
  | None => f
  | Some p =>
      match out_flow p with
      | None => f
      | Some (key, ttl) => sweepLocked now' (with_flows (<[key := now + ttl]> (flows f)) f)
      end
  end.

Definition reply (now : Z) (p : packet) (f : packetFilter) : packetFilter * bool :=
  match reply_flow p with
  | None => (f, false)
  | Some (key, ttl) =>
      match flows f !! key with
      | None => (f, false)
      | Some exp =>
          if negb (now <? exp) then (with_flows (delete key (flows f)) f, false)
          else (with_flows (<[key := now + ttl]> (flows f)) f, true)
      end
  end.

Definition isLocal (c : compiledFilter) (a : addr) : bool :=
  bool_decide (a = local c) || (IsValid (local6 c) && bool_decide (a = local6 c)).

Definition portsAllow (p : packet) (pr : string) (lo hi : Z) : bool :=
  if isICMP p then bool_decide (pr = ProtoICMP) || (bool_decide (pr = ProtoAny) && (lo <=? 1) && (hi =? 65535))
  else if ((proto p =? protoTCP) && (bool_decide (pr = ProtoTCP) || bool_decide (pr = ProtoAny)))
       || ((proto p =? protoUDP) && (bool_decide (pr = ProtoUDP) || bool_decide (pr = ProtoAny)))
  then (lo <=? dport p) && (dport p <=? hi)
  else false.

Definition forwardAllows (c : compiledFilter) (p : packet) : bool :=
  existsb (λ r, if negb (Contains (wSrc r) (src p)) || negb (Contains (wDst r) (dst p)) then false
                else portsAllow p (wProto r) (wLo r) (wHi r)) (forward c).

(** An ICMP diagnostic or echo a visible peer may send. *)
Definition visible_icmp (p : packet) : bool :=
  ((proto p =? protoICMP) && ((sport p =? icmpEchoRequest) || (sport p =? icmpUnreachable)
                              || (sport p =? icmpTimeExceed) || (sport p =? icmpParamProb)))
  || ((proto p =? protoICMPv6) && (sport p =? icmp6EchoRequest)).

Definition ruleAllows (p : packet) (r : FilterRule) : bool :=
  if negb (Contains (fSrc r) (src p)) then false
  else if IsValid (fDst r) && negb (bool_decide (fDst r = dst p)) then false
  else portsAllow p (fProto r) (fLo r) (fHi r).

Definition allow (now : Z) (b : list byte) (f : packetFilter) : packetFilter * bool :=
  match parsed b with
  | None => (f, false)
  | Some p =>
      match fset f with
      | None => reply now p f
      | Some c =>
          if bool_decide (hook c = HookForward) && isLocal c (dst p) then (f, true)
          else
            let '(f, ok) := reply now p f in
            if ok then (f, true)
            else if bool_decide (hook c = HookInput) && IsValid (local c) && negb (isLocal c (dst p))
            then (f, forwardAllows c p)
            else if icmp6Always p then (f, true)
            else if bool_decide (src p ∈ visible c) && visible_icmp p then (f, true)
            else (f, existsb (ruleAllows p) (rules c))
      end
  end.

Definition Inbound (now : Z) (b : list byte) (f : packetFilter) : packetFilter * bool :=
  let '(f, ok) := allow now b f in
  if ok then (f, true)
  else (MkFilter (fset f) (flows f) (lastSweep f) (u64 (drops f + 1)), false).

(** ** Packets as bytes *)

(** A transport header with its ports (ICMP: type and identifier). *)
Inductive transport :=
  | TCP (sp dp : Z) (mid : list byte) (flags : Z) (rest : list byte)
  | UDP (sp dp : Z) (rest : list byte)
  | ICMP (v6 : bool) (typ : Z) (codesum : list byte) (id : Z) (rest : list byte)
  | Other (pr : Z) (rest : list byte).

Definition transport_proto (t : transport) : Z :=
  match t with
  | TCP _ _ _ _ _ => protoTCP | UDP _ _ _ => protoUDP
  | ICMP v6 _ _ _ _ => if v6 then protoICMPv6 else protoICMP | Other pr _ => pr
  end.

Definition transport_bytes (t : transport) : list byte :=
  match t with
  | TCP sp dp mid flags rest => be_enc 2 sp ++ be_enc 2 dp ++ mid ++ [zb flags] ++ rest
  | UDP sp dp rest => be_enc 2 sp ++ be_enc 2 dp ++ rest
  | ICMP _ typ codesum id rest => [zb typ] ++ codesum ++ be_enc 2 id ++ rest
  | Other _ rest => rest
  end.

Definition port_ok (z : Z) : Prop := 0 <= z < 65536.

Definition transport_wf (t : transport) : Prop :=
  match t with
  | TCP sp dp mid flags _ => port_ok sp ∧ port_ok dp ∧ length mid = 9%nat ∧ 0 <= flags < 256
  | UDP sp dp _ => port_ok sp ∧ port_ok dp
  | ICMP _ typ codesum id rest => 0 <= typ < 256 ∧ length codesum = 3%nat ∧ port_ok id ∧ (2 <= length rest)%nat
  | Other pr _ => 0 <= pr < 256 ∧ pr ∉ [protoTCP; protoUDP; protoICMP; protoICMPv6; ext6HopByHop; ext6Routing; ext6Fragment; ext6DestOpts]
  end.

Definition with_transport (s d : addr) (t : transport) : packet :=
  let mk sp dp fl := {| proto := transport_proto t; src := s; dst := d; sport := sp; dport := dp; tcpFlags := fl |} in
  match t with
  | TCP sp dp _ flags _ => mk sp dp flags
  | UDP sp dp _ => mk sp dp 0
  | ICMP _ typ _ id _ => mk typ id 0
  | Other _ _ => mk 0 0 0
  end.

(** An IPv4 packet: [tos_len_id], the fragment word, [ttl], [sum], options in
    32-bit words. *)
Definition v4_bytes (tos_len_id : list byte) (frag : Z) (ttl : byte) (sum : list byte) (s d : Z)
    (opts : list byte) (t : transport) : list byte :=
  [zb (69 + Z.of_nat (length opts) / 4)] ++ tos_len_id ++ be_enc 2 frag ++ [ttl] ++ [zb (transport_proto t)] ++ sum
  ++ be_enc 4 s ++ be_enc 4 d ++ opts ++ transport_bytes t.

(** An IPv6 extension header: its type and what follows its next-header byte. *)
Record ext := { ext_type : Z; ext_body : list byte }.

Definition ext_wf (e : ext) : Prop :=
  (ext_type e ∈ [ext6HopByHop; ext6Routing; ext6DestOpts] ∧
     ∃ l rest, ext_body e = l :: rest ∧ Z.of_nat (length rest) = (bz l + 1) * 8 - 2) ∨
  (ext_type e = ext6Fragment ∧
     ∃ a f id, ext_body e = a :: be_enc 2 f ++ id ∧ length id = 4%nat ∧ 0 <= f < 8).

Definition first_type (es : list ext) (pr : Z) : Z := match es with e :: _ => ext_type e | [] => pr end.

Fixpoint exts_bytes (es : list ext) (pr : Z) : list byte :=
  match es with
  | [] => []
  | e :: es' => zb (first_type es' pr) :: ext_body e ++ exts_bytes es' pr
  end.

Definition v6_bytes (cls : Z) (flow_len : list byte) (hop : byte) (s d : Z) (es : list ext) (t : transport) : list byte :=
  [zb (96 + cls)] ++ flow_len ++ [zb (first_type es (transport_proto t))] ++ [hop] ++ be_enc 16 s ++ be_enc 16 d
  ++ exts_bytes es (transport_proto t) ++ transport_bytes t.

(** ** The decoder *)

Lemma parseTransport_total p t : is_Some (parseTransport p t).
Proof.
  unfold parseTransport. repeat case_match; try done; go_bool; in_bounds; done.
Qed.

Lemma walk6_total n b p next off : 0 <= off → is_Some (walk6 n b p next off).
Proof.
  revert p next off. induction n as [|n IH]; intros p next off Ho; [done|]. cbn [walk6].
  destruct (_ || _ || _).
  - destruct (Z.ltb_spec (blen b) (off + 2)); [done|].
    destruct (at_some b off) as [x ->]; [lia|]. destruct (at_some b (off + 1)) as [y Hy]; [lia|].
    rewrite Hy. simpl mbind. apply at_range in Hy. apply IH. lia.
  - destruct (next =? ext6Fragment).
    + destruct (Z.ltb_spec (blen b) (off + 8)); [done|]. in_bounds. destruct (negb _); [done|]. apply IH. lia.
    + destruct (Z.ltb_spec (blen b) off); [done|]. unfold slice_from, blen in *. in_bounds.
      apply parseTransport_total.
Qed.

Lemma parsePacket_total b : is_Some (parsePacket b).
Proof.
  unfold parsePacket. destruct (Z.eqb_spec (blen b) 0) as [|Hne]; [done|].
  assert (0 < blen b) by (unfold blen in *; lia). in_bounds. destruct (_ =? 4); [|destruct (_ =? 6); [|done]].
  - unfold parseIPv4. destruct (Z.ltb_spec (blen b) 20); [done|]. in_bounds. destruct (negb _); [done|].
    destruct (_ || _) eqn:E; [done|]. go_bool. in_bounds. destruct (negb _); [done|].
    unfold slice_from, blen in *. in_bounds. apply parseTransport_total.
  - unfold parseIPv6. destruct (Z.ltb_spec (blen b) 40); [done|]. in_bounds. destruct (negb _); [done|].
    in_bounds. by apply walk6_total.
Qed.

Lemma parseTransport_bytes p t :
  transport_wf t → proto p = transport_proto t → sport p = 0 → dport p = 0 → tcpFlags p = 0 →
  parseTransport p (transport_bytes t) = Some (Some (with_transport (src p) (dst p) t)).
Proof.
  intros Hwf Hp Hs Hd Hf. unfold parseTransport. rewrite Hp. unfold port_ok in *.
  destruct t as [sp dp mid flags rest|sp dp rest|v6 typ cs id rest|pr rest]; cbn [transport_wf transport_proto] in *.
  - destruct Hwf as (H1 & H2 & H3 & H4). cbn [Z.eqb Pos.eqb protoTCP].
    rewrite (proj2 (Z.ltb_ge _ _)) by (unfold blen; cbn [transport_bytes]; rewrite !length_app, !length_be_enc; simpl; lia).
    rewrite (uint16_mid _ [] sp (be_enc 2 dp ++ mid ++ [zb flags] ++ rest) 0) by done.
    rewrite (uint16_mid _ (be_enc 2 sp) dp (mid ++ [zb flags] ++ rest) 2) by (try done; unfold blen; by rewrite length_be_enc).
    rewrite (at_mid _ (be_enc 2 sp ++ be_enc 2 dp ++ mid) (zb flags) rest).
    2:{ cbn [transport_bytes]. by rewrite !app_assoc. }
    2:{ unfold blen. rewrite !length_app, !length_be_enc, H3. done. }
    cbn [mbind option_bind]. by rewrite bz_zb_small.
  - destruct Hwf as (H1 & H2). cbn [Z.eqb Pos.eqb protoTCP protoUDP].
    rewrite (proj2 (Z.ltb_ge _ _)) by (unfold blen; cbn [transport_bytes]; rewrite !length_app, !length_be_enc; simpl; lia).
    rewrite (uint16_mid _ [] sp (be_enc 2 dp ++ rest) 0) by done.
    rewrite (uint16_mid _ (be_enc 2 sp) dp rest 2) by (try done; unfold blen; by rewrite length_be_enc).
    cbn [mbind option_bind]. by rewrite Hf.
  - destruct Hwf as (H1 & H2 & H3 & H4).
    replace (_ =? protoTCP) with false by (by destruct v6). replace (_ =? protoUDP) with false by (by destruct v6).
    replace (_ || _) with true by (by destruct v6).
    rewrite (proj2 (Z.ltb_ge _ _)) by (unfold blen; cbn [transport_bytes]; rewrite !length_app, !length_be_enc; simpl; lia).
    rewrite (at_mid _ [] (zb typ) (cs ++ be_enc 2 id ++ rest)) by done.
    rewrite (uint16_mid _ ([zb typ] ++ cs) id rest) by (try done; unfold blen; rewrite ?length_app, ?H2; done).
    cbn [mbind option_bind]. by rewrite bz_zb_small, Hf.
  - destruct Hwf as (H1 & H2). rewrite !not_elem_of_cons in H2. destruct_and! H2.
    rewrite !(proj2 (Z.eqb_neq _ _)) by done. simpl. destruct p; simpl in *. by subst.
Qed.

Lemma parseIPv4_bytes tli frag ttl sum s d opts t :
  length tli = 5%nat → length sum = 2%nat → (length opts <= 40)%nat → Z.of_nat (length opts) `mod` 4 = 0 →
  port_ok frag → 0 <= s < 2 ^ 32 → 0 <= d < 2 ^ 32 → 0 <= transport_proto t < 256 →
  parseIPv4 (v4_bytes tli frag ttl sum s d opts t) =
    let p := {| proto := transport_proto t; src := Addr4 s; dst := Addr4 d; sport := 0; dport := 0; tcpFlags := 0 |} in
    if Z.land frag 8191 =? 0 then parseTransport p (transport_bytes t) else Some (Some p).
Proof.
  intros Htli Hsum Hol Hom Hf Hs Hd Hpr. unfold parseIPv4.
  set (k := Z.of_nat (length opts) / 4). set (b := v4_bytes _ _ _ _ _ _ _ _).
  assert (Z.of_nat (length opts) = 4 * k ∧ 0 <= k <= 10) as [Hk Hkr] by (subst k; Z.to_euclidean_division_equations; lia).
  assert (blen b = 20 + 4 * k + blen (transport_bytes t)) as Hb.
  { unfold b, v4_bytes. rewrite !blen_app, !blen_be_enc. unfold blen. rewrite Htli, Hsum. simpl length. lia. }
  assert (0 <= blen (transport_bytes t)) by (unfold blen; lia).
  rewrite (proj2 (Z.ltb_ge (blen b) 20)) by lia.
  rewrite (at_mid b [] (zb (69 + k)) (drop 1 b) 0) by done. cbn [mbind option_bind].
  rewrite bz_zb_small by lia.
  assert (Z.shiftr (69 + k) 4 = 4) as -> by (rewrite Z.shiftr_div_pow2 by lia; Z.to_euclidean_division_equations; lia).
  assert (Z.land (69 + k) 15 = 5 + k) as ->
    by (change 15 with (Z.ones 4); rewrite Z.land_ones by lia; Z.to_euclidean_division_equations; lia).
  cbn [Z.eqb Pos.eqb negb].
  rewrite (proj2 (Z.ltb_ge _ 20)), (proj2 (Z.ltb_ge (blen b) _)) by lia. cbn [orb].
  set (h1 := [zb (69 + k)] ++ tli). set (h2 := h1 ++ be_enc 2 frag). set (h3 := h2 ++ [ttl]).
  set (h4 := h3 ++ [zb (transport_proto t)] ++ sum). set (h5 := h4 ++ be_enc 4 s). set (h6 := h5 ++ be_enc 4 d).
  assert (blen h1 = 6 ∧ blen h2 = 8 ∧ blen h3 = 9 ∧ blen h4 = 12 ∧ blen h5 = 16 ∧ blen h6 = 20)
    as (L1 & L2 & L3 & L4 & L5 & L6).
  { unfold h6, h5, h4, h3, h2, h1. rewrite !blen_app, !blen_be_enc. unfold blen. rewrite Htli, Hsum. done. }
  assert (b = h6 ++ opts ++ transport_bytes t) as Eb.
  { unfold b, v4_bytes, h6, h5, h4, h3, h2, h1. by rewrite <- !app_assoc. }
  rewrite (at_mid b h3 (zb (transport_proto t)) (sum ++ be_enc 4 s ++ be_enc 4 d ++ opts ++ transport_bytes t) 9);
    [|rewrite Eb; unfold h6, h5, h4; by rewrite <- !app_assoc|done].
  rewrite (slice_mid b h4 (be_enc 4 s) (be_enc 4 d ++ opts ++ transport_bytes t) 12 16);
    [|rewrite Eb; unfold h6, h5; by rewrite <- !app_assoc|done|by rewrite blen_be_enc].
  rewrite (slice_mid b h5 (be_enc 4 d) (opts ++ transport_bytes t) 16 20);
    [|rewrite Eb; unfold h6; by rewrite <- !app_assoc|done|by rewrite blen_be_enc].
  rewrite (uint16_mid b h1 frag ([ttl] ++ [zb (transport_proto t)] ++ sum ++ be_enc 4 s ++ be_enc 4 d ++ opts ++ transport_bytes t) 6);
    [|rewrite Eb; unfold h6, h5, h4, h3, h2; by rewrite <- !app_assoc|done|done].
  cbn [mbind option_bind]. rewrite bz_zb_small by done.
  unfold AddrFrom4. rewrite !be_dec_enc_small by done.
  destruct (Z.land frag 8191 =? 0); [|done]. cbn [negb].
  rewrite (slice_from_app b (h6 ++ opts) (transport_bytes t)); [done|by rewrite Eb, <- app_assoc|].
  rewrite blen_app, L6. unfold blen. lia.
Qed.

Lemma walk6_exts es : ∀ n pre p pr t,
  Forall ext_wf es → (length es < n)%nat → 0 <= pr < 256 →
  pr ∉ [ext6HopByHop; ext6Routing; ext6Fragment; ext6DestOpts] →
  walk6 n (pre ++ exts_bytes es pr ++ t) p (first_type es pr) (blen pre) = parseTransport (set_proto pr p) t.
Proof.
  induction es as [|e es IH]; intros n pre p pr t Hwf Hn Hr Hpr; (destruct n as [|n]; [simpl in Hn; lia|]); cbn [walk6 first_type].
  - rewrite !not_elem_of_cons in Hpr. destruct_and! Hpr. rewrite !(proj2 (Z.eqb_neq pr _)) by done. cbn [orb].
    rewrite (proj2 (Z.ltb_ge _ _)) by (rewrite blen_app; unfold blen; lia).
    rewrite (slice_from_app _ pre t) by done. done.
  - apply Forall_cons in Hwf as [He Hwf]. simpl in Hn.
    set (nxt := first_type es pr) in *. cbn [exts_bytes]. fold nxt.
    assert (0 <= nxt < 256) as Hnxt.
    { unfold nxt. destruct es as [|e' es]; [done|]. apply Forall_cons in Hwf as [[[H _]|[H _]] _]; simpl.
      - rewrite !elem_of_cons, elem_of_nil in H. unfold ext6HopByHop, ext6Routing, ext6DestOpts in H. lia.
      - rewrite H. unfold ext6Fragment. lia. }
    set (b := pre ++ (zb nxt :: ext_body e ++ exts_bytes es pr) ++ t).
    set (pre' := pre ++ zb nxt :: ext_body e).
    assert (b = pre' ++ exts_bytes es pr ++ t) as Eb
      by (unfold b, pre'; by rewrite <- !app_assoc, <- !app_comm_cons, <- !app_assoc).
    assert (blen pre' = blen pre + 1 + blen (ext_body e)) as Lp
      by (unfold pre', blen; rewrite length_app, length_cons; lia).
    assert (blen pre' <= blen b) as Lb by (rewrite Eb, blen_app; unfold blen; lia).
    assert (0 <= blen pre) by (unfold blen; lia).
    assert (at_ b (blen pre) = Some nxt) as Hat.
    { rewrite (at_mid b pre (zb nxt) ((ext_body e ++ exts_bytes es pr) ++ t)) by done. by rewrite bz_zb_small. }
    destruct He as [(Ht & l & rest & Hbody & Hlen)|(Ht & a & f & id & Hbody & Hid & Hf)].
    + assert ((ext_type e =? ext6HopByHop) || (ext_type e =? ext6Routing) || (ext_type e =? ext6DestOpts) = true) as ->.
      { rewrite !elem_of_cons, elem_of_nil in Ht. destruct Ht as [->|[->|[->|[]]]]; done. }
      rewrite Hbody in Lp. rewrite (proj2 (Z.ltb_ge _ _)) by (unfold blen in *; simpl length in *; lia).
      rewrite Hat. cbn [mbind option_bind].
      rewrite (at_mid b (pre ++ [zb nxt]) l ((rest ++ exts_bytes es pr) ++ t));
        [|unfold b; rewrite Hbody; by rewrite <- app_assoc|by rewrite blen_app]. cbn [mbind option_bind].
      replace (blen pre + (bz l + 1) * 8) with (blen pre')
        by (rewrite Lp; unfold blen in *; rewrite length_cons; lia).
      rewrite Eb. apply IH; [done|lia|done|done].
    + rewrite Ht. cbn [Z.eqb Pos.eqb orb ext6HopByHop ext6Routing ext6DestOpts ext6Fragment].
      assert (blen (ext_body e) = 7) as Lbody.
      { rewrite Hbody. unfold blen. rewrite length_cons, length_app, length_be_enc, Hid. done. }
      rewrite (proj2 (Z.ltb_ge _ _)) by lia. rewrite Hat.
      rewrite (uint16_mid b (pre ++ [zb nxt; a]) f ((id ++ exts_bytes es pr) ++ t));
        [|unfold b; rewrite Hbody; rewrite <- !app_assoc; simpl; by rewrite <- !app_assoc|by rewrite blen_app|lia].
      cbn [mbind option_bind fmap option_fmap option_map].
      rewrite (Z.shiftr_div_pow2 f 3), (Z.div_small f) by (try lia; change (2 ^ 3) with 8; lia). cbn [Z.eqb negb].
      replace (blen pre + 8) with (blen pre') by lia. rewrite Eb. apply IH; [done|lia|done|done].
Qed.

Lemma transport_proto_range t :
  transport_wf t →
  0 <= transport_proto t < 256 ∧ transport_proto t ∉ [ext6HopByHop; ext6Routing; ext6Fragment; ext6DestOpts].
Proof.
  assert (∀ z, z ∈ [protoTCP; protoUDP; protoICMP; protoICMPv6] →
    0 <= z < 256 ∧ z ∉ [ext6HopByHop; ext6Routing; ext6Fragment; ext6DestOpts]) as H.
  { intros z Hz. rewrite !elem_of_cons, elem_of_nil in Hz.
    destruct Hz as [->|[->|[->|[->|[]]]]]; (split; [by split|]); by apply (bool_decide_unpack _). }
  destruct t as [| |v6|pr rest]; cbn [transport_wf transport_proto].
  - intros _. apply H. by left.
  - intros _. apply H. by right; left.
  - intros _. apply H. destruct v6; [by right; right; right; left|by right; right; left].
  - intros [Hr Hn]. split; [done|]. rewrite !not_elem_of_cons in Hn. destruct_and! Hn.
    rewrite !not_elem_of_cons. split_and!; done.
Qed.

Lemma parseIPv6_bytes cls fl hop s d es t :
  0 <= cls < 16 → length fl = 5%nat → 0 <= s < 2 ^ 128 → 0 <= d < 2 ^ 128 →
  Forall ext_wf es → (length es < ext6Max)%nat → transport_wf t →
  parseIPv6 (v6_bytes cls fl hop s d es t) = Some (Some (with_transport (Addr6 s "") (Addr6 d "") t)).
Proof.
  intros Hc Hfl Hs Hd Hes Hn Hwf. destruct (transport_proto_range t Hwf) as [Hpr Hnot]. unfold parseIPv6.
  set (pr := transport_proto t) in *. set (b := v6_bytes _ _ _ _ _ _ _).
  set (h1 := [zb (96 + cls)] ++ fl). set (h2 := h1 ++ [zb (first_type es pr)] ++ [hop]).
  set (h3 := h2 ++ be_enc 16 s). set (h4 := h3 ++ be_enc 16 d).
  assert (blen h1 = 6 ∧ blen h2 = 8 ∧ blen h3 = 24 ∧ blen h4 = 40) as (L1 & L2 & L3 & L4).
  { unfold h4, h3, h2, h1. rewrite !blen_app, !blen_be_enc. unfold blen. rewrite Hfl. done. }
  assert (b = h4 ++ exts_bytes es pr ++ transport_bytes t) as Eb
    by (unfold b, v6_bytes, h4, h3, h2, h1; by rewrite <- !app_assoc).
  rewrite (proj2 (Z.ltb_ge (blen b) 40)) by (rewrite Eb, blen_app, L4; unfold blen; lia).
  rewrite (at_mid b [] (zb (96 + cls)) (drop 1 b) 0) by done. cbn [mbind option_bind].
  rewrite bz_zb_small by lia.
  assert (Z.shiftr (96 + cls) 4 = 6) as -> by (rewrite Z.shiftr_div_pow2 by lia; Z.to_euclidean_division_equations; lia).
  cbn [Z.eqb Pos.eqb negb].
  rewrite (slice_mid b h2 (be_enc 16 s) (be_enc 16 d ++ exts_bytes es pr ++ transport_bytes t) 8 24);
    [|rewrite Eb; unfold h4, h3; by rewrite <- !app_assoc|done|by rewrite blen_be_enc].
  rewrite (slice_mid b h3 (be_enc 16 d) (exts_bytes es pr ++ transport_bytes t) 24 40);
    [|rewrite Eb; unfold h4; by rewrite <- !app_assoc|done|by rewrite blen_be_enc].
  rewrite (at_mid b h1 (zb (first_type es pr)) ([hop] ++ be_enc 16 s ++ be_enc 16 d ++ exts_bytes es pr ++ transport_bytes t) 6);
    [|rewrite Eb; unfold h4, h3, h2; by rewrite <- !app_assoc|done].
  cbn [mbind option_bind]. rewrite bz_zb_small.
  2:{ destruct es as [|e es]; [done|]. apply Forall_cons in Hes as [[[H _]|[H _]] _]; simpl.
      - rewrite !elem_of_cons, elem_of_nil in H. unfold ext6HopByHop, ext6Routing, ext6DestOpts in H. lia.
      - rewrite H. unfold ext6Fragment. lia. }
  unfold AddrFrom16. rewrite !be_dec_enc_small by done. rewrite Eb. rewrite <- L4.
  rewrite walk6_exts by done. by rewrite parseTransport_bytes.
Qed.

(** The decoder accesses no byte out of range, whatever arrives.  It finds
    the addresses, ports and flags of every well-formed packet: behind IPv4
    options, and behind up to seven IPv6 extension headers; an IPv4 fragment
    other than the first is returned without ports. *)
Theorem parsePacket_decodes :
  (∀ b, is_Some (parsePacket b)) ∧
  (∀ tli frag ttl sum s d opts t,
     length tli = 5%nat → length sum = 2%nat → (length opts <= 40)%nat → Z.of_nat (length opts) `mod` 4 = 0 →
     port_ok frag → 0 <= s < 2 ^ 32 → 0 <= d < 2 ^ 32 → transport_wf t →
     parsed (v4_bytes tli frag ttl sum s d opts t) =
       Some (if Z.land frag 8191 =? 0 then with_transport (Addr4 s) (Addr4 d) t
             else with_transport (Addr4 s) (Addr4 d) (Other (transport_proto t) []))) ∧
  (∀ cls fl hop s d es t,
     0 <= cls < 16 → length fl = 5%nat → 0 <= s < 2 ^ 128 → 0 <= d < 2 ^ 128 →
     Forall ext_wf es → (length es <= 7)%nat → transport_wf t →
     parsed (v6_bytes cls fl hop s d es t) = Some (with_transport (Addr6 s "") (Addr6 d "") t)).
Proof.
  split; [apply parsePacket_total|]. split.
  - intros tli frag ttl sum s d opts t Htli Hsum Hol Hom Hf Hs Hd Hwf.
    unfold parsed, parsePacket. set (k := Z.of_nat (length opts) / 4).
    assert (0 <= k <= 10) by (subst k; Z.to_euclidean_division_equations; lia).
    set (b := v4_bytes _ _ _ _ _ _ _ _).
    assert (b = zb (69 + k) :: drop 1 b) as Eb by done.
    assert (at_ b 0 = Some (69 + k)) as Hat by (rewrite (at_mid b [] (zb (69 + k)) (drop 1 b)) by done; by rewrite bz_zb_small by lia).
    rewrite (proj2 (Z.eqb_neq (blen b) 0)) by (rewrite Eb; unfold blen; simpl; lia).
    rewrite Hat. cbn [mbind option_bind].
    assert (Z.shiftr (69 + k) 4 = 4) as -> by (rewrite Z.shiftr_div_pow2 by lia; Z.to_euclidean_division_equations; lia).
    cbn [Z.eqb Pos.eqb]. unfold b. rewrite parseIPv4_bytes by (try done; by apply transport_proto_range).
    cbv zeta. destruct (Z.land frag 8191 =? 0); [|done]. by rewrite parseTransport_bytes.
  - intros cls fl hop s d es t Hc Hfl Hs Hd Hes Hn Hwf. unfold parsed, parsePacket.
    set (b := v6_bytes _ _ _ _ _ _ _). assert (b = zb (96 + cls) :: drop 1 b) as Eb by done.
    assert (at_ b 0 = Some (96 + cls)) as Hat by (rewrite (at_mid b [] (zb (96 + cls)) (drop 1 b)) by done; by rewrite bz_zb_small by lia).
    rewrite (proj2 (Z.eqb_neq (blen b) 0)) by (rewrite Eb; unfold blen; simpl; lia).
    rewrite Hat. cbn [mbind option_bind].
    assert (Z.shiftr (96 + cls) 4 = 6) as -> by (rewrite Z.shiftr_div_pow2 by lia; Z.to_euclidean_division_equations; lia).
    cbn [Z.eqb Pos.eqb]. unfold b. rewrite parseIPv6_bytes by (done || (unfold ext6Max; lia)). done.
Qed.

(** ** The filter as a function of the calls *)

Inductive call :=
  | CSet (s : FilterSet)
  | COut (now now' : Z) (b : list byte)
  | CIn (now : Z) (b : list byte).

(** Newest call first. *)
Fixpoint filter_of (t0 : Z) (h : list call) : packetFilter :=
  match h with
  | [] => newPacketFilter t0
  | CSet s :: h' => Install s (filter_of t0 h')
  | COut t t' b :: h' => Outbound t t' b (filter_of t0 h')
  | CIn t b :: h' => (Inbound t b (filter_of t0 h')).1
  end.

(** The clock of a run that ends by [now] never goes back. *)
Fixpoint clock (now : Z) (h : list call) : Prop :=
  match h with
  | [] => True
  | CSet _ :: h' => clock now h'
  | COut t t' _ :: h' => t <= t' ∧ t' <= now ∧ clock t h'
  | CIn t _ :: h' => t <= now ∧ clock t h'
  end.

Fixpoint set_of (h : list call) : option compiledFilter :=
  match h with
  | [] => None
  | CSet s :: _ => Some (compile_set s)
  | _ :: h' => set_of h'
  end.

(** Whether a packet's flow is looked up at all. *)
Definition consults (c : option compiledFilter) (p : packet) : bool :=
  match c with
  | Some c => negb (bool_decide (hook c = HookForward) && isLocal c (dst p))
  | None => true
  end.

Definition flow_step (key : flowKey) (o : option (flowKey * Z)) : option Z :=
  match o with Some (k, ttl) => if decide (k = key) then Some ttl else None | None => None end.

Definition live (o : option Z) (now : Z) : bool := match o with Some e => now <? e | None => false end.

(** When a flow ends: set by each packet of this host, moved by each reply that
    is still in time. *)
Fixpoint expiry (key : flowKey) (h : list call) : option Z :=
  match h with
  | [] => None
  | CSet _ :: h' => expiry key h'
  | COut t _ b :: h' =>
      match flow_step key (parsed b ≫= out_flow) with Some ttl => Some (t + ttl) | None => expiry key h' end
  | CIn t b :: h' =>
      match parsed b with
      | Some p =>
          if consults (set_of h') p then
            match flow_step key (reply_flow p) with
            | Some ttl => if live (expiry key h') t then Some (t + ttl) else None
            | None => expiry key h'
            end
          else expiry key h'
      | None => expiry key h'
      end
  end.

Definition answers (now : Z) (p : packet) (h : list call) : bool :=
  match reply_flow p with Some (key, _) => live (expiry key h) now | None => false end.

(** What the set alone opens, the packet being no reply. *)
Definition opens (c : compiledFilter) (p : packet) : bool :=
  if bool_decide (hook c = HookInput) && IsValid (local c) && negb (isLocal c (dst p)) then forwardAllows c p
  else icmp6Always p || (bool_decide (src p ∈ visible c) && visible_icmp p) || existsb (ruleAllows p) (rules c).

Definition spec_allow (now : Z) (b : list byte) (h : list call) : bool :=
  match parsed b with
  | None => false
  | Some p =>
      match set_of h with
      | None => answers now p h
      | Some c => (bool_decide (hook c = HookForward) && isLocal c (dst p)) || answers now p h || opens c p
      end
  end.

(** Packets refused so far. *)
Fixpoint denied (h : list call) : Z :=
  match h with
  | [] => 0
  | CIn t b :: h' => (if spec_allow t b h' then 0 else 1) + denied h'
  | _ :: h' => denied h'
  end.

(** ** The flow table refines the calls *)

(** From [now] on the table and the calls agree on what is live. *)
Definition agrees (now : Z) (f : packetFilter) (h : list call) : Prop :=
  ∀ key t, now <= t → live (flows f !! key) t = live (expiry key h) t.

Lemma live_none_after o now t : live o now = false → now <= t → live o t = false.
Proof. destruct o as [e|]; simpl; [|done]. intros ?%Z.ltb_ge ?. apply Z.ltb_ge. lia. Qed.

Lemma agrees_later now now' f h : now <= now' → agrees now f h → agrees now' f h.
Proof. intros Hle H key t Ht. apply H. lia. Qed.

Lemma sweep_live now f key t : now <= t → live (flows (sweepLocked now f) !! key) t = live (flows f !! key) t.
Proof.
  intros Ht. unfold sweepLocked. case_match; [done|]. simpl. rewrite map_lookup_filter.
  destruct (flows f !! key) as [e|]; simpl; [|done]. case_guard as Hg; simpl; [done|].
  symmetry. apply Z.ltb_ge. simpl in Hg. lia.
Qed.

Lemma sweep_set now f : fset (sweepLocked now f) = fset f ∧ drops (sweepLocked now f) = drops f.
Proof. unfold sweepLocked. by case_match. Qed.

Lemma insert_live (m : gmap flowKey Z) k e key t :
  live (<[k := e]> m !! key) t = if decide (k = key) then t <? e else live (m !! key) t.
Proof. case_decide; [subst; by rewrite lookup_insert_eq|by rewrite lookup_insert_ne]. Qed.

Lemma agrees_out now t t' b f h :
  t <= t' → t' <= now → agrees t f h → agrees now (Outbound t t' b f) (COut t t' b :: h).
Proof.
  intros H1 H2 H key u Hu. unfold Outbound. cbn [expiry].
  destruct (parsed b) as [p|]; cbn [mbind option_bind]; [|apply H; lia].
  destruct (out_flow p) as [[k ttl]|]; simpl; [|apply H; lia].
  rewrite sweep_live by lia. cbn [with_flows flows]. rewrite insert_live.
  case_decide; [done|]. apply H. lia.
Qed.

Lemma reply_answers now p f h :
  agrees now f h →
  (reply now p f).2 = answers now p h ∧ fset (reply now p f).1 = fset f ∧ drops (reply now p f).1 = drops f ∧
  ∀ key t, now <= t → live (flows (reply now p f).1 !! key) t =
    live (match flow_step key (reply_flow p) with
          | Some ttl => if live (expiry key h) now then Some (now + ttl) else None
          | None => expiry key h end) t.
Proof.
  intros H. unfold reply, answers. destruct (reply_flow p) as [[k ttl]|] eqn:Er; simpl; [|split_and!; [done..|]; intros; by apply H].
  assert (live (flows f !! k) now = live (expiry k h) now) as Hk by (apply H; lia).
  destruct (flows f !! k) as [exp|] eqn:Ek; simpl in Hk.
  - destruct (now <? exp) eqn:El; simpl; (split_and!; [done..|]); intros key t Ht.
    + rewrite insert_live. case_decide; [subst; by rewrite <- Hk|by apply H].
    + case_decide as Hd.
      * subst. rewrite lookup_delete_eq, <- Hk. done.
      * rewrite lookup_delete_ne by done. by apply H.
  - simpl. split_and!; [done..|]. intros key t Ht. case_decide; [subst; by rewrite Ek, <- Hk|by apply H].
Qed.

Lemma allow_spec now b f h :
  fset f = set_of h → agrees now f h →
  (allow now b f).2 = spec_allow now b h ∧ fset (allow now b f).1 = fset f ∧ drops (allow now b f).1 = drops f ∧
  agrees now (allow now b f).1 (CIn now b :: h).
Proof.
  intros Hs H. unfold allow, spec_allow, agrees. cbn [expiry].
  destruct (parsed b) as [p|]; [|split_and!; [done..|]; intros; by apply H].
  destruct (reply_answers now p f h H) as (Hr & Hset & Hdr & Hfl). rewrite <- Hs.
  destruct (fset f) as [c|] eqn:Ec; [|simpl; by rewrite Hset].
  cbn [consults]. destruct (bool_decide (hook c = HookForward) && isLocal c (dst p)); cbn [negb orb].
  { split_and!; [done..|]. intros; by apply H. }
  destruct (reply now p f) as [f' ok]. cbn [fst snd] in *. subst ok.
  destruct (answers now p h); cbn [orb]; [by split_and!|]. unfold opens.
  destruct (bool_decide (hook c = HookInput) && IsValid (local c) && negb (isLocal c (dst p))); [by split_and!|].
  destruct (icmp6Always p); [by split_and!|].
  destruct (bool_decide (src p ∈ visible c) && visible_icmp p); by split_and!.
Qed.

Lemma filter_of_spec t0 h : ∀ now,
  clock now h →
  fset (filter_of t0 h) = set_of h ∧ drops (filter_of t0 h) = u64 (denied h) ∧ agrees now (filter_of t0 h) h.
Proof.
  induction h as [|[s|t t' b|t b] h IH]; intros now Hc; cbn [filter_of set_of denied clock] in *.
  - split_and!; [done..|]. intros key t _. cbn [newPacketFilter flows expiry]. by rewrite lookup_empty.
  - destruct (IH now Hc) as (_ & Hd & Ha). done.
  - destruct Hc as (H1 & H2 & Hc). destruct (IH t Hc) as (Hs & Hd & Ha). split_and!; [| |by apply agrees_out].
    + unfold Outbound. repeat case_match; rewrite ?(proj1 (sweep_set _ _)); done.
    + unfold Outbound. repeat case_match; rewrite ?(proj2 (sweep_set _ _)); done.
  - destruct Hc as (H1 & Hc). destruct (IH t Hc) as (Hs & Hd & Ha).
    destruct (allow_spec t b _ h Hs Ha) as (Hv & Hset & Hdr & Hag). unfold Inbound.
    destruct (allow t b (filter_of t0 h)) as [f' ok]. cbn [fst snd] in *. subst ok.
    destruct (spec_allow t b h) eqn:E; cbn [fst fset drops].
    + split_and!; [congruence| |by eapply agrees_later]. rewrite Hdr, Hd. done.
    + split_and!; [congruence| |by eapply agrees_later]. rewrite Hdr, Hd. unfold u64.
      rewrite Zplus_mod_idemp_l. f_equal. lia.
Qed.

Lemma Inbound_verdict t0 now b h : clock now h → (Inbound now b (filter_of t0 h)).2 = spec_allow now b h.
Proof.
  intros Hc. destruct (filter_of_spec t0 h now Hc) as (Hs & Hd & Ha).
  destruct (allow_spec now b _ h Hs Ha) as (Hv & _). unfold Inbound. rewrite <- Hv.
  by destruct (allow now b (filter_of t0 h)) as [f' []].
Qed.

(** C2: the filter's verdict and its drop counter are functions of the calls
    made, whatever the sweep threw away: with a clock that never goes back, an
    arriving packet passes exactly when it answers a flow that has not run out,
    or the set in force opens it: a forward rule for a packet to another
    host's address, otherwise an ICMPv6 error or neighbour message, a
    diagnostic of a visible peer, or a rule. *)
Theorem Inbound_refines (t0 now : Z) (b : list byte) (h : list call) :
  clock now h →
  (Inbound now b (filter_of t0 h)).2 = spec_allow now b h ∧ drops (filter_of t0 h) = u64 (denied h).
Proof.
  intros Hc. split; [by apply Inbound_verdict|]. by destruct (filter_of_spec t0 h now Hc) as (_ & Hd & _).
Qed.

(** [q] is the reverse of [p]: ports swapped, the reply to an echo request. *)
Definition mirrors (p q : packet) : Prop :=
  proto q = proto p ∧ src q = dst p ∧ dst q = src p ∧
  if isICMP p then sport q = echoReply p ∧ dport q = dport p else sport q = dport p ∧ dport q = sport p.

(** A call that carries no packet of the flow. *)
Definition untouched (key : flowKey) (c : call) : Prop :=
  match c with
  | CSet _ => True
  | COut _ _ b => flow_step key (parsed b ≫= out_flow) = None
  | CIn _ b => flow_step key (parsed b ≫= reply_flow) = None
  end.

Lemma mirrors_flow p q key ttl : out_flow p = Some (key, ttl) → mirrors p q → ∃ ttl', reply_flow q = Some (key, ttl').
Proof.
  intros Ho (Hp & Hs & Hd & Hports). unfold out_flow, reply_flow in *. unfold isICMP, echoReply in *.
  rewrite Hp, Hs, Hd.
  destruct (Z.eqb_spec (proto p) protoTCP) as [E|E].
  { rewrite E in Hports. destruct Hports as [-> ->]. simplify_eq. eauto. }
  destruct (Z.eqb_spec (proto p) protoUDP) as [E'|E'].
  { rewrite E' in Hports. destruct Hports as [-> ->]. simplify_eq. eauto. }
  destruct ((proto p =? protoICMP) || (proto p =? protoICMPv6)); [|done]. destruct Hports as [-> ->].
  destruct (negb (sport p =? echoRequest p)); [done|]. rewrite Z.eqb_refl. simplify_eq. eauto.
Qed.

Lemma expiry_untouched key h1 h2 : Forall (untouched key) h1 → expiry key (h1 ++ h2) = expiry key h2.
Proof.
  induction 1 as [|c h1 Hc _ IH]; [done|]. rewrite <- app_comm_cons. destruct c as [s|t t' b|t b]; cbn [expiry untouched] in *.
  - done.
  - by rewrite Hc.
  - destruct (parsed b) as [p|]; [|done]. cbn [mbind option_bind] in Hc. rewrite Hc. by case_match.
Qed.

(** Replies come back.  A packet this host sends opens its flow for its
    lifetime: whatever sets are installed and packets of other flows pass in
    between, the reverse packet is let in before the lifetime is over, and from
    then on it is no reply any more. *)
Theorem replies_pass (t0 t t' now : Z) (b bq : list byte) (p q : packet) (key : flowKey) (ttl : Z) (h1 h0 : list call) :
  clock now (h1 ++ COut t t' b :: h0) →
  parsed b = Some p → out_flow p = Some (key, ttl) →
  parsed bq = Some q → mirrors p q →
  Forall (untouched key) h1 →
  (now < t + ttl → (Inbound now bq (filter_of t0 (h1 ++ COut t t' b :: h0))).2 = true) ∧
  (t + ttl <= now → answers now q (h1 ++ COut t t' b :: h0) = false).
Proof.
  intros Hc Hb Ho Hbq Hm Hu. set (h := h1 ++ COut t t' b :: h0) in *.
  destruct (mirrors_flow _ _ _ _ Ho Hm) as [ttl' Hr].
  assert (expiry key h = Some (t + ttl)) as He.
  { unfold h. rewrite expiry_untouched by done. cbn [expiry]. rewrite Hb. cbn [mbind option_bind]. rewrite Ho. simpl.
    by rewrite decide_True. }
  assert (answers now q h = (now <? t + ttl)) as Hans by (unfold answers; by rewrite Hr, He).
  split; intros Hlt.
  - destruct (filter_of_spec t0 h now Hc) as (Hs & _ & Ha). destruct (allow_spec now bq _ h Hs Ha) as (Hv & _).
    assert (spec_allow now bq h = true) as Hallow.
    { unfold spec_allow. rewrite Hbq, Hans, (proj2 (Z.ltb_lt _ _)) by done.
      destruct (set_of h); [|done]. by rewrite orb_true_r. }
    unfold Inbound. destruct (allow now bq (filter_of t0 h)) as [f' ok]. cbn [snd] in Hv. by rewrite Hv, Hallow.
  - rewrite Hans. apply Z.ltb_ge. lia.
Qed.

(** ** A small run *)

Definition demo_host : Z := 1681915906.
Definition demo_peer : Z := 1681915907.
Definition demo_packet (s d sp dp : Z) : list byte :=
  v4_bytes (replicate 5 Byte.x00) 0 Byte.x40 [Byte.x00; Byte.x00] s d []
    (TCP sp dp (replicate 9 Byte.x00) 2 []).
Definition demo_set : FilterSet :=
  {| Interface := "thawr0"; Hook := HookInput; sLocal := Addr4 demo_host; sLocal6 := AddrNone; sVisible := [];
     sRules := [{| fSrc := Prefix (Addr4 demo_peer) 32; fDst := AddrNone; fProto := "tcp"; fLo := 22; fHi := 22 |}];
     sForward := []; Masquerade := []; MasqueradeFrom := NoPrefix; MasqueradeFrom6 := NoPrefix; routerOnly := false |}.
Definition demo_calls : list call :=
  [COut (5 * second) (5 * second) (demo_packet demo_host demo_peer 40000 443); CSet demo_set].

Example demo_verdicts :
  let f := filter_of 0 demo_calls in
  (λ b, (Inbound (6 * second) b f).2) <$>
    [demo_packet demo_peer demo_host 443 40000; demo_packet demo_peer demo_host 50000 22;
     demo_packet demo_peer demo_host 50000 23] = [true; true; false].
Proof. vm_compute. reflexivity. Qed.

Lemma Inbound_refines_witness :
  clock (6 * second) demo_calls ∧
  (Inbound (6 * second) (demo_packet demo_peer demo_host 50000 23) (filter_of 0 demo_calls)).2 = false.
Proof.
  assert (clock (6 * second) demo_calls) as Hc by (vm_compute; split_and!; done || discriminate).
  split; [exact Hc|].
  rewrite (proj1 (Inbound_refines 0 (6 * second) (demo_packet demo_peer demo_host 50000 23) demo_calls Hc)).
  vm_compute. reflexivity.
Defined.

Lemma replies_pass_witness :
  (Inbound (3604 * second) (demo_packet demo_peer demo_host 443 40000) (filter_of 0 demo_calls)).2 = true.
Proof.
  refine (proj1 (replies_pass 0 (5 * second) (5 * second) (3604 * second)
    (demo_packet demo_host demo_peer 40000 443) (demo_packet demo_peer demo_host 443 40000)
    (with_transport (Addr4 demo_host) (Addr4 demo_peer) (TCP 40000 443 (replicate 9 Byte.x00) 2 []))
    (with_transport (Addr4 demo_peer) (Addr4 demo_host) (TCP 443 40000 (replicate 9 Byte.x00) 2 []))
    (FlowKey 6 (Addr4 demo_host) (Addr4 demo_peer) 40000 443) flowTCP [] [CSet demo_set] _ _ _ _ _ _) _).
  - vm_compute; split_and!; done || discriminate.
  - vm_compute. reflexivity.
  - vm_compute. reflexivity.
  - vm_compute. reflexivity.
  - by split_and!.
  - constructor.
  - vm_compute. reflexivity.
Defined.
