(* ===== verification/Hub.v ===== *)
(** The hub of key distribution ([internal/control/hub.go]): the netmap sequence,
    the wake-up channels of open streams, who is online, and who wants to reach
    whom.

    Every operation is the section under the lock, so that any interleaving of
    callers is a sequence of operations; [Connected] and [Sweep], which call
    [Changed] after unlocking, are split there.  Clocks and the generation read
    from the database are inputs; a channel with one slot is a flag. *)

From S2P Require Import Prelude GoStrings.
From S2P Require Limiter.

(** ** State *)

Record HubOptions := { Coalesce : Z; OfflineAfter : Z; KeepaliveInterval : Z }.
Definition withDefaults (o : HubOptions) : HubOptions := {|
  Coalesce := if Coalesce o =? 0 then second `div` 5 else Coalesce o;
  OfflineAfter := if OfflineAfter o =? 0 then 90 * second else OfflineAfter o;
  KeepaliveInterval := if KeepaliveInterval o =? 0 then 30 * second else KeepaliveInterval o;
|}.

Definition wantTTL : Z := 30 * second.
Definition wantRepeat : Z := 5 * second.

(** A stream's peer, and whether its channel holds a wake-up. *)
Record subscriber := { suPeer : string; suFull : bool }.
Record presenceEntry := { streams : Z; disconnectedAt : Z; online : bool }.
Record wantReq := { rqAt : Z; rqWoke : Z; rqSeq : Z }.

Record Hub := {
  hSequence : Z; hSubs : gmap nat subscriber; hPresence : gmap string presenceEntry; hPending : bool;
  hWants : gmap string (gmap string wantReq); hWantSeq : Z;
}.

(** [NewHub] from the persisted generation and the clock. *)
Definition NewHub (gen now : Z) : Hub :=
  {| hSequence := gen; hSubs := ∅; hPresence := ∅; hPending := false; hWants := ∅; hWantSeq := u64 (now `max` 0) |}.

Definition with_subs (m : gmap nat subscriber) (h : Hub) : Hub :=
  {| hSequence := hSequence h; hSubs := m; hPresence := hPresence h; hPending := hPending h; hWants := hWants h; hWantSeq := hWantSeq h |}.
Definition with_presence (m : gmap string presenceEntry) (h : Hub) : Hub :=
  {| hSequence := hSequence h; hSubs := hSubs h; hPresence := m; hPending := hPending h; hWants := hWants h; hWantSeq := hWantSeq h |}.
Definition with_wants (m : gmap string (gmap string wantReq)) (n : Z) (h : Hub) : Hub :=
  {| hSequence := hSequence h; hSubs := hSubs h; hPresence := hPresence h; hPending := hPending h; hWants := m; hWantSeq := n |}.

(** ** Subscriptions *)

(** [Subscribe] allocates the subscriber [id]; the function it returns is
    [Unsubscribe]. *)
Definition Subscribe (id : nat) (peerID : string) (h : Hub) : Hub := with_subs (<[id := {| suPeer := peerID; suFull := false |}]> (hSubs h)) h.
Definition Unsubscribe (id : nat) (h : Hub) : Hub := with_subs (delete id (hSubs h)) h.

(** The non-blocking send of a wake-up, and the stream's receive. *)
Definition wake (s : subscriber) : subscriber := {| suPeer := suPeer s; suFull := true |}.
Definition Receive (id : nat) (h : Hub) : Hub := with_subs (alter (λ s, {| suPeer := suPeer s; suFull := false |}) id (hSubs h)) h.

(** [Changed]: [gen] is the generation read, if it could be. *)
Definition Changed (gen : option Z) (h : Hub) : Hub :=
  let seq := i64 (hSequence h + 1) in
  let seq := match gen with Some g => if seq <? g then g else seq | None => seq end in
  {| hSequence := seq; hSubs := hSubs h; hPresence := hPresence h; hPending := true; hWants := hWants h; hWantSeq := hWantSeq h |}.

(** [flush], which the timer of the pending change runs. *)
Definition flush (h : Hub) : Hub :=
  {| hSequence := hSequence h; hSubs := wake <$> hSubs h; hPresence := hPresence h; hPending := false; hWants := hWants h;
     hWantSeq := hWantSeq h |}.

(** ** Presence *)

(** [Connected]: what it does under the lock, and whether the peer was online. *)
Definition mark_connected (peerID : string) (h : Hub) : Hub * bool :=
  let e := default {| streams := 0; disconnectedAt := 0; online := false |} (hPresence h !! peerID) in
  (with_presence (<[peerID := {| streams := streams e + 1; disconnectedAt := disconnectedAt e; online := true |}]> (hPresence h)) h, online e).
Definition Connected (peerID : string) (gen : option Z) (h : Hub) : Hub :=
  let '(h, wasOnline) := mark_connected peerID h in if wasOnline then h else Changed gen h.

Definition Disconnected (peerID : string) (now : Z) (h : Hub) : Hub :=
  match hPresence h !! peerID with
  | None => h
  | Some e =>
      let n := if 0 <? streams e then streams e - 1 else streams e in
      with_presence (<[peerID := {| streams := n; disconnectedAt := if n =? 0 then now else disconnectedAt e; online := online e |}]>
                       (hPresence h)) h
  end.

Definition Online (peerID : string) (h : Hub) : bool :=
  match hPresence h !! peerID with Some e => online e | None => false end.

(** [Forget]. *)
Definition drop_empty (m : gmap string (gmap string wantReq)) : gmap string (gmap string wantReq) :=
  filter (λ kv, kv.2 ≠ ∅) m.
Definition Forget (peerID : string) (h : Hub) : Hub :=
  with_wants (drop_empty (delete peerID <$> delete peerID (hWants h))) (hWantSeq h) (with_presence (delete peerID (hPresence h)) h).

(** [Sweep]: under the lock, and whether any peer went offline. *)
Definition gone (o : HubOptions) (now : Z) (e : presenceEntry) : bool :=
  online e && (streams e =? 0) && (OfflineAfter o <=? Sub now (disconnectedAt e)).
Definition sweep_entry (o : HubOptions) (now : Z) (e : presenceEntry) : presenceEntry :=
  if gone o now e then {| streams := streams e; disconnectedAt := disconnectedAt e; online := false |} else e.
Definition mark_swept (o : HubOptions) (now : Z) (h : Hub) : Hub * bool :=
  (with_presence (sweep_entry o now <$> hPresence h) h, existsb (λ kv, gone o now kv.2) (map_to_list (hPresence h))).
Definition Sweep (o : HubOptions) (now : Z) (gen : option Z) (h : Hub) : Hub :=
  let '(h, changed) := mark_swept o now h in if changed then Changed gen h else h.

Definition OnlineCount (h : Hub) : Z := Z.of_nat (length (filter (λ kv, online kv.2 = true) (map_to_list (hPresence h)))).

(** ** Reach requests *)

Definition live (now : Z) (r : wantReq) : bool := Sub now (rqAt r) <? wantTTL.

Definition open_streams (peerID : string) (h : Hub) : bool :=
  match hPresence h !! peerID with Some e => negb (streams e =? 0) | None => false end.

(** The request after asking again at [now], and whether the target is woken;
    [n] is the last number given out. *)
Definition ask (now n : Z) (r : option wantReq) : wantReq * bool :=
  let wake := match r with Some r => wantRepeat <=? Sub now (rqWoke r) | None => true end in
  ({| rqAt := now; rqWoke := if wake then now else default 0 (rqWoke <$> r); rqSeq := if wake then u64 (n + 1) else default 0 (rqSeq <$> r) |}, wake).

Definition wake_peer (peerID : string) (s : subscriber) : subscriber := if bool_decide (suPeer s = peerID) then wake s else s.

(** The requests to a peer that have not run out. *)
Definition live_requests (now : Z) (to : string) (h : Hub) : gmap string wantReq :=
  filter (λ kv, live now kv.2 = true) (default ∅ (hWants h !! to)).

Definition Want (to from : string) (now : Z) (h : Hub) : Hub :=
  if negb (open_streams to h) then h
  else
    let reqs := live_requests now to h in
    let '(r, w) := ask now (hWantSeq h) (reqs !! from) in
    let h := with_wants (<[to := <[from := r]> reqs]> (hWants h)) (if w then rqSeq r else hWantSeq h) h in
    if w then with_subs (wake_peer to <$> hSubs h) h else h.

Definition WantSeq (to from : string) (now : Z) (h : Hub) : Hub * Z :=
  match hWants h !! to with
  | None => (h, 0)
  | Some reqs =>
      match reqs !! from with
      | None => (h, 0)
      | Some r =>
          if live now r then (h, rqSeq r)
          else
            let reqs := delete from reqs in
            (with_wants (if bool_decide (reqs = ∅) then delete to (hWants h) else <[to := reqs]> (hWants h)) (hWantSeq h) h, 0)
      end
  end.
Definition Wanted (to from : string) (now : Z) (h : Hub) : Hub * bool :=
  let '(h, n) := WantSeq to from now h in (h, negb (n =? 0)).

(** ** Histories *)

Inductive hub_event :=
  | HSubscribe (id : nat) (peerID : string) | HUnsubscribe (id : nat) | HReceive (id : nat)
  | HChanged (gen : option Z) | HFlush
  | HConnected (peerID : string) | HDisconnected (peerID : string) (now : Z) | HForget (peerID : string) | HSwept (now : Z)
  | HWant (to from : string) (now : Z) | HWantSeq (to from : string) (now : Z).

Definition hub_step (o : HubOptions) (e : hub_event) (h : Hub) : Hub :=
  match e with
  | HSubscribe id p => Subscribe id p h
  | HUnsubscribe id => Unsubscribe id h
  | HReceive id => Receive id h
  | HChanged gen => Changed gen h
  | HFlush => flush h
  | HConnected p => (mark_connected p h).1
  | HDisconnected p now => Disconnected p now h
  | HForget p => Forget p h
  | HSwept now => (mark_swept o now h).1
  | HWant to from now => Want to from now h
  | HWantSeq to from now => (WantSeq to from now h).1
  end.

(** The hub after a history, the newest event first. *)
Definition hub_of (o : HubOptions) (gen start : Z) (l : list hub_event) : Hub := foldr (hub_step o) (NewHub gen start) l.

(** ** Wake-ups *)

Section Histories.
Context (o : HubOptions) (gen start : Z).
Notation hub := (hub_of o gen start).

(** Only [Changed] moves the sequence. *)
Lemma step_sequence e h : (∀ g, e ≠ HChanged g) → hSequence (hub_step o e h) = hSequence h.
Proof.
  intros He. destruct e; try done; cbn; try (by destruct (He gen0)).
  - unfold Disconnected. by case_match.
  - unfold Want. repeat case_match; done.
  - unfold WantSeq. repeat case_match; done.
Qed.

(** What becomes of the subscriber [id] unless it subscribes, leaves or receives. *)
Definition concerns (id : nat) (e : hub_event) : Prop :=
  match e with HSubscribe i _ | HUnsubscribe i | HReceive i => i = id | _ => False end.

Lemma step_subscriber id e h s :
  ¬ concerns id e → hSubs h !! id = Some s →
  ∃ s', hSubs (hub_step o e h) !! id = Some s' ∧ suPeer s' = suPeer s ∧ (suFull s = true → suFull s' = true) ∧
    (e = HFlush → suFull s' = true).
Proof.
  intros He Hs. assert (∀ h', hSubs h' = hSubs h → ∃ s', hSubs h' !! id = Some s' ∧ suPeer s' = suPeer s ∧ (suFull s = true → suFull s' = true)) as Hsame
    by (intros h' Heq; rewrite Heq; eauto).
  assert (∀ h', hSubs h' = hSubs h → e ≠ HFlush → ∃ s', hSubs h' !! id = Some s' ∧ suPeer s' = suPeer s ∧ (suFull s = true → suFull s' = true) ∧
    (e = HFlush → suFull s' = true)) as Hkeep by (intros h' Heq Hne; destruct (Hsame h' Heq) as (s' & ? & ? & ?); by exists s').
  destruct e; cbn in He |- *; try (by apply Hkeep).
  - exists s. rewrite lookup_insert_ne by done. done.
  - exists s. rewrite lookup_delete_ne by done. done.
  - exists s. rewrite lookup_alter_ne by done. done.
  - exists (wake s). rewrite lookup_fmap, Hs. done.
  - apply Hkeep; [|done]. unfold Disconnected. by case_match.
  - unfold Want. destruct (open_streams to h); [|by apply Hkeep]. cbn [negb]. destruct (ask _ _ _) as [r []]; [|by apply Hkeep].
    cbn. rewrite lookup_fmap, Hs. cbn. eexists. split; [done|]. unfold wake_peer. by case_bool_decide.
  - apply Hkeep; [|done]. unfold WantSeq. repeat case_match; done.
Qed.

Lemma step_pending e h : hPending (hub_step o e h) = match e with HChanged _ => true | HFlush => false | _ => hPending h end.
Proof.
  destruct e; try done; cbn.
  - unfold Disconnected. by case_match.
  - unfold Want. repeat case_match; done.
  - unfold WantSeq. repeat case_match; done.
Qed.

Lemma changed_sequence g h :
  - 2 ^ 63 <= hSequence h < 2 ^ 63 - 1 →
  hSequence h < hSequence (Changed g h) ∧ (∀ x, g = Some x → x <= hSequence (Changed g h)).
Proof.
  intros Hr. unfold Changed. cbn. assert (i64 (hSequence h + 1) = hSequence h + 1) as ->.
  { unfold i64. rewrite Z.mod_small by lia. lia. }
  destruct g as [x|]; [|split; [lia|done]]. destruct (Z.ltb_spec (hSequence h + 1) x); split; intros; simplify_eq; lia.
Qed.

(** From a receive (or the subscription) on. *)
Lemma no_lost_wakeup id l2 l1 h1 s :
  hSubs h1 !! id = Some s → h1 = hub l1 → Forall (λ e, ¬ concerns id e) l2 →
  ∃ s', hSubs (hub (l2 ++ l1)) !! id = Some s' ∧ suPeer s' = suPeer s ∧
    (suFull s' = true ∨ hPending (hub (l2 ++ l1)) = true ∨ hSequence (hub (l2 ++ l1)) = hSequence h1).
Proof.
  intros Hs ->. induction l2 as [|e l2 IH]; [intros _; exists s; auto|]. intros [He Hl]%Forall_cons.
  destruct (IH Hl) as (s1 & Hs1 & Hp & Hor). cbn [app hub_of foldr]. fold (hub (l2 ++ l1)).
  destruct (step_subscriber id e _ _ He Hs1) as (s2 & Hs2 & Hp2 & Hf & Hfl). exists s2. split_and!; [done|congruence|].
  rewrite step_pending. assert ((∃ g, e = HChanged g) ∨ ∀ g, e ≠ HChanged g) as [(g & ->)|Hne] by (destruct e; eauto); [auto|].
  rewrite step_sequence by done. destruct Hor as [?|[?|?]]; [auto| |auto]. destruct e; auto.
Qed.

(** ** Presence *)

Record presence_ok (h : Hub) : Prop := {
  po_streams : ∀ p e, hPresence h !! p = Some e → 0 <= streams e ∧ (0 < streams e → online e = true);
}.

Lemma step_presence e h : presence_ok h → presence_ok (hub_step o e h).
Proof.
  intros [Hh]. assert (∀ h', hPresence h' = hPresence h → presence_ok h') as Hsame by (intros h' Heq; split; by rewrite Heq).
  destruct e; cbn; try (by apply Hsame).
  - split. cbn. intros p e. rewrite lookup_insert_Some. intros [[<- <-]|[_ He]]; [|by eapply Hh]. cbn. split; [|done].
    destruct (hPresence h !! peerID) as [e|] eqn:E; cbn; [|lia]. apply Hh in E. lia.
  - unfold Disconnected. destruct (hPresence h !! peerID) as [e|] eqn:E; [|by apply Hsame]. destruct (Hh _ _ E) as [H0 H1].
    split. cbn. intros p e'. rewrite lookup_insert_Some. intros [[<- <-]|[_ He]]; [|by eapply Hh]. cbn.
    destruct (Z.ltb_spec 0 (streams e)); split; [lia|intros; apply H1; lia|lia|lia].
  - split. cbn. intros p e. rewrite lookup_delete_Some. intros [_ He]. by apply Hh in He.
  - split. cbn. intros p e. rewrite lookup_fmap_Some. intros (e' & <- & He). apply Hh in He as [H0 H1]. unfold sweep_entry.
    destruct (gone o now e') eqn:Eg; [|done]. cbn. split; [done|]. unfold gone in Eg. apply andb_true_iff in Eg as [[_ Eg]%andb_true_iff _]. lia.
  - apply Hsame. unfold Want. repeat case_match; done.
  - apply Hsame. unfold WantSeq. repeat case_match; done.
Qed.

Lemma hub_presence l : presence_ok (hub l).
Proof. induction l as [|e l IH]; [split; cbn; by intros p e; rewrite lookup_empty|]. by apply step_presence. Qed.

Lemma gone_iff now e : 0 <= streams e → gone o now e = true ↔ online e = true ∧ streams e = 0 ∧ OfflineAfter o <= Sub now (disconnectedAt e).
Proof. intros Hs. unfold gone. rewrite !andb_true_iff, Z.eqb_eq, Z.leb_le. tauto. Qed.

Lemma sweep_online p now h : Online p (mark_swept o now h).1 =
  match hPresence h !! p with Some e => online e && negb (gone o now e) | None => false end.
Proof.
  unfold Online. cbn. rewrite lookup_fmap. destruct (hPresence h !! p) as [e|]; [|done]. cbn. unfold sweep_entry, gone.
  destruct (online e) eqn:E; cbn; [|done]. by destruct (_ && _).
Qed.

Lemma sweep_flag now h : (mark_swept o now h).2 = true ↔ ∃ p e, hPresence h !! p = Some e ∧ gone o now e = true.
Proof.
  cbn. rewrite existsb_true_iff. split.
  - intros ([p e] & Hin%elem_of_map_to_list & Hg). by exists p, e.
  - intros (p & e & Hp & Hg). exists (p, e). by rewrite elem_of_map_to_list.
Qed.

(** ** Reach requests *)

Definition want_at (h : Hub) (to from : string) : option wantReq := hWants h !! to ≫= (.!! from).

Definition when_live (now : Z) (r : option wantReq) : option wantReq :=
  match r with Some r => if live now r then Some r else None | None => None end.

(** The requests as if none was ever pruned, and the last number given out. *)
Fixpoint wants_of (l : list hub_event) : (string → string → option wantReq) * Z :=
  match l with
  | [] => (λ _ _, None, u64 (start `max` 0))
  | HWant to from now :: l' =>
      let '(w, n) := wants_of l' in
      if open_streams to (hub l') then
        let '(r, woken) := ask now n (when_live now (w to from)) in
        (λ a b, if bool_decide (a = to ∧ b = from) then Some r else w a b, if woken then rqSeq r else n)
      else (w, n)
  | HForget p :: l' => let '(w, n) := wants_of l' in (λ a b, if bool_decide (a = p ∨ b = p) then None else w a b, n)
  | _ :: l' => wants_of l'
  end.

(** The times at which requests were made or read. *)
Definition want_time (e : hub_event) : option Z := match e with HWant _ _ now | HWantSeq _ _ now => Some now | _ => None end.

Lemma live_earlier now now' r : now <= now' → live now' r = true → live now r = true.
Proof. unfold live, Sub. rewrite !Z.ltb_lt. unfold minDuration, maxDuration. lia. Qed.

Lemma live_requests_at now to h b : live_requests now to h !! b = when_live now (want_at h to b).
Proof.
  unfold live_requests, want_at. rewrite map_lookup_filter. unfold when_live. destruct (hWants h !! to) as [m|]; cbn; [|by rewrite lookup_empty].
  destruct (m !! b) as [r|]; [|done]. cbn. destruct (live now r); by case_guard.
Qed.

Lemma Want_at to from now h a b :
  want_at (Want to from now h) a b =
  if open_streams to h && bool_decide (a = to) then
    if bool_decide (b = from) then Some (ask now (hWantSeq h) (when_live now (want_at h to from))).1 else when_live now (want_at h to b)
  else want_at h a b.
Proof.
  unfold Want. destruct (open_streams to h); [|done]. cbn [negb andb]. rewrite live_requests_at. destruct (ask _ _ _) as [r w].
  assert (∀ m n s, want_at (if w then with_subs s (with_wants m n h) else with_wants m n h) a b = m !! a ≫= (.!! b)) as Hw by (by destruct w).
  cbn [hSubs with_wants]. rewrite Hw. case_bool_decide as Ha; [subst a|by rewrite lookup_insert_ne]. rewrite lookup_insert_eq. cbn.
  case_bool_decide as Hb; [subst b; by rewrite lookup_insert_eq|]. rewrite lookup_insert_ne by done. apply live_requests_at.
Qed.

Lemma Want_number to from now h :
  hWantSeq (Want to from now h) =
  if open_streams to h then let '(r, w) := ask now (hWantSeq h) (when_live now (want_at h to from)) in if w then rqSeq r else hWantSeq h else hWantSeq h.
Proof.
  unfold Want. destruct (open_streams to h); [|done]. cbn [negb]. rewrite live_requests_at. by destruct (ask _ _ _) as [r []].
Qed.

Lemma WantSeq_at to from now h a b :
  want_at (WantSeq to from now h).1 a b = if bool_decide (a = to ∧ b = from) then when_live now (want_at h a b) else want_at h a b.
Proof.
  unfold WantSeq, want_at. case_bool_decide as Hab.
  - destruct Hab as [-> ->]. destruct (hWants h !! to) as [m|] eqn:Em; cbn; [|by rewrite Em]. destruct (m !! from) as [r|] eqn:Er; cbn; [|by rewrite Em; cbn; rewrite Er].
    destruct (live now r); cbn; [by rewrite Em; cbn; rewrite Er|]. case_bool_decide; [by rewrite lookup_delete_eq|]. rewrite lookup_insert_eq. cbn. by rewrite lookup_delete_eq.
  - destruct (hWants h !! to) as [m|] eqn:Em; [|done]. destruct (m !! from) as [r|] eqn:Er; cbn; [|done].
    destruct (live now r); cbn; [done|]. destruct (decide (a = to)) as [->|Ha].
    + assert (b ≠ from) as Hb by (intros ->; by apply Hab). case_bool_decide as Hm.
      * rewrite lookup_delete_eq, Em. cbn. rewrite <- (lookup_delete_ne m from b) by done. by rewrite Hm, lookup_empty.
      * rewrite lookup_insert_eq, Em. cbn. by rewrite lookup_delete_ne.
    + case_bool_decide; [by rewrite lookup_delete_ne|by rewrite lookup_insert_ne].
Qed.

Lemma WantSeq_number to from now h : hWantSeq (WantSeq to from now h).1 = hWantSeq h.
Proof. unfold WantSeq. repeat case_match; done. Qed.

Lemma WantSeq_answer to from now h : (WantSeq to from now h).2 = match when_live now (want_at h to from) with Some r => rqSeq r | None => 0 end.
Proof.
  unfold WantSeq, want_at. destruct (hWants h !! to) as [m|]; [|done]. cbn. destruct (m !! from) as [r|]; [|done]. cbn. by destruct (live now r).
Qed.

Lemma Forget_at p h a b : want_at (Forget p h) a b = if bool_decide (a = p ∨ b = p) then None else want_at h a b.
Proof.
  unfold Forget, want_at, drop_empty. cbn. rewrite map_lookup_filter, lookup_fmap. destruct (decide (a = p)) as [->|Ha].
  - rewrite lookup_delete_eq. cbn. by rewrite bool_decide_true by auto.
  - rewrite lookup_delete_ne by done. destruct (hWants h !! a) as [m|] eqn:Em; cbn; [|by case_bool_decide].
    assert ((delete p m : gmap string wantReq) !! b = if bool_decide (a = p ∨ b = p) then None else m !! b) as Hd.
    { destruct (decide (b = p)) as [->|Hb]; [rewrite lookup_delete_eq; by rewrite bool_decide_true by auto|].
      rewrite lookup_delete_ne by done. rewrite bool_decide_false; [done|]. by intros [?|?]. }
    case_guard as Hne; cbn; [done|]. rewrite <- Hd. rewrite Hne. by rewrite lookup_empty.
Qed.

(** Pruning is never seen: what the hub dropped had run out. *)
Definition agree (now : Z) (h : Hub) (w : string → string → option wantReq) : Prop :=
  ∀ a b, (∀ r, want_at h a b = Some r → w a b = Some r) ∧ when_live now (want_at h a b) = when_live now (w a b).

Lemma when_live_some now x r : when_live now x = Some r ↔ x = Some r ∧ live now r = true.
Proof.
  unfold when_live. destruct x as [r'|]; [|by split; [|intros [? _]]]. destruct (live now r') eqn:E; split; try done.
  - by intros [= ->].
  - by intros [[= ->] _].
  - intros [[= ->] Hl]. congruence.
Qed.

Lemma when_live_later now now' x y : now <= now' → when_live now x = when_live now y → when_live now' x = when_live now' y.
Proof.
  intros Hle H. assert (∀ x y r, when_live now x = when_live now y → when_live now' x = Some r → when_live now' y = Some r) as Hdir.
  { intros x' y' r Hxy [-> Hl]%when_live_some. apply when_live_some. split; [|done].
    assert (when_live now y' = Some r) as Hy; [|by apply when_live_some in Hy as [-> _]].
    rewrite <- Hxy. apply when_live_some. split; [done|by eapply live_earlier]. }
  apply option_eq. intros r. split; by apply Hdir.
Qed.

Lemma when_live_idem now x : when_live now (when_live now x) = when_live now x.
Proof. apply option_eq. intros r. rewrite !when_live_some. naive_solver. Qed.

Lemma agree_later now now' h w : now <= now' → agree now h w → agree now' h w.
Proof. intros Hle H a b. destruct (H a b). split; [done|by eapply when_live_later]. Qed.

Lemma hub_agrees l now : Limiter.newest_first now (omap want_time l) → agree now (hub l) (wants_of l).1 ∧ hWantSeq (hub l) = (wants_of l).2.
Proof.
  revert now. induction l as [|e l IH]; intros now Hn.
  { split; [|done]. intros a b. unfold want_at. cbn. by rewrite lookup_empty. }
  assert (omap want_time (e :: l) = omap want_time l → hWants (hub (e :: l)) = hWants (hub l) → hWantSeq (hub (e :: l)) = hWantSeq (hub l) →
    wants_of (e :: l) = wants_of l → agree now (hub (e :: l)) (wants_of (e :: l)).1 ∧ hWantSeq (hub (e :: l)) = (wants_of (e :: l)).2) as Hskip.
  { intros Ht Hw Hs ->. rewrite Ht in Hn. destruct (IH now Hn) as [Ha Hseq]. split; [|by rewrite Hs].
    intros a b. unfold want_at. rewrite Hw. apply Ha. }
  destruct e as [| | | | | | |p| |to from t|to from t]; try (by apply Hskip).
  - apply Hskip; try done; cbn; unfold Disconnected; by case_match.
  - destruct (IH now Hn) as [Ha Hs]. cbn [wants_of hub_of foldr hub_step]. fold (hub l). destruct (wants_of l) as [w n]. cbn in Ha, Hs. split; [|done].
    intros a b. rewrite Forget_at. cbn. case_bool_decide; [done|apply Ha].
  - cbn in Hn. apply Limiter.newest_first_cons in Hn as [Hle Hn]. destruct (IH t Hn) as [Ha Hs].
    cbn [wants_of hub_of foldr hub_step]. fold (hub l). destruct (wants_of l) as [w n]. cbn in Ha, Hs. rewrite Want_number.
    destruct (open_streams to (hub l)) eqn:Eo; [|split; [|done]; eapply agree_later; [exact Hle|]; intros a b; rewrite Want_at, Eo; apply Ha].
    rewrite Hs. destruct (Ha to from) as [_ Heq]. rewrite Heq. destruct (ask t n (when_live t (w to from))) as [r wk] eqn:Ek. split; [|done].
    eapply agree_later; [exact Hle|]. intros a b. rewrite Want_at, Eo, Hs, Heq, Ek. cbn [andb fst].
    destruct (decide (a = to)) as [->|Hne]; [|rewrite !bool_decide_false by naive_solver; apply Ha].
    rewrite (bool_decide_true (to = to)) by done. destruct (decide (b = from)) as [->|Hnb].
    { rewrite !bool_decide_true by done. done. }
    rewrite !bool_decide_false by naive_solver. destruct (Ha to b) as [H1 H2]. rewrite when_live_idem. split; [|done].
    intros r' [Hr _]%when_live_some. by apply H1.
  - cbn in Hn. apply Limiter.newest_first_cons in Hn as [Hle Hn]. destruct (IH t Hn) as [Ha Hs].
    cbn [wants_of hub_of foldr hub_step]. fold (hub l). rewrite WantSeq_number. split; [|done].
    eapply agree_later; [exact Hle|]. intros a b. rewrite WantSeq_at. destruct (Ha a b) as [H1 H2]. case_bool_decide; [|by split].
    rewrite when_live_idem. split; [|done]. intros r' [Hr _]%when_live_some. by apply H1.
Qed.

(** Numbers are given out in order. *)
Record numbered (l : list hub_event) : Prop := {
  nb_count : u64 (start `max` 0) <= (wants_of l).2 <= u64 (start `max` 0) + Z.of_nat (length l);
  nb_range : ∀ a b r, (wants_of l).1 a b = Some r → u64 (start `max` 0) < rqSeq r <= (wants_of l).2;
  nb_unique : ∀ a b a' b' r r', (wants_of l).1 a b = Some r → (wants_of l).1 a' b' = Some r' → rqSeq r = rqSeq r' → a = a' ∧ b = b';
}.

Lemma ask_number now n x :
  let '(r, w) := ask now n x in
  (w = true ∧ rqSeq r = u64 (n + 1)) ∨ (w = false ∧ ∃ y, x = Some y ∧ rqSeq r = rqSeq y ∧ Sub now (rqWoke y) < wantRepeat).
Proof.
  unfold ask. destruct x as [y|]; [|by left]. destruct (Z.leb_spec wantRepeat (Sub now (rqWoke y))); [by left|]. right. split; [done|]. by exists y.
Qed.

Lemma hub_numbered l : u64 (start `max` 0) + Z.of_nat (length l) < 2 ^ 64 → numbered l.
Proof.
  induction l as [|e l IH]; intros Hlen; [split; cbn; [lia|done|done]|].
  assert (numbered l) as [Hc Hr Hu] by (apply IH; cbn [length] in Hlen; lia).
  assert (wants_of (e :: l) = wants_of l → numbered (e :: l)) as Hskip by (intros He; split; rewrite He; cbn [length]; [lia|done|done]).
  destruct e as [| | | | | | |p| |to from t|]; try (by apply Hskip).
  - split; cbn [wants_of length]; destruct (wants_of l) as [w n]; cbn in *; [lia| |].
    + intros a b r. case_bool_decide; [done|]. apply Hr.
    + intros a b a' b' r r'. do 2 (case_bool_decide; [done|]). apply Hu.
  - assert (u64 ((wants_of l).2 + 1) = (wants_of l).2 + 1) as Hn.
    { unfold u64 in *. pose proof (Z.mod_pos_bound (start `max` 0) (2 ^ 64) ltac:(done)). apply Z.mod_small. cbn [length] in Hlen. lia. }
    cbn [wants_of] in Hskip. pose proof (ask_number t (wants_of l).2 (when_live t ((wants_of l).1 to from))) as Hk.
    split; cbn [wants_of length]; destruct (wants_of l) as [w n]; cbn [fst snd] in *;
      (destruct (open_streams to (hub l)); [|cbn; first [lia|apply Hr|apply Hu]]); destruct (ask t n (when_live t (w to from))) as [x wk]; cbn [fst snd].
    + destruct Hk as [[-> ->]|[-> _]]; lia.
    + intros a b r. case_bool_decide as Hab; [intros [= <-]|intros Hw; apply Hr in Hw; destruct Hk as [[-> ->]|[-> _]]; lia].
      destruct Hk as [[-> ->]|[-> (y & [Hy _]%when_live_some & -> & _)]]; [lia|]. by apply Hr in Hy.
    + intros a b a' b' r r'. case_bool_decide as H1; case_bool_decide as H2.
      * intros _ _ _. naive_solver.
      * intros [= <-] Hw He. destruct Hk as [[-> Hx]|[-> (y & [Hy _]%when_live_some & Hx & _)]]; [apply Hr in Hw; lia|].
        destruct H1 as [-> ->]. apply (Hu to from a' b' y r'); [done|done|lia].
      * intros Hw [= <-] He. destruct Hk as [[-> Hx]|[-> (y & [Hy _]%when_live_some & Hx & _)]]; [apply Hr in Hw; lia|].
        destruct H2 as [-> ->]. apply (Hu a b to from r y); [done|done|lia].
      * apply Hu.
Qed.
End Histories.

(** ** What the hub promises *)

(** No change is missed.  From the moment a stream subscribed or last
    received a wake-up: as long as its channel is empty and no wake-up is pending,
    the sequence has not moved.  The pending wake-up reaches every stream; a
    request to reach a peer that is connected wakes all of that peer's streams or
    repeats one that did so less than five seconds ago.  Every change raises the
    sequence, at least to the generation of the database, and nothing else moves
    it. *)
Theorem changes_reach_subscribers (o : HubOptions) (gen start : Z) (l1 l2 : list hub_event) (id : nat) (s : subscriber) :
  hSubs (hub_of o gen start l1) !! id = Some s → Forall (λ e, ¬ concerns id e) l2 →
  let h := hub_of o gen start (l2 ++ l1) in
  (∃ s', hSubs h !! id = Some s' ∧ suPeer s' = suPeer s ∧
    (suFull s' = true ∨ hPending h = true ∨ hSequence h = hSequence (hub_of o gen start l1)) ∧
    suFull (default s' (hSubs (flush h) !! id)) = true ∧
    ∀ to from now, open_streams to h = true → suPeer s = to →
      suFull (default s' (hSubs (Want to from now h) !! id)) = true ∨
      ∃ r, want_at h to from = Some r ∧ live now r = true ∧ Sub now (rqWoke r) < wantRepeat) ∧
  (∀ e, (∀ g, e ≠ HChanged g) → hSequence (hub_step o e h) = hSequence h) ∧
  (∀ g, - 2 ^ 63 <= hSequence h < 2 ^ 63 - 1 →
    hSequence h < hSequence (Changed g h) ∧ (∀ x, g = Some x → x <= hSequence (Changed g h)) ∧ hPending (Changed g h) = true).
Proof.
  intros Hs Hl h. destruct (no_lost_wakeup o gen start id l2 l1 _ s Hs eq_refl Hl) as (s' & Hs' & Hp & Hor). fold h in Hs', Hor.
  split_and!.
  - exists s'. split_and!; [done|done|done|cbn; by rewrite lookup_fmap, Hs'|]. intros to from now Ho Hto.
    unfold Want. rewrite Ho. cbn [negb]. rewrite live_requests_at. pose proof (ask_number now (hWantSeq h) (when_live now (want_at h to from))) as Hk.
    destruct (ask _ _ _) as [r w]. destruct Hk as [[-> _]|[-> (y & [Hy Hlive]%when_live_some & _ & Hrep)]]; [left|right; by exists y].
    cbn. rewrite lookup_fmap, Hs'. cbn. unfold wake_peer. by rewrite bool_decide_true by congruence.
  - intros e He. by apply step_sequence.
  - intros g Hr. destruct (changed_sequence g h Hr) as [? ?]. done.
Qed.

(** Presence survives a reconnection.  A peer with an open stream is online.  A
    peer stops being online only when it is forgotten, or by a sweep that finds
    all its streams closed for at least the grace period; and such a sweep leaves
    no such peer online.  When a stream opening or a sweep changes who is online,
    it is a change like any other; otherwise it changes nothing for the streams. *)
Theorem presence_graced (o : HubOptions) (gen start : Z) (l : list hub_event) (p : string) :
  let h := hub_of o gen start l in
  (open_streams p h = true → Online p h = true) ∧
  (∀ e, Online p h = true → Online p (hub_step o e h) = false →
    e = HForget p ∨ ∃ now x, e = HSwept now ∧ hPresence h !! p = Some x ∧ streams x = 0 ∧ OfflineAfter o <= Sub now (disconnectedAt x)) ∧
  (∀ now x, hPresence h !! p = Some x → Online p (mark_swept o now h).1 = true → 0 < streams x ∨ Sub now (disconnectedAt x) < OfflineAfter o) ∧
  (∀ g, (Online p h = true ∧ Connected p g h = (mark_connected p h).1 ∨
         Online p h = false ∧ Connected p g h = Changed g (mark_connected p h).1) ∧ Online p (Connected p g h) = true) ∧
  (∀ now g, (∀ q, Online q (Sweep o now g h) = Online q h) ∧ Sweep o now g h = (mark_swept o now h).1 ∨
    (∃ q, Online q h = true ∧ Online q (Sweep o now g h) = false) ∧ Sweep o now g h = Changed g (mark_swept o now h).1).
Proof.
  intros h. assert (presence_ok h) as [Hok] by apply hub_presence.
  assert (∀ h', hPresence h' = hPresence h → ∀ q, Online q h' = Online q h) as Hsame by (intros h' He q; unfold Online; by rewrite He).
  split_and!.
  - unfold open_streams, Online. destruct (hPresence h !! p) as [x|] eqn:E; [|done]. intros Hx%negb_true_iff%Z.eqb_neq.
    destruct (Hok _ _ E). auto with lia.
  - intros e Hon. destruct e; cbn; try (intros Hoff; exfalso; unfold Online in *; cbn in Hoff; congruence).
    + unfold Online in *. cbn. destruct (decide (peerID = p)) as [->|Hne]; [by rewrite lookup_insert_eq|by rewrite lookup_insert_ne, Hon].
    + unfold Disconnected. destruct (hPresence h !! peerID) as [x|] eqn:E; [|congruence]. unfold Online in *. cbn.
      destruct (decide (peerID = p)) as [->|Hne]; [rewrite lookup_insert_eq; rewrite E in Hon; cbn; congruence|by rewrite lookup_insert_ne, Hon].
    + unfold Online. cbn. destruct (decide (peerID = p)) as [->|Hne]; [by left|]. rewrite lookup_delete_ne by done.
      unfold Online in Hon. by rewrite Hon.
    + intros Hoff. right. change (Online p (mark_swept o now h).1 = false) in Hoff. rewrite sweep_online in Hoff. unfold Online in Hon.
      destruct (hPresence h !! p) as [x|] eqn:E; [|done]. rewrite Hon in Hoff. cbn in Hoff. apply negb_false_iff in Hoff.
      apply gone_iff in Hoff as (_ & ? & ?); [|by apply (Hok p)]. eauto 10.
    + rewrite Hsame; [congruence|]. unfold Want. repeat case_match; done.
    + rewrite Hsame; [congruence|]. unfold WantSeq. repeat case_match; done.
  - intros now x Hx. rewrite sweep_online, Hx. intros [Hon Hg]%andb_true_iff. destruct (Hok _ _ Hx) as [H0 H1].
    destruct (Z.eq_dec (streams x) 0) as [Hz|]; [|lia]. right. apply negb_true_iff, not_true_iff_false in Hg. rewrite gone_iff in Hg by done.
    apply Z.nle_gt. intros Hle. by apply Hg.
  - intros g. unfold Connected, Online. cbn. split.
    + destruct (hPresence h !! p) as [x|]; cbn; [destruct (online x); [by left|by right]|by right].
    + destruct (online _); cbn; by rewrite lookup_insert_eq.
  - intros now g. pose proof (sweep_flag o now h) as Hf. unfold Sweep. destruct (mark_swept o now h) as [h' c] eqn:Em. cbn [snd] in Hf.
    assert (h' = (mark_swept o now h).1) as Hh by (by rewrite Em). destruct c; [right|left].
    + split; [|done]. destruct (proj1 Hf eq_refl) as (q & x & Hq & Hg). exists q. pose proof (sweep_online o q now h) as Hs. rewrite <- Hh, Hq, Hg in Hs.
      split; [unfold Online; rewrite Hq; apply gone_iff in Hg as [? _]; [done|by eapply Hok]|]. change (Online q h' = false). rewrite Hs. by rewrite andb_false_r.
    + split; [|done]. intros q. rewrite Hh, sweep_online. unfold Online. destruct (hPresence h !! q) as [x|] eqn:E; [|done].
      destruct (gone o now x) eqn:Eg; [|by rewrite andb_true_r]. assert (false = true) by (apply Hf; by exists q, x). done.
Qed.

(** Who wants to reach whom is a function of the requests.  Whatever was
    pruned on the way, with a clock that never goes back: the number a peer is
    shown for a request is that of the latest request made while it had an open
    stream and neither side was forgotten since, for thirty seconds; recording a
    request leaves no expired one with that peer.  As long as the numbers fit 64
    bits, no two pairs have the same one, and asking again either gives a number
    larger than every one given out before, or repeats, within five seconds, the
    number of a request that still stands. *)
Theorem wants_refine_history (o : HubOptions) (gen start : Z) (l : list hub_event) (now : Z) (to from : string) :
  Limiter.newest_first now (omap want_time l) →
  let h := hub_of o gen start l in
  let w := (wants_of o gen start l).1 in
  let n := (wants_of o gen start l).2 in
  (WantSeq to from now h).2 = match w to from with Some r => if live now r then rqSeq r else 0 | None => 0 end ∧
  (∀ b r, open_streams to h = true → want_at (Want to from now h) to b = Some r → Sub now (rqAt r) < wantTTL) ∧
  (u64 (start `max` 0) + Z.of_nat (length l) < 2 ^ 64 - 1 →
    (∀ a b r, w a b = Some r → 0 < rqSeq r <= n) ∧
    (∀ a b a' b' r r', w a b = Some r → w a' b' = Some r' → rqSeq r = rqSeq r' → a = a' ∧ b = b') ∧
    (open_streams to h = true → ∃ r', (wants_of o gen start (HWant to from now :: l)).1 to from = Some r' ∧ rqAt r' = now ∧
      (n < rqSeq r' ∨ ∃ r, w to from = Some r ∧ live now r = true ∧ Sub now (rqWoke r) < wantRepeat ∧ rqSeq r' = rqSeq r))).
Proof.
  intros Hn h w n. destruct (hub_agrees o gen start l now Hn) as [Ha Hs]. fold h w n in Ha, Hs. split_and!.
  - rewrite WantSeq_answer. destruct (Ha to from) as [_ ->]. unfold when_live. destruct (w to from) as [r|]; [|done]. by destruct (live now r).
  - intros b r Ho. rewrite Want_at, Ho, (bool_decide_true (to = to)) by done. cbn [andb]. case_bool_decide.
    + intros [= <-]. cbn. unfold Sub, minDuration, maxDuration, wantTTL, second. lia.
    + intros [_ Hl]%when_live_some. unfold live in Hl. lia.
  - intros Hlen. destruct (hub_numbered o gen start l ltac:(lia)) as [Hc Hr Hu]. fold w n in Hc, Hr, Hu.
    assert (0 <= u64 (start `max` 0)) as Hpos by (unfold u64; apply Z.mod_pos_bound; done). split_and!.
    + intros a b r Hab. apply Hr in Hab. lia.
    + exact Hu.
    + intros Ho. cbn [wants_of]. destruct (wants_of o gen start l) as [w0 n0]. cbn [fst snd] in w, n. subst w n. fold h. rewrite Ho.
      pose proof (ask_number now n0 (when_live now (w0 to from))) as Hk. destruct (ask now n0 _) as [r' wk] eqn:Ek. exists r'. cbn [fst].
      rewrite bool_decide_true by done. split_and!; [done|by unfold ask in Ek; injection Ek as <- _|].
      destruct Hk as [[_ ->]|[_ (y & [Hy Hlive]%when_live_some & Hseq & Hrep)]]; [left|right; eauto].
      unfold u64. rewrite Z.mod_small; [lia|]. unfold u64 in Hc, Hpos, Hlen. lia.
Qed.

(** ** Two peers *)

Definition demo_options : HubOptions := withDefaults {| Coalesce := 0; OfflineAfter := 0; KeepaliveInterval := 0 |}.
Definition demo_hub_events : list hub_event :=
  [HWant "b" "a" (7 * second); HWant "b" "a" (3 * second); HWant "b" "a" second; HSubscribe 0 "b"; HConnected "b"].

Lemma changes_reach_subscribers_witness :
  let h := hub_of demo_options 4 0 ([HFlush; HChanged (Some 9)] ++ [HSubscribe 0 "b"]) in
  hSequence h = 9 ∧ ∃ s, hSubs h !! 0%nat = Some s ∧ (suFull s = true ∨ hPending h = true ∨ hSequence h = 4).
Proof.
  intros h. split; [reflexivity|].
  destruct (changes_reach_subscribers demo_options 4 0 [HSubscribe 0 "b"] [HFlush; HChanged (Some 9)] 0 {| suPeer := "b"; suFull := false |})
    as [(s & Hs & _ & Hor & _) _].
  - reflexivity.
  - repeat constructor; intros [].
  - by exists s.
Defined.

Lemma wants_refine_history_witness :
  (WantSeq "b" "a" (8 * second) (hub_of demo_options 4 100 demo_hub_events)).2 = 102 ∧
  (WantSeq "b" "a" (40 * second) (hub_of demo_options 4 100 demo_hub_events)).2 = 0.
Proof.
  assert (∀ k, 7 <= k → Limiter.newest_first (k * second) (omap want_time demo_hub_events)) as Hn.
  { intros k Hk. repeat constructor; unfold second; lia. }
  split.
  - destruct (wants_refine_history demo_options 4 100 demo_hub_events (8 * second) "b" "a") as [H _]; [apply Hn; lia|].
    etransitivity; [exact H|]. vm_compute. reflexivity.
  - destruct (wants_refine_history demo_options 4 100 demo_hub_events (40 * second) "b" "a") as [H _]; [apply Hn; lia|].
    etransitivity; [exact H|]. vm_compute. reflexivity.
Defined.
