(* ===== verification/LockRecord.v ===== *)
(** Lock records: [internal/lock/record.go] and the key tests of
    [internal/lock/key.go].

    Ed25519 ([Verify]) is a parameter: nothing is assumed of it. *)

From S2P Require Import Prelude GoStrings Base64 Sha256.

(** [PublicKey] (32 bytes) and [Signature] (64). *)
Abbreviation PublicKey := (list byte).
Abbreviation Signature := (list byte).

Definition KeySize : nat := 32.
Definition IsZero (k : PublicKey) : bool := bool_decide (k = replicate KeySize Byte.x00).
Definition Fingerprint (k : PublicKey) : string := hex (take 4 (sha256 k)).

Definition SignatureSize : nat := 64.

(** [decode]: base64 of exactly that many bytes. *)
Definition decode (s : string) (want : nat) : option (list byte) :=
  raw ← std_decode s; if bool_decide (length raw = want) then Some raw else None.

Definition KeyText (k : PublicKey) : string := std_base64 k.
Definition ParsePublicKey (s : string) : option PublicKey := decode s KeySize.
Definition SignatureText (s : Signature) : string := std_base64 s.
Definition ParseSignature (s : string) : option Signature := decode s SignatureSize.

Lemma decode_encode l n : length l = n → decode (std_base64 l) n = Some l.
Proof. intros Hl. unfold decode. rewrite std_decode_encode. cbn [mbind option_bind]. by rewrite bool_decide_eq_true_2. Qed.

Lemma ParsePublicKey_text k : length k = KeySize → ParsePublicKey (KeyText k) = Some k.
Proof. apply decode_encode. Qed.

Lemma ParseSignature_text k : length k = SignatureSize → ParseSignature (SignatureText k) = Some k.
Proof. apply decode_encode. Qed.

Definition peerPrefix : list byte := string_bytes "thawr/peer/v1" ++ [Byte.x0a].
Definition lockPrefix : list byte := string_bytes "thawr/lock/v1" ++ [Byte.x0a].

Inductive lock_error := ErrStale | ErrNotSigned | ErrInvalid.

Definition maxField : Z := 65535.

Definition writeField (f : list byte) : result lock_error (list byte) :=
  if maxField <? Z.of_nat (length f) then Err ErrInvalid
  else Ok (be_enc 2 (u16 (Z.of_nat (length f))) ++ f).

(** Fields written one after the other, up to the first error. *)
Fixpoint writeFields (fs : list (list byte)) : result lock_error (list byte) :=
  match fs with
  | [] => Ok []
  | f :: fs' => b ← writeField f; c ← writeFields fs'; Ok (b ++ c)
  end.

Record PeerRecord := { rID : string; rName : string; rKey : list byte }.

Definition peerBytes (r : PeerRecord) : result lock_error (list byte) :=
  if bool_decide (rID r = "") || bool_decide (rName r = "") then Err ErrInvalid
  else b ← writeFields [string_bytes (rID r); string_bytes (rName r); rKey r]; Ok (peerPrefix ++ b).

Record Signer := { sKey : PublicKey; sPeerID : string }.

#[export] Instance signer_eq_dec : EqDecision Signer.
Proof. solve_decision. Defined.

Definition MaxSigners : nat := 32.

(** [Record] in the code; [Generation] is a uint64. *)
Record LockRecord := { Generation : Z; Disabled : bool; Signers : list Signer }.

(** The loop of [validate]; the two lists are the maps of what was seen. *)
Fixpoint check_signers (seen : list PublicKey) (seenPeer : list string) (l : list Signer) : bool :=
  match l with
  | [] => true
  | s :: l' =>
      if IsZero (sKey s) || bool_decide (sPeerID s = "") then false
      else if bool_decide (sKey s ∈ seen) then false
      else if bool_decide (sPeerID s ∈ seenPeer) then false
      else check_signers (sKey s :: seen) (sPeerID s :: seenPeer) l'
  end.

(** A nil error is [true]; the error is always [ErrInvalid]. *)
Definition validate (r : LockRecord) : bool :=
  if (MaxSigners <? length (Signers r))%nat then false
  else if negb (Disabled r) && bool_decide (Signers r = []) then false
  else check_signers [] [] (Signers r).

(** [bytes.Compare(a, b) < 0]. *)
Definition key_less (a b : Signer) : bool :=
  str_ltb (String.string_of_list_byte (sKey a)) (String.string_of_list_byte (sKey b)).

(** The keys of a valid record are distinct, so [sort.Slice] leaves one order. *)
Definition sorted (r : LockRecord) : list Signer := stable_sort key_less (Signers r).

Definition signer_fields (s : Signer) : list (list byte) := [sKey s; string_bytes (sPeerID s)].

Definition recordBytes (r : LockRecord) : result lock_error (list byte) :=
  if validate r then
    let signers := sorted r in
    b ← writeFields (concat (signer_fields <$> signers));
    Ok (lockPrefix ++ be_enc 8 (Generation r) ++ [if Disabled r then Byte.x01 else Byte.x00]
        ++ be_enc 2 (u16 (Z.of_nat (length signers))) ++ b)
  else Err ErrInvalid.

Definition Has (r : LockRecord) (k : PublicKey) : bool := existsb (λ s, bool_decide (sKey s = k)) (Signers r).

Definition SignerKey (r : LockRecord) (peerID : string) : option PublicKey :=
  match list_find (λ s, sPeerID s = peerID) (Signers r) with Some (_, s) => Some (sKey s) | None => None end.

Definition Enabled (r : LockRecord) : bool := negb (Disabled r) && bool_decide (Signers r ≠ []).

Record Signed := { record : LockRecord; signature : Signature }.

Section Accept.
Context (Verify : PublicKey → list byte → Signature → bool).

Definition signedByAny (set : LockRecord) (msg : list byte) (sig : Signature) : bool :=
  existsb (λ s, Verify (sKey s) msg sig) (Signers set).

Definition Accept (current : option LockRecord) (next : Signed) : result lock_error unit :=
  msg ← recordBytes (record next);
  let current := match current with
                 | Some c => if bool_decide (Signers c = []) then None else Some c
                 | None => None
                 end in
  match current with
  | None => if signedByAny (record next) msg (signature next) then Ok () else Err ErrNotSigned
  | Some c =>
      if Generation (record next) <=? Generation c then Err ErrStale
      else if signedByAny c msg (signature next) then Ok () else Err ErrNotSigned
  end.

(** A holder of a record replaces it with each offer [Accept] takes. *)
Definition offer (current : option LockRecord) (next : Signed) : option LockRecord :=
  match Accept current next with Ok _ => Some (record next) | Err _ => current end.

Definition offers (current : option LockRecord) (l : list Signed) : option LockRecord := foldl offer current l.
End Accept.

Example fields_demo :
  writeFields [[Byte.x61]; []] = Ok [Byte.x00; Byte.x01; Byte.x61; Byte.x00; Byte.x00].
Proof. reflexivity. Qed.

(** ** Canonical bytes *)

Arguments be_enc : simpl never.

Lemma writeField_ok f b : writeField f = Ok b ↔ Z.of_nat (length f) <= maxField ∧ b = be_enc 2 (Z.of_nat (length f)) ++ f.
Proof.
  unfold writeField, maxField, u16. destruct (Z.ltb_spec 65535 (Z.of_nat (length f))).
  - split; [done|]. lia.
  - rewrite Z.mod_small by lia. naive_solver.
Qed.

Lemma writeField_inj f g b c x y :
  writeField f = Ok b → writeField g = Ok c → b ++ x = c ++ y → f = g ∧ x = y.
Proof.
  intros [Hf ->]%writeField_ok [Hg ->]%writeField_ok H. unfold maxField in *.
  rewrite <- !app_assoc in H. apply app_inj_1 in H as [Hl H]; [|by rewrite !length_be_enc].
  apply be_enc_inj in Hl; [|lia|lia]. apply app_inj_1 in H as [-> ->]; [done|lia].
Qed.

Lemma writeFields_cons_ok f fs b :
  writeFields (f :: fs) = Ok b ↔ ∃ c d, writeField f = Ok c ∧ writeFields fs = Ok d ∧ b = c ++ d.
Proof.
  cbn [writeFields]. split.
  - destruct (writeField f) as [c|e]; simpl; [|done]. destruct (writeFields fs) as [d|e]; simpl; [|done]. intros [= <-]. eauto.
  - intros (c & d & -> & Hd & ->). simpl. by rewrite Hd.
Qed.

Lemma writeFields_ok fs : (∃ b, writeFields fs = Ok b) ↔ Forall (λ f, Z.of_nat (length f) <= maxField) fs.
Proof.
  induction fs as [|f fs IH]; [split; [constructor|by eexists]|]. rewrite Forall_cons, <- IH. split.
  - intros [b (c & d & [H1 _]%writeField_ok & H2 & _)%writeFields_cons_ok]. eauto.
  - intros [H1 [d H2]]. eexists. apply writeFields_cons_ok. do 2 eexists. split; [by apply writeField_ok|done].
Qed.

Lemma writeFields_inj fs : ∀ gs b c x y,
  writeFields fs = Ok b → writeFields gs = Ok c → length fs = length gs → b ++ x = c ++ y → fs = gs ∧ x = y.
Proof.
  induction fs as [|f fs IH]; intros [|g gs] b c x y Hf Hg Hl H; try done.
  - simpl in *. by simplify_eq.
  - apply writeFields_cons_ok in Hf as (b1 & b2 & Hf & Hfs & ->).
    apply writeFields_cons_ok in Hg as (c1 & c2 & Hg & Hgs & ->).
    rewrite <- !app_assoc in H. destruct (writeField_inj _ _ _ _ _ _ Hf Hg H) as [-> H'].
    destruct (IH gs _ _ _ _ Hfs Hgs ltac:(simpl in Hl; lia) H') as [-> ->]. done.
Qed.

Lemma signer_fields_inj l : ∀ l', length l = length l' →
  concat (signer_fields <$> l) = concat (signer_fields <$> l') → l = l'.
Proof.
  induction l as [|[k i] l IH]; intros [|[k' i'] l'] Hl H; try done. simpl in *. unfold signer_fields in *. simpl in H.
  injection H as -> Hi H. apply string_bytes_inj in Hi as ->. f_equal. apply IH; [lia|done].
Qed.

Lemma length_signer_fields l : length (concat (signer_fields <$> l)) = (2 * length l)%nat.
Proof. induction l as [|s l IH]; [done|]. rewrite fmap_cons. cbn [concat]. rewrite length_app, IH. simpl. lia. Qed.

(** ** Valid records *)

(** What a record must satisfy to have bytes. *)
Record record_valid (r : LockRecord) : Prop := {
  valid_count : (length (Signers r) <= MaxSigners)%nat;
  valid_enabled : Disabled r = false → Signers r ≠ [];
  valid_set : Forall (λ s, IsZero (sKey s) = false ∧ sPeerID s ≠ "") (Signers r);
  valid_keys : NoDup (sKey <$> Signers r);
  valid_peers : NoDup (sPeerID <$> Signers r);
}.

Lemma check_signers_ok l : ∀ seen seenPeer,
  check_signers seen seenPeer l = true ↔
  Forall (λ s, IsZero (sKey s) = false ∧ sPeerID s ≠ "") l ∧
  NoDup (sKey <$> l) ∧ NoDup (sPeerID <$> l) ∧
  (∀ s, s ∈ l → sKey s ∉ seen ∧ sPeerID s ∉ seenPeer).
Proof.
  induction l as [|s l IH]; intros seen seenPeer.
  { simpl. split; [|done]. intros _. split_and!; try constructor; by apply elem_of_nil in H. }
  cbn [check_signers]. rewrite Forall_cons, !fmap_cons, !NoDup_cons.
  destruct (IsZero (sKey s)) eqn:Ez; [naive_solver|]. case_bool_decide as H1; simpl; [naive_solver|].
  case_bool_decide as H2; [split; [done|]; intros (_ & _ & _ & H); by destruct (H s ltac:(left))|].
  case_bool_decide as H3; [split; [done|]; intros (_ & _ & _ & H); by destruct (H s ltac:(left))|].
  rewrite IH. split.
  - intros (Hv & Hk & Hp & Hs). split_and!; try done.
    + intros (x & Hx & Hin)%list_elem_of_fmap. destruct (Hs x Hin) as [Hn _]. apply Hn. rewrite Hx. left.
    + intros (x & Hx & Hin)%list_elem_of_fmap. destruct (Hs x Hin) as [_ Hn]. apply Hn. rewrite Hx. left.
    + intros x [->|Hin]%elem_of_cons; [done|]. destruct (Hs x Hin) as [Ha Hb].
      rewrite not_elem_of_cons in Ha. rewrite not_elem_of_cons in Hb. naive_solver.
  - intros ([_ Hv] & [Hk1 Hk] & [Hp1 Hp] & Hs). split_and!; try done. intros x Hin.
    destruct (Hs x ltac:(by right)) as [Ha Hb]. rewrite !not_elem_of_cons. split_and!; try done.
    + intros Heq. apply Hk1. rewrite <- Heq. by apply list_elem_of_fmap_2.
    + intros Heq. apply Hp1. rewrite <- Heq. by apply list_elem_of_fmap_2.
Qed.

Lemma validate_ok r : validate r = true ↔ record_valid r.
Proof.
  unfold validate. destruct (Nat.ltb_spec MaxSigners (length (Signers r))); [split; [done|]; intros []; lia|].
  destruct (negb (Disabled r) && bool_decide (Signers r = [])) eqn:E.
  { split; [done|]. intros [_ H1 _ _ _]. go_bool. by destruct H1. }
  rewrite check_signers_ok. split.
  - intros (H1 & H2 & H3 & _). split; try done. intros Hd. rewrite Hd in E. simpl in E. by apply bool_decide_eq_false in E.
  - intros []. split_and!; try done. intros s _. split; apply not_elem_of_nil.
Qed.

Lemma recordBytes_ok r b :
  recordBytes r = Ok b ↔ record_valid r ∧
  ∃ c, writeFields (concat (signer_fields <$> sorted r)) = Ok c ∧
    b = lockPrefix ++ be_enc 8 (Generation r) ++ [if Disabled r then Byte.x01 else Byte.x00]
        ++ be_enc 2 (Z.of_nat (length (sorted r))) ++ c.
Proof.
  unfold recordBytes. rewrite <- validate_ok. destruct (validate r) eqn:E; [|split; [done|by intros [? _]]].
  assert (u16 (Z.of_nat (length (sorted r))) = Z.of_nat (length (sorted r))) as ->.
  { apply validate_ok in E as [Hc _ _ _ _]. unfold sorted. rewrite (Permutation_length (stable_sort_perm _ _)).
    unfold u16, MaxSigners in *. apply Z.mod_small. lia. }
  destruct (writeFields (concat (signer_fields <$> sorted r))) as [c|e]; simpl.
  - split; [intros [= <-]; eauto|]. by intros (_ & ? & [= <-] & ->).
  - split; [done|]. by intros (_ & ? & ? & _).
Qed.

Lemma key_less_antisym s s' :
  nless key_less s s' → nless key_less s' s → sKey s = sKey s'.
Proof.
  unfold nless, key_less. rewrite !str_nless_le. intros H1 H2.
  assert (String.string_of_list_byte (sKey s) = String.string_of_list_byte (sKey s')) as H by (by apply (anti_symm String.le)).
  rewrite <- (String.list_byte_of_string_of_list_byte (sKey s)), H. apply String.list_byte_of_string_of_list_byte.
Qed.

#[export] Instance key_less_strict : StrictWeak key_less.
Proof. split; unfold key_less; intros; [by apply less_asym|by eapply nless_trans]. Qed.

(** Sorting forgets the order the signers arrived in. *)
Lemma sorted_perm r r' : NoDup (sKey <$> Signers r) → Signers r' ≡ₚ Signers r → sorted r' = sorted r.
Proof.
  intros Hnd Hp. unfold sorted. apply (StronglySorted_unique_strong (nless key_less)).
  - intros s s'. rewrite !elem_of_stable_sort, Hp. intros H1 H2 Ha Hb.
    eapply (key_unique sKey); [exact Hnd|done|done|by apply key_less_antisym].
  - apply stable_sort_sorted, _.
  - apply stable_sort_sorted, _.
  - by rewrite !stable_sort_perm.
Qed.

Lemma record_valid_perm r r' :
  Disabled r' = Disabled r → Signers r' ≡ₚ Signers r → record_valid r → record_valid r'.
Proof.
  intros Hd Hp []. split.
  - by rewrite Hp.
  - rewrite Hd. intros H Hnil. rewrite Hnil in Hp. apply Permutation_nil_l in Hp. symmetry in Hp. by apply valid_enabled0.
  - by rewrite Hp.
  - by rewrite Hp.
  - by rewrite Hp.
Qed.

Lemma peerBytes_ok r b :
  peerBytes r = Ok b ↔ rID r ≠ "" ∧ rName r ≠ "" ∧
  ∃ c, writeFields [string_bytes (rID r); string_bytes (rName r); rKey r] = Ok c ∧ b = peerPrefix ++ c.
Proof.
  unfold peerBytes. destruct (bool_decide (rID r = "") || bool_decide (rName r = "")) eqn:E.
  - split; [done|]. intros (? & ? & _). go_bool. by destruct E; go_bool.
  - go_bool. rewrite result_bind_ok. split.
    + intros (c & Hc & [= <-]). eauto.
    + intros (_ & _ & c & Hc & ->). eauto.
Qed.

Definition gen_ok (r : LockRecord) : Prop := 0 <= Generation r < 2 ^ 64.

(** The bytes that are signed stand for one record.  Peer records with
    the same bytes are the same; lock records with the same bytes agree in
    generation, in being disabled and in their signers up to order, and such
    records have the same bytes; no peer record's bytes are a lock record's.
    The records that have bytes are the valid ones whose fields fit 16-bit
    lengths. *)
Theorem canonical_bytes :
  (∀ r r' b, peerBytes r = Ok b → peerBytes r' = Ok b → r = r') ∧
  (∀ r r' b, gen_ok r → gen_ok r' → recordBytes r = Ok b →
     (recordBytes r' = Ok b ↔ Generation r' = Generation r ∧ Disabled r' = Disabled r ∧ Signers r' ≡ₚ Signers r)) ∧
  (∀ r r' b, peerBytes r = Ok b → recordBytes r' ≠ Ok b) ∧
  (∀ r, (∃ b, recordBytes r = Ok b) ↔
     record_valid r ∧ ∀ s, s ∈ Signers r → Z.of_nat (length (sKey s)) <= maxField ∧
                                         Z.of_nat (length (string_bytes (sPeerID s))) <= maxField).
Proof.
  split_and!.
  - intros [i n k] [i' n' k'] b (_ & _ & c & Hc & ->)%peerBytes_ok (_ & _ & c' & Hc' & H)%peerBytes_ok.
    apply app_inj_1 in H as [_ <-]; [|done]. cbn [rID rName rKey] in *.
    destruct (writeFields_inj _ _ _ _ [] [] Hc Hc' eq_refl eq_refl) as [H _].
    injection H as H1 H2 H3. apply string_bytes_inj in H1, H2. by subst.
  - intros r r' b Hg Hg' (Hv & c & Hc & Hb)%recordBytes_ok. rewrite recordBytes_ok. split.
    + intros (Hv' & c' & Hc' & Hb'). rewrite Hb in Hb'. apply app_inj_1 in Hb' as [_ Hb']; [|done].
      apply app_inj_1 in Hb' as [HG Hb']; [|by rewrite !length_be_enc]. apply be_enc_inj in HG; [|done|done].
      apply app_inj_1 in Hb' as [HD Hb']; [|done]. apply app_inj_1 in Hb' as [HL Hb']; [|by rewrite !length_be_enc].
      assert (∀ x, record_valid x → Z.of_nat (length (sorted x)) < 65536) as Hlen.
      { intros x [Hx _ _ _ _]. unfold sorted. rewrite (Permutation_length (stable_sort_perm _ _)). unfold MaxSigners in Hx. lia. }
      apply be_enc_inj in HL; [|split; [lia|by apply Hlen]..]. apply Nat2Z.inj in HL. subst c'.
      destruct (writeFields_inj _ _ _ _ [] [] Hc Hc') as [HS _]; [by rewrite !length_signer_fields, HL|done|].
      apply signer_fields_inj in HS; [|done]. split_and!; [done|by destruct (Disabled r), (Disabled r')|].
      unfold sorted in HS. by rewrite <- (stable_sort_perm key_less (Signers r)), HS, stable_sort_perm.
    + intros (HG & HD & HP). split; [by eapply record_valid_perm|].
      rewrite (sorted_perm r r'), HG, HD by (done || by destruct Hv). eauto.
  - intros r r' b (_ & _ & c & _ & ->)%peerBytes_ok (_ & c' & _ & H)%recordBytes_ok.
    assert (take 7 peerPrefix = take 7 lockPrefix) as Hp; [|vm_compute in Hp; done].
    apply (f_equal (take 7)) in H. by rewrite !take_app_le in H by (vm_compute; lia).
  - intros r. split.
    + intros [b (Hv & c & Hc & _)%recordBytes_ok]. split; [done|]. intros s Hs.
      assert (Forall (λ f, Z.of_nat (length f) <= maxField) (concat (signer_fields <$> sorted r))) as Hf by (apply writeFields_ok; eauto).
      rewrite Forall_forall in Hf. split; apply Hf, elem_of_concat_fmap; exists s;
        (split; [by apply elem_of_stable_sort|unfold signer_fields; rewrite !elem_of_cons; auto]).
    + intros [Hv Hs]. assert (∃ c, writeFields (concat (signer_fields <$> sorted r)) = Ok c) as [c Hc].
      { apply writeFields_ok, Forall_forall. intros f (s & Hin & Hf)%elem_of_concat_fmap.
        unfold sorted in Hin. apply elem_of_stable_sort, Hs in Hin as [H1 H2].
        unfold signer_fields in Hf. rewrite !elem_of_cons, elem_of_nil in Hf. by destruct Hf as [->|[->|[]]]. }
      eexists. apply recordBytes_ok. eauto.
Qed.

(** ** Accepting records *)

Section AcceptSpec.
Context (Verify : PublicKey → list byte → Signature → bool).

(** A key of [set] signed the bytes of the record. *)
Definition signed_by (set : LockRecord) (n : Signed) : Prop :=
  ∃ s b, s ∈ Signers set ∧ recordBytes (record n) = Ok b ∧ Verify (sKey s) b (signature n) = true.

Lemma signedByAny_spec set n b :
  recordBytes (record n) = Ok b → signedByAny Verify set b (signature n) = true ↔ signed_by set n.
Proof.
  intros Hb. unfold signedByAny, signed_by. rewrite existsb_exists. setoid_rewrite <- list_elem_of_In. split.
  - intros (s & Hs & Hv). by exists s, b.
  - intros (s & b' & Hs & Hb' & Hv). exists s. split; [done|]. congruence.
Qed.

(** The record in force: one without signers has ended its lineage. *)
Definition in_force (c : option LockRecord) : option LockRecord :=
  match c with Some r => if bool_decide (Signers r = []) then None else Some r | None => None end.

Lemma Accept_ok c n :
  Accept Verify c n = Ok () ↔
  (∃ b, recordBytes (record n) = Ok b) ∧
  match in_force c with
  | None => signed_by (record n) n
  | Some r => Generation r < Generation (record n) ∧ signed_by r n
  end.
Proof.
  unfold Accept. fold (in_force c). destruct (recordBytes (record n)) as [b|e] eqn:Hb; simpl.
  2:{ split; [done|]. by intros [[? ?] _]. }
  destruct (in_force c) as [r|].
  - destruct (Z.leb_spec (Generation (record n)) (Generation r)).
    + split; [done|]. intros (_ & ? & _). lia.
    + rewrite <- (signedByAny_spec r n b Hb). destruct (signedByAny Verify r b (signature n)); naive_solver.
  - rewrite <- (signedByAny_spec (record n) n b Hb). destruct (signedByAny Verify (record n) b (signature n)); naive_solver.
Qed.

Lemma offer_ok c n : Accept Verify c n = Ok () → offer Verify c n = Some (record n).
Proof. unfold offer. by intros ->. Qed.

Lemma offer_err c n : Accept Verify c n ≠ Ok () → offer Verify c n = c.
Proof. unfold offer. by destruct (Accept Verify c n) as [[]|]. Qed.

(** Records in the order they came into force, each signed by the one before. *)
Inductive lineage : LockRecord → LockRecord → Prop :=
  | lineage_here r : lineage r r
  | lineage_next r r' n : lineage r r' → Signers r' ≠ [] → Generation r' < Generation (record n) →
      signed_by r' n → lineage r (record n).

Lemma lineage_generation r r' : lineage r r' → r = r' ∨ Generation r < Generation r'.
Proof. induction 1 as [|r r' n _ [->|] _ Hg _]; [by left|right; lia|right; lia]. Qed.

Lemma lineage_trans r r' r'' : lineage r r' → lineage r' r'' → lineage r r''.
Proof. intros H H'. induction H' as [|r' r'' n _ IH]; [done|]. by eapply lineage_next; [apply IH|..]. Qed.
End AcceptSpec.

(** A held record moves only forward and only by its own keys.  From a
    record that has signers, whatever is offered and in whatever order, the
    record held in the end either continues its lineage (each step signed by a
    key of the record before it and of a higher generation), or a record
    without signers was accepted on the way.  If no offer carries a signature
    of a current key, or none a higher generation, nothing changes; without a
    record, only one signed by its own keys is taken. *)
Theorem Accept_forward (Verify : PublicKey → list byte → Signature → bool) :
  (∀ r l, Signers r ≠ [] →
     (∃ r', offers Verify (Some r) l = Some r' ∧ lineage Verify r r') ∨
     (∃ l1 l2 e, l = l1 ++ l2 ∧ offers Verify (Some r) l1 = Some e ∧ lineage Verify r e ∧ Signers e = [])) ∧
  (∀ r l, Signers r ≠ [] →
     Forall (λ n, Generation (record n) <= Generation r ∨ ¬ signed_by Verify r n) l →
     offers Verify (Some r) l = Some r) ∧
  (∀ n, offer Verify None n = Some (record n) ↔
     (∃ b, recordBytes (record n) = Ok b) ∧ signed_by Verify (record n) n).
Proof.
  split_and!.
  - intros r l Hr. induction l as [|n l IH] using rev_ind.
    { left. exists r. split; [done|constructor]. }
    destruct IH as [(r' & Ho & Hl)|(l1 & l2 & e & -> & ? & ? & ?)].
    2:{ right. exists l1, (l2 ++ [n]), e. by rewrite app_assoc. }
    destruct (decide (Signers r' = [])) as [He|Hne]; [right; by exists l, [n], r'|]. left.
    unfold offers in *. rewrite foldl_app, Ho. simpl.
    destruct (Accept Verify (Some r') n) as [[]|e] eqn:Ha.
    + rewrite (offer_ok _ _ _ Ha). exists (record n). split; [done|].
      apply Accept_ok in Ha as [_ Ha]. simpl in Ha. rewrite bool_decide_false in Ha by done.
      by apply (lineage_next _ r r' n); [|done|apply Ha..].
    + exists r'. split; [|done]. apply offer_err. by rewrite Ha.
  - intros r l Hr. induction 1 as [|n l Hn _ IH]; [done|]. unfold offers in *. simpl.
    rewrite offer_err; [done|]. intros [_ Ha]%Accept_ok. simpl in Ha. rewrite bool_decide_false in Ha by done.
    destruct Ha as [Hg Hs], Hn; [lia|done].
  - intros n. split.
    + intros H. destruct (Accept Verify None n) as [[]|e] eqn:Ha; [by apply Accept_ok in Ha|].
      rewrite offer_err in H; [done|]. by rewrite Ha.
    + intros H. by apply offer_ok, Accept_ok.
Qed.
