(* ===== verification/Backup.v ===== *)
(** The archive of a server: [internal/backup/backup.go].

    tar, gzip and JSON are parameters: the entries as a reader of the archive
    yields them, and the text of the manifest.  A file is read twice while an
    archive is written, and may have changed in between; what the disk answers
    while one is unpacked is an input. *)

From Stdlib Require Import Strings.Ascii.
From S2P Require Import Prelude GoStrings Sha256.

(** ** Paths *)

Abbreviation slash := "/"%char (only parsing).

(** [strings.Join] with a one-byte separator. *)
Fixpoint join (sep : ascii) (l : list bytes) : bytes := match l with [] => [] | [w] => w | w :: l => w ++ sep :: join sep l end.

(** The loop of [path.Clean]: the parts kept so far, the last one first. *)
Fixpoint clean_parts (rooted : bool) (kept : list bytes) (l : list bytes) : list bytes :=
  match l with
  | [] => kept
  | c :: l =>
      if bool_decide (c = []) || bool_decide (c = chars ".") then clean_parts rooted kept l
      else if bool_decide (c = chars "..") then
        match kept with
        | top :: kept' => if bool_decide (top = chars "..") then clean_parts rooted (c :: kept) l else clean_parts rooted kept' l
        | [] => if rooted then clean_parts rooted [] l else clean_parts rooted [c] l
        end
      else clean_parts rooted (c :: kept) l
  end.

Definition is_abs (p : bytes) : bool := bool_decide (head p = Some slash).

(** [path.Clean]. *)
Definition Clean (p : bytes) : bytes :=
  let rooted := is_abs p in
  let r := join slash (reverse (clean_parts rooted [] (split slash p))) in
  if rooted then slash :: r else if bool_decide (r = []) then chars "." else r.

Definition ManifestName : string := "manifest.json".

(** [checkPath]; [volume] is [filepath.VolumeName], empty except on Windows. *)
Definition checkPath (volume : string → string) (p : string) : bool :=
  let l := chars p in
  negb (bool_decide (p = "") || bool_decide (p = ManifestName) || bool_decide ("\"%char ∈ l) || is_abs l || bool_decide (Clean l ≠ l) || bool_decide (p = ".") ||
        bool_decide (is_Some (cut_prefix (chars "../") l)) || bool_decide (p = "..") || bool_decide (volume p ≠ "")) &&
  forallb (λ part, negb (bool_decide (part = chars ".."))) (split slash l).

(** A path that stays inside the directory it is joined to. *)
Definition part_ok (c : bytes) : Prop := c ≠ [] ∧ c ≠ chars "." ∧ c ≠ chars ".." ∧ slash ∉ c ∧ "\"%char ∉ c.
Definition inside (p : string) : Prop := ∃ cs, cs ≠ [] ∧ Forall part_ok cs ∧ chars p = join slash cs.

Lemma split_join sep l : l ≠ [] → Forall (λ w : bytes, sep ∉ w) l → split sep (join sep l) = l.
Proof.
  induction l as [|w l IH]; [done|]. intros _ [Hw Hl]%Forall_cons. destruct l as [|v l]; [by apply split_none|].
  change (join sep (w :: v :: l)) with (w ++ sep :: join sep (v :: l)). by rewrite split_app, IH.
Qed.

Lemma join_split sep l : join sep (split sep l) = l ∧ split sep l ≠ [] ∧ Forall (λ w : bytes, sep ∉ w) (split sep l).
Proof.
  induction l as [|c l (Hj & Hn & Hs)]; cbn [split]; [split_and!; [done|done|repeat constructor; apply not_elem_of_nil]|]. case_decide as Hc.
  - subst c. destruct (split sep l) as [|w ws]; [done|]. split_and!; [|done|constructor; [apply not_elem_of_nil|done]].
    change (join sep ([] :: w :: ws)) with (sep :: join sep (w :: ws)). by rewrite Hj.
  - destruct (split sep l) as [|w ws]; [done|]. apply Forall_cons in Hs as [Hw Hws]. split_and!; [|done|constructor; [set_solver|done]].
    destruct ws as [|v ws]; cbn [join] in *; by rewrite <- Hj.
Qed.

Lemma clean_parts_good rooted l : ∀ kept, Forall part_ok l → clean_parts rooted kept l = reverse l ++ kept.
Proof.
  induction l as [|c l IH]; intros kept Hl; [done|]. apply Forall_cons in Hl as [(H1 & H2 & H3 & _) Hl]. cbn [clean_parts].
  rewrite !bool_decide_false by done. cbn [orb]. rewrite IH by done. by rewrite reverse_cons, <- app_assoc.
Qed.

(** What [Clean] keeps has no empty parts and no dots. *)
Lemma clean_parts_kept rooted l : ∀ kept c, c ∈ clean_parts rooted kept l → c ∈ kept ∨ (c ∈ l ∧ c ≠ [] ∧ c ≠ chars ".").
Proof.
  induction l as [|d l IH]; intros kept c; cbn [clean_parts]; [by left|].
  destruct (bool_decide_reflect (d = [])) as [|H1]; cbn [orb]; [intros H; apply IH in H; set_solver|].
  destruct (bool_decide_reflect (d = chars ".")) as [|H2]; [intros H; apply IH in H; set_solver|].
  destruct (bool_decide (d = chars "..")); [destruct kept as [|top kept]; [destruct rooted|destruct (bool_decide (top = _))]|]; intros H; apply IH in H; set_solver.
Qed.

Lemma inside_parts p : inside p ↔ Forall part_ok (split slash (chars p)).
Proof.
  split.
  - intros (cs & Hne & Hcs & ->). rewrite split_join; [done|done|]. eapply Forall_impl; [exact Hcs|]. by intros c (_ & _ & _ & ? & _).
  - intros H. destruct (join_split slash (chars p)) as (Hj & Hn & _). exists (split slash (chars p)). by split_and!.
Qed.

Lemma join_nil sep l : Forall (λ w : bytes, w ≠ []) l → join sep l = [] → l = [].
Proof. intros Hl. destruct l as [|w [|v l]]; [done|..]; apply Forall_cons in Hl as [Hw _]; cbn [join]; [done|]. by destruct w. Qed.

Lemma elem_of_join sep c w l : w ∈ l → c ∈ w → c ∈ join sep l.
Proof.
  induction l as [|v l IH]; [by intros ?%elem_of_nil|]. intros [-> | Hw]%elem_of_cons Hc; [destruct l; cbn [join]; set_solver|].
  destruct l as [|u l]; [by apply elem_of_nil in Hw|]. change (join sep (v :: u :: l)) with (v ++ sep :: join sep (u :: l)). set_solver.
Qed.

(** The paths that are taken are those that stay inside, the manifest's apart. *)
Lemma checkPath_ok volume p : checkPath volume p = true ↔ inside p ∧ p ≠ ManifestName ∧ volume p = "".
Proof.
  rewrite inside_parts. unfold checkPath. rewrite andb_true_iff, negb_true_iff, !orb_false_iff, !bool_decide_eq_false, forallb_forall.
  destruct (join_split slash (chars p)) as (Hj & Hn & Hs). rewrite Forall_forall in Hs. split.
  - intros [((((((((H1 & H2) & H3) & H4) & H5) & H6) & H7) & H8) & H9) Hdots]. split_and!; [|done|by destruct (decide (volume p = "")) as [|Hv]].
    apply Forall_forall. intros c Hc. assert (c ≠ chars "..") as Hdd.
    { intros ->. specialize (Hdots (chars "..") ltac:(by apply list_elem_of_In)). by rewrite bool_decide_true in Hdots. }
    assert (Clean (chars p) = chars p) as Hclean by (destruct (decide (Clean (chars p) = chars p)); [done|by destruct H5]).
    unfold Clean in Hclean. rewrite H4 in Hclean. case_bool_decide as Hr; [by destruct H6; apply chars_inj|].
    assert (split slash (chars p) = reverse (clean_parts false [] (split slash (chars p)))) as Heq.
    { rewrite <- Hclean at 1. apply split_join; [by intros He; rewrite He in Hr|]. apply Forall_forall. intros w Hw%elem_of_reverse%clean_parts_kept.
      destruct Hw as [Hw|[Hw _]]; [by apply elem_of_nil in Hw|by apply Hs]. }
    pose proof Hc as Hc'. rewrite Heq in Hc'. apply elem_of_reverse, clean_parts_kept in Hc' as [Hc'|(_ & Hne & Hdot)]; [by apply elem_of_nil in Hc'|].
    split_and!; [done|done|done|by apply Hs|]. intros Hb. apply H3. rewrite <- Hj. by eapply elem_of_join.
  - intros (Hp & Hm & Hv). assert (p ≠ "") as Hne.
    { intros ->. apply Forall_cons in Hp as [(? & _) _]. done. }
    assert (is_abs (chars p) = false) as Habs.
    { apply bool_decide_eq_false. intros Hh. destruct (chars p) as [|c l]; [done|]. cbn in Hh. injection Hh as ->. cbn [split] in Hp. rewrite decide_True in Hp by done.
      apply Forall_cons in Hp as [(? & _) _]. done. }
    assert (∀ q, q = chars p → Forall part_ok (split slash q) → q ≠ chars "." ∧ q ≠ chars ".." ∧ cut_prefix (chars "../") q = None) as Hq.
    { intros q _ Hq. split_and!; [intros ->; by apply Forall_cons in Hq as [(_ & ? & _) _]|intros ->; by apply Forall_cons in Hq as [(_ & _ & ? & _) _]|].
      destruct (cut_prefix (chars "../") q) as [r|] eqn:E; [|done]. apply cut_prefix_Some in E as ->.
      change (chars "../" ++ r) with (chars ".." ++ slash :: r) in Hq. rewrite split_app in Hq by (by vm_compute; set_solver). by apply Forall_cons in Hq as [(_ & _ & ? & _) _]. }
    destruct (Hq _ eq_refl Hp) as (Hq1 & Hq2 & Hq3). split; [|].
    + split_and!; [done|done| |done| |by intros ->|by rewrite Hq3; intros [? [=]]|by intros ->|naive_solver].
      * intros Hb. assert (∀ l, "\"%char ∈ join slash l → ∃ w, w ∈ l ∧ "\"%char ∈ w) as Hin.
        { induction l as [|w l IH]; [by intros ?%elem_of_nil|]. destruct l as [|v l]; [intros Hw; exists w; split; [by left|done]|].
          change (join slash (w :: v :: l)) with (w ++ slash :: join slash (v :: l)). rewrite elem_of_app, elem_of_cons. intros [Hw|[[=]|Hw]]; [exists w; split; [by left|done]|].
          destruct (IH Hw) as (u & Hu & Hw'). exists u. split; [by right|done]. }
        rewrite <- Hj in Hb. apply Hin in Hb as (w & Hw & Hb). rewrite Forall_forall in Hp. destruct (Hp w Hw) as (_ & _ & _ & _ & ?). done.
      * intros Hc. apply Hc. unfold Clean. rewrite Habs, clean_parts_good, app_nil_r, reverse_involutive, Hj by done. rewrite bool_decide_false; [done|].
        intros He. apply Hne, chars_inj. done.
    + intros c Hc%list_elem_of_In. rewrite Forall_forall in Hp. destruct (Hp c Hc) as (_ & _ & ? & _). by rewrite bool_decide_false.
Qed.

(** ** Archives *)

Definition Format : Z := 1.
Definition maxManifestSize : nat := 1048576.
Definition maxTarPadding : Z := 10240.

Record File := { fPath : string; fSize : Z; fSHA256 : string }.
Record Manifest := {
  mFormat : Z; mVersion : string; mSchema : Z; mCreated : Z; mKeyFingerprint : string; mTLSMode : string; mFiles : list File;
}.
Record Source := { sPath : string; sFrom : string }.

(** An entry as a reader finds it: [eBroken] is an error after its data. *)
Record Entry := { eName : string; eRegular : bool; eSize : Z; eData : list byte; eBroken : bool }.

(** What a reader of an archive meets: entries, the end or an error, and how much
    follows the end, if the compressed stream is whole. *)
Record Tar := { tEntries : list Entry; tCut : bool; tRest : option Z }.

Inductive backup_error := ErrInvalid | ErrTwice | ErrFile | ErrManifest | ErrChanged | ErrTar | ErrDisk.

Definition sum (data : list byte) : string := hex (sha256 data).

(** A file of the archive, as it was hashed. *)
Definition file_of (p : string) (data : list byte) : File := {| fPath := p; fSize := Z.of_nat (length data); fSHA256 := sum data |}.
Definition with_files (l : list File) (m : Manifest) : Manifest :=
  {| mFormat := Format; mVersion := mVersion m; mSchema := mSchema m; mCreated := mCreated m; mKeyFingerprint := mKeyFingerprint m;
     mTLSMode := mTLSMode m; mFiles := l |}.

Section Write.
Context (volume : string → string) (EncodeManifest : Manifest → option (list byte)).

(** The disk while the files are hashed, and while they are copied. *)
Context (hashed copied : string → option (list byte)) (header_ok : string → bool).

Fixpoint hash_all (seen : list string) (srcs : list Source) : result backup_error (list File) :=
  match srcs with
  | [] => Ok []
  | s :: srcs =>
      if negb (checkPath volume (sPath s)) then Err ErrInvalid
      else if bool_decide (sPath s ∈ seen) then Err ErrTwice
      else
        data ← of_option ErrFile (hashed (sFrom s));
        fs ← hash_all (sPath s :: seen) srcs;
        Ok (file_of (sPath s) data :: fs)
  end.

Definition writeEntry (name : string) (size : Z) (data : list byte) : result backup_error Entry :=
  if negb (header_ok name) then Err ErrTar
  else if bool_decide (Z.of_nat (length data) = size) then Ok {| eName := name; eRegular := true; eSize := size; eData := data; eBroken := false |}
  else Err ErrChanged.

(** [copyFile]: no more of a file than was hashed, and the same. *)
Definition copyFile (s : Source) (f : File) : result backup_error Entry :=
  data ← of_option ErrFile (copied (sFrom s));
  let data := take (Z.to_nat (fSize f)) data in
  e ← writeEntry (sPath s) (fSize f) data;
  if bool_decide (sum data = fSHA256 f) then Ok e else Err ErrChanged.

Fixpoint copy_all (srcs : list Source) (fs : list File) : result backup_error (list Entry) :=
  match srcs, fs with
  | s :: srcs, f :: fs => e ← copyFile s f; es ← copy_all srcs fs; Ok (e :: es)
  | _, _ => Ok []
  end.

(** [Write]: the manifest and the entries of the archive; closing the writers
    is left out. *)
Definition Write (m : Manifest) (srcs : list Source) : result backup_error (Manifest * list Entry) :=
  fs ← hash_all [] srcs;
  let m := with_files fs m in
  mj ← of_option ErrManifest (EncodeManifest m);
  e ← writeEntry ManifestName (Z.of_nat (length mj)) mj;
  es ← copy_all srcs fs;
  Ok (m, e :: es).
End Write.

(** ** Unpacking *)

(** A directory: files by their paths in it. *)
Abbreviation Dir := (gmap string (list byte)).

(** [p] is a directory above [q]. *)
Definition above (p q : string) : bool := bool_decide (is_Some (cut_prefix (chars p ++ [slash]) (chars q))).

(** Nothing is in the way of a new file. *)
Definition free (d : Dir) (p : string) : bool := forallb (λ q, negb (bool_decide (q = p) || above p q || above q p)) (elements (dom d)).

(** What the disk does with a new file: all of it, none, or so many bytes. *)
Inductive disk := DiskOk | DiskNoFile | DiskFull (n : nat).

Section Extract.
Context (volume : string → string) (DecodeManifest : list byte → bool → option Manifest) (Open : list byte → option Tar) (io : string → disk).

(** [extractFile]; what was written stays. *)
Definition extractFile (e : Entry) (f : File) (d : Dir) : Dir * result backup_error unit :=
  if negb (free d (fPath f)) then (d, Err ErrDisk)
  else
    let data := take (S (Z.to_nat (fSize f))) (eData e) in
    match io (fPath f) with
    | DiskNoFile => (d, Err ErrDisk)
    | DiskFull n => (<[fPath f := take n data]> d, Err ErrDisk)
    | DiskOk =>
        let d := <[fPath f := data]> d in
        if eBroken e then (d, Err ErrDisk)
        else if bool_decide (Z.of_nat (length data) = fSize f) && bool_decide (sum data = fSHA256 f) then (d, Ok ()) else (d, Err ErrInvalid)
    end.

(** The map [want]. *)
Fixpoint index (fs : list File) (want : gmap string File) : result backup_error (gmap string File) :=
  match fs with
  | [] => Ok want
  | f :: fs =>
      if negb (checkPath volume (fPath f)) then Err ErrInvalid
      else if bool_decide (is_Some (want !! fPath f)) || (fSize f <? 0) then Err ErrInvalid
      else index fs (<[fPath f := f]> want)
  end.

Fixpoint unpack (es : list Entry) (want : gmap string File) (got : gset string) (d : Dir) : Dir * result backup_error (gset string) :=
  match es with
  | [] => (d, Ok got)
  | e :: es =>
      match want !! eName e with
      | None => (d, Err ErrInvalid)
      | Some f =>
          if bool_decide (eName e ∈ got) then (d, Err ErrInvalid)
          else if negb (eRegular e) || negb (bool_decide (eSize e = fSize f)) then (d, Err ErrInvalid)
          else match extractFile e f d with
               | (d, Err x) => (d, Err x)
               | (d, Ok _) => unpack es want ({[eName e]} ∪ got) d
               end
      end
  end.

(** [Extract] into a directory. *)
Definition Extract (archive : list byte) (d : Dir) : Dir * result backup_error Manifest :=
  match Open archive with
  | None => (d, Err ErrInvalid)
  | Some t =>
      match tEntries t with
      | [] => (d, Err ErrInvalid)
      | h :: es =>
          if negb (bool_decide (eName h = ManifestName)) || negb (eRegular h) || (Z.of_nat maxManifestSize <? eSize h) then (d, Err ErrInvalid)
          else
            match DecodeManifest (take maxManifestSize (eData h)) (eBroken h) with
            | None => (d, Err ErrInvalid)
            | Some m =>
                if negb (mFormat m =? Format) then (d, Err ErrInvalid)
                else
                  match index (mFiles m) ∅ with
                  | Err x => (d, Err x)
                  | Ok want =>
                      match unpack es want ∅ d with
                      | (d, Err x) => (d, Err x)
                      | (d, Ok got) =>
                          if tCut t then (d, Err ErrInvalid)
                          else if negb (bool_decide (dom want ⊆ got)) then (d, Err ErrInvalid)
                          else match tRest t with
                               | None => (d, Err ErrInvalid)
                               | Some n => if maxTarPadding <? n then (d, Err ErrInvalid) else (d, Ok m)
                               end
                      end
                  end
            end
      end
  end.
End Extract.

(** ** What is unpacked *)

Section Unpacked.
Context (volume : string → string) (DecodeManifest : list byte → bool → option Manifest) (Open : list byte → option Tar) (io : string → disk).

Lemma index_ok fs : ∀ want r, index volume fs want = Ok r →
  (∀ p f, r !! p = Some f ↔ want !! p = Some f ∨ (f ∈ fs ∧ fPath f = p)) ∧ NoDup (fPath <$> fs) ∧
  (∀ f, f ∈ fs → checkPath volume (fPath f) = true ∧ 0 <= fSize f ∧ want !! fPath f = None).
Proof.
  induction fs as [|x fs IH]; intros want r; cbn [index].
  { intros [= <-]. split_and!; [|constructor|by intros f ?%elem_of_nil]. intros p f. split; [by left|intros [?|[?%elem_of_nil _]]; done]. }
  destruct (checkPath volume (fPath x)) eqn:Ec; cbn [negb]; [|done].
  destruct (bool_decide_reflect (is_Some (want !! fPath x))) as [|Hnew]; cbn [orb]; [done|]. destruct (Z.ltb_spec (fSize x) 0); [done|].
  intros (Hr & Hnd & Hall)%IH. rewrite <- eq_None_not_Some in Hnew. split_and!.
  - intros p f. rewrite Hr, elem_of_cons, lookup_insert_Some. split; [intros [[[<- <-]|[_ ?]]|[? ?]]; auto|].
    intros [Hp|[[-> | Hf] Hp]]; [left; right; split; [intros <-; by rewrite Hnew in Hp|done]|by left; left|by right].
  - rewrite fmap_cons, NoDup_cons. split; [|done]. intros (f & Hp & Hf)%list_elem_of_fmap. destruct (Hall f Hf) as (_ & _ & Hn).
    rewrite <- Hp, lookup_insert_eq in Hn. done.
  - intros f [-> | Hf]%elem_of_cons; [done|]. destruct (Hall f Hf) as (? & ? & Hn). split_and!; [done|done|]. apply lookup_insert_None in Hn. by destruct Hn.
Qed.

(** A file in the directory is the one the manifest describes. *)
Definition verified (f : File) (d : Dir) : Prop := ∃ data, d !! fPath f = Some data ∧ Z.of_nat (length data) = fSize f ∧ sum data = fSHA256 f.

Definition unpacked (want : gmap string File) (got : gset string) (d : Dir) : Prop :=
  dom d = got ∧ ∀ p f, p ∈ got → want !! p = Some f → verified f d.

Lemma free_new d p : free d p = true → p ∉ dom d.
Proof.
  unfold free. rewrite forallb_forall. intros H Hp. specialize (H p ltac:(by apply list_elem_of_In, elem_of_elements)).
  rewrite bool_decide_true in H by done. done.
Qed.

Lemma extractFile_ok e f d d' r : extractFile io e f d = (d', r) →
  dom d' ⊆ {[fPath f]} ∪ dom d ∧ (r = Ok () → fPath f ∉ dom d ∧ ∃ data, d' = <[fPath f := data]> d ∧ Z.of_nat (length data) = fSize f ∧ sum data = fSHA256 f).
Proof.
  unfold extractFile. destruct (free d (fPath f)) eqn:Ef; cbn [negb]; [|intros [= <- <-]; split; [set_solver +|done]].
  destruct (io (fPath f)); [| intros [= <- <-]; split; [set_solver +|done]| intros [= <- <-]; split; [by rewrite dom_insert|done]].
  destruct (eBroken e); [intros [= <- <-]; split; [by rewrite dom_insert|done]|].
  destruct (bool_decide_reflect (Z.of_nat (length (take (S (Z.to_nat (fSize f))) (eData e))) = fSize f)) as [Hl|];
    [destruct (bool_decide_reflect (sum (take (S (Z.to_nat (fSize f))) (eData e)) = fSHA256 f)) as [Hs|]|]; cbn [andb];
    intros [= <- <-]; (split; [by rewrite dom_insert|]); [|done|done].
  intros _. split; [by apply free_new|]. by eexists.
Qed.

Lemma unpack_ok want : (∀ p f, want !! p = Some f → fPath f = p) → ∀ es got d d' r,
  unpacked want got d → got ⊆ dom want → unpack io es want got d = (d', r) →
  dom d' ⊆ dom want ∧ match r with Ok got' => unpacked want got' d' ∧ got' ⊆ dom want | Err _ => True end.
Proof.
  intros Hw. induction es as [|e es IH]; intros got d d' r [Hd Hv] Hg; cbn [unpack]; [by intros [= <- <-]; rewrite Hd|].
  assert (dom d ⊆ dom want) as Hdw by (by rewrite Hd).
  destruct (want !! eName e) as [f|] eqn:Ef; [|by intros [= <- <-]]. case_bool_decide as Hgot; [by intros [= <- <-]|].
  destruct (negb (eRegular e) || _); [by intros [= <- <-]|]. pose proof (Hw _ _ Ef) as Hp.
  destruct (extractFile io e f d) as [d1 [[]|x]] eqn:Ex; apply extractFile_ok in Ex as [Hdom Hok].
  2:{ intros [= <- <-]. split; [|done]. etrans; [done|]. apply union_subseteq. split; [|done]. rewrite Hp. apply singleton_subseteq_l. by apply elem_of_dom. }
  destruct (Hok eq_refl) as (Hnew & data & -> & Hl & Hs). apply IH.
  - split; [by rewrite dom_insert_L, Hp, Hd|]. intros p g Hpg Hg'. destruct (decide (p = eName e)) as [-> | Hne].
    + rewrite Ef in Hg'. injection Hg' as <-. exists data. by rewrite lookup_insert_eq.
    + destruct (Hv p g) as (dat & Hdat & ?); [set_solver|done|]. exists dat. split; [|done]. rewrite lookup_insert_ne; [done|]. intros He. apply Hne. by rewrite <- (Hw _ _ Hg'), <- He, Hp.
  - apply union_subseteq. split; [|done]. apply singleton_subseteq_l. by apply elem_of_dom.
Qed.

(** C29: an archive is unpacked as its manifest says, or refused.  Whatever the
    bytes, nothing is written outside the directory; and if they are taken, the
    directory has the files of the manifest, each once, with its size and
    SHA-256, and no others. *)
Theorem extracted_as_described archive :
  let '(d, r) := Extract volume DecodeManifest Open io archive ∅ in
  (∀ p, p ∈ dom d → inside p) ∧
  (∀ m, r = Ok m → dom d = list_to_set (fPath <$> mFiles m) ∧ NoDup (fPath <$> mFiles m) ∧ ∀ f, f ∈ mFiles m → verified f d).
Proof.
  assert (∀ p, p ∈ dom (∅ : Dir) → inside p) as H0 by (intros p; rewrite dom_empty_L; by intros ?%not_elem_of_empty).
  unfold Extract. destruct (Open archive) as [t|]; [|done]. destruct (tEntries t) as [|h es]; [done|]. destruct (_ || _); [done|].
  destruct (DecodeManifest _ _) as [m|]; [|done]. destruct (negb _); [done|]. destruct (index volume (mFiles m) ∅) as [want|] eqn:Ei; [|done].
  apply index_ok in Ei as (Hw & Hnd & Hall). setoid_rewrite lookup_empty in Hw. destruct (unpack io es want ∅ ∅) as [d r] eqn:Eu.
  assert (∀ p f, want !! p = Some f → fPath f = p) as Hpath by (intros p f [?|[_ ?]]%Hw; done).
  apply (unpack_ok want Hpath) in Eu as [Hdom Hr]; [|split; [apply dom_empty_L|set_solver +]|set_solver +].
  assert (∀ p, p ∈ dom d → inside p) as Hin.
  { intros p Hp%Hdom. apply elem_of_dom in Hp as [f Hf]. apply Hw in Hf as [?|[Hf <-]]; [done|]. destruct (Hall f Hf) as (Hc & _). by apply checkPath_ok in Hc as [? _]. }
  destruct r as [got|]; [|done]. destruct Hr as [[Hd Hv] Hg]. destruct (tCut t); [done|]. destruct (bool_decide_reflect (dom want ⊆ got)) as [Hsub|]; cbn [negb]; [|done].
  destruct (tRest t) as [n|]; [|done]. destruct (maxTarPadding <? n); [done|]. split; [done|]. intros m' [= <-]. split_and!; [|done|].
  - apply set_eq. intros p. rewrite Hd, elem_of_list_to_set, list_elem_of_fmap. split.
    + intros Hp%Hg. apply elem_of_dom in Hp as [f Hf]. apply Hw in Hf as [?|[Hf <-]]; [done|]. by exists f.
    + intros (f & -> & Hf). apply Hsub, elem_of_dom. exists f. apply Hw. by right.
  - intros f Hf. apply (Hv (fPath f)); [apply Hsub, elem_of_dom; exists f|]; apply Hw; by right.
Qed.
End Unpacked.

(** ** What was written is read back *)

Section RoundTrip.
Context (volume : string → string) (EncodeManifest : Manifest → option (list byte)) (DecodeManifest : list byte → bool → option Manifest)
  (Open : list byte → option Tar) (hashed copied : string → option (list byte)) (header_ok : string → bool).

Abbreviation io := (λ _ : string, DiskOk).

(** A source and its entry of the manifest. *)
Definition described (s : Source) (f : File) : Prop := ∃ data, hashed (sFrom s) = Some data ∧ f = file_of (sPath s) data.

Lemma hash_all_ok srcs : ∀ seen fs, hash_all volume hashed seen srcs = Ok fs →
  Forall2 described srcs fs ∧ NoDup (sPath <$> srcs) ∧ ∀ s, s ∈ srcs → checkPath volume (sPath s) = true ∧ sPath s ∉ seen.
Proof.
  induction srcs as [|s srcs IH]; intros seen fs; cbn [hash_all]; [intros [= <-]; split_and!; [constructor|constructor|by intros s ?%elem_of_nil]|].
  destruct (checkPath volume (sPath s)) eqn:Ec; cbn [negb]; [|done]. case_bool_decide as Hseen; [done|].
  destruct (hashed (sFrom s)) as [data|] eqn:Eh; [|done]. cbn [of_option mbind result_bind]. destruct (hash_all _ _ _ srcs) as [fs'|] eqn:E; [|done]. cbn. intros [= <-].
  destruct (IH _ _ E) as (H2 & Hnd & Hall). split_and!.
  - constructor; [by exists data|done].
  - rewrite NoDup_cons. split; [|done]. intros (x & Hx & Hin)%list_elem_of_fmap. destruct (Hall x Hin) as [_ Hn]. rewrite <- Hx in Hn. apply Hn. by left.
  - intros x [-> | Hx]%elem_of_cons; [done|]. destruct (Hall x Hx) as [? Hn]. split; [done|]. intros Hs. apply Hn. by right.
Qed.

Lemma index_complete fs : ∀ want, (∀ f, f ∈ fs → checkPath volume (fPath f) = true ∧ 0 <= fSize f ∧ want !! fPath f = None) → NoDup (fPath <$> fs) →
  ∃ r, index volume fs want = Ok r.
Proof.
  induction fs as [|f fs IH]; intros want Hall Hnd; [by eexists|]. apply NoDup_cons in Hnd as [Hnew Hnd]. destruct (Hall f ltac:(by left)) as (Hc & Hs & Hw).
  cbn [index]. rewrite Hc, Hw, bool_decide_false by (by intros [? [=]]). cbn [negb orb]. destruct (Z.ltb_spec (fSize f) 0); [lia|]. apply IH; [|done].
  intros g Hg. destruct (Hall g ltac:(by right)) as (? & ? & ?). split_and!; [done|done|]. rewrite lookup_insert_ne; [done|]. intros He. apply Hnew. rewrite He. by apply list_elem_of_fmap_2.
Qed.

(** No source is in a directory that another one is a file for. *)
Definition no_nesting (srcs : list Source) : Prop := ∀ s s', s ∈ srcs → s' ∈ srcs → above (sPath s) (sPath s') = false.

Lemma free_ok d p : p ∉ dom d → (∀ q, q ∈ dom d → above p q = false ∧ above q p = false) → free d p = true.
Proof.
  intros Hp Hq. apply forallb_forall. intros q Hin%list_elem_of_In%elem_of_elements. destruct (Hq q Hin) as [-> ->]. rewrite bool_decide_false; [done|]. by intros ->.
Qed.

Lemma copyFile_ok s f e : described s f → copyFile copied header_ok s f = Ok e →
  ∃ data, copied (sFrom s) = Some data ∧ e = {| eName := sPath s; eRegular := true; eSize := fSize f; eData := take (Z.to_nat (fSize f)) data; eBroken := false |} ∧
    Z.of_nat (length (take (Z.to_nat (fSize f)) data)) = fSize f ∧ sum (take (Z.to_nat (fSize f)) data) = fSHA256 f.
Proof.
  intros _. unfold copyFile, writeEntry. destruct (copied (sFrom s)) as [data|]; [|done]. cbn [of_option mbind result_bind]. destruct (header_ok _); [|done]. cbn [negb].
  destruct (bool_decide_reflect (Z.of_nat (length (take (Z.to_nat (fSize f)) data)) = fSize f)) as [Hl|]; [|done]. cbn [mbind result_bind].
  destruct (bool_decide_reflect (sum (take (Z.to_nat (fSize f)) data) = fSHA256 f)) as [Hs|]; [|done]. intros [= <-]. by exists data.
Qed.

Lemma unpack_entry e f d data : fPath f ∉ dom d → (∀ q, q ∈ dom d → above (fPath f) q = false ∧ above q (fPath f) = false) →
  eData e = data → eBroken e = false → Z.of_nat (length data) = fSize f → sum data = fSHA256 f → extractFile io e f d = (<[fPath f := data]> d, Ok ()).
Proof.
  intros Hp Hq He Hb Hl Hs. unfold extractFile. rewrite free_ok by done. cbn [negb]. rewrite He, Hb, take_ge by lia. rewrite !bool_decide_true by done. done.
Qed.

Lemma copied_back srcs : ∀ fs es want got d, Forall2 described srcs fs → copy_all copied header_ok srcs fs = Ok es → NoDup (sPath <$> srcs) →
  (∀ f, f ∈ fs → want !! fPath f = Some f) → dom d = got → (∀ s, s ∈ srcs → sPath s ∉ got ∧ ∀ q, q ∈ got → above (sPath s) q = false ∧ above q (sPath s) = false) →
  no_nesting srcs → ∃ d', unpack io es want got d = (d', Ok (list_to_set (sPath <$> srcs) ∪ got)) ∧ dom d' = list_to_set (sPath <$> srcs) ∪ got ∧
    (∀ s f, (s, f) ∈ zip srcs fs → d' !! sPath s = take (Z.to_nat (fSize f)) <$> copied (sFrom s)) ∧ (∀ p, p ∈ got → d' !! p = d !! p).
Proof.
  induction srcs as [|s srcs IH]; intros fs es want got d H2 Hc Hnd Hw Hd Hfree Hnest.
  { apply Forall2_nil_inv_l in H2 as ->. injection Hc as <-. exists d. cbn [unpack]. split_and!; [f_equal; f_equal; set_solver +|set_solver +Hd|by intros s f ?%elem_of_nil|done]. }
  apply Forall2_cons_inv_l in H2 as (f & fs' & Hdesc & H2 & ->). cbn [copy_all] in Hc. destruct (copyFile _ _ s f) as [e|] eqn:Ee; [|done]. cbn in Hc.
  destruct (copy_all _ _ srcs fs') as [es'|] eqn:Ees; [|done]. injection Hc as <-. apply NoDup_cons in Hnd as [Hnew Hnd].
  destruct (copyFile_ok _ _ _ Hdesc Ee) as (data & Hdata & -> & Hl & Hs). assert (fPath f = sPath s) as Hp by (by destruct Hdesc as (? & _ & ->)).
  destruct (Hfree s ltac:(by left)) as [Hgot Hq]. cbn [unpack eName eRegular eSize negb orb]. rewrite <- Hp, (Hw f) by (by left). rewrite Hp, bool_decide_false by done.
  rewrite bool_decide_true by done. cbn [negb]. rewrite (unpack_entry _ f d (take (Z.to_nat (fSize f)) data)); [|by rewrite Hd, Hp|by rewrite Hd, Hp|done..].
  destruct (IH fs' es' want ({[sPath s]} ∪ got) (<[fPath f := take (Z.to_nat (fSize f)) data]> d)) as (d' & Hu & Hdom & Hin & Hold).
  - done.
  - done.
  - done.
  - intros g Hg. apply Hw. by right.
  - by rewrite dom_insert_L, Hd, Hp.
  - intros x Hx. destruct (Hfree x ltac:(by right)) as [Hxg Hxq]. split.
    + intros [He%elem_of_singleton|?]%elem_of_union; [|done]. apply Hnew. rewrite <- He. by apply list_elem_of_fmap_2.
    + intros q [->%elem_of_singleton|?]%elem_of_union; [|by apply Hxq]. split; apply Hnest; set_solver +Hx.
  - intros x y Hx Hy. apply Hnest; by right.
  - exists d'. split_and!; [rewrite Hu; f_equal; f_equal; set_solver +|rewrite Hdom; set_solver +| |].
    + intros x g. cbn [zip zip_with]. intros [[= -> ->]|Hx]%elem_of_cons; [|by apply Hin]. rewrite Hold by set_solver +. by rewrite Hp, lookup_insert_eq, Hdata.
    + intros p Hpg. rewrite Hold by set_solver +Hpg. rewrite lookup_insert_ne; [done|]. rewrite Hp. by intros <-.
Qed.

Lemma copy_all_lookup srcs : ∀ fs es i s f, copy_all copied header_ok srcs fs = Ok es → srcs !! i = Some s → fs !! i = Some f →
  ∃ e, copyFile copied header_ok s f = Ok e.
Proof.
  induction srcs as [|x l IH]; intros [|g fs] es i s f Ec Hi Hf; try done; cbn [copy_all] in Ec.
  destruct (copyFile _ _ x g) as [e|] eqn:Ee; [|done]. cbn in Ec. destruct (copy_all _ _ l fs) as [es2|] eqn:E2; [|done].
  destruct i as [|i]; cbn in Hi, Hf; [injection Hi as ->; injection Hf as ->; by exists e|by eapply IH].
Qed.

Lemma described_paths srcs fs : Forall2 described srcs fs → fPath <$> fs = sPath <$> srcs.
Proof. induction 1 as [|s f ? ? (? & _ & ->) _ IH]; [done|]. cbn. by rewrite IH. Qed.

Lemma Write_manifest m srcs m' es : Write volume EncodeManifest hashed copied header_ok m srcs = Ok (m', es) →
  ∃ fs, m' = with_files fs m ∧ fPath <$> fs = sPath <$> srcs ∧ NoDup (sPath <$> srcs).
Proof.
  unfold Write. destruct (hash_all volume hashed [] srcs) as [fs|] eqn:Eh; [|done]. cbn [mbind result_bind]. destruct (hash_all_ok _ _ _ Eh) as (H2 & Hnd & _).
  destruct (EncodeManifest _) as [mj|]; [|done]. cbn [of_option mbind result_bind]. destruct (writeEntry _ _ _ _) as [e|]; [|done]. cbn [mbind result_bind].
  destruct (copy_all _ _ srcs fs) as [es'|]; [|done]. cbn. intros [= <- <-]. exists fs. split_and!; [done|by apply described_paths|done].
Qed.

(** A backup can be restored.  What [Write] puts into an archive, a reader
    that yields its entries unpacks: into the files of the archive and no
    others, each with what was copied of its source, which has the checksum of
    what was hashed; and where a source did not change in between, all of it. *)
Lemma archive_reads_back m srcs m' es archive rest :
  Write volume EncodeManifest hashed copied header_ok m srcs = Ok (m', es) →
  no_nesting srcs →
  (∀ mj, EncodeManifest m' = Some mj → (length mj ≤ maxManifestSize)%nat ∧ DecodeManifest mj false = Some m') →
  Open archive = Some {| tEntries := es; tCut := false; tRest := Some rest |} → rest <= maxTarPadding →
  ∃ d, Extract volume DecodeManifest Open io archive ∅ = (d, Ok m') ∧ dom d = list_to_set (sPath <$> srcs) ∧
    ∀ s, s ∈ srcs → ∃ h c, hashed (sFrom s) = Some h ∧ copied (sFrom s) = Some c ∧ d !! sPath s = Some (take (length h) c) ∧ sum (take (length h) c) = sum h ∧
      (c = h → d !! sPath s = Some h).
Proof.
  unfold Write. destruct (hash_all volume hashed [] srcs) as [fs|] eqn:Eh; [|done]. cbn [mbind result_bind].
  destruct (EncodeManifest (with_files fs m)) as [mj|] eqn:Em; [|done]. cbn [of_option mbind result_bind]. unfold writeEntry at 1. destruct (header_ok ManifestName); [|done]. cbn [negb].
  rewrite bool_decide_true by done. cbn [mbind result_bind]. destruct (copy_all _ _ srcs fs) as [es'|] eqn:Ec; [|done]. cbn [mbind result_bind].
  intros [= <- <-] Hnest Hman Hopen Hrest. destruct (Hman mj Em) as [Hsize Hdec]. destruct (hash_all_ok _ _ _ Eh) as (H2 & Hnd & Hchk).
  pose proof (described_paths _ _ H2) as Hpaths.
  assert (∀ f, f ∈ fs → checkPath volume (fPath f) = true ∧ 0 <= fSize f ∧ (∅ : gmap string File) !! fPath f = None) as Hfs.
  { intros f Hf. destruct (Forall2_flip described srcs fs) as [_ Hflip]. apply Hflip in H2. apply list_elem_of_lookup in Hf as [i Hi].
    destruct (Forall2_lookup_l _ _ _ _ _ H2 Hi) as (s & Hs & data & _ & ->). cbn [fPath fSize file_of]. split_and!; [|lia|apply lookup_empty].
    apply Hchk. by eapply list_elem_of_lookup_2. }
  destruct (index_complete fs ∅ Hfs) as [want Hwant]; [by rewrite Hpaths|]. destruct (index_ok _ _ _ _ Hwant) as (Hw & _ & _).
  destruct (copied_back srcs fs es' want ∅ ∅ H2 Ec Hnd) as (d & Hu & Hdom & Hin & _); [|apply dom_empty_L| |done|].
  { intros f Hf. apply Hw. by right. }
  { intros s _. split; [set_solver +|intros q ?%not_elem_of_empty; done]. }
  rewrite union_empty_r_L in Hdom. exists d. split_and!; [|done|].
  - unfold Extract. rewrite Hopen. cbn [tEntries eName eRegular eSize eData eBroken tCut tRest]. rewrite bool_decide_true by done. cbn [negb orb].
    destruct (Z.ltb_spec (Z.of_nat maxManifestSize) (Z.of_nat (length mj))); [lia|]. rewrite take_ge, Hdec by done. cbn [mFormat with_files]. cbn [Format Z.eqb Pos.eqb negb mFiles with_files].
    rewrite Hwant, Hu. rewrite bool_decide_true; [|].
    + cbn [negb]. destruct (Z.ltb_spec maxTarPadding rest); [lia|done].
    + intros p [f Hf]%elem_of_dom. apply Hw in Hf as [?|[Hf <-]]; [by rewrite lookup_empty in *|]. rewrite elem_of_union, elem_of_list_to_set, <- Hpaths. left. by apply list_elem_of_fmap_2.
  - intros s Hs. apply list_elem_of_lookup in Hs as [i Hi]. destruct (Forall2_lookup_l _ _ _ _ _ H2 Hi) as (f & Hf & h & Hh & ->).
    destruct (copy_all_lookup _ _ _ _ _ _ Ec Hi Hf) as [e He].
    destruct (copyFile_ok s _ e ltac:(by exists h) He) as (c & Hc & _ & _ & Hsum). cbn [fSize fSHA256 file_of] in Hsum. rewrite Nat2Z.id in Hsum. exists h, c.
    assert (d !! sPath s = Some (take (length h) c)) as Hd.
    { rewrite (Hin s (file_of (sPath s) h)), Hc; [cbn; by rewrite Nat2Z.id|]. apply list_elem_of_lookup. exists i. rewrite lookup_zip_with, Hi. cbn. by rewrite Hf. }
    split_and!; [done..|]. intros ->. by rewrite take_ge in Hd by done.
Qed.
End RoundTrip.

(** ** A small archive *)

Definition demo_manifest : Manifest :=
  {| mFormat := 0; mVersion := "v1"; mSchema := 7; mCreated := 0; mKeyFingerprint := "ab"; mTLSMode := "self"; mFiles := [] |}.
Definition demo_sources : list Source := [{| sPath := "thawr.db"; sFrom := "/snap" |}; {| sPath := "tls/cert.pem"; sFrom := "/data/tls/cert.pem" |}].
Definition demo_disk (p : string) : option (list byte) :=
  if bool_decide (p = "/snap") then Some (string_bytes "rows") else if bool_decide (p = "/data/tls/cert.pem") then Some (string_bytes "pem") else None.
Definition demo_encode (_ : Manifest) : option (list byte) := Some (string_bytes "{}").
Abbreviation demo_written := (Write (λ _, "") demo_encode demo_disk demo_disk (λ _, true) demo_manifest demo_sources).
Definition demo_tar (es : list Entry) : Tar := {| tEntries := es; tCut := false; tRest := Some 9000 |}.

(** Paths that are refused, and a file that shrank while it was archived. *)
Example demo_paths : checkPath (λ _, "") <$> ["tls/cert.pem"; "../x"; "a/../b"; "/etc"; "a//b"; "a/"; "manifest.json"; "a\b"; ""] =
  [true; false; false; false; false; false; false; false; false].
Proof. vm_compute. reflexivity. Qed.
Example demo_shrunk : Write (λ _, "") demo_encode demo_disk (λ _, Some (string_bytes "pe")) (λ _, true) demo_manifest demo_sources = Err ErrChanged.
Proof. vm_compute. reflexivity. Qed.
