(* ===== verification/Stun.v ===== *)
(** STUN binding requests and responses: [internal/stun/stun.go].

    Packets are byte lists; an index or slice out of range is [None], outside
    the result of the parser. *)

From S2P Require Import Prelude GoStrings NetIP.

(** ** CRC-32 (IEEE, reflected), as [hash/crc32] computes it *)

Arguments be_enc : simpl never.

Definition crc_bit (c : Z) : Z :=
  if Z.testbit c 0 then Z.lxor (Z.shiftr c 1) 3988292384 else Z.shiftr c 1.
Definition crc_byte (c : Z) (b : byte) : Z := Nat.iter 8 crc_bit (Z.lxor c (bz b)).
Definition crc32 (l : list byte) : Z := Z.lxor (foldl crc_byte 4294967295 l) 4294967295.

Example crc32_check : crc32 (string_bytes "123456789") = 3421780262.
Proof. vm_compute. reflexivity. Qed.

(** ** Messages *)

Definition attrNumSoftware : Z := 32802.
Definition attrNumFingerprint : Z := 32808.
Definition attrMappedAddress : Z := 1.
Definition attrXorMappedAddress : Z := 32.
Definition attrXorMappedAddressAlt : Z := 32800.

Definition software : list byte := string_bytes "thawr-01".
Definition bindingRequest : list byte := [Byte.x00; Byte.x01].
Definition magicCookie : list byte := [Byte.x21; Byte.x12; Byte.xa4; Byte.x42].
Definition lenFingerprint : Z := 8.
Definition headerLen : Z := 20.

(** [TxID]: 12 bytes. *)
Abbreviation TxID := (list byte).

Definition appendU16 (b : list byte) (v : Z) : list byte := b ++ be_enc 2 v.
Definition appendU32 (b : list byte) (v : Z) : list byte := b ++ be_enc 4 v.

Definition fingerPrint (b : list byte) : Z := Z.lxor (crc32 b) 1398035790.

Definition Request (tID : TxID) : list byte :=
  let lenAttrSoftware := 4 + blen software in
  let b := bindingRequest in
  let b := appendU16 b (lenAttrSoftware + lenFingerprint) in
  let b := b ++ magicCookie in
  let b := b ++ tID in
  let b := appendU16 b attrNumSoftware in
  let b := appendU16 b (blen software) in
  let b := b ++ software in
  let fp := fingerPrint b in
  let b := appendU16 b attrNumFingerprint in
  let b := appendU16 b 4 in
  appendU32 b fp.

Inductive stun_error :=
  | ErrNotSTUN | ErrNotSuccessResponse | ErrMalformedAttrs | ErrNotBindingRequest
  | ErrWrongSoftware | ErrNoFingerprint | ErrWrongFingerprint.

(** [Is]; the slice is behind the length test. *)
Definition Is (b : list byte) : bool :=
  (headerLen <=? blen b) &&
  match at_ b 0 with Some x => Z.land x 192 =? 0 | None => false end &&
  bool_decide (slice b 4 8 = Some magicCookie).

(** [foreachAttr] with the state its callback closes over; each turn takes at
    least four bytes, so [length b] turns are enough. *)
Fixpoint foreachAttr {S : Type} (fuel : nat) (fn : S → Z → list byte → option (result stun_error S)) (st : S) (b : list byte)
    : option (result stun_error S) :=
  match fuel with
  | O => Some (Ok st)
  | Datatypes.S fuel =>
      if blen b =? 0 then Some (Ok st)
      else if blen b <? 4 then Some (Err ErrMalformedAttrs)
      else
        attrType ← uint16_at b 0; attrLen ← uint16_at b 2;
        let attrLenWithPad := Z.ldiff (attrLen + 3) 3 in
        b ← slice_from b 4;
        if blen b <? attrLenWithPad then Some (Err ErrMalformedAttrs)
        else
          a ← slice b 0 attrLen;
          r ← fn st attrType a;
          match r with
          | Err e => Some (Err e)
          | Ok st => b ← slice_from b attrLenWithPad; foreachAttr fuel fn st b
          end
  end.

(** [softwareOK], [lastAttr], [gotFP]. *)
Definition request_attr (st : bool * Z * Z) (attrType : Z) (a : list byte)
    : option (result stun_error (bool * Z * Z)) :=
  let '(softwareOK, _, gotFP) := st in
  Some (Ok (softwareOK || ((attrType =? attrNumSoftware) && bool_decide (a = software)), attrType,
      if (attrType =? attrNumFingerprint) && (blen a =? 4) then be_dec a else gotFP)).

Definition ParseBindingRequest (b : list byte) : option (result stun_error TxID) :=
  if negb (Is b) then Some (Err ErrNotSTUN)
  else
    ty ← slice b 0 2;
    if negb (bool_decide (ty = bindingRequest)) then Some (Err ErrNotBindingRequest)
    else
      txID ← slice b 8 20; attrs ← slice_from b headerLen;
      r ← foreachAttr (length attrs) request_attr (false, 0, 0) attrs;
      match r with
      | Err e => Some (Err e)
      | Ok (softwareOK, lastAttr, gotFP) =>
          if negb softwareOK then Some (Err ErrWrongSoftware)
          else if negb (lastAttr =? attrNumFingerprint) then Some (Err ErrNoFingerprint)
          else
            body ← slice b 0 (blen b - lenFingerprint);
            if negb (gotFP =? fingerPrint body) then Some (Err ErrWrongFingerprint) else Some (Ok txID)
      end.

(** Each address byte against the cookie, then the transaction. *)
Definition xor_addr (txID : TxID) (a : list byte) : list byte := zip_with bxor a (magicCookie ++ txID).

Definition Response (txID : TxID) (ap : addrport) : list byte :=
  let addr := apaddr ap in
  if negb (IsValid addr) then []
  else
    let fam := if Is4 addr then Byte.x01 else Byte.x02 in
    let attrsLen := 8 + BitLen addr / 8 in
    let b := [Byte.x01; Byte.x01] in
    let b := appendU16 b (u16 attrsLen) in
    let b := b ++ magicCookie in
    let b := b ++ txID in
    let b := appendU16 b attrXorMappedAddress in
    let b := appendU16 b (u16 (4 + BitLen addr / 8)) in
    let b := b ++ [Byte.x00; fam] in
    let b := appendU16 b (Z.lxor (apport ap) 8466) in
    b ++ xor_addr txID (drop (Z.to_nat (16 - BitLen addr / 8)) (As16 addr)).

Definition familyAddrLen (fam : Z) : Z := if fam =? 1 then 4 else if fam =? 2 then 16 else 0.

(** [xorMappedAddress] and [mappedAddress]: the address bytes and the port. *)
Definition xorMappedAddress (tID : TxID) (b : list byte) : option (result stun_error (list byte * Z)) :=
  if blen b <? 4 then Some (Err ErrMalformedAttrs)
  else
    xorPort ← uint16_at b 2; addrField ← slice_from b 4; fam ← at_ b 1;
    let port := Z.lxor xorPort 8466 in
    let addrLen := familyAddrLen fam in
    if addrLen =? 0 then Some (Err ErrMalformedAttrs)
    else if blen addrField <? addrLen then Some (Err ErrMalformedAttrs)
    else xorAddr ← slice addrField 0 addrLen; Some (Ok (xor_addr tID xorAddr, port)).

Definition mappedAddress (b : list byte) : option (result stun_error (list byte * Z)) :=
  if blen b <? 4 then Some (Err ErrMalformedAttrs)
  else
    p1 ← at_ b 2; p2 ← at_ b 3; addrField ← slice_from b 4; fam ← at_ b 1;
    let port := Z.lor (u16 (Z.shiftl p1 8)) p2 in
    let addrLen := familyAddrLen fam in
    if addrLen =? 0 then Some (Err ErrMalformedAttrs)
    else if blen addrField <? addrLen then Some (Err ErrMalformedAttrs)
    else a ← slice addrField 0 addrLen; Some (Ok (a, port)).

(** The address so far and the fallback. *)
Definition response_attr (tID : TxID) (st : addrport * addrport) (attrType : Z) (attr : list byte)
    : option (result stun_error (addrport * addrport)) :=
  let '(addr, fallbackAddr) := st in
  if (attrType =? attrXorMappedAddress) || (attrType =? attrXorMappedAddressAlt) then
    r ← xorMappedAddress tID attr;
    match r with
    | Err e => Some (Err e)
    | Ok (ipSlice, port) =>
        match AddrFromSlice ipSlice with
        | Some ip => Some (Ok (AddrPort (Unmap ip) port, fallbackAddr))
        | None => Some (Ok (addr, fallbackAddr))
        end
    end
  else if attrType =? attrMappedAddress then
    r ← mappedAddress attr;
    match r with
    | Err _ => Some (Err ErrMalformedAttrs)
    | Ok (ipSlice, port) =>
        match AddrFromSlice ipSlice with
        | Some ip => Some (Ok (addr, AddrPort (Unmap ip) port))
        | None => Some (Ok (addr, fallbackAddr))
        end
    end
  else Some (Ok (addr, fallbackAddr)).

Definition ParseResponse (b : list byte) : option (result stun_error (TxID * addrport)) :=
  if negb (Is b) then Some (Err ErrNotSTUN)
  else
    tID ← slice b 8 20; b0 ← at_ b 0; b1 ← at_ b 1;
    if negb (b0 =? 1) || negb (b1 =? 1) then Some (Err ErrNotSuccessResponse)
    else
      attrsLen ← uint16_at b 2; b ← slice_from b headerLen;
      if blen b <? attrsLen then Some (Err ErrMalformedAttrs)
      else
        b ← (if attrsLen <? blen b then slice b 0 attrsLen else Some b);
        r ← foreachAttr (length b) (response_attr tID) (NoAddrPort, NoAddrPort) b;
        match r with
        | Err e => Some (Err e)
        | Ok (addr, fallbackAddr) =>
            if APIsValid addr then Some (Ok (tID, addr))
            else if APIsValid fallbackAddr then Some (Ok (tID, fallbackAddr))
            else Some (Err ErrMalformedAttrs)
        end.

Example stun_demo :
  let t := zb <$> seqZ 1 12 in
  ParseBindingRequest (Request t) = Some (Ok t) ∧
  ParseResponse (Response t (AddrPort (Addr4 3232235777) 51820)) = Some (Ok (t, AddrPort (Addr4 3232235777) 51820)).
Proof. vm_compute. done. Qed.

(** ** Attributes as values *)

(** [b] is the attributes [l], each padded to four bytes. *)
Inductive encodes : list (Z * list byte) → list byte → Prop :=
  | encodes_nil : encodes [] []
  | encodes_cons ty a pad l b :
      0 <= ty < 65536 → blen a < 65536 → blen pad = Z.ldiff (blen a + 3) 3 - blen a → encodes l b →
      encodes ((ty, a) :: l) (be_enc 2 ty ++ be_enc 2 (blen a) ++ a ++ pad ++ b).

Fixpoint fold_attrs {S} (fn : S → Z → list byte → option (result stun_error S)) (st : S) (l : list (Z * list byte))
    : option (result stun_error S) :=
  match l with
  | [] => Some (Ok st)
  | (ty, a) :: l' => r ← fn st ty a; match r with Err e => Some (Err e) | Ok st => fold_attrs fn st l' end
  end.

Lemma pad4 n : 0 <= n → n <= Z.ldiff (n + 3) 3 < n + 4.
Proof.
  intros Hn. replace (Z.ldiff (n + 3) 3) with ((n + 3) - (n + 3) `mod` 4).
  - pose proof (Z.mod_pos_bound (n + 3) 4). lia.
  - change 3 with (Z.ones 2) at 4. rewrite Z.ldiff_ones_r by lia. rewrite Z.shiftr_div_pow2, Z.shiftl_mul_pow2 by lia.
    change (2 ^ 2) with 4. pose proof (Z.div_mod (n + 3) 4). lia.
Qed.

Lemma foreachAttr_step {S} fn (st : S) fuel ty a pad b :
  0 <= ty < 65536 → blen a < 65536 → blen pad = Z.ldiff (blen a + 3) 3 - blen a →
  foreachAttr (Datatypes.S fuel) fn st (be_enc 2 ty ++ be_enc 2 (blen a) ++ a ++ pad ++ b) =
    (r ← fn st ty a; match r with Err e => Some (Err e) | Ok st => foreachAttr fuel fn st b end).
Proof.
  intros Hty Ha Hpad. assert (0 <= blen a ∧ 0 <= blen b) as [Ha0 Hb0] by (unfold blen; lia). pose proof (pad4 (blen a) Ha0) as Hp.
  set (p := be_enc 2 ty ++ be_enc 2 (blen a) ++ a ++ pad ++ b).
  assert (blen p = 4 + blen a + blen pad + blen b) as Hlen by (unfold p; rewrite !blen_app, !blen_be_enc; lia).
  cbn [foreachAttr].
  rewrite (proj2 (Z.eqb_neq (blen p) 0)), (proj2 (Z.ltb_ge (blen p) 4)) by lia.
  rewrite (uint16_mid p [] ty (be_enc 2 (blen a) ++ a ++ pad ++ b) 0) by done.
  rewrite (uint16_mid p (be_enc 2 ty) (blen a) (a ++ pad ++ b) 2) by (done || lia).
  rewrite (slice_from_app p (be_enc 2 ty ++ be_enc 2 (blen a)) (a ++ pad ++ b) 4) by (try done; unfold p; by rewrite <- app_assoc).
  cbn [mbind option_bind].
  rewrite (proj2 (Z.ltb_ge _ _)) by (rewrite !blen_app; lia).
  rewrite (slice_mid (a ++ pad ++ b) [] a (pad ++ b) 0 (blen a)) by done. cbn [mbind option_bind].
  destruct (fn st ty a) as [[st'|e]|]; [|done|done]. cbn [mbind option_bind].
  by rewrite (slice_from_app (a ++ pad ++ b) (a ++ pad) b) by (rewrite ?blen_app, <- ?app_assoc; (done || lia)).
Qed.

Lemma foreachAttr_encodes {S} fn (st : S) l b :
  encodes l b → ∀ fuel, (length b <= fuel)%nat → foreachAttr fuel fn st b = fold_attrs fn st l.
Proof.
  intros H. revert st. induction H as [|ty a pad l b Hty Ha Hpad Hl IH]; intros st fuel Hf.
  { by destruct fuel. }
  rewrite !length_app, !length_be_enc in Hf. destruct fuel as [|fuel]; [lia|].
  rewrite foreachAttr_step by done. cbn [fold_attrs].
  destruct (fn st ty a) as [[st'|e]|]; [|done|done]. cbn [mbind option_bind]. apply IH. lia.
Qed.

(** One turn of the loop on a text that is no end: malformed, or a first
    attribute and the rest. *)
Lemma attr_split b :
  blen b ≠ 0 →
  (∀ S fuel fn (st : S), foreachAttr (Datatypes.S fuel) fn st b = Some (Err ErrMalformedAttrs)) ∨
  ∃ ty a pad b', b = be_enc 2 ty ++ be_enc 2 (blen a) ++ a ++ pad ++ b' ∧
    0 <= ty < 65536 ∧ blen a < 65536 ∧ blen pad = Z.ldiff (blen a + 3) 3 - blen a.
Proof.
  intros Hne. destruct (Z.ltb_spec (blen b) 4) as [Hs|Hs].
  { left. intros. cbn [foreachAttr]. by rewrite (proj2 (Z.eqb_neq _ _)), (proj2 (Z.ltb_lt _ _)). }
  assert (∀ lo, 0 <= lo → lo + 2 <= blen b → ∃ x y, slice b lo (lo + 2) = Some x ∧ uint16_at b lo = Some y ∧
    x = be_enc 2 y ∧ 0 <= y < 65536) as H16.
  { intros lo Hlo Hb. unfold uint16_at. destruct (slice_some b lo (lo + 2)) as [x Hx]; [lia|done|].
    exists x, (be_dec x). rewrite Hx. split; [done|]. split; [done|]. split.
    - unfold slice in Hx. destruct (_ && _); [|done]. injection Hx as <-.
      rewrite <- (be_enc_dec (take _ _)) at 1. f_equal. rewrite length_take, length_drop. unfold blen in *. lia.
    - pose proof (be_dec_range x) as Hr. unfold slice in Hx. destruct (_ && _); [|done]. injection Hx as <-.
      rewrite length_take, length_drop in Hr. unfold blen in *.
      replace (Z.of_nat _) with 2 in Hr by lia. exact Hr. }
  destruct (H16 0) as (t & ty & Ht & Hty & Et & Rt); [lia|lia|]. destruct (H16 2) as (n & len & Hn & Hlen & En & Rn); [lia|lia|].
  set (rest := drop 4 b).
  assert (b = be_enc 2 ty ++ be_enc 2 len ++ rest) as Eb.
  { unfold slice in Ht, Hn. destruct (_ && _) in Ht; [|done]. destruct (_ && _) in Hn; [|done].
    injection Ht as Ht. injection Hn as Hn. cbn in Ht, Hn. rewrite drop_0 in Ht. rewrite <- Et, <- En, <- Ht, <- Hn. unfold rest.
    rewrite <- (take_drop 2 b) at 1. f_equal. rewrite <- (take_drop 2 (drop 2 b)) at 1. f_equal. by rewrite drop_drop. }
  pose proof (pad4 len ltac:(lia)) as Hp.
  assert (∀ x y : Z, Some x = Some y → x = y) as Hinj by congruence.
  destruct (Z.ltb_spec (blen rest) (Z.ldiff (len + 3) 3)) as [Hr|Hr].
  - left. intros. cbn [foreachAttr]. rewrite (proj2 (Z.eqb_neq _ _)), (proj2 (Z.ltb_ge _ _)) by done.
    change (0 + 2) with 2 in *. rewrite Hty, Hlen.
    rewrite (slice_from_app b (be_enc 2 ty ++ be_enc 2 len) rest 4) by (try done; by rewrite <- app_assoc).
    cbn [mbind option_bind]. by rewrite (proj2 (Z.ltb_lt _ _)).
  - right. set (a := take (Z.to_nat len) rest). set (r := drop (Z.to_nat len) rest).
    set (k := Z.to_nat (Z.ldiff (len + 3) 3 - len)). unfold blen in Hr.
    assert (blen a = len) as La by (unfold a, blen; rewrite length_take; lia).
    exists ty, a, (take k r), (drop k r). rewrite La. split_and!; try lia.
    + rewrite (take_drop k r). unfold a, r. by rewrite take_drop.
    + unfold blen. rewrite length_take. unfold k, r. rewrite length_drop. lia.
Qed.

Lemma foreachAttr_total {S} fn (st : S) fuel :
  (∀ st ty a, is_Some (fn st ty a)) → ∀ b, is_Some (foreachAttr fuel fn st b).
Proof.
  intros Hfn. revert st. induction fuel as [|fuel IH]; intros st b; [done|].
  destruct (decide (blen b = 0)) as [He|Hne]; [cbn [foreachAttr]; by rewrite He|].
  destruct (attr_split b Hne) as [->|(ty & a & pad & b' & -> & H1 & H2 & H3)]; [done|].
  rewrite foreachAttr_step by done. destruct (Hfn st ty a) as [[st'|e] ->]; [apply IH|done].
Qed.

Lemma foreachAttr_ok {S} fn (st st' : S) b : ∀ fuel, (length b <= fuel)%nat →
  foreachAttr fuel fn st b = Some (Ok st') → ∃ l, encodes l b ∧ fold_attrs fn st l = Some (Ok st').
Proof.
  intros fuel. revert b st. induction fuel as [|fuel IH]; intros b st Hf H.
  { destruct b; [|simpl in Hf; lia]. exists []. split; [constructor|done]. }
  destruct (decide (blen b = 0)) as [He|Hne].
  { assert (b = []) as -> by (apply length_zero_iff_nil; unfold blen in He; lia). exists []. split; [constructor|done]. }
  destruct (attr_split b Hne) as [Hm|(ty & a & pad & b' & -> & H1 & H2 & H3)]; [by rewrite Hm in H|].
  rewrite foreachAttr_step in H by done. rewrite !length_app, !length_be_enc in Hf.
  destruct (fn st ty a) as [[st1|e]|] eqn:E; [|done|done]. cbn [mbind option_bind] in H.
  destruct (IH b' st1 ltac:(lia) H) as (l & Hl & Hfold). exists ((ty, a) :: l).
  split; [by constructor|]. cbn [fold_attrs]. by rewrite E.
Qed.

(** ** Requests *)

Lemma Is_spec b :
  Is b = true ↔ ∃ h1 h2 len t rest,
    b = [h1; h2] ++ len ++ magicCookie ++ t ++ rest ∧ length len = 2%nat ∧ length t = 12%nat ∧ Z.land (bz h1) 192 = 0.
Proof.
  unfold Is. split.
  - destruct (Z.leb_spec headerLen (blen b)) as [Hlen|]; [|done]. intros H. unfold headerLen, blen in Hlen.
    destruct b as [|h1 [|h2 b]]; simpl in Hlen; try lia. rewrite (at_mid _ [] h1 (h2 :: b)) in H by done. cbn [andb] in H.
    destruct (Z.eqb_spec (Z.land (bz h1) 192) 0) as [Hh|]; [|done]. apply bool_decide_eq_true_1 in H.
    unfold slice in H. destruct (_ && _) in H; [|done]. injection H as H.
    change (take (Z.to_nat (8 - 4)) (drop (Z.to_nat 4) (h1 :: h2 :: b))) with (take 4 (drop 2 b)) in H.
    exists h1, h2, (take 2 b), (take 12 (drop 6 b)), (drop 18 b). split_and!; [| | |done].
    + rewrite <- H. do 2 (simpl; f_equal). rewrite <- (take_drop 2 b) at 1. f_equal.
      rewrite <- (take_drop 4 (drop 2 b)) at 1. f_equal. rewrite drop_drop, <- (take_drop 12 (drop _ b)) at 1.
      by rewrite drop_drop.
    + rewrite length_take. lia.
    + rewrite length_take, length_drop. lia.
  - intros (h1 & h2 & len & t & rest & -> & Hl & Ht & Hh).
    rewrite (proj2 (Z.leb_le _ _)) by (unfold blen, headerLen; rewrite !length_app, Hl, Ht; simpl; lia).
    rewrite (at_mid _ [] h1 (h2 :: len ++ magicCookie ++ t ++ rest)) by done. rewrite Hh. cbn [andb Z.eqb].
    apply bool_decide_eq_true_2. apply (slice_mid _ ([h1; h2] ++ len) _ (t ++ rest)); [by rewrite <- !app_assoc| |done].
    unfold blen. by rewrite length_app, Hl.
Qed.

(** The value of the last fingerprint attribute of four bytes. *)
Definition last_fingerprint (fp : Z) (l : list (Z * list byte)) : Z :=
  foldl (λ fp ta, if (ta.1 =? attrNumFingerprint) && (blen ta.2 =? 4) then be_dec ta.2 else fp) fp l.

Lemma fold_request_attr l : ∀ ok la fp,
  fold_attrs request_attr (ok, la, fp) l =
  Some (Ok (ok || bool_decide ((attrNumSoftware, software) ∈ l), default la (fst <$> last l), last_fingerprint fp l)).
Proof.
  induction l as [|[ty a] l IH]; intros ok la fp.
  { simpl. by rewrite orb_false_r. }
  cbn [fold_attrs request_attr mbind option_bind]. rewrite IH.
  assert (ok || (ty =? attrNumSoftware) && bool_decide (a = software) || bool_decide ((attrNumSoftware, software) ∈ l)
    = ok || bool_decide ((attrNumSoftware, software) ∈ (ty, a) :: l)) as ->.
  { rewrite <- orb_assoc. f_equal. apply eq_true_iff_eq.
    rewrite orb_true_iff, andb_true_iff, Z.eqb_eq, !bool_decide_eq_true, elem_of_cons.
    split; [intros [[-> ->]|?]; auto|intros [[= -> ->]|?]; auto]. }
  assert (default ty (fst <$> last l) = default la (fst <$> last ((ty, a) :: l))) as ->; [|done].
  destruct l as [|x l]; [done|]. change (last ((ty, a) :: x :: l)) with (last (x :: l)).
  by destruct (last (x :: l)) eqn:E; [|apply last_None in E].
Qed.

(** What [ParseBindingRequest] accepts, with the transaction it returns. *)
Definition valid_request (b : list byte) (t : TxID) : Prop :=
  ∃ len attrs l,
    b = bindingRequest ++ len ++ magicCookie ++ t ++ attrs ∧ length len = 2%nat ∧ length t = 12%nat ∧
    encodes l attrs ∧ (attrNumSoftware, software) ∈ l ∧ fst <$> last l = Some attrNumFingerprint ∧
    last_fingerprint 0 l = fingerPrint (take (length b - 8) b).

Lemma request_attr_total st ty a : is_Some (request_attr st ty a).
Proof. by destruct st as [[ok la] fp]. Qed.

Lemma ParseBindingRequest_total b : is_Some (ParseBindingRequest b).
Proof.
  unfold ParseBindingRequest. destruct (negb (Is b)) eqn:E; [done|]. go_bool.
  assert (20 <= blen b) as Hl by (unfold Is in E; go_bool; done). in_bounds.
  destruct (negb _); [done|]. unfold slice_from, headerLen, blen in *. in_bounds.
  match goal with |- context [foreachAttr ?n ?f ?s ?b] => destruct (foreachAttr_total f s n (request_attr_total) b) as [r ->] end.
  destruct r as [[[ok la] fp]|e]; [|done]. cbn [mbind option_bind].
  destruct (negb ok); [done|]. destruct (negb _); [done|].
  destruct (slice_some b 0 (Z.of_nat (length b) - lenFingerprint)) as [body ->]; [unfold blen, lenFingerprint in *; lia..|].
  cbn [mbind option_bind]. by destruct (negb _).
Qed.

Lemma ParseBindingRequest_spec b t : ParseBindingRequest b = Some (Ok t) ↔ valid_request b t.
Proof.
  unfold ParseBindingRequest, valid_request. split.
  - destruct (negb (Is b)) eqn:E; [done|]. go_bool. apply Is_spec in E as (h1 & h2 & len & t' & attrs & Hb & Hl & Ht & _).
    rewrite (slice_mid b [] [h1; h2] (len ++ magicCookie ++ t' ++ attrs) 0 2) by done.
    rewrite (slice_mid b ([h1; h2] ++ len ++ magicCookie) t' attrs 8 20); [|rewrite Hb; by rewrite <- !app_assoc|unfold blen; by rewrite !length_app, Hl|unfold blen; by rewrite Ht].
    rewrite (slice_from_app b ([h1; h2] ++ len ++ magicCookie ++ t') attrs headerLen); [|rewrite Hb; by rewrite <- !app_assoc|unfold blen; by rewrite !length_app, Hl, Ht].
    cbn [mbind option_bind]. destruct (bool_decide ([h1; h2] = bindingRequest)) eqn:Eh; [|done]. go_bool.
    destruct (foreachAttr (length attrs) request_attr (false, 0, 0) attrs) as [[[[ok la] fp]|e]|] eqn:Ef; [|done|done].
    apply foreachAttr_ok in Ef as (l & Henc & Hfold); [|done]. rewrite fold_request_attr in Hfold. injection Hfold as <- <- <-.
    cbn [negb orb mbind option_bind]. case_bool_decide as Hs; [|done]. cbn [negb].
    destruct (Z.eqb_spec (default 0 (fst <$> last l)) attrNumFingerprint) as [Hla|]; [|done]. cbn [negb].
    rewrite (slice_mid b [] (take (length b - 8) b) (drop (length b - 8) b) 0 (blen b - lenFingerprint)); [|by rewrite app_nil_l, take_drop|done|].
    2:{ unfold blen, lenFingerprint. rewrite length_take, Hb, !length_app, Hl, Ht. simpl. lia. }
    cbn [mbind option_bind]. destruct (Z.eqb_spec (last_fingerprint 0 l) (fingerPrint (take (length b - 8) b))); [|done].
    intros [= ->]. exists len, attrs, l. rewrite <- Eh. split_and!; try done. by destruct (last l) as [x|]; simpl in *; [f_equal|].
  - intros (len & attrs & l & Hb & Hl & Ht & Henc & Hs & Hla & Hfp).
    rewrite (proj2 (Is_spec b)) by (exists Byte.x00, Byte.x01, len, t, attrs; done). cbn [negb].
    rewrite (slice_mid b [] bindingRequest (len ++ magicCookie ++ t ++ attrs) 0 2) by done.
    rewrite (slice_mid b (bindingRequest ++ len ++ magicCookie) t attrs 8 20); [|rewrite Hb; by rewrite <- !app_assoc|unfold blen; by rewrite !length_app, Hl|unfold blen; by rewrite Ht].
    rewrite (slice_from_app b (bindingRequest ++ len ++ magicCookie ++ t) attrs headerLen); [|rewrite Hb; by rewrite <- !app_assoc|unfold blen; by rewrite !length_app, Hl, Ht].
    cbn [mbind option_bind]. rewrite bool_decide_true by done. cbn [negb].
    rewrite (foreachAttr_encodes _ _ l) by done. rewrite fold_request_attr. cbn [mbind option_bind orb].
    rewrite bool_decide_true, Hla by done. cbn [negb default]. rewrite Z.eqb_refl. cbn [negb].
    rewrite (slice_mid b [] (take (length b - 8) b) (drop (length b - 8) b) 0 (blen b - lenFingerprint)); [|by rewrite app_nil_l, take_drop|done|].
    2:{ unfold blen, lenFingerprint. rewrite length_take, Hb, !length_app, Hl, Ht. simpl. lia. }
    cbn [mbind option_bind]. by rewrite Hfp, Z.eqb_refl.
Qed.

Lemma encodes_cons_aligned ty a l b :
  0 <= ty < 65536 → blen a < 65536 → blen a `mod` 4 = 0 → encodes l b →
  encodes ((ty, a) :: l) (be_enc 2 ty ++ be_enc 2 (blen a) ++ a ++ b).
Proof.
  intros Hty Ha Hm Hl. apply (encodes_cons ty a [] l b); try done.
  assert (0 <= blen a) as H0 by (unfold blen; lia). pose proof (pad4 (blen a) H0) as Hp.
  assert (Z.ldiff (blen a + 3) 3 `mod` 4 = 0) as Hd.
  { change 3 with (Z.ones 2) at 2. rewrite Z.ldiff_ones_r, Z.shiftl_mul_pow2 by lia. by apply Z.mod_mul. }
  change (blen []) with 0. Z.to_euclidean_division_equations. lia.
Qed.

Lemma crc_bit_range c : 0 <= c < 2 ^ 32 → 0 <= crc_bit c < 2 ^ 32.
Proof.
  intros Hc. unfold crc_bit.
  assert (0 <= Z.shiftr c 1 < 2 ^ 31) as Hs by (rewrite Z.shiftr_div_pow2 by lia; Z.to_euclidean_division_equations; lia).
  destruct (Z.testbit c 0); [|lia]. apply (xor_range 32); lia.
Qed.

Lemma crc32_range l : 0 <= crc32 l < 2 ^ 32.
Proof.
  unfold crc32. apply (xor_range 32); [lia| |lia]. assert (0 <= 4294967295 < 2 ^ 32) as H by lia. revert H. generalize 4294967295.
  induction l as [|b l IH]; intros c Hc; [done|]. simpl. apply IH. unfold crc_byte.
  pose proof (bz_range b). apply Nat.iter_invariant; [intros; by apply crc_bit_range|]. apply (xor_range 32); lia.
Qed.

Lemma fingerPrint_range b : 0 <= fingerPrint b < 2 ^ 32.
Proof. unfold fingerPrint. apply (xor_range 32); [lia|apply crc32_range|lia]. Qed.

Lemma Request_valid t : length t = 12%nat → valid_request (Request t) t.
Proof.
  intros Ht. unfold Request. cbv zeta. unfold appendU16, appendU32. change (4 + blen software + lenFingerprint) with 20.
  set (body := ((((((bindingRequest ++ be_enc 2 20) ++ magicCookie) ++ t) ++ be_enc 2 attrNumSoftware) ++ be_enc 2 (blen software)) ++ software)).
  set (fp := fingerPrint body). set (l := [(attrNumSoftware, software); (attrNumFingerprint, be_enc 4 fp)]).
  exists (be_enc 2 20), (be_enc 2 attrNumSoftware ++ be_enc 2 (blen software) ++ software
    ++ be_enc 2 attrNumFingerprint ++ be_enc 2 (blen (be_enc 4 fp)) ++ be_enc 4 fp ++ []), l.
  split_and!; try done.
  - unfold body. rewrite app_nil_r, <- !app_assoc. done.
  - apply encodes_cons_aligned; try done. apply encodes_cons_aligned; try done; constructor.
  - left.
  - unfold last_fingerprint, l. cbn [foldl fst snd]. rewrite blen_be_enc. cbn [Z.eqb Pos.eqb andb attrNumFingerprint attrNumSoftware].
    rewrite be_dec_enc_small by (pose proof (fingerPrint_range body); unfold fp; lia). unfold fp. f_equal.
    rewrite <- !(app_assoc body). rewrite take_app_length'; [done|].
    rewrite !length_app, !length_be_enc. lia.
Qed.

(** Binding requests.  The parser accesses nothing out of range; it takes
    back the transaction of every request built here; and it accepts exactly
    the messages of that type with the cookie whose attributes parse, contain
    the software mark, end in a fingerprint, and whose last four-byte
    fingerprint is the CRC of all but the last eight bytes. *)
Theorem requests_correct :
  (∀ b, is_Some (ParseBindingRequest b)) ∧
  (∀ t, length t = 12%nat → ParseBindingRequest (Request t) = Some (Ok t)) ∧
  (∀ b t, ParseBindingRequest b = Some (Ok t) ↔ valid_request b t).
Proof.
  split; [apply ParseBindingRequest_total|]. split; [|apply ParseBindingRequest_spec].
  intros t Ht. by apply ParseBindingRequest_spec, Request_valid.
Qed.

(** ** Responses *)

Lemma be_enc_drop j m z : drop j (be_enc (j + m) z) = be_enc m z.
Proof.
  revert z. induction m as [|m IH]; intros z.
  - rewrite Nat.add_0_r. apply drop_ge. by rewrite length_be_enc.
  - assert (∀ n, be_enc (S n) z = be_enc n (z `div` 256) ++ [zb z]) as Hs by done.
    rewrite Nat.add_succ_r, !Hs. rewrite drop_app_le by (rewrite length_be_enc; lia). by rewrite IH.
Qed.

Lemma xor_addr_involutive t a : (length a <= length (magicCookie ++ t))%nat → xor_addr t (xor_addr t a) = a.
Proof.
  unfold xor_addr. generalize (magicCookie ++ t) as k. clear t.
  induction a as [|x a IH]; intros [|y k] Hl; simpl in *; try done; [lia|]. rewrite bxor_involutive. f_equal. apply IH. lia.
Qed.

Lemma length_xor_addr t a : length t = 12%nat → (length a <= 16)%nat → length (xor_addr t a) = length a.
Proof. intros Ht Ha. unfold xor_addr. rewrite length_zip_with, length_app, Ht. simpl. lia. Qed.

(** The address bytes of a response. *)
Definition addr_field (x : addr) : list byte := drop (Z.to_nat (16 - BitLen x / 8)) (As16 x).

Lemma addr_field_spec x :
  addr_wf x → IsValid x = true →
  addr_field x = be_enc (Z.to_nat (BitLen x / 8)) (addr_bits x) ∧ AddrFromSlice (addr_field x) = Some (withoutZone x).
Proof.
  destruct x as [|a|a z]; intros Hwf Hv; [done| |]; unfold addr_field, AddrFromSlice; cbn [BitLen As16 addr_bits addr_wf withoutZone] in *.
  - change (Z.to_nat (16 - 32 / 8)) with 12%nat. change (Z.to_nat (32 / 8)) with 4%nat.
    rewrite (be_enc_drop 12 4). assert (be_enc 4 (65535 * 2 ^ 32 + a) = be_enc 4 a) as ->.
    { rewrite <- (be_enc_dec (be_enc 4 (65535 * 2 ^ 32 + a))), length_be_enc, be_dec_enc. f_equal.
      change (256 ^ Z.of_nat 4) with (2 ^ 32). rewrite Z.add_comm, Z.mod_add by lia. by apply Z.mod_small. }
    split; [done|]. rewrite length_be_enc. unfold AddrFrom4. by rewrite be_dec_enc_small.
  - change (Z.to_nat (16 - 128 / 8)) with 0%nat. change (Z.to_nat (128 / 8)) with 16%nat. rewrite drop_0.
    split; [done|]. rewrite length_be_enc. unfold AddrFrom16. by rewrite be_dec_enc_small.
Qed.

(** The value of the one attribute of a response. *)
Definition mapped_value (t : TxID) (ap : addrport) : list byte :=
  [Byte.x00; if Is4 (apaddr ap) then Byte.x01 else Byte.x02] ++ be_enc 2 (Z.lxor (apport ap) 8466) ++ xor_addr t (addr_field (apaddr ap)).

Lemma length_addr_field x : addr_wf x → IsValid x = true → Z.of_nat (length (addr_field x)) = BitLen x / 8 ∧ (length (addr_field x) <= 16)%nat.
Proof.
  intros Hwf Hv. destruct (addr_field_spec x Hwf Hv) as [-> _]. rewrite length_be_enc. by destruct x; [|vm_compute; split; [|lia]..].
Qed.

Lemma Response_bytes t ap :
  addr_wf (apaddr ap) → IsValid (apaddr ap) = true → length t = 12%nat →
  Response t ap = [Byte.x01; Byte.x01] ++ be_enc 2 (8 + BitLen (apaddr ap) / 8) ++ magicCookie ++ t
    ++ be_enc 2 attrXorMappedAddress ++ be_enc 2 (blen (mapped_value t ap)) ++ mapped_value t ap ++ [].
Proof.
  intros Hwf Hv Ht. unfold Response. rewrite Hv. cbn [negb]. cbv zeta. unfold appendU16.
  destruct (length_addr_field _ Hwf Hv) as [Hl Hl'].
  assert (blen (mapped_value t ap) = 4 + BitLen (apaddr ap) / 8) as ->.
  { unfold mapped_value. rewrite !blen_app, blen_be_enc. unfold blen. rewrite length_xor_addr, Hl by done. simpl length. lia. }
  assert (∀ k, 0 <= k <= 8 → u16 (k + BitLen (apaddr ap) / 8) = k + BitLen (apaddr ap) / 8) as Hu.
  { intros k Hk. unfold u16. apply Z.mod_small. destruct (apaddr ap); [done|change (BitLen (Addr4 a) / 8) with 4|change (BitLen (Addr6 a zone) / 8) with 16]; lia. }
  rewrite !Hu by lia. unfold mapped_value, addr_field. rewrite app_nil_r, <- !app_assoc. done.
Qed.

Lemma xorMappedAddress_value t ap :
  addr_wf (apaddr ap) → IsValid (apaddr ap) = true → length t = 12%nat → 0 <= apport ap < 65536 →
  xorMappedAddress t (mapped_value t ap) = Some (Ok (addr_field (apaddr ap), apport ap)).
Proof.
  intros Hwf Hv Ht Hp. destruct (length_addr_field _ Hwf Hv) as [Hl Hl']. unfold xorMappedAddress.
  set (v := mapped_value t ap). set (f := if Is4 (apaddr ap) then Byte.x01 else Byte.x02).
  assert (v = [Byte.x00; f] ++ be_enc 2 (Z.lxor (apport ap) 8466) ++ xor_addr t (addr_field (apaddr ap))) as Hvv by done.
  rewrite (proj2 (Z.ltb_ge _ _)) by (rewrite Hvv, !blen_app, blen_be_enc; unfold blen; simpl; lia).
  rewrite (uint16_mid v [Byte.x00; f] (Z.lxor (apport ap) 8466) (xor_addr t (addr_field (apaddr ap))) 2) by (done || apply (xor_range 16); lia).
  rewrite (slice_from_app v ([Byte.x00; f] ++ be_enc 2 (Z.lxor (apport ap) 8466)) (xor_addr t (addr_field (apaddr ap))) 4) by done.
  rewrite (at_mid v [Byte.x00] f (be_enc 2 (Z.lxor (apport ap) 8466) ++ xor_addr t (addr_field (apaddr ap))) 1) by done.
  cbn [mbind option_bind].
  assert (familyAddrLen (bz f) = BitLen (apaddr ap) / 8) as -> by (unfold f; by destruct (apaddr ap)).
  rewrite (proj2 (Z.eqb_neq _ 0)) by (by destruct (apaddr ap)).
  rewrite (proj2 (Z.ltb_ge _ _)) by (unfold blen; rewrite length_xor_addr by done; lia).
  rewrite (slice_mid _ [] (xor_addr t (addr_field (apaddr ap))) [] 0 (BitLen (apaddr ap) / 8));
    [|by rewrite app_nil_r|done|unfold blen; rewrite length_xor_addr by done; simpl; lia].
  cbn [mbind option_bind]. rewrite xor_addr_involutive by (rewrite length_app, Ht; simpl; lia).
  by rewrite Z.lxor_assoc, Z.lxor_nilpotent, Z.lxor_0_r.
Qed.

Lemma ParseResponse_Response t ap junk :
  addr_wf (apaddr ap) → IsValid (apaddr ap) = true → length t = 12%nat → 0 <= apport ap < 65536 →
  ParseResponse (Response t ap ++ junk) = Some (Ok (t, AddrPort (Unmap (withoutZone (apaddr ap))) (apport ap))).
Proof.
  intros Hwf Hv Ht Hp. rewrite Response_bytes by done. set (n := BitLen (apaddr ap) / 8).
  set (v := mapped_value t ap). set (attrs := be_enc 2 attrXorMappedAddress ++ be_enc 2 (blen v) ++ v ++ []).
  assert (n = 4 ∨ n = 16) as Hn by (unfold n; destruct (apaddr ap); [done|by left|by right]).
  destruct (length_addr_field _ Hwf Hv) as [Hl Hl']. fold n in Hl.
  assert (blen v = 4 + n) as Lv.
  { unfold v, mapped_value. rewrite !blen_app, blen_be_enc. unfold blen. rewrite length_xor_addr, Hl by done. simpl length. lia. }
  assert (blen attrs = 8 + n) as La by (unfold attrs; rewrite !blen_app, !blen_be_enc, Lv; change (blen []) with 0; lia).
  assert (encodes [(attrXorMappedAddress, v)] attrs) as Henc.
  { apply encodes_cons_aligned; [done|lia|rewrite Lv; by destruct Hn as [-> | ->]|constructor]. }
  set (b := _ ++ junk).
  assert (b = [Byte.x01; Byte.x01] ++ be_enc 2 (8 + n) ++ magicCookie ++ t ++ (attrs ++ junk)) as Hb
    by (unfold b; by rewrite <- !app_assoc).
  unfold ParseResponse. rewrite (proj2 (Is_spec b)) by (exists Byte.x01, Byte.x01, (be_enc 2 (8 + n)), t, (attrs ++ junk); split_and!; done).
  cbn [negb].
  rewrite (slice_mid b ([Byte.x01; Byte.x01] ++ be_enc 2 (8 + n) ++ magicCookie) t (attrs ++ junk) 8 20);
    [|rewrite Hb; by rewrite <- !app_assoc|done|unfold blen; by rewrite Ht].
  rewrite (at_mid b [] Byte.x01 (drop 1 b) 0) by done. rewrite (at_mid b [Byte.x01] Byte.x01 (drop 2 b) 1) by done.
  rewrite (uint16_mid b [Byte.x01; Byte.x01] (8 + n) (magicCookie ++ t ++ attrs ++ junk) 2) by (done || lia).
  rewrite (slice_from_app b ([Byte.x01; Byte.x01] ++ be_enc 2 (8 + n) ++ magicCookie ++ t) (attrs ++ junk) headerLen);
    [|rewrite Hb; by rewrite <- !app_assoc|unfold blen; by rewrite !length_app, Ht].
  cbn [mbind option_bind]. change (bz Byte.x01 =? 1) with true. cbn [negb orb].
  assert (0 <= blen junk) by (unfold blen; lia).
  rewrite (proj2 (Z.ltb_ge _ _)) by (rewrite blen_app; lia).
  assert ((if 8 + n <? blen (attrs ++ junk) then slice (attrs ++ junk) 0 (8 + n) else Some (attrs ++ junk)) = Some attrs) as ->.
  { destruct (Z.ltb_spec (8 + n) (blen (attrs ++ junk))) as [Hlt|Hge].
    - apply (slice_mid _ [] attrs junk); [done|done|]. rewrite La. done.
    - rewrite blen_app in Hge. assert (junk = []) as -> by (apply length_zero_iff_nil; unfold blen in *; lia). by rewrite app_nil_r. }
  cbn [mbind option_bind]. rewrite (foreachAttr_encodes _ _ _ _ Henc) by done.
  cbn [fold_attrs response_attr]. change (_ || _) with true. cbv iota.
  unfold v. rewrite xorMappedAddress_value by done. cbn [mbind option_bind].
  rewrite (proj2 (addr_field_spec _ Hwf Hv)). cbn [mbind option_bind].
  assert (APIsValid (AddrPort (Unmap (withoutZone (apaddr ap))) (apport ap)) = true) as ->; [|done].
  unfold APIsValid. simpl. destruct (apaddr ap); [done|done|]. unfold Unmap. by destruct (Is4In6 _).
Qed.

Lemma familyAddrLen_nonneg f : 0 <= familyAddrLen f.
Proof. unfold familyAddrLen. repeat case_match; lia. Qed.

Lemma addr_field_total b fam : is_Some (xorMappedAddress fam b) ∧ is_Some (mappedAddress b).
Proof.
  unfold xorMappedAddress, mappedAddress. destruct (Z.ltb_spec (blen b) 4); [done|]. unfold slice_from.
  in_bounds. unfold blen in *. in_bounds.
  split; (destruct (_ =? 0); [done|]);
    match goal with |- context [if ?x <? ?y then _ else _] => destruct (Z.ltb_spec x y); [done|] end;
    match goal with |- context [familyAddrLen ?f] => pose proof (familyAddrLen_nonneg f) end;
    match goal with |- context [slice ?l 0 ?n] => destruct (slice_some l 0 n) as [? ->]; [lia|unfold blen; lia|done] end.
Qed.

Lemma response_attr_total t st ty a : is_Some (response_attr t st ty a).
Proof.
  destruct st as [addr fb]. unfold response_attr. destruct (addr_field_total a t) as [[r1 ->] [r2 ->]].
  cbn [mbind option_bind]. destruct (_ || _); [destruct r1 as [[ip port]|]; [by case_match|done]|].
  destruct (_ =? _); [destruct r2 as [[ip port]|]; [by case_match|done]|done].
Qed.

Lemma ParseResponse_total b : is_Some (ParseResponse b).
Proof.
  unfold ParseResponse. destruct (negb (Is b)) eqn:E; [done|]. go_bool.
  assert (20 <= blen b) as Hl by (unfold Is in E; go_bool; done).
  destruct (uint16_some b 2) as [n Hlen]; [lia|lia|]. rewrite Hlen. in_bounds.
  destruct (_ || _); [done|]. destruct (slice_some b headerLen (blen b)) as [b' Hb']; [unfold headerLen; lia|lia|].
  unfold slice_from, headerLen in *. fold (blen b). rewrite Hb'. cbn [mbind option_bind].
  match goal with |- context [if ?x <? ?y then Some (Err ErrMalformedAttrs) else _] => destruct (Z.ltb_spec x y) as [|Hle]; [done|] end.
  assert (0 <= n) as Hn by (apply uint16_range in Hlen; lia).
  assert (is_Some (if n <? blen b' then slice b' 0 n else Some b')) as [b'' ->].
  { destruct (n <? blen b'); [apply slice_some; lia|done]. }
  cbn [mbind option_bind].
  match goal with |- context [foreachAttr ?k (response_attr ?t) ?s ?l] => destruct (foreachAttr_total (response_attr t) s k (response_attr_total t) l) as [r ->] end.
  cbn [mbind option_bind]. destruct r as [[addr fb]|e]; [|done]. by repeat case_match.
Qed.

(** Binding responses.  The parser accesses nothing out of range.  From a
    response built here for any valid address, whatever bytes follow it, it
    takes back the transaction, the port and the address, an IPv4 address
    mapped into IPv6 as the IPv4 one and without a zone.  What it returns is
    valid and carries the message's transaction. *)
Theorem responses_correct :
  (∀ b, is_Some (ParseResponse b)) ∧
  (∀ t ap junk, addr_wf (apaddr ap) → IsValid (apaddr ap) = true → 0 <= apport ap < 65536 → length t = 12%nat →
     ParseResponse (Response t ap ++ junk) = Some (Ok (t, AddrPort (Unmap (withoutZone (apaddr ap))) (apport ap)))) ∧
  (∀ b t ap, ParseResponse b = Some (Ok (t, ap)) →
     Is b = true ∧ slice b 8 20 = Some t ∧ take 2 b = [Byte.x01; Byte.x01] ∧ APIsValid ap = true).
Proof.
  split; [apply ParseResponse_total|]. split; [intros; by apply ParseResponse_Response|].
  intros b t ap. unfold ParseResponse. destruct (Is b) eqn:E; [|done]. cbn [negb].
  destruct (slice b 8 20) as [t'|]; [|done]. cbn [mbind option_bind].
  destruct (Is_spec b) as [Hspec _]. destruct (Hspec E) as (h1 & h2 & len & t'' & rest & Hb & _).
  rewrite (at_mid b [] h1 (drop 1 b) 0) by (done || by rewrite Hb). rewrite (at_mid b [h1] h2 (drop 2 b) 1) by (done || by rewrite Hb).
  cbn [mbind option_bind]. destruct (_ || _) eqn:Eh; [done|]. go_bool.
  assert (h1 = Byte.x01) as -> by (by apply bz_inj). assert (h2 = Byte.x01) as -> by (by apply bz_inj).
  destruct (uint16_at b 2); [|done]. destruct (slice_from b headerLen) as [b'|]; [|done]. cbn [mbind option_bind].
  destruct (_ <? _); [done|]. destruct (if _ <? _ then _ else _) as [b''|]; [|done]. cbn [mbind option_bind].
  destruct (foreachAttr _ _ _ _) as [[[addr fb]|e]|]; [|done|done]. cbn [mbind option_bind].
  destruct (APIsValid addr) eqn:E1; [|destruct (APIsValid fb) eqn:E2; [|done]]; intros [= <- <-];
    (split_and!; [done|done|by rewrite Hb|done]).
Qed.
