(* ===== verification/StunServer.v ===== *)
(** The STUN server: [internal/stun/server.go], and its sockets, [bindSTUN] of
    [internal/server/server.go].

    Each socket is served by a loop with a limit of its own: a packet is read,
    counted against its source, and answered.  The loops share the counters.
    The clock, the order in which the loops run and whether an answer can be
    sent are inputs; the log is left out. *)

From S2P Require Import Prelude GoStrings NetIP Stun.

(** ** The limit per source *)

Record bucket := { start : Z; count : Z }.
Definition zero_bucket : bucket := {| start := 0; count := 0 |}.
Record ipLimiter := { buckets : gmap addr bucket; seen : Z }.
Definition newIPLimiter : ipLimiter := {| buckets := ∅; seen := 0 |}.

(** [allow]; every 1024th call drops the buckets that ended a second ago. *)
Definition allow (max : Z) (now : Z) (ip : addr) (l : ipLimiter) : ipLimiter * bool :=
  let b := default zero_bucket (buckets l !! ip) in
  let b := if second <=? Sub now (start b) then {| start := now; count := 0 |} else b in
  let b := {| start := start b; count := count b + 1 |} in
  let m := <[ip := b]> (buckets l) in
  let l := if 1024 <=? seen l + 1 then {| buckets := filter (λ kv, ¬ (2 * second <= Sub now (start kv.2))) m; seen := 0 |}
           else {| buckets := m; seen := seen l + 1 |} in
  (l, count b <=? max).

(** ** The server *)

Definition DefaultRatePerIP : Z := 20.
Record Counters := { cOK : Z; cRateLimited : Z; cMalformed : Z }.
Definition ratePerIP (opt : Z) : Z := if opt <=? 0 then DefaultRatePerIP else opt.

(** A packet as it is read: its source, unless that is no UDP address. *)
Record packet := { pkNow : Z; pkFrom : option addrport; pkData : list byte; pkWritable : bool }.

Record Server := { svLimit : ipLimiter; svCounters : Counters }.
Definition with_limit (l : ipLimiter) (s : Server) : Server := {| svLimit := l; svCounters := svCounters s |}.
Definition count_ok (s : Server) : Server :=
  {| svLimit := svLimit s; svCounters := {| cOK := cOK (svCounters s) + 1; cRateLimited := cRateLimited (svCounters s); cMalformed := cMalformed (svCounters s) |} |}.
Definition count_limited (s : Server) : Server :=
  {| svLimit := svLimit s; svCounters := {| cOK := cOK (svCounters s); cRateLimited := cRateLimited (svCounters s) + 1; cMalformed := cMalformed (svCounters s) |} |}.
Definition count_malformed (s : Server) : Server :=
  {| svLimit := svLimit s; svCounters := {| cOK := cOK (svCounters s); cRateLimited := cRateLimited (svCounters s); cMalformed := cMalformed (svCounters s) + 1 |} |}.

(** A turn of the loop of [Serve]: the answer, if one is sent; [None] is an
    access out of range. *)
Definition serve_one (max : Z) (p : packet) (s : Server) : option (Server * option (list byte)) :=
  match pkFrom p with
  | None => Some (s, None)
  | Some ap =>
      let from := AddrPort (Unmap (apaddr ap)) (apport ap) in
      let '(l, ok) := allow max (pkNow p) (apaddr from) (svLimit s) in
      let s := with_limit l s in
      if negb ok then Some (count_limited s, None)
      else
        r ← ParseBindingRequest (pkData p);
        match r with
        | Err _ => Some (count_malformed s, None)
        | Ok tx => if pkWritable p then Some (count_ok s, Some (Response tx from)) else Some (s, None)
        end
  end.

(** The packets a socket has read, the newest first: the server after them
    and what each was answered. *)
Fixpoint Serve (max : Z) (ps : list packet) : option (Server * list (packet * option (list byte))) :=
  match ps with
  | [] => Some ({| svLimit := newIPLimiter; svCounters := {| cOK := 0; cRateLimited := 0; cMalformed := 0 |} |}, [])
  | p :: ps => '(s, out) ← Serve max ps; '(s, a) ← serve_one max p s; Some (s, (p, a) :: out)
  end.

(** [bindSTUN]: one loop for each of [n] addresses, each with a limiter and all
    with the same counters.  The packets, the newest first, have the number of
    the socket they were read from. *)
Record Sockets := { skLimits : list ipLimiter; skCounters : Counters }.
Fixpoint serve_sockets (max : Z) (n : nat) (ps : list (nat * packet)) : option (Sockets * list (nat * (packet * option (list byte)))) :=
  match ps with
  | [] => Some ({| skLimits := replicate n newIPLimiter; skCounters := {| cOK := 0; cRateLimited := 0; cMalformed := 0 |} |}, [])
  | (i, p) :: ps =>
      '(ss, out) ← serve_sockets max n ps;
      l ← skLimits ss !! i;
      '(s, a) ← serve_one max p {| svLimit := l; svCounters := skCounters ss |};
      Some ({| skLimits := <[i := svLimit s]> (skLimits ss); skCounters := svCounters s |}, (i, (p, a)) :: out)
  end.

(** What belongs to one socket. *)
Definition read_by {A} (i : nat) (l : list (nat * A)) : list A := snd <$> filter (λ x, x.1 = i) l.

(** ** The limit as a function of the requests *)

(** What was decided, the newest request first. *)
Fixpoint served (max : Z) (h : list (Z * addr)) : ipLimiter * list (Z * addr * bool) :=
  match h with
  | [] => (newIPLimiter, [])
  | (now, ip) :: h => let '(l, d) := served max h in let '(l, ok) := allow max now ip l in (l, (now, ip, ok) :: d)
  end.

(** Times do not run backwards, and begin after the first second of all. *)
Fixpoint in_order (h : list (Z * addr)) : Prop :=
  match h with
  | [] => True
  | (now, _) :: h => second <= now ∧ (match h with [] => True | (t, _) :: _ => t <= now end) ∧ in_order h
  end.

Definition requests (ip : addr) (lo hi : Z) (h : list (Z * addr)) : Z := Z.of_nat (length (filter (λ x, x.2 = ip ∧ lo <= x.1 < hi) h)).
Definition answers (ip : addr) (lo hi : Z) (d : list (Z * addr * bool)) : Z :=
  Z.of_nat (length (filter (λ x, x.1.2 = ip ∧ lo <= x.1.1 < hi ∧ x.2 = true) d)).

Lemma Sub_le_second t u k : 0 < k <= 2 → (k * second <=? Sub t u) = (k * second <=? t - u).
Proof. unfold Sub, minDuration, maxDuration, second. intros. destruct (Z.leb_spec (k * 1000000000) (t - u)); lia. Qed.

(** The bucket a request is counted in. *)
Definition bucket_at (now : Z) (ip : addr) (l : ipLimiter) : bucket :=
  let b := default zero_bucket (buckets l !! ip) in
  if second <=? now - start b then {| start := now; count := 1 |} else {| start := start b; count := count b + 1 |}.

Lemma allow_ok max now ip l : allow max now ip l =
  ((allow max now ip l).1, count (bucket_at now ip l) <=? max) ∧
  (buckets (allow max now ip l).1 !! ip = Some (bucket_at now ip l) ∨
   (buckets (allow max now ip l).1 !! ip = None ∧ 2 * second <= now - start (bucket_at now ip l))) ∧
  (∀ o, o ≠ ip → buckets (allow max now ip l).1 !! o = buckets l !! o ∨
     (buckets (allow max now ip l).1 !! o = None ∧ ∃ b, buckets l !! o = Some b ∧ 2 * second <= now - start b)).
Proof.
  assert (∀ b, (second <=? Sub now b) = (second <=? now - b)) as Hsub by (intros b; pose proof (Sub_le_second now b 1 ltac:(lia)) as H; by rewrite !Z.mul_1_l in H).
  unfold allow, bucket_at. rewrite Hsub.
  set (b := if second <=? now - start (default zero_bucket (buckets l !! ip)) then {| start := now; count := 0 |} else default zero_bucket (buckets l !! ip)).
  assert ((if second <=? now - start (default zero_bucket (buckets l !! ip)) then {| start := now; count := 1 |}
    else {| start := start (default zero_bucket (buckets l !! ip)); count := count (default zero_bucket (buckets l !! ip)) + 1 |}) = {| start := start b; count := count b + 1 |}) as ->
    by (unfold b; by destruct (second <=? _)).
  destruct (1024 <=? seen l + 1); cbn [fst buckets]; (split; [done|]).
  - assert (∀ o (x : bucket), <[ip := {| start := start b; count := count b + 1 |}]> (buckets l) !! o = Some x →
      filter (λ kv, ¬ (2 * second <= Sub now (start kv.2))) (<[ip := {| start := start b; count := count b + 1 |}]> (buckets l)) !! o = Some x ∨
      (filter (λ kv, ¬ (2 * second <= Sub now (start kv.2))) (<[ip := {| start := start b; count := count b + 1 |}]> (buckets l)) !! o = None ∧ 2 * second <= now - start x)) as Hf.
    { intros o x Hx. pose proof (Sub_le_second now (start x) 2 ltac:(lia)) as H2. destruct (Z.leb_spec (2 * second) (now - start x)) as [Hle|Hle].
      - right. split; [|done]. apply map_lookup_filter_None. right. intros y Hy. rewrite Hx in Hy. injection Hy as <-. cbn. apply Z.leb_le in H2. lia.
      - left. apply map_lookup_filter_Some. split; [done|]. cbn. apply Z.leb_gt in H2. lia. }
    split; [apply Hf; by rewrite lookup_insert_eq|]. intros o Ho. destruct (buckets l !! o) as [x|] eqn:Ex.
    + destruct (Hf o x) as [?|[? ?]]; [by rewrite lookup_insert_ne|by left|right; split; [done|by exists x]].
    + left. apply map_lookup_filter_None. left. by rewrite lookup_insert_ne.
  - split; [left; by rewrite lookup_insert_eq|]. intros o Ho. left. by rewrite lookup_insert_ne.
Qed.

Lemma bucket_at_recent now ip l : now - start (bucket_at now ip l) < second.
Proof. unfold bucket_at. destruct (Z.leb_spec second (now - start (default zero_bucket (buckets l !! ip)))); cbn [start]; unfold second in *; lia. Qed.

Lemma allow_own max now ip l : buckets (allow max now ip l).1 !! ip = Some (bucket_at now ip l).
Proof. destruct (allow_ok max now ip l) as (_ & [?|[_ H]] & _); [done|]. pose proof (bucket_at_recent now ip l). unfold second in *. lia. Qed.

Lemma served_cons max now ip h : served max ((now, ip) :: h) =
  ((allow max now ip (served max h).1).1, (now, ip, (count (bucket_at now ip (served max h).1) <=? max)) :: (served max h).2).
Proof. cbn [served]. destruct (served max h) as [l d]. cbn [fst snd]. destruct (allow_ok max now ip l) as (-> & _). done. Qed.

Lemma in_order_cons now ip h : in_order ((now, ip) :: h) → in_order h ∧ second <= now ∧ ∀ x, x ∈ h → x.1 <= now.
Proof.
  revert now ip. induction h as [|[t o] h IH]; intros now ip (H1 & H2 & H3); [split_and!; [done|done|by intros x ?%elem_of_nil]|].
  split_and!; [done|done|]. intros x [-> | Hx]%elem_of_cons; [done|]. destruct (IH _ _ H3) as (_ & _ & H). specialize (H x Hx). lia.
Qed.

Lemma requests_cons ip lo hi x h : requests ip lo hi (x :: h) = (if decide (x.2 = ip ∧ lo <= x.1 < hi) then 1 else 0) + requests ip lo hi h.
Proof. unfold requests. rewrite filter_cons. case_decide; cbn [length]; lia. Qed.

Lemma answers_cons ip lo hi x d : answers ip lo hi (x :: d) = (if decide (x.1.2 = ip ∧ lo <= x.1.1 < hi ∧ x.2 = true) then 1 else 0) + answers ip lo hi d.
Proof. unfold answers. rewrite filter_cons. case_decide; cbn [length]; lia. Qed.

Lemma requests_mono ip lo lo' hi h : lo <= lo' → requests ip lo' hi h <= requests ip lo hi h.
Proof. intros Hl. induction h as [|x h IH]; [done|]. rewrite !requests_cons. repeat case_decide; naive_solver lia. Qed.

(** A bucket began with a request. *)
Lemma start_le max h t ip b : in_order h → (∀ x, x ∈ h → x.1 <= t) → buckets (served max h).1 !! ip = Some b → start b <= t.
Proof.
  revert b. induction h as [|[u v] h IH]; intros b Hord Hmax; [done|]. destruct (in_order_cons _ _ _ Hord) as (Hord' & Hu & _).
  assert (u <= t) as Hut by (apply (Hmax (u, v)); by left). assert (∀ b, buckets (served max h).1 !! ip = Some b → start b <= t) as IH' by (intros; apply IH; [done| |done]; intros; apply Hmax; by right). clear IH.
  rewrite served_cons. cbn [fst]. destruct (decide (v = ip)) as [-> | Hv].
  - rewrite allow_own. intros [= <-]. unfold bucket_at. destruct (buckets (served max h).1 !! ip) as [c|]; cbn [default].
    + destruct (second <=? _); cbn [start]; [done|by apply IH'].
    + unfold zero_bucket. cbn [start]. destruct (Z.leb_spec second (u - 0)); cbn [start]; unfold second in *; lia.
  - destruct (allow_ok max u v (served max h).1) as (_ & _ & Hoth). destruct (Hoth ip ltac:(done)) as [-> | [-> _]]; [apply IH'|done].
Qed.

(** A bucket counts requests since it began. *)
Lemma counts max h now : in_order h → (∀ x, x ∈ h → x.1 <= now) → ∀ ip b, buckets (served max h).1 !! ip = Some b →
  count b <= requests ip (start b) (now + 1) h.
Proof.
  induction h as [|[t o] h IH]; intros Hord Hnow ip b; [done|]. destruct (in_order_cons _ _ _ Hord) as (Hord' & Ht & Hmax).
  assert (t <= now) as Htn by (apply (Hnow (t, o)); by left). assert (∀ x, x ∈ h → x.1 <= now) as Hnow' by (intros x Hx; apply Hnow; by right).
  rewrite served_cons. cbn [fst]. rewrite requests_cons. cbn [fst snd]. destruct (decide (o = ip)) as [-> | Hne].
  - rewrite allow_own. intros [= <-]. specialize (IH Hord' Hnow' ip). unfold bucket_at. destruct (Z.leb_spec second (t - start (default zero_bucket (buckets (served max h).1 !! ip)))) as [Hle|Hle]; cbn [start count].
    + rewrite decide_True by (split; [done|lia]). unfold requests. lia.
    + destruct (buckets (served max h).1 !! ip) as [c|] eqn:Ec; cbn [default] in *; [|unfold zero_bucket, second in *; cbn [start] in Hle; lia].
      pose proof (start_le _ _ _ _ _ Hord' Hmax Ec). specialize (IH c eq_refl). unfold id in *. rewrite decide_True; [lia|]. split; [done|lia].
  - destruct (allow_ok max t o (served max h).1) as (_ & _ & Hoth). destruct (Hoth ip ltac:(done)) as [-> | [-> _]]; [|done]. intros Hb.
    rewrite decide_False by naive_solver. specialize (IH Hord' Hnow' ip b Hb). lia.
Qed.

(** A source with few requests in the last second is allowed. *)
Lemma fair max h now ip : in_order ((now, ip) :: h) → requests ip (now - second + 1) (now + 1) ((now, ip) :: h) <= max →
  (allow max now ip (served max h).1).2 = true.
Proof.
  intros Hord Hr. assert (∀ x, x ∈ (now, ip) :: h → x.1 <= now) as Hm by (intros x [-> | Hx]%elem_of_cons; [done|by apply (in_order_cons _ _ _ Hord)]).
  pose proof (counts max _ now Hord Hm ip) as Hc. rewrite served_cons in Hc. cbn [fst] in Hc. rewrite allow_own in Hc. specialize (Hc _ eq_refl).
  pose proof (bucket_at_recent now ip (served max h).1).
  pose proof (requests_mono ip (now - second + 1) (start (bucket_at now ip (served max h).1)) (now + 1) ((now, ip) :: h) ltac:(lia)).
  destruct (allow_ok max now ip (served max h).1) as (-> & _). cbn [snd]. apply Z.leb_le. lia.
Qed.

(** What a window of one second from [lo] holds, in terms of the bucket. *)
Definition within (max lo : Z) (h : list (Z * addr)) (A : Z) (b : option bucket) : Prop :=
  match b with
  | Some b => (start b < lo → A <= Z.min (count b) max - 1) ∧ (lo <= start b < lo + second → A <= max - 1 + Z.min (count b) max) ∧ A <= 2 * max - 1 ∧ 1 <= count b
  | None => A <= max - 1 ∨ A <= 2 * max - 1 ∧ ∃ x, x ∈ h ∧ lo + second <= x.1
  end.

Lemma answers_none max ip lo hi h : (∀ x, x ∈ h → x.1 < lo) → answers ip lo hi (served max h).2 = 0.
Proof.
  induction h as [|[t o] h IH]; intros Hlt; [done|]. rewrite served_cons. cbn [snd]. rewrite answers_cons. cbn [fst snd].
  assert (t < lo) by (apply (Hlt (t, o)); by left). rewrite decide_False by lia. rewrite IH; [done|]. intros x Hx. apply Hlt. by right.
Qed.

Lemma window max ip lo h : 0 < max → in_order h →
  within max lo h (answers ip lo (lo + second) (served max h).2) (buckets (served max h).1 !! ip).
Proof.
  intros Hmax. induction h as [|[t o] h IH]; intros Hord; [left; unfold answers; cbn [served answers filter list_filter snd length]; cbn; lia|].
  destruct (in_order_cons _ _ _ Hord) as (Hord' & Ht & Hle). specialize (IH Hord').
  pose proof (answers_none max ip lo (lo + second) h) as H0. rewrite served_cons. cbn [fst snd]. rewrite answers_cons. cbn [fst snd].
  set (A := answers ip lo (lo + second) (served max h).2) in *. destruct (decide (o = ip)) as [-> | Hne].
  - rewrite allow_own. unfold bucket_at. assert (t < lo → A = 0) as Hz by (intros Hl; apply H0; intros x Hx; specialize (Hle x Hx); lia). clear H0.
    destruct (buckets (served max h).1 !! ip) as [b|] eqn:Eb; cbn [default].
    + pose proof (start_le _ _ _ _ _ Hord' Hle Eb). destruct IH as (H1 & H2 & H3 & H4). unfold second, id in *.
      destruct (Z.leb_spec 1000000000 (t - start b)); cbn [start count within]; case_decide as Hd; rewrite Z.leb_le in Hd; unfold second; lia.
    + destruct (Z.leb_spec second (t - start zero_bucket)) as [_|Hc]; [|unfold zero_bucket, second in *; cbn [start] in Hc; lia].
      cbn [start count within]. assert (lo <= t < lo + second → A <= max - 1) as Ha by (intros ?; destruct IH as [?|(_ & x & Hx & ?)]; [done|specialize (Hle x Hx); lia]).
      assert (A <= 2 * max - 1) by (destruct IH as [?|[? _]]; lia). unfold second in *. case_decide as Hd; rewrite Z.leb_le in Hd; lia.
  - rewrite decide_False by naive_solver. rewrite Z.add_0_l. destruct (allow_ok max t o (served max h).1) as (_ & _ & Hoth). destruct (Hoth ip ltac:(done)) as [-> | [-> (b & Eb & Hb)]].
    + destruct (buckets (served max h).1 !! ip); [done|]. destruct IH as [?|(? & x & Hx & ?)]; [by left|]. right. split; [done|]. exists x. split; [by right|done].
    + rewrite Eb in IH. destruct IH as (H1 & _ & H3 & H4). destruct (decide (start b < lo)); [left; lia|]. right. split; [done|]. exists (t, o). split; [by left|]. unfold second in *. cbn. lia.
Qed.

(** No source gets twice the rate in any second. *)
Lemma at_most max ip lo h : 0 < max → in_order h → answers ip lo (lo + second) (served max h).2 < 2 * max.
Proof. intros Hm Ho. pose proof (window max ip lo h Hm Ho) as H. destruct (buckets (served max h).1 !! ip); cbn in H; [lia|]. destruct H as [?|[? ?]]; lia. Qed.

(** ** The server's answers *)

Definition source (p : packet) : option addr := (λ ap, Unmap (apaddr ap)) <$> pkFrom p.
Definition arrivals (ps : list packet) : list (Z * addr) := omap (λ p, (λ a, (pkNow p, a)) <$> source p) ps.
Definition answered (ip : addr) (lo hi : Z) (out : list (packet * option (list byte))) : Z :=
  Z.of_nat (length (filter (λ x, source x.1 = Some ip ∧ lo <= pkNow x.1 < hi ∧ is_Some x.2) out)).

Lemma serve_run max ps : ∃ s out, Serve max ps = Some (s, out) ∧ svLimit s = (served max (arrivals ps)).1 ∧
  ∀ ip lo hi, answered ip lo hi out <= answers ip lo hi (served max (arrivals ps)).2.
Proof.
  induction ps as [|p ps (s & out & IH & Hl & Ha)]; [by eexists _, _|]. cbn [Serve]. rewrite IH. cbn [mbind option_bind]. unfold serve_one.
  assert (∀ ip lo hi a, answered ip lo hi ((p, a) :: out) = (if decide (source p = Some ip ∧ lo <= pkNow p < hi ∧ is_Some a) then 1 else 0) + answered ip lo hi out) as Hcons
    by (intros ip lo hi a; unfold answered; rewrite filter_cons; cbn [fst snd]; case_decide; cbn [length]; lia).
  unfold arrivals. cbn [omap list_omap]. fold (arrivals ps). unfold source. destruct (pkFrom p) as [ap|] eqn:Ef; cbn [fmap option_fmap option_map].
  - cbn [apaddr]. change (omap (λ p, (λ a, (pkNow p, a)) <$> ((λ ap, Unmap (apaddr ap)) <$> pkFrom p)) ps) with (arrivals ps). rewrite Hl.
    rewrite served_cons. destruct (allow_ok max (pkNow p) (Unmap (apaddr ap)) (served max (arrivals ps)).1) as (He & _). rewrite He. cbn [fst snd].
    assert (∀ ok a, (is_Some a → ok = true) → ∀ ip lo hi, answered ip lo hi ((p, a) :: out) <= answers ip lo hi ((pkNow p, Unmap (apaddr ap), ok) :: (served max (arrivals ps)).2)) as Hstep.
    { intros ok a Hok ip lo hi. rewrite Hcons, answers_cons. cbn [fst snd]. specialize (Ha ip lo hi). unfold source. rewrite Ef. cbn [fmap option_fmap option_map].
      repeat case_decide; try lia. naive_solver. }
    destruct (count (bucket_at _ _ _) <=? max); cbn [negb].
    + destruct (ParseBindingRequest_total (pkData p)) as [r ->]. cbn [mbind option_bind]. destruct r as [tx|e]; [destruct (pkWritable p)|]; eexists _, _; (split; [done|]); (split; [done|by apply Hstep]).
    + eexists _, _. split; [done|]. split; [done|]. apply Hstep. by intros [? ?].
  - change (omap (λ p, (λ a, (pkNow p, a)) <$> ((λ ap, Unmap (apaddr ap)) <$> pkFrom p)) ps) with (arrivals ps). eexists _, _. split; [done|]. split; [done|]. intros ip lo hi. rewrite Hcons, decide_False; [by apply Ha|].
    unfold source. rewrite Ef. by intros (? & _).
Qed.

Lemma unmapped a : addr_wf a → IsValid a = true → addr_wf (Unmap a) ∧ IsValid (Unmap a) = true.
Proof. unfold Unmap. destruct (Is4In6 a); [|done]. intros _ _. split; [|done]. apply Z.mod_pos_bound. lia. Qed.

Lemma serve_valid max p s ap tx : pkFrom p = Some ap → valid_request (pkData p) tx → pkWritable p = true →
  (allow max (pkNow p) (Unmap (apaddr ap)) (svLimit s)).2 = true →
  ∃ s', serve_one max p s = Some (s', Some (Response tx (AddrPort (Unmap (apaddr ap)) (apport ap)))).
Proof.
  intros Hf Hv Hw Ha. unfold serve_one. rewrite Hf. cbn [apaddr]. destruct (allow _ _ _ _) as [l ok]. cbn [snd] in Ha. subst ok. cbn [negb].
  apply ParseBindingRequest_spec in Hv. rewrite Hv. cbn [mbind option_bind]. rewrite Hw. by eexists.
Qed.

Lemma answer_valid max p s s' a : serve_one max p s = Some (s', Some a) →
  ∃ ap tx, pkFrom p = Some ap ∧ valid_request (pkData p) tx ∧ a = Response tx (AddrPort (Unmap (apaddr ap)) (apport ap)).
Proof.
  unfold serve_one. destruct (pkFrom p) as [ap|]; [|done]. cbn [apaddr]. destruct (allow _ _ _ _) as [l ok]. destruct ok; [|done]. cbn [negb].
  destruct (ParseBindingRequest (pkData p)) as [[tx|e]|] eqn:Ep; cbn [mbind option_bind]; [|done|done]. destruct (pkWritable p); [|done].
  intros [= _ <-]. exists ap, tx. split_and!; [done|by apply ParseBindingRequest_spec|done].
Qed.

Lemma answers_valid max ps s out : Serve max ps = Some (s, out) → ∀ p a, (p, Some a) ∈ out →
  ∃ ap tx, pkFrom p = Some ap ∧ valid_request (pkData p) tx ∧ a = Response tx (AddrPort (Unmap (apaddr ap)) (apport ap)).
Proof.
  revert s out. induction ps as [|p ps IH]; intros s out; cbn [Serve]; [by intros [= _ <-] ? ? ?%elem_of_nil|].
  destruct (Serve max ps) as [[s1 out1]|]; [|done]. cbn [mbind option_bind]. destruct (serve_one max p s1) as [[s2 a]|] eqn:Es; [|done]. cbn [mbind option_bind].
  intros [= _ <-] q b [Hq|Hq]%elem_of_cons; [|by eapply IH]. injection Hq as -> <-. by eapply answer_valid.
Qed.

Lemma ratePerIP_pos opt : 0 < ratePerIP opt.
Proof. unfold ratePerIP, DefaultRatePerIP. destruct (Z.leb_spec opt 0); lia. Qed.

(** The counters do not matter to the answer. *)
Lemma serve_one_counters max p l c c' s a : serve_one max p {| svLimit := l; svCounters := c |} = Some (s, a) →
  ∃ s', serve_one max p {| svLimit := l; svCounters := c' |} = Some (s', a) ∧ svLimit s' = svLimit s.
Proof.
  unfold serve_one. destruct (pkFrom p) as [ap|]; [|intros [= <- <-]; by eexists]. cbn [svLimit]. destruct (allow _ _ _ _) as [l' ok]. destruct ok; cbn [negb]; [|intros [= <- <-]; by eexists].
  destruct (ParseBindingRequest (pkData p)) as [[tx|e]|]; cbn [mbind option_bind]; [destruct (pkWritable p)| |done]; intros [= <- <-]; by eexists.
Qed.

Lemma read_by_cons {A} i j (x : A) l : read_by i ((j, x) :: l) = if decide (j = i) then x :: read_by i l else read_by i l.
Proof. unfold read_by. rewrite filter_cons. cbn [fst]. by case_decide. Qed.

(** Each socket's loop is [Serve] of its packets. *)
Lemma sockets_run max n ps : (∀ i p, (i, p) ∈ ps → (i < n)%nat) → ∃ ss out, serve_sockets max n ps = Some (ss, out) ∧ length (skLimits ss) = n ∧
  ∀ i l, skLimits ss !! i = Some l → ∃ s, Serve max (read_by i ps) = Some (s, read_by i out) ∧ svLimit s = l.
Proof.
  induction ps as [|[i p] ps IH]; intros Hi.
  { eexists _, _. split; [done|]. cbn [skLimits]. split; [by rewrite length_replicate|]. intros i l [-> _]%lookup_replicate. by eexists. }
  destruct IH as (ss & out & Hs & Hl & Hrun); [intros j q Hq; apply (Hi j q); by right|]. cbn [serve_sockets]. rewrite Hs. cbn [mbind option_bind].
  destruct (lookup_lt_is_Some_2 (skLimits ss) i) as [l El]; [rewrite Hl; apply (Hi i p); by left|]. rewrite El. cbn [mbind option_bind].
  destruct (Hrun i l El) as (s & HS & HSl). destruct (serve_run max (p :: read_by i ps)) as (s2 & o2 & HS2 & _). cbn [Serve] in HS2. rewrite HS in HS2. cbn [mbind option_bind] in HS2.
  destruct (serve_one max p s) as [[s3 a]|] eqn:E; [|done]. cbn [mbind option_bind] in HS2. destruct s as [l0 c0]. cbn [svLimit] in HSl. subst l0.
  destruct (serve_one_counters _ _ _ _ (skCounters ss) _ _ E) as (s4 & -> & Hl4). cbn [mbind option_bind]. eexists _, _. split; [done|]. cbn [skLimits]. split; [by rewrite length_insert|].
  intros j lj Hj. rewrite !read_by_cons. destruct (decide (i = j)) as [<-|Hne].
  - rewrite list_lookup_insert_eq in Hj by (rewrite Hl; apply (Hi i p); by left). injection Hj as <-. exists s3. cbn [Serve]. rewrite HS. cbn [mbind option_bind]. rewrite E. by split.
  - rewrite list_lookup_insert_ne in Hj by done. by apply Hrun.
Qed.

(** What all sockets answered is what each of them did. *)
Lemma answered_bound ip lo hi k n out : (∀ x, x ∈ out → (x.1 < n)%nat) → (∀ i, (i < n)%nat → answered ip lo hi (read_by i out) <= k) →
  answered ip lo hi (out.*2) <= Z.of_nat n * k.
Proof.
  revert out. induction n as [|n IH]; intros out Hn Hk.
  { destruct out as [|x out]; [by unfold answered; cbn; lia|]. specialize (Hn x ltac:(by left)). lia. }
  assert (answered ip lo hi (out.*2) = answered ip lo hi (read_by n out) + answered ip lo hi ((filter (λ x, x.1 ≠ n) out).*2)) as ->.
  { unfold answered, read_by. clear. induction out as [|[j [p a]] out IH]; [done|]. rewrite fmap_cons, !filter_cons. cbn [fst snd]. destruct (decide (j = n)) as [Hj|Hj].
    - rewrite (decide_False (P := j ≠ n)) by tauto. cbn [fmap list_fmap]. rewrite !filter_cons. cbn [fst snd]. case_decide; cbn [length]; lia.
    - rewrite (decide_True (P := j ≠ n)) by done. cbn [fmap list_fmap]. rewrite !filter_cons. cbn [fst snd]. case_decide; cbn [length]; lia. }
  assert (answered ip lo hi ((filter (λ x, x.1 ≠ n) out).*2) <= Z.of_nat n * k) as H2.
  { apply IH; [intros x [Hx Hin]%list_elem_of_filter; specialize (Hn x Hin); lia|]. intros i Hi. specialize (Hk i ltac:(lia)).
    replace (read_by i (filter (λ x, x.1 ≠ n) out)) with (read_by i out); [done|]. unfold read_by. f_equal. rewrite list_filter_filter.
    apply list_filter_iff. intros x. split; [intros ->; split; [done|lia]|by intros [? _]]. }
  specialize (Hk n ltac:(lia)). lia.
Qed.

Lemma sockets_out max n ps ss out : serve_sockets max n ps = Some (ss, out) → (λ x, (x.1, x.2.1)) <$> out = ps.
Proof.
  revert ss out. induction ps as [|[i p] ps IH]; intros ss out; cbn [serve_sockets]; [by intros [= _ <-]|]. destruct (serve_sockets max n ps) as [[ss1 out1]|]; [|done]. cbn [mbind option_bind].
  destruct (skLimits ss1 !! i); [|done]. cbn [mbind option_bind]. destruct (serve_one _ _ _) as [[s a]|]; [|done]. cbn [mbind option_bind]. intros [= _ <-]. rewrite fmap_cons. cbn. by erewrite IH.
Qed.

(** C33: the server answers its clients and cannot be used to flood anyone.  It has
    [n] sockets, one for each address of [listen.stun], which [Validate] allows
    two of.  Over any packets, each socket's read at times that do not run
    backwards, it accesses nothing out of range; only valid binding requests are
    answered, and only with the response for the source they came from; in any
    second at all no address is sent twice the rate by a socket, nor [n] times
    that by the server, however many requests carry it; and a valid request
    whose source sent that socket no more than the rate in the second before is
    answered, with a response from which the client takes back the transaction
    and the address it was seen at. *)
Theorem rate_limit opt n ps (Hsock : ∀ i p, (i, p) ∈ ps → (i < n)%nat) (Hord : ∀ i, in_order (arrivals (read_by i ps))) :
  ∃ ss out, serve_sockets (ratePerIP opt) n ps = Some (ss, out) ∧
    (∀ i p a, (i, (p, Some a)) ∈ out → ∃ ap tx, pkFrom p = Some ap ∧ valid_request (pkData p) tx ∧ a = Response tx (AddrPort (Unmap (apaddr ap)) (apport ap))) ∧
    (∀ i ip t, answered ip t (t + second) (read_by i out) < 2 * ratePerIP opt) ∧
    (∀ ip t, answered ip t (t + second) (out.*2) <= Z.of_nat n * (2 * ratePerIP opt - 1)) ∧
    (∀ i p older ap tx, ps = (i, p) :: older → pkFrom p = Some ap → addr_wf (apaddr ap) → IsValid (apaddr ap) = true → 0 <= apport ap < 65536 →
       valid_request (pkData p) tx → pkWritable p = true →
       requests (Unmap (apaddr ap)) (pkNow p - second + 1) (pkNow p + 1) (arrivals (read_by i ps)) <= ratePerIP opt →
       ∃ a out', out = (i, (p, Some a)) :: out' ∧ ParseResponse a = Some (Ok (tx, AddrPort (Unmap (withoutZone (Unmap (apaddr ap)))) (apport ap)))).
Proof.
  destruct (sockets_run (ratePerIP opt) n ps Hsock) as (ss & out & Hs & Hl & Hrun). pose proof (ratePerIP_pos opt) as Hpos. pose proof (sockets_out _ _ _ _ _ Hs) as Hout. exists ss, out. split; [done|].
  assert (∀ x, x ∈ out → (x.1 < n)%nat) as Hin.
  { intros x Hx. apply (Hsock x.1 x.2.1). rewrite <- Hout. by apply (list_elem_of_fmap_2 (λ x, (x.1, x.2.1))). }
  assert (∀ i, (i < n)%nat → ∃ s, Serve (ratePerIP opt) (read_by i ps) = Some (s, read_by i out)) as Hserve.
  { intros i Hi. destruct (lookup_lt_is_Some_2 (skLimits ss) i) as [l El]; [by rewrite Hl|]. destruct (Hrun i l El) as (s & ? & _). by exists s. }
  assert (∀ i ip t, answered ip t (t + second) (read_by i out) < 2 * ratePerIP opt) as Hrate.
  { intros i ip t. destruct (decide (i < n)%nat) as [Hi|Hi].
    - destruct (Hserve i Hi) as [s HS]. destruct (serve_run (ratePerIP opt) (read_by i ps)) as (s' & out' & HS' & _ & Ha). rewrite HS in HS'. injection HS' as _ <-.
      eapply Z.le_lt_trans; [apply Ha|]. by apply at_most.
    - destruct (read_by i out) as [|x l] eqn:E; [unfold answered; cbn; lia|]. exfalso. assert (x ∈ read_by i out) as Hx by (rewrite E; by left).
      apply list_elem_of_fmap in Hx as ([j y] & _ & [Hj Hx]%list_elem_of_filter). cbn in Hj. subst j. by apply Hi, (Hin _ Hx). }
  split_and!; [|done| |].
  - intros i p a Hx. destruct (Hserve i (Hin _ Hx)) as [s HS]. apply (answers_valid _ _ _ _ HS p a). apply list_elem_of_fmap. exists (i, (p, Some a)). split; [done|]. by apply list_elem_of_filter.
  - intros ip t. apply answered_bound; [done|]. intros i _. specialize (Hrate i ip t). lia.
  - intros i p older ap tx -> Hf Hwf Hv Hp Hr Hw Hq. assert (i < n)%nat as Hi by (apply (Hsock i p); by left). destruct (Hserve i Hi) as [s HS]. specialize (Hord i).
    rewrite read_by_cons, decide_True in HS, Hord, Hq by done. destruct out as [|[j [p' a]] out']; [done|]. injection Hout as -> -> Hout. rewrite read_by_cons, decide_True in HS by done.
    cbn [Serve] in HS. destruct (serve_run (ratePerIP opt) (read_by i older)) as (s1 & out1 & Hs1 & Hl1 & _).
    rewrite Hs1 in HS. cbn [mbind option_bind] in HS. assert (arrivals (p :: read_by i older) = (pkNow p, Unmap (apaddr ap)) :: arrivals (read_by i older)) as Earr by (unfold arrivals, source; cbn [omap list_omap]; by rewrite Hf).
    rewrite Earr in Hord, Hq. destruct (serve_valid (ratePerIP opt) p s1 ap tx) as [s2 Hs2]; [done|done|done|rewrite Hl1; by apply fair|].
    rewrite Hs2 in HS. injection HS as _ <- _. eexists _, out'. split; [done|]. destruct (unmapped _ Hwf Hv) as [Hwf' Hv']. rewrite <- (app_nil_r (Response _ _)).
    rewrite ParseResponse_Response; [done|done|done| |done]. by destruct Hr as (? & ? & ? & _ & _ & ? & _).
Qed.

(** Two sockets, and a source that asks both. *)
Lemma rate_limit_witness :
  let tx := repeat Byte.x07 12 in let ap := AddrPort (Addr4 3221225985) 41641 in
  let p i := {| pkNow := 5 * second + i; pkFrom := Some ap; pkData := Request tx; pkWritable := true |} in
  let ps := [(0%nat, p 4); (1%nat, p 3); (0%nat, p 2); (0%nat, p 1); (0%nat, p 0)] in
  ∃ s out, serve_sockets (ratePerIP 2) 2 ps = Some (s, out) ∧ answered (Addr4 3221225985) (5 * second) (6 * second) (out.*2) <= 6 ∧
    map (λ x, bool_decide (is_Some x.2.2)) out = [false; true; false; true; true].
Proof.
  intros tx ap p ps. destruct (rate_limit 2 2 ps) as (s & out & Hs & _ & _ & Hb & _).
  - intros i q Hq. assert (Forall (λ x, x.1 < 2)%nat ps) as Hall by (repeat constructor; cbn; lia). rewrite Forall_forall in Hall. by apply (Hall (i, q)).
  - intros i. destruct i as [|[|i]]; vm_compute; repeat split; discriminate.
  - exists s, out. split; [done|]. split; [apply (Hb (Addr4 3221225985) (5 * second))|]. revert Hs. clear. vm_compute. intros [= _ <-]. vm_compute. reflexivity.
Defined.
