(* ===== verification/Discover.v ===== *)
(** The STUN client: [internal/stun/client.go].

    A device asks every server for the address it is seen at, twice at most.
    The transport is an input: per attempt, the transaction ids drawn, whether
    each request could be sent, the packets that arrive before the timeout, and
    whether the wait ended because the caller gave up. *)

From S2P Require Import Prelude GoStrings NetIP Stun.

Record Result := { Mapped : list addrport; Symmetric : bool }.

Inductive discover_error := ErrNoServers | ErrSend | ErrCancelled | ErrNoResponse.

Record attempt := { atTx : nat → TxID; atSent : nat → bool; atPackets : list (list byte); atCancelled : bool }.

Notation Pending := (gmap TxID nat).

(** [collect]: what is still pending, the answers, how many arrived, and
    whether it is an error.  The loop ends with nothing pending, or when no
    packet comes any more; [None] is an access out of range. *)
Fixpoint collect (cancelled : bool) (pkts : list (list byte)) (pending : Pending) (answers : list addrport) (got : nat) :
    option (Pending * list addrport * nat * bool) :=
  if decide (pending = ∅) then Some (pending, answers, got, false)
  else
    match pkts with
    | [] => Some (pending, answers, got, cancelled)
    | pkt :: pkts =>
        r ← ParseResponse pkt;
        match r with
        | Err _ => collect cancelled pkts pending answers got
        | Ok (tx, mapped) =>
            match pending !! tx with
            | None => collect cancelled pkts pending answers got
            | Some i =>
                if decide (i < length answers)%nat then collect cancelled pkts (delete tx pending) (<[i := mapped]> answers) (S got) else None
            end
        end
    end.

(** The requests of an attempt, to the servers from the [i]th on. *)
Fixpoint send_all (a : attempt) (i : nat) (servers : list addrport) (answers : list addrport) (pending : Pending) :
    option (Pending * list (addrport * list byte) * bool) :=
  match servers with
  | [] => Some (pending, [], true)
  | srv :: servers =>
      ans ← answers !! i;
      if APIsValid ans then send_all a (S i) servers answers pending
      else
        let pending := <[atTx a i := i]> pending in
        if negb (atSent a i) then Some (pending, [], false)
        else '(pending, sent, ok) ← send_all a (S i) servers answers pending; Some (pending, (srv, Request (atTx a i)) :: sent, ok)
  end.

(** The attempts that are left: what was sent, and the answers with their
    number. *)
Fixpoint attempts (l : list attempt) (servers answers : list addrport) (answered : nat) (pending : Pending) :
    option (list (addrport * list byte) * result discover_error (list addrport * nat)) :=
  match l with
  | [] => Some ([], Ok (answers, answered))
  | a :: l =>
      if decide (length servers <= answered)%nat then Some ([], Ok (answers, answered))
      else
        '(pending, sent, ok) ← send_all a 0 servers answers pending;
        if negb ok then Some (sent, Err ErrSend)
        else
          '(pending, answers, n, err) ← collect (atCancelled a) (atPackets a) pending answers 0;
          if err : bool then Some (sent, Err ErrCancelled)
          else '(sent', r) ← attempts l servers answers (answered + n) pending; Some (sent ++ sent', r)
  end.

(** The loop over the answers. *)
Definition add_answer (res : Result) (a : addrport) : Result :=
  if negb (APIsValid a) then res
  else
    let mapped := Mapped res ++ [a] in
    {| Mapped := mapped; Symmetric := if decide (a = default a (head mapped)) then Symmetric res else true |}.
Definition summary (answers : list addrport) : Result := foldl add_answer {| Mapped := []; Symmetric := false |} answers.

Definition Discover (a0 a1 : attempt) (servers : list addrport) : option (list (addrport * list byte) * result discover_error Result) :=
  match servers with
  | [] => Some ([], Err ErrNoServers)
  | _ =>
      '(sent, r) ← attempts [a0; a1] servers (replicate (length servers) NoAddrPort) 0 ∅;
      Some (sent, match r with Err e => Err e | Ok (answers, answered) => if decide (answered = 0)%nat then Err ErrNoResponse else Ok (summary answers) end)
  end.

(** ** The answers *)

Lemma add_answer_mapped l : ∀ res, Mapped (foldl add_answer res l) = Mapped res ++ filter (λ a, APIsValid a = true) l.
Proof.
  induction l as [|a l IH]; intros res; [by rewrite app_nil_r|]. cbn [foldl]. rewrite IH, filter_cons. unfold add_answer.
  destruct (APIsValid a) eqn:E; cbn [negb]; [rewrite (decide_True (P:=true = true)) by done|by rewrite decide_False by done]. cbn [Mapped]. by rewrite <- app_assoc.
Qed.

Lemma summary_mapped l : Mapped (summary l) = filter (λ a, APIsValid a = true) l.
Proof. apply add_answer_mapped. Qed.

(** The verdict is that not all the answers are one. *)
Definition all_one (l : list addrport) : Prop := ∀ a b, a ∈ l → b ∈ l → a = b.

Lemma all_one_snoc x l a : all_one (x :: l ++ [a]) ↔ all_one (x :: l) ∧ a = x.
Proof. unfold all_one. set_solver. Qed.

Lemma add_answer_symmetric l : ∀ res, (Symmetric res = false ↔ all_one (Mapped res)) →
  (Symmetric (foldl add_answer res l) = false ↔ all_one (Mapped (foldl add_answer res l))).
Proof.
  induction l as [|a l IH]; intros res Hr; [done|]. cbn [foldl]. apply IH. unfold add_answer. destruct (APIsValid a); cbn [negb]; [|done]. cbn [Mapped Symmetric].
  destruct (Mapped res) as [|x m] eqn:Em; cbn [app head default].
  - unfold id. rewrite decide_True by done. rewrite Hr. split; intros _; unfold all_one; set_solver.
  - change (default a (Some x)) with x. rewrite all_one_snoc. case_decide; naive_solver.
Qed.

Lemma summary_symmetric l : Symmetric (summary l) = false ↔ all_one (Mapped (summary l)).
Proof. apply add_answer_symmetric. split; [|done]. intros _ a b Ha. cbn in Ha. by apply elem_of_nil in Ha. Qed.

(** ** Collecting *)

Definition in_range (pending : Pending) (n : nat) : Prop := ∀ tx i, pending !! tx = Some i → (i < n)%nat.

(** [pkt] answers server [i]. *)
Definition answers_for (pending : Pending) (i : nat) (pkt : list byte) (ap : addrport) : Prop :=
  ∃ tx, ParseResponse pkt = Some (Ok (tx, ap)) ∧ pending !! tx = Some i.

Lemma answers_for_delete pending tx i pkt ap : answers_for (delete tx pending) i pkt ap → answers_for pending i pkt ap.
Proof. intros (t & Hp & Ht). exists t. split; [done|]. by apply lookup_delete_Some in Ht as [_ ?]. Qed.

Lemma ParseResponse_valid b t ap : ParseResponse b = Some (Ok (t, ap)) → APIsValid ap = true.
Proof. destruct responses_correct as (_ & _ & Hr). intros H. by destruct (Hr _ _ _ H) as (_ & _ & _ & ?). Qed.

(** What one collection does, whatever arrives. *)
Lemma collect_sound c pkts : ∀ pending answers got, in_range pending (length answers) →
  ∃ pending' answers' got' e, collect c pkts pending answers got = Some (pending', answers', got', e) ∧
    length answers' = length answers ∧ pending' ⊆ pending ∧ (e = true → c = true) ∧
    (∀ i ap, answers' !! i = Some ap → answers !! i = Some ap ∨ ∃ pkt, pkt ∈ pkts ∧ answers_for pending i pkt ap) ∧
    ((got' = got ∧ answers' = answers) ∨ ((got < got')%nat ∧ ∃ i ap, answers' !! i = Some ap ∧ APIsValid ap = true)) ∧
    (∀ i ap, answers !! i = Some ap → APIsValid ap = true → ∃ ap', answers' !! i = Some ap' ∧ APIsValid ap' = true).
Proof.
  induction pkts as [|pkt pkts IH]; intros pending answers got Hr; cbn [collect].
  - case_decide; eexists _, _, _, _; (split; [done|]); split_and!; try done; try (by left); naive_solver.
  - case_decide as Hd. { eexists _, _, _, _. split; [done|]. split_and!; try done; try (by left); naive_solver. }
    destruct (ParseResponse_total pkt) as [r Er]. rewrite Er. cbn [mbind option_bind].
    assert (∀ q, collect c pkts pending answers got = q → ∃ pending' answers' got' e, q = Some (pending', answers', got', e) ∧
      length answers' = length answers ∧ pending' ⊆ pending ∧ (e = true → c = true) ∧
      (∀ i ap, answers' !! i = Some ap → answers !! i = Some ap ∨ ∃ p, p ∈ pkt :: pkts ∧ answers_for pending i p ap) ∧
      ((got' = got ∧ answers' = answers) ∨ ((got < got')%nat ∧ ∃ i ap, answers' !! i = Some ap ∧ APIsValid ap = true)) ∧
      (∀ i ap, answers !! i = Some ap → APIsValid ap = true → ∃ ap', answers' !! i = Some ap' ∧ APIsValid ap' = true)) as Hskip.
    { intros q <-. destruct (IH pending answers got Hr) as (p' & a' & g' & e & H1 & H2 & H3 & H4 & H5 & H6). exists p', a', g', e. split_and!; [done..| |tauto|tauto].
      intros i ap Hi. destruct (H5 i ap Hi) as [?|(p & Hp & ?)]; [by left|]. right. exists p. split; [by right|done]. }
    destruct r as [[tx mapped]|e]; [|by apply Hskip]. destruct (pending !! tx) as [i|] eqn:Ei; [|by apply Hskip].
    pose proof (Hr _ _ Ei) as Hi. rewrite decide_True by done. pose proof (ParseResponse_valid _ _ _ Er) as Hv.
    destruct (IH (delete tx pending) (<[i := mapped]> answers) (S got)) as (p' & a' & g' & e & H1 & H2 & H3 & H4 & H5 & H6 & H7).
    { intros t j Hj. rewrite length_insert. apply lookup_delete_Some in Hj as [_ Hj]. by eapply Hr. }
    exists p', a', g', e. assert (<[i := mapped]> answers !! i = Some mapped) as Hself by by apply list_lookup_insert_eq. split; [done|]. split; [by rewrite H2, length_insert|].
    split; [etrans; [done|apply delete_subseteq]|]. split; [done|]. split_and!.
    + intros j ap Hj. destruct (H5 j ap Hj) as [Ho|(p & Hp & Ha)]; [|right; exists p; split; [by right|by eapply answers_for_delete]].
      destruct (decide (j = i)) as [-> | Hne]; [|left; by rewrite list_lookup_insert_ne in Ho by done]. rewrite Hself in Ho. injection Ho as <-.
      right. exists pkt. split; [by left|by exists tx].
    + right. split; [destruct H6 as [[-> _]|[? _]]; lia|]. destruct (H7 i mapped Hself Hv) as (ap & ? & ?). by exists i, ap.
    + intros j ap Hj Hva. destruct (decide (j = i)) as [-> | Hne]; [by apply (H7 i mapped)|]. apply (H7 j ap); [by rewrite list_lookup_insert_ne by done|done].
Qed.

(** A server whose answer arrives, or was there, and is never contradicted. *)
Lemma collect_complete c pkts i ap : ∀ pending answers got pending' answers' got' e,
  collect c pkts pending answers got = Some (pending', answers', got', e) →
  (i < length answers)%nat → (∀ pkt x, pkt ∈ pkts → answers_for pending i pkt x → x = ap) →
  answers !! i = Some ap ∨ (∃ pkt, pkt ∈ pkts ∧ answers_for pending i pkt ap) → answers' !! i = Some ap.
Proof.
  induction pkts as [|pkt pkts IH]; intros pending answers got pending' answers' got' e; cbn [collect].
  - case_decide; intros [= <- <- <- <-] _ _ [?|(p & Hp & _)]; try done; by apply elem_of_nil in Hp.
  - case_decide as Hd. { intros [= <- <- <- <-] _ _ [?|(p & _ & t & _ & Ht)]; [done|]. by rewrite Hd in Ht. }
    destruct (ParseResponse pkt) as [r|] eqn:Er; [|done]. cbn [mbind option_bind]. intros Hc Hi Hall Hone.
    assert (¬ answers_for pending i pkt ap → answers !! i = Some ap ∨ ∃ p, p ∈ pkts ∧ answers_for pending i p ap) as Hone'.
    { intros Hn. destruct Hone as [?|(p & [-> | Hp]%elem_of_cons & Ha)]; [by left|done|right; by exists p]. }
    assert (∀ p x, p ∈ pkts → answers_for pending i p x → x = ap) as Hall' by (intros p x Hp; apply Hall; by right).
    destruct r as [[tx mapped]|er].
    2: { eapply IH; [done..|]. apply Hone'. intros (t & Ht & _). congruence. }
    destruct (pending !! tx) as [j|] eqn:Ej.
    2: { eapply IH; [done..|]. apply Hone'. intros (t & Ht & ?). rewrite Er in Ht. congruence. }
    case_decide as Hj; [|done]. eapply IH; [done|by rewrite length_insert| |].
    + intros p x Hp Ha. by apply (Hall' p); [|eapply answers_for_delete].
    + destruct (decide (j = i)) as [-> | Hne].
      * left. rewrite (Hall pkt mapped ltac:(by left)); [by apply list_lookup_insert_eq|]. by exists tx.
      * destruct Hone' as [?|(p & Hp & t & Ht & Hti)]; [intros (t & Ht & ?); rewrite Er in Ht; congruence|left; by rewrite list_lookup_insert_ne by done|].
        right. exists p. split; [done|]. exists t. split; [done|]. rewrite lookup_delete_ne; [done|]. intros ->. congruence.
Qed.

(** ** Sending *)

(** No transaction id is drawn twice in an attempt. *)
Definition distinct (a : attempt) (n : nat) : Prop := ∀ j j', (j < n)%nat → (j' < n)%nat → atTx a j = atTx a j' → j = j'.

Lemma send_all_sound a servers : ∀ i answers pending, (i + length servers <= length answers)%nat → in_range pending (length answers) →
  ∃ pending' sent ok, send_all a i servers answers pending = Some (pending', sent, ok) ∧ in_range pending' (length answers) ∧
    (∀ tx j, pending' !! tx = Some j → pending !! tx = Some j ∨ tx = atTx a j) ∧
    (∀ j, (i <= j < i + length servers)%nat → distinct a (length answers) → ok = true → (∃ x, answers !! j = Some x ∧ APIsValid x = false) →
       pending' !! atTx a j = Some j) ∧
    (∀ j, (j < i)%nat → distinct a (length answers) → pending' !! atTx a j = pending !! atTx a j) ∧
    ((∀ j, atSent a j = true) → ok = true).
Proof.
  induction servers as [|srv servers IH]; intros i answers pending Hl Hr; cbn [send_all].
  - eexists _, _, _. split; [done|]. split_and!; [done|by left|cbn [length]; intros; lia|done|done].
  - cbn [length] in Hl. destruct (lookup_lt_is_Some_2 answers i ltac:(lia)) as [x Hx]. rewrite Hx. cbn [mbind option_bind]. destruct (APIsValid x) eqn:Ev.
    + destruct (IH (S i) answers pending ltac:(lia) Hr) as (p' & sent & ok & H1 & H2 & H3 & H4 & H5 & H6). exists p', sent, ok. split_and!; try done.
      * intros j Hj Hinj Hok Hn. cbn [length] in Hj. destruct (decide (j = i)) as [-> | Hne]; [|apply H4; [lia|done..]]. destruct Hn as (y & Hy & ?). congruence.
      * intros j Hj. apply H5. lia.
    + assert (in_range (<[atTx a i := i]> pending) (length answers)) as Hr' by (intros t j [[<- <-]|[_ Hj]]%lookup_insert_Some; [lia|by eapply Hr]).
      destruct (negb (atSent a i)) eqn:Es.
      * eexists _, _, _. split; [done|]. split; [done|]. split; [intros t j [[<- <-]|[_ Hj]]%lookup_insert_Some; [by right|by left]|]. split; [done|]. split.
        -- intros j Hj Hinj. apply lookup_insert_ne. intros E%Hinj; lia.
        -- intros Hall. by rewrite Hall in Es.
      * destruct (IH (S i) answers (<[atTx a i := i]> pending) ltac:(lia) Hr') as (p' & sent & ok & H1 & H2 & H3 & H4 & H5 & H6). rewrite H1. cbn [mbind option_bind]. exists p'. eexists _, ok.
        split; [done|]. split; [done|]. split_and!.
        -- intros t j Hj. destruct (H3 t j Hj) as [[[<- <-]|[_ ?]]%lookup_insert_Some|?]; [by right|by left|by right].
        -- intros j Hj Hinj Hok Hn. cbn [length] in Hj. destruct (decide (j = i)) as [-> | Hne]; [|apply H4; [lia|done..]]. rewrite H5 by (lia || done). by apply lookup_insert_eq.
        -- intros j Hj Hinj. rewrite H5 by (lia || done). apply lookup_insert_ne. intros E%Hinj; lia.
        -- done.
Qed.

(** ** The attempts *)

Section Attempts.
Context (all : list attempt) (n : nat).

(** A transaction of a request to server [i], and an answer to one. *)
Definition asked (i : nat) (tx : TxID) : Prop := ∃ a, a ∈ all ∧ tx = atTx a i.
Definition replied (i : nat) (ap : addrport) : Prop :=
  ∃ a pkt tx, a ∈ all ∧ pkt ∈ atPackets a ∧ ParseResponse pkt = Some (Ok (tx, ap)) ∧ asked i tx.

Record state_ok (answers : list addrport) (answered : nat) (pending : Pending) : Prop := {
  so_length : length answers = n;
  so_range : in_range pending n;
  so_asked : ∀ tx i, pending !! tx = Some i → asked i tx;
  so_replied : ∀ i ap, answers !! i = Some ap → APIsValid ap = true → replied i ap;
  so_none : answered = 0%nat → ∀ i ap, answers !! i = Some ap → APIsValid ap = false;
  so_some : answered ≠ 0%nat → ∃ i ap, answers !! i = Some ap ∧ APIsValid ap = true;
}.

Lemma start_ok : state_ok (replicate n NoAddrPort) 0 ∅.
Proof.
  split; [by rewrite length_replicate|done|done| | |done].
  - intros i ap Hi Hv. apply lookup_replicate in Hi as [-> _]. done.
  - intros _ i ap Hi. by apply lookup_replicate in Hi as [-> _].
Qed.

(** An attempt that is not cut short. *)
Definition complete (a : attempt) : Prop := (∀ i, atSent a i = true) ∧ atCancelled a = false.

Lemma attempt_step a servers answers answered pending : a ∈ all → length servers = n → state_ok answers answered pending →
  ∃ pending1 sent ok pending2 answers' got err,
    send_all a 0 servers answers pending = Some (pending1, sent, ok) ∧
    collect (atCancelled a) (atPackets a) pending1 answers 0 = Some (pending2, answers', got, err) ∧
    state_ok answers' (answered + got) pending2 ∧ (complete a → ok = true ∧ err = false) ∧
    (∀ i ap, (i < n)%nat → (∀ x, replied i x → x = ap) →
       answers !! i = Some ap ∨ (ok = true ∧ distinct a n ∧ (∃ x, answers !! i = Some x ∧ APIsValid x = false) ∧
         ∃ pkt, pkt ∈ atPackets a ∧ ParseResponse pkt = Some (Ok (atTx a i, ap))) → answers' !! i = Some ap).
Proof.
  intros Ha Hn [Hl Hr Hask Hrep H0 H1]. destruct (send_all_sound a servers 0 answers pending) as (p1 & sent & ok & E1 & Hr1 & Hask1 & Hown & _ & Hok); [lia|by rewrite Hl|].
  destruct (collect_sound (atCancelled a) (atPackets a) p1 answers 0 Hr1) as (p2 & ans' & got & err & E2 & Hl2 & Hsub & Herr & Hor & Hgot & Hkeep).
  assert (∀ tx i, p1 !! tx = Some i → asked i tx) as Hask2 by (intros tx i Hi; destruct (Hask1 tx i Hi) as [?| ->]; [by apply Hask|by exists a]).
  assert (∀ i pkt ap, pkt ∈ atPackets a → answers_for p1 i pkt ap → replied i ap) as Hrep2 by (intros i pkt ap Hp (tx & Hpar & Ht); exists a, pkt, tx; split_and!; [done..|by apply Hask2]).
  exists p1, sent, ok, p2, ans', got, err. split_and!; [done|done| |intros [? Hca]; split; [by apply Hok|]; destruct err; [|done]; by rewrite Herr in Hca|].
  - split.
    + by rewrite Hl2.
    + intros tx i Hi. rewrite <- Hl. eapply Hr1, lookup_weaken; done.
    + intros tx i Hi. eapply Hask2, lookup_weaken; done.
    + intros i ap Hi Hv. destruct (Hor i ap Hi) as [?|(pkt & Hp & Hans)]; [by apply Hrep|by eapply Hrep2].
    + intros Hz. destruct Hgot as [[-> ->]|[? _]]; [apply H0; lia|lia].
    + intros Hz. destruct Hgot as [[-> ->]|[_ ?]]; [apply H1; lia|done].
  - intros i ap Hi Hone Hcase. eapply collect_complete; [done|by rewrite Hl| |].
    + intros pkt x Hp Hans. by apply Hone, (Hrep2 _ pkt).
    + destruct Hcase as [?|(Hok' & Hinj & Hinv & pkt & Hp & Hpar)]; [by left|]. right. exists pkt. split; [done|]. exists (atTx a i). split; [done|]. apply Hown; [lia|by rewrite Hl|done..].
Qed.

Lemma attempts_sound l servers : length servers = n → (∀ a, a ∈ l → a ∈ all) → ∀ answers answered pending, state_ok answers answered pending →
  ∃ sent r, attempts l servers answers answered pending = Some (sent, r) ∧
    (∀ answers' answered', r = Ok (answers', answered') → (∃ pending', state_ok answers' answered' pending') ∧
       ∀ i ap, (i < n)%nat → (∀ x, replied i x → x = ap) → answers !! i = Some ap → answers' !! i = Some ap) ∧
    (Forall complete l → ∃ x, r = Ok x).
Proof.
  intros Hn. induction l as [|a l IH]; intros Hall answers answered pending Hs; cbn [attempts].
  - eexists _, _. split; [done|]. split; [|by eexists]. intros ? ? [= <- <-]. split; [by eexists|done].
  - case_decide as Hd. { eexists _, _. split; [done|]. split; [|by eexists]. intros ? ? [= <- <-]. split; [by eexists|done]. }
    destruct (attempt_step a servers answers answered pending) as (p1 & sent & ok & p2 & ans' & got & err & E1 & E2 & Hs' & Hc & Hk); [apply Hall; by left|done|done|].
    rewrite E1. cbn [mbind option_bind]. destruct ok; cbn [negb].
    2: { eexists _, _. split; [done|]. split; [done|]. intros [Hca _]%Forall_cons. by destruct (Hc Hca). }
    rewrite E2. cbn [mbind option_bind]. destruct err.
    { eexists _, _. split; [done|]. split; [done|]. intros [Hca _]%Forall_cons. by destruct (Hc Hca). }
    destruct (IH ltac:(intros b Hb; apply Hall; by right) ans' (answered + got)%nat p2 Hs') as (sent' & r & -> & Hr & Hok). cbn [mbind option_bind].
    eexists _, r. split; [done|]. split; [|intros [_ ?]%Forall_cons; by apply Hok]. intros a' g' Hr'. destruct (Hr a' g' Hr') as [? Hkeep]. split; [done|].
    intros i ap Hi Hone Hans. apply Hkeep; [done..|]. apply Hk; [done..|by left].
Qed.

(** An answer to the first request stands. *)
Lemma first_attempt a l servers sent answers answered i ap : length servers = n → n ≠ 0%nat → (∀ b, b ∈ a :: l → b ∈ all) →
  attempts (a :: l) servers (replicate n NoAddrPort) 0 ∅ = Some (sent, Ok (answers, answered)) → (i < n)%nat → complete a →
  distinct a n → (∃ pkt, pkt ∈ atPackets a ∧ ParseResponse pkt = Some (Ok (atTx a i, ap))) →
  (∀ x, replied i x → x = ap) → answers !! i = Some ap.
Proof.
  intros Hn Hz Hall E Hi Hc Hinj Hpkt Hone.
  destruct (attempt_step a servers _ 0 ∅ (Hall a ltac:(by left)) Hn start_ok) as (p1 & s1 & ok & p2 & ans & got & err & E1 & E2 & Hs & Hok & Hk).
  destruct (Hok Hc) as [-> ->]. cbn [attempts] in E. rewrite decide_False in E by lia. rewrite E1 in E. cbn [mbind option_bind negb] in E. rewrite E2 in E. cbn [mbind option_bind] in E.
  destruct (attempts_sound l servers Hn ltac:(intros b Hb; apply Hall; by right) ans (0 + got)%nat p2 Hs) as (s2 & r & E3 & Hr & _). rewrite E3 in E. cbn [mbind option_bind] in E.
  injection E as _ ->. destruct (Hr _ _ eq_refl) as [_ Hkeep]. apply Hkeep; [done..|]. apply Hk; [done..|]. right. split_and!; [done|done| |done].
  exists NoAddrPort. split; [by apply lookup_replicate_2|done].
Qed.
End Attempts.

(** What a discovery finds.  Whatever the transport does, nothing out of range
    is accessed.  A success lists one address per server that answered, in the
    order of the servers: each was sent in a response to a request made to that
    server, whatever else arrived; there is at least one, and the NAT is said to
    be symmetric exactly when two of them differ.  And a server whose response
    to the first request arrives is listed with the address it saw, if nobody
    forges answers to the requests made to it. *)
Theorem discovery_finds servers a0 a1 (Hne : servers ≠ []) :
  ∃ sent r, Discover a0 a1 servers = Some (sent, r) ∧
    (∀ res, r = Ok res → ∃ answers, length answers = length servers ∧
       Mapped res = filter (λ ap, APIsValid ap = true) answers ∧ Mapped res ≠ [] ∧
       (∀ i ap, answers !! i = Some ap → APIsValid ap = true → replied [a0; a1] i ap) ∧
       (Symmetric res = false ↔ all_one (Mapped res)) ∧
       ∀ i seen junk, (i < length servers)%nat → complete a0 → distinct a0 (length servers) →
         addr_wf (apaddr seen) → IsValid (apaddr seen) = true → 0 <= apport seen < 65536 → length (atTx a0 i) = 12%nat →
         Response (atTx a0 i) seen ++ junk ∈ atPackets a0 →
         (∀ x, replied [a0; a1] i x → x = AddrPort (Unmap (withoutZone (apaddr seen))) (apport seen)) →
         answers !! i = Some (AddrPort (Unmap (withoutZone (apaddr seen))) (apport seen))) ∧
    (complete a0 → complete a1 → r = Err ErrNoResponse ∨ ∃ res, r = Ok res).
Proof.
  unfold Discover. destruct servers as [|srv servers]; [done|]. set (l := srv :: servers) in *. clear Hne. set (n := length l).
  pose proof (start_ok [a0; a1] n) as H0.
  destruct (attempts_sound [a0; a1] n [a0; a1] l eq_refl ltac:(done) _ _ _ H0) as (sent & r & E & Hr & Hok). rewrite E. cbn [mbind option_bind]. eexists _, _. split; [done|]. split.
  - intros res Hres. destruct r as [[answers answered]|e]; [|done]. case_decide as Hz; [done|]. injection Hres as <-. destruct (Hr _ _ eq_refl) as [(p & [Hl _ _ Hrep _ Hsome]) _].
    exists answers. split; [done|]. split; [apply summary_mapped|]. split.
    { rewrite summary_mapped. destruct (Hsome Hz) as (i & ap & Hi & Hv). intros Hnil. apply list_elem_of_lookup_2 in Hi. assert (ap ∈ filter (λ ap, APIsValid ap = true) answers) as Hf by (by apply list_elem_of_filter). rewrite Hnil in Hf. by apply elem_of_nil in Hf. }
    split; [done|]. split; [apply summary_symmetric|].
    intros i seen junk Hi Hc Hinj Hwf Hv Hp Ht Hin Hone.
    eapply (first_attempt [a0; a1] n a0 [a1] l); [done|done|done|exact E|done|done|done| |done]. exists (Response (atTx a0 i) seen ++ junk). split; [done|]. by apply ParseResponse_Response.
  - intros Hc0 Hc1. destruct Hok as [[answers answered] ->]; [by rewrite !Forall_cons, Forall_nil|]. case_decide; [by left|right; by eexists].
Qed.

Lemma discovery_finds_witness :
  let tx j := repeat (if (j =? 0)%nat then Byte.x01 else Byte.x02) 12 in
  let seen := AddrPort (Addr4 3405803783) 41641 in
  let a0 := {| atTx := tx; atSent := λ _, true; atPackets := [[Byte.x00]; Response (repeat Byte.x09 12) seen; Response (tx 0%nat) seen]; atCancelled := false |} in
  let a1 := {| atTx := λ j, repeat Byte.x03 12; atSent := λ _, true; atPackets := [Response (tx 1%nat) (AddrPort (Addr4 3405803784) 7)]; atCancelled := false |} in
  let servers := [AddrPort (Addr4 3221225985) 3478; AddrPort (Addr4 3221225986) 3478] in
  servers ≠ [] ∧ ∃ sent res, Discover a0 a1 servers = Some (sent, Ok res) ∧ Mapped res = [seen; AddrPort (Addr4 3405803784) 7] ∧ Symmetric res = true ∧
    ¬ all_one (Mapped res) ∧ length sent = 3%nat.
Proof.
  intros tx seen a0 a1 servers. split; [done|]. destruct (discovery_finds servers a0 a1) as (sent & r & Hd & Hr & _); [done|].
  assert (∃ res, r = Ok res ∧ Mapped res = [seen; AddrPort (Addr4 3405803784) 7] ∧ Symmetric res = true ∧ length sent = 3%nat) as (res & Hres & Hm & Hs & Hlen).
  { revert Hd. clear. vm_compute. intros [= <- <-]. eexists. by split_and!. }
  subst r. destruct (Hr res eq_refl) as (answers & _ & _ & _ & _ & Hsym & _). exists sent, res. split_and!; [done..| |done]. intros H. apply Hsym in H. congruence.
Defined.
