(* ===== verification/Store.v ===== *)
(** The database of the control plane: [internal/store].

    Tables are lists of rows in insertion order; a statement is its effect on
    them, with the constraints the migrations declare (foreign keys are on).
    Text compares byte by byte.  A transaction is a function from the store to
    an error or a new store: an error rolls everything back.  Failures of the
    disk are not modelled. *)

From Stdlib Require Import Strings.Ascii.
From S2P Require Import Prelude GoStrings.

Inductive store_error := ErrNotFound | ErrConflict | ErrOther.

(** ** Rows *)

Definition RoleAdmin : string := "admin".
Definition RoleMember : string := "member".
Definition KindHuman : string := "human".
Definition KindServer : string := "server".
Definition KindAgent : string := "agent".
Definition ModeAgent : string := "agent".
Definition ModeStatic : string := "static".

Record User := {
  uID : string; uName : string; uRole : string; uPasswordHash : string; uDisabled : bool; uCreatedAt : Z;
}.

Record Peer := {
  pID : string; pName : string; pKind : string; pMode : string; pOwnerID : string; pTags : list string;
  pPublicKey : string; pIPv4 : string; pIPv6 : string; pIPv6Capable : bool; pNodeSecretHash : string;
  pCreatedAt : Z; pLastSeenAt : option Z; pClientVersion : string; pOS : string;
}.

Record Token := {
  tID : string; tSecretHash : string; tOwnerID : string; tKind : string; tTags : list string; tPeerName : string;
  tCreatedBy : string; tCreatedAt : Z; tExpiresAt : Z; tUsedAt : option Z; tUsedByPeerID : string; tIssuedByAdmin : bool;
}.

Record PeerRoute := {
  rPeerID : string; rPrefix : string; rAdvertisedAt : Z; rApproved : bool; rApprovedAt : Z; rApprovedBy : string;
}.

Record PeerSignature := {
  gPeerID : string; gPublicKey : string; gSignerKey : string; gSignature : string; gSignedAt : Z;
}.

Record AuditEntry := {
  aID : Z; aAt : Z; aActor : string; aActorRole : string; aAction : string; aTarget : string; aDetails : list (string * string);
}.

Record Store := MkStore {
  users : list User;
  peers : list Peer;
  tokens : list Token;
  routes : list PeerRoute;
  signatures : list PeerSignature;
  audit_log : list AuditEntry;
  audit_seq : Z;
  meta : gmap string string;
}.

Definition MetaNetmapGeneration : string := "netmap_generation".

(** What the migrations leave in an empty file. *)
Definition emptyStore : Store := MkStore [] [] [] [] [] [] 0 {[ MetaNetmapGeneration := "0" ]}.

(** ** Transactions *)

Definition tx (E A : Type) : Type := Store → result E (Store * A).

#[export] Instance tx_ret {E} : MRet (tx E) := λ A a s, Ok (s, a).
#[export] Instance tx_bind {E} : MBind (tx E) := λ A B f m s,
  match m s with Ok (s', a) => f a s' | Err e => Err e end.

Definition fail_tx {E A} (e : E) : tx E A := λ _, Err e.
Definition query {E A} (f : Store → A) : tx E A := λ s, Ok (s, f s).
Definition update {E} (f : Store → Store) : tx E unit := λ s, Ok (f s, ()).

(** Errors of an accessor as the caller's errors. *)
Definition lift {E F A} (f : E → F) (m : tx E A) : tx F A :=
  λ s, match m s with Ok r => Ok r | Err e => Err (f e) end.

(** A test inside a transaction. *)
Definition check_tx {E} (b : bool) (e : E) : tx E unit := λ s, if b then Ok (s, ()) else Err e.
Definition of_result {E A} (r : result E A) : tx E A := λ s, match r with Ok a => Ok (s, a) | Err e => Err e end.

(** [Store.InTx]. *)
Definition InTx {E A} (fn : tx E A) (s : Store) : Store * result E A :=
  match fn s with Ok (s', a) => (s', Ok a) | Err e => (s, Err e) end.

(** ** Statements *)

Definition with_users (l : list User) (s : Store) : Store :=
  MkStore l (peers s) (tokens s) (routes s) (signatures s) (audit_log s) (audit_seq s) (meta s).
Definition with_peers (l : list Peer) (s : Store) : Store :=
  MkStore (users s) l (tokens s) (routes s) (signatures s) (audit_log s) (audit_seq s) (meta s).
Definition with_tokens (l : list Token) (s : Store) : Store :=
  MkStore (users s) (peers s) l (routes s) (signatures s) (audit_log s) (audit_seq s) (meta s).
Definition with_routes (l : list PeerRoute) (s : Store) : Store :=
  MkStore (users s) (peers s) (tokens s) l (signatures s) (audit_log s) (audit_seq s) (meta s).
Definition with_signatures (l : list PeerSignature) (s : Store) : Store :=
  MkStore (users s) (peers s) (tokens s) (routes s) l (audit_log s) (audit_seq s) (meta s).
Definition with_audit (l : list AuditEntry) (n : Z) (s : Store) : Store :=
  MkStore (users s) (peers s) (tokens s) (routes s) (signatures s) l n (meta s).
Definition with_meta (m : gmap string string) (s : Store) : Store :=
  MkStore (users s) (peers s) (tokens s) (routes s) (signatures s) (audit_log s) (audit_seq s) m.

(** [SELECT ... WHERE], at most one row expected. *)
Definition find_row {A} (P : A → bool) (l : list A) : result store_error A :=
  match filter (λ x, P x = true) l with x :: _ => Ok x | [] => Err ErrNotFound end.

Definition get {A} (rows : Store → list A) (P : A → bool) : tx store_error A :=
  λ s, match find_row P (rows s) with Ok x => Ok (s, x) | Err e => Err e end.

Definition eqs (a b : string) : bool := bool_decide (a = b).

(** *** Times as stored text

    A time is stored as its RFC 3339 text in UTC with as many digits of the
    fraction as it needs; a row of the model holds the time itself, and the
    statements that compare times compare the texts. *)

(** Year, month and day from the days since 1 January of the year 1, counted
    in years that begin in March. *)
Definition civil (days : Z) : Z * Z * Z :=
  let z := days + 306 in
  let era := z `div` 146097 in
  let doe := z `mod` 146097 in
  let yoe := (doe - doe `div` 1460 + doe `div` 36524 - doe `div` 146096) `div` 365 in
  let doy := doe - (365 * yoe + yoe `div` 4 - yoe `div` 100) in
  let mp := (5 * doy + 2) `div` 153 in
  let month := if mp <? 10 then mp + 3 else mp - 9 in
  (yoe + era * 400 + (if month <=? 2 then 1 else 0), month, doy - (153 * mp + 2) `div` 5 + 1).

(** At least [w] digits. *)
Definition padded (w : nat) (n : Z) : bytes :=
  let d := chars (itoa n) in replicate (w - length d) "0"%char ++ d.

Definition date_time (t : Z) : bytes :=
  let s := t `div` second in
  let '(y, m, d) := civil (s `div` 86400) in
  let r := s `mod` 86400 in
  padded 4 y ++ "-"%char :: padded 2 m ++ "-"%char :: padded 2 d ++ "T"%char ::
  padded 2 (r `div` 3600) ++ ":"%char :: padded 2 (r `div` 60 `mod` 60) ++ ":"%char :: padded 2 (r `mod` 60).

Fixpoint strip_zeros (l : bytes) : bytes :=
  match l with c :: l' => if bool_decide (c = "0"%char) then strip_zeros l' else l | [] => [] end.

(** The digits of the fraction without trailing zeros. *)
Definition nano_digits (n : Z) : bytes := reverse (strip_zeros (reverse (padded 9 n))).

(** [time.RFC3339]. *)
Definition rfc3339 (t : Z) : string := of_chars (date_time t ++ ["Z"%char]).

(** [time.RFC3339Nano]. *)
Definition formatTime (t : Z) : string :=
  let n := t `mod` second in
  of_chars (date_time t ++ (if n =? 0 then [] else "."%char :: nano_digits n) ++ ["Z"%char]).

(** [formatTime t < formatTime u] as texts. *)
Definition text_before (t u : Z) : bool := str_ltb (formatTime t) (formatTime u).

Example formatTime_demo :
  formatTime (63859276800 * second + 150000000) = "2024-08-15T00:00:00.15Z" ∧ formatTime 0 = "0001-01-01T00:00:00Z".
Proof. vm_compute. by split. Qed.

(** *** users *)

Definition user_exists (id : string) (s : Store) : bool := existsb (λ u, eqs (uID u) id) (users s).

Definition Users_Create (u : User) : tx store_error unit := λ s,
  if negb (eqs (uRole u) RoleAdmin || eqs (uRole u) RoleMember) then Err ErrOther
  else if existsb (λ v, eqs (uID v) (uID u) || eqs (uName v) (uName u)) (users s) then Err ErrConflict
  else Ok (with_users (users s ++ [u]) s, ()).

Definition Users_GetByName (name : string) : tx store_error User := get users (λ u, eqs (uName u) name).
Definition Users_GetByID (id : string) : tx store_error User := get users (λ u, eqs (uID u) id).

(** [ORDER BY name]. *)
Definition Users_List : tx store_error (list User) :=
  query (λ s, stable_sort (λ a b, str_ltb (uName a) (uName b)) (users s)).
Definition Users_Count : tx store_error Z := query (λ s, Z.of_nat (length (users s))).

(** *** peers *)

Definition kind_ok (k : string) : bool := eqs k KindHuman || eqs k KindServer || eqs k KindAgent.
Definition mode_ok (m : string) : bool := eqs m ModeAgent || eqs m ModeStatic.

(** The unique columns; an empty [ipv6] is stored as NULL, which is never
    equal. *)
Definition peer_clash (p q : Peer) : bool :=
  eqs (pID p) (pID q) || eqs (pName p) (pName q) || eqs (pPublicKey p) (pPublicKey q) || eqs (pIPv4 p) (pIPv4 q)
  || (negb (eqs (pIPv6 p) "") && eqs (pIPv6 p) (pIPv6 q)).

Definition Peers_Create (p : Peer) : tx store_error unit := λ s,
  if negb (kind_ok (pKind p) && mode_ok (pMode p)) then Err ErrOther
  else if existsb (peer_clash p) (peers s) then Err ErrConflict
  else if negb (eqs (pOwnerID p) "") && negb (user_exists (pOwnerID p) s) then Err ErrOther
  else Ok (with_peers (peers s ++ [p]) s, ()).

Definition Peers_GetByName (name : string) : tx store_error Peer := get peers (λ p, eqs (pName p) name).
Definition Peers_GetByID (id : string) : tx store_error Peer := get peers (λ p, eqs (pID p) id).
Definition Peers_GetByNodeSecretHash (h : string) : tx store_error Peer :=
  get peers (λ p, negb (eqs (pNodeSecretHash p) "") && eqs (pNodeSecretHash p) h).

Definition AllocatedIPv4s : tx store_error (list string) := query (λ s, pIPv4 <$> peers s).

Definition peer_exists (id : string) (s : Store) : bool := existsb (λ p, eqs (pID p) id) (peers s).

(** A row update: ErrNotFound when no row has the id. *)
Definition update_peer (id : string) (f : Peer → Peer) : tx store_error unit := λ s,
  if peer_exists id s then Ok (with_peers ((λ p, if eqs (pID p) id then f p else p) <$> peers s) s, ())
  else Err ErrNotFound.

Definition set_name (n : string) (p : Peer) : Peer :=
  {| pID := pID p; pName := n; pKind := pKind p; pMode := pMode p; pOwnerID := pOwnerID p; pTags := pTags p;
     pPublicKey := pPublicKey p; pIPv4 := pIPv4 p; pIPv6 := pIPv6 p; pIPv6Capable := pIPv6Capable p;
     pNodeSecretHash := pNodeSecretHash p; pCreatedAt := pCreatedAt p; pLastSeenAt := pLastSeenAt p;
     pClientVersion := pClientVersion p; pOS := pOS p |}.

(** ErrConflict when another peer has the name. *)
Definition Peers_Rename (id name : string) : tx store_error unit := λ s,
  if peer_exists id s && existsb (λ p, negb (eqs (pID p) id) && eqs (pName p) name) (peers s) then Err ErrConflict
  else update_peer id (set_name name) s.

Definition set_public_key (k : string) (p : Peer) : Peer :=
  {| pID := pID p; pName := pName p; pKind := pKind p; pMode := pMode p; pOwnerID := pOwnerID p; pTags := pTags p;
     pPublicKey := k; pIPv4 := pIPv4 p; pIPv6 := pIPv6 p; pIPv6Capable := pIPv6Capable p;
     pNodeSecretHash := pNodeSecretHash p; pCreatedAt := pCreatedAt p; pLastSeenAt := pLastSeenAt p;
     pClientVersion := pClientVersion p; pOS := pOS p |}.

Definition set_ipv6 (a : string) (p : Peer) : Peer :=
  {| pID := pID p; pName := pName p; pKind := pKind p; pMode := pMode p; pOwnerID := pOwnerID p; pTags := pTags p;
     pPublicKey := pPublicKey p; pIPv4 := pIPv4 p; pIPv6 := a; pIPv6Capable := pIPv6Capable p;
     pNodeSecretHash := pNodeSecretHash p; pCreatedAt := pCreatedAt p; pLastSeenAt := pLastSeenAt p;
     pClientVersion := pClientVersion p; pOS := pOS p |}.

(** The columns that no constraint looks at: [ipv6_capable], [last_seen_at]
    and [client_version]. *)
Definition set_report (capable : bool) (seen : option Z) (version : string) (p : Peer) : Peer :=
  {| pID := pID p; pName := pName p; pKind := pKind p; pMode := pMode p; pOwnerID := pOwnerID p; pTags := pTags p;
     pPublicKey := pPublicKey p; pIPv4 := pIPv4 p; pIPv6 := pIPv6 p; pIPv6Capable := capable;
     pNodeSecretHash := pNodeSecretHash p; pCreatedAt := pCreatedAt p; pLastSeenAt := seen;
     pClientVersion := version; pOS := pOS p |}.

(** ErrConflict when another peer has the key. *)
Definition Peers_SetPublicKey (id key : string) : tx store_error unit := λ s,
  if peer_exists id s && existsb (λ p, negb (eqs (pID p) id) && eqs (pPublicKey p) key) (peers s) then Err ErrConflict
  else update_peer id (set_public_key key) s.

(** [UPDATE ... WHERE id = ?]: no error when no row has the id. *)
Definition update_rows (id : string) (f : Peer → Peer) (s : Store) : Store :=
  with_peers ((λ p, if eqs (pID p) id then f p else p) <$> peers s) s.

Definition Peers_Touch (id : string) (at_ : Z) : tx store_error unit :=
  update (update_rows id (λ p, set_report (pIPv6Capable p) (Some at_) (pClientVersion p) p)).

Definition Peers_SetClientVersion (id version : string) : tx store_error unit :=
  update (update_rows id (λ p, set_report (pIPv6Capable p) (pLastSeenAt p) version p)).

(** Whether the stored value changed. *)
Definition Peers_SetIPv6Capable (id : string) (capable : bool) : tx store_error bool := λ s,
  if existsb (λ p, eqs (pID p) id && negb (Bool.eqb (pIPv6Capable p) capable)) (peers s)
  then Ok (update_rows id (λ p, set_report capable (pLastSeenAt p) (pClientVersion p) p) s, true)
  else if peer_exists id s then Ok (s, false) else Err ErrNotFound.

(** The loop of [BackfillIPv6]: each row is its own statement, so what was set
    before a conflict stays. *)
Fixpoint backfill (derive : string → string) (todo : list (string * string)) (n : Z) (s : Store)
    : Store * (Z * option store_error) :=
  match todo with
  | [] => (s, (n, None))
  | (id, ipv4) :: rest =>
      let v6 := derive ipv4 in
      if eqs v6 "" then backfill derive rest n s
      else if peer_exists id s && existsb (λ p, negb (eqs (pID p) id) && eqs (pIPv6 p) v6) (peers s)
      then (s, (n, Some ErrConflict))
      else backfill derive rest (n + 1) (update_rows id (set_ipv6 v6) s)
  end.

Definition Peers_BackfillIPv6 (derive : string → string) (s : Store) : Store * (Z * option store_error) :=
  backfill derive ((λ p, (pID p, pIPv4 p)) <$> filter (λ p, eqs (pIPv6 p) "" = true) (peers s)) 0 s.

Definition Peers_Count : tx store_error Z := query (λ s, Z.of_nat (length (peers s))).

(** [GROUP BY kind]. *)
Definition CountByKind : tx store_error (gmap string Z) :=
  query (λ s, foldl (λ m p, <[pKind p := default 0 (m !! pKind p) + 1]> m) ∅ (peers s)).

Definition by_name (a b : Peer) : bool := str_ltb (pName a) (pName b).
Definition Peers_List : tx store_error (list Peer) := query (λ s, stable_sort by_name (peers s)).
Definition Peers_ListByMode (mode : string) : tx store_error (list Peer) :=
  query (λ s, stable_sort by_name (filter (λ p, eqs (pMode p) mode = true) (peers s))).

(** The tokens it used keep their use without its id; its routes go. *)
Definition forget_peer (id : string) (t : Token) : Token :=
  if eqs (tUsedByPeerID t) id
  then {| tID := tID t; tSecretHash := tSecretHash t; tOwnerID := tOwnerID t; tKind := tKind t; tTags := tTags t;
          tPeerName := tPeerName t; tCreatedBy := tCreatedBy t; tCreatedAt := tCreatedAt t; tExpiresAt := tExpiresAt t;
          tUsedAt := tUsedAt t; tUsedByPeerID := ""; tIssuedByAdmin := tIssuedByAdmin t |}
  else t.

Definition Peers_Delete (id : string) : tx store_error unit := λ s,
  if peer_exists id s
  then Ok (with_routes (filter (λ r, eqs (rPeerID r) id = false) (routes s))
             (with_tokens (forget_peer id <$> tokens s)
                (with_peers (filter (λ p, eqs (pID p) id = false) (peers s)) s)), ())
  else Err ErrNotFound.

(** *** peer_signatures *)

Definition Signatures_DeletePeer (id : string) : tx store_error unit :=
  update (λ s, with_signatures (filter (λ g, eqs (gPeerID g) id = false) (signatures s)) s).

Definition same_signature (g h : PeerSignature) : bool :=
  eqs (gPeerID g) (gPeerID h) && eqs (gPublicKey g) (gPublicKey h) && eqs (gSignerKey g) (gSignerKey h).

(** [ON CONFLICT ... DO UPDATE]: the row keeps its place. *)
Definition Signatures_Put (g : PeerSignature) : tx store_error unit := λ s,
  if eqs (gPeerID g) "" || eqs (gPublicKey g) "" || eqs (gSignerKey g) "" || eqs (gSignature g) "" then Err ErrOther
  else if existsb (same_signature g) (signatures s)
  then Ok (with_signatures ((λ h, if same_signature g h then g else h) <$> signatures s) s, ())
  else Ok (with_signatures (signatures s ++ [g]) s, ()).

(** [ORDER BY peer_id, signer_key]. *)
Definition Signatures_ListAll : tx store_error (list PeerSignature) :=
  query (λ s, stable_sort (λ a b, if eqs (gPeerID a) (gPeerID b) then str_ltb (gSignerKey a) (gSignerKey b)
                                  else str_ltb (gPeerID a) (gPeerID b)) (signatures s)).

Definition Signatures_DeleteKey (id key : string) : tx store_error unit :=
  update (λ s, with_signatures (filter (λ g, eqs (gPeerID g) id && eqs (gPublicKey g) key = false) (signatures s)) s).
Definition Signatures_DeleteAll : tx store_error unit := update (with_signatures []).

(** *** peer_routes *)

Definition Routes_ListPeer (id : string) : tx store_error (list PeerRoute) :=
  query (λ s, stable_sort (λ a b, str_ltb (rPrefix a) (rPrefix b)) (filter (λ r, eqs (rPeerID r) id = true) (routes s))).

Definition Routes_ListAll : tx store_error (list PeerRoute) :=
  query (λ s, stable_sort (λ a b, if eqs (rPeerID a) (rPeerID b) then str_ltb (rPrefix a) (rPrefix b)
                                  else str_ltb (rPeerID a) (rPeerID b)) (routes s)).

Definition is_route (id prefix : string) (r : PeerRoute) : bool := eqs (rPeerID r) id && eqs (rPrefix r) prefix.

Definition route_insert (id prefix : string) (now : Z) : tx store_error unit := λ s,
  if existsb (is_route id prefix) (routes s) || negb (peer_exists id s) then Err ErrOther
  else Ok (with_routes (routes s ++ [{| rPeerID := id; rPrefix := prefix; rAdvertisedAt := now; rApproved := false;
                                        rApprovedAt := 0; rApprovedBy := "" |}]) s, ()).

(** The first loop of [Replace]: rows not wanted go. *)
Fixpoint routes_withdraw (id : string) (want : list string) (current : list PeerRoute) : tx store_error (list string) :=
  match current with
  | [] => mret []
  | c :: rest =>
      if bool_decide (rPrefix c ∈ want) then routes_withdraw id want rest
      else
        update (λ s, with_routes (filter (λ r, is_route id (rPrefix c) r = false) (routes s)) s) ;;
        l ← routes_withdraw id want rest; mret (rPrefix c :: l)
  end.

(** The second loop: prefixes the peer did not have are inserted. *)
Fixpoint routes_add (id : string) (have : list string) (now : Z) (prefixes : list string) : tx store_error (list string) :=
  match prefixes with
  | [] => mret []
  | p :: rest =>
      if bool_decide (p ∈ have) then routes_add id have now rest
      else route_insert id p now ;; l ← routes_add id have now rest; mret (p :: l)
  end.

Definition Routes_Replace (id : string) (prefixes : list string) (now : Z) : tx store_error (list string * list string) :=
  current ← Routes_ListPeer id;
  removed ← routes_withdraw id prefixes current;
  added ← routes_add id (rPrefix <$> current) now prefixes;
  mret (added, removed).

Definition approve (by_ : string) (now : Z) (r : PeerRoute) : PeerRoute :=
  {| rPeerID := rPeerID r; rPrefix := rPrefix r; rAdvertisedAt := rAdvertisedAt r; rApproved := true;
     rApprovedAt := now; rApprovedBy := by_ |}.
Definition unapprove (r : PeerRoute) : PeerRoute :=
  {| rPeerID := rPeerID r; rPrefix := rPrefix r; rAdvertisedAt := rAdvertisedAt r; rApproved := false;
     rApprovedAt := 0; rApprovedBy := "" |}.

Definition Routes_SetApproved (id prefix by_ : string) (approved : bool) (now : Z) : tx store_error unit := λ s,
  if existsb (is_route id prefix) (routes s)
  then Ok (with_routes ((λ r, if is_route id prefix r then (if approved then approve by_ now r else unapprove r) else r)
                          <$> routes s) s, ())
  else Err ErrNotFound.

(** *** enrollment_tokens *)

Definition token_clash (t u : Token) : bool := eqs (tID t) (tID u) || eqs (tSecretHash t) (tSecretHash u).

(** A new row's [used_at] and [used_by_peer_id] are NULL. *)
Definition fresh_token (t : Token) : Token :=
  {| tID := tID t; tSecretHash := tSecretHash t; tOwnerID := tOwnerID t; tKind := tKind t; tTags := tTags t;
     tPeerName := tPeerName t; tCreatedBy := tCreatedBy t; tCreatedAt := tCreatedAt t; tExpiresAt := tExpiresAt t;
     tUsedAt := None; tUsedByPeerID := ""; tIssuedByAdmin := tIssuedByAdmin t |}.

Definition Tokens_Create (t : Token) : tx store_error unit := λ s,
  if negb (kind_ok (tKind t)) then Err ErrOther
  else if existsb (token_clash t) (tokens s) then Err ErrConflict
  else if negb (user_exists (tOwnerID t) s && user_exists (tCreatedBy t) s) then Err ErrOther
  else Ok (with_tokens (tokens s ++ [fresh_token t]) s, ()).

Definition Tokens_GetByHash (h : string) : tx store_error Token := get tokens (λ t, eqs (tSecretHash t) h).

Definition mark_used (now : Z) (peerID : string) (t : Token) : Token :=
  {| tID := tID t; tSecretHash := tSecretHash t; tOwnerID := tOwnerID t; tKind := tKind t; tTags := tTags t;
     tPeerName := tPeerName t; tCreatedBy := tCreatedBy t; tCreatedAt := tCreatedAt t; tExpiresAt := tExpiresAt t;
     tUsedAt := Some now; tUsedByPeerID := peerID; tIssuedByAdmin := tIssuedByAdmin t |}.

(** [WHERE id = ? AND used_at IS NULL]. *)
Definition unused_id (id : string) (t : Token) : bool :=
  eqs (tID t) id && match tUsedAt t with None => true | Some _ => false end.

Definition Tokens_MarkUsed (id peerID : string) (now : Z) : tx store_error unit := λ s,
  if negb (existsb (unused_id id) (tokens s)) then Err ErrConflict
  else if negb (peer_exists peerID s) then Err ErrOther
  else Ok (with_tokens ((λ t, if unused_id id t then mark_used now peerID t else t) <$> tokens s) s, ()).

(** [ORDER BY created_at DESC]. *)
Definition Tokens_List : tx store_error (list Token) :=
  query (λ s, stable_sort (λ a b, text_before (tCreatedAt b) (tCreatedAt a)) (tokens s)).

Definition Tokens_Delete (id : string) : tx store_error unit := λ s,
  if existsb (λ t, eqs (tID t) id) (tokens s)
  then Ok (with_tokens (filter (λ t, eqs (tID t) id = false) (tokens s)) s, ())
  else Err ErrNotFound.

(** *** audit_log and meta *)

(** [wall] is the clock read when the entry has no time. *)
Definition Audit_Append (wall : Z) (e : AuditEntry) : tx store_error unit := λ s,
  if eqs (aAction e) "" || eqs (aActor e) "" then Err ErrOther
  else
    let n := audit_seq s + 1 in
    Ok (with_audit (audit_log s ++ [{| aID := n; aAt := if aAt e =? 0 then wall else aAt e; aActor := aActor e; aActorRole := aActorRole e;
                                       aAction := aAction e; aTarget := aTarget e; aDetails := aDetails e |}]) n s, ()).

(** [AuditQuery]; [Since] is the zero time for no bound. *)
Record AuditQuery := { qSince : Z; qBeforeID : Z; qAction : string; qActor : string; qLimit : Z }.

Definition audit_limit (n : Z) : Z := if n <=? 0 then 100 else if 1000 <? n then 1000 else n.

Definition audit_matches (q : AuditQuery) (e : AuditEntry) : bool :=
  ((qSince q =? 0) || negb (text_before (aAt e) (qSince q))) && ((qBeforeID q <=? 0) || (aID e <? qBeforeID q))
  && (eqs (qAction q) "" || eqs (aAction e) (qAction q)) && (eqs (qActor q) "" || eqs (aActor e) (qActor q)).

(** Ids grow with insertion, so [ORDER BY id DESC] is the reverse order. *)
Definition Audit_List (q : AuditQuery) : tx store_error (list AuditEntry) :=
  query (λ s, take (Z.to_nat (audit_limit (qLimit q))) (reverse (filter (λ e, audit_matches q e = true) (audit_log s)))).

Definition Audit_Prune (before : Z) : tx store_error Z := λ s,
  let kept := filter (λ e, text_before (aAt e) before = false) (audit_log s) in
  Ok (with_audit kept (audit_seq s) s, Z.of_nat (length (audit_log s)) - Z.of_nat (length kept)).

Definition Audit_Count : tx store_error Z := query (λ s, Z.of_nat (length (audit_log s))).

(** The text order is not the order of time: an entry made half a second after
    [since] is left out, and pruned with it as the limit. *)
Lemma text_order_demo :
  audit_matches {| qSince := 5 * second; qBeforeID := 0; qAction := ""; qActor := ""; qLimit := 0 |}
    {| aID := 1; aAt := 5 * second + 500000000; aActor := "a"; aActorRole := ""; aAction := "x"; aTarget := ""; aDetails := [] |} = false.
Proof. vm_compute. reflexivity. Qed.

Definition Meta_Get (key : string) : tx store_error string := λ s,
  match meta s !! key with Some v => Ok (s, v) | None => Err ErrNotFound end.
Definition Meta_Set (key value : string) : tx store_error unit := update (λ s, with_meta (<[key := value]> (meta s)) s).

(** [CAST(value AS INTEGER)] of the decimal digits this statement keeps. *)
Definition cast_integer (v : string) : Z := default 0 (parse_dec (chars v)).

Definition IncrementGeneration : tx store_error Z := λ s,
  match meta s !! MetaNetmapGeneration with
  | Some v => let g := cast_integer v + 1 in Ok (with_meta (<[MetaNetmapGeneration := itoa g]> (meta s)) s, g)
  | None => Err ErrOther
  end.

Definition Generation : tx store_error Z := λ s,
  match meta s !! MetaNetmapGeneration with
  | Some v => match atoi (chars v) with Some g => Ok (s, g) | None => Err ErrOther end
  | None => Err ErrNotFound
  end.

(** ** Lemmas *)

Lemma tx_bind_ok {E A B} (m : tx E A) (f : A → tx E B) s r :
  (m ≫= f) s = Ok r ↔ ∃ s' a, m s = Ok (s', a) ∧ f a s' = Ok r.
Proof.
  unfold mbind, tx_bind. destruct (m s) as [[s' a]|e]; split; [eauto|by intros (? & ? & [= <- <-] & ?)|done|by intros (? & ? & ? & _)].
Qed.

Lemma lift_ok {E F A} (f : E → F) (m : tx E A) s r : lift f m s = Ok r ↔ m s = Ok r.
Proof. unfold lift. destruct (m s); naive_solver. Qed.

Lemma InTx_ok {E A} (fn : tx E A) s s' a : InTx fn s = (s', Ok a) ↔ fn s = Ok (s', a).
Proof. unfold InTx. destruct (fn s) as [[? ?]|e]; naive_solver. Qed.

Lemma InTx_err {E A} (fn : tx E A) s s' e : InTx fn s = (s', Err e) → s' = s.
Proof. unfold InTx. destruct (fn s) as [[? ?]|?]; naive_solver. Qed.

Lemma eqs_true a b : eqs a b = true ↔ a = b.
Proof. unfold eqs. by rewrite bool_decide_eq_true. Qed.

Lemma eqs_false a b : eqs a b = false ↔ a ≠ b.
Proof. unfold eqs. by rewrite bool_decide_eq_false. Qed.

Lemma existsb_false_iff {A} (f : A → bool) l : existsb f l = false ↔ ∀ x, x ∈ l → f x = false.
Proof.
  induction l as [|y l IH]; simpl; [split; [by intros _ x ?%elem_of_nil|done]|].
  rewrite orb_false_iff, IH. setoid_rewrite elem_of_cons. naive_solver.
Qed.

Lemma find_row_ok {A} (P : A → bool) l x : find_row P l = Ok x → x ∈ l ∧ P x = true.
Proof.
  unfold find_row. destruct (filter _ l) as [|y r] eqn:E; [done|]. intros [= ->].
  assert (x ∈ filter (λ x, P x = true) l) as Hx by (rewrite E; left). apply list_elem_of_filter in Hx. naive_solver.
Qed.

Lemma find_row_err {A} (P : A → bool) l e : find_row P l = Err e → e = ErrNotFound ∧ ∀ x, x ∈ l → P x = false.
Proof.
  unfold find_row. destruct (filter _ l) as [|y r] eqn:E; [|done]. intros [= <-]. split; [done|]. intros x Hx.
  apply not_true_is_false. intros Hp. assert (x ∈ filter (λ x, P x = true) l) as H by by apply list_elem_of_filter.
  rewrite E in H. by apply elem_of_nil in H.
Qed.

Lemma get_ok {A} (rows : Store → list A) P s s' x : get rows P s = Ok (s', x) ↔ s' = s ∧ find_row P (rows s) = Ok x.
Proof. unfold get. destruct (find_row P (rows s)); naive_solver. Qed.

Lemma NoDup_snoc {A} (x : A) l : NoDup (l ++ [x]) ↔ x ∉ l ∧ NoDup l.
Proof. rewrite NoDup_app. setoid_rewrite list_elem_of_singleton. split; [naive_solver|]. intros [H1 H2]. split_and!; [done|naive_solver|apply NoDup_singleton]. Qed.

(** *** Constraints

    What the declarations of the tables keep true of the rows. *)

Record store_ok (s : Store) : Prop := {
  ok_peer_ids : NoDup (pID <$> peers s);
  ok_peer_names : NoDup (pName <$> peers s);
  ok_peer_keys : NoDup (pPublicKey <$> peers s);
  ok_peer_ipv4 : NoDup (pIPv4 <$> peers s);
  ok_peer_ipv6 : NoDup (filter (λ a, a ≠ "") (pIPv6 <$> peers s));
  ok_token_ids : NoDup (tID <$> tokens s);
  ok_token_hashes : NoDup (tSecretHash <$> tokens s);
  ok_generation : ∃ g, 0 <= g ∧ meta s !! MetaNetmapGeneration = Some (itoa g);
}.

(** The generation kept in the table. *)
Definition gen_of (s : Store) : Z := match meta s !! MetaNetmapGeneration with Some v => cast_integer v | None => 0 end.

Lemma emptyStore_ok us : store_ok (with_users us emptyStore).
Proof. split; simpl; try constructor. exists 0. by rewrite lookup_singleton_eq. Qed.

Lemma cast_itoa g : 0 <= g → cast_integer (itoa g) = g.
Proof. intros Hg. unfold cast_integer. by rewrite parse_dec_itoa. Qed.

Lemma IncrementGeneration_ok s s' g :
  store_ok s → IncrementGeneration s = Ok (s', g) →
  g = gen_of s + 1 ∧ s' = with_meta (<[MetaNetmapGeneration := itoa g]> (meta s)) s ∧ gen_of s' = g ∧ store_ok s'.
Proof.
  intros [? ? ? ? ? ? ? (g0 & Hg0 & Hm)]. unfold IncrementGeneration, gen_of. rewrite Hm, cast_itoa by done. intros [= <- <-].
  assert (gen_of (with_meta (<[MetaNetmapGeneration:=itoa (g0 + 1)]> (meta s)) s) = g0 + 1) as Hg.
  { unfold gen_of. cbn [with_meta meta]. rewrite lookup_insert_eq. by rewrite cast_itoa by lia. }
  split_and!; try done. split; try done. exists (g0 + 1). split; [lia|]. cbn [with_meta meta]. by rewrite lookup_insert_eq.
Qed.

Lemma IncrementGeneration_some s : store_ok s → ∃ r, IncrementGeneration s = Ok r.
Proof. intros [? ? ? ? ? ? ? (g0 & Hg0 & Hm)]. unfold IncrementGeneration. rewrite Hm. eauto. Qed.

Lemma peer_clash_false p q :
  peer_clash p q = false ↔ pID p ≠ pID q ∧ pName p ≠ pName q ∧ pPublicKey p ≠ pPublicKey q ∧ pIPv4 p ≠ pIPv4 q ∧
    (pIPv6 p = "" ∨ pIPv6 p ≠ pIPv6 q).
Proof.
  unfold peer_clash. rewrite !orb_false_iff, andb_false_iff, negb_false_iff, !eqs_false, eqs_true. naive_solver.
Qed.

Lemma fresh_snoc {A} (f : A → string) x l : NoDup (f <$> l) → (∀ y, y ∈ l → f x ≠ f y) → NoDup (f <$> (l ++ [x])).
Proof.
  intros Hnd Hx. rewrite fmap_app. apply NoDup_snoc. split; [|done]. intros (y & Hy & Hin)%list_elem_of_fmap. by apply (Hx y).
Qed.

Lemma Peers_Create_ok p s s' :
  Peers_Create p s = Ok (s', ()) ↔
  kind_ok (pKind p) = true ∧ mode_ok (pMode p) = true ∧ (∀ q, q ∈ peers s → peer_clash p q = false) ∧
  (pOwnerID p = "" ∨ user_exists (pOwnerID p) s = true) ∧ s' = with_peers (peers s ++ [p]) s.
Proof.
  unfold Peers_Create. destruct (negb _) eqn:E1; [split; [done|]; intros (H1 & H2 & _); go_bool; rewrite H1, H2 in E1; by destruct E1|].
  destruct (existsb _ _) eqn:E2.
  { split; [done|]. intros (_ & _ & H & _). apply existsb_true_iff in E2 as (q & Hq & Hc). rewrite H in Hc; done. }
  rewrite existsb_false_iff in E2. destruct (negb (eqs (pOwnerID p) "") && negb (user_exists (pOwnerID p) s)) eqn:E3.
  { split; [done|]. intros (_ & _ & _ & H & _). go_bool. apply eqs_false in H0. destruct H; congruence. }
  go_bool. split.
  - intros [= <-]. split_and!; try done. destruct E3 as [E3|E3]; go_bool; [left; by apply eqs_true|by right].
  - by intros (_ & _ & _ & _ & ->).
Qed.

Lemma store_ok_new_peer p s :
  store_ok s → (∀ q, q ∈ peers s → peer_clash p q = false) → store_ok (with_peers (peers s ++ [p]) s).
Proof.
  intros [] Hc. split; try done; simpl.
  - apply fresh_snoc; [done|]. intros q Hq. by apply peer_clash_false, Hc.
  - apply fresh_snoc; [done|]. intros q Hq. by apply peer_clash_false, Hc.
  - apply fresh_snoc; [done|]. intros q Hq. by apply peer_clash_false, Hc.
  - apply fresh_snoc; [done|]. intros q Hq. by apply peer_clash_false, Hc.
  - rewrite fmap_app, filter_app. destruct (decide (pIPv6 p = "")) as [He|Hne].
    + rewrite (filter_none _ (pIPv6 <$> [p])); [by rewrite app_nil_r|]. simpl. intros x ->%list_elem_of_singleton. by intros [].
    + rewrite (filter_all _ (pIPv6 <$> [p])); [|simpl; by intros x ->%list_elem_of_singleton].
      apply NoDup_snoc. split; [|done]. intros [_ (q & Hq & Hin)%list_elem_of_fmap]%list_elem_of_filter.
      apply Hc, peer_clash_false in Hin as (_ & _ & _ & _ & [?|?]); congruence.
Qed.

Lemma Audit_Append_ok wall e s s' :
  Audit_Append wall e s = Ok (s', ()) → ∃ l n, s' = with_audit l n s.
Proof. unfold Audit_Append. destruct (_ || _); [done|]. intros [= <-]. eauto. Qed.

Lemma store_ok_with_audit l n s : store_ok s → store_ok (with_audit l n s).
Proof. intros []. by split. Qed.

Lemma store_ok_tokens f s :
  (∀ t, tID (f t) = tID t ∧ tSecretHash (f t) = tSecretHash t) → store_ok s → store_ok (with_tokens (f <$> tokens s) s).
Proof.
  intros Hf []. split; try done; simpl; rewrite <- list_fmap_compose.
  - rewrite (list_fmap_ext _ tID); [done|]. intros i t _. apply Hf.
  - rewrite (list_fmap_ext _ tSecretHash); [done|]. intros i t _. apply Hf.
Qed.
