(* ===== verification/Effects.v ===== *)
(** Reasoning about transactions on the database: what a statement keeps and
    which tables it touches. *)

From S2P Require Import Prelude GoStrings Store.

(** ** Rules for transactions

    [triple P m Q]: from a store where [P] holds, a success of [m] with [a]
    leaves one where [Q a] holds; [keeps I m] when both are the same. *)

Definition triple {E A} (P : Store → Prop) (m : tx E A) (Q : A → Store → Prop) : Prop :=
  ∀ s s' a, P s → m s = Ok (s', a) → Q a s'.
Definition keeps {E A} (I : Store → Prop) (m : tx E A) : Prop := triple I m (λ _, I).

Lemma triple_bind {E A B} P R Q (m : tx E A) (f : A → tx E B) :
  triple P m R → (∀ a, triple (R a) (f a) Q) → triple P (m ≫= f) Q.
Proof. intros Hm Hf s s' b HP (s1 & a & H1 & H2)%tx_bind_ok. eapply Hf, H2. by eapply Hm. Qed.

Lemma triple_ret {E A} (P : A → Store → Prop) (a : A) : triple (E := E) (P a) (mret a) P.
Proof. by intros s s' b HP [= <- <-]. Qed.

Lemma triple_lift {E F A} (g : E → F) P (m : tx E A) Q : triple P m Q → triple P (lift g m) Q.
Proof. intros H s s' a HP Hm%lift_ok. by eapply H. Qed.

Lemma triple_weaken {E A} (P P' : Store → Prop) (m : tx E A) (Q Q' : A → Store → Prop) :
  triple P' m Q' → (∀ s, P s → P' s) → (∀ a s, Q' a s → Q a s) → triple P m Q.
Proof. intros H HP HQ s s' a Hs Hm. eapply HQ, H; [by apply HP|done]. Qed.

Lemma check_tx_ok {E} b (e : E) s s' u : check_tx b e s = Ok (s', u) → b = true ∧ s' = s.
Proof. unfold check_tx. destruct b; [|done]. by intros [= <- _]. Qed.

Lemma of_result_ok {E A} (r : result E A) s s' a : of_result r s = Ok (s', a) → r = Ok a ∧ s' = s.
Proof. unfold of_result. destruct r; [|done]. by intros [= <- <-]. Qed.

(** A statement that reads. *)
Definition reads {E A} (m : tx E A) : Prop := ∀ s s' a, m s = Ok (s', a) → s' = s.

Lemma triple_read {E A} P (m : tx E A) : reads m → triple P m (λ a s, P s ∧ m s = Ok (s, a)).
Proof. intros Hr s s' a HP H. pose proof (Hr _ _ _ H) as ->. done. Qed.

Lemma keeps_read {E A} I (m : tx E A) : reads m → keeps I m.
Proof. intros Hr s s' a HI H. by rewrite (Hr _ _ _ H). Qed.

Lemma keeps_bind {E A B} I (m : tx E A) (f : A → tx E B) : keeps I m → (∀ a, keeps I (f a)) → keeps I (m ≫= f).
Proof. apply triple_bind. Qed.

Lemma keeps_ret {E A} I (a : A) : keeps (E := E) I (mret a).
Proof. apply (triple_ret (λ _, I)). Qed.

Lemma keeps_lift {E F A} (g : E → F) I (m : tx E A) : keeps I m → keeps I (lift g m).
Proof. apply triple_lift. Qed.

Lemma keeps_fail {E A} I (e : E) : keeps (A := A) I (fail_tx e).
Proof. by intros s s' a HI. Qed.

(** What holds after a transaction, committed or not. *)
Lemma InTx_keeps {E A} I (m : tx E A) s : keeps I m → I s → I (InTx m s).1.
Proof. intros H HI. unfold InTx. destruct (m s) as [[s' a]|e] eqn:E1; [by eapply H|done]. Qed.

Lemma reads_query {E A} (f : Store → A) : reads (query (E := E) f).
Proof. by intros s s' a [= <- _]. Qed.
Lemma reads_get {A} (rows : Store → list A) P : reads (get rows P).
Proof. intros s s' a H. by apply get_ok in H as [-> _]. Qed.
Lemma reads_check {E} b (e : E) : reads (check_tx b e).
Proof. intros s s' a. unfold check_tx. destruct b; [|done]. by intros [= <- _]. Qed.
Lemma reads_of_result {E A} (r : result E A) : reads (of_result r).
Proof. intros s s' a. unfold of_result. destruct r; [|done]. by intros [= <- _]. Qed.
Lemma reads_fail {E A} (e : E) : reads (A := A) (fail_tx e).
Proof. by intros s s' a. Qed.
Lemma reads_ret {E A} (a : A) : reads (E := E) (mret a).
Proof. by intros s s' b [= <- _]. Qed.
Lemma reads_lift {E F A} (g : E → F) (m : tx E A) : reads m → reads (lift g m).
Proof. intros H s s' a Hm%lift_ok. by eapply H. Qed.
Lemma reads_bind {E A B} (m : tx E A) (f : A → tx E B) : reads m → (∀ a, reads (f a)) → reads (m ≫= f).
Proof. intros Hm Hf s s' b (s1 & a & H1 & H2)%tx_bind_ok. apply Hf in H2 as ->. by apply Hm in H1 as ->. Qed.
Lemma reads_meta k : reads (Meta_Get k).
Proof. intros s s' a. unfold Meta_Get. destruct (meta s !! k); [|done]. by intros [= <- _]. Qed.

Create HintDb tx.
#[export] Hint Resolve keeps_bind keeps_ret keeps_lift keeps_fail keeps_read : tx.
#[export] Hint Resolve reads_query reads_get reads_check reads_of_result reads_fail reads_ret reads_lift reads_bind reads_meta : tx.
#[export] Hint Extern 1 (keeps _ (if ?b then _ else _)) => destruct b : tx.
#[export] Hint Extern 1 (keeps _ (match ?x with _ => _ end)) => destruct x : tx.
#[export] Hint Extern 1 (reads (if ?b then _ else _)) => destruct b : tx.
#[export] Hint Extern 1 (reads (match ?x with _ => _ end)) => destruct x : tx.

(** ** Tables a transaction touches *)

Inductive table := TUsers | TPeers | TTokens | TRoutes | TSignatures | TAudit | TGeneration | TMeta.

#[export] Instance table_eq_dec : EqDecision table.
Proof. solve_decision. Defined.

(** The generation is one key of the metadata, the rest is its own table. *)
Definition same (t : table) (s s' : Store) : Prop :=
  match t with
  | TUsers => users s' = users s
  | TPeers => peers s' = peers s
  | TTokens => tokens s' = tokens s
  | TRoutes => routes s' = routes s
  | TSignatures => signatures s' = signatures s
  | TAudit => audit_log s' = audit_log s
  | TGeneration => gen_of s' = gen_of s
  | TMeta => ∀ k, k ≠ MetaNetmapGeneration → meta s' !! k = meta s !! k
  end.

Definition touches {E A} (l : list table) (m : tx E A) : Prop :=
  ∀ s s' a, m s = Ok (s', a) → ∀ t, t ∉ l → same t s s'.

Lemma same_refl t s : same t s s.
Proof. by destruct t. Qed.

Lemma same_trans t s1 s2 s3 : same t s1 s2 → same t s2 s3 → same t s1 s3.
Proof. destruct t; simpl; intros H1 H2; try congruence. intros k Hk. by rewrite H2, H1. Qed.

Lemma touches_read {E A} l (m : tx E A) : reads m → touches l m.
Proof. intros Hr s s' a H t _. rewrite (Hr _ _ _ H). apply same_refl. Qed.

Lemma touches_bind {E A B} l (m : tx E A) (f : A → tx E B) : touches l m → (∀ a, touches l (f a)) → touches l (m ≫= f).
Proof.
  intros Hm Hf s s' b (s1 & a & H1 & H2)%tx_bind_ok t Ht. eapply same_trans; [by eapply Hm|by eapply Hf].
Qed.

Lemma touches_lift {E F A} (g : E → F) l (m : tx E A) : touches l m → touches l (lift g m).
Proof. intros H s s' a Hm%lift_ok. by eapply H. Qed.

Lemma touches_ret {E A} l (a : A) : touches (E := E) l (mret a).
Proof. apply touches_read. by intros s s' b [= <- _]. Qed.

Lemma touches_weaken {E A} l l' (m : tx E A) : touches l m → l ⊆ l' → touches l' m.
Proof. intros H Hl s s' a Hm t Ht. eapply H; [done|]. by intros ?%Hl. Qed.

(** What depends on an untouched table only is kept. *)
Lemma touches_keeps {E A} l (m : tx E A) t (I : Store → Prop) :
  touches l m → t ∉ l → (∀ s s', same t s s' → I s → I s') → keeps I m.
Proof. intros H Ht HI s s' a Hs Hm. eapply HI; [by eapply H|done]. Qed.

Lemma InTx_same {E A} l (m : tx E A) s t : touches l m → t ∉ l → same t s (InTx m s).1.
Proof. intros H Ht. unfold InTx. destruct (m s) as [[s' a]|e] eqn:E1; [by eapply H|apply same_refl]. Qed.

Ltac touch f :=
  let s := fresh in let s' := fresh in let a := fresh in let t := fresh in let Ht := fresh in
  intros s s' a; unfold f; repeat case_match; intros [= <- _] t Ht;
  destruct t; try reflexivity; try (intros ? ?; reflexivity); try (exfalso; apply Ht; set_solver).

Lemma touches_Users_Create u : touches [TUsers] (Users_Create u).
Proof. touch Users_Create. Qed.
Lemma touches_Peers_Create p : touches [TPeers] (Peers_Create p).
Proof. touch Peers_Create. Qed.
Lemma touches_update_peer id f : touches [TPeers] (update_peer id f).
Proof. touch update_peer. Qed.
Lemma touches_Rename id n : touches [TPeers] (Peers_Rename id n).
Proof. intros s s' a. unfold Peers_Rename. destruct (_ && _); [done|]. apply touches_update_peer. Qed.
Lemma touches_SetPublicKey id k : touches [TPeers] (Peers_SetPublicKey id k).
Proof. intros s s' a. unfold Peers_SetPublicKey. destruct (_ && _); [done|]. apply touches_update_peer. Qed.
Lemma touches_SetIPv6Capable id b : touches [TPeers] (Peers_SetIPv6Capable id b).
Proof. touch Peers_SetIPv6Capable. Qed.
Lemma touches_Touch id t : touches [TPeers] (Peers_Touch id t).
Proof. touch Peers_Touch. Qed.
Lemma touches_SetClientVersion id v : touches [TPeers] (Peers_SetClientVersion id v).
Proof. touch Peers_SetClientVersion. Qed.
Lemma touches_Delete id : touches [TPeers; TTokens; TRoutes] (Peers_Delete id).
Proof. touch Peers_Delete. Qed.
Lemma touches_Tokens_Create t : touches [TTokens] (Tokens_Create t).
Proof. touch Tokens_Create. Qed.
Lemma touches_MarkUsed id p now : touches [TTokens] (Tokens_MarkUsed id p now).
Proof. touch Tokens_MarkUsed. Qed.
Lemma touches_Tokens_Delete id : touches [TTokens] (Tokens_Delete id).
Proof. touch Tokens_Delete. Qed.
Lemma touches_SetApproved id p b a now : touches [TRoutes] (Routes_SetApproved id p b a now).
Proof. touch Routes_SetApproved. Qed.
Lemma touches_route_insert id p now : touches [TRoutes] (route_insert id p now).
Proof. touch route_insert. Qed.
Lemma touches_withdraw id w l : touches [TRoutes] (routes_withdraw id w l).
Proof.
  induction l as [|c l IH]; cbn [routes_withdraw]; [apply touches_ret|]. case_bool_decide; [done|].
  apply touches_bind; [by touch (@update)|]. intros _. apply touches_bind; [done|]. intros; apply touches_ret.
Qed.
Lemma touches_add id h now l : touches [TRoutes] (routes_add id h now l).
Proof.
  induction l as [|c l IH]; cbn [routes_add]; [apply touches_ret|]. case_bool_decide; [done|].
  apply touches_bind; [apply touches_route_insert|]. intros _. apply touches_bind; [done|]. intros; apply touches_ret.
Qed.
Lemma touches_Replace id l now : touches [TRoutes] (Routes_Replace id l now).
Proof.
  unfold Routes_Replace. apply touches_bind; [apply touches_read, reads_query|]. intros cur.
  apply touches_bind; [apply touches_withdraw|]. intros rem. apply touches_bind; [apply touches_add|].
  intros add. apply touches_ret.
Qed.
Lemma touches_Put g : touches [TSignatures] (Signatures_Put g).
Proof. touch Signatures_Put. Qed.
Lemma touches_DeletePeer id : touches [TSignatures] (Signatures_DeletePeer id).
Proof. touch Signatures_DeletePeer. Qed.
Lemma touches_DeleteKey id k : touches [TSignatures] (Signatures_DeleteKey id k).
Proof. touch Signatures_DeleteKey. Qed.
Lemma touches_Append w e : touches [TAudit] (Audit_Append w e).
Proof. touch Audit_Append. Qed.
Lemma touches_Meta_Set k v : k ≠ MetaNetmapGeneration → touches [TMeta] (Meta_Set k v).
Proof.
  intros Hk. touch Meta_Set. unfold same, gen_of. cbn [with_meta meta]. by rewrite lookup_insert_ne.
Qed.
Lemma touches_Increment : touches [TGeneration] IncrementGeneration.
Proof.
  intros s s' a. unfold IncrementGeneration. destruct (meta s !! _); [|done]. intros [= <- _] t Ht.
  destruct t; try done; [set_solver|]. intros k Hk. cbn [with_meta meta]. by rewrite lookup_insert_ne.
Qed.

Create HintDb touches.
#[export] Hint Resolve touches_Users_Create touches_Peers_Create
  touches_Rename touches_SetPublicKey touches_SetIPv6Capable touches_Touch touches_SetClientVersion touches_Delete
  touches_Tokens_Create touches_MarkUsed touches_Tokens_Delete touches_SetApproved touches_Replace touches_Put
  touches_DeletePeer touches_DeleteKey touches_Append touches_Increment : touches.

(** Goes through the statements of a transaction. *)
(** Membership in a list of tables is decided by evaluation. *)
Ltac not_in := apply (bool_decide_eq_false_1 _); reflexivity.

Ltac solve_reads := solve [auto 10 with tx].

Ltac solve_touches :=
  repeat first
    [ solve [eapply touches_weaken; [solve [auto with touches] | set_solver]]
    | apply touches_read; solve_reads
    | apply touches_bind; [|intros ?] | apply touches_lift | apply touches_ret
    | case_match ].

(** With the lemmas of the database [db] for the statements. *)
Tactic Notation "solve_keeps" "with" tactic3(leaf) :=
  repeat first
    [ solve [leaf]
    | apply keeps_read; solve_reads
    | apply keeps_bind; [|intros ?] | apply keeps_lift | apply keeps_ret | apply keeps_fail
    | case_match ].
