(* ===== verification/Tables.v ===== *)
(** The constraints of the database over runs of its statements
    ([internal/store] and its migrations). *)

From S2P Require Import Prelude GoStrings Store Effects.

(** ** Statements *)

Inductive stmt :=
  | UserCreate (u : User)
  | PeerCreate (p : Peer)
  | PeerRename (id name : string)
  | PeerDelete (id : string)
  | PeerSetPublicKey (id key : string)
  | PeerSetIPv6Capable (id : string) (capable : bool)
  | PeerTouch (id : string) (at_ : Z)
  | PeerSetClientVersion (id version : string)
  | PeerBackfillIPv6 (derive : string → string)
  | TokenCreate (t : Token)
  | TokenMarkUsed (id peerID : string) (now : Z)
  | TokenDelete (id : string)
  | RouteReplace (id : string) (prefixes : list string) (now : Z)
  | RouteSetApproved (id prefix by_ : string) (approved : bool) (now : Z)
  | SignaturePut (g : PeerSignature)
  | SignatureDeletePeer (id : string)
  | SignatureDeleteKey (id key : string)
  | SignatureDeleteAll
  | AuditAppend (wall : Z) (e : AuditEntry)
  | AuditPrune (before : Z)
  | MetaSet (key value : string)
  | GenerationIncrement.

(** A statement on its own: an error leaves the database as it was. *)
Definition commit {A} (m : tx store_error A) (s : Store) : Store := (InTx m s).1.

Definition exec (st : stmt) (s : Store) : Store :=
  match st with
  | UserCreate u => commit (Users_Create u) s
  | PeerCreate p => commit (Peers_Create p) s
  | PeerRename id name => commit (Peers_Rename id name) s
  | PeerDelete id => commit (Peers_Delete id) s
  | PeerSetPublicKey id key => commit (Peers_SetPublicKey id key) s
  | PeerSetIPv6Capable id c => commit (Peers_SetIPv6Capable id c) s
  | PeerTouch id t => commit (Peers_Touch id t) s
  | PeerSetClientVersion id v => commit (Peers_SetClientVersion id v) s
  | PeerBackfillIPv6 derive => (Peers_BackfillIPv6 derive s).1
  | TokenCreate t => commit (Tokens_Create t) s
  | TokenMarkUsed id p now => commit (Tokens_MarkUsed id p now) s
  | TokenDelete id => commit (Tokens_Delete id) s
  | RouteReplace id l now => commit (Routes_Replace id l now) s
  | RouteSetApproved id p b a now => commit (Routes_SetApproved id p b a now) s
  | SignaturePut g => commit (Signatures_Put g) s
  | SignatureDeletePeer id => commit (Signatures_DeletePeer id) s
  | SignatureDeleteKey id k => commit (Signatures_DeleteKey id k) s
  | SignatureDeleteAll => commit Signatures_DeleteAll s
  | AuditAppend wall e => commit (Audit_Append wall e) s
  | AuditPrune b => commit (Audit_Prune b) s
  | MetaSet k v => commit (Meta_Set k v) s
  | GenerationIncrement => commit IncrementGeneration s
  end.

Definition exec_all (l : list stmt) (s : Store) : Store := foldl (λ s st, exec st s) s l.

(** The generation is only ever counted up. *)
Definition keeps_generation (st : stmt) : Prop := match st with MetaSet k _ => k ≠ MetaNetmapGeneration | _ => True end.

(** ** What the rows keep *)

Definition route_key (r : PeerRoute) : string * string := (rPeerID r, rPrefix r).
Definition signature_key (g : PeerSignature) : string * string * string := (gPeerID g, gPublicKey g, gSignerKey g).

Record tables_ok (s : Store) : Prop := {
  tk_store : store_ok s;
  tk_user_ids : NoDup (uID <$> users s);
  tk_user_names : NoDup (uName <$> users s);
  tk_roles : ∀ u, u ∈ users s → uRole u = RoleAdmin ∨ uRole u = RoleMember;
  tk_kinds : ∀ p, p ∈ peers s → kind_ok (pKind p) = true ∧ mode_ok (pMode p) = true;
  tk_peer_owner : ∀ p, p ∈ peers s → pOwnerID p = "" ∨ user_exists (pOwnerID p) s = true;
  tk_token_owner : ∀ t, t ∈ tokens s → user_exists (tOwnerID t) s = true ∧ user_exists (tCreatedBy t) s = true;
  tk_token_peer : ∀ t, t ∈ tokens s → tUsedByPeerID t = "" ∨ (peer_exists (tUsedByPeerID t) s = true ∧ tUsedAt t ≠ None);
  tk_route_keys : NoDup (route_key <$> routes s);
  tk_route_peer : ∀ r, r ∈ routes s → peer_exists (rPeerID r) s = true;
  tk_route_approval : ∀ r, r ∈ routes s → rApproved r = false → rApprovedAt r = 0 ∧ rApprovedBy r = "";
  tk_signature_keys : NoDup (signature_key <$> signatures s);
  tk_audit_order : StronglySorted (λ a b, aID a < aID b) (audit_log s);
  tk_audit_ids : ∀ e, e ∈ audit_log s → aID e <= audit_seq s;
}.

(** ** Lemmas *)

Lemma NoDup_keyed {A B} (f : A → B) (l : list A) :
  NoDup (f <$> l) ↔ ∀ i j x y, l !! i = Some x → l !! j = Some y → f x = f y → i = j.
Proof.
  rewrite NoDup_alt. setoid_rewrite list_lookup_fmap. split.
  - intros H i j x y Hi Hj Hf. apply (H i j (f x)); [by rewrite Hi|by rewrite Hj, Hf].
  - intros H i j z. destruct (l !! i) as [x|] eqn:Hi; [|done]. destruct (l !! j) as [y|] eqn:Hj; [|done].
    simpl. intros [= <-] [= Hf]. by eapply (H i j x y).
Qed.

Lemma NoDup_filter_fmap {A} (f : A → string) (P : string → Prop) `{!∀ a, Decision (P a)} (l : list A) :
  NoDup (filter P (f <$> l)) ↔ ∀ i j x y, l !! i = Some x → l !! j = Some y → P (f x) → f x = f y → i = j.
Proof.
  induction l as [|x l IH]; [split; [by intros _ ? ? ? ? ?|constructor]|].
  rewrite fmap_cons. destruct (decide (P (f x))) as [Hx|Hx].
  - rewrite filter_cons_True, NoDup_cons, IH by done. split.
    + intros [Hn Hu] [|i] [|j] a b; cbn [lookup list_lookup]; intros Hi Hj Ha He; simplify_eq; try done.
      * destruct Hn. apply list_elem_of_filter. split; [done|]. rewrite He. by eapply list_elem_of_fmap_2, list_elem_of_lookup_2.
      * destruct Hn. apply list_elem_of_filter. split; [done|]. rewrite <- He. by eapply list_elem_of_fmap_2, list_elem_of_lookup_2.
      * f_equal. by eapply Hu.
    + intros Hu. split; [|intros i j a b Hi Hj Ha He; specialize (Hu (S i) (S j) a b Hi Hj Ha He); lia].
      intros [_ (y & Hy & [j Hj]%list_elem_of_lookup)%list_elem_of_fmap]%list_elem_of_filter.
      specialize (Hu 0%nat (S j) x y eq_refl Hj Hx Hy). lia.
  - rewrite filter_cons_False, IH by done. split.
    + intros Hu [|i] [|j] a b; cbn [lookup list_lookup]; intros Hi Hj Ha He; simplify_eq; try done; [by rewrite <- He in Hx|].
      f_equal. by eapply Hu.
    + intros Hu i j a b Hi Hj Ha He. specialize (Hu (S i) (S j) a b Hi Hj Ha He). lia.
Qed.

Section UpdateRow.
Context {A : Type} (key k : A → string) (P : string → Prop) `{!∀ a, Decision (P a)} (f : A → A) (id : string) (l : list A).

Definition upd (x : A) : A := if eqs (key x) id then f x else x.

(** A changed column stays unique when no other row has the new value. *)
Lemma NoDup_update :
  NoDup (key <$> l) → NoDup (filter P (k <$> l)) →
  (∀ x y, x ∈ l → y ∈ l → key x ≠ id → key y = id → P (k (f y)) → k x ≠ k (f y)) →
  NoDup (filter P (k <$> (upd <$> l))).
Proof.
  rewrite NoDup_keyed, !NoDup_filter_fmap. intros Hkey Hk Hnew i j x y.
  rewrite !list_lookup_fmap. destruct (l !! i) as [a|] eqn:Hi; [|done]. destruct (l !! j) as [b|] eqn:Hj; [|done].
  simpl. intros [= <-] [= <-]. unfold upd.
  pose proof (list_elem_of_lookup_2 _ _ _ Hi) as Ha. pose proof (list_elem_of_lookup_2 _ _ _ Hj) as Hb.
  destruct (eqs (key a) id) eqn:E1, (eqs (key b) id) eqn:E2;
    repeat match goal with H : eqs _ _ = true |- _ => apply eqs_true in H | H : eqs _ _ = false |- _ => apply eqs_false in H end.
  - intros _ _. eapply Hkey; [done..|congruence].
  - intros HP He. exfalso. by apply (Hnew b a).
  - intros HP He. exfalso. rewrite He in HP. by apply (Hnew a b).
  - intros HP He. by eapply Hk.
Qed.
End UpdateRow.

Lemma filter_True {A} (l : list A) : filter (λ _, True) l = l.
Proof. by apply filter_all. Qed.

Lemma peer_exists_iff id s : peer_exists id s = true ↔ id ∈ pID <$> peers s.
Proof. unfold peer_exists. rewrite existsb_true_iff, list_elem_of_fmap. setoid_rewrite eqs_true. naive_solver. Qed.

Lemma user_exists_iff id s : user_exists id s = true ↔ id ∈ uID <$> users s.
Proof. unfold user_exists. rewrite existsb_true_iff, list_elem_of_fmap. setoid_rewrite eqs_true. naive_solver. Qed.

(** Two peers differ in every unique column. *)
Lemma distinct_rows s p q :
  store_ok s → p ∈ peers s → q ∈ peers s → pID p ≠ pID q →
  pName p ≠ pName q ∧ pPublicKey p ≠ pPublicKey q ∧ pIPv4 p ≠ pIPv4 q ∧ (pIPv6 q ≠ "" → pIPv6 p ≠ pIPv6 q).
Proof.
  intros [_ Hn Hk H4 H6 _ _ _] Hp Hq Hid.
  split; [intros He; apply Hid; f_equal; by eapply (key_unique pName)|].
  split; [intros He; apply Hid; f_equal; by eapply (key_unique pPublicKey)|].
  split; [intros He; apply Hid; f_equal; by eapply (key_unique pIPv4)|].
  intros Hne He. apply Hid. apply list_elem_of_lookup in Hp as [i Hi]. apply list_elem_of_lookup in Hq as [j Hj].
  rewrite NoDup_filter_fmap in H6. rewrite <- He in Hne. specialize (H6 i j p q Hi Hj Hne He) as ->. congruence.
Qed.

Section UpdateRows.
Context (id : string) (f : Peer → Peer) (s : Store).
Hypothesis same : ∀ p, pID (f p) = pID p ∧ pKind (f p) = pKind p ∧ pMode (f p) = pMode p ∧ pOwnerID (f p) = pOwnerID p.

Lemma update_rows_ids : pID <$> peers (update_rows id f s) = pID <$> peers s.
Proof.
  simpl. rewrite <- list_fmap_compose. apply list_fmap_ext. intros i p _. simpl.
  destruct (eqs (pID p) id); [apply same|done].
Qed.

Lemma update_rows_elem p : p ∈ peers (update_rows id f s) → p ∈ peers s ∨ ∃ q, q ∈ peers s ∧ p = f q.
Proof. simpl. intros (q & -> & Hq)%list_elem_of_fmap. destruct (eqs (pID q) id); eauto. Qed.

Lemma update_rows_ok :
  tables_ok s →
  (∀ p q, p ∈ peers s → q ∈ peers s → pID p ≠ id → pID q = id →
     pName p ≠ pName (f q) ∧ pPublicKey p ≠ pPublicKey (f q) ∧ pIPv4 p ≠ pIPv4 (f q) ∧
     (pIPv6 (f q) ≠ "" → pIPv6 p ≠ pIPv6 (f q))) →
  tables_ok (update_rows id f s).
Proof.
  intros [Hs] Hnew. pose proof (ok_peer_ids _ Hs) as Hids.
  assert (∀ k : Peer → string, NoDup (k <$> peers s) → (∀ p q, p ∈ peers s → q ∈ peers s → pID p ≠ id → pID q = id → k p ≠ k (f q)) →
    NoDup (k <$> peers (update_rows id f s))) as Hcol.
  { intros k Hk H. rewrite <- filter_True. apply (NoDup_update pID); [done|by rewrite filter_True|by intros; apply H]. }
  assert (∀ x, peer_exists x (update_rows id f s) = peer_exists x s) as Hex.
  { intros x. apply eq_iff_eq_true. by rewrite !peer_exists_iff, update_rows_ids. }
  split; try assumption.
  - destruct Hs. split; try assumption; [by rewrite update_rows_ids|apply Hcol; [done|]; intros; by apply Hnew..|].
    apply (NoDup_update pID); [done..|]. intros p q Hp Hq Hpi Hqi. by apply Hnew.
  - intros p [Hp|(q & Hq & ->)]%update_rows_elem; [by auto|]. destruct (same q) as (_ & -> & -> & _). by auto.
  - intros p [Hp|(q & Hq & ->)]%update_rows_elem; [by apply tk_peer_owner0|]. destruct (same q) as (_ & _ & _ & ->).
    by apply (tk_peer_owner0 q).
  - intros t Ht. rewrite Hex. by apply tk_token_peer0.
  - intros r Hr. rewrite Hex. by apply tk_route_peer0.
Qed.
End UpdateRows.

(** A change of columns without constraints. *)
Lemma update_report_ok id c l v s :
  tables_ok s → tables_ok (update_rows id (λ p, set_report (c p) (l p) (v p) p) s).
Proof.
  intros Hok. apply update_rows_ok; [done|done|]. intros p q Hp Hq Hpi Hqi. simpl.
  apply (distinct_rows s); [apply Hok|done|done|congruence].
Qed.

(** *** One lemma for each statement *)

Lemma commit_cases {A} (m : tx store_error A) s : commit m s = s ∨ ∃ a, m s = Ok (commit m s, a).
Proof. unfold commit, InTx. destruct (m s) as [[s' a]|e]; [right; by exists a|by left]. Qed.

(** It is enough to look at the success. *)
Lemma commit_ok {A} (m : tx store_error A) s :
  tables_ok s → (∀ s' a, m s = Ok (s', a) → tables_ok s') → tables_ok (commit m s).
Proof. intros Hok H. destruct (commit_cases m s) as [-> | [a Ha]]; [done|by eapply H]. Qed.

Lemma user_exists_snoc id u s : user_exists id s = true → user_exists id (with_users (users s ++ [u]) s) = true.
Proof. rewrite !user_exists_iff. simpl. rewrite fmap_app, elem_of_app. by left. Qed.

Lemma peer_exists_snoc id p s : peer_exists id s = true → peer_exists id (with_peers (peers s ++ [p]) s) = true.
Proof. rewrite !peer_exists_iff. simpl. rewrite fmap_app, elem_of_app. by left. Qed.

Lemma Users_Create_tables u : keeps tables_ok (Users_Create u).
Proof.
  intros s s' a [Hs] H. unfold Users_Create in H. destruct (negb _) eqn:Er; [done|]. destruct (existsb _ _) eqn:Ec; [done|].
  injection H as <- _. rewrite existsb_false_iff in Ec. go_bool.
  assert (∀ v, v ∈ users s → uID u ≠ uID v ∧ uName u ≠ uName v) as Hnew.
  { intros v Hv. specialize (Ec v Hv). go_bool. rewrite eqs_false in *. naive_solver. }
  split; try assumption; simpl.
  - by destruct Hs.
  - apply fresh_snoc; [done|]. naive_solver.
  - apply fresh_snoc; [done|]. naive_solver.
  - intros v [Hv | ->%list_elem_of_singleton]%elem_of_app; [by auto|]. destruct Er as [E|E]; apply eqs_true in E; auto.
  - intros p Hp. destruct (tk_peer_owner0 p Hp); [by left|right; by apply user_exists_snoc].
  - intros t Ht. destruct (tk_token_owner0 t Ht). split; by apply user_exists_snoc.
Qed.

Lemma Peers_Create_tables p : keeps tables_ok (Peers_Create p).
Proof.
  intros s s' a [Hs] H. destruct a. apply Peers_Create_ok in H as (Hk & Hm & Hnew & Ho & ->).
  split; try assumption; simpl.
  - by apply store_ok_new_peer.
  - intros q [Hq | ->%list_elem_of_singleton]%elem_of_app; by auto.
  - intros q [Hq | ->%list_elem_of_singleton]%elem_of_app; [by apply tk_peer_owner0|done].
  - intros t Ht. destruct (tk_token_peer0 t Ht) as [?|[? ?]]; [by left|right; split; [by apply peer_exists_snoc|done]].
  - intros r Hr. by apply peer_exists_snoc, tk_route_peer0.
Qed.

Lemma update_peer_eq id f s s' a : update_peer id f s = Ok (s', a) → s' = update_rows id f s.
Proof. unfold update_peer, update_rows. destruct (peer_exists id s); [|done]. by intros [= <- _]. Qed.

Lemma Peers_Rename_tables id n : keeps tables_ok (Peers_Rename id n).
Proof.
  intros s s' a Hok H. unfold Peers_Rename in H. destruct (_ && _) eqn:E; [done|]. pose proof H as H'.
  apply update_peer_eq in H as ->. unfold update_peer in H'. destruct (peer_exists id s); [|done].
  cbn [andb] in E. rewrite existsb_false_iff in E. apply update_rows_ok; [done|done|]. intros p q Hp Hq Hpi Hqi.
  destruct (distinct_rows s p q) as (_ & ? & ? & ?); [apply Hok|done|done|congruence|].
  specialize (E p Hp). rewrite (proj2 (eqs_false _ _) Hpi) in E. by apply eqs_false in E.
Qed.

Lemma Peers_SetPublicKey_tables id k : keeps tables_ok (Peers_SetPublicKey id k).
Proof.
  intros s s' a Hok H. unfold Peers_SetPublicKey in H. destruct (_ && _) eqn:E; [done|]. pose proof H as H'.
  apply update_peer_eq in H as ->. unfold update_peer in H'. destruct (peer_exists id s); [|done].
  cbn [andb] in E. rewrite existsb_false_iff in E. apply update_rows_ok; [done|done|]. intros p q Hp Hq Hpi Hqi.
  destruct (distinct_rows s p q) as (? & _ & ? & ?); [apply Hok|done|done|congruence|].
  specialize (E p Hp). rewrite (proj2 (eqs_false _ _) Hpi) in E. by apply eqs_false in E.
Qed.

Lemma backfill_tables derive todo : ∀ n s, tables_ok s → tables_ok (backfill derive todo n s).1.
Proof.
  induction todo as [|[id v4] todo IH]; intros n s Hok; [done|]. cbn [backfill].
  destruct (eqs (derive v4) ""); [by apply IH|]. destruct (_ && _) eqn:E; [done|]. apply IH.
  apply update_rows_ok; [done|done|]. intros p q Hp Hq Hpi Hqi. simpl.
  destruct (distinct_rows s p q) as (? & ? & ? & _); [apply Hok|done|done|congruence|].
  split_and!; try done. intros _. assert (peer_exists id s = true) as Hex.
  { apply peer_exists_iff. rewrite <- Hqi. by apply list_elem_of_fmap_2. }
  rewrite Hex in E. cbn [andb] in E. rewrite existsb_false_iff in E.
  specialize (E p Hp). rewrite (proj2 (eqs_false _ _) Hpi) in E. by apply eqs_false in E.
Qed.

Lemma SetIPv6Capable_tables id c : keeps tables_ok (Peers_SetIPv6Capable id c).
Proof.
  intros s s' a Hok. unfold Peers_SetIPv6Capable. destruct (existsb _ _).
  - intros [= <- _]. by apply update_report_ok.
  - destruct (peer_exists id s); [|done]. by intros [= <- _].
Qed.

Lemma Peers_Delete_tables id : keeps tables_ok (Peers_Delete id).
Proof.
  intros s s' a [Hs] H. unfold Peers_Delete in H. destruct (peer_exists id s); [|done]. injection H as <- _.
  assert (∀ x, x ≠ id → peer_exists x s = true →
    peer_exists x (with_peers (filter (λ p, eqs (pID p) id = false) (peers s)) s) = true) as Hex.
  { intros x Hx. rewrite !peer_exists_iff. intros (p & -> & Hp)%list_elem_of_fmap. apply list_elem_of_fmap.
    exists p. split; [done|]. apply list_elem_of_filter. by rewrite eqs_false. }
  split; try assumption; simpl.
  - destruct Hs. split; simpl; try done; try (by apply NoDup_fmap_filter).
    + apply NoDup_filter_fmap. intros i j x y Hi Hj Hne He.
      assert (x = y) as ->.
      { apply list_elem_of_lookup_2, list_elem_of_filter in Hi as [Hxi Hi], Hj as [Hyj Hj].
        destruct (decide (pID x = pID y)) as [Heq|Hneq]; [by eapply (key_unique pID)|].
        exfalso. eapply (distinct_rows s x y); [by split|done|done|done|congruence|done]. }
      eapply NoDup_lookup; [|exact Hi|exact Hj]. apply NoDup_filter. by eapply NoDup_fmap_1.
    + by apply (store_ok_tokens (forget_peer id) s); [intros t; unfold forget_peer; by destruct (eqs _ _)|].
    + by apply (store_ok_tokens (forget_peer id) s); [intros t; unfold forget_peer; by destruct (eqs _ _)|].
  - intros p [_ Hp]%list_elem_of_filter. by auto.
  - intros p [_ Hp]%list_elem_of_filter. by apply tk_peer_owner0.
  - intros t (t0 & -> & Ht)%list_elem_of_fmap. unfold forget_peer. by destruct (eqs _ _); apply (tk_token_owner0 t0).
  - intros t (t0 & -> & Ht)%list_elem_of_fmap. unfold forget_peer. destruct (eqs _ _) eqn:E; [by left|].
    apply eqs_false in E. destruct (tk_token_peer0 t0 Ht) as [?|[? ?]]; [by left|right; split; [by apply Hex|done]].
  - by apply NoDup_fmap_filter.
  - intros r [E%eqs_false Hr]%list_elem_of_filter. by apply Hex, tk_route_peer0.
  - intros r [_ Hr]%list_elem_of_filter. by apply tk_route_approval0.
Qed.

Lemma Tokens_Create_tables t : keeps tables_ok (Tokens_Create t).
Proof.
  intros s s' a [Hs] H. unfold Tokens_Create in H. destruct (negb _); [done|]. destruct (existsb _ _) eqn:Ec; [done|].
  destruct (negb _) eqn:Eo; [done|]. injection H as <- _. rewrite existsb_false_iff in Ec. go_bool.
  assert (∀ u, u ∈ tokens s → tID t ≠ tID u ∧ tSecretHash t ≠ tSecretHash u) as Hnew.
  { intros u Hu. specialize (Ec u Hu). unfold token_clash in Ec. go_bool. by rewrite !eqs_false in *. }
  split; try assumption; simpl.
  - destruct Hs. split; try assumption; simpl; (apply fresh_snoc; [done|]; naive_solver).
  - intros u [Hu | ->%list_elem_of_singleton]%elem_of_app; [by apply tk_token_owner0|done].
  - intros u [Hu | ->%list_elem_of_singleton]%elem_of_app; [by apply tk_token_peer0|by left].
Qed.

Lemma Tokens_MarkUsed_tables id p now : keeps tables_ok (Tokens_MarkUsed id p now).
Proof.
  intros s s' a [Hs] H. unfold Tokens_MarkUsed in H. destruct (negb _); [done|]. destruct (negb _) eqn:Ep; [done|].
  injection H as <- _. go_bool. split; try assumption; simpl.
  - apply store_ok_tokens; [|done]. intros t. by destruct (unused_id id t).
  - intros t (t0 & -> & Ht)%list_elem_of_fmap. by destruct (unused_id id t0); apply (tk_token_owner0 t0).
  - intros t (t0 & -> & Ht)%list_elem_of_fmap. destruct (unused_id id t0); [by right|by apply tk_token_peer0].
Qed.

Lemma Tokens_Delete_tables id : keeps tables_ok (Tokens_Delete id).
Proof.
  intros s s' a [Hs] H. unfold Tokens_Delete in H. destruct (existsb _ _); [|done]. injection H as <- _.
  split; try assumption; simpl.
  - destruct Hs. split; try assumption; simpl; by apply NoDup_fmap_filter.
  - intros t [_ Ht]%list_elem_of_filter. by apply tk_token_owner0.
  - intros t [_ Ht]%list_elem_of_filter. by apply tk_token_peer0.
Qed.

(** *** Routes *)

Lemma with_routes_tables l s :
  tables_ok s → NoDup (route_key <$> l) → (∀ r, r ∈ l → peer_exists (rPeerID r) s = true) →
  (∀ r, r ∈ l → rApproved r = false → rApprovedAt r = 0 ∧ rApprovedBy r = "") → tables_ok (with_routes l s).
Proof. intros [Hs] H1 H2 H3. split; try assumption. by destruct Hs. Qed.

Lemma routes_filter_tables (P : PeerRoute → Prop) `{!∀ r, Decision (P r)} s :
  tables_ok s → tables_ok (with_routes (filter P (routes s)) s).
Proof.
  intros Hok. apply with_routes_tables; [done|apply NoDup_fmap_filter, Hok|..];
    intros r [_ Hr]%list_elem_of_filter; by apply Hok.
Qed.

Lemma routes_withdraw_tables id want l : ∀ s s' a, tables_ok s → routes_withdraw id want l s = Ok (s', a) → tables_ok s'.
Proof.
  induction l as [|c l IH]; intros s s' a Hok H; cbn [routes_withdraw] in H; [by injection H as <- _|].
  case_bool_decide; [by eapply IH|]. apply tx_bind_ok in H as (s1 & [] & [= <-] & H).
  apply tx_bind_ok in H as (s2 & x & H & [= <- _]). eapply IH, H. by apply routes_filter_tables.
Qed.

Lemma is_route_iff id p r : is_route id p r = true ↔ route_key r = (id, p).
Proof. unfold is_route, route_key. rewrite andb_true_iff, !eqs_true. naive_solver. Qed.

Lemma route_insert_tables id p now : keeps tables_ok (route_insert id p now).
Proof.
  intros s s' a Hok H. unfold route_insert in H. destruct (_ || _) eqn:E; [done|]. injection H as <- _. go_bool.
  rewrite existsb_false_iff in H. apply with_routes_tables; [done|..].
  - rewrite fmap_app. apply NoDup_snoc. split; [|apply Hok]. intros (r & Hr & Hin)%list_elem_of_fmap.
    specialize (H r Hin). apply not_true_iff_false in H. apply H, is_route_iff. by rewrite <- Hr.
  - intros r [Hr | ->%list_elem_of_singleton]%elem_of_app; [by apply Hok|done].
  - intros r [Hr | ->%list_elem_of_singleton]%elem_of_app; [by apply Hok|done].
Qed.

Lemma routes_add_tables id have now l : ∀ s s' a, tables_ok s → routes_add id have now l s = Ok (s', a) → tables_ok s'.
Proof.
  induction l as [|p l IH]; intros s s' a Hok H; cbn [routes_add] in H; [by injection H as <- _|].
  case_bool_decide; [by eapply IH|]. apply tx_bind_ok in H as (s1 & [] & Hi & H).
  apply tx_bind_ok in H as (s2 & x & H & [= <- _]). eapply IH, H. by eapply route_insert_tables.
Qed.

Lemma Routes_Replace_tables id l now : keeps tables_ok (Routes_Replace id l now).
Proof.
  intros s s' a Hok H. unfold Routes_Replace in H. apply tx_bind_ok in H as (s0 & cur & [= <- _] & H).
  apply tx_bind_ok in H as (s1 & rem & Hw & H). apply tx_bind_ok in H as (s2 & add & Ha & [= <- _]).
  eapply routes_add_tables, Ha. by eapply routes_withdraw_tables.
Qed.

Lemma Routes_SetApproved_tables id p b ap now : keeps tables_ok (Routes_SetApproved id p b ap now).
Proof.
  intros s s' a Hok H. unfold Routes_SetApproved in H. destruct (existsb _ _); [|done]. injection H as <- _.
  assert (∀ r, route_key (if is_route id p r then if ap then approve b now r else unapprove r else r) = route_key r) as Hk.
  { intros r. destruct (is_route id p r), ap; done. }
  apply with_routes_tables; [done|..].
  - rewrite <- list_fmap_compose, (list_fmap_ext _ route_key); [apply Hok|]. intros i r _. apply Hk.
  - intros r (r0 & -> & Hr)%list_elem_of_fmap. pose proof (Hk r0) as Hkr. injection Hkr as -> _. by apply Hok.
  - intros r (r0 & -> & Hr)%list_elem_of_fmap. destruct (is_route id p r0), ap; [done|done|by apply Hok..].
Qed.

(** *** Signatures, audit, metadata *)

Lemma with_signatures_tables l s : tables_ok s → NoDup (signature_key <$> l) → tables_ok (with_signatures l s).
Proof. intros [Hs] H. split; try assumption. by destruct Hs. Qed.

Lemma same_signature_iff g h : same_signature g h = true ↔ signature_key g = signature_key h.
Proof. unfold same_signature, signature_key. rewrite !andb_true_iff, !eqs_true. split; [by intros [[-> ->] ->]|by intros [= -> -> ->]]. Qed.

Lemma Signatures_Put_tables g : keeps tables_ok (Signatures_Put g).
Proof.
  intros s s' a Hok H. unfold Signatures_Put in H. destruct (_ || _); [done|]. destruct (existsb _ _) eqn:E; injection H as <- _.
  - apply with_signatures_tables; [done|]. rewrite <- list_fmap_compose, (list_fmap_ext _ signature_key); [apply Hok|].
    intros i h _. simpl. destruct (same_signature g h) eqn:Eg; [by apply same_signature_iff in Eg|done].
  - rewrite existsb_false_iff in E. apply with_signatures_tables; [done|]. rewrite fmap_app. apply NoDup_snoc.
    split; [|apply Hok]. intros (h & Hh & Hin)%list_elem_of_fmap. specialize (E h Hin).
    apply not_true_iff_false in E. by apply E, same_signature_iff.
Qed.

Lemma signatures_filter_tables (P : PeerSignature → Prop) `{!∀ r, Decision (P r)} s :
  tables_ok s → tables_ok (with_signatures (filter P (signatures s)) s).
Proof. intros Hok. apply with_signatures_tables; [done|]. apply NoDup_fmap_filter, Hok. Qed.

Lemma with_audit_tables l n s :
  tables_ok s → StronglySorted (λ a b, aID a < aID b) l → (∀ e, e ∈ l → aID e <= n) → tables_ok (with_audit l n s).
Proof. intros [Hs] H1 H2. split; try assumption. by destruct Hs. Qed.

Lemma StronglySorted_filter {A} (R : A → A → Prop) (P : A → Prop) `{!∀ x, Decision (P x)} l :
  StronglySorted R l → StronglySorted R (filter P l).
Proof.
  induction 1 as [|x l Hl IH Hx]; [constructor|]. rewrite filter_cons. destruct (decide (P x)); [|done].
  constructor; [done|]. rewrite Forall_forall in *. intros y [_ Hy]%list_elem_of_filter. by apply Hx.
Qed.

Lemma Audit_Append_tables w e : keeps tables_ok (Audit_Append w e).
Proof.
  intros s s' a Hok H. unfold Audit_Append in H. destruct (_ || _); [done|]. injection H as <- _.
  apply with_audit_tables; [done|..].
  - apply StronglySorted_app_2; [|apply Hok|repeat constructor].
    intros x y Hx ->%list_elem_of_singleton. simpl. apply (tk_audit_ids s Hok) in Hx. lia.
  - intros x [Hx | ->%list_elem_of_singleton]%elem_of_app; [|simpl; lia]. apply (tk_audit_ids s Hok) in Hx. lia.
Qed.

Lemma Audit_Prune_tables b : keeps tables_ok (Audit_Prune b).
Proof.
  intros s s' a Hok [= <- _]. apply with_audit_tables; [done|apply StronglySorted_filter, Hok|].
  intros e [_ He]%list_elem_of_filter. by apply Hok.
Qed.

Lemma Meta_Set_tables k v s s' a :
  k ≠ MetaNetmapGeneration → tables_ok s → Meta_Set k v s = Ok (s', a) → tables_ok s' ∧ gen_of s' = gen_of s.
Proof.
  intros Hk [Hs] [= <- _]. split.
  - split; try assumption. destruct Hs as [? ? ? ? ? ? ? (g & Hg & Hm)]. split; try assumption. exists g.
    split; [done|]. simpl. by rewrite lookup_insert_ne.
  - unfold gen_of. simpl. by rewrite lookup_insert_ne.
Qed.

Lemma Increment_tables s s' g : tables_ok s → IncrementGeneration s = Ok (s', g) → tables_ok s' ∧ gen_of s' = gen_of s + 1.
Proof.
  intros [Hs] H. apply IncrementGeneration_ok in H as (-> & -> & Hg & Hok'); [|done]. by split; [split|].
Qed.

Definition is_increment (st : stmt) : bool := match st with GenerationIncrement => true | _ => false end.

(** Only two statements write the metadata. *)
Lemma commit_meta {A} (m : tx store_error A) s : (∀ s' a, m s = Ok (s', a) → meta s' = meta s) → gen_of (commit m s) = gen_of s.
Proof. intros H. unfold gen_of. destruct (commit_cases m s) as [-> | [a Ha]]; [done|by rewrite (H _ _ Ha)]. Qed.

Lemma backfill_meta derive todo : ∀ n s, meta (backfill derive todo n s).1 = meta s.
Proof.
  induction todo as [|[id v4] todo IH]; intros n s; [done|]. cbn [backfill].
  destruct (eqs (derive v4) ""); [by apply IH|]. destruct (_ && _); [done|]. by rewrite IH.
Qed.

Lemma routes_withdraw_meta id want l : ∀ s s' a, routes_withdraw id want l s = Ok (s', a) → meta s' = meta s.
Proof.
  induction l as [|c l IH]; intros s s' a H; cbn [routes_withdraw] in H; [by injection H as <- _|].
  case_bool_decide; [by eapply IH|]. apply tx_bind_ok in H as (s1 & [] & [= <-] & H).
  apply tx_bind_ok in H as (s2 & x & H & [= <- _]). by apply IH in H.
Qed.

Lemma routes_add_meta id have now l : ∀ s s' a, routes_add id have now l s = Ok (s', a) → meta s' = meta s.
Proof.
  induction l as [|p l IH]; intros s s' a H; cbn [routes_add] in H; [by injection H as <- _|].
  case_bool_decide; [by eapply IH|]. apply tx_bind_ok in H as (s1 & [] & Hi & H).
  unfold route_insert in Hi. destruct (_ || _); [done|]. injection Hi as <-.
  apply tx_bind_ok in H as (s2 & x & H & [= <- _]). by apply IH in H.
Qed.

Lemma Routes_Replace_meta id l now s s' a : Routes_Replace id l now s = Ok (s', a) → meta s' = meta s.
Proof.
  intros H. unfold Routes_Replace in H. apply tx_bind_ok in H as (s0 & cur & [= <- _] & H).
  apply tx_bind_ok in H as (s1 & rem & Hw & H). apply tx_bind_ok in H as (s2 & add & Ha & [= <- _]).
  by rewrite (routes_add_meta _ _ _ _ _ _ _ Ha), (routes_withdraw_meta _ _ _ _ _ _ Hw).
Qed.

Lemma Peers_Rename_meta id n s s' a : Peers_Rename id n s = Ok (s', a) → meta s' = meta s.
Proof. unfold Peers_Rename. destruct (_ && _); [done|]. by intros ->%update_peer_eq. Qed.

Lemma Peers_SetPublicKey_meta id k s s' a : Peers_SetPublicKey id k s = Ok (s', a) → meta s' = meta s.
Proof. unfold Peers_SetPublicKey. destruct (_ && _); [done|]. by intros ->%update_peer_eq. Qed.

(** The statements that are one test and one change. *)
Ltac one_change f :=
  apply commit_meta; intros ? ?; unfold f; repeat case_match; intros [= <- _]; reflexivity.

Lemma exec_gen st s :
  keeps_generation st → tables_ok s → gen_of (exec st s) = gen_of s + (if is_increment st then 1 else 0).
Proof.
  intros Hk Hok. destruct st; cbn [exec is_increment]; rewrite ?Z.add_0_r.
  - one_change Users_Create.
  - one_change Peers_Create.
  - apply commit_meta, Peers_Rename_meta.
  - one_change Peers_Delete.
  - apply commit_meta, Peers_SetPublicKey_meta.
  - one_change Peers_SetIPv6Capable.
  - one_change Peers_Touch.
  - one_change Peers_SetClientVersion.
  - unfold gen_of, Peers_BackfillIPv6. by rewrite backfill_meta.
  - one_change Tokens_Create.
  - one_change Tokens_MarkUsed.
  - one_change Tokens_Delete.
  - apply commit_meta, Routes_Replace_meta.
  - one_change Routes_SetApproved.
  - one_change Signatures_Put.
  - one_change Signatures_DeletePeer.
  - one_change Signatures_DeleteKey.
  - one_change Signatures_DeleteAll.
  - one_change Audit_Append.
  - one_change Audit_Prune.
  - destruct (commit_cases (Meta_Set key value) s) as [-> | [a Ha]]; [done|]. by eapply Meta_Set_tables.
  - destruct (IncrementGeneration_some s (tk_store s Hok)) as [[s' g] H].
    unfold commit, InTx. rewrite H. by eapply Increment_tables.
Qed.

Lemma exec_tables st s : keeps_generation st → tables_ok s → tables_ok (exec st s).
Proof.
  intros Hk Hok. destruct st; cbn [exec]; try (apply commit_ok; [done|]; intros s' a H).
  - by eapply Users_Create_tables.
  - by eapply Peers_Create_tables.
  - by eapply Peers_Rename_tables.
  - by eapply Peers_Delete_tables.
  - by eapply Peers_SetPublicKey_tables.
  - by eapply SetIPv6Capable_tables.
  - injection H as <- _. by apply update_report_ok.
  - injection H as <- _. by apply update_report_ok.
  - by apply backfill_tables.
  - by eapply Tokens_Create_tables.
  - by eapply Tokens_MarkUsed_tables.
  - by eapply Tokens_Delete_tables.
  - by eapply Routes_Replace_tables.
  - by eapply Routes_SetApproved_tables.
  - by eapply Signatures_Put_tables.
  - injection H as <- _. by apply signatures_filter_tables.
  - injection H as <- _. by apply signatures_filter_tables.
  - injection H as <- _. apply with_signatures_tables; [done|constructor].
  - by eapply Audit_Append_tables.
  - by eapply Audit_Prune_tables.
  - by eapply Meta_Set_tables.
  - by eapply Increment_tables.
Qed.

Lemma exec_all_ok l : ∀ s,
  Forall keeps_generation l → tables_ok s →
  tables_ok (exec_all l s) ∧ gen_of (exec_all l s) = gen_of s + Z.of_nat (length (filter (λ st, is_increment st = true) l)).
Proof.
  induction l as [|st l IH]; intros s Hl Hok; [split; [done|simpl; lia]|].
  apply Forall_cons in Hl as [Hst Hl]. pose proof (exec_tables st s Hst Hok) as Hok1. pose proof (exec_gen st s Hst Hok) as Hg1.
  destruct (IH (exec st s) Hl Hok1) as [Hok2 Hg2]. split; [done|]. cbn [exec_all foldl] in *.
  unfold exec_all in Hg2. rewrite Hg2, Hg1, filter_cons. destruct (is_increment st); simpl; lia.
Qed.

Lemma emptyStore_tables : tables_ok emptyStore.
Proof. split; [apply (emptyStore_ok [])|..]; simpl; try (by constructor); by intros ? ?%elem_of_nil. Qed.

(** C11: the tables keep what their declarations promise.  After any sequence
    of the store's statements on the database the migrations leave, failed ones
    included: ids, names, keys and addresses of peers, ids and names of users,
    ids and hashes of tokens, the prefixes of a peer and the signatures of a key
    are unique; roles, kinds and modes are known ones; the owner of a peer or
    token, the peer of a route and the peer that used a token exist, whatever
    peers were deleted; an unapproved route has no approver; audit ids grow.
    The generation reads back the number of increments. *)
Theorem constraints_hold (l : list stmt) :
  Forall keeps_generation l → Z.of_nat (length l) < 2 ^ 63 →
  let s := exec_all l emptyStore in
  tables_ok s ∧ Generation s = Ok (s, Z.of_nat (length (filter (λ st, is_increment st = true) l))).
Proof.
  intros Hl Hlen s. destruct (exec_all_ok l emptyStore Hl emptyStore_tables) as [Hok Hg]. split; [done|].
  destruct (tk_store s Hok) as [? ? ? ? ? ? ? (g & Hg0 & Hm)]. unfold gen_of in Hg. fold s in Hg. rewrite Hm in Hg.
  rewrite cast_itoa in Hg by done. unfold Generation. rewrite Hm.
  pose proof (length_filter (λ st, is_increment st = true) l) as Hf.
  change (match meta emptyStore !! MetaNetmapGeneration with Some v => cast_integer v | None => 0 end) with 0 in Hg.
  rewrite atoi_itoa by lia. by rewrite Hg.
Qed.

Lemma constraints_hold_witness :
  let u := {| uID := "u"; uName := "ada"; uRole := RoleAdmin; uPasswordHash := ""; uDisabled := false; uCreatedAt := 1 |} in
  let s := exec_all [UserCreate u; UserCreate u; GenerationIncrement] emptyStore in
  length (users s) = 1%nat ∧ tables_ok s ∧ Generation s = Ok (s, 1).
Proof.
  intros u s. split; [reflexivity|]. apply (constraints_hold [UserCreate u; UserCreate u; GenerationIncrement]).
  - repeat constructor.
  - simpl. lia.
Defined.
