(* ===== verification/Enroll.v ===== *)
(** Tokens and enrolment: [internal/control/tokens.go], [enroll.go],
    [ids.go], [audit.go] and [principal.go].

    What a handler reads besides the database is its input: the clock, the
    random bytes, and, for keys, the third-party WireGuard types ([ParseKey],
    [KeyString]).  The policy is asked through [peerRefs] and [tagAllowed].  Logging, and the notifier the
    server is told through after a success, have no part in the model. *)

From Stdlib Require Import Strings.Ascii.
From S2P Require Import Prelude GoStrings Base64 Sha256 NetIP Selector Alloc Names Limiter Store.

(** ** Errors, identifiers, principals *)

Inductive cerror :=
  | ErrInvalidToken | ErrValidation | ErrForbidden | ErrRateLimited | ErrVersion
  | ErrMissing  (* control.ErrNotFound *)
  | ErrStore (e : store_error) | ErrAlloc (e : alloc_error) | ErrInternal.

(** [newID], [newSecret] from the bytes drawn. *)
Definition newID (rnd : list byte) : string := hex rnd.
Definition newSecret (rnd : list byte) : string := raw_url_base64 rnd.
Definition hashSecret (s : string) : string := hex (sha256 (string_bytes s)).

Record Principal := { prUserID : string; prName : string; prRole : string; prLocal : bool }.

Definition LocalAdmin : Principal := {| prUserID := ""; prName := "local"; prRole := RoleAdmin; prLocal := true |}.
Definition IsAdmin (p : Principal) : bool := eqs (prRole p) RoleAdmin.
Definition RolePeer : string := "peer".
Definition PeerPrincipal (name : string) : Principal :=
  {| prUserID := ""; prName := "peer:" +:+ name; prRole := RolePeer; prLocal := false |}.

(** *** Audit *)

Definition AuditTokenCreate : string := "token.create".
Definition AuditTokenRevoke : string := "token.revoke".
Definition AuditPeerEnrol : string := "peer.enrol".
Definition AuditPeerCreateStatic : string := "peer.create_static".

(** [Auditor.Record]; a nil auditor ([on] false) records nothing.  [now] is what
    the auditor's clock reads, or the system's clock when that is the zero time. *)
Definition audit_record (on : bool) (now : Z) (by_ : Principal) (action target : string) (details : list (string * string))
    : tx cerror unit :=
  if on then
    let actor := if prLocal by_ then prName LocalAdmin else prName by_ in
    let actor := if eqs actor "" then "unknown" else actor in
    lift ErrStore (Audit_Append now {| aID := 0; aAt := now; aActor := actor; aActorRole := prRole by_; aAction := action;
                                   aTarget := target; aDetails := details |})
  else mret ().

Definition tagsDetail (tags : list string) : string := String.concat "," tags.

(** ** Tokens *)

Definition DefaultTokenTTL : Z := 3600 * second.
Definition MaxTokenTTL : Z := 30 * 24 * 3600 * second.
Definition TokenPrefix : string := "thawr_".
Definition tokenIDLen : nat := 8.

Record TokenRequest := {
  trOwnerName : string; trKind : string; trTags : list string; trPeerName : string; trTTL : Z;
}.

(** Nil functions are [None]. *)
Record Policies := {
  tagAllowed : option (string → string → bool);
  peerRefs : option (string → list string);
}.

Definition validKind (k : string) : bool := kind_ok k.

(** [normalizeTags]: the loop with what was seen. *)
Fixpoint normalize_loop (seen : list string) (tags : list string) : result cerror (list string) :=
  match tags with
  | [] => Ok []
  | raw :: rest =>
      let tag := of_chars (trim_space (chars raw)) in
      if eqs tag "" then normalize_loop seen rest
      else
        match cut_prefix (chars "tag:") (chars tag) with
        | Some label =>
            if validLabel (of_chars label) then
              if bool_decide (tag ∈ seen) then normalize_loop seen rest
              else out ← normalize_loop (tag :: seen) rest; Ok (tag :: out)
            else Err ErrValidation
        | None => Err ErrValidation
        end
  end.
Definition normalizeTags (tags : list string) : result cerror (list string) := normalize_loop [] tags.

(** What the handlers draw from outside. *)
Record Draw := { dNow : Z; dAuditNow : Z; dID : list byte; dSecret : list byte }.

Definition tags_granted (pol : Policies) (by_ : Principal) (tags : list string) : bool :=
  forallb (λ tag, match tagAllowed pol with Some f => f (prName by_) tag | None => false end) tags.

Definition selected (pol : Policies) (name : string) : bool :=
  match peerRefs pol with Some f => negb (bool_decide (f name = [])) | None => false end.

Definition token_ttl (ttl : Z) : result cerror Z :=
  if ttl =? 0 then Ok DefaultTokenTTL
  else if ttl <? 0 then Err ErrValidation
  else if MaxTokenTTL <? ttl then Err ErrValidation
  else Ok ttl.

(** A test that ends the handler with an error. *)
Definition guard_err {E} (b : bool) (e : E) : result E unit := if b then Ok () else Err e.

Definition token_checks (pol : Policies) (by_ : Principal) (req : TokenRequest) (owner : User) : result cerror (list string * Z) :=
  guard_err (IsAdmin by_ || eqs (uID owner) (prUserID by_)) ErrForbidden ;;
  guard_err (validKind (trKind req)) ErrValidation ;;
  tags ← normalizeTags (trTags req);
  guard_err (IsAdmin by_ || tags_granted pol by_ tags) ErrForbidden ;;
  guard_err (eqs (trPeerName req) "" || validPeerName (trPeerName req)) ErrValidation ;;
  guard_err (eqs (trPeerName req) "" || IsAdmin by_ || negb (selected pol (trPeerName req))) ErrForbidden ;;
  ttl ← token_ttl (trTTL req);
  Ok (tags, ttl).

Definition new_token (by_ : Principal) (req : TokenRequest) (owner : User) (tags : list string) (ttl : Z) (d : Draw) : Token :=
  {| tID := "tk_" +:+ of_chars (take tokenIDLen (chars (newID (dID d))));
     tSecretHash := hashSecret (TokenPrefix +:+ newSecret (dSecret d));
     tOwnerID := uID owner; tKind := trKind req; tTags := tags; tPeerName := trPeerName req;
     tCreatedBy := if prLocal by_ then uID owner else prUserID by_;
     tCreatedAt := dNow d; tExpiresAt := dNow d + ttl; tUsedAt := None; tUsedByPeerID := "";
     tIssuedByAdmin := IsAdmin by_ |}.

Definition query_user (name : string) (s : Store) : result cerror User :=
  match Users_GetByName name s with
  | Ok (_, u) => Ok u
  | Err ErrNotFound => Err ErrValidation
  | Err e => Err (ErrStore e)
  end.

Definition issue_tx (audit : bool) (by_ : Principal) (req : TokenRequest) (owner : User) (tags : list string) (tok : Token) (anow : Z) :
    tx cerror unit :=
  lift ErrStore (Tokens_Create tok) ;;
  audit_record audit anow by_ AuditTokenCreate (tID tok)
    [("owner", uName owner); ("kind", tKind tok); ("tags", tagsDetail tags); ("peer_name", trPeerName req);
     ("expires_at", rfc3339 (tExpiresAt tok))].

Definition Tokens_Issue (pol : Policies) (audit : bool) (by_ : Principal) (req : TokenRequest) (d : Draw) (s : Store)
    : Store * result cerror (Token * string) :=
  match (owner ← query_user (trOwnerName req) s; r ← token_checks pol by_ req owner; Ok (owner, r)) with
  | Err e => (s, Err e)
  | Ok (owner, (tags, ttl)) =>
      let tok := new_token by_ req owner tags ttl d in
      match InTx (issue_tx audit by_ req owner tags tok (dAuditNow d)) s with
      | (s', Ok _) => (s', Ok (tok, TokenPrefix +:+ newSecret (dSecret d)))
      | (s', Err e) => (s', Err e)
      end
  end.

(** [Tokens.List]: all for admins, own for members. *)
Definition Tokens_Visible (by_ : Principal) (s : Store) : list Token :=
  let all := match Tokens_List s with Ok (_, l) => l | Err _ => [] end in
  if IsAdmin by_ then all else filter (λ t, eqs (tOwnerID t) (prUserID by_) = true) all.

Definition revoke_tx (audit : bool) (by_ : Principal) (id : string) (anow : Z) : tx cerror unit :=
  lift (λ e, match e with ErrNotFound => ErrMissing | e => ErrStore e end) (Tokens_Delete id) ;;
  audit_record audit anow by_ AuditTokenRevoke id [].

Definition Tokens_Revoke (audit : bool) (by_ : Principal) (id : string) (anow : Z) (s : Store) : Store * result cerror unit :=
  if negb (IsAdmin by_) && negb (existsb (λ t, eqs (tID t) id) (Tokens_Visible by_ s)) then (s, Err ErrMissing)
  else InTx (revoke_tx audit by_ id anow) s.

(** ** Enrolment *)

Record EnrollRequest := {
  eToken : string; ePublicKey : string; eHostname : string; eOS : string; eArch : string; eClientVersion : string;
  eName : string; eRemoteIP : string; eIPv6 : bool;
}.

Record EnrollResult := { resPeer : Peer; resNodeSecret : string; resGeneration : Z }.

Definition enrollWindow : Z := 60 * second.
Definition enrollMax : Z := 10.

Record Enroller := {
  overlay : prefix;  (* masked, as NewEnroller leaves it *)
  overlay6 : prefix;
  minVersion : string;
  audit : bool;
}.

Definition NewEnroller (ov ov6 : prefix) (min : string) (au : bool) : Enroller :=
  {| overlay := Masked ov; overlay6 := ov6; minVersion := min; audit := au |}.

Section Keys.
Context (ParseKey : string → option (list byte)) (KeyString : list byte → string).

Definition wgFingerprint (k : list byte) : string := hex (take 4 (sha256 k)).

Definition token_shape (t : string) : bool :=
  match cut_prefix (chars TokenPrefix) (chars t) with Some _ => true | None => false end
  && (String.length t =? String.length TokenPrefix + 43)%nat.

(** The checks before the database is read, after the rate limit. *)
Definition enroll_checks (e : Enroller) (req : EnrollRequest) : result cerror (list byte) :=
  guard_err (checkVersion (eClientVersion req) (minVersion e)) ErrVersion ;;
  pub ← of_option ErrValidation (ParseKey (ePublicKey req));
  guard_err (negb (63 <? String.length (eHostname req))%nat) ErrValidation ;;
  guard_err (eqs (eName req) "" || validPeerName (eName req)) ErrValidation ;;
  guard_err (token_shape (eToken req)) ErrInvalidToken ;;
  Ok pub.

(** Unused and not expired. *)
Definition token_usable (now : Z) (t : Token) : bool :=
  match tUsedAt t with Some _ => false | None => now <? tExpiresAt t end.

Definition parsed_addrs (l : list string) : list addr := omap ParseAddr l.

(** The address the next peer gets; [None] of the allocator is a panic. *)
Definition next_ip (ov : prefix) (s : Store) : result cerror addr :=
  match NextAddress ov (parsed_addrs (pIPv4 <$> peers s)) with
  | Some (Ok a) => Ok a
  | Some (Err e) => Err (ErrAlloc e)
  | None => Err ErrInternal
  end.

Definition base_name (req : EnrollRequest) (tok : Token) : string :=
  if negb (eqs (eName req) "") then eName req
  else if negb (eqs (tPeerName tok) "") then tPeerName tok
  else SanitizeName (eHostname req).

(** The closure [reserved]. *)
Definition reserved (pol : Policies) (tok : Token) (n : string) : bool :=
  eqs n HubName || (selected pol n && (negb (eqs n (tPeerName tok)) || negb (tIssuedByAdmin tok))).

Definition new_peer (e : Enroller) (req : EnrollRequest) (tok : Token) (d : Draw) (pub : list byte) (ip : addr) (name : string) : Peer :=
  {| pID := newID (dID d); pName := name; pKind := tKind tok; pMode := ModeAgent; pOwnerID := tOwnerID tok; pTags := tTags tok;
     pPublicKey := KeyString pub; pIPv4 := addr_string ip; pIPv6 := addrString (IPv6For (overlay6 e) ip);
     pIPv6Capable := eIPv6 req; pNodeSecretHash := hashSecret (newSecret (dSecret d)); pCreatedAt := dNow d;
     pLastSeenAt := None; pClientVersion := eClientVersion req; pOS := platform (eOS req) (eArch req) |}.

Definition enrol_details (p : Peer) (tok : Token) (pub : list byte) (req : EnrollRequest) : list (string * string) :=
  [("name", pName p); ("kind", pKind p); ("tags", tagsDetail (pTags p)); ("ipv4", pIPv4 p); ("ipv6", pIPv6 p);
   ("key", wgFingerprint pub); ("token", tID tok); ("os", pOS p); ("client_version", eClientVersion req)].

(** The transaction. *)
Definition enroll_tx (e : Enroller) (pol : Policies) (req : EnrollRequest) (d : Draw) (pub : list byte) : tx cerror EnrollResult :=
  tok ← lift (λ x, match x with ErrNotFound => ErrInvalidToken | x => ErrStore x end) (Tokens_GetByHash (hashSecret (eToken req)));
  if negb (token_usable (dNow d) tok) then fail_tx ErrInvalidToken
  else
    rip ← query (next_ip (overlay e));
    match rip with
    | Err x => fail_tx x
    | Ok ip =>
        rname ← query (λ s, uniqueName (pName <$> peers s) (base_name req tok) (reserved pol tok));
        match rname with
        | None => fail_tx ErrInternal
        | Some name =>
            let peer := new_peer e req tok d pub ip name in
            lift ErrStore (Peers_Create peer) ;;
            lift (λ x, match x with ErrConflict => ErrInvalidToken | x => ErrStore x end) (Tokens_MarkUsed (tID tok) (pID peer) (dNow d)) ;;
            gen ← lift ErrStore IncrementGeneration;
            audit_record (audit e) (dAuditNow d) (PeerPrincipal (pName peer)) AuditPeerEnrol (pID peer) (enrol_details peer tok pub req) ;;
            mret {| resPeer := peer; resNodeSecret := newSecret (dSecret d); resGeneration := gen |}
        end
    end.

(** [Enroll]; [lnow] is when the rate limit looks at the clock. *)
Definition Enroll (e : Enroller) (pol : Policies) (lnow : Z) (req : EnrollRequest) (d : Draw)
    (lim : gmap string (list Z)) (s : Store) : gmap string (list Z) * Store * result cerror EnrollResult :=
  let '(lim, ok) := if eqs (eRemoteIP req) "" then (lim, true) else rate_allow enrollWindow enrollMax lnow (eRemoteIP req) lim in
  if negb ok then (lim, s, Err ErrRateLimited)
  else
    match enroll_checks e req with
    | Err x => (lim, s, Err x)
    | Ok pub => let '(s, r) := InTx (enroll_tx e pol req d pub) s in (lim, s, r)
    end.
End Keys.

(** ** Lemmas *)

Lemma audit_record_ok on now by_ action target details s s' :
  audit_record on now by_ action target details s = Ok (s', ()) → s' = s ∨ ∃ l n, s' = with_audit l n s.
Proof.
  unfold audit_record. destruct on; [|intros [= <-]; by left].
  intros H%lift_ok%Audit_Append_ok. by right.
Qed.

(** A named actor and a named action are always recorded. *)
Lemma audit_record_some on now by_ action target details s :
  action ≠ "" → ∃ s', audit_record on now by_ action target details s = Ok (s', ()).
Proof.
  intros Ha. unfold audit_record. destruct on; [|by eexists]. unfold lift, Audit_Append. cbn [aAction aActor].
  rewrite (proj2 (eqs_false action "")) by done.
  set (actor := if prLocal by_ then _ else _).
  assert (eqs (if eqs actor "" then "unknown" else actor) "" = false) as ->; [|by eexists].
  destruct (eqs actor "") eqn:E; [done|done].
Qed.

(** The effect of using a token. *)
Definition use_token (now : Z) (peerID : string) (tok : Token) (l : list Token) : list Token :=
  (λ t, if unused_id (tID tok) t then mark_used now peerID t else t) <$> l.

Section EnrollLemmas.
Context (ParseKey : string → option (list byte)) (KeyString : list byte → string).

(** Everything a transaction that commits has checked, and what it changed. *)
Record enrolled (e : Enroller) (pol : Policies) (req : EnrollRequest) (d : Draw) (pub : list byte) (s s' : Store)
    (res : EnrollResult) (tok : Token) (ip : addr) (name : string) : Prop := {
  en_token : tok ∈ tokens s;
  en_hash : tSecretHash tok = hashSecret (eToken req);
  en_usable : token_usable (dNow d) tok = true;
  en_ip : next_ip (overlay e) s = Ok ip;
  en_name : uniqueName (pName <$> peers s) (base_name req tok) (reserved pol tok) = Some name;
  en_peer : resPeer res = new_peer KeyString e req tok d pub ip name;
  en_secret : resNodeSecret res = newSecret (dSecret d);
  en_gen : resGeneration res = gen_of s + 1;
  en_new : ∀ q, q ∈ peers s → peer_clash (resPeer res) q = false;
  en_owner : tOwnerID tok = "" ∨ user_exists (tOwnerID tok) s = true;
  en_users : users s' = users s;
  en_peers : peers s' = peers s ++ [resPeer res];
  en_tokens : tokens s' = use_token (dNow d) (pID (resPeer res)) tok (tokens s);
  en_routes : routes s' = routes s;
  en_signatures : signatures s' = signatures s;
  en_gen' : gen_of s' = gen_of s + 1;
  en_ok : store_ok s';
}.

Lemma unused_id_spec s tok t :
  store_ok s → tok ∈ tokens s → t ∈ tokens s → unused_id (tID tok) t = true ↔ t = tok ∧ tUsedAt tok = None.
Proof.
  intros [] Htok Ht. unfold unused_id. rewrite andb_true_iff, eqs_true. split.
  - intros [Hid Hu]. assert (t = tok) as -> by (by eapply (key_unique tID)). split; [done|]. by destruct (tUsedAt tok).
  - intros [-> ->]. done.
Qed.

Lemma MarkUsed_ok id peerID now s s' :
  Tokens_MarkUsed id peerID now s = Ok (s', ()) →
  s' = with_tokens ((λ t, if unused_id id t then mark_used now peerID t else t) <$> tokens s) s.
Proof. unfold Tokens_MarkUsed. destruct (negb _); [done|]. destruct (negb _); [done|]. by intros [= <-]. Qed.

Lemma enroll_tx_ok e pol req d pub s s' res :
  store_ok s → enroll_tx KeyString e pol req d pub s = Ok (s', res) →
  ∃ tok ip name, enrolled e pol req d pub s s' res tok ip name.
Proof.
  intros Hok H. unfold enroll_tx in H. apply tx_bind_ok in H as (s1 & tok & Hget%lift_ok & H).
  apply get_ok in Hget as [-> [Htok Hhash%eqs_true]%find_row_ok].
  destruct (token_usable (dNow d) tok) eqn:Hu; [|done]. cbn [negb] in H.
  apply tx_bind_ok in H as (s1 & rip & [= <- <-] & H). destruct (next_ip (overlay e) s) as [ip|] eqn:Hip; [|done].
  apply tx_bind_ok in H as (s1 & rn & [= <- <-] & H). destruct (uniqueName _ _ _) as [name|] eqn:Hn; [|done].
  set (peer := new_peer KeyString e req tok d pub ip name) in *.
  apply tx_bind_ok in H as (s1 & [] & Hc%lift_ok & H).
  apply Peers_Create_ok in Hc as (_ & _ & Hnew & Hown & ->).
  apply tx_bind_ok in H as (s2 & [] & Hm%lift_ok & H). apply MarkUsed_ok in Hm as ->.
  apply tx_bind_ok in H as (s3 & gen & Hg%lift_ok & H).
  assert (store_ok (with_peers (peers s ++ [peer]) s)) as Hok1 by by apply store_ok_new_peer.
  set (s2 := with_tokens _ _) in *.
  assert (store_ok s2) as Hok2.
  { unfold s2. apply store_ok_tokens; [|done]. intros t. by destruct (unused_id (tID tok) t). }
  apply IncrementGeneration_ok in Hg as (Hgen & -> & Hgen' & Hok3); [|done].
  apply tx_bind_ok in H as (s4 & [] & Ha & [= <- <-]).
  exists tok, ip, name. apply audit_record_ok in Ha as [-> | (l & n & ->)].
  - split; try done. all: cbn [resGeneration]; by rewrite ?Hgen', Hgen.
  - split; try done; [|by apply store_ok_with_audit].
    change (gen_of (with_meta (<[MetaNetmapGeneration:=itoa gen]> (meta s2)) s2) = gen_of s + 1). by rewrite Hgen'.
Qed.

Lemma Enroll_ok e pol lnow req d lim s lim' s' res :
  store_ok s → Enroll ParseKey KeyString e pol lnow req d lim s = (lim', s', Ok res) →
  ∃ pub tok ip name, enroll_checks ParseKey e req = Ok pub ∧ enrolled e pol req d pub s s' res tok ip name ∧
    (eRemoteIP req = "" ∨ (rate_allow enrollWindow enrollMax lnow (eRemoteIP req) lim).2 = true).
Proof.
  intros Hok. unfold Enroll.
  assert (eRemoteIP req = "" ∨ (rate_allow enrollWindow enrollMax lnow (eRemoteIP req) lim).2 = true ∨
    (if eqs (eRemoteIP req) "" then (lim, true) else rate_allow enrollWindow enrollMax lnow (eRemoteIP req) lim).2 = false) as Hlim.
  { destruct (eqs (eRemoteIP req) "") eqn:E; [left; by apply eqs_true|]. right. by destruct (rate_allow _ _ _ _ _) as [? []]; [left|right]. }
  destruct (if eqs (eRemoteIP req) "" then _ else _) as [lim1 ok]. cbn [snd] in Hlim.
  destruct ok; [|done]. cbn [negb]. destruct (enroll_checks ParseKey e req) as [pub|x]; [|done].
  destruct (InTx _ s) as [s1 r] eqn:Htx. intros [= <- <- ->]. apply InTx_ok in Htx.
  destruct (enroll_tx_ok _ _ _ _ _ _ _ _ Hok Htx) as (tok & ip & name & H).
  exists pub, tok, ip, name. split_and!; [done|done|]. by destruct Hlim as [|[|]]; [left|right|].
Qed.

Lemma Enroll_err e pol lnow req d lim s lim' s' x :
  Enroll ParseKey KeyString e pol lnow req d lim s = (lim', s', Err x) → s' = s.
Proof.
  unfold Enroll. destruct (if eqs (eRemoteIP req) "" then _ else _) as [lim1 ok]. destruct (negb ok); [by intros [= <- <-]|].
  destruct (enroll_checks ParseKey e req) as [pub|y]; [|by intros [= <- <-]].
  destruct (InTx _ s) as [s1 r] eqn:Htx. intros [= <- <- ->]. by apply InTx_err in Htx.
Qed.
End EnrollLemmas.

(** ** What enrolment promises *)

Lemma reserved_false pol tok n :
  reserved pol tok n = false ↔ n ≠ HubName ∧ (selected pol n = true → n = tPeerName tok ∧ tIssuedByAdmin tok = true).
Proof.
  unfold reserved. rewrite orb_false_iff, eqs_false, andb_false_iff, orb_false_iff, !negb_false_iff, eqs_true.
  destruct (selected pol n); naive_solver.
Qed.

Lemma validPeerName_spec n : validPeerName n = true ↔ validLabel n = true ∧ n ≠ HubName.
Proof. unfold validPeerName. by rewrite andb_true_iff, negb_true_iff, bool_decide_eq_false, validLabel_labelRe. Qed.

Lemma guard_err_ok {E} b (e : E) u : guard_err b e = Ok u ↔ b = true.
Proof. unfold guard_err. destruct b, u; naive_solver. Qed.

Lemma enroll_checks_ok ParseKey e req pub :
  enroll_checks ParseKey e req = Ok pub ↔
  checkVersion (eClientVersion req) (minVersion e) = true ∧ ParseKey (ePublicKey req) = Some pub ∧
  (String.length (eHostname req) <= 63)%nat ∧ (eName req = "" ∨ validPeerName (eName req) = true) ∧ token_shape (eToken req) = true.
Proof.
  unfold enroll_checks. rewrite !result_bind_ok. setoid_rewrite guard_err_ok. split.
  - intros ([] & H1 & H). apply result_bind_ok in H as (p & H2 & H).
    apply result_bind_ok in H as ([] & H3%guard_err_ok & H). apply result_bind_ok in H as ([] & H4%guard_err_ok & H).
    apply result_bind_ok in H as ([] & H5%guard_err_ok & [= <-]).
    split_and!; [done| | | |done].
    + unfold of_option in H2. by destruct (ParseKey (ePublicKey req)); simplify_eq.
    + apply negb_true_iff in H3. by apply Nat.ltb_ge in H3.
    + apply orb_true_iff in H4 as [H4|H4]; [left; by apply eqs_true|by right].
  - intros (H1 & H2 & H3 & H4 & H5). exists (). split; [done|]. rewrite H2. cbn [of_option mbind result_bind].
    rewrite (proj2 (Nat.ltb_ge _ _)) by done. cbn [negb guard_err mbind result_bind].
    assert (eqs (eName req) "" || validPeerName (eName req) = true) as -> by (apply orb_true_iff; destruct H4; [left; by apply eqs_true|by right]).
    cbn [guard_err mbind result_bind]. by rewrite H5.
Qed.

(** A chosen name is a label no one may confuse with the hub or, without an
    admin's token for it, with a peer the policy selects. *)
Lemma enrolled_name KeyString e pol req d pub s s' res tok ip name :
  enrolled KeyString e pol req d pub s s' res tok ip name →
  (eName req = "" ∨ validPeerName (eName req) = true) → (tPeerName tok = "" ∨ validPeerName (tPeerName tok) = true) →
  validPeerName name = true ∧ (selected pol name = true → name = tPeerName tok ∧ tIssuedByAdmin tok = true).
Proof.
  intros H He Ht.
  assert (validLabel (base_name req tok) = true) as Hb.
  { unfold base_name. destruct (eqs (eName req) "") eqn:E1; cbn [negb].
    - destruct (eqs (tPeerName tok) "") eqn:E2; cbn [negb]; [apply SanitizeName_label|].
      apply eqs_false in E2. destruct Ht as [|Ht]; [done|]. by apply validPeerName_spec in Ht as [? _].
    - apply eqs_false in E1. destruct He as [|He]; [done|]. by apply validPeerName_spec in He as [? _]. }
  destruct (uniqueName_some _ _ _ _ Hb (en_name _ _ _ _ _ _ _ _ _ _ _ _ H)) as (Hl & Hr & _).
  apply reserved_false in Hr as [Hh Hs]. split; [by apply validPeerName_spec|done].
Qed.

Lemma use_token_spec s tok now id t :
  store_ok s → tok ∈ tokens s → tUsedAt tok = None →
  t ∈ use_token now id tok (tokens s) ↔ t = mark_used now id tok ∨ (t ∈ tokens s ∧ t ≠ tok).
Proof.
  intros Hok Htok Hu. unfold use_token. rewrite list_elem_of_fmap. split.
  - intros (t0 & -> & Ht0). destruct (unused_id (tID tok) t0) eqn:E.
    + apply (unused_id_spec s) in E as [-> _]; [by left|done..].
    + right. split; [done|]. intros ->. assert (unused_id (tID tok) tok = true) by by apply (unused_id_spec s). congruence.
  - intros [-> | [Ht Hne]].
    + exists tok. split; [|done]. by rewrite (proj2 (unused_id_spec s tok tok Hok Htok Htok)).
    + exists t. split; [|done]. destruct (unused_id (tID tok) t) eqn:E; [|done].
      by apply (unused_id_spec s) in E as [-> _].
Qed.

(** C8: what an enrolment needs and does.  A refused one changes nothing in
    the database.  A granted one has shown the secret of a token that was
    unused and not expired, and a key that parses; the new peer has the token's
    kind, tags and owner and that key, shares no id, name, key or address with
    another peer, is not called hub, and bears a name the policy selects only
    if an admin issued the token for that name; its IPv4 address is the lowest
    free host address of the overlay and its IPv6 address the one derived from
    it.  Only that peer is added, only that token marked used, and the
    generation goes up by one. *)
Theorem Enroll_correct (ParseKey : string → option (list byte)) (KeyString : list byte → string) (e : Enroller)
    (pol : Policies) (lnow : Z) (req : EnrollRequest) (d : Draw) (lim : gmap string (list Z)) (s : Store) :
  store_ok s →
  match Enroll ParseKey KeyString e pol lnow req d lim s with
  | (_, s', Err _) => s' = s
  | (_, s', Ok res) =>
      let p := resPeer res in
      ∃ tok pub,
        (tok ∈ tokens s ∧ tSecretHash tok = hashSecret (eToken req) ∧ tUsedAt tok = None ∧ dNow d < tExpiresAt tok ∧
         ParseKey (ePublicKey req) = Some pub) ∧
        (pKind p = tKind tok ∧ pTags p = tTags tok ∧ pOwnerID p = tOwnerID tok ∧ pMode p = ModeAgent ∧
         pPublicKey p = KeyString pub ∧ pNodeSecretHash p = hashSecret (resNodeSecret res)) ∧
        (∀ q, q ∈ peers s → pID p ≠ pID q ∧ pName p ≠ pName q ∧ pPublicKey p ≠ pPublicKey q ∧ pIPv4 p ≠ pIPv4 q ∧
           (pIPv6 p = "" ∨ pIPv6 p ≠ pIPv6 q)) ∧
        (tPeerName tok = "" ∨ validPeerName (tPeerName tok) = true →
         validPeerName (pName p) = true ∧
         (selected pol (pName p) = true → pName p = tPeerName tok ∧ tIssuedByAdmin tok = true)) ∧
        (∀ net, prefix_wf (overlay e) → paddr (overlay e) = Addr4 net → 0 <= pbits (overlay e) →
         let base := mask_top 32 (pbits (overlay e)) net in
         let host x := base + 2 <= x < base + 2 ^ (32 - pbits (overlay e)) - 1 in
         let used x := Addr4 x ∈ Unmap <$> parsed_addrs (pIPv4 <$> peers s) in
         ∃ x, pIPv4 p = addr_string (Addr4 x) ∧ pIPv6 p = addrString (IPv6For (overlay6 e) (Addr4 x)) ∧
              host x ∧ ¬ used x ∧ ∀ y, host y → y < x → used y) ∧
        (users s' = users s ∧ peers s' = peers s ++ [p] ∧ routes s' = routes s ∧ signatures s' = signatures s ∧
         (∀ t, t ∈ tokens s' ↔ t = mark_used (dNow d) (pID p) tok ∨ (t ∈ tokens s ∧ t ≠ tok)) ∧
         gen_of s' = gen_of s + 1 ∧ resGeneration res = gen_of s + 1 ∧ store_ok s')
  end.
Proof.
  intros Hok. destruct (Enroll ParseKey KeyString e pol lnow req d lim s) as [[lim' s'] [res|x]] eqn:HE.
  2:{ by apply Enroll_err in HE. }
  apply Enroll_ok in HE as (pub & tok & ip & name & Hchk & H & _); [|done].
  apply enroll_checks_ok in Hchk as (_ & Hpub & _ & Hname & _).
  pose proof (enrolled_name _ _ _ _ _ _ _ _ _ _ _ _ H Hname) as Hvalid.
  destruct H. cbv zeta. exists tok, pub. rewrite en_peer0 in *. cbn [new_peer pKind pTags pOwnerID pMode pPublicKey pNodeSecretHash pName pIPv4 pIPv6 pID] in *.
  assert (tUsedAt tok = None ∧ dNow d < tExpiresAt tok) as [Hu Hexp].
  { unfold token_usable in en_usable0. destruct (tUsedAt tok); [done|]. by apply Z.ltb_lt in en_usable0. }
  split_and!; try done.
  - by rewrite en_secret0.
  - intros q Hq. by apply en_new0, peer_clash_false in Hq.
  - intros net Hwf Hp Hb. unfold next_ip in en_ip0.
    destruct (NextAddress_spec (overlay e) net (parsed_addrs (pIPv4 <$> peers s)) Hwf Hp Hb) as [(x & Hx & Hhost & Hfree & Hlow)|[Hx _]];
      rewrite Hx in en_ip0; [|done]. injection en_ip0 as <-. eauto 10.
  - intros t. rewrite en_tokens0. by apply use_token_spec.
Qed.

(** ** Issuing tokens *)

Lemma normalize_loop_ok l : ∀ seen out,
  normalize_loop seen l = Ok out →
  NoDup out ∧ (∀ t, t ∈ out → t ∉ seen ∧ ∃ label, t = "tag:" +:+ label ∧ validLabel label = true ∧
    ∃ raw, raw ∈ l ∧ t = of_chars (trim_space (chars raw))).
Proof.
  induction l as [|raw l IH]; intros seen out H; cbn [normalize_loop] in H.
  { injection H as <-. split; [constructor|]. by intros t ?%elem_of_nil. }
  set (tag := of_chars (trim_space (chars raw))) in *.
  assert (∀ o, normalize_loop seen l = Ok o → NoDup o ∧ (∀ t, t ∈ o → t ∉ seen ∧ ∃ label, t = "tag:" +:+ label ∧ validLabel label = true ∧
    ∃ raw0, raw0 ∈ raw :: l ∧ t = of_chars (trim_space (chars raw0)))) as Hskip.
  { intros o Ho. destruct (IH seen o Ho) as [Hn Hall]. split; [done|]. intros t Ht.
    destruct (Hall t Ht) as (Hs & label & ? & ? & r & ? & ?). split; [done|]. exists label. split; [done|]. split; [done|].
    exists r. split; [by right|done]. }
  destruct (eqs tag "") eqn:Ee; [by apply Hskip|].
  destruct (cut_prefix (chars "tag:") (chars tag)) as [label|] eqn:Ec; [|done].
  destruct (validLabel (of_chars label)) eqn:Ev; [|done].
  case_bool_decide as Hin; [by apply Hskip|].
  destruct (normalize_loop (tag :: seen) l) as [o|] eqn:Eo; [|done]. injection H as <-.
  destruct (IH _ _ Eo) as [Hn Hall]. split.
  - constructor; [|done]. intros Hto. destruct (Hall _ Hto) as [Hs _]. apply Hs. by left.
  - intros t [->|Ht]%elem_of_cons.
    + split; [done|]. exists (of_chars label). split; [|split; [done|by exists raw; split; [left|]]].
      apply cut_prefix_Some in Ec. rewrite <- (of_chars_chars tag), Ec. by rewrite of_chars_app.
    + destruct (Hall t Ht) as (Hs & lb & ? & ? & r & ? & ?). rewrite not_elem_of_cons in Hs.
      split; [by destruct Hs|]. exists lb. split; [done|]. split; [done|]. exists r. split; [by right|done].
Qed.

Lemma token_checks_ok pol by_ req owner tags ttl :
  token_checks pol by_ req owner = Ok (tags, ttl) ↔
  (IsAdmin by_ = true ∨ uID owner = prUserID by_) ∧ validKind (trKind req) = true ∧ normalizeTags (trTags req) = Ok tags ∧
  (IsAdmin by_ = true ∨ tags_granted pol by_ tags = true) ∧
  (trPeerName req = "" ∨ (validPeerName (trPeerName req) = true ∧ (IsAdmin by_ = true ∨ selected pol (trPeerName req) = false))) ∧
  token_ttl (trTTL req) = Ok ttl.
Proof.
  unfold token_checks. split.
  - intros ([] & H1%guard_err_ok & H)%result_bind_ok. apply result_bind_ok in H as ([] & H2%guard_err_ok & H).
    apply result_bind_ok in H as (tags' & H3 & H). apply result_bind_ok in H as ([] & H4%guard_err_ok & H).
    apply result_bind_ok in H as ([] & H5%guard_err_ok & H). apply result_bind_ok in H as ([] & H6%guard_err_ok & H).
    apply result_bind_ok in H as (ttl' & H7 & [= <- <-]). apply orb_true_iff in H1, H4, H5. rewrite eqs_true in H1, H5.
    rewrite !orb_true_iff, eqs_true, negb_true_iff in H6. naive_solver.
  - intros (H1 & H2 & H3 & H4 & H5 & H6).
    assert (IsAdmin by_ || eqs (uID owner) (prUserID by_) = true) as -> by (rewrite orb_true_iff, eqs_true; naive_solver).
    rewrite H2, H3. cbn [guard_err mbind result_bind].
    assert (IsAdmin by_ || tags_granted pol by_ tags = true) as -> by (rewrite orb_true_iff; naive_solver).
    assert (eqs (trPeerName req) "" || validPeerName (trPeerName req) = true) as -> by (rewrite orb_true_iff, eqs_true; naive_solver).
    assert (eqs (trPeerName req) "" || IsAdmin by_ || negb (selected pol (trPeerName req)) = true) as ->
      by (rewrite !orb_true_iff, eqs_true, negb_true_iff; naive_solver).
    cbn [guard_err mbind result_bind]. by rewrite H6.
Qed.

Lemma token_ttl_ok t ttl : token_ttl t = Ok ttl → 0 < ttl <= MaxTokenTTL.
Proof.
  unfold token_ttl. destruct (Z.eqb_spec t 0); [intros [= <-]; by vm_compute; split|].
  destruct (Z.ltb_spec t 0); [done|]. destruct (Z.ltb_spec MaxTokenTTL t); [done|]. intros [= <-]. lia.
Qed.

Lemma Tokens_Create_ok t s s' :
  Tokens_Create t s = Ok (s', ()) ↔
  kind_ok (tKind t) = true ∧ (∀ u, u ∈ tokens s → token_clash t u = false) ∧
  user_exists (tOwnerID t) s = true ∧ user_exists (tCreatedBy t) s = true ∧ s' = with_tokens (tokens s ++ [fresh_token t]) s.
Proof.
  unfold Tokens_Create. destruct (kind_ok (tKind t)); [|split; [done|by intros [? _]]]. cbn [negb].
  destruct (existsb (token_clash t) (tokens s)) eqn:E.
  { split; [done|]. intros (_ & H & _). apply existsb_true_iff in E as (u & Hu & Hc). by rewrite H in Hc. }
  rewrite existsb_false_iff in E. destruct (user_exists (tOwnerID t) s) eqn:E1, (user_exists (tCreatedBy t) s) eqn:E2; cbn [andb negb]; naive_solver.
Qed.

Lemma store_ok_new_token t s :
  store_ok s → (∀ u, u ∈ tokens s → token_clash t u = false) → store_ok (with_tokens (tokens s ++ [fresh_token t]) s).
Proof.
  intros [] Hc. split; try done; simpl.
  - apply (fresh_snoc tID (fresh_token t)); [done|]. intros u Hu. specialize (Hc u Hu). unfold token_clash in Hc.
    apply orb_false_iff in Hc as [Hc _]. by apply eqs_false in Hc.
  - apply (fresh_snoc tSecretHash (fresh_token t)); [done|]. intros u Hu. specialize (Hc u Hu). unfold token_clash in Hc.
    apply orb_false_iff in Hc as [_ Hc]. by apply eqs_false in Hc.
Qed.

Lemma Tokens_Issue_cases pol au by_ req d s s' r :
  Tokens_Issue pol au by_ req d s = (s', r) →
  match r with
  | Err _ => s' = s
  | Ok (tok, secret) => ∃ owner tags ttl,
      find_row (λ u, eqs (uName u) (trOwnerName req)) (users s) = Ok owner ∧
      token_checks pol by_ req owner = Ok (tags, ttl) ∧ tok = new_token by_ req owner tags ttl d ∧
      secret = TokenPrefix +:+ newSecret (dSecret d) ∧
      (∀ u, u ∈ tokens s → token_clash tok u = false) ∧
      tokens s' = tokens s ++ [tok] ∧ peers s' = peers s ∧ users s' = users s ∧ routes s' = routes s ∧ meta s' = meta s
  end.
Proof.
  unfold Tokens_Issue. destruct (owner ← _; _) as [[owner [tags ttl]]|e] eqn:Echk; [|by intros [= <- <-]].
  apply result_bind_ok in Echk as (owner' & Hq & Hc). apply result_bind_ok in Hc as ([tags' ttl'] & Hc & [= -> -> ->]).
  destruct (InTx _ s) as [s1 [u|x]] eqn:Htx; intros [= <- <-]; [|by apply InTx_err in Htx].
  apply InTx_ok, tx_bind_ok in Htx as (s2 & [] & Hcr%lift_ok & Ha). apply Tokens_Create_ok in Hcr as (_ & Hcl & _ & _ & ->).
  exists owner, tags, ttl. destruct u.
  assert (find_row (λ u, eqs (uName u) (trOwnerName req)) (users s) = Ok owner) as Hf.
  { unfold query_user, Users_GetByName, get in Hq. destruct (find_row _ _) as [o|[]]; by simplify_eq. }
  split_and!; try done; apply audit_record_ok in Ha as [-> | (l & n & ->)]; done.
Qed.

Lemma length_sextets_32 l : length l = 32%nat → length (sextets l) = 43%nat.
Proof. intros H. do 32 (destruct l as [|? l]; [discriminate H|]). destruct l; [reflexivity|discriminate H]. Qed.

Lemma secret_shape rnd : length rnd = 32%nat → token_shape (TokenPrefix +:+ newSecret rnd) = true.
Proof.
  intros H. unfold token_shape. rewrite chars_app, cut_prefix_app. cbn [andb].
  rewrite <- !length_chars, chars_app, length_app. unfold newSecret, raw_url_base64. rewrite chars_of_chars, length_fmap, length_sextets_32 by done.
  apply Nat.eqb_refl.
Qed.

(** Who may issue which token.  A refusal changes nothing.  An issued
    token belongs to a user and lives for at most thirty days; its tags are
    distinct labels; a member's token is the member's own, carries only tags
    the policy lets the member use and no name the policy selects, and is
    marked as not an admin's.  Only its hash is stored, one row is added, and
    the secret returned has the shape that [Enroll] asks for. *)
Theorem Tokens_Issue_correct (pol : Policies) (au : bool) (by_ : Principal) (req : TokenRequest) (d : Draw) (s : Store) :
  match Tokens_Issue pol au by_ req d s with
  | (s', Err _) => s' = s
  | (s', Ok (tok, secret)) =>
      (∃ owner, owner ∈ users s ∧ uName owner = trOwnerName req ∧ tOwnerID tok = uID owner) ∧
      (dNow d < tExpiresAt tok <= dNow d + MaxTokenTTL ∧ tUsedAt tok = None ∧ kind_ok (tKind tok) = true) ∧
      (NoDup (tTags tok) ∧ ∀ t, t ∈ tTags tok → ∃ label, t = "tag:" +:+ label ∧ validLabel label = true) ∧
      (tPeerName tok = "" ∨ validPeerName (tPeerName tok) = true) ∧
      (tIssuedByAdmin tok = IsAdmin by_) ∧
      (IsAdmin by_ = false →
         tOwnerID tok = prUserID by_ ∧ (tPeerName tok = "" ∨ selected pol (tPeerName tok) = false) ∧
         ∃ f, (tTags tok ≠ [] → tagAllowed pol = Some f) ∧ ∀ t, t ∈ tTags tok → f (prName by_) t = true) ∧
      (tSecretHash tok = hashSecret secret ∧ (length (dSecret d) = 32%nat → token_shape secret = true)) ∧
      (tokens s' = tokens s ++ [tok] ∧ peers s' = peers s ∧ users s' = users s ∧ gen_of s' = gen_of s)
  end.
Proof.
  destruct (Tokens_Issue pol au by_ req d s) as [s' r] eqn:E. apply Tokens_Issue_cases in E.
  destruct r as [[tok secret]|x]; [|done].
  destruct E as (owner & tags & ttl & Hf & Hc & -> & -> & Hcl & Ht & Hp & Hu & _ & Hm).
  apply find_row_ok in Hf as [Hin Hname%eqs_true].
  apply token_checks_ok in Hc as (H1 & H2 & H3 & H4 & H5 & H6). apply token_ttl_ok in H6.
  apply normalize_loop_ok in H3 as [Hnd Htags].
  cbn [new_token tOwnerID tExpiresAt tUsedAt tKind tTags tPeerName tIssuedByAdmin tSecretHash]. split_and!; try done; try lia.
  - by exists owner.
  - intros t (_ & label & ? & ? & _)%Htags. eauto.
  - naive_solver.
  - intros Hadm. rewrite Hadm in *. split_and!; [naive_solver|naive_solver|].
    destruct H4 as [|H4]; [done|]. unfold tags_granted in H4. rewrite forallb_forall in H4.
    destruct (tagAllowed pol) as [f|].
    + exists f. split; [done|]. intros t Ht'. apply H4. by apply list_elem_of_In.
    + exists (λ _ _, false). destruct tags as [|t tags]; [split; [done|by intros t ?%elem_of_nil]|].
      specialize (H4 t). by discriminate H4; left.
  - apply secret_shape.
  - unfold gen_of. by rewrite Hm.
Qed.

Lemma enroll_tx_some KeyString e pol req d pub s tok ip name :
  store_ok s → tok ∈ tokens s → tSecretHash tok = hashSecret (eToken req) → token_usable (dNow d) tok = true →
  kind_ok (tKind tok) = true → (tOwnerID tok = "" ∨ user_exists (tOwnerID tok) s = true) →
  next_ip (overlay e) s = Ok ip → uniqueName (pName <$> peers s) (base_name req tok) (reserved pol tok) = Some name →
  (∀ q, q ∈ peers s → peer_clash (new_peer KeyString e req tok d pub ip name) q = false) →
  ∃ s' res, enroll_tx KeyString e pol req d pub s = Ok (s', res) ∧ resPeer res = new_peer KeyString e req tok d pub ip name.
Proof.
  intros Hok Htok Hh Hu Hk Ho Hip Hn Hnew. set (peer := new_peer KeyString e req tok d pub ip name) in *.
  assert (find_row (λ t, eqs (tSecretHash t) (hashSecret (eToken req))) (tokens s) = Ok tok) as Hfind.
  { destruct (find_row _ _) as [t|x] eqn:E.
    - apply find_row_ok in E as [Ht Hht%eqs_true]. f_equal. eapply (key_unique tSecretHash); [apply Hok|done|done|congruence].
    - apply find_row_err in E as [_ E]. specialize (E tok Htok). by apply eqs_false in E. }
  unfold enroll_tx. unfold mbind at 1, tx_bind at 1. unfold lift at 1, Tokens_GetByHash, get. rewrite Hfind.
  rewrite Hu. cbn [negb]. unfold mbind at 1, tx_bind at 1. unfold query at 1. rewrite Hip.
  unfold mbind at 1, tx_bind at 1. unfold query at 1. rewrite Hn. fold peer.
  unfold mbind at 1, tx_bind at 1. unfold lift at 1.
  assert (Peers_Create peer s = Ok (with_peers (peers s ++ [peer]) s, ())) as ->
    by (by apply Peers_Create_ok).
  set (s1 := with_peers (peers s ++ [peer]) s).
  assert (store_ok s1) as Hok1 by by apply store_ok_new_peer.
  unfold mbind at 1, tx_bind at 1. unfold lift at 1. unfold Tokens_MarkUsed at 1.
  assert (existsb (unused_id (tID tok)) (tokens s1) = true) as ->.
  { apply existsb_true_iff. exists tok. split; [done|]. apply (unused_id_spec s); try done. split; [done|].
    unfold token_usable in Hu. by destruct (tUsedAt tok). }
  assert (peer_exists (pID peer) s1 = true) as ->.
  { apply existsb_true_iff. exists peer. split; [apply elem_of_app; right; left|by apply eqs_true]. }
  cbn [negb]. set (s2 := with_tokens _ s1).
  assert (store_ok s2) as Hok2 by (apply (store_ok_tokens (λ t, if unused_id (tID tok) t then _ else t)); [intros t; by destruct (unused_id _ _)|done]).
  unfold mbind at 1, tx_bind at 1. unfold lift at 1. destruct (IncrementGeneration_some s2 Hok2) as [[s3 gen] ->].
  unfold mbind at 1, tx_bind at 1.
  destruct (audit_record_some (audit e) (dAuditNow d) (PeerPrincipal (pName peer)) AuditPeerEnrol (pID peer)
    (enrol_details peer tok pub req) s3) as [s4 ->]; [done|].
  by do 2 eexists.
Qed.

(** An issued token works.  As long as its row is still there, a device
    that shows the secret in time, with a key that parses, an accepted version,
    hostname and name, is enrolled under the address and name picked for it,
    provided these, its id and its key clash with no peer. *)
Theorem issued_token_enrolls (ParseKey : string → option (list byte)) (KeyString : list byte → string) (e : Enroller)
    (pol pol' : Policies) (by_ : Principal) (treq : TokenRequest) (td : Draw) (s0 s1 s : Store) (tok : Token) (secret : string)
    (req : EnrollRequest) (d : Draw) (lnow : Z) (lim : gmap string (list Z)) (pub : list byte) (ip : addr) (name : string) :
  Tokens_Issue pol (audit e) by_ treq td s0 = (s1, Ok (tok, secret)) →
  length (dSecret td) = 32%nat →
  store_ok s → tok ∈ tokens s → user_exists (tOwnerID tok) s = true →
  eToken req = secret → dNow d < tExpiresAt tok →
  (eRemoteIP req = "" ∨ (rate_allow enrollWindow enrollMax lnow (eRemoteIP req) lim).2 = true) →
  checkVersion (eClientVersion req) (minVersion e) = true → ParseKey (ePublicKey req) = Some pub →
  (String.length (eHostname req) <= 63)%nat → (eName req = "" ∨ validPeerName (eName req) = true) →
  next_ip (overlay e) s = Ok ip →
  uniqueName (pName <$> peers s) (base_name req tok) (reserved pol' tok) = Some name →
  (∀ q, q ∈ peers s → peer_clash (new_peer KeyString e req tok d pub ip name) q = false) →
  ∃ lim' s' res, Enroll ParseKey KeyString e pol' lnow req d lim s = (lim', s', Ok res) ∧
    resPeer res = new_peer KeyString e req tok d pub ip name.
Proof.
  intros Hissue Hlen Hok Htok Hown Hsec Hexp Hlim Hver Hkey Hhost Hname Hip Hn Hnew.
  apply Tokens_Issue_cases in Hissue as (owner & tags & ttl & _ & Hc & -> & -> & _).
  apply token_checks_ok in Hc as (_ & Hk & _).
  unfold Enroll. destruct (if eqs (eRemoteIP req) "" then _ else _) as [lim1 ok] eqn:El.
  assert (ok = true) as ->.
  { destruct (eqs (eRemoteIP req) "") eqn:E; [by simplify_eq|]. apply eqs_false in E. destruct Hlim as [|Hl]; [done|]. by rewrite El in Hl. }
  cbn [negb]. rewrite (proj2 (enroll_checks_ok ParseKey e req pub)).
  2:{ split_and!; try done. rewrite Hsec. by apply secret_shape. }
  destruct (enroll_tx_some KeyString e pol' req d pub s _ ip name Hok Htok) as (s' & res & Htx & Hres);
    try done; [by rewrite Hsec|unfold token_usable; by apply Z.ltb_lt|by right|].
  exists lim1, s', res. unfold InTx. by rewrite Htx.
Qed.

(** ** A small run *)

Definition demo_parse (s : string) : option (list byte) := if eqs s "" then None else Some (string_bytes s).
Definition demo_key (b : list byte) : string := String.string_of_list_byte b.
Definition demo_user : User :=
  {| uID := "u1"; uName := "ada"; uRole := RoleAdmin; uPasswordHash := ""; uDisabled := false; uCreatedAt := 0 |}.
Definition demo_pol : Policies := {| tagAllowed := None; peerRefs := Some (λ n, if eqs n "db" then ["acls[0]"] else []) |}.
Definition demo_enroller : Enroller := NewEnroller (Prefix (Addr4 1681915904) 10) (Prefix (Addr6 (253 * 2 ^ 120) "") 64) "0.9" true.
Definition demo_draw (n : Z) : Draw :=
  {| dNow := n * second; dAuditNow := n * second; dID := replicate 16 (zb n); dSecret := replicate 32 (zb n) |}.
Definition demo_treq : TokenRequest := {| trOwnerName := "ada"; trKind := "server"; trTags := ["tag:prod"]; trPeerName := ""; trTTL := 0 |}.
Definition demo_start : Store := with_users [demo_user] emptyStore.
Definition demo_secret : string := TokenPrefix +:+ newSecret (replicate 32 (zb 1)).
Definition demo_req (key : string) : EnrollRequest :=
  {| eToken := demo_secret; ePublicKey := key; eHostname := "Db"; eOS := "linux"; eArch := "amd64"; eClientVersion := "0.9.1";
     eName := ""; eRemoteIP := "192.0.2.1"; eIPv6 := true |}.
Definition demo_s1 : Store := (Tokens_Issue demo_pol true LocalAdmin demo_treq (demo_draw 1) demo_start).1.
Definition demo_enroll : gmap string (list Z) * Store * result cerror EnrollResult :=
  Enroll demo_parse demo_key demo_enroller demo_pol (2 * second) (demo_req "key-one") (demo_draw 2) ∅ demo_s1.

(** The name db is kept for admins' tokens issued for it. *)
Example demo_enrolled :
  match demo_enroll with
  | (_, _, Ok res) => (pName (resPeer res), pIPv4 (resPeer res), pIPv6 (resPeer res)) = ("db-2", "100.64.0.2", "fd00::6440:2")
  | _ => False
  end.
Proof. vm_compute. reflexivity. Qed.

Lemma demo_start_ok : store_ok demo_start.
Proof. apply emptyStore_ok. Qed.

Lemma demo_s1_ok : store_ok demo_s1.
Proof.
  unfold demo_s1. destruct (Tokens_Issue demo_pol true LocalAdmin demo_treq (demo_draw 1) demo_start) as [s r] eqn:E.
  cbn [fst]. apply Tokens_Issue_cases in E.
  destruct r as [[tok secret]|x]; [|rewrite E; exact demo_start_ok].
  destruct E as (owner & tags & ttl & _ & _ & Htok & _ & Hcl & Ht & Hp & _ & _ & Hm).
  destruct (store_ok_new_token tok demo_start demo_start_ok Hcl).
  assert (fresh_token tok = tok) as Hfr by (by rewrite Htok). rewrite Hfr in *. split; rewrite ?Hp, ?Ht, ?Hm; done.
Qed.

Lemma Enroll_correct_witness :
  store_ok demo_s1 ∧ match demo_enroll with (_, s', Ok res) => peers s' = peers demo_s1 ++ [resPeer res] | _ => False end.
Proof.
  split; [exact demo_s1_ok|].
  pose proof (Enroll_correct demo_parse demo_key demo_enroller demo_pol (2 * second) (demo_req "key-one") (demo_draw 2)
    ∅ demo_s1 demo_s1_ok) as H.
  pose proof demo_enrolled as Hd. unfold demo_enroll in *.
  destruct (Enroll _ _ _ _ _ _ _ _ _) as [[lim s'] [res|x]]; [|exact Hd].
  destruct H as (tok & pub & _ & _ & _ & _ & _ & _ & Hp & _). exact Hp.
Defined.

Lemma issued_token_enrolls_witness :
  ∃ lim' s' res, Enroll demo_parse demo_key demo_enroller demo_pol (2 * second) (demo_req "key-one") (demo_draw 2) ∅ demo_s1
    = (lim', s', Ok res) ∧ pName (resPeer res) = "db-2".
Proof.
  set (tok := new_token LocalAdmin demo_treq demo_user ["tag:prod"] DefaultTokenTTL (demo_draw 1)).
  destruct (issued_token_enrolls demo_parse demo_key demo_enroller demo_pol demo_pol LocalAdmin demo_treq (demo_draw 1)
    demo_start demo_s1 demo_s1 tok demo_secret (demo_req "key-one") (demo_draw 2) (2 * second) ∅
    (string_bytes "key-one") (Addr4 1681915906) "db-2") as (lim' & s' & res & H & Hp).
  - vm_compute. reflexivity.
  - reflexivity.
  - exact demo_s1_ok.
  - vm_compute. left.
  - vm_compute. reflexivity.
  - reflexivity.
  - vm_compute. reflexivity.
  - right. vm_compute. reflexivity.
  - vm_compute. reflexivity.
  - reflexivity.
  - vm_compute. lia.
  - left. reflexivity.
  - vm_compute. reflexivity.
  - vm_compute. reflexivity.
  - intros q Hq. vm_compute in Hq. apply elem_of_nil in Hq. destruct Hq.
  - exists lim', s', res. split; [exact H|]. rewrite Hp. reflexivity.
Defined.
