(* ===== verification/Users.v ===== *)
(** Local accounts: [internal/control/users.go].

    Argon2id is a parameter ([IDKey]; [None] where it panics). Salts, ids and
    the clocks' readings are inputs. *)

From Stdlib Require Import Strings.Ascii.
From S2P Require Import Prelude GoStrings Base64 Store Effects Tables Selector Limiter Enroll.

Definition argonTime : Z := 3.
Definition argonMemory : Z := 64 * 1024.
Definition argonThreads : Z := 4.
Definition argonKeyLen : Z := 32.
Definition argonSaltLen : nat := 16.
Definition minPasswordLen : Z := 8.
Definition maxPasswordLen : Z := 256.
Definition loginWindow : Z := 15 * 60 * second.
Definition loginThreshold : Z := 10.
Definition loginMaxDelay : Z := 15 * 60 * second.

Definition AuditUserCreate : string := "user.create".
Definition AuditLoginOK : string := "login.ok".
Definition AuditLoginFailed : string := "login.failed".
Definition RoleAnonymous : string := "anonymous".

(** [anonymousPrincipal]. *)
Definition anonymousPrincipal (name : string) : Principal :=
  {| prUserID := ""; prName := name; prRole := RoleAnonymous; prLocal := false |}.

(** ** [RawStdEncoding] *)

Definition raw_std_base64 (l : list byte) : string := of_chars (letter std_alphabet <$> sextets l).

(** The padding [StdEncoding] would have is not allowed here, and nothing
    else differs. *)
Definition raw_std_decode (s : string) : option (list byte) :=
  let l := filter (λ c, is_newline c = false) (chars s) in
  if bool_decide ("="%char ∈ l) then None
  else
    match (length l mod 4)%nat with
    | 0%nat => decode_groups l
    | 2%nat => decode_groups (l ++ ["="%char; "="%char])
    | 3%nat => decode_groups (l ++ ["="%char])
    | _ => None
    end.

(** ** [fmt.Sscanf] on the parameters *)

(** [SkipSpace]: a line break is an error. *)
Fixpoint skip_space (fuel : nat) (l : bytes) : option bytes :=
  match l with
  | c :: _ =>
      if bool_decide (c = ascii_of_N 10) then None
      else match fuel, strip_one spaces l with
           | S k, Some r => skip_space k r
           | _, _ => Some l
           end
  | [] => Some []
  end.

(** The longest run of digits, and the rest. *)
Fixpoint digits (l : bytes) : bytes * bytes :=
  match l with
  | c :: r => if is_digit c then let '(d, r) := digits r in (c :: d, r) else ([], l)
  | [] => ([], [])
  end.

(** [%d] into an unsigned integer of [bits] bits. *)
Definition scan_uint (bits : Z) (l : bytes) : option (Z * bytes) :=
  l ← skip_space (length l) l;
  let '(d, r) := digits l in
  n ← parse_uint 64 d;
  if n <? 2 ^ bits then Some (n, r) else None.

(** [Sscanf(s, "m=%d,t=%d,p=%d", ...)]; what follows is not looked at. *)
Definition scan_params (s : bytes) : option (Z * Z * Z) :=
  r ← cut_prefix (chars "m=") s; '(m, r) ← scan_uint 32 r;
  r ← cut_prefix (chars ",t=") r; '(t, r) ← scan_uint 32 r;
  r ← cut_prefix (chars ",p=") r; '(p, _) ← scan_uint 8 r;
  Some (m, t, p).

(** ** Passwords *)

Inductive hash_error := ErrHashFormat | ErrHashParams | ErrHashSalt | ErrHashKey | ErrHashLength | HashPanic.

Section Passwords.
Context (IDKey : list byte → list byte → Z → Z → Z → Z → option (list byte)).

(** [hashPassword] from the salt drawn. *)
Definition hashPassword (password : string) (salt : list byte) : option string :=
  key ← IDKey (string_bytes password) salt argonTime argonMemory argonThreads argonKeyLen;
  Some ("$argon2id$v=19$m=" +:+ itoa argonMemory +:+ ",t=" +:+ itoa argonTime +:+ ",p=" +:+ itoa argonThreads +:+ "$"
        +:+ raw_std_base64 salt +:+ "$" +:+ raw_std_base64 key).

Definition verifyPassword (phc password : string) : result hash_error bool :=
  match split "$" (chars phc) with
  | [_; alg; _; params; s; h] =>
      if negb (bool_decide (alg = chars "argon2id")) then Err ErrHashFormat
      else
        '(memory, iterations, threads) ← of_option ErrHashParams (scan_params params);
        salt ← of_option ErrHashSalt (raw_std_decode (of_chars s));
        want ← of_option ErrHashKey (raw_std_decode (of_chars h));
        if negb (Z.of_nat (length want) =? argonKeyLen) then Err ErrHashLength
        else
          got ← of_option HashPanic (IDKey (string_bytes password) salt iterations memory threads argonKeyLen);
          Ok (bool_decide (got = want))
  | _ => Err ErrHashFormat
  end.

(** ** Accounts *)

(** [Users]: what changes. *)
Record Users := { usLimit : gmap string limitEntry; usFailures : Z }.

(** The checks before the id is drawn. *)
Definition user_checks (name role password : string) : result cerror unit :=
  if negb (labelRe name) then Err ErrValidation
  else if negb (eqs role RoleAdmin) && negb (eqs role RoleMember) then Err ErrValidation
  else let n := Z.of_nat (String.length password) in
  if (n <? minPasswordLen) || (maxPasswordLen <? n) then Err ErrValidation else Ok ().

Definition new_user (name role hash : string) (rnd : list byte) (now : Z) : User :=
  {| uID := newID rnd; uName := name; uRole := role; uPasswordHash := hash; uDisabled := false; uCreatedAt := now |}.

Definition user_tx (on : bool) (by_ : Principal) (u : User) (anow : Z) : tx cerror unit :=
  lift ErrStore (Users_Create u) ;;
  audit_record on anow by_ AuditUserCreate (uID u) [("name", uName u); ("role", uRole u)].

(** [Users.Create]. *)
Definition CreateUser (on : bool) (by_ : Principal) (name role password : string) (salt rnd : list byte) (now anow : Z) (s : Store) :
    Store * result cerror User :=
  match user_checks name role password with
  | Err e => (s, Err e)
  | Ok _ =>
      match hashPassword password salt with
      | None => (s, Err ErrInternal)
      | Some hash =>
          let u := new_user name role hash rnd now in
          match InTx (user_tx on by_ u anow) s with (s', Ok _) => (s', Ok u) | (s', Err e) => (s', Err e) end
      end
  end.

Definition login_principal (u : User) : Principal :=
  {| prUserID := uID u; prName := uName u; prRole := uRole u; prLocal := false |}.

(** [Users.Authenticate]: [now] is read by the limiter, [fnow] when a failure is
    noted, [anow] by the auditor. *)
Definition Authenticate (on : bool) (dummyHash name password : string) (now fnow anow : Z) (u : Users) (s : Store) :
    Users * Store * result cerror User :=
  let '(lim, ok) := allow loginWindow loginThreshold loginMaxDelay now name (usLimit u) in
  let u := {| usLimit := lim; usFailures := usFailures u |} in
  if negb ok then (u, s, Err ErrRateLimited)
  else
    match (match Users_GetByName name s with
           | Ok (_, user) => Ok (if uDisabled user then None else Some user)
           | Err ErrNotFound => Ok None
           | Err e => Err (ErrStore e)
           end) with
    | Err e => (u, s, Err e)
    | Ok found =>
        let hash := match found with Some user => uPasswordHash user | None => dummyHash end in
        match verifyPassword hash password, found with
        | Err _, _ => (u, s, Err ErrInternal)
        | Ok true, Some user =>
            let u := {| usLimit := reset name (usLimit u); usFailures := usFailures u |} in
            match InTx (audit_record on anow (login_principal user) AuditLoginOK name []) s with
            | (s', Ok _) => (u, s', Ok user)
            | (s', Err e) => (u, s', Err e)
            end
        | _, _ =>
            let u := {| usLimit := fail loginWindow fnow name (usLimit u); usFailures := u64 (usFailures u + 1) |} in
            let '(s', _) := InTx (audit_record on anow (anonymousPrincipal name) AuditLoginFailed name []) s in
            (u, s', Err ErrForbidden)
        end
    end.
End Passwords.

(** [Users.Get]. *)
Definition GetUser (id : string) (s : Store) : result cerror User :=
  match Users_GetByID id s with Ok (_, u) => Ok u | Err ErrNotFound => Err ErrMissing | Err e => Err (ErrStore e) end.

Definition demo_kdf (pw salt : list byte) (t m p len : Z) : option (list byte) :=
  if (t <? 1) || (p <? 1) then None else Some (take (Z.to_nat len) (pw ++ salt ++ replicate (Z.to_nat len) Byte.x00)).

Example password_demo :
  hashPassword demo_kdf "correct horse" (replicate 16 Byte.x07)
    = Some "$argon2id$v=19$m=65536,t=3,p=4$BwcHBwcHBwcHBwcHBwcHBw$Y29ycmVjdCBob3JzZQcHBwcHBwcHBwcHBwcHBwcAAAA" ∧
  verifyPassword demo_kdf "$argon2id$v=19$m=65536,t=3,p=4$BwcHBwcHBwcHBwcHBwcHBw$Y29ycmVjdCBob3JzZQcHBwcHBwcHBwcHBwcHBwcAAAA" "correct horse" = Ok true ∧
  verifyPassword demo_kdf "$argon2id$v=19$m=65536,t=3,p=4$BwcHBwcHBwcHBwcHBwcHBw$Y29ycmVjdCBob3JzZQcHBwcHBwcHBwcHBwcHBwcAAAA" "wrong horse" = Ok false ∧
  verifyPassword demo_kdf "$argon2id$v=19$m=65536,t=0,p=4$BwcHBwcHBwcHBwcHBwcHBw$Y29ycmVjdCBob3JzZQcHBwcHBwcHBwcHBwcHBwcAAAA" "x" = Err HashPanic.
Proof. vm_compute. done. Qed.

(** ** Lemmas *)

Lemma letters_plain l c : c ∈ letter std_alphabet <$> sextets l → is_newline c = false ∧ c ≠ "="%char.
Proof.
  intros (z & -> & Hz)%list_elem_of_fmap. pose proof (sextets_range l) as Hr. rewrite Forall_forall in Hr.
  by destruct (letter_spec z (Hr z Hz)) as (_ & ? & ?).
Qed.

Lemma letters_no_dollar l : "$"%char ∉ letter std_alphabet <$> sextets l.
Proof.
  intros (z & Heq & Hz)%list_elem_of_fmap. pose proof (sextets_range l) as Hr. rewrite Forall_forall in Hr.
  destruct (letter_spec z (Hr z Hz)) as (Hs & _). by rewrite <- Heq in Hs.
Qed.

Lemma length_sextets l : (length (sextets l) mod 4 = match length l mod 3 with 1 => 2 | 2 => 3 | _ => 0 end)%nat.
Proof.
  induction l as [l IH] using (induction_ltof1 _ (@length _)). unfold ltof in IH.
  destruct l as [|a [|b [|c r]]]; cbn [sextets length]; [done..|].
  change (S (S (S (S (length (sextets r)))))) with (4 + length (sextets r))%nat.
  change (S (S (S (length r)))) with (3 + length r)%nat.
  rewrite <- (Nat.mul_1_l 4) at 1. rewrite Nat.add_comm, Nat.Div0.mod_add.
  rewrite <- (Nat.mul_1_l 3) at 2. rewrite (Nat.add_comm (1 * 3)), Nat.Div0.mod_add. apply IH. simpl. lia.
Qed.

(** Decoding undoes encoding. *)
Lemma raw_std_decode_encode l : raw_std_decode (raw_std_base64 l) = Some l.
Proof.
  unfold raw_std_decode, raw_std_base64. rewrite chars_of_chars.
  rewrite filter_all by (intros c Hc; by apply letters_plain in Hc as [? _]).
  rewrite bool_decide_eq_false_2 by (intros Hc; by apply letters_plain in Hc as [_ ?]).
  rewrite length_fmap, length_sextets. pose proof (decode_sextets l) as H. unfold padding in H.
  destruct (length l mod 3)%nat as [|[|[|]]] eqn:E; rewrite ?app_nil_r in H; try exact H.
Qed.

Lemma split_parts (a b c d : bytes) rest :
  "$"%char ∉ a → "$"%char ∉ b → "$"%char ∉ c → "$"%char ∉ d →
  split "$" ("$"%char :: a ++ "$"%char :: b ++ "$"%char :: c ++ "$"%char :: d ++ "$"%char :: rest)
    = [] :: a :: b :: c :: d :: split "$" rest.
Proof. intros Ha Hb Hc Hd. change (split "$" ("$"%char :: ?l)) with ([] :: split "$" l). by rewrite !split_app. Qed.

Lemma params_text : chars ("m=" +:+ itoa argonMemory +:+ ",t=" +:+ itoa argonTime +:+ ",p=" +:+ itoa argonThreads) = chars "m=65536,t=3,p=4".
Proof. reflexivity. Qed.

(** A hash that was stored is read back as it was written. *)
Lemma verify_hash IDKey salt pw pw' key h :
  IDKey (string_bytes pw) salt argonTime argonMemory argonThreads argonKeyLen = Some key →
  Z.of_nat (length key) = argonKeyLen → hashPassword IDKey pw salt = Some h →
  verifyPassword IDKey h pw' =
    match IDKey (string_bytes pw') salt argonTime argonMemory argonThreads argonKeyLen with
    | Some got => Ok (bool_decide (got = key)) | None => Err HashPanic end.
Proof.
  intros Hk Hl. unfold hashPassword. rewrite Hk. cbn [mbind option_bind]. intros Hh. unfold verifyPassword.
  apply (inj Some) in Hh. rewrite <- Hh. clear Hh.
  assert (chars ("$argon2id$v=19$m=" +:+ itoa argonMemory +:+ ",t=" +:+ itoa argonTime +:+ ",p=" +:+ itoa argonThreads +:+ "$"
        +:+ raw_std_base64 salt +:+ "$" +:+ raw_std_base64 key) =
    "$"%char :: chars "argon2id" ++ "$"%char :: chars "v=19" ++ "$"%char :: chars "m=65536,t=3,p=4" ++ "$"%char ::
      (letter std_alphabet <$> sextets salt) ++ "$"%char :: (letter std_alphabet <$> sextets key)) as ->.
  { unfold raw_std_base64. rewrite !chars_app, !chars_of_chars. reflexivity. }
  rewrite split_parts; [|not_in|not_in|not_in|apply letters_no_dollar].
  rewrite split_none by apply letters_no_dollar. rewrite bool_decide_eq_true_2 by done. cbn [negb].
  change (scan_params (chars "m=65536,t=3,p=4")) with (Some (argonMemory, argonTime, argonThreads)).
  fold (raw_std_base64 salt) (raw_std_base64 key). rewrite !raw_std_decode_encode. cbn [of_option mbind result_bind].
  rewrite Hl, Z.eqb_refl. cbn [negb]. destruct (IDKey (string_bytes pw') _ _ _ _ _); reflexivity.
Qed.

(** An entry with an action is always written. *)
Lemma audit_total on now by_ act tgt det s :
  act ≠ "" → ∃ s', InTx (audit_record on now by_ act tgt det) s = (s', Ok ()) ∧ ∀ t, t ≠ TAudit → same t s s'.
Proof.
  intros Hact. unfold audit_record. destruct on; [|exists s; split; [done|]; intros; apply same_refl].
  unfold InTx, lift, Audit_Append. cbn [aAction aActor]. rewrite (proj2 (eqs_false act "") Hact). cbn [orb].
  set (actor := if prLocal by_ then prName LocalAdmin else prName by_).
  assert (eqs (if eqs actor "" then "unknown" else actor) "" = false) as -> by (destruct (eqs actor "") eqn:E; [done|exact E]).
  eexists. split; [reflexivity|]. by intros [].
Qed.

(** The account a login finds. *)
Definition account (name : string) (s : Store) (u : User) : Prop := u ∈ users s ∧ uName u = name ∧ uDisabled u = false.

Lemma GetByName_account name s u : NoDup (uName <$> users s) → account name s u → Users_GetByName name s = Ok (s, u).
Proof.
  intros Hnd (Hin & Hn & _). unfold Users_GetByName, get. destruct (find_row _ _) as [v|e] eqn:E.
  - apply find_row_ok in E as [Hv Hvn]. apply eqs_true in Hvn. do 2 f_equal. eapply (key_unique uName); [done|done|done|congruence].
  - apply find_row_err in E as [_ E]. specialize (E u Hin). by rewrite (proj2 (eqs_true _ _) Hn) in E.
Qed.

(** Accounts can be logged in to, with their password only.  After an
    account was created, at any time its row is still there, an attempt the
    limiter lets through succeeds exactly if the password derives the same key
    under the account's salt; a failure is counted and noted against the name,
    and an attempt that is held back leaves everything but the limiter's pruning
    as it was.  Nothing but the audit log is written. *)
Theorem accounts_log_in (IDKey : list byte → list byte → Z → Z → Z → Z → option (list byte))
    (on : bool) (by_ : Principal) (name role pw pw' : string) (salt rnd : list byte) (now0 anow0 : Z) (s0 s1 s : Store) (u : User)
    (dummyHash : string) (now fnow anow : Z) (us : Users) :
  (∀ p q t m n l, 1 <= t → 1 <= n → 0 <= l → ∃ key, IDKey p q t m n l = Some key ∧ Z.of_nat (length key) = l) →
  CreateUser IDKey on by_ name role pw salt rnd now0 anow0 s0 = (s1, Ok u) →
  NoDup (uName <$> users s) → u ∈ users s →
  users s1 = users s0 ++ [u] ∧ labelRe name = true ∧ 8 <= Z.of_nat (String.length pw) <= 256 ∧
  let '(us', s', r) := Authenticate IDKey on dummyHash name pw' now fnow anow us s in
  let derive p := IDKey (string_bytes p) salt argonTime argonMemory argonThreads argonKeyLen in
  let '(lim, allowed) := allow loginWindow loginThreshold loginMaxDelay now name (usLimit us) in
  (∀ t, t ≠ TAudit → same t s s') ∧
  if negb allowed then r = Err ErrRateLimited ∧ s' = s ∧ us' = {| usLimit := lim; usFailures := usFailures us |}
  else if bool_decide (derive pw' = derive pw)
  then r = Ok u ∧ us' = {| usLimit := delete name lim; usFailures := usFailures us |}
  else r = Err ErrForbidden ∧ us' = {| usLimit := fail loginWindow fnow name lim; usFailures := u64 (usFailures us + 1) |}.
Proof.
  intros Hkdf Hc Hnd Hin. unfold CreateUser in Hc. destruct (user_checks name role pw) as [[]|e] eqn:Hch; [|done].
  destruct (hashPassword IDKey pw salt) as [h|] eqn:Hh; [|done].
  unfold InTx in Hc. destruct (user_tx _ _ _ _ s0) as [[s1' []]|e] eqn:Htx; [|done]. injection Hc as -> Hu.
  unfold user_checks in Hch. destruct (labelRe name) eqn:Hlab; [|done]. destruct (_ && _); [done|].
  destruct (_ || _) eqn:Hlen; [done|]. apply orb_false_iff in Hlen as [H1 H2]. apply Z.ltb_ge in H1, H2.
  unfold minPasswordLen, maxPasswordLen in *.
  apply tx_bind_ok in Htx as (s2 & [] & Hcr%lift_ok & Hau).
  assert (users s1 = users s0 ++ [u]) as Husers.
  { assert (touches [TAudit] (audit_record on anow0 by_ AuditUserCreate (uID (new_user name role h rnd now0))
      [("name", uName (new_user name role h rnd now0)); ("role", uRole (new_user name role h rnd now0))])) as Ht.
    { unfold audit_record. destruct on; [apply touches_lift, touches_Append|apply touches_ret]. }
    pose proof (Ht _ _ _ Hau TUsers ltac:(not_in)) as Hs. cbn [same] in Hs. rewrite Hs.
    revert Hcr. unfold Users_Create. repeat case_match; intros [= <-]; cbn [with_users users]; by rewrite Hu. }
  split; [done|]. split; [done|]. split; [lia|].
  destruct (Hkdf (string_bytes pw) salt argonTime argonMemory argonThreads argonKeyLen) as (key & Hkey & Hkl); [done..|].
  destruct (Hkdf (string_bytes pw') salt argonTime argonMemory argonThreads argonKeyLen) as (key' & Hkey' & _); [done..|].
  pose proof (verify_hash IDKey salt pw pw' key h Hkey Hkl Hh) as Hv. rewrite Hkey' in Hv.
  unfold Authenticate. destruct (allow _ _ _ _ _ _) as [lim ok] eqn:Hal. cbn [usLimit usFailures].
  destruct ok; cbn [negb]; [|split; [intros; apply same_refl|done]].
  rewrite (GetByName_account name s u Hnd) by (split; [done|by rewrite <- Hu]). assert (uDisabled u = false) as -> by (by rewrite <- Hu). assert (uPasswordHash u = h) as -> by (by rewrite <- Hu).
  rewrite Hv, Hkey, Hkey'. destruct (decide (key' = key)) as [->|Hne].
  - rewrite !bool_decide_eq_true_2 by done. edestruct audit_total as (s' & -> & Hs); [done|]. split; [done|]. by rewrite <- Hu.
  - rewrite !bool_decide_eq_false_2 by congruence. edestruct audit_total as (s' & -> & Hs); [done|]. done.
Qed.

Definition demo_account : Store * result cerror User :=
  CreateUser demo_kdf true LocalAdmin "ada" RoleAdmin "correct horse" (replicate 16 Byte.x07) (replicate 16 Byte.x01) 5 6 emptyStore.
Definition demo_ada : User := default (new_user "" "" "" [] 0) (head (users demo_account.1)).

Lemma accounts_log_in_witness :
  let us := {| usLimit := ∅; usFailures := 0 |} in
  (Authenticate demo_kdf true "" "ada" "correct horse" 7 8 9 us demo_account.1).2 = Ok demo_ada ∧
  (Authenticate demo_kdf true "" "ada" "wrong horse" 7 8 9 us demo_account.1).2 = Err ErrForbidden.
Proof.
  assert (∀ p q t m n l, 1 <= t → 1 <= n → 0 <= l → ∃ key, demo_kdf p q t m n l = Some key ∧ Z.of_nat (length key) = l) as Hk.
  { intros p q t m n l Ht Hn Hl. unfold demo_kdf.
    destruct (Z.ltb_spec t 1); [lia|]. destruct (Z.ltb_spec n 1); [lia|]. cbn [orb]. eexists. split; [reflexivity|].
    rewrite length_take, !length_app, length_replicate. lia. }
  pose proof (λ pw', accounts_log_in demo_kdf true LocalAdmin "ada" RoleAdmin "correct horse" pw' (replicate 16 Byte.x07)
      (replicate 16 Byte.x01) 5 6 emptyStore demo_account.1 demo_account.1 demo_ada "" 7 8 9 {| usLimit := ∅; usFailures := 0 |}
      Hk ltac:(vm_compute; reflexivity) ltac:(vm_compute; repeat constructor; intros ?%elem_of_nil; done) ltac:(vm_compute; left)) as H.
  split.
  - specialize (H "correct horse"). destruct H as (_ & _ & _ & H).
    destruct (Authenticate _ _ _ _ _ _ _ _ _ _) as [[us' s'] r]. destruct H as [_ [H _]]. exact H.
  - specialize (H "wrong horse"). destruct H as (_ & _ & _ & H).
    destruct (Authenticate _ _ _ _ _ _ _ _ _ _) as [[us' s'] r]. destruct H as [_ [H _]]. exact H.
Defined.
