(* ===== verification/LockService.v ===== *)
(** The network lock on the server: [internal/control/lock.go].

    Ed25519 ([Verify]), the WireGuard key types ([ParseKey]) and the text a
    signed record has in the metadata table ([encode], [decode]: its JSON) are
    parameters.  The clock's readings are inputs. *)

From Stdlib Require Import Strings.Ascii.
From S2P Require Import Prelude GoStrings Sha256 LockRecord Store Tables Enroll.

Definition MetaLockRecord : string := "lock_record".
Definition HubID : string := "hub".
Definition AuditLockSet : string := "lock.set".
Definition AuditPeerSign : string := "peer.sign".

(** [control.PeerSignature]: a signature as netmaps carry it. *)
Record NetSignature := { nsSigner : PublicKey; nsSignature : Signature }.

Record LockPeer := {
  lpID : string; lpName : string; lpKind : string; lpPublicKey : string; lpSigned : bool; lpLockKey : string;
}.

Record PeerSigning := { sgPeerID : string; sgPublicKey : string; sgSigner : PublicKey; sgSignature : Signature }.

(** A submitted signature, with what the clocks read when it is stored. *)
Record SigningAt := { saSigning : PeerSigning; saNow : Z; saAuditNow : Z }.

Definition bool_text (b : bool) : string := if b then "true" else "false".

(** [LockService]: the parts that do not change, and [reported]. *)
Record LockService := { lkHubKey : string; lkAudit : bool; lkReported : gmap string string }.

(** [IndexSignatures]: grouped by peer id and key; rows that do not parse are
    left out. *)
Definition net_signature (r : PeerSignature) : option NetSignature :=
  signer ← ParsePublicKey (gSignerKey r);
  sig ← ParseSignature (gSignature r);
  Some {| nsSigner := signer; nsSignature := sig |}.

(** Id and key joined by a NUL. *)
Definition sig_index (id key : string) : string := id +:+ String Ascii.zero key.

Definition index_signature (idx : gmap string (list NetSignature)) (r : PeerSignature) : gmap string (list NetSignature) :=
  match net_signature r with
  | Some n => let k := sig_index (gPeerID r) (gPublicKey r) in <[k := default [] (idx !! k) ++ [n]]> idx
  | None => idx
  end.

Definition IndexSignatures (rows : list PeerSignature) : gmap string (list NetSignature) :=
  foldl index_signature ∅ rows.

Section Service.
Context (Verify : PublicKey → list byte → Signature → bool)
  (ParseKey : string → option (list byte)) (encode : Signed → string) (decode : string → option Signed).

(** [LoadLockRecord]. *)
Definition LoadLockRecord : tx cerror (option Signed) := λ s,
  match Meta_Get MetaLockRecord s with
  | Ok (_, raw) => match decode raw with Some r => Ok (s, Some r) | None => Err ErrInternal end
  | Err ErrNotFound => Ok (s, None)
  | Err e => Err (ErrStore e)
  end.

Definition requireAdminOwner (by_ : Peer) : tx cerror unit :=
  if eqs (pOwnerID by_) "" then fail_tx ErrForbidden
  else
    owner ← lift (λ e, match e with ErrNotFound => ErrForbidden | e => ErrStore e end) (Users_GetByID (pOwnerID by_));
    check_tx (eqs (uRole owner) RoleAdmin) ErrForbidden.

Definition signerKeyOf (by_ : Peer) (key : PublicKey) : tx cerror unit :=
  cur ← LoadLockRecord;
  match cur with
  | None => fail_tx ErrForbidden
  | Some c =>
      if Enabled (record c)
      then check_tx (bool_decide (SignerKey (record c) (pID by_) = Some key)) ErrForbidden
      else fail_tx ErrForbidden
  end.

(** [LockService.Record]. *)
Definition RecordOf (svc : LockService) (peerID publicKey : string) : tx cerror (PeerRecord * string) :=
  nc ← (if eqs peerID HubID then mret (peerID, lkHubKey svc)
        else p ← lift (λ e, match e with ErrNotFound => ErrMissing | e => ErrStore e end) (Peers_GetByID peerID);
             mret (pName p, pPublicKey p));
  check_tx (eqs publicKey nc.2) ErrValidation ;;
  key ← of_result (of_option ErrValidation (ParseKey publicKey));
  mret ({| rID := peerID; rName := nc.1; rKey := key |}, nc.1).

Definition signature_row (peerID publicKey : string) (signer : PublicKey) (sig : Signature) (now : Z) : PeerSignature :=
  {| gPeerID := peerID; gPublicKey := publicKey; gSignerKey := KeyText signer; gSignature := SignatureText sig; gSignedAt := now |}.

Definition signInTx (svc : LockService) (by_ : Peer) (sa : SigningAt) : tx cerror unit :=
  let sg := saSigning sa in
  rn ← RecordOf svc (sgPeerID sg) (sgPublicKey sg);
  msg ← of_result (match peerBytes rn.1 with Ok b => Ok b | Err _ => Err ErrValidation end);
  check_tx (Verify (sgSigner sg) msg (sgSignature sg)) ErrValidation ;;
  lift ErrStore (Signatures_Put (signature_row (sgPeerID sg) (sgPublicKey sg) (sgSigner sg) (sgSignature sg) (saNow sa))) ;;
  lift ErrStore IncrementGeneration ;;
  audit_record (lkAudit svc) (saAuditNow sa) (PeerPrincipal (pName by_)) AuditPeerSign (sgPeerID sg)
    [("name", rn.2); ("key", wgFingerprint (rKey rn.1)); ("signer", Fingerprint (sgSigner sg))].

(** The loop of [Set] over the signatures. *)
Fixpoint sign_all (svc : LockService) (by_ : Peer) (signerKey : PublicKey) (sigs : list SigningAt) : tx cerror unit :=
  match sigs with
  | [] => mret ()
  | sa :: rest =>
      check_tx (bool_decide (sgSigner (saSigning sa) = signerKey)) ErrValidation ;;
      signInTx svc by_ sa ;; sign_all svc by_ signerKey rest
  end.

Definition signerOf (r : Signed) : PublicKey :=
  match recordBytes (record r) with
  | Ok msg =>
      match list_find (λ s, Verify (sKey s) msg (signature r) = true) (Signers (record r)) with
      | Some (_, s) => sKey s
      | None => replicate KeySize Byte.x00
      end
  | Err _ => replicate KeySize Byte.x00
  end.

(** Without a record that has signers, an admin's device must set it. *)
Definition first_contact (cur : option Signed) : bool :=
  match cur with None => true | Some c => bool_decide (Signers (record c) = []) end.

Definition set_tx (svc : LockService) (by_ : Peer) (next : Signed) (sigs : list SigningAt) (anow : Z) : tx cerror unit :=
  cur ← LoadLockRecord;
  (if first_contact cur then requireAdminOwner by_ else mret ()) ;;
  of_result (match Accept Verify (record <$> cur) next with Ok _ => Ok () | Err _ => Err ErrValidation end) ;;
  lift ErrStore (Meta_Set MetaLockRecord (encode next)) ;;
  sign_all svc by_ (default (replicate KeySize Byte.x00) (SignerKey (record next) (pID by_))) sigs ;;
  lift ErrStore IncrementGeneration ;;
  audit_record (lkAudit svc) anow (PeerPrincipal (pName by_)) AuditLockSet "lock"
    [("generation", itoa (LockRecord.Generation (record next))); ("signers", itoa (Z.of_nat (length (Signers (record next)))));
     ("disabled", bool_text (Disabled (record next))); ("by_key", Fingerprint (signerOf next))].

(** [LockService.Set]. *)
Definition Set_ (svc : LockService) (by_ : Peer) (next : Signed) (sigs : list SigningAt) (anow : Z) (s : Store) :
    Store * result cerror unit :=
  let isSigner := bool_decide (is_Some (SignerKey (record next) (pID by_))) in
  if negb (bool_decide (sigs = [])) && (negb isSigner || negb (Enabled (record next))) then (s, Err ErrValidation)
  else InTx (set_tx svc by_ next sigs anow) s.

(** [LockService.Sign]. *)
Definition Sign (svc : LockService) (by_ : Peer) (sa : SigningAt) (s : Store) : Store * result cerror unit :=
  match signerKeyOf by_ (sgSigner (saSigning sa)) s with
  | Err e => (s, Err e)
  | Ok _ => InTx (signInTx svc by_ sa) s
  end.

Definition VerifyRotation (by_ : Peer) (newPublicKey : string) (signer : PublicKey) (sig : Signature) (now : Z) :
    tx cerror PeerSignature :=
  signerKeyOf by_ signer ;;
  key ← of_result (of_option ErrValidation (ParseKey newPublicKey));
  msg ← of_result (match peerBytes {| rID := pID by_; rName := pName by_; rKey := key |} with
                   | Ok b => Ok b | Err _ => Err ErrValidation end);
  check_tx (Verify signer msg sig) ErrValidation ;;
  mret (signature_row (pID by_) newPublicKey signer sig now).

Definition IsSigner (peerID : string) (s : Store) : result cerror bool :=
  match LoadLockRecord s with
  | Err e => Err e
  | Ok (_, None) => Ok false
  | Ok (_, Some c) => Ok (Enabled (record c) && bool_decide (is_Some (SignerKey (record c) peerID)))
  end.

(** [ReportKey]. *)
Definition ReportKey (svc : LockService) (peerID key : string) : LockService :=
  {| lkHubKey := lkHubKey svc; lkAudit := lkAudit svc;
     lkReported := if eqs key "" then delete peerID (lkReported svc) else <[peerID := key]> (lkReported svc) |}.

(** [IsSigned]. *)
Definition IsSigned (set : LockRecord) (rec : PeerRecord) (sigs : list NetSignature) : bool :=
  if Enabled set then
    match peerBytes rec with
    | Ok msg => existsb (λ n, Has set (nsSigner n) && Verify (nsSigner n) msg (nsSignature n)) sigs
    | Err _ => false
    end
  else false.

(** [mustKey]: a key that does not parse is the zero key. *)
Definition mustKey (s : string) : list byte := default (replicate 32 Byte.x00) (ParseKey s).

Definition no_record : LockRecord := {| LockRecord.Generation := 0; Disabled := false; Signers := [] |}.

Definition lock_peer (set : LockRecord) (idx : gmap string (list NetSignature)) (id name kind key lockKey : string) : LockPeer :=
  {| lpID := id; lpName := name; lpKind := kind; lpPublicKey := key;
     lpSigned := IsSigned set {| rID := id; rName := name; rKey := mustKey key |} (default [] (idx !! sig_index id key)); lpLockKey := lockKey |}.

Definition ListPeers (svc : LockService) : tx cerror (list LockPeer * LockPeer) :=
  cur ← LoadLockRecord;
  all ← lift ErrStore Peers_List;
  sigs ← lift ErrStore Signatures_ListAll;
  let idx := IndexSignatures sigs in
  let set := match cur with Some c => record c | None => no_record end in
  mret ((λ p, lock_peer set idx (pID p) (pName p) (pKind p) (pPublicKey p) (default "" (lkReported svc !! pID p))) <$> all,
        lock_peer set idx HubID HubID KindServer (lkHubKey svc) "").
End Service.

(** ** What the service stores

    The transactions go through where nothing stands against them. *)

(** Only the signatures, the generation and the audit log may differ. *)
Record beside (s s' : Store) : Prop := {
  be_peers : peers s' = peers s; be_users : users s' = users s;
  be_meta : ∀ k, k ≠ MetaNetmapGeneration → meta s' !! k = meta s !! k; be_gen : is_Some (meta s' !! MetaNetmapGeneration);
}.

Lemma beside_trans s1 s2 s3 : beside s1 s2 → beside s2 s3 → beside s1 s3.
Proof. intros [P1 U1 M1 G1] [P2 U2 M2 G2]. split; [congruence..| |done]. intros k Hk. by rewrite M2, M1. Qed.

(** The row of a signature is there, whenever it was stored. *)
Definition has_row (s : Store) (id key signer sig : string) : Prop :=
  ∃ g, g ∈ signatures s ∧ gPeerID g = id ∧ gPublicKey g = key ∧ gSignerKey g = signer ∧ gSignature g = sig.

Lemma has_row_same s s' id key signer sig : signatures s' = signatures s → has_row s id key signer sig → has_row s' id key signer sig.
Proof. intros Hs (g & Hg & H). exists g. by rewrite Hs. Qed.

Lemma increment_now s : is_Some (meta s !! MetaNetmapGeneration) →
  ∃ s' g, IncrementGeneration s = Ok (s', g) ∧ beside s s' ∧ signatures s' = signatures s.
Proof.
  intros [v Hv]. unfold IncrementGeneration. rewrite Hv. eexists _, _. split; [done|]. split; [|done]. split; cbn; [done|done| |].
  - intros k Hk. by rewrite lookup_insert_ne.
  - rewrite lookup_insert_eq. by eexists.
Qed.

Lemma audit_now on now by_ act target details s : act ≠ "" → is_Some (meta s !! MetaNetmapGeneration) →
  ∃ s', audit_record on now by_ act target details s = Ok (s', ()) ∧ beside s s' ∧ signatures s' = signatures s.
Proof.
  intros Ha Hg. unfold audit_record, lift, Audit_Append. destruct on; [|by exists s]. cbn [aAction aActor].
  rewrite (proj2 (eqs_false act "") Ha). destruct (eqs (if prLocal by_ then _ else _) "") eqn:E; [|rewrite E]; eexists; (split; [done|]); (split; [by split|done]).
Qed.

Lemma put_now g s : gPeerID g ≠ "" → gPublicKey g ≠ "" → gSignerKey g ≠ "" → gSignature g ≠ "" → is_Some (meta s !! MetaNetmapGeneration) →
  ∃ s', Signatures_Put g s = Ok (s', ()) ∧ beside s s' ∧ has_row s' (gPeerID g) (gPublicKey g) (gSignerKey g) (gSignature g) ∧
    ∀ id key signer sig, has_row s id key signer sig → (id = gPeerID g → key = gPublicKey g → sig = gSignature g) → has_row s' id key signer sig.
Proof.
  intros H1 H2 H3 H4 Hg. unfold Signatures_Put. rewrite !(proj2 (eqs_false _ _)) by done. cbn [orb]. destruct (existsb _ _) eqn:E; eexists; (split; [done|]); (split; [by split|]); split.
  - apply existsb_exists in E as (h & Hh%list_elem_of_In & Hs). exists g. split; [|done]. apply list_elem_of_fmap. exists h. by rewrite Hs.
  - intros id key signer sig (h & Hh & <- & <- & <- & <-) Hsame. destruct (same_signature g h) eqn:Es.
    + exists g. split; [apply list_elem_of_fmap; exists h; by rewrite Es|]. unfold same_signature in Es. rewrite !andb_true_iff, !eqs_true in Es. destruct Es as [[Ei Ek] Er].
      split_and!; [done|done|done|]. symmetry. by apply Hsame.
    + exists h. split; [|done]. apply list_elem_of_fmap. exists h. by rewrite Es.
  - exists g. split; [|done]. cbn. apply elem_of_app. right. by apply list_elem_of_singleton.
  - intros id key signer sig (h & Hh & H) _. exists h. split; [|done]. cbn. apply elem_of_app. by left.
Qed.

Section Stores.
Context (Verify : PublicKey → list byte → Signature → bool)
  (ParseKey : string → option (list byte)) (encode : Signed → string) (decode : string → option Signed) (svc : LockService) (by_ : Peer).

(** The server has the key for the id under the name. *)
Definition on_record (s : Store) (id name key : string) : Prop :=
  (id = HubID ∧ name = HubID ∧ key = lkHubKey svc) ∨ (id ≠ HubID ∧ ∃ p, p ∈ peers s ∧ pID p = id ∧ pName p = name ∧ pPublicKey p = key).

(** A signature over the entry of a name that the server would take. *)
Record valid_signing (s : Store) (sg : PeerSigning) (name : string) (msg : list byte) : Prop := {
  vs_entry : on_record s (sgPeerID sg) name (sgPublicKey sg);
  vs_id : sgPeerID sg ≠ ""; vs_key : sgPublicKey sg ≠ ""; vs_signer : KeyText (sgSigner sg) ≠ ""; vs_signature : SignatureText (sgSignature sg) ≠ "";
  vs_msg : ∃ key, ParseKey (sgPublicKey sg) = Some key ∧ peerBytes {| rID := sgPeerID sg; rName := name; rKey := key |} = Ok msg;
  vs_verifies : Verify (sgSigner sg) msg (sgSignature sg) = true;
}.

Lemma RecordOf_now s id name key wk : NoDup (pID <$> peers s) → on_record s id name key → ParseKey key = Some wk →
  RecordOf ParseKey svc id key s = Ok (s, ({| rID := id; rName := name; rKey := wk |}, name)).
Proof.
  intros Hnd Ho Hk. apply tx_bind_ok. exists s, (name, key). split.
  - destruct Ho as [(-> & -> & ->)|(Hne & p & Hp & <- & <- & <-)]; [done|]. rewrite (proj2 (eqs_false (pID p) HubID)) by done.
    apply tx_bind_ok. exists s, p. split; [|done]. apply lift_ok. unfold Peers_GetByID. apply get_ok. split; [done|]. destruct (find_row _ _) as [q|e] eqn:E.
    + apply find_row_ok in E as [Hq Hid%eqs_true]. f_equal. by eapply (key_unique pID).
    + apply find_row_err in E as [_ Hn]. specialize (Hn p Hp). cbn in Hn. by apply eqs_false in Hn.
  - apply tx_bind_ok. exists s, (). split; [by unfold check_tx; rewrite (proj2 (eqs_true _ _))|]. apply tx_bind_ok. exists s, wk. split; [|done]. by rewrite Hk.
Qed.

Lemma signInTx_now sa s name msg : NoDup (pID <$> peers s) → is_Some (meta s !! MetaNetmapGeneration) → valid_signing s (saSigning sa) name msg →
  ∃ s', signInTx Verify ParseKey svc by_ sa s = Ok (s', ()) ∧ beside s s' ∧
    (let sg := saSigning sa in has_row s' (sgPeerID sg) (sgPublicKey sg) (KeyText (sgSigner sg)) (SignatureText (sgSignature sg))) ∧
    ∀ id key signer sig, has_row s id key signer sig →
      (id = sgPeerID (saSigning sa) → key = sgPublicKey (saSigning sa) → sig = SignatureText (sgSignature (saSigning sa))) → has_row s' id key signer sig.
Proof.
  intros Hnd Hg [He H1 H2 H3 H4 (wk & Hk & Hm) Hv]. destruct sa as [sg t1 t2]. cbn [saSigning saNow saAuditNow] in *.
  destruct (put_now (signature_row (sgPeerID sg) (sgPublicKey sg) (sgSigner sg) (sgSignature sg) t1) s H1 H2 H3 H4 Hg) as (s1 & E1 & B1 & R1 & K1).
  destruct (increment_now s1 (be_gen _ _ B1)) as (s2 & g & E2 & B2 & S2).
  destruct (audit_now (lkAudit svc) t2 (PeerPrincipal (pName by_)) AuditPeerSign (sgPeerID sg)
    [("name", name); ("key", wgFingerprint wk); ("signer", Fingerprint (sgSigner sg))] s2 ltac:(done) (be_gen _ _ B2)) as (s3 & E3 & B3 & S3).
  exists s3. split_and!.
  - unfold signInTx. cbn [saSigning saNow saAuditNow]. apply tx_bind_ok. eexists _, _. split; [by apply (RecordOf_now s _ name _ wk)|]. cbn [fst snd rKey]. rewrite Hm.
    apply tx_bind_ok. exists s, msg. split; [done|]. apply tx_bind_ok. exists s, (). split; [by rewrite Hv|].
    apply tx_bind_ok. exists s1, (). split; [by apply lift_ok|]. apply tx_bind_ok. exists s2, g. split; [by apply lift_ok|done].
  - eapply beside_trans; [exact B1|]. by eapply beside_trans.
  - apply (has_row_same s2); [done|]. by apply (has_row_same s1).
  - intros id key signer sig Hr Hs. apply (has_row_same s2); [done|]. apply (has_row_same s1); [done|]. by apply K1.
Qed.

Lemma valid_signing_beside s s' sg name msg : beside s s' → valid_signing s sg name msg → valid_signing s' sg name msg.
Proof. intros B []. split; try done. unfold on_record. by rewrite (be_peers _ _ B). Qed.

(** Signatures of one entry are the same. *)
Definition one_each (l : list SigningAt) : Prop :=
  ∀ x y, x ∈ l → y ∈ l → sgPeerID (saSigning x) = sgPeerID (saSigning y) → sgPublicKey (saSigning x) = sgPublicKey (saSigning y) →
    sgSignature (saSigning x) = sgSignature (saSigning y).

Lemma sign_all_now k l : one_each l → ∀ s, NoDup (pID <$> peers s) → is_Some (meta s !! MetaNetmapGeneration) →
  (∀ sa, sa ∈ l → sgSigner (saSigning sa) = k ∧ ∃ name msg, valid_signing s (saSigning sa) name msg) →
  ∃ s', sign_all Verify ParseKey svc by_ k l s = Ok (s', ()) ∧ beside s s' ∧
    (∀ sa, sa ∈ l → let sg := saSigning sa in has_row s' (sgPeerID sg) (sgPublicKey sg) (KeyText k) (SignatureText (sgSignature sg))) ∧
    ∀ id key signer sig, has_row s id key signer sig →
      (∀ sa, sa ∈ l → id = sgPeerID (saSigning sa) → key = sgPublicKey (saSigning sa) → sig = SignatureText (sgSignature (saSigning sa))) → has_row s' id key signer sig.
Proof.
  induction l as [|sa l IH]; intros Hone s Hnd Hg Hl.
  { exists s. split_and!; [done|by split| |done]. intros sa Hsa. by apply elem_of_nil in Hsa. }
  destruct (Hl sa ltac:(by left)) as (Hk & name & msg & Hv). destruct (signInTx_now sa s name msg Hnd Hg Hv) as (s1 & E1 & B1 & R1 & K1).
  destruct IH with (s := s1) as (s2 & E2 & B2 & R2 & K2).
  - intros x y Hx Hy. apply Hone; by right.
  - by rewrite (be_peers _ _ B1).
  - apply B1.
  - intros x Hx. destruct (Hl x ltac:(by right)) as (Hkx & n & m & Hvx). split; [done|]. exists n, m. by eapply valid_signing_beside.
  - exists s2. split_and!.
    + cbn [sign_all]. apply tx_bind_ok. exists s, (). split; [by rewrite bool_decide_true|]. apply tx_bind_ok. by exists s1, ().
    + by eapply beside_trans.
    + intros x [-> | Hx]%elem_of_cons; [|by apply R2]. rewrite <- Hk. apply K2; [by apply R1|]. intros y Hy Hi He. f_equal. apply Hone; [by left|by right|done..].
    + intros id key signer sig Hr Hs. apply K2; [apply K1; [done|]; apply Hs; by left|]. intros x Hx. apply Hs. by right.
Qed.

(** [Set] of a record that follows the stored one, with signatures by the key
    it has for the caller. *)
Lemma Set_now next sigs anow s : NoDup (pID <$> peers s) → is_Some (meta s !! MetaNetmapGeneration) → ∀ cur,
  LoadLockRecord decode s = Ok (s, cur) → (first_contact cur = true → requireAdminOwner by_ s = Ok (s, ())) → Accept Verify (record <$> cur) next = Ok () →
  decode (encode next) = Some next → one_each sigs →
  (sigs ≠ [] → Enabled (record next) = true ∧ ∃ k, SignerKey (record next) (pID by_) = Some k ∧
     ∀ sa, sa ∈ sigs → sgSigner (saSigning sa) = k ∧ ∃ name msg, valid_signing s (saSigning sa) name msg) →
  ∃ s', Set_ Verify ParseKey encode decode svc by_ next sigs anow s = (s', Ok ()) ∧ LoadLockRecord decode s' = Ok (s', Some next) ∧ peers s' = peers s ∧
    ∀ sa, sa ∈ sigs → let sg := saSigning sa in has_row s' (sgPeerID sg) (sgPublicKey sg) (KeyText (sgSigner sg)) (SignatureText (sgSignature sg)).
Proof.
  intros Hnd Hg cur Hcur Hadm Hacc Hdec Hone Hs. set (s0 := with_meta (<[MetaLockRecord := encode next]> (meta s)) s).
  assert (is_Some (meta s0 !! MetaNetmapGeneration)) as Hg0 by (cbn; by rewrite lookup_insert_ne).
  set (k := default (replicate KeySize Byte.x00) (SignerKey (record next) (pID by_))).
  destruct (sign_all_now k sigs Hone s0 Hnd Hg0) as (s1 & E1 & B1 & R1 & _).
  { intros sa Hsa. destruct Hs as (_ & k0 & Hk0 & Hall); [by intros ->; apply elem_of_nil in Hsa|]. destruct (Hall sa Hsa) as (Hk & name & msg & Hv).
    subst k. rewrite Hk0. split; [done|]. exists name, msg. destruct Hv. by split. }
  destruct (increment_now s1 (be_gen _ _ B1)) as (s2 & g & E2 & B2 & S2).
  destruct (audit_now (lkAudit svc) anow (PeerPrincipal (pName by_)) AuditLockSet "lock"
    [("generation", itoa (LockRecord.Generation (record next))); ("signers", itoa (Z.of_nat (length (Signers (record next)))));
     ("disabled", bool_text (Disabled (record next))); ("by_key", Fingerprint (signerOf Verify next))] s2 ltac:(done) (be_gen _ _ B2)) as (s3 & E3 & B3 & S3).
  pose proof (beside_trans _ _ _ (beside_trans _ _ _ B1 B2) B3) as B. exists s3. split_and!.
  - unfold Set_. assert (negb (bool_decide (sigs = [])) && (negb (bool_decide (is_Some (SignerKey (record next) (pID by_)))) || negb (Enabled (record next))) = false) as ->.
    { destruct (bool_decide_reflect (sigs = [])) as [|Hne]; [done|]. destruct (Hs Hne) as (-> & k0 & -> & _). by rewrite bool_decide_true. }
    apply InTx_ok. unfold set_tx. apply tx_bind_ok. exists s, cur. split; [done|]. apply tx_bind_ok. exists s, ().
    split; [destruct (first_contact cur); [by apply Hadm|done]|]. rewrite Hacc. apply tx_bind_ok. exists s, (). split; [done|].
    apply tx_bind_ok. exists s0, (). split; [done|]. apply tx_bind_ok. exists s1, (). split; [done|]. apply tx_bind_ok. exists s2, g. split; [by apply lift_ok|done].
  - unfold LoadLockRecord, Meta_Get. rewrite (be_meta _ _ B) by done. cbn. rewrite lookup_insert_eq. by rewrite Hdec.
  - by rewrite (be_peers _ _ B).
  - intros sa Hsa. cbn zeta. assert (sgSigner (saSigning sa) = k) as ->.
    { destruct Hs as (_ & k0 & Hk0 & Hall); [by intros ->; apply elem_of_nil in Hsa|]. subst k. rewrite Hk0. by apply Hall. }
    apply (has_row_same s2); [done|]. apply (has_row_same s1); [done|]. by apply R1.
Qed.

(** [Sign] by a signer of the stored record. *)
Lemma signerKeyOf_now rec key s : LoadLockRecord decode s = Ok (s, Some rec) → Enabled (record rec) = true → SignerKey (record rec) (pID by_) = Some key →
  signerKeyOf decode by_ key s = Ok (s, ()).
Proof. intros Hl He Hk. unfold signerKeyOf. apply tx_bind_ok. exists s, (Some rec). split; [done|]. rewrite He. unfold check_tx. by rewrite bool_decide_true. Qed.

Lemma Sign_now rec sa s name msg : NoDup (pID <$> peers s) → is_Some (meta s !! MetaNetmapGeneration) → LoadLockRecord decode s = Ok (s, Some rec) →
  Enabled (record rec) = true → SignerKey (record rec) (pID by_) = Some (sgSigner (saSigning sa)) → valid_signing s (saSigning sa) name msg →
  ∃ s', Sign Verify ParseKey decode svc by_ sa s = (s', Ok ()) ∧
    let sg := saSigning sa in has_row s' (sgPeerID sg) (sgPublicKey sg) (KeyText (sgSigner sg)) (SignatureText (sgSignature sg)).
Proof.
  intros Hnd Hg Hl He Hk Hv. destruct (signInTx_now sa s name msg Hnd Hg Hv) as (s' & E & _ & Hr & _). exists s'. split; [|done].
  unfold Sign. rewrite (signerKeyOf_now rec) by done. by apply InTx_ok.
Qed.

(** A rotation's signature by a signer of the stored record. *)
Lemma VerifyRotation_now rec k wk signer sig msg now s : LoadLockRecord decode s = Ok (s, Some rec) → Enabled (record rec) = true →
  SignerKey (record rec) (pID by_) = Some signer → ParseKey k = Some wk → peerBytes {| rID := pID by_; rName := pName by_; rKey := wk |} = Ok msg →
  Verify signer msg sig = true → VerifyRotation Verify ParseKey decode by_ k signer sig now s = Ok (s, signature_row (pID by_) k signer sig now).
Proof.
  intros Hl He Hs Hk Hm Hv. unfold VerifyRotation. apply tx_bind_ok. exists s, (). split; [by eapply signerKeyOf_now|].
  apply tx_bind_ok. exists s, wk. split; [by rewrite Hk|]. rewrite Hm. apply tx_bind_ok. exists s, msg. split; [done|]. apply tx_bind_ok. exists s, (). by rewrite Hv.
Qed.
End Stores.
