(* ===== verification/Registry.v ===== *)
(** Managing peers: [internal/control/registry.go] and [static.go].

    The clock, the random bytes and the generated WireGuard key are inputs;
    the notifier and the log are left out. *)

From S2P Require Import Prelude GoStrings NetIP LockRecord Store Effects Tables Alloc Names Enroll LockService.

Definition AuditPeerRename : string := "peer.rename".
Definition AuditPeerDelete : string := "peer.delete".
Definition AuditPeerLeave : string := "peer.leave".
Definition AuditPeerRotateKey : string := "peer.rotate_key".

Record Registry := {
  rgOverlay : prefix; rgOverlay6 : prefix;
  rgAudit : bool;
  rgLock : bool;  (* whether a LockService is attached *)
}.

Record StaticRequest := { stOwnerName : string; stName : string; stKind : string; stTags : list string }.
Record StaticResult := { srPeer : Peer; srPrivateKey : list byte; srGeneration : Z }.

(** [SignedRotation]. *)
Record SignedRotation := { roSigner : PublicKey; roSignature : Signature }.

(** [Registry.List]: all for admins, own for members. *)
Definition Registry_List (by_ : Principal) (s : Store) : list Peer :=
  let all := stable_sort by_name (peers s) in
  if IsAdmin by_ then all else filter (λ p, eqs (pOwnerID p) (prUserID by_) = true) all.

(** [Registry.Get]. *)
Definition Registry_Get (by_ : Principal) (name : string) (s : Store) : result cerror Peer :=
  match Peers_GetByName name s with
  | Ok (_, p) => if negb (IsAdmin by_) && negb (eqs (pOwnerID p) (prUserID by_)) then Err ErrMissing else Ok p
  | Err ErrNotFound => Err ErrMissing
  | Err e => Err (ErrStore e)
  end.

Definition rename_tx (r : Registry) (by_ : Principal) (p : Peer) (name newName : string) (anow : Z) : tx cerror unit :=
  lift (λ e, match e with ErrConflict => ErrValidation | e => ErrStore e end) (Peers_Rename (pID p) newName) ;;
  audit_record (rgAudit r) anow by_ AuditPeerRename (pID p) [("from", name); ("to", newName)] ;;
  lift ErrStore IncrementGeneration ;; mret ().

(** [Registry.Rename]. *)
Definition Registry_Rename (r : Registry) (pol : Policies) (by_ : Principal) (name newName : string) (force : bool) (anow : Z) (s : Store) :
    Store * result cerror unit :=
  if negb (IsAdmin by_) then (s, Err ErrForbidden)
  else if negb (validPeerName newName) then (s, Err ErrValidation)
  else
    match Registry_Get by_ name s with
    | Err e => (s, Err e)
    | Ok p =>
        if eqs newName (pName p) then (s, Ok ())
        else if negb force && selected pol (pName p) then (s, Err ErrValidation)
        else InTx (rename_tx r by_ p name newName anow) s
    end.

(** [deletePeer]; the empty principal stands for the peer itself. *)
Definition delete_tx (r : Registry) (id : string) (by_ : Principal) (action name : string) (anow : Z) : tx cerror unit :=
  name ← (if eqs name "" then p ← lift ErrStore (Peers_GetByID id); mret (pName p) else mret name);
  lift ErrStore (Peers_Delete id) ;;
  lift ErrStore (Signatures_DeletePeer id) ;;
  audit_record (rgAudit r) anow (if eqs (prName by_) "" then PeerPrincipal name else by_) action id [("name", name)] ;;
  lift ErrStore IncrementGeneration ;; mret ().

Definition Registry_Delete (r : Registry) (by_ : Principal) (name : string) (anow : Z) (s : Store) : Store * result cerror unit :=
  if negb (IsAdmin by_) then (s, Err ErrForbidden)
  else
    match Registry_Get by_ name s with
    | Err e => (s, Err e)
    | Ok p => InTx (delete_tx r (pID p) by_ AuditPeerDelete (pName p) anow) s
    end.

Definition no_principal : Principal := {| prUserID := ""; prName := ""; prRole := ""; prLocal := false |}.

Definition Registry_Leave (r : Registry) (peerID : string) (anow : Z) (s : Store) : Store * result cerror unit :=
  match InTx (delete_tx r peerID no_principal AuditPeerLeave "" anow) s with
  | (s, Err (ErrStore ErrNotFound)) => (s, Err ErrMissing)
  | r => r
  end.

(** [PeerByNodeSecret]. *)
Definition PeerByNodeSecret (secret : string) (s : Store) : result cerror Peer :=
  if eqs secret "" then Err ErrForbidden
  else
    match Peers_GetByNodeSecretHash (hashSecret secret) s with
    | Ok (_, p) => Ok p
    | Err ErrNotFound => Err ErrForbidden
    | Err e => Err (ErrStore e)
    end.

Section Keys.
Context (Verify : PublicKey → list byte → Signature → bool)
  (ParseKey : string → option (list byte)) (KeyString : list byte → string) (decode : string → option Signed).

(** The transaction of [RotateKey]; [now] is the lock service's clock. *)
Definition rotate_tx (r : Registry) (peerID newPublicKey : string) (signed : option SignedRotation) (now anow : Z) : tx cerror Z :=
  p ← lift (λ e, match e with ErrNotFound => ErrMissing | e => ErrStore e end) (Peers_GetByID peerID);
  sig ← match signed with
        | None => mret None
        | Some sr =>
            if rgLock r then
              row ← VerifyRotation Verify ParseKey decode p newPublicKey (roSigner sr) (roSignature sr) now;
              mret (Some row)
            else fail_tx ErrValidation
        end;
  lift (λ e, match e with ErrConflict => ErrValidation | e => ErrStore e end) (Peers_SetPublicKey peerID newPublicKey) ;;
  lift ErrStore (Signatures_DeleteKey peerID (pPublicKey p)) ;;
  match sig with Some row => lift ErrStore (Signatures_Put row) | None => mret () end ;;
  gen ← lift ErrStore IncrementGeneration;
  audit_record (rgAudit r) anow (PeerPrincipal (pName p)) AuditPeerRotateKey peerID
    [("name", pName p); ("key", wgFingerprint (default [] (ParseKey newPublicKey))); ("generation", itoa gen)] ;;
  mret gen.

Definition Registry_RotateKey (r : Registry) (peerID newPublicKey : string) (signed : option SignedRotation) (now anow : Z) (s : Store) :
    Store * result cerror Z :=
  match ParseKey newPublicKey with
  | None => (s, Err ErrValidation)
  | Some _ => InTx (rotate_tx r peerID newPublicKey signed now anow) s
  end.

(** [Touch] and [SetClientVersion] are the store's; [SetIPv6Capable] bumps the
    generation on a change. *)
Definition capable_tx (peerID : string) (capable : bool) : tx cerror bool :=
  changed ← lift ErrStore (Peers_SetIPv6Capable peerID capable);
  if (changed : bool) then (lift ErrStore IncrementGeneration ;; mret true) else mret false.
Definition Registry_SetIPv6Capable (peerID : string) (capable : bool) (s : Store) : Store * result cerror bool :=
  InTx (capable_tx peerID capable) s.

(** *** Static peers *)

(** The checks before the database is read. *)
Definition static_checks (r : Registry) (pol : Policies) (by_ : Principal) (req : StaticRequest) : result cerror (string * list string) :=
  guard_err (PIsValid (rgOverlay r)) ErrInternal ;;
  guard_err (negb (eqs (stOwnerName req) "")) ErrValidation ;;
  guard_err (IsAdmin by_ || eqs (prName by_) (stOwnerName req)) ErrForbidden ;;
  guard_err (validPeerName (stName req)) ErrValidation ;;
  guard_err (IsAdmin by_ || negb (selected pol (stName req))) ErrForbidden ;;
  let kind := if eqs (stKind req) "" then KindHuman else stKind req in
  guard_err (validKind kind) ErrValidation ;;
  tags ← normalizeTags (stTags req);
  guard_err (IsAdmin by_ || tags_granted pol by_ tags) ErrForbidden ;;
  Ok (kind, tags).

(** [pub] is the public half of the key drawn. *)
Definition static_peer (r : Registry) (req : StaticRequest) (owner : User) (kind : string) (tags : list string) (ip : addr)
    (d : Draw) (pub : list byte) : Peer :=
  let v6 := IPv6For (rgOverlay6 r) ip in
  {| pID := newID (dID d); pName := stName req; pKind := kind; pMode := ModeStatic; pOwnerID := uID owner; pTags := tags;
     pPublicKey := KeyString pub; pIPv4 := addr_string ip; pIPv6 := if IsValid v6 then addr_string v6 else "";
     pIPv6Capable := IsValid v6; pNodeSecretHash := ""; pCreatedAt := dNow d; pLastSeenAt := None;
     pClientVersion := ""; pOS := "wireguard-app" |}.

Definition static_tx (r : Registry) (by_ : Principal) (req : StaticRequest) (owner : User) (kind : string) (tags : list string)
    (d : Draw) (key pub : list byte) : tx cerror StaticResult :=
  rip ← query (next_ip (rgOverlay r));
  match rip with
  | Err x => fail_tx x
  | Ok ip =>
      let p := static_peer r req owner kind tags ip d pub in
      lift ErrStore (Peers_Create p) ;;
      audit_record (rgAudit r) (dAuditNow d) by_ AuditPeerCreateStatic (pID p)
        [("name", stName req); ("kind", kind); ("owner", uName owner); ("tags", tagsDetail tags); ("ipv4", addr_string ip);
         ("ipv6", pIPv6 p); ("key", wgFingerprint pub)] ;;
      gen ← lift ErrStore IncrementGeneration;
      mret {| srPeer := p; srPrivateKey := key; srGeneration := gen |}
  end.

(** [CreateStatic]. *)
Definition CreateStatic (r : Registry) (pol : Policies) (by_ : Principal) (req : StaticRequest) (d : Draw) (key pub : list byte) (s : Store) :
    Store * result cerror StaticResult :=
  match static_checks r pol by_ req with
  | Err e => (s, Err e)
  | Ok (kind, tags) =>
      match query_user (stOwnerName req) s with
      | Err e => (s, Err e)
      | Ok owner => InTx (static_tx r by_ req owner kind tags d key pub) s
      end
  end.
End Keys.

Lemma static_checks_ok r pol by_ req kind tags :
  static_checks r pol by_ req = Ok (kind, tags) →
  PIsValid (rgOverlay r) = true ∧ stOwnerName req ≠ "" ∧ (IsAdmin by_ = true ∨ prName by_ = stOwnerName req) ∧
  validPeerName (stName req) = true ∧ (IsAdmin by_ = true ∨ selected pol (stName req) = false) ∧
  kind = (if eqs (stKind req) "" then KindHuman else stKind req) ∧ validKind kind = true ∧
  normalizeTags (stTags req) = Ok tags ∧ (IsAdmin by_ = true ∨ tags_granted pol by_ tags = true).
Proof.
  unfold static_checks. intros H.
  apply result_bind_ok in H as ([] & H1%guard_err_ok & H). apply result_bind_ok in H as ([] & H2%guard_err_ok & H).
  apply result_bind_ok in H as ([] & H3%guard_err_ok & H). apply result_bind_ok in H as ([] & H4%guard_err_ok & H).
  apply result_bind_ok in H as ([] & H5%guard_err_ok & H). apply result_bind_ok in H as ([] & H6%guard_err_ok & H).
  apply result_bind_ok in H as (tags' & H7 & H). apply result_bind_ok in H as ([] & H8%guard_err_ok & [= <- <-]).
  apply orb_true_iff in H3, H5, H8. apply negb_true_iff, eqs_false in H2. rewrite eqs_true in H3. rewrite negb_true_iff in H5.
  done.
Qed.
