(* ===== verification/Routes.v ===== *)
(** Advertised routes: [internal/control/routes.go]. *)

From S2P Require Import Prelude GoStrings NetIP Store Effects Tables Enroll.
From S2P Require Compile.

Definition MaxAdvertisedRoutes : nat := 64.

Definition AuditRouteAdvertise : string := "route.advertise".
Definition AuditRouteWithdraw : string := "route.withdraw".
Definition AuditRouteApprove : string := "route.approve".
Definition AuditRouteRevoke : string := "route.revoke".

(** The loop of [ParseRoutePrefixes] with what was seen. *)
Fixpoint parse_routes (ov : prefix) (seen : list prefix) (raw : list string) : result cerror (list prefix) :=
  match raw with
  | [] => Ok []
  | r :: rest =>
      p ← of_option ErrValidation (ParsePrefix r);
      if negb (Is4 (paddr p)) then Err ErrValidation
      else if negb (bool_decide (Masked p = p)) then Err ErrValidation
      else if PIsValid ov && negb (bool_decide (p = Compile.ExitPrefix)) && Overlaps p ov then Err ErrValidation
      else if bool_decide (p ∈ seen) then Err ErrValidation
      else out ← parse_routes ov (p :: seen) rest; Ok (p :: out)
  end.

Definition ParseRoutePrefixes (raw : list string) (ov : prefix) : result cerror (list prefix) :=
  if (MaxAdvertisedRoutes <? length raw)%nat then Err ErrValidation else parse_routes ov [] raw.

(** The loops over what was added and removed. *)
Fixpoint audit_routes (on : bool) (anow : Z) (by_ : Peer) (action : string) (l : list string) : tx cerror unit :=
  match l with
  | [] => mret ()
  | p :: rest =>
      audit_record on anow (PeerPrincipal (pName by_)) action (pID by_) [("name", pName by_); ("prefix", p)] ;;
      audit_routes on anow by_ action rest
  end.

Definition advertise_tx (on : bool) (by_ : Peer) (texts : list string) (now anow : Z) : tx cerror (list string * list string) :=
  ar ← lift ErrStore (Routes_Replace (pID by_) texts now);
  audit_routes on anow by_ AuditRouteAdvertise ar.1 ;;
  audit_routes on anow by_ AuditRouteWithdraw ar.2 ;;
  if bool_decide (ar.1 = []) && bool_decide (ar.2 = []) then mret ar
  else (lift ErrStore IncrementGeneration ;; mret ar).

(** [RoutesService.Advertise]: the peer's rows afterwards. *)
Definition Advertise (on : bool) (ov : prefix) (by_ : Peer) (raw : list string) (now anow : Z) (s : Store) :
    Store * result cerror (list PeerRoute) :=
  if eqs (pMode by_) ModeStatic then (s, Err ErrForbidden)
  else
    match ParseRoutePrefixes raw ov with
    | Err e => (s, Err e)
    | Ok prefixes =>
        match InTx (advertise_tx on by_ (prefix_string <$> prefixes) now anow) s with
        | (s', Err e) => (s', Err e)
        | (s', Ok _) => match Routes_ListPeer (pID by_) s' with Ok (_, l) => (s', Ok l) | Err e => (s', Err (ErrStore e)) end
        end
    end.

Definition approve_tx (on : bool) (by_ : Principal) (p : Peer) (name prefix : string) (approved : bool) (now anow : Z) : tx cerror unit :=
  lift (λ e, match e with ErrNotFound => ErrMissing | e => ErrStore e end)
    (Routes_SetApproved (pID p) prefix (prName by_) approved now) ;;
  audit_record on anow by_ (if approved then AuditRouteApprove else AuditRouteRevoke) (pID p) [("name", name); ("prefix", prefix)] ;;
  lift ErrStore IncrementGeneration ;; mret ().

(** A peer by name, as [SetApproved] and [Registry.Get] report its absence. *)
Definition peer_named (name : string) (s : Store) : result cerror Peer :=
  match Peers_GetByName name s with Ok (_, p) => Ok p | Err ErrNotFound => Err ErrMissing | Err e => Err (ErrStore e) end.

(** [RoutesService.SetApproved]. *)
Definition SetApproved (on : bool) (by_ : Principal) (name prefix : string) (approved : bool) (now anow : Z) (s : Store) :
    Store * result cerror unit :=
  if negb (IsAdmin by_) then (s, Err ErrForbidden)
  else
    match ParsePrefix prefix with
    | None => (s, Err ErrValidation)
    | Some p =>
        match peer_named name s with
        | Err e => (s, Err e)
        | Ok peer => InTx (approve_tx on by_ peer name (prefix_string (Masked p)) approved now anow) s
        end
    end.

(** [RoutesService.List] and [ListAll]. *)
Definition List_ (by_ : Principal) (name : string) (s : Store) : result cerror (list PeerRoute) :=
  match Peers_GetByName name s with
  | Ok (_, p) =>
      if negb (IsAdmin by_) && negb (eqs (pOwnerID p) (prUserID by_)) then Err ErrMissing
      else match Routes_ListPeer (pID p) s with Ok (_, l) => Ok l | Err e => Err (ErrStore e) end
  | Err ErrNotFound => Err ErrMissing
  | Err e => Err (ErrStore e)
  end.

Definition ListAll (by_ : Principal) (s : Store) : result cerror (list PeerRoute) :=
  if negb (IsAdmin by_) then Err ErrForbidden
  else match Routes_ListAll s with Ok (_, l) => Ok l | Err e => Err (ErrStore e) end.

(** [ApprovedRoutes]: the approved prefixes by peer id. *)
Definition approved_step (out : gmap string (list prefix)) (r : PeerRoute) : gmap string (list prefix) :=
  if negb (rApproved r) then out
  else match ParsePrefix (rPrefix r) with
       | None => out
       | Some p => <[rPeerID r := default [] (out !! rPeerID r) ++ [p]]> out
       end.
Definition ApprovedRoutes (rows : list PeerRoute) : gmap string (list prefix) := foldl approved_step ∅ rows.

(** ** What replacing does

    The rows of other peers stay; the peer's rows are the wanted prefixes, those
    it had before unchanged, the rest new and unapproved. *)

Definition new_route (id : string) (now : Z) (p : string) : PeerRoute :=
  {| rPeerID := id; rPrefix := p; rAdvertisedAt := now; rApproved := false; rApprovedAt := 0; rApprovedBy := "" |}.

(** A row of the peer that is listed and not wanted. *)
Definition withdrawn (id : string) (want have : list string) (r : PeerRoute) : Prop :=
  rPeerID r = id ∧ rPrefix r ∈ have ∧ rPrefix r ∉ want.

#[export] Instance withdrawn_dec id want have r : Decision (withdrawn id want have r).
Proof. unfold withdrawn. apply _. Defined.

Lemma withdraw_spec id want cur : ∀ s s' out,
  routes_withdraw id want cur s = Ok (s', out) →
  routes s' = filter (λ r, ¬ withdrawn id want (rPrefix <$> cur) r) (routes s) ∧
  out = filter (λ p, p ∉ want) (rPrefix <$> cur).
Proof.
  induction cur as [|c cur IH]; intros s s' out H; cbn [routes_withdraw] in H.
  { injection H as <- <-. split; [|done]. symmetry. apply filter_all. by intros r _ (_ & ?%elem_of_nil & _). }
  rewrite fmap_cons, filter_cons. case_bool_decide as Hc.
  - rewrite decide_False by naive_solver. apply IH in H as (-> & ->). split; [|done].
    apply list_filter_iff. intros r. unfold withdrawn. rewrite elem_of_cons.
    split; intros Hw (H1 & H2 & H3); apply Hw; split_and!; [done| |done|done|by right|done].
    destruct H2 as [H2|H2]; [by rewrite H2 in H3|done].
  - rewrite decide_True by done. apply tx_bind_ok in H as (s1 & [] & [= <-] & H).
    apply tx_bind_ok in H as (s2 & l & H & [= <- <-]). apply IH in H as (-> & ->).
    split; [|done]. cbn [with_routes routes]. rewrite list_filter_filter.
    apply list_filter_iff. intros r. unfold withdrawn, is_route. rewrite elem_of_cons, andb_false_iff, !eqs_false. split.
    + intros [Hw Hr] (H1 & [H2|H2] & H3); [by destruct Hr|by apply Hw].
    + intros Hw. split; [intros (H1 & H2 & H3); apply Hw; auto|].
      destruct (decide (rPeerID r = id)) as [H1|]; [|by left]. destruct (decide (rPrefix r = rPrefix c)) as [H2|]; [|by right].
      destruct Hw. split_and!; [done|by left|by rewrite H2].
Qed.

Lemma add_spec id have now l : ∀ s s' out,
  routes_add id have now l s = Ok (s', out) →
  out = filter (λ p, p ∉ have) l ∧ routes s' = routes s ++ (new_route id now <$> out) ∧
  NoDup out ∧ (∀ p r, p ∈ out → r ∈ routes s → is_route id p r = false).
Proof.
  induction l as [|p l IH]; intros s s' out H; cbn [routes_add] in H.
  { injection H as <- <-. split_and!; [done|by rewrite app_nil_r|constructor|by intros p r ?%elem_of_nil]. }
  rewrite filter_cons. case_bool_decide as Hp; [rewrite decide_False by naive_solver; by apply IH|].
  rewrite decide_True by done. apply tx_bind_ok in H as (s1 & [] & Hi & H).
  apply tx_bind_ok in H as (s2 & out' & H & [= <- <-]). unfold route_insert in Hi.
  destruct (_ || _) eqn:E in Hi; [done|]. injection Hi as <-. apply orb_false_iff in E as [E _].
  rewrite existsb_false_iff in E.
  apply IH in H as (-> & -> & Hnd & Hf). cbn [with_routes routes] in *. split_and!; [done| | |].
  - by rewrite <- app_assoc.
  - apply NoDup_cons. split; [|done]. intros Hin. specialize (Hf p (new_route id now p) Hin).
    rewrite elem_of_app, list_elem_of_singleton in Hf. specialize (Hf (or_intror eq_refl)).
    unfold is_route in Hf. simpl in Hf. unfold eqs in Hf. by rewrite !bool_decide_eq_true_2 in Hf.
  - intros q r [-> | Hq]%elem_of_cons Hr; [by apply E|]. apply Hf; [done|]. apply elem_of_app. by left.
Qed.

(** The prefixes a peer has, in the order [ListPeer] gives them. *)
Definition prefixes_of (id : string) (s : Store) : list string :=
  rPrefix <$> stable_sort (λ a b, str_ltb (rPrefix a) (rPrefix b)) (filter (λ r, eqs (rPeerID r) id = true) (routes s)).

Lemma elem_of_prefixes id s p : p ∈ prefixes_of id s ↔ ∃ r, r ∈ routes s ∧ rPeerID r = id ∧ rPrefix r = p.
Proof.
  unfold prefixes_of. rewrite list_elem_of_fmap. setoid_rewrite elem_of_stable_sort. setoid_rewrite list_elem_of_filter.
  setoid_rewrite eqs_true. naive_solver.
Qed.

Lemma Replace_spec id l now s s' added removed :
  Routes_Replace id l now s = Ok (s', (added, removed)) →
  added = filter (λ p, p ∉ prefixes_of id s) l ∧ NoDup added ∧
  removed = filter (λ p, p ∉ l) (prefixes_of id s) ∧
  routes s' = filter (λ r, rPeerID r ≠ id ∨ rPrefix r ∈ l) (routes s) ++ (new_route id now <$> added).
Proof.
  intros H. unfold Routes_Replace in H. apply tx_bind_ok in H as (s0 & cur & [= <- <-] & H).
  apply tx_bind_ok in H as (s1 & rem & Hw & H). apply tx_bind_ok in H as (s2 & add & Ha & [= <- <- <-]).
  apply withdraw_spec in Hw as (Hr & ->). apply add_spec in Ha as (-> & Hr2 & Hnd & _).
  fold (prefixes_of id s) in *. split_and!; [done|done|done|]. rewrite Hr2, Hr. f_equal.
  apply filter_ext_in. intros r Hin. unfold withdrawn. rewrite elem_of_prefixes. split.
  - intros Hw. destruct (decide (rPeerID r = id)); [|by left]. destruct (decide (rPrefix r ∈ l)); [by right|].
    destruct Hw. split_and!; eauto.
  - intros [Hw|Hw] (H1 & _ & H3); done.
Qed.
