(* ===== verification/NetMap.v ===== *)
(** What a peer is told of the network: [internal/control/netmap.go] and
    [policyvis.go].

    The interfaces [Visibility], [Presence] and [Wants] are records of
    functions; the endpoint table is threaded through, since reading it drops
    what has expired.  The texts of JSON and of a lock record are parameters as
    in [LockService]. *)

From S2P Require Import Prelude GoStrings NetIP LockRecord Store Effects Tables Enroll LockService Routes.
From S2P Require Compile Policy Endpoints.

(** ** The map *)

Record NetPeer := {
  npID : string; npName : string; npKind : string; npOwner : string; npPublicKey : string;
  npIPv4 : addr; npIPv6 : addr; npOnline : bool; npEndpoints : list Endpoints.Endpoint; npSymmetric : bool; npKeepalive : bool;
  npAllowedIPs : list prefix; npViaHub : bool; npSignatures : list NetSignature; npExitNode : bool;
  npWanted : bool; npWantSeq : Z;
}.

Record HubPeer := { hpPublicKey : string; hpEndpoint : string; hpAllowedIPs : list prefix; hpSignatures : list NetSignature }.

(** [FilterRule], [ForwardRule] and [Route] are those of the compiler. *)
Record Routing := { roRoutes : list Compile.Route; roExitNodes : list string; roForward : list Compile.ForwardRule }.
Record AdvertisedRoute := { arPrefix : prefix; arApproved : bool }.

Record NetMap := {
  nmGeneration : Z; nmSelfID : string; nmSelfName : string; nmSelfKind : string; nmSelfSignatures : list NetSignature;
  nmSelfIPv4 : addr; nmOverlay : prefix; nmSelfIPv6 : addr; nmOverlay6 : prefix; nmPeers : list NetPeer; nmHub : HubPeer;
  nmFilter : list Compile.FilterRule; nmSTUN : list string; nmLock : option Signed; nmForward : list Compile.ForwardRule;
  nmSelfAdvertised : list AdvertisedRoute;
}.

(** ** Who may see whom *)

(** [Visibility]. *)
Record Visibility := {
  Visible : Peer → Peer → bool;
  FilterFor : Peer → list Compile.FilterRule;
  RoutingFor : Peer → Routing;
}.

(** [OwnerVisibility]. *)
Definition OwnerVisibility : Visibility := {|
  Visible := λ a b, negb (eqs (pOwnerID a) "") && eqs (pOwnerID a) (pOwnerID b);
  FilterFor := λ _, [];
  RoutingFor := λ _, {| roRoutes := []; roExitNodes := []; roForward := [] |};
|}.

(** [PolicyVisibility] of one compilation, as [Snapshot] leaves it; without one
    nothing is visible. *)
Definition PolicyVisibility (c : option Compile.Compiled) : Visibility := {|
  Visible := λ a b, match c with Some c => Compile.Visible c (pID a) (pID b) | None => false end;
  FilterFor := λ dst, match c with Some c => Compile.FilterFor c (pID dst) | None => [] end;
  RoutingFor := λ self,
    match c with
    | Some c => {| roRoutes := Compile.RoutesFor c (pID self); roExitNodes := Compile.ExitNodesFor c (pID self);
                   roForward := Compile.ForwardFor c (pID self) |}
    | None => {| roRoutes := []; roExitNodes := []; roForward := [] |}
    end;
|}.

(** [PolicyPeers]. *)
Definition policy_peer (names : gmap string string) (routes : gmap string (list prefix)) (p : Peer) : Compile.Peer :=
  {| Compile.ID := pID p; Compile.Name := pName p; Compile.Owner := default "" (names !! pOwnerID p); Compile.Tags := pTags p;
     Compile.IPv4 := default AddrNone (ParseAddr (pIPv4 p));
     Compile.IPv6 := match ParseAddr (pIPv6 p) with Some a => if Is6 a then a else AddrNone | None => AddrNone end;
     Compile.Routes := default [] (routes !! pID p) |}.

Definition PolicyPeers (ps : list Peer) (names : gmap string string) (routes : gmap string (list prefix)) : list Compile.Peer :=
  policy_peer names routes <$> ps.

(** [ownerNames]: user ids to names. *)
Definition ownerNames (us : list User) : gmap string string := foldl (λ m u, <[uID u := uName u]> m) ∅ us.

(** ** Building *)

Record HubConfig := {
  hcPublicKey : string; hcEndpoint : string; hcAddress : addr; hcOverlay : prefix; hcAddress6 : addr; hcOverlay6 : prefix;
  hcSTUNAddrs : list string;
}.

(** [NetMapBuilder], with the view one build is bound to; [nil] presence,
    endpoints and wants are [None]. *)
Record NetMapBuilder := {
  bVisibility : Visibility; bHub : HubConfig; bGeneration : Z;
  bPresence : option (string → bool); bWants : option (string → string → Z);
}.

Definition capableIPv6 (p : Peer) : addr :=
  if negb (pIPv6Capable p) || eqs (pIPv6 p) "" then AddrNone
  else match ParseAddr (pIPv6 p) with Some a => if Is6 a then a else AddrNone | None => AddrNone end.

Definition ipv4Filter (rules : list Compile.FilterRule) : list Compile.FilterRule := filter (λ r, Is4 (Compile.frSrc r) = true) rules.
Definition ipv4Forward (rules : list Compile.ForwardRule) : list Compile.ForwardRule :=
  filter (λ r, Is4 (Compile.fwSrc r) && Is4 (paddr (Compile.fwDst r)) = true) rules.

(** [viaRoutes]: the prefixes by the router they go through. *)
Definition via_routes (l : list Compile.Route) : gmap string (list prefix) :=
  foldl (λ m r, <[Compile.rtVia r := default [] (m !! Compile.rtVia r) ++ [Compile.rtPrefix r]]> m) ∅ l.

Definition advertised_routes (rows : list PeerRoute) : list AdvertisedRoute :=
  omap (λ a, match ParsePrefix (rPrefix a) with Some p => Some {| arPrefix := p; arApproved := rApproved a |} | None => None end) rows.

(** What the loop over the peers reads. *)
Record Reading := {
  rdSelf : Peer; rdSelf6 : addr; rdOwners : gmap string string; rdSigs : gmap string (list NetSignature);
  rdVia : gmap string (list prefix); rdExit : list string;
}.

Section Build.
Context (decode : string → option Signed) (b : NetMapBuilder) (clock : string → Z).

(** A peer the receiver gets an entry for, with its addresses. *)
Definition entry_for (rd : Reading) (p : Peer) : option (addr * addr) :=
  if eqs (pID p) (pID (rdSelf rd)) then None
  else
    match ParseAddr (pIPv4 p) with
    | None => None
    | Some ip =>
        if negb (Visible (bVisibility b) (rdSelf rd) p) then None
        else Some (ip, if IsValid (rdSelf6 rd) then capableIPv6 p else AddrNone)
    end.

Definition host_prefixes (ip ip6 : addr) : list prefix :=
  PrefixFrom ip 32 :: if IsValid ip6 then [PrefixFrom ip6 128] else [].

Definition static_entry (rd : Reading) (p : Peer) (ip ip6 : addr) (online : bool) : NetPeer :=
  {| npID := pID p; npName := pName p; npKind := pKind p; npOwner := default "" (rdOwners rd !! pOwnerID p); npPublicKey := pPublicKey p;
     npIPv4 := ip; npIPv6 := ip6; npOnline := online; npEndpoints := []; npSymmetric := false; npKeepalive := false; npAllowedIPs := []; npViaHub := true;
     npSignatures := default [] (rdSigs rd !! sig_index (pID p) (pPublicKey p)); npExitNode := false; npWanted := false; npWantSeq := 0 |}.

Definition agent_entry (rd : Reading) (p : Peer) (ip ip6 : addr) (online : bool) (eps : list Endpoints.Endpoint) (sym : bool)
    (seq : Z) : NetPeer :=
  {| npID := pID p; npName := pName p; npKind := pKind p; npOwner := default "" (rdOwners rd !! pOwnerID p); npPublicKey := pPublicKey p;
     npIPv4 := ip; npIPv6 := ip6; npOnline := online; npEndpoints := eps; npSymmetric := sym; npKeepalive := false;
     npAllowedIPs := host_prefixes ip ip6 ++ default [] (rdVia rd !! pID p); npViaHub := false;
     npSignatures := default [] (rdSigs rd !! sig_index (pID p) (pPublicKey p)); npExitNode := bool_decide (pID p ∈ rdExit rd);
     npWanted := negb (seq =? 0); npWantSeq := seq |}.

Definition online_of (id : string) : bool := match bPresence b with Some f => f id | None => false end.
Definition want_of (to from : string) : Z := match bWants b with Some f => f to from | None => 0 end.

(** The loop over the peers: the endpoint table (if any), what the hub routes,
    and the entries. *)
Fixpoint add_peers (rd : Reading) (ps : list Peer) (st : option Endpoints.EndpointTable * list prefix * list NetPeer) :
    option Endpoints.EndpointTable * list prefix * list NetPeer :=
  match ps with
  | [] => st
  | p :: rest =>
      match entry_for rd p with
      | None => add_peers rd rest st
      | Some (ip, ip6) =>
          let '(eps, hub, out) := st in
          if eqs (pMode p) ModeStatic
          then add_peers rd rest (eps, hub ++ host_prefixes ip ip6, out ++ [static_entry rd p ip ip6 (online_of (pID p))])
          else
            let '(eps, (l, sym)) :=
              match eps with Some t => let '(t, r) := Endpoints.Get (clock (pID p)) (pID p) t in (Some t, r) | None => (None, ([], false)) end in
            add_peers rd rest
              (eps, hub, out ++ [agent_entry rd p ip ip6 (online_of (pID p)) l sym (want_of (pID (rdSelf rd)) (pID p))])
      end
  end.

(** The rest of [Build], from what was read. *)
Definition build_map (eps : option Endpoints.EndpointTable) (self : Peer) (selfIP : addr) (all : list Peer) (us : list User)
    (lockRec : option Signed) (sigRows : list PeerSignature) (advertised : list PeerRoute) : option Endpoints.EndpointTable * NetMap :=
  let vis := bVisibility b in
  let hub := bHub b in
  let sigs := IndexSignatures sigRows in
  let routing := RoutingFor vis self in
  let self6 := capableIPv6 self in
  let v6 := IsValid self6 && PIsValid (hcOverlay6 hub) in
  let rd := {| rdSelf := self; rdSelf6 := if v6 then self6 else AddrNone; rdOwners := ownerNames us; rdSigs := sigs;
               rdVia := via_routes (roRoutes routing); rdExit := roExitNodes routing |} in
  let hub0 := PrefixFrom (hcAddress hub) 32 :: if v6 && IsValid (hcAddress6 hub) then [PrefixFrom (hcAddress6 hub) 128] else [] in
  let '(eps, allowed, peers) := add_peers rd all (eps, hub0, []) in
  (eps,
   {| nmGeneration := bGeneration b; nmSelfID := pID self; nmSelfName := pName self; nmSelfKind := pKind self;
      nmSelfSignatures := default [] (sigs !! sig_index (pID self) (pPublicKey self)); nmSelfIPv4 := selfIP;
      nmOverlay := hcOverlay hub; nmSelfIPv6 := if v6 then self6 else AddrNone; nmOverlay6 := if v6 then hcOverlay6 hub else NoPrefix;
      nmPeers := peers;
      nmHub := {| hpPublicKey := hcPublicKey hub; hpEndpoint := hcEndpoint hub; hpAllowedIPs := allowed;
                  hpSignatures := default [] (sigs !! sig_index HubID (hcPublicKey hub)) |};
      nmFilter := if v6 then FilterFor vis self else ipv4Filter (FilterFor vis self);
      nmSTUN := hcSTUNAddrs hub; nmLock := lockRec;
      nmForward := if v6 then roForward routing else ipv4Forward (roForward routing);
      nmSelfAdvertised := advertised_routes advertised |}).

(** [Build] on the database as it is at the time. *)
Definition Build (eps : option Endpoints.EndpointTable) (peerID : string) : tx cerror (option Endpoints.EndpointTable * NetMap) :=
  self ← lift (λ e, match e with ErrNotFound => ErrMissing | e => ErrStore e end) (Peers_GetByID peerID);
  all ← lift ErrStore Peers_List;
  selfIP ← of_result (of_option ErrInternal (ParseAddr (pIPv4 self)));
  us ← lift ErrStore Users_List;
  lockRec ← LoadLockRecord decode;
  sigRows ← lift ErrStore Signatures_ListAll;
  advertised ← lift ErrStore (Routes_ListPeer (pID self));
  mret (build_map eps self selfIP all us lockRec sigRows advertised).
End Build.
