(* ===== verification/PolicySvc.v ===== *)
(** The policy service ([internal/control/policysvc.go]): loading, validating and
    replacing the running policy, and its compiled form, cached per policy and
    generation of the database.

    The file's content, the clocks and the notifier's part are inputs.  A
    [*policy.Policy] is the number of the publication that allocated it, so that
    comparing pointers compares numbers. *)

From S2P Require Import Prelude GoStrings NetIP Store Effects Enroll Routes NetMap.
From S2P Require Compile Policy Selector.

Definition AuditPolicyReload : string := "policy.reload".

(** ** Documents *)

(** What reading the policy file gives. *)
Inductive policy_file := FileMissing | FileUnreadable | FileText (data : list byte).
Inductive load_error := LoadNotFound | LoadRead | LoadParse (e : Policy.policy_error).

(** The lines of [errorLines], one per problem. *)
Inductive problem :=
  | PFile (e : load_error) | PField (e : Policy.field_error) | PRegistry (e : Policy.reg_error) | PStore (e : store_error).

Definition errorLines (e : load_error) : list problem :=
  match e with LoadParse (Policy.BadFields es) => PField <$> es | e => [PFile e] end.

Record PolicyReport := {
  rpHash : string; rpSummary : Compile.Summary; rpWarnings : list Policy.reg_warning; rpErrors : list problem; rpSource : list byte;
}.
Definition no_summary : Compile.Summary := {| Compile.sRules := 0; Compile.sPeers := 0; Compile.sVisiblePairs := 0 |}.

(** The errors of the service. *)
Inductive policy_svc_error :=
  | ErrPolicyInvalid | ErrPolicyLoad (e : load_error) | ErrPolicyRegistry (es : list Policy.reg_error) | ErrPolicyStore (e : cerror).

(** ** State *)

Record PolicyService := {
  psPolicies : list Policy.Policy;          (** every policy published, the oldest first *)
  psCurrent : nat;
  psWarnings : list Policy.reg_warning;
  psCompiled : option Compile.Compiled;
  psCacheGen : Z;
  psCacheKey : string;
}.

Definition NewPolicyService : PolicyService :=
  {| psPolicies := [Policy.Empty]; psCurrent := 0; psWarnings := []; psCompiled := None; psCacheGen := -1; psCacheKey := "" |}.

Definition policy_at (n : nat) (svc : PolicyService) : Policy.Policy := default Policy.Empty (psPolicies svc !! n).

(** [Current]. *)
Definition Current (svc : PolicyService) : Policy.Policy := policy_at (psCurrent svc) svc.

(** [s.current, s.warnings, s.compiled = p, warnings, nil] under the lock. *)
Definition publish (p : Policy.Policy) (w : list Policy.reg_warning) (svc : PolicyService) : PolicyService :=
  {| psPolicies := psPolicies svc ++ [p]; psCurrent := length (psPolicies svc); psWarnings := w; psCompiled := None;
     psCacheGen := psCacheGen svc; psCacheKey := psCacheKey svc |}.

Section Service.
Context (decode : list byte → option Policy.document) (overlay_ overlay6_ : prefix).

Definition Load (f : policy_file) : result load_error Policy.Policy :=
  match f with
  | FileMissing => Err LoadNotFound
  | FileUnreadable => Err LoadRead
  | FileText data => match Policy.Parse decode data with Ok p => Ok p | Err e => Err (LoadParse e) end
  end.

(** ** The registry *)

Definition add_tag (out : list string) (t : string) : list string := if bool_decide (t ∈ out) then out else out ++ [t].

Definition registry_of (us : list User) (ps : list Peer) (rows : list PeerRoute) : list Compile.Peer * Policy.Registry :=
  (PolicyPeers ps (ownerNames us) (ApprovedRoutes rows),
   {| Policy.regUsers := uName <$> us; Policy.regPeers := pName <$> ps; Policy.regTags := foldl add_tag [] (concat (pTags <$> ps));
      Policy.Overlay := overlay_; Policy.Overlay6 := overlay6_ |}).

(** [registry], when nothing is written between its three reads. *)
Definition registry : tx store_error (list Compile.Peer * Policy.Registry) :=
  us ← Users_List; ps ← Peers_List; rows ← Routes_ListAll; mret (registry_of us ps rows).

(** [validate]: the errors found and the warnings. *)
Definition validate (p : Policy.Policy) (s : Store) : result store_error (list Policy.reg_error * list Policy.reg_warning) :=
  match registry s with Ok (_, r) => Ok (Policy.Validate p r.2) | Err e => Err e end.

(** ** The compiled form *)

(** Under the lock: the cached form if it is the one of the running policy at
    generation [gen]. *)
Definition cache_hit (gen : Z) (svc : PolicyService) : option Compile.Compiled :=
  match psCompiled svc with
  | Some c => if (psCacheGen svc =? gen) && eqs (psCacheKey svc) (Policy.Hash (Current svc)) && (0 <=? gen) then Some c else None
  | None => None
  end.

(** Under the lock: the cache keeps [c] unless a newer policy was published. *)
Definition cache_put (cur : nat) (gen : Z) (c : Compile.Compiled) (svc : PolicyService) : PolicyService :=
  if (psCurrent svc =? cur)%nat
  then {| psPolicies := psPolicies svc; psCurrent := psCurrent svc; psWarnings := psWarnings svc; psCompiled := Some c;
          psCacheGen := gen; psCacheKey := Policy.Hash (policy_at cur svc) |}
  else svc.

Definition compile_read (cur : nat) (us : list User) (ps : list Peer) (rows : list PeerRoute) (svc : PolicyService) : Compile.Compiled :=
  Compile.CompileWith (policy_at cur svc) (registry_of us ps rows).1 overlay_.

(** What is returned when the registry cannot be read. *)
Definition fallback (cached : option Compile.Compiled) : Compile.Compiled := default (Compile.Compile Policy.Empty []) cached.

(** How far a call of [Compiled] is. *)
Inductive reading :=
  | RStart
  | RGen (gen : Z)
  | RMiss (gen : Z) (cur : nat) (cached : option Compile.Compiled)
  | RUsers (gen : Z) (cur : nat) (cached : option Compile.Compiled) (us : list User)
  | RPeers (gen : Z) (cur : nat) (cached : option Compile.Compiled) (us : list User) (ps : list Peer)
  | RRoutes (gen : Z) (cur : nat) (us : list User) (ps : list Peer) (rows : list PeerRoute)
  | RDone (c : Compile.Compiled).

(** The rows a statement gives, unless it fails ([ok] false) for a reason the
    database's contents do not tell. *)
Definition rows_of {A} (ok : bool) (m : tx store_error A) (s : Store) : option A :=
  if ok then match m s with Ok (_, a) => Some a | Err _ => None end else None.

(** One step of a call of [Compiled]: a statement, or a section under the lock. *)
Definition compiled_step (ok : bool) (s : Store) (svc : PolicyService) (r : reading) : PolicyService * reading :=
  match r with
  | RStart => (svc, RGen (default (-1) (rows_of ok Generation s)))
  | RGen gen => (svc, match cache_hit gen svc with Some c => RDone c | None => RMiss gen (psCurrent svc) (psCompiled svc) end)
  | RMiss gen cur cached =>
      (svc, match rows_of ok Users_List s with Some us => RUsers gen cur cached us | None => RDone (fallback cached) end)
  | RUsers gen cur cached us =>
      (svc, match rows_of ok Peers_List s with Some ps => RPeers gen cur cached us ps | None => RDone (fallback cached) end)
  | RPeers gen cur cached us ps =>
      (svc, match rows_of ok Routes_ListAll s with Some rows => RRoutes gen cur us ps rows | None => RDone (fallback cached) end)
  | RRoutes gen cur us ps rows => let c := compile_read cur us ps rows svc in (cache_put cur gen c svc, RDone c)
  | RDone c => (svc, r)
  end.

(** A call nothing interrupts takes at most six steps. *)
Definition compiled_steps (s : Store) : PolicyService * reading → PolicyService * reading :=
  λ sr, compiled_step true s sr.1 sr.2.
Definition Compiled (s : Store) (svc : PolicyService) : PolicyService * Compile.Compiled :=
  match Nat.iter 6 (compiled_steps s) (svc, RStart) with
  | (svc, RDone c) => (svc, c)
  | (svc, _) => (svc, fallback None)
  end.

(** ** Operations *)

(** [LoadInitial]. *)
Definition LoadInitial (f : policy_file) (s : Store) (svc : PolicyService) : result policy_svc_error PolicyService :=
  let p := match Load f with Err LoadNotFound => Ok Policy.Empty | r => r end in
  match p with
  | Err e => Err (ErrPolicyLoad e)
  | Ok p =>
      match validate p s with
      | Err e => Err (ErrPolicyStore (ErrStore e))
      | Ok ([], w) => Ok (publish p w svc)
      | Ok (es, _) => Err (ErrPolicyRegistry es)
      end
  end.

(** The transaction of [Reload]. *)
Definition reload_tx (on : bool) (by_ : Principal) (path : string) (p : Policy.Policy) (anow : Z) : tx cerror unit :=
  lift ErrStore IncrementGeneration ;;
  audit_record on anow by_ AuditPolicyReload path [("hash", Policy.Hash p); ("rules", itoa (Z.of_nat (length (Policy.ACLs p))))].

(** [Reload] up to its transaction: a failed report, or the policy to publish. *)
Definition reload_checks (f : policy_file) (s : Store) : result PolicyReport (Policy.Policy * list Policy.reg_warning) :=
  match Load f with
  | Err e => Err {| rpHash := ""; rpSummary := no_summary; rpWarnings := []; rpErrors := errorLines e; rpSource := [] |}
  | Ok p =>
      match validate p s with
      | Err e => Err {| rpHash := Policy.Hash p; rpSummary := no_summary; rpWarnings := []; rpErrors := [PStore e]; rpSource := [] |}
      | Ok ([], w) => Ok (p, w)
      | Ok (es, w) =>
          Err {| rpHash := Policy.Hash p; rpSummary := no_summary; rpWarnings := w; rpErrors := PRegistry <$> es; rpSource := [] |}
      end
  end.

(** [Reload]. *)
Definition Reload (on : bool) (by_ : Principal) (path : string) (f : policy_file) (anow : Z) (s : Store) (svc : PolicyService) :
    Store * PolicyService * (PolicyReport * option policy_svc_error) :=
  match reload_checks f s with
  | Err r => (s, svc, (r, Some ErrPolicyInvalid))
  | Ok (p, w) =>
      match InTx (reload_tx on by_ path p anow) s with
      | (s', Err e) =>
          (s', svc, ({| rpHash := ""; rpSummary := no_summary; rpWarnings := []; rpErrors := []; rpSource := [] |}, Some (ErrPolicyStore e)))
      | (s', Ok _) =>
          let '(svc, c) := Compiled s' (publish p w svc) in
          (s', svc, ({| rpHash := Policy.Hash p; rpSummary := Compile.summary c; rpWarnings := w; rpErrors := []; rpSource := [] |}, None))
      end
  end.

(** [Check]. *)
Definition Check_ (data : list byte) (s : Store) : PolicyReport :=
  match Policy.Parse decode data with
  | Err e => {| rpHash := ""; rpSummary := no_summary; rpWarnings := []; rpErrors := errorLines (LoadParse e); rpSource := [] |}
  | Ok p =>
      match validate p s with
      | Err e => {| rpHash := Policy.Hash p; rpSummary := no_summary; rpWarnings := []; rpErrors := [PStore e]; rpSource := [] |}
      | Ok ([], w) =>
          match registry s with
          | Err e => {| rpHash := Policy.Hash p; rpSummary := no_summary; rpWarnings := w; rpErrors := [PStore e]; rpSource := [] |}
          | Ok (_, r) =>
              {| rpHash := Policy.Hash p; rpSummary := Compile.summary (Compile.CompileWith p r.1 overlay_); rpWarnings := w;
                 rpErrors := []; rpSource := [] |}
          end
      | Ok (es, w) =>
          {| rpHash := Policy.Hash p; rpSummary := no_summary; rpWarnings := w; rpErrors := PRegistry <$> es; rpSource := [] |}
      end
  end.

(** [Show]. *)
Definition Show_ (s : Store) (svc : PolicyService) : PolicyService * PolicyReport :=
  let p := Current svc in
  let '(svc', c) := Compiled s svc in
  (svc', {| rpHash := Policy.Hash p; rpSummary := Compile.summary c; rpWarnings := psWarnings svc; rpErrors := [];
            rpSource := Policy.Source p |}).

(** [PeerRefs], [TagAllowed] and [FilterFor]. *)
Definition place_text (w : nat * bool * nat) : string :=
  "acls[" +:+ itoa (Z.of_nat w.1.1) +:+ (if w.1.2 then "].dst[" else "].src[") +:+ itoa (Z.of_nat w.2) +:+ "]".
Definition PeerRefs (name : string) (svc : PolicyService) : list string :=
  place_text <$> default [] (Policy.PeerReferences (Current svc) !! name).
Definition TagAllowed (user tag : string) (s : Store) (svc : PolicyService) : PolicyService * bool :=
  let '(svc, c) := Compiled s svc in (svc, Compile.MayUseTag c user tag).
Definition PolicyFilterFor (peerID : string) (s : Store) (svc : PolicyService) : PolicyService * list Compile.FilterRule :=
  let '(svc, c) := Compiled s svc in (svc, Compile.FilterFor c peerID).

(** What enrolment and the tokens ask of the service. *)
Definition service_policies (s : Store) (svc : PolicyService) : Policies :=
  {| tagAllowed := Some (λ user tag, (TagAllowed user tag s svc).2); peerRefs := Some (λ name, PeerRefs name svc) |}.
End Service.
