(* ===== verification/Handlers.v ===== *)
(** What the handlers of the control plane keep and touch.

    Each handler is some tests and one transaction; the transaction keeps the
    constraints of the tables and touches only the tables listed. *)

From S2P Require Import Prelude GoStrings NetIP LockRecord Store Effects Tables Names Enroll Users LockService Registry Routes PolicySvc.

#[export] Hint Resolve Users_Create_tables Peers_Create_tables Peers_Rename_tables Peers_SetPublicKey_tables
  SetIPv6Capable_tables Peers_Delete_tables Tokens_Create_tables Tokens_MarkUsed_tables Tokens_Delete_tables
  Routes_Replace_tables Routes_SetApproved_tables Signatures_Put_tables Audit_Append_tables Audit_Prune_tables : tables.

Lemma Signatures_DeletePeer_tables id : keeps tables_ok (Signatures_DeletePeer id).
Proof. intros s s' a Hok [= <- _]. by apply signatures_filter_tables. Qed.

Lemma Signatures_DeleteKey_tables id k : keeps tables_ok (Signatures_DeleteKey id k).
Proof. intros s s' a Hok [= <- _]. by apply signatures_filter_tables. Qed.

Lemma Increment_keeps_tables : keeps tables_ok IncrementGeneration.
Proof. intros s s' a Hok H. by eapply Increment_tables. Qed.

Lemma Meta_Set_keeps_tables k v : k ≠ MetaNetmapGeneration → keeps tables_ok (Meta_Set k v).
Proof. intros Hk s s' a Hok H. by eapply Meta_Set_tables. Qed.

Lemma audit_record_tables on now by_ action target details : keeps tables_ok (audit_record on now by_ action target details).
Proof. unfold audit_record. destruct on; [|apply keeps_ret]. apply keeps_lift, Audit_Append_tables. Qed.

Lemma audit_record_touches on now by_ action target details : touches [TAudit] (audit_record on now by_ action target details).
Proof. unfold audit_record. destruct on; [|apply touches_ret]. apply touches_lift, touches_Append. Qed.

#[export] Hint Resolve Signatures_DeletePeer_tables Signatures_DeleteKey_tables Increment_keeps_tables audit_record_tables : tables.
#[export] Hint Resolve audit_record_touches : touches.

Tactic Notation "keep_tables" := solve_keeps with (auto with tables).

Section Keys.
Context (Verify : PublicKey → list byte → Signature → bool)
  (ParseKey : string → option (list byte)) (KeyString : list byte → string)
  (encode : Signed → string) (decode : string → option Signed).

Lemma reads_LoadLockRecord : reads (LoadLockRecord decode).
Proof.
  intros s s' a. unfold LoadLockRecord. destruct (Meta_Get _ s) as [[s1 raw]|[]]; repeat case_match; by intros [= <- _].
Qed.
Hint Resolve reads_LoadLockRecord : tx.

Lemma reads_requireAdminOwner p : reads (requireAdminOwner p).
Proof. unfold requireAdminOwner, Users_GetByID. solve_reads. Qed.

Lemma reads_signerKeyOf p k : reads (signerKeyOf decode p k).
Proof. unfold signerKeyOf. solve_reads. Qed.

Lemma reads_RecordOf svc id k : reads (RecordOf ParseKey svc id k).
Proof. unfold RecordOf, Peers_GetByID. solve_reads. Qed.

Lemma reads_VerifyRotation p k signer sig now : reads (VerifyRotation Verify ParseKey decode p k signer sig now).
Proof. unfold VerifyRotation. pose proof (reads_signerKeyOf p signer). solve_reads. Qed.
End Keys.

#[export] Hint Resolve reads_LoadLockRecord reads_requireAdminOwner reads_signerKeyOf reads_RecordOf reads_VerifyRotation : tx.

(** The transactions of the handlers. *)
Section Transactions.
Context (Verify : PublicKey → list byte → Signature → bool)
  (ParseKey : string → option (list byte)) (KeyString : list byte → string)
  (encode : Signed → string) (decode : string → option Signed).

Lemma issue_keeps au by_ req owner tags tok anow : keeps tables_ok (issue_tx au by_ req owner tags tok anow).
Proof. unfold issue_tx. keep_tables. Qed.
Lemma issue_touches au by_ req owner tags tok anow : touches [TTokens; TAudit] (issue_tx au by_ req owner tags tok anow).
Proof. unfold issue_tx. solve_touches. Qed.

Lemma revoke_keeps au by_ id anow : keeps tables_ok (revoke_tx au by_ id anow).
Proof. unfold revoke_tx. keep_tables. Qed.
Lemma revoke_touches au by_ id anow : touches [TTokens; TAudit] (revoke_tx au by_ id anow).
Proof. unfold revoke_tx. solve_touches. Qed.

Lemma enroll_keeps e pol req d pub : keeps tables_ok (enroll_tx KeyString e pol req d pub).
Proof. unfold enroll_tx, Tokens_GetByHash. keep_tables. Qed.
Lemma enroll_touches e pol req d pub : touches [TPeers; TTokens; TGeneration; TAudit] (enroll_tx KeyString e pol req d pub).
Proof. unfold enroll_tx, Tokens_GetByHash. solve_touches. Qed.

Lemma rename_keeps r by_ p n n' anow : keeps tables_ok (rename_tx r by_ p n n' anow).
Proof. unfold rename_tx. keep_tables. Qed.
Lemma rename_touches r by_ p n n' anow : touches [TPeers; TAudit; TGeneration] (rename_tx r by_ p n n' anow).
Proof. unfold rename_tx. solve_touches. Qed.

Lemma delete_keeps r id by_ act n anow : keeps tables_ok (delete_tx r id by_ act n anow).
Proof. unfold delete_tx, Peers_GetByID. keep_tables. Qed.
Lemma delete_touches r id by_ act n anow :
  touches [TPeers; TTokens; TRoutes; TSignatures; TAudit; TGeneration] (delete_tx r id by_ act n anow).
Proof. unfold delete_tx, Peers_GetByID. solve_touches. Qed.

Lemma rotate_keeps r id k sr now anow : keeps tables_ok (rotate_tx Verify ParseKey decode r id k sr now anow).
Proof. unfold rotate_tx, Peers_GetByID. keep_tables. Qed.
Lemma rotate_touches r id k sr now anow :
  touches [TPeers; TSignatures; TAudit; TGeneration] (rotate_tx Verify ParseKey decode r id k sr now anow).
Proof. unfold rotate_tx, Peers_GetByID. solve_touches. Qed.

Lemma capable_keeps id c : keeps tables_ok (capable_tx id c).
Proof. unfold capable_tx. keep_tables. Qed.
Lemma capable_touches id c : touches [TPeers; TGeneration] (capable_tx id c).
Proof. unfold capable_tx. solve_touches. Qed.

Lemma static_keeps r by_ req owner kind tags d key pub : keeps tables_ok (static_tx KeyString r by_ req owner kind tags d key pub).
Proof. unfold static_tx. keep_tables. Qed.
Lemma static_touches r by_ req owner kind tags d key pub :
  touches [TPeers; TAudit; TGeneration] (static_tx KeyString r by_ req owner kind tags d key pub).
Proof. unfold static_tx. solve_touches. Qed.

Lemma audit_routes_keeps on anow by_ act l : keeps tables_ok (audit_routes on anow by_ act l).
Proof. induction l as [|p l IH]; cbn [audit_routes]; [apply keeps_ret|]. apply keeps_bind; [auto with tables|]. by intros. Qed.
Lemma audit_routes_touches on anow by_ act l : touches [TAudit] (audit_routes on anow by_ act l).
Proof. induction l as [|p l IH]; cbn [audit_routes]; [apply touches_ret|]. apply touches_bind; [auto with touches|]. by intros. Qed.
Hint Resolve audit_routes_keeps : tables.
Hint Resolve audit_routes_touches : touches.

Lemma advertise_keeps on by_ l now anow : keeps tables_ok (advertise_tx on by_ l now anow).
Proof. unfold advertise_tx. keep_tables. Qed.
Lemma advertise_touches on by_ l now anow : touches [TRoutes; TAudit; TGeneration] (advertise_tx on by_ l now anow).
Proof. unfold advertise_tx. solve_touches. Qed.

Lemma approve_keeps on by_ p n pfx ap now anow : keeps tables_ok (approve_tx on by_ p n pfx ap now anow).
Proof. unfold approve_tx. keep_tables. Qed.
Lemma approve_touches on by_ p n pfx ap now anow : touches [TRoutes; TAudit; TGeneration] (approve_tx on by_ p n pfx ap now anow).
Proof. unfold approve_tx. solve_touches. Qed.

Lemma sign_keeps svc by_ sa : keeps tables_ok (signInTx Verify ParseKey svc by_ sa).
Proof. unfold signInTx. keep_tables. Qed.
Lemma sign_touches svc by_ sa : touches [TSignatures; TAudit; TGeneration] (signInTx Verify ParseKey svc by_ sa).
Proof. unfold signInTx. solve_touches. Qed.
Hint Resolve sign_keeps : tables.
Hint Resolve sign_touches : touches.

Lemma sign_all_keeps svc by_ k l : keeps tables_ok (sign_all Verify ParseKey svc by_ k l).
Proof. induction l as [|sa l IH]; cbn [sign_all]; keep_tables. Qed.
Lemma sign_all_touches svc by_ k l : touches [TSignatures; TAudit; TGeneration] (sign_all Verify ParseKey svc by_ k l).
Proof. induction l as [|sa l IH]; cbn [sign_all]; solve_touches; done. Qed.
Hint Resolve sign_all_keeps : tables.
Hint Resolve sign_all_touches : touches.

Lemma user_keeps on by_ u anow : keeps tables_ok (user_tx on by_ u anow).
Proof. unfold user_tx. keep_tables. Qed.
Lemma user_touches on by_ u anow : touches [TUsers; TAudit] (user_tx on by_ u anow).
Proof. unfold user_tx. solve_touches. Qed.

Lemma reload_keeps on by_ path p anow : keeps tables_ok (reload_tx on by_ path p anow).
Proof. unfold reload_tx. keep_tables. Qed.
Lemma reload_touches on by_ path p anow : touches [TGeneration; TAudit] (reload_tx on by_ path p anow).
Proof. unfold reload_tx. solve_touches. Qed.

Lemma lock_meta_touches r : touches [TMeta] (Meta_Set MetaLockRecord (encode r)).
Proof. by apply touches_Meta_Set. Qed.
Lemma lock_meta_keeps r : keeps tables_ok (Meta_Set MetaLockRecord (encode r)).
Proof. by apply Meta_Set_keeps_tables. Qed.
Hint Resolve lock_meta_keeps : tables.
Hint Resolve lock_meta_touches : touches.

Lemma set_keeps svc by_ next l anow : keeps tables_ok (set_tx Verify ParseKey encode decode svc by_ next l anow).
Proof. unfold set_tx. keep_tables. Qed.
Lemma set_touches svc by_ next l anow :
  touches [TMeta; TSignatures; TAudit; TGeneration] (set_tx Verify ParseKey encode decode svc by_ next l anow).
Proof. unfold set_tx. solve_touches. Qed.
End Transactions.
