(* ===== verification/Control.v ===== *)
(** The control plane as a whole: the handlers of [internal/control] on one
    database, called in any order.

    A call carries what it reads from outside: the principal or peer the
    transport authenticated, the policy in force, the clocks, random bytes and
    keys. *)

From S2P Require Import Prelude GoStrings NetIP LockRecord Store Effects Tables Names Enroll LockService Registry Routes Handlers.
From S2P Require Limiter Users Policy PolicySvc.

(** [cfIDKey] is Argon2id. *)
Record Config := {
  cfEnroller : Enroller; cfRegistry : Registry; cfAudit : bool; cfOverlay : prefix;
  cfIDKey : list byte → list byte → Z → Z → Z → Z → option (list byte); cfDummyHash : string; cfPolicyPath : string;
}.

(** What lives in memory beside the database. *)
Record State := { stLimit : gmap string (list Z); stLock : LockService; stUsers : Users.Users; stStore : Store }.

Inductive call :=
  | CIssue (pol : Policies) (by_ : Principal) (req : TokenRequest) (d : Draw)
  | CRevoke (by_ : Principal) (id : string) (anow : Z)
  | CEnroll (pol : Policies) (lnow : Z) (req : EnrollRequest) (d : Draw)
  | CRename (pol : Policies) (by_ : Principal) (name newName : string) (force : bool) (anow : Z)
  | CDelete (by_ : Principal) (name : string) (anow : Z)
  | CLeave (peerID : string) (anow : Z)
  | CRotateKey (peerID newPublicKey : string) (signed : option SignedRotation) (now anow : Z)
  | CSetIPv6Capable (peerID : string) (capable : bool)
  | CTouch (peerID : string) (now : Z)
  | CSetClientVersion (peerID version : string)
  | CCreateStatic (pol : Policies) (by_ : Principal) (req : StaticRequest) (d : Draw) (key pub : list byte)
  | CAdvertise (by_ : Peer) (raw : list string) (now anow : Z)
  | CSetApproved (by_ : Principal) (name prefix : string) (approved : bool) (now anow : Z)
  | CLockSet (by_ : Peer) (next : Signed) (sigs : list SigningAt) (anow : Z)
  | CLockSign (by_ : Peer) (sa : SigningAt)
  | CReportKey (peerID key : string)
  | CCreateUser (by_ : Principal) (name role password : string) (salt rnd : list byte) (now anow : Z)
  | CLogin (name password : string) (now fnow anow : Z)
  | CReload (by_ : Principal) (p : Policy.Policy) (anow : Z).

Section Control.
Context (Verify : PublicKey → list byte → Signature → bool)
  (ParseKey : string → option (list byte)) (KeyString : list byte → string)
  (encode : Signed → string) (decode : string → option Signed) (cf : Config).

Definition on_store {A} (st : State) (r : Store * result cerror A) : State * option cerror :=
  ({| stLimit := stLimit st; stLock := stLock st; stUsers := stUsers st; stStore := r.1 |}, match r.2 with Ok _ => None | Err e => Some e end).

(** One call: the state after it and its error, if any. *)
Definition do_call (st : State) (c : call) : State * option cerror :=
  let s := stStore st in
  match c with
  | CIssue pol by_ req d => on_store st (Tokens_Issue pol (cfAudit cf) by_ req d s)
  | CRevoke by_ id anow => on_store st (Tokens_Revoke (cfAudit cf) by_ id anow s)
  | CEnroll pol lnow req d =>
      let '(lim, s', r) := Enroll ParseKey KeyString (cfEnroller cf) pol lnow req d (stLimit st) s in
      ({| stLimit := lim; stLock := stLock st; stUsers := stUsers st; stStore := s' |}, match r with Ok _ => None | Err e => Some e end)
  | CRename pol by_ name newName force anow => on_store st (Registry_Rename (cfRegistry cf) pol by_ name newName force anow s)
  | CDelete by_ name anow => on_store st (Registry_Delete (cfRegistry cf) by_ name anow s)
  | CLeave id anow => on_store st (Registry_Leave (cfRegistry cf) id anow s)
  | CRotateKey id k signed now anow => on_store st (Registry_RotateKey Verify ParseKey decode (cfRegistry cf) id k signed now anow s)
  | CSetIPv6Capable id c => on_store st (Registry_SetIPv6Capable id c s)
  | CTouch id now => on_store st (InTx (lift ErrStore (Peers_Touch id now)) s)
  | CSetClientVersion id v => on_store st (InTx (lift ErrStore (Peers_SetClientVersion id v)) s)
  | CCreateStatic pol by_ req d key pub => on_store st (CreateStatic KeyString (cfRegistry cf) pol by_ req d key pub s)
  | CAdvertise by_ raw now anow => on_store st (Advertise (cfAudit cf) (cfOverlay cf) by_ raw now anow s)
  | CSetApproved by_ name pfx ap now anow => on_store st (SetApproved (cfAudit cf) by_ name pfx ap now anow s)
  | CLockSet by_ next sigs anow => on_store st (Set_ Verify ParseKey encode decode (stLock st) by_ next sigs anow s)
  | CLockSign by_ sa => on_store st (Sign Verify ParseKey decode (stLock st) by_ sa s)
  | CReportKey id key =>
      ({| stLimit := stLimit st; stLock := ReportKey (stLock st) id key; stUsers := stUsers st; stStore := s |}, None)
  | CCreateUser by_ name role password salt rnd now anow =>
      on_store st (Users.CreateUser (cfIDKey cf) (cfAudit cf) by_ name role password salt rnd now anow s)
  | CLogin name password now fnow anow =>
      let '(u, s', r) := Users.Authenticate (cfIDKey cf) (cfAudit cf) (cfDummyHash cf) name password now fnow anow (stUsers st) s in
      ({| stLimit := stLimit st; stLock := stLock st; stUsers := u; stStore := s' |}, match r with Ok _ => None | Err e => Some e end)
  | CReload by_ p anow => on_store st (InTx (PolicySvc.reload_tx (cfAudit cf) by_ (cfPolicyPath cf) p anow) s)
  end.

Definition run (st : State) (l : list call) : State := foldl (λ st c, (do_call st c).1) st l.

(** ** One transaction each *)

(** A call either leaves the database alone or is the transaction of its
    handler; [hub] is the key the lock service holds for the hub. *)
Inductive transacts (hub : string) (s s' : Store) : call → Prop :=
  | T_none c : s' = s → transacts hub s s' c
  | T_issue pol by_ req d owner tags ttl :
      query_user (trOwnerName req) s = Ok owner → token_checks pol by_ req owner = Ok (tags, ttl) →
      issue_tx (cfAudit cf) by_ req owner tags (new_token by_ req owner tags ttl d) (dAuditNow d) s = Ok (s', ()) →
      transacts hub s s' (CIssue pol by_ req d)
  | T_revoke by_ id anow : revoke_tx (cfAudit cf) by_ id anow s = Ok (s', ()) → transacts hub s s' (CRevoke by_ id anow)
  | T_enroll pol lnow req d pub res :
      enroll_checks ParseKey (cfEnroller cf) req = Ok pub →
      enroll_tx KeyString (cfEnroller cf) pol req d pub s = Ok (s', res) → transacts hub s s' (CEnroll pol lnow req d)
  | T_rename pol by_ name newName force anow p :
      IsAdmin by_ = true → validPeerName newName = true → Registry_Get by_ name s = Ok p →
      newName ≠ pName p → (force = true ∨ selected pol (pName p) = false) →
      rename_tx (cfRegistry cf) by_ p name newName anow s = Ok (s', ()) →
      transacts hub s s' (CRename pol by_ name newName force anow)
  | T_delete by_ name anow p :
      IsAdmin by_ = true → Registry_Get by_ name s = Ok p →
      delete_tx (cfRegistry cf) (pID p) by_ AuditPeerDelete (pName p) anow s = Ok (s', ()) → transacts hub s s' (CDelete by_ name anow)
  | T_leave id anow :
      delete_tx (cfRegistry cf) id no_principal AuditPeerLeave "" anow s = Ok (s', ()) → transacts hub s s' (CLeave id anow)
  | T_rotate id k signed now anow g :
      is_Some (ParseKey k) → rotate_tx Verify ParseKey decode (cfRegistry cf) id k signed now anow s = Ok (s', g) →
      transacts hub s s' (CRotateKey id k signed now anow)
  | T_capable id c b : capable_tx id c s = Ok (s', b) → transacts hub s s' (CSetIPv6Capable id c)
  | T_touch id now : s' = update_rows id (λ p, set_report (pIPv6Capable p) (Some now) (pClientVersion p) p) s →
      transacts hub s s' (CTouch id now)
  | T_version id v : s' = update_rows id (λ p, set_report (pIPv6Capable p) (pLastSeenAt p) v p) s →
      transacts hub s s' (CSetClientVersion id v)
  | T_static pol by_ req d key pub kind tags owner res :
      static_checks (cfRegistry cf) pol by_ req = Ok (kind, tags) → query_user (stOwnerName req) s = Ok owner →
      static_tx KeyString (cfRegistry cf) by_ req owner kind tags d key pub s = Ok (s', res) →
      transacts hub s s' (CCreateStatic pol by_ req d key pub)
  | T_advertise by_ raw now anow prefixes ar :
      pMode by_ ≠ ModeStatic → ParseRoutePrefixes raw (cfOverlay cf) = Ok prefixes →
      advertise_tx (cfAudit cf) by_ (prefix_string <$> prefixes) now anow s = Ok (s', ar) →
      transacts hub s s' (CAdvertise by_ raw now anow)
  | T_approve by_ name pfx ap now anow x p :
      IsAdmin by_ = true → ParsePrefix pfx = Some x → peer_named name s = Ok p →
      approve_tx (cfAudit cf) by_ p name (prefix_string (Masked x)) ap now anow s = Ok (s', ()) →
      transacts hub s s' (CSetApproved by_ name pfx ap now anow)
  | T_set svc by_ next sigs anow :
      lkHubKey svc = hub →
      (sigs = [] ∨ (is_Some (SignerKey (record next) (pID by_)) ∧ Enabled (record next) = true)) →
      set_tx Verify ParseKey encode decode svc by_ next sigs anow s = Ok (s', ()) → transacts hub s s' (CLockSet by_ next sigs anow)
  | T_sign svc by_ sa r :
      lkHubKey svc = hub →
      signerKeyOf decode by_ (sgSigner (saSigning sa)) s = Ok r →
      signInTx Verify ParseKey svc by_ sa s = Ok (s', ()) → transacts hub s s' (CLockSign by_ sa)
  | T_user by_ name role password salt rnd now anow hash :
      Users.user_checks name role password = Ok () → Users.hashPassword (cfIDKey cf) password salt = Some hash →
      Users.user_tx (cfAudit cf) by_ (Users.new_user name role hash rnd now) anow s = Ok (s', ()) →
      transacts hub s s' (CCreateUser by_ name role password salt rnd now anow)
  | T_login by_ name password now fnow anow action :
      audit_record (cfAudit cf) anow by_ action name [] s = Ok (s', ()) → transacts hub s s' (CLogin name password now fnow anow)
  | T_reload by_ p anow :
      PolicySvc.reload_tx (cfAudit cf) by_ (cfPolicyPath cf) p anow s = Ok (s', ()) → transacts hub s s' (CReload by_ p anow).

Lemma InTx_cases {E A} (m : tx E A) s : (∃ e, m s = Err e ∧ InTx m s = (s, Err e)) ∨ (∃ s' a, m s = Ok (s', a) ∧ InTx m s = (s', Ok a)).
Proof. unfold InTx. destruct (m s) as [[s' a]|e]; [right|left]; eauto. Qed.

(** Case by case. *)
Ltac intx := match goal with |- context [InTx ?m ?s] =>
  let e := fresh "e" in let s' := fresh "s'" in let a := fresh "a" in let H := fresh "H" in let E := fresh "E" in
  destruct (InTx_cases m s) as [(e & H & E)|(s' & a & H & E)]; rewrite E; cbn [fst snd] end.

Lemma do_call_transacts st c : transacts (lkHubKey (stLock st)) (stStore st) (stStore (do_call st c).1) c.
Proof.
  destruct c; cbn [do_call on_store fst stStore].
  - unfold Tokens_Issue. destruct (owner ← _; _) as [[owner [tags ttl]]|e] eqn:Echk; [|by apply T_none].
    apply result_bind_ok in Echk as (owner' & Hq & Hc). apply result_bind_ok in Hc as ([tags' ttl'] & Hc & [= -> -> ->]).
    intx; [by apply T_none|]. destruct a. by eapply T_issue.
  - unfold Tokens_Revoke. destruct (_ && _); [by apply T_none|]. intx; [by apply T_none|]. destruct a. by apply T_revoke.
  - unfold Enroll. destruct (if eqs (eRemoteIP req) "" then _ else _) as [lim ok].
    destruct ok; [|by apply T_none]. cbn [negb]. destruct (enroll_checks _ _ _) as [pub|x] eqn:Ec; [|by apply T_none].
    intx; [by apply T_none|]. by eapply T_enroll.
  - unfold Registry_Rename. destruct (IsAdmin by_) eqn:Ha; [|by apply T_none]. cbn [negb].
    destruct (validPeerName newName) eqn:Hv; [|by apply T_none]. cbn [negb].
    destruct (Registry_Get by_ name (stStore st)) as [p|] eqn:Hg; [|by apply T_none].
    destruct (eqs newName (pName p)) eqn:Hn; [by apply T_none|]. destruct (_ && _) eqn:Hs; [by apply T_none|].
    intx; [by apply T_none|]. destruct a. eapply T_rename; try done; [by apply eqs_false|].
    apply andb_false_iff in Hs as [Hs|Hs]; [left; by destruct force|by right].
  - unfold Registry_Delete. destruct (IsAdmin by_) eqn:Ha; [|by apply T_none]. cbn [negb].
    destruct (Registry_Get by_ name (stStore st)) as [p|] eqn:Hg; [|by apply T_none].
    intx; [by apply T_none|]. destruct a. by eapply T_delete.
  - unfold Registry_Leave. intx; [by destruct e as [| | | | | |[]| |]; apply T_none|]. destruct a. by apply T_leave.
  - unfold Registry_RotateKey. destruct (ParseKey newPublicKey) as [k|] eqn:Hk; [|by apply T_none].
    intx; [by apply T_none|]. eapply T_rotate; [by rewrite Hk|done].
  - unfold Registry_SetIPv6Capable. intx; [by apply T_none|]. by eapply T_capable.
  - by apply T_touch.
  - by apply T_version.
  - unfold CreateStatic. destruct (static_checks _ _ _ _) as [[kind tags]|e] eqn:Hc; [|by apply T_none].
    destruct (query_user _ _) as [owner|e] eqn:Hq; [|by apply T_none]. intx; [by apply T_none|]. by eapply T_static.
  - unfold Advertise. destruct (eqs (pMode by_) ModeStatic) eqn:Hm; [by apply T_none|].
    destruct (ParseRoutePrefixes raw (cfOverlay cf)) as [ps|e] eqn:Hp; [|by apply T_none].
    intx; [by apply T_none|]. eapply T_advertise; [by apply eqs_false|done..].
  - unfold SetApproved. destruct (IsAdmin by_) eqn:Ha; [|by apply T_none]. cbn [negb].
    destruct (ParsePrefix prefix) as [x|] eqn:Hx; [|by apply T_none].
    destruct (peer_named name (stStore st)) as [p|] eqn:Hp; [|by apply T_none].
    intx; [by apply T_none|]. destruct a. by eapply T_approve.
  - unfold Set_. destruct (_ && _) eqn:Hg; [by apply T_none|]. intx; [by apply T_none|]. destruct a.
    eapply T_set; [done| |done]. apply andb_false_iff in Hg as [Hg|Hg]; [left; by go_bool|right].
    apply orb_false_iff in Hg as [H1 H2]. go_bool. done.
  - unfold Sign. destruct (signerKeyOf _ _ _ _) as [r|e] eqn:Hk; [|by apply T_none].
    intx; [by apply T_none|]. destruct a. by eapply T_sign.
  - by apply T_none.
  - unfold Users.CreateUser. destruct (Users.user_checks _ _ _) as [[]|e] eqn:Hc; [|by apply T_none].
    destruct (Users.hashPassword _ _ _) as [hash|] eqn:Hh; [|by apply T_none].
    intx; [by apply T_none|]. destruct a. by eapply T_user.
  - unfold Users.Authenticate. destruct (Limiter.allow _ _ _ _ _ _) as [lim ok]. destruct ok; [|by apply T_none]. cbn [negb].
    destruct (match Users_GetByName _ _ with Ok _ => _ | Err _ => _ end) as [[user|]|e]; [| |by apply T_none];
      destruct (Users.verifyPassword _ _ _) as [[]|]; try (by apply T_none); intx; cbn;
      first [by apply T_none|destruct a; by eapply T_login].
  - intx; [by apply T_none|]. destruct a. by apply T_reload.
Qed.

(** ** Invariants *)

Lemma transacts_tables hub s s' c : transacts hub s s' c → tables_ok s → tables_ok s'.
Proof.
  intros H Hok. destruct H; try subst s'; try done.
  - by eapply issue_keeps.
  - by eapply revoke_keeps.
  - by eapply enroll_keeps.
  - by eapply rename_keeps.
  - by eapply delete_keeps.
  - by eapply delete_keeps.
  - by eapply rotate_keeps.
  - by eapply capable_keeps.
  - by apply update_report_ok.
  - by apply update_report_ok.
  - by eapply static_keeps.
  - by eapply advertise_keeps.
  - by eapply approve_keeps.
  - by eapply set_keeps.
  - by eapply sign_keeps.
  - by eapply user_keeps.
  - by eapply audit_record_tables.
  - by eapply reload_keeps.
Qed.

(** The tables a call may touch. *)
Definition call_tables (c : call) : list table :=
  match c with
  | CIssue _ _ _ _ | CRevoke _ _ _ => [TTokens; TAudit]
  | CEnroll _ _ _ _ => [TPeers; TTokens; TGeneration; TAudit]
  | CRename _ _ _ _ _ _ | CCreateStatic _ _ _ _ _ _ => [TPeers; TAudit; TGeneration]
  | CDelete _ _ _ | CLeave _ _ => [TPeers; TTokens; TRoutes; TSignatures; TAudit; TGeneration]
  | CRotateKey _ _ _ _ _ => [TPeers; TSignatures; TAudit; TGeneration]
  | CSetIPv6Capable _ _ => [TPeers; TGeneration]
  | CTouch _ _ | CSetClientVersion _ _ => [TPeers]
  | CAdvertise _ _ _ _ | CSetApproved _ _ _ _ _ _ => [TRoutes; TAudit; TGeneration]
  | CLockSet _ _ _ _ => [TMeta; TSignatures; TAudit; TGeneration]
  | CLockSign _ _ => [TSignatures; TAudit; TGeneration]
  | CReportKey _ _ => []
  | CCreateUser _ _ _ _ _ _ _ _ => [TUsers; TAudit]
  | CLogin _ _ _ _ _ => [TAudit]
  | CReload _ _ _ => [TGeneration; TAudit]
  end.

Lemma update_rows_same id f s t : t ∉ [TPeers] → same t s (update_rows id f s).
Proof. destruct t; try done. set_solver. Qed.

Lemma transacts_same hub s s' c t : transacts hub s s' c → t ∉ call_tables c → same t s s'.
Proof.
  intros H Ht. destruct H; try subst s'; try apply same_refl; cbn [call_tables] in Ht.
  - by eapply issue_touches.
  - by eapply revoke_touches.
  - by eapply enroll_touches.
  - by eapply rename_touches.
  - by eapply delete_touches.
  - by eapply delete_touches.
  - by eapply rotate_touches.
  - by eapply capable_touches.
  - by apply update_rows_same.
  - by apply update_rows_same.
  - by eapply static_touches.
  - by eapply advertise_touches.
  - by eapply approve_touches.
  - by eapply set_touches.
  - by eapply sign_touches.
  - by eapply user_touches.
  - by eapply audit_record_touches.
  - by eapply reload_touches.
Qed.

Lemma calls_app st l l' : run st (l ++ l') = run (run st l) l'.
Proof. apply foldl_app. Qed.

Lemma calls_snoc st l c : run st (l ++ [c]) = (do_call (run st l) c).1.
Proof. by rewrite calls_app. Qed.

Lemma do_call_hub st c : lkHubKey (stLock (do_call st c).1) = lkHubKey (stLock st).
Proof.
  destruct c; try done; cbn [do_call].
  - by destruct (Enroll _ _ _ _ _ _ _ _ _) as [[? ?] ?].
  - by destruct (Users.Authenticate _ _ _ _ _ _ _ _ _ _) as [[? ?] ?].
Qed.

Lemma run_hub st l : lkHubKey (stLock (run st l)) = lkHubKey (stLock st).
Proof. induction l as [|c l IH] using rev_ind; [done|]. by rewrite calls_snoc, do_call_hub. Qed.

(** Induction over calls. *)
Lemma run_invariant (I : Store → Prop) (allowed : call → Prop) st :
  (∀ s s' c, allowed c → I s → transacts (lkHubKey (stLock st)) s s' c → I s') →
  ∀ l, I (stStore st) → Forall allowed l → I (stStore (run st l)).
Proof.
  intros Hstep l HI. induction l as [|c l IH] using rev_ind; intros Hl; [done|].
  rewrite calls_snoc. apply Forall_app in Hl as [Hl [Hc _]%Forall_cons].
  eapply Hstep; [exact Hc|by apply IH|]. rewrite <- (run_hub st l). apply do_call_transacts.
Qed.
End Control.
