(* ===== verification/ControlSafety.v ===== *)
(** What the control plane promises over any sequence of calls: names, tokens
    and route approvals. *)

From S2P Require Import Prelude GoStrings NetIP LockRecord Store Effects Tables Names Enroll LockService Registry Routes Handlers Control.
From S2P Require Users.

(** ** Rows through a transaction *)

(** What a row keeps of a peer whatever happens to it short of a rename. *)
Lemma update_rows_peers id f s (P : Peer → Prop) :
  (∀ p, P p → P (f p)) → (∀ p, p ∈ peers s → P p) → ∀ p, p ∈ peers (update_rows id f s) → P p.
Proof. intros Hf H p (q & -> & Hq)%list_elem_of_fmap. destruct (eqs (pID q) id); auto. Qed.

(** Predicates on peers that only a new row or a new name can break. *)
Section Peers.
Context (P : Peer → Prop).
Definition all_peers (s : Store) : Prop := ∀ p, p ∈ peers s → P p.

Lemma Create_all_peers p : P p → keeps all_peers (Peers_Create p).
Proof.
  intros Hp s s' [] HI H. apply Peers_Create_ok in H as (_ & _ & _ & _ & ->).
  intros q [Hq | ->%list_elem_of_singleton]%elem_of_app; auto.
Qed.

Lemma update_peer_all id f : (∀ p, P p → P (f p)) → keeps all_peers (update_peer id f).
Proof. intros Hf s s' a HI ->%update_peer_eq. exact (update_rows_peers _ _ _ P Hf HI). Qed.

Lemma Rename_all_peers id n : (∀ p, P p → P (set_name n p)) → keeps all_peers (Peers_Rename id n).
Proof. intros Hf s s' a HI. unfold Peers_Rename. destruct (_ && _); [done|]. by apply update_peer_all. Qed.

Lemma SetPublicKey_all_peers id k : (∀ p, P p → P (set_public_key k p)) → keeps all_peers (Peers_SetPublicKey id k).
Proof. intros Hf s s' a HI. unfold Peers_SetPublicKey. destruct (_ && _); [done|]. by apply update_peer_all. Qed.

Lemma SetIPv6Capable_all_peers id c :
  (∀ p, P p → P (set_report c (pLastSeenAt p) (pClientVersion p) p)) → keeps all_peers (Peers_SetIPv6Capable id c).
Proof.
  intros Hf s s' a HI. unfold Peers_SetIPv6Capable. destruct (existsb _ _).
  - intros [= <- _]. exact (update_rows_peers _ _ _ P Hf HI).
  - destruct (peer_exists id s); [|done]. by intros [= <- _].
Qed.

Lemma Delete_all_peers id : keeps all_peers (Peers_Delete id).
Proof.
  intros s s' a HI. unfold Peers_Delete. destruct (peer_exists id s); [|done]. intros [= <- _] p.
  intros [_ Hp]%list_elem_of_filter. auto.
Qed.

Lemma other_all_peers {E A} l (m : tx E A) : touches l m → TPeers ∉ l → keeps all_peers m.
Proof. intros H Hl. apply (touches_keeps l m TPeers); [done..|]. intros s s' Hs HI p. rewrite Hs. apply HI. Qed.
End Peers.

(** Predicates on tokens that only a new one can break. *)
Section Tokens.
Context (T : Token → Prop).
Definition all_tokens (s : Store) : Prop := ∀ t, t ∈ tokens s → T t.
Hypothesis use : ∀ now p t, T t → T (mark_used now p t).
Hypothesis forget : ∀ id t, T t → T (forget_peer id t).

Lemma Tokens_Create_all t : T (fresh_token t) → keeps all_tokens (Tokens_Create t).
Proof.
  intros Ht s s' [] HI H. apply Tokens_Create_ok in H as (_ & _ & _ & _ & ->).
  intros u [Hu | ->%list_elem_of_singleton]%elem_of_app; auto.
Qed.

Lemma MarkUsed_all id p now : keeps all_tokens (Tokens_MarkUsed id p now).
Proof.
  intros s s' [] HI H. apply MarkUsed_ok in H as ->. intros t (u & -> & Hu)%list_elem_of_fmap.
  destruct (unused_id id u); auto.
Qed.

Lemma Tokens_Delete_all id : keeps all_tokens (Tokens_Delete id).
Proof.
  intros s s' a HI. unfold Tokens_Delete. destruct (existsb _ _); [|done]. intros [= <- _] t.
  intros [_ Ht]%list_elem_of_filter. auto.
Qed.

Lemma Delete_all_tokens id : keeps all_tokens (Peers_Delete id).
Proof.
  intros s s' a HI. unfold Peers_Delete. destruct (peer_exists id s); [|done]. intros [= <- _] t.
  intros (u & -> & Hu)%list_elem_of_fmap. auto.
Qed.

Lemma other_all_tokens {E A} l (m : tx E A) : touches l m → TTokens ∉ l → keeps all_tokens m.
Proof. intros H Hl. apply (touches_keeps l m TTokens); [done..|]. intros s s' Hs HI t. rewrite Hs. apply HI. Qed.
End Tokens.

(** A statement that does not touch the table in question. *)
Ltac untouched lemma :=
  eapply lemma; [solve [auto with touches | apply touches_read; solve_reads]|not_in].

(** ** Names the policy selects *)

Lemma reserved_selected pol tok n :
  selected pol n = true → reserved pol tok n = false → tPeerName tok = n ∧ tIssuedByAdmin tok = true.
Proof. intros Hs Hr. apply reserved_false in Hr as [_ Hr]. by destruct (Hr Hs). Qed.

Section Names.
Context (Verify : PublicKey → list byte → Signature → bool)
  (ParseKey : string → option (list byte)) (KeyString : list byte → string)
  (encode : Signed → string) (decode : string → option Signed) (cf : Config) (n : string).

(** Nobody bears the name, and no admin's token was issued for it. *)
Definition unclaimed (s : Store) : Prop :=
  all_peers (λ p, pName p ≠ n) s ∧ all_tokens (λ t, tPeerName t = n → tIssuedByAdmin t = false) s.

(** Every policy the calls see selects the name. *)
Definition selects_name (c : call) : Prop :=
  match c with
  | CIssue pol _ _ _ | CEnroll pol _ _ _ | CRename pol _ _ _ _ _ | CCreateStatic pol _ _ _ _ _ => selected pol n = true
  | _ => True
  end.

(** An admin gives the name: a token issued for it, a rename to it, a static
    peer with it. *)
Definition admin_gives (c : call) : Prop :=
  match c with
  | CIssue _ by_ req _ => IsAdmin by_ = true ∧ trPeerName req = n
  | CRename _ by_ _ newName _ _ => IsAdmin by_ = true ∧ newName = n
  | CCreateStatic _ by_ req _ _ _ => IsAdmin by_ = true ∧ stName req = n
  | _ => False
  end.

(** The two tables, statement by statement. *)
Definition free_peers : Store → Prop := all_peers (λ p, pName p ≠ n).
Definition free_tokens : Store → Prop := all_tokens (λ t, tPeerName t = n → tIssuedByAdmin t = false).

Ltac peers_leaf :=
  first [ by apply Create_all_peers | by apply Rename_all_peers | by apply SetPublicKey_all_peers
        | by apply SetIPv6Capable_all_peers | apply Delete_all_peers | untouched other_all_peers ].
Ltac tokens_leaf :=
  first [ apply MarkUsed_all; done | apply Tokens_Delete_all | apply Delete_all_tokens; intros id' t'; unfold forget_peer; by case_match
        | untouched other_all_tokens ].

Lemma rotate_free r id k sr now anow : keeps free_peers (rotate_tx Verify ParseKey decode r id k sr now anow).
Proof. unfold rotate_tx, Peers_GetByID, free_peers. solve_keeps with peers_leaf. Qed.
Lemma delete_free r id by_ act nm anow : keeps free_peers (delete_tx r id by_ act nm anow).
Proof. unfold delete_tx, Peers_GetByID, free_peers. solve_keeps with peers_leaf. Qed.
Lemma capable_free id c : keeps free_peers (capable_tx id c).
Proof. unfold capable_tx, free_peers. solve_keeps with peers_leaf. Qed.
Lemma rename_free r by_ p nm newName anow : newName ≠ n → keeps free_peers (rename_tx r by_ p nm newName anow).
Proof. intros Hn. unfold rename_tx, free_peers. solve_keeps with peers_leaf. Qed.
Lemma static_free r by_ req owner kind tags d key pub :
  stName req ≠ n → keeps free_peers (static_tx KeyString r by_ req owner kind tags d key pub).
Proof. intros Hn. unfold static_tx, free_peers. solve_keeps with peers_leaf. Qed.

Lemma issue_free au by_ req owner tags tok anow :
  (tPeerName tok = n → tIssuedByAdmin tok = false) → keeps free_tokens (issue_tx au by_ req owner tags tok anow).
Proof. intros Ht. unfold issue_tx, free_tokens. solve_keeps with (first [by apply Tokens_Create_all | tokens_leaf]). Qed.
Lemma revoke_free au by_ id anow : keeps free_tokens (revoke_tx au by_ id anow).
Proof. unfold revoke_tx, free_tokens. solve_keeps with tokens_leaf. Qed.
Lemma delete_free_tokens r id by_ act nm anow : keeps free_tokens (delete_tx r id by_ act nm anow).
Proof. unfold delete_tx, Peers_GetByID, free_tokens. solve_keeps with tokens_leaf. Qed.
Lemma enroll_free_tokens e pol req d pub : keeps free_tokens (enroll_tx KeyString e pol req d pub).
Proof. unfold enroll_tx, Tokens_GetByHash, free_tokens. solve_keeps with tokens_leaf. Qed.

Lemma enroll_free_peers s s' e pol req d pub res :
  tables_ok s → free_peers s → free_tokens s → selected pol n = true →
  enroll_tx KeyString e pol req d pub s = Ok (s', res) → free_peers s'.
Proof.
  intros Hok Hp Ht Hsel H. apply enroll_tx_ok in H as (tok & ip & name & H); [|apply Hok].
  intros p. rewrite (en_peers _ _ _ _ _ _ _ _ _ _ _ _ H). intros [Hin | ->%list_elem_of_singleton]%elem_of_app; [by apply Hp|].
  rewrite (en_peer _ _ _ _ _ _ _ _ _ _ _ _ H). simpl. intros ->.
  pose proof (uniqueName_reserved _ _ _ _ (en_name _ _ _ _ _ _ _ _ _ _ _ _ H)) as Hr.
  destruct (reserved_selected _ _ _ Hsel Hr) as [H1 H2].
  by rewrite (Ht tok (en_token _ _ _ _ _ _ _ _ _ _ _ _ H) H1) in H2.
Qed.

Lemma unclaimed_step hub s s' c :
  selects_name c ∧ ¬ admin_gives c → tables_ok s ∧ unclaimed s →
  transacts Verify ParseKey KeyString encode decode cf hub s s' c → tables_ok s' ∧ unclaimed s'.
Proof.
  intros [Hsel Hadm] [Hok [Hp Ht]] H. split; [by eapply transacts_tables|].
  assert (∀ t, t ∉ call_tables c → same t s s') as Hsame by (intros t; by eapply transacts_same).
  assert (TPeers ∉ call_tables c → free_peers s') as Hpeers
    by (intros Hn p; rewrite (Hsame TPeers Hn); apply Hp).
  assert (TTokens ∉ call_tables c → free_tokens s') as Htokens
    by (intros Hn t; rewrite (Hsame TTokens Hn); apply Ht).
  split.
  - destruct H; cbn [call_tables selects_name admin_gives] in *; try (apply Hpeers; not_in).
    + by subst s'.
    + by eapply (enroll_free_peers s s').
    + eapply rename_free; [|exact Hp|exact H4]. intros ->. by apply Hadm.
    + by eapply delete_free.
    + by eapply delete_free.
    + by eapply rotate_free.
    + by eapply capable_free.
    + subst s'. refine (update_rows_peers _ _ s (λ p, pName p ≠ n) _ Hp); done.
    + subst s'. refine (update_rows_peers _ _ s (λ p, pName p ≠ n) _ Hp); done.
    + eapply static_free; [|exact Hp|exact H1]. intros Hn. apply static_checks_ok in H as (_ & _ & _ & _ & Ha & _).
      rewrite Hn, Hsel in Ha. destruct Ha as [Ha|]; [|done]. by apply Hadm.
  - destruct H; cbn [call_tables selects_name admin_gives] in *; try (apply Htokens; not_in).
    + by subst s'.
    + eapply issue_free; [|exact Ht|exact H1]. simpl. intros Hn. apply token_checks_ok in H0 as (_ & _ & _ & _ & Ha & _).
      destruct (IsAdmin by_); [|done]. by destruct Hadm.
    + by eapply revoke_free.
    + by eapply enroll_free_tokens.
    + by eapply delete_free_tokens.
    + by eapply delete_free_tokens.
Qed.
End Names.

(** C15: names the policy selects are an admin's to give.  Take a database in
    which no peer has the name and no admin's token was issued for it, and any
    calls of the control plane under policies that select the name, none of
    them an admin giving it (by a token for it, a rename to it or a static peer
    with it): in the end still no peer has the name, however tokens, hostnames
    and requested names were chosen, and whichever peers were renamed, deleted
    or enrolled in between. *)
Theorem selected_names_need_admin (Verify : PublicKey → list byte → Signature → bool)
    (ParseKey : string → option (list byte)) (KeyString : list byte → string)
    (encode : Signed → string) (decode : string → option Signed) (cf : Config) (n : string) (st : State) (l : list call) :
  tables_ok (stStore st) → unclaimed n (stStore st) →
  Forall (λ c, selects_name n c ∧ ¬ admin_gives n c) l →
  let s := stStore (run Verify ParseKey KeyString encode decode cf st l) in
  (∀ p, p ∈ peers s → pName p ≠ n) ∧ (∀ t, t ∈ tokens s → tPeerName t = n → tIssuedByAdmin t = false).
Proof.
  intros Hok Hu Hl.
  apply (run_invariant Verify ParseKey KeyString encode decode cf (λ s, tables_ok s ∧ unclaimed n s)
    (λ c, selects_name n c ∧ ¬ admin_gives n c)); [|done..].
  intros s s' c Hc HI H. by eapply unclaimed_step.
Qed.

(** ** Tokens *)

Section Spent.
Context (Verify : PublicKey → list byte → Signature → bool)
  (ParseKey : string → option (list byte)) (KeyString : list byte → string)
  (encode : Signed → string) (decode : string → option Signed) (cf : Config) (h : string).

(** No unused token has this hash. *)
Definition spent : Store → Prop := all_tokens (λ t, tSecretHash t = h → tUsedAt t ≠ None).

Definition not_reissued (c : call) : Prop :=
  match c with CIssue _ _ _ d => hashSecret (TokenPrefix +:+ newSecret (dSecret d)) ≠ h | _ => True end.

Ltac spent_leaf :=
  first [ apply MarkUsed_all; done | apply Tokens_Delete_all | apply Delete_all_tokens; intros id' t'; unfold forget_peer; by case_match
        | untouched other_all_tokens ].

Lemma spent_step hub s s' c :
  not_reissued c → tables_ok s ∧ spent s →
  transacts Verify ParseKey KeyString encode decode cf hub s s' c → tables_ok s' ∧ spent s'.
Proof.
  intros Hn [Hok Hs] H. split; [by eapply transacts_tables|].
  assert (TTokens ∉ call_tables c → spent s') as Hother.
  { intros Ht t. pose proof (transacts_same _ _ _ _ _ _ _ _ _ _ TTokens H Ht) as Heq. cbn [same] in Heq. rewrite Heq. apply Hs. }
  destruct H; cbn [call_tables not_reissued] in *; try (apply Hother; not_in); [by subst s'|..].
  - assert (keeps spent (issue_tx (cfAudit cf) by_ req owner tags (new_token by_ req owner tags ttl d) (dAuditNow d))) as Hk;
      [|by eapply Hk]. unfold issue_tx, spent. solve_keeps with (first [by apply Tokens_Create_all | spent_leaf]).
  - assert (keeps spent (revoke_tx (cfAudit cf) by_ id anow)) as Hk; [|by eapply Hk].
    unfold revoke_tx, spent. solve_keeps with spent_leaf.
  - assert (keeps spent (enroll_tx KeyString (cfEnroller cf) pol req d pub)) as Hk; [|by eapply Hk].
    unfold enroll_tx, Tokens_GetByHash, spent. solve_keeps with spent_leaf.
  - assert (keeps spent (delete_tx (cfRegistry cf) (pID p) by_ AuditPeerDelete (pName p) anow)) as Hk; [|by eapply Hk].
    unfold delete_tx, Peers_GetByID, spent. solve_keeps with spent_leaf.
  - assert (keeps spent (delete_tx (cfRegistry cf) id no_principal AuditPeerLeave "" anow)) as Hk; [|by eapply Hk].
    unfold delete_tx, Peers_GetByID, spent. solve_keeps with spent_leaf.
Qed.
End Spent.

Lemma enrolled_spent KeyString e pol req d pub s s' res tok ip name :
  store_ok s → enrolled KeyString e pol req d pub s s' res tok ip name → spent (hashSecret (eToken req)) s'.
Proof.
  intros Hok H t. rewrite (en_tokens _ _ _ _ _ _ _ _ _ _ _ _ H). unfold use_token. intros (t0 & -> & Hin)%list_elem_of_fmap.
  destruct (unused_id (tID tok) t0) eqn:Eu; [done|]. intros Hh Hu.
  assert (t0 = tok) as ->.
  { eapply (key_unique tSecretHash); [apply Hok|done|apply H|]. by rewrite Hh, (en_hash _ _ _ _ _ _ _ _ _ _ _ _ H). }
  assert (unused_id (tID tok) tok = true) by (by apply (unused_id_spec s)). congruence.
Qed.

(** A spent token enrols nobody. *)
Lemma spent_refused ParseKey KeyString e pol lnow req d lim s :
  store_ok s → spent (hashSecret (eToken req)) s →
  ∃ lim' x, Enroll ParseKey KeyString e pol lnow req d lim s = (lim', s, Err x).
Proof.
  intros Hok Hs. destruct (Enroll ParseKey KeyString e pol lnow req d lim s) as [[lim' s'] [res|x]] eqn:E.
  2:{ exists lim', x. by rewrite (Enroll_err _ _ _ _ _ _ _ _ _ _ _ _ E). }
  exfalso. apply Enroll_ok in E as (pub & tok & ip & name & _ & H & _); [|done].
  apply (Hs tok); [apply H|apply H|].
  pose proof (en_usable _ _ _ _ _ _ _ _ _ _ _ _ H) as Hu. unfold token_usable in Hu. by destruct (tUsedAt tok).
Qed.

(** C9: a token enrols one device.  From a sound database, after any calls of
    the control plane, an enrolment that succeeded and any further calls that do
    not draw the same secret again, no request that shows the same token
    succeeds or changes the database: not after the peer was renamed, deleted or
    left, and whatever tokens were issued or revoked. *)
Theorem token_single_use (Verify : PublicKey → list byte → Signature → bool)
    (ParseKey : string → option (list byte)) (KeyString : list byte → string)
    (encode : Signed → string) (decode : string → option Signed) (cf : Config) (st0 : State) (l1 l2 : list call)
    (pol pol' : Policies) (lnow lnow' : Z) (req req' : EnrollRequest) (d d' : Draw) :
  tables_ok (stStore st0) → eToken req' = eToken req →
  Forall (not_reissued (hashSecret (eToken req))) l2 →
  let st1 := run Verify ParseKey KeyString encode decode cf st0 l1 in
  let '(st2, err) := do_call Verify ParseKey KeyString encode decode cf st1 (CEnroll pol lnow req d) in
  let st3 := run Verify ParseKey KeyString encode decode cf st2 l2 in
  err = None →
  ∃ lim x, Enroll ParseKey KeyString (cfEnroller cf) pol' lnow' req' d' (stLimit st3) (stStore st3) = (lim, stStore st3, Err x).
Proof.
  intros Hok Htok Hl st1. destruct (do_call _ _ _ _ _ _ st1 _) as [st2 err] eqn:E2. intros st3 ->.
  assert (tables_ok (stStore st1)) as Hok1.
  { apply (run_invariant Verify ParseKey KeyString encode decode cf tables_ok (λ _, True)); [|done|by apply Forall_true].
    intros s s' c _ Hs H. by eapply transacts_tables. }
  assert (tables_ok (stStore st2) ∧ spent (hashSecret (eToken req)) (stStore st2)) as H2.
  { split.
    - eapply transacts_tables; [|exact Hok1]. pose proof (do_call_transacts Verify ParseKey KeyString encode decode cf st1 (CEnroll pol lnow req d)) as H.
      rewrite E2 in H. exact H.
    - cbn [do_call] in E2. destruct (Enroll _ _ _ _ _ _ _ _ _) as [[lim s'] [res|x]] eqn:E; [|done]. injection E2 as <-.
      apply Enroll_ok in E as (pub & tok & ip & name & _ & H & _); [|apply Hok1]. cbn [stStore]. eapply enrolled_spent; [|exact H]. apply Hok1. }
  assert (tables_ok (stStore st3) ∧ spent (hashSecret (eToken req)) (stStore st3)) as [Hok3 H3].
  { apply (run_invariant Verify ParseKey KeyString encode decode cf (λ s, tables_ok s ∧ spent (hashSecret (eToken req)) s)
      (not_reissued (hashSecret (eToken req)))); [|done..]. intros s s' c Hc HI H. by eapply spent_step. }
  apply spent_refused; [apply Hok3|by rewrite Htok].
Qed.

(** ** Approved routes *)

Section Routes.
Context (P : PeerRoute → Prop).
Definition all_routes (s : Store) : Prop := ∀ r, r ∈ routes s → P r.

Lemma withdraw_all id w l : keeps all_routes (routes_withdraw id w l).
Proof.
  intros s s' a HI H. apply withdraw_spec in H as [Hr _]. intros r. rewrite Hr. intros [_ Hin]%list_elem_of_filter. auto.
Qed.

Lemma add_all id have now l : (∀ p, P (new_route id now p)) → keeps all_routes (routes_add id have now l).
Proof.
  intros Hnew s s' a HI H. apply add_spec in H as (_ & Hr & _). intros r. rewrite Hr.
  intros [Hin | (p & -> & _)%list_elem_of_fmap]%elem_of_app; auto.
Qed.

Lemma Replace_all id l now : (∀ p, P (new_route id now p)) → keeps all_routes (Routes_Replace id l now).
Proof.
  intros Hnew. unfold Routes_Replace.
  solve_keeps with (first [apply withdraw_all | by apply add_all | apply keeps_read; unfold Routes_ListPeer; solve_reads]).
Qed.

Lemma SetApproved_all id pfx by_ (ap : bool) now :
  (∀ r, is_route id pfx r = true → P r → P (if ap then approve by_ now r else unapprove r)) →
  keeps all_routes (Routes_SetApproved id pfx by_ ap now).
Proof.
  intros Hf s s' a HI. unfold Routes_SetApproved. destruct (existsb _ _); [|done]. intros [= <- _] r.
  intros (r0 & -> & Hin)%list_elem_of_fmap. destruct (is_route id pfx r0) eqn:E; [|by apply HI].
  specialize (Hf r0 E (HI r0 Hin)). by destruct ap.
Qed.

Lemma Delete_all_routes id : keeps all_routes (Peers_Delete id).
Proof.
  intros s s' a HI. unfold Peers_Delete. destruct (peer_exists id s); [|done]. intros [= <- _] r.
  intros [_ Hr]%list_elem_of_filter. auto.
Qed.

Lemma other_all_routes {E A} l (m : tx E A) : touches l m → TRoutes ∉ l → keeps all_routes m.
Proof. intros H Hl. apply (touches_keeps l m TRoutes); [done..|]. intros s s' Hs HI r. rewrite Hs. apply HI. Qed.
End Routes.

Section Approvals.
Context (Verify : PublicKey → list byte → Signature → bool)
  (ParseKey : string → option (list byte)) (KeyString : list byte → string)
  (encode : Signed → string) (decode : string → option Signed) (cf : Config) (id pfx who : string).

(** The peer's prefix is approved by [who]. *)
Definition approval (r : PeerRoute) : Prop := route_key r = (id, pfx) ∧ rApproved r = true ∧ rApprovedBy r = who.
Definition approved (s : Store) : Prop := ∃ r, r ∈ routes s ∧ approval r.

#[export] Instance approval_dec r : Decision (approval r).
Proof. unfold approval. apply _. Defined.

Lemma approved_dec s : approved s ∨ all_routes (λ r, ¬ approval r) s.
Proof.
  destruct (decide (Exists approval (routes s))) as [H|H].
  - left. apply Exists_exists in H as (r & Hr & ?). by exists r.
  - right. intros r Hr Hk. apply H, Exists_exists. eauto.
Qed.

(** An admin's approval of that prefix of that peer. *)
Definition gives_approval (s : Store) (c : call) : Prop :=
  match c with
  | CSetApproved by_ name prefix true _ _ =>
      IsAdmin by_ = true ∧ prName by_ = who ∧
      ∃ x p, ParsePrefix prefix = Some x ∧ prefix_string (Masked x) = pfx ∧ p ∈ peers s ∧ pName p = name ∧ pID p = id
  | _ => False
  end.

Lemma peer_named_ok name s p : peer_named name s = Ok p → p ∈ peers s ∧ pName p = name.
Proof.
  unfold peer_named, Peers_GetByName, get. destruct (find_row _ _) as [q|[]] eqn:E; try done. intros [= ->].
  apply find_row_ok in E as [Hin Hn]. by apply eqs_true in Hn.
Qed.

Ltac routes_leaf :=
  first [ apply Delete_all_routes | untouched other_all_routes ].

Lemma audit_routes_not_approved on anow by_ act l : keeps (all_routes (λ r, ¬ approval r)) (audit_routes on anow by_ act l).
Proof. eapply other_all_routes; [apply audit_routes_touches|not_in]. Qed.

Lemma advertise_not_approved on by_ l now anow : keeps (all_routes (λ r, ¬ approval r)) (advertise_tx on by_ l now anow).
Proof.
  unfold advertise_tx.
  solve_keeps with (first [apply audit_routes_not_approved | apply Replace_all; by intros p (_ & ? & _) | routes_leaf]).
Qed.

Lemma delete_not_approved r i by_ act nm anow : keeps (all_routes (λ r, ¬ approval r)) (delete_tx r i by_ act nm anow).
Proof. unfold delete_tx, Peers_GetByID. solve_keeps with routes_leaf. Qed.

Lemma approve_not_approved on by_ p nm x ap now anow :
  ¬ (ap = true ∧ prName by_ = who ∧ pID p = id ∧ x = pfx) →
  keeps (all_routes (λ r, ¬ approval r)) (approve_tx on by_ p nm x ap now anow).
Proof.
  intros Hn. unfold approve_tx.
  assert (keeps (all_routes (λ r, ¬ approval r)) (Routes_SetApproved (pID p) x (prName by_) ap now)) as Hs.
  { apply SetApproved_all. intros r Hr Hp. apply is_route_iff in Hr. destruct ap; [|by intros (_ & ? & _)].
    intros (Hk & _ & Hb). apply Hn. unfold route_key in *. simpl in *. split_and!; congruence. }
  solve_keeps with (first [exact Hs | routes_leaf]).
Qed.

Lemma approval_step hub s s' c :
  transacts Verify ParseKey KeyString encode decode cf hub s s' c → approved s' → approved s ∨ gives_approval s c.
Proof.
  intros H Ha. destruct (approved_dec s) as [|HI]; [by left|right].
  assert (¬ all_routes (λ r, ¬ approval r) s') as HI' by (intros Hall; destruct Ha as (r & Hr & Hk); by apply (Hall r)).
  destruct (decide (TRoutes ∈ call_tables c)) as [Hin|Hnin].
  2:{ pose proof (transacts_same _ _ _ _ _ _ _ _ _ _ TRoutes H Hnin) as Hs. simpl in Hs. exfalso. apply HI'. intros r. rewrite Hs. apply HI. }
  destruct H; cbn [call_tables gives_approval] in *; try (exfalso; revert Hin; not_in).
  - by subst s'.
  - exfalso. apply HI'. by eapply delete_not_approved.
  - exfalso. apply HI'. by eapply delete_not_approved.
  - exfalso. apply HI'. by eapply advertise_not_approved.
  - destruct (decide (ap = true ∧ prName by_ = who ∧ pID p = id ∧ prefix_string (Masked x) = pfx)) as [(-> & ? & ? & ?)|Hno].
    + apply peer_named_ok in H1 as [Hp Hn]. split_and!; eauto 10.
    + exfalso. apply HI'. eapply approve_not_approved; [exact Hno|exact HI|done].
Qed.
End Approvals.

Lemma approvals_run Verify ParseKey KeyString encode decode cf id pfx who st l :
  let run' := run Verify ParseKey KeyString encode decode cf in
  ¬ approved id pfx who (stStore st) → approved id pfx who (stStore (run' st l)) →
  ∃ l1 c l2, l = l1 ++ c :: l2 ∧ gives_approval id pfx who (stStore (run' st l1)) c ∧
    ∀ m m', l2 = m ++ m' → approved id pfx who (stStore (run' st (l1 ++ c :: m))).
Proof.
  intros run'. induction l as [|c l IH] using rev_ind; intros Hn Ha; [done|].
  assert (approved id pfx who (stStore (run' st l)) ∨ gives_approval id pfx who (stStore (run' st l)) c) as [Hprev|Hg].
  { pose proof Ha as Ha2. unfold run' in Ha2. rewrite calls_snoc in Ha2. eapply approval_step; [apply do_call_transacts|exact Ha2]. }
  - destruct (IH Hn Hprev) as (l1 & c1 & l2 & -> & Hg & Hm). exists l1, c1, (l2 ++ [c]).
    split_and!; [by rewrite <- app_assoc|done|]. intros m m' Hmm.
    destruct m' as [|x m' _] using rev_ind.
    + rewrite app_nil_r in Hmm. subst m. by rewrite <- app_assoc in Ha.
    + rewrite app_assoc in Hmm. apply app_inj_2 in Hmm as [Hmm _]; [|done]. by eapply Hm.
  - exists l, c, []. split_and!; [done|done|]. intros m m' Hmm. symmetry in Hmm. by apply app_nil in Hmm as [-> _].
Qed.

(** The rows after an advertisement of the prefixes [l]: the peer has one for each
    prefix named and for no other, those it had stay as they were, the others
    are not approved, and nobody else's rows change. *)
Definition advertised_exactly (id : string) (l : list string) (s s' : Store) : Prop :=
  (∀ x, x ∈ l ↔ ∃ r, r ∈ routes s' ∧ rPeerID r = id ∧ rPrefix r = x) ∧
  (∀ r, r ∈ routes s → rPeerID r = id → rPrefix r ∈ l → r ∈ routes s') ∧
  (∀ r, r ∈ routes s' → rPeerID r = id → r ∈ routes s ∨ rApproved r = false) ∧
  (∀ r, rPeerID r ≠ id → r ∈ routes s' ↔ r ∈ routes s).

Lemma advertise_rows on by_ l now anow s s' ar :
  advertise_tx on by_ l now anow s = Ok (s', ar) → advertised_exactly (pID by_) l s s'.
Proof.
  intros H. unfold advertise_tx in H. apply tx_bind_ok in H as (s1 & [added removed] & H1 & H).
  apply lift_ok in H1. apply Replace_spec in H1 as (Ha & _ & _ & Hr).
  assert (routes s' = routes s1) as E.
  { change (same TRoutes s1 s'). assert (touches [TAudit; TGeneration] (audit_routes on anow by_ AuditRouteAdvertise added ;;
      audit_routes on anow by_ AuditRouteWithdraw removed ;;
      if bool_decide (added = []) && bool_decide (removed = []) then mret (added, removed) else (lift ErrStore IncrementGeneration ;; mret (added, removed)) : tx cerror _)) as Ht.
    { pose proof audit_routes_touches as Hat. repeat first [apply touches_bind; [|intros ?] | case_match | apply touches_ret | solve_touches].
      all: eapply touches_weaken; [apply Hat|set_solver]. }
    eapply Ht; [exact H|not_in]. }
  unfold advertised_exactly. rewrite E, Hr. clear E. subst added. split_and!.
  - intros x. setoid_rewrite elem_of_app. setoid_rewrite list_elem_of_filter. setoid_rewrite list_elem_of_fmap. split.
    + intros Hx. destruct (decide (x ∈ prefixes_of (pID by_) s)) as [(r & Hr1 & Hid & <-)%elem_of_prefixes|Hn]; [exists r; auto|].
      exists (new_route (pID by_) now x). split; [|done]. right. exists x. split; [done|]. by apply list_elem_of_filter.
    + intros (r & [[[?|Hl] _]|(y & -> & [_ Hy]%list_elem_of_filter)] & Hid & <-); [done|done|exact Hy].
  - intros r Hin Hid Hl. apply elem_of_app. left. apply list_elem_of_filter. auto.
  - intros r [Hin|Hin]%elem_of_app Hid; [left; by apply list_elem_of_filter in Hin as [_ ?]|].
    right. by apply list_elem_of_fmap in Hin as (p & -> & _).
  - intros r Hid. rewrite elem_of_app, list_elem_of_filter, list_elem_of_fmap. split; [|by auto].
    intros [[_ ?]|(p & -> & _)]; [done|]. by destruct Hid.
Qed.

(** C16: a route is approved because an admin approved it.  If some calls of
    the control plane leave a peer's prefix approved in someone's name, and it
    was not so before them, then one of the calls was an admin of that name
    approving that prefix of that peer, and the approval has stood since: it did
    not survive a withdrawal, a revocation or the peer's removal in between.
    And whenever a peer advertises successfully, it has a row for each prefix it
    names and for no other, the rows it had for them stay as they were,
    approvals included, the new ones are not approved, and no other peer's rows
    change. *)
Theorem routes_approved_by_admins (Verify : PublicKey → list byte → Signature → bool)
    (ParseKey : string → option (list byte)) (KeyString : list byte → string)
    (encode : Signed → string) (decode : string → option Signed) (cf : Config) (st : State) (l : list call) :
  let run' := run Verify ParseKey KeyString encode decode cf in
  (∀ id pfx who, ¬ approved id pfx who (stStore st) → approved id pfx who (stStore (run' st l)) →
   ∃ l1 c l2, l = l1 ++ c :: l2 ∧ gives_approval id pfx who (stStore (run' st l1)) c ∧
     ∀ m m', l2 = m ++ m' → approved id pfx who (stStore (run' st (l1 ++ c :: m)))) ∧
  (∀ by_ raw now anow, let '(st', err) := do_call Verify ParseKey KeyString encode decode cf st (CAdvertise by_ raw now anow) in
    err = None →
    ∃ prefixes, ParseRoutePrefixes raw (cfOverlay cf) = Ok prefixes ∧
      advertised_exactly (pID by_) (prefix_string <$> prefixes) (stStore st) (stStore st')).
Proof.
  intros run'. split; [intros id pfx who Hn Ha; by apply approvals_run|]. intros by_ raw now anow. cbn [do_call on_store].
  unfold Advertise. destruct (eqs _ _); [done|]. destruct (ParseRoutePrefixes _ _) as [ps|]; [|done].
  destruct (InTx_cases (advertise_tx (cfAudit cf) by_ (prefix_string <$> ps) now anow) (stStore st))
    as [(e & _ & ->)|(s' & ar & H & ->)]; [done|]. intros _. exists ps. split; [done|].
  apply advertise_rows in H. destruct (Routes_ListPeer _ _) as [[? ?]|]; exact H.
Qed.

(** ** A run *)

Definition demo_config : Config :=
  {| cfEnroller := demo_enroller; cfAudit := true; cfOverlay := overlay demo_enroller;
     cfIDKey := Users.demo_kdf; cfDummyHash := ""; cfPolicyPath := "policy.yaml";
     cfRegistry := {| rgOverlay := overlay demo_enroller; rgOverlay6 := overlay6 demo_enroller; rgAudit := true; rgLock := true |} |}.
Definition demo_state (s : Store) : State := {| stLimit := ∅; stLock := {| lkHubKey := "hub-key"; lkAudit := true; lkReported := ∅ |};
  stUsers := {| Users.usLimit := ∅; Users.usFailures := 0 |}; stStore := s |}.
Definition demo_verify (k : PublicKey) (msg : list byte) (sig : Signature) : bool := bool_decide (sig = k ++ msg).
Definition demo_admin : Principal := {| prUserID := "u1"; prName := "ada"; prRole := RoleAdmin; prLocal := false |}.
Definition demo_call : State → call → State * option cerror :=
  do_call demo_verify demo_parse demo_key (λ _, "") (λ _, None) demo_config.
Definition demo_run : State → list call → State :=
  run demo_verify demo_parse demo_key (λ _, "") (λ _, None) demo_config.
Definition demo_issue : call := CIssue demo_pol LocalAdmin demo_treq (demo_draw 1).
Definition demo_join : call := CEnroll demo_pol (2 * second) (demo_req "key-one") (demo_draw 2).
Definition demo_issued_state : State := demo_run (demo_state demo_start) [demo_issue].
Definition demo_enrolled_state : State := (demo_call demo_issued_state demo_join).1.
Definition demo_id : string := hd "" (pID <$> peers (stStore demo_enrolled_state)).

Lemma demo_tables : tables_ok demo_start.
Proof.
  split; [exact demo_start_ok|..]; simpl; try (by constructor); try by intros ? ?%elem_of_nil.
  all: try (repeat constructor; set_solver).
Qed.

Lemma token_single_use_witness :
  ∃ lim x, Enroll demo_parse demo_key demo_enroller demo_pol (3 * second) (demo_req "key-two") (demo_draw 3)
    (stLimit demo_enrolled_state) (stStore demo_enrolled_state) = (lim, stStore demo_enrolled_state, Err x).
Proof.
  pose proof (token_single_use demo_verify demo_parse demo_key (λ _, "") (λ _, None) demo_config (demo_state demo_start)
    [demo_issue] [] demo_pol demo_pol (2 * second) (3 * second) (demo_req "key-one") (demo_req "key-two")
    (demo_draw 2) (demo_draw 3) demo_tables eq_refl (List.Forall_nil _)) as H.
  assert ((demo_call demo_issued_state demo_join).2 = None) as He by (vm_compute; reflexivity).
  unfold demo_enrolled_state. cbv zeta in H. fold demo_run demo_call demo_join demo_issued_state in H.
  change (run demo_verify demo_parse demo_key (λ _, "") (λ _, None) demo_config) with demo_run in H.
  change (do_call demo_verify demo_parse demo_key (λ _, "") (λ _, None) demo_config) with demo_call in H.
  change (demo_run (demo_state demo_start) [demo_issue]) with demo_issued_state in H. fold demo_join in H.
  destruct (demo_call demo_issued_state demo_join) as [st2 err]. exact (H He).
Defined.

(** The name db is selected by the policy; nobody gets it without an admin. *)
Lemma selected_names_need_admin_witness :
  let s := stStore (demo_run (demo_state demo_start) [demo_issue; demo_join]) in
  length (peers s) = 1%nat ∧ (∀ p, p ∈ peers s → pName p ≠ "db").
Proof.
  split; [vm_compute; reflexivity|].
  apply (selected_names_need_admin demo_verify demo_parse demo_key (λ _, "") (λ _, None) demo_config "db" (demo_state demo_start)
    [demo_issue; demo_join]).
  - exact demo_tables.
  - split; intros ? ?%elem_of_nil; done.
  - repeat constructor; simpl; try done; try (intros []; done); by intros [_ ?].
Defined.

Definition demo_token : Token := new_token LocalAdmin demo_treq demo_user [] 1 (demo_draw 1).
Definition demo_peer : Peer :=
  default (new_peer demo_key demo_enroller (demo_req "key") demo_token (demo_draw 1) [] (Addr4 0) "") (head (peers (stStore demo_enrolled_state))).
Definition demo_approvals : list call :=
  [CAdvertise demo_peer ["10.0.0.0/24"] 5 5; CSetApproved demo_admin (pName demo_peer) "10.0.0.0/24" true 6 6].

Lemma routes_approved_by_admins_witness :
  ∃ l1 c l2, demo_approvals = l1 ++ c :: l2 ∧
    gives_approval demo_id "10.0.0.0/24" "ada" (stStore (demo_run demo_enrolled_state l1)) c.
Proof.
  destruct (proj1 (routes_approved_by_admins demo_verify demo_parse demo_key (λ _, "") (λ _, None) demo_config
    demo_enrolled_state demo_approvals) demo_id "10.0.0.0/24" "ada") as (l1 & c & l2 & Hl & Hg & _).
  - intros (r & Hr & _). vm_compute in Hr. by apply elem_of_nil in Hr.
  - eexists. split; [vm_compute; left|]. split_and!; vm_compute; reflexivity.
  - exists l1, c, l2. split; [exact Hl|exact Hg].
Defined.
