(* ===== verification/LockSafety.v ===== *)
(** What the network lock promises over any sequence of calls: every stored
    signature verifies over a peer's current key, was made by a key of the
    record then in force, and the stored record follows its lineage. *)

From S2P Require Import Prelude GoStrings NetIP LockRecord Store Effects Tables Enroll LockService Registry Routes Handlers Control ControlSafety.

Section Lock.
Context (Verify : PublicKey → list byte → Signature → bool)
  (ParseKey : string → option (list byte)) (KeyString : list byte → string)
  (encode : Signed → string) (decode : string → option Signed) (cf : Config) (hub : string).

(** ** Signatures *)

(** The row holds a signature over its peer and key, under the name of the day. *)
Definition verifies (g : PeerSignature) : Prop :=
  ∃ name key msg signer sig,
    gSignerKey g = KeyText signer ∧ gSignature g = SignatureText sig ∧ ParseKey (gPublicKey g) = Some key ∧
    peerBytes {| rID := gPeerID g; rName := name; rKey := key |} = Ok msg ∧ Verify signer msg sig = true.

(** The key is the one the peer, or the hub, has. *)
Definition key_current (s : Store) (id key : string) : Prop :=
  (id = HubID ∧ key = hub) ∨ ∃ p, p ∈ peers s ∧ pID p = id ∧ pPublicKey p = key.

Definition sound (s : Store) (g : PeerSignature) : Prop := verifies g ∧ key_current s (gPeerID g) (gPublicKey g).
Definition signatures_sound (s : Store) : Prop := ∀ g, g ∈ signatures s → sound s g.

Lemma sound_mono s s' g :
  (∀ p, p ∈ peers s → ∃ p', p' ∈ peers s' ∧ pID p' = pID p ∧ pPublicKey p' = pPublicKey p) → sound s g → sound s' g.
Proof.
  intros H [Hv [Hk|(p & Hp & Hid & Hk)]]; (split; [done|]); [by left|right].
  destruct (H p Hp) as (p' & Hp' & Hi & Hkk). exists p'. split_and!; [done|congruence..].
Qed.

Lemma signatures_sound_mono s s' :
  signatures s' = signatures s →
  (∀ p, p ∈ peers s → ∃ p', p' ∈ peers s' ∧ pID p' = pID p ∧ pPublicKey p' = pPublicKey p) →
  signatures_sound s → signatures_sound s'.
Proof. intros Hs Hp HI g Hg. rewrite Hs in Hg. by eapply sound_mono, HI. Qed.

Lemma update_rows_sound id f s :
  (∀ p, pID (f p) = pID p ∧ pPublicKey (f p) = pPublicKey p) → signatures_sound s → signatures_sound (update_rows id f s).
Proof.
  intros Hf. apply signatures_sound_mono; [done|]. intros p Hp.
  exists (if eqs (pID p) id then f p else p). split; [by apply (list_elem_of_fmap_2 (λ p, if eqs (pID p) id then f p else p))|].
  destruct (eqs (pID p) id); [apply Hf|done].
Qed.

Lemma update_peer_sound id f : (∀ p, pID (f p) = pID p ∧ pPublicKey (f p) = pPublicKey p) → keeps signatures_sound (update_peer id f).
Proof. intros Hf s s' a HI ->%update_peer_eq. by apply update_rows_sound. Qed.

Lemma Rename_sound id n : keeps signatures_sound (Peers_Rename id n).
Proof. intros s s' a HI. unfold Peers_Rename. destruct (_ && _); [done|]. by apply update_peer_sound. Qed.

Lemma SetIPv6Capable_sound id c : keeps signatures_sound (Peers_SetIPv6Capable id c).
Proof.
  intros s s' a HI. unfold Peers_SetIPv6Capable. destruct (existsb _ _).
  - intros [= <- _]. by apply update_rows_sound.
  - destruct (peer_exists id s); [|done]. by intros [= <- _].
Qed.

Lemma Create_sound p : keeps signatures_sound (Peers_Create p).
Proof.
  intros s s' [] HI H. assert (signatures s' = signatures s) as Hs by (change (same TSignatures s s'); eapply touches_Peers_Create; [done|not_in]).
  apply Peers_Create_ok in H as (_ & _ & _ & _ & ->). revert HI. apply signatures_sound_mono; [done|].
  intros q Hq. exists q. split; [|done]. simpl. apply elem_of_app. by left.
Qed.

Lemma other_sound {E A} l (m : tx E A) : touches l m → TPeers ∉ l → TSignatures ∉ l → keeps signatures_sound m.
Proof.
  intros Ht Hp Hs s s' a HI H. pose proof (Ht _ _ _ H TPeers Hp) as Hp'. pose proof (Ht _ _ _ H TSignatures Hs) as Hs'. simpl in *.
  revert HI. apply signatures_sound_mono; [done|]. intros p Hin. exists p. by rewrite Hp'.
Qed.

Lemma Put_rows g s s' :
  Signatures_Put g s = Ok (s', ()) → peers s' = peers s ∧ ∀ h, h ∈ signatures s' → h ∈ signatures s ∨ h = g.
Proof.
  unfold Signatures_Put. destruct (_ || _); [done|]. destruct (existsb _ _); intros [= <-]; (split; [done|]); intros h; simpl.
  - intros (h0 & -> & Hin)%list_elem_of_fmap. destruct (same_signature g h0); auto.
  - intros [Hin | ->%list_elem_of_singleton]%elem_of_app; auto.
Qed.

Lemma Put_sound g s s' : signatures_sound s → sound s g → Signatures_Put g s = Ok (s', ()) → signatures_sound s'.
Proof.
  intros HI Hg [Hp Hs]%Put_rows h Hh. apply (sound_mono s); [by rewrite Hp; eauto|].
  apply Hs in Hh as [Hh | ->]; [by apply HI|done].
Qed.

Ltac sound_leaf :=
  first [ apply Create_sound | apply Rename_sound | apply SetIPv6Capable_sound
        | eapply other_sound; [solve [auto with touches | apply touches_read; solve_reads]|not_in|not_in] ].

Lemma delete_sound r id by_ act nm anow : keeps signatures_sound (delete_tx r id by_ act nm anow).
Proof.
  unfold delete_tx. apply keeps_bind; [unfold Peers_GetByID; solve_keeps with sound_leaf|]. intros name.
  apply (triple_bind _ (λ _ s, ∀ g, g ∈ signatures s → gPeerID g ≠ id → sound s g)).
  { apply triple_lift. intros s s' a HI. unfold Peers_Delete. destruct (peer_exists id s); [|done]. intros [= <- _] g Hg Hid.
    destruct (HI g Hg) as [Hv [Hk|(p & Hp & Hi & Hk)]]; (split; [done|]); [by left|right].
    exists p. split; [|done]. apply list_elem_of_filter. split; [|done]. rewrite Hi. by apply eqs_false. }
  intros _. apply (triple_bind _ (λ _, signatures_sound)).
  { apply triple_lift. intros s s' a HI [= <- _] g [Hid Hg]%list_elem_of_filter. destruct (HI g Hg) as [Hv Hk]; [by apply eqs_false|].
    by split. }
  intros _. solve_keeps with sound_leaf.
Qed.

Lemma RecordOf_ok svc id k s s' rec name :
  RecordOf ParseKey svc id k s = Ok (s', (rec, name)) → lkHubKey svc = hub →
  s' = s ∧ key_current s id k ∧ ∃ key, ParseKey k = Some key ∧ rec = {| rID := id; rName := name; rKey := key |}.
Proof.
  intros H Hh. split; [by eapply reads_RecordOf|]. unfold RecordOf in H.
  apply tx_bind_ok in H as (s1 & [n cur] & Hc & H). apply tx_bind_ok in H as (s2 & [] & Hck & H).
  apply check_tx_ok in Hck as [Hk ->]. apply eqs_true in Hk. simpl in Hk.
  apply tx_bind_ok in H as (s3 & key & Hkey & [= <- <- <-]). apply of_result_ok in Hkey as [Hkey ->].
  unfold of_option in Hkey. destruct (ParseKey k) as [key'|] eqn:E; [|done]. injection Hkey as ->.
  split; [|by exists key]. destruct (eqs id HubID) eqn:Ehub.
  - apply eqs_true in Ehub. injection Hc as <- <- <-. left. split; [done|]. congruence.
  - apply tx_bind_ok in Hc as (s4 & p & Hp & [= <- <- <-]). apply lift_ok in Hp. unfold Peers_GetByID in Hp.
    apply get_ok in Hp as [_ Hp]. apply find_row_ok in Hp as [Hin Hid]. right. exists p. apply eqs_true in Hid.
    by rewrite Hk.
Qed.

Lemma delete_rows r id by_ act nm anow s s' g :
  delete_tx r id by_ act nm anow s = Ok (s', ()) → g ∈ signatures s' → g ∈ signatures s.
Proof.
  intros H. revert g.
  assert (keeps (λ x, ∀ g, g ∈ signatures x → g ∈ signatures s) (delete_tx r id by_ act nm anow)) as Hk; [|by eapply Hk].
  assert (∀ E A l (m : tx E A), touches l m → TSignatures ∉ l → keeps (λ x, ∀ g, g ∈ signatures x → g ∈ signatures s) m) as Hother.
  { intros E A l m Ht Hl. apply (touches_keeps l m TSignatures); [done..|]. intros x x' Hx HI g. rewrite Hx. apply HI. }
  assert (keeps (λ x, ∀ g, g ∈ signatures x → g ∈ signatures s) (Signatures_DeletePeer id)) as Hdel
    by (intros x x' a HI [= <- _] g [_ Hg]%list_elem_of_filter; by apply HI).
  unfold delete_tx, Peers_GetByID.
  solve_keeps with (first [exact Hdel | eapply Hother; [solve [auto with touches | apply touches_read; solve_reads]|not_in]]).
Qed.

(** The row a verified signature becomes. *)
Lemma signature_row_verifies id k signer sig now name key msg :
  ParseKey k = Some key → peerBytes {| rID := id; rName := name; rKey := key |} = Ok msg → Verify signer msg sig = true →
  verifies (signature_row id k signer sig now).
Proof. intros Hk Hm Hv. exists name, key, msg, signer, sig. done. Qed.

Lemma bytes_ok (r : result lock_error (list byte)) (s s' : Store) msg :
  of_result (match r with Ok b => Ok b | Err _ => Err ErrValidation end) s = Ok (s', msg) → r = Ok msg ∧ s' = s.
Proof. intros [H ->]%of_result_ok. destruct r; [|done]. injection H as ->. done. Qed.

Lemma sign_put svc by_ sa s s' :
  lkHubKey svc = hub → signInTx Verify ParseKey svc by_ sa s = Ok (s', ()) → signatures_sound s →
  signatures_sound s' ∧
  ∀ g, g ∈ signatures s' → g ∈ signatures s ∨ gSignerKey g = KeyText (sgSigner (saSigning sa)).
Proof.
  intros Hh H HI. unfold signInTx in H. apply tx_bind_ok in H as (s1 & [rec name] & Hr & H).
  apply RecordOf_ok in Hr as (-> & Hcur & key & Hkey & ->); [|done]. cbn [fst snd] in H.
  apply tx_bind_ok in H as (s1 & msg & [Hm ->]%bytes_ok & H). apply tx_bind_ok in H as (s1 & [] & [Hv ->]%check_tx_ok & H).
  apply tx_bind_ok in H as (s1 & [] & Hput%lift_ok & H).
  assert (sound s (signature_row (sgPeerID (saSigning sa)) (sgPublicKey (saSigning sa)) (sgSigner (saSigning sa)) (sgSignature (saSigning sa)) (saNow sa))) as Hrow
    by (split; [by eapply signature_row_verifies|done]).
  assert (signatures s' = signatures s1 ∧ peers s' = peers s1) as [Hs Hp].
  { match type of H with ?m s1 = _ => assert (touches [TGeneration; TAudit] m) as Ht by solve_touches end.
    split; [change (same TSignatures s1 s')|change (same TPeers s1 s')]; (eapply Ht; [exact H|not_in]). }
  split.
  - eapply signatures_sound_mono; [exact Hs| |by eapply Put_sound]. intros p Hin. exists p. by rewrite Hp.
  - intros g. rewrite Hs. apply Put_rows in Hput as [_ Hput]. intros [Hg | ->]%Hput; [by left|by right].
Qed.

Lemma sign_all_put svc by_ k l : ∀ s s',
  lkHubKey svc = hub → sign_all Verify ParseKey svc by_ k l s = Ok (s', ()) → signatures_sound s →
  signatures_sound s' ∧ ∀ g, g ∈ signatures s' → g ∈ signatures s ∨ (l ≠ [] ∧ gSignerKey g = KeyText k).
Proof.
  induction l as [|sa l IH]; intros s s' Hh H HI; cbn [sign_all] in H.
  { injection H as <-. split; [done|by left]. }
  apply tx_bind_ok in H as (s1 & [] & [Hk ->]%check_tx_ok & H). apply bool_decide_eq_true in Hk.
  apply tx_bind_ok in H as (s1 & [] & Hs & H). apply sign_put in Hs as [HI1 Hg1]; [|done..].
  apply IH in H as [HI2 Hg2]; [|done..]. split; [done|]. intros g [Hg|[_ Hg]]%Hg2; [|by right].
  apply Hg1 in Hg as [Hg|Hg]; [by left|right]. split; [done|]. by rewrite <- Hk.
Qed.

(** ** The record *)

(** The record in the database. *)
Definition stored (s : Store) : option Signed := meta s !! MetaLockRecord ≫= decode.

Lemma LoadLockRecord_ok s s' cur : LoadLockRecord decode s = Ok (s', cur) → s' = s ∧ stored s = cur.
Proof.
  unfold LoadLockRecord, stored, Meta_Get. destruct (meta s !! MetaLockRecord) as [raw|]; simpl.
  - destruct (decode raw); [|done]. by intros [= <- <-].
  - by intros [= <- <-].
Qed.

Lemma stored_same s s' : same TMeta s s' → stored s' = stored s.
Proof. intros H. unfold stored. by rewrite (H MetaLockRecord). Qed.

(** The key is in the record, as that of some signer. *)
Definition key_in (r : option Signed) (g : PeerSignature) : Prop :=
  ∃ rec k, r = Some rec ∧ Enabled (record rec) = true ∧ Has (record rec) k = true ∧ gSignerKey g = KeyText k.

Lemma SignerKey_has r id k : SignerKey r id = Some k → Has r k = true.
Proof.
  unfold SignerKey, Has. destruct (list_find _ _) as [[i sg]|] eqn:H; [|done]. intros [= <-]. apply list_find_Some in H as (H & _ & _).
  apply existsb_exists. exists sg. split; [apply list_elem_of_In; by eapply list_elem_of_lookup_2|]. by apply bool_decide_eq_true.
Qed.

Lemma signerKeyOf_ok by_ key s s' u :
  signerKeyOf decode by_ key s = Ok (s', u) → s' = s ∧ ∀ g, gSignerKey g = KeyText key → key_in (stored s) g.
Proof.
  intros H. split; [by eapply reads_signerKeyOf|]. unfold signerKeyOf in H.
  apply tx_bind_ok in H as (s1 & cur & [-> Hc]%LoadLockRecord_ok & H). destruct cur as [c|]; [|done].
  destruct (Enabled (record c)) eqn:He; [|done]. apply check_tx_ok in H as [Hk _]. apply bool_decide_eq_true in Hk.
  intros g Hg. exists c, key. split_and!; [done|done| |done]. by eapply SignerKey_has.
Qed.

Definition admin_owned (s : Store) (p : Peer) : Prop := ∃ u, u ∈ users s ∧ uID u = pOwnerID p ∧ uRole u = RoleAdmin.

Lemma requireAdminOwner_ok by_ s s' u : requireAdminOwner by_ s = Ok (s', u) → s' = s ∧ admin_owned s by_.
Proof.
  intros H. split; [by eapply reads_requireAdminOwner|]. unfold requireAdminOwner in H. destruct (eqs _ _); [done|].
  apply tx_bind_ok in H as (s1 & owner & Ho%lift_ok & H). unfold Users_GetByID in Ho. apply get_ok in Ho as [-> Ho].
  apply find_row_ok in Ho as [Hin Hid]. apply check_tx_ok in H as [Hr _]. exists owner. by rewrite eqs_true in Hid, Hr.
Qed.

Lemma stored_tx {E A} l (m : tx E A) s s' a : touches l m → TMeta ∉ l → m s = Ok (s', a) → stored s' = stored s.
Proof. intros Ht Hl H. apply stored_same. by eapply Ht. Qed.

Lemma set_ok svc by_ next sigs anow s s' :
  lkHubKey svc = hub → (sigs = [] ∨ (is_Some (SignerKey (record next) (pID by_)) ∧ Enabled (record next) = true)) →
  decode (encode next) = Some next → signatures_sound s →
  set_tx Verify ParseKey encode decode svc by_ next sigs anow s = Ok (s', ()) →
  signatures_sound s' ∧ stored s' = Some next ∧ Accept Verify (record <$> stored s) next = Ok () ∧
  (first_contact (stored s) = true → admin_owned s by_) ∧
  ∀ g, g ∈ signatures s' → g ∈ signatures s ∨ key_in (Some next) g.
Proof.
  intros Hh Hsig Hdec HI H. unfold set_tx in H. apply tx_bind_ok in H as (s1 & cur & [-> <-]%LoadLockRecord_ok & H).
  apply tx_bind_ok in H as (s1 & [] & Hadm & H).
  assert (s1 = s ∧ (first_contact (stored s) = true → admin_owned s by_)) as [-> Ha].
  { destruct (first_contact _); [apply requireAdminOwner_ok in Hadm; naive_solver|by injection Hadm as <-]. }
  apply tx_bind_ok in H as (s1 & [] & [Hacc ->]%of_result_ok & H). destruct (Accept _ _ _) as [[]|] eqn:Eacc; [|done].
  apply tx_bind_ok in H as (s1 & [] & Hm%lift_ok & H). apply tx_bind_ok in H as (s2 & [] & Hs & H).
  assert (touches [TMeta] (Meta_Set MetaLockRecord (encode next))) as Htm by apply lock_meta_touches.
  assert (signatures s1 = signatures s) as Hs1 by (change (same TSignatures s s1); eapply Htm; [exact Hm|not_in]).
  assert (signatures_sound s1) as HI1 by (eapply (other_sound _ _ Htm); [not_in|not_in|exact HI|exact Hm]).
  assert (stored s1 = Some next) as Hst1.
  { injection Hm as <-. unfold stored. cbn [with_meta meta]. by rewrite lookup_insert_eq. }
  pose proof (sign_all_touches Verify ParseKey KeyString decode svc by_ (default (replicate KeySize Byte.x00) (SignerKey (record next) (pID by_))) sigs) as Htl.
  pose proof (stored_tx _ _ _ _ _ Htl ltac:(not_in) Hs) as Hst2.
  apply sign_all_put in Hs as [HI2 Hnew]; [|done..].
  match type of H with ?m s2 = _ => assert (touches [TGeneration; TAudit] m) as Ht by solve_touches end.
  assert (signatures s' = signatures s2) as Hs2 by (change (same TSignatures s2 s'); eapply Ht; [exact H|not_in]).
  split_and!; [|by rewrite (stored_tx _ _ _ _ _ Ht ltac:(not_in) H), Hst2|done|done|].
  - eapply (other_sound _ _ Ht); [not_in|not_in|exact HI2|exact H].
  - intros g. rewrite Hs2. intros [Hg|[Hne Hg]]%Hnew; [left; by rewrite <- Hs1|right].
    destruct Hsig as [|[[k Hk] He]]; [done|]. rewrite Hk in Hg. exists next, k. split_and!; try done. by eapply SignerKey_has.
Qed.

Lemma VerifyRotation_ok p k signer sig now s s' row :
  VerifyRotation Verify ParseKey decode p k signer sig now s = Ok (s', row) →
  s' = s ∧ gPeerID row = pID p ∧ gPublicKey row = k ∧ verifies row ∧ key_in (stored s) row.
Proof.
  intros H. split; [by eapply reads_VerifyRotation|]. unfold VerifyRotation in H.
  apply tx_bind_ok in H as (s1 & [] & [-> Hk]%signerKeyOf_ok & H).
  apply tx_bind_ok in H as (s1 & key & [Hkey ->]%of_result_ok & H).
  apply tx_bind_ok in H as (s1 & msg & [Hm ->]%bytes_ok & H). apply tx_bind_ok in H as (s1 & [] & [Hv ->]%check_tx_ok & H).
  injection H as _ <-. unfold of_option in Hkey. destruct (ParseKey k) as [key'|] eqn:E; [|done]. injection Hkey as ->.
  split_and!; [done|done|by eapply signature_row_verifies|by apply Hk].
Qed.

(** After a rotation only the new key may be signed. *)
Lemma rotate_ok r id k signed now anow s s' gen :
  tables_ok s → signatures_sound s → rotate_tx Verify ParseKey decode r id k signed now anow s = Ok (s', gen) →
  signatures_sound s' ∧ ∀ g, g ∈ signatures s' → g ∈ signatures s ∨ key_in (stored s) g.
Proof.
  intros Hok HI H. unfold rotate_tx in H. apply tx_bind_ok in H as (s1 & p & Hp%lift_ok & H).
  unfold Peers_GetByID in Hp. apply get_ok in Hp as [-> Hp]. apply find_row_ok in Hp as [Hin Hid]. apply eqs_true in Hid.
  apply tx_bind_ok in H as (s1 & sig & Hsig & H).
  assert (s1 = s ∧ match sig with Some row => gPeerID row = id ∧ gPublicKey row = k ∧ verifies row ∧ key_in (stored s) row | None => True end) as [-> Hrow].
  { destruct signed as [sr|]; [|by injection Hsig as <- <-]. destruct (rgLock r); [|done].
    apply tx_bind_ok in Hsig as (s2 & row & Hv & [= <- <-]). apply VerifyRotation_ok in Hv as (-> & Hi & ?). by rewrite <- Hid. }
  apply tx_bind_ok in H as (s1 & [] & Hset%lift_ok & H). apply tx_bind_ok in H as (s2 & [] & Hdel%lift_ok & H).
  unfold Peers_SetPublicKey in Hset. destruct (_ && _) eqn:Econf; [done|]. apply update_peer_eq in Hset as ->.
  injection Hdel as <-. apply tx_bind_ok in H as (s3 & [] & Hput & H).
  set (s1 := update_rows id (set_public_key k) s) in *.
  set (s2 := with_signatures (filter (λ g, eqs (gPeerID g) id && eqs (gPublicKey g) (pPublicKey p) = false) (signatures s1)) s1) in *.
  assert (signatures_sound s2 ∧ ∀ g, g ∈ signatures s2 → g ∈ signatures s) as [HI2 Hsub].
  { split; [|by intros g [_ Hg]%list_elem_of_filter].
    intros g [Hne Hg]%list_elem_of_filter. destruct (HI g Hg) as [Hv [Hk|(q & Hq & Hqi & Hqk)]]; (split; [done|]); [by left|right].
    destruct (decide (pID q = id)) as [Heq|Hneq].
    - assert (q = p) as -> by (eapply (key_unique pID); [apply Hok|done|done|congruence]).
      apply andb_false_iff in Hne as [Hne|Hne]; apply eqs_false in Hne; congruence.
    - exists q. split_and!; [|done|done]. apply list_elem_of_fmap. exists q. split; [|done].
      by rewrite (proj2 (eqs_false _ _) Hneq). }
  assert (key_current s2 id k) as Hcur.
  { right. exists (set_public_key k p). split_and!; [|done|done]. apply list_elem_of_fmap. exists p. split; [|done].
    by rewrite (proj2 (eqs_true _ _) Hid). }
  assert (signatures_sound s3 ∧ ∀ g, g ∈ signatures s3 → g ∈ signatures s2 ∨ key_in (stored s) g) as [HI3 Hnew].
  { destruct sig as [row|]; [|injection Hput as Hput; rewrite <- Hput; split; [done|by left]]. apply lift_ok in Hput.
    destruct Hrow as (Hri & Hrk & Hrv & Hrin). split.
    - eapply Put_sound; [exact HI2| |exact Hput]. split; [done|]. by rewrite Hri, Hrk.
    - apply Put_rows in Hput as [_ Hput]. intros g [Hg | ->]%Hput; [by left|by right]. }
  match type of H with ?m s3 = _ => assert (touches [TGeneration; TAudit] m) as Ht by solve_touches end.
  assert (signatures s' = signatures s3) as Hs' by (change (same TSignatures s3 s'); eapply Ht; [exact H|not_in]).
  split; [eapply (other_sound _ _ Ht); [not_in|not_in|exact HI3|exact H]|]. intros g. rewrite Hs'.
  intros [Hg|Hg]%Hnew; [left; by apply Hsub|by right].
Qed.

(** ** One call *)

(** The records that are set survive being written to the database and read back. *)
Definition readable (c : call) : Prop :=
  match c with CLockSet _ next _ _ => decode (encode next) = Some next | _ => True end.

(** What a call may do to the record. *)
Definition record_step (s s' : Store) (c : call) : Prop :=
  stored s' = stored s ∨
  ∃ by_ next sigs anow, c = CLockSet by_ next sigs anow ∧ stored s' = Some next ∧
    Accept Verify (record <$> stored s) next = Ok () ∧ (first_contact (stored s) = true → admin_owned s by_).

Lemma lock_step s s' c :
  readable c → tables_ok s → signatures_sound s → transacts Verify ParseKey KeyString encode decode cf hub s s' c →
  signatures_sound s' ∧ (∀ g, g ∈ signatures s' → g ∈ signatures s ∨ key_in (stored s') g) ∧ record_step s s' c.
Proof.
  intros Hread Hok HI H.
  assert (TMeta ∉ call_tables c → stored s' = stored s) as Hmeta
    by (intros Ht; apply stored_same; by eapply transacts_same).
  assert (TSignatures ∉ call_tables c → signatures s' = signatures s) as Hsame
    by (intros Ht; change (same TSignatures s s'); by eapply transacts_same).
  assert ((TMeta ∉ call_tables c) → signatures_sound s' → (∀ g, g ∈ signatures s' → g ∈ signatures s ∨ key_in (stored s) g) →
    signatures_sound s' ∧ (∀ g, g ∈ signatures s' → g ∈ signatures s ∨ key_in (stored s') g) ∧ record_step s s' c) as Hquiet
    by (intros Hm ? ?; split; [done|]; rewrite (Hmeta Hm); split; [done|left; by apply Hmeta]).
  assert (TMeta ∉ call_tables c → TSignatures ∉ call_tables c → signatures_sound s' →
    signatures_sound s' ∧ (∀ g, g ∈ signatures s' → g ∈ signatures s ∨ key_in (stored s') g) ∧ record_step s s' c) as Hquiet2
    by (intros Hm Hs ?; apply Hquiet; [done|done|]; rewrite (Hsame Hs); by left).
  assert (TMeta ∉ call_tables c → TSignatures ∉ call_tables c → TPeers ∉ call_tables c →
    signatures_sound s' ∧ (∀ g, g ∈ signatures s' → g ∈ signatures s ∨ key_in (stored s') g) ∧ record_step s s' c) as Hquiet3.
  { intros Hm Hs Hp. apply Hquiet2; [done|done|]. assert (peers s' = peers s) as Hpe by (change (same TPeers s s'); by eapply transacts_same).
    eapply signatures_sound_mono; [by apply Hsame| |done]. intros p Hin. exists p. by rewrite Hpe. }
  destruct H; cbn [call_tables readable] in *; try (apply Hquiet3; not_in).
  - subst s'. split; [done|]. split; [by left|by left].
  - apply Hquiet2; [not_in..|]. assert (keeps signatures_sound (enroll_tx KeyString (cfEnroller cf) pol req d pub)) as Hk; [|by eapply Hk].
    unfold enroll_tx, Tokens_GetByHash. solve_keeps with sound_leaf.
  - apply Hquiet2; [not_in..|]. assert (keeps signatures_sound (rename_tx (cfRegistry cf) by_ p name newName anow)) as Hk; [|by eapply Hk].
    unfold rename_tx. solve_keeps with sound_leaf.
  - apply Hquiet; [not_in|by eapply delete_sound|]. intros g Hg. left. by eapply delete_rows.
  - apply Hquiet; [not_in|by eapply delete_sound|]. intros g Hg. left. by eapply delete_rows.
  - apply rotate_ok in H0 as [? ?]; [|done..]. apply Hquiet; [not_in|done|done].
  - apply Hquiet2; [not_in..|]. assert (keeps signatures_sound (capable_tx id c)) as Hk; [|by eapply Hk].
    unfold capable_tx. solve_keeps with sound_leaf.
  - apply Hquiet2; [not_in..|]. subst s'. by apply update_rows_sound.
  - apply Hquiet2; [not_in..|]. subst s'. by apply update_rows_sound.
  - apply Hquiet2; [not_in..|]. assert (keeps signatures_sound (static_tx KeyString (cfRegistry cf) by_ req owner kind tags d key pub)) as Hk; [|by eapply Hk].
    unfold static_tx. solve_keeps with sound_leaf.
  - apply set_ok in H1 as (? & Hst & ? & ? & Hnew); [|done..]. split; [done|]. rewrite Hst. split; [done|]. right. by exists by_, next, sigs, anow.
  - destruct r as [s1 u]. apply signerKeyOf_ok in H0 as [_ Hkey]. apply sign_put in H1 as [? Hnew]; [|done..]. apply Hquiet; [not_in|done|].
    intros g [Hg|Hg]%Hnew; [by left|right]. by apply Hkey.
Qed.
End Lock.

(** ** Any calls *)

Section Runs.
Context (Verify : PublicKey → list byte → Signature → bool)
  (ParseKey : string → option (list byte)) (KeyString : list byte → string)
  (encode : Signed → string) (decode : string → option Signed) (cf : Config) (st : State).
Definition after (l : list call) : Store := stStore (run Verify ParseKey KeyString encode decode cf st l).

Context (Hok : tables_ok (stStore st)) (HI : signatures_sound Verify ParseKey (lkHubKey (stLock st)) (stStore st)).

Lemma after_ok l : Forall (readable encode decode) l →
  tables_ok (after l) ∧ signatures_sound Verify ParseKey (lkHubKey (stLock st)) (after l).
Proof.
  intros Hl. apply (run_invariant Verify ParseKey KeyString encode decode cf
    (λ s, tables_ok s ∧ signatures_sound Verify ParseKey (lkHubKey (stLock st)) s) (readable encode decode) st); [|done..].
  intros s s' c Hr [Hs Hsig] H. split; [by eapply transacts_tables|]. by eapply lock_step.
Qed.

Lemma after_step l c : Forall (readable encode decode) (l ++ [c]) →
  (∀ g, g ∈ signatures (after (l ++ [c])) → g ∈ signatures (after l) ∨ key_in (stored decode (after (l ++ [c]))) g) ∧
  record_step Verify decode (after l) (after (l ++ [c])) c.
Proof.
  intros [Hl [Hc _]%Forall_cons]%Forall_app. destruct (after_ok l Hl) as [H1 H2].
  pose proof (do_call_transacts Verify ParseKey KeyString encode decode cf (run Verify ParseKey KeyString encode decode cf st l) c) as H.
  rewrite <- calls_snoc, run_hub in H. eapply lock_step in H as (_ & ? & ?); done.
Qed.

Lemma after_made l g : Forall (readable encode decode) l → g ∈ signatures (after l) →
  g ∈ signatures (after []) ∨ ∃ l1 c l2, l = l1 ++ c :: l2 ∧ key_in (stored decode (after (l1 ++ [c]))) g.
Proof.
  induction l as [|c l IH] using rev_ind; intros Hl Hg; [by left|].
  destruct (after_step l c Hl) as [Hnew _]. apply Forall_app in Hl as [Hl _].
  destruct (Hnew g Hg) as [Hold|Hk]; [|right; by exists l, c, []].
  destruct (IH Hl Hold) as [|(l1 & c1 & l2 & -> & Hk)]; [by left|right]. exists l1, c1, (l2 ++ [c]).
  by rewrite <- app_assoc.
Qed.

Lemma after_lineage l r : Forall (readable encode decode) l → stored decode (after []) = Some r → Signers (record r) ≠ [] →
  (∃ r', stored decode (after l) = Some r' ∧ lineage Verify (record r) (record r')) ∨
  ∃ l1 l2 e, l = l1 ++ l2 ∧ stored decode (after l1) = Some e ∧ lineage Verify (record r) (record e) ∧ Signers (record e) = [].
Proof.
  intros Hl Hr Hne. induction l as [|c l IH] using rev_ind.
  { left. exists r. split; [done|constructor]. }
  destruct (after_step l c Hl) as [_ Hstep]. apply Forall_app in Hl as [Hl _].
  destruct (IH Hl) as [(r' & Hr' & Hlin)|(l1 & l2 & e & -> & ?)]; [|right; exists l1, (l2 ++ [c]), e; by rewrite app_assoc].
  destruct (decide (Signers (record r') = [])) as [He|Hn]; [right; by exists l, [c], r'|left].
  destruct Hstep as [Hsame|(by_ & next & sigs & anow & -> & Hst & Hacc & _)]; [exists r'; by rewrite Hsame|].
  exists next. split; [done|]. rewrite Hr' in Hacc. apply Accept_ok in Hacc as [_ Hacc]. cbn [fmap option_fmap option_map in_force] in Hacc.
  rewrite bool_decide_false in Hacc by done. by apply (lineage_next _ _ (record r') next); [|done|apply Hacc..].
Qed.

Lemma after_first l r : Forall (readable encode decode) l → first_contact (stored decode (after [])) = true →
  stored decode (after l) = Some r → Signers (record r) ≠ [] →
  ∃ l1 by_ next sigs anow l2, l = l1 ++ CLockSet by_ next sigs anow :: l2 ∧ admin_owned (after l1) by_ ∧
    signed_by Verify (record next) next.
Proof.
  intros Hl Hf. revert r. induction l as [|c l IH] using rev_ind; intros r Hr Hne.
  { rewrite Hr in Hf. simpl in Hf. by apply bool_decide_eq_true in Hf. }
  destruct (after_step l c Hl) as [_ Hstep]. apply Forall_app in Hl as [Hl _].
  destruct (first_contact (stored decode (after l))) eqn:Ef.
  - destruct Hstep as [Hsame|(by_ & next & sigs & anow & -> & Hst & Hacc & Ha)].
    + rewrite <- Hsame, Hr in Ef. simpl in Ef. by apply bool_decide_eq_true in Ef.
    + exists l, by_, next, sigs, anow, []. split_and!; [done|by apply Ha|]. apply Accept_ok in Hacc as [_ Hacc].
      destruct (stored decode (after l)) as [c0|]; [|done]. cbn in Ef, Hacc. apply bool_decide_eq_true in Ef. by rewrite bool_decide_true in Hacc by done.
  - destruct (stored decode (after l)) as [r'|] eqn:Er; [|done]. cbn in Ef. apply bool_decide_eq_false in Ef.
    destruct (IH Hl r' eq_refl Ef) as (l1 & by_ & next & sigs & anow & l2 & -> & ?).
    exists l1, by_, next, sigs, anow, (l2 ++ [c]). by rewrite <- app_assoc.
Qed.
End Runs.

(** C10: the lock record and the signatures over any calls.  Take a sound
    database whose signatures verify over their peers' current keys, and any
    calls, enrolments, renames, rotations and deletions among them, whose
    records survive the database's text form.  In the end every stored
    signature verifies over the id, the current key and a name of its peer (or
    the hub), and one that was not there before was made by a key of the
    enabled record in force when it was stored.  A record that has signers is
    followed only by records its lineage signs, with a growing generation,
    until one without signers ends it; and where there was none, a record with
    signers is the work of a device an admin owns, signed by its own keys. *)
Theorem lock_followed (Verify : PublicKey → list byte → Signature → bool)
    (ParseKey : string → option (list byte)) (KeyString : list byte → string)
    (encode : Signed → string) (decode : string → option Signed) (cf : Config) (st : State) (l : list call) :
  tables_ok (stStore st) → signatures_sound Verify ParseKey (lkHubKey (stLock st)) (stStore st) → Forall (readable encode decode) l →
  let after := after Verify ParseKey KeyString encode decode cf st in
  (∀ g, g ∈ signatures (after l) →
     sound Verify ParseKey (lkHubKey (stLock st)) (after l) g ∧
     (g ∈ signatures (after []) ∨ ∃ l1 c l2, l = l1 ++ c :: l2 ∧ key_in (stored decode (after (l1 ++ [c]))) g)) ∧
  (∀ r, stored decode (after []) = Some r → Signers (record r) ≠ [] →
     (∃ r', stored decode (after l) = Some r' ∧ lineage Verify (record r) (record r')) ∨
     (∃ l1 l2 e, l = l1 ++ l2 ∧ stored decode (after l1) = Some e ∧ lineage Verify (record r) (record e) ∧ Signers (record e) = [])) ∧
  (∀ r, first_contact (stored decode (after [])) = true → stored decode (after l) = Some r → Signers (record r) ≠ [] →
     ∃ l1 by_ next sigs anow l2, l = l1 ++ CLockSet by_ next sigs anow :: l2 ∧ admin_owned (after l1) by_ ∧
       signed_by Verify (record next) next).
Proof.
  intros Hok HI Hl after. split_and!.
  - intros g Hg. split; [by eapply after_ok|by apply after_made].
  - intros r. by apply after_lineage.
  - intros r Hf. by apply after_first.
Qed.

(** ** A run: the first device locks the network and signs itself *)

Definition demo_signer : PublicKey := replicate 32 Byte.x07.
Definition demo_record : LockRecord :=
  {| LockRecord.Generation := 1; Disabled := false; Signers := [{| sPeerID := pID demo_peer; sKey := demo_signer |}] |}.
Definition demo_signed : Signed :=
  {| record := demo_record; signature := demo_signer ++ match recordBytes demo_record with Ok b => b | Err _ => [] end |}.
Definition demo_signing : SigningAt :=
  {| saSigning := {| sgPeerID := pID demo_peer; sgPublicKey := pPublicKey demo_peer; sgSigner := demo_signer;
       sgSignature := demo_signer ++ match peerBytes {| rID := pID demo_peer; rName := pName demo_peer; rKey := string_bytes "key-one" |} with
                                     | Ok b => b | Err _ => [] end |};
     saNow := 7; saAuditNow := 7 |}.
Definition demo_lock_calls : list call := [demo_issue; demo_join; CLockSet demo_peer demo_signed [demo_signing] 8].
Definition demo_decode (s : string) : option Signed := if eqs s "record" then Some demo_signed else None.
Definition demo_after : list call → Store :=
  after demo_verify demo_parse demo_key (λ _, "record") demo_decode demo_config (demo_state demo_start).

Lemma lock_followed_witness :
  length (signatures (demo_after demo_lock_calls)) = 1%nat ∧
  (∀ g, g ∈ signatures (demo_after demo_lock_calls) → sound demo_verify demo_parse "hub-key" (demo_after demo_lock_calls) g) ∧
  ∃ l1 by_ next sigs anow l2, demo_lock_calls = l1 ++ CLockSet by_ next sigs anow :: l2 ∧ admin_owned (demo_after l1) by_.
Proof.
  split; [vm_compute; reflexivity|].
  destruct (lock_followed demo_verify demo_parse demo_key (λ _, "record") demo_decode demo_config (demo_state demo_start) demo_lock_calls)
    as (Hs & _ & Hf).
  - exact demo_tables.
  - intros g Hg%elem_of_nil. destruct Hg.
  - repeat constructor.
  - split; [intros g Hg; exact (proj1 (Hs g Hg))|].
    destruct (Hf demo_signed) as (l1 & by_ & next & sigs & anow & l2 & Hl & Ha & _).
    + reflexivity.
    + vm_compute. reflexivity.
    + discriminate.
    + exists l1, by_, next, sigs, anow, l2. split; [exact Hl|exact Ha].
Defined.
