(* ===== verification/NetMapSafety.v ===== *)
(** What a peer is told follows the policy's text: who is in its map, what its
    filter admits, and which addresses each entry may use. *)

From S2P Require Import Prelude GoStrings NetIP LockRecord Store Effects Tables Alloc Enroll LockService Registry Routes Handlers Control ControlSafety NetMap.
From S2P Require Compile Policy Selector Ports Endpoints.

(** The orders in which the tables are listed. *)
Definition user_order (a b : User) : bool := str_ltb (uName a) (uName b).
Definition route_order (a b : PeerRoute) : bool :=
  if eqs (rPeerID a) (rPeerID b) then str_ltb (rPrefix a) (rPrefix b) else str_ltb (rPeerID a) (rPeerID b).

(** Owners' names and approved prefixes, as they stand in the database. *)
Definition owner_names (s : Store) : gmap string string := ownerNames (stable_sort user_order (users s)).
Definition approved_prefixes (s : Store) : gmap string (list prefix) := ApprovedRoutes (stable_sort route_order (routes s)).

(** What the policy service compiles against. *)
Definition compiler_peers (s : Store) : list Compile.Peer :=
  PolicyPeers (stable_sort by_name (peers s)) (owner_names s) (approved_prefixes s).

(** ** The loop over the peers *)

Section Loop.
Context (b : NetMapBuilder) (clock : string → Z) (rd : Reading).

(** The peers that get an entry, with their addresses. *)
Definition entries (ps : list Peer) : list (Peer * (addr * addr)) := omap (λ p, pair p <$> entry_for b rd p) ps.

(** What the table of endpoints says of a peer at the time it is read. *)
Definition endpoints_of (eps : option Endpoints.EndpointTable) (id : string) : list Endpoints.Endpoint * bool :=
  match eps with Some t => (Endpoints.Get (clock id) id t).2 | None => ([], false) end.

Definition entry_of (eps : option Endpoints.EndpointTable) (x : Peer * (addr * addr)) (e : NetPeer) : Prop :=
  let '(p, (ip, ip6)) := x in
  if eqs (pMode p) ModeStatic then e = static_entry rd p ip ip6 (online_of b (pID p))
  else e = agent_entry rd p ip ip6 (online_of b (pID p)) (endpoints_of eps (pID p)).1 (endpoints_of eps (pID p)).2
             (want_of b (pID (rdSelf rd)) (pID p)).

(** What the hub routes for the static ones. *)
Definition static_prefixes (l : list (Peer * (addr * addr))) : list prefix :=
  concat ((λ x, if eqs (pMode x.1) ModeStatic then host_prefixes x.2.1 x.2.2 else []) <$> l).

(** Reading one peer's endpoints leaves those of the others. *)
Lemma Get_other now id id' t : id ≠ id' → endpoints_of (Some (Endpoints.Get now id t).1) id' = endpoints_of (Some t) id'.
Proof.
  intros Hne. assert (∀ X (m : gmap string X), delete id m !! id' = m !! id') as Hd by (intros; by apply lookup_delete_ne).
  assert (Endpoints.reported (Endpoints.Get now id t).1 !! id' = Endpoints.reported t !! id') as H1.
  { unfold Endpoints.Get. destruct (Endpoints.reported t !! id) as [e|]; [destruct (_ <? _)|]; (destruct (Endpoints.observed t !! id) as [o|]; [destruct (_ <? _)|]); cbn; auto. }
  assert (Endpoints.observed (Endpoints.Get now id t).1 !! id' = Endpoints.observed t !! id') as H2.
  { unfold Endpoints.Get. destruct (Endpoints.reported t !! id) as [e|]; [destruct (_ <? _)|]; (destruct (Endpoints.observed t !! id) as [o|]; [destruct (_ <? _)|]); cbn; auto. }
  unfold endpoints_of. set (t' := (Endpoints.Get now id t).1) in *. unfold Endpoints.Get. rewrite H1, H2.
  destruct (Endpoints.reported t !! id') as [e|]; [destruct (_ <? _)|]; (destruct (Endpoints.observed t !! id') as [o|]; [destruct (_ <? _)|]); reflexivity.
Qed.

Lemma entry_of_reads eps eps' x e : endpoints_of eps (pID x.1) = endpoints_of eps' (pID x.1) → entry_of eps x e → entry_of eps' x e.
Proof. destruct x as [p [ip ip6]]. cbn. intros ->. done. Qed.

Lemma entries_in ps x : x ∈ entries ps → x.1 ∈ ps.
Proof. unfold entries. intros (q & Hq & H)%list_elem_of_omap. by apply fmap_Some in H as (? & _ & ->). Qed.

Lemma add_peers_spec ps : NoDup (pID <$> ps) → ∀ eps hub out,
  ∃ eps' new, add_peers b clock rd ps (eps, hub, out) = (eps', hub ++ static_prefixes (entries ps), out ++ new) ∧
    Forall2 (entry_of eps) (entries ps) new.
Proof.
  induction ps as [|p ps IH]; intros Hnd eps hub out; cbn [add_peers entries omap list_omap].
  { exists eps, []. split; [by rewrite !app_nil_r|constructor]. }
  rewrite fmap_cons in Hnd. apply NoDup_cons in Hnd as [Hni Hnd]. specialize (IH Hnd). unfold entries in *. cbn [omap list_omap].
  destruct (entry_for b rd p) as [[ip ip6]|]; [|apply IH]. cbn [fmap option_fmap option_map].
  destruct (eqs (pMode p) ModeStatic) eqn:Em.
  - destruct (IH eps (hub ++ host_prefixes ip ip6) (out ++ [static_entry rd p ip ip6 (online_of b (pID p))])) as (eps' & new & -> & H).
    exists eps', (static_entry rd p ip ip6 (online_of b (pID p)) :: new). split.
    + unfold static_prefixes. cbn [fmap list_fmap concat fst snd]. rewrite Em, <- !app_assoc. done.
    + constructor; [|done]. unfold entry_of. by rewrite Em.
  - destruct (match eps with Some t => _ | None => _ end) as [eps1 [l sym]] eqn:Eg.
    assert (endpoints_of eps (pID p) = (l, sym) ∧ ∀ id, id ≠ pID p → endpoints_of eps1 id = endpoints_of eps id) as [Hl Hrest].
    { destruct eps as [t|]; [|by injection Eg as <- <- <-]. destruct (Endpoints.Get (clock (pID p)) (pID p) t) as [t1 r] eqn:Et. injection Eg as <- ->.
      split; [cbn; by rewrite Et|]. intros id Hid. replace t1 with (Endpoints.Get (clock (pID p)) (pID p) t).1 by by rewrite Et. by apply Get_other. }
    destruct (IH eps1 hub (out ++ [agent_entry rd p ip ip6 (online_of b (pID p)) l sym (want_of b (pID (rdSelf rd)) (pID p))]))
      as (eps' & new & -> & H).
    eexists eps', (_ :: new). split.
    + unfold static_prefixes. cbn [fmap list_fmap concat fst snd]. rewrite Em. cbn [app]. by rewrite <- app_assoc.
    + constructor; [unfold entry_of; by rewrite Em, Hl|]. eapply Forall2_impl_in; [exact H|]. intros x e Hx. apply entry_of_reads, Hrest.
      intros Heq. apply Hni. rewrite <- Heq. apply list_elem_of_fmap_2. by apply (entries_in ps).
Qed.

Lemma elem_of_entries ps p ip ip6 :
  (p, (ip, ip6)) ∈ entries ps ↔
  p ∈ ps ∧ pID p ≠ pID (rdSelf rd) ∧ ParseAddr (pIPv4 p) = Some ip ∧ Visible (bVisibility b) (rdSelf rd) p = true ∧
  ip6 = if IsValid (rdSelf6 rd) then capableIPv6 p else AddrNone.
Proof.
  unfold entries. rewrite list_elem_of_omap. unfold entry_for. split.
  - intros (q & Hq & H). apply fmap_Some in H as ([i i6] & H & [= -> -> ->]).
    destruct (eqs _ _) eqn:E; [done|]. apply eqs_false in E. destruct (ParseAddr _); [|done].
    destruct (Visible _ _ _); [|done]. by injection H as -> ->.
  - intros (Hp & Hne & Hip & Hv & ->). exists p. split; [done|]. rewrite (proj2 (eqs_false _ _) Hne), Hip, Hv. done.
Qed.

Lemma entry_of_id eps x e : entry_of eps x e → npID e = pID x.1.
Proof. destruct x as [p [ip ip6]]. unfold entry_of. destruct (eqs _ _); by intros ->. Qed.
End Loop.

(** ** The compiler's peers *)

Lemma compiler_ids s : Compile.ID <$> compiler_peers s = pID <$> stable_sort by_name (peers s).
Proof. unfold compiler_peers, PolicyPeers. by rewrite <- list_fmap_compose. Qed.

Lemma compiler_nodup s : tables_ok s → NoDup (Compile.ID <$> compiler_peers s).
Proof. intros Hok. rewrite compiler_ids, stable_sort_perm. apply Hok. Qed.

(** How the compiler sees a registered peer. *)
Definition seen (s : Store) (p : Peer) : Compile.Peer := policy_peer (owner_names s) (approved_prefixes s) p.

Lemma elem_of_compiler s x : x ∈ compiler_peers s ↔ ∃ p, p ∈ peers s ∧ x = seen s p.
Proof.
  unfold compiler_peers, PolicyPeers. rewrite list_elem_of_fmap. setoid_rewrite elem_of_stable_sort.
  split; intros (p & H1 & H2); exists p; done.
Qed.

(** ** One build *)

(** Both the receiver and the network have IPv6. *)
Definition has_v6 (b : NetMapBuilder) (self : Peer) : bool := IsValid (capableIPv6 self) && PIsValid (hcOverlay6 (bHub b)).

Definition reading (b : NetMapBuilder) (s : Store) (self : Peer) (sigs : gmap string (list NetSignature)) : Reading :=
  {| rdSelf := self; rdSelf6 := if has_v6 b self then capableIPv6 self else AddrNone; rdOwners := owner_names s; rdSigs := sigs;
     rdVia := via_routes (roRoutes (RoutingFor (bVisibility b) self)); rdExit := roExitNodes (RoutingFor (bVisibility b) self) |}.

Definition hub_prefixes (b : NetMapBuilder) (self : Peer) : list prefix :=
  PrefixFrom (hcAddress (bHub b)) 32 ::
    if has_v6 b self && IsValid (hcAddress6 (bHub b)) then [PrefixFrom (hcAddress6 (bHub b)) 128] else [].

(** The signatures stored, by entry. *)
Definition signature_order (a b : PeerSignature) : bool :=
  if eqs (gPeerID a) (gPeerID b) then str_ltb (gSignerKey a) (gSignerKey b) else str_ltb (gPeerID a) (gPeerID b).
Definition stored_signatures (s : Store) : gmap string (list NetSignature) := IndexSignatures (stable_sort signature_order (signatures s)).

(** The receiver's entries. *)
Definition seen_by (b : NetMapBuilder) (s : Store) (self : Peer) : list (Peer * (addr * addr)) :=
  entries b (reading b s self (stored_signatures s)) (stable_sort by_name (peers s)).

Record built (b : NetMapBuilder) (clock : string → Z) (eps : option Endpoints.EndpointTable) (s : Store) (self : Peer) (nm : NetMap) : Prop := {
  bt_self : self ∈ peers s;
  bt_id : nmSelfID nm = pID self;
  bt_ipv4 : ParseAddr (pIPv4 self) = Some (nmSelfIPv4 nm);
  bt_ipv6 : nmSelfIPv6 nm = if has_v6 b self then capableIPv6 self else AddrNone;
  bt_filter : nmFilter nm = if has_v6 b self then FilterFor (bVisibility b) self else ipv4Filter (FilterFor (bVisibility b) self);
  bt_forward : nmForward nm = if has_v6 b self then roForward (RoutingFor (bVisibility b) self)
                              else ipv4Forward (roForward (RoutingFor (bVisibility b) self));
  bt_hub : hpAllowedIPs (nmHub nm) = hub_prefixes b self ++ static_prefixes (seen_by b s self);
  bt_peers : Forall2 (entry_of b clock (reading b s self (stored_signatures s)) eps) (seen_by b s self) (nmPeers nm);
  bt_receiver : nmSelfName nm = pName self ∧ nmSelfKind nm = pKind self ∧ nmGeneration nm = bGeneration b ∧
    nmSelfSignatures nm = default [] (stored_signatures s !! sig_index (pID self) (pPublicKey self)) ∧
    nmSelfAdvertised nm = advertised_routes (stable_sort (λ a b, str_ltb (rPrefix a) (rPrefix b)) (filter (λ r, eqs (rPeerID r) (pID self) = true) (routes s)));
  bt_network : hpPublicKey (nmHub nm) = hcPublicKey (bHub b) ∧ hpEndpoint (nmHub nm) = hcEndpoint (bHub b) ∧ nmOverlay nm = hcOverlay (bHub b) ∧
    hpSignatures (nmHub nm) = default [] (stored_signatures s !! sig_index HubID (hcPublicKey (bHub b))) ∧ nmSTUN nm = hcSTUNAddrs (bHub b);
}.

Lemma build_ok decode b clock eps id s s' eps' nm :
  NoDup (pID <$> peers s) → Build decode b clock eps id s = Ok (s', (eps', nm)) →
  s' = s ∧ LoadLockRecord decode s = Ok (s, nmLock nm) ∧ ∃ self, pID self = id ∧ built b clock eps s self nm.
Proof.
  intros Hnd H. unfold Build in H.
  apply tx_bind_ok in H as (s1 & self & Hs%lift_ok & H). unfold Peers_GetByID in Hs. apply get_ok in Hs as [-> Hs].
  apply find_row_ok in Hs as [Hin Hid]. apply eqs_true in Hid.
  apply tx_bind_ok in H as (s1 & all & Ha%lift_ok & H). injection Ha as <- <-.
  apply tx_bind_ok in H as (s1 & ip & [Hip ->]%of_result_ok & H).
  apply tx_bind_ok in H as (s1 & us & Hu%lift_ok & H). injection Hu as <- <-.
  apply tx_bind_ok in H as (s1 & rec & Hr & H). assert (s1 = s) as -> by (by eapply reads_LoadLockRecord).
  apply tx_bind_ok in H as (s1 & sg & Hg%lift_ok & H). injection Hg as <- <-.
  apply tx_bind_ok in H as (s1 & adv & Hadv%lift_ok & H). injection Hadv as <- <-. injection H as <- H.
  split; [done|]. revert H. unfold build_map. cbv zeta. fold (has_v6 b self). fold (hub_prefixes b self). fold user_order. fold (owner_names s).
  fold signature_order. fold (stored_signatures s).
  assert (NoDup (pID <$> stable_sort by_name (peers s))) as Hnd' by (by rewrite stable_sort_perm).
  match goal with |- context [add_peers b clock ?rd ?ps (eps, ?hub, [])] =>
    destruct (add_peers_spec b clock rd ps Hnd' eps hub []) as (eps1 & new & -> & Hnew) end.
  intros [= <- <-]. split; [done|]. exists self. split; [done|].
  unfold of_option in Hip. destruct (ParseAddr (pIPv4 self)) as [a|] eqn:Ep; [|done]. injection Hip as ->.
  by split.
Qed.

(** The entries of a build, by what the view says. *)
Lemma elem_of_seen_by b s self p ip ip6 :
  (p, (ip, ip6)) ∈ seen_by b s self ↔
  p ∈ peers s ∧ pID p ≠ pID self ∧ ParseAddr (pIPv4 p) = Some ip ∧ Visible (bVisibility b) self p = true ∧
  ip6 = if has_v6 b self then capableIPv6 p else AddrNone.
Proof.
  unfold seen_by. rewrite elem_of_entries, elem_of_stable_sort. cbn [reading rdSelf rdSelf6].
  assert (IsValid (if has_v6 b self then capableIPv6 self else AddrNone) = has_v6 b self) as ->; [|done].
  unfold has_v6. destruct (IsValid (capableIPv6 self)) eqn:E; [|done]. by destruct (PIsValid _).
Qed.

(** ** The policy's text *)

(** Some rule, of either direction, names the pair or routes one through the other. *)
Definition text_visible (pol : Policy.Policy) (ov : prefix) (a b : Compile.Peer) : Prop :=
  (Compile.grants_any pol ov a b ∨ ∃ x it, Compile.grants_route_any pol ov a b x it) ∨
  (Compile.grants_any pol ov b a ∨ ∃ x it, Compile.grants_route_any pol ov b a x it).

Section Text.
Context (b : NetMapBuilder) (pol : Policy.Policy) (ov : prefix) (s : Store).
Context (Hok : tables_ok s).
Context (Hvis : bVisibility b = PolicyVisibility (Some (Compile.CompileWith pol (compiler_peers s) ov))).

Lemma seen_in p : p ∈ peers s → seen s p ∈ compiler_peers s.
Proof. intros Hp. apply elem_of_compiler. eauto. Qed.

Lemma visible_text p q : p ∈ peers s → q ∈ peers s → pID p ≠ pID q →
  Visible (bVisibility b) p q = true ↔ text_visible pol ov (seen s p) (seen s q).
Proof.
  intros Hp Hq Hne. rewrite Hvis. cbn [PolicyVisibility Visible].
  destruct (Compile.Visible_correct pol (compiler_peers s) ov (compiler_nodup s Hok)) as (H & _).
  exact (H (seen s p) (seen s q) (seen_in p Hp) (seen_in q Hq) Hne).
Qed.

Lemma filter_text self x proto port : self ∈ peers s →
  (∃ fr, fr ∈ FilterFor (bVisibility b) self ∧ Compile.frSrc fr = x ∧ Compile.frProto fr = proto ∧
         Compile.frLo fr <= port <= Compile.frHi fr) ↔
  proto ∈ Compile.protos ∧ ∃ p, p ∈ peers s ∧ pID p ≠ pID self ∧ Compile.source_addr (seen s p) x ∧
    Compile.grants pol ov (seen s p) (seen s self) proto port.
Proof.
  intros Hs. rewrite Hvis. cbn [PolicyVisibility FilterFor].
  destruct (Compile.FilterFor_correct pol (compiler_peers s) ov (compiler_nodup s Hok)) as (H & _).
  specialize (H (seen s self) x proto port (seen_in self Hs)).
  change (Compile.ID (seen s self)) with (pID self) in H. rewrite H.
  setoid_rewrite elem_of_compiler. split.
  - intros (Hp & a & (p & Hin & ->) & ?). split; [done|]. by exists p.
  - intros (Hp & p & Hin & ?). split; [done|]. exists (seen s p). split; [by exists p|done].
Qed.

Lemma exit_text self p : self ∈ peers s → p ∈ peers s → pID p ≠ pID self →
  pID p ∈ roExitNodes (RoutingFor (bVisibility b) self) ↔ ∃ y, Compile.grants_route_any pol ov (seen s self) (seen s p) y true.
Proof.
  intros Hs Hp Hne. rewrite Hvis. cbn [PolicyVisibility RoutingFor roExitNodes].
  destruct (Compile.ExitNodesFor_MayUseTag_correct pol (compiler_peers s) ov (compiler_nodup s Hok)) as (H & _).
  specialize (H (seen s self) (pID p) (seen_in self Hs)). change (Compile.ID (seen s self)) with (pID self) in H. rewrite H.
  setoid_rewrite elem_of_compiler. split.
  - intros (c & (q & Hq & ->) & Hid & _ & Hg). change (pID q = pID p) in Hid.
    assert (q = p) as -> by (eapply (key_unique pID); [apply Hok|done..]). done.
  - intros Hg. exists (seen s p). split; [by exists p|done].
Qed.
End Text.

(** By ids: two different registered peers the text relates. *)
Lemma policy_visible_ids pol ov s x y : tables_ok s →
  Compile.Visible (Compile.CompileWith pol (compiler_peers s) ov) x y = true →
  ∃ a b, a ∈ peers s ∧ b ∈ peers s ∧ pID a = x ∧ pID b = y ∧ pID a ≠ pID b ∧ text_visible pol ov (seen s a) (seen s b).
Proof.
  intros Hok Hv. destruct (Compile.Visible_correct pol (compiler_peers s) ov (compiler_nodup s Hok)) as (Htext & _ & Hself & Hno).
  assert (∀ z, z ∈ Compile.ID <$> compiler_peers s → ∃ a, a ∈ peers s ∧ pID a = z) as Hreg.
  { intros z (c & -> & (a & Ha & ->)%elem_of_compiler)%list_elem_of_fmap. by exists a. }
  destruct (decide (x ∈ Compile.ID <$> compiler_peers s)) as [Hx|Hx]; [|rewrite Hno in Hv by auto; done].
  destruct (decide (y ∈ Compile.ID <$> compiler_peers s)) as [Hy|Hy]; [|rewrite Hno in Hv by auto; done].
  destruct (Hreg x Hx) as (a & Ha & <-). destruct (Hreg y Hy) as (b & Hb & <-).
  assert (pID a ≠ pID b) as Hne by (intros He; rewrite He, Hself in Hv; done).
  exists a, b. split_and!; try done. apply (Htext (seen s a) (seen s b)); [apply elem_of_compiler; eauto..|done|exact Hv].
Qed.

Lemma elem_of_ipv4Filter l fr : fr ∈ ipv4Filter l ↔ Is4 (Compile.frSrc fr) = true ∧ fr ∈ l.
Proof. unfold ipv4Filter. by rewrite list_elem_of_filter. Qed.

(** ** Addresses *)

(** Every peer has an IPv4 address of the overlay, written as [String] writes
    it, and none has the hub's. *)
Definition addresses_ok (ov : prefix) (hub : addr) (s : Store) : Prop :=
  ∀ p, p ∈ peers s → ∃ a, pIPv4 p = addr_string (Addr4 a) ∧ 0 <= a < 2 ^ 32 ∧ Contains ov (Addr4 a) = true ∧ Addr4 a ≠ hub.

Lemma host_v4 a : PrefixFrom (Addr4 a) 32 = Prefix (Addr4 a) 32.
Proof. reflexivity. Qed.

(** A host of the overlay lies in no prefix outside it. *)
Lemma contains_overlaps ov a : pbits ov <= 32 → Contains ov (Addr4 a) = true → Overlaps (Prefix (Addr4 a) 32) ov = true.
Proof.
  intros Hb. unfold Contains, Overlaps. destruct (PIsValid ov) eqn:Hv; [|done]. change (PIsValid (Prefix (Addr4 a) 32)) with true.
  cbn [negb orb hasZone Zone]. destruct (paddr ov) as [|o|] eqn:Eo; try done. simpl. intros Ha%Z.eqb_eq.
  case_bool_decide; [done|]. rewrite Z.min_r by lia. destruct (pbits ov =? 0) eqn:E0; [done|].
  apply bool_decide_eq_true. unfold mask_top. by rewrite Ha.
Qed.

Lemma via_routes_lookup l id : default [] (via_routes l !! id) = Compile.rtPrefix <$> filter (λ r, Compile.rtVia r = id) l.
Proof.
  unfold via_routes. induction l as [|r l IH] using rev_ind; [cbn [foldl]; by rewrite lookup_empty|].
  rewrite foldl_app, filter_app, fmap_app. cbn [foldl]. rewrite filter_cons, filter_nil.
  destruct (decide (Compile.rtVia r = id)) as [<-|Hne].
  - rewrite lookup_insert_eq. cbn [default fmap list_fmap]. by rewrite IH.
  - rewrite lookup_insert_ne by done. cbn [fmap list_fmap]. by rewrite app_nil_r.
Qed.

Lemma NoDup_concat_keyed {A B K} (k : A → K) (f : A → list B) l :
  NoDup (k <$> l) → (∀ x, x ∈ l → NoDup (f x)) → (∀ x y z, x ∈ l → y ∈ l → z ∈ f x → z ∈ f y → k x = k y) → NoDup (concat (f <$> l)).
Proof.
  induction l as [|x l IH]; intros Hk Hf Hd; [constructor|]. rewrite fmap_cons in Hk. apply NoDup_cons in Hk as [Hx Hk]. cbn [fmap list_fmap concat].
  apply NoDup_app. split_and!.
  - apply Hf. left.
  - intros z Hz (y & Hy & Hzy)%elem_of_concat_fmap. apply Hx, list_elem_of_fmap. exists y. split; [|done].
    apply (Hd x y z); [left|by right|done|done].
  - apply IH; [done|..]; intros; [apply Hf|eapply Hd]; (try by right); done.
Qed.

Section Addresses.
Context (b : NetMapBuilder) (pol : Policy.Policy) (ov : prefix) (s : Store) (self : Peer).
Context (Hok : tables_ok s) (Hself : self ∈ peers s) (Hbits : pbits ov <= 32).
Context (Hvis : bVisibility b = PolicyVisibility (Some (Compile.CompileWith pol (compiler_peers s) ov))).
Context (Haddr : addresses_ok ov (hcAddress (bHub b)) s) (hub : Z) (Hhub : hcAddress (bHub b) = Addr4 hub) (Hcont : Contains ov (Addr4 hub) = true)
  (Hhub6 : ∀ x, hcAddress6 (bHub b) ≠ Addr4 x).

(** The prefixes routed to the receiver through a peer. *)
Definition routed (id : string) : list prefix := default [] (via_routes (roRoutes (RoutingFor (bVisibility b) self)) !! id).

Lemma routes_text y v : {| Compile.rtPrefix := y; Compile.rtVia := v |} ∈ roRoutes (RoutingFor (bVisibility b) self) →
  Is4 (paddr y) = true ∧ Overlaps y ov = false.
Proof.
  rewrite Hvis. cbn [PolicyVisibility RoutingFor roRoutes]. intros Hin.
  destruct (Compile.RoutesFor_correct pol (compiler_peers s) ov (compiler_nodup s Hok)) as (H & _).
  apply (H (seen s self) y v (seen_in s self Hself)) in Hin as [(c & _ & _ & _ & r & d & t & _ & _ & _ & _ & Hr & _) _].
  unfold Compile.route_of in Hr. destruct (Selector.Host d) as [| | | | | |x|]; try done; [|by destruct (PIsValid ov)].
  destruct (Compile.IsRoute x ov) eqn:E; [|done]. injection Hr as <-. unfold Compile.IsRoute in E.
  apply andb_true_iff in E as [[_ E]%andb_true_iff Eo%negb_true_iff]. done.
Qed.

Lemma elem_of_routed y id : y ∈ routed id ↔ {| Compile.rtPrefix := y; Compile.rtVia := id |} ∈ roRoutes (RoutingFor (bVisibility b) self).
Proof.
  unfold routed. rewrite via_routes_lookup, list_elem_of_fmap. setoid_rewrite list_elem_of_filter. split.
  - by intros ([y' v] & -> & <- & ?).
  - intros H. by exists {| Compile.rtPrefix := y; Compile.rtVia := id |}.
Qed.

Lemma routes_nodup : NoDup (Compile.rtPrefix <$> roRoutes (RoutingFor (bVisibility b) self)).
Proof. rewrite Hvis. by apply Compile.RoutesFor_correct, compiler_nodup. Qed.

Lemma routed_unique y id id' : y ∈ routed id → y ∈ routed id' → id = id'.
Proof.
  rewrite !elem_of_routed. intros H H'.
  assert ({| Compile.rtPrefix := y; Compile.rtVia := id |} = {| Compile.rtPrefix := y; Compile.rtVia := id' |}) as Heq.
  { eapply (key_unique Compile.rtPrefix); [apply routes_nodup|done|done|done]. }
  by injection Heq.
Qed.

Lemma routed_nodup id : NoDup (routed id).
Proof. unfold routed. rewrite via_routes_lookup. apply NoDup_fmap_filter, routes_nodup. Qed.

(** The host prefix of an entry. *)
Lemma entry_host p ip ip6 : (p, (ip, ip6)) ∈ seen_by b s self →
  ∃ a, ip = Addr4 a ∧ pIPv4 p = addr_string (Addr4 a) ∧ Contains ov (Addr4 a) = true ∧ Addr4 a ≠ hcAddress (bHub b) ∧
    (ip6 = AddrNone ∨ has_v6 b self = true ∧ Is6 ip6 = true) ∧ p ∈ peers s.
Proof.
  intros (Hin & _ & Hip & _ & ->)%elem_of_seen_by. destruct (Haddr p Hin) as (a & Ha & Hr & Hc & Hh).
  rewrite Ha in Hip. rewrite ParseAddr_v4_string in Hip by done.
  injection Hip as <-. exists a. split_and!; try done. destruct (has_v6 b self); [|by left].
  unfold capableIPv6. destruct (_ || _); [by left|]. destruct (ParseAddr _) as [x|]; [|by left]. destruct (Is6 x) eqn:E; [by right|by left].
Qed.

(** The IPv4 prefixes an entry stands for, with the hub or by itself. *)
Definition is_v4 (x : prefix) : Prop := Is4 (paddr x) = true.
#[export] Instance is_v4_dec x : Decision (is_v4 x).
Proof. unfold is_v4. apply _. Defined.

Lemma host_filter ip ip6 : (ip6 = AddrNone ∨ Is6 ip6 = true) → ∀ a, ip = Addr4 a → filter is_v4 (host_prefixes ip ip6) = [Prefix (Addr4 a) 32].
Proof.
  intros H6 a ->. unfold host_prefixes. rewrite filter_cons_True by done. f_equal. destruct H6 as [-> | H6]; [done|].
  by destruct ip6.
Qed.

(** What an entry of its own allows. *)
Definition agent_prefixes (x : Peer * (addr * addr)) : list prefix :=
  if eqs (pMode x.1) ModeStatic then [] else host_prefixes x.2.1 x.2.2 ++ routed (pID x.1).
Definition hub_part (x : Peer * (addr * addr)) : list prefix :=
  if eqs (pMode x.1) ModeStatic then host_prefixes x.2.1 x.2.2 else [].

Lemma agent_prefixes_spec clock eps sigs l es :
  Forall2 (entry_of b clock (reading b s self sigs) eps) l es → npAllowedIPs <$> es = agent_prefixes <$> l.
Proof.
  induction 1 as [|[p [ip ip6]] e l es Hx _ IH]; [done|]. rewrite !fmap_cons, IH. f_equal. unfold entry_of in Hx. unfold agent_prefixes.
  cbn [fst snd]. destruct (eqs (pMode p) ModeStatic); by rewrite Hx.
Qed.

(** An IPv4 prefix of an entry is its host's or one routed through it. *)
Lemma elem_of_parts x z : x ∈ seen_by b s self → is_v4 z → z ∈ hub_part x ++ agent_prefixes x →
  ∃ a, pIPv4 x.1 = addr_string (Addr4 a) ∧ Contains ov (Addr4 a) = true ∧ Addr4 a ≠ hcAddress (bHub b) ∧
    (z = Prefix (Addr4 a) 32 ∨ z ∈ routed (pID x.1)).
Proof.
  destruct x as [p [ip ip6]]. intros (a & -> & Hp & Hc & Hh & H6 & Hin)%entry_host H4 Hz. exists a. split_and!; try done.
  assert (∀ z, is_v4 z → z ∈ host_prefixes (Addr4 a) ip6 → z = Prefix (Addr4 a) 32) as Hhost.
  { intros w Hw Hwin. assert (w ∈ filter is_v4 (host_prefixes (Addr4 a) ip6)) as Hf by (by apply list_elem_of_filter).
    rewrite (host_filter (Addr4 a) ip6 ltac:(by destruct H6 as [?|[_ ?]]; auto) a eq_refl) in Hf. by apply list_elem_of_singleton in Hf. }
  unfold hub_part, agent_prefixes in Hz. cbn [fst snd] in *. destruct (eqs (pMode p) ModeStatic).
  - rewrite app_nil_r in Hz. left. by apply Hhost.
  - cbn [app] in Hz. apply elem_of_app in Hz as [Hz|Hz]; [left; by apply Hhost|by right].
Qed.

(** A prefix two entries share is no host's, so they are one. *)
Lemma parts_unique x y z : x ∈ seen_by b s self → y ∈ seen_by b s self → is_v4 z →
  z ∈ hub_part x ++ agent_prefixes x → z ∈ hub_part y ++ agent_prefixes y → pID x.1 = pID y.1.
Proof.
  intros Hx Hy H4 Hzx Hzy.
  destruct (elem_of_parts x z Hx H4 Hzx) as (a & Ha & Hca & _ & Hza). destruct (elem_of_parts y z Hy H4 Hzy) as (c & Hc & Hcc & _ & Hzc).
  assert (∀ e id, Contains ov (Addr4 e) = true → Prefix (Addr4 e) 32 ∉ routed id) as Hno.
  { intros e id He Hin. apply elem_of_routed, routes_text in Hin as [_ Ho]. by rewrite contains_overlaps in Ho. }
  destruct Hza as [-> | Hza], Hzc as [Hzc|Hzc].
  - injection Hzc as ->. destruct x as [p [? ?]], y as [q [? ?]]. apply elem_of_seen_by in Hx as [Hx _], Hy as [Hy _]. cbn [fst] in *.
    f_equal. eapply (key_unique pIPv4); [apply Hok|done|done|congruence].
  - by apply Hno in Hzc.
  - subst z. by apply Hno in Hza.
  - by eapply routed_unique.
Qed.

Lemma parts_nodup x : x ∈ seen_by b s self → NoDup (filter is_v4 (hub_part x)) ∧ NoDup (filter is_v4 (agent_prefixes x)).
Proof.
  destruct x as [p [ip ip6]]. intros Hx. pose proof Hx as (a & -> & Hp & Hc & _ & H6 & Hin)%entry_host.
  pose proof (host_filter (Addr4 a) ip6 ltac:(by destruct H6 as [?|[_ ?]]; auto) a eq_refl) as Hf.
  unfold hub_part, agent_prefixes. cbn [fst snd]. destruct (eqs (pMode p) ModeStatic).
  - rewrite Hf. split; [apply NoDup_singleton|constructor].
  - split; [constructor|]. rewrite filter_app, Hf. cbn [app]. apply NoDup_cons. split.
    + intros [_ Hr]%list_elem_of_filter. apply elem_of_routed, routes_text in Hr as [_ Ho]. by rewrite contains_overlaps in Ho.
    + apply NoDup_filter, routed_nodup.
Qed.

Lemma filter_concat {A} (P : A → Prop) `{∀ x, Decision (P x)} (l : list (list A)) : filter P (concat l) = concat (filter P <$> l).
Proof. induction l as [|x l IH]; [done|]. cbn [concat fmap list_fmap]. by rewrite filter_app, IH. Qed.

Lemma seen_by_nodup : NoDup ((λ x : Peer * (addr * addr), pID x.1) <$> seen_by b s self).
Proof.
  unfold seen_by, entries. apply (NoDup_omap_key pID (λ x, pID x.1)); [|by rewrite stable_sort_perm; apply Hok].
  intros p [q [ip ip6]] Hq. by apply fmap_Some in Hq as (? & _ & [= -> _]).
Qed.

(** Without IPv6 an entry has IPv4 prefixes only. *)
Lemma parts_v4 x y : has_v6 b self = false → x ∈ seen_by b s self → y ∈ hub_part x ++ agent_prefixes x → is_v4 y.
Proof.
  destruct x as [p [ip ip6]]. intros Hno Hx Hy. pose proof Hx as (_ & _ & _ & _ & Hip6)%elem_of_seen_by. rewrite Hno in Hip6. subst ip6.
  apply entry_host in Hx as (a & -> & _). unfold hub_part, agent_prefixes in Hy. cbn [fst snd] in Hy.
  assert (∀ z, z ∈ host_prefixes (Addr4 a) AddrNone → is_v4 z) as Hh by (by intros z ->%list_elem_of_singleton).
  destruct (eqs _ _); apply elem_of_app in Hy as [Hy|Hy]; try (by apply elem_of_nil in Hy); try by apply Hh.
  apply elem_of_app in Hy as [Hy|Hy]; [by apply Hh|]. by apply elem_of_routed, routes_text in Hy as [? _].
Qed.

(** The hub's prefixes and those of the entries. *)
Lemma allowed_nodup :
  NoDup (filter is_v4 (hub_prefixes b self ++ static_prefixes (seen_by b s self)) ++
         filter is_v4 (concat (agent_prefixes <$> seen_by b s self))).
Proof.
  unfold static_prefixes. change (λ x : Peer * (addr * addr), if eqs (pMode x.1) ModeStatic then host_prefixes x.2.1 x.2.2 else []) with hub_part.
  rewrite filter_app, !filter_concat, <- !list_fmap_compose.
  assert (filter is_v4 (hub_prefixes b self) = [Prefix (Addr4 hub) 32]) as ->.
  { unfold hub_prefixes. rewrite Hhub, filter_cons_True by done. change (PrefixFrom (Addr4 hub) 32) with (Prefix (Addr4 hub) 32). f_equal.
    destruct (_ && _) eqn:E; [|done]. destruct (hcAddress6 (bHub b)) as [|x|x z] eqn:E6; [done| |done].
    exfalso. by destruct (Hhub6 x). }
  assert (∀ x z, x ∈ seen_by b s self → z ∈ filter is_v4 (hub_part x) ∨ z ∈ filter is_v4 (agent_prefixes x) →
    is_v4 z ∧ z ∈ hub_part x ++ agent_prefixes x) as Hpart.
  { intros x z _ [[H4 Hz]%list_elem_of_filter|[H4 Hz]%list_elem_of_filter]; (split; [done|]); apply elem_of_app; auto. }
  rewrite <- app_assoc. apply NoDup_app. split_and!; [apply NoDup_singleton| |].
  - intros z ->%list_elem_of_singleton Hz. apply elem_of_app in Hz.
    assert (∃ x, x ∈ seen_by b s self ∧ is_v4 (Prefix (Addr4 hub) 32) ∧ Prefix (Addr4 hub) 32 ∈ hub_part x ++ agent_prefixes x) as (x & Hx & H4 & Hin).
    { destruct Hz as [(x & Hx & Hz)%elem_of_concat_fmap|(x & Hx & Hz)%elem_of_concat_fmap]; exists x; (split; [done|]); apply Hpart; auto. }
    destruct (elem_of_parts x _ Hx H4 Hin) as (a & _ & _ & Hne & [[= ->]|Hr]); [by rewrite Hhub in Hne|].
    apply elem_of_routed, routes_text in Hr as [_ Ho]. by rewrite contains_overlaps in Ho.
  - apply NoDup_app. split_and!.
    + apply (NoDup_concat_keyed (λ x, pID x.1)); [apply seen_by_nodup|intros x Hx; by apply parts_nodup|].
      intros x y z Hx Hy Hzx Hzy. destruct (Hpart x z Hx) as [H4 ?]; [by left|]. destruct (Hpart y z Hy) as [_ ?]; [by left|].
      by apply (parts_unique x y z).
    + intros z (x & Hx & Hzx)%elem_of_concat_fmap (y & Hy & Hzy)%elem_of_concat_fmap.
      destruct (Hpart x z Hx) as [H4 Hx2]; [by left|]. destruct (Hpart y z Hy) as [_ Hy2]; [by right|].
      pose proof (parts_unique x y z Hx Hy H4 Hx2 Hy2) as Hid.
      assert (x = y) as -> by (eapply (key_unique (λ x : Peer * (addr * addr), pID x.1)); [apply seen_by_nodup|done..]).
      apply list_elem_of_filter in Hzx as [_ Hzx], Hzy as [_ Hzy]. unfold hub_part, agent_prefixes in *.
      destruct (eqs (pMode y.1) ModeStatic); by apply elem_of_nil in Hzx || by apply elem_of_nil in Hzy.
    + apply (NoDup_concat_keyed (λ x, pID x.1)); [apply seen_by_nodup|intros x Hx; by apply parts_nodup|].
      intros x y z Hx Hy Hzx Hzy. destruct (Hpart x z Hx) as [H4 ?]; [by right|]. destruct (Hpart y z Hy) as [_ ?]; [by right|].
      by apply (parts_unique x y z).
Qed.
End Addresses.

(** ** What an entry says *)

Lemma default_index rows k n :
  n ∈ default [] (IndexSignatures rows !! k) ↔ ∃ r, r ∈ rows ∧ sig_index (gPeerID r) (gPublicKey r) = k ∧ net_signature r = Some n.
Proof.
  unfold IndexSignatures. induction rows as [|r rows IH] using rev_ind.
  { cbn [foldl]. rewrite lookup_empty. cbn. split; [by intros ?%elem_of_nil|by intros (? & ?%elem_of_nil & _)]. }
  rewrite foldl_app. cbn [foldl]. setoid_rewrite elem_of_app. setoid_rewrite list_elem_of_singleton. unfold index_signature at 1.
  destruct (net_signature r) as [n'|] eqn:En; [|rewrite IH; split; [intros (x & ? & ?); exists x; auto|intros (x & [?| ->] & ? & ?); [by exists x|congruence]]].
  cbv zeta. destruct (decide (sig_index (gPeerID r) (gPublicKey r) = k)) as [<-|Hk].
  - rewrite lookup_insert_eq. cbn [default]. unfold default at 1, id. rewrite elem_of_app, list_elem_of_singleton, IH. split.
    + intros [(x & ? & ?)| ->]; [exists x; auto|exists r; auto].
    + intros (x & [?| ->] & Hx & Hn); [left; by exists x|right; congruence].
  - rewrite lookup_insert_ne by done. rewrite IH. split; [intros (x & ? & ?); exists x; auto|intros (x & [?| ->] & ? & ?); [by exists x|done]].
Qed.

Lemma owner_name_of s u : NoDup (uID <$> users s) → u ∈ users s → owner_names s !! uID u = Some (uName u).
Proof. intros Hnd Hu. apply (foldl_insert_lookup uID uName); [by rewrite stable_sort_perm|by apply elem_of_stable_sort]. Qed.

Lemma no_owner s id : id ∉ uID <$> users s → owner_names s !! id = None.
Proof.
  intros Hni. rewrite <- (stable_sort_perm user_order (users s)) in Hni. revert Hni. unfold owner_names, ownerNames.
  induction (stable_sort user_order (users s)) as [|v l IH] using rev_ind; intros Hni; [apply lookup_empty|].
  rewrite foldl_app. cbn [foldl]. rewrite fmap_app, elem_of_app in Hni. rewrite lookup_insert_ne; [apply IH; tauto|].
  intros He. apply Hni. right. rewrite <- He. left.
Qed.

(** The text routes the prefix [x] to [self] through [p], the router with the
    lowest id among those that could carry it. *)
Definition routed_through (pol : Policy.Policy) (ov : prefix) (s : Store) (self p : Peer) (x : prefix) : Prop :=
  Compile.grants_route_any pol ov (seen s self) (seen s p) x false ∧
  ∀ q, q ∈ peers s → pID q ≠ pID self → Compile.grants_route_any pol ov (seen s self) (seen s q) x false → String.le (pID p) (pID q).

Lemma routed_text b pol ov s self p y : tables_ok s → self ∈ peers s → p ∈ peers s → pID p ≠ pID self →
  bVisibility b = PolicyVisibility (Some (Compile.CompileWith pol (compiler_peers s) ov)) →
  y ∈ routed b self (pID p) ↔ routed_through pol ov s self p y.
Proof.
  intros Hok Hs Hp Hne Hvis. rewrite elem_of_routed, Hvis. cbn [PolicyVisibility RoutingFor roRoutes].
  destruct (Compile.RoutesFor_correct pol (compiler_peers s) ov (compiler_nodup s Hok)) as (H & _).
  rewrite (H (seen s self) y (pID p) (seen_in s self Hs)). setoid_rewrite elem_of_compiler. split.
  - intros [(c & (q & Hq & ->) & _ & Hid & Hg) Hmin]. change (pID q = pID p) in Hid.
    assert (q = p) as -> by (eapply (key_unique pID); [apply Hok|done..]). split; [done|]. intros q Hq' Hqne Hg'. by apply (Hmin (seen s q)); [exists q|..].
  - intros [Hg Hmin]. split; [exists (seen s p); split; [by exists p|done]|]. intros c (q & Hq & ->) Hqne Hg'. by apply Hmin.
Qed.

Lemma forward_text b pol ov s self src dst proto port : tables_ok s → self ∈ peers s →
  bVisibility b = PolicyVisibility (Some (Compile.CompileWith pol (compiler_peers s) ov)) →
  let rules := roForward (RoutingFor (bVisibility b) self) in
  Compile.forwards (if has_v6 b self then rules else ipv4Forward rules) src dst proto port ↔
  (has_v6 b self = true ∨ Is4 src = true ∧ Is4 (paddr dst) = true) ∧
  ∃ p y it, p ∈ peers s ∧ pID p ≠ pID self ∧ IsValid (Compile.IPv4 (seen s p)) = true ∧
    Compile.grants_route pol ov (seen s p) (seen s self) y it proto port ∧
    (src = Compile.IPv4 (seen s p) ∧ dst = y ∨
     it = true ∧ IsValid (Compile.IPv6 (seen s p)) = true ∧ src = Compile.IPv6 (seen s p) ∧ dst = Compile.ExitPrefix6).
Proof.
  intros Hok Hs -> rules. subst rules. cbn [PolicyVisibility RoutingFor roForward].
  destruct (Compile.ForwardFor_correct pol (compiler_peers s) ov (compiler_nodup s Hok)) as (H & _).
  specialize (H (seen s self) src dst proto port (seen_in s self Hs)). change (Compile.ID (seen s self)) with (pID self) in H.
  setoid_rewrite elem_of_compiler in H.
  assert (Compile.forwards (Compile.ForwardFor (Compile.CompileWith pol (compiler_peers s) ov) (pID self)) src dst proto port ↔
    ∃ p y it, p ∈ peers s ∧ pID p ≠ pID self ∧ IsValid (Compile.IPv4 (seen s p)) = true ∧
    Compile.grants_route pol ov (seen s p) (seen s self) y it proto port ∧
    (src = Compile.IPv4 (seen s p) ∧ dst = y ∨
     it = true ∧ IsValid (Compile.IPv6 (seen s p)) = true ∧ src = Compile.IPv6 (seen s p) ∧ dst = Compile.ExitPrefix6)) as H'.
  { rewrite H. split; [intros (a & y & it & (p & Hp & ->) & Ha)|intros (p & y & it & Hp & Ha)]; [by exists p, y, it|exists (seen s p), y, it; split; [by exists p|done]]. }
  rewrite <- H'. clear H H'. destruct (has_v6 b self); [naive_solver|]. unfold Compile.forwards, ipv4Forward. setoid_rewrite list_elem_of_filter. setoid_rewrite andb_true_iff. naive_solver.
Qed.

Lemma advertised_text s id a :
  a ∈ advertised_routes (stable_sort (λ a b, str_ltb (rPrefix a) (rPrefix b)) (filter (λ r, eqs (rPeerID r) id = true) (routes s))) ↔
  ∃ r, r ∈ routes s ∧ rPeerID r = id ∧ ParsePrefix (rPrefix r) = Some (arPrefix a) ∧ rApproved r = arApproved a.
Proof.
  unfold advertised_routes. rewrite list_elem_of_omap. setoid_rewrite elem_of_stable_sort. setoid_rewrite list_elem_of_filter. split.
  - intros (r & [Hid%eqs_true Hr] & Ha). exists r. destruct (ParsePrefix (rPrefix r)); [|done]. by injection Ha as <-.
  - intros (r & Hr & Hid & Hp & Ha). exists r. split; [split; [by apply eqs_true|done]|]. rewrite Hp, Ha. by destruct a.
Qed.

(** One entry of a map: who the peer is, where it is and what may be sent to it. *)
Record entry_follows (b : NetMapBuilder) (clock : string → Z) (eps : option Endpoints.EndpointTable) (pol : Policy.Policy) (ov : prefix)
    (s : Store) (self p : Peer) (e : NetPeer) : Prop := {
  ef_who : npID e = pID p ∧ npName e = pName p ∧ npKind e = pKind p ∧ npPublicKey e = pPublicKey p ∧ npOnline e = online_of b (pID p);
  ef_owner : (∀ u, u ∈ users s → uID u = pOwnerID p → npOwner e = uName u) ∧ (pOwnerID p ∉ uID <$> users s → npOwner e = "");
  ef_address : ParseAddr (pIPv4 p) = Some (npIPv4 e) ∧ npIPv6 e = if has_v6 b self then capableIPv6 p else AddrNone;
  ef_signatures : ∀ n, n ∈ npSignatures e ↔
    ∃ r, r ∈ signatures s ∧ sig_index (gPeerID r) (gPublicKey r) = sig_index (pID p) (pPublicKey p) ∧ net_signature r = Some n;
  ef_hub : npViaHub e = eqs (pMode p) ModeStatic;
  ef_allowed : ∀ x, x ∈ npAllowedIPs e ↔ pMode p ≠ ModeStatic ∧ (x ∈ host_prefixes (npIPv4 e) (npIPv6 e) ∨ routed_through pol ov s self p x);
  ef_endpoints : (npEndpoints e, npSymmetric e) = if eqs (pMode p) ModeStatic then ([], false) else endpoints_of clock eps (pID p);
  ef_want : npWantSeq e = (if eqs (pMode p) ModeStatic then 0 else want_of b (pID self) (pID p)) ∧ (npWanted e = true ↔ npWantSeq e ≠ 0);
  ef_exit : npExitNode e = true ↔ pMode p ≠ ModeStatic ∧ ∃ y, Compile.grants_route_any pol ov (seen s self) (seen s p) y true;
}.

Lemma entry_follows_of b clock eps pol ov s self p ip ip6 e : tables_ok s → self ∈ peers s →
  bVisibility b = PolicyVisibility (Some (Compile.CompileWith pol (compiler_peers s) ov)) →
  (p, (ip, ip6)) ∈ seen_by b s self → entry_of b clock (reading b s self (stored_signatures s)) eps (p, (ip, ip6)) e →
  entry_follows b clock eps pol ov s self p e.
Proof.
  intros Hok Hself Hvis (Hin & Hne & Hip & _ & ->)%elem_of_seen_by Hx. unfold entry_of in Hx.
  assert (∀ n, n ∈ default [] (stored_signatures s !! sig_index (pID p) (pPublicKey p)) ↔
    ∃ r, r ∈ signatures s ∧ sig_index (gPeerID r) (gPublicKey r) = sig_index (pID p) (pPublicKey p) ∧ net_signature r = Some n) as Hsig
    by (intros n; unfold stored_signatures; rewrite default_index; by setoid_rewrite elem_of_stable_sort).
  assert ((∀ u, u ∈ users s → uID u = pOwnerID p → default "" (owner_names s !! pOwnerID p) = uName u) ∧
    (pOwnerID p ∉ uID <$> users s → default "" (owner_names s !! pOwnerID p) = "")) as Hown.
  { split; [intros u Hu <-; by rewrite owner_name_of by (done || apply Hok)|intros Hn; by rewrite no_owner]. }
  destruct (eqs (pMode p) ModeStatic) eqn:Em; subst e.
  - apply eqs_true in Em as Em'. split; try done;
      cbn [agent_entry static_entry npID npName npKind npPublicKey npOnline npOwner npIPv4 npIPv6 npSignatures npViaHub npAllowedIPs npEndpoints npSymmetric npWantSeq npWanted npExitNode reading rdSelf rdOwners rdSigs rdVia rdExit]; rewrite ?Em; try done; [by intros x; split; [intros ?%elem_of_nil|intros [? _]]|by split; [|intros [? _]]].
  - apply eqs_false in Em as Em'. split; try done;
      cbn [agent_entry static_entry npID npName npKind npPublicKey npOnline npOwner npIPv4 npIPv6 npSignatures npViaHub npAllowedIPs npEndpoints npSymmetric npWantSeq npWanted npExitNode reading rdSelf rdOwners rdSigs rdVia rdExit]; rewrite ?Em; try done.
    + intros x. rewrite elem_of_app. fold (routed b self (pID p)). rewrite (routed_text b pol ov s self p x) by done. naive_solver.
    + by destruct (endpoints_of _ _ _).
    + split; [done|]. by rewrite negb_true_iff, Z.eqb_neq.
    + rewrite bool_decide_eq_true, (exit_text b pol ov s) by done. naive_solver.
Qed.

(** C5: a peer's map follows the policy's text.  On a sound database, with the
    view compiled against it, a build changes nothing and lists, once each, the
    other registered peers with an address that some rule of either direction
    names or routes.  Each entry has the peer's current key, name, kind, owner,
    addresses, stored signatures and reported endpoints, is reached through the
    hub exactly if the peer is static, and otherwise allows its own addresses
    and the subnets that the text routes to this receiver through it (through
    the router with the lowest id, where several could); it offers an exit
    node only where the text sends this receiver to it.  The hub's entry allows
    the hub and the static peers listed.  The filter admits exactly the
    sources, protocols and ports the text grants towards this receiver, and the
    forward rules what it routes through it, the IPv4 ones only if it has no
    IPv6; its own advertised routes are those stored for it. *)
Theorem netmap_follows_policy (decode : string → option Signed) (b : NetMapBuilder) (clock : string → Z)
    (pol : Policy.Policy) (ov : prefix) (s s' : Store) (eps eps' : option Endpoints.EndpointTable) (id : string) (nm : NetMap) :
  tables_ok s → bVisibility b = PolicyVisibility (Some (Compile.CompileWith pol (compiler_peers s) ov)) →
  Build decode b clock eps id s = Ok (s', (eps', nm)) →
  s' = s ∧ LoadLockRecord decode s = Ok (s, nmLock nm) ∧ ∃ self, self ∈ peers s ∧ pID self = id ∧
    (nmSelfID nm = id ∧ nmSelfName nm = pName self ∧ ParseAddr (pIPv4 self) = Some (nmSelfIPv4 nm) ∧
     nmSelfIPv6 nm = if has_v6 b self then capableIPv6 self else AddrNone) ∧
    (∀ x, x ∈ npID <$> nmPeers nm ↔
       ∃ p, p ∈ peers s ∧ pID p = x ∧ pID p ≠ id ∧ is_Some (ParseAddr (pIPv4 p)) ∧ text_visible pol ov (seen s self) (seen s p)) ∧
    NoDup (npID <$> nmPeers nm) ∧
    (∀ e, e ∈ nmPeers nm → ∃ p, p ∈ peers s ∧ entry_follows b clock eps pol ov s self p e) ∧
    (hpPublicKey (nmHub nm) = hcPublicKey (bHub b) ∧ ∀ x, x ∈ hpAllowedIPs (nmHub nm) ↔ x ∈ hub_prefixes b self ∨
       ∃ e, e ∈ nmPeers nm ∧ npViaHub e = true ∧ x ∈ host_prefixes (npIPv4 e) (npIPv6 e)) ∧
    (∀ x proto port,
       (∃ fr, fr ∈ nmFilter nm ∧ Compile.frSrc fr = x ∧ Compile.frProto fr = proto ∧ Compile.frLo fr <= port <= Compile.frHi fr) ↔
       (has_v6 b self = true ∨ Is4 x = true) ∧ proto ∈ Compile.protos ∧
       ∃ p, p ∈ peers s ∧ pID p ≠ id ∧ Compile.source_addr (seen s p) x ∧ Compile.grants pol ov (seen s p) (seen s self) proto port) ∧
    (∀ src dst proto port, Compile.forwards (nmForward nm) src dst proto port ↔
       (has_v6 b self = true ∨ Is4 src = true ∧ Is4 (paddr dst) = true) ∧
       ∃ p y it, p ∈ peers s ∧ pID p ≠ id ∧ IsValid (Compile.IPv4 (seen s p)) = true ∧
         Compile.grants_route pol ov (seen s p) (seen s self) y it proto port ∧
         (src = Compile.IPv4 (seen s p) ∧ dst = y ∨
          it = true ∧ IsValid (Compile.IPv6 (seen s p)) = true ∧ src = Compile.IPv6 (seen s p) ∧ dst = Compile.ExitPrefix6)) ∧
    (∀ a, a ∈ nmSelfAdvertised nm ↔ ∃ r, r ∈ routes s ∧ rPeerID r = id ∧ ParsePrefix (rPrefix r) = Some (arPrefix a) ∧ rApproved r = arApproved a).
Proof.
  intros Hok Hvis H. apply build_ok in H as (-> & Hlock & self & <- & [Hself Hid H4 H6 Hf Hw Hhub Hp (Hn & _ & _ & _ & Hadv) (Hkey & _)]); [|by apply Hok].
  split; [done|]. split; [done|].
  exists self. split; [done|]. split; [done|].
  assert (npID <$> nmPeers nm = (λ x, pID x.1) <$> seen_by b s self) as Hids.
  { clear -Hp. induction Hp as [|x e l l' Hx _ IH]; [done|]. by rewrite !fmap_cons, IH, (entry_of_id _ _ _ _ _ _ Hx). }
  split_and!; try done.
  - intros x. rewrite Hids, list_elem_of_fmap. split.
    + intros ([p [ip ip6]] & -> & (Hin & Hne & Hip & Hv & _)%elem_of_seen_by). exists p. split_and!; [done|done|done|by rewrite Hip|].
      by apply (visible_text b pol ov s).
    + intros (p & Hin & <- & Hne & [ip Hip] & Hv). exists (p, (ip, if has_v6 b self then capableIPv6 p else AddrNone)). split; [done|].
      apply elem_of_seen_by. split_and!; try done. by apply (visible_text b pol ov s).
  - rewrite Hids. unfold seen_by, entries. apply (NoDup_omap_key pID (λ x, pID x.1)); [|by rewrite stable_sort_perm; apply Hok].
    intros p [q [ip ip6]] Hq. apply fmap_Some in Hq as (? & _ & [= -> _]). done.
  - intros e He. destruct (Forall2_elem_r _ _ _ _ Hp He) as ([p [ip ip6]] & Hin & Hx). exists p.
    split; [by apply elem_of_seen_by in Hin as [? _]|]. by eapply entry_follows_of.
  - intros x. rewrite Hhub, elem_of_app. apply or_iff_compat_l. unfold static_prefixes. rewrite elem_of_concat_fmap. split.
    + intros ([p [ip ip6]] & Hin & Hx). cbn [fst snd] in Hx. destruct (eqs (pMode p) ModeStatic) eqn:Em; [|by apply elem_of_nil in Hx].
      destruct (Forall2_elem_l _ _ _ _ Hp Hin) as (e & He & Hxe). exists e. split; [done|]. unfold entry_of in Hxe. rewrite Em in Hxe. by rewrite Hxe.
    + intros (e & He & Hv & Hx). destruct (Forall2_elem_r _ _ _ _ Hp He) as ([p [ip ip6]] & Hin & Hxe). exists (p, (ip, ip6)). split; [done|].
      cbn [fst snd]. unfold entry_of in Hxe. destruct (eqs (pMode p) ModeStatic); rewrite Hxe in Hv, Hx; done.
  - intros x proto port. rewrite Hf. pose proof (filter_text b pol ov s Hok Hvis self x proto port Hself) as Ht.
    destruct (has_v6 b self).
    + rewrite Ht. naive_solver.
    + setoid_rewrite elem_of_ipv4Filter. split.
      * intros (fr & [Hx4 Hin] & <- & Hr). split; [by right|]. apply Ht. eauto.
      * intros ([?|Hx4] & Hr); [done|]. apply Ht in Hr as (fr & Hin & <- & Hr). exists fr. done.
  - intros src dst proto port. rewrite Hw. by apply forward_text.
  - intros a. rewrite Hadv. by apply advertised_text.
Qed.


(** ** Addresses over any calls *)

Lemma next_ip_in ov net s ip :
  prefix_wf ov → paddr ov = Addr4 net → 0 <= pbits ov → mask_top 32 (pbits ov) net = net → next_ip ov s = Ok ip →
  ∃ x, ip = Addr4 x ∧ 0 <= x < 2 ^ 32 ∧ Contains ov (Addr4 x) = true ∧ net + 2 <= x.
Proof.
  intros Hwf Hnet Hpos Hmask. unfold next_ip. destruct (NextAddress_spec ov net (parsed_addrs (pIPv4 <$> peers s)) Hwf Hnet Hpos)
    as [(x & -> & Hx & _)|[-> _]]; [|done]. intros [= <-]. exists x. rewrite Hmask in Hx.
  destruct Hwf as (Hw & _ & Hb). rewrite Hnet in Hw, Hb. simpl in Hw, Hb.
  assert (pbits ov <= 32) as Hle by (destruct Hb as [?|[_ ?]]; lia).
  pose proof (Z.pow_pos_nonneg 2 (32 - pbits ov) ltac:(lia) ltac:(lia)) as Hpow.
  assert (net `mod` 2 ^ (32 - pbits ov) = 0) as Hm by (unfold mask_top in Hmask; rewrite <- Hmask; apply Z.mod_mul; lia).
  assert (2 ^ 32 = 2 ^ pbits ov * 2 ^ (32 - pbits ov)) as H32 by (rewrite <- Z.pow_add_r by lia; f_equal; lia).
  split_and!; [done|lia| | |lia].
  - pose proof (Z.div_mod net (2 ^ (32 - pbits ov)) ltac:(lia)) as Hd. rewrite Hm, Z.add_0_r in Hd.
    assert (net `div` 2 ^ (32 - pbits ov) < 2 ^ pbits ov) by (apply Z.div_lt_upper_bound; lia). nia.
  - unfold Contains. assert (PIsValid ov = true) as -> by (unfold PIsValid; by apply Z.leb_le). cbn [negb orb hasZone Zone]. rewrite Hnet.
    apply Z.eqb_eq. pose proof (Z.div_mod net (2 ^ (32 - pbits ov)) ltac:(lia)) as Hd. rewrite Hm, Z.add_0_r in Hd.
    apply (Z.div_unique _ _ _ (x - net)); lia.
Qed.

(** The address after the network's. *)
Lemma first_host_in ov net : paddr ov = Addr4 net → 0 <= pbits ov <= 30 → mask_top 32 (pbits ov) net = net → Contains ov (Addr4 (net + 1)) = true.
Proof.
  intros Hnet Hbits Hmask. unfold Contains. assert (PIsValid ov = true) as -> by (unfold PIsValid; apply Z.leb_le; lia).
  cbn [negb orb hasZone Zone]. rewrite Hnet. apply Z.eqb_eq. unfold mask_top in Hmask.
  pose proof (Z.div_mod net (2 ^ (32 - pbits ov))) as Hd.
  assert (2 ^ 2 <= 2 ^ (32 - pbits ov)) by (apply Z.pow_le_mono_r; lia). apply (Z.div_unique _ _ _ 1); lia.
Qed.

Section Runs.
Context (Verify : PublicKey → list byte → Signature → bool)
  (ParseKey : string → option (list byte)) (KeyString : list byte → string)
  (encode : Signed → string) (decode : string → option Signed) (cf : Config) (net : Z).
Abbreviation ov := (cfOverlay cf).
Context (Hwf : prefix_wf ov) (Hnet : paddr ov = Addr4 net) (Hpos : 0 <= pbits ov) (Hmask : mask_top 32 (pbits ov) net = net).
Context (He : overlay (cfEnroller cf) = ov) (Hr : rgOverlay (cfRegistry cf) = ov).

(** The hub has the first address. *)
Definition hub_addr : addr := Addr4 (net + 1).

Definition address_ok (p : Peer) : Prop :=
  ∃ a, pIPv4 p = addr_string (Addr4 a) ∧ 0 <= a < 2 ^ 32 ∧ Contains ov (Addr4 a) = true ∧ Addr4 a ≠ hub_addr.

Lemma next_ip_ok p ip s : pIPv4 p = addr_string ip → next_ip ov s = Ok ip → address_ok p.
Proof.
  intros Hp (x & -> & Hx & Hc & Hlow)%(next_ip_in ov net); [|done..]. exists x. split_and!; [done|lia|lia|done|]. intros [= ?]. lia.
Qed.

Ltac address_leaf :=
  first [ by apply Create_all_peers | by apply Rename_all_peers | by apply SetPublicKey_all_peers
        | by apply SetIPv6Capable_all_peers | apply Delete_all_peers | untouched other_all_peers ].

Lemma static_addresses r by_ req owner kind tags d key pub s s' res :
  rgOverlay r = ov → all_peers address_ok s → static_tx KeyString r by_ req owner kind tags d key pub s = Ok (s', res) → all_peers address_ok s'.
Proof.
  intros Hro HI H. unfold static_tx in H. apply tx_bind_ok in H as (s1 & rip & Hq & H). injection Hq as <- <-.
  rewrite Hro in H. destruct (next_ip ov s) as [ip|e] eqn:Eip; [|done].
  assert (address_ok (static_peer KeyString r req owner kind tags ip d pub)) as Hnew by (by eapply next_ip_ok).
  match type of H with ?m s = _ => assert (keeps (all_peers address_ok) m) as Hk; [|by eapply Hk] end.
  solve_keeps with address_leaf.
Qed.

Lemma addresses_step hub s s' c :
  tables_ok s ∧ all_peers address_ok s → transacts Verify ParseKey KeyString encode decode cf hub s s' c →
  tables_ok s' ∧ all_peers address_ok s'.
Proof.
  intros [Hok HI] H. split; [by eapply transacts_tables|].
  assert (TPeers ∉ call_tables c → all_peers address_ok s') as Hother.
  { intros Ht p. pose proof (transacts_same _ _ _ _ _ _ _ _ _ _ TPeers H Ht) as Heq. cbn [same] in Heq. rewrite Heq. apply HI. }
  destruct H; cbn [call_tables] in *; try (apply Hother; not_in).
  - by subst s'.
  - pose proof H0 as H1. apply enroll_tx_ok in H1 as (tok & ip & name & H1); [|apply Hok]. intros p.
    rewrite (en_peers _ _ _ _ _ _ _ _ _ _ _ _ H1). intros [Hin | ->%list_elem_of_singleton]%elem_of_app; [by apply HI|].
    pose proof (en_ip _ _ _ _ _ _ _ _ _ _ _ _ H1) as Hip. rewrite He in Hip. eapply next_ip_ok; [|exact Hip].
    by rewrite (en_peer _ _ _ _ _ _ _ _ _ _ _ _ H1).
  - assert (keeps (all_peers address_ok) (rename_tx (cfRegistry cf) by_ p name newName anow)) as Hk; [|by eapply Hk].
    unfold rename_tx. solve_keeps with address_leaf.
  - assert (keeps (all_peers address_ok) (delete_tx (cfRegistry cf) (pID p) by_ AuditPeerDelete (pName p) anow)) as Hk; [|by eapply Hk].
    unfold delete_tx, Peers_GetByID. solve_keeps with address_leaf.
  - assert (keeps (all_peers address_ok) (delete_tx (cfRegistry cf) id no_principal AuditPeerLeave "" anow)) as Hk; [|by eapply Hk].
    unfold delete_tx, Peers_GetByID. solve_keeps with address_leaf.
  - assert (keeps (all_peers address_ok) (rotate_tx Verify ParseKey decode (cfRegistry cf) id k signed now anow)) as Hk; [|by eapply Hk].
    unfold rotate_tx, Peers_GetByID. solve_keeps with address_leaf.
  - assert (keeps (all_peers address_ok) (capable_tx id c)) as Hk; [|by eapply Hk]. unfold capable_tx. solve_keeps with address_leaf.
  - subst s'. refine (update_rows_peers _ _ s address_ok _ HI); done.
  - subst s'. refine (update_rows_peers _ _ s address_ok _ HI); done.
  - by eapply static_addresses.
Qed.
End Runs.

(** C17: a packet has one way to go.  From a sound database whose peers have
    addresses of the overlay other than the hub's, after any calls of the
    control plane, a map built for any peer lists every IPv4 prefix at most once
    among the hub's and the entries' allowed addresses, subnet routes included;
    and a receiver without IPv6 gets IPv4 prefixes, rules and addresses only. *)
Theorem allowed_ips_unambiguous (Verify : PublicKey → list byte → Signature → bool)
    (ParseKey : string → option (list byte)) (KeyString : list byte → string)
    (encode : Signed → string) (decode : string → option Signed) (cf : Config) (net : Z) (st : State) (l : list call)
    (b : NetMapBuilder) (clock : string → Z) (pol : Policy.Policy) (eps eps' : option Endpoints.EndpointTable) (id : string)
    (s' : Store) (nm : NetMap) :
  prefix_wf (cfOverlay cf) → paddr (cfOverlay cf) = Addr4 net → 0 <= pbits (cfOverlay cf) <= 30 →
  mask_top 32 (pbits (cfOverlay cf)) net = net → overlay (cfEnroller cf) = cfOverlay cf → rgOverlay (cfRegistry cf) = cfOverlay cf →
  hcAddress (bHub b) = Addr4 (net + 1) → (∀ x, hcAddress6 (bHub b) ≠ Addr4 x) →
  tables_ok (stStore st) → addresses_ok (cfOverlay cf) (Addr4 (net + 1)) (stStore st) →
  let s := stStore (run Verify ParseKey KeyString encode decode cf st l) in
  bVisibility b = PolicyVisibility (Some (Compile.CompileWith pol (compiler_peers s) (cfOverlay cf))) →
  Build decode b clock eps id s = Ok (s', (eps', nm)) →
  let allowed := hpAllowedIPs (nmHub nm) ++ concat (npAllowedIPs <$> nmPeers nm) in
  NoDup (filter is_v4 allowed) ∧
  ∀ self, self ∈ peers s → pID self = id → has_v6 b self = false →
    (∀ x, x ∈ allowed → is_v4 x) ∧ (∀ fr, fr ∈ nmFilter nm → Is4 (Compile.frSrc fr) = true) ∧
    (∀ fr, fr ∈ nmForward nm → Is4 (Compile.fwSrc fr) = true ∧ is_v4 (Compile.fwDst fr)) ∧
    (∀ e, e ∈ nmPeers nm → npIPv6 e = AddrNone) ∧ nmSelfIPv6 nm = AddrNone.
Proof.
  intros Hwf Hnet Hbits Hmask He Hr Hhub Hhub6 Hok0 Ha0 s Hvis H allowed.
  assert (tables_ok s ∧ all_peers (address_ok cf net) s) as [Hok Ha].
  { apply (run_invariant Verify ParseKey KeyString encode decode cf (λ s, tables_ok s ∧ all_peers (address_ok cf net) s) (λ _, True));
      [|done|by apply Forall_true]. intros s1 s2 c _ HI Ht. eapply addresses_step; [..|exact HI|exact Ht]; done || lia. }
  assert (Contains (cfOverlay cf) (Addr4 (net + 1)) = true) as Hcont by (by apply first_host_in).
  apply build_ok in H as (-> & _ & self & <- & [Hself _ _ Hv6 Hf Hw Hhp Hp _ _]); [|by apply Hok].
  assert (npAllowedIPs <$> nmPeers nm = agent_prefixes b self <$> seen_by b s self) as Hal by (by eapply agent_prefixes_spec).
  assert (addresses_ok (cfOverlay cf) (hcAddress (bHub b)) s) as Haddr by (rewrite Hhub; exact Ha).
  split.
  - unfold allowed. rewrite filter_app, Hhp, Hal.
    by apply (allowed_nodup b pol (cfOverlay cf) s self Hok Hself ltac:(lia) Hvis Haddr (net + 1) Hhub Hcont Hhub6).
  - intros self' Hin' Hid Hno. assert (self' = self) as -> by (eapply (key_unique pID); [apply Hok|done..]).
    assert (∀ x y, x ∈ seen_by b s self → y ∈ hub_part x ++ agent_prefixes b self x → is_v4 y) as Hparts
      by (intros x y; by apply (parts_v4 b pol (cfOverlay cf))).
    split_and!.
    + intros x [Hx|Hx]%elem_of_app.
      * rewrite Hhp in Hx. apply elem_of_app in Hx as [Hx|Hx].
        -- unfold hub_prefixes in Hx. rewrite Hno, Hhub in Hx. by apply list_elem_of_singleton in Hx as ->.
        -- apply elem_of_concat_fmap in Hx as (y & Hy & Hx). eapply Hparts; [exact Hy|]. apply elem_of_app. by left.
      * rewrite Hal in Hx. apply elem_of_concat_fmap in Hx as (y & Hy & Hx). eapply Hparts; [exact Hy|]. apply elem_of_app. by right.
    + intros fr. rewrite Hf, Hno. by intros [? _]%elem_of_ipv4Filter.
    + intros fr. rewrite Hw, Hno. unfold ipv4Forward. rewrite list_elem_of_filter. by intros [[? ?]%andb_true_iff _].
    + intros e Hin. destruct (Forall2_elem_r _ _ _ _ Hp Hin) as ([p [ip ip6]] & Hx & Hent).
      apply elem_of_seen_by in Hx as (_ & _ & _ & _ & ->). rewrite Hno in Hent.
      unfold entry_of in Hent. destruct (eqs _ _); by rewrite Hent.
    + by rewrite Hv6, Hno.
Qed.

(** ** A map of two peers *)

Definition demo_map_calls : list call :=
  [demo_issue; demo_join;
   CCreateStatic demo_pol demo_admin {| stOwnerName := "ada"; stName := "phone"; stKind := ""; stTags := [] |} (demo_draw 5)
     [Byte.x05] (string_bytes "phone-key")].
Definition demo_map_store : Store := stStore (demo_run (demo_state demo_start) demo_map_calls).
Definition demo_text : Policy.Policy :=
  {| Policy.doc := Policy.doc Policy.Empty; Policy.Hash := "h"; Policy.Source := [];
     Policy.rules := [{| Policy.psrc := [Selector.SelAny]; Policy.pdst := [{| Selector.Host := Selector.SelAny; Selector.Ports := [Ports.AllPorts] |}];
                         Policy.pproto := Ports.ProtoAny |}] |}.
Definition demo_builder : NetMapBuilder :=
  {| bVisibility := PolicyVisibility (Some (Compile.CompileWith demo_text (compiler_peers demo_map_store) (cfOverlay demo_config)));
     bHub := {| hcPublicKey := "hub-key"; hcEndpoint := "vpn:51820"; hcAddress := Addr4 (1681915904 + 1); hcOverlay := cfOverlay demo_config;
                hcAddress6 := AddrNone; hcOverlay6 := NoPrefix; hcSTUNAddrs := [] |};
     bGeneration := 3; bPresence := None; bWants := None |}.
Definition demo_build : result cerror (Store * (option Endpoints.EndpointTable * NetMap)) :=
  Build (λ _, None) demo_builder (λ _, 9) None demo_id demo_map_store.

Lemma demo_map_tables : tables_ok demo_map_store.
Proof.
  apply (run_invariant demo_verify demo_parse demo_key (λ _, "") (λ _, None) demo_config tables_ok (λ _, True));
    [|exact demo_tables|by apply Forall_true]. intros s s' c _ Hs H. by eapply transacts_tables.
Qed.

Lemma netmap_follows_policy_witness :
  match demo_build with
  | Ok (_, (_, nm)) => npName <$> nmPeers nm = ["phone"] ∧ NoDup (npID <$> nmPeers nm)
  | Err _ => False
  end.
Proof.
  assert (match demo_build with Ok (_, (_, nm)) => npName <$> nmPeers nm = ["phone"] | Err _ => False end) as Hd by (vm_compute; reflexivity).
  destruct demo_build as [[s' [eps' nm]]|e] eqn:E; [|exact Hd]. split; [exact Hd|].
  destruct (netmap_follows_policy (λ _, None) demo_builder (λ _, 9) demo_text (cfOverlay demo_config) demo_map_store s' None eps' demo_id nm)
    as (_ & _ & self & _ & _ & _ & _ & H & _); [exact demo_map_tables|reflexivity|exact E|exact H].
Defined.

Lemma allowed_ips_unambiguous_witness :
  match demo_build with
  | Ok (_, (_, nm)) => NoDup (filter is_v4 (hpAllowedIPs (nmHub nm) ++ concat (npAllowedIPs <$> nmPeers nm)))
  | Err _ => False
  end.
Proof.
  assert (match demo_build with Ok _ => True | Err _ => False end) as Hd by (vm_compute; exact I).
  destruct demo_build as [[s' [eps' nm]]|e] eqn:E; [|exact Hd].
  destruct (allowed_ips_unambiguous demo_verify demo_parse demo_key (λ _, "") (λ _, None) demo_config 1681915904 (demo_state demo_start)
    demo_map_calls demo_builder (λ _, 9) demo_text None eps' demo_id s' nm) as [H _].
  - change (prefix_wf (Prefix (Addr4 1681915904) 10)). vm_compute. intuition congruence.
  - reflexivity.
  - change (0 <= pbits (Prefix (Addr4 1681915904) 10) <= 30). simpl. lia.
  - reflexivity.
  - reflexivity.
  - reflexivity.
  - reflexivity.
  - discriminate.
  - exact demo_tables.
  - intros p Hp%elem_of_nil. destruct Hp.
  - reflexivity.
  - exact E.
  - exact H.
Defined.
