(* ===== verification/Visibility.v ===== *)
(** The relay's view of the registry: [internal/control/visibility.go], and how
    [internal/server/server.go] puts it between the hub, the database and the
    relay ([keyVisibility], [relayAbsent], [pruneRelay]). *)

From S2P Require Import Prelude GoStrings Base64 NetIP LockRecord Store Effects Tables Enroll Registry Routes Handlers Control ControlSafety NetMap NetMapSafety Hub.
From S2P Require Compile Policy RelayFrame RelayServer.

(** ** Peers by key *)

Record KeyVisibility := { kvGen : Z; kvByKey : option (gmap string Peer) }.
Definition NewKeyVisibility : KeyVisibility := {| kvGen := -1; kvByKey := None |}.

Definition by_key (list : list Peer) : gmap string Peer := foldl (λ m p, <[pPublicKey p := p]> m) ∅ list.

(** [peers], under the lock: [gen] was read before; [ok] false is a failed
    statement. *)
Definition key_peers (ok : bool) (gen : Z) (s : Store) (kv : KeyVisibility) : KeyVisibility * option (gmap string Peer) :=
  match kvByKey kv with
  | Some m => if gen =? kvGen kv then (kv, Some m)
              else if ok then let m := by_key (stable_sort by_name (peers s)) in ({| kvGen := gen; kvByKey := Some m |}, Some m) else (kv, None)
  | None => if ok then let m := by_key (stable_sort by_name (peers s)) in ({| kvGen := gen; kvByKey := Some m |}, Some m) else (kv, None)
  end.

(** [KeyVisibility.Visible] and [PeerID] on the peers found; [None] is an error. *)
Definition key_visible (vis : Peer → Peer → bool) (m : option (gmap string Peer)) (src dst : string) : option bool :=
  match m with
  | None => None
  | Some m => match m !! src with
              | None => Some false
              | Some a => match m !! dst with None => Some false | Some b => Some (vis a b) end
              end
  end.
Definition PeerID (m : option (gmap string Peer)) (key : string) : option (string * bool) :=
  match m with
  | None => None
  | Some m => Some (match m !! key with Some p => (pID p, true) | None => ("", false) end)
  end.

(** ** In the server *)

(** [keyVisibility]: what the relay is told depends on the peers and the policy
    at hand. *)
Record key_view := { kwPeers : option (gmap string Peer); kwVisible : Peer → Peer → bool }.
#[export] Instance keyVisibility : RelayServer.Visibility key_view := λ v src dst,
  key_visible (kwVisible v) (kwPeers v) (std_base64 src) (std_base64 dst).

(** [relayAbsent]: a peer that is not on the relay is asked to come; the two
    lookups are [from] and [to]. *)
Definition relayAbsent (from to : option (string * bool)) (now : Z) (h : Hub) : Hub :=
  match from with
  | Some (f, true) => match to with Some (t, true) => Want t f now h | _ => h end
  | _ => h
  end.

(** [pruneRelay]: the keys kept; [None] when the peers cannot be listed. *)
Definition registered_keys (s : Store) (k : RelayFrame.Key) : bool := existsb (λ p, bool_decide (pPublicKey p = std_base64 k)) (peers s).
Definition pruneRelay (ok : bool) (s : Store) (srv : RelayServer.Server) : RelayServer.Server :=
  if ok then RelayServer.close_where (λ k, negb (registered_keys s k)) srv else srv.

(** ** Lemmas *)

Lemma by_key_snoc l p : by_key (l ++ [p]) = <[pPublicKey p := p]> (by_key l).
Proof. unfold by_key. by rewrite foldl_app. Qed.

Lemma by_key_iff l k p : NoDup (pPublicKey <$> l) → by_key l !! k = Some p ↔ p ∈ l ∧ pPublicKey p = k.
Proof.
  induction l as [|q l IH] using rev_ind; intros Hnd.
  - unfold by_key. cbn. rewrite lookup_empty. split; [done|]. by intros [?%elem_of_nil _].
  - rewrite fmap_app in Hnd. apply NoDup_app in Hnd as (Hnd & Hdis & _). rewrite by_key_snoc, lookup_insert_Some, elem_of_app, IH by done.
    rewrite list_elem_of_singleton. split; [naive_solver|]. intros [[Hp | ->] <-]; [|by left]. right. split; [|done].
    intros He. apply (Hdis (pPublicKey p)); [by apply list_elem_of_fmap_2|]. cbn. rewrite <- He. by left.
Qed.

(** The row of a key. *)
Definition row_of_key (s : Store) (k : string) : option Peer := by_key (stable_sort by_name (peers s)) !! k.

Lemma row_of_key_iff s k p : tables_ok s → row_of_key s k = Some p ↔ p ∈ peers s ∧ pPublicKey p = k.
Proof.
  intros Hok. unfold row_of_key. rewrite by_key_iff, elem_of_stable_sort; [done|]. rewrite stable_sort_perm. apply Hok.
Qed.

(** ** The cache under concurrency *)

Section Concurrency.
Context (Verify : PublicKey → list byte → Signature → bool)
  (ParseKey : string → option (list byte)) (KeyString : list byte → string)
  (encode : Signed → string) (decode : string → option Signed) (cf : Config) (hubKey : string) (o : HubOptions).

(** How far a lookup is: begun, the hub's sequence read, answered. *)
Inductive lookup_state := LBegin | LGen (gen : Z) | LDone (m : option (gmap string Peer)).

Record System := { vsStore : Store; vsHub : Hub; vsCache : KeyVisibility; vsCalls : gmap nat lookup_state }.

(** A transaction commits; the hub does something, [Changed] of a handler whose
    transaction committed among it; a lookup begins, reads the sequence, and
    takes the lock. *)
Inductive event := VStore (c : call) | VHub (e : hub_event) | VBegin (t : nat) | VRead (t : nat) | VPeers (t : nat) (ok : bool).

Inductive step (y : System) : event → System → Prop :=
  | V_store c s' :
      transacts Verify ParseKey KeyString encode decode cf hubKey (vsStore y) s' c →
      step y (VStore c) {| vsStore := s'; vsHub := vsHub y; vsCache := vsCache y; vsCalls := vsCalls y |}
  | V_hub e :
      - 2 ^ 63 <= hSequence (vsHub y) < 2 ^ 63 - 1 →
      step y (VHub e) {| vsStore := vsStore y; vsHub := hub_step o e (vsHub y); vsCache := vsCache y; vsCalls := vsCalls y |}
  | V_begin t :
      vsCalls y !! t = None →
      step y (VBegin t) {| vsStore := vsStore y; vsHub := vsHub y; vsCache := vsCache y; vsCalls := <[t := LBegin]> (vsCalls y) |}
  | V_read t :
      vsCalls y !! t = Some LBegin →
      step y (VRead t) {| vsStore := vsStore y; vsHub := vsHub y; vsCache := vsCache y; vsCalls := <[t := LGen (hSequence (vsHub y))]> (vsCalls y) |}
  | V_peers t ok gen kv m :
      vsCalls y !! t = Some (LGen gen) → key_peers ok gen (vsStore y) (vsCache y) = (kv, m) →
      step y (VPeers t ok) {| vsStore := vsStore y; vsHub := vsHub y; vsCache := kv; vsCalls := <[t := LDone m]> (vsCalls y) |}.

(** Steps through states that all satisfy [P]. *)
Inductive stretch (P : Store → Prop) (y : System) : list event → System → Prop :=
  | Stretch_nil : P (vsStore y) → stretch P y [] y
  | Stretch_snoc l y1 e y2 : stretch P y l y1 → step y1 e y2 → P (vsStore y2) → stretch P y (l ++ [e]) y2.

Lemma step_hub_sequence y e y' : step y e y' → hSequence (vsHub y) <= hSequence (vsHub y').
Proof.
  intros H. destruct H as [| e Hr| | |]; try done. cbn [vsHub]. assert ((∃ g, e = HChanged g) ∨ ∀ g, e ≠ HChanged g) as [(g & ->)|Hne] by (destruct e; eauto).
  - destruct (changed_sequence g (vsHub y) Hr). change (hub_step o (HChanged g) (vsHub y)) with (Changed g (vsHub y)). lia.
  - by rewrite step_sequence.
Qed.

(** Nothing read is newer than the sequence. *)
Record settled (y : System) : Prop := {
  st_cache : kvGen (vsCache y) <= hSequence (vsHub y) ∨ kvByKey (vsCache y) = None;
  st_calls : ∀ t g, vsCalls y !! t = Some (LGen g) → g <= hSequence (vsHub y);
}.

Lemma key_peers_cases ok gen s kv kv' m : key_peers ok gen s kv = (kv', m) →
  (kv' = kv ∧ (m = None ∨ m = kvByKey kv ∧ kvGen kv = gen)) ∨
  (kvGen kv' = gen ∧ kvByKey kv' = Some (by_key (stable_sort by_name (peers s))) ∧ m = kvByKey kv').
Proof.
  unfold key_peers. destruct (kvByKey kv) as [m0|] eqn:E; [destruct (Z.eqb_spec gen (kvGen kv))|]; [|destruct ok..]; intros [= <- <-]; rewrite ?E; auto.
Qed.

Lemma settled_step y e y' : settled y → step y e y' → settled y'.
Proof.
  intros [Hc Hl] H. pose proof (step_hub_sequence _ _ _ H) as Hseq. destruct H as [c s' H|e Hr|t Ht|t Ht|t ok gen kv m Ht H]; split; cbn [vsStore vsHub vsCache vsCalls] in *; try done.
  - destruct Hc; [left; lia|by right].
  - intros t g Hg. apply Hl in Hg. lia.
  - intros t' g. rewrite lookup_insert_Some. intros [[_ [=]]|[_ Hg]]. by apply Hl in Hg.
  - intros t' g. rewrite lookup_insert_Some. intros [[_ [= <-]]|[_ Hg]]; [lia|]. by apply Hl in Hg.
  - apply key_peers_cases in H as [(-> & _)|(-> & _)]; [done|left; by apply Hl in Ht].
  - intros t' g. rewrite lookup_insert_Some. intros [[_ [=]]|[_ Hg]]. by apply Hl in Hg.
Qed.

(** From the change on that follows a state of the row, caches of its generation
    and the lookups begun since hold that state. *)
Record fresh (k : string) (x : option Peer) (g0 : Z) (began : nat → Prop) (y : System) : Prop := {
  fr_seq : g0 <= hSequence (vsHub y);
  fr_cache : ∀ m, kvByKey (vsCache y) = Some m → g0 <= kvGen (vsCache y) → m !! k = x;
  fr_calls : ∀ t, began t → match vsCalls y !! t with Some (LGen g) => g0 <= g | Some (LDone (Some m)) => m !! k = x | _ => True end;
}.

Lemma fresh_step k x g0 (began : nat → Prop) y e y' :
  fresh k x g0 began y → row_of_key (vsStore y) k = x → step y e y' → fresh k x g0 began y'.
Proof.
  intros [Hs Hc Hl] Hrow H. pose proof (step_hub_sequence _ _ _ H) as Hseq.
  destruct H as [c s' H|e Hr|t Ht|t Ht|t ok gen kv m Ht H]; split; cbn [vsStore vsHub vsCache vsCalls] in *; try done; try lia.
  - intros t' Hb. specialize (Hl t' Hb). destruct (decide (t = t')) as [->|]; [by rewrite lookup_insert_eq|by rewrite lookup_insert_ne].
  - intros t' Hb. specialize (Hl t' Hb). destruct (decide (t = t')) as [->|]; [by rewrite lookup_insert_eq|by rewrite lookup_insert_ne].
  - intros m' Hm' Hg. apply key_peers_cases in H as [(-> & _)|(Hgen & Hk & _)]; [by apply Hc|]. rewrite Hk in Hm'. by injection Hm' as <-.
  - intros t' Hb. pose proof (Hl t' Hb) as Hlt. destruct (decide (t = t')) as [->|]; [|by rewrite lookup_insert_ne]. rewrite lookup_insert_eq.
    rewrite Ht in Hlt. destruct m as [m|]; [|done]. apply key_peers_cases in H as [(-> & [?|[Hm Hg]])|(Hg & Hk & Hm)]; [done| |].
    + symmetry in Hm. apply (Hc m Hm). lia.
    + rewrite Hk in Hm. by injection Hm as ->.
Qed.
End Concurrency.

(** A lookup by key is as fresh as the last change that was announced.  Take
    any interleaving of transactions, hub operations and lookups, and in it a
    stretch that begins when the hub was told of a change and in which the row of
    a key stays what it is (a peer, or nobody).  A lookup begun in the stretch
    finds exactly that row for the key, whether it reads the table or is answered
    from the cache: a deleted peer's key is unknown, a new peer's known. *)
Theorem lookups_are_fresh (Verify : PublicKey → list byte → Signature → bool)
    (ParseKey : string → option (list byte)) (KeyString : list byte → string)
    (encode : Signed → string) (decode : string → option Signed) (cf : Config) (hubKey : string) (o : HubOptions)
    (y0 y ya yb : System) (l l' : list event) (g : option Z) (k : string) (x : option Peer) (t : nat) (m : gmap string Peer) :
  let stretch := stretch Verify ParseKey KeyString encode decode cf hubKey o in
  let step := step Verify ParseKey KeyString encode decode cf hubKey o in
  vsCache y0 = NewKeyVisibility → vsCalls y0 = ∅ → stretch (λ _, True) y0 l y →
  step y (VHub (HChanged g)) ya → vsCalls ya !! t = None →
  stretch (λ s, row_of_key s k = x) ya l' yb → vsCalls yb !! t = Some (LDone (Some m)) →
  m !! k = x ∧ PeerID (Some m) k = Some (match x with Some p => (pID p, true) | None => ("", false) end).
Proof.
  intros st sp Hcache Hcalls Hl Hchg Ht Hl' Hdone.
  assert (settled y) as [Hc Hg].
  { assert (settled y0) as Hy0 by (split; [right; by rewrite Hcache|by rewrite Hcalls]). clear -Hl Hy0.
    induction Hl as [|l y1 e y2 _ IH He _]; [done|]. eapply settled_step; [exact IH|exact He]. }
  assert (fresh k x (hSequence (vsHub ya)) (λ t, vsCalls ya !! t = None) ya) as Hf.
  { inversion Hchg as [|e Hr| | |]; subst. split; [done| |].
    - intros m' Hm'. cbn [vsCache] in *. destruct Hc as [Hc|Hc]; [|congruence]. cbn [vsHub].
      change (hub_step o (HChanged g) (vsHub y)) with (Changed g (vsHub y)). destruct (changed_sequence g (vsHub y) Hr). lia.
    - intros t' Hb. by rewrite Hb. }
  assert (m !! k = x) as Hm; [|split; [done|]; cbn; by rewrite Hm].
  assert (fresh k x (hSequence (vsHub ya)) (λ t, vsCalls ya !! t = None) yb ∧ row_of_key (vsStore yb) k = x) as [Hfb _].
  { clear -Hl' Hf. induction Hl' as [|l' y1 e y2 Hs IH He HP]; [done|]. split; [|done]. destruct IH as [IH Hrow].
    eapply fresh_step; [exact IH|exact Hrow|exact He]. }
  pose proof (fr_calls _ _ _ _ _ Hfb t Ht) as Hx. by rewrite Hdone in Hx.
Qed.

(** ** The relay under the policy *)

(** The relay carries what the policy's text allows.  Let the relay be
    answered, at each SEND, from some version of the peer table and a policy
    compiled against some version of the database (not necessarily the same one),
    or by an error.  Then every packet it delivers goes from a registered peer to
    another, by their keys, and at one of those answers the text named the pair
    or routed one through the other, in one direction or the other. *)
Theorem relay_follows_policy (o : RelayServer.ServerOptions) (es : list (@RelayServer.event key_view))
    (answers : Store → Store → Policy.Policy → prefix → Prop) (id : nat) (f : RelayFrame.Frame) :
  (∀ id' g now v, RelayServer.EvFrame id' g now v ∈ es → kwPeers v = None ∨
     ∃ s1 s2 pol ov, answers s1 s2 pol ov ∧ tables_ok s1 ∧ tables_ok s2 ∧ kwPeers v = Some (by_key (stable_sort by_name (peers s1))) ∧
       kwVisible v = Visible (PolicyVisibility (Some (Compile.CompileWith pol (compiler_peers s2) ov)))) →
  RelayServer.Wrote id f ∈ (RelayServer.run o es).2 → RelayFrame.FType f = RelayFrame.TypeRecv →
  ∃ s dst s1 s2 pol ov p q a b, RelayServer.store (RelayServer.run o es).1 !! id = Some s ∧ dst = RelayServer.key s ∧ answers s1 s2 pol ov ∧
    p ∈ peers s1 ∧ pPublicKey p = std_base64 (RelayFrame.FKey f) ∧ q ∈ peers s1 ∧ pPublicKey q = std_base64 dst ∧
    a ∈ peers s2 ∧ b ∈ peers s2 ∧ pID a = pID p ∧ pID b = pID q ∧ pID a ≠ pID b ∧ text_visible pol ov (seen s2 a) (seen s2 b).
Proof.
  intros Hviews Hw Ht. destruct (RelayServer.relay_writes o es id f Hw Ht) as (s & id' & s' & g & now & v & Hs & _ & Hk & Hev & _ & _ & _ & _ & Hvis).
  destruct (Hviews _ _ _ _ Hev) as [Hnone|(s1 & s2 & pol & ov & Hans & Hok1 & Hok2 & Hpeers & Hv)];
    unfold RelayServer.visible, keyVisibility, key_visible in Hvis; [by rewrite Hnone in Hvis|].
  rewrite Hpeers, Hk in Hvis. destruct (by_key _ !! std_base64 (RelayFrame.FKey f)) as [p|] eqn:Ep; [|done].
  destruct (by_key _ !! std_base64 (RelayServer.key s)) as [q|] eqn:Eq; [|done]. injection Hvis as Hvis.
  apply (row_of_key_iff s1 _ p Hok1) in Ep as [Hp Hpk]. apply (row_of_key_iff s1 _ q Hok1) in Eq as [Hq Hqk].
  rewrite Hv in Hvis. destruct (policy_visible_ids pol ov s2 (pID p) (pID q) Hok2) as (a & b & Ha & Hb & Hap & Hbq & Hne & Htext); [exact Hvis|].
  exists s, (RelayServer.key s), s1, s2, pol, ov, p, q, a, b. done.
Qed.

(** ** Two peers *)

Definition demo_key_calls : list call :=
  [demo_issue; CEnroll demo_pol (2 * second) (demo_req "FPucAw==") (demo_draw 2);
   CCreateStatic demo_pol demo_admin {| stOwnerName := "ada"; stName := "phone"; stKind := ""; stTags := [] |} (demo_draw 5) [Byte.x05] [Byte.x05]].
Definition demo_key_store : Store :=
  stStore (run demo_verify std_decode std_base64 (λ _, "") (λ _, None) demo_config (demo_state demo_start) demo_key_calls).

Lemma demo_key_tables : tables_ok demo_key_store.
Proof.
  apply (run_invariant demo_verify std_decode std_base64 (λ _, "") (λ _, None) demo_config tables_ok (λ _, True));
    [|exact demo_tables|by apply Forall_true]. intros s s' c _ Hs H. by eapply transacts_tables.
Qed.

Definition demo_key_system : System :=
  {| vsStore := demo_key_store; vsHub := NewHub 2 0; vsCache := NewKeyVisibility; vsCalls := ∅ |}.
Definition demo_phone : Peer := default (new_peer std_base64 demo_enroller (demo_req "key") demo_token (demo_draw 1) [] (Addr4 0) "")
  (row_of_key demo_key_store (std_base64 [Byte.x05])).
Definition demo_changed : System :=
  {| vsStore := demo_key_store; vsHub := hub_step demo_options (HChanged (Some 2)) (NewHub 2 0); vsCache := NewKeyVisibility; vsCalls := ∅ |}.

Lemma lookups_are_fresh_witness : ∃ m, PeerID (Some m) "BQ==" = Some (pID demo_phone, true).
Proof.
  assert (row_of_key demo_key_store "BQ==" = Some demo_phone) as Hrow by (vm_compute; reflexivity).
  set (m := by_key (stable_sort by_name (peers demo_key_store))). exists m.
  apply (lookups_are_fresh demo_verify std_decode std_base64 (λ _, "") (λ _, None) demo_config "hub-key" demo_options
    demo_key_system demo_key_system demo_changed
    {| vsStore := demo_key_store; vsHub := vsHub demo_changed; vsCache := {| kvGen := hSequence (vsHub demo_changed); kvByKey := Some m |};
       vsCalls := <[0%nat := LDone (Some m)]> (<[0%nat := LGen (hSequence (vsHub demo_changed))]> (<[0%nat := LBegin]> ∅)) |}
    [] ((([] ++ [VBegin 0]) ++ [VRead 0]) ++ [VPeers 0 true]) (Some 2) "BQ==" (Some demo_phone) 0).
  - reflexivity.
  - reflexivity.
  - by constructor.
  - apply V_hub. split; [discriminate|reflexivity].
  - reflexivity.
  - eapply Stretch_snoc; [eapply Stretch_snoc; [eapply Stretch_snoc; [by constructor|by apply V_begin|exact Hrow]|by apply V_read|exact Hrow]| |exact Hrow].
    exact (V_peers demo_verify std_decode std_base64 (λ _, "") (λ _, None) demo_config "hub-key" demo_options
      {| vsStore := demo_key_store; vsHub := vsHub demo_changed; vsCache := NewKeyVisibility;
         vsCalls := <[0%nat := LGen (hSequence (vsHub demo_changed))]> (<[0%nat := LBegin]> ∅) |}
      0 true (hSequence (vsHub demo_changed)) {| kvGen := hSequence (vsHub demo_changed); kvByKey := Some m |} (Some m) eq_refl eq_refl).
  - reflexivity.
Defined.

Definition demo_view : key_view :=
  {| kwPeers := Some (by_key (stable_sort by_name (peers demo_key_store)));
     kwVisible := Visible (PolicyVisibility (Some (Compile.CompileWith demo_text (compiler_peers demo_key_store) (cfOverlay demo_config)))) |}.
Definition demo_payload : list byte := [Byte.x04; Byte.x00; Byte.x00; Byte.x00; Byte.x09].
Definition demo_relay_events : list (@RelayServer.event key_view) :=
  [RelayServer.EvServe [Byte.x05] 0; RelayServer.EvServe [Byte.x14; Byte.xfb; Byte.x9c; Byte.x03] 0;
   RelayServer.EvFrame 0 {| RelayFrame.FType := RelayFrame.TypeSend; RelayFrame.FKey := [Byte.x14; Byte.xfb; Byte.x9c; Byte.x03];
                            RelayFrame.Payload := demo_payload |} second demo_view;
   RelayServer.EvWrite 1 true].
Definition demo_relay_options : RelayServer.ServerOptions :=
  {| RelayServer.MaxBytesPerSecond := 1000; RelayServer.QueueSize := 0; RelayServer.PingInterval := 0; RelayServer.MissedPings := 0;
     RelayServer.MaxViolationsPerMinute := 0 |}.

Lemma relay_follows_policy_witness :
  ∃ p q, p ∈ peers demo_key_store ∧ pPublicKey p = "BQ==" ∧ q ∈ peers demo_key_store ∧ pID p ≠ pID q ∧
    text_visible demo_text (cfOverlay demo_config) (seen demo_key_store p) (seen demo_key_store q).
Proof.
  destruct (relay_follows_policy demo_relay_options demo_relay_events
    (λ s1 s2 pol ov, s1 = demo_key_store ∧ s2 = demo_key_store ∧ pol = demo_text ∧ ov = cfOverlay demo_config)
    1 {| RelayFrame.FType := RelayFrame.TypeRecv; RelayFrame.FKey := [Byte.x05]; RelayFrame.Payload := demo_payload |})
    as (s & dst & s1 & s2 & pol & ov & p & q & a & b & _ & _ & (-> & -> & -> & ->) & Hp & Hk & Hq & _ & Ha & Hb & Hap & Hbq & Hne & Ht).
  - intros id' g now v Hin. right. exists demo_key_store, demo_key_store, demo_text, (cfOverlay demo_config).
    unfold demo_relay_events in Hin. rewrite !elem_of_cons in Hin. destruct Hin as [?|[?|[[= -> -> -> ->]|[?|Hnil]]]]; try discriminate.
    + split_and!; [done..|exact demo_key_tables|exact demo_key_tables|reflexivity|reflexivity].
    + by apply elem_of_nil in Hnil.
  - vm_compute. left.
  - reflexivity.
  - assert (a = p) as -> by (eapply (key_unique pID); [apply demo_key_tables|done..]).
    assert (b = q) as -> by (eapply (key_unique pID); [apply demo_key_tables|done..]).
    exists p, q. split_and!; [exact Hp|exact Hk|exact Hq|exact Hne|exact Ht].
Defined.
