(* ===== verification/Changes.v ===== *)
(** The generation of the database tells changes: whatever call of the control
    plane leaves it as it is also leaves what the policy is compiled against. *)

From S2P Require Import Prelude GoStrings NetIP LockRecord Store Effects Tables Enroll LockService Registry Routes Handlers Control ControlSafety NetMap NetMapSafety.
From S2P Require Users PolicySvc Compile Sha256.

(** ** Transactions that raise the generation *)

Definition raises {E A} (k : Z) (m : tx E A) : Prop :=
  ∀ s s' a, tables_ok s → m s = Ok (s', a) → tables_ok s' ∧ gen_of s + k <= gen_of s'.

Lemma raises_keep {E A} l (m : tx E A) : keeps tables_ok m → touches l m → TGeneration ∉ l → raises 0 m.
Proof.
  intros Hk Ht Hl s s' a Hok H. split; [by eapply Hk|]. pose proof (Ht _ _ _ H TGeneration Hl) as Hs. cbn [same] in Hs. lia.
Qed.
Lemma raises_read {E A} (m : tx E A) : reads m → raises 0 m.
Proof. intros Hr s s' a Hok H. rewrite (Hr _ _ _ H). split; [done|lia]. Qed.
Lemma raises_ret {E A} (a : A) : raises (E := E) 0 (mret a).
Proof. intros s s' a' Hok [= <- _]. split; [done|lia]. Qed.
Lemma raises_fail {E A} k (e : E) : raises (A := A) k (fail_tx e).
Proof. done. Qed.
Lemma raises_lift {E F A} (g : E → F) k (m : tx E A) : raises k m → raises k (lift g m).
Proof. intros Hr s s' a Hok H%lift_ok. by eapply Hr. Qed.
Lemma raises_bind {E A B} k j (m : tx E A) (f : A → tx E B) : raises k m → (∀ a, raises j (f a)) → raises (k + j) (m ≫= f).
Proof.
  intros Hm Hf s s' b Hok H. apply tx_bind_ok in H as (s1 & a & H1 & H2). apply Hm in H1 as [Hok1 H1]; [|done].
  apply Hf in H2 as [Hok2 H2]; [|done]. split; [done|lia].
Qed.
Lemma raises_weaken {E A} k j (m : tx E A) : raises k m → j <= k → raises j m.
Proof. intros Hm Hj s s' a Hok H. apply Hm in H as [? ?]; [|done]. split; [done|lia]. Qed.
Lemma raises_then {E A B} k (m : tx E A) (f : A → tx E B) : raises 0 m → (∀ a, raises k (f a)) → raises k (m ≫= f).
Proof. intros Hm Hf. by apply (raises_bind 0 k). Qed.
Lemma raises_first {E A B} k (m : tx E A) (f : A → tx E B) : raises k m → (∀ a, raises 0 (f a)) → raises k (m ≫= f).
Proof. intros Hm Hf. rewrite <- (Z.add_0_r k). by apply raises_bind. Qed.
Lemma raises_increment : raises 1 IncrementGeneration.
Proof. intros s s' g Hok H. apply Increment_tables in H as [Hok' Hg]; [|done]. split; [done|lia]. Qed.

(** Leaves, then the increment, then the rest. *)
Ltac raise_leaf := first
  [ apply raises_fail | apply raises_ret | apply raises_read; solve_reads
  | apply raises_lift; raise_leaf
  | eapply raises_keep; [solve [auto with tables]|solve [auto with touches]|not_in]
  | eapply raises_weaken; [apply raises_increment|lia] ].
Ltac raising := repeat first
  [ solve [raise_leaf]
  | apply raises_first; [solve [raise_leaf]|intros ?] | apply raises_then; [solve [raise_leaf]|intros ?]
  | apply raises_then; [|intros ?]
  | case_match ].

Section Raising.
Context (Verify : PublicKey → list byte → Signature → bool)
  (ParseKey : string → option (list byte)) (KeyString : list byte → string)
  (encode : Signed → string) (decode : string → option Signed).

Lemma enroll_raises e pol req d pub : raises 1 (enroll_tx KeyString e pol req d pub).
Proof. unfold enroll_tx, Tokens_GetByHash. raising. Qed.
Lemma rename_raises r by_ p n n' anow : raises 1 (rename_tx r by_ p n n' anow).
Proof. unfold rename_tx. raising. Qed.
Lemma delete_raises r id by_ act n anow : raises 1 (delete_tx r id by_ act n anow).
Proof. unfold delete_tx, Peers_GetByID. raising. Qed.
Lemma rotate_raises r id k sr now anow : raises 1 (rotate_tx Verify ParseKey decode r id k sr now anow).
Proof. unfold rotate_tx, Peers_GetByID. raising. Qed.
Lemma static_raises r by_ req owner kind tags d key pub : raises 1 (static_tx KeyString r by_ req owner kind tags d key pub).
Proof. unfold static_tx. raising. Qed.
Lemma approve_raises on by_ p n pfx ap now anow : raises 1 (approve_tx on by_ p n pfx ap now anow).
Proof. unfold approve_tx. raising. Qed.
Lemma capable_raises id c : raises 0 (capable_tx id c).
Proof. unfold capable_tx. raising. Qed.
Lemma sign_raises svc by_ sa : raises 0 (signInTx Verify ParseKey svc by_ sa).
Proof. unfold signInTx. raising. Qed.

Lemma sign_all_raises svc by_ k l : raises 0 (sign_all Verify ParseKey svc by_ k l).
Proof.
  induction l as [|sa l IH]; cbn [sign_all]; [apply raises_ret|].
  apply raises_then; [apply raises_read; solve_reads|intros _]. apply raises_then; [apply sign_raises|intros _; exact IH].
Qed.
Lemma set_raises svc by_ next l anow : raises 0 (set_tx Verify ParseKey encode decode svc by_ next l anow).
Proof.
  unfold set_tx. pose proof (sign_all_raises svc by_) as Hs. pose proof (lock_meta_touches encode next) as Hm. pose proof (lock_meta_keeps encode next).
  repeat (apply raises_then; [|intros ?]);
    first [solve [raise_leaf] | apply Hs | solve [case_match; raising] | apply raises_lift; eapply raises_keep; [auto|apply Hm|not_in]].
Qed.
Lemma reload_raises on by_ path p anow : raises 0 (PolicySvc.reload_tx on by_ path p anow).
Proof. unfold PolicySvc.reload_tx. raising. Qed.
End Raising.

(** ** What the policy is compiled against *)

(** The columns the compiler reads. *)
Definition policy_row (p : Peer) : string * Compile.Peer := (pOwnerID p, policy_peer ∅ ∅ p).

(** Rows read at different times that the compiler cannot tell apart. *)
Definition same_owners (s : Store) (us : list User) : Prop :=
  ∀ p, p ∈ peers s → ownerNames us !! pOwnerID p = owner_names s !! pOwnerID p.
Definition same_rows (s : Store) (ps : list Peer) : Prop := policy_row <$> ps = policy_row <$> stable_sort by_name (peers s).

Record quiet (s s' : Store) : Prop := {
  quiet_rows : policy_row <$> peers s' = policy_row <$> peers s;
  quiet_routes : routes s' = routes s;
  quiet_owners : same_owners s' (stable_sort user_order (users s));
}.

Lemma policy_row_peer names routes p p' :
  policy_row p = policy_row p' → policy_peer names routes p = policy_peer names routes p'.
Proof. intros [= Ho Hi Hn Ht H4 H6]. unfold policy_peer. by rewrite Ho, Hi, Hn, Ht, H4, H6. Qed.

Lemma policy_row_owner p p' : policy_row p = policy_row p' → pOwnerID p = pOwnerID p'.
Proof. by intros [= Ho _ _ _ _ _]. Qed.

Lemma same_rows_iff s ps : same_rows s ps ↔ policy_row <$> ps = stable_sort (λ a b, str_ltb (Compile.Name a.2) (Compile.Name b.2)) (policy_row <$> peers s).
Proof. unfold same_rows. by rewrite (stable_sort_fmap by_name). Qed.

Lemma owner_kept (ps ps' : list Peer) p : policy_row <$> ps' = policy_row <$> ps → p ∈ ps' → ∃ q, q ∈ ps ∧ pOwnerID p = pOwnerID q.
Proof.
  intros He Hp. assert (policy_row p ∈ policy_row <$> ps) as (q & Hq & Hin)%list_elem_of_fmap by (rewrite <- He; by apply list_elem_of_fmap_2).
  exists q. split; [done|]. by apply policy_row_owner.
Qed.

(** Compiling rows read at different times of a quiet stretch. *)
Lemma compile_same s us ps rows :
  same_owners s us → same_rows s ps → rows = stable_sort route_order (routes s) →
  PolicyPeers ps (ownerNames us) (ApprovedRoutes rows) = compiler_peers s.
Proof.
  intros Ho Hr ->. unfold compiler_peers, PolicyPeers, same_rows in *.
  assert (∀ l l' : list Peer, policy_row <$> l = policy_row <$> l' → (∀ p, p ∈ l' → p ∈ peers s) →
    policy_peer (ownerNames us) (approved_prefixes s) <$> l = policy_peer (owner_names s) (approved_prefixes s) <$> l') as Hgen.
  { induction l as [|p l IH]; intros [|p' l']; try done. cbn [fmap list_fmap]. intros Heq Hin.
    pose proof (f_equal (default (policy_row p) ∘ head) Heq : policy_row p = policy_row p') as Hp. pose proof (f_equal tail Heq : policy_row <$> l = policy_row <$> l') as Hl.
    f_equal; [|apply IH; [done|]; intros q Hq; apply Hin; by right].
    etransitivity; [by apply policy_row_peer|]. unfold policy_peer. rewrite (Ho p'); [done|]. apply Hin. by left. }
  apply Hgen; [done|]. intros p. by rewrite elem_of_stable_sort.
Qed.

Lemma quiet_refl_tables s s' : same TUsers s s' → same TPeers s s' → same TRoutes s s' → quiet s s'.
Proof.
  cbn [same]. intros Hu Hp Hr. split; [by rewrite Hp|done|]. intros p _. unfold owner_names. by rewrite Hu.
Qed.

Lemma quiet_same_rows s s' ps : quiet s s' → same_rows s ps → same_rows s' ps.
Proof. intros Hq. rewrite !same_rows_iff. by rewrite (quiet_rows _ _ Hq). Qed.

Lemma quiet_same_owners s s' us : quiet s s' → same_owners s us → same_owners s' us.
Proof.
  intros Hq Ho p Hp. destruct (owner_kept _ _ p (quiet_rows _ _ Hq) Hp) as (q & Hin & Howner).
  rewrite <- (quiet_owners _ _ Hq p Hp), Howner. by apply Ho.
Qed.

Lemma quiet_compiler_peers s s' : quiet s s' → compiler_peers s' = compiler_peers s.
Proof.
  intros Hq. symmetry. apply (compile_same s' (stable_sort user_order (users s)) (stable_sort by_name (peers s)) (stable_sort route_order (routes s))).
  - apply (quiet_owners _ _ Hq).
  - by apply (quiet_same_rows s).
  - by rewrite (quiet_routes _ _ Hq).
Qed.

(** ** Owners of new accounts *)

Lemma ownerNames_snoc us u : ownerNames (us ++ [u]) = <[uID u := uName u]> (ownerNames us).
Proof. unfold ownerNames. by rewrite foldl_app. Qed.

Lemma ownerNames_some us u : NoDup (uID <$> us) → u ∈ us → ownerNames us !! uID u = Some (uName u).
Proof.
  induction us as [|v us IH] using rev_ind; [by intros _ ?%elem_of_nil|]. rewrite fmap_app, ownerNames_snoc.
  intros (Hnd & Hdisj & _)%NoDup_app [Hin | ->%list_elem_of_singleton]%elem_of_app; [|by rewrite lookup_insert_eq].
  rewrite lookup_insert_ne; [by apply IH|]. intros He. apply (Hdisj (uID u)); [by apply list_elem_of_fmap_2|].
  rewrite <- He. by apply list_elem_of_singleton.
Qed.

Lemma ownerNames_none us o : o ∉ uID <$> us → ownerNames us !! o = None.
Proof.
  induction us as [|v us IH] using rev_ind; [done|]. rewrite fmap_app, ownerNames_snoc, not_elem_of_app.
  intros [Ho [Hv _]%not_elem_of_cons]. rewrite lookup_insert_ne; [by apply IH|]. intros He. by apply Hv.
Qed.

(** A new account changes the name of no id that was in use. *)
Lemma owner_names_create s u o :
  NoDup (uID <$> users s ++ [u]) → o ≠ uID u →
  ownerNames (stable_sort user_order (users s ++ [u])) !! o = ownerNames (stable_sort user_order (users s)) !! o.
Proof.
  intros Hnd Ho. pose proof Hnd as Hnd'. rewrite fmap_app in Hnd'. apply NoDup_app in Hnd' as (Hnd0 & _ & _).
  destruct (decide (o ∈ uID <$> users s)) as [(v & -> & Hv)%list_elem_of_fmap|Hno].
  - rewrite !(ownerNames_some _ v); [done|..].
    1, 3: by rewrite stable_sort_perm.
    all: rewrite elem_of_stable_sort; rewrite ?elem_of_app; auto.
  - rewrite !ownerNames_none; [done|by rewrite stable_sort_perm|]. rewrite stable_sort_perm, fmap_app, not_elem_of_app. split; [done|].
    intros ?%list_elem_of_singleton. done.
Qed.

Lemma hex_empty l : Sha256.hex l = "" → l = [].
Proof. destruct l as [|b l]; [done|]. unfold Sha256.hex. done. Qed.

(** ** One call *)

Lemma withdraw_nothing id w l s s' : routes_withdraw id w l s = Ok (s', []) → s' = s.
Proof.
  induction l as [|c l IH]; cbn [routes_withdraw]; [by intros [= <-]|]. case_bool_decide; [done|].
  intros Hr. apply tx_bind_ok in Hr as (s1 & u & _ & Hr). by apply tx_bind_ok in Hr as (s2 & x & _ & [=]).
Qed.

Lemma add_nothing id h now l s s' : routes_add id h now l s = Ok (s', []) → s' = s.
Proof.
  induction l as [|p l IH]; cbn [routes_add]; [by intros [= <-]|]. case_bool_decide; [done|].
  intros Hr. apply tx_bind_ok in Hr as (s1 & u & _ & Hr). by apply tx_bind_ok in Hr as (s2 & x & _ & [=]).
Qed.

Lemma Replace_nothing id l now s s' : Routes_Replace id l now s = Ok (s', ([], [])) → s' = s.
Proof.
  unfold Routes_Replace. intros H. apply tx_bind_ok in H as (s1 & cur & [= <- _] & H).
  apply tx_bind_ok in H as (s2 & rem & H2 & H). apply tx_bind_ok in H as (s3 & add & H3 & [= <- -> ->]).
  by rewrite (add_nothing _ _ _ _ _ _ H3), (withdraw_nothing _ _ _ _ _ H2).
Qed.

Lemma advertise_quiet on by_ l now anow s s' ar :
  tables_ok s → advertise_tx on by_ l now anow s = Ok (s', ar) → s' = s ∨ gen_of s < gen_of s'.
Proof.
  intros Hok H. unfold advertise_tx in H. apply tx_bind_ok in H as (s1 & [added removed] & H1%lift_ok & H). cbn [fst snd] in H.
  destruct (decide (added = [] ∧ removed = [])) as [[-> ->]|Hne%not_and_l].
  - left. apply Replace_nothing in H1 as ->. cbn in H. by injection H.
  - right. rewrite (proj2 (andb_false_iff _ _)) in H by (rewrite !bool_decide_eq_false; done).
    assert (tables_ok s1) as Hok1 by (eapply Routes_Replace_tables; [exact Hok|exact H1]).
    assert (gen_of s1 = gen_of s) as Hg by (eapply (touches_Replace _ _ _ _ _ _ H1 TGeneration); not_in).
    rewrite <- Hg. match type of H with ?m s1 = _ => assert (raises 1 m) as Hr; [|apply Hr in H as [_ H]; [lia|done]] end.
    pose proof audit_routes_keeps as Hk. pose proof audit_routes_touches as Ht.
    apply raises_then; [|intros _; apply raises_then; [|intros _; raising]].
    all: eapply raises_keep; [apply Hk|apply Ht|not_in].
Qed.

(** Ids drawn for accounts are not empty. *)
Definition drawn (c : call) : Prop := match c with CCreateUser _ _ _ _ _ rnd _ _ => rnd ≠ [] | _ => True end.

Lemma update_rows_quiet id f s : (∀ p, policy_row (f p) = policy_row p) → quiet s (update_rows id f s).
Proof.
  intros Hf. split; [|done|].
  - unfold update_rows. cbn. rewrite <- list_fmap_compose. apply list_fmap_ext. intros i p _. cbn. by destruct (eqs _ _).
  - by intros p _.
Qed.

Lemma quiet_or_raised Verify ParseKey KeyString encode decode cf hub s s' c :
  tables_ok s → drawn c → transacts Verify ParseKey KeyString encode decode cf hub s s' c →
  gen_of s <= gen_of s' ∧ (gen_of s < gen_of s' ∨ quiet s s').
Proof.
  intros Hok Hd H.
  assert (TUsers ∉ call_tables c → TPeers ∉ call_tables c → TRoutes ∉ call_tables c → quiet s s') as Hquiet.
  { intros Hu Hp Hr. apply quiet_refl_tables; by eapply transacts_same. }
  assert (TGeneration ∉ call_tables c → gen_of s' = gen_of s) as Hgen.
  { intros Hg. by eapply (transacts_same _ _ _ _ _ _ _ _ _ _ TGeneration). }
  assert (∀ A k (m : tx cerror A) a, raises k m → m s = Ok (s', a) → gen_of s + k <= gen_of s') as Hraise.
  { intros A k m a Hm Hs. by apply Hm in Hs as [_ ?]. }
  destruct H; cbn [call_tables drawn] in *; try (split; [rewrite Hgen by not_in; lia|right; apply Hquiet; not_in]).
  - subst s'. split; [lia|right]. by apply quiet_refl_tables.
  - apply (Hraise _ 1) in H0; [split; [lia|left; lia]|]. apply enroll_raises.
  - apply (Hraise _ 1) in H4; [split; [lia|left; lia]|]. apply rename_raises.
  - apply (Hraise _ 1) in H1; [split; [lia|left; lia]|]. apply delete_raises.
  - apply (Hraise _ 1) in H; [split; [lia|left; lia]|]. apply delete_raises.
  - apply (Hraise _ 1) in H0; [split; [lia|left; lia]|]. apply rotate_raises.
  - split; [eapply (Hraise _ 0) in H; [lia|apply capable_raises]|]. right. unfold capable_tx in H.
    apply tx_bind_ok in H as (s1 & b1 & H1%lift_ok & H). assert (quiet s s1) as Hq.
    { unfold Peers_SetIPv6Capable in H1. repeat case_match; simplify_eq; [by apply update_rows_quiet|by apply quiet_refl_tables]. }
    destruct b1; [|injection H; intros; by subst].
    apply tx_bind_ok in H as (s2 & g & H2%lift_ok & H). assert (s2 = s') as -> by (injection H; intros; by subst). destruct Hq as [Hq1 Hq2 Hq3].
    pose proof (touches_Increment _ _ _ H2) as Ht.
    split; [rewrite (Ht TPeers) by not_in; done|rewrite (Ht TRoutes) by not_in; done|].
    intros p. pose proof (Ht TPeers ltac:(not_in)) as Hp. pose proof (Ht TUsers ltac:(not_in)) as Hu. cbn [same] in Hp, Hu.
    unfold owner_names. rewrite Hp, Hu. apply Hq3.
  - subst s'. split; [rewrite Hgen by not_in; lia|right; by apply update_rows_quiet].
  - subst s'. split; [rewrite Hgen by not_in; lia|right; by apply update_rows_quiet].
  - apply (Hraise _ 1) in H1; [split; [lia|left; lia]|]. apply static_raises.
  - apply advertise_quiet in H1 as [-> | H1]; [split; [lia|right; by apply quiet_refl_tables]|split; [lia|by left]|done].
  - apply (Hraise _ 1) in H2; [split; [lia|left; lia]|]. apply approve_raises.
  - apply (Hraise _ 0) in H1; [split; [lia|right; apply Hquiet; not_in]|]. apply set_raises.
  - apply (Hraise _ 0) in H1; [split; [lia|right; apply Hquiet; not_in]|]. apply sign_raises.
  - split; [rewrite Hgen by not_in; lia|right].
    assert (users s' = users s ++ [Users.new_user name role hash rnd now]) as Hu.
    { unfold Users.user_tx in H1. apply tx_bind_ok in H1 as (s1 & u & H1%lift_ok & H2). pose proof (audit_record_touches _ _ _ _ _ _ _ _ _ H2) as Ht.
      pose proof (Ht TUsers ltac:(not_in)) as Hs. cbn [same] in Hs. rewrite Hs. unfold Users_Create in H1. repeat case_match; by simplify_eq. }
    assert (tables_ok s') as Hok' by (eapply (user_keeps (cfAudit cf)); [exact Hok|exact H1]).
    pose proof (user_touches _ _ _ _ _ _ _ H1) as Ht. pose proof (Ht TPeers ltac:(not_in)) as Hp. pose proof (Ht TRoutes ltac:(not_in)) as Hr.
    cbn [same] in Hp, Hr. split; [by rewrite Hp|done|]. intros p Hin. unfold owner_names. rewrite Hu. symmetry. apply owner_names_create.
    + rewrite <- Hu. apply Hok'.
    + rewrite Hp in Hin. intros He. destruct (tk_peer_owner s Hok p Hin) as [Ho|Ho%user_exists_iff].
      * apply Hd, hex_empty. change (Sha256.hex rnd) with (uID (Users.new_user name role hash rnd now)). by rewrite <- He.
      * pose proof (tk_user_ids s' Hok') as Hnd. rewrite Hu, fmap_app in Hnd. apply NoDup_app in Hnd as (_ & Hdis & _).
        apply (Hdis (pOwnerID p) Ho). rewrite He. by apply list_elem_of_singleton.
  - apply (Hraise _ 0) in H; [split; [lia|right; apply Hquiet; not_in]|]. apply reload_raises.
Qed.
