(* ===== verification/PolicySafety.v ===== *)
(** The running policy under concurrency: enrolments, reloads and lookups of the
    compiled form interleave statement by statement, and still every lookup
    answers from a policy and a database of its own time. *)

From S2P Require Import Prelude GoStrings NetIP LockRecord Store Effects Tables Enroll Routes Handlers Control ControlSafety NetMap NetMapSafety PolicySvc Changes.
From S2P Require Users Compile Policy Selector Ports.

Lemma generation_nonneg s : tables_ok s → 0 <= gen_of s.
Proof. intros [[_ _ _ _ _ _ _ (g & Hg & Hm)]]. unfold gen_of. by rewrite Hm, cast_itoa. Qed.

(** The text is read back as an [int64]. *)
Lemma generation_read s : tables_ok s → rows_of true Generation s = if gen_of s <? 2 ^ 63 then Some (gen_of s) else None.
Proof.
  intros [[_ _ _ _ _ _ _ (g & Hg & Hm)]]. unfold rows_of, Generation, gen_of. rewrite Hm, cast_itoa by done.
  rewrite atoi_itoa_cases by done. by destruct (g <? 2 ^ 63).
Qed.

Lemma generation_reads ok s :
  tables_ok s → let g := default (-1) (rows_of ok Generation s) in g <= gen_of s ∧ (ok = true → gen_of s < 2 ^ 63 → g = gen_of s).
Proof.
  intros Hok. pose proof (generation_nonneg s Hok). destruct ok; cbn zeta; [|split; [cbn; lia|done]]. rewrite generation_read by done.
  destruct (Z.ltb_spec (gen_of s) (2 ^ 63)); cbn; lia.
Qed.

Section Concurrency.
Context (Verify : PublicKey → list byte → Signature → bool)
  (ParseKey : string → option (list byte)) (KeyString : list byte → string)
  (encode : Signed → string) (decode : string → option Signed) (cf : Config) (hub : string) (ov ov6 : prefix).

(** ** The service and its callers *)

Record System := { syStore : Store; sySvc : PolicyService; syCalls : gmap nat reading }.

(** A transaction of the control plane commits; a policy is published; a call of
    [Compiled] begins; it does its next step ([ok] false: the statement fails). *)
Inductive event := EStore (c : call) | EPublish (p : Policy.Policy) (w : list Policy.reg_warning) | EBegin (t : nat) | EStep (t : nat) (ok : bool).

Inductive step (y : System) : event → System → Prop :=
  | S_store c s' :
      drawn c → transacts Verify ParseKey KeyString encode decode cf hub (syStore y) s' c →
      step y (EStore c) {| syStore := s'; sySvc := sySvc y; syCalls := syCalls y |}
  | S_publish p w : step y (EPublish p w) {| syStore := syStore y; sySvc := publish p w (sySvc y); syCalls := syCalls y |}
  | S_begin t :
      syCalls y !! t = None → step y (EBegin t) {| syStore := syStore y; sySvc := sySvc y; syCalls := <[t := RStart]> (syCalls y) |}
  | S_step t ok r svc r' :
      syCalls y !! t = Some r → compiled_step ov ov6 ok (syStore y) (sySvc y) r = (svc, r') →
      step y (EStep t ok) {| syStore := syStore y; sySvc := svc; syCalls := <[t := r']> (syCalls y) |}.

Inductive steps (y : System) : list event → System → Prop :=
  | Steps_nil : steps y [] y
  | Steps_snoc l y1 e y2 : steps y l y1 → step y1 e y2 → steps y (l ++ [e]) y2.

(** The running policy compiled against the database as it is. *)
Definition running (y : System) : Compile.Compiled := Compile.CompileWith (Current (sySvc y)) (compiler_peers (syStore y)) ov.

(** ** The invariant *)

Definition reading_ok (s : Store) (svc : PolicyService) (r : reading) : Prop :=
  match r with
  | RStart | RDone _ => True
  | RGen g => g <= gen_of s
  | RMiss g cur _ => g <= gen_of s ∧ (cur <= psCurrent svc)%nat
  | RUsers g cur _ us => g <= gen_of s ∧ (cur <= psCurrent svc)%nat ∧ (g = gen_of s → same_owners s us)
  | RPeers g cur _ us ps => g <= gen_of s ∧ (cur <= psCurrent svc)%nat ∧ (g = gen_of s → same_owners s us ∧ same_rows s ps)
  | RRoutes g cur us ps rows =>
      g <= gen_of s ∧ (cur <= psCurrent svc)%nat ∧
      (g = gen_of s → same_owners s us ∧ same_rows s ps ∧ rows = stable_sort route_order (routes s))
  end.

Record sound (y : System) : Prop := {
  so_tables : tables_ok (syStore y);
  so_policies : length (psPolicies (sySvc y)) = S (psCurrent (sySvc y));
  so_cache : ∀ c, psCompiled (sySvc y) = Some c →
    psCacheKey (sySvc y) = Policy.Hash (Current (sySvc y)) ∧ psCacheGen (sySvc y) <= gen_of (syStore y) ∧
    (∃ ps, c = Compile.CompileWith (Current (sySvc y)) ps ov) ∧ (psCacheGen (sySvc y) = gen_of (syStore y) → c = running y);
  so_calls : ∀ t r, syCalls y !! t = Some r → reading_ok (syStore y) (sySvc y) r;
}.

Lemma policy_at_publish p w svc n : (n < length (psPolicies svc))%nat → policy_at n (publish p w svc) = policy_at n svc.
Proof. intros Hn. unfold policy_at, publish. cbn. by rewrite lookup_app_l. Qed.

Lemma publish_current p w svc : Current (publish p w svc) = p.
Proof. unfold Current, policy_at, publish. cbn. by rewrite list_lookup_middle. Qed.

Lemma reading_store s s' svc r :
  gen_of s <= gen_of s' → gen_of s < gen_of s' ∨ quiet s s' → reading_ok s svc r → reading_ok s' svc r.
Proof.
  intros Hle [Hlt|Hq]; destruct r; cbn; try done; intros H.
  - lia.
  - lia.
  - destruct H as (? & ? & _). split_and!; [lia|done|lia].
  - destruct H as (? & ? & _). split_and!; [lia|done|lia].
  - destruct H as (? & ? & _). split_and!; [lia|done|lia].
  - lia.
  - lia.
  - destruct H as (? & ? & H). split_and!; [lia|done|]. intros Hg. eapply quiet_same_owners, H; [done|lia].
  - destruct H as (? & ? & H). split_and!; [lia|done|]. intros Hg. destruct H as [Ho Hr]; [lia|].
    split; [by eapply quiet_same_owners|by eapply quiet_same_rows].
  - destruct H as (? & ? & H). split_and!; [lia|done|]. intros Hg. destruct H as (Ho & Hr & ->); [lia|].
    split_and!; [by eapply quiet_same_owners|by eapply quiet_same_rows|by rewrite (quiet_routes _ _ Hq)].
Qed.

Lemma reading_service s svc svc' r : (psCurrent svc <= psCurrent svc')%nat → reading_ok s svc r → reading_ok s svc' r.
Proof. intros Hle. destruct r; cbn; try done; intros H; destruct_and?; split_and?; try done; lia. Qed.

Lemma cache_put_current cur g c svc : psCurrent (cache_put cur g c svc) = psCurrent svc ∧ psPolicies (cache_put cur g c svc) = psPolicies svc.
Proof. unfold cache_put. by destruct (_ =? _)%nat. Qed.

Lemma cache_put_policy cur g c svc n : policy_at n (cache_put cur g c svc) = policy_at n svc.
Proof. unfold policy_at. by rewrite (proj2 (cache_put_current cur g c svc)). Qed.

(** What a step leaves of a call. *)
Lemma compiled_step_ok ok s svc r svc' r' :
  tables_ok s → reading_ok s svc r → compiled_step ov ov6 ok s svc r = (svc', r') →
  psCurrent svc' = psCurrent svc ∧ psPolicies svc' = psPolicies svc ∧ psWarnings svc' = psWarnings svc ∧ reading_ok s svc' r'.
Proof.
  intros Hok Hr H. pose proof (generation_reads ok s Hok) as [Hg _]. destruct r; cbn [compiled_step] in H.
  - by injection H as <- <-.
  - injection H as <- <-. destruct (cache_hit _ _); cbn; auto.
  - destruct ok; injection H as <- <-; cbn in *; [|done]. destruct Hr. split_and!; try done.
  - destruct ok; injection H as <- <-; cbn in *; [|done]. destruct Hr as (? & ? & Ho). split_and!; try done. intros Hgen. by split; [apply Ho|].
  - destruct ok; injection H as <- <-; cbn in *; [|done]. destruct Hr as (? & ? & Ho). split_and!; try done. intros Hgen. by destruct (Ho Hgen).
  - injection H as <- <-. destruct (cache_put_current cur gen (compile_read ov ov6 cur us ps rows svc) svc) as [-> ->].
    split_and!; try done. unfold cache_put. by destruct (_ =? _)%nat.
  - by injection H as <- <-.
Qed.

(** The cache after a step. *)
Lemma compiled_step_cache ok y r svc' r' :
  sound y → reading_ok (syStore y) (sySvc y) r → compiled_step ov ov6 ok (syStore y) (sySvc y) r = (svc', r') →
  ∀ c, psCompiled svc' = Some c →
    psCacheKey svc' = Policy.Hash (Current (sySvc y)) ∧ psCacheGen svc' <= gen_of (syStore y) ∧
    (∃ ps, c = Compile.CompileWith (Current (sySvc y)) ps ov) ∧ (psCacheGen svc' = gen_of (syStore y) → c = running y).
Proof.
  intros Hy Hr H c Hc. pose proof (so_cache y Hy) as Hcache.
  destruct r; cbn [compiled_step] in H; try (injection H as <- <-; by apply Hcache).
  injection H as <- <-. unfold cache_put in *. destruct (Nat.eqb_spec (psCurrent (sySvc y)) cur) as [<-|Hne]; [|by apply Hcache].
  cbn in Hc |- *. injection Hc as <-. destruct Hr as (? & _ & Hr). split_and!; [done..|by eexists|].
  intros Hg. destruct (Hr Hg) as (Ho & Hs & ->). unfold running, compile_read, registry_of. cbn [fst]. by rewrite (compile_same (syStore y)).
Qed.

Lemma sound_own y t ok r svc r' :
  sound y → syCalls y !! t = Some r → compiled_step ov ov6 ok (syStore y) (sySvc y) r = (svc, r') →
  sound {| syStore := syStore y; sySvc := svc; syCalls := <[t := r']> (syCalls y) |}.
Proof.
  intros Hy Ht H.
  pose proof (compiled_step_cache _ _ _ _ _ Hy (so_calls y Hy t r Ht) H) as Hcache.
  destruct (compiled_step_ok _ _ _ _ _ _ (so_tables y Hy) (so_calls y Hy t r Ht) H) as (Hc & Hp & _ & Hr').
  assert (∀ n, policy_at n svc = policy_at n (sySvc y)) as Hat by (intros n; unfold policy_at; by rewrite Hp).
  split; cbn; [apply Hy|by rewrite Hc, Hp; apply Hy| |].
  + unfold running, Current. cbn. rewrite Hc, Hat. exact Hcache.
  + intros t' r1. rewrite lookup_insert_Some. intros [[<- <-]|[_ Hr]]; [done|].
    eapply reading_service; [|by apply (so_calls y Hy t')]. by rewrite Hc.
Qed.

Lemma sound_step y e y' : sound y → step y e y' → sound y'.
Proof.
  intros Hy H. destruct H as [c s' Hd H|p w|t Ht|t ok r svc r' Ht H].
  - destruct (quiet_or_raised _ _ _ _ _ _ _ _ _ _ (so_tables y Hy) Hd H) as [Hle Hq]. split; cbn.
    + eapply transacts_tables; [exact H|apply Hy].
    + apply Hy.
    + intros c' Hc. destruct (so_cache y Hy c' Hc) as (? & ? & ? & Hrun). split_and!; [done|lia|done|]. intros Hg.
      rewrite Hrun by lia. unfold running. cbn. destruct Hq as [Hlt|Hq]; [lia|]. by rewrite (quiet_compiler_peers _ _ Hq).
    + intros t r Hr. eapply reading_store; [exact Hle|exact Hq|]. by apply (so_calls y Hy t).
  - split; cbn; [apply Hy| |done|].
    + rewrite length_app, (so_policies y Hy). cbn. lia.
    + intros t r Hr. eapply reading_service; [|by apply (so_calls y Hy t)]. cbn. rewrite (so_policies y Hy). lia.
  - split; cbn; [apply Hy..|]. intros t' r. rewrite lookup_insert_Some. intros [[<- <-]|[_ Hr]]; [done|]. by apply (so_calls y Hy t').
  - by eapply sound_own.
Qed.

Lemma sound_steps y l y' : sound y → steps y l y' → sound y'.
Proof. intros Hy. induction 1; [done|]. by eapply sound_step. Qed.

Lemma steps_cons y e l y' : steps y (e :: l) y' → ∃ y1, step y e y1 ∧ steps y1 l y'.
Proof.
  revert y'. induction l as [|e' l IH] using rev_ind; intros y' H.
  - inversion H as [|l0 y1 e0 y2 H0 He Hl]. destruct l0 as [|? []]; try done. injection Hl as ->. inversion H0; [|by destruct l].
    subst. exists y'. split; [done|constructor].
  - inversion H as [|l0 y1 e0 y2 H0 He Hl]. rewrite app_comm_cons in Hl. apply app_inj_tail in Hl as [-> ->]. subst.
    apply IH in H0 as (y3 & ? & ?). exists y3. split; [done|]. by econstructor.
Qed.

(** ** A call nothing interrupts *)

Lemma running_hit y g c : sound y → cache_hit g (sySvc y) = Some c →
  psCompiled (sySvc y) = Some c ∧ psCacheGen (sySvc y) = g.
Proof.
  intros Hy. unfold cache_hit. destruct (psCompiled (sySvc y)) as [c'|]; [|done]. destruct (_ && _) eqn:E; [|done].
  intros [= ->]. apply andb_true_iff in E as [[E _]%andb_true_iff _]. split; [done|lia].
Qed.

Lemma iter_S {A} (f : A → A) n x : Nat.iter (S n) f x = Nat.iter n f (f x).
Proof. apply Nat.iter_succ_r. Qed.

Lemma Compiled_running y : sound y → (Compiled ov ov6 (syStore y) (sySvc y)).2 = running y.
Proof.
  intros Hy. pose proof (so_tables y Hy) as Hok. unfold Compiled. rewrite iter_S.
  set (g := default (-1) (rows_of true Generation (syStore y))).
  change (compiled_steps ov ov6 (syStore y) (sySvc y, RStart)) with (sySvc y, RGen g). rewrite iter_S.
  change (compiled_steps ov ov6 (syStore y) (sySvc y, RGen g)) with
    (sySvc y, match cache_hit g (sySvc y) with Some c => RDone c | None => RMiss g (psCurrent (sySvc y)) (psCompiled (sySvc y)) end).
  destruct (cache_hit g (sySvc y)) as [c|] eqn:E; [|reflexivity].
  cbn. destruct (running_hit _ _ _ Hy E) as [Hc Hg]. apply (so_cache y Hy c Hc). rewrite Hg.
  assert (0 <= g) as Hpos. { unfold cache_hit in E. destruct (psCompiled _); [|done]. destruct (_ && _) eqn:Eb; [|done]. apply andb_true_iff in Eb as [_ ?]. lia. }
  subst g. revert Hpos. rewrite generation_read by done. destruct (_ <? _); [done|]. cbn. lia.
Qed.

Definition System_at (s : Store) (svc : PolicyService) (r : reading) : System := {| syStore := s; sySvc := svc; syCalls := {[0%nat := r]} |}.

Lemma Compiled_sound s svc m : sound {| syStore := s; sySvc := svc; syCalls := m |} →
  sound {| syStore := s; sySvc := (Compiled ov ov6 s svc).1; syCalls := ∅ |} ∧ Current (Compiled ov ov6 s svc).1 = Current svc.
Proof.
  intros Hy. assert (∀ n, let '(svc', r) := Nat.iter n (compiled_steps ov ov6 s) (svc, RStart) in
    sound (System_at s svc' r) ∧ Current svc' = Current svc) as Hiter.
  { induction n as [|n IH]; [|rewrite Nat.iter_succ].
    - split; [|done]. destruct Hy. split; [done..|]. intros t r Ht. cbn in Ht. by apply lookup_singleton_Some in Ht as [<- <-].
    - destruct (Nat.iter n _ _) as [svc' r]. destruct IH as [IH Hcur].
      change (compiled_steps ov ov6 s (svc', r)) with (compiled_step ov ov6 true s svc' r).
      destruct (compiled_step ov ov6 true s svc' r) as [svc2 r2] eqn:E.
      pose proof (lookup_singleton_eq 0%nat r : syCalls (System_at s svc' r) !! 0%nat = Some r) as Hlook.
      pose proof (so_calls _ IH 0%nat r Hlook) as Hr.
      destruct (compiled_step_ok _ _ _ _ _ _ (so_tables _ IH) Hr E) as (Hc & Hp & _ & _). split.
      + pose proof (sound_own _ 0%nat true r svc2 r2 IH Hlook E) as H. cbn in H. by rewrite insert_singleton_eq in H.
      + rewrite <- Hcur. unfold Current, policy_at. by rewrite Hc, Hp. }
  specialize (Hiter 6%nat). unfold Compiled. destruct (Nat.iter 6 _ _) as [svc' r]. destruct Hiter as [[H1 H2 H3 _] Hcur].
  assert (sound {| syStore := s; sySvc := svc'; syCalls := ∅ |}) by (split; done). by destruct r.
Qed.

(** ** One call among the others *)

Section Call.
Context (g0 : Z) (n0 : nat) (t : nat).

(** A call that began at generation [g0] under policy [n0]. *)
Definition mine (y : System) (r : reading) : Prop :=
  match r with
  | RStart => True
  | RGen g => g0 <= g
  | RMiss g cur _ | RUsers g cur _ _ | RPeers g cur _ _ _ | RRoutes g cur _ _ _ => g0 <= g ∧ (n0 <= cur)%nat
  | RDone c =>
      (∃ n ps, (n0 <= n <= psCurrent (sySvc y))%nat ∧ c = Compile.CompileWith (policy_at n (sySvc y)) ps ov) ∧
      (gen_of (syStore y) = g0 → psCurrent (sySvc y) = n0 → c = running y)
  end.

Lemma mine_own y r svc' r' :
  sound y → reading_ok (syStore y) (sySvc y) r → g0 <= gen_of (syStore y) → (n0 <= psCurrent (sySvc y))%nat →
  gen_of (syStore y) < 2 ^ 63 → compiled_step ov ov6 true (syStore y) (sySvc y) r = (svc', r') → mine y r → mine y r'.
Proof.
  intros Hy Hr Hg Hn Hlt H Hm. pose proof (generation_reads true _ (so_tables y Hy)) as [Hle Hgen].
  destruct r; cbn [compiled_step] in H; injection H as <- <-.
  - unfold mine. unfold rows_of in Hgen. by rewrite Hgen.
  - destruct (cache_hit gen (sySvc y)) as [c|] eqn:E; [|by cbn].
    apply running_hit in E as [Hc Hcg]; [|done]. destruct (so_cache y Hy c Hc) as (_ & _ & (ps & Hps) & Hrun). cbn in Hm, Hr |- *. split.
    + exists (psCurrent (sySvc y)), ps. split; [lia|done].
    + intros. apply Hrun. lia.
  - done.
  - done.
  - done.
  - destruct Hm as [Hm1 Hm2], Hr as (Hr1 & Hr2 & Hr3). cbn. split.
    + unfold compile_read. eauto 10.
    + intros Hg0 Hn0. assert (gen = gen_of (syStore y)) as Hgg by lia. assert (cur = psCurrent (sySvc y)) as -> by lia.
      destruct (Hr3 Hgg) as (Ho & Hs & ->). unfold running, compile_read, registry_of. cbn [fst]. by rewrite (compile_same (syStore y)).
  - done.
Qed.

Lemma mine_step y e y' r :
  sound y → step y e y' → e ≠ EStep t false → gen_of (syStore y') < 2 ^ 63 →
  g0 <= gen_of (syStore y) → (n0 <= psCurrent (sySvc y))%nat → syCalls y !! t = Some r → mine y r →
  g0 <= gen_of (syStore y') ∧ (n0 <= psCurrent (sySvc y'))%nat ∧ ∃ r', syCalls y' !! t = Some r' ∧ mine y' r'.
Proof.
  intros Hy H He Hlt Hg Hn Ht Hm. destruct H as [c s' Hd H|p w|t' Ht'|t' ok r1 svc r' Ht' H]; cbn [syStore sySvc syCalls] in *.
  - destruct (quiet_or_raised _ _ _ _ _ _ _ _ _ _ (so_tables y Hy) Hd H) as [Hle Hq]. split_and!; [lia|done|]. exists r. split; [done|].
    destruct r; try done. cbn in Hm |- *. destruct Hm as [Hm1 Hm2]. split; [done|]. intros Hg' Hn'. rewrite Hm2 by lia.
    unfold running. cbn. destruct Hq as [Hq|Hq]; [lia|]. by rewrite (quiet_compiler_peers _ _ Hq).
  - pose proof (so_policies y Hy) as Hlen. split_and!; [done|cbn; rewrite Hlen; lia|]. exists r. split; [done|].
    destruct r; try done. cbn in Hm |- *. rewrite Hlen. destruct Hm as [(n & ps & Hr & ->) Hm2]. split.
    + exists n, ps. split; [lia|]. by rewrite policy_at_publish by lia.
    + intros _ Hbad. lia.
  - split_and!; [done..|]. exists r. rewrite lookup_insert_ne by congruence. done.
  - pose proof (so_calls y Hy t' r1 Ht') as Hr1.
    destruct (compiled_step_ok _ _ _ _ _ _ (so_tables y Hy) Hr1 H) as (Hc & Hp & _ & _).
    assert (∀ r, mine y r → mine {| syStore := syStore y; sySvc := svc; syCalls := <[t' := r']> (syCalls y) |} r) as Hsame.
    { intros r2. destruct r2; try done. unfold mine, running, Current. cbn. rewrite Hc. intros [(n & ps & Hn1 & ->) Hrun].
      unfold policy_at in *. rewrite Hp. split; [eauto|done]. }
    split_and!; [done|by rewrite Hc|]. destruct (decide (t' = t)) as [->|Hne].
    + assert (r1 = r) as -> by congruence. exists r'. rewrite lookup_insert_eq. split; [done|]. apply Hsame.
      destruct ok; [|done]. by eapply mine_own.
    + exists r. rewrite lookup_insert_ne by done. split; [done|by apply Hsame].
Qed.

Lemma step_generation y e y' : sound y → step y e y' → gen_of (syStore y) <= gen_of (syStore y').
Proof.
  intros Hy H. destruct H; try done. by eapply quiet_or_raised; [apply Hy|..].
Qed.

Lemma mine_steps y l y' r :
  sound y → steps y l y' → EStep t false ∉ l → gen_of (syStore y') < 2 ^ 63 →
  g0 <= gen_of (syStore y) → (n0 <= psCurrent (sySvc y))%nat → syCalls y !! t = Some r → mine y r →
  g0 <= gen_of (syStore y') ∧ (n0 <= psCurrent (sySvc y'))%nat ∧ ∃ r', syCalls y' !! t = Some r' ∧ mine y' r'.
Proof.
  intros Hy H. induction H as [|l y1 e y2 Hs IH He]; [eauto|]. intros Hl Hlt Hg Hn Ht Hm. apply not_elem_of_app in Hl as [Hl1 Hl2].
  assert (sound y1) as Hy1 by (by eapply sound_steps). pose proof (step_generation _ _ _ Hy1 He).
  destruct IH as (Hg1 & Hn1 & r1 & Ht1 & Hm1); [done|lia|done..|].
  eapply mine_step; [exact Hy1|exact He| |done..]. intros ->. apply Hl2. by apply list_elem_of_singleton.
Qed.

(** ** Its end *)

Definition rank (r : reading) : nat :=
  match r with RStart => 6 | RGen _ => 5 | RMiss _ _ _ => 4 | RUsers _ _ _ _ => 3 | RPeers _ _ _ _ _ => 2 | RRoutes _ _ _ _ _ => 1 | RDone _ => 0 end.

Definition own (e : event) : Prop := ∃ ok, e = EStep t ok.
#[export] Instance own_dec e : Decision (own e).
Proof.
  destruct e as [| | |t' ok]; try (right; by intros [? ?]). destruct (decide (t' = t)) as [->|]; [left; by exists ok|].
  right. intros [? [= ]]. done.
Defined.

Lemma compiled_step_rank ok s svc r svc' r' : compiled_step ov ov6 ok s svc r = (svc', r') → (rank r' <= rank r - 1)%nat.
Proof.
  destruct r; cbn [compiled_step]; intros [= <- <-]; try (cbn; lia); [destruct (cache_hit _ _)|..]; try (cbn; lia).
  all: destruct ok; cbn; lia.
Qed.

Lemma steps_rank y l y' r :
  steps y l y' → syCalls y !! t = Some r → ∃ r', syCalls y' !! t = Some r' ∧ (rank r' <= rank r - length (filter own l))%nat.
Proof.
  intros H Ht. induction H as [|l y1 e y2 Hs (r1 & Ht1 & Hr1) He]; [exists r; cbn; split; [done|lia]|].
  rewrite filter_app, length_app. destruct He as [c s' Hd H|p w|t' Ht'|t' ok r2 svc r' Ht' H]; cbn [syCalls].
  - exists r1. rewrite filter_cons_False by (by intros [? ?]). cbn. split; [done|lia].
  - exists r1. rewrite filter_cons_False by (by intros [? ?]). cbn. split; [done|lia].
  - exists r1. rewrite filter_cons_False by (by intros [? ?]). rewrite lookup_insert_ne by congruence. cbn. split; [done|lia].
  - destruct (decide (t' = t)) as [->|Hne].
    + exists r'. rewrite lookup_insert_eq, filter_cons_True by (by exists ok). assert (r2 = r1) as -> by congruence.
      apply compiled_step_rank in H. cbn. split; [done|lia].
    + exists r1. rewrite lookup_insert_ne by done. rewrite filter_cons_False by (intros [? [=]]; done). cbn. split; [done|lia].
Qed.
End Call.
End Concurrency.

(** Lookups of the compiled policy are current.  Whatever enrolments, other
    changes, reloads and lookups interleave, statement by statement: a lookup
    takes at most six steps of its own; what it gives is a policy that was the
    running one at some time between its begin and its end, compiled; and if
    neither the policy nor the generation changed since it began, it is that
    policy compiled against the database as it stands at the end, although the
    registry was read in three statements and the result may come from the
    cache.  A lookup nothing interrupts always gives that. *)
Theorem compiled_is_current (Verify : PublicKey → list byte → Signature → bool)
    (ParseKey : string → option (list byte)) (KeyString : list byte → string)
    (encode : Signed → string) (decode : string → option Signed) (cf : Config) (hub : string) (ov ov6 : prefix) (y0 y : System) (l : list event) :
  tables_ok (syStore y0) → sySvc y0 = NewPolicyService → syCalls y0 = ∅ →
  let steps := steps Verify ParseKey KeyString encode decode cf hub ov ov6 in
  steps y0 l y →
  (Compiled ov ov6 (syStore y) (sySvc y)).2 = running ov y ∧
  ∀ t l' y', syCalls y !! t = None → steps y (EBegin t :: l') y' →
    ((6 <= length (filter (own t) l'))%nat → ∃ c, syCalls y' !! t = Some (RDone c)) ∧
    ∀ c, EStep t false ∉ l' → gen_of (syStore y') < 2 ^ 63 → syCalls y' !! t = Some (RDone c) →
      (∃ n ps, (psCurrent (sySvc y) <= n <= psCurrent (sySvc y'))%nat ∧ c = Compile.CompileWith (policy_at n (sySvc y')) ps ov) ∧
      (gen_of (syStore y') = gen_of (syStore y) → psCurrent (sySvc y') = psCurrent (sySvc y) → c = running ov y').
Proof.
  intros Hok Hsvc Hcalls st Hl.
  assert (sound ov y) as Hy.
  { eapply sound_steps; [|exact Hl]. split; rewrite ?Hsvc, ?Hcalls; [done..|]. by intros t r. }
  split; [by apply Compiled_running|]. intros t l' y' Ht Hs. apply steps_cons in Hs as (y1 & Hb & Hs).
  inversion Hb as [| |t' _|]; subst. split.
  - intros Hlen. edestruct steps_rank as (r & Hr & Hrank); [exact Hs|apply lookup_insert_eq|]. cbn [rank] in Hrank.
    destruct r; cbn in Hrank; try lia. eauto.
  - intros c Hno Hlt Hdone.
    edestruct (mine_steps Verify ParseKey KeyString encode decode cf hub ov ov6 (gen_of (syStore y)) (psCurrent (sySvc y)) t) as (_ & _ & r & Hr & Hm);
      [eapply sound_step; [exact Hy|exact Hb]|exact Hs|done..|apply lookup_insert_eq|done|].
    assert (r = RDone c) as -> by congruence. done.
Qed.

(** ** Replacing the policy *)

(** The file holds a policy that the registry has nothing against. *)
Definition acceptable (decode : list byte → option Policy.document) (ov ov6 : prefix) (f : policy_file) (s : Store) (p : Policy.Policy) : Prop :=
  Load decode f = Ok p ∧
  (Policy.Validate p (registry_of ov ov6 (stable_sort user_order (users s)) (stable_sort by_name (peers s)) (stable_sort route_order (routes s))).2).1 = [].

Lemma reload_checks_iff decode ov ov6 f s :
  match reload_checks decode ov ov6 f s with
  | Ok (p, _) => acceptable decode ov ov6 f s p
  | Err r => (∀ p, ¬ acceptable decode ov ov6 f s p) ∧ rpErrors r ≠ []
  end.
Proof.
  unfold reload_checks, acceptable. destruct (Load decode f) as [p|e] eqn:El.
  - unfold validate. change (registry ov ov6 s) with
      (Ok (E := store_error) (s, registry_of ov ov6 (stable_sort user_order (users s)) (stable_sort by_name (peers s)) (stable_sort route_order (routes s)))).
    cbn [snd]. destruct (Policy.Validate p _) as [[|e es] w] eqn:Ev.
    + split; [done|]. by rewrite Ev.
    + split; [|done]. intros p' [[= <-] Hv]. by rewrite Ev in Hv.
  - split; [by intros p [? _]|]. cbn. destruct e as [| |[| |es]]; try done. intros Hes%fmap_nil_inv.
    destruct f as [| |data]; cbn in El; try done. unfold Policy.Parse in El. subst es. by repeat case_match; simplify_eq.
Qed.

(** What a reload does.  It succeeds exactly if the file holds a well-formed
    policy without an error against the users and groups registered.  Otherwise
    it says what is wrong and neither the database nor the running policy
    changes.  When it succeeds, that policy runs, the generation went up by one,
    what the policy is compiled against is untouched, and the report and every
    lookup from then on give the policy compiled against the database. *)
Theorem Reload_correct (decode : list byte → option Policy.document) (ov ov6 : prefix) (on : bool) (by_ : Principal) (path : string)
    (f : policy_file) (anow : Z) (s s' : Store) (svc svc' : PolicyService) (r : PolicyReport) (e : option policy_svc_error) :
  tables_ok s → length (psPolicies svc) = S (psCurrent svc) →
  Reload decode ov ov6 on by_ path f anow s svc = (s', svc', (r, e)) →
  (e = None ↔ ∃ p, acceptable decode ov ov6 f s p) ∧
  (e ≠ None → e = Some ErrPolicyInvalid ∧ s' = s ∧ svc' = svc ∧ rpErrors r ≠ []) ∧
  ∀ p, acceptable decode ov ov6 f s p →
    let c := Compile.CompileWith p (compiler_peers s') ov in
    Current svc' = p ∧ tables_ok s' ∧ gen_of s' = gen_of s + 1 ∧ compiler_peers s' = compiler_peers s ∧
    (Compiled ov ov6 s' svc').2 = c ∧ rpHash r = Policy.Hash p ∧ rpSummary r = Compile.summary c ∧ rpErrors r = [].
Proof.
  intros Hok Hlen H. pose proof (reload_checks_iff decode ov ov6 f s) as Hc. unfold Reload in H.
  destruct (reload_checks decode ov ov6 f s) as [[p w]|r0].
  2: { destruct Hc as [Hno Herr]. injection H as <- <- <- <-. split_and!; [|done|].
       - split; [done|]. intros [p Hp]. by destruct (Hno p).
       - intros p Hp. by destruct (Hno p). }
  assert (∀ p', acceptable decode ov ov6 f s p' → p' = p) as Huniq by (intros p' [Hp' _]; destruct Hc as [Hp _]; congruence).
  unfold reload_tx, InTx in H.
  destruct (IncrementGeneration_some s (tk_store s Hok)) as ([s1 g] & Hi).
  destruct (Increment_tables _ _ _ Hok Hi) as [Hok1 Hg1].
  assert (∀ B (k : Z → tx cerror B), (lift ErrStore IncrementGeneration ≫= k) s = k g s1) as Hbind.
  { intros B k. unfold mbind, tx_bind, lift. by rewrite Hi. }
  rewrite Hbind in H. destruct (Users.audit_total on anow by_ AuditPolicyReload path [("hash", Policy.Hash p);
    ("rules", itoa (Z.of_nat (length (Policy.ACLs p))))] s1 ltac:(done)) as (s2 & Ha & Hsame).
  unfold InTx in Ha. destruct (audit_record _ _ _ _ _ _ s1) as [[s3 []]|x] eqn:Erec; [|done]. injection Ha as ->.
  destruct (Compiled ov ov6 s2 (publish p w svc)) as [svc2 c] eqn:Ec. injection H as <- <- <- <-.
  assert (tables_ok s2) as Hok2 by (eapply audit_record_tables; [exact Hok1|exact Erec]).
  assert (∀ t, t ∉ [TGeneration; TAudit] → same t s s2) as Hs2.
  { intros t Ht. apply (same_trans _ _ s1); [|apply Hsame; set_solver]. apply (touches_Increment _ _ _ Hi). set_solver. }
  assert (sound ov {| syStore := s2; sySvc := publish p w svc; syCalls := ∅ |}) as Hsound.
  { split; cbn; [done| |done|done]. rewrite length_app, Hlen. cbn. lia. }
  destruct (Compiled_sound ov ov6 _ _ _ Hsound) as [Hsound2 Hcur]. rewrite Ec in Hsound2, Hcur. cbn [fst] in Hsound2, Hcur.
  rewrite publish_current in Hcur. pose proof (Compiled_running ov ov6 _ Hsound) as Hrun. cbn [syStore sySvc] in Hrun. rewrite Ec in Hrun.
  cbn in Hrun. unfold running in Hrun. cbn in Hrun. rewrite publish_current in Hrun.
  split_and!; [split; [by exists p|done]|done|].
  intros p' Hp'. apply Huniq in Hp' as ->. split_and!; [done|done| | | |done|by rewrite Hrun|done].
  - rewrite (Hsame TGeneration) by done. exact Hg1.
  - apply quiet_compiler_peers, quiet_refl_tables; apply Hs2; not_in.
  - pose proof (Compiled_running ov ov6 _ Hsound2) as Hc2. cbn [syStore sySvc] in Hc2. rewrite Hc2. unfold running. cbn. by rewrite Hcur.
Qed.

(** ** A lookup, a reload *)

Definition demo_system : System := {| syStore := demo_start; sySvc := NewPolicyService; syCalls := ∅ |}.
Definition demo_rules : Policy.Policy :=
  {| Policy.doc := Policy.EmptyDoc; Policy.Hash := "h"; Policy.Source := [];
     Policy.rules := [{| Policy.psrc := [Selector.SelAny];
                         Policy.pdst := [{| Selector.Host := Selector.SelAny; Selector.Ports := [Ports.AllPorts] |}]; Policy.pproto := Ports.ProtoAny |}] |}.
(** The lookup has missed the cache when a policy is published. *)
Definition demo_events : list event := [EStep 0 true; EStep 0 true; EPublish demo_rules []; EStep 0 true; EStep 0 true; EStep 0 true; EStep 0 true].
Definition demo_steps := steps demo_verify demo_parse demo_key (λ _, "") (λ _, None) demo_config "hub-key" (cfOverlay demo_config) NoPrefix.

Lemma demo_lookup : ∃ y c, demo_steps demo_system (EBegin 0 :: demo_events) y ∧ syCalls y !! 0%nat = Some (RDone c) ∧ gen_of (syStore y) < 2 ^ 63.
Proof.
  eexists _, _. split; [|split].
  - change (EBegin 0 :: demo_events)
      with ((((((((([] ++ [EBegin 0]) ++ [EStep 0 true]) ++ [EStep 0 true]) ++ [EPublish demo_rules []]) ++ [EStep 0 true]) ++ [EStep 0 true])
        ++ [EStep 0 true]) ++ [EStep 0 true])).
    repeat first [eapply Steps_snoc|apply Steps_nil].
    1: by apply S_begin.
    all: first [apply S_publish|eapply S_step; [reflexivity|reflexivity]].
  - reflexivity.
  - vm_compute. reflexivity.
Qed.

Lemma compiled_is_current_witness :
  ∃ y c n ps, demo_steps demo_system (EBegin 0 :: demo_events) y ∧ syCalls y !! 0%nat = Some (RDone c) ∧ (n <= psCurrent (sySvc y))%nat ∧
    c = Compile.CompileWith (policy_at n (sySvc y)) ps (cfOverlay demo_config).
Proof.
  destruct demo_lookup as (y & c & Hs & Hc & Hlt).
  destruct (compiled_is_current demo_verify demo_parse demo_key (λ _, "") (λ _, None) demo_config "hub-key" (cfOverlay demo_config) NoPrefix
    demo_system demo_system []) as [_ H].
  - exact demo_tables.
  - reflexivity.
  - reflexivity.
  - constructor.
  - destruct (H 0%nat demo_events y eq_refl Hs) as [_ H2].
    destruct (H2 c) as [(n & ps & [_ Hn] & Hps) _]; [|exact Hlt|exact Hc|by exists y, c, n, ps].
    unfold demo_events. rewrite !not_elem_of_cons. split_and!; try discriminate. apply not_elem_of_nil.
Defined.

Definition demo_reload : Store * PolicyService * (PolicyReport * option policy_svc_error) :=
  Reload (λ _, Some Policy.EmptyDoc) (cfOverlay demo_config) NoPrefix true demo_admin "policy.yaml" (FileText []) 5 demo_start NewPolicyService.

Lemma Reload_correct_witness :
  match demo_reload with (s', svc', (r, e)) => e = None ∧ gen_of s' = 1 ∧ Policy.Hash (Current svc') = rpHash r end.
Proof.
  assert (acceptable (λ _, Some Policy.EmptyDoc) (cfOverlay demo_config) NoPrefix (FileText []) demo_start
    {| Policy.doc := Policy.EmptyDoc; Policy.Hash := "e3b0c44298fc"; Policy.Source := []; Policy.rules := [] |}) as Ha by (by vm_compute).
  destruct demo_reload as [[s' svc'] [r e]] eqn:E.
  destruct (Reload_correct (λ _, Some Policy.EmptyDoc) (cfOverlay demo_config) NoPrefix true demo_admin "policy.yaml" (FileText []) 5
    demo_start s' NewPolicyService svc' r e demo_tables eq_refl E) as ([_ H1] & _ & H3).
  destruct (H3 _ Ha) as (Hcur & _ & Hg & _ & _ & Hh & _). split_and!; [by apply H1; eexists|exact Hg|by rewrite Hcur, Hh].
Defined.
