(* ===== verification/Wire.v ===== *)
(** Network maps on the wire: the messages of [api/proto/thawr/v1] that carry
    one and [internal/api/convert.go], which fills them.

    The encoding of a message is gRPC's and is left out: a message is received
    as it was sent.  The getters of a missing message give zero values. *)

From S2P Require Import Prelude GoStrings NetIP LockRecord LockService.
From S2P Require Compile Endpoints NetMap.

(** ** Messages *)

Module Proto.

Record Endpoint := { eAddr : string; eKind : Z }.
Record PeerSignature := { gSignerKey : string; gSignature : string }.
Record LockSigner := { kKey : string; kPeerId : string }.
Record LockRecord := { lGeneration : Z; lDisabled : bool; lSigners : list LockSigner }.
Record SignedLockRecord := { sRecord : option LockRecord; sSignature : string }.
Record AdvertisedRoute := { aPrefix : string; aApproved : bool }.

Record NetPeer := {
  nId : string; nName : string; nKind : string; nPublicKey : string; nIpv4 : string; nOnline : bool; nEndpoints : list Endpoint;
  nSymmetric : bool; nKeepalive : bool; nAllowedIps : list string; nOwner : string; nViaHub : bool; nSignatures : list PeerSignature;
  nExitNode : bool; nIpv6 : string; nWanted : bool; nWantSeq : Z;
}.

Record HubPeer := { hPublicKey : string; hEndpoint : string; hAllowedIps : list string; hSignatures : list PeerSignature }.

Record SelfInfo := {
  iId : string; iName : string; iIpv4 : string; iOverlayCidr : string; iStunAddrs : list string; iKind : string;
  iSignatures : list PeerSignature; iAdvertised : list AdvertisedRoute; iIpv6 : string; iOverlayIpv6 : string;
}.

Record FilterRule := { fSrcIpv4 : string; fProto : string; fPortLo : Z; fPortHi : Z; fSrcIpv6 : string }.
Record ForwardRule := { wSrcIpv4 : string; wDstCidr : string; wProto : string; wPortLo : Z; wPortHi : Z; wSrcIpv6 : string }.

Record NetMap := {
  mGeneration : Z; mSelf : option SelfInfo; mPeers : list NetPeer; mHub : option HubPeer; mFilter : list FilterRule;
  mKeepalive : bool; mServerVersion : string; mLock : option SignedLockRecord; mForward : list ForwardRule;
}.

(** [GetSelf], [GetHub]: what a missing message reads as. *)
Definition NoSelf : SelfInfo :=
  {| iId := ""; iName := ""; iIpv4 := ""; iOverlayCidr := ""; iStunAddrs := []; iKind := ""; iSignatures := []; iAdvertised := [];
     iIpv6 := ""; iOverlayIpv6 := "" |}.
Definition NoHub : HubPeer := {| hPublicKey := ""; hEndpoint := ""; hAllowedIps := []; hSignatures := [] |}.
Definition GetSelf (m : NetMap) : SelfInfo := default NoSelf (mSelf m).
Definition GetHub (m : NetMap) : HubPeer := default NoHub (mHub m).

End Proto.

(** ** The server's side *)

Definition kindToProto (k : Z) : Z :=
  if k =? Endpoints.EndpointLocal then 1
  else if k =? Endpoints.EndpointReflexive then 2
  else if k =? Endpoints.EndpointStable then 3
  else 0.

Definition kindFromProto (k : Z) : Z :=
  if k =? 1 then Endpoints.EndpointLocal
  else if k =? 2 then Endpoints.EndpointReflexive
  else if k =? 3 then Endpoints.EndpointStable
  else 0.

Definition endpointsToProto (eps : list Endpoints.Endpoint) : list Proto.Endpoint :=
  (λ e, {| Proto.eAddr := addrport_string (Endpoints.Addr e); Proto.eKind := kindToProto (Endpoints.Kind e) |}) <$> eps.

Definition signaturesToProto (sigs : list NetSignature) : list Proto.PeerSignature :=
  (λ s, {| Proto.gSignerKey := KeyText (nsSigner s); Proto.gSignature := SignatureText (nsSignature s) |}) <$> sigs.

Definition lockToProto (s : option Signed) : option Proto.SignedLockRecord :=
  match s with
  | None => None
  | Some s =>
      Some {| Proto.sRecord := Some {| Proto.lGeneration := Generation (record s); Proto.lDisabled := Disabled (record s);
                Proto.lSigners := (λ sg, {| Proto.kKey := KeyText (sKey sg); Proto.kPeerId := sPeerID sg |}) <$> Signers (record s) |};
              Proto.sSignature := SignatureText (signature s) |}
  end.

(** The address in the field of its family. *)
Definition src_v4 (a : addr) : string := if Is4 a then addr_string a else "".
Definition src_v6 (a : addr) : string := if Is4 a then "" else addr_string a.

Definition peer_to_proto (p : NetMap.NetPeer) : Proto.NetPeer :=
  {| Proto.nId := NetMap.npID p; Proto.nName := NetMap.npName p; Proto.nKind := NetMap.npKind p; Proto.nPublicKey := NetMap.npPublicKey p;
     Proto.nIpv4 := addr_string (NetMap.npIPv4 p); Proto.nOnline := NetMap.npOnline p; Proto.nEndpoints := endpointsToProto (NetMap.npEndpoints p);
     Proto.nSymmetric := NetMap.npSymmetric p; Proto.nKeepalive := NetMap.npKeepalive p; Proto.nAllowedIps := prefix_string <$> NetMap.npAllowedIPs p;
     Proto.nOwner := NetMap.npOwner p; Proto.nViaHub := NetMap.npViaHub p; Proto.nSignatures := signaturesToProto (NetMap.npSignatures p);
     Proto.nExitNode := NetMap.npExitNode p; Proto.nIpv6 := if IsValid (NetMap.npIPv6 p) then addr_string (NetMap.npIPv6 p) else "";
     Proto.nWanted := NetMap.npWanted p; Proto.nWantSeq := NetMap.npWantSeq p |}.

Definition filter_to_proto (f : Compile.FilterRule) : Proto.FilterRule :=
  {| Proto.fSrcIpv4 := src_v4 (Compile.frSrc f); Proto.fProto := Compile.frProto f; Proto.fPortLo := Compile.frLo f;
     Proto.fPortHi := Compile.frHi f; Proto.fSrcIpv6 := src_v6 (Compile.frSrc f) |}.

Definition forward_to_proto (f : Compile.ForwardRule) : Proto.ForwardRule :=
  {| Proto.wSrcIpv4 := src_v4 (Compile.fwSrc f); Proto.wDstCidr := prefix_string (Compile.fwDst f); Proto.wProto := Compile.fwProto f;
     Proto.wPortLo := Compile.fwLo f; Proto.wPortHi := Compile.fwHi f; Proto.wSrcIpv6 := src_v6 (Compile.fwSrc f) |}.

Definition netMapToProto (nm : NetMap.NetMap) : Proto.NetMap :=
  let v6 := IsValid (NetMap.nmSelfIPv6 nm) in
  {| Proto.mGeneration := NetMap.nmGeneration nm;
     Proto.mSelf := Some {|
       Proto.iId := NetMap.nmSelfID nm; Proto.iName := NetMap.nmSelfName nm; Proto.iIpv4 := addr_string (NetMap.nmSelfIPv4 nm);
       Proto.iOverlayCidr := prefix_string (NetMap.nmOverlay nm); Proto.iStunAddrs := NetMap.nmSTUN nm; Proto.iKind := NetMap.nmSelfKind nm;
       Proto.iSignatures := signaturesToProto (NetMap.nmSelfSignatures nm);
       Proto.iAdvertised := (λ a, {| Proto.aPrefix := prefix_string (NetMap.arPrefix a); Proto.aApproved := NetMap.arApproved a |})
                              <$> NetMap.nmSelfAdvertised nm;
       Proto.iIpv6 := if v6 then addr_string (NetMap.nmSelfIPv6 nm) else "";
       Proto.iOverlayIpv6 := if v6 then prefix_string (NetMap.nmOverlay6 nm) else "" |};
     Proto.mPeers := peer_to_proto <$> NetMap.nmPeers nm;
     Proto.mHub := Some {|
       Proto.hPublicKey := NetMap.hpPublicKey (NetMap.nmHub nm); Proto.hEndpoint := NetMap.hpEndpoint (NetMap.nmHub nm);
       Proto.hAllowedIps := prefix_string <$> NetMap.hpAllowedIPs (NetMap.nmHub nm);
       Proto.hSignatures := signaturesToProto (NetMap.hpSignatures (NetMap.nmHub nm)) |};
     Proto.mFilter := filter_to_proto <$> NetMap.nmFilter nm;
     Proto.mKeepalive := false; Proto.mServerVersion := "";
     Proto.mLock := lockToProto (NetMap.nmLock nm);
     Proto.mForward := forward_to_proto <$> NetMap.nmForward nm |}.

Definition lockFromProto (i : option Proto.SignedLockRecord) : option Signed :=
  match i ≫= (λ m, pair (Proto.sSignature m) <$> Proto.sRecord m) with
  | None => None
  | Some (sg, r) =>
      if (MaxSigners <? length (Proto.lSigners r))%nat then None
      else
        signers ← mapM (λ s, (λ k, {| sKey := k; sPeerID := Proto.kPeerId s |}) <$> ParsePublicKey (Proto.kKey s)) (Proto.lSigners r);
        sig ← ParseSignature sg;
        Some {| record := {| Generation := Proto.lGeneration r; Disabled := Proto.lDisabled r; Signers := signers |}; signature := sig |}
  end.

(** [endpointsFromProto]; the error is a validation error. *)
Definition endpointsFromProto (eps : list Proto.Endpoint) : option (list Endpoints.Endpoint) :=
  if (Endpoints.MaxEndpoints <? length eps)%nat then None
  else mapM (λ e, Endpoints.ParseEndpoint (Proto.eAddr e) (kindFromProto (Proto.eKind e))) eps.
