(* ===== verification/ClientMap.v ===== *)
(** The device's side of a network map: [internal/client/netmap.go] and
    [resolve.go], with the configuration of [internal/wg/device.go].

    WireGuard's key parser and the name resolver are parameters.  The cached
    copy on disk is the state of [Device]. *)

From Stdlib Require Import Ascii.
From S2P Require Import Prelude GoStrings NetIP LockRecord Wire.
From S2P Require Endpoints Filter.

(** ** The device's map *)

Definition PeerKeepalive : Z := 25 * second.

Record FilterRule := { frSrc : string; frProto : string; frPortLo : Z; frPortHi : Z }.
Record ForwardRule := { fwSrc : string; fwDst : string; fwProto : string; fwPortLo : Z; fwPortHi : Z }.
Record AdvertisedRoute := { avPrefix : string; avApproved : bool }.
Record Endpoint := { epAddr : string; epKind : string }.
Record PeerSignature := { psSigner : string; psSignature : string }.

Record Peer := {
  pID : string; pName : string; pKind : string; pOwner : string; pPublicKey : string; pIPv4 : string; pIPv6 : string; pOnline : bool;
  pEndpoints : list Endpoint; pSymmetric : bool; pKeepalive : bool; pAllowedIPs : list string; pViaHub : bool;
  pSignatures : list PeerSignature; pExitNode : bool; pWanted : bool; pWantSeq : Z;
}.

Record HubPeer := { hPublicKey : string; hEndpoint : string; hAllowedIPs : list string; hSignatures : list PeerSignature }.
Definition NoHub : HubPeer := {| hPublicKey := ""; hEndpoint := ""; hAllowedIPs := []; hSignatures := [] |}.

(** A nil slice is the empty one: the code tells them apart only for
    [Advertised], which is nil exactly if it is empty. *)
Record NetMap := {
  mGeneration : Z; mSelfID : string; mSelfName : string; mSelfKind : string; mSelfIPv4 : string; mOverlay : string; mSelfIPv6 : string;
  mOverlay6 : string; mPeers : list Peer; mHub : HubPeer; mReceivedAt : Z; mServerVersion : string; mSTUN : list string;
  mFilter : list FilterRule; mSelfSignatures : list PeerSignature; mLock : option Signed; mForward : list ForwardRule;
  mAdvertised : list AdvertisedRoute;
}.

(** [nm.Peers], [nm.Hub = ...] on a copy. *)
Definition with_peers (l : list Peer) (nm : NetMap) : NetMap :=
  {| mGeneration := mGeneration nm; mSelfID := mSelfID nm; mSelfName := mSelfName nm; mSelfKind := mSelfKind nm; mSelfIPv4 := mSelfIPv4 nm;
     mOverlay := mOverlay nm; mSelfIPv6 := mSelfIPv6 nm; mOverlay6 := mOverlay6 nm; mPeers := l; mHub := mHub nm;
     mReceivedAt := mReceivedAt nm; mServerVersion := mServerVersion nm; mSTUN := mSTUN nm; mFilter := mFilter nm;
     mSelfSignatures := mSelfSignatures nm; mLock := mLock nm; mForward := mForward nm; mAdvertised := mAdvertised nm |}.

Definition with_hub (h : HubPeer) (nm : NetMap) : NetMap :=
  {| mGeneration := mGeneration nm; mSelfID := mSelfID nm; mSelfName := mSelfName nm; mSelfKind := mSelfKind nm; mSelfIPv4 := mSelfIPv4 nm;
     mOverlay := mOverlay nm; mSelfIPv6 := mSelfIPv6 nm; mOverlay6 := mOverlay6 nm; mPeers := mPeers nm; mHub := h;
     mReceivedAt := mReceivedAt nm; mServerVersion := mServerVersion nm; mSTUN := mSTUN nm; mFilter := mFilter nm;
     mSelfSignatures := mSelfSignatures nm; mLock := mLock nm; mForward := mForward nm; mAdvertised := mAdvertised nm |}.

(** ** Endpoint kinds *)

Definition KindLocal : string := "local".
Definition KindReflexive : string := "reflexive".
Definition KindStable : string := "stable".

(** [kindFromProto] of the client. *)
Definition kind_name (k : Z) : string :=
  if k =? 1 then KindLocal else if k =? 2 then KindReflexive else if k =? 3 then KindStable else "".

Definition kindFromName (s : string) : Z :=
  if bool_decide (s = KindLocal) then Endpoints.EndpointLocal
  else if bool_decide (s = KindReflexive) then Endpoints.EndpointReflexive
  else if bool_decide (s = KindStable) then Endpoints.EndpointStable
  else 0.

Definition Candidates (p : Peer) : list Endpoints.Endpoint :=
  omap (λ e, (λ ap, {| Endpoints.Addr := ap; Endpoints.Kind := kindFromName (epKind e) |}) <$> ParseAddrPort (epAddr e)) (pEndpoints p).

(** ** From the wire *)

Definition srcOf (v4 v6 : string) : string := if bool_decide (v4 = "") then v6 else v4.

Definition signaturesFromProto (l : list Proto.PeerSignature) : list PeerSignature :=
  (λ s, {| psSigner := Proto.gSignerKey s; psSignature := Proto.gSignature s |}) <$> l.

(** [lockFromProto] of the client: no bound on the signers, and a malformed
    record reads as none. *)
Definition offered_lock (i : option Proto.SignedLockRecord) : option Signed :=
  m ← i; r ← Proto.sRecord m;
  signers ← mapM (λ s, (λ k, {| sKey := k; sPeerID := Proto.kPeerId s |}) <$> ParsePublicKey (Proto.kKey s)) (Proto.lSigners r);
  sig ← ParseSignature (Proto.sSignature m);
  Some {| record := {| Generation := Proto.lGeneration r; Disabled := Proto.lDisabled r; Signers := signers |}; signature := sig |}.

Definition filter_from_proto (f : Proto.FilterRule) : option FilterRule :=
  if (65535 <? Proto.fPortLo f) || (65535 <? Proto.fPortHi f) then None
  else Some {| frSrc := srcOf (Proto.fSrcIpv4 f) (Proto.fSrcIpv6 f); frProto := Proto.fProto f; frPortLo := Proto.fPortLo f;
               frPortHi := Proto.fPortHi f |}.

Definition forward_from_proto (f : Proto.ForwardRule) : option ForwardRule :=
  if (65535 <? Proto.wPortLo f) || (65535 <? Proto.wPortHi f) then None
  else Some {| fwSrc := srcOf (Proto.wSrcIpv4 f) (Proto.wSrcIpv6 f); fwDst := Proto.wDstCidr f; fwProto := Proto.wProto f;
               fwPortLo := Proto.wPortLo f; fwPortHi := Proto.wPortHi f |}.

Definition peer_from_proto (p : Proto.NetPeer) : Peer :=
  {| pID := Proto.nId p; pName := Proto.nName p; pKind := Proto.nKind p; pOwner := Proto.nOwner p; pPublicKey := Proto.nPublicKey p;
     pIPv4 := Proto.nIpv4 p; pIPv6 := Proto.nIpv6 p; pOnline := Proto.nOnline p;
     pEndpoints := (λ e, {| epAddr := Proto.eAddr e; epKind := kind_name (Proto.eKind e) |}) <$> Proto.nEndpoints p;
     pSymmetric := Proto.nSymmetric p; pKeepalive := Proto.nKeepalive p; pAllowedIPs := Proto.nAllowedIps p; pViaHub := Proto.nViaHub p;
     pSignatures := signaturesFromProto (Proto.nSignatures p); pExitNode := Proto.nExitNode p; pWanted := Proto.nWanted p;
     pWantSeq := Proto.nWantSeq p |}.

Definition NetMapFromProto (m : Proto.NetMap) (now : Z) : NetMap :=
  let self := Proto.GetSelf m in
  let hub := Proto.GetHub m in
  {| mGeneration := Proto.mGeneration m; mSelfID := Proto.iId self; mSelfName := Proto.iName self; mSelfKind := Proto.iKind self;
     mSelfIPv4 := Proto.iIpv4 self; mOverlay := Proto.iOverlayCidr self; mSelfIPv6 := Proto.iIpv6 self; mOverlay6 := Proto.iOverlayIpv6 self;
     mPeers := peer_from_proto <$> Proto.mPeers m;
     mHub := {| hPublicKey := Proto.hPublicKey hub; hEndpoint := Proto.hEndpoint hub; hAllowedIPs := Proto.hAllowedIps hub;
                hSignatures := signaturesFromProto (Proto.hSignatures hub) |};
     mReceivedAt := now; mServerVersion := Proto.mServerVersion m; mSTUN := Proto.iStunAddrs self;
     mFilter := omap filter_from_proto (Proto.mFilter m); mSelfSignatures := signaturesFromProto (Proto.iSignatures self);
     mLock := offered_lock (Proto.mLock m); mForward := omap forward_from_proto (Proto.mForward m);
     mAdvertised := (λ a, {| avPrefix := Proto.aPrefix a; avApproved := Proto.aApproved a |}) <$> Proto.iAdvertised self |}.

(** [selfIPv6]. *)
Definition selfIPv6 (nm : NetMap) : option (addr * prefix) :=
  self ← ParseAddr (mSelfIPv6 nm);
  if negb (Is6 self) || Is4In6 self then None
  else
    ov ← ParsePrefix (mOverlay6 nm);
    if negb (Contains ov self) then None else Some (self, Masked ov).

Definition parsePrefixes (l : list string) : option (list prefix) := mapM ParsePrefix l.

(** ** The WireGuard configuration *)

Definition ExitRoute : prefix := Prefix (Addr4 0) 0.
Definition ExitRoute6 : prefix := Prefix (Addr6 0 "") 0.
Definition IsExitRoute (p : prefix) : bool := bool_decide (p = ExitRoute) || bool_decide (p = ExitRoute6).
Definition DefaultFwMark : Z := 0x7a77.

Record WgPeer := { wPublicKey : list byte; wEndpoint : addrport; wAllowedIPs : list prefix; wKeepalive : Z }.
Record WgConfig := { cPrivateKey : list byte; cListenPort : Z; cAddresses : list prefix; cPeers : list WgPeer; cFwMark : Z }.

(** [net.SplitHostPort]. *)
Definition SplitHostPort (s : string) : option (string * string) :=
  let l := chars s in
  '(h, port) ← cut_last ":" l;
  match l with
  | c :: l' =>
      if decide (c = "["%char) then
        '(host, rest) ← cut "]" l';
        match rest with
        | d :: after =>
            if decide (d = ":"%char) then
              if bool_decide (":"%char ∈ after) || bool_decide ("["%char ∈ host ++ after) || bool_decide ("]"%char ∈ after) then None
              else Some (of_chars host, of_chars after)
            else None
        | [] => None
        end
      else if bool_decide (":"%char ∈ h) || bool_decide ("["%char ∈ l) || bool_decide ("]"%char ∈ l) then None
      else Some (of_chars h, of_chars port)
  | [] => None
  end.

Inductive config_error := ErrSelfAddress | ErrHubKey | ErrHubAllowed | ErrPeerKey | ErrPeerAllowed.

Section Configuration.
Context (ParseKey : string → option (list byte)) (LookupNetIP : string → string → option (list addr)).

Definition resolveEndpoint (hostport : string) : option addrport :=
  match ParseAddrPort hostport with
  | Some ap => Some ap
  | None =>
      '(host, portStr) ← SplitHostPort hostport;
      port ← parse_uint 16 (chars portStr);
      addrs ← match LookupNetIP "ip4" host with
              | Some (a :: l) => Some (a :: l)
              | _ => LookupNetIP "ip" host
              end;
      a ← head addrs; Some (AddrPort (Unmap a) port)
  end.

Definition hub_config (h : HubPeer) : result config_error WgPeer :=
  key ← of_option ErrHubKey (ParseKey (hPublicKey h));
  allowed ← of_option ErrHubAllowed (parsePrefixes (hAllowedIPs h));
  Ok {| wPublicKey := key; wEndpoint := default NoAddrPort (resolveEndpoint (hEndpoint h)); wAllowedIPs := allowed;
        wKeepalive := PeerKeepalive |}.

(** Whether the peer is the exit node in use. *)
Definition is_exit (exitNodeID : string) (p : Peer) : bool :=
  bool_decide (exitNodeID ≠ "") && pExitNode p && bool_decide (pID p = exitNodeID).

Definition peer_config (v6 : bool) (exitNodeID : string) (p : Peer) : result config_error WgPeer :=
  pub ← of_option ErrPeerKey (ParseKey (pPublicKey p));
  allowed ← of_option ErrPeerAllowed (parsePrefixes (pAllowedIPs p));
  let allowed := match ParseAddr (pIPv4 p), allowed with Some ip, [] => [PrefixFrom ip 32] | _, _ => allowed end in
  let allowed :=
    if is_exit exitNodeID p
    then allowed ++ [ExitRoute] ++ (if v6 && bool_decide (pIPv6 p ≠ "") then [ExitRoute6] else [])
    else allowed in
  Ok {| wPublicKey := pub; wEndpoint := NoAddrPort; wAllowedIPs := allowed; wKeepalive := if pKeepalive p then PeerKeepalive else 0 |}.

(** The loop over the peers; those behind the hub get no peer of their own. *)
Fixpoint peer_configs (v6 : bool) (exitNodeID : string) (l : list Peer) : result config_error (list WgPeer) :=
  match l with
  | [] => Ok []
  | p :: l =>
      if pViaHub p then peer_configs v6 exitNodeID l
      else c ← peer_config v6 exitNodeID p; cs ← peer_configs v6 exitNodeID l; Ok (c :: cs)
  end.

Definition BuildConfigWith (nm : NetMap) (key : list byte) (listenPort : Z) (overlay : prefix) (exitNodeID : string) : result config_error WgConfig :=
  selfIP ← of_option ErrSelfAddress (ParseAddr (mSelfIPv4 nm));
  let s6 := selfIPv6 nm in
  hub ← (if bool_decide (hPublicKey (mHub nm) ≠ "") then h ← hub_config (mHub nm); Ok [h] else Ok []);
  peers ← peer_configs (bool_decide (is_Some s6)) exitNodeID (mPeers nm);
  Ok {| cPrivateKey := key; cListenPort := listenPort;
        cAddresses := PrefixFrom selfIP (pbits overlay) :: match s6 with Some (a, ov) => [PrefixFrom a (pbits ov)] | None => [] end;
        cPeers := hub ++ peers;
        cFwMark := if existsb (λ p, negb (pViaHub p) && is_exit exitNodeID p) (mPeers nm) then DefaultFwMark else 0 |}.

Definition BuildConfig (nm : NetMap) (key : list byte) (listenPort : Z) (overlay : prefix) : result config_error WgConfig :=
  BuildConfigWith nm key listenPort overlay "".
End Configuration.

(** A peer's own address inside an overlay. *)
Definition own_address (overlays : list prefix) (a : prefix) : bool :=
  (pbits a =? BitLen (paddr a)) && existsb (λ o, Contains o (paddr a)) overlays.

Definition RoutesOf (cfg : WgConfig) (overlays : list prefix) : list prefix :=
  filter (λ a, own_address overlays a = false) (concat (wAllowedIPs <$> cPeers cfg)).

Definition Overlays (nm : NetMap) (overlay : prefix) : list prefix :=
  overlay :: match selfIPv6 nm with Some (_, ov6) => [ov6] | None => [] end.

(** ** The filter *)

(** What this device offers to carry. *)
Definition serves (advertised : list prefix) (v6 : bool) (dst : prefix) : bool :=
  if IsExitRoute dst then bool_decide (ExitRoute ∈ advertised) && (bool_decide (dst = ExitRoute) || v6)
  else existsb (λ adv, negb (IsExitRoute adv) && (pbits adv <=? pbits dst) && Contains adv (paddr dst)) advertised.

Definition host_prefix (a : addr) : prefix := PrefixFrom a (BitLen a).

Definition forward_rule (advertised : list prefix) (v6 : bool) (f : ForwardRule) : option Filter.ForwardRule :=
  src ← ParseAddr (fwSrc f);
  dst ← ParsePrefix (fwDst f);
  if negb (serves advertised v6 dst) then None
  else Some {| Filter.wSrc := host_prefix src; Filter.wDst := dst; Filter.wProto := fwProto f; Filter.wLo := fwPortLo f; Filter.wHi := fwPortHi f |}.

Definition filter_rule (f : FilterRule) : option Filter.FilterRule :=
  src ← ParseAddr (frSrc f);
  Some {| Filter.fSrc := host_prefix src; Filter.fDst := AddrNone; Filter.fProto := frProto f; Filter.fLo := frPortLo f; Filter.fHi := frPortHi f |}.

(** The addresses handed to [visible], in order. *)
Definition shown (nm : NetMap) : list addr :=
  concat ((λ p, omap ParseAddr [pIPv4 p; pIPv6 p]) <$> mPeers nm) ++
  omap (λ a, p ← ParsePrefix a; if pbits p =? BitLen (paddr p) then Some (paddr p) else None) (hAllowedIPs (mHub nm)).

(** Each address once, where it first appears. *)
Definition add_visible (l : list addr) (a : addr) : list addr := if bool_decide (a ∈ l) then l else l ++ [a].

Definition FilterSetFor (nm : NetMap) (iface : string) (self : addr) (overlay : prefix) (advertised : list prefix) : Filter.FilterSet :=
  let s6 := selfIPv6 nm in
  let v6 := bool_decide (is_Some s6) in
  let exit := bool_decide (ExitRoute ∈ advertised) in
  {| Filter.Interface := iface; Filter.Hook := Filter.HookInput; Filter.sLocal := self;
     Filter.sLocal6 := match s6 with Some (a, _) => a | None => AddrNone end;
     Filter.sVisible := foldl add_visible [] (shown nm);
     Filter.sRules := omap filter_rule (mFilter nm);
     Filter.sForward := omap (forward_rule advertised v6) (mForward nm);
     Filter.Masquerade := advertised ++ (if exit && v6 then [ExitRoute6] else []);
     Filter.MasqueradeFrom := if bool_decide (advertised = []) then NoPrefix else overlay;
     Filter.MasqueradeFrom6 := match s6 with Some (_, ov6) => if exit then ov6 else NoPrefix | None => NoPrefix end;
     Filter.routerOnly := false |}.

Definition FilterSetOf (nm : NetMap) (iface : string) (self : addr) : Filter.FilterSet := FilterSetFor nm iface self NoPrefix [].
