(* ===== verification/Config.v ===== *)
(** The server's configuration: [internal/config].

    The YAML decoder, [mail.ParseAddress] and [url.Parse] are parameters; the
    regular expressions are written out as matchers. *)

From Stdlib Require Import Strings.Ascii.
From S2P Require Import Prelude GoStrings NetIP.
From S2P Require ClientMap.

Import ClientMap(SplitHostPort).

(** ** The fields *)

Record Listen := { HTTPS : string; STUN : list string; WireGuard : string }.
Record Overlay := { CIDR : string; Interface : string; IPv6 : string }.
Record TLS := { Mode : string; CertFile : string; KeyFile : string; Email : string; Domain : string; ACMEDirectory : string }.
Record Log := { Level : string; LFormat : string }.
Record DNS := { Enabled : bool; Upstream : list string }.

(** [Relay], [Audit] and [Metrics] have one field each. *)
Record Config := {
  PublicAddr : string; DataDir : string; listen : Listen; overlay : Overlay; tls : TLS; PolicyFile : string; AdminSocket : string; log : Log;
  MinClientVersion : string; MaxBytesPerSecond : Z; dns : DNS; RetentionDays : Z; MetricsListen : string;
}.

Definition TLSModeSelfSigned : string := "self-signed".
Definition TLSModeFile : string := "file".
Definition TLSModeACME : string := "acme".
Definition ACMEMinClientVersion : string := "0.2".
Definition DefaultAuditRetentionDays : Z := 90.
Definition MaxAuditRetentionDays : Z := 106751.
Definition DefaultDataDir : string := "/var/lib/thawr".
Definition DefaultInterface (darwin : bool) : string := if darwin then "utun" else "thawr0".

Definition Default (darwin : bool) : Config :=
  {| PublicAddr := ""; DataDir := DefaultDataDir; listen := {| HTTPS := ":443"; STUN := [":3478"; ":3479"]; WireGuard := ":51820" |};
     overlay := {| CIDR := "100.64.0.0/10"; Interface := DefaultInterface darwin; IPv6 := "" |};
     tls := {| Mode := TLSModeSelfSigned; CertFile := ""; KeyFile := ""; Email := ""; Domain := ""; ACMEDirectory := "" |};
     PolicyFile := "/etc/thawr/policy.yaml"; AdminSocket := DefaultDataDir +:+ "/admin.sock"; log := {| Level := "info"; LFormat := "text" |};
     MinClientVersion := ""; MaxBytesPerSecond := 0; dns := {| Enabled := true; Upstream := [] |}; RetentionDays := DefaultAuditRetentionDays;
     MetricsListen := "" |}.

(** ** What is read off them *)

(** [net.JoinHostPort]. *)
Definition JoinHostPort (host port : string) : string :=
  if bool_decide (":"%char ∈ chars host) then "[" +:+ host +:+ "]:" +:+ port else host +:+ ":" +:+ port.

Definition PublicHost (c : Config) : string :=
  match SplitHostPort (PublicAddr c) with Some (host, _) => host | None => PublicAddr c end.

Definition ACMEDomain (c : Config) : string := if bool_decide (Domain (tls c) ≠ "") then Domain (tls c) else PublicHost c.

(** [None] is a panic. *)
Definition OverlayPrefix (c : Config) : option prefix := Masked <$> ParsePrefix (CIDR (overlay c)).
Definition OverlayPrefix6 (c : Config) : option (option prefix) :=
  if bool_decide (IPv6 (overlay c) = "") then Some None else (λ p, Some (Masked p)) <$> ParsePrefix (IPv6 (overlay c)).
Definition HubAddr (c : Config) : option prefix := p ← OverlayPrefix c; Some (PrefixFrom (Next (paddr p)) (pbits p)).

Definition STUNEndpoints (c : Config) : list string := omap (λ a, '(_, port) ← SplitHostPort a; Some (JoinHostPort (PublicHost c) port)) (STUN (listen c)).

Inductive upstream_error := NotIPOrIPPort | PortZero.
Definition parseUpstream (s : string) : result upstream_error addrport :=
  match ParseAddr s with
  | Some a => Ok (AddrPort a 53)
  | None =>
      match ParseAddrPort s with
      | None => Err NotIPOrIPPort
      | Some ap => if apport ap =? 0 then Err PortZero else Ok ap
      end
  end.
Definition DNSUpstreams (c : Config) : option (list addrport) :=
  mapM (λ u, match parseUpstream u with Ok ap => Some ap | Err _ => None end) (Upstream (dns c)).

Definition HubEndpoint (c : Config) : string :=
  JoinHostPort (PublicHost c) (match SplitHostPort (WireGuard (listen c)) with Some (_, port) => port | None => "51820" end).

(** ** The checks *)

(** [^\d+\.\d+$]. *)
Definition versionRe (s : string) : bool :=
  match split "." (chars s) with
  | [a; b] => bool_decide (a ≠ []) && forallb is_digit a && bool_decide (b ≠ []) && forallb is_digit b
  | _ => false
  end.

Definition majorMinor (v : string) : option (Z * Z) :=
  '(maj, minor) ← cut "." (chars v); a ← atoi maj; b ← atoi minor; Some (a, b).

(** The constant it is called with has both numbers. *)
Definition versionBelow (v minimum : string) : bool :=
  match majorMinor v with
  | None => true
  | Some (vMaj, vMin) => let '(mMaj, mMin) := default (0, 0) (majorMinor minimum) in (vMaj <? mMaj) || ((vMaj =? mMaj) && (vMin <? mMin))
  end.

(** The characters of [dnsNameRe]: letters in either case, which with [(?i)]
    have U+017F and U+212A among them; [None] for any other. *)
Inductive dns_char := Letter | Digit | Hyphen | Dot.
#[export] Instance dns_char_eq_dec : EqDecision dns_char.
Proof. solve_decision. Defined.
Fixpoint dns_chars (l : bytes) : option (list dns_char) :=
  match l with
  | [] => Some []
  | c :: l1 =>
      if is_lower c || is_upper c then cons Letter <$> dns_chars l1
      else if is_digit c then cons Digit <$> dns_chars l1
      else if decide (c = "-"%char) then cons Hyphen <$> dns_chars l1
      else if decide (c = "."%char) then cons Dot <$> dns_chars l1
      else
        match l1 with
        | d :: l2 =>
            if decide (code c = 197 ∧ code d = 191) then cons Letter <$> dns_chars l2
            else match l2 with
                 | e :: l3 => if decide (code c = 226 ∧ code d = 132 ∧ code e = 170) then cons Letter <$> dns_chars l3 else None
                 | [] => None
                 end
        | [] => None
        end
  end.

Fixpoint dns_labels (l : list dns_char) : list (list dns_char) :=
  match l with
  | [] => [[]]
  | c :: l => match dns_labels l with
              | w :: ws => if decide (c = Dot) then [] :: w :: ws else (c :: w) :: ws
              | [] => []
              end
  end.
Definition alnum (c : dns_char) : bool := match c with Letter | Digit => true | _ => false end.
Definition label_ok (first : dns_char → bool) (w : list dns_char) : bool :=
  match w, last w with
  | a :: _, Some z => first a && alnum z && (length w <=? 63)%nat
  | _, _ => false
  end.
Definition dnsNameRe (s : string) : bool :=
  match dns_labels <$> dns_chars (chars s) with
  | Some ws =>
      match last ws with
      | Some z => (2 <=? length ws)%nat && forallb (label_ok alnum) (take (length ws - 1) ws) && label_ok (λ c, bool_decide (c = Letter)) z
      | None => false
      end
  | None => false
  end.

Inductive problem :=
  | PublicAddrRequired | PublicAddrNoHost | PublicAddrPort | DataDirRequired | NotHostPort (key : string) | BadPort (key : string)
  | NoSTUN | ManySTUN | BadCIDR | CIDRNot4 | CIDRSmall | BadIPv6 | IPv6NotULA | IPv6Not64 | NegativeRelay | NegativeAudit | LongAudit
  | BadInterface | NoCertFile | NoKeyFile | NoEmail | BadEmail | BadDomain | InvalidDomain | BadDirectory | BadMode | AdminSocketRequired
  | BadLevel | BadFormat | BadVersion | BadUpstream (i : nat).

Definition ulaRange : prefix := Prefix (Addr6 (253 * 2 ^ 120) "") 8.

Definition checkListen (key addr : string) : list problem :=
  match SplitHostPort addr with
  | None => [NotHostPort key]
  | Some (_, port) => match parse_uint 16 (chars port) with None => [BadPort key] | Some _ => [] end
  end.

Definition checkPublicAddr (c : Config) : list problem :=
  if bool_decide (PublicAddr c = "") then [PublicAddrRequired]
  else if bool_decide (PublicHost c = "") then [PublicAddrNoHost]
  else match SplitHostPort (PublicAddr c) with
       | Some (_, port) => match parse_uint 16 (chars port) with None => [PublicAddrPort] | Some _ => [] end
       | None => []
       end.

Definition checkSTUN (l : list string) : list problem :=
  (if (length l =? 0)%nat then [NoSTUN] else if (2 <? length l)%nat then [ManySTUN] else []) ++
  concat (imap (λ i a, checkListen ("listen.stun[" +:+ itoa (Z.of_nat i) +:+ "]") a) l).

Definition checkOverlay (v : Overlay) : list problem :=
  match ParsePrefix (CIDR v) with
  | None => [BadCIDR]
  | Some p => if negb (Is4 (paddr p)) then [CIDRNot4] else if 30 <? pbits p then [CIDRSmall] else []
  end ++
  (if bool_decide (IPv6 v = "") then []
   else match ParsePrefix (IPv6 v) with
        | None => [BadIPv6]
        | Some p => if negb (Contains ulaRange (paddr p)) || Is4In6 (paddr p) then [IPv6NotULA] else if negb (pbits p =? 64) then [IPv6Not64] else []
        end).

Definition checkAudit (days : Z) : list problem := if days <? 0 then [NegativeAudit] else if MaxAuditRetentionDays <? days then [LongAudit] else [].

Definition checkInterface (s : string) : list problem :=
  if bool_decide (s = "") || (15 <? length (chars s))%nat || bool_decide (" "%char ∈ chars s) || bool_decide ("/"%char ∈ chars s) then [BadInterface] else [].

Section Checks.
Context (ParseAddress : string → option (string * string))   (** name, address *)
  (ParseURL : string → option (string * string))             (** scheme, host *)
  (Decode : list byte → Config → option Config).             (** onto the defaults; the empty document leaves them *)

Definition checkACME (c : Config) : list problem :=
  let t := tls c in
  (if bool_decide (Email t = "") then [NoEmail]
   else match ParseAddress (Email t) with
        | Some (name, address) => if bool_decide (name = "") && bool_decide (address = Email t) then [] else [BadEmail]
        | None => [BadEmail]
        end) ++
  (if negb (dnsNameRe (ACMEDomain c)) then [BadDomain]
   else if has_suffix (chars ".invalid") (to_lower (trim_suffix (chars ".") (chars (ACMEDomain c)))) then [InvalidDomain] else []) ++
  (if bool_decide (ACMEDirectory t = "") then []
   else match ParseURL (ACMEDirectory t) with
        | Some (scheme, host) => if bool_decide (scheme = "https") && bool_decide (host ≠ "") then [] else [BadDirectory]
        | None => [BadDirectory]
        end).

Definition checkTLS (c : Config) : list problem :=
  if bool_decide (Mode (tls c) = TLSModeSelfSigned) then []
  else if bool_decide (Mode (tls c) = TLSModeFile) then
    (if bool_decide (CertFile (tls c) = "") then [NoCertFile] else []) ++ (if bool_decide (KeyFile (tls c) = "") then [NoKeyFile] else [])
  else if bool_decide (Mode (tls c) = TLSModeACME) then checkACME c
  else [BadMode].

Definition checkUpstreams (l : list string) : list problem :=
  concat (imap (λ i u, match parseUpstream u with Ok _ => [] | Err _ => [BadUpstream i] end) l).

(** [Validate]: every problem, in the order of the code. *)
Definition Validate (c : Config) : list problem :=
  checkPublicAddr c ++
  (if bool_decide (DataDir c = "") then [DataDirRequired] else []) ++
  checkListen "listen.https" (HTTPS (listen c)) ++ checkListen "listen.wireguard" (WireGuard (listen c)) ++ checkSTUN (STUN (listen c)) ++
  (if bool_decide (MetricsListen c = "") then [] else checkListen "metrics.listen" (MetricsListen c)) ++
  checkOverlay (overlay c) ++
  (if MaxBytesPerSecond c <? 0 then [NegativeRelay] else []) ++ checkAudit (RetentionDays c) ++ checkInterface (Interface (overlay c)) ++
  checkTLS c ++
  (if bool_decide (AdminSocket c = "") then [AdminSocketRequired] else []) ++
  (if bool_decide (to_lower (chars (Level (log c))) ∈ [chars "debug"; chars "info"; chars "warn"; chars "error"]) then [] else [BadLevel]) ++
  (if bool_decide (LFormat (log c) ∈ ["text"; "json"]) then [] else [BadFormat]) ++
  (if bool_decide (MinClientVersion c = "") || versionRe (MinClientVersion c) then [] else [BadVersion]) ++
  checkUpstreams (Upstream (dns c)).

Inductive warning := OldClients | NotPort443.
Definition Warnings (c : Config) : list warning :=
  (if bool_decide (Mode (tls c) = TLSModeACME) && versionBelow (MinClientVersion c) ACMEMinClientVersion then [OldClients] else []) ++
  match SplitHostPort (HTTPS (listen c)) with
  | Some (_, port) => if bool_decide (Mode (tls c) = TLSModeACME) && bool_decide (port ≠ "443") then [NotPort443] else []
  | None => []
  end.

(** [Parse]; [join] is [filepath.Join] with the data directory. *)
Definition with_socket (s : string) (c : Config) : Config :=
  {| PublicAddr := PublicAddr c; DataDir := DataDir c; listen := listen c; overlay := overlay c; tls := tls c; PolicyFile := PolicyFile c; AdminSocket := s;
     log := log c; MinClientVersion := MinClientVersion c; MaxBytesPerSecond := MaxBytesPerSecond c; dns := dns c; RetentionDays := RetentionDays c;
     MetricsListen := MetricsListen c |}.
Definition with_level (s : string) (c : Config) : Config :=
  {| PublicAddr := PublicAddr c; DataDir := DataDir c; listen := listen c; overlay := overlay c; tls := tls c; PolicyFile := PolicyFile c;
     AdminSocket := AdminSocket c; log := {| Level := s; LFormat := LFormat (log c) |}; MinClientVersion := MinClientVersion c;
     MaxBytesPerSecond := MaxBytesPerSecond c; dns := dns c; RetentionDays := RetentionDays c; MetricsListen := MetricsListen c |}.

Inductive parse_error := ErrYAML | ErrInvalid (l : list problem).
Definition Parse (darwin : bool) (join : string → string → string) (data : list byte) (level : string) : result parse_error Config :=
  match Decode data (with_socket "" (Default darwin)) with
  | None => Err ErrYAML
  | Some c =>
      let c := if bool_decide (level = "") then c else with_level level c in
      let c := if bool_decide (AdminSocket c = "") then with_socket (join (DataDir c) "admin.sock") c else c in
      match Validate c with [] => Ok c | l => Err (ErrInvalid l) end
  end.
End Checks.

Example dns_names : map dnsNameRe ["vpn.example.com"; "example"; "10.0.0.1"; "a-.com"; "-a.com"; "A.B-c.Org"; "a..b"; "a.b."; "x.y1"] =
  [true; false; false; false; false; true; false; false; true].
Proof. reflexivity. Qed.
Example default_valid : Validate (λ _, None) (λ _, None) (Default false) = [PublicAddrRequired].
Proof. by vm_compute. Qed.

(** ** The host's resolvers *)

(** [bufio.Scanner]'s lines: without the end of line, up to one too long for
    the buffer. *)
Fixpoint scan_lines (l cur : bytes) : list bytes :=
  let token := match reverse cur with
               | [] => [] | w => if decide (last w = Some (ascii_of_nat 13)) then take (length w - 1) w else w
               end in
  match l with
  | [] => if bool_decide (cur = []) || (65535 <? length cur)%nat then [] else [token]
  | c :: l => if decide (c = ascii_of_nat 10) then (if (65535 <? length cur)%nat then [] else token :: scan_lines l [])
              else scan_lines l (c :: cur)
  end.

(** [strings.Fields]; [n] is the length of the text at most. *)
Fixpoint fields (n : nat) (l cur : bytes) : list bytes :=
  let emit := if decide (cur = []) then [] else [reverse cur] in
  match n, l with
  | S n, c :: l1 => match strip_one spaces l with Some l2 => emit ++ fields n l2 [] | None => fields n l1 (c :: cur) end
  | _, _ => emit
  end.

Definition before_any (stop : list ascii) : bytes → bytes :=
  fix go l := match l with [] => [] | c :: l => if decide (c ∈ stop) then [] else c :: go l end.

Definition nameserver (line : bytes) : option addrport :=
  let line := before_any ["#"%char; ";"%char] line in
  match fields (length line) line [] with
  | f :: a :: _ =>
      if decide (f = chars "nameserver") then
        x ← parse_addr (match cut "%" a with Some (h, _) => h | None => a end); Some (AddrPort x 53)
      else None
  | _ => None
  end.
Definition ParseResolvConf (data : bytes) : list addrport := omap nameserver (scan_lines data []).

(** [file] is what is read of [/etc/resolv.conf], if it can be opened. *)
Definition SystemUpstreams (windows : bool) (file : option bytes) : list addrport :=
  if windows then [] else match file with Some data => ParseResolvConf data | None => [] end.

(** What [startDNS] gives the resolver. *)
Definition resolvers (windows : bool) (file : option bytes) (c : Config) : option (list addrport) :=
  (λ ups, match ups with [] => SystemUpstreams windows file | _ => ups end) <$> DNSUpstreams c.

Example resolv_conf :
  ParseResolvConf (chars "# x" ++ [ascii_of_nat 10] ++ chars "nameserver 127.0.0.53;y" ++ [ascii_of_nat 13; ascii_of_nat 10; ascii_of_nat 10] ++
    chars "nameserver	fe80::1%eth0 z" ++ [ascii_of_nat 10] ++ chars "search a") =
  [AddrPort (Addr4 (127 * 2 ^ 24 + 53)) 53; AddrPort (Addr6 (0xfe80 * 2 ^ 112 + 1) "") 53].
Proof. by vm_compute. Qed.

(** ** Lemmas *)

(** A host without brackets is joined with a port so that both come apart again. *)
Lemma SplitHostPort_Join host port : "["%char ∉ chars host → "]"%char ∉ chars host → is_Some (parse_uint 16 (chars port)) →
  SplitHostPort (JoinHostPort host port) = Some (host, port).
Proof.
  intros Ho Hc [n Hn]. assert (Forall (λ c, is_digit c = true) (chars port)) as Hd.
  { unfold parse_uint, parse_dec in Hn. destruct (chars port) as [|c l] eqn:E; [by constructor|]. destruct (parse_dec_go 0 (c :: l)) eqn:E2; [|done]. by eapply parse_dec_go_digits. }
  assert (":"%char ∉ chars port ∧ "["%char ∉ chars port ∧ "]"%char ∉ chars port) as (H1 & H2 & H3) by (split_and!; by apply digit_not_in).
  unfold JoinHostPort, SplitHostPort. case_bool_decide as Hcolon.
  - rewrite !chars_app. change (chars "[") with ["["%char]. change (chars "]:") with ["]"%char; ":"%char]. cbn [app].
    assert (cut_last ":" ("["%char :: chars host ++ "]"%char :: ":"%char :: chars port) = Some ("["%char :: chars host ++ ["]"%char], chars port)) as ->.
    { rewrite <- (cut_last_app ":" ("["%char :: chars host ++ ["]"%char]) (chars port)) by done. f_equal. cbn [app]. by rewrite <- app_assoc. }
    cbn [mbind option_bind]. rewrite decide_True by done. rewrite cut_app by done. cbn [mbind option_bind].
    rewrite decide_True by done. rewrite !bool_decide_false; [by rewrite !of_chars_chars|done|by rewrite elem_of_app; intros [?|?]|done].
  - rewrite !chars_app. change (chars ":") with [":"%char]. cbn [app]. rewrite cut_last_app by done. cbn [mbind option_bind].
    destruct (chars host ++ ":"%char :: chars port) as [|c l] eqn:E; [by destruct (chars host)|]. rewrite decide_False.
    + rewrite <- E. rewrite !bool_decide_false; [by rewrite !of_chars_chars| | |done]; rewrite elem_of_app, elem_of_cons; naive_solver.
    + intros ->. destruct (chars host) as [|d m]; [done|]. injection E as -> _. apply Ho. by left.
Qed.

Lemma ParsePrefix_v4_range s a n : ParsePrefix s = Some (Prefix (Addr4 a) n) → 0 <= a < 2 ^ 32 ∧ 0 <= n <= 32.
Proof.
  intros H. pose proof (ParsePrefix_valid _ _ H) as (x & m & E & Hx & Hm). unfold ParsePrefix, parse_prefix in H.
  destruct (cut_last _ _) as [[h b]|]; cbn [mbind option_bind] in H; [|done]. destruct (parse_addr h) as [y|] eqn:Ey; cbn [mbind option_bind] in H; [|done].
  destruct (Is6 y && hasZone y); [done|]. destruct (_ && _); [done|]. destruct (atoi b) as [k|]; cbn [mbind option_bind] in H; [|done]. destruct (_ || _); [done|]. injection H as Ha Hk.
  destruct y as [|y|y z]; cbn in Ha; try done. injection Ha as ->. split.
  - apply (ParseAddr_v4_range (of_chars h)). unfold ParseAddr. by rewrite chars_of_chars.
  - injection E as Ea ->. destruct x; cbn in *; try done.
Qed.

(** *** What a validated field gives *)

Lemma checkListen_ok key a : checkListen key a = [] → ∃ host port, SplitHostPort a = Some (host, port) ∧ is_Some (parse_uint 16 (chars port)).
Proof. unfold checkListen. destruct (SplitHostPort a) as [[h p]|]; [|done]. destruct (parse_uint 16 (chars p)) eqn:E; [|done]. intros _. exists h, p. by rewrite E. Qed.

Lemma checkSTUN_ok l : checkSTUN l = [] → (1 <= length l <= 2)%nat ∧ Forall (λ a, ∃ host port, SplitHostPort a = Some (host, port) ∧ is_Some (parse_uint 16 (chars port))) l.
Proof.
  intros [Hl Hi]%app_eq_nil. split.
  - destruct (Nat.eqb_spec (length l) 0); [done|]. destruct (Nat.ltb_spec 2 (length l)); [done|]. lia.
  - apply Forall_lookup. intros i a Ha. by eapply checkListen_ok, (proj1 (concat_imap_nil _ _) Hi i).
Qed.

Lemma hub_address b n : 0 <= b < 2 ^ 32 → 0 <= n <= 30 →
  let base := mask_top 32 n b in
  Contains (Prefix (Addr4 base) n) (Addr4 (base + 1)) = true ∧ 0 <= base ∧ base + 2 < base + 2 ^ (32 - n) - 1 ∧ base + 2 ^ (32 - n) <= 2 ^ 32.
Proof.
  intros Hb Hn. unfold mask_top. cbn. set (k := 2 ^ (32 - n)). assert (4 <= k) as Hk.
  { change 4 with (2 ^ 2). apply Z.pow_le_mono_r; lia. }
  set (q := b `div` k). pose proof (Z.div_mod b k ltac:(lia)) as Hq. fold q in Hq. pose proof (Z.mod_pos_bound b k ltac:(lia)).
  assert (2 ^ 32 = 2 ^ n * k) as H32 by (unfold k; rewrite <- Z.pow_add_r by lia; f_equal; lia). assert (0 <= q) by (apply Z.div_pos; lia). assert (q < 2 ^ n) by nia.
  split_and!; [|nia|lia|nia]. unfold Contains, PIsValid. cbn [pbits paddr hasZone].
  rewrite (proj2 (Z.leb_le 0 n)) by lia. cbn [negb orb]. fold k. apply Z.eqb_eq.
  rewrite Z.div_mul by lia. apply Z.div_unique with (r := 1); lia.
Qed.

Lemma checkOverlay_ok c : checkOverlay (overlay c) = [] →
  (∃ base n, OverlayPrefix c = Some (Prefix (Addr4 base) n) ∧ prefix_wf (Prefix (Addr4 base) n) ∧ 0 <= n <= 30 ∧ mask_top 32 n base = base ∧
     HubAddr c = Some (Prefix (Addr4 (base + 1)) n) ∧ Contains (Prefix (Addr4 base) n) (Addr4 (base + 1)) = true ∧
     base + 2 < base + 2 ^ (32 - n) - 1 ∧ base + 2 ^ (32 - n) <= 2 ^ 32) ∧
  (OverlayPrefix6 c = Some None ∨ ∃ a, OverlayPrefix6 c = Some (Some (Prefix (Addr6 a "") 64)) ∧ a `div` 2 ^ 120 = 253 ∧ a `mod` 2 ^ 64 = 0).
Proof.
  unfold checkOverlay, OverlayPrefix6, HubAddr, OverlayPrefix. intros [H4 H6]%app_eq_nil. split.
  - destruct (ParsePrefix (CIDR (overlay c))) as [[x n]|] eqn:E; [|done]. cbn in H4. destruct (negb (Is4 x)) eqn:E4; [done|]. destruct (Z.ltb_spec 30 n); [done|].
    destruct x as [|b|]; try done. apply ParsePrefix_v4_range in E as [Hb Hn]. destruct (hub_address b n Hb ltac:(lia)) as (Hc & Hb0 & Hb1 & Hb2).
    exists (mask_top 32 n b), n. cbn [fmap option_fmap option_map mbind option_bind]. rewrite Masked_valid by lia. cbn [addr_mask paddr pbits Next]. split; [done|].
    assert (mask_top 32 n (mask_top 32 n b) = mask_top 32 n b) as Hm by (unfold mask_top; by rewrite Z.div_mul by (apply Z.pow_nonzero; lia)).
    pose proof (Z.pow_pos_nonneg 2 (32 - n) ltac:(lia) ltac:(lia)). split; [|split; [lia|split; [done|split; [|done]]]].
    { split; [cbn in *; lia|]. split; [done|]. right. split; [done|]. cbn. lia. }
    rewrite (proj2 (Z.eqb_neq (mask_top 32 n b + 1) (2 ^ 32))) by lia. rewrite PrefixFrom_valid by (cbn; done || lia). done.
  - destruct (bool_decide (IPv6 (overlay c) = "")) eqn:E0; [by left|]. right. destruct (ParsePrefix (IPv6 (overlay c))) as [[x n]|] eqn:E; [|done]. cbn [paddr pbits] in H6.
    destruct (negb (Contains ulaRange x)) eqn:Eu; [done|]. cbn [orb] in H6. destruct (Is4In6 x); [done|]. destruct (Z.eqb_spec n 64) as [->|]; [|done].
    apply negb_false_iff in Eu. destruct x as [|b|b z]; try (by unfold Contains in Eu; cbn in Eu; try destruct (hasZone _)).
    unfold Contains in Eu. cbn [PIsValid pbits ulaRange paddr] in Eu. destruct (hasZone (Addr6 b z)); [by destruct (negb _) in Eu|]. cbn in Eu. apply Z.eqb_eq in Eu.
    exists (mask_top 128 64 b). cbn [fmap option_fmap option_map]. rewrite Masked_valid by done. split; [done|]. unfold mask_top. change (128 - 64) with 64. split.
    + change (2 ^ 120) with (2 ^ 64 * 2 ^ 56). rewrite <- Z.div_div by done. rewrite Z.div_mul by done. rewrite Z.div_div by done.
      change (2 ^ 64 * 2 ^ 56) with (2 ^ (128 - 8)). by rewrite <- Eu.
    + by apply Z.mod_mul.
Qed.

(** *** Upstreams *)

Lemma parseUpstream_ok s ap : parseUpstream s = Ok ap → IsValid (apaddr ap) = true ∧ 0 < apport ap < 65536.
Proof.
  unfold parseUpstream. destruct (ParseAddr s) as [a|] eqn:Ea; [intros [= <-]; split; [by eapply parse_addr_valid|done]|].
  destruct (ParseAddrPort s) as [x|] eqn:E; [|done]. destruct (Z.eqb_spec (apport x) 0); [done|]. intros [= <-].
  unfold ParseAddrPort in E. destruct (cut_last _ _) as [[[|c h] [|d q]]|]; cbn -[parse_uint parse_addr] in E; try done.
  destruct (if bool_decide _ then _ else _) as [h'|]; cbn -[parse_uint parse_addr] in E; [|done].
  destruct (parse_uint 16 (d :: q)) as [k|] eqn:Ek; cbn -[parse_addr] in E; [|done]. apply parse_uint_range in Ek.
  destruct (parse_addr h') as [ip|] eqn:Ei; cbn in E; [|done].
  destruct (_ && _); [done|]. destruct (_ && _); [done|]. injection E as <-. split; [by eapply parse_addr_valid|]. cbn in *. lia.
Qed.

Lemma checkUpstreams_ok c : checkUpstreams (Upstream (dns c)) = [] →
  ∃ ups, DNSUpstreams c = Some ups ∧ length ups = length (Upstream (dns c)) ∧ Forall (λ u, IsValid (apaddr u) = true ∧ 0 < apport u < 65536) ups.
Proof.
  intros H. assert (Forall (λ u, ∃ ap, parseUpstream u = Ok ap) (Upstream (dns c))) as Hf.
  { apply Forall_lookup. intros i u Hu. pose proof (proj1 (concat_imap_nil _ _) H i u Hu) as Hi. cbn in Hi. destruct (parseUpstream u) as [ap|]; [by exists ap|done]. }
  clear H. unfold DNSUpstreams. induction Hf as [|u l (ap & E) _ (ups & Em & Hlen & Hf)]; [by exists []|].
  exists (ap :: ups). cbn [mapM]. rewrite E, Em. split; [done|]. cbn. split; [by rewrite Hlen|]. constructor; [by eapply parseUpstream_ok|done].
Qed.

Lemma ParseResolvConf_ok data : Forall (λ u, IsValid (apaddr u) = true ∧ 0 < apport u < 65536) (ParseResolvConf data).
Proof.
  apply Forall_forall. intros u (line & _ & Hu)%list_elem_of_omap. unfold nameserver in Hu.
  destruct (fields _ _ _) as [|f [|a l]]; [done..|]. case_decide; [|done]. destruct (parse_addr _) eqn:E; [|done].
  injection Hu as <-. split; [by eapply parse_addr_valid|done].
Qed.

Lemma resolvers_ok windows file c : checkUpstreams (Upstream (dns c)) = [] →
  ∃ ups, resolvers windows file c = Some ups ∧ (Upstream (dns c) ≠ [] → length ups = length (Upstream (dns c))) ∧
    Forall (λ u, IsValid (apaddr u) = true ∧ 0 < apport u < 65536) ups.
Proof.
  intros (ups & E & Hlen & Hf)%checkUpstreams_ok. unfold resolvers. rewrite E. cbn. destruct ups as [|u ups]; [|by exists (u :: ups)].
  eexists. split; [done|]. split; [by destruct (Upstream (dns c))|]. unfold SystemUpstreams. destruct windows; [constructor|]. destruct file; [apply ParseResolvConf_ok|constructor].
Qed.

(** *** What is advertised *)

Lemma checkSTUN_endpoints c : checkSTUN (STUN (listen c)) = [] → "["%char ∉ chars (PublicHost c) → "]"%char ∉ chars (PublicHost c) →
  (1 <= length (STUN (listen c)) <= 2)%nat ∧
  Forall2 (λ a e, ∃ host port, SplitHostPort a = Some (host, port) ∧ SplitHostPort e = Some (PublicHost c, port)) (STUN (listen c)) (STUNEndpoints c).
Proof.
  intros [Hl Hf]%checkSTUN_ok Ho Hc. split; [done|]. unfold STUNEndpoints. clear Hl. induction Hf as [|a l (h & p & E & Hp) _ IH]; [constructor|].
  cbn [omap list_omap]. rewrite E. cbn [mbind option_bind]. constructor; [|exact IH]. exists h, p. split; [done|]. by apply SplitHostPort_Join.
Qed.

Lemma HubEndpoint_ok c : checkListen "listen.wireguard" (WireGuard (listen c)) = [] → "["%char ∉ chars (PublicHost c) → "]"%char ∉ chars (PublicHost c) →
  ∃ host port, SplitHostPort (WireGuard (listen c)) = Some (host, port) ∧ SplitHostPort (HubEndpoint c) = Some (PublicHost c, port).
Proof.
  intros (h & p & E & Hp)%checkListen_ok Ho Hc. exists h, p. split; [done|]. unfold HubEndpoint. rewrite E. by apply SplitHostPort_Join.
Qed.

(** *** A name that is no address *)

Lemma addr_family_in l c : addr_family l = Some c → c ∈ l ∧ (c = "."%char ∨ c = ":"%char ∨ c = "%"%char).
Proof.
  induction l as [|d l IH]; cbn; [done|]. case_decide as Hd; [intros [= ->]; split; [by left|done]|]. intros [? ?]%IH. split; [by right|done].
Qed.

Lemma dns_chars_no_mark l ws c : dns_chars l = Some ws → c ∈ l → c ≠ ":"%char ∧ c ≠ "%"%char.
Proof.
  revert ws. induction l as [l IH] using (induction_ltof1 _ length). unfold ltof in IH. intros ws H Hc. destruct l as [|x l]; [by apply elem_of_nil in Hc|].
  assert (∀ k, (∃ ws', dns_chars k = Some ws') → (length k < length (x :: l))%nat → c ∈ k → c ≠ ":"%char ∧ c ≠ "%"%char) as Hk by (intros k [ws' ?] ? ?; by eapply IH).
  cbn [dns_chars] in H.
  assert (∀ (a : dns_char) k, cons a <$> dns_chars k = Some ws → ∃ ws', dns_chars k = Some ws') as Hf by (intros a k; destruct (dns_chars k); [eauto|done]).
  apply elem_of_cons in Hc as [->|Hc].
  - split; intros ->; cbn in H; (destruct l as [|d [|e l]]; [done| |]; cbn in H; repeat case_decide; by destruct_and?).
  - destruct (is_lower x || is_upper x); [apply (Hk l); [by eapply Hf|cbn; lia|done]|]. destruct (is_digit x); [apply (Hk l); [by eapply Hf|cbn; lia|done]|].
    do 2 (case_decide; [apply (Hk l); [by eapply Hf|cbn; lia|done]|]). destruct l as [|d l]; [done|]. case_decide as Hd.
    + apply elem_of_cons in Hc as [->|Hc]; [split; intros ->; by destruct Hd|]. apply (Hk l); [by eapply Hf|cbn; lia|done].
    + destruct l as [|e l]; [done|]. case_decide as He; [|done]. apply elem_of_cons in Hc as [->|Hc]; [split; intros ->; by destruct_and?|].
      apply elem_of_cons in Hc as [->|Hc]; [split; intros ->; by destruct_and?|]. apply (Hk l); [by eapply Hf|cbn; lia|done].
Qed.

Definition plain (c : ascii) : Prop := is_digit c = true ∨ c = "."%char.
Lemma split_plain l : Forall (Forall (λ c, is_digit c = true)) (split "." l) → Forall plain l.
Proof.
  induction l as [|c l IH]; cbn; [constructor|]. case_decide as Hc.
  - intros [_ H]%Forall_cons. constructor; [by right|by apply IH].
  - destruct (split "." l) as [|w ws]; [intros [[Hd _]%Forall_cons _]%Forall_cons|intros [[Hd Hw]%Forall_cons Hws]%Forall_cons].
    + constructor; [by left|]. by apply IH.
    + constructor; [by left|]. apply IH. by constructor.
Qed.

Lemma parse_v4_plain l a : parse_v4 l = Some a → Forall plain l.
Proof.
  intros H. apply split_plain. unfold parse_v4 in H.
  assert (∀ f n, parse_v4_field f = Some n → Forall (λ c, is_digit c = true) f) as Hf.
  { intros f n Hn. assert (∃ m, parse_dec f = Some m) as [m Hm].
    { unfold parse_v4_field in Hn. destruct f as [|x [|y f]]; [done| |case_decide; [done|]]; (destruct (parse_dec _); [by eexists|done]). }
    unfold parse_dec in Hm. destruct f as [|x f]; [done|]. by eapply parse_dec_go_digits. }
  destruct (split "." l) as [|f0 [|f1 [|f2 [|f3 [|]]]]]; try done.
  destruct (parse_v4_field f0) eqn:E0; [|done]. cbn [mbind option_bind] in H. destruct (parse_v4_field f1) eqn:E1; [|done]. cbn [mbind option_bind] in H.
  destruct (parse_v4_field f2) eqn:E2; [|done]. cbn [mbind option_bind] in H. destruct (parse_v4_field f3) eqn:E3; [|done].
  repeat (constructor; [by eapply Hf|]). constructor.
Qed.

Lemma dns_chars_plain l ws : Forall plain l → dns_chars l = Some ws → Letter ∉ ws.
Proof.
  intros Hl. revert ws. induction Hl as [|c l Hc _ IH]; intros ws; cbn; [by intros [= <-] ?%elem_of_nil|].
  destruct Hc as [Hc| ->]; cbn.
  - assert (is_lower c || is_upper c = false) as -> by (unfold is_lower, is_upper, is_digit, in_range in *; go_bool; apply orb_false_iff; rewrite !andb_false_iff, !Z.leb_gt; change (code "0") with 48 in *; change (code "9") with 57 in *;
      change (code "a") with 97; change (code "A") with 65; change (code "z") with 122; change (code "Z") with 90; lia).
    rewrite Hc. destruct (dns_chars l) as [k|]; [|done]. cbn. intros [= <-] [?|?]%elem_of_cons; [done|by eapply IH].
  - destruct (dns_chars l) as [k|]; [|done]. cbn. intros [= <-] [?|?]%elem_of_cons; [done|by eapply IH].
Qed.

Lemma dns_labels_in l w c : w ∈ dns_labels l → c ∈ w → c ∈ l.
Proof.
  revert w. induction l as [|x l IH]; intros w; cbn; [by intros ->%list_elem_of_singleton ?%elem_of_nil|].
  destruct (dns_labels l) as [|w0 ws]; [by intros ?%elem_of_nil|]. case_decide.
  - intros [->|[->|Hw]%elem_of_cons]%elem_of_cons Hc; [by apply elem_of_nil in Hc| |]; right; (eapply IH; [|exact Hc]; by constructor).
  - intros [->|Hw]%elem_of_cons Hc; [|right; eapply IH; [by right|exact Hc]]. apply elem_of_cons in Hc as [->|Hc]; [by left|]. right. eapply IH; [by left|exact Hc].
Qed.

(** "An IP literal never matches because its last label is numeric." *)
Lemma dnsNameRe_not_address s : dnsNameRe s = true → ParseAddr s = None.
Proof.
  unfold dnsNameRe. destruct (dns_chars (chars s)) as [ws|] eqn:E; cbn [fmap option_fmap option_map]; [|done].
  destruct (last (dns_labels ws)) as [z|] eqn:Ez; [|done]. intros [_ Hz]%andb_true_iff.
  destruct z as [|a z]; [done|]. unfold label_ok in Hz. destruct (last (a :: z)); [|done]. rewrite !andb_true_iff, bool_decide_eq_true in Hz. destruct Hz as [[-> _] _].
  assert (Letter ∈ ws) as Hin. { apply (dns_labels_in _ (Letter :: z)); [|by left]. by apply last_Some_elem_of. }
  destruct (ParseAddr s) as [x|] eqn:Ep; [|done]. exfalso. unfold ParseAddr, parse_addr in Ep. destruct (addr_family (chars s)) as [c|] eqn:Ec; [|done].
  cbn [mbind option_bind] in Ep. apply addr_family_in in Ec as [Hc Hd]. destruct (dns_chars_no_mark _ _ _ E Hc). destruct Hd as [->|[->| ->]]; try done.
  rewrite decide_True in Ep by done. destruct (parse_v4 (chars s)) eqn:Ev; [|done]. exact (dns_chars_plain _ _ (parse_v4_plain _ _ Ev) E Hin).
Qed.

(** ** What the server can rely on *)

Section Valid.
Context (ParseAddress ParseURL : string → option (string * string)) (Decode : list byte → Config → option Config).

Lemma Parse_valid darwin join data level c : Parse ParseAddress ParseURL Decode darwin join data level = Ok c → Validate ParseAddress ParseURL c = [].
Proof.
  unfold Parse. destruct (Decode data _) as [c0|]; [|done]. set (c1 := if bool_decide (AdminSocket _ = "") then _ else _).
  destruct (Validate ParseAddress ParseURL c1) eqn:Hv; [|done]. by intros [= <-].
Qed.

(** The name of the ACME certificate. *)
Lemma acme_valid c : Validate ParseAddress ParseURL c = [] → Mode (tls c) = TLSModeACME → checkACME ParseAddress ParseURL c = [].
Proof.
  unfold Validate. intros Hv Hm. do 9 apply app_eq_nil in Hv as [_ Hv]. apply app_eq_nil in Hv as [_ Hv]. apply app_eq_nil in Hv as [Hv _].
  unfold checkTLS in Hv. by rewrite Hm in Hv.
Qed.

Lemma acme_domain_valid c : Validate ParseAddress ParseURL c = [] → Mode (tls c) = TLSModeACME →
  has_suffix (chars ".invalid") (to_lower (trim_suffix (chars ".") (chars (ACMEDomain c)))) = false.
Proof.
  intros Hv Hm. apply acme_valid in Hv; [|done]. unfold checkACME in Hv. apply app_eq_nil in Hv as [_ Hv]. apply app_eq_nil in Hv as [Hd _].
  destruct (dnsNameRe _); [|done]. cbn [negb] in Hd. by destruct (has_suffix _ _).
Qed.
End Valid.

Lemma checkPublicAddr_ok c : checkPublicAddr c = [] → PublicHost c ≠ "".
Proof. unfold checkPublicAddr. case_bool_decide; [done|]. by case_bool_decide. Qed.

Lemma checkAudit_ok d : checkAudit d = [] → 0 <= d ∧ d * 86400 * 1000000000 < 2 ^ 63.
Proof. unfold checkAudit, MaxAuditRetentionDays. destruct (Z.ltb_spec d 0); [done|]. destruct (Z.ltb_spec 106751 d); [done|]. lia. Qed.

(** C37: a configuration the server starts with is one it can run with.  What
    [Parse] accepts never makes the accessors panic: the overlay is a masked
    IPv4 prefix with the hub at its first host address, distinct from the
    broadcast address and with room for a peer, which is what the theorems on
    allocation and network maps ask for; a configured IPv6 overlay is a unique
    local /64; every resolver questions are forwarded to, configured or the
    host's own, has a valid address and a port; what is advertised for STUN and
    the hub comes apart into the public host and the port listened on; the audit retention fits a
    [time.Duration]; and in ACME mode the certificate's name is no address.
    For the endpoints the host of [public_addr] must be without brackets, which
    [Parse] does not check. *)
Theorem validated_config_works (ParseAddress ParseURL : string → option (string * string)) (Decode : list byte → Config → option Config)
    (darwin : bool) (join : string → string → string) (data : list byte) (level : string) (c : Config) :
  Parse ParseAddress ParseURL Decode darwin join data level = Ok c →
  PublicHost c ≠ "" ∧
  (∃ base n, OverlayPrefix c = Some (Prefix (Addr4 base) n) ∧ prefix_wf (Prefix (Addr4 base) n) ∧ 0 <= n <= 30 ∧ mask_top 32 n base = base ∧
     HubAddr c = Some (Prefix (Addr4 (base + 1)) n) ∧ Contains (Prefix (Addr4 base) n) (Addr4 (base + 1)) = true ∧
     base + 2 < base + 2 ^ (32 - n) - 1 ∧ base + 2 ^ (32 - n) <= 2 ^ 32) ∧
  (OverlayPrefix6 c = Some None ∨ ∃ a, OverlayPrefix6 c = Some (Some (Prefix (Addr6 a "") 64)) ∧ a `div` 2 ^ 120 = 253 ∧ a `mod` 2 ^ 64 = 0) ∧
  (∀ windows file, ∃ ups, resolvers windows file c = Some ups ∧ (Upstream (dns c) ≠ [] → length ups = length (Upstream (dns c))) ∧
     Forall (λ u, IsValid (apaddr u) = true ∧ 0 < apport u < 65536) ups) ∧
  (0 <= RetentionDays c ∧ RetentionDays c * 86400 * 1000000000 < 2 ^ 63) ∧
  (Mode (tls c) = TLSModeACME → ParseAddr (ACMEDomain c) = None) ∧
  ("["%char ∉ chars (PublicHost c) → "]"%char ∉ chars (PublicHost c) →
     (1 <= length (STUN (listen c)) <= 2)%nat ∧
     Forall2 (λ a e, ∃ host port, SplitHostPort a = Some (host, port) ∧ SplitHostPort e = Some (PublicHost c, port)) (STUN (listen c)) (STUNEndpoints c) ∧
     ∃ host port, SplitHostPort (WireGuard (listen c)) = Some (host, port) ∧ SplitHostPort (HubEndpoint c) = Some (PublicHost c, port)).
Proof.
  intros Hv%Parse_valid. pose proof (acme_valid _ _ c Hv) as Ha. unfold Validate in Hv.
  repeat match type of Hv with _ ++ _ = [] => let H := fresh "Hc" in apply app_eq_nil in Hv as [H Hv] end.
  apply checkOverlay_ok in Hc5 as [H4 H6]. split.
  { by apply checkPublicAddr_ok. }
  split; [exact H4|]. split; [exact H6|]. split; [intros windows file; by apply resolvers_ok|]. split; [by apply checkAudit_ok|]. split.
  - intros Hm. specialize (Ha Hm). unfold checkACME in Ha. apply app_eq_nil in Ha as [_ [Hd _]%app_eq_nil]. apply dnsNameRe_not_address. by destruct (dnsNameRe _).
  - intros Ho Hb. split; [by apply checkSTUN_endpoints|]. split; [by apply checkSTUN_endpoints|]. by apply HubEndpoint_ok.
Qed.

Definition demo_config : Config :=
  {| PublicAddr := "vpn.example.com:443"; DataDir := "/data"; listen := listen (Default false);
     overlay := {| CIDR := "100.64.3.9/10"; Interface := "thawr0"; IPv6 := "fd12:3456::/64" |};
     tls := {| Mode := TLSModeACME; CertFile := ""; KeyFile := ""; Email := "a@example.com"; Domain := ""; ACMEDirectory := "" |};
     PolicyFile := ""; AdminSocket := ""; log := log (Default false); MinClientVersion := "0.2"; MaxBytesPerSecond := 0;
     dns := {| Enabled := true; Upstream := ["9.9.9.9"; "[2620:fe::fe]:5353"] |}; RetentionDays := 0; MetricsListen := "" |}.

Lemma validated_config_works_witness :
  let c := with_level "debug" (with_socket "/data/admin.sock" demo_config) in
  (∃ base n, OverlayPrefix c = Some (Prefix (Addr4 base) n) ∧ HubAddr c = Some (Prefix (Addr4 (base + 1)) n)) ∧
  ParseAddr (ACMEDomain c) = None ∧ length (STUNEndpoints c) = 2%nat.
Proof.
  intros c.
  destruct (validated_config_works (λ s, Some ("", s)) (λ _, None) (λ _ _, Some demo_config) false (λ a b, a +:+ "/" +:+ b) [] "debug" c)
    as (_ & (base & n & Ho & _ & _ & _ & Hh & _) & _ & _ & _ & Ha & He); [vm_compute; reflexivity|].
  split; [by exists base, n|]. split; [by apply Ha|].
  destruct He as (_ & Hf & _); [vm_compute; intros H; repeat (apply elem_of_cons in H as [H|H]; [discriminate|]); by apply elem_of_nil in H..|].
  apply Forall2_length in Hf. rewrite <- Hf. reflexivity.
Defined.

(** The brackets: accepted, and what is advertised does not come apart. *)
Example brackets :
  let c := {| PublicAddr := "[fd00::1]"; DataDir := "/data"; listen := listen (Default false); overlay := overlay (Default false); tls := tls (Default false);
     PolicyFile := ""; AdminSocket := "/s"; log := log (Default false); MinClientVersion := ""; MaxBytesPerSecond := 0; dns := dns (Default false);
     RetentionDays := 0; MetricsListen := "" |} in
  Validate (λ _, None) (λ _, None) c = [] ∧ HubEndpoint c = "[[fd00::1]]:51820" ∧ SplitHostPort (HubEndpoint c) = None.
Proof. by vm_compute. Qed.
