(* ===== verification/Pins.v ===== *)
(** The keys a device has accepted: [internal/client/pins.go] and
    [matchesLockKey] of [internal/client/lock.go].

    Ed25519 and WireGuard's key parser are parameters; JSON is left out: the
    file is the record [pinFile].  Whether a write reached the disk is an input
    of every operation that saves, and so is the order in which Go ranges over a
    map. *)

From S2P Require Import Prelude GoStrings NetIP LockRecord ClientMap.
From S2P Require LockService.

(** ** Data *)

Record pinEntry := { eID : string; eKey : string }.

#[export] Instance pinEntry_eq_dec : EqDecision pinEntry.
Proof. solve_decision. Defined.

Record pinFile := { fHub : string; fPeers : gmap string pinEntry; fLock : option Signed }.

Inductive HeldReason := HeldKeyChanged | HeldUnsigned.

#[export] Instance reason_eq_dec : EqDecision HeldReason.
Proof. solve_decision. Defined.

(** [file] is what [PinsFile] holds. *)
Record Pins := { hub : string; peers : gmap string pinEntry; lock : option Signed; dirty : bool; file : option pinFile }.

Record HeldStatus := {
  hName : string; hIPv4 : string; hKind : string; hOwner : string; hPinnedKey : string; hOfferedKey : string; hSince : Z;
  hReason : HeldReason; hid : string;
}.

Definition HubName : string := "hub".

Definition with_hub_pin (k : string) (p : Pins) : Pins := {| hub := k; peers := peers p; lock := lock p; dirty := dirty p; file := file p |}.
Definition with_pins (m : gmap string pinEntry) (p : Pins) : Pins := {| hub := hub p; peers := m; lock := lock p; dirty := dirty p; file := file p |}.
Definition with_lock (l : option Signed) (p : Pins) : Pins := {| hub := hub p; peers := peers p; lock := l; dirty := dirty p; file := file p |}.
Definition set_dirty (d : bool) (p : Pins) : Pins := {| hub := hub p; peers := peers p; lock := lock p; dirty := d; file := file p |}.

(** [save], with the caller's bookkeeping around it: the file is replaced only
    if the write succeeds, and what was not written stays dirty. *)
Definition saved (wrote : bool) (p : Pins) : Pins * bool :=
  if wrote
  then ({| hub := hub p; peers := peers p; lock := lock p; dirty := false;
           file := Some {| fHub := hub p; fPeers := peers p; fLock := lock p |} |}, true)
  else (set_dirty true p, false).

Definition LockEnabled (p : Pins) : bool := match lock p with Some s => Enabled (record s) | None => false end.

(** The peers a pin is kept for. *)
Definition pinnable (p : Peer) : bool :=
  negb (pViaHub p || bool_decide (pName p = "") || bool_decide (pID p = "") || bool_decide (pPublicKey p = "")).

(** [since]: when this key was first held. *)
Definition since_key (now : Z) (prev : list HeldStatus) (name offered : string) : Z :=
  match list_find (λ h, hName h = name ∧ hOfferedKey h = offered) prev with Some (_, h) => hSince h | None => now end.

Definition since_unsigned (now : Z) (prev : list HeldStatus) (name offered : string) : Z :=
  match list_find (λ h, hName h = name ∧ hOfferedKey h = offered ∧ hReason h = HeldUnsigned) prev with
  | Some (_, h) => hSince h
  | None => now
  end.

Definition hubAddr (nm : NetMap) : string :=
  match omap (λ a, p ← ParsePrefix a; if pbits p =? 32 then Some (addr_string (paddr p)) else None) (hAllowedIPs (mHub nm)) with
  | a :: _ => a
  | [] => ""
  end.

Definition held_hub (nm : NetMap) (pinned : string) (since : Z) (r : HeldReason) : HeldStatus :=
  {| hName := HubName; hIPv4 := hubAddr nm; hKind := "server"; hOwner := ""; hPinnedKey := pinned; hOfferedKey := hPublicKey (mHub nm);
     hSince := since; hReason := r; hid := "" |}.

Definition held_peer (p : Peer) (pinned : string) (since : Z) (r : HeldReason) : HeldStatus :=
  {| hName := pName p; hIPv4 := pIPv4 p; hKind := pKind p; hOwner := pOwner p; hPinnedKey := pinned; hOfferedKey := pPublicKey p;
     hSince := since; hReason := r; hid := pID p |}.

(** Among equal names the code leaves the order open. *)
Definition by_held_name (l : list HeldStatus) : list HeldStatus := stable_sort (λ a b, str_ltb (hName a) (hName b)) l.

(** ** Keys that changed *)

(** [byID]: of two names with one id, the one ranged over last. *)
Definition by_id (order : list (string * pinEntry)) : gmap string pinEntry := foldl (λ m e, <[eID e.2 := e.2]> m) ∅ order.

(** The pin a peer is measured against: its own, one that travels with its id,
    or what it offers. *)
Definition pin_for (byID m : gmap string pinEntry) (p : Peer) : pinEntry :=
  match m !! pName p with
  | Some e => e
  | None => default {| eID := pID p; eKey := pPublicKey p |} (byID !! pID p)
  end.

Definition known (m : gmap string pinEntry) (p : Peer) : bool := bool_decide (is_Some (m !! pName p)).

Definition matches (e : pinEntry) (p : Peer) : bool := bool_decide (eID e = pID p) && bool_decide (eKey e = pPublicKey p).

(** The loop over the peers: the pins, whether they changed, what is applied
    and what is held. *)
Fixpoint apply_peers (byID : gmap string pinEntry) (since : string → string → Z) (l : list Peer) (m : gmap string pinEntry) :
    gmap string pinEntry * bool * list Peer * list HeldStatus :=
  match l with
  | [] => (m, false, [], [])
  | p :: l =>
      if negb (pinnable p) then let '(m', ch, out, held) := apply_peers byID since l m in (m', ch, p :: out, held)
      else
        let pin := pin_for byID m p in
        let new := negb (known m p) in
        let '(m', ch, out, held) := apply_peers byID since l (if new then <[pName p := pin]> m else m) in
        if matches pin p then (m', new || ch, p :: out, held)
        else (m', new || ch, out, held_peer p (eKey pin) (since (pName p) (pPublicKey p)) HeldKeyChanged :: held)
  end.

(** The hub: its pin, whether it changed, and whether it is held. *)
Definition apply_hub (nm : NetMap) (pinned : string) : string * bool * bool :=
  if bool_decide (hPublicKey (mHub nm) = "") then (pinned, false, false)
  else if bool_decide (pinned = "") then (hPublicKey (mHub nm), true, false)
  else if bool_decide (pinned = hPublicKey (mHub nm)) then (pinned, false, false)
  else (pinned, false, true).

Definition Apply (order : gmap string pinEntry → list (string * pinEntry)) (wrote : bool) (nm : NetMap) (now : Z) (prev : list HeldStatus) (p : Pins) :
    Pins * option (NetMap * list HeldStatus) :=
  let since := since_key now prev in
  let '(hk, ch1, hub_held) := apply_hub nm (hub p) in
  let '(m, ch2, out, held) := apply_peers (by_id (order (peers p))) since (mPeers nm) (peers p) in
  let p := with_pins m (with_hub_pin hk p) in
  let '(p, ok) := if ch1 || ch2 || dirty p then saved wrote p else (p, true) in
  if ok then
    (p, Some (with_peers out (if hub_held then with_hub NoHub nm else nm),
              by_held_name ((if hub_held then [held_hub nm hk (since HubName (hPublicKey (mHub nm))) HeldKeyChanged] else []) ++ held)))
  else (p, None).

(** [Trust]. *)
Definition trust_entry (h : HeldStatus) (p : Pins) : Pins :=
  if bool_decide (hName h = HubName) then with_hub_pin (hOfferedKey h) p
  else with_pins (<[hName h := {| eID := hid h; eKey := hOfferedKey h |}]> (peers p)) p.

Definition Trust (wrote : bool) (h : HeldStatus) (p : Pins) : Pins * bool := saved wrote (trust_entry h p).

(** [Pins.Accept]. *)
Definition accept_key (name id key : string) (p : Pins) : Pins :=
  if bool_decide (name = HubName) then
    if bool_decide (hub p ≠ key) then set_dirty true (with_hub_pin key p) else p
  else if bool_decide (default {| eID := ""; eKey := "" |} (peers p !! name) = {| eID := id; eKey := key |}) then p
  else set_dirty true (with_pins (<[name := {| eID := id; eKey := key |}]> (peers p)) p).

(** [SetLock]. *)
Definition SetLock (wrote : bool) (s : Signed) (p : Pins) : Pins * bool := saved wrote (with_lock (Some s) p).

(** ** The lock *)

Definition matchesLockKey (key : PublicKey) (given : string) : bool :=
  bool_decide (ParsePublicKey (of_chars (trim_space (chars given))) = Some key).

(** Why an offer was not adopted. *)
Inductive refusal :=
  | NotOffered
  | FirstNoBytes (e : lock_error)
  | FirstSignedByOther
  | FirstNotNamed
  | Refused (e : lock_error).

Section Lock.
Context (Verify : PublicKey → list byte → Signature → bool) (ParseKey : string → option (list byte)).

(** The first signer with the expected key decides. *)
Definition firstRecordBy (offered : Signed) (expected : string) : option refusal :=
  match recordBytes (record offered) with
  | Err e => Some (FirstNoBytes e)
  | Ok msg =>
      match list_find (λ s, matchesLockKey (sKey s) expected = true) (Signers (record offered)) with
      | Some (_, s) => if Verify (sKey s) msg (signature offered) then None else Some FirstSignedByOther
      | None => Some FirstNotNamed
      end
  end.

(** The pin and the offer are the same record. *)
Definition same_offer (cur off : Signed) : bool :=
  (Generation (record cur) =? Generation (record off)) && bool_decide (signature cur = signature off).

(** [UpdateLock]: adopting leaves the pins dirty. *)
Definition UpdateLock (offered : option Signed) (expected : string) (p : Pins) : Pins * option refusal :=
  match offered, lock p with
  | None, None => (p, None)
  | None, Some _ => (p, Some NotOffered)
  | Some off, cur =>
      if match cur with Some c => same_offer c off | None => false end then (p, None)
      else
        match (if bool_decide (cur = None) && bool_decide (expected ≠ "") then firstRecordBy off expected else None) with
        | Some r => (p, Some r)
        | None =>
            match LockRecord.Accept Verify (record <$> cur) off with
            | Err e => (p, Some (Refused e))
            | Ok _ => (set_dirty true (with_lock (Some off) p), None)
            end
        end
  end.

(** [signedBy]. *)
Definition signedBy (set : LockRecord) (id name key : string) (sigs : list PeerSignature) : bool :=
  match ParseKey key with
  | None => false
  | Some wk =>
      match peerBytes {| rID := id; rName := name; rKey := wk |} with
      | Err _ => false
      | Ok msg =>
          existsb (λ s,
            match ParsePublicKey (psSigner s), ParseSignature (psSignature s) with
            | Some signer, Some sig => Has set signer && Verify signer msg sig
            | _, _ => false
            end) sigs
      end
  end.

(** The loop of [HoldUnsigned] over the peers. *)
Fixpoint hold_peers (set : LockRecord) (since : string → string → Z) (l : list Peer) (p : Pins) : Pins * list Peer * list HeldStatus :=
  match l with
  | [] => (p, [], [])
  | x :: l =>
      if negb (pinnable x) then let '(p', out, held) := hold_peers set since l p in (p', x :: out, held)
      else if signedBy set (pID x) (pName x) (pPublicKey x) (pSignatures x) then
        let '(p', out, held) := hold_peers set since l (accept_key (pName x) (pID x) (pPublicKey x) p) in (p', x :: out, held)
      else
        let '(p', out, held) := hold_peers set since l p in
        (p', out, held_peer x (match peers p !! pName x with Some e => eKey e | None => "" end)
                    (since (pName x) (pPublicKey x)) HeldUnsigned :: held)
  end.

Definition HoldUnsigned (nm : NetMap) (set : LockRecord) (now : Z) (prev : list HeldStatus) (p : Pins) : Pins * NetMap * list HeldStatus :=
  let since := since_unsigned now prev in
  let hk := hPublicKey (mHub nm) in
  let '(p, nm', held) :=
    if bool_decide (hk = "") then (p, nm, [])
    else if signedBy set LockService.HubID LockService.HubID hk (hSignatures (mHub nm)) then (accept_key HubName "" hk p, nm, [])
    else (p, with_hub NoHub nm, [held_hub nm (hub p) (since HubName hk) HeldUnsigned]) in
  let '(p, out, held') := hold_peers set since (mPeers nm) p in
  (p, with_peers out nm', held ++ held').

(** ** Loading *)

Inductive load_pins_error := ErrRead | ErrParse | ErrIncomplete | ErrLockRecord (e : lock_error).

Definition complete (name : string) (e : pinEntry) : bool :=
  negb (bool_decide (name = "") || bool_decide (eID e = "") || bool_decide (eKey e = "")).

(** The file as read and parsed: none, or one that may not parse. *)
Definition LoadPins (f : option (result load_pins_error pinFile)) : result load_pins_error Pins :=
  match f with
  | None => Ok {| hub := ""; peers := ∅; lock := None; dirty := false; file := None |}
  | Some (Err e) => Err e
  | Some (Ok f) =>
      if negb (bool_decide (map_Forall (λ name e, complete name e = true) (fPeers f))) then Err ErrIncomplete
      else
        match fLock f with
        | Some s =>
            match LockRecord.Accept Verify None s with
            | Err e => Err (ErrLockRecord e)
            | Ok _ => Ok {| hub := fHub f; peers := fPeers f; lock := fLock f; dirty := false; file := Some f |}
            end
        | None => Ok {| hub := fHub f; peers := fPeers f; lock := None; dirty := false; file := Some f |}
        end
  end.
End Lock.

(** ** What an application does to the pins *)

Definition offers (p : Peer) : pinEntry := {| eID := pID p; eKey := pPublicKey p |}.

Lemma matches_true e p : matches e p = true ↔ e = offers p.
Proof. unfold matches, offers. destruct e as [i k]. rewrite andb_true_iff, !bool_decide_eq_true. simpl. split; [by intros [-> ->]|by intros [= -> ->]]. Qed.

(** The pin of a peer's name is what it offers, or it needs none. *)
Definition accepted (m : gmap string pinEntry) (p : Peer) : bool := negb (pinnable p) || bool_decide (m !! pName p = Some (offers p)).

Lemma accepted_pinnable m p : pinnable p = true → accepted m p = bool_decide (m !! pName p = Some (offers p)).
Proof. unfold accepted. by intros ->. Qed.

(** The pins grow by first contact only, and the entries applied are those that
    agree with the pins in the end. *)
Lemma apply_peers_spec byID since l : ∀ m m' ch out held,
  apply_peers byID since l m = (m', ch, out, held) →
  m ⊆ m' ∧
  (∀ n e, m' !! n = Some e → m !! n = Some e ∨
     m !! n = None ∧ ∃ p, p ∈ l ∧ pinnable p = true ∧ pName p = n ∧ e = default (offers p) (byID !! pID p)) ∧
  (∀ p, p ∈ l → pinnable p = true → is_Some (m' !! pName p)) ∧
  out = filter (λ p, accepted m' p = true) l ∧
  held = (λ p, held_peer p (eKey (default (offers p) (m' !! pName p))) (since (pName p) (pPublicKey p)) HeldKeyChanged)
           <$> filter (λ p, accepted m' p = false) l ∧
  (ch = false → m' = m).
Proof.
  induction l as [|p l IH]; intros m m' ch out held H; cbn [apply_peers] in H.
  { simplify_eq. split_and!; try done; [by left|]. intros p Hp. by apply elem_of_nil in Hp. }
  destruct (pinnable p) eqn:Ep; cbn [negb] in H.
  - set (m1 := if negb (known m p) then <[pName p := pin_for byID m p]> m else m) in *.
    destruct (apply_peers byID since l m1) as [[[m2 c2] o2] h2] eqn:E.
    destruct (IH _ _ _ _ _ E) as (Hsub & Hnew & Hall & Ho & Hh & Hch).
    assert (m ⊆ m1 ∧ m1 !! pName p = Some (pin_for byID m p)) as [Hm1 Hp1].
    { unfold m1, known, pin_for. case_bool_decide as Hk; cbn [negb].
      - split; [done|]. destruct Hk as [e He]. by rewrite He.
      - split; [|apply lookup_insert_eq]. apply insert_subseteq. destruct (m !! pName p) eqn:Hm; [|done]. destruct Hk. by eexists. }
    assert (m2 !! pName p = Some (pin_for byID m p)) as Hp2 by (by eapply lookup_weaken).
    assert (matches (pin_for byID m p) p = accepted m2 p) as Hacc.
    { rewrite accepted_pinnable, Hp2 by done. apply eq_true_iff_eq. rewrite matches_true, bool_decide_eq_true. split; [by intros ->|by intros [= ->]]. }
    assert (m' = m2 ∧ ch = negb (known m p) || c2 ∧ out = (if accepted m2 p then p :: o2 else o2) ∧
            held = if accepted m2 p then h2 else held_peer p (eKey (pin_for byID m p)) (since (pName p) (pPublicKey p)) HeldKeyChanged :: h2)
      as (-> & -> & -> & ->) by (rewrite <- Hacc; destruct (matches _ _); by simplify_eq).
    split_and!.
    + by etransitivity.
    + intros n e Hn. destruct (Hnew n e Hn) as [H1|(H1 & q & Hq & ?)].
      * destruct (m !! n) as [e'|] eqn:Hmn; [left; f_equal; eapply lookup_weaken in Hmn; [|exact Hm1]; congruence|right].
        split; [done|]. exists p. assert (n = pName p) as ->.
        { revert H1. unfold m1. destruct (known m p); cbn [negb]; [by rewrite Hmn|]. intros [[-> _]|[_ ?]]%lookup_insert_Some; [done|congruence]. }
        split; [left|]. split_and!; [done..|]. rewrite Hp1 in H1. injection H1 as <-. unfold pin_for. by rewrite Hmn.
      * right. split; [|exists q; split; [by right|done]].
        destruct (m !! n) as [e'|] eqn:Hmn; [|done]. eapply lookup_weaken in Hmn; [|exact Hm1]. congruence.
    + intros q [->|Hq]%elem_of_cons Hpq; [by eexists|by apply Hall].
    + rewrite filter_cons, Ho. destruct (accepted m2 p); by simplify_option_eq.
    + rewrite filter_cons, Hh. destruct (accepted m2 p); [by rewrite decide_False by done|].
      rewrite decide_True by done. rewrite fmap_cons, Hp2. done.
    + intros Hc. destruct (known m p) eqn:Ek; cbn [negb orb] in *; [|done]. apply Hch, Hc.
  - destruct (apply_peers byID since l m) as [[[m2 c2] o2] h2] eqn:E. simplify_eq.
    destruct (IH _ _ _ _ _ E) as (Hsub & Hnew & Hall & Ho & Hh & Hch).
    assert (accepted m' p = true) as Ha by (unfold accepted; by rewrite Ep).
    split_and!; try done.
    + intros n e Hn. destruct (Hnew n e Hn) as [H1|(H1 & q & Hq & ?)]; [by left|right]. split; [done|]. exists q. split; [by right|done].
    + intros q [->|Hq]%elem_of_cons Hpq; [congruence|by apply Hall].
    + rewrite filter_cons, Ha, Ho. by simplify_option_eq.
    + rewrite filter_cons, Ha, Hh. by simplify_option_eq.
Qed.

(** A range over a map visits each of its entries once. *)
Definition ranges (order : gmap string pinEntry → list (string * pinEntry)) : Prop := ∀ m, order m ≡ₚ map_to_list m.

Lemma by_id_lookup l i e : by_id l !! i = Some e → eID e = i ∧ ∃ n, (n, e) ∈ l.
Proof.
  induction l as [|[n x] l IH] using rev_ind; unfold by_id in *; [cbn [foldl]; by rewrite lookup_empty|].
  rewrite foldl_app. cbn [foldl snd]. intros [[<- <-]|[_ H]]%lookup_insert_Some.
  - split; [done|]. exists n. rewrite elem_of_app, list_elem_of_singleton. by right.
  - destruct (IH H) as (? & n' & ?). split; [done|]. exists n'. rewrite elem_of_app. by left.
Qed.

Lemma by_id_pinned order m i e : ranges order → by_id (order m) !! i = Some e → eID e = i ∧ ∃ n, m !! n = Some e.
Proof. intros Hr (He & n & Hn)%by_id_lookup. split; [done|]. exists n. rewrite (Hr m) in Hn. by apply elem_of_map_to_list. Qed.

(** Whether the hub's key is pinned, or there is none. *)
Definition hub_accepted (pinned : string) (nm : NetMap) : bool :=
  bool_decide (hPublicKey (mHub nm) = "") || bool_decide (hPublicKey (mHub nm) = pinned).

(** What a successful application leaves: the pins grew by first contact, the
    file holds them, and what is applied agrees with them. *)
Record applied (order : gmap string pinEntry → list (string * pinEntry)) (nm : NetMap) (p p' : Pins) (out : NetMap) (held : list HeldStatus) : Prop := {
  ap_sub : peers p ⊆ peers p';
  ap_new : ∀ n e, peers p' !! n = Some e → peers p !! n = Some e ∨
    peers p !! n = None ∧ ∃ x, x ∈ mPeers nm ∧ pinnable x = true ∧ pName x = n ∧ e = default (offers x) (by_id (order (peers p)) !! pID x);
  ap_known : ∀ x, x ∈ mPeers nm → pinnable x = true → is_Some (peers p' !! pName x);
  ap_hub_kept : hub p ≠ "" → hub p' = hub p;
  ap_hub_new : hub p = "" → hub p' = hPublicKey (mHub nm);
  ap_lock : lock p' = lock p;
  ap_peers : mPeers out = filter (λ x, accepted (peers p') x = true) (mPeers nm);
  ap_hub : mHub out = if hub_accepted (hub p') nm then mHub nm else NoHub;
  ap_rest : out = with_peers (mPeers out) (with_hub (mHub out) nm);
  ap_clean : dirty p' = false;
  ap_held : ∀ h, h ∈ held → hReason h = HeldKeyChanged ∧
    ((hName h = HubName ∧ hid h = "" ∧ hOfferedKey h = hPublicKey (mHub nm) ∧ hub_accepted (hub p') nm = false) ∨
     ∃ x, x ∈ mPeers nm ∧ accepted (peers p') x = false ∧ hName h = pName x ∧ {| eID := hid h; eKey := hOfferedKey h |} = offers x);
  ap_heard : ∀ x, x ∈ mPeers nm → accepted (peers p') x = false → ∃ h, h ∈ held ∧ hName h = pName x ∧ hOfferedKey h = pPublicKey x;
}.

Lemma apply_hub_spec nm k k' ch held : apply_hub nm k = (k', ch, held) →
  (k ≠ "" → k' = k) ∧ (k = "" → k' = hPublicKey (mHub nm)) ∧ held = negb (hub_accepted k' nm) ∧ (ch = false → k' = k).
Proof.
  unfold apply_hub, hub_accepted. repeat case_bool_decide; intros; simplify_eq/=; split_and!; try done; try congruence;
    rewrite ?bool_decide_true by done; rewrite ?bool_decide_false by congruence; done.
Qed.

Lemma elem_of_by_held_name h l : h ∈ by_held_name l ↔ h ∈ l.
Proof. apply elem_of_stable_sort. Qed.

Lemma with_hub_same nm : with_hub (mHub nm) nm = nm.
Proof. by destruct nm. Qed.

(** The pins an application ends with, written or not. *)
Record grown (order : gmap string pinEntry → list (string * pinEntry)) (nm : NetMap) (p p' : Pins) : Prop := {
  gr_sub : peers p ⊆ peers p';
  gr_new : ∀ n e, peers p' !! n = Some e → peers p !! n = Some e ∨
    peers p !! n = None ∧ ∃ x, x ∈ mPeers nm ∧ pinnable x = true ∧ pName x = n ∧ e = default (offers x) (by_id (order (peers p)) !! pID x);
  gr_hub : hub p' = hub p ∨ hub p = "" ∧ hub p' = hPublicKey (mHub nm);
  gr_lock : lock p' = lock p;
}.

Lemma Apply_spec order wrote nm now prev p p' r : Apply order wrote nm now prev p = (p', r) →
  grown order nm p p' ∧ ∀ out held, r = Some (out, held) → applied order nm p p' out held.
Proof.
  unfold Apply. destruct (apply_hub nm (hub p)) as [[hk ch1] hh] eqn:Eh. apply apply_hub_spec in Eh as (Hkept & Hnew & Hhh & _).
  destruct (apply_peers _ _ _ _) as [[[m ch2] out] held] eqn:E. apply apply_peers_spec in E as (Hsub & Hn & Hall & Ho & Hh & _).
  set (p1 := with_pins m (with_hub_pin hk p)).
  assert (∀ p2 ok, (if ch1 || ch2 || dirty p1 then saved wrote p1 else (p1, true)) = (p2, ok) →
    peers p2 = m ∧ hub p2 = hk ∧ lock p2 = lock p ∧ (ok = true → dirty p2 = false)) as Hp2.
  { intros p2 ok. destruct (ch1 || ch2 || dirty p1) eqn:Ed; [|apply orb_false_iff in Ed as [_ ?]; by intros [= <- _]].
    unfold saved. by destruct wrote; intros [= <- <-]. }
  destruct (if ch1 || ch2 || dirty p1 then saved wrote p1 else (p1, true)) as [p2 ok]. destruct (Hp2 p2 ok eq_refl) as (Hm & Hk & Hl & Hd). clear Hp2.
  intros H. assert (p' = p2) as -> by (by destruct ok; simplify_eq). split.
  { split; rewrite ?Hm, ?Hk; try done. destruct (decide (hub p = "")) as [He|Hne]; [right; auto|left; auto]. }
  intros out' held' ->. destruct ok; [|done]. injection H as <- <-. subst hh.
  split; rewrite ?Hm, ?Hk; cbn [with_peers with_hub mPeers mHub]; try done.
  - by destruct (hub_accepted hk nm).
  - destruct (hub_accepted hk nm) eqn:Ea; cbn [negb]; [|by destruct nm]. by rewrite with_hub_same.
  - auto.
  - intros h. rewrite elem_of_by_held_name, elem_of_app. intros [Hin|Hin].
    + destruct (hub_accepted hk nm); cbn [negb] in Hin; [by apply elem_of_nil in Hin|]. apply list_elem_of_singleton in Hin as ->.
      split; [done|]. left. done.
    + subst held. apply list_elem_of_fmap in Hin as (x & -> & [Hx Hin]%list_elem_of_filter). split; [done|]. right. exists x. done.
  - intros x Hx Ha. exists (held_peer x (eKey (default (offers x) (m !! pName x))) (since_key now prev (pName x) (pPublicKey x)) HeldKeyChanged).
    split; [|done]. rewrite elem_of_by_held_name, elem_of_app. right. subst held. apply list_elem_of_fmap. exists x. split; [done|].
    by apply list_elem_of_filter.
Qed.

(** ** What the lock does to the pins *)

Section LockSpec.
Context (Verify : PublicKey → list byte → Signature → bool) (ParseKey : string → option (list byte)).

Definition signed_peer (set : LockRecord) (x : Peer) : bool := signedBy Verify ParseKey set (pID x) (pName x) (pPublicKey x) (pSignatures x).
Definition signed_hub (set : LockRecord) (h : HubPeer) : bool :=
  signedBy Verify ParseKey set LockService.HubID LockService.HubID (hPublicKey h) (hSignatures h).

(** Entries the lock lets through: signed ones, and those no pin is kept for. *)
Definition passes (set : LockRecord) (x : Peer) : bool := negb (pinnable x) || signed_peer set x.

Lemma accept_key_spec name id key p p' : accept_key name id key p = p' →
  lock p' = lock p ∧
  (hub p' = hub p ∨ name = HubName ∧ hub p' = key) ∧
  (peers p' = peers p ∨ name ≠ HubName ∧ peers p' = <[name := {| eID := id; eKey := key |}]> (peers p)).
Proof.
  unfold accept_key. repeat case_bool_decide; intros <-; cbn; naive_solver.
Qed.

(** The pins after signed entries of a map were accepted. *)
Record signed_in (set : LockRecord) (h : HubPeer) (l : list Peer) (p p' : Pins) : Prop := {
  si_lock : lock p' = lock p;
  si_new : ∀ n e, peers p' !! n = Some e → peers p !! n = Some e ∨
    ∃ x, x ∈ l ∧ pinnable x = true ∧ signed_peer set x = true ∧ pName x = n ∧ n ≠ HubName ∧ e = offers x;
  si_kept : ∀ n, is_Some (peers p !! n) → is_Some (peers p' !! n);
  si_hub : hub p' = hub p ∨ (hPublicKey h ≠ "" ∧ signed_hub set h = true ∧ hub p' = hPublicKey h) ∨
    ∃ x, x ∈ l ∧ pinnable x = true ∧ signed_peer set x = true ∧ pName x = HubName ∧ hub p' = pPublicKey x;
}.

Lemma signed_in_refl set h l p : signed_in set h l p p.
Proof. split; eauto. Qed.

Lemma signed_in_mono set h l l' p p' : l ⊆ l' → signed_in set h l p p' → signed_in set h l' p p'.
Proof.
  intros Hl [H1 H2 H3 H4]. split; try done.
  - intros n e He. destruct (H2 n e He) as [?|(x & Hx & ?)]; [by left|right; exists x; split; [by apply Hl|done]].
  - destruct H4 as [?|[?|(x & Hx & ?)]]; [by left|by right; left|right; right; exists x; split; [by apply Hl|done]].
Qed.

Lemma signed_in_trans set h l p p' p'' : signed_in set h l p p' → signed_in set h l p' p'' → signed_in set h l p p''.
Proof.
  intros [A1 A2 A3 A4] [B1 B2 B3 B4]. split; [congruence| |by eauto|].
  - intros n e He. destruct (B2 n e He) as [He'|?]; [by apply A2|by right].
  - destruct B4 as [B4|?]; [by rewrite B4|by right].
Qed.

Lemma signed_in_peer set h x p : pinnable x = true → signed_peer set x = true →
  signed_in set h [x] p (accept_key (pName x) (pID x) (pPublicKey x) p).
Proof.
  intros Hp Hs. destruct (accept_key_spec _ _ _ _ _ (eq_refl (accept_key (pName x) (pID x) (pPublicKey x) p))) as (Hl & Hh & Hpe).
  assert (x ∈ [x]) as Hx by left. split; [done|..].
  - intros n e He. destruct Hpe as [Hpe|[Hn Hpe]]; rewrite Hpe in He; [by left|].
    apply lookup_insert_Some in He as [[<- <-]|[_ ?]]; [|by left]. right. by exists x.
  - intros n Hn. destruct Hpe as [->|[_ ->]]; [done|]. rewrite lookup_insert_is_Some'. by right.
  - destruct Hh as [?|[? ?]]; [by left|]. right. right. by exists x.
Qed.

Lemma signed_in_hub set h p : hPublicKey h ≠ "" → signed_hub set h = true → signed_in set h [] p (accept_key HubName "" (hPublicKey h) p).
Proof.
  intros Hne Hs. destruct (accept_key_spec _ _ _ _ _ (eq_refl (accept_key HubName "" (hPublicKey h) p))) as (Hl & Hh & Hpe).
  split; [done|..].
  - intros n e He. destruct Hpe as [Hpe|[? _]]; [|done]. rewrite Hpe in He. by left.
  - intros n Hn. destruct Hpe as [->|[? _]]; done.
  - destruct Hh as [?|[_ ?]]; [by left|]. right. by left.
Qed.

(** What is held for want of a signature. *)
Definition held_unsigned (set : LockRecord) (nm : NetMap) (h : HeldStatus) : Prop :=
  hReason h = HeldUnsigned ∧
  ((hName h = HubName ∧ hPublicKey (mHub nm) ≠ "" ∧ signed_hub set (mHub nm) = false ∧ hOfferedKey h = hPublicKey (mHub nm)) ∨
   ∃ x, x ∈ mPeers nm ∧ passes set x = false ∧ hName h = pName x ∧ hOfferedKey h = pPublicKey x).

Lemma hold_peers_spec set since h l : ∀ p p' out held, hold_peers Verify ParseKey set since l p = (p', out, held) →
  signed_in set h l p p' ∧
  out = filter (λ x, passes set x = true) l ∧
  (∀ s, s ∈ held → hReason s = HeldUnsigned ∧ ∃ x, x ∈ l ∧ passes set x = false ∧ hName s = pName x ∧ hOfferedKey s = pPublicKey x) ∧
  (∀ x, x ∈ l → passes set x = false → ∃ s, s ∈ held ∧ hName s = pName x ∧ hOfferedKey s = pPublicKey x).
Proof.
  induction l as [|x l IH]; intros p p' out held H; cbn [hold_peers] in H.
  { simplify_eq. split_and!; [apply signed_in_refl|done|..]; intros ? Hin; by apply elem_of_nil in Hin. }
  fold (signed_peer set x) in H.
  set (p1 := if pinnable x && signed_peer set x then accept_key (pName x) (pID x) (pPublicKey x) p else p).
  assert (signed_in set h (x :: l) p p1) as H1.
  { unfold p1. destruct (pinnable x) eqn:?, (signed_peer set x) eqn:?; cbn [andb]; try apply signed_in_refl.
    eapply signed_in_mono, signed_in_peer; [set_solver|done..]. }
  destruct (hold_peers Verify ParseKey set since l p1) as [[q o] hs] eqn:E.
  destruct (IH _ _ _ _ E) as (Hin & Ho & Hheld & Hall).
  assert (p' = q ∧ out = (if passes set x then x :: o else o) ∧
          ∃ s, hName s = pName x ∧ hOfferedKey s = pPublicKey x ∧ hReason s = HeldUnsigned ∧ held = if passes set x then hs else s :: hs) as (-> & -> & s & S1 & S2 & S3 & ->).
  { revert H. unfold p1 in E. unfold passes. destruct (pinnable x); cbn [negb orb andb] in *; [destruct (signed_peer set x); cbn [andb] in *|];
      rewrite E; intros; simplify_eq; split_and!; try done;
      first [by exists (held_peer x "" 0 HeldUnsigned)|by eexists (held_peer x _ _ HeldUnsigned)]. }
  split_and!.
  - eapply signed_in_trans; [exact H1|]. eapply signed_in_mono; [|exact Hin]. set_solver.
  - rewrite filter_cons, Ho. destruct (passes set x); by simplify_option_eq.
  - intros y Hy. assert (y ∈ s :: hs ∧ passes set x = false ∨ y ∈ hs) as [[[->|Hy']%elem_of_cons Hx]|Hy'] by (destruct (passes set x); auto).
    { split; [done|]. exists x. split; [left|done]. }
    all: destruct (Hheld y Hy') as (? & z & Hz & ?); split; [done|]; exists z; split; [by right|done].
  - intros y [->|Hy]%elem_of_cons Hpy; [rewrite Hpy; exists s; split; [left|done]|].
    destruct (Hall y Hy Hpy) as (z & Hz & ?). exists z. split; [|done]. destruct (passes set x); [done|by right].
Qed.

(** Whether the hub needs no signature or has one. *)
Definition hub_passes (set : LockRecord) (nm : NetMap) : bool := bool_decide (hPublicKey (mHub nm) = "") || signed_hub set (mHub nm).

Lemma HoldUnsigned_spec nm set now prev p p' out held : HoldUnsigned Verify ParseKey nm set now prev p = (p', out, held) →
  signed_in set (mHub nm) (mPeers nm) p p' ∧
  out = with_peers (filter (λ x, passes set x = true) (mPeers nm)) (if hub_passes set nm then nm else with_hub NoHub nm) ∧
  (∀ h, h ∈ held → held_unsigned set nm h) ∧
  (∀ x, x ∈ mPeers nm → passes set x = false → ∃ h, h ∈ held ∧ hName h = pName x ∧ hOfferedKey h = pPublicKey x).
Proof.
  unfold HoldUnsigned. fold (signed_hub set (mHub nm)). intros H.
  set (p1 := if negb (bool_decide (hPublicKey (mHub nm) = "")) && signed_hub set (mHub nm) then accept_key HubName "" (hPublicKey (mHub nm)) p else p).
  assert (signed_in set (mHub nm) (mPeers nm) p p1) as H1.
  { unfold p1. case_bool_decide as Hk; [apply signed_in_refl|]. destruct (signed_hub set (mHub nm)) eqn:Hs; [|apply signed_in_refl].
    eapply signed_in_mono, signed_in_hub; [set_solver|done..]. }
  destruct (hold_peers Verify ParseKey set (since_unsigned now prev) (mPeers nm) p1) as [[q o] hs] eqn:E.
  destruct (hold_peers_spec set _ (mHub nm) _ _ _ _ _ E) as (Hin & Ho & Hheld & Hall).
  set (l0 := if hub_passes set nm then [] else
               [held_hub nm (hub p) (since_unsigned now prev HubName (hPublicKey (mHub nm))) HeldUnsigned]).
  assert (p' = q ∧ out = with_peers o (if hub_passes set nm then nm else with_hub NoHub nm) ∧ held = l0 ++ hs) as (-> & -> & ->).
  { revert H. unfold p1, l0, hub_passes in *. case_bool_decide; cbn [negb andb orb] in *; [|destruct (signed_hub set (mHub nm)); cbn [andb] in *];
      rewrite E; intros; by simplify_eq. }
  split_and!.
  - eapply signed_in_trans; [exact H1|exact Hin].
  - by rewrite Ho.
  - intros h. rewrite elem_of_app. unfold l0, hub_passes. intros [Hh|Hh].
    + destruct (bool_decide (hPublicKey (mHub nm) = "") || signed_hub set (mHub nm)) eqn:Eo; [by apply elem_of_nil in Hh|].
      apply list_elem_of_singleton in Hh as ->. apply orb_false_iff in Eo as [Ek ?].
      apply bool_decide_eq_false in Ek. split; [done|]. left. done.
    + destruct (Hheld h Hh) as (? & x & ?). split; [done|]. right. by exists x.
  - intros x Hx Hp. destruct (Hall x Hx Hp) as (h & ? & ?). exists h. rewrite elem_of_app. auto.
Qed.

(** The record moves only by what the lock accepts, and a first one only by the
    expected key. *)
Lemma UpdateLock_spec off expected p p' r : UpdateLock Verify off expected p = (p', r) →
  peers p' = peers p ∧ hub p' = hub p ∧
  (lock p' = lock p ∨ ∃ s, off = Some s ∧ lock p' = Some s ∧ LockRecord.Accept Verify (record <$> lock p) s = Ok () ∧
     (lock p = None → expected ≠ "" →
        ∃ b k, recordBytes (record s) = Ok b ∧ k ∈ Signers (record s) ∧ matchesLockKey (sKey k) expected = true ∧ Verify (sKey k) b (signature s) = true)).
Proof.
  unfold UpdateLock. destruct off as [s|]; [|by destruct (lock p) eqn:?; intros [= <- _]; auto].
  destruct (match lock p with Some c => same_offer c s | None => false end) eqn:Esame; [by intros [= <- _]; auto|].
  destruct (if bool_decide (lock p = None) && bool_decide (expected ≠ "") then firstRecordBy Verify s expected else None) eqn:Ef;
    [by intros [= <- _]; auto|].
  destruct (LockRecord.Accept Verify (record <$> lock p) s) as [[]|] eqn:Ea; [|by intros [= <- _]; auto].
  intros [= <- _]. split_and!; try done. right. exists s. split_and!; try done. intros Hl He.
  rewrite !bool_decide_true in Ef by done. cbn [andb] in Ef. unfold firstRecordBy in Ef.
  destruct (recordBytes (record s)) as [b|]; [|done].
  destruct (list_find _ _) as [[i k]|] eqn:El; [|done]. apply list_find_Some in El as (Hk & Hm & _).
  destruct (Verify _ _ _) eqn:Ev; [|done]. exists b, k. split_and!; try done. by eapply list_elem_of_lookup_2.
Qed.
End LockSpec.

(** ** Pins that can be read back *)

Definition snapshot (p : Pins) : pinFile := {| fHub := hub p; fPeers := peers p; fLock := lock p |}.

(** The file holds the pins, unless they are dirty; without a file there are none. *)
Definition synced (p : Pins) : Prop :=
  dirty p = true ∨ match file p with Some f => f = snapshot p | None => peers p = ∅ ∧ hub p = "" ∧ lock p = None end.

Definition all_complete (m : gmap string pinEntry) : Prop := map_Forall (λ n e, complete n e = true) m.

Record pins_sound (p : Pins) : Prop := { ps_complete : all_complete (peers p); ps_synced : synced p }.

Lemma saved_synced wrote p p' ok : saved wrote p = (p', ok) → synced p' ∧ peers p' = peers p.
Proof. unfold saved, synced. destruct wrote; intros [= <- _]; cbn; auto. Qed.

Lemma pinnable_complete x : pinnable x = true → complete (pName x) (offers x) = true.
Proof. unfold pinnable, complete, offers. cbn. destruct (pViaHub x); [done|]. by intros. Qed.

Lemma insert_complete m n e : complete n e = true → all_complete m → all_complete (<[n:=e]> m).
Proof. intros. by apply map_Forall_insert_2. Qed.

Lemma accept_key_sound name id key p : complete name {| eID := id; eKey := key |} = true ∨ name = HubName → pins_sound p → pins_sound (accept_key name id key p).
Proof.
  intros Hc [Hp Hs]. unfold accept_key. repeat case_bool_decide; split; try done; try (by left).
  apply insert_complete; [|done]. by destruct Hc.
Qed.

Lemma Apply_sound order wrote nm now prev p : pins_sound p → ranges order → pins_sound (Apply order wrote nm now prev p).1.
Proof.
  intros [Hc Hs] Hr. unfold Apply. destruct (apply_hub nm (hub p)) as [[hk ch1] hh] eqn:Eh. apply apply_hub_spec in Eh as (_ & _ & _ & Hch1).
  destruct (apply_peers _ _ _ _) as [[[m ch2] out] held] eqn:E. apply apply_peers_spec in E as (_ & Hn & _ & _ & _ & Hch2).
  assert (all_complete m) as Hm.
  { intros n e He. destruct (Hn n e He) as [?|(_ & x & _ & Hx & <- & ->)]; [by apply Hc|]. apply pinnable_complete in Hx.
    destruct (by_id _ !! pID x) as [e'|] eqn:Eb; [|done]. apply (by_id_pinned _ _ _ _ Hr) in Eb as (_ & n' & Hn'). apply Hc in Hn'.
    unfold complete in *. cbn. repeat case_bool_decide; done. }
  set (p1 := with_pins m (with_hub_pin hk p)).
  assert (pins_sound (if ch1 || ch2 || dirty p1 then saved wrote p1 else (p1, true)).1) as Hp1.
  { destruct (ch1 || ch2 || dirty p1) eqn:Ech.
    - destruct (saved wrote p1) as [p2 ok] eqn:E2. apply saved_synced in E2 as [? Hp2]. split; [|done]. cbn. by rewrite Hp2.
    - apply orb_false_iff in Ech as [[H1 H2]%orb_false_iff Hd]. split; [done|]. unfold synced, snapshot in *. cbn. rewrite (Hch1 H1), (Hch2 H2).
      by destruct Hs as [?|?]; [left|right]. }
  destruct (if ch1 || ch2 || dirty p1 then saved wrote p1 else (p1, true)) as [p2 []]; exact Hp1.
Qed.

(** What a person may trust: an entry with a key, of the hub or of a peer with a name and an id. *)
Definition trustable (h : HeldStatus) : Prop := hOfferedKey h ≠ "" ∧ (hName h = HubName ∨ hName h ≠ "" ∧ hid h ≠ "").

Lemma Trust_sound wrote h p : trustable h → pins_sound p → pins_sound (Trust wrote h p).1.
Proof.
  intros [Hk Hn] [Hc _]. unfold Trust. destruct (saved wrote (trust_entry h p)) as [p' ok] eqn:E. apply saved_synced in E as [? Hp]. split; [|done].
  cbn [fst]. rewrite Hp. unfold trust_entry. case_bool_decide; [done|]. cbn. apply insert_complete; [|done]. unfold complete. cbn.
  destruct Hn as [?|[? ?]]; [done|]. by rewrite !bool_decide_false.
Qed.

Section SoundLock.
Context (Verify : PublicKey → list byte → Signature → bool) (ParseKey : string → option (list byte)).

Lemma UpdateLock_sound off expected p : pins_sound p → pins_sound (UpdateLock Verify off expected p).1.
Proof. intros [Hc Hs]. unfold UpdateLock. repeat case_match; split; try done; by left. Qed.

Lemma hold_peers_sound set since l : ∀ p p' out held, hold_peers Verify ParseKey set since l p = (p', out, held) → pins_sound p → pins_sound p'.
Proof.
  induction l as [|x l IH]; intros p p' out held H Hp; cbn [hold_peers] in H; [by simplify_eq|].
  destruct (pinnable x) eqn:Ex; cbn [negb] in H; [destruct (signedBy _ _ _ _ _ _ _)|].
  all: destruct (hold_peers Verify ParseKey set since l _) as [[q o] h] eqn:E; simplify_eq; eapply IH; [exact E|].
  1: apply accept_key_sound; [left; by apply pinnable_complete|done].
  all: done.
Qed.

Lemma HoldUnsigned_sound nm set now prev p p' out held :
  HoldUnsigned Verify ParseKey nm set now prev p = (p', out, held) → pins_sound p → pins_sound p'.
Proof.
  unfold HoldUnsigned. intros H Hp. destruct (bool_decide _); [|destruct (signedBy _ _ _ _ _ _ _)].
  all: destruct (hold_peers Verify ParseKey set _ (mPeers nm) _) as [[q o] h] eqn:E; simplify_eq; eapply hold_peers_sound; [exact E|].
  2: apply accept_key_sound; [by right|done].
  all: done.
Qed.

Lemma LoadPins_sound f p : LoadPins Verify f = Ok p → pins_sound p ∧ dirty p = false.
Proof.
  unfold LoadPins, synced. destruct f as [[f|e]|]; [|done|].
  2:{ intros [= <-]. split; [|done]. split; [apply map_Forall_empty|]. right. done. }
  case_bool_decide as Hc; cbn [negb]; [|done]. destruct f as [fh fp [s|]]; cbn [fLock fPeers fHub] in *.
  - destruct (LockRecord.Accept _ _ _); [|done]. intros [= <-]. split; [|done]. split; [done|]. by right.
  - intros [= <-]. split; [|done]. split; [done|]. by right.
Qed.

(** What is read back of pins that are not dirty. *)
Lemma LoadPins_file p : pins_sound p → dirty p = false →
  LoadPins Verify (Ok <$> file p) =
    match lock p with
    | Some s => match LockRecord.Accept Verify None s with Ok _ => Ok p | Err e => Err (ErrLockRecord e) end
    | None => Ok p
    end.
Proof.
  intros [Hc Hs] Hd. destruct Hs as [?|Hs]; [congruence|]. destruct p as [h m l d f]. cbn in *. subst d. destruct f as [f|].
  - unfold snapshot in Hs. cbn in Hs. subst f. cbn. rewrite bool_decide_true by done. cbn. by destruct l.
  - destruct Hs as (-> & -> & ->). done.
Qed.
End SoundLock.
