(* ===== verification/Device.v ===== *)
(** The device's daemon as a state: the parts of [internal/client/daemon.go],
    [state.go], [dns.go] ([StripZone]) and [lock.go] that decide what the device is configured with.

    Each operation is one section under the daemon's locks.  What the device
    and the disk answered, the clock, the order of Go's maps and drawn keys are
    inputs.  The files of the state directory other than the pins are written
    without being read again while the daemon runs and are left out, but for
    the cached map. *)

From Stdlib Require Import Strings.Ascii.
From S2P Require Import Prelude GoStrings NetIP LockRecord ClientMap Pins.
From S2P Require Filter.

(** ** State *)

(** [State] of [state.go]. *)
Record State := {
  stServer : string; stFingerprint : string; stPeerID : string; stName : string; stIPv4 : string; stOverlayCIDR : string; stIPv6 : string;
  stOverlayIPv6 : string; stNodeSecret : string; stHubPublicKey : string; stHubEndpoint : string; stEnrolledAt : Z; stListenPort : Z;
  stLockSigner : string; stAdvertiseRoutes : list string; stExitNode : string; stExitNodeID : string;
}.

Definition with_name (n : string) (s : State) : State :=
  {| stServer := stServer s; stFingerprint := stFingerprint s; stPeerID := stPeerID s; stName := n; stIPv4 := stIPv4 s; stOverlayCIDR := stOverlayCIDR s;
     stIPv6 := stIPv6 s; stOverlayIPv6 := stOverlayIPv6 s; stNodeSecret := stNodeSecret s; stHubPublicKey := stHubPublicKey s;
     stHubEndpoint := stHubEndpoint s; stEnrolledAt := stEnrolledAt s; stListenPort := stListenPort s; stLockSigner := stLockSigner s;
     stAdvertiseRoutes := stAdvertiseRoutes s; stExitNode := stExitNode s; stExitNodeID := stExitNodeID s |}.

Definition with_ipv6 (a o : string) (s : State) : State :=
  {| stServer := stServer s; stFingerprint := stFingerprint s; stPeerID := stPeerID s; stName := stName s; stIPv4 := stIPv4 s; stOverlayCIDR := stOverlayCIDR s;
     stIPv6 := a; stOverlayIPv6 := o; stNodeSecret := stNodeSecret s; stHubPublicKey := stHubPublicKey s; stHubEndpoint := stHubEndpoint s;
     stEnrolledAt := stEnrolledAt s; stListenPort := stListenPort s; stLockSigner := stLockSigner s; stAdvertiseRoutes := stAdvertiseRoutes s;
     stExitNode := stExitNode s; stExitNodeID := stExitNodeID s |}.

Definition with_exit (name id : string) (s : State) : State :=
  {| stServer := stServer s; stFingerprint := stFingerprint s; stPeerID := stPeerID s; stName := stName s; stIPv4 := stIPv4 s; stOverlayCIDR := stOverlayCIDR s;
     stIPv6 := stIPv6 s; stOverlayIPv6 := stOverlayIPv6 s; stNodeSecret := stNodeSecret s; stHubPublicKey := stHubPublicKey s;
     stHubEndpoint := stHubEndpoint s; stEnrolledAt := stEnrolledAt s; stListenPort := stListenPort s; stLockSigner := stLockSigner s;
     stAdvertiseRoutes := stAdvertiseRoutes s; stExitNode := name; stExitNodeID := id |}.

(** [adoptSelfName]: the previous name when it was taken over. *)
Definition adoptSelfName (nm : NetMap) (st : State) : State * option string :=
  if bool_decide (mSelfName nm = "") || bool_decide (mSelfName nm = stName st)
     || (bool_decide (mSelfID nm ≠ "") && bool_decide (mSelfID nm ≠ stPeerID st))
  then (st, None)
  else (with_name (mSelfName nm) st, Some (stName st)).

Definition adoptSelfIPv6 (nm : NetMap) (st : State) : State * bool :=
  if bool_decide (mSelfIPv6 nm = stIPv6 st) && bool_decide (mOverlay6 nm = stOverlayIPv6 st) then (st, false)
  else (with_ipv6 (mSelfIPv6 nm) (mOverlay6 nm) st, true).

Fixpoint followExitNode (peers : list Peer) (st : State) : State * bool :=
  match peers with
  | [] => (st, false)
  | p :: l =>
      if bool_decide (stExitNodeID st ≠ "") && bool_decide (pID p = stExitNodeID st) then
        if bool_decide (pName p = stExitNode st) then (st, false) else (with_exit (pName p) (stExitNodeID st) st, true)
      else if bool_decide (stExitNodeID st = "") && bool_decide (stExitNode st ≠ "") && bool_decide (pName p = stExitNode st) && pExitNode p then
        (with_exit (stExitNode st) (pID p) st, true)
      else followExitNode l st
  end.

(** Why the lock record of the server was not adopted. *)
Inductive rejection := Why (r : refusal) | Waiting.

(** [Daemon], with what its device was last told: [dConfig], [dRoutes] and
    [dFilter]; [dCache] is the cached map on disk. *)
Record Daemon := {
  dState : State; dOverlay : prefix; dSelfIP : addr; dKey : list byte; dPins : Pins; dHeld : list HeldStatus; dOffered : option NetMap;
  dNetmap : option NetMap; dRejected : option rejection; dAdvertise : list prefix; dAdvertised : list AdvertisedRoute;
  dConfig : option WgConfig; dRoutes : option (list prefix); dFilter : option Filter.FilterSet; dCache : option NetMap;
}.

(** What the world answers during an application. *)
Record Answers := {
  aNow : Z; aOrder : gmap string pinEntry → list (string * pinEntry); aPinsWritten : bool; aConfigured : bool; aName : string;
  aFilterable : bool; aFilterSet : bool; aRoutable : bool; aRoutesSet : bool; aCached : bool;
}.

Inductive apply_error := ErrPins | ErrConfig (e : config_error) | ErrConfigure.

Definition StripZone (name : string) : string :=
  of_chars (trim_suffix (chars ".thawr") (trim_suffix (chars ".") (to_lower (trim_space (chars name))))).

(** [ParseAdvertised]. *)
Definition ParseAdvertised1 (overlay : prefix) (r : string) : option prefix :=
  p ← ParsePrefix (of_chars (trim_space (chars r)));
  if negb (Is4 (paddr p)) then None
  else if negb (bool_decide (Masked p = p)) then None
  else if bool_decide (p ≠ ExitRoute) && PIsValid overlay && Overlaps p overlay then None
  else Some p.

Definition ParseAdvertised (raw : list string) (overlay : prefix) : option (list prefix) := mapM (ParseAdvertised1 overlay) raw.

(** [selectHeld]: one of the names. *)
Inductive trust_error := ErrNotHeld | ErrUnsigned | ErrNothing | ErrSave | ErrApply (e : apply_error).

Definition select_one (held : list HeldStatus) (name : string) : result trust_error (list HeldStatus) :=
  let name := StripZone name in
  if bool_decide (name = "all") then Ok (filter (λ h, hReason h ≠ HeldUnsigned) held)
  else
    match list_find (λ h, hName h = name) held with
    | None => Err ErrNotHeld
    | Some (_, h) => if bool_decide (hReason h = HeldUnsigned) then Err ErrUnsigned else Ok [h]
    end.

Fixpoint select_all (held : list HeldStatus) (names : list string) : result trust_error (list HeldStatus) :=
  match names with
  | [] => Ok []
  | n :: names => a ← select_one held n; b ← select_all held names; Ok (a ++ b)
  end.

Definition selectHeld (held : list HeldStatus) (names : list string) : result trust_error (list HeldStatus) :=
  accept ← select_all held names;
  if bool_decide (accept = []) then Err ErrNothing else Ok accept.

(** [d.pins.Trust] one by one, up to the first write that fails. *)
Fixpoint trust_each (wrote : list bool) (accept : list HeldStatus) (p : Pins) : Pins * bool :=
  match accept with
  | [] => (p, true)
  | h :: accept =>
      let '(p, ok) := Trust (default true (head wrote)) h p in
      if ok then trust_each (tail wrote) accept p else (p, false)
  end.

(** [SetExitNode]'s loop: the last peer of that name that is an exit node. *)
Definition exit_node_id (nm : option NetMap) (name : string) : string :=
  match nm with
  | Some nm => foldl (λ id p, if bool_decide (pName p = name) && pExitNode p && negb (pViaHub p) then pID p else id) "" (mPeers nm)
  | None => ""
  end.

Definition ExitNodeOff : string := "off".

(** ** Applying a map *)

Definition with_pins (p : Pins) (d : Daemon) : Daemon :=
  {| dState := dState d; dOverlay := dOverlay d; dSelfIP := dSelfIP d; dKey := dKey d; dPins := p; dHeld := dHeld d; dOffered := dOffered d;
     dNetmap := dNetmap d; dRejected := dRejected d; dAdvertise := dAdvertise d; dAdvertised := dAdvertised d; dConfig := dConfig d;
     dRoutes := dRoutes d; dFilter := dFilter d; dCache := dCache d |}.
Definition with_state (s : State) (d : Daemon) : Daemon :=
  {| dState := s; dOverlay := dOverlay d; dSelfIP := dSelfIP d; dKey := dKey d; dPins := dPins d; dHeld := dHeld d; dOffered := dOffered d;
     dNetmap := dNetmap d; dRejected := dRejected d; dAdvertise := dAdvertise d; dAdvertised := dAdvertised d; dConfig := dConfig d;
     dRoutes := dRoutes d; dFilter := dFilter d; dCache := dCache d |}.
Definition with_key (k : list byte) (d : Daemon) : Daemon :=
  {| dState := dState d; dOverlay := dOverlay d; dSelfIP := dSelfIP d; dKey := k; dPins := dPins d; dHeld := dHeld d; dOffered := dOffered d;
     dNetmap := dNetmap d; dRejected := dRejected d; dAdvertise := dAdvertise d; dAdvertised := dAdvertised d; dConfig := dConfig d;
     dRoutes := dRoutes d; dFilter := dFilter d; dCache := dCache d |}.
(** [d.offered, d.held, d.lockRejected = ...]. *)
Definition with_offer (o : NetMap) (h : list HeldStatus) (r : option rejection) (d : Daemon) : Daemon :=
  {| dState := dState d; dOverlay := dOverlay d; dSelfIP := dSelfIP d; dKey := dKey d; dPins := dPins d; dHeld := h; dOffered := Some o;
     dNetmap := dNetmap d; dRejected := r; dAdvertise := dAdvertise d; dAdvertised := dAdvertised d; dConfig := dConfig d;
     dRoutes := dRoutes d; dFilter := dFilter d; dCache := dCache d |}.
Definition with_advertised (l : list AdvertisedRoute) (d : Daemon) : Daemon :=
  {| dState := dState d; dOverlay := dOverlay d; dSelfIP := dSelfIP d; dKey := dKey d; dPins := dPins d; dHeld := dHeld d; dOffered := dOffered d;
     dNetmap := dNetmap d; dRejected := dRejected d; dAdvertise := dAdvertise d; dAdvertised := l; dConfig := dConfig d;
     dRoutes := dRoutes d; dFilter := dFilter d; dCache := dCache d |}.
(** What the device runs from now on. *)
Definition with_device (cfg : WgConfig) (routes : option (list prefix)) (set : option Filter.FilterSet) (nm : NetMap) (cache : option NetMap)
    (d : Daemon) : Daemon :=
  {| dState := dState d; dOverlay := dOverlay d; dSelfIP := dSelfIP d; dKey := dKey d; dPins := dPins d; dHeld := dHeld d; dOffered := dOffered d;
     dNetmap := Some nm; dRejected := dRejected d; dAdvertise := dAdvertise d; dAdvertised := dAdvertised d; dConfig := Some cfg;
     dRoutes := routes; dFilter := set; dCache := cache |}.

Definition with_config (cfg : WgConfig) (d : Daemon) : Daemon :=
  {| dState := dState d; dOverlay := dOverlay d; dSelfIP := dSelfIP d; dKey := dKey d; dPins := dPins d; dHeld := dHeld d; dOffered := dOffered d;
     dNetmap := dNetmap d; dRejected := dRejected d; dAdvertise := dAdvertise d; dAdvertised := dAdvertised d; dConfig := Some cfg;
     dRoutes := dRoutes d; dFilter := dFilter d; dCache := dCache d |}.

Section Apply.
Context (Verify : PublicKey → list byte → Signature → bool) (ParseKey : string → option (list byte))
  (LookupNetIP : string → string → option (list addr)).

(** Enrolled with a signer and no record yet: nothing is trusted. *)
Definition waiting (signer : string) (p : Pins) : bool := bool_decide (signer ≠ "") && bool_decide (lock p = None).

(** The lock and the pins, in this order, on what the server offered. *)
Definition screen (a : Answers) (signer : string) (nm : NetMap) (prev : list HeldStatus) (p : Pins) :
    Pins * option (NetMap * list HeldStatus) * option rejection :=
  let '(p, why) := UpdateLock Verify (mLock nm) signer p in
  let wait := waiting signer p in
  let rejected := match why with Some r => Some (Why r) | None => if wait then Some Waiting else None end in
  let nm := if wait then with_hub NoHub (with_peers [] nm) else nm in
  let '(p, nm, held) :=
    match lock p with
    | Some s => if Enabled (record s) then HoldUnsigned Verify ParseKey nm (record s) (aNow a) prev p else (p, nm, [])
    | None => (p, nm, [])
    end in
  let '(p, r) := Pins.Apply (aOrder a) (aPinsWritten a) nm (aNow a) prev p in
  (p, (λ '(nm, keys), (nm, by_held_name (held ++ keys))) <$> r, rejected).

(** [installRoutes], [installFilter]: what is in force afterwards. *)
Definition installRoutes (a : Answers) (cfg : WgConfig) (overlays : list prefix) (old : option (list prefix)) : option (list prefix) :=
  if aRoutable a && aRoutesSet a then Some (RoutesOf cfg overlays) else old.

Definition installFilter (a : Answers) (nm : NetMap) (d : Daemon) : option Filter.FilterSet :=
  if aFilterable a && aFilterSet a then Some (FilterSetFor nm (aName a) (dSelfIP d) (dOverlay d) (dAdvertise d)) else dFilter d.

(** The device's part of [applyLocked]. *)
Definition configure (a : Answers) (offered nm : NetMap) (cache : bool) (d : Daemon) : Daemon * option apply_error :=
  match BuildConfigWith ParseKey LookupNetIP nm (dKey d) (stListenPort (dState d)) (dOverlay d) (stExitNodeID (dState d)) with
  | Err e => (d, Some (ErrConfig e))
  | Ok cfg =>
      if negb (aConfigured a) then (d, Some ErrConfigure)
      else
        (with_device cfg (installRoutes a cfg (Overlays nm (dOverlay d)) (dRoutes d)) (installFilter a nm d) nm
           (if cache && aCached a then Some offered else dCache d) d, None)
  end.

Definition applyLocked (a : Answers) (nm : NetMap) (cache : bool) (d : Daemon) : Daemon * option apply_error :=
  let '(st, _) := adoptSelfName nm (dState d) in
  let '(st, _) := followExitNode (mPeers nm) st in
  let '(st, _) := adoptSelfIPv6 nm st in
  let d := with_state st d in
  let d := if bool_decide (mAdvertised nm ≠ []) then with_advertised (mAdvertised nm) d else d in
  let '(p, r, rejected) := screen a (stLockSigner st) nm (dHeld d) (dPins d) in
  let d := with_pins p d in
  match r with
  | None => (d, Some ErrPins)
  | Some (applied, held) => configure a nm applied cache (with_offer nm held rejected d)
  end.

Definition reapply (a : Answers) (d : Daemon) : Daemon * option apply_error :=
  match dOffered d with None => (d, None) | Some nm => applyLocked a nm false d end.

(** [Daemon.Trust]. *)
Definition TrustHeld (a : Answers) (wrote : list bool) (names : list string) (d : Daemon) : Daemon * result trust_error (list HeldStatus) :=
  match selectHeld (dHeld d) names with
  | Err e => (d, Err e)
  | Ok accept =>
      let '(p, ok) := trust_each wrote accept (dPins d) in
      let d := with_pins p d in
      if ok then match reapply a d with (d, None) => (d, Ok accept) | (d, Some e) => (d, Err (ErrApply e)) end
      else (d, Err ErrSave)
  end.

Inductive exit_error := ErrNotExitNode | ErrSaveState | ErrReapply (e : apply_error).

Definition SetExitNode (a : Answers) (stateSaved : bool) (name : string) (d : Daemon) : Daemon * option exit_error :=
  let name := StripZone name in
  let name := if bool_decide (name = ExitNodeOff) then "" else name in
  let id := if bool_decide (name = "") then "" else exit_node_id (dNetmap d) name in
  if bool_decide (name ≠ "") && bool_decide (id = "") then (d, Some ErrNotExitNode)
  else
    let d := with_state (with_exit name id (dState d)) d in
    if negb stateSaved then (d, Some ErrSaveState)
    else match reapply a d with (d, None) => (d, None) | (d, Some e) => (d, Some (ErrReapply e)) end.

(** [RotateKey] once the server took the new key and it is on disk. *)
Definition switch_key (a : Answers) (newKey : list byte) (d : Daemon) : Daemon * option apply_error := reapply a (with_key newKey d).

(** [setLockRecord] once the server took the record. *)
Definition adopt_own_record (a : Answers) (wrote : bool) (s : Signed) (d : Daemon) : Daemon * option apply_error :=
  let '(p, ok) := SetLock wrote s (dPins d) in
  let d := with_pins p d in
  if ok then reapply a d else (d, Some ErrPins).

(** [NewDaemon], of what the state directory holds; ports, sockets and
    certificates are left out. *)
Inductive start_error := ErrOverlay | ErrAddress | ErrPinsFile (e : load_pins_error) | ErrAdvertised.

Definition NewDaemon (st : State) (key : list byte) (f : option (result load_pins_error pinFile)) (cache : option NetMap) : result start_error Daemon :=
  overlay ← of_option ErrOverlay (ParsePrefix (stOverlayCIDR st));
  selfIP ← of_option ErrAddress (ParseAddr (stIPv4 st));
  pins ← match LoadPins Verify f with Ok p => Ok p | Err e => Err (ErrPinsFile e) end;
  advertise ← of_option ErrAdvertised (ParseAdvertised (stAdvertiseRoutes st) overlay);
  Ok {| dState := st; dOverlay := Masked overlay; dSelfIP := selfIP; dKey := key; dPins := pins; dHeld := []; dOffered := None; dNetmap := None;
        dRejected := None; dAdvertise := advertise; dAdvertised := []; dConfig := None; dRoutes := None; dFilter := None; dCache := cache |}.

(** The start of [Run]: the cached map, or the interface alone. *)
Definition base_map (st : State) : NetMap :=
  {| mGeneration := 0; mSelfID := ""; mSelfName := ""; mSelfKind := ""; mSelfIPv4 := ""; mOverlay := ""; mSelfIPv6 := stIPv6 st;
     mOverlay6 := stOverlayIPv6 st; mPeers := []; mHub := NoHub; mReceivedAt := 0; mServerVersion := ""; mSTUN := []; mFilter := [];
     mSelfSignatures := []; mLock := None; mForward := []; mAdvertised := [] |}.

Definition base_config (d : Daemon) : WgConfig :=
  {| cPrivateKey := dKey d; cListenPort := stListenPort (dState d);
     cAddresses := PrefixFrom (dSelfIP d) (pbits (dOverlay d)) ::
       match selfIPv6 (base_map (dState d)) with Some (a, ov) => [PrefixFrom a (pbits ov)] | None => [] end;
     cPeers := []; cFwMark := 0 |}.

Definition start (a : Answers) (d : Daemon) : Daemon * option apply_error :=
  match dCache d with
  | Some nm => applyLocked a nm false d
  | None => if aConfigured a then (with_config (base_config d) d, None) else (d, Some ErrConfigure)
  end.
End Apply.
