(* ===== verification/DeviceSafety.v ===== *)
(** What a device trusts: every key it is configured with was accepted, and
    every accepted key has an origin. *)

From S2P Require Import Prelude GoStrings NetIP LockRecord ClientMap Pins Device.

Section Screen.
Context (Verify : PublicKey → list byte → Signature → bool) (ParseKey : string → option (list byte))
  (LookupNetIP : string → string → option (list addr)).

(** The record in force, when it turns the lock on. *)
Definition locked (l : option Signed) : option LockRecord :=
  match l with Some s => if Enabled (record s) then Some (record s) else None | None => None end.

Definition admitted (l : option Signed) (x : Peer) : bool :=
  match locked l with Some set => passes Verify ParseKey set x | None => true end.

Definition hub_admitted (l : option Signed) (nm : NetMap) : bool :=
  match locked l with Some set => hub_passes Verify ParseKey set nm | None => true end.

(** A signer of the record in force signed what an entry of the map offers. *)
Definition by_signature (l : option Signed) (nm : NetMap) (n : string) (e : pinEntry) : Prop :=
  ∃ set x, locked l = Some set ∧ x ∈ mPeers nm ∧ pinnable x = true ∧ signed_peer Verify ParseKey set x = true ∧ pName x = n ∧ e = offers x.

(** A name heard of for the first time takes the key offered, or one accepted
    for the same peer under another name. *)
Definition first_contact (p p' : Pins) (nm : NetMap) (n : string) (e : pinEntry) : Prop :=
  peers p !! n = None ∧ ∃ x, x ∈ mPeers nm ∧ pinnable x = true ∧ pName x = n ∧ admitted (lock p') x = true ∧
    (e = offers x ∨ eID e = pID x ∧ ∃ n', n' ≠ n ∧ peers p' !! n' = Some e).

(** The hub's key by the lock: signed as the hub, or by the name of a peer. *)
Definition hub_by_signature (l : option Signed) (nm : NetMap) (k : string) : Prop :=
  ∃ set, locked l = Some set ∧ k ≠ "" ∧
    ((signed_hub Verify ParseKey set (mHub nm) = true ∧ k = hPublicKey (mHub nm)) ∨
     ∃ x, x ∈ mPeers nm ∧ pinnable x = true ∧ signed_peer Verify ParseKey set x = true ∧ pName x = HubName ∧ k = pPublicKey x).

(** The record after an offer. *)
Definition lock_moves (expected : string) (off l l' : option Signed) : Prop :=
  l' = l ∨ ∃ s, off = Some s ∧ l' = Some s ∧ LockRecord.Accept Verify (record <$> l) s = Ok () ∧
    (l = None → expected ≠ "" →
       ∃ b k, recordBytes (record s) = Ok b ∧ k ∈ Signers (record s) ∧ matchesLockKey (sKey k) expected = true ∧ Verify (sKey k) b (signature s) = true).

Record screened (signer : string) (nm : NetMap) (p p' : Pins) : Prop := {
  sc_lock : lock_moves signer (mLock nm) (lock p) (lock p');
  sc_kept : ∀ n, is_Some (peers p !! n) → is_Some (peers p' !! n);
  sc_origin : ∀ n e, peers p' !! n = Some e →
    peers p !! n = Some e ∨ by_signature (lock p') nm n e ∨ first_contact p p' nm n e;
  sc_hub : hub p' = hub p ∨ hub_by_signature (lock p') nm (hub p') ∨ hub p = "" ∧ hub p' = hPublicKey (mHub nm) ∧ hub_admitted (lock p') nm = true;
}.

(** What is applied of a map, by the pins in the end. *)
Definition allowed (signer : string) (p' : Pins) (x : Peer) : bool :=
  negb (waiting signer p') && admitted (lock p') x && accepted (peers p') x.
Definition hub_allowed (signer : string) (p' : Pins) (nm : NetMap) : bool :=
  negb (waiting signer p') && hub_admitted (lock p') nm && hub_accepted (hub p') nm.

Record screened_out (signer : string) (nm : NetMap) (p' : Pins) (out : NetMap) (held : list HeldStatus) : Prop := {
  so_peers : mPeers out = filter (λ x, allowed signer p' x = true) (mPeers nm);
  so_hub : mHub out = if hub_allowed signer p' nm then mHub nm else NoHub;
  so_rest : out = with_peers (mPeers out) (with_hub (mHub out) nm);
  so_held : ∀ x, x ∈ mPeers nm → waiting signer p' = false → allowed signer p' x = false →
    ∃ h, h ∈ held ∧ hName h = pName x ∧ hOfferedKey h = pPublicKey x;
  so_clean : dirty p' = false;
  so_changed : ∀ h, h ∈ held → hReason h = HeldKeyChanged →
    (hName h = HubName ∧ hid h = "" ∧ hOfferedKey h = hPublicKey (mHub nm) ∧ hPublicKey (mHub nm) ≠ "") ∨
    ∃ x, x ∈ mPeers nm ∧ pinnable x = true ∧ hName h = pName x ∧ {| eID := hid h; eKey := hOfferedKey h |} = offers x;
}.

Lemma filter_filter_bool {A} (f g : A → bool) (l : list A) :
  filter (λ x, f x = true) (filter (λ x, g x = true) l) = filter (λ x, g x && f x = true) l.
Proof. rewrite list_filter_filter. apply list_filter_iff. intros x. rewrite andb_true_iff. naive_solver. Qed.

Lemma filter_true {A} (l : list A) : filter (λ _, true = true) l = l.
Proof. induction l as [|x l IH]; [done|]. rewrite filter_cons, IH. by rewrite decide_True. Qed.

Lemma waiting_unlocked signer p : waiting signer p = true → locked (lock p) = None.
Proof. unfold waiting. rewrite andb_true_iff, !bool_decide_eq_true. by intros [_ ->]. Qed.

(** The lock's part of [screen]. *)
Definition hold (a : Answers) (nm : NetMap) (prev : list HeldStatus) (p : Pins) : Pins * NetMap * list HeldStatus :=
  match lock p with
  | Some s => if Enabled (record s) then HoldUnsigned Verify ParseKey nm (record s) (aNow a) prev p else (p, nm, [])
  | None => (p, nm, [])
  end.

Lemma hold_spec a nm prev p p' out held : hold a nm prev p = (p', out, held) →
  lock p' = lock p ∧
  (∀ n, is_Some (peers p !! n) → is_Some (peers p' !! n)) ∧
  (∀ n e, peers p' !! n = Some e → peers p !! n = Some e ∨ by_signature (lock p) nm n e) ∧
  (hub p' = hub p ∨ hub_by_signature (lock p) nm (hub p')) ∧
  out = with_peers (filter (λ x, admitted (lock p) x = true) (mPeers nm)) (with_hub (if hub_admitted (lock p) nm then mHub nm else NoHub) nm) ∧
  (∀ x, x ∈ mPeers nm → admitted (lock p) x = false → ∃ h, h ∈ held ∧ hName h = pName x ∧ hOfferedKey h = pPublicKey x) ∧
  (∀ h, h ∈ held → hReason h = HeldUnsigned).
Proof.
  unfold hold, by_signature, hub_by_signature, admitted, hub_admitted, locked.
  assert ((p, nm, []) = (p', out, held) → lock p' = lock p ∧ peers p' = peers p ∧ hub p' = hub p ∧ held = [] ∧
    out = with_peers (filter (λ _ : Peer, true = true) (mPeers nm)) (with_hub (mHub nm) nm)) as Hoff.
  { intros [= <- <- <-]. split_and!; try done. rewrite filter_true. by destruct nm. }
  assert (∀ x : HeldStatus, x ∉ []) as Hnil by (intros x; apply not_elem_of_nil).
  destruct (lock p) as [s|] eqn:El; [destruct (Enabled (record s)) eqn:Een|].
  2,3: intros (Hl & Hp & Hh & -> & Ho)%Hoff; rewrite Hp; split_and!; eauto; [by intros|by intros h ?%Hnil].
  intros ([Hl Hn Hk Hh] & Ho & Hheld & Hall)%HoldUnsigned_spec. split_and!; try done; try congruence.
  - intros n e He. destruct (Hn n e He) as [?|(x & ? & ? & ? & ? & ? & ?)]; [by left|]. right. by exists (record s), x.
  - destruct Hh as [?|[(? & ? & ?)|(x & ? & ? & ? & ? & ?)]]; [by left|right..]; exists (record s); (split; [done|]).
    + split; [congruence|by left].
    + split; [|right; by exists x]. intros Hk0. unfold pinnable in *. rewrite (bool_decide_true (pPublicKey x = "")), !orb_true_r in * by congruence. done.
  - rewrite Ho. destruct (hub_passes _ _ _ _); [by rewrite with_hub_same|done].
  - intros h (? & _)%Hheld. done.
Qed.

Lemma screen_spec a signer nm prev p p' r rej : ranges (aOrder a) →
  screen Verify ParseKey a signer nm prev p = (p', r, rej) →
  screened signer nm p p' ∧ (pins_sound p → pins_sound p') ∧
  ∀ out held, r = Some (out, held) → screened_out signer nm p' out held.
Proof.
  intros Hr. unfold screen. destruct (UpdateLock Verify (mLock nm) signer p) as [p1 why] eqn:Eu.
  assert (pins_sound p → pins_sound p1) as Hs1 by (intros Hs; apply (UpdateLock_sound Verify (mLock nm) signer) in Hs; by rewrite Eu in Hs).
  apply UpdateLock_spec in Eu as (Hp1 & Hh1 & Hl1).
  set (nm1 := if waiting signer p1 then with_hub NoHub (with_peers [] nm) else nm). fold (hold a nm1 prev p1).
  destruct (hold a nm1 prev p1) as [[p2 nm2] held1] eqn:E2.
  assert (pins_sound p1 → pins_sound p2) as Hs2.
  { revert E2. unfold hold. repeat case_match; [|by intros [= <- _]..]. apply HoldUnsigned_sound. }
  apply hold_spec in E2 as (Hl2 & Hk2 & Hn2 & Hh2 & Ho2 & Hall2 & Hun2).
  destruct (Pins.Apply (aOrder a) (aPinsWritten a) nm2 (aNow a) prev p2) as [p3 r3] eqn:E3.
  assert (pins_sound p2 → pins_sound p3) as Hs3.
  { intros Hs. apply (Apply_sound (aOrder a) (aPinsWritten a) nm2 (aNow a) prev) in Hs; [|done]. by rewrite E3 in Hs. }
  apply Apply_spec in E3 as ([Hsub Hn3 Hh3 Hl3] & Hap).
  intros [= <- <- _].
  assert (lock p3 = lock p1) as HL by congruence. assert (waiting signer p3 = waiting signer p1) as HW by (unfold waiting; by rewrite HL).
  assert (mPeers nm1 ⊆ mPeers nm) as Hnm1 by (unfold nm1; destruct (waiting signer p1); [apply list_subseteq_nil|done]).
  assert (∀ x, x ∈ mPeers nm2 → x ∈ mPeers nm ∧ admitted (lock p3) x = true) as Hnm2.
  { intros x. rewrite Ho2. cbn [with_peers mPeers]. rewrite list_elem_of_filter, HL. intros [? ?]. split; [by apply Hnm1|done]. }
  assert (∀ set, locked (lock p1) = Some set → nm1 = nm) as Hset1.
  { intros set Hset. unfold nm1. destruct (waiting signer p1) eqn:Ew; [|done]. apply waiting_unlocked in Ew. congruence. }
  split_and!.
  - split.
    + rewrite HL. unfold lock_moves. destruct Hl1; auto.
    + intros n Hn. rewrite <- Hp1 in Hn. apply Hk2 in Hn as [e He]. exists e. by eapply lookup_weaken.
    + intros n e He. destruct (Hn3 n e He) as [He2|(Hnone & x & Hx & Hpx & Hnx & ->)].
      * destruct (Hn2 n e He2) as [He1|(set & x & Hset & Hx & H)]; [left; by rewrite <- Hp1|right; left].
        exists set, x. rewrite HL, <- (Hset1 set Hset). done.
      * right. right. split.
        { destruct (peers p !! n) eqn:En; [|done]. rewrite <- Hp1 in En. destruct (Hk2 n) as [? ?]; [by eexists|congruence]. }
        exists x. destruct (Hnm2 x Hx). split_and!; try done. destruct (by_id _ !! pID x) as [e'|] eqn:Eb; cbn [default]; [|by left].
        right. apply (by_id_pinned _ _ _ _ Hr) in Eb as (? & n' & Hn'). split; [done|]. exists n'. split; [intros ->; congruence|by eapply lookup_weaken].
    + rewrite HL. destruct Hh3 as [->|[He Hh3]].
      * destruct Hh2 as [->|(set & Hset & H)]; [left; congruence|]. right. left. exists set. split; [done|]. by rewrite (Hset1 set Hset) in H.
      * destruct Hh2 as [Hh2|(set & Hset & H)].
        { rewrite Hh2, Hh1 in He. destruct (decide (hub p3 = hub p)) as [?|Hne]; [by left|]. right. right. split; [done|].
          revert Hh3. rewrite Ho2. cbn [with_peers with_hub mHub]. destruct (hub_admitted (lock p1) nm1) eqn:Ea; [|cbn; congruence].
          unfold nm1 in *. destruct (waiting signer p1); [cbn; congruence|done]. }
        by destruct H as [? _].
  - auto.
  - intros out held H. destruct r3 as [[o k]|]; [|done]. injection H as <- <-.
    destruct (Hap o k eq_refl) as [A1 A2 A3 A4 A5 A6 A7 A8 A9 A12 A10 A11].
    assert (∀ x, allowed signer p3 x = negb (waiting signer p1) && admitted (lock p1) x && accepted (peers p3) x) as Hall by (intros x; unfold allowed; by rewrite HW, HL).
    split.
    + rewrite A7, Ho2. cbn [with_peers with_hub mPeers]. rewrite filter_filter_bool. unfold nm1.
      destruct (waiting signer p1); cbn [negb andb] in *.
      * cbn [mPeers with_hub with_peers]. symmetry. rewrite filter_nil. clear -Hall.
        induction (mPeers nm) as [|x l IH]; [done|]. rewrite filter_cons, decide_False; [done|]. by rewrite Hall.
      * apply list_filter_iff. intros x. by rewrite Hall.
    + rewrite A8. unfold hub_allowed. rewrite HW, HL. rewrite Ho2. unfold hub_accepted. cbn [with_peers with_hub mHub]. unfold nm1.
      destruct (waiting signer p1); cbn [negb andb mHub with_hub with_peers]; [by destruct (hub_admitted _ _), (_ || _)|].
      destruct (hub_admitted (lock p1) nm); cbn [andb]; [done|]. by destruct (_ || _).
    + rewrite A9, Ho2. unfold nm1. by destruct (waiting signer p1).
    + intros x Hx Hw Ha. rewrite HW in Hw. rewrite Hall, Hw in Ha. cbn [negb andb] in Ha.
      destruct (admitted (lock p1) x) eqn:Ead; cbn [andb] in Ha.
      * destruct (A11 x) as (h & ? & ? & ?); [|done|exists h; rewrite elem_of_by_held_name, elem_of_app; auto].
        rewrite Ho2. cbn [with_peers mPeers]. unfold nm1. rewrite Hw. by apply list_elem_of_filter.
      * destruct (Hall2 x) as (h & ? & ? & ?); [unfold nm1; by rewrite Hw|done|exists h; rewrite elem_of_by_held_name, elem_of_app; auto].
    + done.
    + intros h Hh Hc. apply elem_of_by_held_name, elem_of_app in Hh as [Hh|Hh]; [apply Hun2 in Hh; congruence|].
      destruct (A10 h Hh) as (_ & [(? & ? & Hk & Hna)|(x & Hx & Hax & ? & ?)]).
      * left. unfold hub_accepted in Hna. apply orb_false_iff in Hna as [Hne _]. apply bool_decide_eq_false in Hne. rewrite Hk.
        revert Hne. rewrite Ho2. cbn [with_peers with_hub mHub]. unfold nm1.
        destruct (waiting signer p1); cbn [mHub with_hub with_peers]; [by destruct (hub_admitted _ _)|].
        by destruct (hub_admitted _ _).
      * right. exists x. destruct (Hnm2 x Hx). split_and!; try done. unfold accepted in Hax. by destruct (pinnable x).
Qed.

(** ** The other ways a key is accepted *)

(** A person trusted a held entry, by its name or with all others. *)
Definition named (names : list string) (h : HeldStatus) : Prop := ∃ m, m ∈ names ∧ (StripZone m = "all" ∨ StripZone m = hName h).

Definition trusted (held : list HeldStatus) (names : list string) (h : HeldStatus) : Prop :=
  h ∈ held ∧ hReason h = HeldKeyChanged ∧ named names h.

Lemma select_all_spec held names : ∀ accept, select_all held names = Ok accept → Forall (trusted held names) accept.
Proof.
  assert (∀ h, hReason h ≠ HeldUnsigned → hReason h = HeldKeyChanged) as Hr by (intros h; by destruct (hReason h)).
  induction names as [|m names IH]; intros accept H; cbn [select_all] in H; [by simplify_eq|].
  apply result_bind_ok in H as (l & Hl & H). apply result_bind_ok in H as (l' & Hl' & H). injection H as <-. apply Forall_app. split.
  - apply Forall_forall. intros h Hh. unfold select_one in Hl. case_bool_decide as Ha.
    + injection Hl as <-. apply list_elem_of_filter in Hh as [Hu Hh]. split_and!; [done|by apply Hr|]. exists m. split; [left|by left].
    + destruct (list_find _ held) as [[i k]|] eqn:Ef; [|done]. case_bool_decide; [done|]. injection Hl as <-.
      apply list_elem_of_singleton in Hh as ->. apply list_find_Some in Ef as (Hi & Hn & _). split_and!; [by eapply list_elem_of_lookup_2|by apply Hr|].
      exists m. split; [left|by right].
  - eapply Forall_impl; [by apply IH|]. intros h (? & ? & n & ? & ?). split_and!; try done. exists n. split; [by right|done].
Qed.

Lemma trust_each_spec wrote accept : ∀ p p' ok, trust_each wrote accept p = (p', ok) →
  lock p' = lock p ∧ (∀ n, is_Some (peers p !! n) → is_Some (peers p' !! n)) ∧
  (∀ n e, peers p' !! n = Some e → peers p !! n = Some e ∨
     ∃ h, h ∈ accept ∧ hName h = n ∧ n ≠ HubName ∧ e = {| eID := hid h; eKey := hOfferedKey h |}) ∧
  (hub p' = hub p ∨ ∃ h, h ∈ accept ∧ hName h = HubName ∧ hub p' = hOfferedKey h).
Proof.
  revert wrote. induction accept as [|h accept IH]; intros wrote p p' ok H; cbn [trust_each] in H; [simplify_eq; split_and!; auto|].
  destruct (Trust (default true (head wrote)) h p) as [p1 ok1] eqn:E.
  assert (lock p1 = lock p ∧ peers p1 = peers (trust_entry h p) ∧ hub p1 = hub (trust_entry h p)) as (Hl & Hp & Hh).
  { unfold Trust, saved in E. destruct (default true (head wrote)); injection E as <- _; cbn; unfold trust_entry; by case_bool_decide. }
  assert (lock p1 = lock p ∧ (∀ n, is_Some (peers p !! n) → is_Some (peers p1 !! n)) ∧
    (∀ n e, peers p1 !! n = Some e → peers p !! n = Some e ∨ hName h = n ∧ n ≠ HubName ∧ e = {| eID := hid h; eKey := hOfferedKey h |}) ∧
    (hub p1 = hub p ∨ hName h = HubName ∧ hub p1 = hOfferedKey h)) as (_ & H2 & H3 & H4).
  { rewrite Hp, Hh, Hl. unfold trust_entry. case_bool_decide; cbn; split_and!; auto.
    - intros n Hn. rewrite lookup_insert_is_Some'. by right.
    - intros n e [[<- <-]|[_ ?]]%lookup_insert_Some; [right; done|by left]. }
  destruct ok1.
  - destruct (IH _ _ _ _ H) as (A1 & A2 & A3 & A4). split_and!; [congruence|auto| |].
    + intros n e He. destruct (A3 n e He) as [He1|(k & ? & ?)]; [|right; exists k; split; [by right|done]].
      destruct (H3 n e He1) as [?|?]; [by left|]. right. exists h. split; [left|done].
    + destruct A4 as [->|(k & ? & ?)]; [|right; exists k; split; [by right|done]].
      destruct H4 as [?|?]; [by left|]. right. exists h. split; [left|done].
  - simplify_eq. split_and!; [done|done| |].
    + intros n e He. destruct (H3 n e He) as [?|?]; [by left|]. right. exists h. split; [left|done].
    + destruct H4 as [?|?]; [by left|]. right. exists h. split; [left|done].
Qed.

(** ** Applications *)

Lemma signer_kept nm st : stLockSigner (adoptSelfIPv6 nm (followExitNode (mPeers nm) (adoptSelfName nm st).1).1).1 = stLockSigner st.
Proof.
  assert (∀ l s, stLockSigner (followExitNode l s).1 = stLockSigner s) as Hf.
  { induction l as [|x l IH]; intros s; [done|]. cbn [followExitNode]. repeat case_match; done. }
  assert (stLockSigner (adoptSelfName nm st).1 = stLockSigner st) as H by (unfold adoptSelfName; by case_match).
  unfold adoptSelfIPv6. case_match; cbn [fst with_ipv6 stLockSigner]; by rewrite Hf.
Qed.

(** The state of the daemon after an application. *)
Lemma applyLocked_spec a nm cache d d' err : ranges (aOrder a) →
  applyLocked Verify ParseKey LookupNetIP a nm cache d = (d', err) →
  screened (stLockSigner (dState d)) nm (dPins d) (dPins d') ∧ (pins_sound (dPins d) → pins_sound (dPins d')) ∧
  (dHeld d' = dHeld d ∨ ∃ out, screened_out (stLockSigner (dState d)) nm (dPins d') out (dHeld d')) ∧
  (err = None → ∃ cfg out, dConfig d' = Some cfg ∧ dNetmap d' = Some out ∧ dOffered d' = Some nm ∧
     screened_out (stLockSigner (dState d)) nm (dPins d') out (dHeld d') ∧
     BuildConfigWith ParseKey LookupNetIP out (dKey d) (stListenPort (dState d')) (dOverlay d) (stExitNodeID (dState d')) = Ok cfg ∧
     dFilter d' = if aFilterable a && aFilterSet a then Some (FilterSetFor out (aName a) (dSelfIP d) (dOverlay d) (dAdvertise d)) else dFilter d).
Proof.
  intros Hr. unfold applyLocked. pose proof (signer_kept nm (dState d)) as Hs.
  destruct (adoptSelfName nm (dState d)) as [st1 rn]. cbn [fst] in Hs. destruct (followExitNode (mPeers nm) st1) as [st2 em]. cbn [fst] in Hs.
  destruct (adoptSelfIPv6 nm st2) as [st v6]. cbn [fst] in Hs. rewrite Hs.
  set (d1 := if bool_decide (mAdvertised nm ≠ []) then with_advertised (mAdvertised nm) (with_state st d) else with_state st d).
  assert (dPins d1 = dPins d ∧ dHeld d1 = dHeld d ∧ dState d1 = st ∧ dKey d1 = dKey d ∧ dOverlay d1 = dOverlay d ∧
    dSelfIP d1 = dSelfIP d ∧ dAdvertise d1 = dAdvertise d ∧ dFilter d1 = dFilter d) as (Hp & Hh & Hst & Hk & Ho & Hip & Had & Hf) by (unfold d1; by case_bool_decide).
  rewrite Hp, Hh. destruct (screen _ _ _ _ _ _ _) as [[p r] rej] eqn:E. apply screen_spec in E as (Hsc & Hsound & Hout); [|done].
  destruct r as [[out held]|]; [|intros [= <- <-]; split_and!; try done; by left].
  specialize (Hout out held eq_refl). unfold configure. cbn [with_offer with_pins dKey dState dOverlay].
  rewrite Hk, Hst, Ho.
  destruct (BuildConfigWith _ _ _ _ _ _ _) as [cfg|e] eqn:Eb.
  2:{ intros [= <- <-]. split_and!; try done. right. by exists out. }
  destruct (negb (aConfigured a)).
  { intros [= <- <-]. split_and!; try done. right. by exists out. }
  intros [= <- <-]. cbn [with_device dPins dHeld dConfig dNetmap dOffered dState with_offer with_pins]. rewrite Hst. split_and!; [done|done|right; by exists out|].
  intros _. exists cfg, out. split_and!; try done. cbn [dFilter with_device]. unfold installFilter. cbn [dSelfIP dOverlay dAdvertise dFilter with_offer with_pins].
  by rewrite Hip, Ho, Had, Hf.
Qed.

(** ** Steps of the daemon *)

Inductive event :=
  | EvStart (a : Answers)
  | EvMap (a : Answers) (nm : NetMap)
  | EvTrust (a : Answers) (wrote : list bool) (names : list string)
  | EvExit (a : Answers) (saved : bool) (name : string)
  | EvKey (a : Answers) (key : list byte)
  | EvRecord (a : Answers) (wrote : bool) (s : Signed).

Definition ev_answers (ev : event) : Answers :=
  match ev with EvStart a | EvMap a _ | EvTrust a _ _ | EvExit a _ _ | EvKey a _ | EvRecord a _ _ => a end.

Definition device_step (ev : event) (d : Daemon) : Daemon :=
  match ev with
  | EvStart a => (start Verify ParseKey LookupNetIP a d).1
  | EvMap a nm => (applyLocked Verify ParseKey LookupNetIP a nm true d).1
  | EvTrust a wrote names => (TrustHeld Verify ParseKey LookupNetIP a wrote names d).1
  | EvExit a sv name => (SetExitNode Verify ParseKey LookupNetIP a sv name d).1
  | EvKey a key => (switch_key Verify ParseKey LookupNetIP a key d).1
  | EvRecord a wrote s => (adopt_own_record Verify ParseKey LookupNetIP a wrote s d).1
  end.

(** The map a step applies, if it does. *)
Definition ev_map (ev : event) (d : Daemon) : option NetMap :=
  match ev with EvStart _ => dCache d | EvMap _ nm => Some nm | _ => dOffered d end.

Definition by_trust (ev : event) (d : Daemon) (n k i : string) : Prop :=
  match ev with
  | EvTrust _ _ names => ∃ h, trusted (dHeld d) names h ∧ hName h = n ∧ hOfferedKey h = k ∧ hid h = i
  | _ => False
  end.

(** The pins just before a step applies its map. *)
Definition before (ev : event) (d : Daemon) (p : Pins) : Prop :=
  (lock p = lock (dPins d) ∨ match ev with EvRecord _ _ s => lock p = Some s | _ => False end) ∧
  (∀ n, is_Some (peers (dPins d) !! n) → is_Some (peers p !! n)) ∧
  (∀ n e, peers p !! n = Some e → peers (dPins d) !! n = Some e ∨ n ≠ HubName ∧ by_trust ev d n (eKey e) (eID e)) ∧
  (hub p = hub (dPins d) ∨ ∃ i, by_trust ev d HubName (hub p) i).

Lemma before_same ev d p : lock p = lock (dPins d) → peers p = peers (dPins d) → hub p = hub (dPins d) → before ev d p.
Proof. intros H1 H2 H3. unfold before. rewrite H1, H2, H3. split_and!; auto. Qed.

Lemma reapply_spec a d : ranges (aOrder a) →
  ∃ d', (reapply Verify ParseKey LookupNetIP a d).1 = d' ∧
    (dPins d' = dPins d ∨ ∃ nm, dOffered d = Some nm ∧ screened (stLockSigner (dState d)) nm (dPins d) (dPins d')).
Proof.
  intros Hr. eexists. split; [done|]. unfold reapply. destruct (dOffered d) as [nm|]; [|by left]. right. exists nm. split; [done|].
  destruct (applyLocked _ _ _ _ _ _ _) as [d' err] eqn:E. by apply applyLocked_spec in E as (? & _).
Qed.

(** A step is: pins trusted or a record of one's own, then a map screened. *)
Lemma device_step_spec ev d : ranges (aOrder (ev_answers ev)) →
  ∃ p, before ev d p ∧
    (dPins (device_step ev d) = p ∨
     ∃ nm, ev_map ev d = Some nm ∧ screened (stLockSigner (dState d)) nm p (dPins (device_step ev d))).
Proof.
  intros Hr. destruct ev as [a|a nm|a wrote names|a sv name|a key|a wrote s]; cbn [ev_answers ev_map device_step] in *.
  - exists (dPins d). split; [by apply before_same|]. unfold start. destruct (dCache d) as [nm|]; [|left; by destruct (aConfigured a)].
    right. exists nm. split; [done|]. destruct (applyLocked _ _ _ _ _ _ _) as [d' err] eqn:E. by apply applyLocked_spec in E as (? & _).
  - exists (dPins d). split; [by apply before_same|]. right. exists nm. split; [done|].
    destruct (applyLocked _ _ _ _ _ _ _) as [d' err] eqn:E. by apply applyLocked_spec in E as (? & _).
  - unfold TrustHeld. destruct (selectHeld (dHeld d) names) as [accept|e] eqn:Esel.
    2:{ exists (dPins d). split; [by apply before_same|by left]. }
    destruct (trust_each wrote accept (dPins d)) as [p ok] eqn:Et. apply trust_each_spec in Et as (T1 & T2 & T3 & T4).
    assert (Forall (trusted (dHeld d) names) accept) as Hacc.
    { unfold selectHeld in Esel. apply result_bind_ok in Esel as (l & Hl & Esel). case_bool_decide; [done|]. injection Esel as ->. by apply select_all_spec. }
    rewrite Forall_forall in Hacc.
    exists p. split.
    { split_and!; [by left|done| |].
      - intros n e He. destruct (T3 n e He) as [?|(h & Hh & Hn & Hne & ->)]; [by left|]. right. split; [done|]. exists h. split; [by apply Hacc|done].
      - destruct T4 as [?|(h & Hh & Hn & Hk)]; [by left|]. right. exists (hid h), h. split; [by apply Hacc|done]. }
    destruct ok; [|by left]. destruct (reapply_spec a (with_pins p d) Hr) as (d' & <- & H).
    destruct (reapply _ _ _ _ _) as [d' [e|]]; cbn [fst] in *; exact H.
  - exists (dPins d). split; [by apply before_same|]. unfold SetExitNode.
    set (nm' := if bool_decide (StripZone name = ExitNodeOff) then "" else StripZone name). destruct (_ && _); [by left|].
    destruct (negb sv); [by left|].
    match goal with |- context [reapply _ _ _ a ?d1] => destruct (reapply_spec a d1 Hr) as (d' & <- & H) end.
    destruct (reapply _ _ _ _ _) as [d' [e|]]; cbn [fst] in *; exact H.
  - exists (dPins d). split; [by apply before_same|]. unfold switch_key. destruct (reapply_spec a (with_key key d) Hr) as (d' & <- & H). exact H.
  - unfold adopt_own_record. destruct (SetLock wrote s (dPins d)) as [p ok] eqn:E.
    assert (lock p = Some s ∧ peers p = peers (dPins d) ∧ hub p = hub (dPins d)) as (H1 & H2 & H3).
    { unfold SetLock, saved in E. by destruct wrote; injection E as <- _. }
    exists p. split; [unfold before; rewrite H2, H3; split_and!; auto|]. destruct ok; [|by left].
    destruct (reapply_spec a (with_pins p d) Hr) as (d' & <- & H). exact H.
Qed.

(** ** Daemons as they come to be *)

Inductive reachable : Daemon → Prop :=
  | reach_new st key f cache d : NewDaemon Verify st key f cache = Ok d → reachable d
  | reach_step ev d : reachable d → ranges (aOrder (ev_answers ev)) → reachable (device_step ev d).

Record device_sound (d : Daemon) : Prop := {
  ds_pins : pins_sound (dPins d);
  ds_held : ∀ h, h ∈ dHeld d → hReason h = HeldKeyChanged → trustable h;
}.

Lemma screened_out_trustable signer nm p out held : screened_out signer nm p out held →
  ∀ h, h ∈ held → hReason h = HeldKeyChanged → trustable h.
Proof.
  intros [_ _ _ _ _ Hc] h Hh Hr. destruct (Hc h Hh Hr) as [(? & ? & Hk & ?)|(x & _ & Hx & Hn & He)].
  - split; [congruence|by left].
  - apply pinnable_complete in Hx. unfold complete in Hx. apply negb_true_iff, orb_false_iff in Hx as [[H1 H2]%orb_false_iff H3].
    apply bool_decide_eq_false in H1, H2, H3. rewrite <- He in H2, H3. cbn in H2, H3. split; [done|]. right. by rewrite Hn.
Qed.

Lemma applyLocked_sound a nm cache d : ranges (aOrder a) → device_sound d →
  device_sound (applyLocked Verify ParseKey LookupNetIP a nm cache d).1.
Proof.
  intros Hr [Hp Hh]. destruct (applyLocked _ _ _ _ _ _ _) as [d' err] eqn:E. apply applyLocked_spec in E as (_ & Hs & Hheld & _); [|done].
  split; [by apply Hs|]. destruct Hheld as [Hheld|(out & Hout)]; cbn [fst]; [by rewrite Hheld|by eapply screened_out_trustable].
Qed.

Lemma reapply_sound a d : ranges (aOrder a) → device_sound d → device_sound (reapply Verify ParseKey LookupNetIP a d).1.
Proof. intros. unfold reapply. destruct (dOffered d); [by apply applyLocked_sound|done]. Qed.

Lemma trust_each_sound wrote accept : ∀ p, Forall trustable accept → pins_sound p → pins_sound (trust_each wrote accept p).1.
Proof.
  revert wrote. induction accept as [|h accept IH]; intros wrote p Hf Hp; cbn [trust_each]; [done|]. apply Forall_cons in Hf as [Hh Hf].
  apply (Trust_sound (default true (head wrote)) h p) in Hp; [|done]. destruct (Trust _ _ _) as [p' []]; [by apply IH|done].
Qed.

Lemma selected_trustable d names accept : device_sound d → selectHeld (dHeld d) names = Ok accept →
  Forall (trusted (dHeld d) names) accept ∧ Forall trustable accept.
Proof.
  intros [_ Hh] H. unfold selectHeld in H. apply result_bind_ok in H as (l & Hl & H). case_bool_decide; [done|]. injection H as ->.
  apply select_all_spec in Hl. split; [done|]. eapply Forall_impl; [exact Hl|]. intros h (? & ? & _). by apply Hh.
Qed.

Lemma step_sound ev d : ranges (aOrder (ev_answers ev)) → device_sound d → device_sound (device_step ev d).
Proof.
  intros Hr Hd. destruct ev as [a|a nm|a wrote names|a sv name|a key|a wrote s]; cbn [ev_answers device_step] in *.
  - unfold start. destruct (dCache d); [by apply applyLocked_sound|]. destruct (aConfigured a); [|done]. by destruct Hd.
  - by apply applyLocked_sound.
  - unfold TrustHeld. destruct (selectHeld (dHeld d) names) as [accept|e] eqn:Es; [|done]. destruct (selected_trustable _ _ _ Hd Es) as [_ Ht].
    destruct Hd as [Hp Hh]. apply (trust_each_sound wrote _ _ Ht) in Hp. destruct (trust_each wrote accept (dPins d)) as [p ok].
    assert (device_sound (with_pins p d)) as Hd by by split. destruct ok; [|done].
    apply (reapply_sound a _ Hr) in Hd. by destruct (reapply _ _ _ _ _) as [d' []].
  - unfold SetExitNode. destruct (_ && _); [done|]. destruct (negb sv); [by destruct Hd|].
    match goal with |- context [reapply _ _ _ a ?d1] => assert (device_sound d1) as H1 by (by destruct Hd); apply (reapply_sound a _ Hr) in H1 end.
    by destruct (reapply _ _ _ _ _) as [d' []].
  - apply reapply_sound; [done|]. by destruct Hd.
  - unfold adopt_own_record. destruct (SetLock wrote s (dPins d)) as [p ok] eqn:E.
    assert (device_sound (with_pins p d)) as H1.
    { destruct Hd as [[Hc _] Hh]. unfold SetLock in E. apply saved_synced in E as [Hs Hp]. split; [|done]. split; [|done]. cbn. by rewrite Hp. }
    destruct ok; [by apply reapply_sound|done].
Qed.

Lemma reachable_sound d : reachable d → device_sound d.
Proof.
  induction 1 as [st key f cache d H|ev d _ IH Hr]; [|by apply step_sound].
  unfold NewDaemon in H. apply result_bind_ok in H as (o & _ & H). apply result_bind_ok in H as (i & _ & H).
  apply result_bind_ok in H as (p & Hp & H). apply result_bind_ok in H as (adv & _ & H). injection H as <-.
  destruct (LoadPins Verify f) as [q|] eqn:E; [|done]. injection Hp as ->. apply LoadPins_sound in E as [? _].
  split; [done|]. intros h Hh. by apply elem_of_nil in Hh.
Qed.

(** C23: every accepted key has an origin.  A step of a daemon forgets no pinned
    name; a pin it changes was trusted by a person who named the held entry, or
    was offered by the map applied with a signature of a key of the lock record
    then in force, or is a first contact that the lock let through and that
    takes the key offered or one pinned for the same peer id; the hub's key
    likewise.  The lock record moves only to the one a lock operation of the
    device itself installs (one it signed: [LockFlow.signatures_need_a_person])
    or, from there, to one that [Accept] takes from the record before it; a
    first one, which has no record before it, only by the key of the signer
    named at enrolment, if one was. *)
Theorem keys_have_origin (ev : event) (d d' : Daemon) :
  reachable d → ranges (aOrder (ev_answers ev)) → device_step ev d = d' →
  (∀ n, is_Some (peers (dPins d) !! n) → is_Some (peers (dPins d') !! n)) ∧
  (∀ n e, peers (dPins d') !! n = Some e →
     peers (dPins d) !! n = Some e ∨ by_trust ev d n (eKey e) (eID e) ∨
     ∃ nm, ev_map ev d = Some nm ∧ (by_signature (lock (dPins d')) nm n e ∨ first_contact (dPins d) (dPins d') nm n e)) ∧
  (hub (dPins d') = hub (dPins d) ∨ (∃ i, by_trust ev d HubName (hub (dPins d')) i) ∨
     ∃ nm, ev_map ev d = Some nm ∧
       (hub_by_signature (lock (dPins d')) nm (hub (dPins d')) ∨
        hub (dPins d) = "" ∧ hub (dPins d') = hPublicKey (mHub nm) ∧ hub_admitted (lock (dPins d')) nm = true)) ∧
  ∃ l, (l = lock (dPins d) ∨ match ev with EvRecord _ _ s => l = Some s | _ => False end) ∧
    (lock (dPins d') = l ∨ ∃ nm, ev_map ev d = Some nm ∧ lock_moves (stLockSigner (dState d)) (mLock nm) l (lock (dPins d'))).
Proof.
  intros Hd%reachable_sound Hr <-. destruct (device_step_spec ev d Hr) as (p & (B1 & B2 & B3 & B4) & [Hp|(nm & Hnm & [S1 S2 S3 S4])]).
  - rewrite Hp. split_and!; [done| | |].
    + intros n e He. destruct (B3 n e He) as [?|[? ?]]; auto.
    + destruct B4; auto.
    + exists (lock p). auto.
  - split_and!; [auto| | |].
    + intros n e He. destruct (S3 n e He) as [He'|[Hs|(Hnone & Hc)]].
      * destruct (B3 n e He') as [?|[? ?]]; auto.
      * right. right. exists nm. auto.
      * right. right. exists nm. split; [done|]. right. split; [|exact Hc].
        destruct (peers (dPins d) !! n) eqn:En; [|done]. destruct (B2 n) as [? ?]; [by eexists|congruence].
    + destruct S4 as [Hh|[Hh|(He & Hh & Ha)]].
      * rewrite Hh. destruct B4; auto.
      * right. right. exists nm. auto.
      * right. right. exists nm. split; [done|]. right. split; [|done]. destruct B4 as [<-|[i Hi]]; [done|].
        destruct ev; try done. destruct Hi as (h & (Hin & Hreas & _) & _ & Hk & _). destruct (ds_held d Hd h Hin Hreas) as [? _]. congruence.
    + exists (lock p). split; [done|]. right. by exists nm.
Qed.

(** ** What the device is configured with *)

Lemma peer_configs_spec v6 exit l cs : peer_configs ParseKey v6 exit l = Ok cs →
  Forall2 (λ x w, peer_config ParseKey v6 exit x = Ok w) (filter (λ x, pViaHub x = false) l) cs.
Proof.
  revert cs. induction l as [|x l IH]; intros cs H; cbn [peer_configs] in H; [injection H as <-; constructor|].
  rewrite filter_cons. destruct (pViaHub x); [by apply IH|]. rewrite decide_True by done.
  apply result_bind_ok in H as (c & Hc & H). apply result_bind_ok in H as (cs' & Hcs & H). injection H as <-. constructor; auto.
Qed.

Lemma peer_config_key v6 exit x w : peer_config ParseKey v6 exit x = Ok w → ParseKey (pPublicKey x) = Some (wPublicKey w).
Proof.
  unfold peer_config, of_option. destruct (ParseKey (pPublicKey x)); [|done]. cbn. destruct (parsePrefixes _); [|done]. cbn. by intros [= <-].
Qed.

Lemma BuildConfigWith_keys nm key port ov exit cfg : BuildConfigWith ParseKey LookupNetIP nm key port ov exit = Ok cfg →
  (∀ w, w ∈ cPeers cfg →
     (hPublicKey (mHub nm) ≠ "" ∧ ParseKey (hPublicKey (mHub nm)) = Some (wPublicKey w)) ∨
     ∃ x, x ∈ mPeers nm ∧ pViaHub x = false ∧ ParseKey (pPublicKey x) = Some (wPublicKey w)) ∧
  (∀ x, x ∈ mPeers nm → pViaHub x = false → ∃ w, w ∈ cPeers cfg ∧ ParseKey (pPublicKey x) = Some (wPublicKey w)).
Proof.
  unfold BuildConfigWith. intros H. apply result_bind_ok in H as (ip & _ & H). apply result_bind_ok in H as (hubs & Hh & H).
  apply result_bind_ok in H as (cs & Hc & H). injection H as <-. cbn [cPeers]. apply peer_configs_spec in Hc. split.
  - intros w [Hw|Hw]%elem_of_app.
    + left. destruct (bool_decide (hPublicKey (mHub nm) ≠ "")) eqn:Hk; [apply bool_decide_eq_true in Hk|injection Hh as <-; by apply elem_of_nil in Hw]. split; [done|].
      apply result_bind_ok in Hh as (h & Hh & Hl). injection Hl as <-. apply list_elem_of_singleton in Hw as ->.
      unfold hub_config, of_option in Hh. destruct (ParseKey _); [|done]. cbn in Hh. destruct (parsePrefixes _); [|done]. by injection Hh as <-.
    + right. destruct (Forall2_elem_r _ _ _ _ Hc Hw) as (x & [Hx Hin]%list_elem_of_filter & Hxw). exists x. split_and!; [done..|]. by eapply peer_config_key.
  - intros x Hx Hv. apply list_elem_of_lookup in Hx as [i Hx].
    assert (x ∈ filter (λ x, pViaHub x = false) (mPeers nm)) as [j Hj]%list_elem_of_lookup by (apply list_elem_of_filter; split; [done|by eapply list_elem_of_lookup_2]).
    destruct (Forall2_lookup_l _ _ _ _ _ Hc Hj) as (w & Hw & Hxw). exists w. split; [|by eapply peer_config_key].
    apply elem_of_app. right. by eapply list_elem_of_lookup_2.
Qed.

(** C6: a device is configured with accepted keys only.  After a map was
    applied, each WireGuard peer is the hub with its pinned key, signed while
    the lock is on, or an entry of the map whose name, id and key are the
    pinned ones, signed while the lock is on; the exception are entries without
    a name or an id, which pass unchecked.  Every entry that passes is
    configured, one that does not is reported as held, and a device that waits
    for its first lock record is configured with no peer at all.  The pins are
    on disk. *)
Theorem only_accepted_keys (a : Answers) (nm : NetMap) (cache : bool) (d d' : Daemon) :
  ranges (aOrder a) → applyLocked Verify ParseKey LookupNetIP a nm cache d = (d', None) →
  dirty (dPins d') = false ∧
  ∃ cfg, dConfig d' = Some cfg ∧
    (∀ w, w ∈ cPeers cfg →
       waiting (stLockSigner (dState d)) (dPins d') = false ∧
       ((ParseKey (hPublicKey (mHub nm)) = Some (wPublicKey w) ∧ hub (dPins d') = hPublicKey (mHub nm) ∧
         ∀ set, locked (lock (dPins d')) = Some set → signed_hub Verify ParseKey set (mHub nm) = true) ∨
        ∃ x, x ∈ mPeers nm ∧ pViaHub x = false ∧ ParseKey (pPublicKey x) = Some (wPublicKey w) ∧
          (pName x = "" ∨ pID x = "" ∨ pPublicKey x = "" ∨
           peers (dPins d') !! pName x = Some (offers x) ∧
           ∀ set, locked (lock (dPins d')) = Some set → signed_peer Verify ParseKey set x = true))) ∧
    (∀ x, x ∈ mPeers nm → waiting (stLockSigner (dState d)) (dPins d') = false →
       (allowed (stLockSigner (dState d)) (dPins d') x = true →
          pViaHub x = true ∨ ∃ w, w ∈ cPeers cfg ∧ ParseKey (pPublicKey x) = Some (wPublicKey w)) ∧
       (allowed (stLockSigner (dState d)) (dPins d') x = false →
          ∃ h, h ∈ dHeld d' ∧ hName h = pName x ∧ hOfferedKey h = pPublicKey x)).
Proof.
  intros Hr H. apply applyLocked_spec in H as (_ & _ & _ & H); [|done].
  destruct (H eq_refl) as (cfg & out & Hcfg & _ & _ & [O1 O2 _ O4 O5 _] & Hb & _). split; [done|]. exists cfg. split; [done|].
  apply BuildConfigWith_keys in Hb as (Hk & Hall). split.
  - intros w Hw. destruct (Hk w Hw) as [[Hne Hkey]|(x & Hx & Hv & Hkey)].
    + rewrite O2 in Hne, Hkey. unfold hub_allowed in *. destruct (waiting _ _); [done|]. split; [done|]. left. cbn [negb andb] in *.
      destruct (hub_admitted (lock (dPins d')) nm) eqn:Ea; [|done]. destruct (hub_accepted (hub (dPins d')) nm) eqn:Eh; [|done]. cbn [andb] in *.
      split_and!; [done| |].
      * unfold hub_accepted in Eh. by apply orb_true_iff in Eh as [Eh%bool_decide_eq_true|Eh%bool_decide_eq_true].
      * intros set Hset. unfold hub_admitted in Ea. rewrite Hset in Ea. unfold hub_passes in Ea. by apply orb_true_iff in Ea as [Ea%bool_decide_eq_true|].
    + rewrite O1 in Hx. apply list_elem_of_filter in Hx as [Ha Hx]. unfold allowed in Ha.
      apply andb_true_iff in Ha as [[Hw' Ha1]%andb_true_iff Ha2]. apply negb_true_iff in Hw'. split; [done|]. right. exists x. split_and!; try done.
      destruct (pinnable x) eqn:Ep.
      * right. right. right. rewrite accepted_pinnable in Ha2 by done. apply bool_decide_eq_true in Ha2. split; [done|].
        intros set Hset. unfold admitted in Ha1. rewrite Hset in Ha1. unfold passes in Ha1. by rewrite Ep in Ha1.
      * unfold pinnable in Ep. rewrite Hv in Ep. apply negb_false_iff in Ep. cbn [orb] in Ep.
        apply orb_true_iff in Ep as [[?%bool_decide_eq_true|?%bool_decide_eq_true]%orb_true_iff|?%bool_decide_eq_true]; auto.
  - intros x Hx Hw. split; [intros Ea|by apply O4].
    destruct (pViaHub x) eqn:Ev; [by left|]. right. apply Hall; [|done]. rewrite O1. by apply list_elem_of_filter.
Qed.

(** C40: accepted keys survive a restart.  The pins of a daemon that has written
    them are read back as they are, unless the lock record is one that none of
    its own keys signed; then the file is refused and the daemon does not start
    again, though the record was accepted from its predecessor. *)
Theorem pins_survive_restart (d : Daemon) : reachable d → dirty (dPins d) = false →
  (LoadPins Verify (Ok <$> file (dPins d)) = Ok (dPins d) ↔
     ∀ s, lock (dPins d) = Some s → (∃ b, recordBytes (record s) = Ok b) ∧ signed_by Verify (record s) s) ∧
  (LoadPins Verify (Ok <$> file (dPins d)) = Ok (dPins d) ∨ ∃ e, LoadPins Verify (Ok <$> file (dPins d)) = Err (ErrLockRecord e)).
Proof.
  intros Hd%reachable_sound Hc. rewrite (LoadPins_file Verify _ (ds_pins d Hd) Hc). destruct (lock (dPins d)) as [s|]; [|split; [done|by left]].
  pose proof (Accept_ok Verify None s) as Ha. cbn [in_force] in Ha. destruct (LockRecord.Accept Verify None s) as [[]|e].
  - split; [|by left]. split; [|done]. intros _ s' [= <-]. by apply Ha.
  - split; [|right; by exists e]. split; [done|]. intros H. by pose proof (proj2 Ha (H s eq_refl)).
Qed.
End Screen.

(** ** A device meets a lock *)

(** Signatures for the demonstration: the first byte is the signer's. *)
Definition demo_verify (k : PublicKey) (_ : list byte) (s : Signature) : bool := bool_decide (head k = head s).
Definition demo_key (s : string) : option (list byte) := if bool_decide (s = "") then None else Some (string_bytes s).
Definition no_names (_ _ : string) : option (list addr) := None.

Definition demo_signer : PublicKey := replicate 32 Byte.x01.
Definition demo_other : PublicKey := replicate 32 Byte.x02.
Definition demo_sig (b : byte) : Signature := replicate 64 b.
Definition demo_mark : PeerSignature := {| psSigner := KeyText demo_signer; psSignature := SignatureText (demo_sig Byte.x01) |}.

Definition demo_record (g : Z) (off : bool) (l : list Signer) : Signed :=
  {| record := {| Generation := g; Disabled := off; Signers := l |}; signature := demo_sig Byte.x01 |}.
Definition demo_lock : Signed := demo_record 1 false [{| sKey := demo_signer; sPeerID := "p1" |}].
(** Signed by the signer of [demo_lock], who is not in it any more. *)
Definition demo_handover : Signed := demo_record 2 false [{| sKey := demo_other; sPeerID := "p2" |}].

Definition demo_peer (id name key ip : string) (sigs : list PeerSignature) : Peer :=
  {| pID := id; pName := name; pKind := "peer"; pOwner := ""; pPublicKey := key; pIPv4 := ip; pIPv6 := ""; pOnline := true; pEndpoints := [];
     pSymmetric := false; pKeepalive := false; pAllowedIPs := []; pViaHub := false; pSignatures := sigs; pExitNode := false; pWanted := false;
     pWantSeq := 0 |}.

Definition demo_offer (l : option Signed) (ps : list Peer) : NetMap :=
  {| mGeneration := 1; mSelfID := "p0"; mSelfName := "desk"; mSelfKind := "peer"; mSelfIPv4 := "100.64.0.2"; mOverlay := "100.64.0.0/24";
     mSelfIPv6 := ""; mOverlay6 := ""; mPeers := ps;
     mHub := {| hPublicKey := "hubkey"; hEndpoint := "192.0.2.1:51820"; hAllowedIPs := ["100.64.0.1/32"]; hSignatures := [demo_mark] |};
     mReceivedAt := 0; mServerVersion := ""; mSTUN := []; mFilter := []; mSelfSignatures := []; mLock := l; mForward := []; mAdvertised := [] |}.

Definition demo_answers : Answers :=
  {| aNow := 7; aOrder := λ m, map_to_list m; aPinsWritten := true; aConfigured := true; aName := "thawr0"; aFilterable := true;
     aFilterSet := true; aRoutable := true; aRoutesSet := true; aCached := true |}.

Definition demo_state : State :=
  {| stServer := "vpn.example:443"; stFingerprint := ""; stPeerID := "p0"; stName := "desk"; stIPv4 := "100.64.0.2"; stOverlayCIDR := "100.64.0.0/24";
     stIPv6 := ""; stOverlayIPv6 := ""; stNodeSecret := "s"; stHubPublicKey := ""; stHubEndpoint := ""; stEnrolledAt := 0; stListenPort := 51820;
     stLockSigner := ""; stAdvertiseRoutes := []; stExitNode := ""; stExitNodeID := "" |}.

Definition demo_daemon : Daemon :=
  {| dState := demo_state; dOverlay := Prefix (Addr4 0x64400000) 24; dSelfIP := Addr4 0x64400002; dKey := [Byte.x0a];
     dPins := {| hub := ""; peers := ∅; lock := None; dirty := false; file := None |}; dHeld := []; dOffered := None; dNetmap := None;
     dRejected := None; dAdvertise := []; dAdvertised := []; dConfig := None; dRoutes := None; dFilter := None; dCache := None |}.

Definition demo_first : event :=
  EvMap demo_answers (demo_offer (Some demo_lock)
    [demo_peer "p1" "laptop" "key1" "100.64.0.3" [demo_mark]; demo_peer "p2" "phone" "key2" "100.64.0.4" [];
     demo_peer "" "" "keyX" "100.64.0.9" []]).
Definition demo_locked : Daemon := device_step demo_verify demo_key no_names demo_first demo_daemon.

Lemma demo_reachable : reachable demo_verify demo_key no_names demo_daemon.
Proof. apply (reach_new _ _ _ demo_state [Byte.x0a] None None). vm_compute. reflexivity. Qed.

Lemma demo_ranges : ranges (aOrder demo_answers).
Proof. intros m. reflexivity. Qed.

(** The unsigned phone is held; the entry without a name is configured though
    nobody signed or accepted its key. *)
Example demo_held : hName <$> dHeld demo_locked = ["phone"].
Proof. vm_compute. reflexivity. Qed.
Example demo_configured : (λ c, wPublicKey <$> cPeers c) <$> dConfig demo_locked = Some (string_bytes <$> ["hubkey"; "key1"; "keyX"]).
Proof. vm_compute. reflexivity. Qed.

(** Of two pins with one id, the one a renamed peer is measured against depends
    on the order of the range. *)
Example demo_rename :
  let m := [("old", {| eID := "p1"; eKey := "k1" |}); ("new", {| eID := "p1"; eKey := "k2" |})] in
  let x := demo_peer "p1" "newest" "k2" "100.64.0.3" [] in
  (matches (pin_for (by_id m) ∅ x) x, matches (pin_for (by_id (reverse m)) ∅ x) x) = (true, false).
Proof. vm_compute. reflexivity. Qed.

(** A signer hands the lock over to another key: the record is accepted, and the
    device cannot read its pins again. *)
Definition demo_handed : Daemon := device_step demo_verify demo_key no_names (EvMap demo_answers (demo_offer (Some demo_handover) [])) demo_locked.
Example demo_locked_out :
  lock (dPins demo_handed) = Some demo_handover ∧ dirty (dPins demo_handed) = false ∧
  LoadPins demo_verify (Ok <$> file (dPins demo_handed)) = Err (ErrLockRecord ErrNotSigned).
Proof. vm_compute. done. Qed.

Lemma keys_have_origin_witness :
  is_Some (peers (dPins demo_locked) !! "laptop") ∧
  ∃ l, (l = lock (dPins demo_daemon) ∨ False) ∧
    (lock (dPins demo_locked) = l ∨
     ∃ nm, ev_map demo_first demo_daemon = Some nm ∧ lock_moves demo_verify (stLockSigner (dState demo_daemon)) (mLock nm) l (lock (dPins demo_locked))).
Proof.
  split; [vm_compute; by eexists|].
  destruct (keys_have_origin demo_verify demo_key no_names demo_first demo_daemon demo_locked demo_reachable demo_ranges eq_refl) as (_ & _ & _ & H).
  exact H.
Defined.

Lemma only_accepted_keys_witness :
  dirty (dPins demo_locked) = false ∧
  ∃ cfg, dConfig demo_locked = Some cfg ∧ ∃ w, w ∈ cPeers cfg ∧ demo_key "key1" = Some (wPublicKey w).
Proof.
  destruct (only_accepted_keys demo_verify demo_key no_names demo_answers
    (demo_offer (Some demo_lock)
      [demo_peer "p1" "laptop" "key1" "100.64.0.3" [demo_mark]; demo_peer "p2" "phone" "key2" "100.64.0.4" [];
       demo_peer "" "" "keyX" "100.64.0.9" []]) true demo_daemon demo_locked demo_ranges ltac:(vm_compute; reflexivity))
    as (Hd & cfg & Hcfg & _ & H).
  split; [exact Hd|]. exists cfg. split; [exact Hcfg|].
  destruct (H (demo_peer "p1" "laptop" "key1" "100.64.0.3" [demo_mark]) ltac:(left) ltac:(vm_compute; reflexivity)) as [Hin _].
  destruct (Hin ltac:(vm_compute; reflexivity)) as [Hv|Hw].
  - vm_compute in Hv. discriminate.
  - exact Hw.
Defined.

Lemma pins_survive_restart_witness :
  LoadPins demo_verify (Ok <$> file (dPins demo_locked)) = Ok (dPins demo_locked) ∧
  ¬ signed_by demo_verify (record demo_handover) demo_handover.
Proof.
  assert (reachable demo_verify demo_key no_names demo_locked) as Hl by (apply (reach_step _ _ _ demo_first); [exact demo_reachable|exact demo_ranges]).
  assert (reachable demo_verify demo_key no_names demo_handed) as Hh.
  { apply (reach_step _ _ _ (EvMap demo_answers (demo_offer (Some demo_handover) []))); [exact Hl|exact demo_ranges]. }
  split.
  - destruct (pins_survive_restart demo_verify demo_key no_names demo_locked Hl ltac:(vm_compute; reflexivity)) as [H _]. apply H.
    intros s Hs. vm_compute in Hs. injection Hs as <-. split; [eexists; vm_compute; reflexivity|].
    exists {| sKey := demo_signer; sPeerID := "p1" |}. eexists. split; [left|]. split; vm_compute; reflexivity.
  - destruct (pins_survive_restart demo_verify demo_key no_names demo_handed Hh ltac:(vm_compute; reflexivity)) as [H _].
    intros Hs. assert (LoadPins demo_verify (Ok <$> file (dPins demo_handed)) = Ok (dPins demo_handed)) as Hc.
    { apply H. intros s Hl'. vm_compute in Hl'. injection Hl' as <-. split; [eexists; vm_compute; reflexivity|exact Hs]. }
    vm_compute in Hc. discriminate.
Defined.
