(* ===== verification/DeviceFilter.v ===== *)
(** What a device lets in: the filter it installs is the policy's, as the server
    sent it over the wire; and it forwards only what it advertises, whatever
    the server sends. *)

From S2P Require Import Prelude GoStrings NetIP LockRecord Store Tables LockService NetMap NetMapSafety.
From S2P Require Policy Selector Ports Compile Endpoints Filter Wire ClientMap Pins Device DeviceSafety.

(** ** Prefixes inside prefixes *)

Lemma div_pow_coarser w n m x y : 0 <= n <= m → m <= w → x `div` 2 ^ (w - m) = y `div` 2 ^ (w - m) → x `div` 2 ^ (w - n) = y `div` 2 ^ (w - n).
Proof.
  intros Hn Hm H. replace (w - n) with ((w - m) + (m - n)) by lia. rewrite Z.pow_add_r by lia.
  rewrite <- !Z.div_div by (try apply Z.pow_nonzero; try apply Z.pow_pos_nonneg; lia). by rewrite H.
Qed.

Lemma Contains_trans p q x : pbits p <= pbits q → pbits q <= BitLen (paddr q) → Contains p (paddr q) = true → Contains q x = true → Contains p x = true.
Proof.
  unfold Contains, PIsValid. intros Hle Hq Hp Hx.
  destruct (Z.leb_spec 0 (pbits p)) as [H0|]; cbn [negb orb] in *; [|done]. destruct (hasZone (paddr q)); [done|].
  destruct (Z.leb_spec 0 (pbits q)); cbn [negb orb] in *; [|done]. destruct (hasZone x); [done|].
  destruct (paddr p), (paddr q), x; try done; cbn [BitLen] in Hq; apply Z.eqb_eq in Hp, Hx; apply Z.eqb_eq; rewrite Hp.
  - by apply (div_pow_coarser 32 _ (pbits q)).
  - by apply (div_pow_coarser 128 _ (pbits q)).
Qed.

Lemma PrefixFrom_bits a n : IsValid a = true → 0 <= n <= BitLen a → pbits (PrefixFrom a n) = n ∧ paddr (PrefixFrom a n) = withoutZone a.
Proof. intros. by rewrite PrefixFrom_valid. Qed.

(** The addresses an address's own prefix contains. *)
Lemma host_contains a x : Contains (ClientMap.host_prefix (Addr4 a)) x = bool_decide (x = Addr4 a).
Proof.
  unfold ClientMap.host_prefix, Contains. rewrite PrefixFrom_valid by (done || cbn; lia). cbn [PIsValid pbits paddr withoutZone BitLen].
  change (PIsValid (Prefix (Addr4 a) 32)) with true. cbn [negb orb]. destruct x as [|b|b z].
  - by rewrite (bool_decide_false (AddrNone = Addr4 a)).
  - change (hasZone (Addr4 b)) with false. cbv iota. replace (32 - 32) with 0 by lia. rewrite Z.pow_0_r, !Z.div_1_r.
    destruct (Z.eqb_spec a b) as [->|Hne]; [by rewrite bool_decide_true|]. rewrite bool_decide_false; [done|]. congruence.
  - rewrite (bool_decide_false (Addr6 b z = Addr4 a)) by done. by destruct (hasZone _).
Qed.

(** ** A router *)

(** Inside something the device advertises. *)
Definition advertised_dst (adv : list prefix) (x : addr) : Prop :=
  (∃ a, a ∈ adv ∧ ClientMap.IsExitRoute a = false ∧ Contains a x = true) ∨ ClientMap.ExitRoute ∈ adv.

Lemma carries_only_advertised adv v6 dst x : pbits dst <= BitLen (paddr dst) → ClientMap.serves adv v6 dst = true → Contains dst x = true → advertised_dst adv x.
Proof.
  intros Hb Hs Hx. unfold ClientMap.serves in Hs. destruct (ClientMap.IsExitRoute dst).
  { right. apply andb_true_iff in Hs as [Hs _]. by apply bool_decide_eq_true in Hs. }
  left. apply existsb_true_iff in Hs as (a & Ha & Hs). go_bool. exists a. split_and!; [done| |].
  - by destruct (ClientMap.IsExitRoute a).
  - by apply (Contains_trans a dst).
Qed.

Lemma FilterSetFor_forward nm iface self ov adv r : r ∈ Filter.sForward (ClientMap.FilterSetFor nm iface self ov adv) →
  ∃ f src v6, f ∈ ClientMap.mForward nm ∧ ParseAddr (ClientMap.fwSrc f) = Some src ∧ ParsePrefix (ClientMap.fwDst f) = Some (Filter.wDst r) ∧
    ClientMap.serves adv v6 (Filter.wDst r) = true ∧ Filter.wSrc r = ClientMap.host_prefix src.
Proof.
  cbn [ClientMap.FilterSetFor Filter.sForward]. rewrite list_elem_of_omap. intros (f & Hf & Hr). unfold ClientMap.forward_rule in Hr.
  destruct (ParseAddr (ClientMap.fwSrc f)) as [src|] eqn:E1; [|done]. cbn in Hr. destruct (ParsePrefix (ClientMap.fwDst f)) as [dst|] eqn:E2; [|done]. cbn in Hr.
  destruct (ClientMap.serves adv _ dst) eqn:E3; [|done]. injection Hr as <-. exists f, src, (bool_decide (is_Some (ClientMap.selfIPv6 nm))). done.
Qed.

Lemma spec_allow_local now b h p set : Filter.parsed b = Some p → Filter.set_of h = Some (Filter.compile_set set) → Filter.Hook set = Filter.HookInput →
  Filter.spec_allow now b h = Filter.answers now p h || Filter.opens (Filter.compile_set set) p.
Proof.
  intros Hp Hs Hh. unfold Filter.spec_allow. rewrite Hp, Hs. cbn [Filter.compile_set Filter.hook]. rewrite Hh. done.
Qed.

(** A device forwards only what it advertises.  Whatever map the server
    sent, once its filter is in force a packet for an address that is not the
    device's own passes only if it answers a flow of the device or its
    destination lies inside a prefix the device itself advertises (anywhere if it
    is an exit node) and a forward rule of the map names its source; and only
    advertised prefixes are masqueraded, an exit node's IPv6 one with them. *)
Theorem forwards_only_advertised (nm : ClientMap.NetMap) (iface : string) (self : addr) (ov : prefix) (adv : list prefix)
    (t0 now : Z) (b : list byte) (p : Filter.packet) (h : list Filter.call) :
  IsValid self = true → Filter.clock now h → Filter.parsed b = Some p →
  Filter.set_of h = Some (Filter.compile_set (ClientMap.FilterSetFor nm iface self ov adv)) →
  (Filter.isLocal (Filter.compile_set (ClientMap.FilterSetFor nm iface self ov adv)) (Filter.dst p) = false →
   (Filter.Inbound now b (Filter.filter_of t0 h)).2 = true →
   Filter.answers now p h = true ∨
   advertised_dst adv (Filter.dst p) ∧
     ∃ f src, f ∈ ClientMap.mForward nm ∧ ParseAddr (ClientMap.fwSrc f) = Some src ∧ Contains (ClientMap.host_prefix src) (Filter.src p) = true) ∧
  (∀ m, m ∈ Filter.Masquerade (ClientMap.FilterSetFor nm iface self ov adv) → m ∈ adv ∨ m = ClientMap.ExitRoute6 ∧ ClientMap.ExitRoute ∈ adv).
Proof.
  intros Hv Hc Hp Hs. split.
  - intros Hl H. rewrite (Filter.Inbound_verdict t0 now b h Hc), (spec_allow_local now b h p _ Hp Hs eq_refl) in H.
    apply orb_true_iff in H as [H|H]; [by left|right]. unfold Filter.opens in H. rewrite Hl in H.
    cbn [Filter.compile_set Filter.hook Filter.local ClientMap.FilterSetFor Filter.Hook Filter.sLocal] in H. rewrite Hv in H. cbn [negb] in H.
    rewrite bool_decide_true in H by done. cbn [andb] in H. unfold Filter.forwardAllows in H. apply existsb_true_iff in H as (r & Hr & H).
    cbn [Filter.compile_set Filter.forward] in Hr. destruct (FilterSetFor_forward nm iface self ov adv r Hr) as (f & src & v6 & Hf & Hsrc & Hdst & Hserve & Hws).
    destruct (Contains (Filter.wSrc r) (Filter.src p)) eqn:E1; [|done]. destruct (Contains (Filter.wDst r) (Filter.dst p)) eqn:E2; [|done]. split.
    + apply (carries_only_advertised adv v6 (Filter.wDst r)); [|done..]. apply ParsePrefix_valid in Hdst as (a & n & -> & ? & ?). cbn [pbits paddr]. rewrite BitLen_withoutZone. lia.
    + exists f, src. by rewrite <- Hws.
  - intros m. cbn [ClientMap.FilterSetFor Filter.Masquerade]. rewrite elem_of_app. intros [?|Hm]; [by left|right].
    destruct (bool_decide (ClientMap.ExitRoute ∈ adv)) eqn:E; [|by apply elem_of_nil in Hm]. apply bool_decide_eq_true in E.
    destruct (bool_decide (is_Some (ClientMap.selfIPv6 nm))); [|by apply elem_of_nil in Hm]. cbn [andb] in Hm. by apply list_elem_of_singleton in Hm.
Qed.

(** ** From the policy to the device *)

(** A rule the wire carries unchanged. *)
Definition sendable (fr : Compile.FilterRule) : Prop :=
  (∃ a, Compile.frSrc fr = Addr4 a ∧ 0 <= a < 2 ^ 32) ∧ Compile.frLo fr <= 65535 ∧ Compile.frHi fr <= 65535.

Definition installed (fr : Compile.FilterRule) : Filter.FilterRule :=
  {| Filter.fSrc := ClientMap.host_prefix (Compile.frSrc fr); Filter.fDst := AddrNone; Filter.fProto := Compile.frProto fr;
     Filter.fLo := Compile.frLo fr; Filter.fHi := Compile.frHi fr |}.

Lemma filter_rule_sent fr : sendable fr → ClientMap.filter_from_proto (Wire.filter_to_proto fr) ≫= ClientMap.filter_rule = Some (installed fr).
Proof.
  intros ((a & Ha & Hr) & Hlo & Hhi). unfold ClientMap.filter_from_proto, Wire.filter_to_proto. cbn [Wire.Proto.fPortLo Wire.Proto.fPortHi Wire.Proto.fSrcIpv4 Wire.Proto.fSrcIpv6].
  rewrite (proj2 (Z.ltb_ge _ _) Hlo), (proj2 (Z.ltb_ge _ _) Hhi). cbn [orb mbind option_bind]. unfold ClientMap.filter_rule, ClientMap.srcOf, Wire.src_v4, Wire.src_v6.
  rewrite Ha. cbn [Is4 ClientMap.frSrc]. rewrite (bool_decide_false (addr_string (Addr4 a) = "")).
  - rewrite ParseAddr_v4_string by done. unfold installed. by rewrite Ha.
  - intros He. pose proof (ParseAddr_v4_string a Hr) as H. by rewrite He in H.
Qed.

(** The rules a device installs for a map that came over the wire. *)
Lemma rules_sent nm now out iface self ov adv : Forall sendable (nmFilter nm) →
  ClientMap.mFilter out = ClientMap.mFilter (ClientMap.NetMapFromProto (Wire.netMapToProto nm) now) →
  Filter.sRules (ClientMap.FilterSetFor out iface self ov adv) = installed <$> nmFilter nm.
Proof.
  intros Hs Ho. cbn [ClientMap.FilterSetFor Filter.sRules]. rewrite Ho. cbn [ClientMap.NetMapFromProto ClientMap.mFilter Wire.netMapToProto Wire.Proto.mFilter].
  induction Hs as [|fr l Hfr _ IH]; [done|]. rewrite !fmap_cons. cbn [omap list_omap]. pose proof (filter_rule_sent fr Hfr) as H.
  destruct (ClientMap.filter_from_proto (Wire.filter_to_proto fr)) as [x|]; [|done]. cbn [mbind option_bind] in H. cbn [omap list_omap]. rewrite H. by f_equal.
Qed.

Lemma selfIPv6_none out : ClientMap.mSelfIPv6 out = "" → ClientMap.selfIPv6 out = None.
Proof. unfold ClientMap.selfIPv6. by intros ->. Qed.

(** TCP and UDP by number and by name. *)
Definition carried (p : Filter.packet) (t : string) : Prop :=
  (Filter.proto p = Filter.protoTCP ∧ t = Filter.ProtoTCP) ∨ (Filter.proto p = Filter.protoUDP ∧ t = Filter.ProtoUDP).

Lemma portsAllow_carried p t pr lo hi : carried p t →
  Filter.portsAllow p pr lo hi = true ↔ (pr = t ∨ pr = Filter.ProtoAny) ∧ lo <= Filter.dport p <= hi.
Proof.
  intros Hc. unfold Filter.portsAllow, Filter.isICMP.
  assert ((Filter.proto p =? Filter.protoICMP) || (Filter.proto p =? Filter.protoICMPv6) = false) as -> by (by destruct Hc as [[-> _]|[-> _]]).
  assert ((Filter.proto p =? Filter.protoTCP) && (bool_decide (pr = Filter.ProtoTCP) || bool_decide (pr = Filter.ProtoAny))
    || (Filter.proto p =? Filter.protoUDP) && (bool_decide (pr = Filter.ProtoUDP) || bool_decide (pr = Filter.ProtoAny))
    = bool_decide (pr = t ∨ pr = Filter.ProtoAny)) as ->.
  { apply eq_true_iff_eq. rewrite orb_true_iff, !andb_true_iff, !orb_true_iff, !bool_decide_eq_true, !Z.eqb_eq.
    destruct Hc as [[-> ->]|[-> ->]]; unfold Filter.protoTCP, Filter.protoUDP; naive_solver. }
  case_bool_decide; [rewrite andb_true_iff, !Z.leb_le|]; naive_solver.
Qed.

Lemma ruleAllows_installed p t fr : carried p t → sendable fr →
  Filter.ruleAllows p (installed fr) = true ↔
    Filter.src p = Compile.frSrc fr ∧ (Compile.frProto fr = t ∨ Compile.frProto fr = Filter.ProtoAny) ∧
    Compile.frLo fr <= Filter.dport p <= Compile.frHi fr.
Proof.
  intros Hc ((a & Ha & _) & _). unfold Filter.ruleAllows, installed. cbn [Filter.fSrc Filter.fDst Filter.fProto Filter.fLo Filter.fHi IsValid].
  rewrite Ha, host_contains, <- (portsAllow_carried p t _ _ _ Hc). cbn [andb]. case_bool_decide; cbn [negb]; naive_solver.
Qed.

(** What an installed filter opens to TCP and UDP towards the device itself. *)
Lemma opens_installed set p t (l : list Compile.FilterRule) : carried p t → Forall sendable l → Filter.sRules set = installed <$> l →
  Filter.Hook set = Filter.HookInput → Filter.dst p = Filter.sLocal set →
  Filter.opens (Filter.compile_set set) p = true ↔
    ∃ fr, fr ∈ l ∧ Filter.src p = Compile.frSrc fr ∧ (Compile.frProto fr = t ∨ Compile.frProto fr = Filter.ProtoAny) ∧
      Compile.frLo fr <= Filter.dport p <= Compile.frHi fr.
Proof.
  intros Hc Hl Hr Hh Hd. unfold Filter.opens, Filter.isLocal. cbn [Filter.compile_set Filter.hook Filter.local Filter.rules Filter.visible].
  rewrite Hd, (bool_decide_true (Filter.sLocal set = Filter.sLocal set)) by done. cbn [orb negb]. rewrite andb_false_r.
  assert (Filter.icmp6Always p = false ∧ Filter.visible_icmp p = false) as [-> ->].
  { unfold Filter.icmp6Always, Filter.visible_icmp. by destruct Hc as [[-> _]|[-> _]]. }
  rewrite andb_false_r. cbn [orb]. rewrite existsb_true_iff, Hr. rewrite Forall_forall in Hl. split.
  - intros (r & (fr & -> & Hfr)%list_elem_of_fmap & H). exists fr. split; [done|]. by apply (ruleAllows_installed p t fr Hc (Hl fr Hfr)).
  - intros (fr & Hfr & H). exists (installed fr). split; [by apply list_elem_of_fmap_2|]. by apply (ruleAllows_installed p t fr Hc (Hl fr Hfr)).
Qed.

(** Rules compiled for a receiver without IPv6. *)
Lemma compiled_sendable pol ps ov y fr : Compile.policy_ports pol → (∀ q, q ∈ ps → ∀ a, Compile.IPv4 q = Addr4 a → 0 <= a < 2 ^ 32) →
  (∀ q, q ∈ ps → Is4 (Compile.IPv6 q) = false) →
  fr ∈ ipv4Filter (Compile.FilterFor (Compile.CompileWith pol ps ov) y) → sendable fr.
Proof.
  intros Hpol H4 H6 (Hs & Hfr)%elem_of_ipv4Filter. pose proof (Compile.FilterFor_ports _ _ _ _ _ Hpol Hfr) as [[? ?] [? ?]]. split; [|lia].
  unfold Compile.FilterFor in Hfr. destruct (Compile.index _ !! y) as [j|]; [|by apply elem_of_nil in Hfr].
  apply elem_of_stable_sort in Hfr. apply elem_of_concat_imap in Hfr as (i & q & Hq & Hfr).
  apply Compile.filter_rules_of_spec in Hfr as (_ & pr & _ & [Hv Hsrc] & _). apply list_elem_of_lookup_2 in Hq. change (q ∈ ps) in Hq.
  destruct Hsrc as [Hsrc|[_ Hsrc]]; rewrite Hsrc in *; [|by rewrite H6 in Hs].
  destruct (Compile.IPv4 q) as [|a|a z] eqn:Eq; [done| |done]. exists a. split; [done|]. by eapply H4.
Qed.

Section EndToEnd.
Context (decode : string → option Signed) (b : NetMapBuilder) (clock : string → Z) (pol : Policy.Policy) (pov : prefix) (s : Store).
Context (Verify : PublicKey → list byte → Signature → bool) (ParseKey : string → option (list byte))
  (LookupNetIP : string → string → option (list addr)).

Lemma compiler_v4 q : q ∈ compiler_peers s → (∀ a, Compile.IPv4 q = Addr4 a → 0 <= a < 2 ^ 32) ∧ Is4 (Compile.IPv6 q) = false.
Proof.
  intros (p & _ & ->)%elem_of_compiler. unfold seen, policy_peer. cbn [Compile.IPv4 Compile.IPv6]. split.
  - intros a Ha. destruct (ParseAddr (pIPv4 p)) as [x|] eqn:E; cbn [default] in Ha; [|done]. change (x = Addr4 a) in Ha. subst x. exact (ParseAddr_v4_range _ _ E).
  - destruct (ParseAddr (pIPv6 p)) as [x|]; [|done]. destruct (Is6 x) eqn:E; [|done]. by destruct x.
Qed.

(** C3: from the policy's text to the packet.  The server builds a device's map
    on a sound database and sends it; the device, which has no IPv6, applies it
    and installs its filter.  From then on a TCP or UDP packet that arrives at the
    device's address passes exactly when it answers a flow of the device or the
    text grants its source, by the address a registered peer is known under,
    that protocol (or any) and port towards the device. *)
Theorem packets_follow_policy (eps eps' : option Endpoints.EndpointTable) (id : string) (s' : Store) (nm : NetMap)
    (a : Device.Answers) (received : Z) (cache : bool) (d d' : Device.Daemon)
    (t0 now : Z) (bs : list byte) (p : Filter.packet) (t : string) (h : list Filter.call) :
  tables_ok s → Compile.policy_ports pol → bVisibility b = PolicyVisibility (Some (Compile.CompileWith pol (compiler_peers s) pov)) →
  Build decode b clock eps id s = Ok (s', (eps', nm)) → nmSelfIPv6 nm = AddrNone →
  Pins.ranges (Device.aOrder a) → Device.aFilterable a && Device.aFilterSet a = true →
  Device.applyLocked Verify ParseKey LookupNetIP a (ClientMap.NetMapFromProto (Wire.netMapToProto nm) received) cache d = (d', None) →
  carried p t → Filter.dst p = Device.dSelfIP d → Filter.parsed bs = Some p →
  (∃ set, Device.dFilter d' = Some set ∧ Filter.set_of h = Some (Filter.compile_set set)) → Filter.clock now h →
  ∃ self, self ∈ peers s ∧ pID self = id ∧
    ((Filter.Inbound now bs (Filter.filter_of t0 h)).2 = true ↔
       Filter.answers now p h = true ∨
       ∃ q proto, q ∈ peers s ∧ pID q ≠ id ∧ Is4 (Filter.src p) = true ∧ Compile.source_addr (seen s q) (Filter.src p) ∧
         (proto = t ∨ proto = Ports.ProtoAny) ∧ Compile.grants pol pov (seen s q) (seen s self) proto (Filter.dport p)).
Proof.
  intros Hok Hpol Hvis Hb H6 Hr Hf Ha Hc Hd Hp (set & Hset & Hh) Hclock.
  apply build_ok in Hb as (-> & _ & self & <- & [Hself _ _ Hv6 Hfil _ _ _ _ _]); [|by apply Hok]. exists self. split; [done|]. split; [done|].
  apply DeviceSafety.applyLocked_spec in Ha as (_ & _ & _ & Ha); [|done].
  destruct (Ha eq_refl) as (cfg & out & _ & _ & _ & [_ _ Hrest _ _ _] & _ & Hfilter). rewrite Hf, Hset in Hfilter. injection Hfilter as ->.
  assert (has_v6 b self = false) as Hno.
  { destruct (has_v6 b self) eqn:E; [|done]. rewrite Hv6 in H6. unfold has_v6 in E. rewrite H6 in E. done. }
  rewrite Hno in Hfil.
  assert (Forall sendable (nmFilter nm)) as Hsend.
  { rewrite Forall_forall, Hfil, Hvis. intros fr. cbn [PolicyVisibility FilterFor]. apply compiled_sendable; [done| |]; intros q Hq; by destruct (compiler_v4 q Hq). }
  set (nm0 := ClientMap.NetMapFromProto (Wire.netMapToProto nm) received) in *.
  assert (ClientMap.mFilter out = ClientMap.mFilter nm0) as Hmf by by rewrite Hrest.
  rewrite (Filter.Inbound_verdict t0 now bs h Hclock), (spec_allow_local now bs h p _ Hp Hh eq_refl), orb_true_iff.
  rewrite (opens_installed _ p t (nmFilter nm) Hc Hsend (rules_sent nm received out _ _ _ _ Hsend Hmf) eq_refl Hd). apply or_iff_compat_l.
  assert (∀ x, x = t ∨ x = Ports.ProtoAny → x ∈ Compile.protos) as Hprotos.
  { intros x [->| ->]; [destruct Hc as [[_ ->]|[_ ->]]|]; apply (bool_decide_unpack _); vm_compute; exact I. }
  rewrite Hfil. setoid_rewrite elem_of_ipv4Filter. split.
  - intros (fr & [H4 Hin] & Hsrc & Hproto & Hport).
    destruct (proj1 (filter_text b pol pov s Hok Hvis self (Compile.frSrc fr) (Compile.frProto fr) (Filter.dport p) Hself)) as (_ & q & Hq & Hne & Hqs & Hg).
    { by exists fr. }
    exists q, (Compile.frProto fr). rewrite Hsrc. split_and!; done.
  - intros (q & proto & Hq & Hne & H4 & Hqs & Hproto & Hg).
    destruct (proj2 (filter_text b pol pov s Hok Hvis self (Filter.src p) proto (Filter.dport p) Hself)) as (fr & Hin & Hsrc & Hpr & Hport).
    { split; [by apply Hprotos|by exists q]. }
    exists fr. rewrite Hsrc, Hpr. done.
Qed.
End EndToEnd.

(** ** A packet of the demonstration *)

Definition demo_self : addr := match demo_build with Ok (_, (_, nm)) => nmSelfIPv4 nm | Err _ => AddrNone end.
Definition demo_fresh : Device.Daemon :=
  {| Device.dState := DeviceSafety.demo_state; Device.dOverlay := Prefix (Addr4 1681915904) 10; Device.dSelfIP := demo_self; Device.dKey := [];
     Device.dPins := {| Pins.hub := ""; Pins.peers := ∅; Pins.lock := None; Pins.dirty := false; Pins.file := None |}; Device.dHeld := [];
     Device.dOffered := None; Device.dNetmap := None; Device.dRejected := None; Device.dAdvertise := []; Device.dAdvertised := [];
     Device.dConfig := None; Device.dRoutes := None; Device.dFilter := None; Device.dCache := None |}.
Definition demo_received : ClientMap.NetMap :=
  match demo_build with Ok (_, (_, nm)) => ClientMap.NetMapFromProto (Wire.netMapToProto nm) 7 | Err _ => Device.base_map DeviceSafety.demo_state end.
Definition demo_applied : Device.Daemon * option Device.apply_error :=
  Device.applyLocked DeviceSafety.demo_verify DeviceSafety.demo_key DeviceSafety.no_names DeviceSafety.demo_answers demo_received true demo_fresh.
Definition demo_installed : Filter.FilterSet := default Filter.demo_set (Device.dFilter demo_applied.1).
Definition demo_arrival : list byte := Filter.demo_packet 1681915907 1681915906 40000 80.
Definition demo_decoded : Filter.packet :=
  {| Filter.proto := 6; Filter.src := Addr4 1681915907; Filter.dst := Addr4 1681915906; Filter.sport := 40000; Filter.dport := 80; Filter.tcpFlags := 2 |}.

(** The phone's packet passes, so the text grants it. *)
Lemma packets_follow_policy_witness :
  ∃ self q proto, self ∈ peers demo_map_store ∧ q ∈ peers demo_map_store ∧ pID q ≠ pID self ∧
    Compile.grants demo_text (Control.cfOverlay ControlSafety.demo_config) (seen demo_map_store q) (seen demo_map_store self) proto 80.
Proof.
  assert (match demo_build with Ok (_, (_, nm)) => nmSelfIPv6 nm = AddrNone | Err _ => False end) as Hnone by (vm_compute; reflexivity).
  assert (Device.applyLocked DeviceSafety.demo_verify DeviceSafety.demo_key DeviceSafety.no_names DeviceSafety.demo_answers demo_received true demo_fresh
    = (demo_applied.1, None)) as Happ by (vm_compute; reflexivity).
  assert (match demo_build with Ok (_, (_, nm)) => demo_received = ClientMap.NetMapFromProto (Wire.netMapToProto nm) 7 | Err _ => True end) as Hrec
    by (unfold demo_received; by destruct demo_build as [[? [? ?]]|?]).
  assert (Compile.policy_ports demo_text) as Hports.
  { intros r d Hr Hd. apply list_elem_of_singleton in Hr as ->. apply list_elem_of_singleton in Hd as ->.
    apply Forall_singleton. repeat split; vm_compute; discriminate. }
  revert Hnone Hrec. destruct demo_build as [[s' [eps' nm]]|e] eqn:E; [|intros []]. intros Hnone Hrec. rewrite Hrec in Happ.
  destruct (packets_follow_policy (λ _, None) demo_builder (λ _, 9) demo_text (Control.cfOverlay ControlSafety.demo_config) demo_map_store
    DeviceSafety.demo_verify DeviceSafety.demo_key DeviceSafety.no_names None eps' ControlSafety.demo_id s' nm DeviceSafety.demo_answers 7 true demo_fresh
    demo_applied.1 0 5 demo_arrival demo_decoded Filter.ProtoTCP [Filter.CSet demo_installed]
    demo_map_tables Hports eq_refl E Hnone DeviceSafety.demo_ranges eq_refl Happ (or_introl (conj eq_refl eq_refl)) ltac:(vm_compute; reflexivity)
    ltac:(vm_compute; reflexivity)) as (self & Hself & Hid & [H _]).
  - exists demo_installed. split; [vm_compute; reflexivity|reflexivity].
  - exact I.
  - destruct (H ltac:(vm_compute; reflexivity)) as [Ha|(q & proto & Hq & Hne & _ & _ & _ & Hg)]; [vm_compute in Ha; discriminate|].
    exists self, q, proto. rewrite Hid. split_and!; [exact Hself|exact Hq|exact Hne|exact Hg].
Defined.

(** A router that offers 10.1.0.0/24 and a server that also wants another net
    served. *)
Definition demo_lan : prefix := Prefix (Addr4 167837696) 24.
Definition demo_forward (dst : string) : ClientMap.ForwardRule :=
  {| ClientMap.fwSrc := "100.64.0.3"; ClientMap.fwDst := dst; ClientMap.fwProto := "tcp"; ClientMap.fwPortLo := 80; ClientMap.fwPortHi := 80 |}.
Definition demo_router_map : ClientMap.NetMap :=
  {| ClientMap.mGeneration := 1; ClientMap.mSelfID := "p0"; ClientMap.mSelfName := "desk"; ClientMap.mSelfKind := "peer";
     ClientMap.mSelfIPv4 := "100.64.0.2"; ClientMap.mOverlay := "100.64.0.0/24"; ClientMap.mSelfIPv6 := ""; ClientMap.mOverlay6 := "";
     ClientMap.mPeers := []; ClientMap.mHub := ClientMap.NoHub; ClientMap.mReceivedAt := 0; ClientMap.mServerVersion := "";
     ClientMap.mSTUN := []; ClientMap.mFilter := []; ClientMap.mSelfSignatures := []; ClientMap.mLock := None;
     ClientMap.mForward := demo_forward <$> ["10.1.0.0/24"; "192.168.0.0/16"]; ClientMap.mAdvertised := [] |}.
Definition demo_router_set : Filter.FilterSet :=
  ClientMap.FilterSetFor demo_router_map "thawr0" (Addr4 1681915906) (Prefix (Addr4 1681915904) 24) [demo_lan].
Definition demo_forwarded : list byte := Filter.demo_packet 1681915907 167837701 40000 80.
Definition demo_forwarded_decoded : Filter.packet :=
  {| Filter.proto := 6; Filter.src := Addr4 1681915907; Filter.dst := Addr4 167837701; Filter.sport := 40000; Filter.dport := 80; Filter.tcpFlags := 2 |}.

Lemma forwards_only_advertised_witness :
  (Filter.Inbound 5 demo_forwarded (Filter.filter_of 0 [Filter.CSet demo_router_set])).2 = true ∧
  advertised_dst [demo_lan] (Addr4 167837701) ∧ (∀ m, m ∈ Filter.Masquerade demo_router_set → m ∈ [demo_lan] ∨ m = ClientMap.ExitRoute6).
Proof.
  assert ((Filter.Inbound 5 demo_forwarded (Filter.filter_of 0 [Filter.CSet demo_router_set])).2 = true) as Hin by (vm_compute; reflexivity).
  split; [exact Hin|].
  destruct (forwards_only_advertised demo_router_map "thawr0" (Addr4 1681915906) (Prefix (Addr4 1681915904) 24) [demo_lan]
    0 5 demo_forwarded demo_forwarded_decoded [Filter.CSet demo_router_set] eq_refl I ltac:(vm_compute; reflexivity) eq_refl) as [H1 H2].
  split.
  - destruct (H1 ltac:(vm_compute; reflexivity) Hin) as [H|[H _]]; [vm_compute in H; discriminate|exact H].
  - intros m Hm. destruct (H2 m Hm) as [H|[H _]]; [left; exact H|right; exact H].
Defined.
