(* ===== verification/RouteTable.v ===== *)
(** The routes through an interface: [internal/wg/routes.go] and
    [routes_linux.go].

    Netlink is a class: what is documented of its requests, any of which may
    fail.  The order in which Go ranges over the maps is an input. *)

From S2P Require Import Prelude NetIP ClientMap.

(** ** Netlink *)

Inductive errno := ESRCH | ENOENT | EEXIST | EOTHER.
#[export] Instance errno_eq_dec : EqDecision errno.
Proof. solve_decision. Defined.

Inductive family := AF_INET | AF_INET6.
#[export] Instance family_eq_dec : EqDecision family.
Proof. solve_decision. Defined.

(** A route through the interface; the scope is always the link's. *)
Record Route := { rtTable : Z; rtDst : prefix }.
#[export] Instance route_eq_dec : EqDecision Route.
Proof. solve_decision. Defined.
#[export] Program Instance route_countable : Countable Route := inj_countable' (λ r, (rtTable r, rtDst r)) (λ '(t, d), {| rtTable := t; rtDst := d |}) _.
Next Obligation. by intros []. Qed.

(** [-1] is the suppress length of [netlink.NewRule]. *)
Record Rule := { rlPriority : Z; rlTable : Z; rlMark : Z; rlInvert : bool; rlSuppress : Z; rlV6 : bool }.
#[export] Instance rule_eq_dec : EqDecision Rule.
Proof. solve_decision. Defined.
#[export] Program Instance rule_countable : Countable Rule :=
  inj_countable' (λ r, (rlPriority r, rlTable r, rlMark r, rlInvert r, rlSuppress r, rlV6 r))
    (λ '(p, t, m, i, s, f), {| rlPriority := p; rlTable := t; rlMark := m; rlInvert := i; rlSuppress := s; rlV6 := f |}) _.
Next Obligation. by intros []. Qed.

(** The requests and what they do, for one interface: whether it is there, its
    routes, and the policy rules of the host. *)
Class Netlink (N : Type) := {
  link : N → bool;
  routes : N → gset Route;
  rules : N → gset Rule;
  RouteReplace : Route → N → N * option errno;
  RouteDel : Route → N → N * option errno;
  RuleAdd : Rule → N → N * option errno;
  RuleDel : Rule → N → N * option errno;
  RouteReplace_spec r n n' e : RouteReplace r n = (n', e) → link n' = link n ∧ rules n' = rules n ∧
    routes n' = match e with None => {[r]} ∪ routes n | Some _ => routes n end;
  RouteDel_spec r n n' e : RouteDel r n = (n', e) → link n' = link n ∧ rules n' = rules n ∧ (e = Some ESRCH → r ∉ routes n) ∧
    routes n' = match e with None => routes n ∖ {[r]} | Some _ => routes n end;
  RuleAdd_spec r n n' e : RuleAdd r n = (n', e) → link n' = link n ∧ routes n' = routes n ∧ (e = Some EEXIST → r ∈ rules n) ∧
    rules n' = match e with None => {[r]} ∪ rules n | Some _ => rules n end;
  RuleDel_spec r n n' e : RuleDel r n = (n', e) → link n' = link n ∧ routes n' = routes n ∧ (e = Some ENOENT → r ∉ rules n) ∧
    rules n' = match e with None => rules n ∖ {[r]} | Some _ => rules n end;
}.

Definition RT_TABLE_MAIN : Z := 254.
Definition exitTable : Z := DefaultFwMark.
Definition exitRulePriority : Z := 5170.

Inductive route_error := ErrNoLink | ErrRoute (e : errno) | ErrRule (e : errno) | ErrNotPrefix.

(** The error of a request, unless it says that there was nothing to do. *)
Definition unless (known : errno) (e : option errno) : option errno := match e with Some x => if bool_decide (x = known) then None else Some x | None => None end.
Definition errors_of (mk : errno → route_error) (e : option errno) : list route_error := match e with Some x => [mk x] | None => [] end.

Definition main_route (p : prefix) : Route := {| rtTable := RT_TABLE_MAIN; rtDst := p |}.

(** [exitRouteParts]. *)
Definition exit_route (def : prefix) : Route := {| rtTable := exitTable; rtDst := def |}.
Definition main_rule (def : prefix) : Rule :=
  {| rlPriority := exitRulePriority; rlTable := RT_TABLE_MAIN; rlMark := 0; rlInvert := false; rlSuppress := 0; rlV6 := Is6 (paddr def) |}.
Definition mark_rule (def : prefix) : Rule :=
  {| rlPriority := exitRulePriority + 1; rlTable := exitTable; rlMark := DefaultFwMark; rlInvert := true; rlSuppress := -1; rlV6 := Is6 (paddr def) |}.
Definition exitRouteParts (def : prefix) : Route * list Rule := (exit_route def, [main_rule def; mark_rule def]).

Record routeTable := { installed : gset prefix; exit_ : gset prefix }.
Definition fresh : routeTable := {| installed := ∅; exit_ := ∅ |}.

Section Routes.
Context `{Netlink Net}.

Definition addRoute (p : prefix) (n : Net) : Net * option route_error :=
  if negb (link n) then (n, Some ErrNoLink)
  else let '(n, e) := RouteReplace (main_route p) n in (n, ErrRoute <$> e).

Definition delRoute (p : prefix) (n : Net) : Net * option route_error :=
  if negb (link n) then (n, None)
  else let '(n, e) := RouteDel (main_route p) n in (n, ErrRoute <$> unless ESRCH e).

(** The loops over the two rules. *)
Fixpoint del_rules (l : list Rule) (n : Net) : Net * list route_error :=
  match l with
  | [] => (n, [])
  | r :: l => let '(n, e) := RuleDel r n in let '(n, es) := del_rules l n in (n, errors_of ErrRule (unless ENOENT e) ++ es)
  end.

Fixpoint add_rules (l : list Rule) (n : Net) : Net * option route_error :=
  match l with
  | [] => (n, None)
  | r :: l => let '(n, e) := RuleAdd r n in match unless EEXIST e with Some x => (n, Some (ErrRule x)) | None => add_rules l n end
  end.

(** [setExitRoute], off and on. *)
Definition removeExitRoute (def : prefix) (n : Net) : Net * list route_error :=
  if negb (link n) then (n, [])
  else
    let '(route, rules) := exitRouteParts def in
    let '(n, es) := del_rules rules n in
    let '(n, e) := RouteDel route n in
    (n, es ++ errors_of ErrRoute (unless ESRCH e)).

Definition addExitRoute (def : prefix) (n : Net) : Net * list route_error :=
  if negb (link n) then (n, [ErrNoLink])
  else
    let '(route, rules) := exitRouteParts def in
    match RouteReplace route n with
    | (n, Some e) => (n, [ErrRoute e])
    | (n, None) => match add_rules rules n with (n, None) => (n, []) | (n, Some e) => ((removeExitRoute def n).1, [e]) end
    end.

Definition setExitRoute (def : prefix) (on : bool) (n : Net) : Net * list route_error := if on then addExitRoute def n else removeExitRoute def n.

(** [routeTable.set]: the three loops. *)
Definition bad (p : prefix) : bool := negb (PIsValid p) || Is4In6 (paddr p).
Definition wanted (want : list prefix) : gset prefix := list_to_set (Masked <$> filter (λ p, IsExitRoute p = false) want).
Definition wantExit (want : list prefix) : gset prefix := list_to_set (filter (λ p, IsExitRoute p = true) want).

Fixpoint drop_routes (w : gset prefix) (l : list prefix) (r : routeTable) (n : Net) : Net * routeTable * list route_error :=
  match l with
  | [] => (n, r, [])
  | p :: l =>
      if decide (p ∈ w) then drop_routes w l r n
      else
        match delRoute p n with
        | (n, Some e) => let '(n, r, es) := drop_routes w l r n in (n, r, e :: es)
        | (n, None) => drop_routes w l {| installed := installed r ∖ {[p]}; exit_ := exit_ r |} n
        end
  end.

Fixpoint add_routes (l : list prefix) (r : routeTable) (n : Net) : Net * routeTable * list route_error :=
  match l with
  | [] => (n, r, [])
  | p :: l =>
      if decide (p ∈ installed r) then add_routes l r n
      else
        match addRoute p n with
        | (n, Some e) => let '(n, r, es) := add_routes l r n in (n, r, e :: es)
        | (n, None) => add_routes l {| installed := {[p]} ∪ installed r; exit_ := exit_ r |} n
        end
  end.

Fixpoint exits (w : gset prefix) (l : list prefix) (r : routeTable) (n : Net) : Net * routeTable * list route_error :=
  match l with
  | [] => (n, r, [])
  | def :: l =>
      if bool_decide (def ∈ w) then
        if bool_decide (def ∈ exit_ r) then exits w l r n
        else
          match setExitRoute def true n with
          | (n, []) => exits w l {| installed := installed r; exit_ := {[def]} ∪ exit_ r |} n
          | (n, e) => let '(n, r, es) := exits w l r n in (n, r, e ++ es)
          end
      else if bool_decide (def ∈ exit_ r) then
          match setExitRoute def false n with
          | (n, []) => exits w l {| installed := installed r; exit_ := exit_ r ∖ {[def]} |} n
          | (n, e) => let '(n, r, es) := exits w l r n in (n, r, e ++ es)
          end
      else exits w l r n
  end.

(** [order] is how Go ranges over a set. *)
Definition set_routes (order : gset prefix → list prefix) (want : list prefix) (r : routeTable) (n : Net) : Net * routeTable * list route_error :=
  if existsb bad want then (n, r, [ErrNotPrefix])
  else
    let w := wanted want in
    let '(n, r, e1) := drop_routes w (order (installed r)) r n in
    let '(n, r, e2) := add_routes (order w) r n in
    let '(n, r, e3) := exits (wantExit want) [ExitRoute; ExitRoute6] r n in
    (n, r, e1 ++ e2 ++ e3).

(** [routeTable.clear]. *)
Definition clear_routes (order : gset prefix → list prefix) : routeTable → Net → Net * routeTable * list route_error := set_routes order [].
End Routes.

(** ** The table and the system *)

Section Tracks.
Context `{Netlink Net}.
Implicit Types (n : Net).

(** The routes of the main table are the table's. *)
Definition tracks (r : routeTable) n : Prop := ∀ p, main_route p ∈ routes n ↔ p ∈ installed r.

Definition present (def : prefix) n : Prop := exit_route def ∈ routes n ∧ main_rule def ∈ rules n ∧ mark_rule def ∈ rules n.
Definition absent (def : prefix) n : Prop := exit_route def ∉ routes n ∧ main_rule def ∉ rules n ∧ mark_rule def ∉ rules n.
Definition defaults : list prefix := [ExitRoute; ExitRoute6].
Definition exit_tracks (r : routeTable) n : Prop := ∀ def, def ∈ defaults → if decide (def ∈ exit_ r) then present def n else absent def n.

(** What the loops over routes leave alone, and what the exit routes do. *)
Definition same_exits n n' : Prop := rules n' = rules n ∧ ∀ def, exit_route def ∈ routes n' ↔ exit_route def ∈ routes n.
Definition same_mains n n' : Prop := ∀ p, main_route p ∈ routes n' ↔ main_route p ∈ routes n.

#[local] Instance same_exits_preorder : PreOrder same_exits.
Proof. split; [done|]. intros a b c [E1 H1] [E2 H2]. split; [by rewrite E2|]. intros def. by rewrite H2. Qed.
#[local] Instance same_mains_preorder : PreOrder same_mains.
Proof. split; [done|]. intros a b c H1 H2 p. etrans; [apply (H2 p)|apply (H1 p)]. Qed.

Lemma exit_not_main def p : exit_route def ≠ main_route p.
Proof. done. Qed.

Lemma addRoute_ok p n n' e : link n = true → addRoute p n = (n', e) → link n' = true ∧ same_exits n n' ∧
  (∀ q, main_route q ∈ routes n' ↔ main_route q ∈ routes n ∨ (e = None ∧ q = p)).
Proof.
  intros Hl. unfold addRoute. rewrite Hl. cbn [negb]. destruct (RouteReplace (main_route p) n) as [n1 e1] eqn:E. intros [= <- <-].
  apply RouteReplace_spec in E as (-> & Hr & Hs). rewrite Hl. split_and!; [done|split; [done|]|]; destruct e1; rewrite Hs; cbn [fmap option_fmap option_map].
  - done.
  - intros def. rewrite elem_of_union, elem_of_singleton. pose proof (exit_not_main def p). naive_solver.
  - naive_solver.
  - intros q. rewrite elem_of_union, elem_of_singleton. unfold main_route. naive_solver.
Qed.

Lemma delRoute_ok p n n' e : link n = true → delRoute p n = (n', e) → link n' = true ∧ same_exits n n' ∧
  (∀ q, main_route q ∈ routes n' ↔ main_route q ∈ routes n ∧ (e = None → q ≠ p)).
Proof.
  intros Hl. unfold delRoute. rewrite Hl. cbn [negb]. destruct (RouteDel (main_route p) n) as [n1 e1] eqn:E. intros [= <- <-].
  apply RouteDel_spec in E as (-> & Hr & Hn & Hs). rewrite Hl. split_and!; [done|split; [done|]|].
  - intros def. rewrite Hs. destruct e1; [done|]. rewrite elem_of_difference, elem_of_singleton. pose proof (exit_not_main def p). naive_solver.
  - intros q. rewrite Hs. destruct e1 as [x|]; cbn [unless fmap option_fmap option_map].
    + case_bool_decide as Hx; [|naive_solver]. subst x. specialize (Hn eq_refl). split; [intros Hq; split; [done|]; by intros _ ->|by intros []].
    + rewrite elem_of_difference, elem_of_singleton. unfold main_route. naive_solver.
Qed.

Lemma drop_routes_ok w l : ∀ r n n' r' es, link n = true → tracks r n → drop_routes w l r n = (n', r', es) →
  link n' = true ∧ tracks r' n' ∧ exit_ r' = exit_ r ∧ same_exits n n' ∧ (es = [] → installed r' = installed r ∖ (list_to_set l ∖ w)).
Proof.
  induction l as [|p l IH]; intros r n n' r' es Hl Ht; cbn [drop_routes].
  - intros [= <- <- <-]. split_and!; [done..|]. intros _. set_solver.
  - case_decide as Hw.
    { intros Hd. destruct (IH _ _ _ _ _ Hl Ht Hd) as (? & ? & ? & ? & Hi). split_and!; [done..|]. intros He. rewrite Hi by done. set_solver +Hw. }
    destruct (delRoute p n) as [n1 [e|]] eqn:Ed; destruct (delRoute_ok _ _ _ _ Hl Ed) as (Hl1 & Hs1 & Hm1).
    + destruct (drop_routes w l r n1) as [[n2 r2] es2] eqn:E2. intros [= <- <- <-].
      assert (tracks r n1) as Ht1 by (intros q; rewrite Hm1, <- (Ht q); clear; naive_solver). destruct (IH _ _ _ _ _ Hl1 Ht1 E2) as (? & ? & ? & ? & _).
      split_and!; [done|done|done|by etrans|done].
    + intros Hd. eapply IH in Hd as (? & ? & ? & ? & Hi); [|done|].
      * split_and!; [done|done|done|by etrans|]. intros He. rewrite Hi by done. cbn [installed]. set_solver +Hw.
      * intros q. rewrite Hm1, (Ht q). cbn [installed]. clear. set_solver.
Qed.

Lemma add_routes_ok l : ∀ r n n' r' es, link n = true → tracks r n → add_routes l r n = (n', r', es) →
  link n' = true ∧ tracks r' n' ∧ exit_ r' = exit_ r ∧ same_exits n n' ∧ (es = [] → installed r' = installed r ∪ list_to_set l).
Proof.
  induction l as [|p l IH]; intros r n n' r' es Hl Ht; cbn [add_routes].
  - intros [= <- <- <-]. split_and!; [done..|]. intros _. set_solver.
  - case_decide as Hw.
    { intros Hd. destruct (IH _ _ _ _ _ Hl Ht Hd) as (? & ? & ? & ? & Hi). split_and!; [done..|]. intros He. rewrite Hi by done. set_solver +Hw. }
    destruct (addRoute p n) as [n1 [e|]] eqn:Ed; destruct (addRoute_ok _ _ _ _ Hl Ed) as (Hl1 & Hs1 & Hm1).
    + destruct (add_routes l r n1) as [[n2 r2] es2] eqn:E2. intros [= <- <- <-].
      assert (tracks r n1) as Ht1 by (intros q; rewrite Hm1, <- (Ht q); clear; naive_solver).
      destruct (IH _ _ _ _ _ Hl1 Ht1 E2) as (? & ? & ? & ? & _). split_and!; [done|done|done|by etrans|done].
    + intros Hd. eapply IH in Hd as (? & ? & ? & ? & Hi); [|done|].
      * split_and!; [done|done|done|by etrans|]. intros He. rewrite Hi by done. cbn [installed]. set_solver +Hw.
      * intros q. rewrite Hm1, (Ht q). cbn [installed]. clear. set_solver.
Qed.

(** What the requests for one default route may change. *)
Definition touches_exit (def : prefix) n n' : Prop :=
  link n' = link n ∧ (∀ x, x ≠ exit_route def → x ∈ routes n' ↔ x ∈ routes n) ∧ (∀ x, x ≠ main_rule def → x ≠ mark_rule def → x ∈ rules n' ↔ x ∈ rules n).

#[local] Instance touches_exit_preorder def : PreOrder (touches_exit def).
Proof.
  split; [done|]. intros a b c (L1 & H1 & R1) (L2 & H2 & R2). split_and!; [by rewrite L2|intros x Hx; by rewrite H2, H1|intros x Hx Hy; by rewrite R2, R1].
Qed.

Lemma touches_mains def n n' : touches_exit def n n' → same_mains n n'.
Proof. intros (_ & Hr & _) p. apply Hr. intros ?%eq_sym%exit_not_main. done. Qed.

Lemma touches_other def o n n' : touches_exit def n n' → def ∈ defaults → o ∈ defaults → o ≠ def →
  (present o n → present o n') ∧ (absent o n → absent o n').
Proof.
  intros (_ & Hr & Hs) Hd Ho Hne. unfold present, absent.
  assert (exit_route o ≠ exit_route def ∧ (main_rule o ≠ main_rule def ∧ main_rule o ≠ mark_rule def) ∧ mark_rule o ≠ main_rule def ∧ mark_rule o ≠ mark_rule def)
    as (H1 & [H2 H3] & H4 & H5) by (unfold defaults in *; rewrite !elem_of_cons, elem_of_nil in Hd, Ho; by destruct Hd as [-> | [-> | []]], Ho as [-> | [-> | []]]).
  rewrite !Hr, !Hs by done. done.
Qed.

Lemma RuleDel_ok (r : Rule) n n' e : RuleDel r n = (n', e) → link n' = link n ∧ routes n' = routes n ∧ (∀ x, x ≠ r → x ∈ rules n' ↔ x ∈ rules n) ∧
  (unless ENOENT e = None → r ∉ rules n') ∧ (r ∉ rules n → r ∉ rules n').
Proof.
  intros (-> & -> & Hn & ->)%RuleDel_spec. destruct e as [x|]; cbn [unless].
  - split_and!; [done..| |done]. case_bool_decide as Hx; [subst x; intros _; by apply Hn|done].
  - set_solver +.
Qed.

Lemma RuleAdd_ok (r : Rule) n n' e : RuleAdd r n = (n', e) → link n' = link n ∧ routes n' = routes n ∧ (∀ x, x ≠ r → x ∈ rules n' ↔ x ∈ rules n) ∧
  (unless EEXIST e = None → r ∈ rules n') ∧ (r ∈ rules n → r ∈ rules n').
Proof.
  intros (-> & -> & Hn & ->)%RuleAdd_spec. destruct e as [x|]; cbn [unless].
  - split_and!; [done..| |done]. case_bool_decide as Hx; [subst x; intros _; by apply Hn|done].
  - set_solver +.
Qed.

Lemma removeExitRoute_ok def n n' es : link n = true → removeExitRoute def n = (n', es) → touches_exit def n n' ∧ (es = [] → absent def n').
Proof.
  intros Hl. unfold removeExitRoute, exitRouteParts. rewrite Hl. cbn [negb del_rules].
  destruct (RuleDel (main_rule def) n) as [n1 e1] eqn:E1. destruct (RuleDel (mark_rule def) n1) as [n2 e2] eqn:E2.
  destruct (RouteDel (exit_route def) n2) as [n3 e3] eqn:E3. intros [= <- <-].
  apply RuleDel_ok in E1 as (L1 & R1 & O1 & D1 & _), E2 as (L2 & R2 & O2 & D2 & K2). apply RouteDel_spec in E3 as (L3 & R3 & D3 & S3).
  split.
  - split_and!; [by rewrite L3, L2, L1| |intros x Hx Hy; by rewrite R3, O2, O1 by done].
    intros x Hx. rewrite S3, R2, R1. destruct e3; [done|]. rewrite elem_of_difference, elem_of_singleton. naive_solver.
  - rewrite !app_nil_r. intros [[He1 He2]%app_eq_nil He3]%app_eq_nil. unfold absent. rewrite R3, S3.
    assert (∀ mk e, errors_of mk e = [] → e = None) as Hnone by (intros mk []; done). apply Hnone in He1, He2, He3.
    split_and!; [|rewrite O2 by done; by apply D1|by apply D2]. destruct e3 as [x|]; [|set_solver +]. cbn [unless] in He3.
    case_bool_decide; [|done]. subst x. by apply D3.
Qed.

Lemma addExitRoute_ok def n n' es : link n = true → addExitRoute def n = (n', es) → touches_exit def n n' ∧ (es = [] → present def n').
Proof.
  intros Hl. unfold addExitRoute, exitRouteParts. rewrite Hl. cbn [negb]. destruct (RouteReplace (exit_route def) n) as [n1 e1] eqn:E1.
  apply RouteReplace_spec in E1 as (L1 & R1 & S1). assert (touches_exit def n n1) as T1.
  { split_and!; [done| |by intros; rewrite R1]. intros x Hx. rewrite S1. destruct e1; [done|]. set_solver +Hx. }
  destruct e1; [by intros [= <- <-]|]. cbn [add_rules]. destruct (RuleAdd (main_rule def) n1) as [n2 e2] eqn:E2.
  apply RuleAdd_ok in E2 as (L2 & R2 & O2 & D2 & _). assert (touches_exit def n n2) as T2.
  { etrans; [done|]. split_and!; [done|by rewrite R2|by intros; apply O2]. }
  destruct (unless EEXIST e2) eqn:U2.
  - intros [= <- <-]. split; [|done]. destruct (removeExitRoute def n2) as [n3 es3] eqn:Er. eapply removeExitRoute_ok in Er as [Tr _]; [by etrans|by destruct T2 as [-> _]].
  - destruct (RuleAdd (mark_rule def) n2) as [n3 e3] eqn:E3. apply RuleAdd_ok in E3 as (L3 & R3 & O3 & D3 & _). assert (touches_exit def n n3) as T3.
    { etrans; [done|]. split_and!; [done|by rewrite R3|by intros; apply O3]. }
    destruct (unless EEXIST e3) eqn:U3.
    + intros [= <- <-]. split; [|done]. destruct (removeExitRoute def n3) as [n4 es4] eqn:Er. eapply removeExitRoute_ok in Er as [Tr _]; [by etrans|by destruct T3 as [-> _]].
    + intros [= <- <-]. split; [done|]. intros _. unfold present. rewrite R3, R2, S1. split_and!; [set_solver +|rewrite O3 by done; by apply D2|by apply D3].
Qed.

Lemma exit_tracks_step r n n1 def (on : bool) : exit_tracks r n → touches_exit def n n1 → def ∈ defaults → (if on then present def n1 else absent def n1) →
  exit_tracks {| installed := installed r; exit_ := if on then {[def]} ∪ exit_ r else exit_ r ∖ {[def]} |} n1.
Proof.
  intros Ht Hto Hd Hon o Ho. cbn [exit_]. destruct (decide (o = def)) as [-> | Hne].
  - destruct on; [rewrite decide_True by set_solver +|rewrite decide_False by set_solver +]; done.
  - specialize (Ht o Ho). destruct (touches_other def o n n1 Hto Hd Ho Hne) as [Hp Ha].
    assert (o ∈ (if on then {[def]} ∪ exit_ r else exit_ r ∖ {[def]}) ↔ o ∈ exit_ r) as Hiff by (destruct on; set_solver +Hne).
    destruct (decide (o ∈ exit_ r)) as [Hin|Hin]; rewrite <- Hiff in Hin; [rewrite decide_True by done; auto|rewrite decide_False by done; auto].
Qed.

Lemma setExitRoute_ok def on n n' es : link n = true → setExitRoute def on n = (n', es) →
  touches_exit def n n' ∧ (es = [] → if on then present def n' else absent def n').
Proof. destruct on; [apply addExitRoute_ok|apply removeExitRoute_ok]. Qed.

Lemma exits_ok w l : ∀ r n n' r' es, link n = true → l ⊆ defaults → NoDup l → exits w l r n = (n', r', es) →
  link n' = true ∧ same_mains n n' ∧ installed r' = installed r ∧
  (es = [] → exit_tracks r n → exit_tracks r' n' ∧ ∀ def, def ∈ exit_ r' ↔ if decide (def ∈ l) then def ∈ w else def ∈ exit_ r).
Proof.
  induction l as [|def l IH]; intros r n n' r' es Hl Hsub Hnd; cbn [exits]; [by intros [= <- <- <-]|].
  apply NoDup_cons in Hnd as [Hnew Hnd]. assert (l ⊆ defaults) as Hsub' by set_solver +Hsub. assert (def ∈ defaults) as Hdef by set_solver +Hsub.
  assert (∀ n, link n = true → exits w l r n = (n', r', es) → (def ∈ exit_ r ↔ def ∈ w) →
    link n' = true ∧ same_mains n n' ∧ installed r' = installed r ∧
    (es = [] → exit_tracks r n → exit_tracks r' n' ∧ ∀ d, d ∈ exit_ r' ↔ if decide (d ∈ def :: l) then d ∈ w else d ∈ exit_ r)) as Hskip.
  { intros n0 Hl0 He Hiff. destruct (IH _ _ _ _ _ Hl0 Hsub' Hnd He) as (? & ? & ? & Ht). split_and!; [done..|]. intros Hes Htr.
    destruct (Ht Hes Htr) as [Ht' Hd]. split; [done|]. intros d. rewrite Hd. destruct (decide (d = def)) as [-> | Hne].
    - rewrite decide_False by done. by rewrite decide_True by set_solver +.
    - destruct (decide (d ∈ l)) as [Hi|Hi]; [by rewrite decide_True by set_solver +Hi|by rewrite decide_False by set_solver +Hi Hne]. }
  assert (∀ on, (on = true ↔ def ∈ w) →
    match setExitRoute def on n with
    | (n, []) => exits w l {| installed := installed r; exit_ := if on then {[def]} ∪ exit_ r else exit_ r ∖ {[def]} |} n
    | (n, e) => let '(n, r, es) := exits w l r n in (n, r, e ++ es)
    end = (n', r', es) →
    link n' = true ∧ same_mains n n' ∧ installed r' = installed r ∧
    (es = [] → exit_tracks r n → exit_tracks r' n' ∧ ∀ d, d ∈ exit_ r' ↔ if decide (d ∈ def :: l) then d ∈ w else d ∈ exit_ r)) as Hset.
  { intros on Hon. destruct (setExitRoute def on n) as [n1 e] eqn:Es. destruct (setExitRoute_ok _ _ _ _ _ Hl Es) as [Hto Hok].
    pose proof (touches_mains _ _ _ Hto) as Hm. assert (link n1 = true) as Hl1 by (destruct Hto as [-> _]; done). destruct e as [|x e].
    - intros He. destruct (IH _ _ _ _ _ Hl1 Hsub' Hnd He) as (? & ? & ? & Ht). split_and!; [done|by etrans|done|]. intros Hes Htr.
      destruct (Ht Hes (exit_tracks_step _ _ _ _ on Htr Hto Hdef (Hok eq_refl))) as [Ht' Hd]. split; [done|]. intros d. rewrite Hd. cbn [exit_].
      destruct (decide (d = def)) as [-> | Hne].
      + rewrite decide_False by done. rewrite decide_True by set_solver +. destruct on; set_solver +Hon.
      + destruct (decide (d ∈ l)) as [Hi|Hi]; [by rewrite decide_True by set_solver +Hi|rewrite decide_False by set_solver +Hi Hne]. destruct on; set_solver +Hne.
    - destruct (exits w l r n1) as [[n2 r2] es2] eqn:E2. intros [= <- <- <-]. destruct (IH _ _ _ _ _ Hl1 Hsub' Hnd E2) as (? & ? & ? & _).
      split_and!; [done|by etrans|done|done]. }
  destruct (bool_decide_reflect (def ∈ w)), (bool_decide_reflect (def ∈ exit_ r)); intros He.
  - by apply Hskip.
  - by apply (Hset true).
  - by apply (Hset false).
  - by apply Hskip.
Qed.

(** Go ranges over every element of a set. *)
Definition ranges_set (order : gset prefix → list prefix) : Prop := ∀ m, order m ≡ₚ elements m.

Lemma set_routes_ok order want r n n' r' es : ranges_set order → link n = true → tracks r n → set_routes order want r n = (n', r', es) →
  link n' = true ∧ tracks r' n' ∧
  (es = [] → installed r' = wanted want ∧ (exit_tracks r n → exit_tracks r' n' ∧ ∀ def, def ∈ defaults → def ∈ exit_ r' ↔ def ∈ want)).
Proof.
  intros Ho Hl Ht. unfold set_routes. destruct (existsb bad want); [by intros [= <- <- <-]|].
  destruct (drop_routes _ _ r n) as [[n1 r1] e1] eqn:E1. destruct (add_routes _ r1 n1) as [[n2 r2] e2] eqn:E2.
  destruct (exits _ _ r2 n2) as [[n3 r3] e3] eqn:E3. intros [= <- <- <-].
  apply drop_routes_ok in E1 as (L1 & T1 & X1 & [S1 Q1] & I1); [|done..]. apply add_routes_ok in E2 as (L2 & T2 & X2 & [S2 Q2] & I2); [|done..].
  apply exits_ok in E3 as (L3 & M3 & I3 & Hx); [|done|done|repeat constructor; set_solver +].
  split_and!; [done|intros p; rewrite (M3 p), (T2 p); by rewrite I3|].
  intros [-> [-> ->]%app_eq_nil]%app_eq_nil. rewrite I3, I2, I1 by done. split.
  - apply set_eq. intros p. rewrite !elem_of_union, elem_of_difference, !elem_of_list_to_set, elem_of_difference, elem_of_list_to_set. setoid_rewrite (Ho _).
    rewrite !elem_of_elements. destruct (decide (p ∈ wanted want)); naive_solver.
  - intros Htr. destruct Hx as [Hx Hd]; [done| |].
    { intros def Hdef. specialize (Htr def Hdef). rewrite X2, X1. destruct (decide (def ∈ exit_ r)); unfold present, absent in *; by rewrite Q2, Q1, S2, S1. }
    split; [done|]. intros def Hdef. rewrite Hd, decide_True by done. unfold wantExit. rewrite elem_of_list_to_set, list_elem_of_filter.
    unfold defaults in Hdef. rewrite !elem_of_cons, elem_of_nil in Hdef. split; [by intros []|]. intros Hw. split; [by destruct Hdef as [-> | [-> | []]]|done].
Qed.

(** A run of [SetRoutes] calls, with every error of it. *)
Fixpoint run (l : list ((gset prefix → list prefix) * list prefix)) (r : routeTable) n : Net * routeTable * list route_error :=
  match l with
  | [] => (n, r, [])
  | (order, want) :: l => let '(n, r, e) := set_routes order want r n in let '(n, r, es) := run l r n in (n, r, e ++ es)
  end.

(** An interface that was just made, on a host without exit rules. *)
Definition new_link n : Prop := link n = true ∧ (∀ p, main_route p ∉ routes n) ∧ ∀ def, def ∈ defaults → absent def n.

Lemma run_ok l : ∀ r n n' r' es, Forall (λ x, ranges_set x.1) l → link n = true → tracks r n → run l r n = (n', r', es) →
  link n' = true ∧ tracks r' n' ∧ (es = [] → exit_tracks r n → exit_tracks r' n').
Proof.
  induction l as [|[order want] l IH]; intros r n n' r' es Ho Hl Ht; cbn [run]; [by intros [= <- <- <-]|].
  apply Forall_cons in Ho as [Ho Hl'].
  destruct (set_routes order want r n) as [[n1 r1] e1] eqn:E1. destruct (run l r1 n1) as [[n2 r2] e2] eqn:E2. intros [= <- <- <-].
  apply set_routes_ok in E1 as (L1 & T1 & H1); [|done..]. apply IH in E2 as (L2 & T2 & H2); [|done..]. split_and!; [done..|].
  intros [-> ->]%app_eq_nil Hx. apply H2; [done|]. by apply H1.
Qed.

(** C28: the routes through an interface follow the table.  After any calls,
    whatever requests of theirs failed, the main table has exactly the routes
    the table remembers; a call without an error leaves exactly the wanted
    ones, so a later call makes up for a failed one.  And while no call failed,
    the exit table and its rules are there, all of them, for each default route
    wanted last, and none for the other. *)
Theorem routes_follow_the_table l n r es order want n' r' n0 :
  new_link n0 → Forall (λ x, ranges_set x.1) ((order, want) :: l) → run l fresh n0 = (n, r, es) → set_routes order want r n = (n', r', []) →
  tracks r n ∧ (∀ p, main_route p ∈ routes n' ↔ p ∈ wanted want) ∧
  (es = [] → ∀ def, def ∈ defaults → if decide (def ∈ want) then present def n' else absent def n').
Proof.
  intros (Hl & Hm & Hx) [Ho Hl']%Forall_cons Hrun Hset. assert (tracks fresh n0) as Ht0 by (intros p; specialize (Hm p); set_solver +Hm).
  assert (exit_tracks fresh n0) as Hx0 by (intros def Hd; rewrite decide_False by set_solver +; by apply Hx).
  apply run_ok in Hrun as (L & T & X); [|done..]. apply set_routes_ok in Hset as (L' & T' & H'); [|done..]. destruct (H' eq_refl) as [Hi He].
  split_and!; [done|intros p; by rewrite (T' p), Hi|]. intros -> def Hd. destruct (He (X eq_refl Hx0)) as [Ht' Hw]. specialize (Ht' def Hd).
  destruct (decide (def ∈ want)) as [Hin|Hin]; rewrite <- Hw in Hin by done; [by rewrite decide_True in Ht'|by rewrite decide_False in Ht'].
Qed.
End Tracks.

(** ** A host *)

(** Requests that can be made to fail: [hFaults] says which of the next do. *)
Record Host := { hLink : bool; hRoutes : gset Route; hRules : gset Rule; hFaults : list bool }.
Definition host_do {X} (ok : Host → Host * option X) (fault : X) (h : Host) : Host * option X :=
  let rest := {| hLink := hLink h; hRoutes := hRoutes h; hRules := hRules h; hFaults := tl (hFaults h) |} in
  if default false (head (hFaults h)) then (rest, Some fault) else ok rest.
Definition with_host_routes (f : gset Route → gset Route) (h : Host) : Host := {| hLink := hLink h; hRoutes := f (hRoutes h); hRules := hRules h; hFaults := hFaults h |}.
Definition with_host_rules (f : gset Rule → gset Rule) (h : Host) : Host := {| hLink := hLink h; hRoutes := hRoutes h; hRules := f (hRules h); hFaults := hFaults h |}.

#[export] Program Instance host_netlink : Netlink Host := {
  link := hLink; routes := hRoutes; rules := hRules;
  RouteReplace r := host_do (λ h, (with_host_routes (union {[r]}) h, None)) EOTHER;
  RouteDel r := host_do (λ h, if decide (r ∈ hRoutes h) then (with_host_routes (λ s, s ∖ {[r]}) h, None) else (h, Some ESRCH)) EOTHER;
  RuleAdd r := host_do (λ h, if decide (r ∈ hRules h) then (h, Some EEXIST) else (with_host_rules (union {[r]}) h, None)) EOTHER;
  RuleDel r := host_do (λ h, if decide (r ∈ hRules h) then (with_host_rules (λ s, s ∖ {[r]}) h, None) else (h, Some ENOENT)) EOTHER;
}.
Next Obligation. unfold host_do. intros r h h' e. destruct (default false _); by intros [= <- <-]. Qed.
Next Obligation. unfold host_do. intros r h h' e. destruct (default false _); [by intros [= <- <-]|]. cbn. case_decide; by intros [= <- <-]. Qed.
Next Obligation. unfold host_do. intros r h h' e. destruct (default false _); [by intros [= <- <-]|]. cbn. case_decide; by intros [= <- <-]. Qed.
Next Obligation. unfold host_do. intros r h h' e. destruct (default false _); [by intros [= <- <-]|]. cbn. case_decide; by intros [= <- <-]. Qed.

Definition demo_host (faults : list bool) : Host := {| hLink := true; hRoutes := ∅; hRules := ∅; hFaults := faults |}.
Definition demo_lan : prefix := Prefix (Addr4 0x0a000000) 8.
Definition demo_on : list prefix := [demo_lan; ExitRoute].

(** The exit node is chosen, a rule cannot be removed when it is left, and it is
    chosen again: the table takes it to be installed still, and the exit table
    stays empty. *)
Example exit_not_restored :
  let '(h, r, es) := run [(elements, demo_on); (elements, [demo_lan]); (elements, demo_on)] fresh (demo_host [false; false; false; false; true]) in
  (bool_decide (ExitRoute ∈ exit_ r), bool_decide (exit_route ExitRoute ∈ routes h), es) = (true, false, [ErrRule EOTHER]).
Proof. vm_compute. reflexivity. Qed.

Lemma demo_new_link : new_link (demo_host []).
Proof. split; [done|]. split; [intros p; apply not_elem_of_empty|]. intros def _. split_and!; apply not_elem_of_empty. Qed.

Lemma routes_follow_the_table_witness :
  let x := run [(elements, [demo_lan])] fresh (demo_host []) in let y := set_routes elements demo_on x.1.2 x.1.1 in
  tracks x.1.2 x.1.1 ∧ (∀ p, main_route p ∈ routes y.1.1 ↔ p ∈ wanted demo_on) ∧
  (x.2 = [] → ∀ def, def ∈ defaults → if decide (def ∈ demo_on) then present def y.1.1 else absent def y.1.1).
Proof.
  cbn zeta. apply (routes_follow_the_table [(elements, [demo_lan])] _ _ (run [(elements, [demo_lan])] fresh (demo_host [])).2 elements demo_on _
    (set_routes elements demo_on (run [(elements, [demo_lan])] fresh (demo_host [])).1.2 (run [(elements, [demo_lan])] fresh (demo_host [])).1.1).1.2 (demo_host [])).
  - apply demo_new_link.
  - repeat constructor; by intros m.
  - by destruct (run _ _ _) as [[? ?] ?].
  - vm_compute. reflexivity.
Defined.
