(* ===== verification/Sysctl.v ===== *)
(** Forwarding on a Linux host: [EnableIPForward], [EnableIPv6Forward] and
    [setSysctl] of [internal/wg/routes_linux.go].

    The files under /proc/sys/net are a class, any access of which may fail; a
    closure that restores them is the list of what it writes back. *)

From Stdlib Require Import Ascii.
From S2P Require Import Prelude GoStrings.

(** The files the code names; [path.Join] of each is left out. *)
Inductive knob := KIPForward | KForwarding6 (iface : string) | KAcceptRA (iface : string) | KDisable6 (iface : string).
#[export] Instance knob_eq_dec : EqDecision knob.
Proof. solve_decision. Defined.

Inductive read_result := RText (s : string) | RNotExist | RError.

(** What is documented: a write changes its own file, among those the code
    reads or writes; an access that fails changes none. *)
Class Procfs (F : Type) := {
  content : F → knob → option string;
  ReadFile : knob → F → F * read_result;
  ReadDir : F → F * option (list string);      (** the directories of ipv6/conf *)
  WriteFile : knob → string → F → F * bool;
  ReadFile_spec k f f' r : ReadFile k f = (f', r) → content f' = content f ∧
    match r with RText s => content f k = Some s | RNotExist => content f k = None | RError => True end;
  ReadDir_spec f f' r : ReadDir f = (f', r) → content f' = content f ∧ ∀ l e, r = Some l → is_Some (content f (KAcceptRA e)) → e ∈ l;
  WriteFile_spec k s f f' ok : WriteFile k s f = (f', ok) → (∀ o, o ≠ k → content f' o = content f o) ∧ content f' k = if ok then Some s else content f k;
}.

Definition line (s : string) : string := of_chars (chars s ++ u8seq [10%N]).
Definition trimmed (s : string) : string := of_chars (trim_space (chars s)).

Inductive sysctl_error := ErrRead (k : knob) | ErrWrite (k : knob) | ErrList | ErrRestore (k : knob).

(** A function that writes a value back, or does nothing. *)
Abbreviation undo := (option (knob * string)).

Section Sysctl.
Context {F : Type} `{Procfs F}.

Definition run_undo (u : undo) (f : F) : F * list sysctl_error :=
  match u with
  | None => (f, [])
  | Some (k, prev) => let '(f, ok) := WriteFile k (line prev) f in (f, if ok then [] else [ErrRestore k])
  end.

(** [setSysctl]; a missing file is a read error. *)
Definition setSysctl (k : knob) (value : string) (f : F) : F * result (read_result * sysctl_error) undo :=
  match ReadFile k f with
  | (f, RText cur) =>
      let prev := trimmed cur in
      if bool_decide (prev = value) then (f, Ok None)
      else let '(f, ok) := WriteFile k (line value) f in (f, if ok then Ok (Some (k, prev)) else Err (RError, ErrWrite k))
  | (f, r) => (f, Err (r, ErrRead k))
  end.

(** [restore]: the last change is undone first; every error is kept. *)
Fixpoint restore_all (l : list undo) (f : F) : F * list sysctl_error :=
  match l with [] => (f, []) | u :: l => let '(f, e) := run_undo u f in let '(f, es) := restore_all l f in (f, e ++ es) end.
Definition restore (undos : list undo) : F → F * list sysctl_error := restore_all (reverse undos).

Definition give_back (e : sysctl_error) (undos : list undo) (f : F) : F * result (list sysctl_error) (list undo) :=
  let '(f, es) := restore undos f in (f, Err (e :: es)).

(** The loop over the interfaces. *)
Fixpoint keep_ra (entries : list string) (undos : list undo) (f : F) : F * result (list sysctl_error) (list undo) :=
  match entries with
  | [] => (f, Ok undos)
  | e :: entries =>
      if bool_decide (e = "all") then keep_ra entries undos f
      else
        match ReadFile (KAcceptRA e) f with
        | (f, RNotExist) => keep_ra entries undos f
        | (f, RError) => give_back (ErrRead (KAcceptRA e)) undos f
        | (f, RText ra) =>
            if negb (bool_decide (trimmed ra = "1")) then keep_ra entries undos f
            else
              match setSysctl (KAcceptRA e) "2" f with
              | (f, Err (_, x)) => give_back x undos f
              | (f, Ok u) => keep_ra entries (undos ++ [u]) f
              end
        end
  end.

(** [enableIPv6Forward]. *)
Definition enableIPv6Forward (f : F) : F * result (list sysctl_error) (list undo) :=
  let all := KForwarding6 "all" in
  match ReadFile all f with
  | (f, RNotExist) => (f, Ok [])
  | (f, RError) => (f, Err [ErrRead all])
  | (f, RText cur) =>
      if bool_decide (trimmed cur = "1") then (f, Ok [])
      else
        match ReadDir f with
        | (f, None) => (f, Err [ErrList])
        | (f, Some entries) =>
            match keep_ra entries [] f with
            | (f, Err es) => (f, Err es)
            | (f, Ok undos) =>
                match setSysctl all "1" f with
                | (f, Err (_, x)) => give_back x undos f
                | (f, Ok u) => (f, Ok (undos ++ [u]))
                end
            end
        end
  end.

(** [enableIPForward]: IPv6 is undone before IPv4. *)
Definition enableIPForward (f : F) : F * result (list sysctl_error) (list undo) :=
  match setSysctl KIPForward "1" f with
  | (f, Err (_, x)) => (f, Err [x])
  | (f, Ok u4) =>
      match enableIPv6Forward f with
      | (f, Ok undos) => (f, Ok (u4 :: undos))
      | (f, Err es) => let '(f, e) := run_undo u4 f in (f, Err (es ++ e))
      end
  end.

(** [enableInterfaceIPv6]. *)
Definition enableInterfaceIPv6 (name : string) (f : F) : F * option sysctl_error :=
  match setSysctl (KDisable6 name) "0" f with
  | (f, Err (RNotExist, _)) | (f, Ok _) => (f, None)
  | (f, Err (_, x)) => (f, Some x)
  end.

(** ** What is restored *)

(** What a reader of the file takes it to say. *)
Definition value (f : F) (k : knob) : option string := trimmed <$> content f k.
Definition same_values (f f' : F) : Prop := ∀ k, value f' k = value f k.

#[local] Instance same_values_equiv : Equivalence same_values.
Proof. split; [done|intros a b Hab k; by rewrite Hab|]. intros a b c Hab Hbc k. by rewrite Hbc, Hab. Qed.

Lemma trimmed_line s : trimmed (line (trimmed s)) = trimmed s.
Proof. unfold trimmed, line. by rewrite !chars_of_chars, trim_space_newline. Qed.

Lemma trimmed_idem s : trimmed (trimmed s) = trimmed s.
Proof. unfold trimmed. by rewrite chars_of_chars, trim_space_idem. Qed.

(** The file a change is of, and the value it had: [u] turns the values of [f]
    into those of [f0]. *)
Definition undoes (u : undo) (f0 f : F) : Prop :=
  match u with
  | None => same_values f0 f
  | Some (k, prev) => trimmed prev = prev ∧ (∀ o, o ≠ k → value f o = value f0 o) ∧ value f0 k = Some prev
  end.

Lemma run_undo_ok u f0 f f' es : undoes u f0 f → run_undo u f = (f', es) → es = [] → same_values f0 f'.
Proof.
  destruct u as [[k prev]|]; cbn [undoes run_undo]; [|by intros Hu [= <- <-]]. intros (Hp & Ho & Hk). destruct (WriteFile k (line prev) f) as [f1 ok] eqn:E.
  intros [= <- <-]. destruct ok; [|done]. intros _. apply WriteFile_spec in E as [Hs Hw]. intros o. destruct (decide (o = k)) as [-> | Hne].
  - unfold value at 1. rewrite Hw, Hk. cbn. by rewrite <- Hp, trimmed_line.
  - unfold value at 1. rewrite Hs by done. by apply Ho.
Qed.

Lemma setSysctl_ok k v f f' r : trimmed v = v → setSysctl k v f = (f', r) →
  match r with
  | Ok u => undoes u f f' ∧ value f' k = Some v ∧ ∀ o, o ≠ k → value f' o = value f o
  | Err _ => same_values f f'
  end.
Proof.
  intros Hv. unfold setSysctl. destruct (ReadFile k f) as [f1 [cur| |]] eqn:Er; apply ReadFile_spec in Er as [Hc Hcur];
    [|intros [= <- <-]; intros o; unfold value; by rewrite Hc..].
  case_bool_decide as Hp.
  - intros [= <- <-]. assert (same_values f f1) as Hs by (intros o; unfold value; by rewrite Hc). split_and!; [done| |intros o _; apply Hs]. rewrite (Hs k). unfold value. rewrite Hcur. by rewrite <- Hp.
  - destruct (WriteFile k (line v) f1) as [f2 ok] eqn:Ew. apply WriteFile_spec in Ew as [Hs Hw]. rewrite Hc in Hs, Hw. destruct ok; intros [= <- <-].
    + assert (∀ o, o ≠ k → value f2 o = value f o) as Ho by (intros o Hne; unfold value; by rewrite Hs). split_and!; [split_and!| |].
      * by apply trimmed_idem.
      * done.
      * unfold value. by rewrite Hcur.
      * unfold value. rewrite Hw. cbn. by rewrite <- Hv, trimmed_line.
      * done.
    + intros o. unfold value. destruct (decide (o = k)) as [-> | Hne]; [by rewrite Hw|by rewrite Hs].
Qed.

(** What a list of changes, the last one first, turns the values of [f] into. *)
Fixpoint undo_all (l : list undo) (f0 f : F) : Prop :=
  match l with [] => same_values f0 f | u :: l => ∃ f1, undoes u f1 f ∧ undo_all l f0 f1 end.

Lemma undoes_proper u a f f' : same_values f f' → undoes u a f → undoes u a f'.
Proof. destruct u as [[k p]|]; cbn [undoes]; intros Hs; [intros (Hp & Ho & Hk); split_and!; [done| |done]; intros o Hne; by rewrite (Hs o), Ho|by intros ->]. Qed.

Lemma undo_all_proper l f0 f f' : same_values f f' → undo_all l f0 f → undo_all l f0 f'.
Proof. destruct l as [|u l]; cbn; [by intros Hs ->|]. intros Hs (f1 & Hu & Hl). exists f1. split; [by eapply undoes_proper|done]. Qed.

Lemma restore_all_ok l : ∀ f0 f f' es, undo_all l f0 f → restore_all l f = (f', es) → es = [] → same_values f0 f'.
Proof.
  induction l as [|u l IH]; intros f0 f f' es; cbn [undo_all restore_all]; [by intros Hs [= <- <-]|]. intros (f1 & Hu & Hl).
  destruct (run_undo u f) as [f2 e] eqn:E. destruct (restore_all l f2) as [f3 es'] eqn:E'. intros [= <- <-] [-> ->]%app_eq_nil.
  pose proof (run_undo_ok _ _ _ _ _ Hu E eq_refl) as Hs. eapply IH; [|done|done]. by eapply undo_all_proper.
Qed.

Lemma undo_all_snoc l f0 f f' u : undo_all (reverse l) f0 f → undoes u f f' → undo_all (reverse (l ++ [u])) f0 f'.
Proof. rewrite reverse_app. cbn. by exists f. Qed.

Lemma restore_all_errors l : ∀ f x, x ∈ (restore_all l f).2 → ∃ k, x = ErrRestore k.
Proof.
  induction l as [|u l IH]; intros f x; cbn [restore_all]; [by intros ?%elem_of_nil|]. destruct (run_undo u f) as [f1 e] eqn:E.
  specialize (IH f1 x). destruct (restore_all l f1) as [f2 es]. intros [Hx | Hx]%elem_of_app; [|by apply IH].
  destruct u as [[k prev]|]; cbn [run_undo] in E; [|injection E as <- <-; by apply elem_of_nil in Hx]. destruct (WriteFile k (line prev) f) as [f3 ok]. injection E as <- <-.
  destruct ok; [by apply elem_of_nil in Hx|]. apply list_elem_of_singleton in Hx. by exists k.
Qed.

(** The errors say whether something could not be written back. *)
Definition gave_back (es : list sysctl_error) : Prop := ∀ k, ErrRestore k ∉ es.

Lemma give_back_ok x undos f0 f f' r : undo_all (reverse undos) f0 f → give_back x undos f = (f', r) →
  ∃ es, r = Err es ∧ (gave_back es → same_values f0 f').
Proof.
  unfold give_back, restore. intros Hu. pose proof (restore_all_errors (reverse undos) f) as Herr. destruct (restore_all (reverse undos) f) as [f1 es] eqn:E.
  intros [= <- <-]. eexists; split; [done|]. intros Hg. eapply restore_all_ok; [done..|]. destruct es as [|y es]; [done|].
  destruct (Herr y ltac:(by left)) as [k ->]. destruct (Hg k). right. by left.
Qed.

(** The loop changes accept_ra only, and to 2 only. *)
Definition ra_only (f f' : F) : Prop := ∀ k, value f' k = value f k ∨ ∃ e, k = KAcceptRA e ∧ value f' k = Some "2".

Lemma keep_ra_ok entries : ∀ undos f0 f f' r, undo_all (reverse undos) f0 f → keep_ra entries undos f = (f', r) →
  match r with
  | Ok undos' => undo_all (reverse undos') f0 f' ∧ ra_only f f' ∧ ∀ e, e ∈ entries → e ≠ "all" → value f' (KAcceptRA e) ≠ Some "1"
  | Err es => gave_back es → same_values f0 f'
  end.
Proof.
  induction entries as [|e entries IH]; intros undos f0 f f' r Hu; cbn [keep_ra].
  { intros [= <- <-]. split_and!; [done|by left|by intros e ?%elem_of_nil]. }
  assert (∀ undos1 f1, undo_all (reverse undos1) f0 f1 → ra_only f f1 → (e ≠ "all" → value f1 (KAcceptRA e) ≠ Some "1") → keep_ra entries undos1 f1 = (f', r) →
    match r with
    | Ok undos' => undo_all (reverse undos') f0 f' ∧ ra_only f f' ∧ ∀ e0, e0 ∈ e :: entries → e0 ≠ "all" → value f' (KAcceptRA e0) ≠ Some "1"
    | Err es => gave_back es → same_values f0 f'
    end) as Hnext.
  { intros undos1 f1 Hu1 Hra Hone Hk. specialize (IH _ _ _ _ _ Hu1 Hk). destruct r as [undos'|es]; [|done]. destruct IH as (Hu' & Hra' & Hno). split_and!; [done| |].
    - intros k. destruct (Hra' k) as [Heq|?]; [|by right]. rewrite Heq. apply Hra.
    - intros o [-> | Ho]%elem_of_cons Hall; [|by apply Hno]. destruct (Hra' (KAcceptRA e)) as [-> | (_ & _ & ->)]; [by apply Hone|done]. }
  case_bool_decide as Hall; [apply Hnext; [done|by left|done]|].
  destruct (ReadFile (KAcceptRA e) f) as [f1 res] eqn:Er. apply ReadFile_spec in Er as [Hc Hres].
  assert (same_values f f1) as Hs by (intros o; unfold value; by rewrite Hc). pose proof (undo_all_proper _ _ _ _ Hs Hu) as Hu1.
  assert (ra_only f f1) as Hra1 by (intros k; left; apply Hs). destruct res as [ra| |].
  - destruct (bool_decide_reflect (trimmed ra = "1")) as [H1|H1]; cbn [negb].
    + destruct (setSysctl (KAcceptRA e) "2" f1) as [f2 ru] eqn:Es. apply (setSysctl_ok _ _ _ _ _ eq_refl) in Es. destruct ru as [u|[x y]].
      * destruct Es as (Hun & Hv & Ho). apply Hnext; [by eapply undo_all_snoc| |by rewrite Hv]. intros k.
        destruct (decide (k = KAcceptRA e)) as [-> | Hne]; [right; by exists e|left; by rewrite Ho, (Hs k)].
      * intros Hg. eapply give_back_ok in Hg as (es & -> & Hg); [done|]. by eapply undo_all_proper.
    + apply Hnext; [done..|]. intros _. rewrite (Hs _). unfold value. rewrite Hres. cbn. congruence.
  - apply Hnext; [done..|]. intros _. rewrite (Hs _). unfold value. by rewrite Hres.
  - intros Hg. eapply give_back_ok in Hg as (es & -> & Hg); [done|done].
Qed.

(** Forwarding of IPv6 is on, or the host has no IPv6; and where it was turned
    on, no interface takes its router advertisements away. *)
Definition forwards6 (f f' : F) : Prop :=
  match value f (KForwarding6 "all") with
  | None => True
  | Some v => value f' (KForwarding6 "all") = Some "1" ∧ (v ≠ "1" → ∀ e, e ≠ "all" → is_Some (value f (KAcceptRA e)) → value f' (KAcceptRA e) ≠ Some "1")
  end.

Lemma undoes_proper_l u a b f : same_values a b → undoes u a f → undoes u b f.
Proof. destruct u as [[k p]|]; cbn [undoes]; intros Hs; [intros (Hp & Ho & Hk); split_and!; [done| |by rewrite (Hs k)]; intros o Hne; by rewrite (Hs o), Ho|by intros <-]. Qed.

Lemma undo_all_app l u : ∀ f0 f f', undo_all l f f' → undoes u f0 f → undo_all (l ++ [u]) f0 f'.
Proof.
  induction l as [|x l IH]; intros f0 f f'; cbn [undo_all app].
  - intros Hs Hu. exists f0. split; [by eapply undoes_proper|done].
  - intros (f1 & Hx & Hl) Hu. exists f1. split; [done|by eapply IH].
Qed.

Lemma enableIPv6Forward_ok f f' r : enableIPv6Forward f = (f', r) →
  match r with
  | Ok us => undo_all (reverse us) f f' ∧ forwards6 f f' ∧ value f' KIPForward = value f KIPForward
  | Err es => gave_back es → same_values f f'
  end.
Proof.
  unfold enableIPv6Forward, forwards6. destruct (ReadFile _ f) as [f1 res] eqn:Er. apply ReadFile_spec in Er as [Hc Hres].
  assert (same_values f f1) as Hs by (intros o; unfold value; by rewrite Hc). destruct res as [cur| |].
  2:{ intros [= <- <-]. split_and!; [done|unfold value; by rewrite Hres|apply Hs]. }
  2:{ by intros [= <- <-] _. }
  unfold value at 1. rewrite Hres. cbn [fmap option_fmap option_map]. case_bool_decide as H1.
  { intros [= <- <-]. split; [done|]. split; [|apply Hs]. split; [|done]. rewrite (Hs _). unfold value. rewrite Hres. cbn. by rewrite H1. }
  destruct (ReadDir f1) as [f2 dir] eqn:Ed. apply ReadDir_spec in Ed as [Hc2 Hdir].
  assert (same_values f f2) as Hs2 by (intros o; unfold value; by rewrite Hc2, Hc). destruct dir as [entries|]; [|by intros [= <- <-] _].
  destruct (keep_ra entries [] f2) as [f3 ru] eqn:Ek. apply (keep_ra_ok _ [] f) in Ek; [|done]. destruct ru as [us|es]; [|by intros [= <- <-]].
  destruct Ek as (Hu & Hra & Hno). destruct (setSysctl (KForwarding6 "all") "1" f3) as [f4 r4] eqn:Es. apply (setSysctl_ok _ _ _ _ _ eq_refl) in Es.
  destruct r4 as [u|[x y]].
  - destruct Es as (Hun & Hv & Ho). intros [= <- <-]. split; [by eapply undo_all_snoc|]. split.
    + split; [done|]. intros _ e Hall He. rewrite Ho by done. apply Hno; [|done]. apply (Hdir entries); [done|]. rewrite Hc. unfold value in He. by destruct (content f (KAcceptRA e)).
    + rewrite Ho by done. destruct (Hra KIPForward) as [-> | (e & [=] & _)]. apply Hs2.
  - intros Hg. eapply give_back_ok in Hg as (es & -> & Hg); [done|]. by eapply undo_all_proper.
Qed.

(** Turning forwarding on is all or nothing, and can be undone.  If it
    succeeds, IPv4 forwarding is on, IPv6 forwarding is on where the host has
    IPv6, no interface is left with the setting that would drop its router
    advertisements, and running the undo function later gives every file the
    value it had, unless a write of it fails.  If it fails anywhere, every file
    has its value again, unless the errors name one that could not be restored. *)
Theorem forwarding_is_undone f :
  match enableIPForward f with
  | (f', Ok undos) => value f' KIPForward = Some "1" ∧ forwards6 f f' ∧ ∀ f1, same_values f' f1 → (restore undos f1).2 = [] → same_values f (restore undos f1).1
  | (f', Err es) => gave_back es → same_values f f'
  end.
Proof.
  unfold enableIPForward. destruct (setSysctl KIPForward "1" f) as [f1 r1] eqn:E1. apply (setSysctl_ok _ _ _ _ _ eq_refl) in E1. destruct r1 as [u4|[x y]]; [|done].
  destruct E1 as (Hu & Hv & Ho). destruct (enableIPv6Forward f1) as [f2 r2] eqn:E2. apply enableIPv6Forward_ok in E2. destruct r2 as [us|es].
  - destruct E2 as (Hus & Hf & Hip). split_and!; [by rewrite Hip| |].
    + unfold forwards6 in *. rewrite Ho in Hf by done. destruct (value f (KForwarding6 "all")) as [v|]; [|done]. destruct Hf as [Hall Hra]. split; [done|].
      intros Hne e He. rewrite <- (Ho (KAcceptRA e)) by done. by apply Hra.
    + intros f3 Hs He. unfold restore in *. rewrite reverse_cons in *. destruct (restore_all _ f3) as [f4 es] eqn:Er. eapply restore_all_ok; [|done|done].
      eapply undo_all_proper; [done|]. by eapply undo_all_app.
  - destruct (run_undo u4 f2) as [f3 e] eqn:Eu. intros Hg. assert (gave_back es) as Hes by (intros k Hk; apply (Hg k); set_solver +Hk).
    eapply run_undo_ok; [|done|]; [by eapply undoes_proper; [apply E2|]|]. destruct u4 as [[k prev]|]; cbn [run_undo] in Eu; [|by injection Eu].
    destruct (WriteFile k (line prev) f2) as [f4 ok]. injection Eu as <- <-. destruct ok; [done|]. destruct (Hg k). set_solver +.
Qed.
End Sysctl.

(** ** A directory of files *)

(** Files in a map, with the accesses that are to fail. *)
Record Tree := { trFiles : list (knob * string); trFaults : list bool }.
Definition tree_content (t : Tree) (k : knob) : option string := snd <$> (snd <$> list_find (λ p, p.1 = k) (trFiles t)).
Definition tree_dirs (t : Tree) : list string := omap (λ p, match p.1 with KAcceptRA e => Some e | _ => None end) (trFiles t).
Definition fault (t : Tree) : bool := default false (head (trFaults t)).
Definition next_fault (t : Tree) : Tree := {| trFiles := trFiles t; trFaults := tl (trFaults t) |}.

#[export] Program Instance tree_procfs : Procfs Tree := {
  content := tree_content;
  ReadFile k t := (next_fault t, if fault t then RError else match tree_content t k with Some s => RText s | None => RNotExist end);
  ReadDir t := (next_fault t, if fault t then None else Some (tree_dirs t));
  WriteFile k s t := if fault t then (next_fault t, false) else ({| trFiles := (k, s) :: trFiles t; trFaults := tl (trFaults t) |}, true);
}.
Next Obligation. intros k t t' r [= <- <-]. split; [done|]. destruct (fault t); [done|]. by destruct (tree_content t k) eqn:E. Qed.
Next Obligation.
  intros t t' r [= <- <-]. split; [done|]. intros l e Hl [v Hv]. destruct (fault t); [done|]. injection Hl as <-. unfold tree_dirs. apply list_elem_of_omap.
  unfold tree_content in Hv. destruct (list_find _ _) as [[i [k s]]|] eqn:E; [|done]. apply list_find_Some in E as (Hi & Hk & _). cbn in Hk. subst k.
  exists (KAcceptRA e, s). split; [by eapply list_elem_of_lookup_2|done].
Qed.
Next Obligation.
  intros k s t t' ok. cbn. destruct (fault t); intros [= <- <-]; [done|]. unfold tree_content. cbn [trFiles list_find fst]. split.
  - intros o Hne. rewrite decide_False by done. by destruct (list_find _ (trFiles t)) as [[i x]|].
  - by rewrite decide_True.
Qed.

Definition demo_tree (faults : list bool) : Tree :=
  {| trFiles := [(KIPForward, line "0"); (KForwarding6 "all", line "0"); (KAcceptRA "eth0", line "1"); (KAcceptRA "wg0", line "0")]; trFaults := faults |}.
Definition demo_values (t : Tree) : list (option string) := value t <$> [KIPForward; KForwarding6 "all"; KAcceptRA "eth0"; KAcceptRA "wg0"].

Example demo_forwards : demo_values (enableIPForward (demo_tree [])).1 = [Some "1"; Some "1"; Some "2"; Some "0"].
Proof. vm_compute. reflexivity. Qed.
(** The write of the IPv6 switch fails: everything is as it was. *)
Example demo_gives_back :
  let '(t, r) := enableIPForward (demo_tree [false; false; false; false; false; false; false; false; false; true]) in
  demo_values t = demo_values (demo_tree []) ∧ r = Err [ErrWrite (KForwarding6 "all")].
Proof. vm_compute. done. Qed.
