(* ===== verification/WgDevice.v ===== *)
(** What the daemon asks of a WireGuard interface: [internal/wg/device.go],
    with the kernel adapter of [kernel_linux.go].

    [Device] is the contract of the interface as its comments state it; what
    the operating system does with a configuration message is a parameter of
    the kernel adapter, with the behaviour that is documented of it. *)

From S2P Require Import Prelude NetIP.
From S2P Require Import ClientMap.

Notation Key := (list byte).

(** The peers of an interface, as they were last configured. *)
Notation Peers := (gmap (list byte) WgPeer).

Definition with_peer_endpoint (e : addrport) (p : WgPeer) : WgPeer :=
  {| wPublicKey := wPublicKey p; wEndpoint := e; wAllowedIPs := wAllowedIPs p; wKeepalive := wKeepalive p |}.

(** [PeerStats]: a time is nanoseconds since the zero time. *)
Record PeerStats := { psKey : Key; psEndpoint : addrport; psHandshake : Z; psRx : Z; psTx : Z }.

(** A zero endpoint leaves the current one. *)
Definition kept_endpoint (m : Peers) (p : WgPeer) : addrport :=
  if APIsValid (wEndpoint p) then wEndpoint p else default NoAddrPort (wEndpoint <$> m !! wPublicKey p).
Definition put_peer (m : Peers) (p : WgPeer) : Peers := <[wPublicKey p := with_peer_endpoint (kept_endpoint m p) p]> m.

Definition keys_of (cfg : WgConfig) : list Key := wPublicKey <$> cPeers cfg.
Definition listed (cfg : WgConfig) (m : Peers) : Peers := filter (λ kv, kv.1 ∈ keys_of cfg) m.

(** [wg.Device]: listed peers are created or updated in place and the others
    removed; a peer is created or updated; a peer is removed. *)
Class Device (D : Type) := {
  told : D → Peers;
  Configure : WgConfig → D → D;
  SetPeer : WgPeer → D → D;
  RemovePeer : Key → D → D;
  Configure_told cfg d : told (Configure cfg d) = foldl put_peer (listed cfg (told d)) (cPeers cfg);
  SetPeer_told p d : told (SetPeer p d) = put_peer (told d) p;
  RemovePeer_told k d : told (RemovePeer k d) = delete k (told d);
}.

(** ** Configured peers *)

Lemma put_peer_lookup m p k : put_peer m p !! k = if decide (k = wPublicKey p) then Some (with_peer_endpoint (kept_endpoint m p) p) else m !! k.
Proof. unfold put_peer. case_decide; [subst; by simplify_map_eq|by rewrite lookup_insert_ne]. Qed.

(** Equal up to the endpoint. *)
Definition same_peer (p q : WgPeer) : Prop := with_peer_endpoint NoAddrPort p = with_peer_endpoint NoAddrPort q.

#[export] Instance same_peer_equiv : Equivalence same_peer.
Proof. split; unfold same_peer; congruence. Qed.

Lemma same_peer_endpoint e p : same_peer (with_peer_endpoint e p) p.
Proof. done. Qed.

Lemma same_peer_key p q : same_peer p q → wPublicKey p = wPublicKey q.
Proof. by intros [=]. Qed.

(** Putting a list of peers: each key has the last of them, others stay. *)
Lemma put_all_in l : ∀ m k, k ∈ wPublicKey <$> l → ∃ p q, p ∈ l ∧ wPublicKey p = k ∧ foldl put_peer m l !! k = Some q ∧ same_peer q p.
Proof.
  induction l as [|x l IH] using rev_ind; intros m k Hk; [by apply elem_of_nil in Hk|]. rewrite foldl_app. cbn [foldl]. rewrite put_peer_lookup.
  case_decide as E; [exists x; eexists; split_and!; [set_solver|done|done|done]|]. rewrite fmap_app in Hk. apply elem_of_app in Hk as [Hk|Hk]; [|set_solver].
  destruct (IH m k Hk) as (p & q & Hp & ?). exists p, q. split; [set_solver|done].
Qed.

Lemma put_all_out l : ∀ m k, k ∉ wPublicKey <$> l → foldl put_peer m l !! k = m !! k.
Proof.
  induction l as [|x l IH]; intros m k Hk; [done|]. cbn [foldl]. rewrite IH by set_solver. rewrite put_peer_lookup. rewrite decide_False; [done|set_solver].
Qed.

Lemma put_all_origin l : ∀ m k q, foldl put_peer m l !! k = Some q → m !! k = Some q ∨ ∃ p, p ∈ l ∧ wPublicKey p = k ∧ same_peer q p.
Proof.
  induction l as [|x l IH] using rev_ind; intros m k q; [by left|]. rewrite foldl_app. cbn [foldl]. rewrite put_peer_lookup. case_decide as E.
  - intros [= <-]. right. exists x. split_and!; [set_solver|done|done].
  - intros H. apply IH in H as [?|(p & Hp & Hk & Hs)]; [by left|]. right. exists p. split_and!; [set_solver|done|done].
Qed.

Lemma Configure_listed `{Device D} cfg (d : D) k q : told (Configure cfg d) !! k = Some q →
  ∃ p, p ∈ cPeers cfg ∧ wPublicKey p = k ∧ same_peer q p.
Proof.
  rewrite Configure_told. intros Hq. pose proof Hq as Ho. apply put_all_origin in Ho as [Ho|(p & Hp & Hk & Hs)]; [|by exists p].
  unfold listed in Ho. apply map_lookup_filter_Some in Ho as [_ Hk]. destruct (put_all_in (cPeers cfg) (listed cfg (told d)) k Hk) as (p & q' & ? & ? & Hq' & ?).
  rewrite Hq in Hq'. injection Hq' as <-. by exists p.
Qed.

Lemma Configure_all `{Device D} cfg (d : D) k : k ∈ keys_of cfg → is_Some (told (Configure cfg d) !! k).
Proof. intros Hk. rewrite Configure_told. destruct (put_all_in (cPeers cfg) (listed cfg (told d)) k Hk) as (p & q & _ & _ & Hq & _). by exists q. Qed.

(** ** The kernel adapter *)

(** [wgtypes.PeerConfig] as the adapter fills it: the allowed IPs given replace
    the ones there are. *)
Record PeerConfig := { pcKey : Key; pcRemove : bool; pcEndpoint : option addrport; pcKeepalive : option Z; pcAllowedIPs : list prefix }.

Definition removal (k : Key) : PeerConfig := {| pcKey := k; pcRemove := true; pcEndpoint := None; pcKeepalive := None; pcAllowedIPs := [] |}.

Definition peerConfig (p : WgPeer) : PeerConfig :=
  {| pcKey := wPublicKey p; pcRemove := false; pcEndpoint := if APIsValid (wEndpoint p) then Some (wEndpoint p) else None;
     pcKeepalive := Some (wKeepalive p); pcAllowedIPs := wAllowedIPs p |}.

(** [wcfg] of [kernelDevice.Configure], and its messages for single peers. *)
Record DeviceConfig := { dcPrivateKey : option Key; dcFirewallMark : option Z; dcListenPort : option Z; dcPeers : list PeerConfig }.

Definition kernel_config (current : list Key) (cfg : WgConfig) : DeviceConfig :=
  {| dcPrivateKey := Some (cPrivateKey cfg); dcFirewallMark := Some (cFwMark cfg);
     dcListenPort := if 0 <? cListenPort cfg then Some (cListenPort cfg) else None;
     dcPeers := (removal <$> filter (λ k, k ∉ keys_of cfg) current) ++ (peerConfig <$> cPeers cfg) |}.
Definition kernel_set (p : WgPeer) : DeviceConfig := {| dcPrivateKey := None; dcFirewallMark := None; dcListenPort := None; dcPeers := [peerConfig p] |}.
Definition kernel_remove (k : Key) : DeviceConfig := {| dcPrivateKey := None; dcFirewallMark := None; dcListenPort := None; dcPeers := [removal k] |}.

(** [counter]: a 64-bit count that the API carries signed. *)
Definition counter (v : Z) : Z := if v <? 0 then 0 else v.

(** What is documented of a configuration message: the peers are taken in
    order; one is removed, or created or updated. *)
Definition apply_peer (m : Peers) (c : PeerConfig) : Peers :=
  if pcRemove c then delete (pcKey c) m
  else
    <[pcKey c := {| wPublicKey := pcKey c;
                    wEndpoint := match pcEndpoint c with Some e => e | None => default NoAddrPort (wEndpoint <$> m !! pcKey c) end;
                    wAllowedIPs := pcAllowedIPs c;
                    wKeepalive := match pcKeepalive c with Some z => z | None => default 0 (wKeepalive <$> m !! pcKey c) end |}]> m.

Class Kernel (K : Type) := {
  kPeers : K → Peers;
  kList : K → list Key;                       (** the order the peers are listed in *)
  ConfigureDevice : DeviceConfig → K → K;
  kList_all k key : key ∈ kList k ↔ is_Some (kPeers k !! key);
  ConfigureDevice_peers c k : kPeers (ConfigureDevice c k) = foldl apply_peer (kPeers k) (dcPeers c);
}.

Lemma apply_peerConfig m p : apply_peer m (peerConfig p) = put_peer m p.
Proof. unfold apply_peer, put_peer, kept_endpoint, with_peer_endpoint. cbn. by destruct (APIsValid (wEndpoint p)). Qed.

Lemma apply_removals l : ∀ m k, foldl apply_peer m (removal <$> l) !! k = if decide (k ∈ l) then None else m !! k.
Proof.
  induction l as [|x l IH]; intros m k; [by rewrite decide_False by set_solver|]. cbn [fmap list_fmap foldl]. rewrite IH. unfold apply_peer. cbn [pcRemove removal pcKey].
  destruct (decide (k ∈ l)), (decide (k ∈ x :: l)); try done; try set_solver; (destruct (decide (k = x)) as [-> | Hne]; [|by rewrite ?lookup_delete_ne by done; set_solver]).
  - by simplify_map_eq.
  - set_solver.
Qed.

Lemma apply_sets l : ∀ m, foldl apply_peer m (peerConfig <$> l) = foldl put_peer m l.
Proof. induction l as [|p l IH]; intros m; [done|]. cbn [fmap list_fmap foldl]. by rewrite apply_peerConfig, IH. Qed.

(** The adapter keeps the contract. *)
#[export] Program Instance kernelDevice `{Kernel K} : Device K := {
  told := kPeers;
  Configure cfg k := ConfigureDevice (kernel_config (kList k) cfg) k;
  SetPeer p := ConfigureDevice (kernel_set p);
  RemovePeer key := ConfigureDevice (kernel_remove key);
}.
Next Obligation.
  intros K HK cfg k. cbn. rewrite ConfigureDevice_peers. cbn [dcPeers kernel_config]. rewrite foldl_app, apply_sets. f_equal.
  apply map_eq. intros key. apply option_eq. intros p. rewrite apply_removals. unfold listed. rewrite map_lookup_filter_Some. cbn [fst].
  case_decide as Hd; rewrite list_elem_of_filter in Hd.
  - split; [done|]. intros [_ Hk]. by destruct Hd.
  - split; [|by intros []]. intros Hp. split; [done|]. destruct (decide (key ∈ keys_of cfg)); [done|]. destruct Hd. split; [done|]. apply kList_all. eauto.
Qed.
Next Obligation. intros K HK p k. cbn. rewrite ConfigureDevice_peers. apply apply_peerConfig. Qed.
Next Obligation. intros K HK key k. cbn. by rewrite ConfigureDevice_peers. Qed.

(** A kernel that keeps the peers in a map. *)
#[export] Program Instance map_kernel : Kernel Peers := {
  kPeers m := m; kList m := (map_to_list m).*1; ConfigureDevice c m := foldl apply_peer m (dcPeers c);
}.
Next Obligation.
  intros m key. cbn. split.
  - intros ([k p] & -> & Hk)%list_elem_of_fmap. apply elem_of_map_to_list in Hk. by eexists.
  - intros [p Hp]. apply list_elem_of_fmap. exists (key, p). split; [done|]. by apply elem_of_map_to_list.
Qed.
Next Obligation. done. Qed.
