(* ===== verification/Paths.v ===== *)
(** The prober of a device: [internal/client/paths.go], with [setSelf] of
    [discovery.go].

    Every peer of the map that is reached directly has a path: a state machine
    ([PathMachine]), the candidates it tries ([PathOrder]) and a sink.  A tick
    reads the device, steps the machines and tells the device where the peers
    are.  The sockets, the clock, the statistics and the order in which Go
    ranges over the paths are inputs; what a tick does to the world is a list
    of effects. *)

From S2P Require Import Prelude NetIP ClientMap WgDevice.
From S2P Require Endpoints PathMachine PathOrder Device.

#[local] Existing Instances PathMachine.state_eq_dec PathMachine.action_eq_dec.

Definition PathHub : string := "hub".

Record peerPath := {
  ppID : string; ppName : string; ppKey : Key; ppIPv4 : addr; ppPeer : WgPeer; ppCands : list Endpoints.Endpoint; ppSymmetric : bool;
  ppMachine : PathMachine.Machine; ppSink : addrport; ppPing : bool; ppReach : bool; ppWanted : bool; ppWantSeq : Z; ppSteps : nat;
  ppState : PathMachine.State; ppEndpoint : addrport;
}.

Definition NoKey : Key := replicate 32 Byte.x00.
Definition NoPeer : WgPeer := {| wPublicKey := NoKey; wEndpoint := NoAddrPort; wAllowedIPs := []; wKeepalive := 0 |}.

Definition with_machine (m : PathMachine.Machine) (pp : peerPath) : peerPath :=
  {| ppID := ppID pp; ppName := ppName pp; ppKey := ppKey pp; ppIPv4 := ppIPv4 pp; ppPeer := ppPeer pp; ppCands := ppCands pp; ppSymmetric := ppSymmetric pp;
     ppMachine := m; ppSink := ppSink pp; ppPing := ppPing pp; ppReach := ppReach pp; ppWanted := ppWanted pp; ppWantSeq := ppWantSeq pp;
     ppSteps := ppSteps pp; ppState := ppState pp; ppEndpoint := ppEndpoint pp |}.
Definition with_asked (ping reach : bool) (pp : peerPath) : peerPath :=
  {| ppID := ppID pp; ppName := ppName pp; ppKey := ppKey pp; ppIPv4 := ppIPv4 pp; ppPeer := ppPeer pp; ppCands := ppCands pp; ppSymmetric := ppSymmetric pp;
     ppMachine := ppMachine pp; ppSink := ppSink pp; ppPing := ping; ppReach := reach; ppWanted := ppWanted pp; ppWantSeq := ppWantSeq pp;
     ppSteps := ppSteps pp; ppState := ppState pp; ppEndpoint := ppEndpoint pp |}.
Definition stepped (pp : peerPath) : peerPath :=
  {| ppID := ppID pp; ppName := ppName pp; ppKey := ppKey pp; ppIPv4 := ppIPv4 pp; ppPeer := ppPeer pp; ppCands := ppCands pp; ppSymmetric := ppSymmetric pp;
     ppMachine := ppMachine pp; ppSink := ppSink pp; ppPing := ppPing pp; ppReach := ppReach pp; ppWanted := ppWanted pp; ppWantSeq := ppWantSeq pp;
     ppSteps := S (ppSteps pp); ppState := ppState pp; ppEndpoint := ppEndpoint pp |}.
Definition with_settled (s : PathMachine.State) (e : addrport) (pp : peerPath) : peerPath :=
  {| ppID := ppID pp; ppName := ppName pp; ppKey := ppKey pp; ppIPv4 := ppIPv4 pp; ppPeer := ppPeer pp; ppCands := ppCands pp; ppSymmetric := ppSymmetric pp;
     ppMachine := ppMachine pp; ppSink := ppSink pp; ppPing := ppPing pp; ppReach := ppReach pp; ppWanted := ppWanted pp; ppWantSeq := ppWantSeq pp;
     ppSteps := ppSteps pp; ppState := s; ppEndpoint := e |}.

(** [peerPath{id, machine, sink, state}]: a new path. *)
Definition new_path (o : PathMachine.Options) (id : string) (sink : addrport) : peerPath :=
  {| ppID := id; ppName := ""; ppKey := NoKey; ppIPv4 := AddrNone; ppPeer := NoPeer; ppCands := []; ppSymmetric := false;
     ppMachine := PathMachine.New o; ppSink := sink; ppPing := false; ppReach := false; ppWanted := false; ppWantSeq := 0; ppSteps := 0;
     ppState := PathMachine.Idle; ppEndpoint := NoAddrPort |}.

Notation PathMap := (gmap string peerPath).

Record Prober := { paths : PathMap; selfAddrs : list addr; selfSymmetric : bool; selfEndpoints : list Endpoints.Endpoint }.
Definition with_paths (m : PathMap) (s : Prober) : Prober :=
  {| paths := m; selfAddrs := selfAddrs s; selfSymmetric := selfSymmetric s; selfEndpoints := selfEndpoints s |}.
Definition no_paths : Prober := {| paths := ∅; selfAddrs := []; selfSymmetric := false; selfEndpoints := [] |}.

(** What the outside sees: calls on the device, a packet that makes WireGuard
    start a handshake, a relay proxy given up, a report to the server. *)
Inductive effect :=
  | DoRemove (k : Key)
  | DoSet (p : WgPeer)
  | DoTrigger (dst : addr)
  | DoRelease (k : Key)
  | DoReport (l : list (string * PathMachine.State * string)).

(** ** Following the map *)

(** [rankLocked]. *)
Definition rank (addrs : list addr) (symmetric : bool) (pp : peerPath) : peerPath :=
  with_machine (PathMachine.SetCandidates (PathOrder.Order addrs symmetric (ppSymmetric pp) (ppCands pp)) (ppMachine pp)) pp.
Definition rankLocked (s : Prober) : Prober := with_paths (rank (selfAddrs s) (selfSymmetric s) <$> paths s) s.

Section Sync.
Context (ParseKey : string → option Key) (PublicKeyOf : Key → Key) (opts : PathMachine.Options).

(** [byKey]: the last peer of a key. *)
Definition byKey (cfg : WgConfig) (k : Key) : WgPeer := default NoPeer (last (filter (λ c, wPublicKey c = k) (cPeers cfg))).

(** [bytes.Compare] of keys, which are of one length. *)
Definition key_above (a b : Key) : bool := be_dec b <? be_dec a.

(** A request is new when its number changed, when the flag rose in a map
    without numbers, or when the machine is new. *)
Definition new_request (reset : bool) (p : Peer) (pp : peerPath) : bool :=
  pWanted p && (reset || (negb (pWantSeq p =? 0) && negb (pWantSeq p =? ppWantSeq pp)) || ((pWantSeq p =? 0) && negb (ppWanted pp))).

(** The assignments at the end of the loop's body. *)
Definition follow (self : Key) (cfg : WgConfig) (reset : bool) (p : Peer) (key : Key) (ip : addr) (pp : peerPath) : peerPath :=
  {| ppID := ppID pp; ppName := pName p; ppKey := key; ppIPv4 := ip; ppPeer := byKey cfg key; ppCands := Candidates p; ppSymmetric := pSymmetric p;
     ppMachine := PathMachine.SetStagger (key_above self key) (ppMachine pp); ppSink := ppSink pp; ppPing := ppPing pp;
     ppReach := if new_request reset p pp then true else ppReach pp; ppWanted := pWanted p; ppWantSeq := pWantSeq p;
     ppSteps := ppSteps pp; ppState := ppState pp; ppEndpoint := ppEndpoint pp |}.

(** The paths, the ids seen, and the effects so far. *)
Notation syncing := (PathMap * gset string * list effect)%type.

(** One peer of the map; [sinks] says which sockets could be opened. *)
Definition sync_peer (self : Key) (cfg : WgConfig) (sinks : string → option addrport) (st : syncing) (p : Peer) : syncing :=
  let '(m, seen, effs) := st in
  if pViaHub p then st
  else
    match ParseKey (pPublicKey p), ParseAddr (pIPv4 p) with
    | Some key, Some ip =>
        let seen := {[pID p]} ∪ seen in
        match m !! pID p with
        | None =>
            match sinks (pID p) with
            | None => (m, seen, effs)
            | Some sink => (<[pID p := follow self cfg true p key ip (new_path opts (pID p) sink)]> m, seen, effs)
            end
        | Some pp =>
            if decide (ppKey pp = key) then (<[pID p := follow self cfg false p key ip pp]> m, seen, effs)
            else (<[pID p := follow self cfg true p key ip (with_machine (PathMachine.New opts) pp)]> m, seen, effs ++ [DoRelease (ppKey pp)])
        end
    | _, _ => st
    end.

(** [syncPaths]; the order of the releases is that of the map. *)
Definition syncPaths (nm : NetMap) (cfg : WgConfig) (sinks : string → option addrport) (s : Prober) : Prober * list effect :=
  let '(m, seen, effs) := foldl (sync_peer (PublicKeyOf (cPrivateKey cfg)) cfg sinks) (paths s, ∅, []) (mPeers nm) in
  let gone := filter (λ kv, kv.1 ∉ seen) m in
  (rankLocked (with_paths (filter (λ kv, kv.1 ∈ seen) m) s), effs ++ ((λ kv, DoRelease (ppKey kv.2)) <$> map_to_list gone)).
End Sync.

(** [setSelf]. *)
Definition setSelf (locals : list addrport) (symmetric : bool) (all : list Endpoints.Endpoint) (s : Prober) : Prober :=
  let addrs := apaddr <$> locals in
  let changed := negb (bool_decide (selfSymmetric s = symmetric)) || negb (bool_decide (selfAddrs s = addrs)) in
  let s := {| paths := paths s; selfAddrs := addrs; selfSymmetric := symmetric; selfEndpoints := all |} in
  if changed then rankLocked s else s.

(** ** A tick *)

(** What a tick meets: the clock, the statistics (none when they cannot be
    read), the same read again, the sinks with a packet, the proxies of the
    relay, and the order of the paths. *)
Record TickInput := {
  tNow : Z; tStats : list PeerStats; tFresh : list PeerStats; tIntent : string → bool; tRelay : Key → option addrport; tOrder : list string;
}.

(** [statsByKey]: the last entry of a key. *)
Definition statsByKey (l : list PeerStats) (k : Key) : option PeerStats := last (filter (λ st, psKey st = k) l).

(** A loopback endpoint is a sink or a proxy, not an address of the peer. *)
Definition real_endpoint (e : addrport) : bool := APIsValid e && negb (IsLoopback (apaddr e)).

Definition reachedSince (st : PeerStats) (i : PathMachine.Input) : bool :=
  (PathMachine.inHandshake i <? psHandshake st) || (real_endpoint (psEndpoint st) && negb (bool_decide (psEndpoint st = PathMachine.inEndpoint i)))
  || (PathMachine.Rx i <? psRx st).

Definition tick_input (i : TickInput) (pp : peerPath) : PathMachine.Input :=
  let st := statsByKey (tStats i) (ppKey pp) in
  {| PathMachine.Now := tNow i; PathMachine.Intent := tIntent i (ppID pp) || ppPing pp; PathMachine.Reach := ppReach pp;
     PathMachine.inHandshake := default 0 (psHandshake <$> st);
     PathMachine.inEndpoint := match st with Some st => if real_endpoint (psEndpoint st) then psEndpoint st else NoAddrPort | None => NoAddrPort end;
     PathMachine.Rx := default 0 (psRx <$> st); PathMachine.Tx := default 0 (psTx <$> st) |}.

(** [setPeerEndpoint]. *)
Definition setPeerEndpoint (pp : peerPath) (e : addrport) (readd : bool) : list effect :=
  (if readd then [DoRemove (ppKey pp)] else []) ++
  [DoSet {| wPublicKey := ppKey pp; wEndpoint := e; wKeepalive := wKeepalive (ppPeer pp);
            wAllowedIPs := match wAllowedIPs (ppPeer pp) with [] => [PrefixFrom (ppIPv4 pp) 32] | l => l end |}].

Definition readds (a : PathMachine.Action) : bool := bool_decide (a = PathMachine.ActProbe) || bool_decide (a = PathMachine.ActRelay).

(** Whether the step is taken back. *)
Definition reached_before (i : TickInput) (pp : peerPath) (inp : PathMachine.Input) (a : PathMachine.Action) : bool :=
  readds a && match statsByKey (tFresh i) (ppKey pp) with Some st => reachedSince st inp | None => false end.

(** The switch on the action. *)
Definition act (i : TickInput) (pp : peerPath) (out : PathMachine.Output) : list effect :=
  match PathMachine.outAction out with
  | PathMachine.ActSink => setPeerEndpoint pp (ppSink pp) false
  | PathMachine.ActRelay =>
      match tRelay i (ppKey pp) with
      | None => setPeerEndpoint pp (ppSink pp) false
      | Some e => setPeerEndpoint pp e true ++ [DoTrigger (ppIPv4 pp)]
      end
  | PathMachine.ActProbe => setPeerEndpoint pp (PathMachine.outEndpoint out) true ++ [DoTrigger (ppIPv4 pp)]
  | PathMachine.ActNone => []
  end.

(** One path: its next state, the effects, and whether it changed. *)
Definition tick_peer (i : TickInput) (pp : peerPath) : peerPath * list effect * bool :=
  let inp := tick_input i pp in
  let pp := stepped (with_asked false false pp) in
  let '(m, out) := PathMachine.Step (ppMachine pp) inp in
  if reached_before i pp inp (PathMachine.outAction out) then
    (with_asked (PathMachine.Intent inp) (PathMachine.Reach inp) (with_machine (PathMachine.Hold (tNow i) (ppMachine pp)) pp), [], false)
  else
    let pp := with_machine m pp in
    let effs := act i pp out in
    if PathMachine.Changed out then
      (with_settled (PathMachine.outState out) (PathMachine.outEndpoint out) pp,
       effs ++ (if bool_decide (PathMachine.outState out = PathMachine.Relay) || bool_decide (PathMachine.outState out = PathMachine.Probing) then []
                else [DoRelease (ppKey pp)]), true)
    else (pp, effs, false).

Fixpoint tick_paths (i : TickInput) (ids : list string) (m : PathMap) : PathMap * list effect * bool :=
  match ids with
  | [] => (m, [], false)
  | id :: ids =>
      match m !! id with
      | None => tick_paths i ids m
      | Some pp =>
          let '(pp, effs, ch) := tick_peer i pp in
          let '(m, effs', ch') := tick_paths i ids (<[id := pp]> m) in
          (m, effs ++ effs', ch || ch')
      end
  end.

(** [peerPath.result], [reportPaths]. *)
Definition result_of (pp : peerPath) : string * PathMachine.State * string :=
  (ppName pp, ppState pp,
   if APIsValid (ppEndpoint pp) && negb (bool_decide (ppState pp = PathMachine.Idle)) && negb (bool_decide (ppState pp = PathMachine.Unreachable))
   then addrport_string (ppEndpoint pp) else "").
Definition id_of_name (ps : list peerPath) (name : string) : string := default "" (ppID <$> last (filter (λ pp, ppName pp = name) ps)).
Definition reportPaths (connected : bool) (ps : list peerPath) : list effect :=
  if connected then [DoReport ((λ pp, let '(name, st, e) := result_of pp in (id_of_name ps name, st, e)) <$> ps)] else [].

Definition pathTick (connected : bool) (i : TickInput) (s : Prober) : Prober * list effect :=
  let '(m, effs, changed) := tick_paths i (tOrder i) (paths s) in
  (with_paths m s, effs ++ (if changed then reportPaths connected (omap (λ id, m !! id) (tOrder i)) else [])).

(** [anyProbing]. *)
Definition anyProbing (s : Prober) : bool := existsb (λ kv, bool_decide (PathMachine.state (ppMachine kv.2) = PathMachine.Probing)) (map_to_list (paths s)).

(** ** Ping *)

Inductive ping_error := ErrUnknownPeer.

(** The start of [Ping]: the path that is pinged, or the answer at once. *)
Definition ping_target (order : list string) (s : Prober) (name : string) : option string :=
  last (filter (λ id, (ppName <$> paths s !! id) = Some name) order).
Definition viaHub (nm : option NetMap) (name : string) : bool :=
  match nm with Some nm => existsb (λ p, bool_decide (pName p = name) && pViaHub p) (mPeers nm) | None => false end.
Definition Ping (order : list string) (nm : option NetMap) (name : string) (s : Prober) : Prober * result ping_error (string + string) :=
  let name := Device.StripZone name in
  match ping_target order s name with
  | Some id => (with_paths (alter (λ pp, with_asked true (ppReach pp) pp) id (paths s)) s, Ok (inl id))
  | None => (s, if viaHub nm name then Ok (inr PathHub) else Err ErrUnknownPeer)
  end.

(** Whether a ping that began at [since] steps is answered. *)
Definition settled (since : nat) (pp : peerPath) : bool := (since <? ppSteps pp)%nat && negb (bool_decide (ppState pp = PathMachine.Probing)).

(** [pathOf]. *)
Definition pathOf (s : Prober) (id : string) : option (PathMachine.State * addrport * nat) :=
  (λ pp, (ppState pp, ppEndpoint pp, PathMachine.probes (ppMachine pp))) <$> paths s !! id.

(** ** The device *)

(** The calls on the device among the effects; [ok] says which succeed. *)
Definition perform `{Device D} (e : effect) (ok : bool) (d : D) : D :=
  if negb ok then d
  else match e with DoRemove k => RemovePeer k d | DoSet p => SetPeer p d | _ => d end.

Fixpoint perform_all `{Device D} (effs : list effect) (oks : nat → bool) (d : D) : D :=
  match effs with [] => d | e :: effs => perform_all effs (λ n, oks (S n)) (perform e (oks 0%nat) d) end.
