(* ===== verification/PathsSafety.v ===== *)
(** What the prober makes of the device: it configures nothing that the map
    does not list. *)

From S2P Require Import Prelude GoStrings NetIP ClientMap WgDevice Paths.
From S2P Require Endpoints PathMachine PathOrder Device DeviceSafety.

(** ** What a tick touches *)

(** The fields a tick leaves alone. *)
Record framed (pp pp' : peerPath) : Prop := {
  fr_id : ppID pp' = ppID pp; fr_name : ppName pp' = ppName pp; fr_key : ppKey pp' = ppKey pp; fr_ip : ppIPv4 pp' = ppIPv4 pp;
  fr_peer : ppPeer pp' = ppPeer pp; fr_sink : ppSink pp' = ppSink pp;
}.

#[export] Instance framed_preorder : PreOrder framed.
Proof. split; [done|]. intros a b c [] []. split; congruence. Qed.

(** What a path has the device set up for its peer. *)
Definition target (pp : peerPath) (q : WgPeer) : Prop :=
  wPublicKey q = ppKey pp ∧ wKeepalive q = wKeepalive (ppPeer pp) ∧
  (wAllowedIPs q = wAllowedIPs (ppPeer pp) ∨ wAllowedIPs (ppPeer pp) = []).

Definition for_path (pp : peerPath) (e : effect) : Prop :=
  match e with
  | DoRemove k | DoRelease k => k = ppKey pp
  | DoSet q => target pp q
  | DoTrigger a => a = ppIPv4 pp
  | DoReport _ => False
  end.

Lemma for_path_framed pp pp' e : framed pp pp' → for_path pp' e → for_path pp e.
Proof. intros [Hi Hn Hk Ha Hp Hs]. destruct e; cbn; rewrite ?Hk, ?Ha; unfold target; rewrite ?Hk, ?Hp; done. Qed.

Lemma setPeerEndpoint_for_path pp e readd : Forall (for_path pp) (setPeerEndpoint pp e readd).
Proof.
  unfold setPeerEndpoint. apply Forall_app. split; [destruct readd; by repeat constructor|]. constructor; [|constructor].
  split_and!; cbn; [done|done|]. destruct (wAllowedIPs (ppPeer pp)); auto.
Qed.

Lemma act_for_path i pp out : Forall (for_path pp) (act i pp out).
Proof.
  unfold act. destruct (PathMachine.outAction out); [constructor|apply setPeerEndpoint_for_path| |].
  - apply Forall_app. split; [apply setPeerEndpoint_for_path|by repeat constructor].
  - destruct (tRelay i (ppKey pp)); [|apply setPeerEndpoint_for_path]. apply Forall_app. split; [apply setPeerEndpoint_for_path|by repeat constructor].
Qed.

Lemma tick_peer_frame i pp pp' effs ch : tick_peer i pp = (pp', effs, ch) → framed pp pp' ∧ Forall (for_path pp) effs.
Proof.
  unfold tick_peer. destruct (PathMachine.Step _ _) as [m out]. destruct (reached_before _ _ _ _); [by intros [= <- <- <-]|].
  destruct (PathMachine.Changed out); intros [= <- <- <-].
  - split; [done|]. apply Forall_app. split; [exact (act_for_path i (with_machine m (stepped (with_asked false false pp))) out)|].
    destruct (_ || _); by repeat constructor.
  - split; [done|]. exact (act_for_path i (with_machine m (stepped (with_asked false false pp))) out).
Qed.

Lemma tick_paths_frame i ids : ∀ m m' effs ch, tick_paths i ids m = (m', effs, ch) →
  (∀ id, option_relation framed (λ _, False) (λ _, False) (m !! id) (m' !! id)) ∧
  Forall (λ e, ∃ id pp, m !! id = Some pp ∧ for_path pp e) effs.
Proof.
  induction ids as [|id ids IH]; intros m m' effs ch; cbn [tick_paths].
  { intros [= <- <- <-]. split; [|constructor]. intros id. by destruct (m !! id). }
  destruct (m !! id) as [pp|] eqn:E; [|apply IH]. destruct (tick_peer i pp) as [[pp' e1] c1] eqn:Et.
  destruct (tick_paths i ids _) as [[m1 e2] c2] eqn:E2. intros [= <- <- <-]. apply IH in E2 as [Hm He]. apply tick_peer_frame in Et as [Hf H1]. split.
  - intros j. specialize (Hm j). destruct (decide (j = id)) as [-> | Hne]; [|by rewrite lookup_insert_ne in Hm].
    rewrite E. rewrite lookup_insert_eq in Hm. destruct (m1 !! id); [|done]. cbn in *. by etrans.
  - apply Forall_app. split; [by eapply Forall_impl; [exact H1|]; intros e ?; exists id, pp|]. eapply Forall_impl; [exact He|]. intros e (j & q & Hj & Hq).
    destruct (decide (j = id)) as [-> | Hne]; [|exists j, q; by rewrite lookup_insert_ne in Hj]. rewrite lookup_insert_eq in Hj. injection Hj as <-.
    exists id, pp. split; [done|]. by eapply for_path_framed.
Qed.

Lemma pathTick_frame c i s s' effs : pathTick c i s = (s', effs) →
  (∀ id, option_relation framed (λ _, False) (λ _, False) (paths s !! id) (paths s' !! id)) ∧
  (∀ q, DoSet q ∈ effs → ∃ id pp, paths s !! id = Some pp ∧ target pp q).
Proof.
  unfold pathTick. destruct (tick_paths i (tOrder i) (paths s)) as [[m e1] ch] eqn:E. intros [= <- <-]. apply tick_paths_frame in E as [Hm He]. split; [done|].
  intros q [Hq|Hq]%elem_of_app; [by apply (proj1 (Forall_forall _ _) He) in Hq|]. destruct ch; [|by apply elem_of_nil in Hq].
  unfold reportPaths in Hq. destruct c; [by apply list_elem_of_singleton in Hq|by apply elem_of_nil in Hq].
Qed.

(** ** What a synchronisation leaves *)

Lemma rank_framed addrs sym pp : framed pp (rank addrs sym pp).
Proof. done. Qed.

Definition is_device_call (e : effect) : bool := match e with DoRemove _ | DoSet _ => true | _ => false end.

(** The path sets up a peer the configuration lists. *)
Definition fits (cfg : WgConfig) (pp : peerPath) : Prop := ppPeer pp ∈ cPeers cfg ∧ wPublicKey (ppPeer pp) = ppKey pp.
Definition all_fit (cfg : WgConfig) (s : Prober) : Prop := ∀ id pp, paths s !! id = Some pp → fits cfg pp.

Lemma fits_framed cfg pp pp' : framed pp pp' → fits cfg pp → fits cfg pp'.
Proof. intros [_ _ Hk _ Hp _]. unfold fits. by rewrite Hk, Hp. Qed.

Lemma all_fit_framed cfg s s' : (∀ id, option_relation framed (λ _, False) (λ _, False) (paths s !! id) (paths s' !! id)) → all_fit cfg s → all_fit cfg s'.
Proof.
  intros Hm Hf id pp Hpp. specialize (Hm id). rewrite Hpp in Hm. destruct (paths s !! id) as [pp0|] eqn:E; [|done]. eapply fits_framed; [exact Hm|by eapply Hf].
Qed.

Lemma byKey_listed cfg k : k ∈ keys_of cfg → byKey cfg k ∈ cPeers cfg ∧ wPublicKey (byKey cfg k) = k.
Proof.
  intros (p & -> & Hp)%list_elem_of_fmap. unfold byKey. destruct (last (filter _ (cPeers cfg))) as [q|] eqn:E.
  - apply last_Some_elem_of, list_elem_of_filter in E as [Hq Hin]. done.
  - apply last_None in E. assert (p ∈ filter (λ c, wPublicKey c = wPublicKey p) (cPeers cfg)) as H by by apply list_elem_of_filter.
    rewrite E in H. by apply elem_of_nil in H.
Qed.

(** What the device carries is on the list, up to the endpoint; a peer without
    allowed addresses takes its own. *)
Definition covered (cfg : WgConfig) (k : Key) (q : WgPeer) : Prop :=
  ∃ p, p ∈ cPeers cfg ∧ wPublicKey p = k ∧ wPublicKey q = k ∧ wKeepalive q = wKeepalive p ∧ (wAllowedIPs q = wAllowedIPs p ∨ wAllowedIPs p = []).

Lemma target_covered cfg pp q : fits cfg pp → target pp q → covered cfg (wPublicKey q) q.
Proof. intros [Hp Hk] (Hq & Hka & Ha). exists (ppPeer pp). split_and!; [done|congruence|done|done|done]. Qed.

Lemma covered_endpoint cfg k e q : covered cfg k q → covered cfg k (with_peer_endpoint e q).
Proof. intros (p & H). by exists p. Qed.

Lemma same_peer_covered cfg p q : p ∈ cPeers cfg → same_peer q p → covered cfg (wPublicKey p) q.
Proof. intros Hp [= Hk Ha Hka]. exists p. split_and!; auto. Qed.

(** A property of the peers, whatever their endpoints, that the calls keep. *)
Lemma perform_told `{Device D} (P : Key → WgPeer → Prop) e ok (d : D) : (∀ k a q, P k q → P k (with_peer_endpoint a q)) →
  (∀ q, e = DoSet q → P (wPublicKey q) q) → (∀ k q, told d !! k = Some q → P k q) → ∀ k q, told (perform e ok d) !! k = Some q → P k q.
Proof.
  intros Hend Hset Hd k q. unfold perform. destruct (negb ok); [apply Hd|]. destruct e as [r|p|a|r|l]; try apply Hd.
  - rewrite RemovePeer_told. intros [_ Hq]%lookup_delete_Some. by apply Hd.
  - rewrite SetPeer_told, put_peer_lookup. case_decide as E; [|apply Hd]. intros [= <-]. apply Hend. rewrite E. by apply Hset.
Qed.

Lemma perform_all_told `{Device D} (P : Key → WgPeer → Prop) effs : (∀ k a q, P k q → P k (with_peer_endpoint a q)) → ∀ oks (d : D),
  (∀ q, DoSet q ∈ effs → P (wPublicKey q) q) → (∀ k q, told d !! k = Some q → P k q) → ∀ k q, told (perform_all effs oks d) !! k = Some q → P k q.
Proof.
  intros Hend. induction effs as [|e effs IH]; intros oks d Hset Hd; [done|]. cbn [perform_all]. apply IH; [intros q Hq; apply Hset; set_solver|].
  intros k q. apply perform_told; [done| |done]. intros p ->. apply Hset. set_solver.
Qed.

Section Sync.
Context (ParseKey : string → option Key) (PublicKeyOf : Key → Key) (LookupNetIP : string → string → option (list addr)) (opts : PathMachine.Options).

(** The configuration is made of the map. *)
Definition configures (nm : NetMap) (cfg : WgConfig) : Prop :=
  ∃ key port ov exit, BuildConfigWith ParseKey LookupNetIP nm key port ov exit = Ok cfg.

Lemma configures_keys nm cfg p k : configures nm cfg → p ∈ mPeers nm → pViaHub p = false → ParseKey (pPublicKey p) = Some k → k ∈ keys_of cfg.
Proof.
  intros (key & port & ov & exit & H) Hp Hv Hk. apply DeviceSafety.BuildConfigWith_keys in H as [_ H]. destruct (H p Hp Hv) as (w & Hw & Hk').
  rewrite Hk in Hk'. injection Hk' as ->. by apply list_elem_of_fmap_2.
Qed.

Lemma follow_fits self cfg reset p k ip pp : k ∈ keys_of cfg → fits cfg (follow self cfg reset p k ip pp).
Proof. intros Hk. by apply byKey_listed in Hk. Qed.

Lemma sync_peers_fit self cfg sinks l : (∀ p k, p ∈ l → pViaHub p = false → ParseKey (pPublicKey p) = Some k → k ∈ keys_of cfg) →
  ∀ m seen effs m' seen' effs', foldl (sync_peer ParseKey opts self cfg sinks) (m, seen, effs) l = (m', seen', effs') →
  (∀ id pp, m !! id = Some pp → id ∈ seen → fits cfg pp) → (∀ id pp, m' !! id = Some pp → id ∈ seen' → fits cfg pp).
Proof.
  induction l as [|p l IH]; intros Hl m seen effs m' seen' effs' H Hm; [by injection H as <- <- <-|]. cbn [foldl] in H.
  destruct (sync_peer ParseKey opts self cfg sinks (m, seen, effs) p) as [[m1 seen1] effs1] eqn:E.
  eapply (IH (λ q k Hq, Hl q k (list_elem_of_further _ _ _ Hq)) _ _ _ _ _ _ H). clear IH H. unfold sync_peer in E. destruct (pViaHub p) eqn:Ev; [by injection E as <- <- <-|].
  destruct (ParseKey (pPublicKey p)) as [k|] eqn:Ek; [|by injection E as <- <- <-]. destruct (ParseAddr (pIPv4 p)) as [ip|]; [|by injection E as <- <- <-].
  assert (k ∈ keys_of cfg) as Hk by (eapply Hl; [by left|done|done]).
  assert (∀ reset pp0 id pp, <[pID p:=follow self cfg reset p k ip pp0]> m !! id = Some pp → id ∈ {[pID p]} ∪ seen → fits cfg pp) as Hins.
  { intros reset pp0 id pp Hpp Hid. apply lookup_insert_Some in Hpp as [[<- <-]|[Hne Hpp]]; [by apply follow_fits|]. apply (Hm id pp Hpp). set_solver. }
  destruct (m !! pID p) as [pp|] eqn:Epp.
  - case_decide; injection E as <- <- <-; apply Hins.
  - destruct (sinks (pID p)); injection E as <- <- <-; [apply Hins|]. intros id pp Hpp Hid. apply (Hm id pp Hpp). set_solver.
Qed.

Lemma syncPaths_fit nm cfg sinks s s' effs : configures nm cfg → syncPaths ParseKey PublicKeyOf opts nm cfg sinks s = (s', effs) → all_fit cfg s'.
Proof.
  intros Hc. unfold syncPaths. destruct (foldl _ _ _) as [[m seen] e1] eqn:E. intros [= <- <-] id pp. cbn. rewrite lookup_fmap. intros (pp0 & H0 & ->)%fmap_Some.
  apply map_lookup_filter_Some in H0 as [H0 Hid]. apply (fits_framed _ pp0); [apply rank_framed|].
  eapply sync_peers_fit; [|exact E| |exact H0|exact Hid]; [intros; by eapply configures_keys|]. intros j q _ Hj. by apply not_elem_of_empty in Hj.
Qed.
End Sync.

(** ** Runs *)

(** What happens between two applications of a map, and the applications: a map
    is configured, then followed by the prober; ticks may come in between. *)
Inductive small :=
  | Tick (connected : bool) (i : TickInput) (oks : nat → bool)
  | Pinged (order : list string) (nm : option NetMap) (name : string)
  | Moved (locals : list addrport) (symmetric : bool) (all : list Endpoints.Endpoint).

Inductive event :=
  | Applied (nm : NetMap) (cfg : WgConfig) (window : list small) (sinks : string → option addrport)
  | Small (s : small).

Definition is_tick (s : small) : bool := match s with Tick _ _ _ => true | _ => false end.
Definition serialised (window : list small) : bool := negb (existsb is_tick window).

Record Sys (D : Type) := { prober : Prober; dev : D }.
Arguments prober {D}. Arguments dev {D}.

Section System.
Context `{Device D} (ParseKey : string → option Key) (PublicKeyOf : Key → Key) (LookupNetIP : string → string → option (list addr))
  (opts : PathMachine.Options).

Definition do_small (s : Sys D) (x : small) : Sys D :=
  match x with
  | Tick c i oks => let '(p, effs) := pathTick c i (prober s) in {| prober := p; dev := perform_all effs oks (dev s) |}
  | Pinged order nm name => {| prober := (Ping order nm name (prober s)).1; dev := dev s |}
  | Moved l sym all => {| prober := setSelf l sym all (prober s); dev := dev s |}
  end.

Definition do_event (s : Sys D) (e : event) : Sys D :=
  match e with
  | Applied nm cfg window sinks =>
      let s := foldl do_small {| prober := prober s; dev := Configure cfg (dev s) |} window in
      {| prober := (syncPaths ParseKey PublicKeyOf opts nm cfg sinks (prober s)).1; dev := dev s |}
  | Small x => do_small s x
  end.

Definition run (d : D) (evs : list event) : Sys D := foldl do_event {| prober := no_paths; dev := d |} evs.

Definition valid (e : event) : Prop := match e with Applied nm cfg _ _ => configures ParseKey LookupNetIP nm cfg | Small _ => True end.

(** The configuration applied last. *)
Definition applied_cfg (e : event) : option WgConfig := match e with Applied _ cfg _ _ => Some cfg | Small _ => None end.
Definition last_cfg (evs : list event) : option WgConfig := last (omap applied_cfg evs).

Definition fits_cfg (c : option WgConfig) (s : Prober) : Prop := match c with Some cfg => all_fit cfg s | None => paths s = ∅ end.
Definition covered_by (c : option WgConfig) (k : Key) (q : WgPeer) : Prop := match c with Some cfg => covered cfg k q | None => False end.

Lemma do_small_frame s x id : option_relation framed (λ _, False) (λ _, False) (paths (prober s) !! id) (paths (prober (do_small s x)) !! id).
Proof.
  destruct x as [c i oks|order nm name|l sym all]; cbn.
  - destruct (pathTick c i (prober s)) as [p effs] eqn:E. apply pathTick_frame in E as [Hm _]. apply Hm.
  - unfold Ping. destruct (ping_target _ _ _) as [j|]; cbn; [|by destruct (paths (prober s) !! id)].
    destruct (decide (id = j)) as [-> | Hne]; [rewrite lookup_alter_eq; by destruct (paths (prober s) !! j)|rewrite lookup_alter_ne by done; by destruct (paths (prober s) !! id)].
  - unfold setSelf. destruct (_ || _); cbn; [|by destruct (paths (prober s) !! id)]. rewrite lookup_fmap. destruct (paths (prober s) !! id); [apply rank_framed|done].
Qed.

Lemma do_small_fits c s x : fits_cfg c (prober s) → fits_cfg c (prober (do_small s x)).
Proof.
  destruct c as [cfg|]; cbn; [apply all_fit_framed, do_small_frame|]. intros Hp. apply map_empty. intros id. pose proof (do_small_frame s x id) as Hf.
  rewrite Hp, lookup_empty in Hf. by destruct (paths _ !! id).
Qed.

(** A tick sets up what the paths fit. *)
Lemma do_small_told c (P : Key → WgPeer → Prop) s x : (∀ k a q, P k q → P k (with_peer_endpoint a q)) → fits_cfg c (prober s) →
  (is_tick x = true → ∀ k q, covered_by c k q → P k q) →
  (∀ k q, told (dev s) !! k = Some q → P k q) → ∀ k q, told (dev (do_small s x)) !! k = Some q → P k q.
Proof.
  intros Hend Hf Hc Hd. destruct x as [b i oks|order nm name|l sym all]; cbn; [|done|done].
  destruct (pathTick b i (prober s)) as [p effs] eqn:E. apply pathTick_frame in E as [_ He]. cbn. apply perform_all_told; [done| |done].
  intros q (id & pp & Hpp & Ht)%He. apply Hc; [done|]. destruct c as [cfg|]; cbn in *; [|by rewrite Hf, lookup_empty in Hpp].
  eapply target_covered; [by eapply Hf|done].
Qed.

Lemma do_smalls_told c (P : Key → WgPeer → Prop) l : (∀ k a q, P k q → P k (with_peer_endpoint a q)) → ∀ s, fits_cfg c (prober s) →
  (existsb is_tick l = true → ∀ k q, covered_by c k q → P k q) → (∀ k q, told (dev s) !! k = Some q → P k q) →
  fits_cfg c (prober (foldl do_small s l)) ∧ ∀ k q, told (dev (foldl do_small s l)) !! k = Some q → P k q.
Proof.
  intros Hend. induction l as [|x l IH]; intros s Hf Hc Hd; [done|]. cbn [foldl existsb] in *. apply IH.
  - by apply do_small_fits.
  - intros Hl. apply Hc. by rewrite Hl, orb_true_r.
  - eapply do_small_told; [done|exact Hf| |exact Hd]. intros Hx. apply Hc. by rewrite Hx.
Qed.

Lemma Configure_covered cfg (d : D) k q : told (Configure cfg d) !! k = Some q → covered cfg k q.
Proof. intros (p & Hp & <- & Hs)%Configure_listed. by apply same_peer_covered. Qed.

Lemma run_fits d evs : Forall valid evs → fits_cfg (last_cfg evs) (prober (run d evs)).
Proof.
  induction evs as [|e evs IH] using rev_ind; [done|]. intros [Hv [He _]%Forall_cons]%Forall_app. unfold run. rewrite foldl_app. cbn [foldl]. fold (run d evs).
  unfold last_cfg. rewrite omap_app, last_app. destruct e as [nm cfg window sinks|x]; cbn.
  - destruct (syncPaths _ _ _ _ _ _ _) as [s' effs] eqn:E. cbn. by eapply syncPaths_fit.
  - apply do_small_fits. fold (last_cfg evs). by apply IH.
Qed.

(** *** Nothing is lost *)

Definition all_ok (x : small) : Prop := match x with Tick _ _ oks => ∀ n, oks n = true | _ => True end.

Definition keeping (effs : list effect) : Prop :=
  ∀ oks (d : D) k, (∀ n, oks n = true) → is_Some (told d !! k) → is_Some (told (perform_all effs oks d) !! k).

Lemma keeping_nil : keeping [].
Proof. by intros oks d k. Qed.

Lemma perform_all_app l1 l2 : ∀ oks (d : D), perform_all (l1 ++ l2) oks d = perform_all l2 (λ n, oks (length l1 + n)%nat) (perform_all l1 oks d).
Proof. induction l1 as [|e l1 IH]; intros oks d; [done|]. cbn [app perform_all length]. by rewrite IH. Qed.

Lemma keeping_app l1 l2 : keeping l1 → keeping l2 → keeping (l1 ++ l2).
Proof. intros H1 H2 oks d k Hok Hk. rewrite perform_all_app. apply H2; [done|]. by apply H1. Qed.

Lemma keeping_outside e : is_device_call e = false → keeping [e].
Proof. intros He oks d k Hok Hk. cbn. unfold perform. rewrite Hok. by destruct e. Qed.

Lemma keeping_set pp e readd : keeping (setPeerEndpoint pp e readd).
Proof.
  intros oks d k Hok Hk. unfold setPeerEndpoint. destruct readd; cbn; unfold perform; rewrite !Hok; cbn;
    rewrite SetPeer_told, put_peer_lookup; (case_decide as E; [by eexists|]); [|done]. rewrite RemovePeer_told. cbn in E. by rewrite lookup_delete_ne.
Qed.

Lemma keeping_act i pp out : keeping (act i pp out).
Proof.
  unfold act. destruct (PathMachine.outAction out); [apply keeping_nil|apply keeping_set| |].
  - apply keeping_app; [apply keeping_set|by apply keeping_outside].
  - destruct (tRelay i (ppKey pp)); [|apply keeping_set]. apply keeping_app; [apply keeping_set|by apply keeping_outside].
Qed.

Lemma keeping_tick_peer i pp pp' effs ch : tick_peer i pp = (pp', effs, ch) → keeping effs.
Proof.
  unfold tick_peer. destruct (PathMachine.Step _ _) as [m out]. destruct (reached_before _ _ _ _); [intros [= <- <- <-]; apply keeping_nil|].
  destruct (PathMachine.Changed out); intros [= <- <- <-]; [|apply keeping_act]. apply keeping_app; [apply keeping_act|].
  destruct (_ || _); [apply keeping_nil|by apply keeping_outside].
Qed.

Lemma keeping_tick_paths i ids : ∀ m m' effs ch, tick_paths i ids m = (m', effs, ch) → keeping effs.
Proof.
  induction ids as [|id ids IH]; intros m m' effs ch; cbn [tick_paths]; [intros [= <- <- <-]; apply keeping_nil|].
  destruct (m !! id) as [pp|]; [|apply IH]. destruct (tick_peer i pp) as [[pp' e1] c1] eqn:Et. destruct (tick_paths i ids _) as [[m1 e2] c2] eqn:E2.
  intros [= <- <- <-]. apply keeping_app; [by eapply keeping_tick_peer|by eapply IH].
Qed.

Lemma do_small_keeps s x k : all_ok x → is_Some (told (dev s) !! k) → is_Some (told (dev (do_small s x)) !! k).
Proof.
  destruct x as [c i oks|order nm name|l sym all]; cbn; [|done|done]. intros Hok Hk. unfold pathTick.
  destruct (tick_paths i (tOrder i) (paths (prober s))) as [[m effs] ch] eqn:E. cbn. assert (keeping (effs ++ if ch then reportPaths c (omap (λ id, m !! id) (tOrder i)) else [])) as Hkeep; [|by apply Hkeep].
  apply keeping_app; [by eapply keeping_tick_paths|]. destruct ch; [|apply keeping_nil]. unfold reportPaths. destruct c; [by apply keeping_outside|apply keeping_nil].
Qed.

Lemma do_smalls_keep l k : ∀ s, Forall all_ok l → is_Some (told (dev s) !! k) → is_Some (told (dev (foldl do_small s l)) !! k).
Proof. induction l as [|x l IH]; intros s; [done|]. intros [Hx Hl]%Forall_cons Hk. cbn [foldl]. apply IH; [done|]. by apply do_small_keeps. Qed.

Lemma run_small d evs l : run d (evs ++ (Small <$> l)) = foldl do_small (run d evs) l.
Proof. unfold run. rewrite foldl_app. generalize (foldl do_event {| prober := no_paths; dev := d |} evs). induction l as [|x l IH]; intros s; [done|]. cbn. apply IH. Qed.

(** C12: the device carries what the map lists.  After any run, each of its peers
    is one of the configuration applied last, with its keepalive and allowed
    addresses (its own address where the list has none); only if a tick ran
    between configuring the device and following the map may it be one of the
    configuration before.  While the calls on the device succeed, no listed peer
    is missing, however often the prober removes and adds them. *)
Theorem device_follows_the_map (d : D) before nm cfg window sinks after :
  Forall valid (before ++ [Applied nm cfg window sinks]) →
  let s := run d (before ++ [Applied nm cfg window sinks] ++ (Small <$> after)) in
  (∀ k q, told (dev s) !! k = Some q → covered cfg k q ∨ serialised window = false ∧ covered_by (last_cfg before) k q) ∧
  (Forall all_ok (window ++ after) → ∀ k, k ∈ keys_of cfg → is_Some (told (dev s) !! k)).
Proof.
  intros Hv s. subst s. rewrite app_assoc, run_small. pose proof (run_fits d _ Hv) as Hfit. unfold last_cfg in Hfit. rewrite omap_app, last_app in Hfit. cbn in Hfit.
  apply Forall_app in Hv as [Hv _]. pose proof (run_fits d _ Hv) as Hfit0. unfold run in *. rewrite foldl_app in *. cbn [foldl do_event] in *.
  set (s0 := foldl do_event _ before) in *. set (s1 := {| prober := prober s0; dev := Configure cfg (dev s0) |} : Sys D) in *. split.
  - set (P := λ k q, covered cfg k q ∨ serialised window = false ∧ covered_by (last_cfg before) k q).
    assert (∀ k a q, P k q → P k (with_peer_endpoint a q)) as Hend.
    { intros k a q [Hq|[Hw Hq]]; [left; by apply covered_endpoint|right; split; [done|]]. destruct (last_cfg before); [by apply covered_endpoint|done]. }
    destruct (do_smalls_told (last_cfg before) P window Hend s1 Hfit0) as [_ Hd]; [|intros k q Hq; left; exact (Configure_covered cfg (dev s0) k q Hq)|].
    { intros Hw k q Hq. right. split; [|done]. unfold serialised. by rewrite Hw. }
    apply (do_smalls_told (Some cfg) P after Hend); [done| |exact Hd]. intros _ k q Hq. by left.
  - intros [Hw Ha]%Forall_app k Hk. apply do_smalls_keep; [done|]. cbn [dev]. apply do_smalls_keep; [done|]. by apply Configure_all.
Qed.
End System.

(** ** A peer that comes back *)

Definition demo_key (s : string) : option Key := if bool_decide (s = "") then None else Some (string_bytes s).
Definition demo_names (_ _ : string) : option (list addr) := None.
Definition demo_public (k : Key) : Key := k.
Definition demo_peer (id ip : string) : Peer :=
  {| pID := id; pName := id; pKind := "user"; pOwner := ""; pPublicKey := id; pIPv4 := ip; pIPv6 := ""; pOnline := true;
     pEndpoints := [{| epAddr := "192.0.2.7:51820"; epKind := KindStable |}]; pSymmetric := false; pKeepalive := false; pAllowedIPs := [ip +:+ "/32"];
     pViaHub := false; pSignatures := []; pExitNode := false; pWanted := false; pWantSeq := 0 |}.
Definition demo_map (l : list Peer) : NetMap :=
  {| mGeneration := 1; mSelfID := "me"; mSelfName := "me"; mSelfKind := "user"; mSelfIPv4 := "100.64.0.9"; mOverlay := "100.64.0.0/10"; mSelfIPv6 := "";
     mOverlay6 := ""; mPeers := l; mHub := NoHub; mReceivedAt := 0; mServerVersion := ""; mSTUN := []; mFilter := []; mSelfSignatures := []; mLock := None;
     mForward := []; mAdvertised := [] |}.
Definition demo_cfg (l : list Peer) : WgConfig :=
  match BuildConfigWith demo_key demo_names (demo_map l) [] 51820 (Prefix (Addr4 1681915904) 10) "" with
  | Ok cfg => cfg
  | Err _ => {| cPrivateKey := []; cListenPort := 0; cAddresses := []; cPeers := []; cFwMark := 0 |}
  end.
Definition demo_opts : PathMachine.Options := {| PathMachine.ProbeWindow := 0; PathMachine.StallAfter := 0; PathMachine.RetryAfter := 0; PathMachine.UseRelay := true |}.
Definition demo_sink (id : string) : option addrport := Some (AddrPort (Addr4 0x7f000001) (Z.of_nat (String.length id))).
Definition demo_tick (now : Z) : small :=
  Tick true {| tNow := now; tStats := []; tFresh := []; tIntent := λ _, true; tRelay := λ _, None; tOrder := ["a"; "db"] |} (λ _, true).
Definition both : list Peer := [demo_peer "a" "100.64.0.1"; demo_peer "db" "100.64.0.2"].
Definition demo_apply (l : list Peer) (window : list small) : event := Applied (demo_map l) (demo_cfg l) window demo_sink.

Lemma demo_configures l : is_ok (BuildConfigWith demo_key demo_names (demo_map l) [] 51820 (Prefix (Addr4 1681915904) 10) "") = true →
  configures demo_key demo_names (demo_map l) (demo_cfg l).
Proof. intros Hok. exists [], 51820, (Prefix (Addr4 1681915904) 10), "". unfold demo_cfg. by destruct (BuildConfigWith _ _ _ _ _ _ _). Qed.

Lemma device_follows_the_map_witness :
  let s := run demo_key demo_public demo_opts (∅ : Peers) ([demo_apply both []; Small (demo_tick 1)] ++ [demo_apply [demo_peer "a" "100.64.0.1"] []] ++ (Small <$> [demo_tick 2])) in
  is_Some (told (dev s) !! string_bytes "a") ∧ told (dev s) !! string_bytes "db" = None.
Proof.
  destruct (device_follows_the_map demo_key demo_public demo_names demo_opts (∅ : Peers) [demo_apply both []; Small (demo_tick 1)]
    (demo_map [demo_peer "a" "100.64.0.1"]) (demo_cfg [demo_peer "a" "100.64.0.1"]) [] demo_sink [demo_tick 2]) as [H1 H2].
  { repeat constructor; apply demo_configures; by vm_compute. }
  split.
  - apply H2; [by repeat constructor|]. by vm_compute; left.
  - destruct (told _ !! string_bytes "db") as [q|] eqn:E; [|done]. destruct (H1 _ _ E) as [(p & Hp & Hk & _)|[[=] _]]. exfalso. revert Hp Hk. vm_compute. intros [-> | []%elem_of_nil]%elem_of_cons. done.
Defined.

(** With a tick between the two, the peer that the second map dropped is set up
    again, and no path is left that would remove it. *)
Example dropped_peer_returns :
  let s := run demo_key demo_public demo_opts (∅ : Peers) [demo_apply both []; demo_apply [demo_peer "a" "100.64.0.1"] [demo_tick 1]; Small (demo_tick 2)] in
  bool_decide (is_Some (told (dev s) !! string_bytes "db")) = true ∧ paths (prober s) !! "db" = None ∧ string_bytes "db" ∉ keys_of (demo_cfg [demo_peer "a" "100.64.0.1"]).
Proof. split_and!; [by vm_compute|by vm_compute|]. apply (bool_decide_unpack _). by vm_compute. Qed.

(** * The endpoints follow the paths *)

Import PathMachine(op, op_ok, cmd, CmdSink, CmdAt, CmdRelay, OpStep, OpHold, OpStagger, OpCandidates, Idle, Probing, Direct, Relay, Unreachable).

Definition told_endpoint `{Device D} (d : D) (k : Key) : option addrport := wEndpoint <$> told d !! k.

(** ** Calls and endpoints *)

Lemma perform_all_other `{Device D} pp effs k : k ≠ ppKey pp → Forall (for_path pp) effs → ∀ oks (d : D), told (perform_all effs oks d) !! k = told d !! k.
Proof.
  intros Hk. induction 1 as [|e effs He _ IH]; intros oks d; [done|]. cbn [perform_all]. rewrite IH. unfold perform. destruct (negb (oks 0%nat)); [done|].
  destruct e as [r|q|a|r|l]; try done.
  - cbn in He. subst r. by rewrite RemovePeer_told, lookup_delete_ne.
  - destruct He as [He _]. rewrite SetPeer_told, put_peer_lookup. rewrite decide_False by congruence. done.
Qed.

Lemma perform_setPeer `{Device D} pp e readd oks (d : D) : (∀ n, oks n = true) → APIsValid e = true →
  told_endpoint (perform_all (setPeerEndpoint pp e readd) oks d) (ppKey pp) = Some e.
Proof.
  intros Hok He. unfold told_endpoint, setPeerEndpoint. destruct readd; cbn; unfold perform; rewrite !Hok; cbn; rewrite SetPeer_told, put_peer_lookup; cbn;
    rewrite decide_True by done; cbn; unfold kept_endpoint; cbn; by rewrite He.
Qed.

Lemma perform_outside `{Device D} effs : Forall (λ e, is_device_call e = false) effs → ∀ oks (d : D), perform_all effs oks d = d.
Proof. induction 1 as [|e effs He _ IH]; intros oks d; [done|]. cbn [perform_all]. rewrite IH. unfold perform. destruct (negb _); [done|]. by destruct e. Qed.

Lemma perform_then `{Device D} l1 l2 oks (d : D) : Forall (λ e, is_device_call e = false) l2 → perform_all (l1 ++ l2) oks d = perform_all l1 oks d.
Proof. intros H2. rewrite perform_all_app. by apply perform_outside. Qed.

(** A listed peer without an endpoint of its own keeps the one it has. *)
Lemma put_all_keeps l : ∀ m p e, NoDup (wPublicKey <$> l) → p ∈ l → wEndpoint p = NoAddrPort → wEndpoint <$> m !! wPublicKey p = Some e →
  wEndpoint <$> foldl put_peer m l !! wPublicKey p = Some e.
Proof.
  induction l as [|x l IH]; intros m p e Hnd Hp Hne He; [by apply elem_of_nil in Hp|]. cbn [fmap list_fmap] in Hnd. apply NoDup_cons in Hnd as [Hx Hnd]. cbn [foldl].
  apply elem_of_cons in Hp as [-> | Hp].
  - rewrite put_all_out by done. rewrite put_peer_lookup, decide_True by done. cbn. unfold kept_endpoint. rewrite Hne. cbn. by rewrite He.
  - apply IH; [done..|]. rewrite put_peer_lookup, decide_False; [done|]. intros E. apply Hx. rewrite <- E. by apply list_elem_of_fmap_2.
Qed.

Lemma Configure_keeps `{Device D} cfg (d : D) p e : NoDup (keys_of cfg) → p ∈ cPeers cfg → wEndpoint p = NoAddrPort →
  told_endpoint d (wPublicKey p) = Some e → told_endpoint (Configure cfg d) (wPublicKey p) = Some e.
Proof.
  intros Hnd Hp Hne He. unfold told_endpoint in *. rewrite Configure_told. apply put_all_keeps; [done..|]. unfold listed. rewrite map_lookup_filter.
  destruct (told d !! wPublicKey p) as [q|]; [|done]. cbn. rewrite option_guard_True; [done|]. by apply list_elem_of_fmap_2.
Qed.

(** ** The configuration of a map *)

Section Listed.
Context (ParseKey : string → option Key) (LookupNetIP : string → string → option (list addr)).

Lemma configures_spec nm cfg : configures ParseKey LookupNetIP nm cfg → ∃ hubs cs, cPeers cfg = hubs ++ cs ∧
  Forall2 (λ p w, ParseKey (pPublicKey p) = Some (wPublicKey w) ∧ wEndpoint w = NoAddrPort) (filter (λ p, pViaHub p = false) (mPeers nm)) cs.
Proof.
  intros (key & port & ov & exit & H). unfold BuildConfigWith in H. apply result_bind_ok in H as (ip & _ & H). apply result_bind_ok in H as (hubs & Hh & H).
  apply result_bind_ok in H as (cs & Hc & H). injection H as <-. exists hubs, cs. split; [done|]. apply DeviceSafety.peer_configs_spec in Hc.
  eapply Forall2_impl; [exact Hc|]. intros p w Hw. split; [exact (DeviceSafety.peer_config_key _ _ _ _ _ Hw)|]. unfold peer_config in Hw.
  apply result_bind_ok in Hw as (k & _ & Hw). apply result_bind_ok in Hw as (a & _ & Hw). by injection Hw as <-.
Qed.

Lemma configured_peer nm cfg p k : configures ParseKey LookupNetIP nm cfg → p ∈ mPeers nm → pViaHub p = false → ParseKey (pPublicKey p) = Some k →
  ∃ w, w ∈ cPeers cfg ∧ wPublicKey w = k ∧ wEndpoint w = NoAddrPort.
Proof.
  intros (hubs & cs & -> & Hc)%configures_spec Hp Hv Hk. assert (p ∈ filter (λ p, pViaHub p = false) (mPeers nm)) as [i Hi]%list_elem_of_lookup by by apply list_elem_of_filter.
  destruct (Forall2_lookup_l _ _ _ _ _ Hc Hi) as (w & Hw%list_elem_of_lookup_2 & Hkw & He). exists w. rewrite Hk in Hkw. injection Hkw as ->. split_and!; [set_solver|done|done].
Qed.

(** Keys that are all different tell the entries of the map apart. *)
Lemma key_of_one nm cfg p q k : configures ParseKey LookupNetIP nm cfg → NoDup (keys_of cfg) → p ∈ mPeers nm → q ∈ mPeers nm → pViaHub p = false →
  pViaHub q = false → ParseKey (pPublicKey p) = Some k → ParseKey (pPublicKey q) = Some k → p = q.
Proof.
  intros (hubs & cs & E & Hc)%configures_spec Hnd Hp Hq Hvp Hvq Hkp Hkq. unfold keys_of in Hnd. rewrite E, fmap_app in Hnd. apply NoDup_app in Hnd as (_ & _ & Hnd).
  assert (p ∈ filter (λ p, pViaHub p = false) (mPeers nm)) as [i Hi]%list_elem_of_lookup by by apply list_elem_of_filter.
  assert (q ∈ filter (λ p, pViaHub p = false) (mPeers nm)) as [j Hj]%list_elem_of_lookup by by apply list_elem_of_filter.
  destruct (Forall2_lookup_l _ _ _ _ _ Hc Hi) as (w & Hw & Hkw & _). destruct (Forall2_lookup_l _ _ _ _ _ Hc Hj) as (v & Hv & Hkv & _).
  assert ((wPublicKey <$> cs) !! i = Some k) as H1 by (rewrite list_lookup_fmap, Hw; cbn; congruence).
  assert ((wPublicKey <$> cs) !! j = Some k) as H2 by (rewrite list_lookup_fmap, Hv; cbn; congruence).
  assert (i = j) as <- by (by eapply NoDup_lookup). congruence.
Qed.
End Listed.

(** ** Paths in step with the device *)

Section InStep.
Context `{Device D} (opts : PathMachine.Options) (gives : Key → addrport → Prop).

(** The endpoint a command gives; [gives] says what the relay's proxies are. *)
Definition told_as (pp : peerPath) (c : cmd) (e : addrport) : Prop :=
  match c with CmdSink => e = ppSink pp | CmdAt a => e = a | CmdRelay => gives (ppKey pp) e ∨ e = ppSink pp end.

(** The path's machine is one of [PathMachine.run], and its last command is what
    the device was told. *)
Definition in_step (d : D) (pp : peerPath) : Prop :=
  APIsValid (ppSink pp) = true ∧ ∃ ops, Forall op_ok ops ∧ (PathMachine.run opts ops).1 = ppMachine pp ∧
    ∀ c, (PathMachine.run opts ops).2 = Some c → ∃ e, told_endpoint d (ppKey pp) = Some e ∧ told_as pp c e.

Definition distinct (m : PathMap) : Prop := ∀ i j p q, m !! i = Some p → m !! j = Some q → ppKey p = ppKey q → i = j.
Definition all_in_step (d : D) (m : PathMap) : Prop := ∀ id pp, m !! id = Some pp → in_step d pp.

(** A call of a method of the machine that tells the device nothing. *)
Lemma in_step_op d pp pp' o : in_step d pp → ppSink pp' = ppSink pp → ppKey pp' = ppKey pp → op_ok o →
  PathMachine.apply (ppMachine pp, None) o = (ppMachine pp', None) → (∀ i, o ≠ OpStep i) → in_step d pp'.
Proof.
  intros (Hs & ops & Hok & Hm & Hc) Es Ek Ho Ha Hn. split; [by rewrite Es|]. exists (ops ++ [o]). rewrite PathMachine.run_snoc.
  split; [by apply Forall_app; split; [|constructor]|]. destruct (PathMachine.run opts ops) as [m c]. cbn in Hm. subst m. unfold told_as. rewrite Es, Ek.
  destruct o as [i|now|on|l]; [by destruct (Hn i)|..]; cbn in *; by injection Ha as ->.
Qed.

Lemma in_step_same d pp pp' : in_step d pp → ppSink pp' = ppSink pp → ppKey pp' = ppKey pp → ppMachine pp' = ppMachine pp → in_step d pp'.
Proof. intros (Hs & ops & Hok & Hm & Hc) Es Ek Em. split; [by rewrite Es|]. exists ops. unfold told_as. by rewrite Es, Ek, Em. Qed.

Lemma in_step_device d d' pp : (∀ e, told_endpoint d (ppKey pp) = Some e → told_endpoint d' (ppKey pp) = Some e) → in_step d pp → in_step d' pp.
Proof. intros Hd (Hs & ops & Hok & Hm & Hc). split; [done|]. exists ops. split_and!; [done|done|]. intros c Hcc. destruct (Hc c Hcc) as (e & He & Ht). exists e. eauto. Qed.

(** A step of the machine, and the calls of its action. *)
Definition tick_ok (i : TickInput) : Prop := ∀ k e, tRelay i k = Some e → gives k e ∧ APIsValid e = true.

Lemma act_in_step i oks pp inp d : tick_ok i → (∀ n, oks n = true) → in_step d pp →
  in_step (perform_all (act i pp (PathMachine.Step (ppMachine pp) inp).2) oks d) (with_machine (PathMachine.Step (ppMachine pp) inp).1 pp).
Proof.
  intros Hi Hok (Hs & ops & Hops & Hm & Hc). split; [done|]. exists (ops ++ [OpStep inp]). rewrite PathMachine.run_snoc.
  split; [by apply Forall_app; split; [|by constructor]|]. destruct (PathMachine.run opts ops) as [m c] eqn:E. cbn in Hm, Hc. subst m. cbn [PathMachine.apply fst snd].
  assert (PathMachine.Inv (PathMachine.Step (ppMachine pp) inp).1) as HI.
  { pose proof (PathMachine.run_inv opts (ops ++ [OpStep inp])) as Hr. rewrite PathMachine.run_snoc, E in Hr. cbn in Hr.
    destruct (PathMachine.Step (ppMachine pp) inp) as [m' out]. apply Hr. apply Forall_app. split; [done|by constructor]. }
  pose proof (PathMachine.Step_probe (ppMachine pp) inp) as Hp. destruct (PathMachine.Step (ppMachine pp) inp) as [m' out]. cbn [fst snd] in *. split; [done|].
  change (ppKey (with_machine m' pp)) with (ppKey pp). unfold act. destruct (PathMachine.outAction out) eqn:Ea; cbn [PathMachine.exec]; intros c' Hc'.
  - destruct (Hc c' Hc') as (e & He & Ht). by exists e.
  - injection Hc' as <-. exists (ppSink pp). split; [|done]. by apply perform_setPeer.
  - injection Hc' as <-. destruct (Hp eq_refl) as [Hst He]. exists (PathMachine.outEndpoint out). split; [|done]. rewrite perform_then by (by repeat constructor).
    apply perform_setPeer; [done|]. rewrite He. apply (PathMachine.inv_set _ HI). by left.
  - injection Hc' as <-. destruct (tRelay i (ppKey pp)) as [e|] eqn:Er.
    + destruct (Hi _ _ Er). exists e. split; [|by left]. rewrite perform_then by (by repeat constructor). by apply perform_setPeer.
    + exists (ppSink pp). split; [|by right]. by apply perform_setPeer.
Qed.

Lemma tick_peer_in_step i oks pp pp' effs ch d : tick_ok i → (∀ n, oks n = true) → tick_peer i pp = (pp', effs, ch) → in_step d pp →
  in_step (perform_all effs oks d) pp'.
Proof.
  intros Hi Hok H0 Hd. unfold tick_peer in H0. set (inp := tick_input i pp) in *. set (p1 := stepped (with_asked false false pp)) in *.
  assert (in_step d p1) as H1 by (by eapply in_step_same). pose proof (act_in_step i oks p1 inp d Hi Hok H1) as Ha.
  destruct (PathMachine.Step (ppMachine p1) inp) as [m out]. cbn [fst snd] in Ha.
  destruct (reached_before i p1 inp (PathMachine.outAction out)).
  { injection H0 as <- <- <-. cbn [perform_all]. by apply (in_step_op d p1 _ (OpHold (tNow i))). }
  change (act i (with_machine m p1) out) with (act i p1 out) in H0. destruct (PathMachine.Changed out); injection H0 as <- <- <-; [|done].
  rewrite perform_then; [by eapply in_step_same|]. destruct (_ || _); by repeat constructor.
Qed.

Lemma distinct_insert m id pp pp' : distinct m → m !! id = Some pp → ppKey pp' = ppKey pp → distinct (<[id := pp']> m).
Proof.
  intros Hm Hid Hk i j p q Hp Hq E. apply lookup_insert_Some in Hp as [[<- <-]|[? Hp]], Hq as [[<- <-]|[? Hq]]; [done| | |by eapply Hm].
  - eapply Hm; [exact Hid|exact Hq|congruence].
  - eapply Hm; [exact Hp|exact Hid|congruence].
Qed.

Lemma tick_paths_in_step i ids : tick_ok i → ∀ m m' effs ch oks d, (∀ n, oks n = true) → tick_paths i ids m = (m', effs, ch) → distinct m → all_in_step d m →
  distinct m' ∧ all_in_step (perform_all effs oks d) m'.
Proof.
  intros Hi. induction ids as [|id ids IH]; intros m m' effs ch oks d Hok; cbn [tick_paths]; [by intros [= <- <- <-]|].
  destruct (m !! id) as [pp|] eqn:E; [|by apply IH]. destruct (tick_peer i pp) as [[pp' e1] c1] eqn:Et. destruct (tick_paths i ids _) as [[m1 e2] c2] eqn:E2.
  intros [= <- <- <-] Hm Hd. rewrite perform_all_app. pose proof (tick_peer_frame _ _ _ _ _ Et) as [Hf He]. apply (IH _ _ _ _ _ _ (λ n, Hok _) E2).
  - eapply distinct_insert; [done|exact E|by destruct Hf].
  - intros j q Hq. apply lookup_insert_Some in Hq as [[<- <-]|[Hne Hq]]; [eapply tick_peer_in_step; [done|done|exact Et|by eapply Hd]|].
    eapply in_step_device; [|by eapply Hd]. intros e. unfold told_endpoint. rewrite (perform_all_other pp); [done| |done].
    intros Ek. apply Hne. by eapply Hm.
Qed.

Lemma pathTick_in_step c i oks s s' effs d : tick_ok i → (∀ n, oks n = true) → pathTick c i s = (s', effs) → distinct (paths s) → all_in_step d (paths s) →
  distinct (paths s') ∧ all_in_step (perform_all effs oks d) (paths s').
Proof.
  intros Hi Hok H0 Hm Hd. unfold pathTick in H0. destruct (tick_paths i (tOrder i) (paths s)) as [[m e1] ch] eqn:E. injection H0 as <- <-.
  rewrite perform_then; [by eapply tick_paths_in_step|]. destruct ch; [|constructor]. unfold reportPaths. destruct c; by repeat constructor.
Qed.

(** *** Ranking and the other small steps *)

Lemma Order_valid ours sym psym theirs : Forall (λ e, APIsValid e = true) (PathOrder.Order ours sym psym theirs).
Proof.
  apply Forall_forall. intros a Ha. unfold PathOrder.Order in Ha. apply list_elem_of_fmap in Ha as (r & -> & Hr). apply elem_of_stable_sort in Hr.
  assert (PathOrder.raddr r ∈ PathOrder.raddr <$> PathOrder.rank ours sym psym ∅ theirs) as Hin by by apply list_elem_of_fmap_2.
  by apply PathOrder.rank_spec in Hin as (_ & Hv & _).
Qed.

Lemma rank_in_step addrs sym d pp : in_step d pp → in_step d (rank addrs sym pp).
Proof. intros Hp. apply (in_step_op d pp _ (OpCandidates (PathOrder.Order addrs sym (ppSymmetric pp) (ppCands pp)))); try done. apply Order_valid. Qed.

Lemma rank_all_in_step addrs sym d m : distinct m → all_in_step d m → distinct (rank addrs sym <$> m) ∧ all_in_step d (rank addrs sym <$> m).
Proof.
  intros Hm Hd. split.
  - intros i j p q. rewrite !lookup_fmap. intros (p0 & Hp & ->)%fmap_Some (q0 & Hq & ->)%fmap_Some Ek. by eapply Hm.
  - intros id pp. rewrite lookup_fmap. intros (p0 & Hp & ->)%fmap_Some. apply rank_in_step. by eapply Hd.
Qed.

(** The prober's map gives each path once. *)
Definition small_ok (x : small) : Prop := match x with Tick _ i oks => tick_ok i ∧ NoDup (tOrder i) ∧ ∀ n, oks n = true | _ => True end.

Lemma do_small_in_step (s : Sys D) x : small_ok x → distinct (paths (prober s)) → all_in_step (dev s) (paths (prober s)) →
  distinct (paths (prober (do_small s x))) ∧ all_in_step (dev (do_small s x)) (paths (prober (do_small s x))).
Proof.
  destruct x as [c i oks|order nm name|l sym all]; cbn; intros Hx Hm Hd.
  - destruct Hx as (Hi & _ & Hok). destruct (pathTick c i (prober s)) as [p effs] eqn:E. by eapply pathTick_in_step.
  - unfold Ping. destruct (ping_target _ _ _) as [id|]; cbn; [|done]. split.
    + intros i j p q Hp Hq Ek. apply lookup_alter_Some in Hp as [(-> & p0 & Hp & ->)|[? Hp]], Hq as [(-> & q0 & Hq & ->)|[? Hq]]; by eapply Hm.
    + intros j p Hp. apply lookup_alter_Some in Hp as [(-> & p0 & Hp & ->)|[? Hp]]; [eapply in_step_same; [by eapply Hd|done..]|by eapply Hd].
  - unfold setSelf. destruct (_ || _); cbn; [|done]. by apply rank_all_in_step.
Qed.

(** *** Direct paths *)

(** A step of the prober to a direct path leaves the endpoint its peer was told,
    but for the first step of a machine, which gives the sink. *)
Definition left_alone (d d' : D) (pp pp' : peerPath) : Prop :=
  ppKey pp = ppKey pp' ∧ (PathMachine.started (ppMachine pp') = true → PathMachine.state (ppMachine pp') = Direct →
    told_endpoint d' (ppKey pp') = if PathMachine.started (ppMachine pp) then told_endpoint d (ppKey pp') else Some (ppSink pp')).

Definition all_left_alone (d d' : D) (m m' : PathMap) : Prop := ∀ id pp', m' !! id = Some pp' → ∃ pp, m !! id = Some pp ∧ left_alone d d' pp pp'.

Lemma left_alone_same d d' pp pp' : ppKey pp = ppKey pp' → PathMachine.started (ppMachine pp') = PathMachine.started (ppMachine pp) →
  (PathMachine.started (ppMachine pp) = true → told_endpoint d' (ppKey pp) = told_endpoint d (ppKey pp)) → left_alone d d' pp pp'.
Proof. intros Hk Hs Ht. split; [done|]. rewrite Hs, <- Hk. intros H1 _. rewrite H1. by apply Ht. Qed.

Lemma tick_peer_left i oks pp pp' effs ch d : (∀ n, oks n = true) → tick_peer i pp = (pp', effs, ch) → in_step d pp → left_alone d (perform_all effs oks d) pp pp'.
Proof.
  intros Hok H0 [Hs _]. pose proof (tick_peer_frame _ _ _ _ _ H0) as [[_ _ Hk _ _ Hsink] _]. unfold tick_peer in H0. set (inp := tick_input i pp) in *.
  pose proof (PathMachine.Step_direct (ppMachine pp) inp) as Hd. change (ppMachine (stepped _)) with (ppMachine pp) in H0.
  destruct (PathMachine.Step (ppMachine pp) inp) as [m out]. cbn [fst snd] in Hd. destruct (reached_before i _ inp (PathMachine.outAction out)).
  { injection H0 as <- <- <-. apply left_alone_same; [done| |done]. cbn. unfold PathMachine.Hold. by case_decide. }
  split; [done|]. intros _ Hst. rewrite Hk, Hsink. assert (PathMachine.state m = Direct) as [Ha _]%Hd.
  { destruct (PathMachine.Changed out); by injection H0 as <- _ _. }
  assert (perform_all effs oks d = perform_all (act i pp out) oks d) as ->.
  { destruct (PathMachine.Changed out); injection H0 as _ <- _; [|done]. apply perform_then. destruct (_ || _); by repeat constructor. }
  unfold act. rewrite Ha. unfold PathMachine.first_action. destruct (PathMachine.started (ppMachine pp)); [done|]. by apply perform_setPeer.
Qed.

Lemma tick_paths_out i ids id : id ∉ ids → ∀ m m' effs ch oks d, tick_paths i ids m = (m', effs, ch) → m' !! id = m !! id ∧
  ∀ pp, distinct m → m !! id = Some pp → told (perform_all effs oks d) !! ppKey pp = told d !! ppKey pp.
Proof.
  induction ids as [|j ids IH]; intros Hid m m' effs ch oks d; cbn [tick_paths]; [by intros [= <- <- <-]|]. apply not_elem_of_cons in Hid as [Hne Hid].
  destruct (m !! j) as [pj|] eqn:Ej; [|by apply IH]. destruct (tick_peer i pj) as [[pj' e1] c1] eqn:Et. destruct (tick_paths i ids _) as [[m1 e2] c2] eqn:E2.
  intros [= <- <- <-]. pose proof (tick_peer_frame _ _ _ _ _ Et) as [[_ _ Hk _ _ _] He]. rewrite perform_all_app.
  destruct (IH Hid _ _ _ _ (λ n, oks (length e1 + n)%nat) (perform_all e1 oks d) E2) as [Hm Ht]. rewrite lookup_insert_ne in Hm, Ht by done. split; [done|].
  intros pp Hd Hpp. rewrite Ht; [|by eapply distinct_insert|done]. apply (perform_all_other pj); [|done]. intros E. apply Hne. by eapply Hd.
Qed.

Lemma tick_paths_left i ids : tick_ok i → NoDup ids → ∀ m m' effs ch oks d, (∀ n, oks n = true) → tick_paths i ids m = (m', effs, ch) → distinct m →
  all_in_step d m → all_left_alone d (perform_all effs oks d) m m'.
Proof.
  intros Hi. induction ids as [|id ids IH]; intros Hnd m m' effs ch oks d Hok; cbn [tick_paths].
  { intros [= <- <- <-] _ _ j pp Hj. exists pp. split; [done|]. by apply left_alone_same. }
  apply NoDup_cons in Hnd as [Hid Hnd]. destruct (m !! id) as [pp|] eqn:E; [|by apply IH].
  destruct (tick_peer i pp) as [[pp' e1] c1] eqn:Et. destruct (tick_paths i ids _) as [[m1 e2] c2] eqn:E2.
  intros [= <- <- <-] Hm Hd. rewrite perform_all_app. pose proof (tick_peer_frame _ _ _ _ _ Et) as [Hf He].
  assert (distinct (<[id:=pp']> m)) as Hm1 by (eapply distinct_insert; [done|exact E|by destruct Hf]).
  intros j q Hq. destruct (decide (j = id)) as [-> | Hne].
  - destruct (tick_paths_out i ids id Hid _ _ _ _ (λ n, oks (length e1 + n)%nat) (perform_all e1 oks d) E2) as [Hl Ht].
    rewrite Hl, lookup_insert_eq in Hq. injection Hq as <-. exists pp. split; [done|]. destruct (tick_peer_left i oks pp pp' e1 c1 d Hok Et (Hd _ _ E)) as [Hk Hl'].
    split; [done|]. intros H1 H2. rewrite <- Hl' by done. unfold told_endpoint. by rewrite (Ht pp' Hm1 (lookup_insert_eq _ _ _)).
  - destruct (IH Hnd _ _ _ _ _ (perform_all e1 oks d) (λ n, Hok (length e1 + n)%nat) E2 Hm1) with (id := j) (pp' := q) as (q0 & Hq0 & Hk & Hl); [|done|].
    { intros k x Hx. apply lookup_insert_Some in Hx as [[<- <-]|[Hnk Hx]]; [eapply tick_peer_in_step; [done|done|exact Et|by eapply Hd]|].
      eapply in_step_device; [|by eapply Hd]. intros e. unfold told_endpoint. rewrite (perform_all_other pp); [done| |done]. intros Ek. apply Hnk. by eapply Hm. }
    rewrite lookup_insert_ne in Hq0 by done. exists q0. split; [done|]. split; [done|]. intros H1 H2. rewrite Hl by done. unfold told_endpoint.
    rewrite (perform_all_other pp e1 (ppKey q)); [done| |done]. rewrite <- Hk. intros Ek. apply Hne. by eapply Hm.
Qed.

Lemma do_small_left (s : Sys D) x : small_ok x → distinct (paths (prober s)) → all_in_step (dev s) (paths (prober s)) →
  all_left_alone (dev s) (dev (do_small s x)) (paths (prober s)) (paths (prober (do_small s x))).
Proof.
  destruct x as [c i oks|order nm name|l sym all]; cbn; intros Hx Hm Hd.
  - destruct Hx as (Hi & Hnd & Hok). unfold pathTick. destruct (tick_paths i (tOrder i) (paths (prober s))) as [[m e1] ch] eqn:E. cbn.
    rewrite perform_then; [by eapply tick_paths_left|]. destruct ch; [|constructor]. unfold reportPaths. destruct c; by repeat constructor.
  - intros id pp'. unfold Ping. destruct (ping_target _ _ _) as [j|]; cbn; [|intros Hp; exists pp'; split; [done|by apply left_alone_same]].
    intros [(-> & p0 & Hp & ->)|[_ Hp]]%lookup_alter_Some; eexists; (split; [exact Hp|by apply left_alone_same]).
  - intros id pp'. unfold setSelf. destruct (_ || _); cbn; [|intros Hp; exists pp'; split; [done|by apply left_alone_same]].
    rewrite lookup_fmap. intros (p0 & Hp & ->)%fmap_Some. exists p0. split; [done|]. apply left_alone_same; [done| |done].
    cbn. unfold PathMachine.SetCandidates. by case_decide.
Qed.

(** A machine that was stepped has given a command. *)
Lemma in_step_told d pp : in_step d pp → PathMachine.started (ppMachine pp) = true → is_Some (told_endpoint d (ppKey pp)).
Proof.
  intros (_ & ops & Hok & Hm & Hc) Hst. rewrite <- Hm in Hst. destruct (PathMachine.run_commanded opts ops Hok Hst) as [c Ec].
  destruct (Hc c Ec) as (e & He & _). by exists e.
Qed.

(** *** Following a map *)

Context (ParseKey : string → option Key) (PublicKeyOf : Key → Key) (LookupNetIP : string → string → option (list addr)).

Lemma do_smalls_in_step l : ∀ s : Sys D, Forall small_ok l → distinct (paths (prober s)) → all_in_step (dev s) (paths (prober s)) →
  distinct (paths (prober (foldl do_small s l))) ∧ all_in_step (dev (foldl do_small s l)) (paths (prober (foldl do_small s l))).
Proof. induction l as [|x l IH]; intros s; [done|]. intros [Hx Hl]%Forall_cons Hm Hd. cbn [foldl]. by apply IH; [done|apply do_small_in_step..]. Qed.

(** While a map is followed: the paths seen are in step with the device as it is
    now and have the keys of entries of the map, the others are in step with
    the device as it was. *)
Record following (nm : NetMap) (d0 d1 : D) (m : PathMap) (seen : gset string) : Prop := {
  fo_old : ∀ id pp, m !! id = Some pp → id ∉ seen → in_step d0 pp;
  fo_new : ∀ id pp, m !! id = Some pp → id ∈ seen → in_step d1 pp ∧
    ∃ p, p ∈ mPeers nm ∧ pViaHub p = false ∧ pID p = id ∧ ParseKey (pPublicKey p) = Some (ppKey pp);
}.

Lemma follow_in_step self cfg reset p k ip d pp : in_step d pp → ppKey pp = k → in_step d (follow self cfg reset p k ip pp).
Proof. intros Hp <-. by apply (in_step_op d pp _ (OpStagger (key_above self (ppKey pp)))). Qed.

Lemma fresh_in_step self cfg reset p k ip d pp : APIsValid (ppSink pp) = true → ppMachine pp = PathMachine.New opts → in_step d (follow self cfg reset p k ip pp).
Proof. intros Hs Hm. split; [done|]. exists [OpStagger (key_above self k)]. split_and!; [by repeat constructor|cbn; by rewrite Hm|done]. Qed.

Lemma following_insert nm d0 d1 m seen p k pp : following nm d0 d1 m seen → p ∈ mPeers nm → pViaHub p = false → ParseKey (pPublicKey p) = Some k → ppKey pp = k →
  in_step d1 pp → following nm d0 d1 (<[pID p := pp]> m) ({[pID p]} ∪ seen).
Proof.
  intros [Ho Hn] Hp Hv Hk Ek Hs. split.
  - intros id q Hq Hid. apply lookup_insert_Some in Hq as [[<- _]|[_ Hq]]; [set_solver|]. eapply Ho; [done|set_solver].
  - intros id q Hq Hid. apply lookup_insert_Some in Hq as [[<- <-]|[? Hq]]; [split; [done|]; exists p; by rewrite Ek|]. eapply Hn; [done|set_solver].
Qed.

Lemma sync_peers_following nm cfg sinks self d0 d1 l : (∀ id e, sinks id = Some e → APIsValid e = true) → l ⊆ mPeers nm →
  (∀ p k e, p ∈ mPeers nm → pViaHub p = false → ParseKey (pPublicKey p) = Some k → told_endpoint d0 k = Some e → told_endpoint d1 k = Some e) →
  ∀ m seen effs m' seen' effs', foldl (sync_peer ParseKey opts self cfg sinks) (m, seen, effs) l = (m', seen', effs') →
  following nm d0 d1 m seen → following nm d0 d1 m' seen'.
Proof.
  intros Hsk Hl Hk01. induction l as [|p l IH]; intros m seen effs m' seen' effs' H0 Hf; [by injection H0 as <- <- <-|]. cbn [foldl] in H0.
  destruct (sync_peer ParseKey opts self cfg sinks (m, seen, effs) p) as [[m1 seen1] effs1] eqn:E. apply (IH ltac:(set_solver) _ _ _ _ _ _ H0). clear IH H0.
  assert (p ∈ mPeers nm) as Hp by set_solver. unfold sync_peer in E. destruct (pViaHub p) eqn:Ev; [by injection E as <- <- <-|].
  destruct (ParseKey (pPublicKey p)) as [k|] eqn:Ek; [|by injection E as <- <- <-]. destruct (ParseAddr (pIPv4 p)) as [ip|]; [|by injection E as <- <- <-].
  destruct (m !! pID p) as [pp|] eqn:Epp.
  - assert (APIsValid (ppSink pp) = true) as Hv by (destruct Hf as [Ho Hn]; destruct (decide (pID p ∈ seen)) as [Hin|Hin]; [by destruct (Hn _ _ Epp Hin) as [[]]|by destruct (Ho _ _ Epp Hin)]).
    case_decide as Hkey; injection E as <- <- <-; (eapply following_insert; [done..|by rewrite Ek|done|]); [|by apply fresh_in_step].
    apply follow_in_step; [|done]. destruct Hf as [Ho Hn]. destruct (decide (pID p ∈ seen)) as [Hin|Hin]; [by apply (Hn _ _ Epp)|].
    eapply in_step_device; [|by apply (Ho _ _ Epp)]. intros e. rewrite Hkey. by apply (Hk01 p).
  - destruct (sinks (pID p)) as [sink|] eqn:Es; injection E as <- <- <-.
    + eapply following_insert; [done..|by rewrite Ek|done|]. apply fresh_in_step; [by eapply Hsk|done].
    + destruct Hf as [Ho Hn]. split; intros id q Hq Hid; [eapply Ho; [done|set_solver]|]. apply elem_of_union in Hid as [->%elem_of_singleton|Hid]; [congruence|by eapply Hn].
Qed.

Lemma syncPaths_in_step nm cfg sinks s s' effs d0 d1 : configures ParseKey LookupNetIP nm cfg → NoDup (keys_of cfg) → (∀ id e, sinks id = Some e → APIsValid e = true) →
  (∀ k w e, w ∈ cPeers cfg → wPublicKey w = k → wEndpoint w = NoAddrPort → told_endpoint d0 k = Some e → told_endpoint d1 k = Some e) →
  syncPaths ParseKey PublicKeyOf opts nm cfg sinks s = (s', effs) → all_in_step d0 (paths s) → distinct (paths s') ∧ all_in_step d1 (paths s').
Proof.
  intros Hc Hnd Hsk Hk H0 Hd. unfold syncPaths in H0. destruct (foldl _ _ _) as [[m seen] e1] eqn:E. injection H0 as <- _.
  apply (sync_peers_following nm cfg sinks _ d0 d1) in E as [_ Hn]; [|done|done| |].
  - apply rank_all_in_step.
    + intros i j p q [Hp Hi]%map_lookup_filter_Some [Hq Hj]%map_lookup_filter_Some Epq. destruct (Hn _ _ Hp Hi) as (_ & x & Hx & Hvx & <- & Hkx).
      destruct (Hn _ _ Hq Hj) as (_ & y & Hy & Hvy & <- & Hky). f_equal. rewrite Epq in Hkx. exact (key_of_one ParseKey LookupNetIP nm cfg x y _ Hc Hnd Hx Hy Hvx Hvy Hkx Hky).
    + intros id pp [Hp Hi]%map_lookup_filter_Some. by apply (Hn _ _ Hp).
  - intros p k e Hp Hv Hkp He. destruct (configured_peer _ _ _ _ _ _ Hc Hp Hv Hkp) as (w & Hw & Hkw & Hew). by eapply Hk.
  - split; [intros id pp Hp _; by eapply Hd|]. intros id pp _ Hid. by apply not_elem_of_empty in Hid.
Qed.

(** A machine that was stepped is the one the path had, under the same key. *)
Definition inherited (m m' : PathMap) : Prop := ∀ id pp', m' !! id = Some pp' → PathMachine.started (ppMachine pp') = true →
  ∃ pp, m !! id = Some pp ∧ ppKey pp = ppKey pp' ∧ PathMachine.started (ppMachine pp) = true.

Lemma sync_peers_inherited self cfg sinks m0 l : ∀ m seen effs m' seen' effs',
  foldl (sync_peer ParseKey opts self cfg sinks) (m, seen, effs) l = (m', seen', effs') → inherited m0 m → inherited m0 m'.
Proof.
  induction l as [|p l IH]; intros m seen effs m' seen' effs' H0 Hi; [by injection H0 as <- <- <-|]. cbn [foldl] in H0.
  destruct (sync_peer ParseKey opts self cfg sinks (m, seen, effs) p) as [[m1 seen1] effs1] eqn:E. apply (IH _ _ _ _ _ _ H0). clear IH H0.
  assert (∀ id pp' pp0, m !! id = Some pp0 → ppKey pp0 = ppKey pp' → PathMachine.started (ppMachine pp') = PathMachine.started (ppMachine pp0) → inherited m0 (<[id := pp']> m)) as Hkeep.
  { intros id pp' pp0 H0 Hk Hs j q [[<- <-]|[_ Hq]]%lookup_insert_Some Hst; [|by apply (Hi j q)]. rewrite Hs in Hst. destruct (Hi _ _ H0 Hst) as (x & ? & ? & ?). exists x. split_and!; [done|congruence|done]. }
  assert (∀ id pp', PathMachine.started (ppMachine pp') = false → inherited m0 (<[id := pp']> m)) as Hnew.
  { intros id pp' Hs j q [[<- <-]|[_ Hq]]%lookup_insert_Some Hst; [congruence|by apply (Hi j q)]. }
  unfold sync_peer in E. destruct (pViaHub p); [by injection E as <- <- <-|]. destruct (ParseKey (pPublicKey p)) as [k|]; [|by injection E as <- <- <-].
  destruct (ParseAddr (pIPv4 p)) as [ip|]; [|by injection E as <- <- <-]. destruct (m !! pID p) as [pp|] eqn:Epp.
  - case_decide as Hk; injection E as <- <- <-; [by eapply Hkeep|by apply Hnew].
  - destruct (sinks (pID p)); injection E as <- <- <-; [by apply Hnew|done].
Qed.

Lemma syncPaths_left nm cfg sinks s s' effs d0 d1 : configures ParseKey LookupNetIP nm cfg → (∀ id e, sinks id = Some e → APIsValid e = true) →
  syncPaths ParseKey PublicKeyOf opts nm cfg sinks s = (s', effs) → all_in_step d0 (paths s) →
  (∀ w e, w ∈ cPeers cfg → wEndpoint w = NoAddrPort → told_endpoint d0 (wPublicKey w) = Some e → told_endpoint d1 (wPublicKey w) = Some e) →
  ∀ id pp', paths s' !! id = Some pp' → PathMachine.started (ppMachine pp') = true →
    ∃ pp, paths s !! id = Some pp ∧ ppKey pp = ppKey pp' ∧ PathMachine.started (ppMachine pp) = true ∧ told_endpoint d1 (ppKey pp') = told_endpoint d0 (ppKey pp').
Proof.
  intros Hc Hsk H0 Hd Hk id pp'. unfold syncPaths in H0. destruct (foldl _ _ _) as [[m seen] e1] eqn:E. injection H0 as <- _. cbn. rewrite lookup_fmap.
  intros (p0 & [Hp0 Hseen]%map_lookup_filter_Some & ->)%fmap_Some Hst.
  assert (PathMachine.started (ppMachine p0) = true) as Hst0 by (cbn in Hst; unfold PathMachine.SetCandidates in Hst; by case_decide).
  destruct (sync_peers_inherited _ _ _ (paths s) _ _ _ _ _ _ _ E) with (id := id) (pp' := p0) as (pp & Hpp & Hkp & Hsp); [by intros j q; eauto|done..|].
  exists pp. split_and!; [done|done|done|]. destruct (in_step_told d0 pp (Hd _ _ Hpp) Hsp) as [e He]. cbn. rewrite Hkp in He. rewrite He.
  assert (∀ p k a, p ∈ mPeers nm → pViaHub p = false → ParseKey (pPublicKey p) = Some k → told_endpoint d0 k = Some a → told_endpoint d1 k = Some a) as Hkeep.
  { intros p k a Hp Hv Hkk. destruct (configured_peer _ _ _ _ _ _ Hc Hp Hv Hkk) as (w & Hw & <- & Hew). by apply Hk. }
  apply (sync_peers_following nm cfg sinks _ d0 d1) in E as [_ Hn]; [|done|done|exact Hkeep|].
  - destruct (Hn _ _ Hp0 Hseen) as (_ & p & Hp & Hv & _ & Hkk). by eapply Hkeep.
  - split; [intros j q Hq _; by eapply Hd|]. intros j q _ Hj. by apply not_elem_of_empty in Hj.
Qed.

(** *** Runs *)

(** Each configuration has one peer a key, sockets and proxies have addresses,
    the calls on the device succeed, and no tick comes between configuring the
    device and following the map. *)
Definition event_ok (e : event) : Prop :=
  match e with
  | Applied nm cfg window sinks =>
      configures ParseKey LookupNetIP nm cfg ∧ NoDup (keys_of cfg) ∧ (∀ id e, sinks id = Some e → APIsValid e = true) ∧ serialised window = true
  | Small x => small_ok x
  end.

Lemma untick l (s : Sys D) : serialised l = true → dev (foldl do_small s l) = dev s ∧ Forall small_ok l.
Proof.
  unfold serialised. rewrite negb_true_iff. revert s. induction l as [|x l IH]; intros s; [done|]. cbn [existsb foldl]. intros [Hx Hl]%orb_false_iff.
  destruct (IH (do_small s x) Hl) as [-> Hf]. split; [|constructor; [|done]]; by destruct x.
Qed.

Lemma run_in_step (d : D) evs : Forall event_ok evs → let s := run ParseKey PublicKeyOf opts d evs in
  distinct (paths (prober s)) ∧ all_in_step (dev s) (paths (prober s)).
Proof.
  induction evs as [|e evs IH] using rev_ind; [done|]. intros [Hv [He _]%Forall_cons]%Forall_app. specialize (IH Hv) as [Hm Hd]. unfold run in *. rewrite foldl_app. cbn [foldl].
  set (s := foldl _ _ evs) in *. destruct e as [nm cfg window sinks|x]; cbn [do_event].
  - destruct He as (Hc & Hnd & Hsk & Hw). destruct (syncPaths _ _ _ _ _ _ _) as [s' effs] eqn:E. cbn [prober dev fst].
    set (s1 := foldl do_small _ window) in *. assert (dev s1 = Configure cfg (dev s)) as Hdev by (by subst s1; apply untick).
    rewrite Hdev. eapply (syncPaths_in_step _ _ _ _ _ _ (dev s)); [exact Hc|done|done| |exact E|].
    + intros k w a Hin <- Hwe. by apply Configure_keeps.
    + assert (dev (foldl do_small s window) = dev s) as Hd0 by by apply untick. destruct (do_smalls_in_step window s) as [_ Hs]; [by apply (untick window s)|done|done|].
      rewrite Hd0 in Hs. assert (paths (prober s1) = paths (prober (foldl do_small s window))) as ->; [|done].
      subst s1. clear - Hw. unfold serialised in Hw. apply negb_true_iff in Hw. revert Hw. generalize (Configure cfg (dev s)). generalize s. clear s. induction window as [|x l IH]; intros s d0; [done|].
      cbn [existsb foldl]. intros [Hx Hl]%orb_false_iff. rewrite <- (IH (do_small s x) (dev (do_small {| prober := prober s; dev := d0 |} x)) Hl). by destruct x.
  - by apply do_small_in_step.
Qed.

(** Between an application of a map and the next event. *)
Lemma window_kept window (s : Sys D) d0 : serialised window = true →
  paths (prober (foldl do_small {| prober := prober s; dev := d0 |} window)) = paths (prober (foldl do_small s window)) ∧
  ∀ id pp', paths (prober (foldl do_small s window)) !! id = Some pp' →
    ∃ pp, paths (prober s) !! id = Some pp ∧ ppKey pp = ppKey pp' ∧ PathMachine.started (ppMachine pp) = PathMachine.started (ppMachine pp').
Proof.
  unfold serialised. rewrite negb_true_iff. revert s d0. induction window as [|x l IH]; intros s d0; [by eauto|]. cbn [existsb foldl]. intros [Hx Hl]%orb_false_iff.
  destruct (IH (do_small s x) (dev (do_small {| prober := prober s; dev := d0 |} x)) Hl) as [Hp Hk]. split; [rewrite <- Hp; by destruct x|].
  intros id pp' (q & Hq & Eq & Es)%Hk. assert (∃ pp, paths (prober s) !! id = Some pp ∧ ppKey pp = ppKey q ∧ PathMachine.started (ppMachine pp) = PathMachine.started (ppMachine q)) as (pp & ? & ? & ?); [|exists pp; split_and!; [done|congruence|congruence]].
  destruct x as [c i oks|order nm name|lo sym all]; [done|cbn in Hq..].
  - unfold Ping in Hq. destruct (ping_target _ _ _); cbn in Hq; [|by eauto]. apply lookup_alter_Some in Hq as [(-> & p0 & Hp0 & ->)|[_ Hq]]; eauto.
  - unfold setSelf in Hq. destruct (_ || _); cbn in Hq; [|by eauto]. rewrite lookup_fmap in Hq. apply fmap_Some in Hq as (p0 & -> & Hp0). exists p0. split_and!; [done|by rewrite Hp0|].
    rewrite Hp0. cbn. unfold PathMachine.SetCandidates. by case_decide.
Qed.

Lemma run_left (d : D) evs e id pp : Forall event_ok (evs ++ [e]) → let s := run ParseKey PublicKeyOf opts d evs in let s' := run ParseKey PublicKeyOf opts d (evs ++ [e]) in
  paths (prober s') !! id = Some pp → PathMachine.started (ppMachine pp) = true → PathMachine.state (ppMachine pp) = Direct →
  ∃ pp0, paths (prober s) !! id = Some pp0 ∧ ppKey pp0 = ppKey pp ∧
    told_endpoint (dev s') (ppKey pp) = if PathMachine.started (ppMachine pp0) then told_endpoint (dev s) (ppKey pp) else Some (ppSink pp).
Proof.
  intros [Hv [He _]%Forall_cons]%Forall_app s. destruct (run_in_step d evs Hv) as [Hm Hd]. unfold run. rewrite foldl_app. cbn [foldl]. fold (run ParseKey PublicKeyOf opts d evs). fold s. fold s in Hm, Hd.
  destruct e as [nm cfg window sinks|x]; cbn [do_event].
  - destruct He as (Hc & Hnd & Hsk & Hw). destruct (syncPaths _ _ _ _ _ _ _) as [s' effs] eqn:E. cbn [prober dev fst].
    set (s1 := foldl do_small _ window) in *. assert (dev s1 = Configure cfg (dev s)) as Hdev by (by subst s1; apply untick). rewrite Hdev.
    destruct (window_kept window s (Configure cfg (dev s)) Hw) as [Hp Hk]. fold s1 in Hp. intros Hpp Hst _.
    destruct (syncPaths_left nm cfg sinks (prober s1) s' effs (dev s) (Configure cfg (dev s)) Hc Hsk E) with (id := id) (pp' := pp) as (q & Hq & Hkq & Hsq & Ht); [| |done|done|].
    + assert (dev (foldl do_small s window) = dev s) as Hd0 by by apply untick. destruct (do_smalls_in_step window s) as [_ Hs]; [by apply (untick window s)|done|done|]. by rewrite Hp, <- Hd0.
    + intros w a Hin Hwe. by apply Configure_keeps.
    + rewrite Hp in Hq. destruct (Hk _ _ Hq) as (q0 & Hq0 & Hk0 & Hs0). exists q0. split_and!; [done|congruence|]. by rewrite Hs0, Hsq.
  - intros Hpp Hst Hdir. destruct (do_small_left s x He Hm Hd id pp Hpp) as (pp0 & Hpp0 & Hk & Hl). exists pp0. split_and!; [done|done|]. by apply Hl.
Qed.

(** C24: the device sends where the paths say.  After any run, for every path
    whose machine has been stepped, the endpoint its peer was last given is the
    sink while there is no path, the candidate being tried while probing, and a
    proxy of the relay (the sink, where the relay gave none) on the relay; a
    direct path is left to WireGuard: no event changes what the peer was last
    given, but that a machine which is direct in its very first step gives the
    sink.  This includes the steps that are taken back and the maps that are
    configured in between.  Required: the calls on the device succeed, each key
    belongs to one peer, sockets and proxies have addresses, a tick looks at
    each path once, and none runs between configuring the device and following
    the map. *)
Theorem endpoints_follow_paths (d : D) evs id pp : Forall event_ok evs →
  paths (prober (run ParseKey PublicKeyOf opts d evs)) !! id = Some pp → PathMachine.started (ppMachine pp) = true →
  let told := told_endpoint (dev (run ParseKey PublicKeyOf opts d evs)) (ppKey pp) in
  match PathMachine.state (ppMachine pp) with
  | Idle | Unreachable => told = Some (ppSink pp)
  | Probing => told = Some (PathMachine.endpoint (ppMachine pp)) ∧ APIsValid (PathMachine.endpoint (ppMachine pp)) = true
  | Relay => ∃ e, told = Some e ∧ (gives (ppKey pp) e ∨ e = ppSink pp)
  | Direct => ∀ evs' e, evs = evs' ++ [e] → let s := run ParseKey PublicKeyOf opts d evs' in
      ∃ pp0, paths (prober s) !! id = Some pp0 ∧ ppKey pp0 = ppKey pp ∧
        told = if PathMachine.started (ppMachine pp0) then told_endpoint (dev s) (ppKey pp) else Some (ppSink pp)
  end.
Proof.
  intros Hev Hpp Hst told. destruct (run_in_step d evs Hev) as [_ Hd]. destruct (Hd id pp Hpp) as (Hs & ops & Hok & Hm & Hc).
  pose proof (PathMachine.run_inv opts ops Hok) as [HI Hsy]. rewrite Hm in HI, Hsy. specialize (Hsy Hst). subst told.
  destruct (PathMachine.state (ppMachine pp)) eqn:E; try (rewrite Hsy in Hc; destruct (Hc _ eq_refl) as (e & He & Ht); cbn in Ht).
  - by rewrite He, Ht.
  - rewrite He, Ht. split; [done|]. apply (PathMachine.inv_set _ HI). by left.
  - intros evs' e ->. by apply run_left.
  - by exists e.
  - by rewrite He, Ht.
Qed.
End InStep.

Lemma endpoints_follow_paths_witness :
  let s := run demo_key demo_public demo_opts (∅ : Peers) [demo_apply both []; Small (demo_tick 1)] in
  told_endpoint (dev s) (string_bytes "db") = Some (AddrPort (Addr4 0xc0000207) 51820).
Proof.
  intros s. assert (Forall (event_ok (λ _ _, False) demo_key demo_names) [demo_apply both []; Small (demo_tick 1)]) as Hev.
  { constructor; [|constructor; [|done]]; (split_and!; [..|done]); first [apply demo_configures; by vm_compute|by intros id e [= <-]|apply (bool_decide_unpack _); by vm_compute|done]. }
  destruct (paths (prober s) !! "db") as [pp|] eqn:E; [|by vm_compute in E].
  pose proof (endpoints_follow_paths demo_opts (λ _ _, False) demo_key demo_public demo_names (∅ : Peers) _ "db" pp Hev E) as Hp. subst s.
  vm_compute in E. injection E as <-. apply Hp. by vm_compute.
Defined.
