(* ===== verification/Uapi.v ===== *)
(** WireGuard in user space: [internal/wg/uapi.go], with the rendering of
    [userspace.go].

    The configuration is a text of "key=value" lines, handed to the device of
    wireguard-go in the same process; statistics come back as such a text. *)

From Stdlib Require Import Strings.Ascii.
From S2P Require Import Prelude GoStrings Sha256 NetIP ClientMap WgDevice.

Definition LF : ascii := ascii_of_N 10.
Definition CR : ascii := ascii_of_N 13.

(** ** Writing *)

Definition hex_chars (k : list byte) : bytes := chars (hex k).
Definition int_chars (z : Z) : bytes := chars (itoa z).
Definition field (key : string) (val : bytes) : bytes := chars key ++ "="%char :: val ++ [LF].

Definition renderRemoveUAPI (k : Key) : bytes := field "public_key" (hex_chars k) ++ field "remove" (chars "true").

Definition renderPeerUAPI (p : WgPeer) : bytes :=
  field "public_key" (hex_chars (wPublicKey p)) ++
  (if APIsValid (wEndpoint p) then field "endpoint" (chars (addrport_string (wEndpoint p))) else []) ++
  field "replace_allowed_ips" (chars "true") ++
  concat ((λ ip, field "allowed_ip" (chars (prefix_string ip))) <$> wAllowedIPs p) ++
  field "persistent_keepalive_interval" (int_chars (Z.quot (wKeepalive p) second)).

Definition renderUAPI (cfg : WgConfig) (remove : list Key) : bytes :=
  field "private_key" (hex_chars (cPrivateKey cfg)) ++
  (if 0 <? cListenPort cfg then field "listen_port" (int_chars (cListenPort cfg)) else []) ++
  field "fwmark" (int_chars (cFwMark cfg)) ++
  concat (renderRemoveUAPI <$> remove) ++ concat (renderPeerUAPI <$> cPeers cfg).

(** [userspaceDevice.render]: without the port the device holds already. *)
Definition without_port (cfg : WgConfig) : WgConfig :=
  {| cPrivateKey := cPrivateKey cfg; cListenPort := 0; cAddresses := cAddresses cfg; cPeers := cPeers cfg; cFwMark := cFwMark cfg |}.
Definition render (port : Z) (cfg : WgConfig) (remove : list Key) : bytes :=
  renderUAPI (if cListenPort cfg =? port then without_port cfg else cfg) remove.

(** [userspaceDevice.Configure]: the text for a device with these peers. *)
Definition configure_text (port : Z) (current : list PeerStats) (cfg : WgConfig) : bytes :=
  render port cfg (filter (λ k, k ∉ keys_of cfg) (psKey <$> current)).

(** ** Reading *)

(** [bufio.Scanner]: the lines without their ends; a line of 64 KiB stops it. *)
Definition drop_cr (l : bytes) : bytes := match last l with Some c => if decide (c = CR) then take (length l - 1) l else l | None => l end.
Definition raw_lines (t : bytes) : list bytes :=
  let l := split LF t in match last l with Some [] => take (length l - 1) l | _ => l end.
Definition scan_lines (t : bytes) : option (list bytes) :=
  if existsb (λ l, (65536 <=? length l)%nat) (raw_lines t) then None else Some (drop_cr <$> raw_lines t).

(** [hex.DecodeString]. *)
Fixpoint hex_decode (l : bytes) : option (list byte) :=
  match l with
  | [] => Some []
  | a :: b :: l => x ← hex_val a; y ← hex_val b; r ← hex_decode l; Some (zb (16 * x + y) :: r)
  | _ => None
  end.

(** [strconv.ParseInt(val, 10, 64)] and [ParseUint], their errors ignored: a
    number out of range is the nearest one, other text is zero. *)
Definition parse_uint_lax (l : bytes) : Z := match parse_dec l with Some n => n `min` (2 ^ 64 - 1) | None => 0 end.
Definition parse_int_lax (l : bytes) : Z :=
  match l with
  | c :: l' =>
      if decide (c = "-"%char) then match parse_dec l' with Some n => - (n `min` 2 ^ 63) | None => 0 end
      else match parse_dec (if decide (c = "+"%char) then l' else l) with Some n => n `min` (2 ^ 63 - 1) | None => 0 end
  | [] => 0
  end.

(** [time.Unix], as nanoseconds since the zero time. *)
Definition unix_to_internal : Z := 62135596800.
Definition unix_time (sec nsec : Z) : Z := i64 (i64 (sec + nsec `div` second) + unix_to_internal) * second + nsec `mod` second.

(** The loop's variables. *)
Record parsing := { pStats : list PeerStats; pCurrent : option PeerStats; pSec : Z; pNsec : Z }.
Definition parse_start : parsing := {| pStats := []; pCurrent := None; pSec := 0; pNsec := 0 |}.

Definition with_handshake (t : Z) (p : PeerStats) : PeerStats := {| psKey := psKey p; psEndpoint := psEndpoint p; psHandshake := t; psRx := psRx p; psTx := psTx p |}.
Definition with_endpoint (e : addrport) (p : PeerStats) : PeerStats := {| psKey := psKey p; psEndpoint := e; psHandshake := psHandshake p; psRx := psRx p; psTx := psTx p |}.
Definition with_rx (z : Z) (p : PeerStats) : PeerStats := {| psKey := psKey p; psEndpoint := psEndpoint p; psHandshake := psHandshake p; psRx := z; psTx := psTx p |}.
Definition with_tx (z : Z) (p : PeerStats) : PeerStats := {| psKey := psKey p; psEndpoint := psEndpoint p; psHandshake := psHandshake p; psRx := psRx p; psTx := z |}.
Definition map_current (f : PeerStats → PeerStats) (s : parsing) : parsing :=
  {| pStats := pStats s; pCurrent := f <$> pCurrent s; pSec := pSec s; pNsec := pNsec s |}.

Definition flush (s : parsing) : parsing :=
  {| pStats := pStats s ++ match pCurrent s with
       | Some p => [if (0 <? pSec s) || (0 <? pNsec s) then with_handshake (unix_time (pSec s) (pNsec s)) p else p]
       | None => []
       end;
     pCurrent := None; pSec := 0; pNsec := 0 |}.

Definition is_key (key : bytes) (s : string) : bool := bool_decide (key = chars s).

(** One field; [None] is an error. *)
Definition parse_field (s : parsing) (key val : bytes) : option parsing :=
  if is_key key "public_key" then
    let s := flush s in
    raw ← hex_decode val;
    if bool_decide (length raw = 32%nat)
    then Some {| pStats := pStats s; pCurrent := Some {| psKey := raw; psEndpoint := NoAddrPort; psHandshake := 0; psRx := 0; psTx := 0 |}; pSec := 0; pNsec := 0 |}
    else None
  else if is_key key "endpoint" then
    Some (match ParseAddrPort (of_chars val) with Some ap => map_current (with_endpoint ap) s | None => s end)
  else if is_key key "last_handshake_time_sec" then Some {| pStats := pStats s; pCurrent := pCurrent s; pSec := parse_int_lax val; pNsec := pNsec s |}
  else if is_key key "last_handshake_time_nsec" then Some {| pStats := pStats s; pCurrent := pCurrent s; pSec := pSec s; pNsec := parse_int_lax val |}
  else if is_key key "rx_bytes" then Some (map_current (with_rx (parse_uint_lax val)) s)
  else if is_key key "tx_bytes" then Some (map_current (with_tx (parse_uint_lax val)) s)
  else if is_key key "errno" then (if bool_decide (val = chars "0") then Some s else None)
  else Some s.

Definition parse_line (s : parsing) (l : bytes) : option parsing :=
  match l with [] => Some s | _ => '(key, val) ← cut "=" l; parse_field s key val end.

Fixpoint parse_lines (s : parsing) (l : list bytes) : option parsing :=
  match l with [] => Some s | x :: l => s ← parse_line s x; parse_lines s l end.

Definition parseUAPIStats (out : bytes) : option (list PeerStats) :=
  lines ← scan_lines out; s ← parse_lines parse_start lines; Some (pStats (flush s)).

(** * What the text says, and that statistics read back *)

(** ** Texts without line feeds *)

Definition oneline (l : bytes) : Prop := LF ∉ l.

Lemma oneline_app a b : oneline (a ++ b) ↔ oneline a ∧ oneline b.
Proof. unfold oneline. rewrite not_elem_of_app. done. Qed.
Lemma oneline_cons c l : oneline (c :: l) ↔ c ≠ LF ∧ oneline l.
Proof. unfold oneline. rewrite not_elem_of_cons. naive_solver. Qed.
Lemma oneline_chars_app a b : oneline (chars (a +:+ b)) ↔ oneline (chars a) ∧ oneline (chars b).
Proof. rewrite chars_app. apply oneline_app. Qed.

(** Text fixed in the program. *)
Lemma oneline_fixed l : bool_decide (LF ∉ l) = true → oneline l.
Proof. apply bool_decide_eq_true. Qed.

Lemma oneline_Forall (P : ascii → Prop) l : (∀ c, P c → c ≠ LF) → Forall P l → oneline l.
Proof. intros HP Hl Hin. rewrite Forall_forall in Hl. by apply (HP LF); [apply Hl|]. Qed.

Lemma oneline_itoa z : oneline (chars (itoa z)).
Proof.
  assert (∀ n, 0 <= n → oneline (chars (itoa n))) as Hn.
  { intros n ?. eapply oneline_Forall; [|by apply itoa_digits]. by intros c Hc ->. }
  destruct z as [|p|p]; [by apply Hn|by apply Hn|]. change (itoa (Z.neg p)) with ("-" +:+ itoa (Z.pos p)). apply oneline_chars_app. split; [by apply oneline_fixed|by apply Hn].
Qed.

Lemma oneline_v4 a : oneline (chars (v4_string a)).
Proof. by apply v4_string_chars. Qed.

Lemma hex_digit_oneline z : hex_digit (z mod 16) ≠ LF.
Proof.
  pose proof (Z.mod_pos_bound z 16 eq_refl) as Hb. revert Hb. generalize (z mod 16). intros d Hd. assert (d ∈ seqZ 0 16) as H by (apply elem_of_seqZ; lia). vm_compute in H. clear Hd.
  repeat (apply elem_of_cons in H as [-> | H]; [done|]). by apply elem_of_nil in H.
Qed.

Lemma hex16_oneline z : oneline (hex16 z).
Proof. unfold hex16. repeat case_match; repeat (apply oneline_cons; split; [apply hex_digit_oneline|]); by apply not_elem_of_nil. Qed.

Lemma join_groups_oneline gs : oneline (join_groups gs).
Proof.
  unfold join_groups. destruct gs as [|g gs]; [by apply not_elem_of_nil|]. cbn [fmap list_fmap]. pose proof (hex16_oneline g) as Hg. revert Hg. generalize (hex16 g).
  induction gs as [|g' gs IH]; intros w Hw; [done|]. cbn [fmap list_fmap foldl]. apply IH. apply oneline_app. split; [done|]. apply oneline_cons. split; [done|apply hex16_oneline].
Qed.

Lemma v6_chars_oneline a : oneline (v6_chars a).
Proof.
  unfold v6_chars. destruct (best_run _ _ _) as [s [|l]]; [apply join_groups_oneline|]. rewrite !oneline_app. split_and!; try apply join_groups_oneline. by apply oneline_fixed.
Qed.

(** The text of an address is one line if its zone is. *)
Lemma oneline_addr a : oneline (chars (addr_string a)) ↔ oneline (chars (Zone a)).
Proof.
  destruct a as [|a|a z]; cbn [addr_string Zone].
  - split; intros _; by apply oneline_fixed.
  - split; intros _; [by apply oneline_fixed|apply oneline_v4].
  - rewrite oneline_chars_app. assert (oneline (chars (if Is4In6 (Addr6 a z) then "::ffff:" +:+ v4_string (a mod 2 ^ 32) else of_chars (v6_chars a)))) as H.
    { destruct (Is4In6 _); [apply oneline_chars_app; split; [by apply oneline_fixed|apply oneline_v4]|rewrite chars_of_chars; apply v6_chars_oneline]. }
    unfold zone_suffix. case_decide as Hz; [subst z; split; [by intros []|]; intros; by split|]. rewrite oneline_chars_app.
    assert (oneline (chars "%")) by by apply oneline_fixed. naive_solver.
Qed.

Lemma oneline_prefix p : oneline (chars (Zone (paddr p))) → oneline (chars (prefix_string p)).
Proof.
  intros Hz. unfold prefix_string. destruct (PIsValid p); [|by apply oneline_fixed]. rewrite !oneline_chars_app. split_and!; [by apply oneline_addr|by apply oneline_fixed|apply oneline_itoa].
Qed.

Lemma oneline_addrport ap : oneline (chars (Zone (apaddr ap))) → oneline (chars (addrport_string ap)).
Proof.
  intros Hz. unfold addrport_string. destruct (apaddr ap) as [|a|a z] eqn:E; [by apply oneline_fixed| |].
  - rewrite !oneline_chars_app. split_and!; [apply oneline_v4|by apply oneline_fixed|apply oneline_itoa].
  - rewrite !oneline_chars_app. split_and!; [by apply oneline_fixed|by apply oneline_addr|by apply oneline_fixed|apply oneline_itoa].
Qed.

Lemma hex_digits_of b : hex_char (bz b / 16) ≠ LF ∧ hex_char (bz b mod 16) ≠ LF ∧ hex_val (hex_char (bz b / 16)) = Some (bz b / 16) ∧ hex_val (hex_char (bz b mod 16)) = Some (bz b mod 16).
Proof. by destruct b. Qed.

Lemma oneline_hex k : oneline (hex_chars k).
Proof.
  unfold hex_chars, hex. rewrite chars_of_chars. induction k as [|b k IH]; [by apply not_elem_of_nil|]. cbn [fmap list_fmap concat app].
  destruct (hex_digits_of b) as (H1 & H2 & _). rewrite !oneline_cons. done.
Qed.

Lemma hex_decode_hex k : hex_decode (hex_chars k) = Some k.
Proof.
  unfold hex_chars, hex. rewrite chars_of_chars. induction k as [|b k IH]; [done|]. cbn [fmap list_fmap concat app hex_decode].
  destruct (hex_digits_of b) as (_ & _ & -> & ->). cbn [mbind option_bind]. rewrite IH. cbn. by rewrite <- Z.div_mod, zb_bz by done.
Qed.

(** ** Texts and their fields *)

Notation Field := (string * bytes)%type.

Definition line_of (f : Field) : bytes := chars f.1 ++ "="%char :: f.2.
Definition text (fs : list Field) : bytes := concat ((λ f, field f.1 f.2) <$> fs).

(** A field that is one line, cut where it was joined. *)
Definition field_ok (f : Field) : Prop := oneline (chars f.1) ∧ "="%char ∉ chars f.1 ∧ oneline f.2.

Lemma field_line f : field f.1 f.2 = line_of f ++ [LF].
Proof. unfold field, line_of. by rewrite <- app_assoc. Qed.

Lemma line_oneline f : field_ok f → oneline (line_of f).
Proof. intros (Hk & _ & Hv). unfold line_of. apply oneline_app. split; [done|]. by apply oneline_cons. Qed.

Lemma split_text fs : Forall field_ok fs → split LF (text fs) = (line_of <$> fs) ++ [[]].
Proof.
  induction 1 as [|f fs Hf _ IH]; [done|]. unfold text in *. cbn [fmap list_fmap concat]. rewrite field_line, <- app_assoc. cbn [app].
  rewrite split_app by by apply line_oneline. by rewrite IH.
Qed.

Lemma raw_lines_text fs : Forall field_ok fs → raw_lines (text fs) = line_of <$> fs.
Proof. intros H. unfold raw_lines. rewrite split_text by done. rewrite last_snoc, length_app. cbn [length]. rewrite Nat.add_sub. apply take_app_length. Qed.

(** The fields a text of the protocol has. *)
Definition read_field (l : bytes) : option (bytes * bytes) := cut "=" l.
Definition read_fields (t : bytes) : option (list (bytes * bytes)) := mapM read_field (raw_lines t).

Lemma read_fields_text fs : Forall field_ok fs → read_fields (text fs) = Some ((λ f, (chars f.1, f.2)) <$> fs).
Proof.
  intros H. unfold read_fields. rewrite raw_lines_text by done. apply mapM_Some. apply Forall2_fmap. apply Forall_Forall2_diag.
  eapply Forall_impl; [exact H|]. intros f (_ & Hk & _). by apply cut_app.
Qed.

(** ** The text of a configuration *)

Definition peer_fields (p : WgPeer) : list Field :=
  [("public_key", hex_chars (wPublicKey p))] ++
  (if APIsValid (wEndpoint p) then [("endpoint", chars (addrport_string (wEndpoint p)))] else []) ++
  [("replace_allowed_ips", chars "true")] ++ ((λ ip, ("allowed_ip", chars (prefix_string ip))) <$> wAllowedIPs p) ++
  [("persistent_keepalive_interval", int_chars (Z.quot (wKeepalive p) second))].

Definition set_fields (cfg : WgConfig) (remove : list Key) : list Field :=
  [("private_key", hex_chars (cPrivateKey cfg))] ++ (if 0 <? cListenPort cfg then [("listen_port", int_chars (cListenPort cfg))] else []) ++
  [("fwmark", int_chars (cFwMark cfg))] ++ concat ((λ k, [("public_key", hex_chars k); ("remove", chars "true")]) <$> remove) ++
  concat (peer_fields <$> cPeers cfg).

Lemma text_app a b : text (a ++ b) = text a ++ text b.
Proof. unfold text. by rewrite fmap_app, concat_app. Qed.
Lemma text_concat {A} (f : A → list Field) l : text (concat (f <$> l)) = concat ((λ x, text (f x)) <$> l).
Proof. induction l as [|x l IH]; [done|]. cbn [fmap list_fmap concat]. by rewrite text_app, IH. Qed.
Lemma text_fmap {A} (f : A → Field) l : text (f <$> l) = concat ((λ x, field (f x).1 (f x).2) <$> l).
Proof. unfold text. by rewrite <- list_fmap_compose. Qed.
Lemma text_one k v : text [(k, v)] = field k v.
Proof. apply app_nil_r. Qed.

Lemma renderPeer_text p : renderPeerUAPI p = text (peer_fields p).
Proof. unfold renderPeerUAPI, peer_fields. rewrite !text_app, text_fmap, !text_one. by destruct (APIsValid (wEndpoint p)); rewrite ?text_one. Qed.

Lemma render_text cfg remove : renderUAPI cfg remove = text (set_fields cfg remove).
Proof.
  unfold renderUAPI, set_fields. rewrite !text_app, !text_concat, !text_one. f_equal. f_equal; [by destruct (0 <? cListenPort cfg); rewrite ?text_one|].
  f_equal. f_equal; f_equal. apply list_fmap_ext. intros i p _. apply renderPeer_text.
Qed.

(** Zones are one line; a prefix has none. *)
Definition peer_ok (p : WgPeer) : Prop := oneline (chars (Zone (apaddr (wEndpoint p)))) ∧ Forall (λ ip, Zone (paddr ip) = "") (wAllowedIPs p).

Lemma fixed_field k v : bool_decide (oneline (chars k) ∧ "="%char ∉ chars k) = true → oneline v → field_ok (k, v).
Proof. intros [H1 H2]%bool_decide_eq_true Hv. done. Qed.

Lemma peer_fields_ok p : peer_ok p → Forall field_ok (peer_fields p).
Proof.
  intros [He Ha]. unfold peer_fields. repeat (apply Forall_app; split).
  - apply Forall_singleton. apply fixed_field; [by vm_compute|apply oneline_hex].
  - destruct (APIsValid (wEndpoint p)); [|constructor]. apply Forall_singleton. apply fixed_field; [by vm_compute|by apply oneline_addrport].
  - apply Forall_singleton. apply fixed_field; [by vm_compute|by apply oneline_fixed].
  - apply Forall_fmap. eapply Forall_impl; [exact Ha|]. intros ip Hz. apply fixed_field; [by vm_compute|]. apply oneline_prefix. rewrite Hz. by apply oneline_fixed.
  - apply Forall_singleton. apply fixed_field; [by vm_compute|apply oneline_itoa].
Qed.

Lemma set_fields_ok cfg remove : Forall peer_ok (cPeers cfg) → Forall field_ok (set_fields cfg remove).
Proof.
  intros Hp. unfold set_fields. repeat (apply Forall_app; split).
  - apply Forall_singleton. apply fixed_field; [by vm_compute|apply oneline_hex].
  - destruct (0 <? cListenPort cfg); [|constructor]. apply Forall_singleton. apply fixed_field; [by vm_compute|apply oneline_itoa].
  - apply Forall_singleton. apply fixed_field; [by vm_compute|apply oneline_itoa].
  - apply Forall_concat, Forall_fmap, Forall_forall. intros k _. cbn. repeat constructor; cbn; try apply oneline_hex; try (by apply oneline_fixed); by apply (bool_decide_unpack _).
  - apply Forall_concat, Forall_fmap. eapply Forall_impl; [exact Hp|]. apply peer_fields_ok.
Qed.

(** C25: a configuration reads back from its text: while no endpoint has a zone
    with a line feed and no prefix has a zone ([ParsePrefix] takes none), the
    text has the fields of the configuration and no other, so the keys it names
    are those of the listed peers and of the removed ones.  An endpoint whose
    zone has line feeds can add a peer: [endpoint_adds_a_peer]. *)
Theorem text_is_the_config port current cfg : Forall peer_ok (cPeers cfg) →
  let removed := filter (λ k, k ∉ keys_of cfg) (psKey <$> current) in
  let cfg' := if cListenPort cfg =? port then without_port cfg else cfg in
  read_fields (configure_text port current cfg) = Some ((λ f, (chars f.1, f.2)) <$> set_fields cfg' removed) ∧
  ∀ v, (chars "public_key", v) ∈ default [] (read_fields (configure_text port current cfg)) → ∃ k, v = hex_chars k ∧ (k ∈ keys_of cfg ∨ k ∈ removed).
Proof.
  intros Hp removed cfg'. assert (cPeers cfg' = cPeers cfg) as Hc by (subst cfg'; by destruct (_ =? _)).
  assert (read_fields (configure_text port current cfg) = Some ((λ f, (chars f.1, f.2)) <$> set_fields cfg' removed)) as E.
  { unfold configure_text, render. fold removed cfg'. rewrite render_text. apply read_fields_text, set_fields_ok. by rewrite Hc. }
  split; [done|]. rewrite E. cbn [from_option id]. intros v ([k w] & E' & Hin)%list_elem_of_fmap. apply pair_eq in E' as [Hk ->]. apply (chars_inj "public_key" k) in Hk as <-. cbn [snd]. clear E Hp. unfold set_fields in Hin. rewrite Hc in Hin.
  rewrite !elem_of_app in Hin. destruct Hin as [Hin | [Hin | [Hin | [Hin | Hin]]]].
  - by apply list_elem_of_singleton in Hin.
  - destruct (0 <? cListenPort cfg'); [by apply list_elem_of_singleton in Hin|by apply elem_of_nil in Hin].
  - by apply list_elem_of_singleton in Hin.
  - apply elem_of_concat_fmap in Hin as (k & Hk & Hin). exists k. split; [|by right].
    apply elem_of_cons in Hin as [[= ->] | Hin]; [done|by apply list_elem_of_singleton in Hin].
  - apply elem_of_concat_fmap in Hin as (p & Hp & Hin). exists (wPublicKey p). split; [|left; by apply list_elem_of_fmap_2].
    unfold peer_fields in Hin. rewrite !elem_of_app in Hin. destruct Hin as [Hin | [Hin | [Hin | [Hin | Hin]]]].
    + by apply list_elem_of_singleton in Hin as [= ->].
    + destruct (APIsValid _); [by apply list_elem_of_singleton in Hin|by apply elem_of_nil in Hin].
    + by apply list_elem_of_singleton in Hin.
    + by apply list_elem_of_fmap in Hin as (ip & [=] & _).
    + by apply list_elem_of_singleton in Hin.
Qed.

(** ** Statistics *)

(** What a device answers for a peer: the fields read, and others around them. *)
Record sample := { saKey : Key; saEndpoint : addrport; saSec : Z; saNsec : Z; saRx : Z; saTx : Z; saBefore : list Field; saAfter : list Field }.

Definition sample_fields (x : sample) : list Field :=
  [("public_key", hex_chars (saKey x))] ++ saBefore x ++
  (if APIsValid (saEndpoint x) then [("endpoint", chars (addrport_string (saEndpoint x)))] else []) ++
  [("last_handshake_time_sec", int_chars (saSec x)); ("last_handshake_time_nsec", int_chars (saNsec x));
   ("tx_bytes", int_chars (saTx x)); ("rx_bytes", int_chars (saRx x))] ++ saAfter x.
Definition answer (dev : list Field) (l : list sample) : list Field := dev ++ concat (sample_fields <$> l) ++ [("errno", chars "0")].

Definition stat_of (x : sample) : PeerStats :=
  {| psKey := saKey x; psEndpoint := saEndpoint x; psHandshake := if (0 <? saSec x) || (0 <? saNsec x) then unix_time (saSec x) (saNsec x) else 0;
     psRx := saRx x; psTx := saTx x |}.

Definition read_keys : list string := ["public_key"; "endpoint"; "last_handshake_time_sec"; "last_handshake_time_nsec"; "rx_bytes"; "tx_bytes"; "errno"].
Definition unread (f : Field) : Prop := f.1 ∉ read_keys.

Record sample_ok (x : sample) : Prop := {
  so_key : length (saKey x) = 32%nat;
  so_endpoint : if APIsValid (saEndpoint x) then ParseAddrPort (addrport_string (saEndpoint x)) = Some (saEndpoint x) else saEndpoint x = NoAddrPort;
  so_sec : 0 <= saSec x < 2 ^ 63; so_nsec : 0 <= saNsec x < 2 ^ 63; so_rx : 0 <= saRx x < 2 ^ 64; so_tx : 0 <= saTx x < 2 ^ 64;
  so_before : Forall unread (saBefore x); so_after : Forall unread (saAfter x);
}.

(** A line the scanner passes on as it is. *)
Definition scannable (f : Field) : Prop := field_ok f ∧ (length (line_of f) < 65536)%nat ∧ last (line_of f) ≠ Some CR.

Lemma scan_text fs : Forall scannable fs → scan_lines (text fs) = Some (line_of <$> fs).
Proof.
  intros H. unfold scan_lines. rewrite raw_lines_text by (eapply Forall_impl; [exact H|]; by intros f []).
  assert (existsb (λ l, (65536 <=? length l)%nat) (line_of <$> fs) = false) as ->.
  { clear -H. induction H as [|f fs (_ & Hl & _) _ IH]; [done|]. cbn [fmap list_fmap existsb]. rewrite IH, orb_false_r. by apply Nat.leb_gt. }
  f_equal. rewrite <- list_fmap_compose. apply list_fmap_ext. intros i f Hf. cbn. eapply Forall_lookup_1 in H; [|exact Hf]. destruct H as (_ & _ & Hc).
  unfold drop_cr. destruct (last (line_of f)) as [c|]; [|done]. rewrite decide_False; [done|congruence].
Qed.

Fixpoint parse_fields (s : parsing) (fs : list Field) : option parsing :=
  match fs with [] => Some s | f :: fs => s ← parse_field s (chars f.1) f.2; parse_fields s fs end.

Lemma parse_line_of f s : field_ok f → parse_line s (line_of f) = parse_field s (chars f.1) f.2.
Proof.
  intros (_ & He & _). assert (cut "=" (line_of f) = Some (chars f.1, f.2)) as Hc by by apply cut_app. unfold parse_line.
  destruct (line_of f) as [|c l] eqn:E; [unfold line_of in E; by destruct (chars f.1)|]. by rewrite Hc.
Qed.

Lemma parse_lines_fields fs : Forall field_ok fs → ∀ s, parse_lines s (line_of <$> fs) = parse_fields s fs.
Proof.
  induction 1 as [|f fs Hf _ IH]; intros s; [done|]. cbn [fmap list_fmap parse_lines parse_fields]. rewrite parse_line_of by done.
  destruct (parse_field s _ _) as [s'|]; [apply IH|done].
Qed.

Lemma parse_unread fs rest s : Forall unread fs → parse_fields s (fs ++ rest) = parse_fields s rest.
Proof.
  induction 1 as [|f fs Hf _ IH]; [done|]. cbn [app parse_fields]. unfold parse_field, is_key.
  assert (∀ k, k ∈ read_keys → chars f.1 ≠ chars k) as Hne by (intros k Hk E%chars_inj; apply Hf; by rewrite E).
  rewrite !(bool_decide_false) by (apply Hne; unfold read_keys; set_solver). exact IH.
Qed.

Lemma parse_uint_lax_itoa n : 0 <= n < 2 ^ 64 → parse_uint_lax (int_chars n) = n.
Proof. intros Hn. unfold parse_uint_lax, int_chars. rewrite parse_dec_itoa by lia. lia. Qed.

Lemma parse_int_lax_itoa n : 0 <= n < 2 ^ 63 → parse_int_lax (int_chars n) = n.
Proof.
  intros Hn. unfold parse_int_lax, int_chars. pose proof (itoa_digits n ltac:(lia)) as Hd. pose proof (parse_dec_itoa n ltac:(lia)) as Hp.
  destruct (chars (itoa n)) as [|c l]; [done|]. apply Forall_cons in Hd as [Hc _]. rewrite !decide_False by (by intros ->). rewrite Hp. lia.
Qed.

Definition after_sample (s : parsing) (x : sample) : parsing :=
  {| pStats := pStats (flush s); pCurrent := Some {| psKey := saKey x; psEndpoint := saEndpoint x; psHandshake := 0; psRx := saRx x; psTx := saTx x |};
     pSec := saSec x; pNsec := saNsec x |}.

Lemma parse_cons k v s s' fs : parse_field s (chars k) v = Some s' → parse_fields s ((k, v) :: fs) = parse_fields s' fs.
Proof. intros H. cbn [parse_fields fst snd]. by rewrite H. Qed.

Lemma parse_endpoint x s fs : sample_ok x → psEndpoint <$> pCurrent s = Some NoAddrPort →
  parse_fields s ((if APIsValid (saEndpoint x) then [("endpoint", chars (addrport_string (saEndpoint x)))] else []) ++ fs) =
  parse_fields (map_current (with_endpoint (saEndpoint x)) s) fs.
Proof.
  intros Hx Hc. pose proof (so_endpoint x Hx) as He. destruct (APIsValid (saEndpoint x)).
  - apply parse_cons. change (parse_field s (chars "endpoint") ?v) with (Some (match ParseAddrPort (of_chars v) with Some ap => map_current (with_endpoint ap) s | None => s end)).
    by rewrite of_chars_chars, He.
  - cbn [app]. f_equal. rewrite He. destruct s as [st [[k e h r t]|] a b]; [|done]. cbn in Hc. injection Hc as ->. done.
Qed.

Lemma parse_sample x rest s : sample_ok x → parse_fields s (sample_fields x ++ rest) = parse_fields (after_sample s x) rest.
Proof.
  intros Hx. pose proof Hx as [Hk He Hs Hn Hr Ht Hb Ha]. unfold sample_fields. rewrite <- !app_assoc. cbn [app].
  erewrite parse_cons; [|change (parse_field s (chars "public_key") ?v) with
    (raw ← hex_decode v; if bool_decide (length raw = 32%nat)
     then Some {| pStats := pStats (flush s); pCurrent := Some {| psKey := raw; psEndpoint := NoAddrPort; psHandshake := 0; psRx := 0; psTx := 0 |}; pSec := 0; pNsec := 0 |} else None);
    rewrite hex_decode_hex; cbn [mbind option_bind]; by rewrite bool_decide_true].
  rewrite parse_unread, parse_endpoint by done. do 4 (erewrite parse_cons by reflexivity). rewrite parse_unread by done.
  by rewrite !parse_int_lax_itoa, !parse_uint_lax_itoa by done.
Qed.

Lemma parse_samples l : ∀ s, Forall sample_ok l → pCurrent s = None → pSec s = 0 → pNsec s = 0 →
  ∃ s', parse_fields s (concat (sample_fields <$> l) ++ [("errno", chars "0")]) = Some s' ∧ pStats (flush s') = pStats s ++ (stat_of <$> l).
Proof.
  assert (∀ l s, Forall sample_ok l → ∃ s', parse_fields s (concat (sample_fields <$> l) ++ [("errno", chars "0")]) = Some s' ∧
    pStats (flush s') = pStats (flush s) ++ (stat_of <$> l)) as Hgen.
  { clear l. induction l as [|x l IH]; intros s Hl; [exists s; split; [done|by rewrite app_nil_r]|]. apply Forall_cons in Hl as [Hx Hl]. cbn [fmap list_fmap concat].
    rewrite <- app_assoc, parse_sample by done. destruct (IH (after_sample s x) Hl) as (s' & -> & Hs'). exists s'. split; [done|]. rewrite Hs'.
    unfold after_sample at 1, flush at 1. cbn [pStats pCurrent pSec pNsec]. rewrite <- app_assoc. f_equal. cbn [app]. f_equal.
    unfold stat_of, with_handshake. by destruct (_ || _). }
  intros s Hl Hc _ _. destruct (Hgen l s Hl) as (s' & H1 & H2). exists s'. split; [done|]. rewrite H2. unfold flush. rewrite Hc. cbn. by rewrite app_nil_r.
Qed.

(** Statistics read back: of what a device answers, each peer's key,
    endpoint, counters and handshake time come out, whatever other fields stand
    around them. *)
Theorem stats_read_back dev l : Forall unread dev → Forall sample_ok l → Forall scannable (answer dev l) →
  parseUAPIStats (text (answer dev l)) = Some (stat_of <$> l).
Proof.
  intros Hd Hl Hs. unfold parseUAPIStats. rewrite scan_text by done. cbn [mbind option_bind].
  rewrite parse_lines_fields by (eapply Forall_impl; [exact Hs|]; by intros f []). unfold answer. rewrite parse_unread by done.
  destruct (parse_samples l parse_start Hl eq_refl eq_refl eq_refl) as (s' & -> & H). cbn [mbind option_bind]. by rewrite H.
Qed.

(** ** Examples *)

Definition demo_bytes (c : string) : list byte := concat (replicate 32 (string_bytes c)).
Definition demo_wgpeer (e : addrport) : WgPeer := {| wPublicKey := demo_bytes "k"; wEndpoint := e; wAllowedIPs := [Prefix (Addr4 1681915905) 32]; wKeepalive := 25 * second |}.
Definition demo_config (e : addrport) : WgConfig := {| cPrivateKey := demo_bytes "p"; cListenPort := 51820; cAddresses := []; cPeers := [demo_wgpeer e]; cFwMark := 0 |}.

Lemma text_is_the_config_witness :
  (chars "public_key", hex_chars (demo_bytes "k")) ∈ default [] (read_fields (configure_text 51820 [] (demo_config (AddrPort (Addr4 0xc0000207) 51820)))) ∧
  ∀ v, (chars "public_key", v) ∈ default [] (read_fields (configure_text 51820 [] (demo_config (AddrPort (Addr4 0xc0000207) 51820)))) → v = hex_chars (demo_bytes "k").
Proof.
  destruct (text_is_the_config 51820 [] (demo_config (AddrPort (Addr4 0xc0000207) 51820))) as [H1 H2].
  { repeat constructor. by apply oneline_fixed. }
  split; [rewrite H1; apply (bool_decide_unpack _); by vm_compute|]. intros v Hv. destruct (H2 v Hv) as (k & -> & [Hk|Hk]); [|by apply elem_of_nil in Hk].
  unfold keys_of in Hk. by apply list_elem_of_singleton in Hk as ->.
Defined.

Definition demo_sample : sample :=
  {| saKey := demo_bytes "k"; saEndpoint := AddrPort (Addr4 0xc0000207) 51820; saSec := 1700000000; saNsec := 5; saRx := 10; saTx := 20;
     saBefore := [("protocol_version", chars "1")]; saAfter := [("allowed_ip", chars "100.64.0.1/32")] |}.

Lemma stats_read_back_witness : parseUAPIStats (text (answer [("listen_port", chars "51820")] [demo_sample])) = Some [stat_of demo_sample].
Proof.
  apply (stats_read_back [("listen_port", chars "51820")] [demo_sample]).
  - apply (bool_decide_unpack _). by vm_compute.
  - apply Forall_singleton. split; try (by apply (bool_decide_unpack _); vm_compute); cbn; try lia; repeat constructor; apply (bool_decide_unpack _); by vm_compute.
  - unfold scannable, field_ok, oneline. apply (bool_decide_unpack _). by vm_compute.
Defined.

(** An endpoint as a server could send it: it parses, its zone holds lines, and
    the text of the configuration has a peer the configuration does not list. *)
Definition hostile_endpoint : string :=
  "[fe80::1%x]:1" +:+ of_chars [LF] +:+ "public_key=" +:+ of_chars (hex_chars (demo_bytes "e")) +:+ of_chars [LF] +:+ "allowed_ip=0.0.0.0/0" +:+ of_chars [LF] +:+
  "endpoint=[fe80::2%x]:2".

Example endpoint_adds_a_peer :
  match ParseAddrPort hostile_endpoint with
  | Some e =>
      APIsValid e = true ∧
      match read_fields (configure_text 51820 [] (demo_config e)) with
      | Some fs => bool_decide ((chars "public_key", hex_chars (demo_bytes "e")) ∈ fs) = true
      | None => False
      end
  | None => False
  end.
Proof. vm_compute. done. Qed.
