(* ===== verification/Nft.v ===== *)
(** The kernel's packet filter: [internal/wg/nft_linux.go] and the router chains
    of [forward_linux.go].

    [buildRuleset] compiles a [FilterSet] into a table of nftables expressions.
    What an expression does is the kernel's: the class [Machine] states the
    documented behaviour of those used here, and a table is run as documented.
    The netlink connection, the counters read back and the chains of other
    programs ([AllowForward]) are left out. *)

From S2P Require Import Prelude GoStrings NetIP Filter.

(** ** Expressions *)

Inductive meta_key := MetaKeyIIFNAME | MetaKeyOIFNAME | MetaKeyNFPROTO | MetaKeyL4PROTO.
Inductive cmp_op := CmpOpEq | CmpOpNeq.
Inductive payload_base := PayloadBaseNetworkHeader | PayloadBaseTransportHeader.
Inductive verdict := VerdictAccept | VerdictDrop.

(** The register is always the first.  [Lookup] holds the elements of its
    anonymous set. *)
Inductive expr :=
  | Meta (k : meta_key)
  | Cmp (op : cmp_op) (data : list byte)
  | Payload (base : payload_base) (off len : Z)
  | InRange (from to : list byte)
  | Bitwise (mask xor : list byte)
  | CtState
  | Lookup (elems : list (list byte))
  | Counter
  | Masq
  | Verdict (v : verdict).

Notation rule := (list expr).

Inductive hook_point := ChainHookInput | ChainHookForward | ChainHookPostrouting.
#[export] Instance hook_point_eq_dec : EqDecision hook_point.
Proof. solve_decision. Defined.

Record chain := { cName : string; cHook : hook_point; cPolicy : verdict; cRules : list rule }.
Notation table := (list chain).

(** Numbers of the kernel's. *)
Definition NFPROTO_IPV4 : Z := 2.
Definition NFPROTO_IPV6 : Z := 10.
Definition CtStateBitESTABLISHED : Z := 2.
Definition CtStateBitRELATED : Z := 4.

(** [ifname]: 16 bytes, padded with NUL. *)
Definition ifname (n : string) : list byte := take 16 (string_bytes n ++ replicate 16 Byte.x00).

(** [prefixMask]. *)
Fixpoint mask_bytes (n : nat) (bits : Z) : list byte :=
  match n with
  | O => []
  | S n =>
      if 8 <=? bits then Byte.xff :: mask_bytes n (bits - 8)
      else if 0 <? bits then zb (Z.shiftl 255 (8 - bits)) :: mask_bytes n 0
      else Byte.x00 :: mask_bytes n bits
  end.
Definition prefixMask (bits bitLen : Z) : list byte := mask_bytes (Z.to_nat (bitLen / 8)) bits.

(** [AsSlice]. *)
Definition AsSlice (a : addr) : list byte := match a with AddrNone => [] | Addr4 x => be_enc 4 x | Addr6 x _ => be_enc 16 x end.

Definition family (a : addr) : rule := [Meta MetaKeyNFPROTO; Cmp CmpOpEq [zb (if Is6 a then NFPROTO_IPV6 else NFPROTO_IPV4)]].
Definition saddr (a : addr) : expr := if Is6 a then Payload PayloadBaseNetworkHeader 8 16 else Payload PayloadBaseNetworkHeader 12 4.
Definition daddr (a : addr) : expr := if Is6 a then Payload PayloadBaseNetworkHeader 24 16 else Payload PayloadBaseNetworkHeader 16 4.

Definition prefixMatch (p : prefix) : rule :=
  if pbits p =? BitLen (paddr p) then [Cmp CmpOpEq (AsSlice (paddr p))]
  else [Bitwise (prefixMask (pbits p) (BitLen (paddr p))) (replicate (if Is6 (paddr p) then 16 else 4) Byte.x00);
        Cmp CmpOpEq (AsSlice (paddr (Masked p)))].

(** [protocolsOf]: a protocol it does not know is any. *)
Definition protocolsOf (pr : string) (lo hi : Z) (v6 : bool) : list Z :=
  let icmp := if v6 then protoICMPv6 else protoICMP in
  if bool_decide (pr = ProtoTCP) then [protoTCP]
  else if bool_decide (pr = ProtoUDP) then [protoUDP]
  else if bool_decide (pr = ProtoICMP) then [icmp]
  else [protoTCP; protoUDP] ++ (if (lo <=? 1) && (hi =? 65535) then [icmp] else []).

Definition protoPorts (pr lo hi : Z) : rule :=
  [Meta MetaKeyL4PROTO; Cmp CmpOpEq [zb pr]] ++
  if (pr =? protoICMP) || (pr =? protoICMPv6) then []
  else [Payload PayloadBaseTransportHeader 2 2] ++ (if lo =? hi then [Cmp CmpOpEq (be_enc 2 lo)] else [InRange (be_enc 2 lo) (be_enc 2 hi)]).

(** [established]; the mask and the state are in the byte order of the host. *)
Definition established : rule :=
  [CtState; Bitwise (reverse (be_enc 4 (Z.lor CtStateBitESTABLISHED CtStateBitRELATED))) (be_enc 4 0); Cmp CmpOpNeq (be_enc 4 0); Verdict VerdictAccept].

Definition accept : expr := Verdict VerdictAccept.
Definition count_and_drop : rule := [Counter; Verdict VerdictDrop].

(** The rules for ICMPv6 errors and neighbour discovery. *)
Definition icmp6_rule (types : Z * Z) : rule :=
  family (Addr6 0 "") ++
  [Meta MetaKeyL4PROTO; Cmp CmpOpEq [zb protoICMPv6]; Payload PayloadBaseTransportHeader 0 1; InRange [zb types.1] [zb types.2]; accept].
Definition icmp6_rules : list rule := icmp6_rule <$> [(icmp6Unreachable, icmp6ParamProb); (icmp6RouterSolicit, icmp6Redirect)].

(** [addVisible], for one family. *)
Definition visible_rule (zero : addr) (pr echo : Z) (visible : list addr) : list rule :=
  let elems := AsSlice <$> filter (λ a, eqb (Is4 a) (Is4 zero) = true ∧ Is4In6 a = false) visible in
  if bool_decide (elems = []) then []
  else [family zero ++ [saddr zero; Lookup elems; Meta MetaKeyL4PROTO; Cmp CmpOpEq [zb pr]; Payload PayloadBaseTransportHeader 0 1; Cmp CmpOpEq [zb echo]; accept]].
Definition addVisible (visible : list addr) : list rule :=
  visible_rule (Addr4 0) protoICMP icmpEchoRequest visible ++ visible_rule (Addr6 0 "") protoICMPv6 icmp6EchoRequest visible.

(** One policy rule. *)
Definition policy_rule (r : FilterRule) : list rule :=
  if negb (PIsValid (fSrc r)) || (IsValid (fDst r) && negb (eqb (Is6 (fDst r)) (Is6 (paddr (fSrc r))))) then []
  else
    (λ pr, family (paddr (fSrc r)) ++ [saddr (paddr (fSrc r))] ++ prefixMatch (fSrc r) ++
      (if IsValid (fDst r) then [daddr (fDst r); Cmp CmpOpEq (AsSlice (fDst r))] else []) ++ protoPorts pr (fLo r) (fHi r) ++ [accept])
    <$> protocolsOf (fProto r) (fLo r) (fHi r) (Is6 (paddr (fSrc r))).

(** One forward rule. *)
Definition forward_rules (iface : list byte) (r : ForwardRule) : list rule :=
  if negb (PIsValid (wSrc r)) || negb (PIsValid (wDst r)) || negb (eqb (Is6 (paddr (wDst r))) (Is6 (paddr (wSrc r)))) then []
  else
    (λ pr, [Meta MetaKeyIIFNAME; Cmp CmpOpEq iface] ++ family (paddr (wSrc r)) ++ [saddr (paddr (wSrc r))] ++ prefixMatch (wSrc r) ++
      (if 0 <? pbits (wDst r) then [daddr (paddr (wDst r))] ++ prefixMatch (wDst r) else []) ++ protoPorts pr (wLo r) (wHi r) ++ [accept])
    <$> protocolsOf (wProto r) (wLo r) (wHi r) (Is6 (paddr (wSrc r))).

(** One prefix to masquerade. *)
Definition masquerade_rule (iface : list byte) (from4 from6 dst : prefix) : list rule :=
  let from := if Is6 (paddr dst) then from6 else from4 in
  if Is6 (paddr dst) && negb (PIsValid from6) then []
  else
    [[Meta MetaKeyOIFNAME; Cmp CmpOpNeq iface] ++ family (paddr dst) ++
     (if PIsValid from && eqb (Is6 (paddr from)) (Is6 (paddr dst)) then [saddr (paddr from)] ++ prefixMatch from else []) ++
     (if 0 <? pbits dst then [daddr (paddr dst)] ++ prefixMatch dst else []) ++ [Masq]].

(** [buildRouterChains], with the number of forward rules. *)
Definition buildRouterChains (s : FilterSet) : table * nat :=
  let iface := ifname (Interface s) in
  let rules := concat (forward_rules iface <$> sForward s) in
  ({| cName := "forward"; cHook := ChainHookForward; cPolicy := VerdictDrop;
      cRules := [[Meta MetaKeyIIFNAME; Cmp CmpOpNeq iface; Meta MetaKeyOIFNAME; Cmp CmpOpNeq iface; accept]; established] ++ rules ++ [count_and_drop] |} ::
   (if bool_decide (Masquerade s = []) then []
    else [{| cName := "postrouting"; cHook := ChainHookPostrouting; cPolicy := VerdictAccept;
             cRules := concat (masquerade_rule iface (MasqueradeFrom s) (MasqueradeFrom6 s) <$> Masquerade s) |}]),
   length rules).

(** The chain of the filter itself. *)
Definition filter_rules (s : FilterSet) : list rule := concat (policy_rule <$> sRules s).
Definition forwarding (s : FilterSet) : bool := bool_decide (Hook s = HookForward).

Definition filter_chain (s : FilterSet) : chain :=
  {| cName := if forwarding s then "forward" else "input"; cHook := if forwarding s then ChainHookForward else ChainHookInput; cPolicy := VerdictDrop;
     cRules :=
       [[Meta (if forwarding s then MetaKeyOIFNAME else MetaKeyIIFNAME); Cmp CmpOpNeq (ifname (Interface s)); accept]] ++
       (if forwarding s then (λ a, family a ++ [daddr a; Cmp CmpOpEq (AsSlice a); accept]) <$> locals s else []) ++
       [established] ++ icmp6_rules ++ addVisible (sVisible s) ++ filter_rules s ++ [count_and_drop] |}.

(** [buildRuleset]: the table, the name of the chain counted and the rules. *)
Definition buildRuleset (s : FilterSet) : table * string * nat :=
  if routerOnly s then let '(t, n) := buildRouterChains s in (t, "forward", n)
  else
    let '(router, n) := if negb (forwarding s) && (negb (bool_decide (sForward s = [])) || negb (bool_decide (Masquerade s = [])))
                        then buildRouterChains s else ([], 0%nat) in
    (filter_chain s :: router, cName (filter_chain s), (length (filter_rules s) + n)%nat).

(** [routerNAT.set]: what a userspace tunnel has in the kernel. *)
Definition routerSet (s : FilterSet) : option FilterSet :=
  if bool_decide (sForward s = []) && bool_decide (Masquerade s = []) then None
  else Some {| Interface := Interface s; Hook := HookInput; sLocal := sLocal s; sLocal6 := sLocal6 s; sVisible := []; sRules := []; sForward := sForward s;
               Masquerade := Masquerade s; MasqueradeFrom := MasqueradeFrom s; MasqueradeFrom6 := MasqueradeFrom6 s; routerOnly := true |}.

(** ** Running a table *)

(** A packet at a hook: the interfaces, its headers as the kernel found them,
    and the state of its connection. *)
Record skb := { iif : list byte; oif : list byte; nfproto : Z; l4proto : Z; network : list byte; transport : list byte; ctstate : Z }.

Inductive outcome := Continue (reg : list byte) | Break | Done (v : verdict) | Masquerading.

Definition meta_value (k : meta_key) (p : skb) : list byte :=
  match k with MetaKeyIIFNAME => iif p | MetaKeyOIFNAME => oif p | MetaKeyNFPROTO => [zb (nfproto p)] | MetaKeyL4PROTO => [zb (l4proto p)] end.
Definition header (b : payload_base) (p : skb) : list byte := match b with PayloadBaseNetworkHeader => network p | PayloadBaseTransportHeader => transport p end.
Definition band (a b : byte) : byte := zb (Z.land (bz a) (bz b)).
Definition go_if (b : bool) (reg : list byte) : outcome := if b then Continue reg else Break.

(** The documented behaviour of the expressions used: a load replaces the
    register or breaks off where the packet is too short; a comparison goes on
    or breaks off. *)
Class Machine := {
  step : expr → skb → list byte → outcome;
  step_meta k p r : step (Meta k) p r = Continue (meta_value k p);
  step_cmp_eq d p r : step (Cmp CmpOpEq d) p r = go_if (bool_decide (r = d)) r;
  step_cmp_neq d p r : step (Cmp CmpOpNeq d) p r = go_if (negb (bool_decide (r = d))) r;
  step_payload b off len p r : step (Payload b off len) p r = match slice (header b p) off (off + len) with Some l => Continue l | None => Break end;
  step_range lo hi p r : length r = length lo → length r = length hi → step (InRange lo hi) p r = go_if ((be_dec lo <=? be_dec r) && (be_dec r <=? be_dec hi)) r;
  step_bitwise m x p r : length r = length m → length r = length x → step (Bitwise m x) p r = Continue (zip_with bxor (zip_with band r m) x);
  step_ct p r : step CtState p r = Continue (reverse (be_enc 4 (ctstate p)));
  step_lookup l p r : step (Lookup l) p r = go_if (bool_decide (r ∈ l)) r;
  step_counter p r : step Counter p r = Continue r;
  step_masq p r : step Masq p r = Masquerading;
  step_verdict v p r : step (Verdict v) p r = Done v;
}.

Section Run.
Context `{Machine}.

Fixpoint run_rule (l : rule) (p : skb) (reg : list byte) : outcome :=
  match l with
  | [] => Break
  | e :: l => match step e p reg with Continue reg => run_rule l p reg | o => o end
  end.

(** The rules in turn; the first verdict ends it. *)
Fixpoint run_rules (l : list rule) (p : skb) : option outcome :=
  match l with
  | [] => None
  | r :: l => match run_rule r p [] with Done v => Some (Done v) | Masquerading => Some Masquerading | _ => run_rules l p end
  end.

Definition run_chain (c : chain) (p : skb) : outcome := default (Done (cPolicy c)) (run_rules (cRules c) p).
Definition passes (c : chain) (p : skb) : bool := match run_chain c p with Done VerdictDrop => false | _ => true end.
Definition masquerades (c : chain) (p : skb) : bool := match run_chain c p with Masquerading => true | _ => false end.

(** The chains of a table at one hook; each of them has to let a packet pass. *)
Definition at_hook (h : hook_point) (t : table) : table := filter (λ c, cHook c = h) t.
Definition table_passes (h : hook_point) (t : table) (p : skb) : bool := forallb (λ c, passes c p) (at_hook h t).
Definition table_masquerades (t : table) (p : skb) : bool := existsb (λ c, masquerades c p) (at_hook ChainHookPostrouting t).
End Run.

(** A machine that does what is documented. *)
Definition reference_step (e : expr) (p : skb) (r : list byte) : outcome :=
  match e with
  | Meta k => Continue (meta_value k p)
  | Cmp CmpOpEq d => go_if (bool_decide (r = d)) r
  | Cmp CmpOpNeq d => go_if (negb (bool_decide (r = d))) r
  | Payload b off len => match slice (header b p) off (off + len) with Some l => Continue l | None => Break end
  | InRange lo hi => go_if ((be_dec lo <=? be_dec r) && (be_dec r <=? be_dec hi)) r
  | Bitwise m x => Continue (zip_with bxor (zip_with band r m) x)
  | CtState => Continue (reverse (be_enc 4 (ctstate p)))
  | Lookup l => go_if (bool_decide (r ∈ l)) r
  | Counter => Continue r
  | Masq => Masquerading
  | Verdict v => Done v
  end.

#[export] Program Instance reference_machine : Machine := { step := reference_step }.
Solve Obligations with (intros; reflexivity).
