(* ===== verification/NftSafety.v ===== *)
(** The kernel's filter decides as the userspace filter: the table built for a
    filter set against [Filter.v]. *)

From S2P Require Import Prelude GoStrings NetIP Filter Nft.

(** ** Network masks as bytes

    A masked address is the address of the masked prefix. *)

Lemma be_dec_cons b l : be_dec (b :: l) = bz b * 256 ^ Z.of_nat (length l) + be_dec l.
Proof.
  induction l as [|c l IH] using rev_ind; [unfold be_dec; cbn; lia|]. change (b :: l ++ [c]) with ((b :: l) ++ [c]). rewrite !be_dec_snoc, IH.
  rewrite length_app. cbn [length]. rewrite Nat2Z.inj_add, Z.pow_add_r by lia. change (256 ^ Z.of_nat 1) with 256. lia.
Qed.

Lemma be_dec_inj a b : length a = length b → be_dec a = be_dec b → a = b.
Proof. intros Hl H. rewrite <- (be_enc_dec a), <- (be_enc_dec b). by rewrite Hl, H. Qed.

Lemma pow256 n : 0 < 256 ^ Z.of_nat n.
Proof. apply Z.pow_pos_nonneg; lia. Qed.

Lemma be_enc_cons n z : 0 <= z < 256 ^ Z.of_nat (S n) → be_enc (S n) z = zb (z / 256 ^ Z.of_nat n) :: be_enc n (z mod 256 ^ Z.of_nat n).
Proof.
  intros Hz. pose proof (pow256 n). rewrite Nat2Z.inj_succ, Z.pow_succ_r in Hz by lia. apply be_dec_inj.
  - cbn [length]. by rewrite !length_be_enc.
  - rewrite be_dec_cons, length_be_enc, bz_zb, !be_dec_enc, Z.mod_mod by lia. rewrite Nat2Z.inj_succ, Z.pow_succ_r by lia.
    rewrite (Z.mod_small z) by lia. rewrite Z.mod_small.
    + rewrite Z.mul_comm. apply Z.div_mod. lia.
    + split; [apply Z.div_pos; lia|]. apply Z.div_lt_upper_bound; lia.
Qed.

(** A byte under a mask of [k] bits. *)
Definition byte_mask (k : Z) : byte := zb (Z.shiftl 255 (8 - k)).

Lemma band_mask b k : 0 <= k <= 8 → bz (band b (byte_mask k)) = bz b / 2 ^ (8 - k) * 2 ^ (8 - k).
Proof.
  intros Hk. assert (k ∈ seqZ 0 9) as Hin by (apply elem_of_seqZ; lia). vm_compute in Hin. clear Hk.
  repeat (apply elem_of_cons in Hin as [-> | Hin]; [by destruct b|]). by apply elem_of_nil in Hin.
Qed.

Lemma mask_bytes_length n : ∀ bits, length (mask_bytes n bits) = n.
Proof. induction n as [|n IH]; intros bits; [done|]. cbn [mask_bytes]. repeat case_match; cbn [length]; by rewrite IH. Qed.

Lemma band_zeros l n bits : bits <= 0 → length l = n → zip_with band l (mask_bytes n bits) = replicate n Byte.x00.
Proof.
  revert l bits. induction n as [|n IH]; intros l bits Hb Hl; [by destruct l|]. destruct l as [|b l]; [done|]. cbn [mask_bytes].
  rewrite (proj2 (Z.leb_gt _ _)), (proj2 (Z.ltb_ge _ _)) by lia. cbn [zip_with replicate]. f_equal; [by destruct b|]. apply IH; [done|]. by injection Hl.
Qed.

Lemma be_dec_zeros n : be_dec (replicate n Byte.x00) = 0.
Proof. induction n as [|n IH]; [done|]. cbn [replicate]. rewrite be_dec_cons, IH. change (bz Byte.x00) with 0. lia. Qed.

Lemma length_zip_band a b : length (zip_with band a b) = (length a `min` length b)%nat.
Proof. apply length_zip_with. Qed.

Lemma mask_top_range w bits a : 0 <= bits <= w → 0 <= a < 2 ^ w → 0 <= mask_top w bits a < 2 ^ w.
Proof.
  intros Hb Ha. unfold mask_top. assert (0 < 2 ^ (w - bits)) by (apply Z.pow_pos_nonneg; lia). pose proof (Z.mul_div_le a (2 ^ (w - bits))).
  pose proof (Z.div_pos a (2 ^ (w - bits))). split; nia.
Qed.

(** The bytes of a masked number. *)
Lemma mask_be_dec n : ∀ bits z, 0 <= bits <= 8 * Z.of_nat n → 0 <= z < 256 ^ Z.of_nat n →
  be_dec (zip_with band (be_enc n z) (mask_bytes n bits)) = mask_top (8 * Z.of_nat n) bits z.
Proof.
  induction n as [|n IH]; intros bits z Hb Hz.
  { cbn in Hb. assert (bits = 0) as -> by lia. cbn in Hz. assert (z = 0) as -> by lia. done. }
  rewrite be_enc_cons by done. set (h := z / 256 ^ Z.of_nat n). set (t := z mod 256 ^ Z.of_nat n). pose proof (pow256 n) as Hp.
  assert (0 <= t < 256 ^ Z.of_nat n) as Ht by (apply Z.mod_pos_bound; lia).
  assert (z = h * 256 ^ Z.of_nat n + t) as Ez by (subst h t; rewrite Z.mul_comm; apply Z.div_mod; lia).
  assert (0 <= h < 256) as Hh. { rewrite Nat2Z.inj_succ, Z.pow_succ_r in Hz by lia. subst h. split; [apply Z.div_pos; lia|]. apply Z.div_lt_upper_bound; lia. }
  assert (256 ^ Z.of_nat n = 2 ^ (8 * Z.of_nat n)) as E256 by (change 256 with (2 ^ 8); by rewrite <- Z.pow_mul_r by lia).
  cbn [mask_bytes]. unfold mask_top. rewrite Nat2Z.inj_succ. destruct (Z.leb_spec 8 bits) as [H8|H8].
  - cbn [zip_with]. rewrite be_dec_cons, length_zip_band, mask_bytes_length, length_be_enc, Nat.min_id. rewrite IH by lia.
    replace (bz (band (zb h) Byte.xff)) with h.
    2:{ change Byte.xff with (byte_mask 8). rewrite band_mask by lia. rewrite bz_zb, Z.mod_small by lia. change (2 ^ (8 - 8)) with 1. rewrite Z.div_1_r. lia. }
    unfold mask_top. replace (8 * Z.succ (Z.of_nat n) - bits) with (8 * Z.of_nat n - (bits - 8)) by lia.
    set (q := 2 ^ (8 * Z.of_nat n - (bits - 8))). assert (0 < q) by (apply Z.pow_pos_nonneg; lia).
    assert (256 ^ Z.of_nat n = 2 ^ (bits - 8) * q) as Eq by (rewrite E256; subst q; rewrite <- Z.pow_add_r by lia; f_equal; lia).
    rewrite Ez, Eq. rewrite (Z.mul_assoc h). rewrite Z.div_add_l by lia. lia.
  - destruct (Z.ltb_spec 0 bits) as [H0|H0].
    + cbn [zip_with]. fold (byte_mask bits). rewrite band_zeros by (try lia; apply length_be_enc). rewrite be_dec_cons, be_dec_zeros, length_replicate, band_mask by lia.
      rewrite bz_zb, (Z.mod_small h) by lia. replace (8 * Z.succ (Z.of_nat n) - bits) with ((8 - bits) + 8 * Z.of_nat n) by lia.
      rewrite Z.pow_add_r, <- E256 by lia. assert (0 < 2 ^ (8 - bits)) by (apply Z.pow_pos_nonneg; lia).
      rewrite (Z.mul_comm (2 ^ (8 - bits)) (256 ^ _)), <- Z.div_div by lia. fold h. lia.
    + cbn [zip_with]. rewrite band_zeros by (try lia; apply length_be_enc). rewrite be_dec_cons, be_dec_zeros, length_replicate.
      replace (bz (band (zb h) Byte.x00)) with 0 by (by destruct (zb h)). assert (bits = 0) as -> by lia. rewrite Z.sub_0_r.
      rewrite Z.div_small; [lia|]. rewrite Nat2Z.inj_succ in Hz. change 256 with (2 ^ 8) in Hz. rewrite <- Z.pow_mul_r in Hz by lia. lia.
Qed.

Lemma bxor_zeros l n : length l = n → zip_with bxor l (replicate n Byte.x00) = l.
Proof. revert n. induction l as [|b l IH]; intros n <-; [done|]. cbn [length replicate zip_with]. rewrite IH by done. f_equal. by destruct b. Qed.

Lemma masked_bytes n bits z : 0 <= bits <= 8 * Z.of_nat n → 0 <= z < 256 ^ Z.of_nat n →
  zip_with bxor (zip_with band (be_enc n z) (mask_bytes n bits)) (replicate n Byte.x00) = be_enc n (mask_top (8 * Z.of_nat n) bits z).
Proof.
  intros Hb Hz. assert (length (zip_with band (be_enc n z) (mask_bytes n bits)) = n) as Hl by (by rewrite length_zip_band, mask_bytes_length, length_be_enc, Nat.min_id).
  rewrite bxor_zeros by done. rewrite <- mask_be_dec by done. rewrite <- Hl at 3. symmetry. apply be_enc_dec.
Qed.

(** ** A packet at a hook *)

(** An address as a packet has it. *)
Definition addr_ok (a : addr) : Prop := IsValid a = true ∧ addr_wf a ∧ Zone a = "".

(** What the kernel's connection tracking may say of a packet: invalid,
    established, related, new, untracked. *)
Definition ct_states : list Z := [1; 2; 4; 8; 64].
Definition tracked (k : skb) : bool := (ctstate k =? CtStateBitESTABLISHED) || (ctstate k =? CtStateBitRELATED).

(** The packet as the kernel sees it: its family, its headers, and where the
    protocol has them its port or its type.  A packet of ICMP is of the family
    the protocol belongs to. *)
Record carries (k : skb) (p : packet) : Prop := {
  c_src : addr_ok (src p);
  c_dst : addr_ok (dst p);
  c_same : Is6 (dst p) = Is6 (src p);
  c_family : nfproto k = if Is6 (src p) then NFPROTO_IPV6 else NFPROTO_IPV4;
  c_saddr : (if Is6 (src p) then slice (network k) 8 24 else slice (network k) 12 16) = Some (AsSlice (src p));
  c_daddr : (if Is6 (src p) then slice (network k) 24 40 else slice (network k) 16 20) = Some (AsSlice (dst p));
  c_proto : l4proto k = proto p;
  c_byte : 0 <= proto p < 256;
  c_port : proto p = protoTCP ∨ proto p = protoUDP → slice (transport k) 2 4 = Some (be_enc 2 (dport p)) ∧ port_ok (dport p);
  c_type : isICMP p = true → slice (transport k) 0 1 = Some [zb (sport p)] ∧ 0 <= sport p < 256;
  c_icmp : isICMP p = true → proto p = if Is6 (src p) then protoICMPv6 else protoICMP;
  c_state : ctstate k ∈ ct_states;
}.

(** What a filter set that is compiled from a map has. *)
Definition known_proto (pr : string) : Prop := pr ∈ [ProtoTCP; ProtoUDP; ProtoICMP; ProtoAny].
Definition rule_ok (r : FilterRule) : Prop :=
  prefix_wf (fSrc r) ∧ (IsValid (fDst r) = true → addr_ok (fDst r)) ∧ known_proto (fProto r) ∧ port_ok (fLo r) ∧ port_ok (fHi r).
Definition forward_ok (r : ForwardRule) : Prop :=
  prefix_wf (wSrc r) ∧ prefix_wf (wDst r) ∧ known_proto (wProto r) ∧ port_ok (wLo r) ∧ port_ok (wHi r).
Definition visible_ok (a : addr) : Prop := IsValid a = true → addr_ok a ∧ Is4In6 a = false.
Record set_ok (s : FilterSet) : Prop := {
  s_rules : Forall rule_ok (sRules s);
  s_forward : Forall forward_ok (sForward s);
  s_visible : Forall visible_ok (sVisible s);
  s_locals : Forall addr_ok (locals s);
  s_masquerade : Forall (λ d, prefix_wf d ∧ PIsValid d = true) (Masquerade s);
  s_from : prefix_wf (MasqueradeFrom s) ∧ prefix_wf (MasqueradeFrom6 s);
  s_from6 : PIsValid (MasqueradeFrom6 s) = true → Is6 (paddr (MasqueradeFrom6 s)) = true;
}.

(** ** Addresses as bytes *)

Lemma AsSlice_inj a b : addr_ok a → addr_ok b → AsSlice a = AsSlice b → a = b.
Proof.
  intros (Ha & Wa & Za) (Hb & Wb & Zb) E. pose proof (f_equal length E) as El.
  destruct a as [|x|x z], b as [|y|y z']; cbn [AsSlice] in *; rewrite ?length_be_enc in El; try done.
  - f_equal. by apply (be_enc_inj 4).
  - cbn in Za, Zb. subst. f_equal. by apply (be_enc_inj 16).
Qed.

Lemma eqb_sym_diag b : eqb b b = true.
Proof. by destruct b. Qed.

Lemma Is4_Is6 a : IsValid a = true → Is4 a = negb (Is6 a).
Proof. by destruct a. Qed.

Lemma Contains_family q a : Contains q a = true → Is6 (paddr q) = Is6 a.
Proof. unfold Contains. destruct (_ || _); [done|]. by destruct (paddr q), a. Qed.

Lemma existsb_andb_l {A} b (f : A → bool) l : existsb (λ x, b && f x) l = b && existsb f l.
Proof. destruct b; cbn [andb]; [done|]. by induction l. Qed.

(** ** Matches *)

Section Kernel.
Context `{Machine}.

(** The expressions go on exactly if [c], whatever the register holds. *)
Definition tests (l : rule) (k : skb) (c : bool) : Prop :=
  ∀ rest reg, if c then ∃ reg', run_rule (l ++ rest) k reg = run_rule rest k reg' else run_rule (l ++ rest) k reg = Break.

Lemma tests_nil k : tests [] k true.
Proof. intros rest reg. by exists reg. Qed.

(** The second match may rely on the first. *)
Lemma tests_app l1 l2 k c1 c2 : tests l1 k c1 → (c1 = true → tests l2 k c2) → tests (l1 ++ l2) k (c1 && c2).
Proof.
  intros H1 H2 rest reg. rewrite <- app_assoc. specialize (H1 (l2 ++ rest) reg). destruct c1; cbn [andb]; [|done].
  destruct H1 as [reg1 ->]. exact (H2 eq_refl rest reg1).
Qed.

(** A load and a comparison of what it loads. *)
Lemma tests_if l k b reg0 : (∀ rest reg, run_rule (l ++ rest) k reg = match go_if b reg0 with Continue r => run_rule rest k r | o => o end) → tests l k b.
Proof. intros E rest reg. rewrite E. destruct b; [by exists reg0|done]. Qed.

Lemma tests_meta key d k : tests [Meta key; Cmp CmpOpEq d] k (bool_decide (meta_value key k = d)).
Proof. apply (tests_if _ _ _ (meta_value key k)). intros. cbn [app run_rule]. by rewrite step_meta, step_cmp_eq. Qed.

Lemma tests_meta_neq key d k : tests [Meta key; Cmp CmpOpNeq d] k (negb (bool_decide (meta_value key k = d))).
Proof. apply (tests_if _ _ _ (meta_value key k)). intros. cbn [app run_rule]. by rewrite step_meta, step_cmp_neq. Qed.

Lemma tests_payload b off len d k v : slice (header b k) off (off + len) = Some v → tests [Payload b off len; Cmp CmpOpEq d] k (bool_decide (v = d)).
Proof. intros E. apply (tests_if _ _ _ v). intros. cbn [app run_rule]. by rewrite step_payload, E, step_cmp_eq. Qed.

Lemma tests_range b off len lo hi k v : slice (header b k) off (off + len) = Some v → length v = length lo → length v = length hi →
  tests [Payload b off len; InRange lo hi] k ((be_dec lo <=? be_dec v) && (be_dec v <=? be_dec hi)).
Proof. intros E Hl Hh. apply (tests_if _ _ _ v). intros. cbn [app run_rule]. by rewrite step_payload, E, step_range. Qed.

Lemma tests_masked b off len m x d k v : slice (header b k) off (off + len) = Some v → length v = length m → length v = length x →
  tests [Payload b off len; Bitwise m x; Cmp CmpOpEq d] k (bool_decide (zip_with bxor (zip_with band v m) x = d)).
Proof.
  intros E Hm Hx. apply (tests_if _ _ _ (zip_with bxor (zip_with band v m) x)). intros. cbn [app run_rule].
  by rewrite step_payload, E, step_bitwise, step_cmp_eq.
Qed.

Lemma tests_lookup b off len l k v : slice (header b k) off (off + len) = Some v → tests [Payload b off len; Lookup l] k (bool_decide (v ∈ l)).
Proof. intros E. apply (tests_if _ _ _ v). intros. cbn [app run_rule]. by rewrite step_payload, E, step_lookup. Qed.

(** ** Matches of this program *)

Section Packet.
Context (k : skb) (p : packet) (Hk : carries k p).

Lemma tests_family a : tests (family a) k (eqb (Is6 a) (Is6 (src p))).
Proof.
  replace (eqb (Is6 a) (Is6 (src p))) with (bool_decide (meta_value MetaKeyNFPROTO k = [zb (if Is6 a then NFPROTO_IPV6 else NFPROTO_IPV4)])); [apply tests_meta|].
  cbn [meta_value]. rewrite (c_family _ _ Hk). destruct (Is6 a), (Is6 (src p)); by vm_compute.
Qed.

Lemma slice_saddr a : Is6 a = Is6 (src p) → ∃ off len, saddr a = Payload PayloadBaseNetworkHeader off len ∧ slice (network k) off (off + len) = Some (AsSlice (src p)).
Proof. intros E. unfold saddr. rewrite E. pose proof (c_saddr _ _ Hk) as Hs. destruct (Is6 (src p)); eauto. Qed.

Lemma slice_daddr a : Is6 a = Is6 (src p) → ∃ off len, daddr a = Payload PayloadBaseNetworkHeader off len ∧ slice (network k) off (off + len) = Some (AsSlice (dst p)).
Proof. intros E. unfold daddr. rewrite E. pose proof (c_daddr _ _ Hk) as Hs. destruct (Is6 (src p)); eauto. Qed.

Lemma tests_daddr a : addr_ok a → Is6 a = Is6 (src p) → tests [daddr a; Cmp CmpOpEq (AsSlice a)] k (bool_decide (a = dst p)).
Proof.
  intros Ha E. destruct (slice_daddr a E) as (off & len & -> & Hs).
  replace (bool_decide (a = dst p)) with (bool_decide (AsSlice (dst p) = AsSlice a)); [by apply tests_payload|].
  apply bool_decide_ext. split; [|by intros ->]. intros Es. symmetry. apply AsSlice_inj; [apply (c_dst _ _ Hk)|done|done].
Qed.

(** The prefix of an address is compared as [Contains] does. *)
Lemma masked_contains w n bits x y : w = 8 * Z.of_nat n → 0 <= bits <= w → 0 <= x < 2 ^ w → 0 <= y < 2 ^ w →
  bool_decide (zip_with bxor (zip_with band (be_enc n y) (mask_bytes n bits)) (replicate n Byte.x00) = be_enc n (mask_top w bits x))
  = (x `div` 2 ^ (w - bits) =? y `div` 2 ^ (w - bits)).
Proof.
  intros -> Hb Hx Hy. assert (256 ^ Z.of_nat n = 2 ^ (8 * Z.of_nat n)) as E by (change 256 with (2 ^ 8); by rewrite <- Z.pow_mul_r by lia).
  rewrite masked_bytes by (rewrite ?E; done). assert (0 < 2 ^ (8 * Z.of_nat n - bits)) by (apply Z.pow_pos_nonneg; lia).
  apply Bool.eq_iff_eq_true. rewrite bool_decide_eq_true, Z.eqb_eq. unfold mask_top. split; [|by intros ->].
  intros Eb. apply be_enc_inj in Eb; [nia|rewrite E; by apply mask_top_range..].
Qed.

Lemma tests_prefix_slice e q a : prefix_wf q → PIsValid q = true → addr_ok a → Is6 (paddr q) = Is6 a →
  (∃ off len, e = Payload PayloadBaseNetworkHeader off len ∧ slice (network k) off (off + len) = Some (AsSlice a)) →
  tests (e :: prefixMatch q) k (Contains q a).
Proof.
  intros (Wq & Zq & Bq) Vq (Va & Wa & Za) E6 (off & len & -> & Es). unfold PIsValid in *. apply Z.leb_le in Vq. destruct Bq as [?|[IVq Bq]]; [lia|].
  assert (Is4 (paddr q) = Is4 a) as E4 by (rewrite !Is4_Is6 by done; by rewrite E6). unfold prefixMatch, Contains, PIsValid.
  rewrite (proj2 (Z.leb_le _ _)) by lia. unfold hasZone. rewrite Za, bool_decide_false by tauto. cbn [negb orb].
  destruct q as [[|x|x z] bits]; [done|..]; (destruct a as [|y|y z']; try done); cbn [paddr pbits BitLen Is6 AsSlice Masked PIsValid addr_mask] in *.
  - destruct (Z.eqb_spec bits 32) as [->|Hn].
    + replace (_ =? _) with (bool_decide (be_enc 4 y = be_enc 4 x)); [by apply tests_payload|]. rewrite !Z.sub_diag. change (2 ^ 0) with 1. rewrite !Z.div_1_r.
      destruct (Z.eqb_spec x y) as [->|Hne]; [by apply bool_decide_true|]. apply bool_decide_false. intros Eb. apply be_enc_inj in Eb; [by subst|done..].
    + replace (AsSlice _) with (be_enc 4 (mask_top 32 bits x)) by (unfold Masked, PIsValid; cbn [pbits paddr]; by rewrite (proj2 (Z.leb_le _ _)) by lia).
      rewrite <- (masked_contains 32 4 bits x y) by done. apply tests_masked; [done|by rewrite length_be_enc; unfold prefixMask; rewrite mask_bytes_length|by rewrite length_be_enc].
  - destruct (Z.eqb_spec bits 128) as [->|Hn].
    + replace (_ =? _) with (bool_decide (be_enc 16 y = be_enc 16 x)); [by apply tests_payload|]. rewrite !Z.sub_diag. change (2 ^ 0) with 1. rewrite !Z.div_1_r.
      destruct (Z.eqb_spec x y) as [->|Hne]; [by apply bool_decide_true|]. apply bool_decide_false. intros Eb. apply be_enc_inj in Eb; [by subst|done..].
    + replace (AsSlice _) with (be_enc 16 (mask_top 128 bits x)) by (unfold Masked, PIsValid; cbn [pbits paddr]; by rewrite (proj2 (Z.leb_le _ _)) by lia).
      rewrite <- (masked_contains 128 16 bits x y) by done. apply tests_masked; [done|by rewrite length_be_enc; unfold prefixMask; rewrite mask_bytes_length|by rewrite length_be_enc].
Qed.

Lemma tests_saddr q : prefix_wf q → PIsValid q = true → Is6 (paddr q) = Is6 (src p) → tests ([saddr (paddr q)] ++ prefixMatch q) k (Contains q (src p)).
Proof. intros Hq Vq E6. apply tests_prefix_slice; [done|done|apply Hk|done|]. by apply slice_saddr. Qed.

Lemma tests_daddr_prefix q : prefix_wf q → PIsValid q = true → Is6 (paddr q) = Is6 (src p) → tests ([daddr (paddr q)] ++ prefixMatch q) k (Contains q (dst p)).
Proof. intros Hq Vq E6. apply tests_prefix_slice; [done|done|apply Hk|by rewrite (c_same _ _ Hk)|]. by apply slice_daddr. Qed.


(** One protocol and its ports. *)
Lemma tests_protoPorts pr lo hi : pr ∈ [protoTCP; protoUDP; protoICMP; protoICMPv6] → port_ok lo → port_ok hi →
  tests (protoPorts pr lo hi) k ((proto p =? pr) && ((pr =? protoICMP) || (pr =? protoICMPv6) || ((lo <=? dport p) && (dport p <=? hi)))).
Proof.
  intros Hpr Hlo Hhi. unfold protoPorts. apply tests_app.
  { replace (proto p =? pr) with (bool_decide (meta_value MetaKeyL4PROTO k = [zb pr])); [apply tests_meta|]. cbn [meta_value]. rewrite (c_proto _ _ Hk).
    apply Bool.eq_iff_eq_true. rewrite bool_decide_eq_true, Z.eqb_eq. split; [|by intros ->]. intros E. injection E as E. apply (f_equal bz) in E.
    rewrite !bz_zb_small in E; [done| |apply (c_byte _ _ Hk)]. repeat (apply elem_of_cons in Hpr as [-> | Hpr]; [done|]). by apply elem_of_nil in Hpr. }
  intros Ep%Z.eqb_eq. destruct ((pr =? protoICMP) || (pr =? protoICMPv6)) eqn:Ei; cbn [orb]; [apply tests_nil|]. apply orb_false_iff in Ei as [E1 E2].
  destruct (c_port _ _ Hk) as [Es Hd].
  { apply Z.eqb_neq in E1, E2. rewrite Ep. repeat (apply elem_of_cons in Hpr as [?|Hpr]; [by auto|]). by apply elem_of_nil in Hpr. }
  destruct (Z.eqb_spec lo hi) as [<-|Hne].
  - replace (_ && _) with (bool_decide (be_enc 2 (dport p) = be_enc 2 lo)); [by apply tests_payload|]. apply Bool.eq_iff_eq_true.
    rewrite bool_decide_eq_true, andb_true_iff, !Z.leb_le. split; [|intros ?; f_equal; lia]. intros E. apply be_enc_inj in E; [lia|done..].
  - rewrite <- (be_dec_enc_small 2 lo), <- (be_dec_enc_small 2 hi), <- (be_dec_enc_small 2 (dport p)) by done.
    rewrite (be_dec_enc_small 2 lo), (be_dec_enc_small 2 hi) at 1 by done. by apply tests_range; rewrite ?length_be_enc.
Qed.
End Packet.

(** ** Rules *)

(** Some of the rules ends the chain with [o] exactly if [c]; none of them ends
    it otherwise. *)
Definition decides (o : outcome) (rs : list rule) (k : skb) (c : bool) : Prop :=
  ∀ rest, run_rules (rs ++ rest) k = if c then Some o else run_rules rest k.
Notation accepts := (decides (Done VerdictAccept)).

Lemma accepts_nil o k : decides o [] k false.
Proof. by intros rest. Qed.

Lemma accepts_app o r1 r2 k c1 c2 : decides o r1 k c1 → decides o r2 k c2 → decides o (r1 ++ r2) k (c1 || c2).
Proof. intros H1 H2 rest. rewrite <- app_assoc, H1. destruct c1; [done|]. apply H2. Qed.

Lemma accepts_rule l k c : tests l k c → accepts [l ++ [accept]] k c.
Proof.
  intros Ht rest. specialize (Ht [accept] []). cbn [app run_rules]. destruct c; [|by rewrite Ht].
  destruct Ht as [reg ->]. cbn [run_rule]. unfold accept. by rewrite step_verdict.
Qed.

Lemma masquerades_rule l k c : tests l k c → decides Masquerading [l ++ [Masq]] k c.
Proof.
  intros Ht rest. specialize (Ht [Masq] []). cbn [app run_rules]. destruct c; [|by rewrite Ht].
  destruct Ht as [reg ->]. cbn [run_rule]. by rewrite step_masq.
Qed.

Lemma accepts_fmap {A} (f : A → rule) (c : A → bool) l k : (∀ x, x ∈ l → tests (f x) k (c x)) → accepts ((λ x, f x ++ [accept]) <$> l) k (existsb c l).
Proof.
  induction l as [|x l IH]; intros Hl; [apply accepts_nil|]. rewrite fmap_cons. cbn [existsb]. change (?y :: ?z) with ([y] ++ z). apply accepts_app.
  - apply accepts_rule, Hl. by left.
  - apply IH. intros y Hy. apply Hl. by right.
Qed.

Lemma accepts_concat {A} o (f : A → list rule) (c : A → bool) l k : (∀ x, x ∈ l → decides o (f x) k (c x)) → decides o (concat (f <$> l)) k (existsb c l).
Proof.
  induction l as [|x l IH]; intros Hl; [apply accepts_nil|]. cbn [fmap list_fmap concat existsb]. apply accepts_app.
  - apply Hl. by left.
  - apply IH. intros y Hy. apply Hl. by right.
Qed.

Section Rules.
Context (k : skb) (p : packet) (Hk : carries k p).

Lemma protos_allow pr lo hi : known_proto pr →
  existsb (λ n, (proto p =? n) && ((n =? protoICMP) || (n =? protoICMPv6) || ((lo <=? dport p) && (dport p <=? hi)))) (protocolsOf pr lo hi (Is6 (src p)))
  = portsAllow p pr lo hi.
Proof.
  intros Hpr. pose proof (c_icmp _ _ Hk) as Hi. unfold portsAllow, protocolsOf, isICMP in *. set (b := (lo <=? dport p) && (dport p <=? hi)) in *.
  unfold known_proto in Hpr. repeat (apply elem_of_cons in Hpr as [-> | Hpr]; [|]); [..|by apply elem_of_nil in Hpr].
  all: repeat match goal with |- context [@bool_decide (?x = ?y) ?d] => let v := eval vm_compute in (@bool_decide (x = y) d) in change (@bool_decide (x = y) d) with v end; cbv iota beta.
  all: destruct (Z.eqb_spec (proto p) protoTCP) as [Et|Et]; [rewrite Et; destruct (Is6 (src p)), (lo <=? 1), (hi =? 65535); cbn; by rewrite ?orb_false_r|].
  all: destruct (Z.eqb_spec (proto p) protoUDP) as [Eu|Eu]; [rewrite Eu; destruct (Is6 (src p)), (lo <=? 1), (hi =? 65535); cbn; by rewrite ?orb_false_r|].
  all: destruct ((proto p =? protoICMP) || (proto p =? protoICMPv6)) eqn:E.
  all: try (specialize (Hi eq_refl); rewrite Hi; destruct (Is6 (src p)), (lo <=? 1), (hi =? 65535); reflexivity).
  all: apply orb_false_iff in E as [E1 E2]; destruct (Is6 (src p)), (lo <=? 1), (hi =? 65535); cbn [existsb app andb]; rewrite ?E1, ?E2, ?(proj2 (Z.eqb_neq _ _) Et), ?(proj2 (Z.eqb_neq _ _) Eu); reflexivity.
Qed.

Lemma protocolsOf_in pr lo hi v6 n : n ∈ protocolsOf pr lo hi v6 → n ∈ [protoTCP; protoUDP; protoICMP; protoICMPv6].
Proof.
  unfold protocolsOf. repeat case_bool_decide; destruct v6, (lo <=? 1), (hi =? 65535); cbn [andb app]; rewrite ?elem_of_cons, ?elem_of_nil; tauto.
Qed.

(** One rule per protocol, behind a match of the addresses. *)
Lemma accepts_protos f pre c v6 pr lo hi : known_proto pr → port_ok lo → port_ok hi → tests pre k c → (c = true → v6 = Is6 (src p)) →
  (∀ n, f n = (pre ++ protoPorts n lo hi) ++ [accept]) → accepts (f <$> protocolsOf pr lo hi v6) k (c && portsAllow p pr lo hi).
Proof.
  intros Hpr Hlo Hhi Ht Hv Hf. rewrite (list_fmap_ext f (λ n, (pre ++ protoPorts n lo hi) ++ [accept]) _ (λ _ n _, Hf n)). destruct c; cbn [andb].
  - rewrite (Hv eq_refl). rewrite <- protos_allow by done. apply accepts_fmap. intros n Hn%protocolsOf_in.
    apply (tests_app pre _ k true); [done|]. intros _. by apply tests_protoPorts.
  - change false with (false && existsb (λ _ : Z, true) (protocolsOf pr lo hi v6)). rewrite <- existsb_andb_l. apply accepts_fmap. intros n Hn%protocolsOf_in. by apply (tests_app pre _ k false).
Qed.

(** The match of a destination; a prefix of no bits is not looked at. *)
Lemma tests_destination d : prefix_wf d → PIsValid d = true → Is6 (paddr d) = Is6 (src p) →
  tests (if 0 <? pbits d then [daddr (paddr d)] ++ prefixMatch d else []) k (Contains d (dst p)).
Proof.
  intros Hd Vd E6. destruct (Z.ltb_spec 0 (pbits d)) as [_|Hz]; [by apply tests_daddr_prefix|].
  replace (Contains d (dst p)) with true; [apply tests_nil|]. symmetry.
  assert (pbits d = 0) as E0 by (unfold PIsValid in Vd; lia). rewrite <- (c_same _ _ Hk) in E6. unfold Contains, PIsValid. rewrite E0. cbn [Z.leb Z.compare negb orb].
  destruct (c_dst _ _ Hk) as (Va & Wa & Za). unfold hasZone. rewrite Za, bool_decide_false by tauto. destruct Hd as (Wd & _ & Hb). destruct Hb as [?|[IVd _]]; [lia|].
  destruct (paddr d) as [|x|x z], (dst p) as [|y|y z']; try done; apply Z.eqb_eq; rewrite !Z.div_small; done.
Qed.

(** The match of a source, with its family. *)
Lemma tests_source q : prefix_wf q → PIsValid q = true → tests (family (paddr q) ++ [saddr (paddr q)] ++ prefixMatch q) k (Contains q (src p)).
Proof.
  intros Hq Vq. replace (Contains q (src p)) with (eqb (Is6 (paddr q)) (Is6 (src p)) && Contains q (src p)).
  - apply tests_app; [by apply tests_family|]. intros E%eqb_prop. by apply tests_saddr.
  - destruct (Contains q (src p)) eqn:Ec; [|apply andb_false_r]. rewrite (Contains_family _ _ Ec). by rewrite eqb_reflx.
Qed.

Lemma accepts_policy_rule r : rule_ok r → accepts (policy_rule r) k (ruleAllows p r).
Proof.
  intros (Hq & Hd & Hpr & Hlo & Hhi). unfold policy_rule, ruleAllows. set (q := fSrc r) in *.
  destruct (PIsValid q) eqn:Vq; cbn [negb orb]; [|unfold Contains; rewrite Vq; apply accepts_nil].
  destruct (IsValid (fDst r)) eqn:Vd; cbn [andb].
  - destruct (eqb (Is6 (fDst r)) (Is6 (paddr q))) eqn:E6; cbn [negb].
    + apply eqb_prop in E6.
      replace (if negb (Contains q (src p)) then _ else _) with ((Contains q (src p) && bool_decide (fDst r = dst p)) && portsAllow p (fProto r) (fLo r) (fHi r))
        by (destruct (Contains q (src p)), (bool_decide (fDst r = dst p)); done).
      apply (accepts_protos _ ((family (paddr q) ++ [saddr (paddr q)] ++ prefixMatch q) ++ [daddr (fDst r); Cmp CmpOpEq (AsSlice (fDst r))])); [done|done|done| |..].
      * apply tests_app; [by apply tests_source|]. intros Ec%Contains_family. apply tests_daddr; [done|by apply Hd|congruence].
      * intros [Ec%Contains_family _]%andb_true_iff. done.
      * intros n. by rewrite <- !app_assoc.
    + replace (if negb (Contains q (src p)) then _ else _) with false; [apply accepts_nil|]. destruct (Contains q (src p)) eqn:Ec; cbn [negb]; [|done]. apply Contains_family in Ec.
      rewrite bool_decide_false; [done|]. intros Ed. rewrite Ed, (c_same _ _ Hk), Ec in E6. by rewrite eqb_reflx in E6.
  - replace (if negb (Contains q (src p)) then _ else _) with (Contains q (src p) && portsAllow p (fProto r) (fLo r) (fHi r)) by (by destruct (Contains q (src p))).
    apply (accepts_protos _ (family (paddr q) ++ [saddr (paddr q)] ++ prefixMatch q)); [done|done|done|by apply tests_source| |].
    + by intros ?%Contains_family.
    + intros n. by rewrite <- !app_assoc.
Qed.

Lemma accepts_filter_rules s : Forall rule_ok (sRules s) → accepts (filter_rules s) k (existsb (ruleAllows p) (sRules s)).
Proof. intros Hs. apply accepts_concat. intros r Hr. apply accepts_policy_rule. by apply (proj1 (Forall_forall rule_ok (sRules s)) Hs). Qed.

Lemma accepts_forward_rules iface r : forward_ok r → iif k = iface →
  accepts (forward_rules iface r) k (Contains (wSrc r) (src p) && Contains (wDst r) (dst p) && portsAllow p (wProto r) (wLo r) (wHi r)).
Proof.
  intros (Hq & Hd & Hpr & Hlo & Hhi) Hi. unfold forward_rules. set (q := wSrc r) in *. set (d := wDst r) in *.
  destruct (PIsValid q) eqn:Vq; cbn [negb orb]; [|unfold Contains at 1; rewrite Vq; apply accepts_nil].
  destruct (PIsValid d) eqn:Vd; cbn [negb orb]; [|unfold Contains at 2; rewrite Vd; rewrite andb_false_r; apply accepts_nil].
  destruct (eqb (Is6 (paddr d)) (Is6 (paddr q))) eqn:E6; cbn [negb].
  - apply eqb_prop in E6.
    apply (accepts_protos _ ([Meta MetaKeyIIFNAME; Cmp CmpOpEq iface] ++ ((family (paddr q) ++ [saddr (paddr q)] ++ prefixMatch q) ++ (if 0 <? pbits d then [daddr (paddr d)] ++ prefixMatch d else []))));
      [done|done|done| |..].
    + replace (Contains q (src p) && Contains d (dst p)) with (bool_decide (meta_value MetaKeyIIFNAME k = iface) && (Contains q (src p) && Contains d (dst p)))
        by (cbn [meta_value]; by rewrite bool_decide_true).
      apply tests_app; [apply tests_meta|]. intros _. apply tests_app; [by apply tests_source|]. intros Ec%Contains_family.
      apply tests_destination; [done|done|congruence].
    + intros [[Ec%Contains_family _]%andb_true_iff _]%andb_true_iff || intros [Ec%Contains_family _]%andb_true_iff. done.
    + intros n. by rewrite <- !app_assoc.
  - replace (Contains q (src p) && Contains d (dst p)) with false; [apply accepts_nil|]. symmetry. destruct (Contains q (src p)) eqn:Ec; [|done]. destruct (Contains d (dst p)) eqn:Ed; [|done].
    apply Contains_family in Ec, Ed. rewrite Ec, Ed, (c_same _ _ Hk), eqb_reflx in E6. done.
Qed.

(** The rules around those of the policy. *)
Lemma accepts_established : accepts [established] k (tracked k).
Proof.
  apply (accepts_rule [_; _; _]). apply (tests_if _ _ _ (zip_with bxor (zip_with band (reverse (be_enc 4 (ctstate k))) (reverse (be_enc 4 6))) (be_enc 4 0))).
  intros rest reg. cbn [app run_rule]. rewrite step_ct, step_bitwise by (by rewrite ?length_reverse, ?length_be_enc). rewrite step_cmp_neq.
  pose proof (c_state _ _ Hk) as Hs. unfold tracked, ct_states in *.
  repeat (apply elem_of_cons in Hs as [-> | Hs]; [reflexivity|]). by apply elem_of_nil in Hs.
Qed.

(** The type of an ICMP packet of a family. *)
Lemma tests_icmp zero pr l c : pr = (if Is6 zero then protoICMPv6 else protoICMP) →
  (proto p = pr → slice (transport k) 0 1 = Some [zb (sport p)] → 0 <= sport p < 256 → tests (Payload PayloadBaseTransportHeader 0 1 :: l) k c) →
  tests ([Meta MetaKeyL4PROTO; Cmp CmpOpEq [zb pr]] ++ Payload PayloadBaseTransportHeader 0 1 :: l) k ((proto p =? pr) && c).
Proof.
  intros Hpr Ht. apply tests_app.
  - replace (proto p =? pr) with (bool_decide (meta_value MetaKeyL4PROTO k = [zb pr])); [apply tests_meta|]. cbn [meta_value]. rewrite (c_proto _ _ Hk).
    apply Bool.eq_iff_eq_true. rewrite bool_decide_eq_true, Z.eqb_eq. split; [|by intros ->]. intros E. injection E as E. apply (f_equal bz) in E.
    rewrite !bz_zb_small in E; [done|by rewrite Hpr; destruct (Is6 zero)|apply (c_byte _ _ Hk)].
  - intros Ep%Z.eqb_eq. assert (isICMP p = true) as Hi by (unfold isICMP; rewrite Ep, Hpr; by destruct (Is6 zero)).
    destruct (c_type _ _ Hk Hi) as [Hs Hr]. by apply Ht.
Qed.

Lemma accepts_icmp6_rules : accepts icmp6_rules k (icmp6Always p).
Proof.
  unfold icmp6_rules.
  replace (icmp6Always p) with (existsb (λ t, eqb true (Is6 (src p)) && ((proto p =? protoICMPv6) && ((t.1 <=? sport p) && (sport p <=? t.2)))) [(icmp6Unreachable, icmp6ParamProb); (icmp6RouterSolicit, icmp6Redirect)]).
  2:{ cbn [existsb fst snd]. unfold icmp6Always. pose proof (c_icmp _ _ Hk) as Hi. unfold isICMP in Hi. destruct (Z.eqb_spec (proto p) protoICMPv6) as [E|E].
      - rewrite orb_true_r in Hi. specialize (Hi eq_refl). rewrite E in Hi. destruct (Is6 (src p)); [|done]. cbn [eqb andb]. by rewrite orb_false_r.
      - by rewrite !andb_false_r. }
  apply (accepts_fmap (λ t : Z * Z, family (Addr6 0 "") ++ [Meta MetaKeyL4PROTO; Cmp CmpOpEq [zb protoICMPv6]] ++ [Payload PayloadBaseTransportHeader 0 1; InRange [zb t.1] [zb t.2]])).
  intros t Ht. apply tests_app; [by apply (tests_family k p Hk (Addr6 0 ""))|]. intros _. apply (tests_icmp (Addr6 0 "")); [done|]. intros _ Hs Hr.
  assert (0 <= t.1 < 256 ∧ 0 <= t.2 < 256) as [H1 H2]
    by (repeat (apply elem_of_cons in Ht as [-> | Ht]; [done|]); by apply elem_of_nil in Ht).
  replace (t.1 <=? sport p) with (be_dec [zb t.1] <=? be_dec [zb (sport p)]) by (unfold be_dec; cbn [foldl]; by rewrite !bz_zb_small).
  replace (sport p <=? t.2) with (be_dec [zb (sport p)] <=? be_dec [zb t.2]) by (unfold be_dec; cbn [foldl]; by rewrite !bz_zb_small).
  by apply tests_range.
Qed.

(** An echo request of a visible address. *)
Definition visible_echo (s : FilterSet) : bool :=
  bool_decide (src p ∈ sVisible s) && (((proto p =? protoICMP) && (sport p =? icmpEchoRequest)) || ((proto p =? protoICMPv6) && (sport p =? icmp6EchoRequest))).

Lemma accepts_visible_rule zero pr echo l : IsValid zero = true → pr = (if Is6 zero then protoICMPv6 else protoICMP) → 0 <= echo < 256 → Forall visible_ok l →
  accepts (visible_rule zero pr echo l) k (bool_decide (src p ∈ l) && ((proto p =? pr) && (sport p =? echo))).
Proof.
  intros Hz Hpr He Hl. unfold visible_rule. set (elems := AsSlice <$> _).
  assert (Is6 zero = Is6 (src p) → bool_decide (AsSlice (src p) ∈ elems) = bool_decide (src p ∈ l)) as Hin.
  { intros E6. apply bool_decide_ext. unfold elems. rewrite list_elem_of_fmap. split.
    - intros (a & Ea & [[_ _] Ha]%list_elem_of_filter). rewrite Forall_forall in Hl. specialize (Hl a Ha). destruct (IsValid a) eqn:Va.
      + destruct (Hl Va) as [Hok _]. by rewrite (AsSlice_inj (src p) a (c_src _ _ Hk) Hok Ea).
      + apply (f_equal length) in Ea. destruct a; [|done|done]. destruct (c_src _ _ Hk) as [Vs _]. destruct (src p); cbn [AsSlice] in Ea; rewrite ?length_be_enc in Ea; done.
    - intros Ha. exists (src p). split; [done|]. apply list_elem_of_filter. split; [|done]. destruct (c_src _ _ Hk) as [Vs _]. split.
      + rewrite !Is4_Is6, E6 by done. apply eqb_reflx.
      + rewrite Forall_forall in Hl. by apply (Hl (src p) Ha). }
  assert (Is6 zero ≠ Is6 (src p) → (proto p =? pr) = false) as Hne.
  { intros E6. apply Z.eqb_neq. intros Ep. assert (isICMP p = true) as Hi by (unfold isICMP; rewrite Ep, Hpr; by destruct (Is6 zero)).
    pose proof (c_icmp _ _ Hk Hi) as Ei. rewrite Ep, Hpr in Ei. destruct (Is6 zero), (Is6 (src p)); done. }
  destruct (decide (Is6 zero = Is6 (src p))) as [E6|E6].
  - rewrite <- Hin by done. destruct (bool_decide_reflect (elems = [])) as [Hnil|Hnil]; [rewrite Hnil, (bool_decide_false (AsSlice (src p) ∈ [])) by apply not_elem_of_nil; apply accepts_nil|].
    apply (accepts_rule (family zero ++ [saddr zero; Lookup elems] ++ [Meta MetaKeyL4PROTO; Cmp CmpOpEq [zb pr]] ++ [Payload PayloadBaseTransportHeader 0 1; Cmp CmpOpEq [zb echo]])).
    replace (bool_decide _ && _) with (eqb (Is6 zero) (Is6 (src p)) && (bool_decide (AsSlice (src p) ∈ elems) && ((proto p =? pr) && (sport p =? echo)))) by (by rewrite E6, eqb_reflx).
    apply tests_app; [by apply tests_family|]. intros _. apply tests_app.
    + destruct (slice_saddr k p Hk zero E6) as (off & len & -> & Es). by apply tests_lookup.
    + intros _. apply (tests_icmp zero); [done|]. intros _ Hs Hr. replace (sport p =? echo) with (bool_decide ([zb (sport p)] = [zb echo])); [by apply tests_payload|].
      apply Bool.eq_iff_eq_true. rewrite bool_decide_eq_true, Z.eqb_eq. split; [|by intros ->]. intros E. injection E as E. apply (f_equal bz) in E. by rewrite !bz_zb_small in E.
  - rewrite Hne by done. rewrite andb_false_r. destruct (bool_decide (elems = [])); [apply accepts_nil|].
    apply (accepts_rule (family zero ++ [saddr zero; Lookup elems; Meta MetaKeyL4PROTO; Cmp CmpOpEq [zb pr]; Payload PayloadBaseTransportHeader 0 1; Cmp CmpOpEq [zb echo]])).
    apply (tests_app _ _ _ false true); [|done]. replace false with (eqb (Is6 zero) (Is6 (src p))) by (by apply eqb_false_iff). by apply tests_family.
Qed.

Lemma accepts_addVisible s : Forall visible_ok (sVisible s) → accepts (addVisible (sVisible s)) k (visible_echo s).
Proof. intros Hs. unfold visible_echo. rewrite andb_orb_distrib_r. apply accepts_app; by apply accepts_visible_rule. Qed.

Lemma accepts_local a : addr_ok a → accepts [family a ++ [daddr a; Cmp CmpOpEq (AsSlice a); accept]] k (bool_decide (dst p = a)).
Proof.
  intros Ha. apply (accepts_rule (family a ++ [daddr a; Cmp CmpOpEq (AsSlice a)])).
  replace (bool_decide (dst p = a)) with (eqb (Is6 a) (Is6 (src p)) && bool_decide (a = dst p)).
  - apply tests_app; [by apply tests_family|]. intros E%eqb_prop. by apply tests_daddr.
  - rewrite (bool_decide_ext (a = dst p) (dst p = a)) by done. case_bool_decide as E; [|apply andb_false_r]. by rewrite <- E, (c_same _ _ Hk), eqb_reflx.
Qed.

(** A chain whose rules before the last accept, and whose last one drops. *)
Lemma chain_passes name hk policy rs c : accepts rs k c → passes {| cName := name; cHook := hk; cPolicy := policy; cRules := rs ++ [count_and_drop] |} k = c.
Proof.
  intros Hr. unfold passes, run_chain. cbn [cRules cPolicy]. rewrite Hr. destruct c; [done|]. cbn [count_and_drop run_rules run_rule].
  by rewrite step_counter, step_verdict.
Qed.

Lemma accepts_else key iface : meta_value key k = iface → accepts [[Meta key; Cmp CmpOpNeq iface; accept]] k false.
Proof.
  intros E. replace false with (negb (bool_decide (meta_value key k = iface))) by (by rewrite bool_decide_true). apply (accepts_rule [_; _]), tests_meta_neq.
Qed.

(** What the chain of the filter lets through of what crosses the tunnel. *)
Lemma filter_chain_passes s : set_ok s → (if forwarding s then oif k else iif k) = ifname (Interface s) →
  passes (filter_chain s) k =
    (forwarding s && bool_decide (dst p ∈ locals s)) || tracked k || icmp6Always p || visible_echo s || existsb (ruleAllows p) (sRules s).
Proof.
  intros Hs Hi. unfold filter_chain. rewrite !app_assoc. apply chain_passes. repeat apply accepts_app.
  - change (?b && bool_decide (dst p ∈ locals s)) with (false || (b && bool_decide (dst p ∈ locals s))). apply accepts_app.
    + apply accepts_else. by destruct (forwarding s).
    + destruct (forwarding s); [|apply accepts_nil]. cbn [andb].
      replace (bool_decide (dst p ∈ locals s)) with (existsb (λ a, bool_decide (dst p = a)) (locals s)).
      * pose proof (s_locals _ Hs) as Hl. induction (locals s) as [|a l IH]; [apply accepts_nil|]. apply Forall_cons in Hl as [Ha Hl]. cbn [existsb].
        rewrite fmap_cons. apply (accepts_app _ [_]); [by apply accepts_local|by apply IH].
      * apply Bool.eq_iff_eq_true. rewrite existsb_true_iff, bool_decide_eq_true. split; [intros (a & Ha & ->%bool_decide_eq_true); done|]. intros Hd. exists (dst p). by rewrite bool_decide_true.
  - apply accepts_established.
  - apply accepts_icmp6_rules.
  - apply accepts_addVisible, Hs.
  - apply accepts_filter_rules, Hs.
Qed.

(** What a router's chain lets through of what comes out of the tunnel. *)
Lemma router_chain_passes s c : set_ok s → iif k = ifname (Interface s) → head (buildRouterChains s).1 = Some c →
  passes c k = tracked k || forwardAllows (compile_set s) p.
Proof.
  intros Hs Hi Hc. unfold buildRouterChains in Hc. cbn [fst head] in Hc. apply (inj Some) in Hc as <-.
  apply (chain_passes _ _ _ (([_] ++ [_]) ++ _)). apply accepts_app; [apply (accepts_app _ [_] _ k false)|].
  - replace false with (negb (bool_decide (meta_value MetaKeyIIFNAME k = ifname (Interface s))) && negb (bool_decide (meta_value MetaKeyOIFNAME k = ifname (Interface s))))
      by (cbn [meta_value]; by rewrite Hi, bool_decide_true).
    apply (accepts_rule ([_; _] ++ [_; _])). apply tests_app; [apply tests_meta_neq|intros _; apply tests_meta_neq].
  - apply accepts_established.
  - unfold forwardAllows. cbn [compile_set forward].
    apply accepts_concat. intros r Hr. pose proof (proj1 (Forall_forall forward_ok (sForward s)) (s_forward _ Hs) r Hr) as Hok.
    pose proof (accepts_forward_rules (ifname (Interface s)) r Hok Hi) as Ha. by destruct (Contains (wSrc r) (src p)), (Contains (wDst r) (dst p)).
Qed.

(** The packets that leave with the router's address: those from the overlay to
    a prefix listed, by another interface. *)
Definition rewritten (s : FilterSet) : bool :=
  negb (bool_decide (oif k = ifname (Interface s))) &&
  existsb (λ d, Contains d (dst p) &&
                (if Is6 (paddr d) then Contains (MasqueradeFrom6 s) (src p) else negb (PIsValid (MasqueradeFrom s)) || Is6 (paddr (MasqueradeFrom s)) || Contains (MasqueradeFrom s) (src p)))
    (Masquerade s).

Lemma masquerade_rule_decides s d from4 from6 : prefix_wf d → PIsValid d = true → prefix_wf from4 → prefix_wf from6 → (PIsValid from6 = true → Is6 (paddr from6) = true) →
  decides Masquerading (masquerade_rule (ifname (Interface s)) from4 from6 d) k
    (negb (bool_decide (oif k = ifname (Interface s))) &&
     (Contains d (dst p) && (if Is6 (paddr d) then Contains from6 (src p) else negb (PIsValid from4) || Is6 (paddr from4) || Contains from4 (src p)))).
Proof.
  intros Wd Vd W4 W6 H6. unfold masquerade_rule. set (out := negb (bool_decide (oif k = ifname (Interface s)))). set (from := if Is6 (paddr d) then from6 else from4).
  destruct (Is6 (paddr d) && negb (PIsValid from6)) eqn:E.
  { apply andb_true_iff in E as [E6 E%negb_true_iff]. rewrite E6. unfold Contains at 2. rewrite E. cbn [negb orb]. rewrite !andb_false_r. apply accepts_nil. }
  set (given := PIsValid from && eqb (Is6 (paddr from)) (Is6 (paddr d))).
  assert (tests (if given then [saddr (paddr from)] ++ prefixMatch from else []) k (negb given || Contains from (src p)) ∨ Is6 (paddr d) ≠ Is6 (src p)) as Hs.
  { destruct (decide (Is6 (paddr d) = Is6 (src p))) as [E6|]; [left|by right]. subst given. destruct (PIsValid from) eqn:Vf; [|apply tests_nil].
    destruct (eqb (Is6 (paddr from)) (Is6 (paddr d))) eqn:E7; [|apply tests_nil]. apply eqb_prop in E7. cbn [andb negb orb].
    apply tests_saddr; [done|subst from; by destruct (Is6 (paddr d))|done|congruence]. }
  assert (tests (family (paddr d) ++ (if given then [saddr (paddr from)] ++ prefixMatch from else []) ++ (if 0 <? pbits d then [daddr (paddr d)] ++ prefixMatch d else [])) k
    (eqb (Is6 (paddr d)) (Is6 (src p)) && ((negb given || Contains from (src p)) && Contains d (dst p)))) as Ht.
  { apply tests_app; [by apply tests_family|]. intros E6%eqb_prop. destruct Hs as [Hs|]; [|done]. apply tests_app; [done|]. intros _. by apply tests_destination. }
  replace (out && _) with (out && (eqb (Is6 (paddr d)) (Is6 (src p)) && ((negb given || Contains from (src p)) && Contains d (dst p)))).
  - rewrite !app_assoc. apply masquerades_rule. rewrite <- !app_assoc. apply (tests_app [_; _]); [apply tests_meta_neq|]. by intros _.
  - f_equal. destruct (Contains d (dst p)) eqn:Ed; [|by rewrite !andb_false_r]. rewrite (Contains_family _ _ Ed), (c_same _ _ Hk), eqb_reflx. cbn [andb]. rewrite andb_true_r.
    apply Contains_family in Ed. rewrite (c_same _ _ Hk) in Ed. subst given from. rewrite <- Ed. destruct (Is6 (paddr d)); cbn [andb] in *.
    + apply negb_false_iff in E. rewrite E, H6 by done. done.
    + by destruct (PIsValid from4), (Is6 (paddr from4)).
Qed.

Lemma router_masquerades s : set_ok s → existsb (λ c, masquerades c k) (tail (buildRouterChains s).1) = rewritten s.
Proof.
  intros Hs. unfold buildRouterChains, rewritten. cbn [fst tail]. case_bool_decide as Hm; [rewrite Hm; by rewrite andb_false_r|]. cbn [existsb]. rewrite orb_false_r.
  rewrite <- existsb_andb_l. unfold masquerades, run_chain. cbn [cRules cPolicy].
  pose proof (accepts_concat Masquerading (masquerade_rule (ifname (Interface s)) (MasqueradeFrom s) (MasqueradeFrom6 s)) _ (Masquerade s) k
    (λ d Hd, masquerade_rule_decides s d _ _ (proj1 (proj1 (Forall_forall _ _) (s_masquerade _ Hs) d Hd)) (proj2 (proj1 (Forall_forall _ _) (s_masquerade _ Hs) d Hd))
       (proj1 (s_from _ Hs)) (proj2 (s_from _ Hs)) (s_from6 _ Hs)) []) as Hd.
  rewrite app_nil_r in Hd. rewrite Hd. by destruct (existsb _ _).
Qed.

End Rules.

(** What only the userspace filter lets through: an ICMP error of a visible
    address that connection tracking does not know as related. *)
Definition visible_error (s : FilterSet) (p : packet) : bool :=
  bool_decide (src p ∈ sVisible s) && (proto p =? protoICMP) && ((sport p =? icmpUnreachable) || (sport p =? icmpTimeExceed) || (sport p =? icmpParamProb)).

(** Whether the packet is the filter's chain's or the router's. *)
Definition for_router (s : FilterSet) (p : packet) : bool :=
  negb (forwarding s) && IsValid (sLocal s) && negb (isLocal (compile_set s) (dst p)).

Lemma isLocal_locals s p : addr_ok (dst p) → isLocal (compile_set s) (dst p) = bool_decide (dst p ∈ locals s).
Proof.
  intros (Vd & _). unfold isLocal, locals. cbn [compile_set local local6]. apply Bool.eq_iff_eq_true.
  rewrite orb_true_iff, andb_true_iff, !bool_decide_eq_true, list_elem_of_filter, !elem_of_cons, elem_of_nil. split.
  - intros [E|[V E]]; rewrite E in *; (split; [done|]); tauto.
  - intros [_ [E|[E|[]]]]; [by left|right]. by rewrite <- E.
Qed.

Lemma hook_forwarding s : bool_decide (Hook s = HookForward) = forwarding s.
Proof. done. Qed.

Lemma hook_input s : bool_decide (Hook s = HookInput) = negb (forwarding s).
Proof. unfold forwarding. by destruct (Hook s). Qed.

Lemma visible_icmp_parts s p :
  bool_decide (src p ∈ (list_to_set (sVisible s) : gset addr)) && visible_icmp p = visible_echo p s || visible_error s p.
Proof.
  unfold visible_echo, visible_error, visible_icmp. rewrite (bool_decide_ext (src p ∈ (list_to_set (sVisible s) : gset addr)) (src p ∈ sVisible s)) by set_solver.
  destruct (bool_decide _); cbn [andb]; [|done].
  by destruct (proto p =? protoICMP), (sport p =? icmpEchoRequest), (sport p =? icmpUnreachable), (sport p =? icmpTimeExceed), (sport p =? icmpParamProb), ((proto p =? protoICMPv6) && (sport p =? icmp6EchoRequest)).
Qed.

(** The set has router chains. *)
Definition routing (s : FilterSet) : bool := negb (forwarding s) && (negb (bool_decide (sForward s = [])) || negb (bool_decide (Masquerade s = []))).

(** What a table holds, hook by hook. *)
Lemma router_chains_at s h :
  at_hook h (buildRouterChains s).1 =
  match h with ChainHookInput => [] | ChainHookForward => take 1 (buildRouterChains s).1 | ChainHookPostrouting => tail (buildRouterChains s).1 end.
Proof. unfold buildRouterChains, at_hook. cbn [fst]. by destruct h, (bool_decide (Masquerade s = [])). Qed.

Lemma table_at s h : routerOnly s = false →
  at_hook h (buildRuleset s).1.1 =
  (if bool_decide (h = cHook (filter_chain s)) then [filter_chain s] else []) ++ (if routing s then at_hook h (buildRouterChains s).1 else []).
Proof.
  intros Hr. assert (∀ l, at_hook h (filter_chain s :: l) = (if bool_decide (h = cHook (filter_chain s)) then [filter_chain s] else []) ++ at_hook h l) as Hcons.
  { intros l. unfold at_hook. rewrite filter_cons. case_decide as E; [by rewrite bool_decide_true by done|]. by rewrite bool_decide_false by congruence. }
  unfold buildRuleset. rewrite Hr. fold (routing s). destruct (routing s); [destruct (buildRouterChains s) as [t n]|]; cbn [fst]; by rewrite Hcons.
Qed.

Lemma routing_input s : routing s = true → forwarding s = false.
Proof. unfold routing. by destruct (forwarding s). Qed.

(** Neither in nor out over the tunnel. *)
Lemma router_chain_ignores s k : iif k ≠ ifname (Interface s) → oif k ≠ ifname (Interface s) → forallb (λ c, passes c k) (take 1 (buildRouterChains s).1) = true.
Proof.
  intros Hi Ho. unfold buildRouterChains. cbn [fst take forallb]. unfold passes, run_chain. cbn [cRules app run_rules run_rule].
  rewrite step_meta, step_cmp_neq. cbn [meta_value]. rewrite bool_decide_false by done. cbn [negb go_if]. rewrite step_meta, step_cmp_neq. cbn [meta_value].
  rewrite bool_decide_false by done. cbn [negb go_if]. unfold accept. by rewrite step_verdict.
Qed.

Lemma filter_chain_ignores s k : (if forwarding s then oif k else iif k) ≠ ifname (Interface s) → passes (filter_chain s) k = true.
Proof.
  intros Hi. unfold passes, run_chain. cbn [filter_chain cRules app run_rules run_rule]. rewrite step_meta, step_cmp_neq.
  replace (meta_value _ k) with (if forwarding s then oif k else iif k) by (by destruct (forwarding s)). rewrite bool_decide_false by done. cbn [negb go_if].
  unfold accept. by rewrite step_verdict.
Qed.

(** The verdict of the userspace filter on a packet whose connection the kernel
    tracks as the calls say. *)
Section Verdict.
Context (s : FilterSet) (k : skb) (p : packet) (b : list byte) (t0 now : Z) (h : list call).
Context (Hs : set_ok s) (Hset : set_of h = Some (compile_set s)) (Hc : clock now h) (Hp : parsed b = Some p) (Hk : carries k p) (Ht : tracked k = answers now p h).
Abbreviation verdict := (Inbound now b (filter_of t0 h)).2.

Lemma own_verdict : (if forwarding s then oif k else iif k) = ifname (Interface s) → for_router s p = false →
  verdict = passes (filter_chain s) k || visible_error s p.
Proof.
  intros Hi Hr. rewrite (Inbound_verdict t0 now b h Hc). unfold spec_allow. rewrite Hp, Hset, <- Ht. unfold opens.
  cbn [compile_set hook local visible rules]. rewrite hook_forwarding, hook_input. fold (for_router s p). rewrite Hr.
  rewrite (filter_chain_passes k p Hk s Hs Hi), isLocal_locals, visible_icmp_parts by apply Hk.
  destruct (forwarding s && _), (tracked k), (icmp6Always p), (visible_echo p s), (visible_error s p), (existsb _ _); reflexivity.
Qed.

Lemma routed_verdict : iif k = ifname (Interface s) → for_router s p = true → verdict = forallb (λ c, passes c k) (take 1 (buildRouterChains s).1).
Proof.
  intros Hi Hr. rewrite (Inbound_verdict t0 now b h Hc). unfold spec_allow. rewrite Hp, Hset, <- Ht. unfold opens.
  cbn [compile_set hook local visible rules]. rewrite hook_forwarding, hook_input. fold (for_router s p). rewrite Hr.
  pose proof (λ c, router_chain_passes k p Hk s c Hs Hi) as Hpass. unfold buildRouterChains in *. cbn [fst take head forallb] in *. rewrite (Hpass _ eq_refl), andb_true_r.
  unfold for_router in Hr. apply andb_true_iff in Hr as [[Hr _]%andb_true_iff _]. apply negb_true_iff in Hr. by rewrite Hr.
Qed.
End Verdict.

(** C22: the kernel's filter and the userspace filter decide alike.  A machine that
    runs expressions as documented is given the table that [buildRuleset] makes
    of a filter set, and a packet the tunnel delivers, whose connection it
    tracks as the calls of the userspace filter say.  At the hook of the filter
    (input on a device, forward on the hub) the table lets the packet pass
    exactly if the userspace filter does, ICMP errors of visible addresses apart
    that answer nothing.  If the set has forward rules or prefixes to
    masquerade, the table also lets a packet for somebody else pass the forward
    hook exactly if the userspace filter passes it; if it has neither, the table
    has no chain there, and what the userspace filter drops is left to the host.
    What crosses other interfaces only passes.  What leaves by another interface
    has its source rewritten exactly if it comes from the overlay and goes to a
    prefix listed.  The table made beside a userspace tunnel has no chain at the
    input hook and the same ones for forwarding. *)
Theorem kernel_filters_alike (s : FilterSet) (k : skb) (p : packet) (b : list byte) (t0 now : Z) (h : list call) :
  set_ok s → routerOnly s = false → set_of h = Some (compile_set s) → clock now h → parsed b = Some p → carries k p → tracked k = answers now p h →
  let t := (buildRuleset s).1.1 in
  let verdict := (Inbound now b (filter_of t0 h)).2 in
  let iface := ifname (Interface s) in
  let hook := if forwarding s then ChainHookForward else ChainHookInput in
  let crossed := if forwarding s then oif k else iif k in
  (crossed ≠ iface → table_passes hook t k = true) ∧
  (crossed = iface → for_router s p = false → verdict = table_passes hook t k || visible_error s p) ∧
  (routing s = true → iif k = iface → for_router s p = true → verdict = table_passes ChainHookForward t k) ∧
  (routing s = true → iif k ≠ iface → oif k ≠ iface → table_passes ChainHookForward t k = true) ∧
  (forwarding s = false → routing s = false → at_hook ChainHookForward t = []) ∧
  table_masquerades t k = negb (forwarding s) && rewritten k p s ∧
  (∀ s', routerSet s = Some s' → let t' := (buildRuleset s').1.1 in
     at_hook ChainHookInput t' = [] ∧
     (iif k = iface → for_router s p = true → verdict = table_passes ChainHookForward t' k) ∧
     table_masquerades t' k = rewritten k p s).
Proof.
  intros Hs Ho Hset Hc Hp Hk Ht t verdict iface hook crossed. subst t verdict iface hook crossed. unfold table_passes, table_masquerades.
  assert ((if forwarding s then ChainHookForward else ChainHookInput) = cHook (filter_chain s)) as Eh by done.
  assert (forallb (λ c, passes c k) (at_hook (cHook (filter_chain s)) (buildRuleset s).1.1) = passes (filter_chain s) k) as Eown.
  { rewrite table_at, bool_decide_true by done. destruct (routing s) eqn:Er; [|cbn; by rewrite andb_true_r].
    rewrite router_chains_at. cbn [filter_chain cHook]. rewrite (routing_input _ Er). cbn. by rewrite andb_true_r. }
  assert (routing s = true → at_hook ChainHookForward (buildRuleset s).1.1 = take 1 (buildRouterChains s).1) as Efwd.
  { intros Er. rewrite table_at, Er, router_chains_at by done. cbn [filter_chain cHook]. by rewrite (routing_input _ Er). }
  rewrite Eh, Eown. split_and!.
  - apply filter_chain_ignores.
  - by apply own_verdict.
  - intros Er. rewrite (Efwd Er). by apply routed_verdict.
  - intros Er. rewrite (Efwd Er). by apply router_chain_ignores.
  - intros Ef Er. rewrite table_at, Er by done. cbn [filter_chain cHook]. by rewrite Ef.
  - rewrite table_at by done. cbn [filter_chain cHook]. rewrite bool_decide_false by (by destruct (forwarding s)). cbn [app].
    unfold routing. destruct (forwarding s); [done|]. cbn [negb andb]. rewrite <- (router_masquerades k p Hk s Hs).
    destruct (_ || _) eqn:E; [by rewrite router_chains_at|]. unfold buildRouterChains. cbn [fst tail].
    apply orb_false_iff in E as [_ E%negb_false_iff]. by rewrite E.
  - intros s' Hr. unfold routerSet in Hr. destruct (_ && _); [done|]. injection Hr as <-. unfold buildRuleset. cbn [routerOnly].
    rewrite (surjective_pairing (buildRouterChains _)). cbn [fst]. rewrite !router_chains_at. split; [done|].
    split; [exact (routed_verdict s k p b t0 now h Hs Hset Hc Hp Hk Ht)|exact (router_masquerades k p Hk s Hs)].
Qed.
End Kernel.

(** ** A router of the overlay 100.64.0.0/10 *)

Definition demo_overlay : prefix := Prefix (Addr4 1681915904) 10.
Definition demo_peer : addr := Addr4 1681915906.
Definition demo_self : addr := Addr4 1681915905.
Definition demo_lan : prefix := Prefix (Addr4 167772160) 8.

Definition demo_set : FilterSet :=
  {| Interface := "thawr0"; Hook := HookInput; sLocal := demo_self; sLocal6 := AddrNone; sVisible := [demo_peer];
     sRules := [{| fSrc := Prefix demo_peer 32; fDst := AddrNone; fProto := ProtoUDP; fLo := 53; fHi := 80 |}];
     sForward := [{| wSrc := Prefix demo_peer 32; wDst := demo_lan; wProto := ProtoAny; wLo := 1; wHi := 65535 |}];
     Masquerade := [demo_lan]; MasqueradeFrom := demo_overlay; MasqueradeFrom6 := NoPrefix; routerOnly := false |}.

Definition demo_packet (d : Z) (t : Filter.transport) : list byte := v4_bytes (replicate 5 Byte.x00) 0 Byte.x40 [Byte.x00; Byte.x00] 1681915906 d [] t.
Definition demo_skb (st : Z) (pr : Z) (b : list byte) : skb :=
  {| iif := ifname "thawr0"; oif := ifname "eth0"; nfproto := NFPROTO_IPV4; l4proto := pr; network := b; Nft.transport := drop 20 b; ctstate := st |}.

Definition demo_dns : Filter.transport := UDP 4000 53 (replicate 4 Byte.x00).
Definition demo_error : Filter.transport := ICMP false icmpUnreachable [Byte.x00; Byte.x00; Byte.x00] 0 [Byte.x00; Byte.x00].
Definition to_self : list byte := demo_packet 1681915905 demo_dns.
Definition to_lan : list byte := demo_packet 167772161 demo_dns.

Lemma demo_set_ok : set_ok demo_set.
Proof.
  assert (addr_ok demo_self ∧ addr_ok demo_peer) as [Hs Hp] by done.
  split; repeat (apply Forall_cons; split || apply Forall_nil); try done.
  - split_and!; [split_and!; [done|done|right; done]|done|by right; left|done|done].
  - split_and!; [split_and!; [done|done|right; done]|split_and!; [done|done|right; done]|by right; right; right; left|done|done].
  - split_and!; [split_and!; [done|done|right; done]|done].
  - split; split_and!; try done; [right; done|by left].
Qed.

Ltac carried := split; first [done | by vm_compute | (intros _; split; [by vm_compute | done]) | by apply (bool_decide_unpack _); vm_compute].

Lemma demo_carries_self : carries (demo_skb 8 17 to_self) (with_transport demo_peer demo_self demo_dns).
Proof. carried. Qed.

Lemma demo_carries_lan : carries (demo_skb 8 17 to_lan) (with_transport demo_peer (Addr4 167772161) demo_dns).
Proof. carried. Qed.

(** A query is answered, a connection to the network behind is forwarded with
    the router's address, and a connection to another port is not. *)
Example demo_run :
  passes (filter_chain demo_set) (demo_skb 8 17 to_self) = true ∧
  (passes <$> head (buildRouterChains demo_set).1) ≫= (λ f, Some (f (demo_skb 8 17 to_lan))) = Some true ∧
  existsb (λ c, masquerades c (demo_skb 8 17 to_lan)) (tail (buildRouterChains demo_set).1) = true ∧
  passes (filter_chain demo_set) (demo_skb 8 17 (demo_packet 1681915905 (UDP 4000 443 (replicate 4 Byte.x00)))) = false.
Proof. split_and!; vm_compute; reflexivity. Qed.

(** Without routes to serve the table says nothing of packets for others, which
    the userspace filter drops. *)
Example forwarding_unfiltered :
  let s := {| Interface := "thawr0"; Hook := HookInput; sLocal := demo_self; sLocal6 := AddrNone; sVisible := [demo_peer]; sRules := []; sForward := [];
              Masquerade := []; MasqueradeFrom := demo_overlay; MasqueradeFrom6 := NoPrefix; routerOnly := false |} in
  table_passes ChainHookForward (buildRuleset s).1.1 (demo_skb 8 17 to_lan) = true ∧ (Inbound 0 to_lan (filter_of 0 [CSet s])).2 = false.
Proof. split; vm_compute; reflexivity. Qed.

(** An ICMP error that answers nothing passes only in userspace. *)
Example errors_differ :
  let b := demo_packet 1681915905 demo_error in
  passes (filter_chain demo_set) (demo_skb 8 1 b) = false ∧ (Inbound 0 b (filter_of 0 [CSet demo_set])).2 = true.
Proof. split; vm_compute; reflexivity. Qed.

Lemma kernel_filters_alike_witness :
  let h := [CSet demo_set] in let t := (buildRuleset demo_set).1.1 in
  (Inbound 5 to_self (filter_of 0 h)).2 = table_passes ChainHookInput t (demo_skb 8 17 to_self) ∧
  (Inbound 5 to_lan (filter_of 0 h)).2 = table_passes ChainHookForward t (demo_skb 8 17 to_lan) ∧
  table_masquerades t (demo_skb 8 17 to_lan) = true.
Proof.
  intros h t. split.
  - destruct (kernel_filters_alike demo_set (demo_skb 8 17 to_self) (with_transport demo_peer demo_self demo_dns) to_self 0 5 h demo_set_ok eq_refl eq_refl I ltac:(vm_compute; reflexivity) demo_carries_self ltac:(vm_compute; reflexivity)) as (_ & H & _).
    rewrite H; [by rewrite orb_false_r|reflexivity|vm_compute; reflexivity].
  - destruct (kernel_filters_alike demo_set (demo_skb 8 17 to_lan) (with_transport demo_peer (Addr4 167772161) demo_dns) to_lan 0 5 h demo_set_ok eq_refl eq_refl I ltac:(vm_compute; reflexivity) demo_carries_lan ltac:(vm_compute; reflexivity)) as (_ & _ & H & _ & _ & Hm & _).
    split; [apply H; [reflexivity|reflexivity|vm_compute; reflexivity]|]. etrans; [exact Hm|vm_compute; reflexivity].
Defined.
