(* ===== verification/Sessions.v ===== *)
(** Browser sessions of the admin UI: [internal/api/sessions.go].

    The table is a map behind a mutex; each method is one step.  [Create] reads
    the clock twice, once outside the lock.  The random bytes are inputs. *)

From S2P Require Import Prelude GoStrings Base64.

Definition SessionTTL : Z := 12 * 3600 * second.

Record Session := { seToken : string; seUserID : string; seCSRF : string; seExpires : Z }.

Notation Sessions := (gmap string Session).
Definition NewSessions : Sessions := ∅.

Definition randomToken (rnd : list byte) : string := raw_url_base64 rnd.

(** [Expires.Before(now)]. *)
Definition expired (now : Z) (s : Session) : bool := seExpires s <? now.

Definition new_session (userID : string) (rt rc : list byte) (now : Z) : Session :=
  {| seToken := randomToken rt; seUserID := userID; seCSRF := randomToken rc; seExpires := now + SessionTTL |}.

(** [Create]: [now] dates the session, [swept] is read under the lock. *)
Definition Create (userID : string) (rt rc : list byte) (now swept : Z) (m : Sessions) : Sessions * Session :=
  let sess := new_session userID rt rc now in
  (<[seToken sess := sess]> (filter (λ kv, expired swept kv.2 = false) m), sess).

Definition Get (now : Z) (token : string) (m : Sessions) : Sessions * option Session :=
  match m !! token with
  | Some sess => if expired now sess then (delete token m, None) else (m, Some sess)
  | None => (delete token m, None)
  end.

Definition Delete (token : string) (m : Sessions) : Sessions := delete token m.

(** ** What the table is for

    A token stands for the session last created with it, until it is deleted or
    its twelve hours are over. *)

Inductive call :=
  | CCreate (userID : string) (rt rc : list byte) (now swept : Z)
  | CGet (now : Z) (token : string)
  | CDelete (token : string).

Definition do_call (c : call) (m : Sessions) : Sessions :=
  match c with
  | CCreate u rt rc now swept => (Create u rt rc now swept m).1
  | CGet now t => (Get now t m).1
  | CDelete t => Delete t m
  end.

(** The newest call comes first. *)
Fixpoint table_of (h : list call) : Sessions := match h with [] => NewSessions | c :: h => do_call c (table_of h) end.

Definition call_time (c : call) : option Z := match c with CCreate _ _ _ _ t | CGet t _ => Some t | CDelete _ => None end.

(** The clock does not go back. *)
Fixpoint clock (now : Z) (h : list call) : Prop :=
  match h with [] => True | c :: h => match call_time c with Some t => t <= now ∧ clock t h | None => clock now h end end.

Fixpoint last_created (token : string) (h : list call) : option Session :=
  match h with
  | [] => None
  | CCreate u rt rc now _ :: h => if bool_decide (randomToken rt = token) then Some (new_session u rt rc now) else last_created token h
  | CDelete t :: h => if bool_decide (t = token) then None else last_created token h
  | CGet _ _ :: h => last_created token h
  end.

Definition spec_get (now : Z) (token : string) (h : list call) : option Session :=
  match last_created token h with Some s => if expired now s then None else Some s | None => None end.

(** The table holds what was last created but for sessions that have run out. *)
Definition holds (now : Z) (row spec : option Session) : Prop :=
  row = spec ∨ row = None ∧ ∃ s, spec = Some s ∧ expired now s = true.

Lemma expired_later now t s : t <= now → expired t s = true → expired now s = true.
Proof. unfold expired. rewrite !Z.ltb_lt. lia. Qed.

Lemma holds_later now t row spec : t <= now → holds t row spec → holds now row spec.
Proof. intros Ht [->|(-> & s & -> & H)]; [by left|right]. split; [done|]. exists s. split; [done|by eapply expired_later]. Qed.

Lemma holds_get now row spec : holds now row spec →
  match row with Some s => if expired now s then None else Some s | None => None end
  = match spec with Some s => if expired now s then None else Some s | None => None end.
Proof. by intros [->|(-> & s & -> & ->)]. Qed.

Lemma table_holds h : ∀ now, clock now h → ∀ token, holds now (table_of h !! token) (last_created token h).
Proof.
  induction h as [|c h IH]; intros now Hc token; [by left|]. destruct c as [u rt rc at_ t|t k|k]; cbn [clock call_time] in Hc; cbn [table_of last_created do_call Create fst seToken new_session].
  - destruct Hc as [Ht Hc]. eapply holds_later; [exact Ht|]. case_bool_decide as Hk.
    { subst token. left. apply lookup_insert_eq. }
    rewrite lookup_insert_ne by done. destruct (IH _ Hc token) as [Hrow|(Hrow & s & Hs & He)].
    + destruct (table_of h !! token) as [s|] eqn:E.
      * destruct (expired t s) eqn:Ex.
        -- right. split; [|by exists s]. apply map_lookup_filter_None_2. right. intros s' Hs'. cbn. rewrite Hs' in E. injection E as ->. by rewrite Ex.
        -- left. rewrite <- Hrow. apply map_lookup_filter_Some_2; done.
      * left. rewrite <- Hrow. apply map_lookup_filter_None_2. by left.
    + right. split; [|by exists s]. apply map_lookup_filter_None_2. by left.
  - destruct Hc as [Ht Hc]. eapply holds_later; [exact Ht|]. specialize (IH _ Hc). unfold Get at 1.
    destruct (table_of h !! k) as [s|] eqn:E; [destruct (expired t s) eqn:Ex|]; cbn.
    + destruct (decide (k = token)) as [->|]; [|by rewrite lookup_delete_ne].
      rewrite lookup_delete_eq. destruct (IH token) as [Hrow|(Hrow & _)]; [|by rewrite Hrow in E].
      right. split; [done|]. exists s. by rewrite <- Hrow.
    + done.
    + destruct (decide (k = token)) as [->|]; [|by rewrite lookup_delete_ne]. rewrite lookup_delete_eq, <- E. apply IH.
  - unfold Delete; case_bool_decide as Hk; [subst; rewrite lookup_delete_eq; by left|]. rewrite lookup_delete_ne by done. by apply IH.
Qed.

Lemma Get_spec h now token : clock now h → (Get now token (table_of h)).2 = spec_get now token h.
Proof.
  intros Hc. unfold spec_get. rewrite <- (holds_get now _ _ (table_holds h now Hc token)). unfold Get.
  destruct (table_of h !! token) as [s|]; [|done]. by destruct (expired now s).
Qed.

Lemma Get_some now token m sess : (Get now token m).2 = Some sess → m !! token = Some sess ∧ expired now sess = false.
Proof. unfold Get. destruct (m !! token) as [s|]; [|done]. destruct (expired now s) eqn:E; [done|]. by intros [= ->]. Qed.
