(* ===== verification/Dns.v ===== *)
(** The resolver of the zone: [internal/dns/server.go] and [forward.go].

    The codec of messages is the package [dnsmessage], of which the parser's
    steps, the check of names and the packing are parameters.  What upstreams
    send is an input.  Sockets and goroutines are left out; each query is
    handled on its own. *)

From Stdlib Require Import Strings.Ascii.
From S2P Require Import Prelude GoStrings NetIP.

Definition Zone : string := "thawr".
Definition TTL : Z := 30.          (** seconds *)
Definition maxUDP : Z := 512.
Definition maxMessage : Z := 65535.

(** ** What a server is asked to know *)

(** [Source]: [S] is what it keeps between lookups. *)
Class Source (S : Type) := {
  Lookup : addr → string → S → S * option (list addr);
  Reverse : addr → addr → S → S * option string;
}.

(** ** Messages *)

Definition TypeA : Z := 1.
Definition TypeSOA : Z := 6.
Definition TypePTR : Z := 12.
Definition TypeAAAA : Z := 28.
Definition TypeOPT : Z := 41.
Definition TypeALL : Z := 255.
Definition ClassINET : Z := 1.
Definition ClassANY : Z := 255.

Inductive RCode := RCodeSuccess | RCodeFormatError | RCodeServerFailure | RCodeNameError | RCodeNotImplemented | RCodeRefused.

Record Header := {
  hID : Z; hResponse : bool; hOpCode : Z; hAuthoritative : bool; hTruncated : bool; hRecursionDesired : bool; hRecursionAvailable : bool; hRCode : RCode;
}.
(** A name is its text, with the final dot. *)
Record Question := { qName : string; qType : Z; qClass : Z }.
Inductive Body :=
  | AResource (a : list byte) | AAAAResource (a : list byte) | PTRResource (name : string)
  | SOAResource (ns mbox : string) (serial refresh retry expire minttl : Z).
Record Resource := { rName : string; rType : Z; rClass : Z; rTTL : Z; rBody : Body }.
(** [mOPT] is the class of an OPT record, the buffer size. *)
Record Message := { mHeader : Header; mQuestion : option Question; mAnswers : list Resource; mAuthorities : list Resource; mOPT : option Z }.

(** [query]. *)
Record query := { header : Header; question : Question; edns : bool; udpSize : Z }.
Definition NoHeader : Header :=
  {| hID := 0; hResponse := false; hOpCode := 0; hAuthoritative := false; hTruncated := false; hRecursionDesired := false;
     hRecursionAvailable := false; hRCode := RCodeSuccess |}.
Definition NoQuestion : Question := {| qName := ""; qType := 0; qClass := 0 |}.
Definition NoQuery : query := {| header := NoHeader; question := NoQuestion; edns := false; udpSize := 0 |}.

(** ** Options *)

Record Options := { oZone : string; oUpstreams : list addrport; oAllow : prefix; oReverse : prefix; oReverse6 : prefix }.

Definition withDefaults (o : Options) : Options :=
  {| oZone := if bool_decide (oZone o = "") then Zone else oZone o; oUpstreams := oUpstreams o; oAllow := oAllow o;
     oReverse := if PIsValid (oReverse o) then oReverse o else oAllow o; oReverse6 := oReverse6 o |}.

Record Server := { opts : Options; zone : string }.

(** [strings.Trim(s, ".")]. *)
Fixpoint drop_dots (l : bytes) : bytes := match l with c :: l' => if decide (c = "."%char) then drop_dots l' else l | [] => [] end.
Definition trim_dots (l : bytes) : bytes := reverse (drop_dots (reverse (drop_dots l))).

Definition NewServer (o : Options) : Server :=
  let o := withDefaults o in {| opts := o; zone := of_chars (to_lower (trim_dots (chars (oZone o)))) |}.

(** ** Framing over TCP *)

(** [readTCP] of what the stream still holds. *)
Definition readTCP (r : list byte) : option (list byte * list byte) :=
  if (length r <? 2)%nat then None
  else
    let n := Z.to_nat (be_dec (take 2 r)) in
    if (n =? 0)%nat then None
    else if (length (drop 2 r) <? n)%nat then None
    else Some (take n (drop 2 r), drop n (drop 2 r)).

Definition writeTCP (msg : list byte) : option (list byte) :=
  if maxMessage <? Z.of_nat (length msg) then None else Some (be_enc 2 (Z.of_nat (length msg)) ++ msg).

(** ** Reverse names *)

(** [strconv.ParseUint(p, 16, 4)] of one character. *)
Definition hex_nibble (c : ascii) : option Z :=
  if is_digit c then Some (code c - 48) else if in_range "a" "f" c then Some (code c - 87) else if in_range "A" "F" c then Some (code c - 55) else None.

(** The nibbles come from the least significant on. *)
Definition reverseAddr6 (name : bytes) : option addr :=
  rest ← cut_suffix (chars ".ip6.arpa") name;
  let parts := split "."%char rest in
  if negb (length parts =? 32)%nat then None
  else nibbles ← mapM (λ p : bytes, match p with [c] => hex_nibble c | _ => None end) parts;
       Some (Addr6 (foldr (λ n acc, n + 16 * acc) 0 nibbles) "").

Definition reverseAddr (name : bytes) : option addr :=
  match reverseAddr6 name with
  | Some a => Some a
  | None =>
      rest ← cut_suffix (chars ".in-addr.arpa") name;
      let parts := split "."%char rest in
      if negb (length parts =? 4)%nat then None
      else octets ← mapM (parse_uint 8) parts; Some (Addr4 (foldr (λ n acc, n + 256 * acc) 0 octets))
  end.

(** ** Forwarding *)

(** [matchID]. *)
Definition matchID (req resp : list byte) : option (list byte) :=
  if (length resp <? 12)%nat then None else if bool_decide (take 2 resp = take 2 req) then Some resp else None.

(** What an upstream sends before the deadline: the datagrams, or the bytes of
    the connection; [None] when it cannot be reached or written to. *)
Record Upstream := { upUDP : addrport → list byte → option (list (list byte)); upTCP : addrport → list byte → option (list byte) }.

Definition forwardOne (net : Upstream) (up : addrport) (req : list byte) (tcp : bool) : option (list byte) :=
  if tcp then
    msg ← writeTCP req;
    got ← upTCP net up msg;
    '(resp, _) ← readTCP got;
    matchID req resp
  else
    got ← upUDP net up req;
    head (omap (matchID req) got).

Definition forward (net : Upstream) (ups : list addrport) (req : list byte) (tcp : bool) : option (list byte) :=
  if (length req <? 2)%nat then None else head (omap (λ up, forwardOne net up req tcp) ups).

(** ** Handling a query *)

(** [Dropped] is no reply and no error. *)
Inductive outcome := Dropped | Failed | Replied (msg : list byte).

(** The parser of [dnsmessage.Parser]: [P] is its state. *)
Record Parser (P : Type) := {
  Start : list byte → option (P * Header);
  NextQuestion : P → option (P * Question);
  SkipAllQuestions : P → option P; SkipAllAnswers : P → option P; SkipAllAuthorities : P → option P;
  AdditionalHeader : P → option (P * (Z * Z));  (** type and class *)
  SkipAdditional : P → option P;
}.
Arguments Start {_} _. Arguments NextQuestion {_} _. Arguments SkipAllQuestions {_} _. Arguments SkipAllAnswers {_} _.
Arguments SkipAllAuthorities {_} _. Arguments AdditionalHeader {_} _. Arguments SkipAdditional {_} _.

Section Server.
Context {Pa : Type} (parser : Parser Pa) (NewName : string → option string) (Pack : Message → option (list byte)) (net : Upstream).

(** The loop over the additional section; [fuel] bounds the records read. *)
Fixpoint additionals (fuel : nat) (p : Pa) (q : query) : query :=
  match fuel with
  | O => q
  | S fuel =>
      match AdditionalHeader parser p with
      | None => q
      | Some (p, (ty, class)) =>
          let q := if ty =? TypeOPT
                   then {| header := header q; question := question q; edns := true;
                           udpSize := if maxUDP <? class then class `min` maxMessage else udpSize q |}
                   else q in
          match SkipAdditional parser p with None => q | Some p => additionals fuel p q end
      end
  end.

(** [parseQuery]: what was parsed, and whether it failed. *)
Definition parseQuery (req : list byte) : query * bool :=
  match Start parser req with
  | None => (NoQuery, true)
  | Some (p, h) =>
      let q := {| header := h; question := NoQuestion; edns := false; udpSize := maxUDP |} in
      match NextQuestion parser p with
      | None => (q, true)
      | Some (p, qu) =>
          let q := {| header := h; question := qu; edns := false; udpSize := maxUDP |} in
          match SkipAllQuestions parser p with
          | None => (q, true)
          | Some p =>
              (match (p ← SkipAllAnswers parser p; SkipAllAuthorities parser p) with
               | None => q
               | Some p => additionals (length req) p q
               end, false)
          end
      end
  end.

Definition build (srv : Server) (q : query) (rcode : RCode) (answers authority : list Resource) (truncated : bool) : Message :=
  {| mHeader := {| hID := hID (header q); hResponse := true; hOpCode := hOpCode (header q);
                   hAuthoritative := match rcode with RCodeSuccess | RCodeNameError => true | _ => false end; hTruncated := truncated;
                   hRecursionDesired := hRecursionDesired (header q); hRecursionAvailable := negb (bool_decide (oUpstreams (opts srv) = []));
                   hRCode := rcode |};
     mQuestion := if bool_decide (qName (question q) = "") then None else Some (question q);
     mAnswers := answers; mAuthorities := authority; mOPT := if edns q then Some maxMessage else None |}.

Definition respondWith (srv : Server) (q : query) (rcode : RCode) (answers authority : list Resource) (tcp : bool) : outcome :=
  match Pack (build srv q rcode answers authority false) with
  | None => Failed
  | Some msg =>
      if negb tcp && (udpSize q <? Z.of_nat (length msg))
      then match Pack (build srv q rcode [] [] true) with None => Failed | Some msg => Replied msg end
      else Replied msg
  end.
Definition respond (srv : Server) (q : query) (rcode : RCode) (answers : list Resource) (tcp : bool) : outcome := respondWith srv q rcode answers [] tcp.

Definition zoneSOA (srv : Server) : option Resource :=
  apex ← NewName (zone srv +:+ ".");
  ns ← NewName ("hub." +:+ zone srv +:+ ".");
  mbox ← NewName ("hostmaster." +:+ zone srv +:+ ".");
  Some {| rName := apex; rType := TypeSOA; rClass := ClassINET; rTTL := TTL; rBody := SOAResource ns mbox 1 TTL TTL TTL TTL |}.

Definition respondNegative (srv : Server) (q : query) (rcode : RCode) (tcp : bool) : outcome :=
  match zoneSOA srv with None => respond srv q rcode [] tcp | Some soa => respondWith srv q rcode [] [soa] tcp end.

(** The record of an address, if its family was asked for. *)
Definition address_record (name : string) (qt : Z) (a : addr) : option Resource :=
  let rr ty b := Some {| rName := name; rType := ty; rClass := ClassINET; rTTL := TTL; rBody := b |} in
  if Is4 a && ((qt =? TypeA) || (qt =? TypeALL)) then rr TypeA (AResource (addr4_bytes (addr_bits a)))
  else if Is6 a && negb (Is4In6 a) && ((qt =? TypeAAAA) || (qt =? TypeALL)) then rr TypeAAAA (AAAAResource (As16 a))
  else None.

Context {St : Type} `{!Source St}.

Definition answerZone (srv : Server) (q : query) (from : addr) (name : bytes) (tcp : bool) (src : St) : St * outcome :=
  let z := chars (zone srv) in
  if bool_decide (name = z) then
    if (qType (question q) =? TypeSOA) || (qType (question q) =? TypeALL)
    then (src, match zoneSOA srv with None => respond srv q RCodeServerFailure [] tcp | Some soa => respond srv q RCodeSuccess [soa] tcp end)
    else (src, respondNegative srv q RCodeSuccess tcp)
  else
    let label := trim_suffix ("."%char :: z) name in
    if bool_decide ("."%char ∈ label) then (src, respondNegative srv q RCodeNameError tcp)
    else
      match Lookup from (of_chars label) src with
      | (src, None) => (src, respondNegative srv q RCodeNameError tcp)
      | (src, Some addrs) =>
          (src, match omap (address_record (qName (question q)) (qType (question q))) addrs with
                | [] => respondNegative srv q RCodeSuccess tcp
                | answers => respond srv q RCodeSuccess answers tcp
                end)
      end.

Definition answerReverse (srv : Server) (q : query) (from a : addr) (tcp : bool) (src : St) : St * outcome :=
  match Reverse from a src with
  | (src, None) => (src, respond srv q RCodeNameError [] tcp)
  | (src, Some name) =>
      (src,
       if negb ((qType (question q) =? TypePTR) || (qType (question q) =? TypeALL)) then respond srv q RCodeSuccess [] tcp
       else
         match NewName (name +:+ "." +:+ zone srv +:+ ".") with
         | None => respond srv q RCodeServerFailure [] tcp
         | Some ptr =>
             respond srv q RCodeSuccess
               [{| rName := qName (question q); rType := TypePTR; rClass := ClassINET; rTTL := TTL; rBody := PTRResource ptr |}] tcp
         end)
  end.

Definition reverseInScope (srv : Server) (a : addr) : bool :=
  let r := oReverse (opts srv) in
  let r6 := oReverse6 (opts srv) in
  if negb (PIsValid r) && negb (PIsValid r6) then true
  else if Is4 a then Contains r a
  else PIsValid r6 && Contains r6 a.

Definition allowed (srv : Server) (from : addr) : bool :=
  if negb (PIsValid (oAllow (opts srv))) then true else IsValid from && (IsLoopback from || Contains (oAllow (opts srv)) from).

(** The name a question asks for. *)
Definition asked (q : query) : bytes := to_lower (trim_suffix (chars ".") (chars (qName (question q)))).

(** A name of the zone. *)
Definition in_zone (srv : Server) (name : bytes) : bool := bool_decide (name = chars (zone srv)) || has_suffix ("."%char :: chars (zone srv)) name.

(** A question for somebody else. *)
Definition outside (srv : Server) (q : query) (req : list byte) (tcp : bool) : outcome :=
  if bool_decide (oUpstreams (opts srv) = []) then respond srv q RCodeRefused [] tcp
  else match forward net (oUpstreams (opts srv)) req tcp with Some resp => Replied resp | None => respond srv q RCodeServerFailure [] tcp end.

Definition Handle (srv : Server) (req : list byte) (from : addr) (tcp : bool) (src : St) : St * outcome :=
  if negb (allowed srv from) then (src, Dropped)
  else
    let '(q, failed) := parseQuery req in
    if failed then
      (src, if (hID (header q) =? 0) && (length req <? 12)%nat then Dropped else respond srv q RCodeFormatError [] tcp)
    else if negb (hOpCode (header q) =? 0) || hResponse (header q) then (src, respond srv q RCodeNotImplemented [] tcp)
    else
      let name := asked q in
      let class := qClass (question q) in
      if negb (class =? ClassINET) && negb (class =? ClassANY) then (src, respond srv q RCodeRefused [] tcp)
      else if in_zone srv name then answerZone srv q from name tcp src
      else
        match reverseAddr name with
        | Some a =>
            if reverseInScope srv a then answerReverse srv q from a tcp src
            else (src, outside srv q req tcp)
        | None => (src, outside srv q req tcp)
        end.
End Server.

(** * Reverse names and frames read back *)

(** ** Labels between dots *)

Fixpoint dotted (l : list bytes) : bytes := match l with [] => [] | [w] => w | w :: l => w ++ "."%char :: dotted l end.

Lemma split_dotted l : l ≠ [] → Forall (λ w : bytes, "."%char ∉ w) l → split "."%char (dotted l) = l.
Proof.
  induction l as [|w l IH]; [done|]. intros _ [Hw Hl]%Forall_cons. destruct l as [|v l]; [by apply split_none|].
  change (dotted (w :: v :: l)) with (w ++ "."%char :: dotted (v :: l)). by rewrite split_app, IH.
Qed.

(** ** Digits, the least significant first *)

Fixpoint digits_le (base : Z) (n : nat) (a : Z) : list Z :=
  match n with O => [] | S n => a `mod` base :: digits_le base n (a `div` base) end.

Lemma length_digits_le base n : ∀ a, length (digits_le base n a) = n.
Proof. induction n as [|n IH]; intros a; [done|]. cbn. by rewrite IH. Qed.

Lemma digits_le_range base n : 0 < base → ∀ a, Forall (λ d, 0 <= d < base) (digits_le base n a).
Proof. intros Hb. induction n as [|n IH]; intros a; constructor; [by apply Z.mod_pos_bound|apply IH]. Qed.

Lemma digits_le_value base n : 0 < base → ∀ a, 0 <= a < base ^ Z.of_nat n → foldr (λ d acc, d + base * acc) 0 (digits_le base n a) = a.
Proof.
  intros Hb. induction n as [|n IH]; intros a Ha; [cbn in *; lia|]. cbn [digits_le foldr]. rewrite IH.
  - rewrite Z.add_comm. symmetry. by apply Z.div_mod, Z.neq_sym, Z.lt_neq.
  - split; [apply Z.div_pos; lia|]. apply Z.div_lt_upper_bound; [done|].
    rewrite Nat2Z.inj_succ, Z.pow_succ_r in Ha by lia. lia.
Qed.

Lemma mapM_all {A B} (f : A → option B) (g : B → A) l : Forall (λ b, f (g b) = Some b) l → mapM f (g <$> l) = Some l.
Proof. induction 1 as [|b l Hb _ IH]; [done|]. cbn. rewrite Hb. cbn. by rewrite IH. Qed.

(** ** The name of an address *)

Definition hex_char (n : Z) : ascii := ascii_of_N (Z.to_N (if n <? 10 then 48 + n else 87 + n)).

Definition arpa (a : addr) : bytes :=
  match a with
  | Addr4 x => dotted ((λ d, chars (itoa d)) <$> digits_le 256 4 x) ++ chars ".in-addr.arpa"
  | Addr6 x _ => dotted ((λ d, [hex_char d]) <$> digits_le 16 32 x) ++ chars ".ip6.arpa"
  | AddrNone => []
  end.

Lemma hex_nibble_char n : 0 <= n < 16 → hex_nibble (hex_char n) = Some n ∧ hex_char n ≠ "."%char.
Proof.
  intros Hn. assert (n = 0 ∨ n = 1 ∨ n = 2 ∨ n = 3 ∨ n = 4 ∨ n = 5 ∨ n = 6 ∨ n = 7 ∨ n = 8 ∨ n = 9 ∨ n = 10 ∨ n = 11 ∨ n = 12 ∨ n = 13 ∨ n = 14 ∨ n = 15)
    as H by lia. by repeat (destruct H as [->|H]; [done|]); subst n.
Qed.

Lemma fmap_not_nil {A B} (f : A → B) l : l ≠ [] → f <$> l ≠ [].
Proof. by destruct l. Qed.

Lemma reverseAddr6_arpa x z : 0 <= x < 2 ^ 128 → reverseAddr6 (arpa (Addr6 x z)) = Some (Addr6 x "").
Proof.
  intros Hx. unfold reverseAddr6, arpa. rewrite cut_suffix_app. cbn [mbind option_bind].
  pose proof (digits_le_range 16 32 ltac:(lia) x) as Hr. pose proof (length_digits_le 16 32 x) as Hlen.
  pose proof (digits_le_value 16 32 ltac:(lia) x ltac:(change (16 ^ Z.of_nat 32) with (2 ^ 128); lia)) as Hv.
  revert Hr Hlen Hv. generalize (digits_le 16 32 x). intros l Hr Hlen Hv.
  rewrite split_dotted.
  - rewrite length_fmap, Hlen. cbn [negb Nat.eqb]. rewrite (mapM_all _ (λ d, [hex_char d])); [cbn; by rewrite Hv|].
    eapply Forall_impl; [exact Hr|]. intros d Hd. by apply hex_nibble_char.
  - apply fmap_not_nil. by destruct l.
  - apply Forall_fmap. eapply Forall_impl; [exact Hr|]. intros d Hd. cbn. intros H%list_elem_of_singleton. by destruct (hex_nibble_char d Hd) as [_ []].
Qed.

Lemma parse_octet d : 0 <= d < 256 → parse_uint 8 (chars (itoa d)) = Some d.
Proof. intros Hd. apply parse_uint_itoa. lia. Qed.

Lemma reverseAddr4_arpa x : 0 <= x < 2 ^ 32 → reverseAddr (arpa (Addr4 x)) = Some (Addr4 x).
Proof.
  intros Hx. unfold reverseAddr, arpa.
  assert (∀ w : bytes, reverseAddr6 (w ++ chars ".in-addr.arpa") = None) as ->.
  { intros w. unfold reverseAddr6, cut_suffix. rewrite reverse_app. by assert (∀ y, cut_prefix (reverse (chars ".ip6.arpa")) (reverse (chars ".in-addr.arpa") ++ y) = None) as -> by done. }
  rewrite cut_suffix_app. cbn [mbind option_bind].
  pose proof (digits_le_range 256 4 ltac:(lia) x) as Hr. pose proof (length_digits_le 256 4 x) as Hlen.
  pose proof (digits_le_value 256 4 ltac:(lia) x ltac:(change (256 ^ Z.of_nat 4) with (2 ^ 32); lia)) as Hv.
  revert Hr Hlen Hv. generalize (digits_le 256 4 x). intros l Hr Hlen Hv.
  rewrite split_dotted.
  - rewrite length_fmap, Hlen. cbn [negb Nat.eqb]. rewrite (mapM_all _ (λ d, chars (itoa d))); [cbn; by rewrite Hv|].
    eapply Forall_impl; [exact Hr|]. intros d Hd. by apply parse_octet.
  - apply fmap_not_nil. by destruct l.
  - apply Forall_fmap. eapply Forall_impl; [exact Hr|]. intros d Hd. cbn in Hd. apply digit_not_in; [done|]. apply itoa_digits; lia.
Qed.

(** The resolver reads the name of an address back as that address: four
    octets under in-addr.arpa, 32 nibbles under ip6.arpa, whatever the octets
    and nibbles are.  And a message that fits is read from a TCP stream as it
    was written, with the rest of the stream left. *)
Theorem names_and_frames_read_back (a : addr) (msg rest : list byte) :
  addr_wf a → IsValid a = true → 0 < Z.of_nat (length msg) <= maxMessage →
  reverseAddr (arpa a) = Some (withoutZone a) ∧ ∃ out, writeTCP msg = Some out ∧ readTCP (out ++ rest) = Some (msg, rest).
Proof.
  intros Ha Hv Hm. split.
  - destruct a as [|x|x z]; [done|by apply reverseAddr4_arpa|]. unfold reverseAddr. by rewrite reverseAddr6_arpa.
  - unfold maxMessage in Hm. exists (be_enc 2 (Z.of_nat (length msg)) ++ msg). unfold writeTCP, maxMessage.
    destruct (Z.ltb_spec 65535 (Z.of_nat (length msg))); [lia|]. split; [done|]. unfold readTCP. rewrite <- app_assoc.
    assert (∀ l : list byte, length l = 2%nat → take 2 (l ++ msg ++ rest) = l ∧ drop 2 (l ++ msg ++ rest) = msg ++ rest) as Hcut
      by (intros [|b1 [|b2 []]]; done).
    destruct (Hcut (be_enc 2 (Z.of_nat (length msg)))) as [-> ->]; [apply length_be_enc|].
    rewrite be_dec_enc_small by lia. rewrite Nat2Z.id, (proj2 (Nat.ltb_ge _ 2)) by (rewrite length_app, length_be_enc; lia).
    destruct (Nat.eqb_spec (length msg) 0); [lia|]. rewrite (proj2 (Nat.ltb_ge _ _)) by (rewrite length_app; lia).
    by rewrite take_app_length, drop_app_length.
Qed.

Lemma names_and_frames_read_back_witness :
  reverseAddr (chars "7.0.64.100.in-addr.arpa") = Some (Addr4 1681915911) ∧ readTCP [Byte.x00; Byte.x01; Byte.x2a; Byte.x2b] = Some ([Byte.x2a], [Byte.x2b]).
Proof.
  assert (addr_wf (Addr4 1681915911)) as Hwf by (split; lia).
  destruct (names_and_frames_read_back (Addr4 1681915911) [Byte.x2a] [Byte.x2b] Hwf eq_refl ltac:(split; [vm_compute; reflexivity|vm_compute; discriminate]))
    as [H (out & Hw & Hr)].
  split; [exact H|]. injection Hw as <-. exact Hr.
Defined.
