(* ===== verification/Hosts.v ===== *)
(** The managed block in the hosts file: [internal/dns/hosts.go], with the
    entries of [register.go].

    The rewriting of the file through a temporary one is left out: [write]
    gives the new content. *)

From Stdlib Require Import Strings.Ascii.
From S2P Require Import Prelude GoStrings NetIP.

Record Entry := { eName : string; eAddr : addr }.

Definition LF : ascii := ascii_of_N 10.
Definition CR : ascii := ascii_of_N 13.
Definition hostsBegin : bytes := chars "# thawr begin".
Definition hostsEnd : bytes := chars "# thawr end".

(** ** Rendering *)

Definition entry_less (a b : Entry) : bool :=
  if addr_ltb (eAddr a) (eAddr b) then true else if addr_ltb (eAddr b) (eAddr a) then false else str_ltb (eName a) (eName b).

Definition entry_line (zone : string) (e : Entry) : bytes := chars (addr_string (eAddr e) +:+ " " +:+ eName e +:+ "." +:+ zone) ++ [LF].

(** [renderHostsBlock]; entries that compare equal give equal lines. *)
Definition renderHostsBlock (zone : string) (entries : list Entry) : bytes :=
  match entries with
  | [] => []
  | _ =>
      let sorted := stable_sort entry_less (filter (λ e, IsValid (eAddr e) = true ∧ eName e ≠ "") entries) in
      (hostsBegin ++ [LF]) ++ concat (entry_line zone <$> sorted) ++ (hostsEnd ++ [LF])
  end.

(** ** Splicing *)

(** [strings.SplitAfter] at line feeds; never empty. *)
Fixpoint split_after (l : bytes) : list bytes :=
  match l with
  | [] => [[]]
  | c :: l' =>
      if decide (c = LF) then [c] :: split_after l'
      else match split_after l' with w :: ws => (c :: w) :: ws | [] => [[c]] end
  end.

(** [strings.TrimRight(l, "\r\n")]. *)
Fixpoint drop_ends (l : bytes) : bytes := match l with c :: l' => if decide (c = LF ∨ c = CR) then drop_ends l' else l | [] => [] end.
Definition trim_end (l : bytes) : bytes := reverse (drop_ends (reverse l)).

(** The loop over the lines: [start] and [end]. *)
Fixpoint scan (i : nat) (lines : list bytes) (st : option nat * option nat) : option nat * option nat :=
  match lines with
  | [] => st
  | l :: lines =>
      scan (S i) lines
        (if bool_decide (trim_end l = hostsBegin) then (match st.1 with None => Some i | Some n => Some n end, st.2)
         else if bool_decide (trim_end l = hostsEnd) then (st.1, match st with (Some _, None) => Some i | _ => st.2 end)
         else st)
  end.

Definition spliceHostsBlock (data block : bytes) : bytes * bool :=
  let lines := split_after data in
  let '(start, end_) := scan 0 lines (None, None) in
  let out :=
    match start with
    | Some i => Some (concat (take i lines) ++ block ++ concat (drop (S (default (length lines - 1)%nat end_)) lines))
    | None =>
        if bool_decide (block = []) then None
        else Some (data ++ (if bool_decide (data = []) || bool_decide (last data = Some LF) then [] else [LF]) ++ block)
    end in
  match out with
  | None => (data, false)
  | Some out => if bool_decide (out = data) then (data, false) else (out, true)
  end.

(** [write] of a file that exists: its content afterwards. *)
Definition write (block data : bytes) : bytes := (spliceHostsBlock data block).1.

(** [Update] and [Unregister]. *)
Definition Update (zone : string) (entries : list Entry) (data : bytes) : bytes := write (renderHostsBlock zone entries) data.
Definition Unregister (data : bytes) : bytes := write [] data.

(** ** Lines *)

(** A line with its feed, and a text of such lines. *)
Definition terminated (l : bytes) : Prop := ∃ w, l = w ++ [LF] ∧ LF ∉ w.

Lemma split_after_line w rest : LF ∉ w → split_after (w ++ LF :: rest) = (w ++ [LF]) :: split_after rest.
Proof.
  induction w as [|c w IH]; intros Hw; cbn [app split_after]; [by rewrite decide_True|]. rewrite decide_False by set_solver. by rewrite IH by set_solver.
Qed.

Lemma split_after_plain w : LF ∉ w → split_after w = [w].
Proof. induction w as [|c w IH]; intros Hw; cbn [split_after]; [done|]. rewrite decide_False by set_solver. by rewrite IH by set_solver. Qed.

Lemma split_after_lines L rest : Forall terminated L → split_after (concat L ++ rest) = L ++ split_after rest.
Proof.
  induction 1 as [|l L (w & -> & Hw) _ IH]; [done|]. cbn [concat]. rewrite <- !app_assoc. cbn [app]. rewrite split_after_line by done. by rewrite IH.
Qed.

(** Every text is terminated lines and a rest without a feed. *)
Lemma text_lines (t : bytes) : ∃ L w, t = concat L ++ w ∧ Forall terminated L ∧ LF ∉ w ∧ split_after t = L ++ [w].
Proof.
  induction t as [|c t (L & w & Ht & HL & Hw & Hs)].
  { exists [], []. repeat split; [constructor|set_solver]. }
  cbn [split_after]. destruct (decide (c = LF)) as [->|Hc].
  - exists ([LF] :: L), w. rewrite Hs, Ht. repeat split; [|done]. constructor; [|done]. exists []. split; [done|set_solver].
  - rewrite Hs. destruct L as [|l L].
    + exists [], (c :: w). cbn in Ht |- *. subst t. repeat split; [constructor|set_solver].
    + apply Forall_cons in HL as [(v & -> & Hv) HL]. exists ((c :: v ++ [LF]) :: L), w. subst t. repeat split; [|done].
      constructor; [|done]. exists (c :: v). split; [done|set_solver].
Qed.

(** ** Scanning *)

Definition is_begin (l : bytes) : bool := bool_decide (trim_end l = hostsBegin).
Definition is_end (l : bytes) : bool := bool_decide (trim_end l = hostsEnd).

Lemma scan_app L1 L2 : ∀ i st, scan i (L1 ++ L2) st = scan (i + length L1) L2 (scan i L1 st).
Proof.
  induction L1 as [|l L1 IH]; intros i st; cbn [app scan length]; [by rewrite Nat.add_0_r|]. rewrite IH. by rewrite Nat.add_succ_comm.
Qed.

Lemma scan_before L : ∀ i, Forall (λ l, is_begin l = false) L → scan i L (None, None) = (None, None).
Proof.
  induction L as [|l L IH]; intros i; [done|]. intros [Hl HL]%Forall_cons. cbn [scan]. unfold is_begin in Hl. rewrite Hl. cbn [fst snd].
  destruct (bool_decide (trim_end l = hostsEnd)); by apply IH.
Qed.

Lemma scan_inside L n : ∀ i, Forall (λ l, is_end l = false) L → scan i L (Some n, None) = (Some n, None).
Proof.
  induction L as [|l L IH]; intros i; [done|]. intros [Hl HL]%Forall_cons. cbn [scan]. unfold is_end in Hl. rewrite Hl. cbn [fst snd].
  destruct (bool_decide (trim_end l = hostsBegin)); by apply IH.
Qed.

(** A block: the marks around lines that are not the second mark. *)
Definition first_line : bytes := hostsBegin ++ [LF].
Definition last_line : bytes := hostsEnd ++ [LF].
Definition block_of (body : list bytes) : bytes := concat (first_line :: body ++ [last_line]).
Definition body_ok (body : list bytes) : Prop := Forall terminated body ∧ Forall (λ l, is_end l = false) body.

Lemma mark_terminated m : bool_decide (LF ∉ m) = true → terminated (m ++ [LF]).
Proof. intros H%bool_decide_eq_true. by exists m. Qed.

Lemma block_terminated body : Forall terminated body → Forall terminated (first_line :: body ++ [last_line]).
Proof.
  intros H. constructor; [by apply mark_terminated|]. apply Forall_app. split; [done|]. constructor; [by apply mark_terminated|constructor].
Qed.

(** The marks are found where the block is. *)
Lemma scan_block L body : Forall (λ l, is_begin l = false) L → Forall (λ l, is_end l = false) body →
  scan 0 (L ++ (first_line :: body ++ [last_line]) ++ [[]]) (None, None) = (Some (length L), Some (length L + S (length body))%nat).
Proof.
  intros Hb He. rewrite scan_app, scan_before by done. cbn [app scan Nat.add].
  change (bool_decide (trim_end first_line = hostsBegin)) with true. cbn [fst snd].
  rewrite <- app_assoc, scan_app, scan_inside by done. cbn [app scan].
  change (bool_decide (trim_end last_line = hostsBegin)) with false. change (bool_decide (trim_end last_line = hostsEnd)) with true.
  change (bool_decide (trim_end [] = hostsBegin)) with false. change (bool_decide (trim_end [] = hostsEnd)) with false. cbn [fst snd].
  by rewrite Nat.add_succ_r.
Qed.

(** ** Writing *)

(** A text whose lines the block may follow: ended, and without a begin mark. *)
Definition unmarked (t : bytes) : Prop := Forall (λ l, is_begin l = false) (split_after t).
Definition ended (t : bytes) : Prop := t = [] ∨ last t = Some LF.

Lemma split_ended t : ended t → ∃ L, t = concat L ∧ Forall terminated L ∧ split_after t = L ++ [[]].
Proof.
  intros H. destruct (text_lines t) as (L & w & Ht & HL & Hw & Hs). assert (w = []) as ->.
  { destruct H as [-> | H]; [by symmetry in Ht; apply app_eq_nil in Ht as [_ ?]|]. destruct (last w) as [x|] eqn:E; [|by apply last_None].
    apply last_Some in E as [w' ->]. rewrite Ht, app_assoc, last_snoc in H. injection H as ->. set_solver. }
  exists L. by rewrite app_nil_r in Ht.
Qed.

(** The result of the splice, whichever way it reports a change. *)
Definition spliced (block data : bytes) : bytes :=
  match scan 0 (split_after data) (None, None) with
  | (Some i, e) => concat (take i (split_after data)) ++ block ++ concat (drop (S (default (length (split_after data) - 1)%nat e)) (split_after data))
  | (None, _) => if bool_decide (block = []) then data else data ++ (if bool_decide (data = []) || bool_decide (last data = Some LF) then [] else [LF]) ++ block
  end.

Lemma write_spliced block data : write block data = spliced block data.
Proof.
  unfold write, spliceHostsBlock, spliced. destruct (scan 0 (split_after data) (None, None)) as [[i|] e].
  - case_bool_decide as E; [by rewrite E|done].
  - case_bool_decide; [done|]. case_bool_decide as E; [by rewrite E|done].
Qed.

Lemma ended_spec t : (bool_decide (t = []) || bool_decide (last t = Some LF)) = bool_decide (ended t).
Proof. unfold ended. by rewrite bool_decide_or. Qed.

(** Without a block, the block follows the text. *)
Lemma write_first block t : unmarked t → write block t = if bool_decide (block = []) then t else t ++ (if bool_decide (ended t) then [] else [LF]) ++ block.
Proof. intros Ht. rewrite write_spliced. unfold spliced. rewrite scan_before by done. by rewrite ended_spec. Qed.

(** With a block, the new one takes its place. *)
Lemma write_again block t body : ended t → unmarked t → body_ok body → write block (t ++ block_of body) = t ++ block.
Proof.
  intros (L & -> & HL & Hs)%split_ended Hu [Hb He]. unfold unmarked in Hu. rewrite Hs in Hu. apply Forall_app in Hu as [Hu _].
  assert (split_after (concat L ++ block_of body) = L ++ (first_line :: body ++ [last_line]) ++ [[]]) as Hsplit.
  { rewrite split_after_lines by done. f_equal. unfold block_of. rewrite <- (app_nil_r (concat _)). by rewrite split_after_lines by (by apply block_terminated). }
  rewrite write_spliced. unfold spliced. rewrite Hsplit, scan_block by done. rewrite take_app_length. f_equal. f_equal.
  cbn [from_option id]. rewrite <- Nat.add_succ_r, drop_app_add. rewrite drop_app_ge by (cbn [length]; rewrite length_app; cbn [length]; lia).
  cbn [length]. rewrite length_app. cbn [length]. replace (_ - _)%nat with 0%nat by lia. cbn. by rewrite app_nil_r.
Qed.

Lemma trim_end_feed w : trim_end (w ++ [LF]) = trim_end w.
Proof. unfold trim_end. rewrite reverse_snoc. cbn [drop_ends]. by rewrite decide_True by (by left). Qed.

(** Ending the last line neither makes nor hides a mark. *)
Lemma unmarked_end t : unmarked t → ended (t ++ [LF]) ∧ unmarked (t ++ [LF]).
Proof.
  intros Hu. split; [right; apply last_snoc|]. destruct (text_lines t) as (L & w & -> & HL & Hw & Hs). unfold unmarked in *. rewrite Hs in Hu.
  apply Forall_app in Hu as [HuL Huw]. rewrite <- app_assoc, split_after_lines by done. rewrite split_after_line by done. apply Forall_app. split; [done|].
  rewrite Forall_singleton in Huw. repeat constructor. unfold is_begin in *. by rewrite trim_end_feed.
Qed.

(** ** Rendered blocks *)

(** The entries whose lines are lines of their own. *)
Definition clean (zone : string) (e : Entry) : Prop := LF ∉ chars (addr_string (eAddr e) +:+ " " +:+ eName e +:+ "." +:+ zone).

Lemma elem_of_drop_ends c l : c ∈ l → c ≠ LF → c ≠ CR → c ∈ drop_ends l.
Proof.
  intros Hc H1 H2. induction l as [|d l IH]; [by apply elem_of_nil in Hc|]. cbn [drop_ends]. destruct (decide _) as [Hd|]; [|done].
  apply IH. apply elem_of_cons in Hc as [-> |]; [naive_solver|done].
Qed.

Lemma elem_of_trim_end c l : c ∈ l → c ≠ LF → c ≠ CR → c ∈ trim_end l.
Proof. intros. unfold trim_end. apply elem_of_reverse, elem_of_drop_ends; [by apply elem_of_reverse|done..]. Qed.

Lemma dot_in_line a n z : "."%char ∈ chars (a +:+ " " +:+ n +:+ "." +:+ z).
Proof. rewrite !chars_app. set_solver. Qed.

Lemma entry_line_ok zone e : clean zone e → terminated (entry_line zone e) ∧ is_end (entry_line zone e) = false.
Proof.
  intros He. split; [by eexists|]. unfold is_end. apply bool_decide_eq_false. intros H. pose proof (dot_in_line (addr_string (eAddr e)) (eName e) zone) as Hd.
  assert ("."%char ∈ hostsEnd) as Hin. { rewrite <- H. apply elem_of_trim_end; [|done..]. unfold entry_line. apply elem_of_app. by left. }
  revert Hin. apply (bool_decide_eq_false (_ ∈ _)). by vm_compute.
Qed.

Lemma render_block zone entries : Forall (clean zone) entries →
  renderHostsBlock zone entries = [] ∨ ∃ body, renderHostsBlock zone entries = block_of body ∧ body_ok body.
Proof.
  intros Hc. destruct entries as [|e es]; [by left|right]. set (l := stable_sort entry_less (filter (λ e, IsValid (eAddr e) = true ∧ eName e ≠ "") (e :: es))).
  exists (entry_line zone <$> l). split.
  - unfold renderHostsBlock, block_of. cbn [concat]. rewrite concat_app. cbn [concat]. by rewrite app_nil_r.
  - assert (Forall (λ x, terminated x ∧ is_end x = false) (entry_line zone <$> l)) as H; [|by apply Forall_and in H].
    apply Forall_fmap, Forall_forall. intros x Hx. apply entry_line_ok. apply elem_of_stable_sort, list_elem_of_filter in Hx as [_ Hx]. by eapply Forall_forall in Hc.
Qed.

(** ** Histories *)

Inductive request := RUpdate (entries : list Entry) | RUnregister.

Definition request_block (zone : string) (r : request) : bytes := match r with RUpdate es => renderHostsBlock zone es | RUnregister => [] end.
Definition apply_request (zone : string) (data : bytes) (r : request) : bytes :=
  match r with RUpdate es => Update zone es data | RUnregister => Unregister data end.
Definition run_requests (zone : string) (rs : list request) (data : bytes) : bytes := foldl (apply_request zone) data rs.
Definition clean_request (zone : string) (r : request) : Prop := match r with RUpdate es => Forall (clean zone) es | RUnregister => True end.

(** The file outside the block: the text, its last line ended once a block was written. *)
Definition outside (zone : string) (rs : list request) (data : bytes) : bytes :=
  if bool_decide (ended data) || forallb (λ r, bool_decide (request_block zone r = [])) rs then data else data ++ [LF].
Definition last_block (zone : string) (rs : list request) : bytes := default [] (request_block zone <$> last rs).

Lemma last_block_ok zone rs : Forall (clean_request zone) rs → last_block zone rs = [] ∨ ∃ body, last_block zone rs = block_of body ∧ body_ok body.
Proof.
  intros H. unfold last_block. destruct (last rs) as [r|] eqn:E; [|by left]. apply last_Some_elem_of in E. eapply Forall_forall in H; [|done].
  destruct r; [by apply render_block|by left].
Qed.

Lemma outside_unmarked zone rs data : unmarked data → unmarked (outside zone rs data) ∧ (last_block zone rs ≠ [] → ended (outside zone rs data)).
Proof.
  intros Hu. unfold outside. destruct (bool_decide (ended data)) eqn:E; cbn [orb]; [split; [done|by intros; apply bool_decide_eq_true in E]|].
  destruct (forallb _ rs) eqn:F; [|by apply unmarked_end in Hu as [??]]. split; [done|]. intros []. unfold last_block. destruct (last rs) as [r|] eqn:Hr; [|done].
  apply last_Some_elem_of, list_elem_of_In in Hr. rewrite forallb_forall in F. apply F in Hr. by apply bool_decide_eq_true in Hr.
Qed.

(** Only the managed block changes: after any updates and removals, a
    hosts file without the begin mark holds its own bytes (its last line
    ended, once there was a block to write) followed by the block of the last
    request, and nothing of the earlier ones. *)
Theorem only_the_block_changes zone rs data : unmarked data → Forall (clean_request zone) rs →
  run_requests zone rs data = outside zone rs data ++ last_block zone rs.
Proof.
  intros Hu. induction rs as [|r rs IH] using rev_ind; intros Hc.
  { unfold outside, last_block. cbn. by rewrite orb_true_r, app_nil_r. }
  apply Forall_app in Hc as [Hc Hr]. unfold run_requests. rewrite foldl_app. cbn [foldl]. fold (run_requests zone rs data). rewrite IH by done.
  assert (∀ d, apply_request zone d r = write (request_block zone r) d) as -> by (by destruct r).
  assert (last_block zone (rs ++ [r]) = request_block zone r) as -> by (unfold last_block; by rewrite last_snoc).
  destruct (outside_unmarked zone rs data Hu) as [Ho He]. destruct (last_block_ok zone rs Hc) as [E | (body & E & Hb)]; rewrite E in *.
  - rewrite app_nil_r, write_first by done. unfold outside. rewrite forallb_app. cbn [forallb].
    destruct (bool_decide (ended data)) eqn:Ed; cbn [orb]; [rewrite Ed; clear Ed He; case_bool_decide as B; [by rewrite B, app_nil_r|done]|].
    destruct (forallb _ rs) eqn:F; cbn [andb]; [rewrite Ed; clear Ed He; case_bool_decide as B; cbn [andb]; [by rewrite B, app_nil_r|by rewrite app_assoc]|].
    rewrite (bool_decide_eq_true_2 _ (proj1 (unmarked_end data Hu))). clear Ed He. case_bool_decide as B; [by rewrite B, app_nil_r|done].
  - assert (block_of body ≠ []) as Hne by (unfold block_of; cbn; by destruct hostsBegin). pose proof (He Hne) as Hend. rewrite (write_again _ _ _ Hend) by done. f_equal.
    revert Hend. unfold outside. rewrite forallb_app. destruct (bool_decide (ended data)) eqn:Ed; cbn [orb]; [done|]. destruct (forallb _ rs) eqn:F; [|done].
    apply bool_decide_eq_false in Ed. by intros ?.
Qed.

Definition demo_file : bytes := chars ("127.0.0.1 localhost" +:+ of_chars [CR; LF] +:+ "10.0.0.9 nas").
Definition demo_requests : list request :=
  [RUpdate [{| eName := "old"; eAddr := Addr4 1 |}]; RUnregister; RUpdate [{| eName := "web"; eAddr := Addr4 0x64400002 |}; {| eName := "db"; eAddr := Addr4 0x64400001 |}]].

Lemma only_the_block_changes_witness :
  run_requests "thawr" demo_requests demo_file =
  demo_file ++ [LF] ++ chars ("# thawr begin" +:+ of_chars [LF] +:+ "100.64.0.1 db.thawr" +:+ of_chars [LF] +:+ "100.64.0.2 web.thawr" +:+ of_chars [LF] +:+ "# thawr end" +:+ of_chars [LF]).
Proof.
  rewrite (only_the_block_changes "thawr" demo_requests demo_file); [by vm_compute| |].
  - unfold unmarked. apply (bool_decide_unpack _). by vm_compute.
  - repeat constructor; apply (bool_decide_unpack _); by vm_compute.
Defined.

(** A name with a line feed is written as it is: the block gains a line of
    the server's choice. *)
Example name_with_a_line :
  renderHostsBlock "thawr" [{| eName := "a.thawr" +:+ of_chars [LF] +:+ "6.6.6.6 bank.example #"; eAddr := Addr4 1 |}] =
  chars ("# thawr begin" +:+ of_chars [LF] +:+ "0.0.0.1 a.thawr" +:+ of_chars [LF] +:+ "6.6.6.6 bank.example #.thawr" +:+ of_chars [LF] +:+ "# thawr end" +:+ of_chars [LF]).
Proof. reflexivity. Qed.
