(* ===== verification/DnsRegistry.v ===== *)
(** What resolvers know: the registry behind the hub's ([internal/server/dns.go])
    and the map behind a device's ([internal/client/dns.go]).

    A lookup is one step.  Between the generation and the list it reads, the
    registry may move on; [tables_of] says what is kept under which generation. *)

From Stdlib Require Import Strings.Ascii.
From S2P Require Import Prelude GoStrings NetIP Store Effects Tables NetMap NetMapSafety Dns.
From S2P Require Hosts.
From S2P Require Policy Compile Names ClientMap Pins Device.

Definition lower (s : string) : bytes := to_lower (chars s).

(** ** The registry *)

Record registrySource := { rsGen : Z; rsByName : gmap (list ascii) Peer; rsByAddr : gmap addr Peer }.
Definition newRegistrySource : registrySource := {| rsGen := -1; rsByName := ∅; rsByAddr := ∅ |}.

(** [peerIPv6]. *)
Definition peerIPv6 (p : Peer) : option addr :=
  if negb (pIPv6Capable p) then None else a ← ParseAddr (pIPv6 p); if Is6 a then Some a else None.

(** What a lookup reads of the server: the generation, the peers if they can be
    listed, the policy's visibility, and the hub's addresses. *)
Record world := { wGeneration : Z; wListed : bool; wStore : Store; wVisible : Peer → Peer → bool; wHub : addr; wHub6 : addr }.

Definition index_name (m : gmap (list ascii) Peer) (p : Peer) : gmap (list ascii) Peer := <[lower (pName p) := p]> m.
Definition index_addr (m : gmap addr Peer) (p : Peer) : gmap addr Peer :=
  let m := match ParseAddr (pIPv4 p) with Some a => <[a := p]> m | None => m end in
  match peerIPv6 p with Some a => <[a := p]> m | None => m end.

(** The tables [refresh] builds. *)
Definition tables_of (gen : Z) (s : Store) : registrySource :=
  let ps := stable_sort by_name (peers s) in {| rsGen := gen; rsByName := foldl index_name ∅ ps; rsByAddr := foldl index_addr ∅ ps |}.

Definition refresh (w : world) (r : registrySource) : registrySource * bool :=
  if wGeneration w =? rsGen r then (r, true) else if wListed w then (tables_of (wGeneration w) (wStore w), true) else (r, false).

Definition ipv6Capable (w : world) (r : registrySource) (from : addr) : bool :=
  if bool_decide (from = wHub w) || bool_decide (from = wHub6 w) || IsLoopback from then true
  else match rsByAddr r !! from with Some q => pIPv6Capable q | None => false end.

Definition source_visible (w : world) (r : registrySource) (from : addr) (target : Peer) : bool :=
  if bool_decide (from = wHub w) || IsLoopback from then true
  else match rsByAddr r !! from with Some q => bool_decide (pID q = pID target) || wVisible w q target | None => false end.

Definition lookup_name (w : world) (r : registrySource) (from : addr) (name : string) : option (list addr) :=
  let v6 := ipv6Capable w r from in
  if bool_decide (name = Names.HubName) then Some (wHub w :: if v6 && IsValid (wHub6 w) then [wHub6 w] else [])
  else
    target ← rsByName r !! lower name;
    if negb (source_visible w r from target) then None
    else a ← ParseAddr (pIPv4 target); Some (a :: match peerIPv6 target with Some a6 => if v6 then [a6] else [] | None => [] end).

Definition registry_Lookup (w : world) (from : addr) (name : string) (r : registrySource) : registrySource * option (list addr) :=
  match refresh w r with (r, true) => (r, lookup_name w r from name) | (r, false) => (r, None) end.

Definition registry_Reverse (w : world) (from a : addr) (r : registrySource) : registrySource * option string :=
  if bool_decide (a = wHub w) || (IsValid (wHub6 w) && bool_decide (a = wHub6 w)) then (r, Some Names.HubName)
  else
    match refresh w r with
    | (r, false) => (r, None)
    | (r, true) =>
        (r, target ← rsByAddr r !! a; if source_visible w r from target then Some (pName target) else None)
    end.

(** The registry as a source, in one world. *)
Definition registry_source (w : world) : Source registrySource := {| Lookup := registry_Lookup w; Reverse := registry_Reverse w |}.

(** ** A device's map *)


(** [hubAddr6]. *)
Definition hubAddr6 (nm : ClientMap.NetMap) : option addr :=
  '(_, ov6) ← ClientMap.selfIPv6 nm;
  head (omap (λ t, p ← ParsePrefix t; if (pbits p =? 128) && Contains ov6 (paddr p) then Some (paddr p) else None) (ClientMap.hAllowedIPs (ClientMap.mHub nm))).

Definition lower_name (s : string) : string := of_chars (lower s).

Definition peer_entries (p : ClientMap.Peer) : list Hosts.Entry :=
  if bool_decide (ClientMap.pName p = "") then []
  else omap (λ t, (λ a, {| Hosts.eName := lower_name (ClientMap.pName p); Hosts.eAddr := a |}) <$> ParseAddr t) [ClientMap.pIPv4 p; ClientMap.pIPv6 p].

Definition dnsEntries (d : Device.Daemon) : list Hosts.Entry :=
  let self := lower_name (Device.stName (Device.dState d)) in
  let six := match ParseAddr (Device.stIPv6 (Device.dState d)) with Some a => if Is6 a then [{| Hosts.eName := self; Hosts.eAddr := a |}] else [] | None => [] end in
  let of_map :=
    match Device.dNetmap d with
    | None => []
    | Some nm =>
        match hubAddr6 nm with Some a => [{| Hosts.eName := Pins.HubName; Hosts.eAddr := a |}] | None => [] end ++ concat (peer_entries <$> ClientMap.mPeers nm)
    end in
  stable_sort (λ a b, str_ltb (Hosts.eName a) (Hosts.eName b))
    ({| Hosts.eName := self; Hosts.eAddr := Device.dSelfIP d |} :: {| Hosts.eName := Pins.HubName; Hosts.eAddr := Next (paddr (Device.dOverlay d)) |} :: six ++ of_map).

(** [netmapSource]; the daemon is not changed. *)
Definition netmap_Lookup (from : addr) (name : string) (d : Device.Daemon) : Device.Daemon * option (list addr) :=
  (d, match Hosts.eAddr <$> filter (λ e, Hosts.eName e = name) (dnsEntries d) with [] => None | l => Some l end).
Definition netmap_Reverse (from a : addr) (d : Device.Daemon) : Device.Daemon * option string :=
  (d, Hosts.eName <$> head (filter (λ e, Hosts.eAddr e = a) (dnsEntries d))).
#[export] Instance netmapSource : Source Device.Daemon := {| Lookup := netmap_Lookup; Reverse := netmap_Reverse |}.

(** [dnsServerOptions]. *)
Definition ulaRange : prefix := Prefix (Addr6 (253 * 2 ^ 120) "") 8.
Definition dnsServerOptions (d : Device.Daemon) : Options :=
  {| oZone := ""; oUpstreams := []; oAllow := PrefixFrom (Device.dSelfIP d) (BitLen (Device.dSelfIP d)); oReverse := Device.dOverlay d;
     oReverse6 := ulaRange |}.

(** The hub resolver's options in [startDNS]. *)
Definition hub_options (upstreams : list addrport) (overlay overlay6 : prefix) : Options :=
  {| oZone := ""; oUpstreams := upstreams; oAllow := overlay; oReverse := NoPrefix; oReverse6 := overlay6 |}.
