(* ===== verification/DnsSafety.v ===== *)
(** What the hub's resolver tells follows the policy's text. *)

From Stdlib Require Import Strings.Ascii.
From S2P Require Import Prelude GoStrings NetIP Store Effects Tables NetMap NetMapSafety Dns DnsRegistry.
From S2P Require Policy Compile Names Control ControlSafety.

(** ** The tables *)

Definition has_address (q : Peer) (a : addr) : Prop := ParseAddr (pIPv4 q) = Some a ∨ peerIPv6 q = Some a.

Lemma foldl_snoc {A B} (f : A → B → A) l x a : foldl f a (l ++ [x]) = f (foldl f a l) x.
Proof. by rewrite foldl_app. Qed.

#[export] Instance has_address_dec q a : Decision (has_address q a).
Proof. unfold has_address. apply _. Defined.



(** The entry of a peer whose key nobody shares. *)
Lemma index_name_found ps p : p ∈ ps → (∀ q, q ∈ ps → lower (pName q) = lower (pName p) → q = p) → foldl index_name ∅ ps !! lower (pName p) = Some p.
Proof.
  induction ps as [|q ps IH] using rev_ind; [by intros ?%elem_of_nil|]. rewrite foldl_snoc, elem_of_app, list_elem_of_singleton. unfold index_name at 1.
  intros Hp Hu. destruct (decide (lower (pName q) = lower (pName p))) as [He|Hne].
  - rewrite He, lookup_insert_eq. f_equal. apply Hu; [|done]. apply elem_of_app. right. by apply list_elem_of_singleton.
  - rewrite lookup_insert_ne by done. apply IH; [by destruct Hp as [?| ->]|]. intros q' Hq'. apply Hu, elem_of_app. by left.
Qed.

Lemma index_addr_found ps p a : p ∈ ps → has_address p a → (∀ q, q ∈ ps → has_address q a → q = p) → foldl index_addr ∅ ps !! a = Some p.
Proof.
  induction ps as [|q ps IH] using rev_ind; [by intros ?%elem_of_nil|]. rewrite foldl_snoc, elem_of_app, list_elem_of_singleton. intros Hp Ha Hu.
  assert (has_address q a → q = p) as Hq by (apply Hu, elem_of_app; right; by apply list_elem_of_singleton).
  unfold index_addr at 1. destruct (decide (has_address q a)) as [Hqa|Hqa]; [specialize (Hq Hqa); subst q|].
  - destruct Ha as [Ha|Ha]; rewrite Ha; [|by rewrite lookup_insert_eq]. destruct (peerIPv6 p) as [x|] eqn:E; [|by rewrite lookup_insert_eq].
    destruct (decide (x = a)) as [->|]; [by rewrite lookup_insert_eq|]. by rewrite lookup_insert_ne, lookup_insert_eq.
  - assert (foldl index_addr ∅ ps !! a = Some p) as H.
    { apply IH; [|done|]. { destruct Hp as [?|Hpq]; [done|]. by subst q. } intros q' Hq'. apply Hu, elem_of_app. by left. }
    destruct (peerIPv6 q) as [x|] eqn:E6; [rewrite lookup_insert_ne by (intros ->; apply Hqa; by right)|];
      (destruct (ParseAddr (pIPv4 q)) as [y|] eqn:E4; [rewrite lookup_insert_ne by (intros ->; apply Hqa; by left)|]); exact H.
Qed.



(** ** What a lookup gives *)

Section Text.
Context (pol : Policy.Policy) (ov : prefix) (w : world).
Notation s := (wStore w).
Context (Hok : tables_ok s) (Hvis : wVisible w = Visible (PolicyVisibility (Some (Compile.CompileWith pol (compiler_peers s) ov)))).

(** The server asks for itself. *)
Definition itself (from : addr) : Prop := from = wHub w ∨ IsLoopback from = true.

(** The asker may know of [t]: it is [t], or the text makes them see each other. *)
Definition may_learn (from : addr) (t : Peer) : Prop :=
  itself from ∨ ∃ q, q ∈ peers s ∧ has_address q from ∧ (pID q = pID t ∨ text_visible pol ov (seen s q) (seen s t)).


(** What is kept for the current generation is what is in the database. *)
Definition kept (r : registrySource) : Prop := rsGen r = wGeneration w → r = tables_of (wGeneration w) s.

Lemma new_kept : 0 <= wGeneration w → kept newRegistrySource.
Proof. intros H. unfold kept. cbn. lia. Qed.

Lemma refresh_kept r r' ok : kept r → refresh w r = (r', ok) → kept r' ∧ (ok = true → r' = tables_of (wGeneration w) s).
Proof.
  intros Hr. unfold refresh. destruct (Z.eqb_spec (wGeneration w) (rsGen r)) as [He|]; [intros [= <- <-]; auto|].
  destruct (wListed w); intros [= <- <-]; [by split|]. by split.
Qed.

Lemma visible_iff q t : q ∈ peers s → t ∈ peers s →
  bool_decide (pID q = pID t) || wVisible w q t = true ↔ pID q = pID t ∨ text_visible pol ov (seen s q) (seen s t).
Proof.
  intros Hq Ht. rewrite orb_true_iff, bool_decide_eq_true. destruct (decide (pID q = pID t)) as [He|Hne]; [tauto|].
  rewrite Hvis. cbn [Visible PolicyVisibility].
  destruct (Compile.Visible_correct pol (compiler_peers s) ov (compiler_nodup s Hok)) as (H & _).
  specialize (H (seen s q) (seen s t) (seen_in s q Hq) (seen_in s t Ht) Hne). cbn in H. unfold text_visible. rewrite <- H. tauto.
Qed.








(** ** What a reply gives *)

Section Reply.
Context {Pa : Type} (parser : Parser Pa) (NewName : string → option string) (Pack : Message → option (list byte)) (net : Upstream).
Context (srv : Server).

Notation handle := (@Handle Pa parser NewName Pack net registrySource (registry_source w) srv).










End Reply.

(** ** What may be known is told *)

Lemma Lookup_found r from t a : kept r → wListed w = true → t ∈ peers s → lower (pName t) ≠ lower Names.HubName → ParseAddr (pIPv4 t) = Some a →
  (∀ q, q ∈ peers s → lower (pName q) = lower (pName t) → q = t) → (∀ q q', q ∈ peers s → q' ∈ peers s → has_address q from → has_address q' from → q = q') →
  may_learn from t → ∃ r' more, registry_Lookup w from (pName t) r = (r', Some (a :: more)).
Proof.
  intros Hr Hl Ht Hhub Ha Hname Haddr Hmay. unfold registry_Lookup. destruct (refresh w r) as [r1 ok] eqn:E. pose proof E as Hok'.
  apply refresh_kept in E as [_ Htab]; [|done]. assert (ok = true) as ->.
  { unfold refresh in Hok'. rewrite Hl in Hok'. destruct (_ =? _); by injection Hok'. }
  rewrite (Htab eq_refl). exists (tables_of (wGeneration w) s). unfold lookup_name.
  rewrite bool_decide_eq_false_2 by (intros He; by rewrite He in Hhub). cbn [tables_of rsByName].
  rewrite (index_name_found _ t).
  - cbn [mbind option_bind]. rewrite Ha. assert (source_visible w (tables_of (wGeneration w) s) from t = true) as ->; [|cbn; by eexists].
    unfold source_visible. destruct Hmay as [[->|Hlo]|(q & Hq & Hqa & Hv)]; [by rewrite bool_decide_eq_true_2 by done|by rewrite Hlo, orb_true_r|].
    destruct (_ || _); [done|]. cbn [tables_of rsByAddr]. rewrite (index_addr_found _ q from).
    + by apply visible_iff.
    + by apply elem_of_stable_sort.
    + done.
    + intros q' Hq'%elem_of_stable_sort Hqa'. by apply Haddr.
  - by apply elem_of_stable_sort.
  - intros q Hq%elem_of_stable_sort. by apply Hname.
Qed.
End Text.

(** ** Properties *)

(** The name of a peer whom the asker may see resolves: a well-formed
    question for its IPv4 address gets a successful reply that begins with that
    address, if the registry can be listed and names and addresses are distinct. *)
Lemma visible_names_resolve pol ov w {Pa} (parser : Parser Pa) NewName Pack net srv req from tcp r q t x :
  tables_ok (wStore w) → wVisible w = Visible (PolicyVisibility (Some (Compile.CompileWith pol (compiler_peers (wStore w)) ov))) → kept w r →
  wListed w = true → allowed srv from = true →
  parseQuery parser req = (q, false) → hOpCode (header q) = 0 → hResponse (header q) = false → qClass (question q) = ClassINET → qType (question q) = TypeA →
  asked q = chars (pName t) ++ "."%char :: chars (zone srv) → "."%char ∉ chars (pName t) →
  t ∈ peers (wStore w) → lower (pName t) ≠ lower Names.HubName → ParseAddr (pIPv4 t) = Some (Addr4 x) →
  (∀ p, p ∈ peers (wStore w) → lower (pName p) = lower (pName t) → p = t) →
  (∀ p p', p ∈ peers (wStore w) → p' ∈ peers (wStore w) → has_address p from → has_address p' from → p = p') →
  may_learn pol ov w from t →
  ∃ more, (@Handle Pa parser NewName Pack net _ (registry_source w) srv req from tcp r).2 =
    respond Pack srv q RCodeSuccess
      ({| rName := qName (question q); rType := TypeA; rClass := ClassINET; rTTL := TTL; rBody := AResource (addr4_bytes x) |} :: more) tcp.
Proof.
  intros Hok Hvis Hr Hl Hall Hq Hop Hre Hc Hty Hn Hdot Ht Hhub Hx Hname Haddr Hmay. unfold Handle. rewrite Hall, Hq, Hop, Hre, Hc. cbn [negb orb andb Z.eqb].
  assert (cut_suffix ("."%char :: chars (zone srv)) (asked q) = Some (chars (pName t))) as Hcut by (rewrite Hn; apply cut_suffix_app).
  assert (in_zone srv (asked q) = true) as ->.
  { unfold in_zone, has_suffix. rewrite Hcut. apply orb_true_iff. right. apply bool_decide_eq_true. by eexists. }
  change (ClassINET =? ClassINET) with true. cbn [negb andb]. unfold answerZone.
  assert (asked q ≠ chars (zone srv)) as Hne.
  { rewrite Hn. intros He%(f_equal length). rewrite length_app in He. cbn in He. lia. }
  rewrite bool_decide_eq_false_2 by done. unfold trim_suffix. rewrite Hcut. cbn [from_option id]. rewrite bool_decide_eq_false_2 by done. rewrite of_chars_chars.
  destruct (Lookup_found pol ov w Hok Hvis r from t (Addr4 x) Hr Hl Ht Hhub Hx Hname Haddr Hmay) as (r' & more & Hlook).
  cbn [Lookup registry_source]. rewrite Hlook. cbn [snd omap list_omap]. rewrite Hty. change (TypeA =? TypeA) with true. cbn [address_record Is4 andb orb addr_bits].
  by eexists.
Qed.


(** ** A phone that asks for a server *)

Definition demo_world (vis : Peer → Peer → bool) : world :=
  {| wGeneration := 3; wListed := true; wStore := demo_map_store; wVisible := vis; wHub := Addr4 (1681915904 + 1); wHub6 := AddrNone |}.
Definition demo_seeing : world := demo_world (Visible (PolicyVisibility (Some (Compile.CompileWith demo_text (compiler_peers demo_map_store) (Control.cfOverlay ControlSafety.demo_config))))).

(** A parser for one question; the query's id is its first byte. *)
Definition demo_parser (name : string) : Parser () :=
  {| Start := λ req, match req with b :: _ => Some ((), {| hID := bz b; hResponse := false; hOpCode := 0; hAuthoritative := false; hTruncated := false;
                                                    hRecursionDesired := true; hRecursionAvailable := false; hRCode := RCodeSuccess |}) | [] => None end;
     NextQuestion := λ p, Some (p, {| qName := name; qType := TypeA; qClass := ClassINET |});
     SkipAllQuestions := Some; SkipAllAnswers := Some; SkipAllAuthorities := Some; AdditionalHeader := λ _, None; SkipAdditional := Some |}.
(** A packing of the addresses alone. *)
Definition demo_pack (m : Message) : option (list byte) :=
  Some (concat ((λ rr, match rBody rr with AResource b | AAAAResource b => b | _ => [] end) <$> mAnswers m)).
Definition demo_net : Upstream := {| upUDP := λ _ _, None; upTCP := λ _ _, None |}.
Definition demo_resolver : Server := NewServer (hub_options [] (Control.cfOverlay ControlSafety.demo_config) NoPrefix).
Definition demo_query (w : world) (name : string) (from : addr) : outcome :=
  (@Handle () (demo_parser name) Some demo_pack demo_net _ (registry_source w) demo_resolver [Byte.x07] from false newRegistrySource).2.

Example demo_answers :
  demo_query demo_seeing "DB-2.Thawr." (Addr4 (1681915904 + 3)) = Replied (addr4_bytes (1681915904 + 2)) ∧
  demo_query demo_seeing "db-2.thawr." (Addr4 (1681915904 + 20)) = Replied [] ∧
  demo_query (demo_world (λ _ _, false)) "db-2.thawr." (Addr4 (1681915904 + 3)) = Replied [].
Proof. vm_compute. done. Qed.


Lemma visible_names_resolve_witness :
  ∃ more, (@Handle () (demo_parser "db-2.thawr.") Some demo_pack demo_net _ (registry_source demo_seeing) demo_resolver [Byte.x07]
             (Addr4 (1681915904 + 1)) false newRegistrySource).2 =
    respond demo_pack demo_resolver (parseQuery (demo_parser "db-2.thawr.") [Byte.x07]).1 RCodeSuccess
      ({| rName := "db-2.thawr."; rType := TypeA; rClass := ClassINET; rTTL := TTL; rBody := AResource (addr4_bytes (1681915904 + 2)) |} :: more) false.
Proof.
  apply (visible_names_resolve demo_text (Control.cfOverlay ControlSafety.demo_config) demo_seeing (demo_parser "db-2.thawr.") Some demo_pack demo_net
    demo_resolver [Byte.x07] (Addr4 (1681915904 + 1)) false newRegistrySource _ (hd ControlSafety.demo_peer (peers demo_map_store)) (1681915904 + 2)
    demo_map_tables eq_refl ltac:(intros H; discriminate H) eq_refl ltac:(vm_compute; reflexivity) eq_refl eq_refl eq_refl eq_refl eq_refl
    ltac:(vm_compute; reflexivity)).
  - vm_compute. intros H. repeat (apply elem_of_cons in H as [H|H]; [discriminate|]). by apply elem_of_nil in H.
  - change (hd ControlSafety.demo_peer (peers demo_map_store) ∈ peers demo_map_store).
    destruct (peers demo_map_store) as [|p l] eqn:E; [vm_compute in E; discriminate E|left].
  - vm_compute. discriminate.
  - vm_compute. reflexivity.
  - intros p Hp Hn. assert (forallb (λ p, bool_decide (lower (pName p) = lower "db-2" → pName p = "db-2")) (peers demo_map_store) = true) as Hall
      by (vm_compute; reflexivity).
    rewrite forallb_forall in Hall. pose proof (proj1 (bool_decide_eq_true _) (Hall p (proj1 (list_elem_of_In _ _) Hp)) Hn) as He.
    apply (key_unique pName (peers demo_map_store)); [apply demo_map_tables|exact Hp| |exact He].
    destruct (peers demo_map_store) as [|p' l] eqn:E; [vm_compute in E; discriminate E|left].
  - intros p p' Hp _ Ha _. exfalso. assert (forallb (λ p, bool_decide (¬ has_address p (Addr4 (1681915904 + 1)))) (peers demo_map_store) = true) as Hall
      by (vm_compute; reflexivity).
    rewrite forallb_forall in Hall. apply list_elem_of_In, Hall, bool_decide_eq_true in Hp. by apply Hp.
  - left. left. reflexivity.
Defined.
