(* ===== verification/Http.v ===== *)
(** The admin API's front: the patterns of [internal/api/rest.go], the session and
    role checks of [auth.go], the relay's upgrade of [relay.go], and the state
    the server keeps behind them.

    A request carries its path as decoded segments.  Both listeners of
    [internal/server/server.go] have every service attached, so the tests for
    services that are missing are left out; [local] tells the admin socket from
    the HTTPS listener.  Bodies are parsed by parameters. *)

From Stdlib Require Import Ascii.
From S2P Require Import Prelude GoStrings NetIP Store Enroll Registry Control.
From S2P Require Sessions Hub Endpoints PolicySvc Users.

(** ** Requests *)

Record Request := {
  rqMethod : string;
  rqPath : list string;
  rqQuery : string → string;         (** [URL.Query().Get], [""] for what is missing *)
  rqCookie : string;                 (** the session cookie, [""] without one *)
  rqCSRF : string;
  rqAuthorization : string;
  rqUpgrade : string;
  rqConnection : list string;        (** the values of [Connection] *)
  rqBody : string;
}.

(** ** The server behind the API *)

Record Server := {
  svControl : State; svPolicy : PolicySvc.PolicyService; svSessions : Sessions.Sessions; svHub : Hub.Hub;
  svEndpoints : Endpoints.EndpointTable; svPaths : Endpoints.PathTable;
  svSeen : gmap string Z;   (** [staticSeen] *)
}.

Definition with_control (c : State) (sv : Server) : Server :=
  {| svControl := c; svPolicy := svPolicy sv; svSessions := svSessions sv; svHub := svHub sv; svEndpoints := svEndpoints sv; svPaths := svPaths sv;
     svSeen := svSeen sv |}.
Definition with_policy (p : PolicySvc.PolicyService) (sv : Server) : Server :=
  {| svControl := svControl sv; svPolicy := p; svSessions := svSessions sv; svHub := svHub sv; svEndpoints := svEndpoints sv; svPaths := svPaths sv;
     svSeen := svSeen sv |}.
Definition with_sessions (m : Sessions.Sessions) (sv : Server) : Server :=
  {| svControl := svControl sv; svPolicy := svPolicy sv; svSessions := m; svHub := svHub sv; svEndpoints := svEndpoints sv; svPaths := svPaths sv;
     svSeen := svSeen sv |}.
Definition with_svhub (h : Hub.Hub) (sv : Server) : Server :=
  {| svControl := svControl sv; svPolicy := svPolicy sv; svSessions := svSessions sv; svHub := h; svEndpoints := svEndpoints sv; svPaths := svPaths sv;
     svSeen := svSeen sv |}.
Definition with_endpoints (t : Endpoints.EndpointTable) (sv : Server) : Server :=
  {| svControl := svControl sv; svPolicy := svPolicy sv; svSessions := svSessions sv; svHub := svHub sv; svEndpoints := t; svPaths := svPaths sv;
     svSeen := svSeen sv |}.
Definition with_paths (t : Endpoints.PathTable) (sv : Server) : Server :=
  {| svControl := svControl sv; svPolicy := svPolicy sv; svSessions := svSessions sv; svHub := svHub sv; svEndpoints := svEndpoints sv; svPaths := t;
     svSeen := svSeen sv |}.
Definition with_seen (m : gmap string Z) (sv : Server) : Server :=
  {| svControl := svControl sv; svPolicy := svPolicy sv; svSessions := svSessions sv; svHub := svHub sv; svEndpoints := svEndpoints sv; svPaths := svPaths sv;
     svSeen := m |}.

Definition store_of (sv : Server) : Store := stStore (svControl sv).

(** What a handler leaves in the database. *)
Definition with_store (s : Store) (sv : Server) : Server :=
  with_control {| stLimit := stLimit (svControl sv); stLock := stLock (svControl sv); stUsers := stUsers (svControl sv); stStore := s |} sv.

Lemma with_store_same sv : svControl (with_store (store_of sv) sv) = svControl sv.
Proof. unfold with_store, store_of. cbn. by destruct (svControl sv). Qed.

(** ** Presence *)

Definition staticOnline : Z := 180 * second.

(** [Server.Online]: a stream is open, or a phone's handshake is fresh. *)
Definition fresh (now seen : Z) : bool := negb (seen =? 0) && (Sub now seen <? staticOnline).
Definition Online (now : Z) (id : string) (sv : Server) : bool :=
  Hub.Online id (svHub sv) || fresh now (default 0 (svSeen sv !! id)).

(** ** Patterns *)

Inductive segment := Lit (s : string) | Any (* {name} *) | Tail (* {prefix...} *).

(** The wildcards' values, if the path matches. *)
Fixpoint match_path (p : list segment) (path : list string) : option (list string) :=
  match p, path with
  | [], [] => Some []
  | [Tail], _ :: _ => Some [String.concat "/" path]
  | Lit s :: p, x :: path => if eqs s x then match_path p path else None
  | Any :: p, x :: path => if eqs x "" then None else cons x <$> match_path p path
  | _, _ => None
  end.

(** [GET] patterns serve [HEAD] as well; a pattern without a method serves all. *)
Definition match_method (pm m : string) : bool := eqs pm m || (eqs pm "GET" && eqs m "HEAD") || eqs pm "".

Inductive endpoint :=
  | EStatus | ELogin | ELogout | EMe | EListUsers | ECreateUser | EListTokens | ECreateToken | ERevokeToken | EListPeers | ECreateMobile
  | EGetPeer | ERenamePeer | EDeletePeer | EShowPolicy | ECheckPolicy | EReloadPolicy | EListAudit | EShowLock | EBackup | EListRoutes
  | ESetRoute | EMetrics | EUnknown | ERelay
  | EFiles (** the embedded UI, and the redirects of the mux *).

#[export] Instance endpoint_eq_dec : EqDecision endpoint.
Proof. solve_decision. Defined.

Inductive access := Open | Login | Admin.

Definition v1 (p : list segment) : list segment := Lit "api" :: Lit "v1" :: p.

(** The registrations of [NewREST], the patterns with a method before those
    without, as the mux looks them up. *)
Definition patterns (local : bool) : list (string * list segment * endpoint * access) :=
  [("POST", v1 [Lit "login"], ELogin, Open);
   ("POST", v1 [Lit "logout"], ELogout, Open);
   ("GET", v1 [Lit "me"], EMe, Login);
   ("GET", v1 [Lit "users"], EListUsers, Admin);
   ("POST", v1 [Lit "users"], ECreateUser, Admin);
   ("GET", v1 [Lit "tokens"], EListTokens, Login);
   ("POST", v1 [Lit "tokens"], ECreateToken, Login);
   ("DELETE", v1 [Lit "tokens"; Any], ERevokeToken, Login);
   ("GET", v1 [Lit "peers"], EListPeers, Login);
   ("POST", v1 [Lit "peers"; Lit "mobile"], ECreateMobile, Login);
   ("GET", v1 [Lit "peers"; Any], EGetPeer, Login);
   ("PATCH", v1 [Lit "peers"; Any], ERenamePeer, Login);
   ("DELETE", v1 [Lit "peers"; Any], EDeletePeer, Login);
   ("GET", v1 [Lit "policy"], EShowPolicy, Login);
   ("POST", v1 [Lit "policy"; Lit "check"], ECheckPolicy, Admin);
   ("POST", v1 [Lit "policy"; Lit "reload"], EReloadPolicy, Admin);
   ("GET", v1 [Lit "audit"], EListAudit, Admin);
   ("GET", v1 [Lit "lock"], EShowLock, Login)]
  ++ (if local then [("GET", v1 [Lit "backup"], EBackup, Admin)] else [])
  ++ [("GET", v1 [Lit "peers"; Any; Lit "routes"], EListRoutes, Login);
      ("PUT", v1 [Lit "peers"; Any; Lit "routes"; Tail], ESetRoute, Admin);
      ("", v1 [Lit "status"], EStatus, Open)]
  ++ (if local then [("", [Lit "metrics"], EMetrics, Open)] else [])
  ++ [("", [Lit "api"; Tail], EUnknown, Open);
      ("", [Lit "relay"], ERelay, Open)].

Definition route (local : bool) (rq : Request) : endpoint * access * list string :=
  match omap (λ '(m, p, e, a), if match_method m (rqMethod rq) then pair (e, a) <$> match_path p (rqPath rq) else None) (patterns local) with
  | r :: _ => r
  | [] => (EFiles, Open, [])
  end.

(** [r.PathValue] of the n-th wildcard. *)
Definition path_value (n : nat) (l : list string) : string := default "" (l !! n).

(** ** Sessions and roles *)

Inductive admission := Denied (code : Z) | Granted (p : Principal).

Definition StatusUnauthorized : Z := 401.
Definition StatusForbidden : Z := 403.

(** [sessionFrom]; the socket has no session table. *)
Definition sessionFrom (local : bool) (now : Z) (rq : Request) (m : Sessions.Sessions) : Sessions.Sessions * option Sessions.Session :=
  if local || eqs (rqCookie rq) "" then (m, None) else Sessions.Get now (rqCookie rq) m.

Definition safe_method (m : string) : bool := eqs m "GET" || eqs m "HEAD".

(** [requireAuth] up to the handler; [now] is the session table's clock. *)
Definition requireAuth (local : bool) (now : Z) (rq : Request) (sv : Server) : Server * admission :=
  if local then (sv, Granted LocalAdmin)
  else
    match sessionFrom local now rq (svSessions sv) with
    | (m, None) => (with_sessions m sv, Denied StatusUnauthorized)
    | (m, Some sess) =>
        let sv := with_sessions m sv in
        if negb (safe_method (rqMethod rq)) && negb (eqs (rqCSRF rq) (Sessions.seCSRF sess)) then (sv, Denied StatusForbidden)
        else
          match Users.GetUser (Sessions.seUserID sess) (store_of sv) with
          | Ok user =>
              if uDisabled user then (with_sessions (Sessions.Delete (Sessions.seToken sess) (svSessions sv)) sv, Denied StatusUnauthorized)
              else (sv, Granted {| prUserID := uID user; prName := uName user; prRole := uRole user; prLocal := false |})
          | Err _ => (with_sessions (Sessions.Delete (Sessions.seToken sess) (svSessions sv)) sv, Denied StatusUnauthorized)
          end
    end.

Definition requireAdmin (local : bool) (now : Z) (rq : Request) (sv : Server) : Server * admission :=
  match requireAuth local now rq sv with
  | (sv, Granted p) => if IsAdmin p then (sv, Granted p) else (sv, Denied StatusForbidden)
  | r => r
  end.

(** The principal of a request that needs none. *)
Definition anonymous : Principal := no_principal.

Definition admit_request (local : bool) (now : Z) (rq : Request) (a : access) (sv : Server) : Server * admission :=
  match a with
  | Open => (sv, Granted anonymous)
  | Login => requireAuth local now rq sv
  | Admin => requireAdmin local now rq sv
  end.

(** ** The relay's upgrade *)

Definition bearer (s : string) : option string := of_chars <$> cut_prefix (chars "Bearer ") (chars s).

(** [strings.EqualFold] with texts that hold no i, k or s, whose cases go beyond ASCII. *)
Definition equal_fold (a b : string) : bool := bool_decide (to_lower (chars a) = to_lower (chars b)).

(** [headerHasToken]. *)
Definition headerHasToken (values : list string) (token : string) : bool :=
  existsb (λ v, existsb (λ part, equal_fold (of_chars (trim_space part)) token) (split ","%char (chars v))) values.

Definition Protocol : string := "thawr-relay/1".

(** [handleRelay] up to the upgraded stream: the key it is served under. *)
Definition handleRelay (ParseKey : string → option (list byte)) (rq : Request) (sv : Server) : result Z (list byte) :=
  if negb (eqs (rqMethod rq) "GET") then Err 405
  else
    match bearer (rqAuthorization rq) with
    | None => Err StatusUnauthorized
    | Some secret =>
        if eqs secret "" then Err StatusUnauthorized
        else
          match PeerByNodeSecret secret (store_of sv) with
          | Err _ => Err StatusUnauthorized
          | Ok peer =>
              if negb (equal_fold (rqUpgrade rq) Protocol) || negb (headerHasToken (rqConnection rq) "upgrade") then Err 426
              else of_option 500 (ParseKey (pPublicKey peer))
          end
    end.
