(* ===== verification/Rest.v ===== *)
(** The handlers of the admin API: [internal/api/handlers.go], [auth.go],
    [lock.go], [routes.go], [mobile.go], [policy.go] and [audit.go].

    JSON, Go's duration and time syntax and the QR code are parameters.  A
    handler runs to its end before another one starts; the check in front of it
    may lie any time before ([ApiSafety]).  The text of an error is left out. *)

From S2P Require Import Prelude GoStrings NetIP LockRecord Store Enroll LockService Registry Routes Control Http.
From S2P Require Sessions Hub Endpoints Compile Policy PolicySvc Users Dns.

(** ** Bodies *)

Record LoginBody := { lgName : string; lgPassword : string }.
Record UserBody := { ubName : string; ubRole : string; ubPassword : string }.
Record TokenBody := { tbOwner : string; tbKind : string; tbTags : list string; tbPeerName : string; tbExpires : string }.
Record MobileBody := { mbOwner : string; mbName : string; mbKind : string; mbTags : list string }.
Record RenameBody := { rbName : string; rbForce : bool }.

(** [json.Decoder] with unknown fields disallowed, for each body, and the
    parsers of [time]. *)
Record Decoders := {
  jLogin : string → option LoginBody; jUser : string → option UserBody; jToken : string → option TokenBody;
  jMobile : string → option MobileBody; jRename : string → option RenameBody; jApproved : string → option bool;
  jYAML : string → option (list byte); ParseDuration : string → option Z; ParseRFC3339 : string → option Z;
}.

Definition maxBodySize : Z := Z.shiftl 64 10.

(** [readJSON]. *)
Definition readJSON {A} (decode : string → option A) (body : string) : option A :=
  let n := Z.of_nat (String.length body) in
  if maxBodySize <? n then None else if n =? 0 then None else decode body.

(** [MaxBytesReader] in front of it. *)
Definition maxPolicyBytes : Z := Z.shiftl 1 20.
Definition limited (limit : Z) (body : string) : bool := Z.of_nat (String.length body) <=? limit.

(** ** Views *)

Record userView := { uvID : string; uvName : string; uvRole : string; uvDisabled : bool; uvCreatedAt : string }.
Record tokenView := {
  tvID : string; tvOwner : string; tvKind : string; tvTags : list string; tvPeerName : string; tvCreatedAt : string; tvExpiresAt : string;
  tvUsedAt : string; tvUsedBy : string;
}.
Record pathSummary := { psDirect : Z; psRelay : Z; psOther : Z }.
Record peerView := {
  pvID : string; pvName : string; pvKind : string; pvMode : string; pvOwner : string; pvTags : list string; pvPublicKey : string;
  pvIPv4 : string; pvIPv6 : string; pvOnline : bool; pvCreatedAt : string; pvLastSeenAt : string; pvVersion : string; pvOS : string;
  pvPathSummary : pathSummary; pvSigned : option bool;
}.
Record routeView := { rvPrefix : string; rvApproved : bool; rvApprovedBy : string; rvApprovedAt : string; rvAdvertisedAt : string }.
Record pathView := { paPeer : string; paState : string; paEndpoint : string; paUpdatedAt : string }.
Record peerDetail := {
  pdPeer : peerView; pdPaths : list pathView; pdEndpoints : list (string * string); pdSymmetric : bool; pdFilter : list (string * string * Z * Z);
  pdRoutes : list routeView;
}.
Record lockView := { lvEnabled : bool; lvGeneration : Z; lvSigners : list (string * string * string); lvUnsigned : list string }.

Inductive body :=
  | BNone | BError
  | BMe (name role : string) (local : bool) (csrf : string)
  | BUsers (l : list userView) | BUser (u : userView)
  | BTokens (l : list tokenView) | BCreatedToken (t : tokenView) (secret join : string)
  | BPeers (l : list peerView) | BPeer (v : peerView) | BDetail (d : peerDetail)
  | BMobile (v : peerView) (config : string) (dns_warning : bool)
  | BRoutes (l : list routeView) | BLock (v : lockView) | BAudit (l : list AuditEntry)
  | BPolicy (r : PolicySvc.PolicyReport) | BChecked (ok : bool) (r : PolicySvc.PolicyReport) | BInvalid (r : PolicySvc.PolicyReport)
  | BStatus (peers generation online : Z)
  | BElsewhere (** metrics, the archive, the UI *).

(** [rpCookie]: the session cookie set; [""] clears it. *)
Record Reply := { rpCode : Z; rpBody : body; rpCookie : option string }.

Definition writeJSON (code : Z) (b : body) : Reply := {| rpCode := code; rpBody := b; rpCookie := None |}.
Definition writeError (code : Z) : Reply := writeJSON code BError.
Definition no_content : Reply := {| rpCode := 204; rpBody := BNone; rpCookie := None |}.

(** [writeControlError]. *)
Definition control_code (e : cerror) : Z :=
  match e with
  | ErrValidation => 400
  | ErrForbidden => 403
  | ErrMissing | ErrStore Store.ErrNotFound => 404
  | ErrRateLimited => 429
  | ErrStore ErrConflict => 409
  | _ => 500
  end.
Definition writeControlError (e : cerror) : Reply := writeError (control_code e).

(** What a request reads besides the state: [inDraw] for the services' clocks and
    random bytes, [inNow] and [inSwept] for the session table's clock. *)
Record Inputs := {
  inDraw : Draw; inFailNow : Z; inNow : Z; inSwept : Z; inToken : list byte; inCSRF : list byte; inSalt : list byte; inKey : list byte;
  inPub : list byte; inFile : PolicySvc.policy_file; inQR : bool; inArchive : bool;
}.

(** [HubInfo], [JoinInfo]. *)
Record HubInfo := { hiPublicKey : string; hiEndpoint : string; hiOverlay : prefix; hiOverlay6 : prefix; hiDNS : addr; hiDNSNoUpstream : bool }.
Record JoinInfo := { jiServerURL : string; jiFingerprint : string }.
Definition JoinCommand (j : JoinInfo) (secret : string) : string :=
  "thawr client up --server " +:+ jiServerURL j +:+ " --token " +:+ secret +:+ " --fingerprint " +:+ jiFingerprint j.

Definition newUserView (u : User) : userView :=
  {| uvID := uID u; uvName := uName u; uvRole := uRole u; uvDisabled := uDisabled u; uvCreatedAt := rfc3339 (uCreatedAt u) |}.

(** [userName]; its cache, which lasts one request, has no effect. *)
Definition userName (id : string) (s : Store) : string :=
  if eqs id "" then "" else match Users.GetUser id s with Ok u => uName u | Err _ => id end.

Definition token_view (t : Token) (s : Store) : tokenView :=
  {| tvID := tID t; tvOwner := userName (tOwnerID t) s; tvKind := tKind t; tvTags := tTags t; tvPeerName := tPeerName t;
     tvCreatedAt := rfc3339 (tCreatedAt t); tvExpiresAt := rfc3339 (tExpiresAt t);
     tvUsedAt := match tUsedAt t with Some u => rfc3339 u | None => "" end; tvUsedBy := tUsedByPeerID t |}.

Definition count_path (c : pathSummary) (p : Endpoints.PathState) : pathSummary :=
  if eqs (Endpoints.PState p) "direct" then {| psDirect := psDirect c + 1; psRelay := psRelay c; psOther := psOther c |}
  else if eqs (Endpoints.PState p) "relay" then {| psDirect := psDirect c; psRelay := psRelay c + 1; psOther := psOther c |}
  else {| psDirect := psDirect c; psRelay := psRelay c; psOther := psOther c + 1 |}.

Definition peer_view (now : Z) (p : Peer) (signed : option (gmap string bool)) (sv : Server) : peerView :=
  {| pvID := pID p; pvName := pName p; pvKind := pKind p; pvMode := pMode p; pvOwner := userName (pOwnerID p) (store_of sv); pvTags := pTags p;
     pvPublicKey := pPublicKey p; pvIPv4 := pIPv4 p; pvIPv6 := pIPv6 p; pvOnline := Online now (pID p) sv;
     pvCreatedAt := rfc3339 (pCreatedAt p); pvLastSeenAt := match pLastSeenAt p with Some t => rfc3339 t | None => "" end;
     pvVersion := pClientVersion p; pvOS := pOS p;
     pvPathSummary := foldl count_path {| psDirect := 0; psRelay := 0; psOther := 0 |} (Endpoints.GetPaths (pID p) (svPaths sv));
     pvSigned := (λ m, default false (m !! pID p)) <$> signed |}.

Definition route_view (r : PeerRoute) : routeView :=
  {| rvPrefix := rPrefix r; rvApproved := rApproved r; rvApprovedBy := rApprovedBy r;
     rvApprovedAt := if rApproved r then rfc3339 (rApprovedAt r) else ""; rvAdvertisedAt := rfc3339 (rAdvertisedAt r) |}.
Definition routeViews (rows : list PeerRoute) : list routeView := route_view <$> rows.

(** [EndpointKind.String]. *)
Definition kind_text (k : Z) : string :=
  if k =? Endpoints.EndpointLocal then "local"
  else if k =? Endpoints.EndpointReflexive then "reflexive"
  else if k =? Endpoints.EndpointStable then "stable" else "".

(** [ParseTTL]: [time.Duration(n) * 24 * time.Hour] wraps. *)
Definition ParseTTL (dec : Decoders) (s : string) : option Z :=
  let s := trim_space (chars s) in
  match s with
  | [] => Some 0
  | _ =>
      match cut_suffix (chars "d") s with
      | Some days => n ← atoi days; if n <=? 0 then None else Some (i64 (i64 (n * 24) * (3600 * second)))
      | None => d ← ParseDuration dec (of_chars s); if d <=? 0 then None else Some d
      end
  end.

(** [renderWireGuardConf]. *)
Definition LF : string := of_chars [Ascii.ascii_of_N 10].

Definition renderWireGuardConf (KeyString : list byte → string) (priv : list byte) (ipv4 ipv6 : string) (hub : HubInfo) : string :=
  let six := negb (eqs ipv6 "") && PIsValid (hiOverlay6 hub) in
  let addrs := ipv4 +:+ "/32" +:+ (if six then ", " +:+ ipv6 +:+ "/128" else "") in
  let allowed := prefix_string (hiOverlay hub) +:+ (if six then ", " +:+ prefix_string (hiOverlay6 hub) else "") in
  "[Interface]" +:+ LF +:+ "PrivateKey = " +:+ KeyString priv +:+ LF +:+ "Address = " +:+ addrs +:+ LF
  +:+ (if IsValid (hiDNS hub) then "DNS = " +:+ addr_string (hiDNS hub) +:+ ", " +:+ Dns.Zone +:+ LF else "") +:+ LF
  +:+ "[Peer]" +:+ LF +:+ "PublicKey = " +:+ hiPublicKey hub +:+ LF +:+ "Endpoint = " +:+ hiEndpoint hub +:+ LF
  +:+ "AllowedIPs = " +:+ allowed +:+ LF +:+ "PersistentKeepalive = 25" +:+ LF.

(** [parseSince], [parseAuditQuery]. *)
Definition parseSince (dec : Decoders) (now : Z) (s : string) : option Z :=
  match ParseRFC3339 dec s with
  | Some t => Some t
  | None => d ← ParseDuration dec s; if d <=? 0 then None else Some (now - d)
  end.

Definition parseAuditQuery (dec : Decoders) (now : Z) (q : string → string) : option AuditQuery :=
  let since_text := of_chars (trim_space (chars (q "since"))) in
  since ← (if eqs since_text "" then Some 0 else parseSince dec now since_text);
  before ← (if eqs (q "before_id") "" then Some 0 else id ← atoi (chars (q "before_id")); if id <=? 0 then None else Some id);
  limit ← (if eqs (q "limit") "" then Some 0 else n ← atoi (chars (q "limit")); if (n <? 1) || (1000 <? n) then None else Some n);
  Some {| qSince := since; qBeforeID := before; qAction := of_chars (trim_space (chars (q "action")));
          qActor := of_chars (trim_space (chars (q "actor"))); qLimit := limit |}.

(** ** Handlers *)

(** An error's reply, or what a success gives. *)
Definition reply_of {A} (r : result cerror A) (f : A → Reply) : Reply := match r with Ok a => f a | Err e => writeControlError e end.

Section Handlers.
Context (Verify : PublicKey → list byte → Signature → bool)
  (ParseKey : string → option (list byte)) (KeyString : list byte → string)
  (encode : Signed → string) (decode : string → option Signed) (cf : Config)
  (yaml : list byte → option Policy.document) (overlay6 : prefix)
  (dec : Decoders) (hub : HubInfo) (join : JoinInfo).

(** The policy as the services ask for it. *)
Definition policies (sv : Server) : Policies := PolicySvc.service_policies (cfOverlay cf) overlay6 (store_of sv) (svPolicy sv).

Definition handleListUsers (sv : Server) : Server * Reply :=
  (sv, match Users_List (store_of sv) with Ok (_, l) => writeJSON 200 (BUsers (newUserView <$> l)) | Err e => writeControlError (ErrStore e) end).

Definition handleCreateUser (i : Inputs) (by_ : Principal) (rq : Request) (sv : Server) : Server * Reply :=
  match readJSON (jUser dec) (rqBody rq) with
  | None => (sv, writeError 400)
  | Some b =>
      let d := inDraw i in
      let '(s, r) := Users.CreateUser (cfIDKey cf) (cfAudit cf) by_ (ubName b) (ubRole b) (ubPassword b) (inSalt i) (dID d) (dNow d)
                       (dAuditNow d) (store_of sv) in
      (with_store s sv, reply_of r (λ u, writeJSON 201 (BUser (newUserView u))))
  end.

Definition handleListTokens (by_ : Principal) (sv : Server) : Server * Reply :=
  (sv, writeJSON 200 (BTokens ((λ t, token_view t (store_of sv)) <$> Tokens_Visible by_ (store_of sv)))).

Definition handleCreateToken (i : Inputs) (by_ : Principal) (rq : Request) (sv : Server) : Server * Reply :=
  match (b ← readJSON (jToken dec) (rqBody rq); pair b <$> ParseTTL dec (tbExpires b)) with
  | None => (sv, writeError 400)
  | Some (b, ttl) =>
      let req := {| trOwnerName := tbOwner b; trKind := tbKind b; trTags := tbTags b; trPeerName := tbPeerName b; trTTL := ttl |} in
      let '(s, r) := Tokens_Issue (policies sv) (cfAudit cf) by_ req (inDraw i) (store_of sv) in
      let sv := with_store s sv in
      (sv, reply_of r (λ ts, writeJSON 201 (BCreatedToken (token_view ts.1 s) ts.2 (JoinCommand join ts.2))))
  end.

Definition handleRevokeToken (i : Inputs) (by_ : Principal) (id : string) (sv : Server) : Server * Reply :=
  let '(s, r) := Tokens_Revoke (cfAudit cf) by_ id (dAuditNow (inDraw i)) (store_of sv) in
  (with_store s sv, reply_of r (λ _, no_content)).

(** [signedIndex]. *)
Definition signedIndex (sv : Server) : option (gmap string bool) :=
  match LoadLockRecord decode (store_of sv) with
  | Ok (_, Some cur) =>
      if Enabled (record cur) then
        match ListPeers Verify ParseKey decode (stLock (svControl sv)) (store_of sv) with
        | Ok (_, (ps, _)) => Some (foldl (λ m p, <[lpID p := lpSigned p]> m) ∅ ps)
        | Err _ => None
        end
      else None
  | _ => None
  end.

Definition handleListPeers (i : Inputs) (by_ : Principal) (sv : Server) : Server * Reply :=
  (sv, writeJSON 200 (BPeers ((λ p, peer_view (dNow (inDraw i)) p (signedIndex sv) sv) <$> Registry_List by_ (store_of sv)))).

(** The paths of a peer, those to peers the caller may not see left out. *)
Definition path_views (by_ : Principal) (id : string) (sv : Server) : list pathView :=
  let names : gmap string string := foldl (λ m q, <[pID q := pName q]> m) ∅ (Registry_List by_ (store_of sv)) in
  omap (λ ps, (λ n, {| paPeer := n; paState := Endpoints.PState ps; paEndpoint := Endpoints.PEndpoint ps;
                       paUpdatedAt := rfc3339 (Endpoints.Updated ps) |}) <$> names !! Endpoints.PeerID ps)
    (Endpoints.GetPaths id (svPaths sv)).

Definition handleGetPeer (i : Inputs) (by_ : Principal) (name : string) (sv : Server) : Server * Reply :=
  match Registry_Get by_ name (store_of sv) with
  | Err e => (sv, writeControlError e)
  | Ok p =>
      let view := peer_view (dNow (inDraw i)) p (signedIndex sv) sv in
      let rows := match List_ by_ (pName p) (store_of sv) with Ok l => routeViews l | Err _ => [] end in
      let '(eps, (l, sym)) := Endpoints.Get (dNow (inDraw i)) (pID p) (svEndpoints sv) in
      let sv := with_endpoints eps sv in
      let '(svc, fl) := PolicySvc.PolicyFilterFor (cfOverlay cf) overlay6 (pID p) (store_of sv) (svPolicy sv) in
      let sv := with_policy svc sv in
      (sv, writeJSON 200 (BDetail
        {| pdPeer := view; pdPaths := path_views by_ (pID p) sv;
           pdEndpoints := (λ e, (addrport_string (Endpoints.Addr e), kind_text (Endpoints.Kind e))) <$> l; pdSymmetric := sym;
           pdFilter := (λ f, (addr_string (Compile.frSrc f), Compile.frProto f, Compile.frLo f, Compile.frHi f)) <$> fl; pdRoutes := rows |}))
  end.

Definition handleRenamePeer (i : Inputs) (by_ : Principal) (name : string) (rq : Request) (sv : Server) : Server * Reply :=
  match readJSON (jRename dec) (rqBody rq) with
  | None => (sv, writeError 400)
  | Some b =>
      let '(s, r) := Registry_Rename (cfRegistry cf) (policies sv) by_ name (rbName b) (rbForce b) (dAuditNow (inDraw i)) (store_of sv) in
      let sv := with_store s sv in
      (sv, reply_of r (λ _, reply_of (Registry_Get by_ (rbName b) s) (λ p, writeJSON 200 (BPeer (peer_view (dNow (inDraw i)) p (signedIndex sv) sv)))))
  end.

Definition handleDeletePeer (i : Inputs) (by_ : Principal) (name : string) (sv : Server) : Server * Reply :=
  let '(s, r) := Registry_Delete (cfRegistry cf) by_ name (dAuditNow (inDraw i)) (store_of sv) in
  (with_store s sv, reply_of r (λ _, no_content)).

Definition handleCreateMobile (i : Inputs) (by_ : Principal) (rq : Request) (sv : Server) : Server * Reply :=
  match readJSON (jMobile dec) (rqBody rq) with
  | None => (sv, writeError 400)
  | Some b =>
      let req := {| stOwnerName := mbOwner b; stName := mbName b; stKind := mbKind b; stTags := mbTags b |} in
      let '(s, r) := CreateStatic KeyString (cfRegistry cf) (policies sv) by_ req (inDraw i) (inKey i) (inPub i) (store_of sv) in
      let sv := with_store s sv in
      (sv, reply_of r (λ res,
        let p := srPeer res in
        if inQR i
        then writeJSON 201 (BMobile (peer_view (dNow (inDraw i)) p None sv) (renderWireGuardConf KeyString (srPrivateKey res) (pIPv4 p) (pIPv6 p) hub)
                              (IsValid (hiDNS hub) && hiDNSNoUpstream hub))
        else writeError 500))
  end.

Definition handleListRoutes (by_ : Principal) (name : string) (sv : Server) : Server * Reply :=
  (sv, reply_of (List_ by_ name (store_of sv)) (λ l, writeJSON 200 (BRoutes (routeViews l)))).

Definition handleSetRoute (i : Inputs) (by_ : Principal) (name prefix : string) (rq : Request) (sv : Server) : Server * Reply :=
  match readJSON (jApproved dec) (rqBody rq) with
  | None => (sv, writeError 400)
  | Some ap =>
      let d := inDraw i in
      let '(s, r) := SetApproved (cfAudit cf) by_ name (of_chars (trim_space (chars prefix))) ap (dNow d) (dAuditNow d) (store_of sv) in
      let sv := with_store s sv in
      (sv, reply_of r (λ _, reply_of (List_ by_ name s) (λ l, writeJSON 200 (BRoutes (routeViews l)))))
  end.

Definition handleShowPolicy (sv : Server) : Server * Reply :=
  let '(svc, r) := PolicySvc.Show_ (cfOverlay cf) overlay6 (store_of sv) (svPolicy sv) in
  (with_policy svc sv, writeJSON 200 (BPolicy r)).

Definition handleCheckPolicy (rq : Request) (sv : Server) : Server * Reply :=
  (sv, match (if limited maxPolicyBytes (rqBody rq) then readJSON (jYAML dec) (rqBody rq) else None) with
       | None => writeError 400
       | Some data =>
           let rep := PolicySvc.Check_ yaml (cfOverlay cf) overlay6 data (store_of sv) in
           writeJSON 200 (BChecked (bool_decide (PolicySvc.rpErrors rep = [])) rep)
       end).

(** An error of the service, as [writeControlError] sees it. *)
Definition policy_code (e : PolicySvc.policy_svc_error) : Z :=
  match e with PolicySvc.ErrPolicyStore e => control_code e | _ => 500 end.

Definition handleReloadPolicy (i : Inputs) (by_ : Principal) (sv : Server) : Server * Reply :=
  let '(s, svc, (rep, e)) :=
    PolicySvc.Reload yaml (cfOverlay cf) overlay6 (cfAudit cf) by_ (cfPolicyPath cf) (inFile i) (dAuditNow (inDraw i)) (store_of sv) (svPolicy sv) in
  (with_policy svc (with_store s sv),
   match e with
   | Some PolicySvc.ErrPolicyInvalid => writeJSON 400 (BInvalid rep)
   | Some e => writeError (policy_code e)
   | None => writeJSON 200 (BPolicy rep)
   end).

Definition handleListAudit (i : Inputs) (rq : Request) (sv : Server) : Server * Reply :=
  (sv, match parseAuditQuery dec (dNow (inDraw i)) (rqQuery rq) with
       | None => writeError 400
       | Some q => match Audit_List q (store_of sv) with Ok (_, l) => writeJSON 200 (BAudit l) | Err _ => writeError 500 end
       end).

Definition lock_view (cur : Signed) (ps : list LockPeer) (h : LockPeer) : lockView :=
  let names : gmap string string := foldl (λ m p, <[lpID p := lpName p]> m) {[ HubID := HubID ]} ps in
  {| lvEnabled := true; lvGeneration := LockRecord.Generation (record cur);
     lvSigners := (λ s, let name := default "" (names !! sPeerID s) in
                        (if eqs name "" then sPeerID s else name, KeyText (sKey s), Fingerprint (sKey s))) <$> Signers (record cur);
     lvUnsigned := (if lpSigned h then [] else [HubID]) ++ (lpName <$> filter (λ p, lpSigned p = false) ps) |}.

Definition handleShowLock (sv : Server) : Server * Reply :=
  (sv, match LoadLockRecord decode (store_of sv) with
       | Err e => writeControlError e
       | Ok (_, None) => writeJSON 200 (BLock {| lvEnabled := false; lvGeneration := 0; lvSigners := []; lvUnsigned := [] |})
       | Ok (_, Some cur) =>
           if negb (Enabled (record cur))
           then writeJSON 200 (BLock {| lvEnabled := false; lvGeneration := LockRecord.Generation (record cur); lvSigners := []; lvUnsigned := [] |})
           else
             match ListPeers Verify ParseKey decode (stLock (svControl sv)) (store_of sv) with
             | Err e => writeControlError e
             | Ok (_, (ps, h)) => writeJSON 200 (BLock (lock_view cur ps h))
             end
       end).

(** [handleStatus], with the counts of [Server.Status]. *)
Definition handleStatus (rq : Request) (sv : Server) : Server * Reply :=
  (sv, if negb (eqs (rqMethod rq) "GET") then writeError 405
       else writeJSON 200 (BStatus (Z.of_nat (length (peers (store_of sv)))) (Hub.hSequence (svHub sv)) (Hub.OnlineCount (svHub sv)))).

(** *** Sessions *)

Definition handleLogin (local : bool) (i : Inputs) (rq : Request) (sv : Server) : Server * Reply :=
  if local then (sv, writeError 404)
  else
    match readJSON (jLogin dec) (rqBody rq) with
    | None => (sv, writeError 400)
    | Some b =>
        let c := svControl sv in
        let '(us, s, r) := Users.Authenticate (cfIDKey cf) (cfAudit cf) (cfDummyHash cf) (lgName b) (lgPassword b) (dNow (inDraw i)) (inFailNow i)
                             (dAuditNow (inDraw i)) (stUsers c) (stStore c) in
        let sv := with_control {| stLimit := stLimit c; stLock := stLock c; stUsers := us; stStore := s |} sv in
        match r with
        | Err ErrRateLimited => (sv, writeError 429)
        | Err ErrForbidden => (sv, writeError StatusUnauthorized)
        | Err _ => (sv, writeError 500)
        | Ok u =>
            let '(m, sess) := Sessions.Create (uID u) (inToken i) (inCSRF i) (inNow i) (inSwept i) (svSessions sv) in
            (with_sessions m sv,
             {| rpCode := 200; rpBody := BMe (uName u) (uRole u) false (Sessions.seCSRF sess); rpCookie := Some (Sessions.seToken sess) |})
        end
    end.

Definition handleLogout (local : bool) (i : Inputs) (rq : Request) (sv : Server) : Server * Reply :=
  let '(m, s) := sessionFrom local (inNow i) rq (svSessions sv) in
  (with_sessions (match s with Some s => Sessions.Delete (Sessions.seToken s) m | None => m end) sv,
   {| rpCode := 204; rpBody := BNone; rpCookie := Some "" |}).

Definition handleMe (local : bool) (i : Inputs) (by_ : Principal) (rq : Request) (sv : Server) : Server * Reply :=
  let '(m, s) := sessionFrom local (inNow i) rq (svSessions sv) in
  (with_sessions m sv,
   writeJSON 200 (BMe (prName by_) (prRole by_) (prLocal by_) (match s with Some s => Sessions.seCSRF s | None => "" end))).

(** The handler of an endpoint; [vs] are the wildcards' values. *)
Definition handle (local : bool) (i : Inputs) (by_ : Principal) (e : endpoint) (vs : list string) (rq : Request) (sv : Server) : Server * Reply :=
  let v := path_value 0 vs in
  match e with
  | EStatus => handleStatus rq sv
  | ELogin => handleLogin local i rq sv
  | ELogout => handleLogout local i rq sv
  | EMe => handleMe local i by_ rq sv
  | EListUsers => handleListUsers sv
  | ECreateUser => handleCreateUser i by_ rq sv
  | EListTokens => handleListTokens by_ sv
  | ECreateToken => handleCreateToken i by_ rq sv
  | ERevokeToken => handleRevokeToken i by_ v sv
  | EListPeers => handleListPeers i by_ sv
  | ECreateMobile => handleCreateMobile i by_ rq sv
  | EGetPeer => handleGetPeer i by_ v sv
  | ERenamePeer => handleRenamePeer i by_ v rq sv
  | EDeletePeer => handleDeletePeer i by_ v sv
  | EShowPolicy => handleShowPolicy sv
  | ECheckPolicy => handleCheckPolicy rq sv
  | EReloadPolicy => handleReloadPolicy i by_ sv
  | EListAudit => handleListAudit i rq sv
  | EShowLock => handleShowLock sv
  | EListRoutes => handleListRoutes by_ v sv
  | ESetRoute => handleSetRoute i by_ v (path_value 1 vs) rq sv
  | EBackup => (sv, if inArchive i then writeJSON 200 BElsewhere else writeError 500)
  | EMetrics | EFiles => (sv, writeJSON 200 BElsewhere)
  | EUnknown => (sv, writeError 404)
  | ERelay => (sv, match handleRelay ParseKey rq sv with Err c => writeError c | Ok _ => {| rpCode := 101; rpBody := BElsewhere; rpCookie := None |} end)
  end.
End Handlers.
