(* ===== verification/Rpc.v ===== *)
(** The control service: [internal/api/grpc.go], [auth_grpc.go], and the RPCs of
    [lock.go] and [routes.go].

    A call carries the values of its [authorization] header.  Every service is
    attached, as [internal/server/server.go] does, so that [Unimplemented] never
    occurs.  A stream ([Sync]) is cut into its opening, each map it sends, and its
    end; [deferred] calls run at the end. *)

From S2P Require Import Prelude GoStrings NetIP LockRecord Store Enroll LockService Registry Routes Control Http.
From S2P Require Alloc Hub Endpoints Compile Policy PolicySvc NetMap Wire ClientMap.

(** ** Messages *)

Record SyncRequest := { syClientVersion : string; syLockKey : string; syIPv6 : bool }.
Record SignPeerRequest := { sqPeerID : string; sqPublicKey : string; sqSignerKey : string; sqSignature : string }.
Record EnrollResponse := {
  erPeerID : string; erName : string; erIPv4 : string; erOverlay : string; erNodeSecret : string; erHubPublicKey : string; erHubEndpoint : string;
  erServerVersion : string; erGeneration : Z; erIPv6 : string; erOverlay6 : string;
}.

Inductive rpc :=
  | ReportEndpoints (eps : list Wire.Proto.Endpoint) (symmetric : bool) (listenPort : Z)
  | ReportPath (paths : list (string * string * string))  (** peer, state, endpoint *)
  | RotateKey (newPublicKey signerKey signature : string)
  | Leave
  | SetLock (lock : option Wire.Proto.SignedLockRecord) (sigs : list SignPeerRequest)
  | SignPeer (sg : SignPeerRequest)
  | ListLockPeers
  | AdvertiseRoutes (prefixes : list string).

(** [codes]. *)
Inductive code :=
  | Unauthenticated | InvalidArgument | PermissionDenied | ResourceExhausted | FailedPrecondition | NotFound | Internal.

Inductive answer :=
  | AEmpty | AGeneration (g : Z) | AEnrolled (r : EnrollResponse) | ALockPeers (hub : LockPeer) (l : list LockPeer)
  | ARoutes (l : list (string * bool)) | AMap (m : Wire.Proto.NetMap).

(** [toStatus]. *)
Definition toStatus (e : cerror) : code :=
  match e with
  | ErrInvalidToken | ErrForbidden => PermissionDenied
  | ErrValidation => InvalidArgument
  | ErrRateLimited => ResourceExhausted
  | ErrVersion => FailedPrecondition
  | ErrAlloc Alloc.ErrExhausted => ResourceExhausted
  | ErrMissing => NotFound
  | _ => Internal
  end.

(** [remoteIP] of the transport's peer address, [""] without one. *)
Definition remoteIP (addr : option string) : string :=
  match addr with None => "" | Some a => match ClientMap.SplitHostPort a with Some (h, _) => h | None => a end end.

(** ** Authentication *)

(** [authenticate]: the last bearer value is the secret. *)
Definition node_secret (authorization : list string) : string :=
  foldl (λ s v, match bearer v with Some x => x | None => s end) "" authorization.

Definition authenticate (authorization : list string) (sv : Server) : result code Peer :=
  let secret := node_secret authorization in
  if eqs secret "" then Err Unauthenticated
  else match PeerByNodeSecret secret (store_of sv) with Ok p => Ok p | Err _ => Err Unauthenticated end.

(** What a call reads besides the state. *)
Record RpcInputs := {
  riDraw : Draw; riLimitNow : Z; riSignNow : list (Z * Z); riStream : nat; riClock : string → Z; riWritten : bool * bool * bool;
}.

Definition maxLockSignatures : nat := 4096.
Definition maxPaths : nat := 4096.

Section Service.
Context (Verify : PublicKey → list byte → Signature → bool)
  (ParseKey : string → option (list byte)) (KeyString : list byte → string)
  (encode : Signed → string) (decode : string → option Signed) (cf : Config) (overlay6 : prefix) (hub : NetMap.HubConfig) (version : string).

Definition policies (sv : Server) : Policies := PolicySvc.service_policies (cfOverlay cf) overlay6 (store_of sv) (svPolicy sv).

Definition status_of {A} (r : result cerror A) (f : A → answer) : result code answer :=
  match r with Ok a => Ok (f a) | Err e => Err (toStatus e) end.

(** [Sync.Changed] with the generation it reads. *)
Definition changed (sv : Server) : Server := with_svhub (Hub.Changed (Some (gen_of (store_of sv))) (svHub sv)) sv.

(** ** Enrolment *)

Definition enroll_response (ipv6 : bool) (res : EnrollResult) : EnrollResponse :=
  let p := resPeer res in
  let six := ipv6 && negb (eqs (pIPv6 p) "") && PIsValid (NetMap.hcOverlay6 hub) in
  {| erPeerID := pID p; erName := pName p; erIPv4 := pIPv4 p; erOverlay := prefix_string (NetMap.hcOverlay hub);
     erNodeSecret := resNodeSecret res; erHubPublicKey := NetMap.hcPublicKey hub; erHubEndpoint := NetMap.hcEndpoint hub; erServerVersion := version;
     erGeneration := resGeneration res; erIPv6 := if six then pIPv6 p else "";
     erOverlay6 := if six then prefix_string (NetMap.hcOverlay6 hub) else "" |}.

(** [Enroll], the one call without a node secret; [req] carries the address of
    the caller. *)
Definition EnrollRPC (i : RpcInputs) (req : EnrollRequest) (sv : Server) : Server * result code answer :=
  let c := svControl sv in
  let '(lim, s, r) := Enroll ParseKey KeyString (cfEnroller cf) (policies sv) (riLimitNow i) req (riDraw i) (stLimit c) (stStore c) in
  (with_control {| stLimit := lim; stLock := stLock c; stUsers := stUsers c; stStore := s |} sv,
   status_of r (λ res, AEnrolled (enroll_response (eIPv6 req) res))).

(** ** Calls of a peer *)

(** The states [ReportPath] takes. *)
Definition path_states : list string := ["direct"; "relay"; "probing"; "idle"; "unreachable"; "hub"].

(** A peer probed or relayed to is asked to reach back. *)
Definition wants (now : Z) (me : string) (paths : list Endpoints.PathState) (h : Hub.Hub) : Hub.Hub :=
  foldl (λ h p, if eqs (Endpoints.PState p) "probing" || eqs (Endpoints.PState p) "relay" then Hub.Want (Endpoints.PeerID p) me now h else h) h paths.

Definition signingFromProto (sg : SignPeerRequest) : option PeerSigning :=
  if eqs (sqPeerID sg) "" then None
  else
    signer ← ParsePublicKey (sqSignerKey sg);
    sig ← ParseSignature (sqSignature sg);
    Some {| sgPeerID := sqPeerID sg; sgPublicKey := sqPublicKey sg; sgSigner := signer; sgSignature := sig |}.

(** The clocks read while the signatures are stored, one pair for each. *)
Fixpoint at_times (l : list PeerSigning) (ts : list (Z * Z)) : list SigningAt :=
  match l with
  | [] => []
  | sg :: l => {| saSigning := sg; saNow := (default (0, 0) (head ts)).1; saAuditNow := (default (0, 0) (head ts)).2 |} :: at_times l (tail ts)
  end.

(** A rotation's signature: absent, or both parts of it well-formed. *)
Definition rotation_of (signerKey signature : string) : option (option SignedRotation) :=
  if eqs signerKey "" && eqs signature "" then Some None
  else
    signer ← ParsePublicKey signerKey;
    sig ← ParseSignature signature;
    Some (Some {| roSigner := signer; roSignature := sig |}).

Definition reportEndpoints (i : RpcInputs) (me : Peer) (eps : list Wire.Proto.Endpoint) (sym : bool) (port : Z) (sv : Server) :
    Server * result code answer :=
  match Wire.endpointsFromProto eps with
  | None => (sv, Err InvalidArgument)
  | Some l =>
      if 65535 <? port then (sv, Err InvalidArgument)
      else
        match Endpoints.Set_ (dNow (riDraw i)) (pID me) l sym port (svEndpoints sv) with
        | (t, Err _) => (with_endpoints t sv, Err InvalidArgument)
        | (t, Ok ch) => let sv := with_endpoints t sv in (if ch then changed sv else sv, Ok AEmpty)
        end
  end.

Definition reportPath (i : RpcInputs) (me : Peer) (paths : list (string * string * string)) (sv : Server) : Server * result code answer :=
  if (maxPaths <? length paths)%nat then (sv, Err InvalidArgument)
  else if negb (forallb (λ p, bool_decide (p.1.2 ∈ path_states)) paths) then (sv, Err InvalidArgument)
  else
    let now := dNow (riDraw i) in
    let l := (λ p, {| Endpoints.PeerID := p.1.1; Endpoints.PState := p.1.2; Endpoints.PEndpoint := p.2; Endpoints.Updated := now |}) <$> paths in
    (with_svhub (wants now (pID me) l (svHub sv)) (with_paths (Endpoints.SetPaths now (pID me) l (svPaths sv)) sv), Ok AEmpty).

Definition rotateKey (i : RpcInputs) (me : Peer) (newPublicKey signerKey signature : string) (sv : Server) : Server * result code answer :=
  match rotation_of signerKey signature with
  | None => (sv, Err InvalidArgument)
  | Some signed =>
      let '(s, r) := Registry_RotateKey Verify ParseKey decode (cfRegistry cf) (pID me) newPublicKey signed (dNow (riDraw i)) (dAuditNow (riDraw i))
                       (store_of sv) in
      (with_store s sv, status_of r AGeneration)
  end.

Definition leave (i : RpcInputs) (me : Peer) (sv : Server) : Server * result code answer :=
  let '(s, r) := Registry_Leave (cfRegistry cf) (pID me) (dAuditNow (riDraw i)) (store_of sv) in (with_store s sv, status_of r (λ _, AEmpty)).

(** The record and the signatures of a [SetLock] call. *)
Definition lock_request (l : option Wire.Proto.SignedLockRecord) (sigs : list SignPeerRequest) : option (Signed * list PeerSigning) :=
  signed ← Wire.lockFromProto l;
  if (maxLockSignatures <? length sigs)%nat then None else pair signed <$> mapM signingFromProto sigs.

Definition setLock (i : RpcInputs) (me : Peer) (l : option Wire.Proto.SignedLockRecord) (sigs : list SignPeerRequest) (sv : Server) :
    Server * result code answer :=
  match lock_request l sigs with
  | None => (sv, Err InvalidArgument)
  | Some (signed, ps) =>
      let '(s, r) := Set_ Verify ParseKey encode decode (stLock (svControl sv)) me signed (at_times ps (riSignNow i)) (dAuditNow (riDraw i)) (store_of sv) in
      (with_store s sv, status_of r (λ _, AEmpty))
  end.

Definition signPeer (i : RpcInputs) (me : Peer) (sg : SignPeerRequest) (sv : Server) : Server * result code answer :=
  match signingFromProto sg with
  | None => (sv, Err InvalidArgument)
  | Some ps =>
      let sa := {| saSigning := ps; saNow := dNow (riDraw i); saAuditNow := dAuditNow (riDraw i) |} in
      let '(s, r) := Sign Verify ParseKey decode (stLock (svControl sv)) me sa (store_of sv) in (with_store s sv, status_of r (λ _, AEmpty))
  end.

Definition listLockPeers (me : Peer) (sv : Server) : Server * result code answer :=
  (sv, match IsSigner decode (pID me) (store_of sv) with
       | Err e => Err (toStatus e)
       | Ok false => Err PermissionDenied
       | Ok true =>
           match ListPeers Verify ParseKey decode (stLock (svControl sv)) (store_of sv) with
           | Err e => Err (toStatus e)
           | Ok (_, (l, h)) => Ok (ALockPeers h l)
           end
       end).

Definition advertiseRoutes (i : RpcInputs) (me : Peer) (prefixes : list string) (sv : Server) : Server * result code answer :=
  if (MaxAdvertisedRoutes <? length prefixes)%nat then (sv, Err InvalidArgument)
  else
    let '(s, r) := Advertise (cfAudit cf) (cfOverlay cf) me prefixes (dNow (riDraw i)) (dAuditNow (riDraw i)) (store_of sv) in
    (with_store s sv, status_of r (λ l, ARoutes ((λ r, (rPrefix r, rApproved r)) <$> l))).

Definition serve_rpc (i : RpcInputs) (me : Peer) (m : rpc) (sv : Server) : Server * result code answer :=
  match m with
  | ReportEndpoints eps sym port => reportEndpoints i me eps sym port sv
  | ReportPath paths => reportPath i me paths sv
  | RotateKey k sk sg => rotateKey i me k sk sg sv
  | Leave => leave i me sv
  | SetLock l sigs => setLock i me l sigs sv
  | SignPeer sg => signPeer i me sg sv
  | ListLockPeers => listLockPeers me sv
  | AdvertiseRoutes prefixes => advertiseRoutes i me prefixes sv
  end.

(** ** Sync *)

(** [Sync] up to its first map: the stream's channel is [riStream], and
    [riWritten] says which of the three notes about the peer could be written. *)
Definition note {A} (ok : bool) (f : Store → Store * result cerror A) (sv : Server) : Server :=
  if ok then with_store (f (store_of sv)).1 sv else sv.

Definition openSync (i : RpcInputs) (me : Peer) (req : SyncRequest) (sv : Server) : Server * result code unit :=
  if negb (eqs (syLockKey req) "") && bool_decide (ParsePublicKey (syLockKey req) = None) then (sv, Err InvalidArgument)
  else
    let c := svControl sv in
    let sv := with_control {| stLimit := stLimit c; stLock := ReportKey (stLock c) (pID me) (syLockKey req); stUsers := stUsers c; stStore := stStore c |} sv in
    let sv := with_svhub (Hub.Subscribe (riStream i) (pID me) (svHub sv)) sv in
    let sv := with_svhub (Hub.Connected (pID me) (Some (gen_of (store_of sv))) (svHub sv)) sv in
    let '(w1, w2, w3) := riWritten i in
    let sv := note w1 (InTx (lift ErrStore (Peers_Touch (pID me) (dNow (riDraw i))))) sv in
    let v := syClientVersion req in
    let sv := if negb (eqs v "") && negb (eqs v (pClientVersion me))
              then note w2 (InTx (lift ErrStore (Peers_SetClientVersion (pID me) v))) sv else sv in
    (note w3 (Registry_SetIPv6Capable (pID me) (syIPv6 req)) sv, Ok ()).

(** The builder as the server wires it, on the compiled policy of the moment. *)
Definition builder (now : Z) (c : Compile.Compiled) (sv : Server) : NetMap.NetMapBuilder :=
  {| NetMap.bVisibility := NetMap.PolicyVisibility (Some c); NetMap.bHub := hub; NetMap.bGeneration := Hub.hSequence (svHub sv);
     NetMap.bPresence := Some (λ id, Online now id sv); NetMap.bWants := Some (λ to from, (Hub.WantSeq to from now (svHub sv)).2) |}.

(** [send]: the message, or how the stream ends. *)
Definition sendMap (i : RpcInputs) (me : Peer) (keepalive : bool) (sv : Server) : Server * result code answer :=
  let '(svc, c) := PolicySvc.Compiled (cfOverlay cf) overlay6 (store_of sv) (svPolicy sv) in
  let sv := with_policy svc sv in
  match NetMap.Build decode (builder (dNow (riDraw i)) c sv) (riClock i) (Some (svEndpoints sv)) (pID me) (store_of sv) with
  | Ok (_, (eps, nm)) =>
      let m := Wire.netMapToProto nm in
      (with_endpoints (default (svEndpoints sv) eps) sv,
       Ok (AMap {| Wire.Proto.mGeneration := Wire.Proto.mGeneration m; Wire.Proto.mSelf := Wire.Proto.mSelf m; Wire.Proto.mPeers := Wire.Proto.mPeers m;
                   Wire.Proto.mHub := Wire.Proto.mHub m; Wire.Proto.mFilter := Wire.Proto.mFilter m; Wire.Proto.mKeepalive := keepalive;
                   Wire.Proto.mServerVersion := version; Wire.Proto.mLock := Wire.Proto.mLock m; Wire.Proto.mForward := Wire.Proto.mForward m |}))
  | Err ErrMissing => (sv, Err PermissionDenied)
  | Err _ => (sv, Err Internal)
  end.

(** What the stream leaves when it ends. *)
Definition closeSync (i : RpcInputs) (me : Peer) (sv : Server) : Server :=
  with_svhub (Hub.Unsubscribe (riStream i) (Hub.Disconnected (pID me) (dNow (riDraw i)) (svHub sv))) sv.
End Service.
