(* ===== verification/ClientLock.v ===== *)
(** The network lock on a device: [internal/client/lock.go], the private keys of
    [internal/lock/key.go], and [RotateKey] of [daemon.go].

    A device with a lock key signs peers and new lock records for the server.
    Ed25519 and WireGuard's key types are parameters.  What the server and the
    disk answered and a generated key are inputs; the requests of an operation
    are part of its result, so that [Rpc] can take them.  The log is left out. *)

From Stdlib Require Import Ascii.
From S2P Require Import Prelude GoStrings Base64 NetIP LockRecord LockService ClientMap Pins Device Rpc.
From S2P Require Enroll Wire.

Definition LockKeyFile : string := "lock.key".

(** [PrivateKey]: the seed, or nothing. *)
Abbreviation PrivateKey := (list byte).
Definition SeedSize : nat := 32.
Definition KeyIsZero (k : PrivateKey) : bool := bool_decide (k = []).
Definition PrivateText (k : PrivateKey) : string := if KeyIsZero k then "" else std_base64 k.
Definition ParsePrivateKey (s : string) : option PrivateKey := LockRecord.decode s SeedSize.

(** The file as read: missing, or its content. *)
Definition LoadLockKey (file : option string) : option PrivateKey :=
  match file with None => Some [] | Some text => ParsePrivateKey (of_chars (trim_space (chars text))) end.
Definition SaveLockKey (k : PrivateKey) : string := PrivateText k +:+ String (ascii_of_N 10) "".

Inductive lock_op_error :=
  | NotConnected | NoMap | AlreadyEnabled | ErrNoLockKey | ErrLockOff | ErrNotSigner | ErrLockKeyMismatch | ErrUnknownPeer | NoKeyReported
  | BadLockKey | BadPeerKey | ErrRecord (e : lock_error) | ErrEmptyKey | ErrRpc | ErrGenerate | ErrSaveKey | ErrAdopt (e : apply_error).

(** What a signing device has besides its daemon: [lockKey], [client != nil],
    and the file of the key. *)
Record Locker := { loDaemon : Daemon; loKey : PrivateKey; loConnected : bool; loFile : option string }.
Definition with_daemon (d : Daemon) (s : Locker) : Locker := {| loDaemon := d; loKey := loKey s; loConnected := loConnected s; loFile := loFile s |}.
Definition with_lock_key (k : PrivateKey) (s : Locker) : Locker :=
  {| loDaemon := loDaemon s; loKey := k; loConnected := loConnected s; loFile := Some (SaveLockKey k) |}.

(** What the world answers. *)
Record LockAnswers := {
  laGenerated : option PrivateKey; laKeySaved : bool; laList : option (LockPeer * list LockPeer); laSetLock : bool; laSigned : nat → bool;
  laPinsWritten : bool; laApply : Answers;
}.

Record LockSigned := { lsName : string; lsFingerprint : string }.
Record LockResult := { lrGeneration : Z; lrSigner : string; lrSigned : list LockSigned; lrPublicKey : string }.

Section Lock.
Context (Verify : PublicKey → list byte → Signature → bool) (ParseKey : string → option (list byte)) (KeyString : list byte → string)
  (LookupNetIP : string → string → option (list addr)) (PublicKeyOf : list byte → list byte)
  (PublicOf : PrivateKey → PublicKey) (SignWith : PrivateKey → list byte → Signature).

(** [PrivateKey.Public]. *)
Definition Public (k : PrivateKey) : PublicKey := if KeyIsZero k then replicate KeySize Byte.x00 else PublicOf k.

(** [lock.Sign]. *)
Definition SignMsg (k : PrivateKey) (msg : list byte) : result lock_op_error Signature := if KeyIsZero k then Err ErrEmptyKey else Ok (SignWith k msg).

Definition of_bytes (r : result lock_error (list byte)) : result lock_op_error (list byte) := match r with Ok b => Ok b | Err e => Err (ErrRecord e) end.

(** The pinned record of a device. *)
Definition pinned (s : Locker) : option Signed := lock (dPins (loDaemon s)).
Definition me (s : Locker) : string := stPeerID (dState (loDaemon s)).

(** Whether the record names the device with its key. *)
Definition names_me (s : Locker) (r : LockRecord) : bool := bool_decide (SignerKey r (me s) = Some (Public (loKey s))).

(** [signerContext]. *)
Definition signerContext (s : Locker) : result lock_op_error (PrivateKey * Signed) :=
  if negb (loConnected s) then Err NotConnected
  else if KeyIsZero (loKey s) then Err ErrNoLockKey
  else
    match pinned s with
    | None => Err ErrLockOff
    | Some rec => if negb (Enabled (record rec)) then Err ErrLockOff else if names_me s (record rec) then Ok (loKey s, rec) else Err ErrNotSigner
    end.

(** [ensureLockKey]: the key, and whether it was created. *)
Definition ensureLockKey (a : LockAnswers) (s : Locker) : Locker * result lock_op_error (PrivateKey * bool) :=
  if negb (KeyIsZero (loKey s)) then (s, Ok (loKey s, false))
  else
    match laGenerated a with
    | None => (s, Err ErrGenerate)
    | Some k => if laKeySaved a then (with_lock_key k s, Ok (k, true)) else (s, Err ErrSaveKey)
    end.

(** [peerSigning]: the request, and the fingerprint of what was signed. *)
Definition peerSigning (k : PrivateKey) (id name key : string) : result lock_op_error (SignPeerRequest * string) :=
  wk ← of_option BadPeerKey (ParseKey key);
  msg ← of_bytes (peerBytes {| rID := id; rName := name; rKey := wk |});
  sig ← SignMsg k msg;
  Ok ({| sqPeerID := id; sqPublicKey := key; sqSignerKey := KeyText (Public k); sqSignature := SignatureText sig |}, Enroll.wgFingerprint wk).

(** The message of [setLockRecord]. *)
Definition set_lock_request (s : Signed) (sigs : list SignPeerRequest) : rpc := SetLock (Wire.lockToProto (Some s)) sigs.

Definition sign_record (k : PrivateKey) (rec : LockRecord) : result lock_op_error Signed :=
  msg ← of_bytes (recordBytes rec);
  sig ← SignMsg k msg;
  Ok {| record := rec; signature := sig |}.

(** [setLockRecord]. *)
Definition setLockRecord (a : LockAnswers) (k : PrivateKey) (rec : LockRecord) (sigs : list SignPeerRequest) (s : Locker) :
    Locker * list rpc * result lock_op_error Signed :=
  match sign_record k rec with
  | Err e => (s, [], Err e)
  | Ok signed =>
      let req := [set_lock_request signed sigs] in
      if negb (laSetLock a) then (s, req, Err ErrRpc)
      else
        let '(d, e) := adopt_own_record Verify ParseKey LookupNetIP (laApply a) (laPinsWritten a) signed (loDaemon s) in
        (with_daemon d s, req, match e with None => Ok signed | Some e => Err (ErrAdopt e) end)
  end.

(** What [LockInit] signs besides the record: the hub, itself, and the peers it
    sees. *)
Definition init_entries (s : Locker) (offered : NetMap) : list (string * string * string) :=
  [(HubID, HubID, hPublicKey (mHub offered)); (me s, stName (dState (loDaemon s)), KeyString (PublicKeyOf (dKey (loDaemon s))))] ++
  ((λ p, (pID p, pName p, pPublicKey p)) <$> filter (λ p, pViaHub p = false ∧ pID p ≠ "" ∧ pPublicKey p ≠ "") (mPeers offered)).

Definition sign_entry (k : PrivateKey) (e : string * string * string) : result lock_op_error (SignPeerRequest * LockSigned) :=
  let '(id, name, key) := e in
  rf ← peerSigning k id name key; Ok (rf.1, {| lsName := name; lsFingerprint := rf.2 |}).

Fixpoint sign_entries (k : PrivateKey) (l : list (string * string * string)) : result lock_op_error (list (SignPeerRequest * LockSigned)) :=
  match l with [] => Ok [] | e :: l => x ← sign_entry k e; xs ← sign_entries k l; Ok (x :: xs) end.

(** [LockInit]. *)
Definition LockInit (a : LockAnswers) (s : Locker) : Locker * list rpc * result lock_op_error LockResult :=
  if negb (loConnected s) then (s, [], Err NotConnected)
  else
    match dOffered (loDaemon s) with
    | None => (s, [], Err NoMap)
    | Some offered =>
        if match pinned s with Some rec => Enabled (record rec) | None => false end then (s, [], Err AlreadyEnabled)
        else
          let gen := match pinned s with Some rec => u64 (Generation (record rec) + 1) | None => 1 end in
          match ensureLockKey a s with
          | (s, Err e) => (s, [], Err e)
          | (s, Ok (k, _)) =>
              match sign_entries k (init_entries s offered) with
              | Err e => (s, [], Err e)
              | Ok l =>
                  let rec := {| Generation := gen; Disabled := false; Signers := [{| sKey := Public k; sPeerID := me s |}] |} in
                  let '(s, reqs, r) := setLockRecord a k rec l.*1 s in
                  (s, reqs, match r with
                            | Ok _ => Ok {| lrGeneration := gen; lrSigner := Fingerprint (Public k); lrSigned := l.*2; lrPublicKey := KeyText (Public k) |}
                            | Err e => Err e
                            end)
              end
          end
    end.

(** [LockSign]: the entries chosen by names, and each signed once. *)
Fixpoint choose (all : list LockPeer) (names : list string) : result lock_op_error (list LockPeer) :=
  match names with
  | [] => Ok []
  | n :: names =>
      let n := StripZone n in
      c ← (if bool_decide (n = "all") then Ok (filter (λ p, lpSigned p = false) all)
           else match list_find (λ p, lpName p = n) all with Some (_, p) => Ok [p] | None => Err ErrUnknownPeer end);
      cs ← choose all names; Ok (c ++ cs)
  end.

Fixpoint once (seen : list string) (l : list LockPeer) : list LockPeer :=
  match l with
  | [] => []
  | p :: l => if decide (lpID p ∈ seen) then once seen l else p :: once (lpID p :: seen) l
  end.

(** The requests sent, the entries signed, and the error that ended it. *)
Fixpoint sign_each (ok : nat → bool) (k : PrivateKey) (l : list LockPeer) : list rpc * list LockSigned * option lock_op_error :=
  match l with
  | [] => ([], [], None)
  | p :: l =>
      match peerSigning k (lpID p) (lpName p) (lpPublicKey p) with
      | Err e => ([], [], Some e)
      | Ok (req, fp) =>
          if negb (ok 0%nat) then ([SignPeer req], [], Some ErrRpc)
          else
            let '(reqs, done, e) := sign_each (λ n, ok (S n)) k l in
            (SignPeer req :: reqs, {| lsName := lpName p; lsFingerprint := fp |} :: done, e)
      end
  end.

Definition LockSign (a : LockAnswers) (names : list string) (s : Locker) : Locker * list rpc * result lock_op_error LockResult :=
  match signerContext s with
  | Err e => (s, [], Err e)
  | Ok (k, rec) =>
      match laList a with
      | None => (s, [ListLockPeers], Err ErrRpc)
      | Some (hub, peers) =>
          match choose (hub :: peers) names with
          | Err e => (s, [ListLockPeers], Err e)
          | Ok chosen =>
              let '(reqs, signed, e) := sign_each (laSigned a) k (once [] chosen) in
              (s, ListLockPeers :: reqs,
               match e with
               | Some e => Err e
               | None => Ok {| lrGeneration := Generation (record rec); lrSigner := Fingerprint (Public k);
                               lrSigned := stable_sort (λ a b, str_ltb (lsName a) (lsName b)) signed; lrPublicKey := "" |}
               end)
          end
      end
  end.

(** [LockKey]; the second part says whether the stream is restarted. *)
Definition LockKey (a : LockAnswers) (s : Locker) : Locker * bool * result lock_op_error LockResult :=
  match ensureLockKey a s with
  | (s, Err e) => (s, false, Err e)
  | (s, Ok (k, created)) =>
      (s, created, Ok {| lrGeneration := match pinned s with Some rec => Generation (record rec) | None => 0 end; lrSigner := Fingerprint (Public k);
                         lrSigned := []; lrPublicKey := KeyText (Public k) |})
  end.

(** [LockAddSigner]; [expected] is what a person typed. *)
Definition LockAddSigner (a : LockAnswers) (name expected : string) (s : Locker) : Locker * list rpc * result lock_op_error LockResult :=
  let expected := of_chars (trim_space (chars expected)) in
  if bool_decide (ParsePublicKey expected = None) then (s, [], Err ErrLockKeyMismatch)
  else
    match signerContext s with
    | Err e => (s, [], Err e)
    | Ok (k, rec) =>
        let name := StripZone name in
        match laList a with
        | None => (s, [ListLockPeers], Err ErrRpc)
        | Some (_, peers) =>
            match list_find (λ p, lpName p = name) peers with
            | None => (s, [ListLockPeers], Err ErrUnknownPeer)
            | Some (_, p) =>
                if bool_decide (lpLockKey p = "") then (s, [ListLockPeers], Err NoKeyReported)
                else
                  match ParsePublicKey (lpLockKey p) with
                  | None => (s, [ListLockPeers], Err BadLockKey)
                  | Some key =>
                      if negb (matchesLockKey key expected) then (s, [ListLockPeers], Err ErrLockKeyMismatch)
                      else
                        let next := {| Generation := u64 (Generation (record rec) + 1); Disabled := false;
                                       Signers := Signers (record rec) ++ [{| sKey := key; sPeerID := lpID p |}] |} in
                        let '(s, reqs, r) := setLockRecord a k next [] s in
                        (s, ListLockPeers :: reqs,
                         match r with
                         | Ok _ => Ok {| lrGeneration := Generation next; lrSigner := Fingerprint (Public k);
                                         lrSigned := [{| lsName := name; lsFingerprint := Fingerprint key |}]; lrPublicKey := "" |}
                         | Err e => Err e
                         end)
                  end
            end
        end
    end.

(** [LockDisable]. *)
Definition LockDisable (a : LockAnswers) (s : Locker) : Locker * list rpc * result lock_op_error LockResult :=
  match signerContext s with
  | Err e => (s, [], Err e)
  | Ok (k, rec) =>
      let next := {| Generation := u64 (Generation (record rec) + 1); Disabled := true; Signers := Signers (record rec) |} in
      let '(s, reqs, r) := setLockRecord a k next [] s in
      (s, reqs, match r with
                | Ok _ => Ok {| lrGeneration := Generation next; lrSigner := Fingerprint (Public k); lrSigned := []; lrPublicKey := "" |}
                | Err e => Err e
                end)
  end.

(** [selfRotation]: signer and signature, empty where the device signs nothing. *)
Definition selfRotation (newKey : list byte) (s : Locker) : result lock_op_error (string * string) :=
  match pinned s with
  | Some rec =>
      if KeyIsZero (loKey s) || negb (Enabled (record rec)) || negb (names_me s (record rec)) then Ok ("", "")
      else
        msg ← of_bytes (peerBytes {| rID := me s; rName := stName (dState (loDaemon s)); rKey := PublicKeyOf newKey |});
        sig ← SignMsg (loKey s) msg;
        Ok (KeyText (Public (loKey s)), SignatureText sig)
  | None => Ok ("", "")
  end.

(** [RotateKey] with the key it generated; [taken] and [keySaved] are the
    server's and the disk's answers. *)
Definition RotateOwnKey (a : Answers) (newKey : option (list byte)) (taken keySaved : bool) (s : Locker) : Locker * list rpc * result lock_op_error unit :=
  if negb (loConnected s) then (s, [], Err NotConnected)
  else
    match newKey with
    | None => (s, [], Err ErrGenerate)
    | Some newKey =>
        match selfRotation newKey s with
        | Err e => (s, [], Err e)
        | Ok (signer, sig) =>
            let req := [RotateKey (KeyString (PublicKeyOf newKey)) signer sig] in
            if negb taken then (s, req, Err ErrRpc)
            else if negb keySaved then (s, req, Err ErrSaveKey)
            else
              let '(d, e) := switch_key Verify ParseKey LookupNetIP a newKey (loDaemon s) in
              (with_daemon d s, req, match e with None => Ok () | Some e => Err (ErrAdopt e) end)
        end
    end.

(** ** Status *)

Record LockSignerStatus := { ssPeerID : string; ssName : string; ssKey : string; ssFingerprint : string }.
Record LockStatus := {
  ltEnabled : bool; ltSigner : bool; ltHasKey : bool; ltGeneration : Z; ltSigners : list LockSignerStatus; ltRejected : option rejection; ltSelfSigned : bool;
}.

(** The names of peers by id: its own, and those of the map offered. *)
Definition known_names (s : Locker) : gmap string string :=
  foldl (λ m p, <[pID p := pName p]> m) {[me s := stName (dState (loDaemon s))]} (match dOffered (loDaemon s) with Some nm => mPeers nm | None => [] end).

Definition lockStatusLocked (s : Locker) : LockStatus :=
  let off gen := {| ltEnabled := false; ltSigner := false; ltHasKey := negb (KeyIsZero (loKey s)); ltGeneration := gen; ltSigners := [];
                    ltRejected := dRejected (loDaemon s); ltSelfSigned := false |} in
  match pinned s with
  | None => off 0
  | Some rec =>
      if negb (Enabled (record rec)) then off (Generation (record rec))
      else
        {| ltEnabled := true;
           ltSigner := existsb (λ g, negb (KeyIsZero (loKey s)) && bool_decide (sKey g = Public (loKey s)) && bool_decide (sPeerID g = me s)) (Signers (record rec));
           ltHasKey := negb (KeyIsZero (loKey s)); ltGeneration := Generation (record rec);
           ltSigners := (λ g, {| ssPeerID := sPeerID g; ssName := default "" (known_names s !! sPeerID g); ssKey := KeyText (sKey g);
                                 ssFingerprint := Fingerprint (sKey g) |}) <$> Signers (record rec);
           ltRejected := dRejected (loDaemon s);
           ltSelfSigned := match dOffered (loDaemon s) with
                           | Some nm => signedBy Verify ParseKey (record rec) (me s) (stName (dState (loDaemon s))) (KeyString (PublicKeyOf (dKey (loDaemon s)))) (mSelfSignatures nm)
                           | None => false
                           end |}
  end.
End Lock.
