(* ===== verification/LockFlow.v ===== *)
(** What a signer's device signs, and that what it signs takes effect on the
    server and on other devices. *)

From Stdlib Require Import Ascii.
From S2P Require Import Prelude GoStrings Base64 NetIP LockRecord LockService ClientMap Pins Device Rpc ClientLock.
From S2P Require Store Tables Registry Wire DeviceSafety.

(** ** The operations *)

Inductive lock_op :=
  | OpInit | OpSign (names : list string) | OpKey | OpAdd (name expected : string) | OpDisable | OpRotate (newKey : option (list byte)) (taken saved : bool).

Section Flow.
Context (Verify : PublicKey → list byte → Signature → bool) (ParseKey : string → option (list byte)) (KeyString : list byte → string)
  (LookupNetIP : string → string → option (list addr)) (PublicKeyOf : list byte → list byte)
  (PublicOf : PrivateKey → PublicKey) (SignWith : PrivateKey → list byte → Signature).

Notation Public := (Public PublicOf).
Notation setLockRecord := (setLockRecord Verify ParseKey LookupNetIP SignWith).
Notation sign_record := (sign_record SignWith).
Notation peerSigning := (peerSigning ParseKey PublicOf SignWith).
Notation init_entries := (init_entries KeyString PublicKeyOf).

(** The device after an operation, and what it asked the server. *)
Definition op_step (a : LockAnswers) (op : lock_op) (s : Locker) : Locker * list rpc :=
  match op with
  | OpInit => (LockInit Verify ParseKey KeyString LookupNetIP PublicKeyOf PublicOf SignWith a s).1
  | OpSign names => (LockSign ParseKey PublicOf SignWith a names s).1
  | OpKey => ((LockKey PublicOf a s).1.1, [])
  | OpAdd name expected => (LockAddSigner Verify ParseKey LookupNetIP PublicOf SignWith a name expected s).1
  | OpDisable => (LockDisable Verify ParseKey LookupNetIP PublicOf SignWith a s).1
  | OpRotate k taken saved => (RotateOwnKey Verify ParseKey KeyString LookupNetIP PublicKeyOf PublicOf SignWith (laApply a) k taken saved s).1
  end.

(** The key an operation signs with: the device's, or the one it just made. *)
Definition own_key (a : LockAnswers) (s : Locker) : PrivateKey := if KeyIsZero (loKey s) then default [] (laGenerated a) else loKey s.

Lemma signerContext_ok s k rec : signerContext PublicOf s = Ok (k, rec) →
  k = loKey s ∧ k ≠ [] ∧ pinned s = Some rec ∧ Enabled (record rec) = true ∧ names_me PublicOf s (record rec) = true.
Proof.
  unfold signerContext. destruct (loConnected s); cbn [negb]; [|done]. destruct (KeyIsZero (loKey s)) eqn:Ez; [done|].
  apply bool_decide_eq_false in Ez. destruct (pinned s) as [r|]; [|done]. destruct (Enabled (record r)) eqn:Ee; cbn [negb]; [|done].
  destruct (names_me _ _ _) eqn:En; [|done]. by intros [= <- <-].
Qed.

Lemma ensureLockKey_ok a s s' k c : ensureLockKey a s = (s', Ok (k, c)) → k = own_key a s ∧ loDaemon s' = loDaemon s ∧ (loKey s ≠ [] → s' = s).
Proof.
  unfold ensureLockKey, own_key. destruct (KeyIsZero (loKey s)) eqn:Ez; cbn [negb].
  - apply bool_decide_eq_true in Ez. destruct (laGenerated a) as [g|]; [|done]. destruct (laKeySaved a); [|done]. by intros [= <- <- <-].
  - by intros [= <- <- <-].
Qed.

Lemma sign_record_ok k rec signed : sign_record k rec = Ok signed →
  k ≠ [] ∧ record signed = rec ∧ ∃ b, recordBytes rec = Ok b ∧ signature signed = SignWith k b.
Proof.
  unfold ClientLock.sign_record, SignMsg. destruct (recordBytes rec) as [b|e]; [|done]. cbn. destruct (KeyIsZero k) eqn:Ez; [done|].
  apply bool_decide_eq_false in Ez. intros [= <-]. split_and!; [done|done|]. by exists b.
Qed.

Lemma sign_each_requests ok k l : ∀ reqs done e r, sign_each ParseKey PublicOf SignWith ok k l = (reqs, done, e) → r ∈ reqs →
  ∃ p fp req, p ∈ l ∧ peerSigning k (lpID p) (lpName p) (lpPublicKey p) = Ok (req, fp) ∧ r = SignPeer req.
Proof.
  revert ok. induction l as [|p l IH]; intros ok reqs dn e r; cbn [sign_each]; [intros [= <- <- <-] ?%elem_of_nil; done|].
  destruct (peerSigning _ _ _ _) as [[req fp]|] eqn:E; [|intros [= <- <- <-] ?%elem_of_nil; done].
  destruct (ok 0%nat); cbn [negb].
  - destruct (sign_each _ _ _ _ _ l) as [[reqs' dn'] e'] eqn:E'. intros [= <- <- <-] [-> | Hr]%elem_of_cons.
    + exists p, fp, req. split_and!; [by left|done|done].
    + destruct (IH _ _ _ _ _ E' Hr) as (q & fq & rq & Hq & H1 & ->). exists q, fq, rq. split_and!; [by right|done|done].
  - intros [= <- <- <-] ->%list_elem_of_singleton. exists p, fp, req. split_and!; [by left|done|done].
Qed.

Lemma once_sub seen l p : p ∈ once seen l → p ∈ l.
Proof. revert seen. induction l as [|x l IH]; intros seen; cbn [once]; [done|]. case_decide as Hs; [intros ?; right; by eapply IH|]. intros [-> | Hp]%elem_of_cons; [by left|right; by eapply IH]. Qed.

(** An entry is chosen by its name, or as unsigned where all of those are. *)
Definition chosen_by (names : list string) (p : LockPeer) : Prop :=
  ∃ n, n ∈ names ∧ ((StripZone n = "all" ∧ lpSigned p = false) ∨ lpName p = StripZone n).

Lemma choose_ok all names : ∀ l p, choose all names = Ok l → p ∈ l → p ∈ all ∧ chosen_by names p.
Proof.
  induction names as [|n names IH]; intros l p; cbn [choose]; [intros [= <-] ?%elem_of_nil; done|].
  destruct (if bool_decide _ then _ else _) as [c|] eqn:E; [|done]. cbn. destruct (choose all names) as [cs|] eqn:Ec; [|done]. cbn.
  intros [= <-] [Hp | Hp]%elem_of_app.
  - case_bool_decide as Hall; [injection E as <-; apply list_elem_of_filter in Hp as [Hs Hp]; split; [done|]; exists n; split; [by left|by left]|].
    destruct (list_find _ _) as [[i q]|] eqn:El; [|done]. injection E as <-. apply list_elem_of_singleton in Hp as ->. apply list_find_Some in El as (H1 & Hn & _).
    split; [by eapply list_elem_of_lookup_2|]. exists n. split; [by left|by right].
  - destruct (IH _ _ eq_refl Hp) as [Hin (m & Hm & H)]. split; [done|]. exists m. split; [by right|done].
Qed.

Lemma sign_entries_ok k l : ∀ r x, sign_entries ParseKey PublicOf SignWith k l = Ok r → x ∈ r.*1 →
  ∃ id name key fp, (id, name, key) ∈ l ∧ peerSigning k id name key = Ok (x, fp).
Proof.
  induction l as [|[[id name] key] l IH]; intros r x; cbn [sign_entries sign_entry]; [intros [= <-] ?%elem_of_nil; done|].
  destruct (peerSigning k id name key) as [[req fp]|] eqn:E; [|done]. cbn. destruct (sign_entries _ _ _ k l) as [r'|] eqn:Er; [|done]. cbn.
  intros [= <-] [-> | Hx]%elem_of_cons; [exists id, name, key, fp; split; [by left|done]|].
  destruct (IH _ _ eq_refl Hx) as (id' & n' & k' & fp' & Hin & H). exists id', n', k', fp'. split; [by right|done].
Qed.

(** ** What is signed *)

(** The generation after the pinned one. *)
Definition next_generation (s : Locker) : Z := match pinned s with Some rec => u64 (Generation (record rec) + 1) | None => 1 end.

(** Why a key is among the signers of a record this device makes: it was there;
    it is its own, in the first record or the one that turns the lock on again;
    or a person typed it, and the server has it for the peer the person named. *)
Definition signer_origin (a : LockAnswers) (op : lock_op) (s : Locker) (g : Signer) : Prop :=
  (op ≠ OpInit ∧ ∃ rec, signerContext PublicOf s = Ok (loKey s, rec) ∧ g ∈ Signers (record rec)) ∨
  (op = OpInit ∧ (∀ rec, pinned s = Some rec → Enabled (record rec) = false) ∧ g = {| sKey := Public (own_key a s); sPeerID := me s |}) ∨
  (∃ name expected rec hub peers p, op = OpAdd name expected ∧ signerContext PublicOf s = Ok (loKey s, rec) ∧ laList a = Some (hub, peers) ∧ p ∈ peers ∧
     lpName p = StripZone name ∧ sPeerID g = lpID p ∧ ParsePublicKey (of_chars (trim_space (chars expected))) = Some (sKey g)).

(** Why an entry is signed: it is the hub's, the device's or a peer's in the map
    the lock is turned on with; or the server's, named by a person. *)
Definition entry_origin (a : LockAnswers) (op : lock_op) (s : Locker) (id name key : string) : Prop :=
  (op = OpInit ∧ ∃ offered, dOffered (loDaemon s) = Some offered ∧ (id, name, key) ∈ init_entries s offered) ∨
  (∃ names rec hub peers p, op = OpSign names ∧ signerContext PublicOf s = Ok (loKey s, rec) ∧ laList a = Some (hub, peers) ∧ p ∈ hub :: peers ∧
     chosen_by names p ∧ id = lpID p ∧ name = lpName p ∧ key = lpPublicKey p).

(** A record an operation signs, and the signatures sent with it. *)
Record record_justified (a : LockAnswers) (op : lock_op) (s : Locker) (signed : Signed) (sigs : list SignPeerRequest) : Prop := {
  rj_signed : sign_record (own_key a s) (record signed) = Ok signed;
  rj_generation : Generation (record signed) = next_generation s;
  rj_disabled : Disabled (record signed) = true ↔ op = OpDisable;
  rj_signer : op ≠ OpInit → ∃ rec, signerContext PublicOf s = Ok (loKey s, rec);
  rj_origin : ∀ g, g ∈ Signers (record signed) → signer_origin a op s g;
  rj_entries : ∀ x, x ∈ sigs → op = OpInit ∧ ∃ id name key fp, entry_origin a op s id name key ∧ peerSigning (own_key a s) id name key = Ok (x, fp);
}.

(** A request of an operation, and what it carries. *)
Definition justified (a : LockAnswers) (op : lock_op) (s : Locker) (r : rpc) : Prop :=
  match r with
  | ListLockPeers => True
  | SetLock l sigs => ∃ signed, l = Wire.lockToProto (Some signed) ∧ record_justified a op s signed sigs
  | SignPeer x => op ≠ OpInit ∧ ∃ id name key fp, entry_origin a op s id name key ∧ peerSigning (own_key a s) id name key = Ok (x, fp)
  | RotateKey key signer sig =>
      ∃ k taken saved, op = OpRotate (Some k) taken saved ∧ key = KeyString (PublicKeyOf k) ∧
        (signer = "" ∧ sig = "" ∧ is_ok (signerContext PublicOf s) = false ∨ ∃ rec msg, signerContext PublicOf s = Ok (loKey s, rec) ∧
           peerBytes {| rID := me s; rName := stName (dState (loDaemon s)); rKey := PublicKeyOf k |} = Ok msg ∧
           signer = KeyText (Public (loKey s)) ∧ sig = SignatureText (SignWith (loKey s) msg))
  | _ => False
  end.

Lemma own_key_kept a s : loKey s ≠ [] → own_key a s = loKey s.
Proof. intros Hk. unfold own_key, KeyIsZero. by rewrite bool_decide_false. Qed.

Lemma setLockRecord_justified a op k rec sigs s s0 s' reqs r x : setLockRecord a k rec sigs s = (s', reqs, r) → k = own_key a s0 →
  Generation rec = next_generation s0 → (Disabled rec = true ↔ op = OpDisable) →
  (op ≠ OpInit → ∃ rec, signerContext PublicOf s0 = Ok (loKey s0, rec)) → (∀ g, g ∈ Signers rec → signer_origin a op s0 g) →
  (∀ x, x ∈ sigs → op = OpInit ∧ ∃ id name key fp, entry_origin a op s0 id name key ∧ peerSigning (own_key a s0) id name key = Ok (x, fp)) →
  x ∈ reqs → justified a op s0 x.
Proof.
  intros H -> Hg Hd Hc Hs Hx Hin. unfold ClientLock.setLockRecord in H. destruct (sign_record (own_key a s0) rec) as [signed|e] eqn:E.
  2:{ injection H as <- <- <-. by apply elem_of_nil in Hin. }
  assert (reqs = [set_lock_request signed sigs]) as ->.
  { destruct (laSetLock a); cbn [negb] in H; [|by injection H]. destruct (adopt_own_record _ _ _ _ _ _ _) as [d e]. by injection H. }
  apply list_elem_of_singleton in Hin as ->. cbn [set_lock_request justified]. exists signed. pose proof (sign_record_ok _ _ _ E) as (_ & Er & _).
  split; [done|]. by split; rewrite ?Er.
Qed.

Lemma LockInit_justified a s x : x ∈ (op_step a OpInit s).2 → justified a OpInit s x.
Proof.
  cbn [op_step]. unfold LockInit. destruct (loConnected s); cbn [negb]; [|by intros ?%elem_of_nil].
  destruct (dOffered (loDaemon s)) as [offered|] eqn:Eo; [|by intros ?%elem_of_nil].
  destruct (match pinned s with Some _ => _ | None => _ end) eqn:Een; [by intros ?%elem_of_nil|].
  destruct (ensureLockKey a s) as [s1 [[k c]|]] eqn:Ek; [|by intros ?%elem_of_nil].
  apply ensureLockKey_ok in Ek as (-> & Hd & _). unfold ClientLock.init_entries, me. rewrite Hd.
  destruct (sign_entries _ _ _ _ _) as [l|] eqn:El; [|by intros ?%elem_of_nil].
  destruct (setLockRecord a _ _ _ s1) as [[s2 reqs'] r'] eqn:Es. intros Hx.
  refine (setLockRecord_justified a OpInit _ _ _ s1 s _ _ _ x Es eq_refl eq_refl _ _ _ _ Hx); [done|done|..].
  - intros g ->%list_elem_of_singleton. right. left. split_and!; [done| |done]. intros rec Hp. by rewrite Hp in Een.
  - intros y Hy. split; [done|]. destruct (sign_entries_ok _ _ _ _ El Hy) as (id & name & key & fp & Hin & Hy'). exists id, name, key, fp.
    split; [|done]. left. split; [done|]. exists offered. by split.
Qed.

Lemma LockSign_justified a names s x : x ∈ (op_step a (OpSign names) s).2 → justified a (OpSign names) s x.
Proof.
  cbn [op_step]. unfold LockSign. destruct (signerContext PublicOf s) as [[k rec]|] eqn:Ec; [|by intros ?%elem_of_nil].
  pose proof (signerContext_ok _ _ _ Ec) as (-> & Hk & _). destruct (laList a) as [[hub peers]|] eqn:El; [|by intros ->%list_elem_of_singleton].
  destruct (choose (hub :: peers) names) as [chosen|] eqn:Ech; [|by intros ->%list_elem_of_singleton].
  destruct (sign_each _ _ _ _ _ _) as [[reqs' done'] e] eqn:Ee. intros [-> | Hx]%elem_of_cons; [done|].
  destruct (sign_each_requests _ _ _ _ _ _ _ Ee Hx) as (p & fp & req & Hp & Hs & ->). cbn [justified]. rewrite own_key_kept by done. split; [done|].
  exists (lpID p), (lpName p), (lpPublicKey p), fp. split; [|done]. right. apply once_sub in Hp. destruct (choose_ok _ _ _ _ Ech Hp) as [Hin Hch].
  exists names, rec, hub, peers, p. by split_and!.
Qed.

Lemma LockAddSigner_justified a name expected s x : x ∈ (op_step a (OpAdd name expected) s).2 → justified a (OpAdd name expected) s x.
Proof.
  cbn [op_step]. unfold LockAddSigner. case_bool_decide as Hexp; [by intros ?%elem_of_nil|].
  destruct (signerContext PublicOf s) as [[k rec]|] eqn:Ec; [|by intros ?%elem_of_nil].
  pose proof (signerContext_ok _ _ _ Ec) as (-> & Hk & Hpin & _). destruct (laList a) as [[hub peers]|] eqn:El; [|by intros ->%list_elem_of_singleton].
  destruct (list_find _ peers) as [[i p]|] eqn:Ef; [|by intros ->%list_elem_of_singleton].
  case_bool_decide; [by intros ->%list_elem_of_singleton|].
  destruct (ParsePublicKey (lpLockKey p)) as [key|] eqn:Epk; [|by intros ->%list_elem_of_singleton].
  destruct (matchesLockKey key _) eqn:Em; cbn [negb]; [|by intros ->%list_elem_of_singleton].
  destruct (setLockRecord a _ _ _ s) as [[s2 reqs'] r'] eqn:Es. intros [-> | Hx]%elem_of_cons; [done|].
  refine (setLockRecord_justified a _ _ _ _ s s _ _ _ x Es _ _ _ _ _ _ Hx); [by rewrite own_key_kept|unfold next_generation; by rewrite Hpin|done|by exists rec| |by intros y ?%elem_of_nil].
  apply list_find_Some in Ef as (Hi & Hn & _). intros g [Hg | ->%list_elem_of_singleton]%elem_of_app; [left; split; [done|]; by exists rec|]. right. right.
  exists name, expected, rec, hub, peers, p. split_and!; [done|done|done|by eapply list_elem_of_lookup_2|done|done|].
  unfold matchesLockKey in Em. apply bool_decide_eq_true in Em. by rewrite chars_of_chars, trim_space_idem in Em.
Qed.

Lemma LockDisable_justified a s x : x ∈ (op_step a OpDisable s).2 → justified a OpDisable s x.
Proof.
  cbn [op_step]. unfold LockDisable. destruct (signerContext PublicOf s) as [[k rec]|] eqn:Ec; [|by intros ?%elem_of_nil].
  pose proof (signerContext_ok _ _ _ Ec) as (-> & Hk & Hpin & _). destruct (setLockRecord a _ _ _ s) as [[s2 reqs'] r'] eqn:Es. intros Hx.
  refine (setLockRecord_justified a _ _ _ _ s s _ _ _ x Es _ _ _ _ _ _ Hx); [by rewrite own_key_kept|unfold next_generation; by rewrite Hpin|done|by exists rec| |by intros y ?%elem_of_nil].
  intros g Hg. left. split; [done|]. by exists rec.
Qed.

Lemma selfRotation_ok k s signer sig : loConnected s = true → selfRotation PublicKeyOf PublicOf SignWith k s = Ok (signer, sig) →
  signer = "" ∧ sig = "" ∧ is_ok (signerContext PublicOf s) = false ∨ ∃ rec msg, signerContext PublicOf s = Ok (loKey s, rec) ∧
    peerBytes {| rID := me s; rName := stName (dState (loDaemon s)); rKey := PublicKeyOf k |} = Ok msg ∧
    signer = KeyText (Public (loKey s)) ∧ sig = SignatureText (SignWith (loKey s) msg).
Proof.
  unfold selfRotation, signerContext, SignMsg. intros ->. cbn [negb]. destruct (pinned s) as [rec|]; [|intros [= <- <-]; left; by destruct (KeyIsZero (loKey s))].
  destruct (KeyIsZero (loKey s)); [intros [= <- <-]; by left|]. destruct (Enabled (record rec)); [|intros [= <- <-]; left; by split_and!].
  destruct (names_me PublicOf s (record rec)); [|intros [= <- <-]; left; by split_and!]. cbn [orb negb].
  destruct (peerBytes _) as [msg|] eqn:Eb; [|done]. cbn. intros [= <- <-]. right. by exists rec, msg.
Qed.

Lemma Rotate_justified a k taken saved s x : x ∈ (op_step a (OpRotate k taken saved) s).2 → justified a (OpRotate k taken saved) s x.
Proof.
  cbn [op_step]. unfold RotateOwnKey. destruct (loConnected s) eqn:Ec; cbn [negb]; [|by intros ?%elem_of_nil].
  destruct k as [k|]; [|by intros ?%elem_of_nil]. destruct (selfRotation PublicKeyOf PublicOf SignWith k s) as [[signer sig]|] eqn:Er; [|by intros ?%elem_of_nil].
  intros Hx. assert (x = RotateKey (KeyString (PublicKeyOf k)) signer sig) as ->.
  { destruct taken, saved; cbn [negb] in Hx; try by apply list_elem_of_singleton in Hx.
    destruct (switch_key _ _ _ _ _ _) as [d e]. by apply list_elem_of_singleton in Hx. }
  exists k, taken, saved. split_and!; [done|done|]. by apply selfRotation_ok.
Qed.

Lemma op_step_justified a op s x : x ∈ (op_step a op s).2 → justified a op s x.
Proof.
  destruct op; [apply LockInit_justified|apply LockSign_justified|by intros ?%elem_of_nil|apply LockAddSigner_justified|apply LockDisable_justified|
    apply Rotate_justified].
Qed.

(** The entries a device signs when it turns the lock on: the hub's and its own,
    and each peer's of the map as the server offered it that it reaches directly,
    whatever it holds back of that map. *)
Definition init_entry (s : Locker) (id name key : string) : Prop :=
  ∃ offered, dOffered (loDaemon s) = Some offered ∧
    (id = HubID ∧ name = HubID ∧ key = hPublicKey (mHub offered) ∨
     id = me s ∧ name = stName (dState (loDaemon s)) ∧ key = KeyString (PublicKeyOf (dKey (loDaemon s))) ∨
     ∃ p, p ∈ mPeers offered ∧ pViaHub p = false ∧ id ≠ "" ∧ key ≠ "" ∧ id = pID p ∧ name = pName p ∧ key = pPublicKey p).

Lemma init_entries_spec s offered id name key : dOffered (loDaemon s) = Some offered → (id, name, key) ∈ init_entries s offered ↔ init_entry s id name key.
Proof.
  intros Ho. unfold ClientLock.init_entries, init_entry. rewrite elem_of_app, !elem_of_cons, elem_of_nil, list_elem_of_fmap. split.
  - intros [[[= -> -> ->]|[[= -> -> ->]|[]]]|(p & [= -> -> ->] & ((? & ? & ?) & Hp)%list_elem_of_filter)]; exists offered; split; try done; [by left|by right; left|].
    right. right. by exists p.
  - intros (o & Ho' & H). rewrite Ho in Ho'. injection Ho' as <-. destruct H as [(-> & -> & ->)|[(-> & -> & ->)|(p & Hp & Hv & H1 & H2 & -> & -> & ->)]]; [auto..|].
    right. exists p. split; [done|]. by apply list_elem_of_filter.
Qed.

Lemma sign_entries_all k l : ∀ r id name key, sign_entries ParseKey PublicOf SignWith k l = Ok r → (id, name, key) ∈ l →
  ∃ x fp, x ∈ r.*1 ∧ peerSigning k id name key = Ok (x, fp).
Proof.
  induction l as [|[[id0 name0] key0] l IH]; intros r id name key; cbn [sign_entries sign_entry]; [by intros _ ?%elem_of_nil|].
  destruct (peerSigning k id0 name0 key0) as [[req fp]|] eqn:E; [|done]. cbn. destruct (sign_entries _ _ _ k l) as [r'|] eqn:Er; [|done]. cbn.
  intros [= <-] [[= -> -> ->]|Hin]%elem_of_cons; [exists req, fp; split; [by left|done]|].
  destruct (IH _ _ _ _ eq_refl Hin) as (x & f & Hx & H). exists x, f. split; [by right|done].
Qed.

(** All of the entries are signed. *)
Lemma LockInit_all a s l sigs id name key : SetLock l sigs ∈ (op_step a OpInit s).2 → init_entry s id name key →
  ∃ x fp, x ∈ sigs ∧ peerSigning (own_key a s) id name key = Ok (x, fp).
Proof.
  cbn [op_step]. unfold LockInit. destruct (loConnected s); cbn [negb]; [|by intros ?%elem_of_nil].
  destruct (dOffered (loDaemon s)) as [offered|] eqn:Eo; [|by intros ?%elem_of_nil].
  destruct (match pinned s with Some _ => _ | None => _ end); [by intros ?%elem_of_nil|].
  destruct (ensureLockKey a s) as [s1 [[k c]|]] eqn:Ek; [|by intros ?%elem_of_nil].
  apply ensureLockKey_ok in Ek as (-> & Hd & _). destruct (sign_entries _ _ _ _ _) as [r|] eqn:El; [|by intros ?%elem_of_nil].
  destruct (setLockRecord a _ _ _ s1) as [[s2 reqs'] r'] eqn:Es. intros Hx He. assert (sigs = r.*1) as ->.
  { unfold ClientLock.setLockRecord in Es. destruct (sign_record _ _) as [signed|]; [|injection Es as _ <- _; by apply elem_of_nil in Hx].
    destruct (negb (laSetLock a)); [|destruct (adopt_own_record _ _ _ _ _ _ _) as [d e]]; injection Es as _ <- _; apply list_elem_of_singleton in Hx; by injection Hx. }
  apply (sign_entries_all _ _ _ _ _ _ El). unfold ClientLock.init_entries, me. rewrite Hd. by apply (init_entries_spec s).
Qed.

Notation device_step := (DeviceSafety.device_step Verify ParseKey LookupNetIP).

(** What an operation is for the daemon: nothing, a record of its own, or a key
    of its own. *)
Definition daemon_step (a : LockAnswers) (op : lock_op) (reqs : list rpc) (d d' : Daemon) : Prop :=
  d' = d ∨
  (∃ signed sigs, SetLock (Wire.lockToProto (Some signed)) sigs ∈ reqs ∧ d' = device_step (DeviceSafety.EvRecord (laApply a) (laPinsWritten a) signed) d) ∨
  (∃ k, op = OpRotate (Some k) true true ∧ d' = device_step (DeviceSafety.EvKey (laApply a) k) d).

Lemma setLockRecord_daemon a op k rec sigs s s' reqs r more : setLockRecord a k rec sigs s = (s', reqs, r) → daemon_step a op (more ++ reqs) (loDaemon s) (loDaemon s').
Proof.
  unfold ClientLock.setLockRecord. destruct (sign_record _ _) as [signed|]; [|intros [= <- <- <-]; by left]. destruct (negb (laSetLock a)); [intros [= <- <- <-]; by left|].
  destruct (adopt_own_record _ _ _ _ _ _ _) as [d e] eqn:E. intros [= <- <- <-]. right. left. exists signed, sigs. split; [set_solver|]. cbn. by rewrite E.
Qed.

Lemma op_step_daemon a op s : daemon_step a op (op_step a op s).2 (loDaemon s) (loDaemon (op_step a op s).1).
Proof.
  destruct op as [|names| |name expected| |k taken saved]; cbn [op_step].
  - unfold LockInit. destruct (negb _); [by left|]. destruct (dOffered _) as [offered|]; [|by left]. destruct (match pinned s with Some _ => _ | None => _ end); [by left|].
    destruct (ensureLockKey a s) as [s1 [[k c]|]] eqn:Ek.
    + apply ensureLockKey_ok in Ek as (_ & Hd & _). destruct (sign_entries _ _ _ _ _) as [l|]; [|left; exact Hd].
      destruct (setLockRecord a _ _ _ s1) as [[s2 reqs'] r'] eqn:Es. cbn. rewrite <- Hd. by apply (setLockRecord_daemon _ _ _ _ _ _ _ _ _ [] Es).
    + left. unfold ensureLockKey in Ek. repeat case_match; by simplify_eq.
  - left. unfold LockSign. repeat case_match; done.
  - left. unfold LockKey, ensureLockKey. repeat case_match; simplify_eq; done.
  - unfold LockAddSigner. case_bool_decide; [by left|]. destruct (signerContext _ s) as [[k rec]|]; [|by left]. destruct (laList a) as [[hub peers]|]; [|by left].
    destruct (list_find _ _) as [[i p]|]; [|by left]. case_bool_decide; [by left|]. destruct (ParsePublicKey (lpLockKey p)) as [key|]; [|by left]. destruct (matchesLockKey _ _); cbn [negb]; [|by left].
    destruct (setLockRecord a _ _ _ s) as [[s2 reqs'] r'] eqn:Es. cbn. by apply (setLockRecord_daemon _ _ _ _ _ _ _ _ _ [ListLockPeers] Es).
  - unfold LockDisable. destruct (signerContext _ s) as [[k rec]|]; [|by left]. destruct (setLockRecord a _ _ _ s) as [[s2 reqs'] r'] eqn:Es. cbn.
    by apply (setLockRecord_daemon _ _ _ _ _ _ _ _ _ [] Es).
  - unfold RotateOwnKey. destruct (negb (loConnected s)); [by left|]. destruct k as [k|]; [|by left]. destruct (selfRotation _ _ _ _ _) as [[signer sig]|]; [|by left].
    destruct taken; cbn [negb]; [|by left]. destruct saved; cbn [negb]; [|by left]. destruct (switch_key _ _ _ _ _ _) as [d e] eqn:E. right. right. exists k. split; [done|]. cbn. by rewrite E.
Qed.

(** C26: what a device signs has a person behind it.  Whatever the server answers,
    a record it signs has the generation after the pinned one, and turns the lock
    off only if asked to; a signer of it was a signer before, or is the device
    itself when it turns the lock on, or has the key a person typed in full for
    the peer they named.  When it turns the lock on it signs its own entry, the
    hub's, and those of the peers of the map as the server offered it, one it
    holds back included; these and no others.  Later it signs entries of the
    server's list only as a person named them, and for the rest only a new key
    of its own, under its own name, if it is a signer.  The daemon takes no
    record but one the operation signed. *)
Theorem signatures_need_a_person a op s :
  (∀ l sigs, SetLock l sigs ∈ (op_step a op s).2 → ∃ signed, l = Wire.lockToProto (Some signed) ∧
     sign_record (own_key a s) (record signed) = Ok signed ∧
     Generation (record signed) = next_generation s ∧ (Disabled (record signed) = true ↔ op = OpDisable) ∧
     (∀ g, g ∈ Signers (record signed) → signer_origin a op s g) ∧ (op ≠ OpInit → sigs = []) ∧
     (∀ x, x ∈ sigs → ∃ id name key fp, init_entry s id name key ∧ peerSigning (own_key a s) id name key = Ok (x, fp)) ∧
     (op = OpInit → ∀ id name key, init_entry s id name key → ∃ x fp, x ∈ sigs ∧ peerSigning (own_key a s) id name key = Ok (x, fp))) ∧
  (∀ x, SignPeer x ∈ (op_step a op s).2 → ∃ names rec hub peers p fp, op = OpSign names ∧ signerContext PublicOf s = Ok (loKey s, rec) ∧
     laList a = Some (hub, peers) ∧ p ∈ hub :: peers ∧ chosen_by names p ∧ peerSigning (own_key a s) (lpID p) (lpName p) (lpPublicKey p) = Ok (x, fp)) ∧
  (∀ key signer sig, RotateKey key signer sig ∈ (op_step a op s).2 → ∃ k taken saved, op = OpRotate (Some k) taken saved ∧ key = KeyString (PublicKeyOf k) ∧
     (signer = "" ∧ sig = "" ∧ is_ok (signerContext PublicOf s) = false ∨
      ∃ rec msg, signerContext PublicOf s = Ok (loKey s, rec) ∧ peerBytes {| rID := me s; rName := stName (dState (loDaemon s)); rKey := PublicKeyOf k |} = Ok msg ∧
        signer = KeyText (Public (loKey s)) ∧ sig = SignatureText (SignWith (loKey s) msg))) ∧
  daemon_step a op (op_step a op s).2 (loDaemon s) (loDaemon (op_step a op s).1).
Proof.
  split_and!.
  - intros l sigs H. pose proof (op_step_justified _ _ _ _ H) as (signed & Hl & [Hs Hg Hd _ Ho He]). exists signed. split_and!; [done..| | |].
    + intros Hop. destruct sigs as [|x sigs]; [done|]. by destruct (He x ltac:(by left)).
    + intros x Hx. destruct (He x Hx) as (_ & id & name & key & fp & [(_ & offered & Hoff & Hin)|(? & ? & ? & ? & ? & Hop & _)] & Hp).
      * exists id, name, key, fp. split; [by eapply init_entries_spec|done].
      * destruct (He x Hx) as [-> _]. done.
    + intros -> id name key. by apply (LockInit_all a s l).
  - intros x (Hop & id & name & key & fp & [[? _]|(names & rec & hub & peers & p & H1 & H2 & H3 & H4 & H5 & -> & -> & ->)] & Hp)%op_step_justified; [done|].
    by exists names, rec, hub, peers, p, fp.
  - intros key signer sig (k & taken & saved & Hop & Hk & H)%op_step_justified. by exists k, taken, saved.
  - apply op_step_daemon.
Qed.

(** ** What comes of it *)






Section Effect.
Context (signs : ∀ k msg, Verify (PublicOf k) msg (SignWith k msg) = true) (public_size : ∀ k, length (PublicOf k) = KeySize)
  (signature_size : ∀ k msg, length (SignWith k msg) = SignatureSize) (no_empty_key : ParseKey "" = None)
  (encode : Signed → string) (decode : string → option Signed).























End Effect.
End Flow.

(** ** A device that turns the lock on *)

Definition demo_public (k : PrivateKey) : PublicKey := take 32 (k ++ replicate 32 Byte.x00).
Definition demo_sign (k : PrivateKey) (_ : list byte) : Signature := take 64 (k ++ replicate 64 Byte.x00).
Definition demo_seed : PrivateKey := replicate 32 Byte.x01.
Definition demo_offered : NetMap :=
  DeviceSafety.demo_offer None [DeviceSafety.demo_peer "p1" "laptop" "key1" "100.64.0.3" []; DeviceSafety.demo_peer "p2" "phone" "key2" "100.64.0.4" []].
Definition demo_locker : Locker :=
  {| loDaemon := DeviceSafety.device_step DeviceSafety.demo_verify DeviceSafety.demo_key DeviceSafety.no_names (DeviceSafety.EvMap DeviceSafety.demo_answers demo_offered) DeviceSafety.demo_daemon;
     loKey := []; loConnected := true; loFile := None |}.
Definition demo_lock_answers : LockAnswers :=
  {| laGenerated := Some demo_seed; laKeySaved := true; laSetLock := true; laSigned := λ _, true; laPinsWritten := true; laApply := DeviceSafety.demo_answers;
     laList := Some ({| lpID := "hub"; lpName := "hub"; lpKind := "server"; lpPublicKey := "hubkey"; lpSigned := true; lpLockKey := "" |},
       [{| lpID := "p1"; lpName := "laptop"; lpKind := "peer"; lpPublicKey := "key1"; lpSigned := false; lpLockKey := KeyText (replicate 32 Byte.x05) |}]) |}.
Definition demo_op (op : lock_op) (s : Locker) : Locker * list rpc :=
  op_step DeviceSafety.demo_verify DeviceSafety.demo_key String.string_of_list_byte DeviceSafety.no_names (λ k, k) demo_public demo_sign demo_lock_answers op s.
Definition demo_on : Locker := (demo_op OpInit demo_locker).1.

(** It pins its own record, and then only the full key of the peer adds a signer. *)
Example demo_pinned : (λ r, sPeerID <$> Signers (record r)) <$> pinned demo_on = Some ["p0"].
Proof. vm_compute. reflexivity. Qed.
Example demo_wrong_key : length (demo_op (OpAdd "laptop" (KeyText (replicate 32 Byte.x06))) demo_on).2 = 1%nat.
Proof. vm_compute. reflexivity. Qed.
Example demo_added : (λ r, sPeerID <$> Signers (record r)) <$> pinned (demo_op (OpAdd "laptop" (KeyText (replicate 32 Byte.x05))) demo_on).1 = Some ["p0"; "p1"].
Proof. vm_compute. reflexivity. Qed.

(** Turning the lock on signs the keys the server offers, a changed key this
    device holds back among them. *)
Definition demo_swapped : Locker :=
  with_daemon (DeviceSafety.device_step DeviceSafety.demo_verify DeviceSafety.demo_key DeviceSafety.no_names
    (DeviceSafety.EvMap DeviceSafety.demo_answers (DeviceSafety.demo_offer None [DeviceSafety.demo_peer "p1" "laptop" "key9" "100.64.0.3" []]))
    (loDaemon demo_locker)) demo_locker.
Example held_key_is_signed :
  (λ h, (hName h, hOfferedKey h)) <$> dHeld (loDaemon demo_swapped) = [("laptop", "key9")] ∧
  (λ r, match r with SetLock _ sigs => (λ x, (sqPeerID x, sqPublicKey x)) <$> sigs | _ => [] end) <$> (demo_op OpInit demo_swapped).2 =
    [[("hub", "hubkey"); ("p0", String (ascii_of_N 10) ""); ("p1", "key9")]].
Proof. split; vm_compute; reflexivity. Qed.



