(* ===== verification/HubDevice.v ===== *)
(** The server's own WireGuard interface: [configureHub], [installHubFilter],
    [observeOnce], [noteStaticHandshake] and [pruneRelay] of
    [internal/server/server.go], with [internal/server/overlay6.go].

    The WireGuard key types are parameters.  What the device reports and the
    clocks are inputs. *)

From S2P Require Import Prelude GoStrings NetIP Store Enroll Control Http.
From S2P Require Alloc Compile Endpoints Filter Hub PolicySvc ClientMap.

(** ** The IPv6 overlay *)

Definition MetaOverlayIPv6 : string := "overlay_ipv6".

Inductive overlay6_error := ErrOverlayIPv6Changed | ErrConfigured | ErrRecorded | ErrRandom.

(** [recordedOverlayIPv6] of the metadata's value. *)
Definition recordedOverlayIPv6 (v : option string) : result overlay6_error prefix :=
  match v with None => Ok NoPrefix | Some v => of_option ErrRecorded (ParsePrefix v) end.

Definition sameOverlayIPv6 (configured : string) (stored : prefix) : result overlay6_error unit :=
  if eqs configured "" || negb (PIsValid stored) then Ok ()
  else
    p ← of_option ErrConfigured (ParsePrefix configured);
    if bool_decide (Masked p = stored) then Ok () else Err ErrOverlayIPv6Changed.

(** The choice of [resolveOverlayIPv6]: the prefix, whether it was generated, and
    whether it is recorded already; [rnd] is what was drawn, if it could be. *)
Definition overlay6_choice (configured : string) (rnd : option (list byte)) (recorded : option string) : result overlay6_error (prefix * bool * bool) :=
  stored ← recordedOverlayIPv6 recorded;
  sameOverlayIPv6 configured stored ;;
  if PIsValid stored then Ok (stored, false, true)
  else if negb (eqs configured "") then p ← of_option ErrConfigured (ParsePrefix configured); Ok (Masked p, false, false)
  else p ← of_option ErrRandom (rnd ≫= Alloc.NewULAPrefix); Ok (p, true, false).

(** [resolveOverlayIPv6]: a prefix is recorded on first use. *)
Definition resolveOverlayIPv6 (configured : string) (rnd : option (list byte)) (s : Store) : Store * result overlay6_error (prefix * bool) :=
  match overlay6_choice configured rnd (meta s !! MetaOverlayIPv6) with
  | Err e => (s, Err e)
  | Ok (p, generated, true) => (s, Ok (p, generated))
  | Ok (p, generated, false) => (with_meta (<[MetaOverlayIPv6 := prefix_string p]> (meta s)) s, Ok (p, generated))
  end.

(** ** Configuration *)

Section HubDevice.
Context (ParseKey : string → option (list byte)) (KeyString : list byte → string)
  (hubKey : list byte) (listenPort : Z) (iface : string) (hubAddr : prefix) (overlay6 : prefix).

Definition hubAddr6 : addr := Alloc.IPv6For overlay6 (paddr hubAddr).

Definition hubAddresses : list prefix := hubAddr :: if IsValid hubAddr6 then [PrefixFrom hubAddr6 (pbits overlay6)] else [].

Definition peerIPv6 (p : Peer) : addr :=
  if negb (pIPv6Capable p) || eqs (pIPv6 p) "" then AddrNone
  else match ParseAddr (pIPv6 p) with Some a => if Contains overlay6 a then a else AddrNone | None => AddrNone end.

(** The WireGuard peer of a registered one; no endpoint, peers initiate. *)
Definition hub_peer (p : Peer) : option ClientMap.WgPeer :=
  key ← ParseKey (pPublicKey p);
  ip ← ParseAddr (pIPv4 p);
  let ip6 := peerIPv6 p in
  Some {| ClientMap.wPublicKey := key; ClientMap.wEndpoint := NoAddrPort;
          ClientMap.wAllowedIPs := PrefixFrom ip 32 :: (if IsValid ip6 then [PrefixFrom ip6 128] else []); ClientMap.wKeepalive := 0 |}.

Definition hub_config (ps : list Peer) : ClientMap.WgConfig :=
  {| ClientMap.cPrivateKey := hubKey; ClientMap.cListenPort := listenPort; ClientMap.cAddresses := hubAddresses;
     ClientMap.cPeers := omap hub_peer ps; ClientMap.cFwMark := 0 |}.

(** *** The hub's filter *)

(** The first loop: addresses by peer id, what may ping, and the addresses of
    static peers. *)
Record reach := { reAddrs : gmap string addr; reAddrs6 : gmap string addr; reVisible : list addr; reStatic : list addr }.

Definition reach_step (r : reach) (p : Peer) : reach :=
  match ParseAddr (pIPv4 p) with
  | None => r
  | Some ip =>
      let ip6 := peerIPv6 p in
      let six := if IsValid ip6 then [ip6] else [] in
      {| reAddrs := <[pID p := ip]> (reAddrs r);
         reAddrs6 := if IsValid ip6 then <[pID p := ip6]> (reAddrs6 r) else reAddrs6 r;
         reVisible := reVisible r ++ ip :: six;
         reStatic := if eqs (pMode p) ModeStatic then reStatic r ++ ip :: six else reStatic r |}
  end.

Definition reach_of (ps : list Peer) : reach := foldl reach_step {| reAddrs := ∅; reAddrs6 := ∅; reVisible := []; reStatic := [] |} ps.

(** One compiled rule towards a peer, if the hub forwards it. *)
Definition hub_rule (r : reach) (p : Peer) (ip : addr) (f : Compile.FilterRule) : option Filter.FilterRule :=
  if negb (eqs (pMode p) ModeStatic) && negb (bool_decide (Compile.frSrc f ∈ reStatic r)) then None
  else
    dst ← (if Is6 (Compile.frSrc f) then reAddrs6 r !! pID p else Some ip);
    Some {| Filter.fSrc := PrefixFrom (Compile.frSrc f) (BitLen (Compile.frSrc f)); Filter.fDst := dst; Filter.fProto := Compile.frProto f;
            Filter.fLo := Compile.frLo f; Filter.fHi := Compile.frHi f |}.

Definition hub_rules (c : Compile.Compiled) (r : reach) (p : Peer) : list Filter.FilterRule :=
  match reAddrs r !! pID p with
  | None => []
  | Some ip => omap (hub_rule r p ip) (Compile.FilterFor c (pID p))
  end.

Definition installHubFilter (c : Compile.Compiled) (ps : list Peer) : Filter.FilterSet :=
  let r := reach_of ps in
  {| Filter.Interface := iface; Filter.Hook := Filter.HookForward; Filter.sLocal := paddr hubAddr; Filter.sLocal6 := hubAddr6;
     Filter.sVisible := reVisible r; Filter.sRules := concat (hub_rules c r <$> ps); Filter.sForward := []; Filter.Masquerade := [];
     Filter.MasqueradeFrom := NoPrefix; Filter.MasqueradeFrom6 := NoPrefix; Filter.routerOnly := false |}.

(** [configureHub]: the configuration, and the filter of a device that has one. *)
Definition configureHub (cf : Config) (sv : Server) : Server * ClientMap.WgConfig * Filter.FilterSet :=
  let ps := stable_sort by_name (peers (store_of sv)) in
  let '(svc, c) := PolicySvc.Compiled (cfOverlay cf) overlay6 (store_of sv) (svPolicy sv) in
  (with_policy svc sv, hub_config ps, installHubFilter c ps).

(** [pruneRelay]: the relay sessions that stay. *)
Definition relay_keeps (ps : list Peer) (key : list byte) : bool := existsb (λ p, eqs (pPublicKey p) (KeyString key)) ps.

(** ** Observation *)

(** [wg.PeerStats] as far as it is read. *)
Record PeerStats := { stKey : list byte; stEndpoint : addrport; stHandshake : Z }.

(** [noteStaticHandshake]: whether the online state flipped; [wrote] says whether
    the row could be written. *)
Definition noteStaticHandshake (now : Z) (p : Peer) (at_ : Z) (wrote : bool) (sv : Server) : Server * bool :=
  let prev := default 0 (svSeen sv !! pID p) in
  let sv := with_seen (<[pID p := at_]> (svSeen sv)) sv in
  let newer := match pLastSeenAt p with None => true | Some t => t <? at_ end in
  let sv := if newer && wrote then with_store (InTx (lift ErrStore (Peers_Touch (pID p) at_)) (store_of sv)).1 sv else sv in
  (sv, negb (bool_decide (fresh now prev = (Sub now at_ <? staticOnline)))).

Definition by_key (ps : list Peer) : gmap string Peer := foldl (λ m p, <[pPublicKey p := p]> m) ∅ ps.

(** The loop of [observeOnce]: [now] is the clock of both tables. *)
Fixpoint observe (now : Z) (wrote : bool) (idx : gmap string Peer) (l : list PeerStats) (sv : Server) : Server * bool :=
  match l with
  | [] => (sv, false)
  | st :: l =>
      let '(sv, ch) :=
        if negb (APIsValid (stEndpoint st)) || (stHandshake st =? 0) then (sv, false)
        else
          match idx !! KeyString (stKey st) with
          | None => (sv, false)
          | Some p =>
              if eqs (pMode p) ModeStatic then noteStaticHandshake now p (stHandshake st) wrote sv
              else let '(t, ch) := Endpoints.SetObserved now (pID p) (stEndpoint st) (svEndpoints sv) in (with_endpoints t sv, ch)
          end in
      let '(sv, ch') := observe now wrote idx l sv in (sv, ch || ch')
  end.

Definition observeOnce (now : Z) (wrote : bool) (l : list PeerStats) (sv : Server) : Server :=
  let '(sv, ch) := observe now wrote (by_key (stable_sort by_name (peers (store_of sv)))) l sv in
  if ch then with_svhub (Hub.Changed (Some (gen_of (store_of sv))) (svHub sv)) sv else sv.
End HubDevice.
