(* ===== verification/HubForward.v ===== *)
(** What the hub forwards: phones reach what the policy's text grants them and are
    reached where it grants that, and devices that reach each other directly are
    not served. *)

From S2P Require Import Prelude GoStrings NetIP Store Tables NetMap NetMapSafety HubDevice DeviceFilter.
From S2P Require Policy Ports Compile Filter ClientMap Control ControlSafety.

(** ** What the first loop collects *)

Section Reach.
Context (overlay6 : prefix).
Notation reach_of := (reach_of overlay6).
Notation peerIPv6 := (peerIPv6 overlay6).

Lemma reach_snoc ps p : reach_of (ps ++ [p]) = reach_step overlay6 (reach_of ps) p.
Proof. unfold HubDevice.reach_of. by rewrite foldl_app. Qed.

(** An address of a peer the hub knows. *)
Definition address_of (p : Peer) (a : addr) : Prop :=
  ∃ ip, ParseAddr (pIPv4 p) = Some ip ∧ (a = ip ∨ IsValid (peerIPv6 p) = true ∧ a = peerIPv6 p).

Lemma reach_addrs ps : NoDup (pID <$> ps) → ∀ id ip,
  reAddrs (reach_of ps) !! id = Some ip ↔ ∃ p, p ∈ ps ∧ pID p = id ∧ ParseAddr (pIPv4 p) = Some ip.
Proof.
  induction ps as [|p ps IH] using rev_ind; intros Hnd id ip.
  { split; [done|]. by intros (p & Hp%elem_of_nil & _). }
  rewrite fmap_app in Hnd. apply NoDup_app in Hnd as (Hnd & Hnew & _). specialize (IH Hnd). rewrite reach_snoc. unfold reach_step.
  assert (∀ q, q ∈ ps → pID q ≠ pID p) as Hne.
  { intros q Hq He. apply (Hnew (pID q)); [by apply list_elem_of_fmap_2|]. rewrite He. by apply list_elem_of_singleton. }
  setoid_rewrite elem_of_app. setoid_rewrite list_elem_of_singleton. destruct (ParseAddr (pIPv4 p)) as [a|] eqn:E; cbn [reAddrs].
  - destruct (decide (id = pID p)) as [->|Hid].
    + rewrite lookup_insert_eq. split; [intros [= ->]; eauto|]. intros (q & [Hq| ->] & Hid & H); [by destruct (Hne q Hq)|congruence].
    + rewrite lookup_insert_ne by done. rewrite IH. split; [naive_solver|]. intros (q & [Hq| ->] & Hi & H); [eauto|by destruct Hid].
  - rewrite IH. split; [naive_solver|]. intros (q & [Hq| ->] & Hi & H); [eauto|congruence].
Qed.

Lemma exists_snoc {A} (P : A → Prop) l x : (∃ q, q ∈ l ++ [x] ∧ P q) ↔ (∃ q, q ∈ l ∧ P q) ∨ P x.
Proof. setoid_rewrite elem_of_app. setoid_rewrite list_elem_of_singleton. naive_solver. Qed.

Lemma reach_static ps a : a ∈ reStatic (reach_of ps) ↔ ∃ p, p ∈ ps ∧ pMode p = ModeStatic ∧ address_of p a.
Proof.
  induction ps as [|p ps IH] using rev_ind.
  { split; [by intros ?%elem_of_nil|]. by intros (p & Hp%elem_of_nil & _). }
  rewrite reach_snoc, exists_snoc. unfold reach_step, address_of at 2.
  destruct (ParseAddr (pIPv4 p)) as [ip|]; cbn [reStatic]; [|rewrite IH; split; [by left|by intros [?|(_ & ? & ? & _)]]].
  destruct (eqs (pMode p) ModeStatic) eqn:Em; [apply eqs_true in Em|apply eqs_false in Em; rewrite IH; split; [by left|by intros [?|[? _]]]].
  rewrite elem_of_app, IH, elem_of_cons. apply or_iff_compat_l. split.
  - intros H. split; [done|]. exists ip. split; [done|]. destruct H as [?|H]; [by left|right].
    destruct (IsValid (peerIPv6 p)); [|by apply elem_of_nil in H]. by apply list_elem_of_singleton in H.
  - intros (_ & ip' & [= <-] & [?|[-> ->]]); [by left|right]. by apply list_elem_of_singleton.
Qed.

Lemma reach_visible ps a : a ∈ reVisible (reach_of ps) ↔ ∃ p, p ∈ ps ∧ address_of p a.
Proof.
  induction ps as [|p ps IH] using rev_ind.
  { split; [by intros ?%elem_of_nil|]. by intros (p & Hp%elem_of_nil & _). }
  rewrite reach_snoc, exists_snoc. unfold reach_step, address_of at 2.
  destruct (ParseAddr (pIPv4 p)) as [ip|]; cbn [reVisible]; [|rewrite IH; split; [by left|by intros [?|(? & ? & _)]]].
  rewrite elem_of_app, IH, elem_of_cons. apply or_iff_compat_l. split.
  - intros H. exists ip. split; [done|]. destruct H as [?|H]; [by left|right].
    destruct (IsValid (peerIPv6 p)); [|by apply elem_of_nil in H]. by apply list_elem_of_singleton in H.
  - intros (ip' & [= <-] & [?|[-> ->]]); [by left|right]. by apply list_elem_of_singleton.
Qed.
End Reach.

(** ** Rules of the hub *)

Lemma hub_rule_v4 r p ip f x : hub_rule r p ip f = Some x → Is4 (Compile.frSrc f) = true →
  (pMode p = ModeStatic ∨ Compile.frSrc f ∈ reStatic r) ∧
  x = {| Filter.fSrc := PrefixFrom (Compile.frSrc f) (BitLen (Compile.frSrc f)); Filter.fDst := ip; Filter.fProto := Compile.frProto f;
         Filter.fLo := Compile.frLo f; Filter.fHi := Compile.frHi f |}.
Proof.
  unfold hub_rule. intros H H4. destruct (eqs (pMode p) ModeStatic) eqn:Em; cbn [negb andb] in H.
  - apply eqs_true in Em. split; [by left|]. destruct (Compile.frSrc f); try done. by injection H as <-.
  - destruct (bool_decide (Compile.frSrc f ∈ reStatic r)) eqn:Es; cbn [negb] in H; [|done]. apply bool_decide_eq_true in Es.
    split; [by right|]. destruct (Compile.frSrc f); try done. by injection H as <-.
Qed.

Lemma hub_rule_made r p ip f : Is4 (Compile.frSrc f) = true → pMode p = ModeStatic ∨ Compile.frSrc f ∈ reStatic r →
  hub_rule r p ip f = Some {| Filter.fSrc := PrefixFrom (Compile.frSrc f) (BitLen (Compile.frSrc f)); Filter.fDst := ip;
                              Filter.fProto := Compile.frProto f; Filter.fLo := Compile.frLo f; Filter.fHi := Compile.frHi f |}.
Proof.
  intros H4 Hs. unfold hub_rule.
  assert (negb (eqs (pMode p) ModeStatic) && negb (bool_decide (Compile.frSrc f ∈ reStatic r)) = false) as ->.
  { destruct Hs as [Hs|Hs]; [by rewrite (proj2 (eqs_true _ _) Hs)|]. rewrite (bool_decide_true _ Hs). by rewrite andb_false_r. }
  by destruct (Compile.frSrc f).
Qed.

Section Forward.
Context (iface : string) (hubAddr overlay6 : prefix) (pol : Policy.Policy) (pov : prefix) (s : Store).
Context (Hok : tables_ok s).

Notation ps := (stable_sort by_name (peers s)).
Notation compiled := (Compile.CompileWith pol (compiler_peers s) pov).
Notation hub_set := (installHubFilter iface hubAddr overlay6 compiled ps).

(** Between two peers the hub carries only what has a phone at one end. *)
Definition through_hub (src : addr) (d : Peer) : Prop :=
  pMode d = ModeStatic ∨ ∃ m, m ∈ peers s ∧ pMode m = ModeStatic ∧ address_of overlay6 m src.

Lemma ids_sorted : NoDup (pID <$> ps).
Proof. rewrite stable_sort_perm. apply Hok. Qed.

Lemma through_hub_static src d : through_hub src d ↔ pMode d = ModeStatic ∨ src ∈ reStatic (reach_of overlay6 ps).
Proof. unfold through_hub. rewrite reach_static. by setoid_rewrite elem_of_stable_sort. Qed.

Lemma elem_of_hub_rules r : r ∈ Filter.sRules hub_set ↔
  ∃ d ip fr, d ∈ peers s ∧ ParseAddr (pIPv4 d) = Some ip ∧ fr ∈ Compile.FilterFor compiled (pID d) ∧ hub_rule (reach_of overlay6 ps) d ip fr = Some r.
Proof.
  cbn [installHubFilter Filter.sRules]. rewrite elem_of_concat_fmap. setoid_rewrite elem_of_stable_sort. split.
  - intros (d & Hd & Hr). unfold hub_rules in Hr. destruct (reAddrs _ !! pID d) as [ip|] eqn:E; [|by apply elem_of_nil in Hr].
    apply list_elem_of_omap in Hr as (fr & Hfr & Hr). apply (reach_addrs overlay6 _ ids_sorted) in E as (d' & Hd' & Hid & Hip).
    apply elem_of_stable_sort in Hd'. assert (d' = d) as -> by (eapply (key_unique pID); [apply Hok|done..]). by exists d, ip, fr.
  - intros (d & ip & fr & Hd & Hip & Hfr & Hr). exists d. split; [done|]. unfold hub_rules.
    assert (reAddrs (reach_of overlay6 ps) !! pID d = Some ip) as ->.
    { apply (reach_addrs overlay6 _ ids_sorted). exists d. by rewrite elem_of_stable_sort. }
    apply list_elem_of_omap. by exists fr.
Qed.

(** A rule lets an IPv4 packet through: its source is the rule's. *)
Lemma hub_rule_match d ip fr r p : Is4 (Filter.src p) = true → Is4 (Filter.dst p) = true →
  IsValid ip = true → hub_rule (reach_of overlay6 ps) d ip fr = Some r → Filter.ruleAllows p r = true →
  Filter.src p = Compile.frSrc fr ∧ ip = Filter.dst p ∧ through_hub (Filter.src p) d ∧
  Filter.portsAllow p (Compile.frProto fr) (Compile.frLo fr) (Compile.frHi fr) = true.
Proof.
  intros Hs Hd Hv Hr Ha. destruct (Is4 (Compile.frSrc fr)) eqn:E4.
  - apply hub_rule_v4 in Hr as (Hst & ->); [|done]. destruct (Compile.frSrc fr) as [|a|] eqn:Ea; try done.
    unfold Filter.ruleAllows in Ha. cbn [Filter.fSrc Filter.fDst Filter.fProto Filter.fLo Filter.fHi] in Ha.
    change (PrefixFrom (Addr4 a) (BitLen (Addr4 a))) with (ClientMap.host_prefix (Addr4 a)) in Ha. rewrite host_contains in Ha.
    case_bool_decide as Hsrc; [|done]. cbn [negb] in Ha. rewrite <- Hsrc in Hst. destruct (IsValid ip && _) eqn:Ev; [done|].
    split_and!; try done; [|by apply through_hub_static].
    rewrite Hv in Ev. by apply negb_false_iff, bool_decide_eq_true in Ev.
  - exfalso. unfold hub_rule in Hr. destruct (_ && _) in Hr; [done|]. apply bind_Some in Hr as (dst & _ & [= <-]).
    unfold Filter.ruleAllows in Ha. cbn [Filter.fSrc] in Ha. destruct (Filter.src p) as [|x|] eqn:Ex; try done.
    by destruct (Compile.frSrc fr).
Qed.

(** TCP and UDP open by the rules alone. *)
Lemma opens_forward p t : carried p t →
  Filter.opens (Filter.compile_set hub_set) p = true ↔ ∃ r, r ∈ Filter.sRules hub_set ∧ Filter.ruleAllows p r = true.
Proof.
  intros Hc. unfold Filter.opens. change (Filter.hook (Filter.compile_set hub_set)) with Filter.HookForward.
  rewrite (bool_decide_false (Filter.HookForward = Filter.HookInput)) by done. cbn [andb].
  assert (Filter.icmp6Always p = false ∧ Filter.visible_icmp p = false) as [-> ->].
  { unfold Filter.icmp6Always, Filter.visible_icmp. by destruct Hc as [[-> _]|[-> _]]. }
  rewrite andb_false_r. cbn [orb]. apply existsb_true_iff.
Qed.

(** ICMP opens for the peers the hub knows too. *)
Lemma opens_icmp p : Filter.proto p = Filter.protoICMP →
  Filter.opens (Filter.compile_set hub_set) p = true ↔
  (Filter.visible_icmp p = true ∧ ∃ q, q ∈ peers s ∧ address_of overlay6 q (Filter.src p)) ∨
  ∃ r, r ∈ Filter.sRules hub_set ∧ Filter.ruleAllows p r = true.
Proof.
  intros Hp. unfold Filter.opens. change (Filter.hook (Filter.compile_set hub_set)) with Filter.HookForward.
  rewrite (bool_decide_false (Filter.HookForward = Filter.HookInput)) by done. cbn [andb].
  assert (Filter.icmp6Always p = false) as -> by (unfold Filter.icmp6Always; by rewrite Hp).
  cbn [orb]. rewrite orb_true_iff, andb_true_iff, bool_decide_eq_true, existsb_true_iff.
  change (Filter.visible (Filter.compile_set hub_set)) with (list_to_set (reVisible (reach_of overlay6 ps)) : gset addr). rewrite elem_of_list_to_set, reach_visible. setoid_rewrite elem_of_stable_sort.
  by rewrite (and_comm (∃ p0 : Peer, _)).
Qed.

(** An installed rule for the packet's addresses. *)
Lemma rule_opens d fr p r : Is4 (Compile.frSrc fr) = true → Compile.frSrc fr = Filter.src p →
  Filter.portsAllow p (Compile.frProto fr) (Compile.frLo fr) (Compile.frHi fr) = true →
  hub_rule (reach_of overlay6 ps) d (Filter.dst p) fr = Some r → Filter.ruleAllows p r = true.
Proof.
  intros H4 Hsrc Hport Hr. apply hub_rule_v4 in Hr as (_ & ->); [|done]. unfold Filter.ruleAllows.
  cbn [Filter.fSrc Filter.fDst Filter.fProto Filter.fLo Filter.fHi]. destruct (Compile.frSrc fr) as [|a|] eqn:Ea; try done.
  change (PrefixFrom (Addr4 a) (BitLen (Addr4 a))) with (ClientMap.host_prefix (Addr4 a)). rewrite host_contains, bool_decide_true by done.
  rewrite (bool_decide_true (Filter.dst p = Filter.dst p)) by done. cbn [negb]. by rewrite andb_false_r.
Qed.

(** What the rules open to an IPv4 packet. *)
Lemma hub_rules_open p : Is4 (Filter.src p) = true → Is4 (Filter.dst p) = true →
  (∃ r, r ∈ Filter.sRules hub_set ∧ Filter.ruleAllows p r = true) ↔
  ∃ d fr, d ∈ peers s ∧ ParseAddr (pIPv4 d) = Some (Filter.dst p) ∧ fr ∈ Compile.FilterFor compiled (pID d) ∧
    Compile.frSrc fr = Filter.src p ∧ through_hub (Filter.src p) d ∧
    Filter.portsAllow p (Compile.frProto fr) (Compile.frLo fr) (Compile.frHi fr) = true.
Proof.
  intros Hs4 Hd4. split.
  - intros (r & (d & ip & fr & Hd & Hip & Hfr & Hr)%elem_of_hub_rules & Ha).
    destruct (hub_rule_match d ip fr r p Hs4 Hd4 (parse_addr_valid _ _ Hip) Hr Ha) as (Hsrc & -> & Hth & Hport). by exists d, fr.
  - intros (d & fr & Hd & Hip & Hfr & Hsrc & Hth%through_hub_static & Hport). rewrite <- Hsrc in Hs4, Hth.
    pose proof (hub_rule_made (reach_of overlay6 ps) d (Filter.dst p) fr Hs4 Hth) as Hr.
    eexists. split; [apply elem_of_hub_rules; by exists d, (Filter.dst p), fr|]. by eapply rule_opens.
Qed.

(** The compiled rules towards a peer, by the text. *)
Lemma filter_grants d x proto port : d ∈ peers s →
  (∃ fr, fr ∈ Compile.FilterFor compiled (pID d) ∧ Compile.frSrc fr = x ∧ Compile.frProto fr = proto ∧
         Compile.frLo fr <= port <= Compile.frHi fr) ↔
  proto ∈ Compile.protos ∧ ∃ q, q ∈ peers s ∧ pID q ≠ pID d ∧ Compile.source_addr (seen s q) x ∧
    Compile.grants pol pov (seen s q) (seen s d) proto port.
Proof.
  exact (filter_text
    {| bVisibility := PolicyVisibility (Some compiled);
       bHub := {| hcPublicKey := ""; hcEndpoint := ""; hcAddress := AddrNone; hcOverlay := NoPrefix; hcAddress6 := AddrNone; hcOverlay6 := NoPrefix;
                  hcSTUNAddrs := [] |};
       bGeneration := 0; bPresence := None; bWants := None |} pol pov s Hok eq_refl d x proto port).
Qed.

(** C7: the hub forwards what the text grants to and from phones.  With the filter
    compiled from the text and a sound database in force, an IPv4 packet for
    the hub itself passes.  Any other of TCP or UDP passes exactly if it answers a
    flow, or one end is a static peer and the text grants a registered peer with
    that source address the protocol (or any) and port towards the registered
    peer with that destination address.  One of ICMP passes exactly if it
    answers a flow, or is an echo request or an error from the address of any
    registered peer, whatever the text grants, or one end is a static peer and
    a rule compiled for the registered peer with that destination is for that
    source and for ICMP (or for any protocol with all ports). *)
Theorem hub_forwards_policy (t0 now : Z) (bs : list byte) (p : Filter.packet) (h : list Filter.call) :
  Filter.set_of h = Some (Filter.compile_set hub_set) → Filter.clock now h → Filter.parsed bs = Some p →
  Is4 (Filter.src p) = true → Is4 (Filter.dst p) = true →
  let passed := (Filter.Inbound now bs (Filter.filter_of t0 h)).2 = true in
  let local := Filter.isLocal (Filter.compile_set hub_set) (Filter.dst p) in
  (local = true → passed) ∧
  (local = false → ∀ t, carried p t → passed ↔
    Filter.answers now p h = true ∨
    ∃ q d proto, q ∈ peers s ∧ d ∈ peers s ∧ pID q ≠ pID d ∧ Compile.source_addr (seen s q) (Filter.src p) ∧
      ParseAddr (pIPv4 d) = Some (Filter.dst p) ∧ through_hub (Filter.src p) d ∧ (proto = t ∨ proto = Ports.ProtoAny) ∧
      Compile.grants pol pov (seen s q) (seen s d) proto (Filter.dport p)) ∧
  (local = false → Filter.proto p = Filter.protoICMP → passed ↔
    Filter.answers now p h = true ∨
    (Filter.visible_icmp p = true ∧ ∃ q, q ∈ peers s ∧ address_of overlay6 q (Filter.src p)) ∨
    ∃ d fr, d ∈ peers s ∧ ParseAddr (pIPv4 d) = Some (Filter.dst p) ∧ through_hub (Filter.src p) d ∧
      fr ∈ Compile.FilterFor compiled (pID d) ∧ Compile.frSrc fr = Filter.src p ∧
      (Compile.frProto fr = Filter.ProtoICMP ∨ Compile.frProto fr = Filter.ProtoAny ∧ Compile.frLo fr <= 1 ∧ Compile.frHi fr = 65535)).
Proof.
  intros Hset Hclock Hp Hs4 Hd4 passed local. subst passed local. rewrite (Filter.Inbound_verdict t0 now bs h Hclock). unfold Filter.spec_allow. rewrite Hp, Hset.
  change (Filter.hook (Filter.compile_set hub_set)) with Filter.HookForward. rewrite (bool_decide_true (Filter.HookForward = Filter.HookForward)) by done.
  cbn [andb]. split; [by intros ->|]. split; intros ->; cbn [orb].
  - intros t Hc. rewrite orb_true_iff. apply or_iff_compat_l. rewrite (opens_forward p t Hc), hub_rules_open by done.
    assert (∀ x, x = t ∨ x = Ports.ProtoAny → x ∈ Compile.protos) as Hprotos.
    { intros x [->| ->]; [destruct Hc as [[_ ->]|[_ ->]]|]; apply (bool_decide_unpack _); vm_compute; exact I. }
    split.
    + intros (d & fr & Hd & Hip & Hfr & Hsrc & Hth & [Hpr Hport]%(portsAllow_carried p t _ _ _ Hc)).
      destruct (proj1 (filter_grants d (Compile.frSrc fr) (Compile.frProto fr) (Filter.dport p) Hd)) as (_ & q & Hq & Hne & Hqs & Hg).
      { by exists fr. }
      exists q, d, (Compile.frProto fr). rewrite Hsrc in *. by split_and!.
    + intros (q & d & proto & Hq & Hd & Hne & Hqs & Hip & Hth & Hpr & Hg).
      destruct (proj2 (filter_grants d (Filter.src p) proto (Filter.dport p) Hd)) as (fr & Hfr & Hsrc & Hfp & Hport).
      { split; [by apply Hprotos|by exists q]. }
      exists d, fr. split_and!; try done. apply (portsAllow_carried p t _ _ _ Hc). by rewrite Hfp.
  - intros Hi. rewrite orb_true_iff. apply or_iff_compat_l. rewrite opens_icmp, hub_rules_open by done. apply or_iff_compat_l.
    assert (∀ fr, Filter.portsAllow p (Compile.frProto fr) (Compile.frLo fr) (Compile.frHi fr) = true ↔
      Compile.frProto fr = Filter.ProtoICMP ∨ Compile.frProto fr = Filter.ProtoAny ∧ Compile.frLo fr <= 1 ∧ Compile.frHi fr = 65535) as Hports.
    { intros fr. unfold Filter.portsAllow, Filter.isICMP. rewrite Hi. cbn [Z.eqb orb]. change (Filter.protoICMP =? Filter.protoICMP) with true. cbn [orb].
      rewrite orb_true_iff, !andb_true_iff, !bool_decide_eq_true, Z.leb_le, Z.eqb_eq. tauto. }
    setoid_rewrite Hports. naive_solver.
Qed.
End Forward.

(** ** The phone of the demonstration calls the agent *)

Definition demo_hub_set : Filter.FilterSet :=
  installHubFilter "thawr0" (Prefix (Addr4 (1681915904 + 1)) 10) NoPrefix
    (Compile.CompileWith demo_text (compiler_peers demo_map_store) (Control.cfOverlay ControlSafety.demo_config))
    (stable_sort by_name (peers demo_map_store)).

Lemma hub_forwards_policy_witness :
  (Filter.Inbound 5 demo_arrival (Filter.filter_of 0 [Filter.CSet demo_hub_set])).2 = true ∧
  ∃ q d proto, q ∈ peers demo_map_store ∧ d ∈ peers demo_map_store ∧ pID q ≠ pID d ∧
    Compile.grants demo_text (Control.cfOverlay ControlSafety.demo_config) (seen demo_map_store q) (seen demo_map_store d) proto 80.
Proof.
  assert ((Filter.Inbound 5 demo_arrival (Filter.filter_of 0 [Filter.CSet demo_hub_set])).2 = true) as Hin by (vm_compute; reflexivity).
  split; [exact Hin|].
  destruct (hub_forwards_policy "thawr0" (Prefix (Addr4 (1681915904 + 1)) 10) NoPrefix demo_text (Control.cfOverlay ControlSafety.demo_config)
    demo_map_store demo_map_tables 0 5 demo_arrival demo_decoded [Filter.CSet demo_hub_set] eq_refl I
    ltac:(vm_compute; reflexivity) eq_refl eq_refl) as (_ & Htcp & _).
  apply (Htcp ltac:(vm_compute; reflexivity) Filter.ProtoTCP (or_introl (conj eq_refl eq_refl))) in Hin as [Ha|H].
  - vm_compute in Ha. discriminate.
  - destruct H as (q & d & proto & Hq & Hd & Hne & _ & _ & _ & _ & Hg). exists q, d, proto. split_and!; [exact Hq|exact Hd|exact Hne|exact Hg].
Defined.
