(* ===== verification/Api.v ===== *)
(** The API in front of the control plane: which calls of [Control] a request or
    an RPC makes, and the server as a state that requests change in any order.

    The check in front of a handler and the handler are separate steps, and so
    are the authentication of an RPC and its body; in between, anything else may
    happen.  The policy reload on a signal and the handshakes the hub observes
    change the database beside the API. *)

From S2P Require Import Prelude GoStrings NetIP LockRecord Store Enroll LockService Registry Routes Control Http Rest Rpc.
From S2P Require Sessions Hub Endpoints Policy PolicySvc Users HubDevice NetMap Wire.

Record Api := { apServer : Server; apRequests : gmap nat (bool * endpoint * list string * Request * Principal); apPeers : gmap nat Peer }.

Definition with_server (sv : Server) (st : Api) : Api := {| apServer := sv; apRequests := apRequests st; apPeers := apPeers st |}.

Inductive event :=
  | Arrive (n : nat) (local : bool) (now : Z) (rq : Request)
  | Handle (n : nat) (i : Inputs)
  | Dial (n : nat) (authorization : list string)
  | Invoke (n : nat) (i : RpcInputs) (m : rpc)
  | OpenSync (n : nat) (i : RpcInputs) (req : SyncRequest)
  | SendMap (n : nat) (i : RpcInputs) (keepalive : bool)
  | CloseSync (n : nat) (i : RpcInputs)
  | Enrol (i : RpcInputs) (req : EnrollRequest)
  | Signal (f : PolicySvc.policy_file) (anow : Z)
  | Observed (now : Z) (wrote : bool) (l : list HubDevice.PeerStats)
  | HubMoves (e : Hub.hub_event).

Section Api.
Context (Verify : PublicKey → list byte → Signature → bool)
  (ParseKey : string → option (list byte)) (KeyString : list byte → string)
  (encode : Signed → string) (decode : string → option Signed) (cf : Config)
  (yaml : list byte → option Policy.document) (overlay6 : prefix)
  (dec : Decoders) (hub : HubInfo) (join : JoinInfo) (hc : NetMap.HubConfig) (version : string) (opts : Hub.HubOptions).

Notation control := (Control.run Verify ParseKey KeyString encode decode cf).
Notation rest_handle := (Rest.handle Verify ParseKey KeyString decode cf yaml overlay6 dec hub join).
Notation rpc_serve := (serve_rpc Verify ParseKey encode decode cf).

(** ** The calls a handler makes *)

Definition reload_calls (by_ : Principal) (f : PolicySvc.policy_file) (anow : Z) (sv : Server) : list call :=
  match PolicySvc.reload_checks yaml (cfOverlay cf) overlay6 f (store_of sv) with Ok (p, _) => [CReload by_ p anow] | Err _ => [] end.

Definition rest_calls (local : bool) (i : Inputs) (by_ : Principal) (e : endpoint) (vs : list string) (rq : Request) (sv : Server) : list call :=
  let d := inDraw i in
  let pol := Rest.policies cf overlay6 sv in
  let v := path_value 0 vs in
  match e with
  | ELogin =>
      if local then []
      else match readJSON (jLogin dec) (rqBody rq) with
           | Some b => [CLogin (lgName b) (lgPassword b) (dNow d) (inFailNow i) (dAuditNow d)]
           | None => []
           end
  | ECreateUser =>
      match readJSON (jUser dec) (rqBody rq) with
      | Some b => [CCreateUser by_ (ubName b) (ubRole b) (ubPassword b) (inSalt i) (dID d) (dNow d) (dAuditNow d)]
      | None => []
      end
  | ECreateToken =>
      match (b ← readJSON (jToken dec) (rqBody rq); pair b <$> ParseTTL dec (tbExpires b)) with
      | Some (b, ttl) =>
          [CIssue pol by_ {| trOwnerName := tbOwner b; trKind := tbKind b; trTags := tbTags b; trPeerName := tbPeerName b; trTTL := ttl |} d]
      | None => []
      end
  | ERevokeToken => [CRevoke by_ v (dAuditNow d)]
  | ECreateMobile =>
      match readJSON (jMobile dec) (rqBody rq) with
      | Some b => [CCreateStatic pol by_ {| stOwnerName := mbOwner b; stName := mbName b; stKind := mbKind b; stTags := mbTags b |} d (inKey i) (inPub i)]
      | None => []
      end
  | ERenamePeer =>
      match readJSON (jRename dec) (rqBody rq) with Some b => [CRename pol by_ v (rbName b) (rbForce b) (dAuditNow d)] | None => [] end
  | EDeletePeer => [CDelete by_ v (dAuditNow d)]
  | EReloadPolicy => reload_calls by_ (inFile i) (dAuditNow d) sv
  | ESetRoute =>
      match readJSON (jApproved dec) (rqBody rq) with
      | Some ap => [CSetApproved by_ v (of_chars (trim_space (chars (path_value 1 vs)))) ap (dNow d) (dAuditNow d)]
      | None => []
      end
  | _ => []
  end.

Definition rpc_calls (i : RpcInputs) (me : Peer) (m : rpc) : list call :=
  let d := riDraw i in
  match m with
  | RotateKey k sk sg => match rotation_of sk sg with Some signed => [CRotateKey (pID me) k signed (dNow d) (dAuditNow d)] | None => [] end
  | Leave => [CLeave (pID me) (dAuditNow d)]
  | SetLock l sigs => match lock_request l sigs with Some (signed, ps) => [CLockSet me signed (at_times ps (riSignNow i)) (dAuditNow d)] | None => [] end
  | SignPeer sg => match signingFromProto sg with Some ps => [CLockSign me {| saSigning := ps; saNow := dNow d; saAuditNow := dAuditNow d |}] | None => [] end
  | AdvertiseRoutes l => if (MaxAdvertisedRoutes <? length l)%nat then [] else [CAdvertise me l (dNow d) (dAuditNow d)]
  | ReportEndpoints _ _ _ | ReportPath _ | ListLockPeers => []
  end.

Definition open_calls (i : RpcInputs) (me : Peer) (req : SyncRequest) : list call :=
  if negb (eqs (syLockKey req) "") && bool_decide (ParsePublicKey (syLockKey req) = None) then []
  else
    let '(w1, w2, w3) := riWritten i in
    let v := syClientVersion req in
    CReportKey (pID me) (syLockKey req)
    :: (if (w1 : bool) then [CTouch (pID me) (dNow (riDraw i))] else [])
    ++ (if negb (eqs v "") && negb (eqs v (pClientVersion me)) && w2 then [CSetClientVersion (pID me) v] else [])
    ++ (if (w3 : bool) then [CSetIPv6Capable (pID me) (syIPv6 req)] else []).

(** The handshakes that are news of phones. *)
Fixpoint observe_calls (wrote : bool) (idx : gmap string Peer) (l : list HubDevice.PeerStats) : list call :=
  match l with
  | [] => []
  | st :: l =>
      (if negb (APIsValid (HubDevice.stEndpoint st)) || (HubDevice.stHandshake st =? 0) then []
       else match idx !! KeyString (HubDevice.stKey st) with
            | Some p =>
                if eqs (pMode p) ModeStatic && match pLastSeenAt p with None => true | Some t => t <? HubDevice.stHandshake st end && wrote
                then [CTouch (pID p) (HubDevice.stHandshake st)] else []
            | None => []
            end) ++ observe_calls wrote idx l
  end.

(** ** Steps *)

Definition api_step (e : event) (st : Api) : Api :=
  let sv := apServer st in
  match e with
  | Arrive n local now rq =>
      let '(ep, acc, vs) := route local rq in
      let '(sv, a) := admit_request local now rq acc sv in
      {| apServer := sv; apRequests := match a with Granted p => <[n := (local, ep, vs, rq, p)]> (apRequests st) | Denied _ => apRequests st end;
         apPeers := apPeers st |}
  | Handle n i =>
      match apRequests st !! n with
      | Some (local, ep, vs, rq, p) =>
          {| apServer := (rest_handle local i p ep vs rq sv).1; apRequests := delete n (apRequests st); apPeers := apPeers st |}
      | None => st
      end
  | Dial n auth =>
      match authenticate auth sv with
      | Ok p => {| apServer := sv; apRequests := apRequests st; apPeers := <[n := p]> (apPeers st) |}
      | Err _ => st
      end
  | Invoke n i m =>
      match apPeers st !! n with
      | Some me => {| apServer := (rpc_serve i me m sv).1; apRequests := apRequests st; apPeers := delete n (apPeers st) |}
      | None => st
      end
  | OpenSync n i req => match apPeers st !! n with Some me => with_server (openSync i me req sv).1 st | None => st end
  | SendMap n i ka => match apPeers st !! n with Some me => with_server (sendMap decode cf overlay6 hc version i me ka sv).1 st | None => st end
  | CloseSync n i =>
      match apPeers st !! n with
      | Some me => {| apServer := closeSync i me sv; apRequests := apRequests st; apPeers := delete n (apPeers st) |}
      | None => st
      end
  | Enrol i req => with_server (EnrollRPC ParseKey KeyString cf overlay6 hc version i req sv).1 st
  | Signal f anow =>
      let '(s, svc, _) := PolicySvc.Reload yaml (cfOverlay cf) overlay6 (cfAudit cf) LocalAdmin (cfPolicyPath cf) f anow (store_of sv) (svPolicy sv) in
      with_server (with_policy svc (with_store s sv)) st
  | Observed now wrote l => with_server (HubDevice.observeOnce KeyString now wrote l sv) st
  | HubMoves e => with_server (with_svhub (Hub.hub_step opts e (svHub sv)) sv) st
  end.

Definition api_calls (e : event) (st : Api) : list call :=
  let sv := apServer st in
  match e with
  | Handle n i => match apRequests st !! n with Some (local, ep, vs, rq, p) => rest_calls local i p ep vs rq sv | None => [] end
  | Invoke n i m => match apPeers st !! n with Some me => rpc_calls i me m | None => [] end
  | OpenSync n i req => match apPeers st !! n with Some me => open_calls i me req | None => [] end
  | Enrol i req => [CEnroll (Rpc.policies cf overlay6 sv) (riLimitNow i) req (riDraw i)]
  | Signal f anow => reload_calls LocalAdmin f anow sv
  | Observed _ wrote l => observe_calls wrote (HubDevice.by_key (stable_sort by_name (peers (store_of sv)))) l
  | _ => []
  end.

Definition api_run (st : Api) (l : list event) : Api := foldl (λ st e, api_step e st) st l.

Lemma api_snoc st l e : api_run st (l ++ [e]) = api_step e (api_run st l).
Proof. unfold api_run. by rewrite foldl_app. Qed.

Fixpoint run_calls (st : Api) (l : list event) : list call :=
  match l with [] => [] | e :: l => api_calls e st ++ run_calls (api_step e st) l end.

(** ** A step is its calls *)

Definition ctl (sv : Server) : State := svControl sv.

Lemma run_nil st : control st [] = st. Proof. done. Qed.
Lemma run_one st c : control st [c] = (do_call Verify ParseKey KeyString encode decode cf st c).1. Proof. done. Qed.

Lemma reload_runs by_ f anow sv :
  ∀ s svc r, PolicySvc.Reload yaml (cfOverlay cf) overlay6 (cfAudit cf) by_ (cfPolicyPath cf) f anow (store_of sv) (svPolicy sv) = (s, svc, r) →
  ctl (with_store s sv) = control (ctl sv) (reload_calls by_ f anow sv).
Proof.
  intros s svc r H. unfold PolicySvc.Reload in H. unfold reload_calls. destruct (PolicySvc.reload_checks _ _ _ _ _) as [[p w]|e].
  - rewrite run_one. cbn [do_call]. unfold on_store. change (stStore (ctl sv)) with (store_of sv).
    destruct (InTx (PolicySvc.reload_tx _ _ _ _ _) (store_of sv)) as [s' [a|e]].
    + destruct (PolicySvc.Compiled _ _ _ _) as [svc' c]. by injection H as <- _ _.
    + by injection H as <- _ _.
  - injection H as <- _ _. rewrite run_nil. apply with_store_same.
Qed.

(** A handler that runs one control plane handler on the database. *)
Lemma on_store_runs {A} (sv : Server) (c : call) (r : Store * result cerror A) :
  do_call Verify ParseKey KeyString encode decode cf (ctl sv) c = on_store (ctl sv) r → ctl (with_store r.1 sv) = control (ctl sv) [c].
Proof. intros H. rewrite run_one, H. done. Qed.

Ltac store_call := match goal with |- context [let '(s, r) := ?x in _] => rewrite (surjective_pairing x) end; by apply on_store_runs.

Lemma rest_runs local i by_ e vs rq sv :
  ctl (rest_handle local i by_ e vs rq sv).1 = control (ctl sv) (rest_calls local i by_ e vs rq sv).
Proof.
  destruct e; cbn [rest_calls]; try (by rewrite run_nil); unfold Rest.handle.
  - unfold handleLogin. destruct local; [done|]. destruct (readJSON _ _) as [b|]; [|done]. rewrite run_one. cbn [do_call]. fold (ctl sv).
    destruct (Users.Authenticate _ _ _ _ _ _ _ _ _ _) as [[us s] r]. destruct r as [u|[]]; done.
  - unfold handleLogout. by destruct (sessionFrom _ _ _ _).
  - unfold handleMe. by destruct (sessionFrom _ _ _ _).
  - unfold handleCreateUser. destruct (readJSON _ _) as [b|]; [|done]. store_call.
  - unfold handleCreateToken. destruct (b ← _; _) as [[b ttl]|]; [|done]. store_call.
  - unfold handleRevokeToken. store_call.
  - unfold handleCreateMobile. destruct (readJSON _ _) as [b|]; [|done]. store_call.
  - unfold handleGetPeer. destruct (Registry_Get _ _ _) as [p|]; [|done]. destruct (Endpoints.Get _ _ _) as [eps [l sym]].
    by destruct (PolicySvc.PolicyFilterFor _ _ _ _ _).
  - unfold handleRenamePeer. destruct (readJSON _ _) as [b|]; [|done]. store_call.
  - unfold handleDeletePeer. store_call.
  - unfold handleShowPolicy. by destruct (PolicySvc.Show_ _ _ _ _).
  - unfold handleReloadPolicy. destruct (PolicySvc.Reload _ _ _ _ _ _ _ _ _ _) as [[s svc] [r e]] eqn:E. by apply (reload_runs _ _ _ _ _ _ _ E).
  - unfold handleSetRoute. destruct (readJSON _ _) as [b|]; [|done]. store_call.
Qed.

Lemma rpc_runs i me m sv : ctl (rpc_serve i me m sv).1 = control (ctl sv) (rpc_calls i me m).
Proof.
  destruct m; unfold serve_rpc; cbn [rpc_calls]; try (by rewrite run_nil).
  - unfold reportEndpoints. destruct (Wire.endpointsFromProto eps) as [l|]; [|done]. destruct (65535 <? listenPort); [done|].
    destruct (Endpoints.Set_ _ _ _ _ _ _) as [t [[]|]]; done.
  - unfold reportPath. destruct (_ <? _)%nat; [done|]. by destruct (negb _).
  - unfold rotateKey. destruct (rotation_of _ _) as [signed|]; [|done]. store_call.
  - unfold leave. store_call.
  - unfold setLock. destruct (lock_request _ _) as [[signed ps]|]; [|done]. store_call.
  - unfold signPeer. destruct (signingFromProto sg) as [ps|]; [|done]. store_call.
  - unfold advertiseRoutes. destruct (_ <? _)%nat; [done|]. store_call.
Qed.

(** A note about the peer, if it could be written. *)
Lemma note_runs {A} ok (f : Store → Store * result cerror A) c sv st l :
  control st l = ctl sv → (do_call Verify ParseKey KeyString encode decode cf (ctl sv) c = on_store (ctl sv) (f (store_of sv))) →
  control st (l ++ if (ok : bool) then [c] else []) = ctl (note ok f sv).
Proof.
  intros H Hc. unfold note. destruct ok; [|by rewrite app_nil_r]. rewrite calls_snoc, H, Hc. done.
Qed.

Lemma open_runs i me req sv : ctl (openSync i me req sv).1 = control (ctl sv) (open_calls i me req).
Proof.
  unfold openSync, open_calls. destruct (_ && _); [done|]. destruct (riWritten i) as [[w1 w2] w3]. cbn [fst].
  match goal with |- _ = control _ (?c :: ?l1 ++ ?l2 ++ ?l3) => change (c :: l1 ++ l2 ++ l3) with (([c] ++ l1) ++ l2 ++ l3); rewrite (app_assoc ([c] ++ l1)) end.
  symmetry. apply note_runs; [|done].
  destruct (negb (eqs (syClientVersion req) "") && negb (eqs (syClientVersion req) (pClientVersion me))); cbn [andb].
  - apply note_runs; [|done]. by apply note_runs.
  - rewrite app_nil_r. by apply note_runs.
Qed.

Lemma observe_runs now wrote idx l : ∀ sv, ctl (HubDevice.observe KeyString now wrote idx l sv).1 = control (ctl sv) (observe_calls wrote idx l).
Proof.
  induction l as [|st l IH]; intros sv; [done|]. cbn [HubDevice.observe observe_calls].
  assert (∀ sv1 ch l1, ctl sv1 = control (ctl sv) l1 →
    ctl (let '(sv, ch') := HubDevice.observe KeyString now wrote idx l sv1 in (sv, ch || ch')).1 = control (ctl sv) (l1 ++ observe_calls wrote idx l)) as Hstep.
  { intros sv1 ch l1 H. rewrite calls_app, <- H, <- IH. by destruct (HubDevice.observe _ _ _ _ _ _). }
  destruct (negb (APIsValid (HubDevice.stEndpoint st)) || (HubDevice.stHandshake st =? 0)); [by apply Hstep|].
  destruct (idx !! _) as [p|]; [|by apply Hstep]. destruct (eqs (pMode p) ModeStatic); cbn [andb].
  - unfold HubDevice.noteStaticHandshake. apply Hstep. by destruct (_ && _).
  - destruct (Endpoints.SetObserved _ _ _ _) as [t ch]. by apply Hstep.
Qed.

Lemma admit_control local now rq acc sv : ctl (admit_request local now rq acc sv).1 = ctl sv.
Proof.
  assert (ctl (requireAuth local now rq sv).1 = ctl sv) as H.
  { unfold requireAuth. destruct local; [done|]. destruct (sessionFrom _ _ _ _) as [m [sess|]]; [|done]. destruct (_ && _); [done|].
    destruct (Users.GetUser _ _) as [u|]; [|done]. by destruct (uDisabled u). }
  destruct acc; [done|exact H|]. cbn [admit_request]. unfold requireAdmin. destruct (requireAuth local now rq sv) as [sv' [c|p]]; [done|]. by destruct (IsAdmin p).
Qed.

Lemma step_runs e st : ctl (apServer (api_step e st)) = control (ctl (apServer st)) (api_calls e st).
Proof.
  destruct e; cbn [api_step api_calls].
  - destruct (route local rq) as [[ep acc] vs]. pose proof (admit_control local now rq acc (apServer st)) as H. by destruct (admit_request _ _ _ _ _).
  - destruct (apRequests st !! n) as [[[[[local ep] vs] rq] p]|]; [|done]. apply rest_runs.
  - by destruct (authenticate _ _).
  - destruct (apPeers st !! n); [|done]. apply rpc_runs.
  - destruct (apPeers st !! n); [|done]. apply open_runs.
  - destruct (apPeers st !! n); [|done]. unfold sendMap. destruct (PolicySvc.Compiled _ _ _ _) as [svc c].
    destruct (NetMap.Build _ _ _ _ _ _) as [[? [eps nm]]|[]]; done.
  - by destruct (apPeers st !! n).
  - unfold EnrollRPC. rewrite run_one. cbn [do_call]. change (svControl (apServer st)) with (ctl (apServer st)).
    by destruct (Enroll _ _ _ _ _ _ _ _ _) as [[lim s] r].
  - destruct (PolicySvc.Reload _ _ _ _ _ _ _ _ _ _) as [[s svc] r] eqn:E. by apply (reload_runs _ _ _ _ _ _ _ E).
  - unfold HubDevice.observeOnce. rewrite <- (observe_runs now). by destruct (HubDevice.observe _ _ _ _ _ _) as [sv []].
  - done.
Qed.

Lemma api_runs l : ∀ st, ctl (apServer (api_run st l)) = control (ctl (apServer st)) (run_calls st l).
Proof.
  induction l as [|e l IH]; intros st; [done|]. cbn [run_calls]. rewrite calls_app, <- step_runs. apply IH.
Qed.
End Api.
