(* ===== verification/ApiSafety.v ===== *)
(** What the API lets through: every call of the control plane has a caller who
    was authenticated for it. *)

From S2P Require Import Prelude GoStrings NetIP LockRecord Store Effects Tables Enroll LockService Registry Routes Control Http Rest Rpc Api.
From S2P Require Sessions Hub Endpoints Policy PolicySvc Users HubDevice NetMap Wire.

(** Who stands behind a call. *)
Inductive caller := ByPrincipal (p : Principal) | ByPeer (q : Peer) | ByID (id : string) | Nobody.

(** A login and an enrolment prove themselves; handshakes are the hub's own. *)
Definition caller_of (c : call) : caller :=
  match c with
  | CIssue _ p _ _ | CRevoke p _ _ | CRename _ p _ _ _ _ | CDelete p _ _ | CCreateStatic _ p _ _ _ _ | CSetApproved p _ _ _ _ _
  | CCreateUser p _ _ _ _ _ _ _ | CReload p _ _ => ByPrincipal p
  | CAdvertise q _ _ _ | CLockSet q _ _ _ | CLockSign q _ => ByPeer q
  | CLeave id _ | CRotateKey id _ _ _ _ | CSetIPv6Capable id _ | CSetClientVersion id _ | CReportKey id _ => ByID id
  | CEnroll _ _ _ _ | CLogin _ _ _ _ _ | CTouch _ _ => Nobody
  end.

(** The calls behind the patterns for admins. *)
Definition admin_call (c : call) : bool :=
  match c with CCreateUser _ _ _ _ _ _ _ _ | CReload _ _ _ | CSetApproved _ _ _ _ _ _ => true | _ => false end.

Definition principal_of (u : User) : Principal := {| prUserID := uID u; prName := uName u; prRole := uRole u; prLocal := false |}.

(** What each endpoint asks for. *)
Definition needs (e : endpoint) : access :=
  match e with
  | EStatus | ELogin | ELogout | EMetrics | EUnknown | ERelay | EFiles => Open
  | EListUsers | ECreateUser | ECheckPolicy | EReloadPolicy | EListAudit | EBackup | ESetRoute => Admin
  | _ => Login
  end.

Lemma route_access local rq ep acc vs : route local rq = (ep, acc, vs) → acc = needs ep.
Proof.
  unfold route. intros H. destruct (omap _ (patterns local)) as [|r rs] eqn:E; [by injection H as <- <- <-|]. subst r.
  assert ((ep, acc, vs) ∈ omap (λ '(m, p, e, a), if match_method m (rqMethod rq) then pair (e, a) <$> match_path p (rqPath rq) else None) (patterns local))
    as Hin by (rewrite E; left).
  apply list_elem_of_omap in Hin as ([[[m p] e] a] & Hin & Hf). destruct (match_method m (rqMethod rq)); [|done].
  apply fmap_Some in Hf as (vs' & _ & [= -> -> ->]).
  assert (Forall (λ r : string * list segment * endpoint * access, r.2 = needs r.1.2) (patterns local)) as Hall by (destruct local; by repeat constructor).
  by apply (proj1 (Forall_forall _ _) Hall) in Hin.
Qed.

Section Safety.
Context (Verify : PublicKey → list byte → Signature → bool)
  (ParseKey : string → option (list byte)) (KeyString : list byte → string)
  (encode : Signed → string) (decode : string → option Signed) (cf : Config)
  (yaml : list byte → option Policy.document) (overlay6 : prefix)
  (dec : Decoders) (hub : HubInfo) (join : JoinInfo) (hc : NetMap.HubConfig) (version : string) (opts : Hub.HubOptions).

Notation step := (api_step Verify ParseKey KeyString encode decode cf yaml overlay6 dec hub join hc version opts).
Notation arun := (api_run Verify ParseKey KeyString encode decode cf yaml overlay6 dec hub join hc version opts).
Notation calls := (api_calls KeyString cf yaml overlay6 dec).
Notation rest_handle := (Rest.handle Verify ParseKey KeyString decode cf yaml overlay6 dec hub join).

Notation sessions st := (svSessions (apServer st)).
Notation store st := (store_of (apServer st)).

(** ** Where sessions come from *)

(** The session of a login whose password was right. *)
Definition login (sv : Server) (i : Inputs) (rq : Request) (sess : Sessions.Session) : Prop :=
  ∃ b u, readJSON (jLogin dec) (rqBody rq) = Some b ∧ u ∈ users (store_of sv) ∧ uName u = lgName b ∧ uDisabled u = false ∧
    Users.verifyPassword (cfIDKey cf) (uPasswordHash u) (lgPassword b) = Ok true ∧
    sess = Sessions.new_session (uID u) (inToken i) (inCSRF i) (inNow i).

Lemma Authenticate_user (cfk : Config) name password now fnow anow us s us' s' u :
  Users.Authenticate (cfIDKey cfk) (cfAudit cfk) (cfDummyHash cfk) name password now fnow anow us s = (us', s', Ok u) →
  u ∈ users s ∧ uName u = name ∧ uDisabled u = false ∧ Users.verifyPassword (cfIDKey cfk) (uPasswordHash u) password = Ok true.
Proof.
  unfold Users.Authenticate. intros H. destruct (Limiter.allow _ _ _ _ _ _) as [lim ok]. destruct ok; [|done]. cbn [negb] in H.
  destruct (Users_GetByName name s) as [[s1 user]|[]] eqn:E; try done.
  - apply get_ok in E as [-> [Hin Hn%eqs_true]%find_row_ok]. destruct (uDisabled user) eqn:Ed.
    + destruct (Users.verifyPassword _ _ _) as [[]|]; try done; by destruct (InTx _ _).
    + destruct (Users.verifyPassword _ _ _) as [[]|] eqn:Ev; try done; [|by destruct (InTx _ _)].
      destruct (InTx _ _) as [s2 [a|e]]; [|done]. by injection H as _ _ <-.
  - destruct (Users.verifyPassword _ _ _) as [[]|]; try done; by destruct (InTx _ _).
Qed.

Lemma sessionFrom_sub local now rq m tok sess : (sessionFrom local now rq m).1 !! tok = Some sess → m !! tok = Some sess.
Proof.
  unfold sessionFrom, Sessions.Get. destruct (_ || _); [done|]. destruct (m !! rqCookie rq) as [s|]; [destruct (Sessions.expired now s)|];
    cbn [fst]; try done; by intros [_ ?]%lookup_delete_Some.
Qed.

Lemma requireAuth_sub local now rq sv tok sess : svSessions (requireAuth local now rq sv).1 !! tok = Some sess → svSessions sv !! tok = Some sess.
Proof.
  unfold requireAuth. destruct local; [done|].
  pose proof (sessionFrom_sub false now rq (svSessions sv)) as H. destruct (sessionFrom _ _ _ _) as [m [s|]]; cbn [fst] in *; [|apply H].
  destruct (_ && _); [apply H|]. destruct (Users.GetUser _ _) as [u|]; [destruct (uDisabled u)|]; cbn [fst]; try apply H;
    cbn [with_sessions svSessions]; unfold Sessions.Delete; intros [_ Hl]%lookup_delete_Some; by apply H.
Qed.

Lemma admit_sub local now rq acc sv tok sess : svSessions (admit_request local now rq acc sv).1 !! tok = Some sess → svSessions sv !! tok = Some sess.
Proof.
  destruct acc; cbn [admit_request]; [done|apply requireAuth_sub|]. unfold requireAdmin.
  pose proof (requireAuth_sub local now rq sv tok sess) as H. destruct (requireAuth _ _ _ _) as [sv' [c|p]]; [done|]. by destruct (IsAdmin p).
Qed.

(** A handler adds no session but a login's. *)
Lemma handle_sessions local i p e vs rq sv tok sess : svSessions (rest_handle local i p e vs rq sv).1 !! tok = Some sess →
  svSessions sv !! tok = Some sess ∨ (local = false ∧ e = ELogin ∧ Sessions.seToken sess = tok ∧ login sv i rq sess).
Proof.
  destruct e; cbn [Rest.handle]; try (by left).
  - unfold handleLogin. destruct local; [by left|]. destruct (readJSON _ _) as [b|] eqn:Eb; [|by left].
    destruct (Users.Authenticate _ _ _ _ _ _ _ _ _ _) as [[us s] r] eqn:Ea. destruct r as [u|[]]; try (by left).
    apply Authenticate_user in Ea as (Hu & Hn & Hd & Hv). cbn [Sessions.Create fst with_sessions svSessions].
    intros [[<- <-]|[Hne [H _]%map_lookup_filter_Some]]%lookup_insert_Some; [right|by left]. split_and!; try done. by exists b, u.
  - unfold handleLogout. pose proof (sessionFrom_sub local (inNow i) rq (svSessions sv) tok sess) as H.
    destruct (sessionFrom _ _ _ _) as [m [s|]]; cbn [fst with_sessions svSessions] in *; intros Hm; left; [|by apply H].
    unfold Sessions.Delete in Hm. apply lookup_delete_Some in Hm as [_ Hm]. by apply H.
  - unfold handleMe. pose proof (sessionFrom_sub local (inNow i) rq (svSessions sv) tok sess) as H.
    destruct (sessionFrom _ _ _ _) as [m s]; cbn [fst with_sessions svSessions] in *; intros Hm. left. by apply H.
  - unfold handleCreateUser. destruct (readJSON _ _); [|by left]. destruct (Users.CreateUser _ _ _ _ _ _ _ _ _ _ _). by left.
  - unfold handleCreateToken. destruct (b ← _; _) as [[b ttl]|]; [|by left]. destruct (Tokens_Issue _ _ _ _ _ _). by left.
  - unfold handleRevokeToken. destruct (Tokens_Revoke _ _ _ _ _). by left.
  - unfold handleCreateMobile. destruct (readJSON _ _); [|by left]. destruct (CreateStatic _ _ _ _ _ _ _ _ _). by left.
  - unfold handleGetPeer. destruct (Registry_Get _ _ _); [|by left]. destruct (Endpoints.Get _ _ _) as [eps [l sym]].
    destruct (PolicySvc.PolicyFilterFor _ _ _ _ _). by left.
  - unfold handleRenamePeer. destruct (readJSON _ _); [|by left]. destruct (Registry_Rename _ _ _ _ _ _ _ _). by left.
  - unfold handleDeletePeer. destruct (Registry_Delete _ _ _ _ _). by left.
  - unfold handleShowPolicy. destruct (PolicySvc.Show_ _ _ _ _). by left.
  - unfold handleReloadPolicy. destruct (PolicySvc.Reload _ _ _ _ _ _ _ _ _ _) as [[s svc] [r e]]. by left.
  - unfold handleSetRoute. destruct (readJSON _ _); [|by left]. destruct (SetApproved _ _ _ _ _ _ _ _). by left.
Qed.

Lemma rpc_sessions i me m sv : svSessions (serve_rpc Verify ParseKey encode decode cf i me m sv).1 = svSessions sv.
Proof.
  destruct m; unfold serve_rpc.
  - unfold reportEndpoints. destruct (Wire.endpointsFromProto eps) as [l|]; [|done]. destruct (65535 <? listenPort); [done|].
    destruct (Endpoints.Set_ _ _ _ _ _ _) as [t [[]|]]; done.
  - unfold reportPath. destruct (_ <? _)%nat; [done|]. by destruct (negb _).
  - unfold rotateKey. destruct (rotation_of _ _) as [signed|]; [|done]. by destruct (Registry_RotateKey _ _ _ _ _ _ _ _ _ _).
  - unfold leave. by destruct (Registry_Leave _ _ _ _).
  - unfold setLock. destruct (lock_request _ _) as [[signed ps]|]; [|done]. by destruct (Set_ _ _ _ _ _ _ _ _ _ _).
  - unfold signPeer. destruct (signingFromProto sg) as [ps|]; [|done]. by destruct (Sign _ _ _ _ _ _ _).
  - done.
  - unfold advertiseRoutes. destruct (_ <? _)%nat; [done|]. by destruct (Advertise _ _ _ _ _ _ _).
Qed.

Lemma note_sessions {A} ok (f : Store → Store * result cerror A) sv : svSessions (note ok f sv) = svSessions sv.
Proof. by destruct ok. Qed.

Lemma open_sessions i me req sv : svSessions (openSync i me req sv).1 = svSessions sv.
Proof.
  unfold openSync. destruct (_ && _); [done|]. destruct (riWritten i) as [[w1 w2] w3]. cbn [fst]. rewrite note_sessions.
  by destruct (_ && _); rewrite ?note_sessions.
Qed.

Lemma observe_sessions now wrote idx l : ∀ sv, svSessions (HubDevice.observe KeyString now wrote idx l sv).1 = svSessions sv.
Proof.
  induction l as [|st l IH]; intros sv; [done|]. cbn [HubDevice.observe].
  assert (∀ sv1 ch, svSessions sv1 = svSessions sv →
    svSessions (let '(sv, ch') := HubDevice.observe KeyString now wrote idx l sv1 in (sv, ch || ch')).1 = svSessions sv) as Hstep.
  { intros sv1 ch H. rewrite <- H, <- (IH sv1). by destruct (HubDevice.observe _ _ _ _ _ _). }
  destruct (negb (APIsValid (HubDevice.stEndpoint st)) || (HubDevice.stHandshake st =? 0)); [by apply Hstep|].
  destruct (idx !! _) as [p|]; [|by apply Hstep]. destruct (eqs (pMode p) ModeStatic).
  - unfold HubDevice.noteStaticHandshake. apply Hstep. by destruct (_ && wrote).
  - destruct (Endpoints.SetObserved _ _ _ _) as [t ch]. by apply Hstep.
Qed.

(** A step adds no session but a login's. *)
Lemma step_sessions e st tok sess : sessions (step e st) !! tok = Some sess →
  sessions st !! tok = Some sess ∨
  ∃ n i vs rq p, e = Handle n i ∧ apRequests st !! n = Some (false, ELogin, vs, rq, p) ∧ Sessions.seToken sess = tok ∧ login (apServer st) i rq sess.
Proof.
  assert (∀ sv', svSessions sv' = sessions st → svSessions sv' !! tok = Some sess → sessions st !! tok = Some sess) as Hsame by (by intros sv' ->).
  destruct e; cbn [api_step].
  - destruct (route local rq) as [[ep acc] vs]. pose proof (admit_sub local now rq acc (apServer st) tok sess) as H.
    destruct (admit_request _ _ _ _ _) as [sv a]. intros Hs. left. by apply H.
  - destruct (apRequests st !! n) as [[[[[local ep] vs] rq] p]|] eqn:E; [|by left].
    intros [H|(-> & -> & Ht & Hl)]%handle_sessions; [by left|right]. by exists n, i, vs, rq, p.
  - destruct (authenticate _ _); by left.
  - destruct (apPeers st !! n); [|by left]. intros H. left. eapply Hsame; [|exact H]. apply rpc_sessions.
  - destruct (apPeers st !! n); [|by left]. intros H. left. eapply Hsame; [|exact H]. apply open_sessions.
  - destruct (apPeers st !! n); [|by left]. unfold sendMap. destruct (PolicySvc.Compiled _ _ _ _) as [svc c].
    destruct (NetMap.Build _ _ _ _ _ _) as [[? [eps nm]]|[]]; by left.
  - destruct (apPeers st !! n); by left.
  - unfold EnrollRPC. destruct (Enroll _ _ _ _ _ _ _ _ _) as [[lim s] r]. by left.
  - destruct (PolicySvc.Reload _ _ _ _ _ _ _ _ _ _) as [[s svc] r]. by left.
  - unfold HubDevice.observeOnce. intros H. left. eapply Hsame; [|exact H]. rewrite <- (observe_sessions now wrote (HubDevice.by_key (stable_sort by_name (peers (store_of (apServer st))))) l (apServer st)).
    by destruct (HubDevice.observe _ _ _ _ _ _) as [sv []].
  - by left.
Qed.

(** ** Who was authenticated *)

(** The server as it starts: the database and the tables of before, but no
    session, request or stream. *)
Definition start (sv : Server) : Api := {| apServer := with_sessions Sessions.NewSessions sv; apRequests := ∅; apPeers := ∅ |}.

Section History.
Context (sv0 : Server).

(** The state an event of a history met. *)
Definition met (l : list event) (e : event) (st : Api) : Prop := ∃ pre post, l = pre ++ e :: post ∧ st = arun (start sv0) pre.

(** The session was made by a login, the password of which was right. *)
Definition logged_in (l : list event) (sess : Sessions.Session) : Prop :=
  ∃ n i st vs rq p, met l (Handle n i) st ∧ apRequests st !! n = Some (false, ELogin, vs, rq, p) ∧ login (apServer st) i rq sess.

(** A request arrived on the socket, or with the cookie of a session that lives
    and whose account was enabled, and with the session's CSRF text if it may
    change something. *)
Definition admitted (l : list event) (rq : Request) (p : Principal) : Prop :=
  ∃ n local now st, met l (Arrive n local now rq) st ∧
    if (local : bool) then p = LocalAdmin
    else ∃ sess u, logged_in l sess ∧ rqCookie rq = Sessions.seToken sess ∧ Sessions.expired now sess = false ∧
      (safe_method (rqMethod rq) = true ∨ rqCSRF rq = Sessions.seCSRF sess) ∧
      u ∈ users (store st) ∧ uID u = Sessions.seUserID sess ∧ uDisabled u = false ∧ p = principal_of u.

(** A call arrived with the secret of a peer. *)
Definition dialed (l : list event) (q : Peer) : Prop :=
  ∃ n auth st, met l (Dial n auth) st ∧ node_secret auth ≠ "" ∧ q ∈ peers (store st) ∧ pNodeSecretHash q = hashSecret (node_secret auth).

Definition authorised (l : list event) (e : event) (c : call) : Prop :=
  match caller_of c with
  | ByPrincipal p =>
      ((∃ rq, admitted l rq p) ∨ p = LocalAdmin ∧ ∃ f anow, e = Signal f anow) ∧ (admin_call c = true → IsAdmin p = true)
  | ByPeer q => dialed l q
  | ByID id => ∃ q, dialed l q ∧ pID q = id
  | Nobody => True
  end.

Lemma met_app l l' e st : met l e st → met (l ++ l') e st.
Proof. intros (pre & post & -> & ->). exists pre, (post ++ l'). by rewrite <- app_assoc. Qed.

Lemma met_last l e : met (l ++ [e]) e (arun (start sv0) l).
Proof. by exists l, []. Qed.

Lemma logged_in_app l l' sess : logged_in l sess → logged_in (l ++ l') sess.
Proof. intros (n & i & st & vs & rq & p & H & ?). exists n, i, st, vs, rq, p. split; [by apply met_app|done]. Qed.

Lemma admitted_app l l' rq p : admitted l rq p → admitted (l ++ l') rq p.
Proof.
  intros (n & local & now & st & H & Hp). exists n, local, now, st. split; [by apply met_app|].
  destruct local; [done|]. destruct Hp as (sess & u & Hl & ?). exists sess, u. split; [by apply logged_in_app|done].
Qed.

Lemma dialed_app l l' q : dialed l q → dialed (l ++ l') q.
Proof. intros (n & auth & st & H & ?). exists n, auth, st. split; [by apply met_app|done]. Qed.

(** What a request in progress was let in with. *)
Definition let_in (l : list event) (r : bool * endpoint * list string * Request * Principal) : Prop :=
  let '(local, ep, vs, rq, p) := r in
  ∃ acc, route local rq = (ep, acc, vs) ∧ (acc ≠ Open → admitted l rq p) ∧ (acc = Admin → IsAdmin p = true).

Record traced (l : list event) : Prop := {
  tr_requests : ∀ n r, apRequests (arun (start sv0) l) !! n = Some r → let_in l r;
  tr_peers : ∀ n q, apPeers (arun (start sv0) l) !! n = Some q → dialed l q;
  tr_sessions : ∀ tok sess, sessions (arun (start sv0) l) !! tok = Some sess → Sessions.seToken sess = tok ∧ logged_in l sess;
}.

Lemma GetUser_found id s u : Users.GetUser id s = Ok u → u ∈ users s ∧ uID u = id.
Proof.
  unfold Users.GetUser. destruct (Users_GetByID id s) as [[s' u']|[]] eqn:E; try done. intros [= ->].
  by apply get_ok in E as [_ [? ?%eqs_true]%find_row_ok].
Qed.

Lemma PeerByNodeSecret_found secret s q : PeerByNodeSecret secret s = Ok q → q ∈ peers s ∧ pNodeSecretHash q = hashSecret secret.
Proof.
  unfold PeerByNodeSecret. destruct (eqs secret ""); [done|].
  destruct (Peers_GetByNodeSecretHash (hashSecret secret) s) as [[s' q']|[]] eqn:E; try done. intros [= ->].
  by apply get_ok in E as [_ [? [_ ?%eqs_true]%andb_true_iff]%find_row_ok].
Qed.

Lemma requireAuth_granted local now rq sv sv' p : requireAuth local now rq sv = (sv', Granted p) →
  if local then p = LocalAdmin
  else ∃ sess u, svSessions sv !! rqCookie rq = Some sess ∧ Sessions.expired now sess = false ∧
    (safe_method (rqMethod rq) = true ∨ rqCSRF rq = Sessions.seCSRF sess) ∧
    u ∈ users (store_of sv) ∧ uID u = Sessions.seUserID sess ∧ uDisabled u = false ∧ p = principal_of u.
Proof.
  unfold requireAuth. destruct local; [by intros [= _ <-]|]. unfold sessionFrom. cbn [orb].
  destruct (eqs (rqCookie rq) ""); [done|]. destruct (Sessions.Get now (rqCookie rq) (svSessions sv)) as [m s] eqn:Eg.
  destruct s as [sess|]; [|done]. pose proof (f_equal snd Eg) as [Hs Hx]%Sessions.Get_some.
  destruct (negb (safe_method (rqMethod rq)) && negb (eqs (rqCSRF rq) (Sessions.seCSRF sess))) eqn:Ec; [done|].
  destruct (Users.GetUser _ _) as [u|] eqn:Eu; [|done]. destruct (uDisabled u) eqn:Ed; [done|]. intros [= _ <-].
  apply GetUser_found in Eu as [Hu Hid]. exists sess, u. split_and!; try done.
  apply andb_false_iff in Ec as [H%negb_false_iff|H%negb_false_iff]; [by left|right; by apply eqs_true].
Qed.

Lemma admit_granted l n local now rq ep acc vs sv' p : traced l → route local rq = (ep, acc, vs) →
  admit_request local now rq acc (apServer (arun (start sv0) l)) = (sv', Granted p) → let_in (l ++ [Arrive n local now rq]) (local, ep, vs, rq, p).
Proof.
  intros Ht Hr Ha. set (sv := apServer (arun (start sv0) l)) in *.
  assert (∀ sv', requireAuth local now rq sv = (sv', Granted p) → admitted (l ++ [Arrive n local now rq]) rq p) as Hauth.
  { intros sv1 H%requireAuth_granted. exists n, local, now, (arun (start sv0) l). split; [apply met_last|].
    destruct local; [done|]. destruct H as (sess & u & Hs & ?). apply (tr_sessions _ Ht) in Hs as [Htok Hl].
    exists sess, u. split; [by apply logged_in_app|]. by split. }
  exists acc. split; [done|]. destruct acc; cbn [admit_request] in Ha.
  - done.
  - split; [|done]. intros _. by apply (Hauth sv').
  - unfold requireAdmin in Ha. destruct (requireAuth local now rq sv) as [sv1 [|p1]] eqn:Eq; [done|].
    destruct (IsAdmin p1) eqn:Ead; [|done]. injection Ha as _ ->. split; [|done]. intros _. by apply (Hauth sv1).
Qed.

Lemma let_in_app l l' r : let_in l r → let_in (l ++ l') r.
Proof.
  destruct r as [[[[local ep] vs] rq] p]. intros (acc & Hr & Ha & Hi). exists acc. split_and!; try done.
  intros H. by apply admitted_app, Ha.
Qed.

(** The tables that remember who was let in gain an entry only where one is. *)
Lemma step_requests e st n r : apRequests (step e st) !! n = Some r → apRequests st !! n = Some r ∨
  ∃ local now rq ep acc vs sv p, e = Arrive n local now rq ∧ route local rq = (ep, acc, vs) ∧
    admit_request local now rq acc (apServer st) = (sv, Granted p) ∧ r = (local, ep, vs, rq, p).
Proof.
  destruct e; cbn [api_step]; try (destruct (apPeers st !! _)); try (by left).
  - destruct (route local rq) as [[ep acc] vs] eqn:Er. destruct (admit_request local now rq acc (apServer st)) as [sv [c|p]] eqn:Ea; [by left|].
    cbn [apRequests]. intros [[<- <-]|[_ H]]%lookup_insert_Some; [right|by left]. by exists local, now, rq, ep, acc, vs, sv, p.
  - destruct (apRequests st !! n0) as [[[[[local ep] vs] rq] p]|]; [|by left]. cbn [apRequests]. intros [_ H]%lookup_delete_Some. by left.
  - destruct (authenticate _ _); by left.
  - destruct (PolicySvc.Reload _ _ _ _ _ _ _ _ _ _) as [[s svc] r']. by left.
Qed.

Lemma step_peers e st n q : apPeers (step e st) !! n = Some q → apPeers st !! n = Some q ∨
  ∃ auth, e = Dial n auth ∧ authenticate auth (apServer st) = Ok q.
Proof.
  destruct e; cbn [api_step]; try (by left).
  - destruct (route local rq) as [[ep acc] vs]. destruct (admit_request local now rq acc (apServer st)) as [sv a]. by left.
  - destruct (apRequests st !! n0) as [[[[[local ep] vs] rq] p]|]; by left.
  - destruct (authenticate _ _) as [q'|] eqn:E; [|by left]. cbn [apPeers]. intros [[<- <-]|[_ H]]%lookup_insert_Some; [right|by left].
    by exists authorization.
  - destruct (apPeers st !! n0); [|by left]. cbn [apPeers]. intros [_ H]%lookup_delete_Some. by left.
  - destruct (apPeers st !! n0); by left.
  - destruct (apPeers st !! n0); by left.
  - destruct (apPeers st !! n0); [|by left]. cbn [apPeers]. intros [_ H]%lookup_delete_Some. by left.
  - destruct (PolicySvc.Reload _ _ _ _ _ _ _ _ _ _) as [[s svc] r']. by left.
Qed.

Lemma authenticate_found auth sv q : authenticate auth sv = Ok q →
  node_secret auth ≠ "" ∧ q ∈ peers (store_of sv) ∧ pNodeSecretHash q = hashSecret (node_secret auth).
Proof.
  unfold authenticate. destruct (eqs (node_secret auth) "") eqn:E; [done|]. destruct (PeerByNodeSecret _ _) as [q'|] eqn:Eq; [|done].
  intros [= ->]. apply PeerByNodeSecret_found in Eq. split; [|done]. intros Hn. by rewrite Hn in E.
Qed.

Lemma all_traced l : traced l.
Proof.
  induction l as [|e l IH] using rev_ind; [by split|]. split.
  - intros n r Hr. rewrite api_snoc in Hr. apply step_requests in Hr as [Hr|(local & now & rq & ep & acc & vs & sv & p & -> & Hr & Ha & ->)].
    + by eapply let_in_app, tr_requests.
    + by eapply admit_granted.
  - intros n q Hq. rewrite api_snoc in Hq. apply step_peers in Hq as [Hq|(auth & -> & Hq)].
    + by eapply dialed_app, tr_peers.
    + exists n, auth, (arun (start sv0) l). split; [apply met_last|by apply authenticate_found].
  - intros tok sess Hs. rewrite api_snoc in Hs. apply step_sessions in Hs as [Hs|(n & i & vs & rq & p & -> & Hr & Ht & Hl)].
    + apply (tr_sessions _ IH) in Hs as [? ?]. split; [done|by apply logged_in_app].
    + split; [done|]. exists n, i, (arun (start sv0) l), vs, rq, p. split; [apply met_last|done].
Qed.

(** ** Calls and their callers *)

Lemma rest_calls_caller local i p ep vs rq sv c acc : route local rq = (ep, acc, vs) → c ∈ Api.rest_calls cf yaml overlay6 dec local i p ep vs rq sv →
  caller_of c = Nobody ∧ admin_call c = false ∨ caller_of c = ByPrincipal p ∧ acc ≠ Open ∧ (admin_call c = true → acc = Admin).
Proof.
  intros Hr%route_access. destruct ep; cbn [needs] in Hr; subst acc; cbn [Api.rest_calls]; try (by intros ?%not_elem_of_nil);
    try (destruct local; [by intros ?%not_elem_of_nil|]);
    try (destruct (b ← _; _) as [[b ttl]|]; [|by intros ?%not_elem_of_nil]);
    try (destruct (readJSON _ _); [|by intros ?%not_elem_of_nil]);
    try (intros ->%list_elem_of_singleton; cbn; first [by left|by right]).
  unfold reload_calls. destruct (PolicySvc.reload_checks _ _ _ _ _) as [[r w]|]; [|by intros ?%not_elem_of_nil].
  intros ->%list_elem_of_singleton. by right.
Qed.

Lemma rpc_calls_caller i me m c : c ∈ Api.rpc_calls i me m →
  (caller_of c = ByPeer me ∨ caller_of c = ByID (pID me)) ∧ admin_call c = false.
Proof.
  destruct m; cbn [Api.rpc_calls]; try (by intros ?%not_elem_of_nil);
    try (destruct (rotation_of _ _); [|by intros ?%not_elem_of_nil]);
    try (destruct (lock_request _ _) as [[? ?]|]; [|by intros ?%not_elem_of_nil]);
    try (destruct (signingFromProto _); [|by intros ?%not_elem_of_nil]);
    try (destruct (_ <? _)%nat; [by intros ?%not_elem_of_nil|]);
    intros ->%list_elem_of_singleton; by auto.
Qed.

Lemma open_calls_caller i me req c : c ∈ Api.open_calls i me req → caller_of c = Nobody ∨ caller_of c = ByID (pID me).
Proof.
  unfold Api.open_calls. destruct (_ && _); [by intros ?%not_elem_of_nil|]. destruct (riWritten i) as [[w1 w2] w3].
  rewrite elem_of_cons, !elem_of_app. intros [->|[H|[H|H]]]; [by auto| | |]; revert H; case_match;
    try (by intros ?%not_elem_of_nil); intros ->%list_elem_of_singleton; by auto.
Qed.

Lemma observe_calls_caller wrote idx l c : c ∈ Api.observe_calls KeyString wrote idx l → caller_of c = Nobody.
Proof.
  induction l as [|st l IH]; cbn [Api.observe_calls]; [by intros ?%not_elem_of_nil|]. rewrite elem_of_app. intros [H|H]; [|by apply IH].
  revert H. repeat case_match; try (by intros ?%not_elem_of_nil); by intros ->%list_elem_of_singleton.
Qed.

Lemma calls_authorised l e c : c ∈ calls e (arun (start sv0) l) → authorised l e c.
Proof.
  pose proof (all_traced l) as Ht. unfold authorised. destruct e; cbn [api_calls]; try (by intros ?%not_elem_of_nil).
  - destruct (apRequests _ !! n) as [[[[[local ep] vs] rq] p]|] eqn:E; [|by intros ?%not_elem_of_nil].
    apply (tr_requests _ Ht) in E as (acc & Hr & Ha & Hi). intros Hc. eapply rest_calls_caller in Hc as [[-> _]|(-> & Hn & Hadm)]; [done| |exact Hr].
    split; [|auto]. left. exists rq. by apply Ha.
  - destruct (apPeers _ !! n) as [me|] eqn:E; [|by intros ?%not_elem_of_nil]. apply (tr_peers _ Ht) in E.
    intros [[-> | ->] _]%rpc_calls_caller; [done|by exists me].
  - destruct (apPeers _ !! n) as [me|] eqn:E; [|by intros ?%not_elem_of_nil]. apply (tr_peers _ Ht) in E.
    intros [-> | ->]%open_calls_caller; [done|by exists me].
  - intros ->%list_elem_of_singleton. done.
  - unfold reload_calls. destruct (PolicySvc.reload_checks _ _ _ _ _) as [[r w]|]; [|by intros ?%not_elem_of_nil].
    intros ->%list_elem_of_singleton. cbn [caller_of admin_call]. split; [right|done]. split; [done|]. by exists f, anow.
  - intros ->%observe_calls_caller. done.
Qed.

(** C4: the API in front of the control plane refines it: whatever requests,
    RPCs, signals and handshakes come in whatever order, the database and the
    other state of the services are what the calls made on the way leave, in
    that order.  And every call has someone behind it who was authenticated
    before: a request's principal is the socket's, or the account of a live
    session that a right password made, which was enabled when the request
    arrived, with the session's CSRF text unless the method is safe; an RPC's
    peer had the secret the caller showed.  The calls of the admin patterns are
    an admin's.  Only logins, enrolments and observed handshakes need nobody. *)
Theorem api_refines_control (l : list event) :
  ctl (apServer (arun (start sv0) l)) = Control.run Verify ParseKey KeyString encode decode cf (ctl sv0) (run_calls Verify ParseKey KeyString encode decode cf yaml overlay6 dec hub join hc version opts (start sv0) l) ∧
  ∀ e c, c ∈ calls e (arun (start sv0) l) → authorised l e c.
Proof. split; [by rewrite api_runs|]. intros e c. apply calls_authorised. Qed.

End History.
End Safety.
