(* ===== verification/ApiPrivacy.v ===== *)
(** What the admin API tells a member: replies do not depend on what belongs to
    other people. *)

From S2P Require Import Prelude GoStrings NetIP Store Effects Tables Enroll LockRecord LockService Registry Routes Control Http Rest.
From S2P Require Import ControlSafety.
From S2P Require Sessions Hub Endpoints Policy PolicySvc Users Compile.

#[export] Instance by_name_strict_weak : StrictWeak by_name := Compile.strict_weak_on pName str_ltb.

Lemma strict_weak_flip {A} (less : A → A → bool) `{!StrictWeak less} : StrictWeak (λ a b, less b a).
Proof. split; intros; [by apply less_asym|]. by eapply nless_trans. Qed.

Definition newest_first (a b : Token) : bool := text_before (tCreatedAt b) (tCreatedAt a).
#[export] Instance newest_first_strict_weak : StrictWeak newest_first :=
  @strict_weak_flip _ (λ a b, text_before (tCreatedAt a) (tCreatedAt b)) (Compile.strict_weak_on (λ t, formatTime (tCreatedAt t)) str_ltb).

(** ** The database without what is other people's *)

Definition own_peers (p : Principal) (s : Store) : list Peer := filter (λ q, eqs (pOwnerID q) (prUserID p) = true) (peers s).
Definition own_tokens (p : Principal) (s : Store) : list Token := filter (λ t, eqs (tOwnerID t) (prUserID p) = true) (tokens s).
Definition own_routes (p : Principal) (s : Store) : list PeerRoute := filter (λ r, rPeerID r ∈ pID <$> own_peers p s) (routes s).

Definition erase_store (p : Principal) (s : Store) : Store :=
  with_peers (own_peers p s) (with_tokens (own_tokens p s) (with_routes (own_routes p s) s)).
Definition erase_others (p : Principal) (sv : Server) : Server := with_store (erase_store p (store_of sv)) sv.

(** What a reply holds of other people's devices: the rules compiled for the
    caller's. *)
Definition mask_body (b : body) : body :=
  match b with
  | BDetail d =>
      BDetail {| pdPeer := pdPeer d; pdPaths := pdPaths d; pdEndpoints := pdEndpoints d; pdSymmetric := pdSymmetric d; pdFilter := [];
                 pdRoutes := pdRoutes d |}
  | b => b
  end.
Definition mask (r : Reply) : Reply := {| rpCode := rpCode r; rpBody := mask_body (rpBody r); rpCookie := rpCookie r |}.

Definition routes_of (id : string) (s : Store) : list PeerRoute :=
  stable_sort (λ a b, str_ltb (rPrefix a) (rPrefix b)) (filter (λ r, eqs (rPeerID r) id = true) (routes s)).

Section Privacy.
Context (p : Principal) (Hp : IsAdmin p = false).

Notation erase := (erase_store p).

Lemma List_erased s : Registry_List p (erase s) = Registry_List p s.
Proof.
  unfold Registry_List. rewrite Hp, !(filter_stable_sort by_name). cbn [erase_store with_peers peers]. unfold own_peers. f_equal.
  rewrite list_filter_filter. apply list_filter_iff. tauto.
Qed.

Lemma Visible_erased s : Tokens_Visible p (erase s) = Tokens_Visible p s.
Proof.
  unfold Tokens_Visible, Tokens_List, query. rewrite Hp. change (stable_sort _ (tokens ?s)) with (stable_sort newest_first (tokens s)).
  change (stable_sort _ (tokens (erase s))) with (stable_sort newest_first (own_tokens p s)).
  rewrite !(filter_stable_sort newest_first). unfold own_tokens. f_equal. rewrite list_filter_filter. apply list_filter_iff. tauto.
Qed.

(** A name of somebody else is a name nobody has. *)
Lemma GetByName_erased name s : store_ok s →
  Peers_GetByName name (erase s) =
    match Peers_GetByName name s with
    | Ok (_, q) => if eqs (pOwnerID q) (prUserID p) then Ok (erase s, q) else Err ErrNotFound
    | Err e => Err e
    end.
Proof.
  intros Hok. unfold Peers_GetByName, get, find_row. cbn [erase_store with_peers with_tokens with_routes peers].
  unfold own_peers. assert (filter (λ q, eqs (pName q) name = true) (filter (λ q, eqs (pOwnerID q) (prUserID p) = true) (peers s)) =
    filter (λ q, eqs (pOwnerID q) (prUserID p) = true) (filter (λ q, eqs (pName q) name = true) (peers s))) as ->.
  { rewrite !list_filter_filter. apply list_filter_iff. tauto. }
  destruct (filter (λ q, eqs (pName q) name = true) (peers s)) as [|q rest] eqn:E; [done|].
  rewrite filter_cons. destruct (eqs (pOwnerID q) (prUserID p)) eqn:Eo; [done|]. case_decide; [done|].
  destruct (filter _ rest) as [|r rest'] eqn:Er; [done|]. exfalso.
  assert (r ∈ filter (λ q, eqs (pOwnerID q) (prUserID p) = true) rest) as [Hr Hin]%list_elem_of_filter by (rewrite Er; left).
  pose proof (ok_peer_names s Hok) as Hnd.
  assert (q ∈ filter (λ q, eqs (pName q) name = true) (peers s)) as [Hq%eqs_true Hqin]%list_elem_of_filter by (rewrite E; left).
  assert (r ∈ filter (λ q, eqs (pName q) name = true) (peers s)) as [Hrn%eqs_true Hrin]%list_elem_of_filter by (rewrite E; by right).
  assert (q = r) as -> by (eapply (key_unique pName); [done..|congruence]). congruence.
Qed.

Lemma Get_erased name s : store_ok s → Registry_Get p name (erase s) = Registry_Get p name s.
Proof.
  intros Hok. unfold Registry_Get. rewrite GetByName_erased, Hp by done. cbn [negb andb].
  destruct (Peers_GetByName name s) as [[s' q]|e]; [|done].
  destruct (eqs (pOwnerID q) (prUserID p)) eqn:Eo; [by rewrite Eo|done].
Qed.

Lemma Registry_Get_own name s q : Registry_Get p name s = Ok q → q ∈ own_peers p s.
Proof.
  unfold Registry_Get. rewrite Hp. cbn [negb andb]. destruct (Peers_GetByName name s) as [[s' q']|[]] eqn:E; try done.
  destruct (eqs (pOwnerID q') (prUserID p)) eqn:Eo; [|done]. intros [= ->]. apply get_ok in E as [_ [? _]%find_row_ok].
  by apply list_elem_of_filter.
Qed.

Lemma ListPeer_erased q s : q ∈ own_peers p s → routes_of (pID q) (erase s) = routes_of (pID q) s.
Proof.
  intros Hq. unfold routes_of. f_equal. cbn [erase_store with_peers with_tokens with_routes routes]. unfold own_routes.
  rewrite list_filter_filter. apply list_filter_iff. intros r. split; [tauto|]. intros Hr. split; [done|].
  apply eqs_true in Hr as ->. by apply list_elem_of_fmap_2.
Qed.

Lemma Routes_erased name s : store_ok s → List_ p name (erase s) = List_ p name s.
Proof.
  intros Hok. pose proof (Get_erased name s Hok) as Hg. unfold Registry_Get in Hg. unfold List_. rewrite GetByName_erased, Hp by done. cbn [negb andb].
  destruct (Peers_GetByName name s) as [[s' q]|e] eqn:E; [|done]. destruct (eqs (pOwnerID q) (prUserID p)) eqn:Eo; [|done]. rewrite ?Eo. cbn [negb].
  apply get_ok in E as [_ [Hq _]%find_row_ok]. change (Ok (routes_of (pID q) (erase s)) = Ok (A:=list PeerRoute) (E:=cerror) (routes_of (pID q) s)).
  by rewrite ListPeer_erased by by apply list_elem_of_filter.
Qed.

(** What a test on the rows of a member finds. *)
Lemma own_token_kept id s : existsb (λ t, eqs (tID t) id) (Tokens_Visible p s) = true →
  existsb (λ t, eqs (tID t) id) (tokens s) = true ∧ existsb (λ t, eqs (tID t) id) (tokens (erase s)) = true.
Proof.
  unfold Tokens_Visible, Tokens_List, query. rewrite Hp, !existsb_exists. intros (t & Hin & Ht). apply list_elem_of_In in Hin.
  apply list_elem_of_filter in Hin as [Ho Hin]. apply elem_of_stable_sort in Hin.
  split; exists t; (split; [apply list_elem_of_In|done]); [done|]. by apply list_elem_of_filter.
Qed.

Lemma audit_reply on now by_ action target details s1 s2 :
  (InTx (audit_record on now by_ action target details) s1).2 = (InTx (audit_record on now by_ action target details) s2).2.
Proof. unfold audit_record, InTx, lift, Audit_Append. destruct on; [|done]. cbn [aAction aActor]. by destruct (_ || _). Qed.

Lemma revoke_reply au id anow s : existsb (λ t, eqs (tID t) id) (tokens s) = true →
  (InTx (revoke_tx au p id anow) s).2 = (InTx (audit_record au anow p AuditTokenRevoke id []) s).2.
Proof.
  intros H. rewrite <- (audit_reply au anow p AuditTokenRevoke id [] (with_tokens (filter (λ t, eqs (tID t) id = false) (tokens s)) s) s).
  assert (Tokens_Delete id s = Ok (with_tokens (filter (λ t, eqs (tID t) id = false) (tokens s)) s, ())) as Hd
    by (unfold Tokens_Delete; by rewrite H).
  unfold InTx, revoke_tx. cbv [mbind tx_bind lift]. rewrite Hd.
  by destruct (audit_record _ _ _ _ _ _ _) as [[]|].
Qed.

Lemma Revoke_erased au id anow s : (Tokens_Revoke au p id anow (erase s)).2 = (Tokens_Revoke au p id anow s).2.
Proof.
  unfold Tokens_Revoke. rewrite Visible_erased, Hp. cbn [negb andb].
  destruct (existsb _ (Tokens_Visible p s)) eqn:E; cbn [negb]; [|done].
  apply own_token_kept in E as [H1 H2]. rewrite !revoke_reply by done. apply audit_reply.
Qed.
End Privacy.

Section Replies.
Context (Verify : PublicKey → list byte → Signature → bool)
  (ParseKey : string → option (list byte)) (KeyString : list byte → string) (decode : string → option Signed) (cf : Config)
  (yaml : list byte → option Policy.document) (overlay6 : prefix)
  (dec : Decoders) (hub : HubInfo) (join : JoinInfo).

Notation rest_handle := (Rest.handle Verify ParseKey KeyString decode cf yaml overlay6 dec hub join).

Lemma userName_erased p id s : userName id (erase_store p s) = userName id s.
Proof.
  unfold userName, Users.GetUser, Users_GetByID, get. change (users (erase_store p s)) with (users s). by destruct (find_row _ (users s)) as [u|[]].
Qed.

(** Whether a device's key is signed, from its row, the lock's record and the
    signatures: it depends on nobody else's device. *)
Definition signed_alone (s : Store) (q : Peer) : option bool :=
  raw ← meta s !! MetaLockRecord; cur ← decode raw;
  if Enabled (record cur)
  then Some (lpSigned (lock_peer Verify ParseKey (record cur)
         (IndexSignatures (stable_sort (λ a b, if eqs (gPeerID a) (gPeerID b) then str_ltb (gSignerKey a) (gSignerKey b) else str_ltb (gPeerID a) (gPeerID b)) (signatures s)))
         (pID q) (pName q) (pKind q) (pPublicKey q) ""))
  else None.

Lemma signed_by_row q sv : NoDup (pID <$> peers (store_of sv)) → q ∈ peers (store_of sv) →
  (λ m, default false (m !! pID q)) <$> signedIndex Verify ParseKey decode sv = signed_alone (store_of sv) q.
Proof.
  intros Hnd Hq. unfold signedIndex, signed_alone, ListPeers, LoadLockRecord, Meta_Get. cbv [mbind tx_bind].
  destruct (meta (store_of sv) !! MetaLockRecord) as [raw|] eqn:Em; [|done]. cbn [option_bind]. destruct (decode raw) as [cur|] eqn:Ed; [|done]. cbn [option_bind].
  destruct (Enabled (record cur)); [|done]. cbn. f_equal. rewrite ?Em, ?Ed. cbn.
  set (row := λ p, lock_peer _ _ _ _ (pID p) _ _ _ _).
  change (pID q) with (lpID (row q)). rewrite (foldl_insert_lookup lpID lpSigned _ (row q)); [done| |].
  - rewrite <- list_fmap_compose. change (NoDup (pID <$> stable_sort by_name (peers (store_of sv)))). by rewrite stable_sort_perm.
  - apply list_elem_of_fmap_2. by apply elem_of_stable_sort.
Qed.

Lemma view_erased p now q sv : store_ok (store_of sv) → q ∈ own_peers p (store_of sv) →
  peer_view now q (signedIndex Verify ParseKey decode (erase_others p sv)) (erase_others p sv) = peer_view now q (signedIndex Verify ParseKey decode sv) sv.
Proof.
  intros Hok Hq. unfold peer_view. pose proof Hq as [_ Hin]%list_elem_of_filter. rewrite !signed_by_row.
  - change (store_of (erase_others p sv)) with (erase_store p (store_of sv)). by rewrite userName_erased.
  - apply Hok.
  - done.
  - change (NoDup (pID <$> own_peers p (store_of sv))). apply NoDup_fmap_filter, Hok.
  - exact Hq.
Qed.

Lemma paths_erased p id sv : IsAdmin p = false → path_views p id (erase_others p sv) = path_views p id sv.
Proof. intros Hp. unfold path_views. cbn [erase_others store_of with_store with_control svControl stStore]. by rewrite List_erased. Qed.

Lemma detail_erased p i name sv : store_ok (store_of sv) → IsAdmin p = false →
  mask (handleGetPeer Verify ParseKey decode cf overlay6 i p name (erase_others p sv)).2 = mask (handleGetPeer Verify ParseKey decode cf overlay6 i p name sv).2.
Proof.
  intros Hok Hp. unfold handleGetPeer. change (store_of (erase_others p sv)) with (erase_store p (store_of sv)).
  rewrite (Get_erased p Hp) by done. destruct (Registry_Get p name (store_of sv)) as [q|e] eqn:Eq; [|done].
  apply (Registry_Get_own p Hp) in Eq.
  rewrite (Routes_erased p Hp) by done. change (svEndpoints (erase_others p sv)) with (svEndpoints sv).
  destruct (Endpoints.Get _ _ _) as [eps [l sym]].
  destruct (PolicySvc.PolicyFilterFor _ _ _ _ _) as [svc fl]. destruct (PolicySvc.PolicyFilterFor _ _ _ _ _) as [svc' fl'].
  unfold mask. cbn [snd writeJSON rpCode rpBody rpCookie mask_body pdPeer pdPaths pdEndpoints pdSymmetric pdRoutes]. rewrite (view_erased p _ q sv) by done. do 3 f_equal.
  by apply (paths_erased p (pID q) (with_policy svc' (with_endpoints eps sv))).
Qed.

(** What a rule compiled for a device is shown as. *)
Definition rule_view (f : Compile.FilterRule) : string * string * Z * Z := (addr_string (Compile.frSrc f), Compile.frProto f, Compile.frLo f, Compile.frHi f).

(** The endpoints through which a member looks at devices and tokens, or tries
    to remove them. *)
Definition about_own (e : endpoint) : bool :=
  match e with EMe | EListTokens | EListPeers | EGetPeer | EListRoutes | ERevokeToken | EDeletePeer => true | _ => false end.

(** C14: what a member asks about devices and tokens is answered as if there
    were only their own: the reply is the same when every other peer, token and
    route is erased from the database, so neither what they are nor that a name
    or id is taken shows.  One field is an exception and shows other people's
    devices on purpose: the filter of a device that is shown, which is then one
    of the member's own, and it has exactly the rules of the policy in force
    towards that device. *)
Theorem members_see_their_own local i p e vs rq sv :
  tables_ok (store_of sv) → IsAdmin p = false → about_own e = true →
  mask (rest_handle local i p e vs rq sv).2 = mask (rest_handle local i p e vs rq (erase_others p sv)).2 ∧
  ∀ d, rpBody (rest_handle local i p e vs rq sv).2 = BDetail d →
    ∃ q, q ∈ peers (store_of sv) ∧ pOwnerID q = prUserID p ∧ pvID (pdPeer d) = pID q ∧
      pdFilter d = rule_view <$> (PolicySvc.PolicyFilterFor (cfOverlay cf) overlay6 (pID q) (store_of sv) (svPolicy sv)).2.
Proof.
  intros [Hok _ _ _ _ _ _ _ _ _ _ _ _ _] Hp He. split.
  - destruct e; try done; cbn [Rest.handle].
    + unfold handleMe. change (svSessions (erase_others p sv)) with (svSessions sv). by destruct (sessionFrom _ _ _ _).
    + unfold handleListTokens. cbn [snd]. change (store_of (erase_others p sv)) with (erase_store p (store_of sv)). rewrite Visible_erased by done.
      do 3 f_equal. apply list_fmap_ext. intros ? t _. unfold token_view. by rewrite userName_erased.
    + unfold handleRevokeToken. change (store_of (erase_others p sv)) with (erase_store p (store_of sv)).
      pose proof (Revoke_erased p Hp (cfAudit cf) (path_value 0 vs) (dAuditNow (inDraw i)) (store_of sv)) as H.
      destruct (Tokens_Revoke _ _ _ _ (erase_store p (store_of sv))), (Tokens_Revoke _ _ _ _ (store_of sv)). cbn [snd] in *. by rewrite H.
    + unfold handleListPeers. cbn [snd]. do 3 f_equal. change (store_of (erase_others p sv)) with (erase_store p (store_of sv)). rewrite List_erased by done.
      apply list_fmap_ext. intros j q Hq%list_elem_of_lookup_2. symmetry. apply view_erased; [done|].
      unfold Registry_List in Hq. rewrite Hp in Hq. apply list_elem_of_filter in Hq as [Ho Hq]. apply list_elem_of_filter. split; [done|]. by apply elem_of_stable_sort in Hq.
    + by rewrite detail_erased.
    + unfold handleDeletePeer, Registry_Delete. by rewrite Hp.
    + unfold handleListRoutes. cbn [snd]. change (store_of (erase_others p sv)) with (erase_store p (store_of sv)). by rewrite Routes_erased.
  - intros d. destruct e; try done; cbn [Rest.handle].
    + unfold handleMe. by destruct (sessionFrom _ _ _ _).
    + unfold handleRevokeToken. destruct (Tokens_Revoke _ _ _ _ _) as [? [[]|e]]; [done|]. by destruct e.
    + unfold handleGetPeer. destruct (Registry_Get _ _ _) as [q|e] eqn:Eq; [|done]. apply (Registry_Get_own p Hp) in Eq as [Ho%eqs_true Hq]%list_elem_of_filter.
      destruct (Endpoints.Get _ _ _) as [eps [l sym]]. change (store_of (with_endpoints eps sv)) with (store_of sv). change (svPolicy (with_endpoints eps sv)) with (svPolicy sv).
      destruct (PolicySvc.PolicyFilterFor _ _ _ _ _) as [svc fl] eqn:Ef. intros [= <-]. exists q. by rewrite Ef.
    + unfold handleDeletePeer. destruct (Registry_Delete _ _ _ _ _) as [? [[]|e']]; [done|]. by destruct e'.
    + unfold handleListRoutes. by destruct (List_ _ _ _).
Qed.
End Replies.

(** ** One device, and a member it does not belong to *)

Definition demo_server : Server :=
  {| svControl := demo_enrolled_state; svPolicy := PolicySvc.NewPolicyService; svSessions := Sessions.NewSessions; svHub := Hub.NewHub 0 0;
     svEndpoints := Endpoints.NewEndpointTable; svPaths := ∅; svSeen := ∅ |}.
Definition demo_member : Principal := {| prUserID := "u2"; prName := "bob"; prRole := RoleMember; prLocal := false |}.
Definition demo_decoders : Decoders :=
  {| jLogin := λ _, Some {| lgName := "ada"; lgPassword := "correct horse" |}; jUser := λ _, Some {| ubName := "bob"; ubRole := RoleMember; ubPassword := "battery staple" |};
     jToken := λ _, None; jMobile := λ _, None; jRename := λ _, None; jApproved := λ _, None; jYAML := λ _, None; ParseDuration := λ _, None;
     ParseRFC3339 := λ _, None |}.
Definition demo_hub : HubInfo :=
  {| hiPublicKey := "hub-key"; hiEndpoint := "192.0.2.9:51820"; hiOverlay := NoPrefix; hiOverlay6 := NoPrefix; hiDNS := AddrNone; hiDNSNoUpstream := false |}.
Definition demo_inputs (n : Z) : Inputs :=
  {| inDraw := demo_draw n; inFailNow := n * second; inNow := n * second; inSwept := n * second; inToken := replicate 32 (zb n);
     inCSRF := replicate 32 (zb (n + 1)); inSalt := replicate 16 (zb n); inKey := []; inPub := []; inFile := PolicySvc.FileMissing; inQR := true;
     inArchive := true |}.
Definition demo_ask (p : Principal) (e : endpoint) (vs : list string) (sv : Server) : Server * Reply :=
  Rest.handle demo_verify demo_parse demo_key (λ _, None) demo_config (λ _, None) NoPrefix demo_decoders demo_hub
    {| jiServerURL := ""; jiFingerprint := "" |} false (demo_inputs 9) p e vs
    {| rqMethod := "GET"; rqPath := []; rqQuery := λ _, ""; rqCookie := ""; rqCSRF := ""; rqAuthorization := ""; rqUpgrade := ""; rqConnection := [];
       rqBody := "{}" |} sv.

Lemma demo_enrolled_tables : tables_ok (stStore demo_enrolled_state).
Proof.
  change (demo_enrolled_state) with (demo_run (demo_state demo_start) [demo_issue; demo_join]).
  apply (run_invariant demo_verify demo_parse demo_key (λ _, "") (λ _, None) demo_config tables_ok (λ _, True)); [|exact demo_tables|by repeat constructor].
  intros s s' c _ Hs H. by eapply transacts_tables.
Qed.

(** Her device is there for ada; bob is told what an empty database tells. *)
Lemma members_see_their_own_witness :
  rpCode (demo_ask demo_admin EGetPeer ["db-2"] demo_server).2 = 200 ∧ rpCode (demo_ask demo_member EGetPeer ["db-2"] demo_server).2 = 404 ∧
  mask (demo_ask demo_member EGetPeer ["db-2"] demo_server).2 = mask (demo_ask demo_member EGetPeer ["db-2"] (erase_others demo_member demo_server)).2.
Proof.
  split; [vm_compute; reflexivity|]. split; [vm_compute; reflexivity|].
  eapply proj1, (members_see_their_own demo_verify demo_parse demo_key (λ _, None) demo_config (λ _, None) NoPrefix demo_decoders demo_hub
    {| jiServerURL := ""; jiFingerprint := "" |} false (demo_inputs 9) demo_member EGetPeer); [exact demo_enrolled_tables|reflexivity..].
Defined.
