(* ===== verification/Reports.v ===== *)
(** The addresses a device reports: [internal/client/endpoints.go] and
    [discovery.go].

    The host's interfaces, the answer of a STUN round, the clock and what
    becomes of a report on its way are inputs of a turn of [reportLoop]; the
    control service at the other end is [Rpc.reportEndpoints]. *)

From Stdlib Require Import Strings.Ascii.
From S2P Require Import Prelude GoStrings NetIP ClientMap Paths.
From S2P Require Endpoints Discover Wire Store Enroll Http Rpc ApiPrivacy.

Import Endpoints(EndpointLocal, EndpointReflexive, endpoint_ok, report_ok).
#[local] Existing Instance Endpoints.endpoint_eq_dec.

(** ** The host's addresses *)

(** An interface; an address is [None] when it is no network address. *)
Record iface := { ifUp : bool; ifLoopback : bool; ifName : string; ifAddrs : option (list (option (list byte))) }.

Definition IsLinkLocalUnicast (x : addr) : bool :=
  match Unmap x with
  | AddrNone => false
  | Addr4 a => a `div` 2 ^ 16 =? 43518
  | Addr6 a _ => a `div` 2 ^ 118 =? 1018
  end.

Definition usable (a : option (list byte)) : option addr :=
  b ← a; ip ← AddrFromSlice b;
  let ip := Unmap ip in
  if negb (Is4 ip) || IsLoopback ip || IsLinkLocalUnicast ip || IsUnspecified ip then None else Some ip.

Definition iface_addrs (ignoreIface : string) (i : iface) : list addr :=
  if negb (ifUp i) || ifLoopback i || bool_decide (ifName i = ignoreIface) then [] else omap usable (default [] (ifAddrs i)).

(** The addresses that compare equal are one here, so the order that [sort]
    leaves them in does not matter. *)
Definition LocalEndpoints (ifaces : option (list iface)) (port : Z) (ignoreIface : string) : list addrport :=
  match ifaces with
  | None => []
  | Some l =>
      let out := (λ ip, AddrPort ip (port `mod` 65536)) <$> (l ≫= iface_addrs ignoreIface) in
      take 16 (stable_sort (λ a b, addr_ltb (apaddr a) (apaddr b)) out)
  end.

(** ** A turn of the loop *)

Record endpointReport := { rpEndpoints : list Endpoints.Endpoint; rpSymmetric : bool; rpListenPort : Z }.
Definition no_report : endpointReport := {| rpEndpoints := []; rpSymmetric := false; rpListenPort := 0 |}.

Definition equal (r o : endpointReport) : bool :=
  bool_decide (rpSymmetric r = rpSymmetric o) && (rpListenPort r =? rpListenPort o) && bool_decide (rpEndpoints r = rpEndpoints o).

Definition shouldSend (prev cur : endpointReport) (lastSent now interval : Z) : bool :=
  (lastSent =? 0) || negb (equal cur prev) || (interval <=? Sub now lastSent).

(** [sameAddrPorts]. *)
Definition sameAddrPorts (a b : list addrport) : bool := bool_decide (a = b).

Record Loop := {
  last : endpointReport; lastSent : Z; lastLocal : list addrport; lastSTUN : Z; reflexive : list Endpoints.Endpoint; symmetric : bool;
}.
Definition fresh_loop : Loop := {| last := no_report; lastSent := 0; lastLocal := []; lastSTUN := 0; reflexive := []; symmetric := false |}.

(** What [reportLoop] reads of the daemon. *)
Record settings := { ListenPort : Z; Interface : string; EndpointInterval : Z; overlay : prefix; OverlayIPv6 : string }.

Section Turn.
Context (o : settings) (LookupNetIP : string → string → option (list addr)).

Definition stunServers (nm : option NetMap) : list addrport := match nm with None => [] | Some nm => omap (resolveEndpoint LookupNetIP) (mSTUN nm) end.

(** The loop over the mapped addresses. *)
Fixpoint reflexive_of (shared : bool) (seen : list addrport) (mapped : list addrport) : list Endpoints.Endpoint :=
  match mapped with
  | [] => []
  | m :: mapped =>
      let ap := if shared then m else AddrPort (apaddr m) (ListenPort o `mod` 65536) in
      if bool_decide (ap ∈ seen) || IsLoopback (apaddr ap) || IsUnspecified (apaddr ap) then reflexive_of shared seen mapped
      else {| Endpoints.Addr := ap; Endpoints.Kind := EndpointReflexive |} :: reflexive_of shared (ap :: seen) mapped
  end.

Definition reflexiveRound (nm : option NetMap) (stun : list addrport → option (Discover.Result * bool)) : list Endpoints.Endpoint * bool :=
  match stunServers nm with
  | [] => ([], false)
  | servers =>
      match stun servers with
      | None => ([], false)
      | Some (res, shared) => (reflexive_of shared [] (Discover.Mapped res), Discover.Symmetric res)
      end
  end.

Definition localCandidates (ifaces : option (list iface)) : list addrport :=
  let overlay6 := ParsePrefix (OverlayIPv6 o) in
  filter (λ ap, Contains (overlay o) (apaddr ap) || match overlay6 with Some p => Contains p (apaddr ap) | None => false end = false)
    (LocalEndpoints ifaces (ListenPort o) (Interface o)).

(** What happens to a report that is sent. *)
Inductive delivery := Lost | Unanswered | Delivered.
Record turn := {
  tNow : Z; tIfaces : option (list iface); tMap : option NetMap; tStun : list addrport → option (Discover.Result * bool);
  tDelivery : delivery; tInputs : Rpc.RpcInputs;
}.

(** The first half of a turn: the addresses, and a STUN round when it is time. *)
Definition discover (t : turn) (local : list addrport) (l : Loop) : Loop :=
  if negb (sameAddrPorts local (lastLocal l)) || (lastSTUN l =? 0) || (EndpointInterval o <=? Sub (tNow t) (lastSTUN l))
  then
    let '(refl, sym) := reflexiveRound (tMap t) (tStun t) in
    {| last := last l; lastSent := lastSent l; lastLocal := local; lastSTUN := tNow t; reflexive := refl; symmetric := sym |}
  else l.

Definition report_of (local : list addrport) (l : Loop) : endpointReport :=
  {| rpEndpoints := ((λ ap, {| Endpoints.Addr := ap; Endpoints.Kind := EndpointLocal |}) <$> local) ++ reflexive l;
     rpSymmetric := symmetric l; rpListenPort := ListenPort o |}.

(** The request: kinds have the numbers of the messages. *)
Definition request (rep : endpointReport) : list Wire.Proto.Endpoint :=
  (λ e, {| Wire.Proto.eAddr := addrport_string (Endpoints.Addr e); Wire.Proto.eKind := Endpoints.Kind e |}) <$> rpEndpoints rep.

Definition accepted (rep : endpointReport) (now : Z) (l : Loop) : Loop :=
  {| last := rep; lastSent := now; lastLocal := lastLocal l; lastSTUN := lastSTUN l; reflexive := reflexive l; symmetric := symmetric l |}.

(** The device's loop and prober, and the server. *)
Record world := { wLoop : Loop; wProber : Prober; wServer : Http.Server }.

Definition report_turn (me : Store.Peer) (t : turn) (w : world) : world :=
  let local := localCandidates (tIfaces t) in
  let l := discover t local (wLoop w) in
  let rep := report_of local l in
  let p := setSelf local (symmetric l) (rpEndpoints rep) (wProber w) in
  if shouldSend (last l) rep (lastSent l) (tNow t) (EndpointInterval o) then
    match tDelivery t with
    | Lost => {| wLoop := l; wProber := p; wServer := wServer w |}
    | d =>
        let '(sv, r) := Rpc.reportEndpoints (tInputs t) me (request rep) (rpSymmetric rep) (rpListenPort rep) (wServer w) in
        match d, r with
        | Delivered, Ok _ => {| wLoop := accepted rep (tNow t) l; wProber := p; wServer := sv |}
        | _, _ => {| wLoop := l; wProber := p; wServer := sv |}
        end
    end
  else {| wLoop := l; wProber := p; wServer := wServer w |}.
End Turn.

(** ** The report on the wire *)

Definition reads_back (e : Endpoints.Endpoint) : Prop := ParseAddrPort (addrport_string (Endpoints.Addr e)) = Some (Endpoints.Addr e).

Lemma v4_reads_back a p k : 0 <= a < 2 ^ 32 → 0 <= p < 65536 → reads_back {| Endpoints.Addr := AddrPort (Addr4 a) p; Endpoints.Kind := k |}.
Proof.
  intros Ha Hp. unfold reads_back, addrport_string, ParseAddrPort. cbn [Endpoints.Addr apaddr apport]. rewrite !chars_app. change (chars ":") with [":"%char]. cbn [app].
  rewrite cut_last_app by (apply itoa_no_dot; [lia|done]). cbn [mbind option_bind].
  assert ("["%char ∉ chars (v4_string a)) as Hb by by apply v4_string_chars.
  pose proof (ParseAddr_v4_string a Ha) as Hpa. unfold ParseAddr in Hpa. cbn [addr_string] in Hpa.
  destruct (chars (v4_string a)) as [|c l] eqn:Ec; [by vm_compute in Hpa|]. rewrite bool_decide_false by (intros ->; apply Hb; by left).
  destruct (chars (itoa p)) as [|d m] eqn:Ed; [by apply itoa_nonempty in Ed; [|lia]|]. rewrite <- Ed.
  cbn [mbind option_bind]. rewrite parse_uint_itoa by (change (2 ^ 16) with 65536; lia). cbn [mbind option_bind]. rewrite Hpa. by cbn.
Qed.

Definition known_kind (e : Endpoints.Endpoint) : Prop := Endpoints.Kind e = EndpointLocal ∨ Endpoints.Kind e = EndpointReflexive.

Lemma request_parses rep : Forall reads_back (rpEndpoints rep) → Forall known_kind (rpEndpoints rep) → (length (rpEndpoints rep) <= Endpoints.MaxEndpoints)%nat →
  Wire.endpointsFromProto (request rep) = Some (rpEndpoints rep).
Proof.
  intros Hr Hk Hl. unfold Wire.endpointsFromProto, request. rewrite length_fmap. destruct (Nat.ltb_spec Endpoints.MaxEndpoints (length (rpEndpoints rep))); [lia|].
  apply mapM_Some, Forall2_fmap_l, Forall_Forall2_diag. apply Forall_forall. intros e He. rewrite Forall_forall in Hr, Hk. specialize (Hr e He). specialize (Hk e He).
  unfold reads_back in Hr. unfold compose. cbn [Wire.Proto.eAddr Wire.Proto.eKind]. unfold Endpoints.ParseEndpoint. rewrite Hr. cbn. destruct e as [ap k]. unfold known_kind in Hk. cbn in *. by destruct Hk as [-> | ->].
Qed.

(** ** What a turn does *)

Definition row (me : Store.Peer) (sv : Http.Server) : option Endpoints.endpointEntry := Endpoints.reported (Http.svEndpoints sv) !! Store.pID me.
Definition row_is (c : endpointReport) (r : option Endpoints.endpointEntry) : Prop :=
  ∃ e, r = Some e ∧ Endpoints.endpoints e = rpEndpoints c ∧ Endpoints.symmetric e = rpSymmetric c ∧ Endpoints.listenPort e = rpListenPort c.

Lemma equal_spec r o : equal r o = true ↔ r = o.
Proof.
  unfold equal. rewrite !andb_true_iff, !bool_decide_eq_true, Z.eqb_eq. destruct r, o; cbn. split; [by intros [[-> ->] ->]|by intros [= -> -> ->]].
Qed.

(** The server's answer to a report whose addresses read back. *)
Lemma reportEndpoints_row i me rep sv : Forall reads_back (rpEndpoints rep) → Forall known_kind (rpEndpoints rep) → 0 <= rpListenPort rep < 65536 →
  let '(sv', r) := Rpc.reportEndpoints i me (request rep) (rpSymmetric rep) (rpListenPort rep) sv in
  if decide (report_ok (rpEndpoints rep)) then (∃ a, r = Ok a) ∧ row_is rep (row me sv') else (∃ e, r = Err e) ∧ row me sv' = row me sv.
Proof.
  intros Hr Hk Hp. unfold Rpc.reportEndpoints. destruct (decide (length (rpEndpoints rep) <= Endpoints.MaxEndpoints)%nat) as [Hl|Hl].
  - rewrite request_parses by done. destruct (Z.ltb_spec 65535 (rpListenPort rep)); [lia|].
    pose proof (Endpoints.Set_table (Enroll.dNow (Rpc.riDraw i)) (Store.pID me) (rpEndpoints rep) (rpSymmetric rep) (rpListenPort rep) (Http.svEndpoints sv)) as Ht.
    unfold Endpoints.Set_ in *. pose proof (Endpoints.ValidateEndpoints_ok (rpEndpoints rep)) as Hv. destruct (Endpoints.ValidateEndpoints (rpEndpoints rep)) as [[]|e].
    + cbn [fst] in Ht. rewrite decide_True by by apply Hv. rewrite decide_True in Ht by by apply Hv. split; [by eexists|].
      match goal with |- context [if ?b then _ else _] => destruct b end; unfold row; cbn; rewrite lookup_insert_eq; by eexists.
    + rewrite decide_False by by intros ?%Hv. split; [by eexists|done].
  - unfold Wire.endpointsFromProto, request. rewrite length_fmap. destruct (Nat.ltb_spec Endpoints.MaxEndpoints (length (rpEndpoints rep))); [|lia].
    rewrite decide_False by (intros [? _]; lia). split; [by eexists|done].
Qed.

(** A mapped address in a report is listed once and is no address of the host's own. *)
Lemma reflexive_of_ok o shared mapped : ∀ seen, NoDup (reflexive_of o shared seen mapped) ∧
  Forall (λ e, Endpoints.Kind e = EndpointReflexive ∧ Endpoints.Addr e ∉ seen ∧ IsLoopback (apaddr (Endpoints.Addr e)) = false ∧ IsUnspecified (apaddr (Endpoints.Addr e)) = false)
    (reflexive_of o shared seen mapped).
Proof.
  induction mapped as [|m mapped IH]; intros seen; cbn [reflexive_of]; [by split; constructor|].
  set (ap := if shared then m else _). destruct (bool_decide (ap ∈ seen)) eqn:Es; [apply IH|]. cbn [orb]. destruct (IsLoopback (apaddr ap)) eqn:El; [apply IH|]. cbn [orb].
  destruct (IsUnspecified (apaddr ap)) eqn:Eu; [apply IH|]. apply bool_decide_eq_false in Es. destruct (IH (ap :: seen)) as [Hn Hf]. split.
  - constructor; [|done]. intros Hin. rewrite Forall_forall in Hf. destruct (Hf _ Hin) as (_ & Hs & _). apply Hs. by left.
  - constructor; [done|]. eapply Forall_impl; [done|]. intros e (? & Hs & ? & ?). split_and!; [done| |done|done]. intros ?. apply Hs. by right.
Qed.

Lemma local_spec o ifaces ap : ap ∈ localCandidates o ifaces → Contains (overlay o) (apaddr ap) = false ∧
  ∃ a, apaddr ap = Addr4 a ∧ 0 <= a < 2 ^ 32 ∧ IsLoopback (apaddr ap) = false ∧ IsUnspecified (apaddr ap) = false ∧ apport ap = ListenPort o `mod` 65536.
Proof.
  unfold localCandidates. intros [Hc Hin]%list_elem_of_filter. apply orb_false_iff in Hc as [Hc _]. split; [done|]. unfold LocalEndpoints in Hin.
  destruct ifaces as [l|]; [|by apply elem_of_nil in Hin]. assert (∀ A (x : A) n k, x ∈ take n k → x ∈ k) as Htake by (intros A x n k Hx; rewrite <- (take_drop n k); apply elem_of_app; by left).
  apply Htake, elem_of_stable_sort, list_elem_of_fmap in Hin as (ip & -> & Hin). apply list_elem_of_bind in Hin as (i & Hip & _). unfold iface_addrs in Hip.
  destruct (_ || _); [by apply elem_of_nil in Hip|]. apply list_elem_of_omap in Hip as (b & _ & Hb). unfold usable in Hb. destruct b as [b|]; [|done]. cbn [mbind option_bind] in Hb.
  destruct (AddrFromSlice b) as [x|] eqn:Ex; [|done]. cbn [mbind option_bind] in Hb. destruct (negb _ || _ || _ || _) eqn:Eb; [done|]. injection Hb as <-. go_bool. cbn [apaddr apport].
  assert (addr_wf (Unmap x)) as Hwf.
  { assert (addr_wf x) as Hx by (clear -Ex; unfold AddrFromSlice in Ex; pose proof (be_dec_range b) as Hb; destruct (length b) as [|[|[|[|[|[|[|[|[|[|[|[|[|[|[|[|[|]]]]]]]]]]]]]]]]]; try done; injection Ex as <-; exact Hb). unfold Unmap. destruct (Is4In6 x); [|done]. apply Z.mod_pos_bound. lia. }
  destruct (Unmap x) as [|a|a z]; [done| |done]. exists a. cbn [addr_wf] in Hwf. by split_and!; try lia.
Qed.

(** ** Runs *)

Section Runs.
Context (o : settings) (LookupNetIP : string → string → option (list addr)) (me : Store.Peer).

(** The turn in one look: the loop after discovery, and its report. *)
Definition looked (t : turn) (w : world) : Loop := discover o LookupNetIP t (localCandidates o (tIfaces t)) (wLoop w).
Definition candidates (t : turn) (w : world) : endpointReport := report_of o (localCandidates o (tIfaces t)) (looked t w).

(** The turns of one stream, with anything else the server and the device do
    between them that leaves the peer's row, the addresses found being text
    that reads back; [replies] says that no reply to a
    report is lost on its way back. *)
Inductive run (replies : bool) : world → Prop :=
  | run_start p sv : run replies {| wLoop := fresh_loop; wProber := p; wServer := sv |}
  | run_turn t w : run replies w → 0 < tNow t → Forall reads_back (reflexive (looked t w)) → (replies = true → tDelivery t ≠ Unanswered) → run replies (report_turn o LookupNetIP me t w)
  | run_other p sv w : run replies w → row me sv = row me (wServer w) → run replies {| wLoop := wLoop w; wProber := p; wServer := sv |}.

Definition found (e : Endpoints.Endpoint) : Prop :=
  Endpoints.Kind e = EndpointReflexive ∧ IsLoopback (apaddr (Endpoints.Addr e)) = false ∧ IsUnspecified (apaddr (Endpoints.Addr e)) = false.
Definition kinds_known (l : Loop) : Prop := Forall found (reflexive l).

Lemma discover_kinds t local l : kinds_known l → kinds_known (discover o LookupNetIP t local l).
Proof.
  unfold discover. destruct (_ || _); [|done]. intros _. unfold kinds_known, reflexiveRound. destruct (stunServers _ _); [by constructor|]. destruct (tStun t _) as [[res sh]|]; [|by constructor].
  cbn [reflexive]. eapply Forall_impl; [apply reflexive_of_ok|]. by intros e (? & _ & ? & ?).
Qed.

Lemma discover_last t local l : last (discover o LookupNetIP t local l) = last l ∧ lastSent (discover o LookupNetIP t local l) = lastSent l.
Proof. unfold discover. destruct (_ || _); [|done]. by destruct (reflexiveRound _ _ _ _). Qed.

Lemma report_kinds local l : kinds_known l → Forall known_kind (rpEndpoints (report_of o local l)).
Proof. intros Hk. apply Forall_app. split; [apply Forall_fmap, Forall_true; intros ap; by left|]. eapply Forall_impl; [done|]. intros e (? & _). by right. Qed.

Lemma report_reads_back ifaces l : 0 < ListenPort o < 65536 → Forall reads_back (reflexive l) → Forall reads_back (rpEndpoints (report_of o (localCandidates o ifaces) l)).
Proof.
  intros Hp Hr. apply Forall_app. split; [|done]. apply Forall_fmap, Forall_forall. intros [a p] Hin. apply local_spec in Hin as (_ & x & Ha & Hx & _ & _ & Hport). cbn in Ha, Hport. subst.
  apply v4_reads_back; [done|]. apply Z.mod_pos_bound. lia.
Qed.

Lemma turn_spec t w : 0 < ListenPort o < 65536 → kinds_known (wLoop w) → Forall reads_back (reflexive (looked t w)) →
  let c := candidates t w in let w' := report_turn o LookupNetIP me t w in
  let sends := shouldSend (last (wLoop w)) c (lastSent (wLoop w)) (tNow t) (EndpointInterval o) in
  selfEndpoints (wProber w') = rpEndpoints c ∧
  (sends = true → tDelivery t = Delivered → report_ok (rpEndpoints c) → row_is c (row me (wServer w')) ∧ wLoop w' = accepted c (tNow t) (looked t w)) ∧
  (sends = true → tDelivery t ≠ Lost → report_ok (rpEndpoints c) → row_is c (row me (wServer w'))) ∧
  ((sends = false ∨ tDelivery t ≠ Delivered ∨ ¬ report_ok (rpEndpoints c)) → wLoop w' = looked t w) ∧
  ((sends = false ∨ tDelivery t = Lost ∨ ¬ report_ok (rpEndpoints c)) → row me (wServer w') = row me (wServer w)).
Proof.
  intros Hp Hk Hr c w' sends. subst w'. unfold report_turn. change (discover o LookupNetIP t (localCandidates o (tIfaces t)) (wLoop w)) with (looked t w).
  change (report_of o (localCandidates o (tIfaces t)) (looked t w)) with c. destruct (discover_last t (localCandidates o (tIfaces t)) (wLoop w)) as [Hl1 Hl2]. fold (looked t w) in Hl1, Hl2. rewrite Hl1, Hl2. fold sends.
  assert (∀ p, selfEndpoints (setSelf (localCandidates o (tIfaces t)) (symmetric (looked t w)) (rpEndpoints c) p) = rpEndpoints c) as Hself by (intros p; unfold setSelf; by destruct (_ || _)).
  destruct sends; [|split_and!; [apply Hself|done..]].
  pose proof (reportEndpoints_row (tInputs t) me c (wServer w) (report_reads_back _ _ Hp Hr) (report_kinds _ _ (discover_kinds _ _ _ Hk)) ltac:(cbn; lia)) as Hs.
  destruct (tDelivery t) eqn:Ed; [split_and!; [apply Hself|done..]| |];
    (destruct (Rpc.reportEndpoints _ _ _ _ _ _) as [sv r]; case_decide as Hok; destruct Hs as [[x ->] Hrow]; cbn; (split; [apply Hself|]); naive_solver).
Qed.

Lemma turns_ok replies w : 0 < ListenPort o < 65536 → run replies w →
  kinds_known (wLoop w) ∧ (replies = true → lastSent (wLoop w) ≠ 0 → row_is (last (wLoop w)) (row me (wServer w))).
Proof.
  intros Hp. induction 1 as [p sv|t w Hr [Hk Hrow] Hn Hb Hd|p sv w Hr IH Hs]; [by split; [constructor|]| |cbn; by rewrite Hs].
  destruct (turn_spec t w Hp Hk Hb) as (_ & Hsent & _ & Hkept & Hleft). pose proof (discover_kinds t (localCandidates o (tIfaces t)) _ Hk) as Hk'.
  destruct (discover_last t (localCandidates o (tIfaces t)) (wLoop w)) as [Hl1 Hl2]. fold (looked t w) in Hk', Hl1, Hl2.
  destruct (shouldSend _ _ _ _ _) eqn:Es.
  - destruct (decide (report_ok (rpEndpoints (candidates t w)))) as [Hok|Hok].
    + destruct (tDelivery t) eqn:Ed.
      * rewrite Hkept, Hleft by auto. rewrite Hl1, Hl2. done.
      * rewrite Hkept by auto. split; [done|]. intros ->. by destruct Hd.
      * destruct (Hsent eq_refl eq_refl Hok) as [H1 ->]. done.
    + rewrite Hkept, Hleft by auto. rewrite Hl1, Hl2. done.
  - rewrite Hkept, Hleft by auto. rewrite Hl1, Hl2. done.
Qed.
End Runs.

(** A report is due: the first of a stream, a changed one, and one an interval
    after the last. *)
Definition due (o : settings) (l : Loop) (c : endpointReport) (now : Z) : Prop :=
  lastSent l = 0 ∨ c ≠ last l ∨ EndpointInterval o <= Sub now (lastSent l).

Lemma shouldSend_due o l c now : shouldSend (last l) c (lastSent l) now (EndpointInterval o) = true ↔ due o l c now.
Proof.
  unfold shouldSend, due. rewrite !orb_true_iff, Z.eqb_eq, Z.leb_le, negb_true_iff. pose proof (equal_spec c (last l)) as He.
  destruct (equal c (last l)); split; intuition congruence.
Qed.

Lemma due_later o l l' c now now' : last l' = last l → lastSent l' = lastSent l → now <= now' → due o l c now → due o l' c now'.
Proof.
  unfold due. intros -> -> Hn [?|[?|Hi]]; [by left|by right; left|]. right. right. pose proof (Sub_mono now now' (lastSent l) Hn). lia.
Qed.

(** C32: what a device reports, and what the server knows of it.  A turn leaves the
    prober with the candidates that were found: addresses that are not
    loopback, the local ones outside the overlay.  A report is sent exactly when
    it is due: at the first turn of a stream, when the candidates are not those
    of the last report that was answered, and when that is an interval old.  If
    the server takes it, its row is then the candidates of this turn, whatever
    was lost before and even if the reply is; once it is answered the device
    holds it for sent, and else it stays due at every later turn with the same
    candidates.  A turn where none is due leaves the row, which is its
    candidates if no reply was lost since the stream began.  A report the
    server does not take, of more than 16 candidates or with one that is no
    endpoint, leaves the row as it was and stays due. *)
Theorem server_learns o LookupNetIP me replies w t
    (Hport : 0 < ListenPort o < 65536) (Hrun : run o LookupNetIP me replies w) (Hnow : 0 < tNow t)
    (Hback : Forall reads_back (reflexive (looked o LookupNetIP t w))) :
  let c := candidates o LookupNetIP t w in let w' := report_turn o LookupNetIP me t w in
  selfEndpoints (wProber w') = rpEndpoints c ∧
  (∀ e, e ∈ rpEndpoints c → IsLoopback (apaddr (Endpoints.Addr e)) = false ∧
     (Endpoints.Kind e = EndpointLocal → Contains (overlay o) (apaddr (Endpoints.Addr e)) = false)) ∧
  (due o (wLoop w) c (tNow t) → report_ok (rpEndpoints c) → tDelivery t ≠ Lost →
     row_is c (row me (wServer w')) ∧ (tDelivery t = Delivered → last (wLoop w') = c ∧ lastSent (wLoop w') = tNow t)) ∧
  (due o (wLoop w) c (tNow t) → ¬ report_ok (rpEndpoints c) ∨ tDelivery t ≠ Delivered →
     last (wLoop w') = last (wLoop w) ∧ lastSent (wLoop w') = lastSent (wLoop w) ∧ ∀ later, tNow t <= later → due o (wLoop w') c later) ∧
  (¬ report_ok (rpEndpoints c) ∨ tDelivery t = Lost → row me (wServer w') = row me (wServer w)) ∧
  (¬ due o (wLoop w) c (tNow t) → row me (wServer w') = row me (wServer w) ∧ last (wLoop w') = c ∧ lastSent (wLoop w') = lastSent (wLoop w) ∧
     (replies = true → row_is c (row me (wServer w')))).
Proof.
  cbn zeta. destruct (turns_ok o LookupNetIP me replies w Hport Hrun) as [Hk Hrow]. destruct (turn_spec o LookupNetIP me t w Hport Hk Hback) as (Hself & Hsent & Htaken & Hkept & Hleft).
  destruct (discover_last o LookupNetIP t (localCandidates o (tIfaces t)) (wLoop w)) as [Hl1 Hl2]. pose proof (discover_kinds o LookupNetIP t (localCandidates o (tIfaces t)) _ Hk) as Hk'.
  fold (looked o LookupNetIP t w) in Hl1, Hl2, Hk'. split; [done|]. split; [|split_and!].
  - intros e He. apply elem_of_app in He as [He|He].
    + apply list_elem_of_fmap in He as (ap & -> & Hin). apply local_spec in Hin as (? & a & ? & ? & ? & ? & ?). cbn. by split.
    + unfold kinds_known in Hk'. rewrite Forall_forall in Hk'. destruct (Hk' e He) as (Hkind & ? & ?). split; [done|]. by rewrite Hkind.
  - intros Hdue%shouldSend_due Hok Hd. split; [by apply Htaken|]. intros E. by destruct (Hsent Hdue E Hok) as [_ ->].
  - intros Hdue Hn. rewrite Hkept by tauto. split_and!; [done|done|]. intros later Hlater. by eapply due_later.
  - intros [Hn|Hd]; apply Hleft; auto.
  - intros Hn. assert (shouldSend (last (wLoop w)) (candidates o LookupNetIP t w) (lastSent (wLoop w)) (tNow t) (EndpointInterval o) = false) as Es.
    { apply not_true_iff_false. by rewrite shouldSend_due. }
    rewrite Hkept, Hleft by auto. rewrite Hl1, Hl2. assert (candidates o LookupNetIP t w = last (wLoop w)) as Hc.
    { destruct (equal (candidates o LookupNetIP t w) (last (wLoop w))) eqn:E; [by apply equal_spec|]. exfalso. apply Hn. right. left. intros H%equal_spec. congruence. }
    split_and!; [done|by rewrite Hc|done|]. intros Hr. rewrite Hc. apply Hrow; [done|]. intros Hz. apply Hn. by left.
Qed.

(** ** Two turns of a device *)

Definition demo_settings : settings :=
  {| ListenPort := 51820; Interface := "thawr0"; EndpointInterval := 60 * second; overlay := Prefix (Addr4 0x64400000) 10; OverlayIPv6 := "" |}.
Definition demo_iface (n : nat) : iface :=
  {| ifUp := true; ifLoopback := false; ifName := "eth0"; ifAddrs := Some ((λ i, Some (be_enc 4 (0xc0a80001 + Z.of_nat i))) <$> seq 0 n) |}.
Definition demo_me : Store.Peer :=
  {| Store.pID := "p1"; Store.pName := "laptop"; Store.pKind := "user"; Store.pMode := ""; Store.pOwnerID := ""; Store.pTags := []; Store.pPublicKey := "";
     Store.pIPv4 := "100.64.0.9"; Store.pIPv6 := ""; Store.pIPv6Capable := false; Store.pNodeSecretHash := ""; Store.pCreatedAt := 0;
     Store.pLastSeenAt := None; Store.pClientVersion := ""; Store.pOS := "" |}.
Definition demo_nm : NetMap :=
  {| mGeneration := 1; mSelfID := "p1"; mSelfName := "laptop"; mSelfKind := "user"; mSelfIPv4 := "100.64.0.9"; mOverlay := "100.64.0.0/10"; mSelfIPv6 := "";
     mOverlay6 := ""; mPeers := []; mHub := NoHub; mReceivedAt := 0; mServerVersion := ""; mSTUN := ["192.0.2.9:3478"]; mFilter := []; mSelfSignatures := [];
     mLock := None; mForward := []; mAdvertised := [] |}.
Definition demo_mapped : Discover.Result := {| Discover.Mapped := [AddrPort (Addr4 0xcb007107) 40000]; Discover.Symmetric := false |}.
Definition demo_turn (now : Z) (addresses : nat) (d : delivery) : turn :=
  {| tNow := now * second; tIfaces := Some [demo_iface addresses]; tMap := Some demo_nm; tStun := λ _, Some (demo_mapped, true); tDelivery := d;
     tInputs := {| Rpc.riDraw := {| Enroll.dNow := now * second; Enroll.dAuditNow := now * second; Enroll.dID := []; Enroll.dSecret := [] |}; Rpc.riLimitNow := 0; Rpc.riSignNow := [];
                   Rpc.riStream := 0; Rpc.riClock := λ _, 0; Rpc.riWritten := (true, true, true) |} |}.
Definition demo_world : world := {| wLoop := fresh_loop; wProber := no_paths; wServer := ApiPrivacy.demo_server |}.
Definition demo_step (t : turn) (w : world) : world := report_turn demo_settings (λ _ _, None) demo_me t w.
Definition row_length (w : world) : option nat := (λ e, length (Endpoints.endpoints e)) <$> row demo_me (wServer w).

Lemma server_learns_witness :
  let t := demo_turn 100 2 Delivered in
  0 < ListenPort demo_settings < 65536 ∧ row_is (candidates demo_settings (λ _ _, None) t demo_world) (row demo_me (wServer (demo_step t demo_world))) ∧
  length (selfEndpoints (wProber (demo_step t demo_world))) = 3%nat.
Proof.
  intros t. assert (0 < ListenPort demo_settings < 65536) as Hp by done. split; [done|].
  destruct (server_learns demo_settings (λ _ _, None) demo_me true demo_world t Hp) as (Hs & _ & Hd & _).
  - apply run_start.
  - done.
  - repeat constructor.
  - split; [|unfold demo_step; fold t in Hs; rewrite Hs; by vm_compute]. destruct Hd as [Hrow _]; [by left|by apply (bool_decide_unpack _); vm_compute|done|]. exact Hrow.
Defined.

(** Sixteen addresses of its own and a mapped one: a device the server never
    hears of.  With fifteen it does. *)
Example one_too_many :
  row_length (demo_step (demo_turn 100 16 Delivered) demo_world) = None ∧ row_length (demo_step (demo_turn 100 15 Delivered) demo_world) = Some 16%nat.
Proof. by vm_compute. Qed.

(** The reply to a report of three addresses is lost; the third is gone at the
    next turn, which sends nothing: the server keeps it. *)
Example lost_reply :
  row_length (demo_step (demo_turn 130 1 Delivered) (demo_step (demo_turn 115 2 Unanswered) (demo_step (demo_turn 100 1 Delivered) demo_world))) = Some 3%nat.
Proof. by vm_compute. Qed.
