(* ===== verification/Backoff.v ===== *)
(** The delays between attempts to connect: [backoffDelay] of
    [internal/client/daemon.go] and [backoff] of [internal/relay/client.go].

    They are computed in Go's [float64]; the byte of [crypto/rand] is an
    argument. *)

From Stdlib Require Import QArith.
From S2P Require Import Prelude.

(** ** Floats

    Binary64 arithmetic, as Go's [float64] does it on values that neither
    overflow nor become subnormal: a float is the rational it stands for, and
    every operation is the exact one, rounded to 53 bits, ties to even. *)

(** The integer nearest to [a / b], the even one when two are. *)
Definition round_even (a b : Z) : Z :=
  let q := a `div` b in
  let r := a `mod` b in
  if 2 * r <? b then q else if b <? 2 * r then q + 1 else if Z.even q then q else q + 1.

(** [n / d < 2 ^ e], for positive [n] and [d]. *)
Definition below (n d e : Z) : bool := if 0 <=? e then n <? d * 2 ^ e else n * 2 ^ (- e) <? d.

Definition scale (m e : Z) : Q := if 0 <=? e then inject_Z (m * 2 ^ e) else (m # Z.to_pos (2 ^ (- e)))%Q.

Definition fl (x : Q) : Q :=
  let n := Z.abs (Qnum x) in
  let d := Zpos (Qden x) in
  if n =? 0 then 0%Q
  else
    let e0 := Z.log2 n - Z.log2 d in
    let e := (if below n d e0 then e0 - 1 else e0) - 52 in
    let m := if 0 <=? e then round_even n (d * 2 ^ e) else round_even (n * 2 ^ (- e)) d in
    scale (Z.sgn (Qnum x) * m) e.

Definition of_int (n : Z) : Q := fl (inject_Z n).
Definition fadd (x y : Q) : Q := fl (x + y).
Definition fsub (x y : Q) : Q := fl (x - y).
Definition fmul (x y : Q) : Q := fl (x * y).
Definition fdiv (x y : Q) : Q := fl (x / y).
Definition flt (x y : Q) : bool := negb (Qle_bool y x).
(** The conversion to an integer drops the fraction. *)
Definition trunc (x : Q) : Z := Z.quot (Qnum x) (Zpos (Qden x)).

Example fl_tenth : fl (1 # 10) = (7205759403792794 # 72057594037927936)%Q. Proof. reflexivity. Qed.
Example fl_third : trunc (fmul (fdiv (of_int 1) (of_int 3)) (of_int 3000000)) = 1000000. Proof. reflexivity. Qed.
Example fl_neg : trunc (fsub (of_int 1) (fl (5 # 2))) = -1. Proof. reflexivity. Qed.

Lemma flt_true x y : flt x y = true → (x < y)%Q.
Proof. unfold flt. intros H%negb_true_iff. apply Qnot_le_lt. intros Hle%Qle_bool_iff. congruence. Qed.
Lemma flt_false x y : flt x y = false → (y <= x)%Q.
Proof. unfold flt. intros H%negb_false_iff. by apply Qle_bool_iff. Qed.


(** Integers of up to 53 bits are floats. *)
Lemma of_int_exact n : 0 < n < 2 ^ 53 → (of_int n == inject_Z n)%Q.
Proof.
  intros Hn. unfold of_int, fl. cbn [Qnum Qden inject_Z]. rewrite Z.abs_eq, Z.sgn_pos by lia.
  destruct (Z.eqb_spec n 0); [lia|]. change (Z.log2 1) with 0. rewrite Z.sub_0_r.
  destruct (Z.log2_spec n ltac:(lia)) as [Hl Hu]. pose proof (Z.log2_nonneg n).
  assert (below n 1 (Z.log2 n) = false) as ->.
  { unfold below. rewrite (proj2 (Z.leb_le 0 _)) by lia. apply Z.ltb_ge. lia. }
  assert (Z.log2 n <= 52) as H52 by (apply Z.lt_succ_r, Z.log2_lt_pow2; simpl; lia).
  assert (∀ m, round_even m 1 = m) as Hr by (intros m; unfold round_even; rewrite Z.div_1_r, Z.mod_1_r; done).
  rewrite !Z.mul_1_l. unfold scale. destruct (Z.leb_spec 0 (Z.log2 n - 52)).
  - assert (Z.log2 n - 52 = 0) as -> by lia. change (2 ^ 0) with 1. rewrite Hr, Z.mul_1_r. reflexivity.
  - rewrite Hr. unfold Qeq. cbn [Qnum Qden inject_Z]. rewrite Z2Pos.id by (apply Z.pow_pos_nonneg; lia). lia.
Qed.

Lemma trunc_ge a x : 0 <= a → (inject_Z a <= x)%Q → a <= trunc x.
Proof.
  unfold Qle, trunc. cbn [Qnum Qden inject_Z]. intros Ha H. rewrite Z.quot_div_nonneg by (lia || nia).
  apply Z.div_le_lower_bound; lia.
Qed.
Lemma trunc_le a x : (0 <= x)%Q → (x <= inject_Z a)%Q → trunc x <= a.
Proof.
  unfold Qle, trunc. cbn [Qnum Qden inject_Z]. intros H0 H. rewrite Z.quot_div_nonneg by lia.
  apply Z.div_le_upper_bound; lia.
Qed.

(** ** The delays *)

Definition jitter (b : Z) : Q := fmul (fsub (fdiv (of_int b) (of_int 255)) (1 # 2)) (fl (2 # 5)).

Definition backoffDelay (attempt minDelay maxDelay b : Z) : Z :=
  let attempt := if attempt <? 1 then 1 else attempt in
  let d := fmul (of_int minDelay) (inject_Z (2 ^ (attempt - 1))) in
  let d := if flt (of_int maxDelay) d then of_int maxDelay else d in
  let d := fmul d (fadd 1 (jitter b)) in
  let d := if flt d (of_int minDelay) then of_int minDelay else d in
  let d := if flt (of_int maxDelay) d then of_int maxDelay else d in
  trunc d.

Definition fmin (x y : Q) : Q := if flt y x then y else x.
Definition fmax (x y : Q) : Q := if flt x y then y else x.

(** The relay client's; [fused] says whether the machine multiplies and adds
    with one rounding, which Go leaves open where nothing is assigned between. *)
Definition backoff (fused : bool) (attempt minDelay maxDelay b : Z) : Z :=
  let attempt := if attempt <? 1 then 1 else attempt in
  let d := fmin (fmul (of_int minDelay) (inject_Z (2 ^ (attempt - 1)))) (of_int maxDelay) in
  let factor := if fused then fadd 1 (fsub (fdiv (of_int b) (of_int 255)) (1 # 2) * fl (2 # 5)) else fadd 1 (jitter b) in
  let d := fmul d factor in
  trunc (fmax (of_int minDelay) (fmin d (of_int maxDelay))).

(** ** Bounds *)

Lemma clamped lo hi x : (0 <= lo <= hi)%Q →
  let x := if flt x lo then lo else x in
  let x := if flt hi x then hi else x in
  (lo <= x <= hi)%Q.
Proof.
  intros [H0 H]. cbn zeta. destruct (flt x lo) eqn:E1.
  - destruct (flt hi lo) eqn:E2; [split; [done|apply Qle_refl]|]. split; [apply Qle_refl|done].
  - apply flt_false in E1. destruct (flt hi x) eqn:E2; [split; [done|apply Qle_refl]|]. by apply flt_false in E2.
Qed.

Section Bounds.
Context (minDelay maxDelay : Z) (Hmin : 0 < minDelay) (Hmax : minDelay <= maxDelay) (Hbig : maxDelay < 2 ^ 53).

Lemma ends : (0 <= of_int minDelay <= of_int maxDelay)%Q.
Proof.
  rewrite !of_int_exact by lia. split; [change 0%Q with (inject_Z 0)|]; rewrite <- Zle_Qle; lia.
Qed.

Lemma between x : (of_int minDelay <= x <= of_int maxDelay)%Q → minDelay <= trunc x <= maxDelay.
Proof.
  rewrite !of_int_exact by lia. intros [Hl Hu]. split; [by apply trunc_ge; [lia|]|]. apply trunc_le; [|done].
  eapply Qle_trans; [|exact Hl]. change 0%Q with (inject_Z 0). rewrite <- Zle_Qle. lia.
Qed.

Lemma backoffDelay_bounds attempt b : minDelay <= backoffDelay attempt minDelay maxDelay b <= maxDelay.
Proof. apply between, (clamped _ _ _ ends). Qed.

Lemma backoff_bounds fused attempt b : minDelay <= backoff fused attempt minDelay maxDelay b <= maxDelay.
Proof.
  unfold backoff. apply between. set (x := fmul _ _). clearbody x. destruct ends as [_ He]. unfold fmax, fmin.
  set (y := if flt (of_int maxDelay) x then _ else _).
  assert (y <= of_int maxDelay)%Q as Hy by (unfold y; destruct (flt _ _) eqn:E; [apply Qle_refl|by apply flt_false in E]).
  clearbody y. destruct (flt (of_int minDelay) y) eqn:E; [|split; [apply Qle_refl|done]]. apply flt_true in E. split; [by apply Qlt_le_weak|done].
Qed.
End Bounds.

(** With the defaults the delay is within a fifth of one second doubled per
    attempt, and of a minute from the seventh on; every 17th byte is tried. *)
Definition second : Z := 1000000000.
Definition doubles (f : Z → Z → Z → Z → Z) : bool :=
  forallb (λ a, forallb (λ b,
    let d := Z.min (second * 2 ^ (Z.of_nat a - 1)) (60 * second) in
    let x := f (Z.of_nat a) second (60 * second) (17 * Z.of_nat b) in
    (Z.max second ((d * 8) `div` 10) - 1 <=? x) && (x <=? Z.min ((d * 12) `div` 10) (60 * second))) (seq 0 16)) (seq 1 7).

Lemma backoff_doubles : doubles backoffDelay = true ∧ doubles (backoff false) = true ∧ doubles (backoff true) = true.
Proof. by vm_compute. Qed.
