(* ===== verification/SyncLoop.v ===== *)
(** The device's connection to the server: [syncLoop], [syncOnce], [resync]
    and [setDisconnected] of [internal/client/daemon.go].

    A step is what happens between two blocking points; the sync goroutine, the
    callers of [resync] and the clock interleave freely.  The answers of gRPC
    and the byte of the jitter are part of the event.  What a message does to
    the device is [Device.applyLocked]. *)

From S2P Require Import Prelude Backoff.

Record Opts := { MinBackoff : Z; MaxBackoff : Z }.

(** [PermissionDenied] and [Unauthenticated], or anything else. *)
Inductive failure := Rejected | Failure.
#[export] Instance failure_eq_dec : EqDecision failure.
Proof. solve_decision. Defined.

Inductive phase := Dial | Opening (n : nat) | Streaming (n : nat) | Failed (e : failure) | Waiting (e : failure) (due : Z) | Stopped.

(** What [Status] reads. *)
Record Link := { connected : bool; lastError : option failure; shown : Z; nextRetryAt : option Z; unreachableSince : option Z; lastMessage : option Z }.

(** The restart of a stream: its cancel function is its number.  [sent] is the
    lock key the last stream was opened with; [pending] callers are about to
    take the lock in [resync], and [calls] are cancels taken and not called. *)
Record Restart := { resyncNow : option nat; resyncWanted : bool; lockKey : string; sent : string; pending : nat; calls : gset nat; cancelled : gset nat }.

Record Loop := { ph : phase; attempt : Z; next : nat; clock : Z; over : bool; link : Link; restart : Restart }.

Definition moved (p : phase) (s : Loop) : Loop :=
  {| ph := p; attempt := attempt s; next := next s; clock := clock s; over := over s; link := link s; restart := restart s |}.
Definition with_link (k : Link) (s : Loop) : Loop :=
  {| ph := ph s; attempt := attempt s; next := next s; clock := clock s; over := over s; link := k; restart := restart s |}.
Definition with_restart (r : Restart) (s : Loop) : Loop :=
  {| ph := ph s; attempt := attempt s; next := next s; clock := clock s; over := over s; link := link s; restart := r |}.
Definition with_attempt (a : Z) (s : Loop) : Loop :=
  {| ph := ph s; attempt := a; next := next s; clock := clock s; over := over s; link := link s; restart := restart s |}.

(** ** The sync goroutine *)

(** The start of [syncOnce], up to the opening of the stream. *)
Definition dialled (ok : bool) (s : Loop) : Loop :=
  if ok then
    let r := restart s in
    {| ph := Opening (next s); attempt := attempt s; next := S (next s); clock := clock s; over := over s; link := link s;
       restart := {| resyncNow := Some (next s); resyncWanted := resyncWanted r; lockKey := lockKey r; sent := lockKey r;
                     pending := pending r; calls := calls r; cancelled := cancelled r |} |}
  else moved (Failed Failure) s.

(** The first message. *)
Definition first_message (n : nat) (s : Loop) : Loop :=
  with_link {| connected := true; lastError := None; shown := 0; nextRetryAt := None; unreachableSince := None; lastMessage := Some (clock s) |}
    (moved (Streaming n) s).

Definition message (s : Loop) : Loop :=
  let k := link s in
  with_link {| connected := connected k; lastError := lastError k; shown := shown k; nextRetryAt := nextRetryAt k;
               unreachableSince := unreachableSince k; lastMessage := Some (clock s) |} s.

(** The deferred calls of [syncOnce]. *)
Definition cancel (n : nat) (r : Restart) : Restart :=
  {| resyncNow := resyncNow r; resyncWanted := resyncWanted r; lockKey := lockKey r; sent := sent r; pending := pending r;
     calls := calls r ∖ {[n]}; cancelled := {[n]} ∪ cancelled r |}.
Definition hung_up (n : nat) (e : failure) (was : bool) (s : Loop) : Loop :=
  let k := link s in
  with_restart {| resyncNow := resyncNow (restart s); resyncWanted := resyncWanted (restart s); lockKey := lockKey (restart s); sent := sent (restart s);
                  pending := pending (restart s); calls := calls (restart s); cancelled := {[n]} ∪ cancelled (restart s) |}
    (with_link (if was then {| connected := false; lastError := lastError k; shown := shown k; nextRetryAt := nextRetryAt k;
                               unreachableSince := Some (clock s); lastMessage := lastMessage k |} else k)
       (moved (Failed e) s)).

Definition setDisconnected (e : failure) (a due : Z) (s : Loop) : Loop :=
  let k := link s in
  with_link {| connected := connected k; lastError := Some e; shown := a; nextRetryAt := Some due;
               unreachableSince := match unreachableSince k with Some t => Some t | None => Some (clock s) end; lastMessage := lastMessage k |} s.

Definition taken (r : Restart) : Restart :=
  {| resyncNow := resyncNow r; resyncWanted := false; lockKey := lockKey r; sent := sent r; pending := pending r; calls := calls r; cancelled := cancelled r |}.

(** The loop's turn after [syncOnce], up to its [select]. *)
Definition turn (o : Opts) (e : failure) (b : Z) (s : Loop) : Loop :=
  if over s then moved Stopped s
  else if resyncWanted (restart s) then moved Dial (with_restart (taken (restart s)) s)
  else
    let a := attempt s + 1 in
    let delay := match e with Rejected => MaxBackoff o | Failure => backoffDelay a (MinBackoff o) (MaxBackoff o) b end in
    with_attempt a (setDisconnected e a (clock s + delay) (moved (Waiting e (clock s + delay)) s)).

Definition woken (e : failure) (s : Loop) : Loop :=
  moved Dial (match e with Failure => if 10 <? attempt s then with_attempt 10 s else s | Rejected => s end).

(** ** The other goroutines *)

(** [ensureLockKey] makes the key; [LockKey] then calls [resync], [LockInit]
    does not. *)
Definition new_key (k : string) (resyncs : bool) (r : Restart) : Restart :=
  {| resyncNow := resyncNow r; resyncWanted := resyncWanted r; lockKey := k; sent := sent r; pending := if resyncs then S (pending r) else pending r;
     calls := calls r; cancelled := cancelled r |}.

(** [resync] with the lock held. *)
Definition resync (r : Restart) : Restart :=
  match resyncNow r with
  | Some n => {| resyncNow := resyncNow r; resyncWanted := true; lockKey := lockKey r; sent := sent r; pending := pred (pending r);
                 calls := {[n]} ∪ calls r; cancelled := cancelled r |}
  | None => {| resyncNow := None; resyncWanted := resyncWanted r; lockKey := lockKey r; sent := sent r; pending := pred (pending r);
               calls := calls r; cancelled := cancelled r |}
  end.

Inductive event :=
  | Dialled (ok : bool) | First | Message | Ended (e : failure) | Turn (b : Z) | Wake | Quit
  | Stop | NewKey (k : string) (resyncs : bool) | Resync | Cancel (n : nat) | Tick (d : Z).

(** [None] where the event cannot happen. *)
Definition step (o : Opts) (ev : event) (s : Loop) : option Loop :=
  let r := restart s in
  match ev, ph s with
  | Dialled ok, Dial => Some (dialled ok s)
  | First, Opening n => Some (first_message n s)
  | Message, Streaming _ => Some (message s)
  | Ended e, Opening n => Some (hung_up n e false s)
  | Ended e, Streaming n => Some (hung_up n e true s)
  | Turn b, Failed e => Some (turn o e b s)
  | Wake, Waiting e due => if due <=? clock s then Some (woken e s) else None
  | Quit, Waiting _ _ => if over s then Some (moved Stopped s) else None
  | Stop, _ => Some {| ph := ph s; attempt := attempt s; next := next s; clock := clock s; over := true; link := link s; restart := r |}
  | NewKey k c, _ => if bool_decide (lockKey r = "") then Some (with_restart (new_key k c r) s) else None
  | Resync, _ => if (0 <? pending r)%nat then Some (with_restart (resync r) s) else None
  | Cancel n, _ => if decide (n ∈ calls r) then Some (with_restart (cancel n r) s) else None
  | Tick d, _ => if 0 <=? d then Some {| ph := ph s; attempt := attempt s; next := next s; clock := clock s + d; over := over s; link := link s; restart := r |} else None
  | _, _ => None
  end.

Definition run (o : Opts) (l : list event) (s : Loop) : option Loop := foldl (λ s ev, s ≫= step o ev) (Some s) l.

(** What [NewDaemon] leaves; the device may have a lock key. *)
Definition start (t : Z) (key : string) : Loop :=
  {| ph := Dial; attempt := 0; next := 0; clock := t; over := false;
     link := {| connected := false; lastError := None; shown := 0; nextRetryAt := None; unreachableSince := None; lastMessage := None |};
     restart := {| resyncNow := None; resyncWanted := false; lockKey := key; sent := ""; pending := 0; calls := ∅; cancelled := ∅ |} |}.

Definition is_dial (ev : event) : bool := match ev with Dialled _ => true | _ => false end.
Definition is_wake (ev : event) : bool := match ev with Wake => true | _ => false end.
Definition is_resync (ev : event) : bool := match ev with Resync => true | _ => false end.
Definition silent_key (ev : event) : bool := match ev with NewKey _ c => negb c | _ => false end.
Definition count (f : event → bool) (l : list event) : Z := Z.of_nat (length (filter (λ ev, f ev = true) l)).

Lemma count_snoc f l ev : count f (l ++ [ev]) = count f l + (if f ev then 1 else 0).
Proof. unfold count. rewrite filter_app, length_app. destruct (f ev) eqn:E; [rewrite filter_cons_True by done|rewrite filter_cons_False by (by rewrite E)]; cbn; lia. Qed.

(** ** The invariant *)

Definition in_stream (s : Loop) (n : nat) : Prop := ph s = Opening n ∨ ph s = Streaming n.
Definition told (n : nat) (r : Restart) : Prop :=
  sent r = lockKey r ∨ (0 < pending r)%nat ∨ resyncWanted r = true ∧ (n ∈ calls r ∨ n ∈ cancelled r).

Record link_ok (s : Loop) : Prop := {
  l_up : connected (link s) = true ↔ ∃ n, ph s = Streaming n;
  l_calm : connected (link s) = true → lastError (link s) = None ∧ shown (link s) = 0 ∧ nextRetryAt (link s) = None ∧ unreachableSince (link s) = None;
  l_wait : ∀ e due, ph s = Waiting e due → lastError (link s) = Some e ∧ nextRetryAt (link s) = Some due ∧ shown (link s) = attempt s ∧ 1 <= attempt s ∧
           is_Some (unreachableSince (link s));
  l_attempt : 0 <= attempt s;
}.

Record pace_ok (o : Opts) (t : Z) (l : list event) (s : Loop) : Prop := {
  p_dials : count is_dial l + (match ph s with Dial => 1 | _ => 0 end) + (if resyncWanted (restart s) then 1 else 0) <= 1 + count is_wake l + count is_resync l;
  p_wakes : count is_wake l * MinBackoff o <= clock s - t;
  p_due : ∀ e due, ph s = Waiting e due → (count is_wake l + 1) * MinBackoff o <= due - t ∧ due <= clock s + MaxBackoff o;
}.

Record key_ok (l : list event) (s : Loop) : Prop := {
  k_fresh : ∀ n, n ∈ calls (restart s) ∪ cancelled (restart s) → (n < next s)%nat;
  k_now : ∀ n, in_stream s n → resyncNow (restart s) = Some n;
  k_past : ∀ n, resyncNow (restart s) = Some n → (n < next s)%nat;
  k_told : count silent_key l = 0 → ∀ n, in_stream s n → told n (restart s);
}.


Lemma step_link o ev s s' : link_ok s → step o ev s = Some s' → link_ok s'.
Proof.
  intros [Hu Hc Hw Ha] H. unfold step in H.
  assert (∀ s'', ph s'' = ph s → link s'' = link s → attempt s'' = attempt s → link_ok s'') as Hsame.
  { intros s'' Hp Hl Hat. split; rewrite ?Hl, ?Hat, ?Hp; auto. }
  destruct ev as [ok| | |e|b| | | |k c| |n|d].
  - destruct (ph s) eqn:Hph; try done. injection H as <-. assert (connected (link s) = false) as Hf by (apply not_true_is_false; intros [n Hn]%Hu; done).
    destruct ok; split; cbn; rewrite ?Hf; naive_solver.
  - destruct (ph s) eqn:Hph; try done. injection H as <-. split; cbn; naive_solver.
  - destruct (ph s) eqn:Hph; try done. injection H as <-. split; cbn; rewrite ?Hph; naive_solver.
  - assert (∀ n was, was = connected (link s) → s' = hung_up n e was s → link_ok s') as Hh.
    { intros n was -> ->. unfold hung_up. destruct (connected (link s)) eqn:E; split; cbn; rewrite ?E; naive_solver. }
    destruct (ph s) as [|n|n| | |] eqn:Hph; try done; injection H as <-; (eapply Hh; [|done]); symmetry.
    + apply not_true_is_false. intros [m Hm]%Hu. done.
    + apply Hu. by exists n.
  - destruct (ph s) eqn:Hph; try done. injection H as <-. assert (connected (link s) = false) as Hf by (apply not_true_is_false; intros [n Hn]%Hu; done).
    unfold turn. destruct (over s); [split; cbn; rewrite ?Hf; naive_solver|]. destruct (resyncWanted _); [split; cbn; rewrite ?Hf; naive_solver|].
    split; cbn; rewrite ?Hf; [naive_solver..| |lia]. intros e' due [= <- <-]. split_and!; try done; [lia|]. destruct (unreachableSince _); done.
  - destruct (ph s) eqn:Hph; try done. destruct (due <=? clock s); [|done]. injection H as <-.
    assert (connected (link s) = false) as Hf by (apply not_true_is_false; intros [n Hn]%Hu; done).
    unfold woken. destruct e; [|destruct (10 <? attempt s)]; split; cbn; rewrite ?Hf; naive_solver lia.
  - destruct (ph s) eqn:Hph; try done. destruct (over s); [|done]. injection H as <-.
    assert (connected (link s) = false) as Hf by (apply not_true_is_false; intros [n Hn]%Hu; done). split; cbn; rewrite ?Hf; naive_solver.
  - injection H as <-. by apply Hsame.
  - destruct (bool_decide _); [|done]. injection H as <-. by apply Hsame.
  - destruct (0 <? _)%nat; [|done]. injection H as <-. by apply Hsame.
  - destruct (decide _); [|done]. injection H as <-. by apply Hsame.
  - destruct (0 <=? d); [|done]. injection H as <-. by apply Hsame.
Qed.

Definition dialling (s : Loop) : Z := match ph s with Dial => 1 | _ => 0 end.
Definition wanting (s : Loop) : Z := if resyncWanted (restart s) then 1 else 0.

(** The events of the loop that open no stream and wake from nothing. *)
Lemma pace_same o t l ev s s' : pace_ok o t l s → is_dial ev = false → is_wake ev = false → clock s <= clock s' →
  dialling s' + wanting s' <= dialling s + wanting s + (if is_resync ev then 1 else 0) →
  (∀ e due, ph s' = Waiting e due → ph s = Waiting e due) → pace_ok o t (l ++ [ev]) s'.
Proof.
  intros [Hd Hw Hdue] E1 E2 Hc Hp Hsame. unfold dialling, wanting in Hp. split; rewrite !count_snoc, ?E1, ?E2; [lia..|].
  intros e due [? ?]%Hsame%Hdue. lia.
Qed.

Ltac paced s :=
  eapply (pace_same _ _ _ _ s); try done; unfold dialling, wanting; cbn; repeat match goal with H : ph s = _ |- _ => rewrite H end;
  repeat match goal with H : resyncWanted (restart s) = _ |- _ => rewrite H end; try done; lia.

Lemma step_pace o t l ev s s' : 0 < MinBackoff o → MinBackoff o <= MaxBackoff o → MaxBackoff o < 2 ^ 53 →
  pace_ok o t l s → step o ev s = Some s' → pace_ok o t (l ++ [ev]) s'.
Proof.
  intros Hmin Hmax Hbig Hok H. pose proof Hok as [Hd Hw Hdue]. unfold step in H. destruct ev as [ok| | |e|b| | | |k c| |n|d].
  - destruct (ph s) eqn:Hph; try done. injection H as <-. split; rewrite !count_snoc; cbn; destruct ok; cbn; (lia || done).
  - destruct (ph s) eqn:Hph; try done. injection H as <-. paced s.
  - destruct (ph s) eqn:Hph; try done. injection H as <-. paced s.
  - destruct (ph s) eqn:Hph; try done; injection H as <-; paced s.
  - destruct (ph s) as [| | |e| |] eqn:Hph; try done. injection H as <-. unfold turn. destruct (over s).
    { paced s. }
    destruct (resyncWanted (restart s)) eqn:Ew.
    { paced s. }
    split; rewrite !count_snoc; cbn; [rewrite Ew; lia|lia|]. intros e' due [= <- <-].
    pose proof (backoffDelay_bounds (MinBackoff o) (MaxBackoff o) Hmin Hmax Hbig (attempt s + 1) b). destruct e; lia.
  - destruct (ph s) as [| | | |e due|] eqn:Hph; try done. destruct (Z.leb_spec due (clock s)); [|done]. injection H as <-. destruct (Hdue _ _ eq_refl).
    assert (clock (woken e s) = clock s ∧ restart (woken e s) = restart s) as [Ec Er] by (unfold woken; destruct e; [done|by destruct (10 <? attempt s)]).
    split; rewrite !count_snoc, ?Ec, ?Er; cbn; [lia|lia|done].
  - destruct (ph s) eqn:Hph; try done. destruct (over s); [|done]. injection H as <-. paced s.
  - injection H as <-. paced s.
  - destruct (bool_decide _); [|done]. injection H as <-. paced s.
  - destruct (0 <? _)%nat; [|done]. injection H as <-. apply (pace_same o t l _ s); try done.
    unfold dialling, wanting. cbn. unfold resync. destruct (resyncNow _); cbn; destruct (resyncWanted _); lia.
  - destruct (decide _); [|done]. injection H as <-. paced s.
  - destruct (Z.leb_spec 0 d); [|done]. injection H as <-. paced s.
Qed.

Lemma key_moved l ev s s' : key_ok l s → restart s' = restart s → next s' = next s → (∀ n, in_stream s' n → in_stream s n) → key_ok (l ++ [ev]) s'.
Proof.
  intros [Hf Hn Hp Ht] Hr Hx Hs. split; rewrite ?Hr, ?Hx; try done; [by intros n ?%Hs%Hn|].
  rewrite count_snoc. intros Hc n ?%Hs. apply Ht; [|done]. unfold count in *. destruct (silent_key ev); lia.
Qed.

Lemma step_key o l ev s s' : key_ok l s → step o ev s = Some s' → key_ok (l ++ [ev]) s'.
Proof.
  intros Hok H. pose proof Hok as [Hf Hn Hp Ht]. unfold step in H.
  assert (∀ n, count silent_key (l ++ [ev]) = 0 → in_stream s n → told n (restart s)) as Ht'.
  { rewrite count_snoc. intros n Hc ?. apply Ht; [|done]. unfold count in *. destruct (silent_key ev); lia. }
  destruct ev as [ok| | |e|b| | | |k c| |n|d].
  - destruct (ph s) eqn:Hph; try done. injection H as <-. destruct ok; [|by apply (key_moved l _ s); try done; intros n [?|?]].
    split; cbn.
    + intros n Hin. specialize (Hf n Hin). lia.
    + by intros n [[= ->]|?].
    + by intros n [= ->]; lia.
    + intros _ n _. by left.
  - destruct (ph s) eqn:Hph; try done. injection H as <-. apply (key_moved l _ s); try done. intros m [?|[= <-]]; [done|by left].
  - destruct (ph s) eqn:Hph; try done. injection H as <-. by apply (key_moved l _ s).
  - assert (∀ n was, in_stream s n → key_ok (l ++ [Ended e]) (hung_up n e was s)) as Hh.
    { intros n was Hs. split; cbn; try done; [|by intros m [?|?]|by intros _ m [?|?]].
      intros m [Hm|[->%elem_of_singleton|Hm]%elem_of_union]%elem_of_union; [apply Hf|apply Hp, Hn|apply Hf]; set_solver. }
    destruct (ph s) as [|n|n| | |] eqn:Hph; try done; injection H as <-; apply Hh; [by left|by right].
  - destruct (ph s) as [| | |e| |] eqn:Hph; try done. injection H as <-. unfold turn. destruct (over s); [by apply (key_moved l _ s); try done; intros n [?|?]|].
    destruct (resyncWanted _); [|by apply (key_moved l _ s); try done; intros n [?|?]]. split; cbn; [exact Hf|by intros m [?|?]|exact Hp|by intros _ m [?|?]].
  - destruct (ph s) as [| | | |e due|] eqn:Hph; try done. destruct (due <=? clock s); [|done]. injection H as <-.
    apply (key_moved l _ s); unfold woken; destruct e; try destruct (10 <? attempt s); try done; by intros n [?|?].
  - destruct (ph s) eqn:Hph; try done. destruct (over s); [|done]. injection H as <-. apply (key_moved l _ s); try done; by intros n [?|?].
  - injection H as <-. by apply (key_moved l _ s).
  - case_bool_decide; [|done]. injection H as <-. split; cbn; try done. intros Hc n _. right. left. cbn.
    rewrite count_snoc in Hc. unfold count in Hc. destruct c; cbn in *; lia.
  - destruct (0 <? _)%nat; [|done]. injection H as <-. unfold resync. destruct (resyncNow (restart s)) as [n|].
    + split; cbn; [|by intros m Hs; apply Hn|by intros m [= <-]; apply Hp|].
      * intros m [[->%elem_of_singleton|Hm]%elem_of_union|Hm]%elem_of_union; [by apply Hp| |]; apply Hf; set_solver.
      * intros _ m Hs. right; right. split; [done|]. left. apply Hn in Hs as [= ->]. cbn. set_solver.
    + split; cbn; [exact Hf|intros m Hs|done|intros _ m Hs]; apply Hn in Hs; congruence.
  - destruct (decide _); [|done]. injection H as <-. split; cbn; [intros m Hm; apply Hf; set_solver|exact Hn|exact Hp|].
    intros Hc m Hs. destruct (Ht' m Hc Hs) as [?|[?|[? Hin]]]; [by left|by right; left|]. right; right. split; [done|].
    destruct (decide (m = n)); [right; set_solver|]. destruct Hin; [left|right]; set_solver.
  - destruct (0 <=? d); [|done]. injection H as <-. by apply (key_moved l _ s).
Qed.

Lemma sync_snoc o l ev s : run o (l ++ [ev]) s = run o l s ≫= step o ev.
Proof. unfold run. by rewrite foldl_app. Qed.

Lemma sync_inv o t key l s : 0 < MinBackoff o → MinBackoff o <= MaxBackoff o → MaxBackoff o < 2 ^ 53 →
  run o l (start t key) = Some s → link_ok s ∧ pace_ok o t l s ∧ key_ok l s.
Proof.
  intros Hmin Hmax Hbig. revert s. induction l as [|ev l IH] using rev_ind; intros s.
  - intros [= <-]. split; [|split].
    + split; cbn; [naive_solver|done..].
    + split; unfold count; cbn -[Z.mul]; [lia|lia|done].
    + split; cbn; [intros n; set_solver|by intros n [?|?]|done|by intros _ n [?|?]].
  - rewrite sync_snoc. destruct (run o l _) as [s0|]; [|done]. cbn. intros H. destruct (IH s0 eq_refl) as (H1 & H2 & H3).
    split_and!; [by eapply step_link|by eapply step_pace|by eapply step_key].
Qed.

Lemma run_app o l k s : run o (l ++ k) s = run o l s ≫= run o k.
Proof.
  unfold run. rewrite foldl_app. destruct (foldl _ (Some s) l); [done|]. cbn. induction k as [|ev k IH]; [done|]. exact IH.
Qed.

Lemma run_cons o ev l s : run o (ev :: l) s = step o ev s ≫= run o l.
Proof. by rewrite (run_app o [ev] l s : run o (ev :: l) s = _). Qed.

(** A waiting device dials when its time has come, a failed one after waiting. *)
Lemma waiting_wakes o e due s : ph s = Waiting e due → ∃ s', run o [Tick (Z.max 0 (due - clock s)); Wake] s = Some s' ∧ ph s' = Dial ∧ clock s' = Z.max (clock s) due.
Proof.
  intros Hp. set (d := Z.max 0 (due - clock s)). rewrite run_cons. unfold step. rewrite (proj2 (Z.leb_le 0 d)) by lia. cbn [mbind option_bind]. rewrite run_cons. unfold step. cbn [ph clock].
  rewrite Hp, (proj2 (Z.leb_le due (clock s + d))) by lia. eexists. split; [done|]. unfold woken. destruct e; [|cbn [attempt]; destruct (10 <? attempt s)]; cbn; (split; [done|lia]).
Qed.

Lemma failed_dials o e b s : 0 < MinBackoff o → MinBackoff o <= MaxBackoff o → MaxBackoff o < 2 ^ 53 → over s = false → ph s = Failed e →
  ∃ l' s', run o (Turn b :: l') s = Some s' ∧ ph s' = Dial ∧ clock s' <= clock s + MaxBackoff o.
Proof.
  intros Hmin Hmax Hbig Ho Hp. set (s1 := turn o e b s).
  assert (∀ l', run o (Turn b :: l') s = run o l' s1) as Hr by (intros l'; rewrite run_cons; unfold step; by rewrite Hp).
  assert (clock s1 = clock s ∧ (ph s1 = Dial ∨ ∃ due, ph s1 = Waiting e due ∧ due <= clock s + MaxBackoff o)) as [Hc [Hd|(due & Hd & Hle)]].
  { unfold s1, turn. rewrite Ho. destruct (resyncWanted _); [by split; [|left]|]. split; [done|]. right. eexists. split; [done|].
    pose proof (backoffDelay_bounds (MinBackoff o) (MaxBackoff o) Hmin Hmax Hbig (attempt s + 1) b). destruct e; lia. }
  - exists [], s1. rewrite Hr. split; [done|]. split; [done|]. lia.
  - destruct (waiting_wakes o e due s1 Hd) as (s' & Hrun & Hph & Hcl). eexists _, s'. rewrite Hr. split; [exact Hrun|]. split; [done|]. lia.
Qed.

(** C35: the connection to the server.  However messages, failures, new lock keys
    and stops interleave: [Status] says connected exactly while a stream
    delivers, with nothing of earlier failures left, and between attempts it
    says why and when the next one is due, at most [MaxBackoff] ahead; attempts
    are [MinBackoff] apart, those asked for by [resync] aside; a device that
    was not stopped dials again within [MaxBackoff] of a failure; and the
    server has been told the device's lock key on the stream in use, or that
    stream has been or is about to be cancelled and the loop then dials at
    once, provided every key was made by [LockKey]. *)
Theorem device_reconnects (o : Opts) (t : Z) (key : string) (l : list event) (s : Loop) :
  0 < MinBackoff o → MinBackoff o <= MaxBackoff o → MaxBackoff o < 2 ^ 53 → run o l (start t key) = Some s →
  (connected (link s) = true ↔ ∃ n, ph s = Streaming n) ∧
  (connected (link s) = true → lastError (link s) = None ∧ shown (link s) = 0 ∧ nextRetryAt (link s) = None ∧ unreachableSince (link s) = None) ∧
  (∀ e due, ph s = Waiting e due → lastError (link s) = Some e ∧ nextRetryAt (link s) = Some due ∧ due <= clock s + MaxBackoff o ∧
     1 <= shown (link s) ∧ is_Some (unreachableSince (link s))) ∧
  (count is_dial l - count is_resync l - 1) * MinBackoff o <= clock s - t ∧
  (∀ e, over s = false → (ph s = Failed e ∨ ∃ due, ph s = Waiting e due) →
     ∃ l' s', run o l' s = Some s' ∧ ph s' = Dial ∧ clock s' <= clock s + MaxBackoff o) ∧
  (count silent_key l = 0 → ∀ n, ph s = Opening n ∨ ph s = Streaming n →
     sent (restart s) = lockKey (restart s) ∨ (0 < pending (restart s))%nat ∨
     (n ∈ calls (restart s) ∨ n ∈ cancelled (restart s)) ∧
     ∀ e b, over s = false → ∃ s', run o [Ended e; Turn b] s = Some s' ∧ ph s' = Dial).
Proof.
  intros Hmin Hmax Hbig Hrun. destruct (sync_inv o t key l s Hmin Hmax Hbig Hrun) as ([Hu Hc Hw Ha] & [Hd Hk Hdue] & [Hf Hn Hp Ht]).
  split; [exact Hu|]. split; [exact Hc|]. split.
  { intros e due Hph. destruct (Hw e due Hph) as (? & ? & -> & ? & ?). destruct (Hdue e due Hph). done. }
  split. { destruct (resyncWanted _), (ph s); nia. }
  split.
  - intros e Ho [Hph|[due Hph]].
    + destruct (failed_dials o e 0 s Hmin Hmax Hbig Ho Hph) as (l' & s' & H). by exists (Turn 0 :: l'), s'.
    + destruct (waiting_wakes o e due s Hph) as (s' & Hr & Hd' & Hcl). eexists _, s'. split; [exact Hr|]. split; [done|]. destruct (Hdue e due Hph). lia.
  - intros Hq n Hs. destruct (Ht Hq n Hs) as [?|[?|[Hwant Hin]]]; [by left|by right; left|]. right. right. split; [done|].
    intros e b Ho. rewrite run_cons. unfold step.
    destruct Hs as [-> | ->]; cbn [mbind option_bind]; rewrite run_cons; (eexists; split; [done|]; unfold turn; cbn; by rewrite Ho, Hwant).
Qed.

Definition defaults : Opts := {| MinBackoff := second; MaxBackoff := 60 * second |}.
Definition demo_events : list event :=
  [Dialled false; Turn 128; Tick (2 * second); Wake; Dialled true; First; NewKey "key" true; Resync; Message; Cancel 0; Ended Failure; Turn 0; Dialled true].

Lemma device_reconnects_witness :
  ∃ s, run defaults demo_events (start 0 "") = Some s ∧ sent (restart s) = "key" ∧ (count is_dial demo_events - count is_resync demo_events - 1) * second <= clock s.
Proof.
  assert (is_Some (run defaults demo_events (start 0 ""))) as [s Hs] by (by apply (bool_decide_unpack _); vm_compute).
  exists s. split; [exact Hs|].
  destruct (device_reconnects defaults 0 "" demo_events s) as (_ & _ & _ & Hrate & _ & _); [done|done|done|exact Hs|].
  split; [|rewrite Z.sub_0_r in Hrate; exact Hrate]. vm_compute in Hs. by injection Hs as <-.
Defined.

(** [syncLoop] counts failures in a variable of its own that no success resets:
    the first failure after a connection is shown as the next of the old
    series, and after seven the device waits a minute each time. *)
Definition drop (n : nat) : list event := concat (repeat [Dialled true; First; Ended Failure; Turn 128; Tick (100 * second); Wake] n).
Example failures_never_forgotten :
  (shown ∘ link <$> run defaults (drop 1 ++ [Dialled true; First; Ended Failure; Turn 128]) (start 0 "")) = Some 2 ∧
  ((λ s, match ph s with Waiting _ due => due - clock s | _ => 0 end) <$> run defaults (drop 6 ++ [Dialled true; First; Ended Failure; Turn 128]) (start 0 "")) =
    Some (60 * second).
Proof. by vm_compute. Qed.

(** [LockInit] makes a key without a restart: when the server refuses the
    record, a later [LockKey] finds the key made and the stream stays. *)
Example key_untold :
  (λ s, (ph s, sent (restart s), lockKey (restart s), pending (restart s), resyncWanted (restart s))) <$>
    run defaults [Dialled true; First; NewKey "key" false; Message] (start 0 "") = Some (Streaming 0, "", "key", 0%nat, false).
Proof. by vm_compute. Qed.

(** A restart asked for while the device waits waits with it. *)
Example restart_waits :
  (λ s, (ph s, resyncWanted (restart s))) <$>
    run defaults [Dialled true; Ended Rejected; Turn 0; NewKey "key" true; Resync; Cancel 0] (start 0 "") = Some (Waiting Rejected (60 * second), true).
Proof. by vm_compute. Qed.
