(* ===== verification/Status.v ===== *)
(** What a device says about itself: [Status] and [natStatus] of
    [internal/client/localapi.go], [dropWindow] of [dropwindow.go] and
    [dnsStatus] of [dns.go].

    The parts of the daemon are read one after the other; what each held is in
    a [View]. *)

From Stdlib Require Import Strings.Ascii.
From S2P Require Import Prelude GoStrings NetIP LockRecord ClientMap Pins Device WgDevice Paths ClientLock.
From S2P Require PathMachine SyncLoop DnsRegistry Endpoints.

#[local] Existing Instances PathMachine.state_eq_dec.

(** ** Drops in the last minutes *)

Record dropSample := { dsAt : Z; dsTotal : Z }.
Record dropWindow := { dwSpan : Z; dwMinGap : Z; dwSamples : list dropSample }.
Definition newDropWindow (span : Z) : dropWindow := {| dwSpan := span; dwMinGap := Z.quot span 60; dwSamples := [] |}.

(** The samples at or before the cutoff but the newest of them are forgotten. *)
Fixpoint forget (cutoff : Z) (l : list dropSample) : list dropSample :=
  match l with
  | _ :: ((y :: _) as l') => if dsAt y <=? cutoff then forget cutoff l' else l
  | _ => l
  end.

Definition too_soon (w : dropWindow) (now : Z) : bool := match last (dwSamples w) with Some s => Sub now (dsAt s) <? dwMinGap w | None => false end.
Definition RecordDrops (now total : Z) (w : dropWindow) : dropWindow :=
  if too_soon w now then w
  else {| dwSpan := dwSpan w; dwMinGap := dwMinGap w; dwSamples := forget (now - dwSpan w) (dwSamples w ++ [{| dsAt := now; dsTotal := total |}]) |}.

(** The newest sample at or before the cutoff, or the oldest one. *)
Fixpoint baseline (cutoff : Z) (base : dropSample) (l : list dropSample) : dropSample :=
  match l with [] => base | s :: l => if cutoff <? dsAt s then base else baseline cutoff s l end.
Definition Delta (now total : Z) (w : dropWindow) : Z :=
  match dwSamples w with
  | [] => 0
  | s :: l => let base := baseline (now - dwSpan w) s (s :: l) in if total <? dsTotal base then 0 else total - dsTotal base
  end.

(** ** The document *)

Inductive ServerState := ServerConnected | ServerReconnecting | ServerCached.
Record ServerStatus := {
  svAddr : string; svState : ServerState; svAttempt : Z; svNextRetryAt : option Z; svUnreachableSince : option Z; svGeneration : Z;
  svLastMessageAt : option Z; svLastError : option SyncLoop.failure; svVersion : string;
}.
Inductive NATType := NATUnknown | NATNone | NATCone | NATSymmetric.
#[export] Instance NATType_eq_dec : EqDecision NATType.
Proof. solve_decision. Defined.
Record NATStatus := { naType : NATType; naReflexive : list string; naLocal : list string }.
Record FilterStatus := { fsRules : Z; fsDrops : Z; fsDropped5m : Z; fsFlows : Z }.
Record DNSStatus := { dnListen : string; dnServing : bool; dnMethod : string; dnNames : nat; dnError : string }.
Record RouteStatus := { rsPrefix : string; rsVia : string }.
Inductive ExitState := ExitStateOff | ExitStateActive | ExitStateUnavailable.
#[export] Instance ExitState_eq_dec : EqDecision ExitState.
Proof. solve_decision. Defined.
Record SelfStatus := { seName : string; sePeerID : string; seIPv4 : string; seIPv6 : string; seKind : string }.

(** [PathState] is one of the prober's. *)
Inductive PathName := PathState (s : PathMachine.State) | PathOffline | PathHub | PathKeyChanged | PathUnsigned.
#[export] Instance PathName_eq_dec : EqDecision PathName.
Proof. solve_decision. Defined.

Record PeerStatus := {
  peName : string; peIPv4 : string; peIPv6 : string; peKind : string; peOwner : string; peOnline : bool; pePublicKey : string; pePath : PathName;
  pePathEndpoint : string; peProbes : nat; peCandidates : list Endpoint; peLastHandshakeAt : option Z; peRxBytes : Z; peTxBytes : Z;
}.
Record StatusDoc := {
  sdVersion : string; sdSelf : SelfStatus; sdServer : ServerStatus; sdBackend : string; sdInterface : string; sdListenPort : Z; sdNAT : NATStatus;
  sdRelay : bool * nat; sdFilter : option FilterStatus; sdDNS : option DNSStatus; sdHub : option PeerStatus; sdPeers : list PeerStatus;
  sdHeld : list HeldStatus; sdLock : LockStatus; sdRoutes : list RouteStatus; sdExitNode : string * ExitState; sdAdvertised : list AdvertisedRoute;
  sdRetrievedAt : Z;
}.

(** ** What is read *)

(** The resolver's state; [None] for the mode [off]. *)
Record dnsState := { dsListen : string; dsServing : bool; dsMethod : string; dsErr : string }.
Record DeviceView := { dvBackend : string; dvName : string; dvFilter : option (Z * Z * Z); dvStats : option (list PeerStats) }.
Record View := {
  vNow : Z; vVersion : string; vInterface : string; vLocker : Locker; vLink : SyncLoop.Link; vProber : Prober; vRelay : bool * nat;
  vDNS : option dnsState; vDevice : option DeviceView; vDrops : dropWindow;
}.

Definition timePtr (t : Z) : option Z := if t =? 0 then None else Some t.

(** [natStatus]. *)
Definition nat_step (locals : list addr) (st : NATStatus) (e : Endpoints.Endpoint) : NATStatus :=
  if Endpoints.Kind e =? Endpoints.EndpointReflexive then
    {| naType := if negb (bool_decide (naType st = NATNone)) && bool_decide (apaddr (Endpoints.Addr e) ∈ locals) then NATNone
                 else if bool_decide (naType st = NATUnknown) then NATCone else naType st;
       naReflexive := naReflexive st ++ [addrport_string (Endpoints.Addr e)]; naLocal := naLocal st |}
  else if Endpoints.Kind e =? Endpoints.EndpointLocal then
    {| naType := naType st; naReflexive := naReflexive st; naLocal := naLocal st ++ [addrport_string (Endpoints.Addr e)] |}
  else st.
Definition natStatus (locals : list addr) (eps : list Endpoints.Endpoint) (symmetric : bool) : NATStatus :=
  let st := foldl (nat_step locals) {| naType := NATUnknown; naReflexive := []; naLocal := [] |} eps in
  if symmetric then {| naType := NATSymmetric; naReflexive := naReflexive st; naLocal := naLocal st |} else st.

Definition dnsStatus (s : option dnsState) (d : Daemon) : option DNSStatus :=
  (λ s, {| dnListen := dsListen s; dnServing := dsServing s; dnMethod := if bool_decide (dsMethod s = "") then "none" else dsMethod s;
           dnNames := length (DnsRegistry.dnsEntries d);
           dnError := if negb (dsServing s) && bool_decide (dsErr s = "") then "resolver not started" else dsErr s |}) <$> s.

Definition serverStatus (v : View) : ServerStatus :=
  let d := loDaemon (vLocker v) in
  let k := vLink v in
  let nm := dNetmap d in
  {| svAddr := stServer (dState d);
     svState := if SyncLoop.connected k then ServerConnected else match nm with Some _ => ServerCached | None => ServerReconnecting end;
     svAttempt := SyncLoop.shown k; svNextRetryAt := SyncLoop.nextRetryAt k; svUnreachableSince := SyncLoop.unreachableSince k;
     svGeneration := match nm with Some m => mGeneration m | None => 0 end;
     svLastMessageAt := match SyncLoop.lastMessage k, nm with None, Some m => timePtr (mReceivedAt m) | t, _ => t end;
     svLastError := SyncLoop.lastError k; svVersion := match nm with Some m => mServerVersion m | None => "" end |}.

(** A held entry is shown without counters. *)
Definition held_status (h : HeldStatus) : PeerStatus :=
  {| peName := hName h; peIPv4 := hIPv4 h; peIPv6 := ""; peKind := hKind h; peOwner := hOwner h; peOnline := bool_decide (hName h = HubName);
     pePublicKey := hOfferedKey h; pePath := match hReason h with HeldUnsigned => PathUnsigned | HeldKeyChanged => PathKeyChanged end;
     pePathEndpoint := ""; peProbes := 0; peCandidates := []; peLastHandshakeAt := None; peRxBytes := 0; peTxBytes := 0 |}.

Section Status.
Context (Verify : PublicKey → list byte → Signature → bool) (ParseKey : string → option (list byte)) (KeyString : list byte → string)
  (PublicKeyOf : list byte → list byte) (PublicOf : PrivateKey → PublicKey).

(** The statistics by the key's text; the last of a key counts. *)
Definition stats_of (v : View) (key : string) : option PeerStats :=
  dv ← vDevice v; l ← dvStats dv; last (filter (λ s, KeyString (psKey s) = key) l).

Definition fill (v : View) (ps : PeerStatus) : PeerStatus :=
  match stats_of v (pePublicKey ps) with
  | Some s => {| peName := peName ps; peIPv4 := peIPv4 ps; peIPv6 := peIPv6 ps; peKind := peKind ps; peOwner := peOwner ps; peOnline := peOnline ps;
                 pePublicKey := pePublicKey ps; pePath := pePath ps; pePathEndpoint := pePathEndpoint ps; peProbes := peProbes ps;
                 peCandidates := peCandidates ps; peLastHandshakeAt := timePtr (psHandshake s); peRxBytes := psRx s; peTxBytes := psTx s |}
  | None => ps
  end.

Definition with_path (p : PathName) (ep : string) (n : nat) (ps : PeerStatus) : PeerStatus :=
  {| peName := peName ps; peIPv4 := peIPv4 ps; peIPv6 := peIPv6 ps; peKind := peKind ps; peOwner := peOwner ps; peOnline := peOnline ps;
     pePublicKey := pePublicKey ps; pePath := p; pePathEndpoint := ep; peProbes := n; peCandidates := peCandidates ps;
     peLastHandshakeAt := peLastHandshakeAt ps; peRxBytes := peRxBytes ps; peTxBytes := peTxBytes ps |}.

Definition hubStale : Z := 180 * second.

Definition hub_status (v : View) (nm : NetMap) : option PeerStatus :=
  let h := mHub nm in
  if bool_decide (hPublicKey h = "") then None
  else
    let ps := fill v
      {| peName := "hub"; peIPv4 := match hAllowedIPs h with a :: _ => match ParsePrefix a with Some p => addr_string (paddr p) | None => "" end | [] => "" end;
         peIPv6 := match DnsRegistry.hubAddr6 nm with Some a => addr_string a | None => "" end; peKind := "server"; peOwner := ""; peOnline := true;
         pePublicKey := hPublicKey h; pePath := PathState PathMachine.Unreachable; pePathEndpoint := ""; peProbes := 0; peCandidates := [];
         peLastHandshakeAt := None; peRxBytes := 0; peTxBytes := 0 |} in
    Some (match peLastHandshakeAt ps with
          | Some t => if Sub (vNow v) t <? hubStale then with_path (PathState PathMachine.Direct) (hEndpoint h) 0 ps else ps
          | None => ps
          end).

(** The server's verdict counts only while no path is in use. *)
Definition path_shown (v : View) (p : Peer) : PathName * string * nat :=
  if pViaHub p then (PathHub, "", 0%nat)
  else
    let '(s, ep, n) := match pathOf (vProber v) (pID p) with
                       | Some (s, ep, n) => (s, if APIsValid ep then addrport_string ep else "", n)
                       | None => (PathMachine.Idle, "", 0%nat)
                       end in
    (if negb (pOnline p) && (bool_decide (s = PathMachine.Idle) || bool_decide (s = PathMachine.Unreachable)) then PathOffline else PathState s, ep, n).

Definition peer_status (v : View) (p : Peer) : PeerStatus :=
  let '(path, ep, n) := path_shown v p in
  with_path path ep n
    (fill v {| peName := pName p; peIPv4 := pIPv4 p; peIPv6 := pIPv6 p; peKind := pKind p; peOwner := pOwner p; peOnline := pOnline p;
               pePublicKey := pPublicKey p; pePath := PathState PathMachine.Idle; pePathEndpoint := ""; peProbes := 0; peCandidates := pEndpoints p;
               peLastHandshakeAt := None; peRxBytes := 0; peTxBytes := 0 |}).

(** A peer's own address is no route. *)
Definition own_text (p : Peer) (x : prefix) : bool :=
  (pbits x =? BitLen (paddr x)) && (bool_decide (addr_string (paddr x) = pIPv4 p) || bool_decide (addr_string (paddr x) = pIPv6 p)).

(** Whether the peer carries the default route. *)
Definition carries (exitNodeID : string) (p : Peer) : bool := negb (pViaHub p) && pExitNode p && bool_decide (pID p = exitNodeID).

Definition peer_routes (nm : NetMap) (exitNodeID : string) (p : Peer) : list RouteStatus :=
  if pViaHub p then []
  else
    ((λ x, {| rsPrefix := prefix_string x; rsVia := pName p |}) <$> filter (λ x, own_text p x = false) (omap ParsePrefix (pAllowedIPs p))) ++
    (if carries exitNodeID p
     then {| rsPrefix := prefix_string ExitRoute; rsVia := pName p |} ::
          (if bool_decide (is_Some (selfIPv6 nm)) && bool_decide (pIPv6 p ≠ "") then [{| rsPrefix := prefix_string ExitRoute6; rsVia := pName p |}] else [])
     else []).

Definition Status (v : View) : StatusDoc :=
  let d := loDaemon (vLocker v) in
  let st := dState d in
  let peers := match dNetmap d with Some nm => mPeers nm | None => [] end in
  let held_hub := last (filter (λ h, hName h = HubName) (dHeld d)) in
  {| sdVersion := vVersion v;
     sdSelf := {| seName := stName st; sePeerID := stPeerID st; seIPv4 := stIPv4 st; seIPv6 := stIPv6 st;
                  seKind := match dNetmap d with Some nm => mSelfKind nm | None => "" end |};
     sdServer := serverStatus v;
     sdBackend := match vDevice v with Some dv => dvBackend dv | None => "" end;
     sdInterface := match vDevice v with Some dv => dvName dv | None => vInterface v end; sdListenPort := stListenPort st;
     sdNAT := natStatus (selfAddrs (vProber v)) (selfEndpoints (vProber v)) (selfSymmetric (vProber v)); sdRelay := vRelay v;
     sdFilter := dv ← vDevice v; '(rules, drops, flows) ← dvFilter dv;
                 Some {| fsRules := rules; fsDrops := drops; fsDropped5m := Delta (vNow v) drops (vDrops v); fsFlows := flows |};
     sdDNS := dnsStatus (vDNS v) d;
     sdHub := match nm ← dNetmap d; hub_status v nm with Some h => Some h | None => held_status <$> held_hub end;
     sdPeers := (held_status <$> filter (λ h, hName h ≠ HubName) (dHeld d)) ++ (peer_status v <$> peers);
     sdHeld := dHeld d; sdLock := lockStatusLocked Verify ParseKey KeyString PublicKeyOf PublicOf (vLocker v);
     sdRoutes := match dNetmap d with Some nm => concat (peer_routes nm (stExitNodeID st) <$> mPeers nm) | None => [] end;
     sdExitNode := (stExitNode st,
       if existsb (carries (stExitNodeID st)) peers then ExitStateActive
       else if bool_decide (stExitNode st = "") then ExitStateOff else ExitStateUnavailable);
     sdAdvertised := dAdvertised d; sdRetrievedAt := vNow v |}.
End Status.

(** ** The window forgets nothing that counts *)


Lemma forget_cons2 c x y l : forget c (x :: y :: l) = if dsAt y <=? c then forget c (y :: l) else x :: y :: l.
Proof. done. Qed.

Definition in_order (l : list dropSample) : Prop := StronglySorted Z.le (dsAt <$> l).

Lemma baseline_forget c c' l : c <= c' → in_order l →
  match l, forget c l with s :: _, s' :: _ => baseline c' s l = baseline c' s' (forget c l) | [], [] => True | _, _ => False end.
Proof.
  intros Hc Hs. induction l as [|x [|y l] IH]; [done|done|]. rewrite forget_cons2. destruct (Z.leb_spec (dsAt y) c); [|done].
  inversion Hs as [|? ? Hs' Hx]; subst. specialize (IH Hs').
  destruct (forget c (y :: l)) as [|s' k] eqn:E; [done|]. etrans; [|exact IH]. inversion Hx; subst.
  cbn [baseline]. rewrite (proj2 (Z.ltb_ge c' (dsAt x))), (proj2 (Z.ltb_ge c' (dsAt y))) by lia. done.
Qed.

(** What the ticks took: those too soon after the last taken are not. *)
Definition taken (gap : Z) (l : list dropSample) (s : dropSample) : list dropSample :=
  match last l with Some x => if Sub (dsAt s) (dsAt x) <? gap then l else l ++ [s] | None => l ++ [s] end.
Definition history (span : Z) (l : list dropSample) : list dropSample := foldl (taken (Z.quot span 60)) [] l.

Lemma forget_last c l : last (forget c l) = last l.
Proof. induction l as [|x [|y l] IH]; [done|done|]. rewrite forget_cons2. destruct (dsAt y <=? c); [|done]. by rewrite IH. Qed.
Lemma forget_again c c' l m : c <= c' → forget c' (forget c l ++ m) = forget c' (l ++ m).
Proof.
  intros Hc. induction l as [|x [|y l] IH]; [done|done|]. rewrite forget_cons2. destruct (Z.leb_spec (dsAt y) c); [|done].
  rewrite IH. cbn [app]. by rewrite forget_cons2, (proj2 (Z.leb_le (dsAt y) c')) by lia.
Qed.
Lemma in_order_snoc l s : in_order (l ++ [s]) ↔ in_order l ∧ Forall (λ x, dsAt x <= dsAt s) l.
Proof.
  unfold in_order. rewrite fmap_app. cbn. induction l as [|x l IH]; cbn.
  - split; [by repeat constructor|by repeat constructor].
  - split.
    + inversion 1 as [|? ? Hs Hx]; subst. apply IH in Hs as [Hs Hl]. apply Forall_app in Hx as [Hx Hy]. inversion Hy; subst. split; constructor; done.
    + intros [Hs Hl]. inversion Hs; subst. inversion Hl; subst. constructor; [by apply IH|]. apply Forall_app. split; [done|]. by constructor.
Qed.

Definition window (span : Z) (l : list dropSample) : dropWindow := foldl (λ w s, RecordDrops (dsAt s) (dsTotal s) w) (newDropWindow span) l.

Lemma history_in span l : ∀ s, s ∈ history span l → s ∈ l.
Proof.
  unfold history. induction l as [|x l IH] using rev_ind; [done|]. intros s. rewrite foldl_app. cbn [foldl]. unfold taken at 1.
  destruct (last _); [destruct (_ <? _)|]; rewrite ?elem_of_app, ?list_elem_of_singleton; naive_solver.
Qed.

Lemma history_order span l : in_order l → in_order (history span l).
Proof.
  induction l as [|x l IH] using rev_ind; [done|]. intros [Hs Hl]%in_order_snoc. specialize (IH Hs).
  assert (in_order (history span l ++ [x])) as Hx.
  { apply in_order_snoc. split; [done|]. rewrite Forall_forall in Hl |- *. intros y Hy%history_in. by apply Hl. }
  unfold history. rewrite foldl_app. cbn [foldl]. fold (history span l). unfold taken. destruct (last _); [destruct (_ <? _)|]; done.
Qed.

(** The window is what its history leaves after the last forgetting. *)
Lemma window_history span l : 0 <= span → in_order l →
  dwSpan (window span l) = span ∧ dwMinGap (window span l) = Z.quot span 60 ∧
  ∃ c, dwSamples (window span l) = forget c (history span l) ∧ ∀ t, Forall (λ x, dsAt x <= t) l → l ≠ [] → c <= t - span.
Proof.
  intros Hspan. induction l as [|s l IH] using rev_ind; [intros _; cbn; split_and!; try done; by exists 0|].
  intros [Hs Hl]%in_order_snoc. destruct (IH Hs) as (H1 & H2 & c & H5 & H6). unfold window, history in *. rewrite !foldl_app. cbn [foldl].
  set (w := foldl _ (newDropWindow span) l) in *. set (h := foldl (taken _) [] l) in *. unfold RecordDrops, too_soon, taken.
  rewrite H5, forget_last, H2.
  assert (forget (dsAt s - span) (forget c h ++ [s]) = forget (dsAt s - span) (h ++ [s])) as Hf.
  { destruct (decide (l = [])) as [->|Hn]; [done|]. apply forget_again. by apply H6. }
  assert (∀ t, Forall (λ x, dsAt x <= t) (l ++ [s]) → dsAt s <= t) as Ht by (intros t [_ [? _]%Forall_cons]%Forall_app; done).
  assert ({| dsAt := dsAt s; dsTotal := dsTotal s |} = s) as -> by by destruct s.
  destruct (last h) as [x|] eqn:Ex; [destruct (Z.ltb_spec (Sub (dsAt s) (dsAt x)) (Z.quot span 60))|].
  - split; [done|]. split; [done|]. exists c. split; [done|]. intros t Ht' _.
    assert (l ≠ []) as Hn by (intros ->; done). assert (c <= dsAt s - span) by by apply H6. specialize (Ht t Ht'). lia.
  - cbn [dwSpan dwMinGap dwSamples]. split; [done|]. split; [done|]. exists (dsAt s - span). rewrite H1. split; [exact Hf|]. intros t Ht' _. specialize (Ht t Ht'). lia.
  - cbn [dwSpan dwMinGap dwSamples]. split; [done|]. split; [done|]. exists (dsAt s - span). rewrite H1. split; [exact Hf|]. intros t Ht' _. specialize (Ht t Ht'). lia.
Qed.

(** The drops shown are the drops since the sample of the whole history that
    was the newest when the span began. *)
Definition since (span now total : Z) (l : list dropSample) : Z :=
  match history span l with
  | [] => 0
  | s :: k => let base := baseline (now - span) s (s :: k) in if total <? dsTotal base then 0 else total - dsTotal base
  end.
Lemma Delta_since span l now total : 0 <= span → in_order l → Forall (λ x, dsAt x <= now) l →
  Delta now total (window span l) = since span now total l.
Proof.
  intros Hspan Hs Hn. destruct (window_history span l Hspan Hs) as (H1 & _ & c & H5 & H6). unfold Delta, since. rewrite H5, H1.
  destruct (decide (l = [])) as [->|Hne]; [done|]. specialize (H6 now Hn Hne).
  pose proof (baseline_forget c (now - span) (history span l) H6 (history_order span l Hs)) as Hb.
  destruct (history span l) as [|s k]; [done|]. destruct (forget c (s :: k)) as [|s' k']; [done|]. by rewrite Hb.
Qed.

(** ** The verdict on the NAT *)

Definition mapped (eps : list Endpoints.Endpoint) : list addr :=
  (λ e, apaddr (Endpoints.Addr e)) <$> filter (λ e, Endpoints.Kind e = Endpoints.EndpointReflexive) eps.
Definition verdict (locals l : list addr) : NATType :=
  match l with [] => NATUnknown | _ => if bool_decide (Exists (λ a, a ∈ locals) l) then NATNone else NATCone end.

Lemma verdict_snoc locals l a :
  verdict locals (l ++ [a]) =
    if negb (bool_decide (verdict locals l = NATNone)) && bool_decide (a ∈ locals) then NATNone
    else if bool_decide (verdict locals l = NATUnknown) then NATCone else verdict locals l.
Proof.
  assert (verdict locals (l ++ [a]) = if bool_decide (Exists (λ a, a ∈ locals) l) || bool_decide (a ∈ locals) then NATNone else NATCone) as ->.
  { unfold verdict. destruct (l ++ [a]) as [|x k] eqn:E; [by destruct l|]. rewrite <- E, <- bool_decide_or.
    erewrite bool_decide_ext; [done|]. rewrite Exists_app, Exists_cons, Exists_nil. naive_solver. }
  unfold verdict. destruct l as [|x m]; [rewrite bool_decide_false by (by inversion 1); by destruct (bool_decide (a ∈ locals))|].
  destruct (bool_decide (Exists _ (x :: m))); [done|]. by destruct (bool_decide (a ∈ locals)).
Qed.

Lemma natStatus_verdict locals eps symmetric :
  naType (natStatus locals eps symmetric) = if symmetric then NATSymmetric else verdict locals (mapped eps).
Proof.
  assert (naType (foldl (nat_step locals) {| naType := NATUnknown; naReflexive := []; naLocal := [] |} eps) = verdict locals (mapped eps)) as H.
  { induction eps as [|e eps IH] using rev_ind; [done|]. rewrite foldl_app. cbn [foldl]. unfold nat_step at 1.
    destruct (Z.eqb_spec (Endpoints.Kind e) Endpoints.EndpointReflexive) as [Hk|Hk].
    - assert (mapped (eps ++ [e]) = mapped eps ++ [apaddr (Endpoints.Addr e)]) as -> by (unfold mapped; by rewrite filter_app, fmap_app, filter_cons_True).
      rewrite verdict_snoc. cbn [naType]. by rewrite IH.
    - assert (mapped (eps ++ [e]) = mapped eps) as -> by (unfold mapped; by rewrite filter_app, fmap_app, filter_cons_False, app_nil_r).
      rewrite <- IH. by destruct (_ =? Endpoints.EndpointLocal). }
  unfold natStatus. by destruct symmetric.
Qed.

(** ** The routes *)

Lemma mapM_omap {A B} (f : A → option B) l k : mapM f l = Some k → omap f l = k.
Proof.
  revert k. induction l as [|x l IH]; intros k; cbn; [by intros [= <-]|]. destruct (f x); [|done]. cbn. destruct (mapM f l); [|done]. cbn. intros [= <-]. by rewrite (IH _ eq_refl).
Qed.

(** What the server sends: peers have ids and addresses, the default route
    belongs to the exit node alone, and an address inside the overlay is the
    peer's own, or one behind the hub. *)
Record regular (nm : NetMap) (overlay : prefix) : Prop := {
  r_ids : ∀ p, p ∈ mPeers nm → pViaHub p = false → pID p ≠ "" ∧ pAllowedIPs p ≠ [];
  r_own : ∀ p x, p ∈ mPeers nm → pViaHub p = false → x ∈ omap ParsePrefix (pAllowedIPs p) → IsExitRoute x = false ∧ own_text p x = own_address (Overlays nm overlay) x;
  r_hub : ∀ x, x ∈ omap ParsePrefix (hAllowedIPs (mHub nm)) → own_address (Overlays nm overlay) x = true;
}.

Section Routes.
Context (ParseKey : string → option (list byte)) (LookupNetIP : string → string → option (list addr)).
Context (nm : NetMap) (overlay : prefix) (Hreg : regular nm overlay).

Notation theirs := (filter (λ a, own_address (Overlays nm overlay) a = false)).

(** What a peer is configured with: its prefixes, and the default routes for
    the exit node. *)
Definition defaults (id : string) (p : Peer) : list prefix :=
  if carries id p then ExitRoute :: (if bool_decide (is_Some (selfIPv6 nm)) && bool_decide (pIPv6 p ≠ "") then [ExitRoute6] else []) else [].

Lemma peer_allowed id p c : p ∈ mPeers nm → pViaHub p = false → peer_config ParseKey (bool_decide (is_Some (selfIPv6 nm))) id p = Ok c →
  wAllowedIPs c = omap ParsePrefix (pAllowedIPs p) ++ defaults id p.
Proof.
  intros Hp Hv H. destruct (r_ids _ _ Hreg p Hp Hv) as [Hid Hne].
  unfold peer_config in H. destruct (ParseKey _) as [k|]; [|done]. cbn in H. destruct (parsePrefixes _) as [l|] eqn:El; [|done]. cbn in H.
  apply mapM_omap in El as El'. assert (l ≠ []) as Hl by (intros ->; unfold parsePrefixes in El; apply mapM_Some in El; inversion El; congruence).
  assert (match ParseAddr (pIPv4 p), l with Some ip, [] => [PrefixFrom ip 32] | _, _ => l end = l) as Hm by (destruct l; [done|by destruct (ParseAddr (pIPv4 p))]).
  rewrite Hm in H. injection H as <-. cbn [wAllowedIPs]. rewrite El'. unfold defaults, carries, is_exit. rewrite Hv. cbn [negb andb].
  assert (bool_decide (id ≠ "") && pExitNode p && bool_decide (pID p = id) = pExitNode p && bool_decide (pID p = id)) as ->.
  { destruct (bool_decide_reflect (pID p = id)) as [<-|]; [by rewrite bool_decide_true|by rewrite !andb_false_r]. }
  destruct (pExitNode p && _); [done|by rewrite app_nil_r].
Qed.

Lemma exit_not_own x : IsExitRoute x = true → own_address (Overlays nm overlay) x = false.
Proof. unfold IsExitRoute, own_address. intros [->%bool_decide_eq_true| ->%bool_decide_eq_true]%orb_true_iff; done. Qed.

Lemma theirs_defaults id p : theirs (defaults id p) = defaults id p.
Proof.
  unfold defaults. destruct (carries id p); [|done]. rewrite filter_cons_True by by apply exit_not_own. f_equal.
  destruct (_ && _); [|done]. rewrite filter_cons_True by by apply exit_not_own. done.
Qed.

Lemma theirs_allowed p : p ∈ mPeers nm → pViaHub p = false →
  theirs (omap ParsePrefix (pAllowedIPs p)) = filter (λ x, own_text p x = false) (omap ParsePrefix (pAllowedIPs p)).
Proof. intros Hp Hv. apply filter_ext_in. intros x Hx. by destruct (r_own _ _ Hreg p x Hp Hv Hx) as [_ ->]. Qed.

Lemma peer_route id p c : p ∈ mPeers nm → pViaHub p = false → peer_config ParseKey (bool_decide (is_Some (selfIPv6 nm))) id p = Ok c →
  rsPrefix <$> peer_routes nm id p = prefix_string <$> theirs (wAllowedIPs c).
Proof.
  intros Hp Hv H. rewrite (peer_allowed id p c Hp Hv H), filter_app, theirs_defaults, theirs_allowed, fmap_app by done.
  unfold peer_routes, defaults. rewrite Hv, fmap_app, <- list_fmap_compose. unfold compose. cbn [rsPrefix]. f_equal.
  destruct (carries id p); [|done]. cbn [fmap list_fmap rsPrefix]. f_equal. by destruct (_ && _).
Qed.

Lemma peer_exit id p c : p ∈ mPeers nm → pViaHub p = false → peer_config ParseKey (bool_decide (is_Some (selfIPv6 nm))) id p = Ok c →
  ExitRoute ∈ theirs (wAllowedIPs c) ↔ carries id p = true.
Proof.
  intros Hp Hv H. rewrite (peer_allowed id p c Hp Hv H), filter_app, theirs_defaults, elem_of_app, list_elem_of_filter. split.
  - intros [[_ Hx]|Hx]; [by destruct (r_own _ _ Hreg p _ Hp Hv Hx)|]. unfold defaults in Hx. destruct (carries id p); [done|by apply elem_of_nil in Hx].
  - intros Hc. right. unfold defaults. rewrite Hc. by left.
Qed.

Lemma peers_routes id l cs : (∀ p, p ∈ l → p ∈ mPeers nm) → peer_configs ParseKey (bool_decide (is_Some (selfIPv6 nm))) id l = Ok cs →
  let a := theirs (concat (wAllowedIPs <$> cs)) in
  rsPrefix <$> concat (peer_routes nm id <$> l) = prefix_string <$> a ∧ (ExitRoute ∈ a ↔ existsb (carries id) l = true).
Proof.
  intros Hin. revert cs. induction l as [|p l IH]; intros cs; [intros [= <-]; split; [done|]; cbn; by rewrite elem_of_nil|].
  cbn [peer_configs fmap list_fmap concat existsb].
  assert (∀ q, q ∈ l → q ∈ mPeers nm) as Hl by (intros q ?; apply Hin; by right). rewrite fmap_app. destruct (pViaHub p) eqn:Eh.
  - intros H. assert (carries id p = false) as -> by (unfold carries; by rewrite Eh). unfold peer_routes at 1. rewrite Eh. by apply IH.
  - destruct (peer_config ParseKey _ id p) as [c|] eqn:Ec; [|done]. cbn. destruct (peer_configs ParseKey _ id l) as [ds|] eqn:Ed; [|done]. intros [= <-].
    destruct (IH Hl ds eq_refl) as [IH1 IH2]. assert (p ∈ mPeers nm) as Hp by (apply Hin; by left).
    cbn [fmap list_fmap concat]. rewrite filter_app, fmap_app, elem_of_app, orb_true_iff, IH2. split; [f_equal; [by eapply peer_route|exact IH1]|]. by rewrite (peer_exit id p c Hp Eh Ec).
Qed.

(** What is shown as routed is what the device was given to route. *)
Lemma routes_shown key port id cfg : BuildConfigWith ParseKey LookupNetIP nm key port overlay id = Ok cfg →
  rsPrefix <$> concat (peer_routes nm id <$> mPeers nm) = prefix_string <$> RoutesOf cfg (Overlays nm overlay) ∧
  (ExitRoute ∈ RoutesOf cfg (Overlays nm overlay) ↔ existsb (carries id) (mPeers nm) = true).
Proof.
  unfold BuildConfigWith. intros H. destruct (ParseAddr (mSelfIPv4 nm)); [|done]. cbn [of_option mbind result_bind] in H.
  destruct (if bool_decide (hPublicKey (mHub nm) ≠ "") then _ else _) as [hub|] eqn:Eh; [|done]. cbn in H.
  destruct (peer_configs ParseKey _ id (mPeers nm)) as [cs|] eqn:Ec; [|done]. injection H as <-. unfold RoutesOf. cbn [cPeers].
  rewrite fmap_app, concat_app, filter_app.
  assert (theirs (concat (wAllowedIPs <$> hub)) = []) as ->; [|by apply peers_routes].
  destruct (bool_decide _); [|by injection Eh as <-]. unfold hub_config in Eh. destruct (ParseKey _) as [k|]; [|done]. cbn in Eh.
  destruct (parsePrefixes (hAllowedIPs (mHub nm))) as [l|] eqn:El; [|done]. injection Eh as <-. cbn [fmap list_fmap wAllowedIPs concat]. rewrite app_nil_r.
  apply mapM_omap in El. assert (∀ x, x ∈ l → own_address (Overlays nm overlay) x = true) as Hl by (intros x Hx; apply Hreg; by rewrite El).
  clear El. induction l as [|x l IH]; [done|]. rewrite filter_cons_False; [apply IH; intros y ?; apply Hl; by right|]. rewrite Hl by left. done.
Qed.
End Routes.

(** ** What an application leaves to show *)

(** The routes in force are those of the configuration built from the map in
    use, unless the device took none. *)
Lemma applyLocked_routes Verify ParseKey LookupNetIP a offered cache d d' :
  applyLocked Verify ParseKey LookupNetIP a offered cache d = (d', None) →
  ∃ cfg nm, dNetmap d' = Some nm ∧
    BuildConfigWith ParseKey LookupNetIP nm (dKey d') (stListenPort (dState d')) (dOverlay d') (stExitNodeID (dState d')) = Ok cfg ∧
    dRoutes d' = installRoutes a cfg (Overlays nm (dOverlay d')) (dRoutes d).
Proof.
  unfold applyLocked. destruct (adoptSelfName offered (dState d)) as [st1 rn]. destruct (followExitNode (mPeers offered) st1) as [st2 em].
  destruct (adoptSelfIPv6 offered st2) as [st v6].
  set (d1 := if bool_decide (mAdvertised offered ≠ []) then with_advertised (mAdvertised offered) (with_state st d) else with_state st d).
  assert (dRoutes d1 = dRoutes d) as <- by (unfold d1; by case_bool_decide).
  destruct (screen _ _ _ _ _ _ _) as [[p [[out held]|]] rej]; [|done]. unfold configure. cbn [with_offer with_pins dKey dState dOverlay].
  destruct (BuildConfigWith _ _ _ _ _ _ _) as [cfg|e] eqn:Eb; [|done]. destruct (negb (aConfigured a)); [done|].
  intros [= <-]. by exists cfg, out.
Qed.

Lemma held_hub_last (l : list HeldStatus) h : h ∈ l → hName h = HubName →
  ∃ h', h' ∈ l ∧ hName h' = HubName ∧ last (filter (λ h, hName h = HubName) l) = Some h'.
Proof.
  intros Hh Hn. destruct (last (filter (λ h, hName h = HubName) l)) as [h'|] eqn:E.
  - exists h'. apply last_Some_elem_of, list_elem_of_filter in E as E'. by destruct E'.
  - apply last_None in E. assert (h ∈ filter (λ h, hName h = HubName) l) as H by by apply list_elem_of_filter. rewrite E in H. by apply elem_of_nil in H.
Qed.

Lemma peer_shown KeyString v p :
  let ps := peer_status KeyString v p in
  peName ps = pName p ∧ pePublicKey ps = pPublicKey p ∧ (pePath ps = PathHub ↔ pViaHub p = true) ∧ (pePath ps = PathOffline → pOnline p = false) ∧
  ∀ pp, pViaHub p = false → paths (vProber v) !! pID p = Some pp → ppState pp ≠ PathMachine.Idle → ppState pp ≠ PathMachine.Unreachable →
    pePath ps = PathState (ppState pp).
Proof.
  unfold peer_status. destruct (path_shown v p) as [[path ep] n] eqn:Ep. cbn [with_path peName pePublicKey pePath].
  split; [by unfold fill; destruct (stats_of _ _ _)|]. split; [by unfold fill; destruct (stats_of _ _ _)|]. unfold path_shown in Ep.
  destruct (pViaHub p); [by injection Ep as <- <- <-|]. unfold pathOf in Ep.
  split; [|split].
  - destruct (paths (vProber v) !! pID p); cbn in Ep; (destruct (_ && _) in Ep; injection Ep as <- <- <-; done).
  - intros ->. destruct (pOnline p); [|done]. cbn [negb andb] in Ep. destruct (paths (vProber v) !! pID p); by injection Ep.
  - intros pp _ Hpp Hi Hu. rewrite Hpp in Ep. cbn in Ep. rewrite !bool_decide_false in Ep by done. rewrite andb_false_r in Ep. by injection Ep as <- <- <-.
Qed.

(** ** Status tells the truth *)

(** C36: right after a device took a map and its routes were accepted, with
    what servers send ([regular]) and an exit node that has a name when it has
    an id, its status tells the truth.  The routes shown are those the operating
    system was given, in their order; the exit node is active exactly when the
    default route is among them, and off exactly when none is selected.  The NAT
    verdict is the one of the addresses STUN saw.  The drops shown are those
    since the newest sample as old as the window, of all samples ever taken.
    Every peer of the map in use is shown, with the path it really uses whatever
    the server says of its presence.  Every entry held back is listed, and shown
    as a peer with the key that was offered and the reason; the hub's stands in
    the place of the hub when the map in use has none. *)
Theorem status_truthful (Verify : PublicKey → list byte → Signature → bool) (ParseKey : string → option (list byte)) (KeyString : list byte → string)
    (LookupNetIP : string → string → option (list addr)) (PublicKeyOf : list byte → list byte) (PublicOf : PrivateKey → PublicKey)
    (v : View) (a : Answers) (offered nm : NetMap) (cache : bool) (before : Daemon) (span : Z) (hist : list dropSample) :
  let d := loDaemon (vLocker v) in
  applyLocked Verify ParseKey LookupNetIP a offered cache before = (d, None) → aRoutable a && aRoutesSet a = true →
  dNetmap d = Some nm → regular nm (dOverlay d) → (stExitNode (dState d) = "" ↔ stExitNodeID (dState d) = "") →
  0 <= span → in_order hist → Forall (λ s, dsAt s <= vNow v) hist → vDrops v = window span hist →
  let sd := Status Verify ParseKey KeyString PublicKeyOf PublicOf v in
  (∃ routes, dRoutes d = Some routes ∧ rsPrefix <$> sdRoutes sd = prefix_string <$> routes ∧
     ((sdExitNode sd).2 = ExitStateActive ↔ ExitRoute ∈ routes)) ∧
  ((sdExitNode sd).2 = ExitStateOff ↔ stExitNode (dState d) = "") ∧
  naType (sdNAT sd) = (if selfSymmetric (vProber v) then NATSymmetric else verdict (selfAddrs (vProber v)) (mapped (selfEndpoints (vProber v)))) ∧
  (∀ fs, sdFilter sd = Some fs → fsDropped5m fs = since span (vNow v) (fsDrops fs) hist) ∧
  (∀ p, p ∈ mPeers nm → ∃ ps, ps ∈ sdPeers sd ∧ peName ps = pName p ∧ pePublicKey ps = pPublicKey p ∧ (pePath ps = PathHub ↔ pViaHub p = true) ∧
     (pePath ps = PathOffline → pOnline p = false) ∧
     ∀ pp, pViaHub p = false → paths (vProber v) !! pID p = Some pp → ppState pp ≠ PathMachine.Idle → ppState pp ≠ PathMachine.Unreachable →
       pePath ps = PathState (ppState pp)) ∧
  sdHeld sd = dHeld d ∧
  (∀ h, h ∈ dHeld d →
     (hName h ≠ HubName → ∃ ps, ps ∈ sdPeers sd ∧ peName ps = hName h ∧ pePublicKey ps = hOfferedKey h ∧
        pePath ps = match hReason h with HeldUnsigned => PathUnsigned | HeldKeyChanged => PathKeyChanged end) ∧
     (hName h = HubName → hPublicKey (mHub nm) = "" → ∃ h', h' ∈ dHeld d ∧ hName h' = HubName ∧ sdHub sd = Some (held_status h'))).
Proof.
  intros d Happ Hset Hnm Hreg Hexit Hspan Hord Hnow Hw sd.
  apply applyLocked_routes in Happ as (cfg & nm' & Hnm' & Hcfg & Hroutes). rewrite Hnm in Hnm'. injection Hnm' as <-.
  unfold installRoutes in Hroutes. rewrite Hset in Hroutes.
  destruct (routes_shown ParseKey LookupNetIP nm (dOverlay d) Hreg _ _ _ _ Hcfg) as [Hr He].
  assert (sdRoutes sd = concat (peer_routes nm (stExitNodeID (dState d)) <$> mPeers nm)) as -> by (unfold sd, Status; fold d; by rewrite Hnm).
  assert (sdPeers sd = (held_status <$> filter (λ h, hName h ≠ HubName) (dHeld d)) ++ (peer_status KeyString v <$> mPeers nm)) as ->
    by (unfold sd, Status; fold d; by rewrite Hnm).
  assert ((sdExitNode sd).2 = if existsb (carries (stExitNodeID (dState d))) (mPeers nm) then ExitStateActive
            else if bool_decide (stExitNode (dState d) = "") then ExitStateOff else ExitStateUnavailable) as ->
    by (unfold sd, Status; fold d; by rewrite Hnm).
  split. { eexists. split; [exact Hroutes|]. split; [exact Hr|]. rewrite He. destruct (existsb _ _); [done|]. by case_bool_decide. }
  split.
  { destruct (existsb _ _) eqn:Ee; [|by case_bool_decide]. split; [done|]. intros Hoff%Hexit. apply existsb_exists in Ee as (p & Hp & Hc).
    unfold carries in Hc. rewrite Hoff in Hc. apply andb_true_iff in Hc as [[Hv _]%andb_true_iff Hid%bool_decide_eq_true].
    destruct (r_ids _ _ Hreg p); [by apply list_elem_of_In|by apply negb_true_iff|done]. }
  split; [apply natStatus_verdict|]. split.
  { intros fs Hfs. unfold sd, Status in Hfs. cbn [sdFilter] in Hfs. destruct (vDevice v) as [dv|]; [|done]. cbn in Hfs.
    destruct (dvFilter dv) as [[[rules drops] flows]|]; [|done]. injection Hfs as <-. cbn [fsDropped5m fsDrops]. rewrite Hw. by apply Delta_since. }
  split; [|split; [done|]].
  - intros p Hp. exists (peer_status KeyString v p). split; [apply elem_of_app; right; by apply list_elem_of_fmap_2|]. apply peer_shown.
  - intros h Hh. split.
    + intros Hn. exists (held_status h). split; [apply elem_of_app; left; apply list_elem_of_fmap_2, list_elem_of_filter; done|]. done.
    + intros Hn Hno. destruct (held_hub_last _ h Hh Hn) as (h' & ? & ? & Hl). exists h'. split; [done|]. split; [done|].
      unfold sd, Status. fold d. cbn [sdHub]. rewrite Hnm, Hl. cbn. unfold hub_status. by rewrite Hno.
Qed.

Definition demo_router : Peer :=
  {| pID := "p1"; pName := "router"; pKind := "agent"; pOwner := "ann"; pPublicKey := "k1"; pIPv4 := "100.64.0.2"; pIPv6 := ""; pOnline := false;
     pEndpoints := []; pSymmetric := false; pKeepalive := false; pAllowedIPs := ["100.64.0.2/32"; "10.0.0.0/8"]; pViaHub := false; pSignatures := [];
     pExitNode := true; pWanted := false; pWantSeq := 0 |}.
Definition demo_net : NetMap :=
  {| mGeneration := 3; mSelfID := "p2"; mSelfName := "phone"; mSelfKind := "agent"; mSelfIPv4 := "100.64.0.3"; mOverlay := "100.64.0.0/10"; mSelfIPv6 := "";
     mOverlay6 := ""; mPeers := [demo_router];
     mHub := {| hPublicKey := "h"; hEndpoint := "192.0.2.1:51820"; hAllowedIPs := ["100.64.0.1/32"]; hSignatures := [] |};
     mReceivedAt := 7; mServerVersion := "1.0"; mSTUN := []; mFilter := []; mSelfSignatures := []; mLock := None; mForward := []; mAdvertised := [] |}.
Definition demo_state : State :=
  {| stServer := "vpn.example.com"; stFingerprint := ""; stPeerID := "p2"; stName := "phone"; stIPv4 := "100.64.0.3"; stOverlayCIDR := "100.64.0.0/10";
     stIPv6 := ""; stOverlayIPv6 := ""; stNodeSecret := ""; stHubPublicKey := "h"; stHubEndpoint := ""; stEnrolledAt := 1; stListenPort := 51820;
     stLockSigner := ""; stAdvertiseRoutes := []; stExitNode := "router"; stExitNodeID := "p1" |}.
Definition demo_overlay : prefix := Prefix (Addr4 0x64400000) 10.
(** The laptop comes back with another key. *)
Definition demo_laptop : Peer :=
  {| pID := "p9"; pName := "laptop"; pKind := "agent"; pOwner := "bob"; pPublicKey := "new"; pIPv4 := "100.64.0.9"; pIPv6 := ""; pOnline := true;
     pEndpoints := []; pSymmetric := false; pKeepalive := false; pAllowedIPs := ["100.64.0.9/32"]; pViaHub := false; pSignatures := [];
     pExitNode := false; pWanted := false; pWantSeq := 0 |}.
Definition demo_held : HeldStatus :=
  {| hName := "laptop"; hIPv4 := "100.64.0.9"; hKind := "agent"; hOwner := "bob"; hPinnedKey := "old"; hOfferedKey := "new"; hSince := 5;
     hReason := HeldKeyChanged; hid := "p9" |}.
Definition demo_before : Daemon :=
  {| dState := demo_state; dOverlay := demo_overlay; dSelfIP := Addr4 0x64400003; dKey := [];
     dPins := {| Pins.hub := ""; Pins.peers := {[ "laptop" := {| eID := "p9"; eKey := "old" |} ]}; Pins.lock := None; dirty := false; file := None |};
     dHeld := []; dOffered := None; dNetmap := None; dRejected := None; dAdvertise := []; dAdvertised := []; dConfig := None;
     dRoutes := None; dFilter := None; dCache := None |}.
Definition demo_answers : Answers :=
  {| aNow := 5; aOrder := λ m, map_to_list m; aPinsWritten := true; aConfigured := true; aName := "thawr0"; aFilterable := true; aFilterSet := true;
     aRoutable := true; aRoutesSet := true; aCached := true |}.
Definition demo_taken : Daemon * option apply_error :=
  applyLocked (λ _ _ _, true) (λ _, Some []) (λ _ _, None) demo_answers (with_peers [demo_router; demo_laptop] demo_net) true demo_before.
Definition demo_device : Daemon := demo_taken.1.
Definition demo_hist : list dropSample := [{| dsAt := 0; dsTotal := 4 |}; {| dsAt := 10 * second; dsTotal := 9 |}; {| dsAt := 400 * second; dsTotal := 30 |}].
Definition demo_view : View :=
  {| vNow := 500 * second; vVersion := "1.0"; vInterface := "thawr0"; vLocker := {| loDaemon := demo_device; loKey := replicate 32 Byte.x00; loConnected := true; loFile := None |};
     vLink := SyncLoop.link (SyncLoop.start 0 ""); vProber := no_paths; vRelay := (false, 0%nat); vDNS := None;
     vDevice := Some {| dvBackend := "userspace"; dvName := "thawr0"; dvFilter := Some (1, 35, 0); dvStats := Some [] |}; vDrops := window (300 * second) demo_hist |}.
Definition demo_doc : StatusDoc := Status (λ _ _ _, true) (λ _, Some []) (λ _, "") (λ k, k) (λ k, k) demo_view.

Lemma demo_regular : regular demo_net demo_overlay.
Proof.
  split.
  - by intros p ->%list_elem_of_singleton _.
  - intros p x ->%list_elem_of_singleton _.
    assert (omap ParsePrefix (pAllowedIPs demo_router) = [Prefix (Addr4 0x64400002) 32; Prefix (Addr4 0x0a000000) 8]) as -> by (vm_compute; reflexivity).
    intros [->|[->|[]%elem_of_nil]%elem_of_cons]%elem_of_cons; by vm_compute.
  - assert (omap ParsePrefix (hAllowedIPs (mHub demo_net)) = [Prefix (Addr4 0x64400001) 32]) as -> by (vm_compute; reflexivity).
    intros x ->%list_elem_of_singleton. by vm_compute.
Qed.

Lemma status_truthful_witness :
  rsPrefix <$> sdRoutes demo_doc = ["10.0.0.0/8"; "0.0.0.0/0"] ∧ (sdExitNode demo_doc).2 = ExitStateActive ∧
  (∀ fs, sdFilter demo_doc = Some fs → fsDropped5m fs = since (300 * second) (500 * second) (fsDrops fs) demo_hist) ∧
  ∃ ps, ps ∈ sdPeers demo_doc ∧ peName ps = "laptop" ∧ pePublicKey ps = "new" ∧ pePath ps = PathKeyChanged.
Proof.
  destruct (status_truthful (λ _ _ _, true) (λ _, Some []) (λ _, "") (λ _ _, None) (λ k, k) (λ k, k) demo_view demo_answers
      (with_peers [demo_router; demo_laptop] demo_net) demo_net true demo_before (300 * second) demo_hist)
    as ((routes & Hd & Hr & He) & _ & _ & Hf & _ & _ & Hh).
  - vm_compute. reflexivity.
  - reflexivity.
  - vm_compute. reflexivity.
  - exact demo_regular.
  - split; intros H; vm_compute in H; discriminate.
  - by apply (bool_decide_unpack _).
  - repeat constructor; vm_compute; congruence.
  - repeat constructor; vm_compute; congruence.
  - reflexivity.
  - assert (routes = [Prefix (Addr4 0x0a000000) 8; ExitRoute]) as -> by (vm_compute in Hd; by injection Hd).
    split; [exact Hr|]. split; [apply He; by apply (bool_decide_unpack _)|]. split; [exact Hf|].
    assert (dHeld (loDaemon (vLocker demo_view)) = [demo_held]) as El by (vm_compute; reflexivity).
    rewrite El in Hh. exact (proj1 (Hh demo_held ltac:(by left)) ltac:(discriminate)).
Defined.
