(* ===== verification/Pinning.v ===== *)
(** How a device and its server come to trust each other: enrolment and the
    pinned certificate on the device ([internal/client/enroll.go], [tls.go]),
    the certificate the server has and shows ([internal/server/tlscert.go],
    [certs.go]).

    X.509, the handshake and ACME are parameters; a certificate is its DER
    bytes, a chain a list of them with the leaf first.  The answers of the
    network, drawn keys and what reached the disk are inputs. *)

From Stdlib Require Import Strings.Ascii.
From S2P Require Import Prelude GoStrings Sha256 NetIP LockRecord Config.
From S2P Require ClientMap Device Uapi Enroll Rpc.

Import ClientMap(SplitHostPort).

(** ** Fingerprints *)

Definition FingerprintPrefix : string := "sha256:".
Definition PinnedServerName : string := "thawr-pinned.invalid".

Definition Fingerprint (der : list byte) : string := FingerprintPrefix +:+ hex (sha256 der).

Definition ValidFingerprint (s : string) : bool :=
  match cut_prefix (chars FingerprintPrefix) (chars s) with
  | Some h => (length h =? 64)%nat && bool_decide (is_Some (Uapi.hex_decode h))
  | None => false
  end.

Definition lower (s : string) : string := of_chars (to_lower (chars s)).

(** [PinnedTLSConfig]: the fingerprint wanted; the handshake is left to [check]. *)
Definition PinnedTLSConfig (fingerprint : string) : option string := if ValidFingerprint fingerprint then Some (lower fingerprint) else None.
Definition check (want : string) (chain : list (list byte)) : bool := match chain with der :: _ => bool_decide (Fingerprint der = want) | [] => false end.

(** ** The server's certificate *)

Definition tlsFingerprint (chain : list (list byte)) : string := match chain with der :: _ => Fingerprint der | [] => "" end.

(** The files a certificate is in: PEM bytes by path. *)
Notation Files := (gmap string (list byte)).
Inductive tls_error := ErrLoadFiles | ErrLoadPair | ErrMkdir | ErrGenerate | ErrWriteKey | ErrWriteCert | ErrParseGenerated.

(** What the disk and the generator answer. *)
Record TLSAnswers := { taGenerated : option (list byte * list byte); taDir : bool; taWroteKey : bool; taWroteCert : bool; taReadable : string → bool }.

Section Server.
Context (Join : string → string → string) (X509KeyPair : list byte → list byte → option (list (list byte))).

(** [tls.LoadX509KeyPair]: the certificate is read, then the key; an error of a
    missing file is told apart. *)
Inductive pair := Loaded (chain : list (list byte)) | Missing | Broken.
Definition LoadX509KeyPair (readable : string → bool) (certFile keyFile : string) (fs : Files) : pair :=
  match fs !! certFile with
  | None => Missing
  | Some c =>
      if negb (readable certFile) then Broken
      else match fs !! keyFile with
           | None => Missing
           | Some k => if negb (readable keyFile) then Broken else match X509KeyPair c k with Some chain => Loaded chain | None => Broken end
           end
  end.

Definition TLSDir (c : Config) : string := Join (DataDir c) "tls".
Definition certPath (c : Config) : string := Join (TLSDir c) "cert.pem".
Definition keyPath (c : Config) : string := Join (TLSDir c) "key.pem".

Definition loadTLS (a : TLSAnswers) (c : Config) (fs : Files) : Files * result tls_error (list (list byte) * bool) :=
  if bool_decide (Mode (tls c) = TLSModeFile) then
    match LoadX509KeyPair (taReadable a) (CertFile (tls c)) (KeyFile (tls c)) fs with Loaded chain => (fs, Ok (chain, false)) | _ => (fs, Err ErrLoadFiles) end
  else
    match LoadX509KeyPair (taReadable a) (certPath c) (keyPath c) fs with
    | Loaded chain => (fs, Ok (chain, false))
    | Broken => (fs, Err ErrLoadPair)
    | Missing =>
        if negb (taDir a) then (fs, Err ErrMkdir)
        else
          match taGenerated a with
          | None => (fs, Err ErrGenerate)
          | Some (cert, key) =>
              if negb (taWroteKey a) then (fs, Err ErrWriteKey)
              else
                let fs := <[keyPath c := key]> fs in
                if negb (taWroteCert a) then (fs, Err ErrWriteCert)
                else
                  let fs := <[certPath c := cert]> fs in
                  match X509KeyPair cert key with Some chain => (fs, Ok (chain, true)) | None => (fs, Err ErrParseGenerated) end
          end
    end.

(** [certSelector]; [acme] says whether there is a manager. *)
Record certSelector := { pinned : list (list byte); domain : string; acme : bool }.
Definition newCertSelector (c : Config) (chain : list (list byte)) : certSelector :=
  if bool_decide (Mode (tls c) = TLSModeACME) then {| pinned := chain; domain := lower (ACMEDomain c); acme := true |}
  else {| pinned := chain; domain := ""; acme := false |}.

(** [strings.EqualFold] against a name of the characters [dnsNameRe] lets
    through: the code points that fold to one of them are the ASCII letters in
    either case, U+017F and U+212A. *)
Fixpoint fold (l : bytes) : bytes :=
  match l with
  | [] => []
  | c :: l1 =>
      let here := if is_upper c then ascii_of_N (N_of_ascii c + 32) else c in
      match l1 with
      | d :: l2 =>
          if decide (code c = 197 ∧ code d = 191) then "s"%char :: fold l2
          else match l2 with
               | e :: l3 => if decide (code c = 226 ∧ code d = 132 ∧ code e = 170) then "k"%char :: fold l3 else here :: fold l1
               | [] => here :: fold l1
               end
      | [] => [here]
      end
  end.
Definition EqualFold (a b : bytes) : bool := bool_decide (fold a = fold b).

(** [GetCertificate]: the pinned certificate, or what the manager answers. *)
Inductive shown := ShowPinned (chain : list (list byte)) | ShowACME.
Definition GetCertificate (s : certSelector) (serverName : string) : shown :=
  if acme s && EqualFold (trim_suffix (chars ".") (chars serverName)) (chars (domain s)) then ShowACME else ShowPinned (pinned s).

Definition nextProtos (s : certSelector) : list string := ["h2"; "http/1.1"] ++ (if acme s then ["acme-tls/1"] else []).
End Server.

(** ** Enrolment on the device *)

Definition DefaultPort : string := "443".

Inductive enroll_error :=
  | NoToken | BadLockSigner | NoServer | BadURL | NotHTTPS | HasPath | NoHost | AlreadyEnrolled | BadState | ProbeFailed | Unconfirmed (observed : string)
  | BadFingerprint | Mismatch (observed : string) | NoKey | CallFailed | KeyNotSaved | StateNotSaved.

Record Options := {
  oServer : string; oToken : string; oFingerprint : string; oAcceptFingerprint : bool; oName : string; oLockSigner : string; oHostname : string;
  oVersion : string; oOS : string; oArch : string; oIPv6 : bool;
}.

(** What is found: the chain the probe saw,
    the key drawn with its public key's text, the host's name, the chain of the
    call and its answer, and what reached the disk. *)
Record World := {
  wProbe : option (list (list byte)); wKey : option (list byte * string); wHostname : string; wChain : list (list byte);
  wReply : option Rpc.EnrollResponse; wKeySaved : bool; wStateSaved : bool;
  wForgot : bool; wNow : Z;
}.

Section Client.
Context (ParseURL : string → option (string * string * string)).   (** scheme, host, path *)

Definition has_sub (sub l : bytes) : bool := existsb (λ i, bool_decide (take (length sub) (drop i l) = sub)) (seq 0 (S (length l))).

Definition ServerAddr (server : string) : result enroll_error string :=
  let s := of_chars (trim_space (chars server)) in
  if bool_decide (s = "") then Err NoServer
  else
    s ← (if has_sub (chars "://") (chars s) then
           match ParseURL s with
           | None => Err BadURL
           | Some (scheme, host, path) =>
               if bool_decide (host = "") then Err BadURL
               else if bool_decide (scheme ≠ "https") then Err NotHTTPS
               else if bool_decide (path ≠ "") && bool_decide (path ≠ "/") then Err HasPath
               else Ok host
           end
         else Ok s);
    let '(host, port) := match SplitHostPort s with Some hp => hp | None => (s, DefaultPort) end in
    if bool_decide (host = "") then Err NoHost else Ok (JoinHostPort host port).

Definition shortHostname (h : string) : string :=
  let l := trim_space (chars h) in
  let l := match cut "." l with Some (c :: a, _) => c :: a | _ => l end in
  of_chars (take 63 l).

(** The fingerprint to pin: given, or accepted as observed. *)
Definition to_pin (o : Options) (observed : string) : result enroll_error string :=
  let fp := lower (oFingerprint o) in
  if bool_decide (fp = "") then (if oAcceptFingerprint o then Ok observed else Err (Unconfirmed observed))
  else if negb (ValidFingerprint fp) then Err BadFingerprint
  else if bool_decide (fp ≠ observed) then Err (Mismatch observed)
  else Ok fp.

Definition request (o : Options) (w : World) (public : string) : Enroll.EnrollRequest :=
  {| Enroll.eToken := oToken o; Enroll.ePublicKey := public;
     Enroll.eHostname := shortHostname (if bool_decide (oHostname o = "") then wHostname w else oHostname o);
     Enroll.eOS := oOS o; Enroll.eArch := oArch o; Enroll.eClientVersion := if bool_decide (oVersion o = "") then "dev" else oVersion o;
     Enroll.eName := oName o; Enroll.eRemoteIP := ""; Enroll.eIPv6 := oIPv6 o |}.

Definition new_state (o : Options) (addr fp : string) (now : Z) (r : Rpc.EnrollResponse) : Device.State :=
  {| Device.stServer := addr; Device.stFingerprint := fp; Device.stPeerID := Rpc.erPeerID r; Device.stName := Rpc.erName r; Device.stIPv4 := Rpc.erIPv4 r;
     Device.stOverlayCIDR := Rpc.erOverlay r; Device.stIPv6 := Rpc.erIPv6 r; Device.stOverlayIPv6 := Rpc.erOverlay6 r;
     Device.stNodeSecret := Rpc.erNodeSecret r; Device.stHubPublicKey := Rpc.erHubPublicKey r; Device.stHubEndpoint := Rpc.erHubEndpoint r;
     Device.stEnrolledAt := now; Device.stListenPort := 0; Device.stLockSigner := of_chars (trim_space (chars (oLockSigner o)));
     Device.stAdvertiseRoutes := []; Device.stExitNode := ""; Device.stExitNodeID := "" |}.

(** The state directory; [Some None] is a file that is no complete state. *)
Record Disk := { dkKey : option (list byte); dkState : option (option Device.State) }.

(** The request sent, if one was; what is on the disk; the result. *)
Definition Enroll (o : Options) (w : World) (d : Disk) : option Enroll.EnrollRequest * Disk * result enroll_error Device.State :=
  let stop e := (None, d, Err e) in
  if bool_decide (oToken o = "") then stop NoToken
  else
    let ls := of_chars (trim_space (chars (oLockSigner o))) in
    if bool_decide (ls ≠ "") && bool_decide (ParsePublicKey ls = None) then stop BadLockSigner
    else
      match ServerAddr (oServer o) with
      | Err e => stop e
      | Ok addr =>
          match dkState d with
          | Some (Some _) => stop AlreadyEnrolled
          | Some None => stop BadState
          | None =>
              match wProbe w with
              | None | Some [] => stop ProbeFailed
              | Some (der :: _) =>
                  match to_pin o (Fingerprint der) with
                  | Err e => stop e
                  | Ok fp =>
                      match PinnedTLSConfig fp, wKey w with
                      | None, _ => stop BadFingerprint
                      | Some _, None => stop NoKey
                      | Some want, Some (key, public) =>
                          if negb (check want (wChain w)) then stop CallFailed
                          else
                            let req := Some (request o w public) in
                            match wReply w with
                            | None => (req, d, Err CallFailed)
                            | Some r =>
                                let st := new_state o addr fp (wNow w) r in
                                if negb (wKeySaved w) then (req, d, Err KeyNotSaved)
                                else if negb (wStateSaved w) then (req, {| dkKey := if wForgot w then None else Some key; dkState := None |}, Err StateNotSaved)
                                else (req, {| dkKey := Some key; dkState := Some (Some st) |}, Ok st)
                            end
                      end
                  end
              end
          end
      end.
End Client.

(** ** Names that fold *)

Definition not_upper (c : ascii) : Prop := is_upper c = false.

Lemma lowered c : not_upper (if is_upper c then ascii_of_N (N_of_ascii c + 32) else c).
Proof. destruct c as [[] [] [] [] [] [] [] []]; reflexivity. Qed.

Lemma to_lower_not_upper l : Forall not_upper (to_lower l).
Proof.
  induction l as [l IH] using (induction_ltof1 _ length). unfold ltof in IH. destruct l as [|c l1]; [constructor|]. cbn [to_lower].
  pose proof (lowered c) as Hc. set (here := if is_upper c then _ else c) in *. clearbody here. destruct l1 as [|d l2]; [by constructor|].
  case_decide; [constructor; [done|apply IH; cbn; lia]|]. destruct l2 as [|e l3]; [constructor; [done|apply IH; cbn; lia]|].
  case_decide; constructor; try done; apply IH; cbn; lia.
Qed.

Lemma fold_plain l : Forall not_upper l → "s"%char ∉ fold l → "k"%char ∉ fold l → fold l = l.
Proof.
  induction l as [l IH] using (induction_ltof1 _ length). unfold ltof in IH. destruct l as [|c l1]; [done|].
  intros [Hc Hl]%Forall_cons. cbn [fold]. unfold not_upper in Hc. rewrite Hc. destruct l1 as [|d l2]; [done|].
  case_decide; [intros Hs _; exfalso; apply Hs; by left|].
  assert ("s"%char ∉ c :: fold (d :: l2) → "k"%char ∉ c :: fold (d :: l2) → c :: fold (d :: l2) = c :: d :: l2) as Hr.
  { intros Hs Hk. f_equal. apply IH; [cbn; lia|done|intros ?; apply Hs; by right|intros ?; apply Hk; by right]. }
  destruct l2 as [|e l3]; [exact Hr|]. case_decide; [intros _ Hk; exfalso; apply Hk; by left|exact Hr].
Qed.

Lemma to_lower_dot l : last (to_lower (l ++ ["."%char])) = Some "."%char.
Proof.
  induction l as [l IH] using (induction_ltof1 _ length). unfold ltof in IH. destruct l as [|c l1]; [done|].
  assert (∀ x k, last k = Some "."%char → last (x :: k) = Some "."%char) as Hk by (by intros x [|y k]).
  cbn [app to_lower]. destruct l1 as [|d l2]; cbn [app].
  - rewrite decide_False by (intros [_ Hx]; done). by apply Hk.
  - case_decide; [apply Hk, IH; cbn; lia|]. destruct l2 as [|e l3]; cbn [app].
    + rewrite decide_False by (intros (_ & _ & Hx); done). apply Hk, (IH [d]). cbn. lia.
    + case_decide; [apply Hk, IH; cbn; lia|]. apply Hk, (IH (d :: e :: l3)). cbn. lia.
Qed.

(** No domain that passes the checks is the name clients ask by. *)
Lemma pinned_name_apart d : has_suffix (chars ".invalid") (to_lower (trim_suffix (chars ".") d)) = false →
  EqualFold (trim_suffix (chars ".") (chars PinnedServerName)) (to_lower d) = false.
Proof.
  intros H. apply bool_decide_eq_false. intros E. change (fold (trim_suffix _ _)) with (chars PinnedServerName) in E.
  assert (to_lower d = chars PinnedServerName) as Hd.
  { rewrite E. symmetry. apply fold_plain; [apply to_lower_not_upper|rewrite <- E..]; by apply (bool_decide_unpack _); vm_compute. }
  unfold trim_suffix in H. destruct (cut_suffix (chars ".") d) as [k|] eqn:Ek; cbn [default] in H.
  - apply cut_suffix_Some in Ek as ->. pose proof (to_lower_dot k) as Hl. change (chars ".") with ["."%char] in Hd. rewrite Hd in Hl. done.
  - rewrite Hd in H. done.
Qed.

(** ** Fingerprints tell certificates apart by their digests *)

Lemma hex_inj a b : hex a = hex b → a = b.
Proof. intros H. pose proof (Uapi.hex_decode_hex a) as Ha. unfold Uapi.hex_chars in Ha. rewrite H in Ha. pose proof (Uapi.hex_decode_hex b) as Hb. unfold Uapi.hex_chars in Hb. congruence. Qed.

Lemma Fingerprint_inj a b : Fingerprint a = Fingerprint b → sha256 a = sha256 b.
Proof.
  unfold Fingerprint. intros H. apply hex_inj, chars_inj. assert (chars (FingerprintPrefix +:+ hex (sha256 a)) = chars (FingerprintPrefix +:+ hex (sha256 b))) as Hc by congruence.
  rewrite !chars_app in Hc. by apply app_inv_head in Hc.
Qed.

Lemma check_spec der0 chain : check (Fingerprint der0) chain = true ↔ ∃ der rest, chain = der :: rest ∧ sha256 der = sha256 der0.
Proof.
  unfold check. split.
  - destruct chain as [|der rest]; [done|]. intros H%bool_decide_eq_true%Fingerprint_inj. by exists der, rest.
  - intros (der & rest & -> & H). apply bool_decide_eq_true. unfold Fingerprint. by rewrite H.
Qed.

(** Fingerprints are in lower case. *)
Definition low (c : ascii) : Prop := is_upper c = false ∧ code c < 128.
Lemma to_lower_low l : Forall low l → to_lower l = l.
Proof.
  induction 1 as [|c l [Hu Hc] Hl IH]; [done|]. cbn [to_lower]. rewrite Hu. destruct l as [|d l]; [done|].
  rewrite decide_False by lia. destruct l as [|e l]; [by rewrite IH|]. rewrite decide_False by lia. by rewrite IH.
Qed.

Lemma hex_low l : Forall low (chars (hex l)).
Proof.
  unfold hex. rewrite chars_of_chars. induction l as [|b l IH]; [constructor|]. cbn [fmap list_fmap concat app].
  assert (∀ z, 0 <= z < 16 → low (hex_char z)) as Hz.
  { intros z Hz. assert (forallb (λ n, bool_decide (is_upper (hex_char (Z.of_nat n)) = false) && (code (hex_char (Z.of_nat n)) <? 128)) (seq 0 16) = true) as H by done.
    rewrite forallb_forall in H. specialize (H (Z.to_nat z)). rewrite Z2Nat.id in H by lia.
    apply andb_true_iff in H as [H1%bool_decide_eq_true H2%Z.ltb_lt]; [done|]. apply in_seq. lia. }
  pose proof (bz_range b). apply Forall_cons_2; [|apply Forall_cons_2; [|exact IH]]; apply Hz; [|apply Z.mod_pos_bound; lia].
  split; [apply Z.div_pos; lia|apply Z.div_lt_upper_bound; lia].
Qed.

Lemma lower_Fingerprint der : lower (Fingerprint der) = Fingerprint der.
Proof.
  unfold lower. rewrite to_lower_low; [apply of_chars_chars|]. unfold Fingerprint. rewrite chars_app. apply Forall_app. split; [|apply hex_low].
  by repeat constructor.
Qed.

(** ** The device *)

(** What [to_pin] lets through is what was observed. *)
Lemma to_pin_ok o der fp : to_pin o (Fingerprint der) = Ok fp → fp = Fingerprint der ∧ (lower (oFingerprint o) = fp ∨ lower (oFingerprint o) = "" ∧ oAcceptFingerprint o = true).
Proof.
  unfold to_pin. case_bool_decide as He; [destruct (oAcceptFingerprint o); [|done]; intros [= <-]; split; [done|by right]|].
  destruct (ValidFingerprint _); [|done]. cbn [negb]. case_bool_decide as Hn; [done|]. intros [= <-]. split; [done|by left].
Qed.

Section Enrol.
Context (ParseURL : string → option (string * string * string)).

Lemma shortHostname_length h : (String.length (shortHostname h) <= 63)%nat.
Proof. unfold shortHostname. rewrite <- length_chars, chars_of_chars, length_take. lia. Qed.

(** What an enrolment did, if it sent its request. *)
Record enrolled (o : Options) (w : World) (d d' : Disk) (r : result enroll_error Device.State) (q : Enroll.EnrollRequest) (der0 : list byte) (want : string) : Prop := {
  en_fresh : dkState d = None;
  en_seen : head <$> wProbe w = Some (Some der0);
  en_fp : PinnedTLSConfig (Fingerprint der0) = Some want;
  en_chosen : lower (oFingerprint o) = Fingerprint der0 ∨ lower (oFingerprint o) = "" ∧ oAcceptFingerprint o = true;
  en_shown : check want (wChain w) = true;
  en_host : (String.length (Enroll.eHostname q) <= 63)%nat;
  en_token : Enroll.eToken q = oToken o;
  en_done : ∀ st, r = Ok st → Device.stFingerprint st = Fingerprint der0 ∧ dkState d' = Some (Some st) ∧ is_Some (dkKey d');
}.

Lemma Enroll_spec o w d req d' r : Enroll ParseURL o w d = (req, d', r) →
  (∀ e, r = Err e → dkState d' = dkState d) ∧
  match req with
  | Some q => ∃ der0 want, enrolled o w d d' r q der0 want
  | None => d' = d ∧ ∃ e, r = Err e
  end.
Proof.
  unfold Enroll. assert (∀ e, (None, d, Err e) = (req, d', r) →
    (∀ e', r = Err e' → dkState d' = dkState d) ∧ match req with Some q => ∃ der0 want, enrolled o w d d' r q der0 want | None => d' = d ∧ ∃ e, r = Err e end) as Hstop.
  { intros e [= <- <- <-]. split; [done|]. split; [done|by eexists]. }
  case_bool_decide; [apply Hstop|]. destruct (_ && _); [apply Hstop|]. destruct (ServerAddr _ _) as [addr|]; [|apply Hstop].
  destruct (dkState d) as [[]|] eqn:Hd; [apply Hstop..|]. destruct (wProbe w) as [[|der rest]|] eqn:Hp; [apply Hstop| |apply Hstop].
  destruct (to_pin o (Fingerprint der)) as [fp|] eqn:Ht; [|apply Hstop]. apply to_pin_ok in Ht as [-> Ht].
  destruct (PinnedTLSConfig (Fingerprint der)) as [want|] eqn:Ew; [|apply Hstop]. destruct (wKey w) as [[key public]|]; [|apply Hstop].
  destruct (check want (wChain w)) eqn:Ec; [|apply Hstop]. cbn [negb]. clear Hstop.
  assert (∀ d' r, (∀ st, r = Ok st → Device.stFingerprint st = Fingerprint der ∧ dkState d' = Some (Some st) ∧ is_Some (dkKey d')) →
    enrolled o w d d' r (request o w public) der want) as Hen.
  { intros d1 r1 H1. split; try done; [by rewrite Hp|apply shortHostname_length]. }
  destruct (wReply w) as [rep|]; [|intros [= <- <- <-]; split; [done|]; exists der, want; by apply Hen].
  destruct (wKeySaved w); cbn [negb]; [|intros [= <- <- <-]; split; [done|]; exists der, want; by apply Hen].
  destruct (wStateSaved w); cbn [negb]; intros [= <- <- <-]; (split; [done|]); exists der, want; apply Hen; [|done].
  intros st [= <-]. split; [done|]. split; [done|by eexists].
Qed.
End Enrol.

(** ** The server *)

Section Certificate.
Context (Join : string → string → string) (X509KeyPair : list byte → list byte → option (list (list byte))).

(** A pair that was read is read again, but for errors of reading. *)
Lemma pair_again r r' p q fs chain : LoadX509KeyPair X509KeyPair r p q fs = Loaded chain →
  LoadX509KeyPair X509KeyPair r' p q fs = Loaded chain ∨ (∃ f, r' f = false) ∧ LoadX509KeyPair X509KeyPair r' p q fs = Broken.
Proof.
  unfold LoadX509KeyPair. destruct (fs !! p) as [c|]; [|done]. destruct (r p); [|done]. cbn [negb]. destruct (fs !! q) as [k|]; [|done]. destruct (r q); [|done]. cbn [negb].
  intros E. destruct (r' p) eqn:Ep; [|right; eauto]. cbn [negb]. destruct (r' q) eqn:Eq; [|right; eauto]. by left.
Qed.

Lemma loadTLS_again a a' c fs fs' chain made : certPath Join c ≠ keyPath Join c →
  loadTLS Join X509KeyPair a c fs = (fs', Ok (chain, made)) →
  loadTLS Join X509KeyPair a' c fs' = (fs', Ok (chain, false)) ∨ (∃ f, taReadable a' f = false) ∧ ∃ e, loadTLS Join X509KeyPair a' c fs' = (fs', Err e).
Proof.
  intros Hne. unfold loadTLS. case_bool_decide.
  - destruct (LoadX509KeyPair _ _ _ _ _) eqn:E; [|done..]. intros [= <- <- <-]. destruct (pair_again _ (taReadable a') _ _ _ _ E) as [-> |[? ->]]; eauto.
  - destruct (LoadX509KeyPair X509KeyPair (taReadable a) (certPath Join c) (keyPath Join c) fs) eqn:E; [| |done].
    { intros [= <- <- <-]. destruct (pair_again _ (taReadable a') _ _ _ _ E) as [-> |[? ->]]; eauto. }
    destruct (taDir a); [|done]. cbn [negb]. destruct (taGenerated a) as [[cert key]|]; [|done]. destruct (taWroteKey a); [|done]. cbn [negb].
    destruct (taWroteCert a); [|done]. cbn [negb]. destruct (X509KeyPair cert key) as [chain0|] eqn:Ex; [|done]. intros [= <- <- <-].
    assert (LoadX509KeyPair X509KeyPair (λ _, true) (certPath Join c) (keyPath Join c) (<[certPath Join c:=cert]> (<[keyPath Join c:=key]> fs)) = Loaded chain0) as E2.
    { unfold LoadX509KeyPair. rewrite lookup_insert_eq, lookup_insert_ne, lookup_insert_eq by done. by rewrite Ex. }
    destruct (pair_again _ (taReadable a') _ _ _ _ E2) as [-> |[? ->]]; eauto.
Qed.

(** A start that failed while the certificate was made hinders no later one. *)
Lemma loadTLS_retry a a' c fs fs' e cert key chain : certPath Join c ≠ keyPath Join c → Mode (tls c) ≠ TLSModeFile → fs !! certPath Join c = None →
  loadTLS Join X509KeyPair a c fs = (fs', Err e) → (∀ x y, taGenerated a = Some (x, y) → is_Some (X509KeyPair x y)) →
  taGenerated a' = Some (cert, key) → taDir a' = true → taWroteKey a' = true → taWroteCert a' = true → X509KeyPair cert key = Some chain →
  ∃ fs'', loadTLS Join X509KeyPair a' c fs' = (fs'', Ok (chain, true)).
Proof.
  intros Hne Hm Hn H Hgen Hg Hd Hk Hc Hx. unfold loadTLS in *. rewrite bool_decide_false in * by done.
  assert (∀ f : Files, f !! certPath Join c = None → LoadX509KeyPair X509KeyPair (taReadable a') (certPath Join c) (keyPath Join c) f = Missing ∧ LoadX509KeyPair X509KeyPair (taReadable a) (certPath Join c) (keyPath Join c) f = Missing) as Hmiss.
  { intros f Hf. unfold LoadX509KeyPair. by rewrite Hf. }
  assert (fs' !! certPath Join c = None) as Hf.
  { rewrite (proj2 (Hmiss _ Hn)) in H. destruct (taDir a); [|by injection H as <- _]. cbn [negb] in H. destruct (taGenerated a) as [[x y]|]; [|by injection H as <- _].
    destruct (Hgen x y eq_refl) as [ch Hch]. destruct (taWroteKey a); [|by injection H as <- _]. cbn [negb] in H.
    destruct (taWroteCert a); cbn [negb] in H; [by rewrite Hch in H|]. injection H as <- _. by rewrite lookup_insert_ne. }
  rewrite Hg, Hd, Hk, Hc, Hx, (proj1 (Hmiss _ Hf)). cbn [negb]. by eexists.
Qed.
End Certificate.

(** ** The two together *)

(** C34: devices reach the server they enrolled with and no other.  The server keeps
    the certificate it made: whatever a start found, the next one has the same,
    or stops where a file cannot be read, and changes neither.  With a configuration
    [Parse] accepts, ACME or not, a device, which asks by the name
    [PinnedServerName], is shown that certificate and never ACME's.  A device
    sends its token only over a connection whose certificate has the digest of
    the one the person named or accepted; an enrolment that ends well leaves a
    state that accepts exactly the certificates of that digest, and one that
    does not leaves the state as it was; and a device enrolled by this server's
    fingerprint accepts what this server shows it. *)
Theorem devices_trust_their_server (ParseAddress ParseURL : string → option (string * string)) (Decode : list byte → Config → option Config)
    (ParseServer : string → option (string * string * string)) (darwin : bool) (join : string → string → string) (data : list byte) (level : string)
    (X509KeyPair : list byte → list byte → option (list (list byte))) (a : TLSAnswers) (c : Config) (fs fs' : Files)
    (leaf : list byte) (rest : list (list byte)) (made : bool) :
  Parse ParseAddress ParseURL Decode darwin join data level = Ok c → certPath join c ≠ keyPath join c →
  loadTLS join X509KeyPair a c fs = (fs', Ok (leaf :: rest, made)) →
  let chain := leaf :: rest in
  (∀ a', loadTLS join X509KeyPair a' c fs' = (fs', Ok (chain, false)) ∨
     (∃ f, taReadable a' f = false) ∧ ∃ e, loadTLS join X509KeyPair a' c fs' = (fs', Err e)) ∧
  GetCertificate (newCertSelector c chain) PinnedServerName = ShowPinned chain ∧
  (∀ o w d req d' r, Enroll ParseServer o w d = (req, d', r) →
     (∀ e, r = Err e → dkState d' = dkState d) ∧
     (∀ q, req = Some q → dkState d = None ∧ ∃ der0 der k, head <$> wProbe w = Some (Some der0) ∧ wChain w = der :: k ∧ sha256 der = sha256 der0 ∧
        (lower (oFingerprint o) = Fingerprint der0 ∨ lower (oFingerprint o) = "" ∧ oAcceptFingerprint o = true)) ∧
     (∀ st, r = Ok st → dkState d' = Some (Some st) ∧ is_Some (dkKey d') ∧ ∃ der0 want, head <$> wProbe w = Some (Some der0) ∧
        PinnedTLSConfig (Device.stFingerprint st) = Some want ∧ (∀ l, check want l = true ↔ ∃ der k, l = der :: k ∧ sha256 der = sha256 der0) ∧
        (lower (oFingerprint o) = tlsFingerprint chain → check want chain = true))).
Proof.
  intros Hp Hne Hload chain. split; [intros a'; by eapply loadTLS_again|]. split.
  { unfold GetCertificate, newCertSelector. case_bool_decide as Hm; [|done]. cbn [acme domain pinned andb].
    assert (has_suffix (chars ".invalid") (to_lower (trim_suffix (chars ".") (chars (ACMEDomain c)))) = false) as Hd.
    { apply Parse_valid in Hp. by apply (acme_domain_valid ParseAddress ParseURL). }
    unfold lower. rewrite chars_of_chars. by rewrite pinned_name_apart. }
  intros o w d req d' r H. destruct (Enroll_spec ParseServer o w d req d' r H) as [He Hr]. split; [exact He|]. split.
  - intros q ->. destruct Hr as (der0 & want & [Hf Hs Hw Hch Hsh _ _ _]). split; [done|].
    unfold PinnedTLSConfig in Hw. destruct (ValidFingerprint _); [|done]. injection Hw as <-. rewrite lower_Fingerprint in Hsh.
    apply check_spec in Hsh as (der & k & E & Hd). by exists der0, der, k.
  - intros st ->. destruct req as [q|]; [|by destruct Hr as [_ [e ?]]]. destruct Hr as (der0 & want & [Hf Hs Hw Hch Hsh _ _ Hd]).
    destruct (Hd st eq_refl) as (Hfp & Hst & Hk). split; [done|]. split; [done|]. exists der0, want. rewrite Hfp. split; [done|]. split; [done|].
    unfold PinnedTLSConfig in Hw. destruct (ValidFingerprint _); [|done]. injection Hw as <-. rewrite lower_Fingerprint in *. split; [apply check_spec|].
    intros Ho. destruct Hch as [Hch|[Hch _]]; rewrite Ho in Hch; [|done]. apply check_spec. exists leaf, rest. split; [done|]. by apply Fingerprint_inj.
Qed.

Definition demo_leaf : list byte := string_bytes "certificate".
Definition demo_join (a b : string) : string := a +:+ "/" +:+ b.
Definition demo_answers : TLSAnswers := {| taGenerated := Some (demo_leaf, string_bytes "key"); taDir := true; taWroteKey := true; taWroteCert := true; taReadable := λ _, true |}.
Definition demo_options : Options :=
  {| oServer := " vpn.example.com "; oToken := "thawr_t"; oFingerprint := tlsFingerprint [demo_leaf]; oAcceptFingerprint := false; oName := ""; oLockSigner := "";
     oHostname := "laptop.local"; oVersion := "0.3"; oOS := "linux"; oArch := "amd64"; oIPv6 := false |}.
Definition demo_world : World :=
  {| wProbe := Some [demo_leaf]; wKey := Some (string_bytes "private", "public"); wHostname := ""; wChain := [demo_leaf];
     wReply := Some {| Rpc.erPeerID := "p1"; Rpc.erName := "laptop"; Rpc.erIPv4 := "100.64.0.2"; Rpc.erOverlay := "100.64.0.0/10"; Rpc.erNodeSecret := "s";
                       Rpc.erHubPublicKey := ""; Rpc.erHubEndpoint := ""; Rpc.erServerVersion := ""; Rpc.erGeneration := 1; Rpc.erIPv6 := ""; Rpc.erOverlay6 := "" |};
     wKeySaved := true; wStateSaved := true; wForgot := false; wNow := 9 |}.
Definition demo_disk : Disk := {| dkKey := None; dkState := None |}.

Example demo_enrols :
  match Enroll (λ _, None) demo_options demo_world demo_disk with
  | (Some q, _, Ok st) => Enroll.eHostname q = "laptop" ∧ Device.stServer st = "vpn.example.com:443"
  | _ => False
  end.
Proof. by vm_compute. Qed.

Lemma devices_trust_their_server_witness :
  ∃ c, GetCertificate (newCertSelector c [demo_leaf]) PinnedServerName = ShowPinned [demo_leaf] ∧ acme (newCertSelector c [demo_leaf]) = true ∧
    match Enroll (λ _, None) demo_options demo_world demo_disk with
    | (_, _, Ok st) => ∃ want, PinnedTLSConfig (Device.stFingerprint st) = Some want ∧ check want [demo_leaf] = true
    | _ => False
    end.
Proof.
  set (c := with_level "debug" (with_socket "/data/admin.sock" Config.demo_config)). exists c.
  destruct (devices_trust_their_server (λ s, Some ("", s)) (λ _, None) (λ _ _, Some Config.demo_config) (λ _, None) false (λ a b, a +:+ "/" +:+ b) [] "debug"
    (λ c _, Some [c]) demo_answers c ∅ (<[certPath (λ a b, a +:+ "/" +:+ b) c := demo_leaf]> (<[keyPath (λ a b, a +:+ "/" +:+ b) c := string_bytes "key"]> ∅))
    demo_leaf [] true) as (_ & Hs & He); [vm_compute; reflexivity|vm_compute; discriminate|vm_compute; reflexivity|].
  split; [exact Hs|]. split; [reflexivity|].
  pose proof demo_enrols as Hd. destruct (Enroll (λ _, None) demo_options demo_world demo_disk) as [[req d'] r] eqn:E.
  destruct req as [q|]; [|destruct Hd]. destruct r as [st|e]; [|destruct Hd].
  destruct (He demo_options demo_world demo_disk (Some q) d' (Ok st) E) as (_ & _ & Hok). destruct (Hok st eq_refl) as (_ & _ & der0 & want & _ & Hw & _ & Hc).
  exists want. split; [exact Hw|]. apply Hc. vm_compute. reflexivity.
Defined.

(** The usual way to write a server's IPv6 address without a port does not
    come out as an address. *)
Example bracketed_server :
  ServerAddr (λ _, Some ("https", "[fd00::1]", "")) "https://[fd00::1]" = Ok "[[fd00::1]]:443" ∧ SplitHostPort "[[fd00::1]]:443" = None ∧
  ServerAddr (λ _, None) "fd00::1" = Ok "[fd00::1]:443".
Proof. by vm_compute. Qed.
