(* ===== verification/Restore.v ===== *)
(** Backing up a server and restoring it: [internal/server/backup.go] and
    [restore.go], with [loadOrCreateServerKey] of [keys.go] and [store.Open].

    The archive is [Backup]'s, the configuration [Config]'s.  SQLite, with the
    SQL of the migrations, and X.509 are parameters; whether each step of the
    file system works is an input.  [config/] files lie outside the data
    directory; the lock file in it is left out of its files. *)

From Stdlib Require Import Strings.Ascii.
From S2P Require Import Prelude GoStrings NetIP Config Backup.
From S2P Require Enroll HubDevice Pinning.

Definition DBFile : string := "thawr.db".
Definition ServerKeyFile : string := "server.key".
Definition LockFile : string := "thawr.lock".
Definition TLSDir : string := "tls".
Definition TLSCertFile : string := "cert.pem".
Definition TLSKeyFile : string := "key.pem".
Definition ACMEDir : string := "acme".
Definition BackupConfigPath : string := "config/server.yaml".
Definition BackupPolicyPath : string := "config/policy.yaml".

Definition has_prefix (pre s : string) : bool := bool_decide (is_Some (cut_prefix (chars pre) (chars s))).
(** [path.Join] of two clean paths. *)
Definition join_path (dir p : string) : string := dir +:+ "/" +:+ p.

(** ** What goes into a backup *)

(** [backupSources]; [disk] says what can be read, [acme] is the walk of the
    regular files under the ACME directory, by their paths in the data directory. *)
Definition backupSources (disk : string → option (list byte)) (dir snapshot configPath policyFile : string) (acme : list string) : list Source :=
  let here p := {| sPath := p; sFrom := join_path dir p |} in
  let readable p := bool_decide (is_Some (disk (sFrom p))) in
  let copies := filter (λ s, sFrom s ≠ "" ∧ readable s = true) [{| sPath := BackupConfigPath; sFrom := configPath |}; {| sPath := BackupPolicyPath; sFrom := policyFile |}] in
  [{| sPath := DBFile; sFrom := snapshot |}; here ServerKeyFile] ++
  filter (λ s, readable s = true) [here (join_path TLSDir TLSCertFile); here (join_path TLSDir TLSKeyFile)] ++
  (here <$> acme) ++ copies.

(** ** Restore *)

(** The directories and the files of a host, by their paths. *)
Record Host := { hDirs : gmap string Dir; hFiles : gmap string (list byte) }.
Definition set_dir (p : string) (d : Dir) (h : Host) : Host := {| hDirs := <[p := d]> (hDirs h); hFiles := hFiles h |}.
Definition set_file (p : string) (x : list byte) (h : Host) : Host := {| hDirs := hDirs h; hFiles := <[p := x]> (hFiles h) |}.

Record RestoreOptions := { roConfigPath : string; roForce : bool }.
Record RestoreResult := {
  rrMovedAside : string; rrPeers : Z; rrSchemaArchive : Z; rrSchemaNow : Z; rrTLSFingerprint : string; rrConfigWritten : bool; rrPolicyWritten : bool; rrPolicyInBackup : bool;
}.

Inductive restore_error :=
  | ErrTempDir | ErrArchive (e : option backup_error) | ErrNewerSchema | ErrConfig | ErrServerRunning | ErrDataDir | ErrDataDirNotEmpty | ErrMove | ErrCopy
  | ErrOpenDatabase | ErrSchema | ErrGenerate | ErrWriteKey | ErrReadKey | ErrKey | ErrKeyMode | ErrMeta | ErrKeyMismatch | ErrOverlay | ErrCount | ErrTLS
  | ErrWriteConfig.

(** A file written whole, not at all, or cut. *)
Inductive written := WOk | WNot | WCut (n : nat).

(** What the file system answers. *)
Record Answers := {
  anTemp : bool; anArchive : option (list byte); anUnpack : string → disk; anStat : bool; anServer : bool;
  anEnsure : bool; anLock : bool; anList : bool; anRename : bool; anClosed : bool; anRenameAgain : bool; anEnsureAgain : bool; anLockAgain : bool;
  anStamp : string; anCopy : string → disk; anWrite : string → written;
  anSchemaRead : bool; anKeyRead : bool; anGenerate : option (list byte); anKeyWritten : bool; anKeyMode : bool; anMetaRead : bool; anMetaSet : bool;
  anCount : bool; anTLSRead : string → bool; anStays : string → bool;
}.

(** What the check reads of a database: its metadata, none in a fresh file, and
    the number of peers. *)
Record Database := { dbMeta : option (gmap string string); dbPeers : Z }.
Definition set_meta (k v : string) (db : Database) : Database := {| dbMeta := Some (<[k := v]> (default ∅ (dbMeta db))); dbPeers := dbPeers db |}.
Definition meta_of (db : Database) (k : string) : option string := dbMeta db ≫= (.!! k).

Definition SchemaVersionKey : string := "schema_version".
Definition MetaServerKeyFingerprint : string := "server_key_fingerprint".

(** [config.Parse], as [restoreConfig] uses it; [config.Load] is the same of a file. *)
Definition config_of (ParseAddress ParseURL : string → option (string * string)) (Decode : list byte → Config → option Config) (darwin : bool)
    (join : string → string → string) (level : string) (text : list byte) : option Config :=
  match Parse ParseAddress ParseURL Decode darwin join text level with Ok c => Some c | Err _ => None end.

Section Restore.
Context (volume : string → string) (DecodeManifest : list byte → bool → option Manifest) (Open : list byte → option Tar)
  (ParseConfig : list byte → option Config) (latest : Z)
  (read_db : list byte → option Database) (run_migrations : Z → Database → option Database) (write_db : list byte → Database → list byte)
  (ParseKey : string → option (list byte)) (KeyString : list byte → string) (PublicKeyOf : list byte → list byte)
  (X509KeyPair : list byte → list byte → option (list (list byte))).

(** *** The restored database *)

(** [Store.schemaVersion]: 0 without a metadata table. *)
Definition schemaVersion (db : Database) : option Z :=
  match dbMeta db with None => Some 0 | Some m => v ← m !! SchemaVersionKey; atoi (chars v) end.

(** [store.Open] with [migrate]: not a newer database; an older one is migrated
    by the SQL of the versions it lacks. *)
Definition store_open (text : list byte) : option Database :=
  db ← read_db text;
  current ← schemaVersion db;
  if latest <? current then None
  else if latest <=? current then Some db
  else set_meta SchemaVersionKey (itoa latest) <$> run_migrations current db.

(** The end of [loadOrCreateServerKey]. *)
Definition same_key (a : Answers) (key : list byte) (db : Database) : result restore_error Database :=
  if negb (anKeyMode a) then Err ErrKeyMode
  else if negb (anMetaRead a) then Err ErrMeta
  else
    let fp := Enroll.wgFingerprint (PublicKeyOf key) in
    match meta_of db MetaServerKeyFingerprint with
    | None => if anMetaSet a then Ok (set_meta MetaServerKeyFingerprint fp db) else Err ErrMeta
    | Some stored => if bool_decide (stored = fp) then Ok db else Err ErrKeyMismatch
    end.

(** [loadOrCreateServerKey] in the data directory; a key file that cannot be
    written whole is not there. *)
Definition loadOrCreateServerKey (a : Answers) (d : Dir) (db : Database) : Dir * result restore_error Database :=
  match d !! ServerKeyFile with
  | None =>
      match anGenerate a with
      | None => (d, Err ErrGenerate)
      | Some key =>
          if negb (anKeyWritten a) then (d, Err ErrWriteKey)
          else (<[ServerKeyFile := string_bytes (KeyString key +:+ String (ascii_of_nat 10) "")]> d, same_key a key db)
      end
  | Some text =>
      if negb (anKeyRead a) then (d, Err ErrReadKey)
      else (d, match ParseKey (of_chars (trim_space (chars (String.string_of_list_byte text)))) with Some key => same_key a key db | None => Err ErrKey end)
  end.

Definition same_overlay (c : Config) (db : Database) : bool :=
  match (stored ← HubDevice.recordedOverlayIPv6 (meta_of db HubDevice.MetaOverlayIPv6); HubDevice.sameOverlayIPv6 (IPv6 (overlay c)) stored) with Ok _ => true | Err _ => false end.

(** What [checkRestored] puts into the result. *)
Record Checked := { ckPeers : Z; ckSchema : Z; ckFingerprint : string }.

(** [checkRestored]: the directory afterwards, with the database as it is closed. *)
Definition checkRestored (a : Answers) (c : Config) (d : Dir) : Dir * result restore_error Checked :=
  let text := default [] (d !! DBFile) in
  match store_open text with
  | None => (d, Err ErrOpenDatabase)
  | Some db =>
      let closed db d := <[DBFile := write_db text db]> d in
      match (if anSchemaRead a then schemaVersion db else None) with
      | None => (closed db d, Err ErrSchema)
      | Some version =>
          match loadOrCreateServerKey a d db with
          | (d, Err e) => (closed db d, Err e)
          | (d, Ok db) =>
              (closed db d,
               if negb (anMetaRead a) || negb (same_overlay c db) then Err ErrOverlay
               else if negb (anCount a) then Err ErrCount
               else if bool_decide (Mode (tls c) = TLSModeFile) then Ok {| ckPeers := dbPeers db; ckSchema := version; ckFingerprint := "" |}
               else match Pinning.LoadX509KeyPair X509KeyPair (anTLSRead a) (join_path TLSDir TLSCertFile) (join_path TLSDir TLSKeyFile) d with
                    | Pinning.Loaded chain => Ok {| ckPeers := dbPeers db; ckSchema := version; ckFingerprint := Pinning.tlsFingerprint chain |}
                    | _ => Err ErrTLS
                    end)
          end
      end
  end.

(** *** The steps *)

(** [restoreConfig]. *)
Definition restoreConfig (a : Answers) (path : string) (staging : Dir) (h : Host) : option Config :=
  if negb (anStat a) then None
  else match hFiles h !! path with Some text => ParseConfig text | None => staging !! BackupConfigPath ≫= ParseConfig end.

(** [dirEmpty]. *)
Definition dirEmpty (p : string) (h : Host) : bool := bool_decide (default ∅ (hDirs h !! p) = ∅).
Definition ensureDataDir (p : string) (h : Host) : Host := match hDirs h !! p with Some _ => h | None => set_dir p ∅ h end.
Definition moved_name (a : Answers) (dir : string) : string := dir +:+ ".pre-restore-" +:+ anStamp a.

(** [os.Rename] of a directory: not onto one that has files. *)
Definition rename (ok : bool) (p q : string) (h : Host) : option Host :=
  if ok && dirEmpty q h && negb (bool_decide (p = q))
  then (λ d, {| hDirs := <[q := d]> (delete p (hDirs h)); hFiles := hFiles h |}) <$> hDirs h !! p
  else None.

(** [prepareDataDir]: the name the old directory was moved to, if it was. *)
Definition prepareDataDir (a : Answers) (dir : string) (force : bool) (h : Host) : Host * result restore_error string :=
  if negb (anEnsure a) then (h, Err ErrDataDir)
  else
    let h := ensureDataDir dir h in
    if negb (anLock a) || negb (anList a) then (h, Err ErrDataDir)
    else if dirEmpty dir h then (h, Ok "")
    else if negb force then (h, Err ErrDataDirNotEmpty)
    else
      let moved := moved_name a dir in
      match (match rename (anRename a) dir moved h with
             | Some h' => Some h'
             | None => if anClosed a then rename (anRenameAgain a) dir moved h else None
             end) with
      | None => (h, Err ErrMove)
      | Some h =>
          if negb (anEnsureAgain a) then (h, Err ErrDataDir)
          else let h := ensureDataDir dir h in if negb (anLockAgain a) then (h, Err ErrDataDir) else (h, Ok moved)
      end.

(** [clearDataDir]: what cannot be read or removed stays. *)
Definition clearDataDir (a : Answers) (dir : string) (h : Host) : Host := set_dir dir (filter (λ kv, anStays a kv.1 = true) (default ∅ (hDirs h !! dir))) h.

(** [copyRestored] into the data directory, which has the lock file. *)
Definition copyRestored (a : Answers) (staging : Dir) (p : string) (d : Dir) : Dir * bool :=
  match staging !! p with
  | None => (d, false)
  | Some data =>
      if negb (free (<[LockFile := []]> d) p) then (d, false)
      else match anCopy a p with
           | DiskOk => (<[p := data]> d, true)
           | DiskNoFile => (d, false)
           | DiskFull n => (<[p := take n data]> d, false)
           end
  end.

Fixpoint copy_files (a : Answers) (staging : Dir) (fs : list File) (d : Dir) : Dir * bool :=
  match fs with
  | [] => (d, true)
  | f :: fs =>
      if has_prefix "config/" (fPath f) then copy_files a staging fs d
      else match copyRestored a staging (fPath f) d with (d, true) => copy_files a staging fs d | (d, false) => (d, false) end
  end.

(** [writeIfAbsent]; an error is [None]. *)
Definition writeIfAbsent (a : Answers) (staging : Dir) (from dst : string) (h : Host) : Host * option bool :=
  match staging !! from with
  | None => (h, Some false)
  | Some data =>
      if bool_decide (dst = "") then (h, Some false)
      else match hFiles h !! dst with
           | Some _ => (h, Some false)
           | None =>
               match anWrite a dst with
               | WOk => (set_file dst data h, Some true)
               | WNot => (h, None)
               | WCut n => (set_file dst (take n data) h, None)
               end
           end
  end.

(** The part of [Restore] whose errors empty the data directory. *)
Definition restore_into (a : Answers) (opts : RestoreOptions) (cfg : Config) (m : Manifest) (staging : Dir) (moved : string) (h : Host) :
    Host * result restore_error RestoreResult :=
  let dir := DataDir cfg in
  match copy_files a staging (mFiles m) (default ∅ (hDirs h !! dir)) with
  | (d, false) => (set_dir dir d h, Err ErrCopy)
  | (d, true) =>
      match checkRestored a cfg d with
      | (d, Err e) => (set_dir dir d h, Err e)
      | (d, Ok k) =>
          match writeIfAbsent a staging BackupConfigPath (roConfigPath opts) (set_dir dir d h) with
          | (h, None) => (h, Err ErrWriteConfig)
          | (h, Some cw) =>
              match writeIfAbsent a staging BackupPolicyPath (PolicyFile cfg) h with
              | (h, None) => (h, Err ErrWriteConfig)
              | (h, Some pw) =>
                  (h, Ok {| rrMovedAside := moved; rrPeers := ckPeers k; rrSchemaArchive := mSchema m; rrSchemaNow := ckSchema k; rrTLSFingerprint := ckFingerprint k;
                            rrConfigWritten := cw; rrPolicyWritten := pw; rrPolicyInBackup := bool_decide (is_Some (staging !! BackupPolicyPath)) |})
              end
          end
      end
  end.

(** [Restore]. *)
Definition Restore (a : Answers) (opts : RestoreOptions) (h : Host) : Host * result restore_error RestoreResult :=
  if negb (anTemp a) then (h, Err ErrTempDir)
  else
    match anArchive a with
    | None => (h, Err (ErrArchive None))
    | Some archive =>
        match Extract volume DecodeManifest Open (anUnpack a) archive ∅ with
        | (_, Err e) => (h, Err (ErrArchive (Some e)))
        | (staging, Ok m) =>
            if latest <? mSchema m then (h, Err ErrNewerSchema)
            else
              match restoreConfig a (roConfigPath opts) staging h with
              | None => (h, Err ErrConfig)
              | Some cfg =>
                  if anServer a then (h, Err ErrServerRunning)
                  else
                    match prepareDataDir a (DataDir cfg) (roForce opts) h with
                    | (h, Err e) => (h, Err e)
                    | (h, Ok moved) =>
                        match restore_into a opts cfg m staging moved h with
                        | (h, Ok r) => (h, Ok r)
                        | (h, Err e) => (clearDataDir a (DataDir cfg) h, Err e)
                        end
                    end
              end
        end
    end.
End Restore.

(** ** What is kept *)

(** The files of a directory; one that is not there has none. *)
Definition files_of (p : string) (h : Host) : Dir := default ∅ (hDirs h !! p).

Lemma files_of_set p q d h : files_of p (set_dir q d h) = if decide (p = q) then d else files_of p h.
Proof. unfold files_of. cbn. case_decide as Hp; [subst; by rewrite lookup_insert_eq|by rewrite lookup_insert_ne]. Qed.

Lemma files_of_ensure p q h : files_of p (ensureDataDir q h) = files_of p h.
Proof.
  unfold ensureDataDir. destruct (hDirs h !! q) eqn:E; [done|]. rewrite files_of_set. case_decide as Hp; [subst; unfold files_of; by rewrite E|done].
Qed.

Lemma hFiles_ensure q h : hFiles (ensureDataDir q h) = hFiles h.
Proof. unfold ensureDataDir. by destruct (hDirs h !! q). Qed.

Lemma rename_ok ok p q h h' : rename ok p q h = Some h' → hFiles h' = hFiles h ∧ p ≠ q ∧ files_of q h = ∅ ∧ files_of q h' = files_of p h ∧ files_of p h' = ∅ ∧
  ∀ o, o ≠ p → o ≠ q → files_of o h' = files_of o h.
Proof.
  unfold rename, dirEmpty. destruct ok; [|done]. cbn [andb]. destruct (bool_decide_reflect (default ∅ (hDirs h !! q) = ∅)) as [He|]; [|done].
  destruct (bool_decide_reflect (p = q)) as [|Hne]; [done|]. cbn [andb negb]. destruct (hDirs h !! p) as [d|] eqn:Ed; [|done]. cbn. intros [= <-]. unfold files_of. cbn.
  split_and!; [done|done|done|by rewrite lookup_insert_eq, Ed|by rewrite lookup_insert_ne, lookup_delete_eq by done|].
  intros o Hp Hq. by rewrite lookup_insert_ne, lookup_delete_ne by done.
Qed.

(** Nothing changed, or the files of [dir] are under the other name. *)
Definition set_aside (a : Answers) (dir : string) (force : bool) (h h' : Host) : Prop :=
  (∀ p, files_of p h' = files_of p h) ∨
  (force = true ∧ dir ≠ moved_name a dir ∧ files_of (moved_name a dir) h = ∅ ∧ files_of (moved_name a dir) h' = files_of dir h ∧ files_of dir h' = ∅ ∧
   ∀ p, p ≠ dir → p ≠ moved_name a dir → files_of p h' = files_of p h).

Lemma prepareDataDir_ok a dir force h h' r : prepareDataDir a dir force h = (h', r) →
  hFiles h' = hFiles h ∧ set_aside a dir force h h' ∧ (is_ok r = true → files_of dir h' = ∅).
Proof.
  unfold prepareDataDir. destruct (anEnsure a); cbn [negb]; [|intros [= <- <-]; split_and!; [done|by left|done]].
  assert (set_aside a dir force h (ensureDataDir dir h)) as H1 by (left; intros p; apply files_of_ensure). pose proof (hFiles_ensure dir h) as F1.
  destruct (negb (anLock a) || negb (anList a)); [by intros [= <- <-]|]. destruct (dirEmpty dir (ensureDataDir dir h)) eqn:Ee.
  { intros [= <- <-]. split_and!; [done|done|]. intros _. by apply bool_decide_eq_true in Ee. }
  destruct force; cbn [negb]; [|by intros [= <- <-]].
  assert (∀ h2, (∃ ok, rename ok dir (moved_name a dir) (ensureDataDir dir h) = Some h2) → hFiles h2 = hFiles h ∧ set_aside a dir true h h2 ∧ files_of dir h2 = ∅) as Hren.
  { intros h2 [ok (F2 & Hne & Hq & Hq' & Hp & Ho)%rename_ok]. rewrite files_of_ensure in Hq, Hq'. split_and!; [by rewrite F2| |done]. right.
    split_and!; [done..|]. intros p Hp1 Hp2. by rewrite Ho, files_of_ensure. }
  assert (∀ o, (if anClosed a then rename (anRenameAgain a) dir (moved_name a dir) (ensureDataDir dir h) else None) = Some o →
    ∃ ok, rename ok dir (moved_name a dir) (ensureDataDir dir h) = Some o) as Hagain by (intros o; destruct (anClosed a); [by eexists|done]).
  destruct (match rename (anRename a) _ _ _ with Some h' => Some h' | None => _ end) as [h2|] eqn:E2; [|by intros [= <- <-]].
  assert (∃ ok, rename ok dir (moved_name a dir) (ensureDataDir dir h) = Some h2) as Hex
    by (destruct (rename (anRename a) dir (moved_name a dir) (ensureDataDir dir h)) eqn:E3; [injection E2 as <-; by eexists|by apply Hagain]).
  destruct (Hren h2 Hex) as (F2 & A2 & D2). destruct (anEnsureAgain a); cbn [negb]; [|by intros [= <- <-]].
  assert (set_aside a dir true h (ensureDataDir dir h2)) as A3.
  { destruct A2 as [A2|(? & ? & ? & ? & ? & ?)]; [left; intros p; by rewrite files_of_ensure|right; split_and!; by (intros; rewrite ?files_of_ensure; auto)]. }
  destruct (anLockAgain a); cbn [negb]; intros [= <- <-]; (split_and!; [by rewrite hFiles_ensure|done|]); [intros _; by rewrite files_of_ensure|done].
Qed.

Section Kept.
Context (volume : string → string) (DecodeManifest : list byte → bool → option Manifest) (Open : list byte → option Tar)
  (ParseAddress ParseURL : string → option (string * string)) (Decode : list byte → Config → option Config) (darwin : bool) (join : string → string → string) (level : string) (latest : Z)
  (read_db : list byte → option Database) (run_migrations : Z → Database → option Database) (write_db : list byte → Database → list byte)
  (ParseKey : string → option (list byte)) (KeyString : list byte → string) (PublicKeyOf : list byte → list byte)
  (X509KeyPair : list byte → list byte → option (list (list byte))).

Notation ParseConfig := (config_of ParseAddress ParseURL Decode darwin join level).
Notation checkRestored := (checkRestored latest read_db run_migrations write_db ParseKey KeyString PublicKeyOf X509KeyPair).
Notation restore_into := (restore_into latest read_db run_migrations write_db ParseKey KeyString PublicKeyOf X509KeyPair).
Notation Restore := (Restore volume DecodeManifest Open ParseConfig latest read_db run_migrations write_db ParseKey KeyString PublicKeyOf X509KeyPair).

(** Files that were there are as they were. *)
Definition files_kept (h h' : Host) : Prop := ∀ p x, hFiles h !! p = Some x → hFiles h' !! p = Some x.

#[local] Instance files_kept_preorder : PreOrder files_kept.
Proof. split; [by intros h p x|]. intros a b c H1 H2 p x Hx. by apply H2, H1. Qed.

Lemma writeIfAbsent_ok a staging from dst h h' r : writeIfAbsent a staging from dst h = (h', r) → hDirs h' = hDirs h ∧ files_kept h h' ∧ (∀ p, p ≠ dst → hFiles h' !! p = hFiles h !! p) ∧
  (anWrite a dst = WOk → is_Some r ∧ (dst ≠ "" → hFiles h !! dst = None → ∀ x, staging !! from = Some x → hFiles h' !! dst = Some x)).
Proof.
  unfold writeIfAbsent. destruct (staging !! from) as [data|]; [|intros [= <- <-]; split_and!; [done|by intros p x|done|intros _; split; [by eexists|done]]].
  case_bool_decide as Hd; [intros [= <- <-]; split_and!; [done|by intros p x|done|intros _; split; [by eexists|done]]|].
  destruct (hFiles h !! dst) eqn:Ef; [intros [= <- <-]; split_and!; [done|by intros p x|done|intros _; split; [by eexists|done]]|].
  assert (∀ x, files_kept h (set_file dst x h)) as Hk by (intros x p y Hy; cbn; rewrite lookup_insert_ne; [done|intros <-; by rewrite Ef in Hy]).
  destruct (anWrite a dst); intros [= <- <-]; split_and!; try done; try apply Hk; try (by intros p x); try (by intros p Hp; cbn; rewrite lookup_insert_ne). intros _. split; [by eexists|]. intros _ _ x [= <-]. apply lookup_insert_eq.
Qed.

(** Files outside the data directories are as they were, but for two that were
    not there. *)
Definition only_copies (opts : RestoreOptions) (cfg : Config) (h h' : Host) : Prop :=
  files_kept h h' ∧ ∀ p, p ≠ roConfigPath opts → p ≠ PolicyFile cfg → hFiles h' !! p = hFiles h !! p.

Lemma restore_into_ok a opts cfg m staging moved h h' r : restore_into a opts cfg m staging moved h = (h', r) →
  only_copies opts cfg h h' ∧ ∀ p, p ≠ DataDir cfg → files_of p h' = files_of p h.
Proof.
  unfold Restore.restore_into. destruct (copy_files _ _ _ _) as [d []].
  2:{ intros [= <- <-]. split; [by split; [intros p x|]|]. intros p Hp. by rewrite files_of_set, decide_False. }
  destruct (checkRestored a cfg d) as [d2 [k|e]].
  2:{ intros [= <- <-]. split; [by split; [intros p x|]|]. intros p Hp. by rewrite files_of_set, decide_False. }
  assert (∀ h1, hDirs h1 = hDirs (set_dir (DataDir cfg) d2 h) → ∀ p, p ≠ DataDir cfg → files_of p h1 = files_of p h) as Hdirs.
  { intros h1 Hh p Hp. unfold files_of. rewrite Hh. cbn. by rewrite lookup_insert_ne. }
  destruct (writeIfAbsent a staging BackupConfigPath (roConfigPath opts) _) as [h1 cw] eqn:E1. apply writeIfAbsent_ok in E1 as (D1 & K1 & O1 & _).
  destruct cw as [cw|]; [|intros [= <- <-]; split; [split; [done|]; intros p Hp _; by rewrite O1|by apply Hdirs]].
  destruct (writeIfAbsent a staging BackupPolicyPath (PolicyFile cfg) h1) as [h2 pw] eqn:E2. apply writeIfAbsent_ok in E2 as (D2 & K2 & O2 & _).
  destruct pw; intros [= <- <-]; (split; [split; [by etrans|]; intros p Hp Hq; by rewrite O2, O1|apply Hdirs; by rewrite D2]).
Qed.

Lemma files_of_clear a q p h : files_of p (clearDataDir a q h) = if decide (p = q) then filter (λ kv, anStays a kv.1 = true) (files_of p h) else files_of p h.
Proof. unfold clearDataDir. rewrite files_of_set. case_decide as Hp; [by subst|done]. Qed.

(** What becomes of the directories when the one that is restored into is set
    aside and then changed. *)
Definition dirs_kept (a : Answers) (force : bool) (h h' : Host) : Prop :=
  ∀ p, files_of p h ≠ ∅ → files_of p h' = files_of p h ∨ (force = true ∧ files_of (moved_name a p) h' = files_of p h).
Definition only_rests (a : Answers) (force : bool) (h h' : Host) : Prop :=
  ∀ p, files_of p h' = files_of p h ∨ (∃ q, p = moved_name a q ∧ files_of p h' = files_of q h) ∨
    (files_of p h = ∅ ∨ force = true ∧ files_of (moved_name a p) h' = files_of p h) ∧ ∀ f, f ∈ dom (files_of p h') → anStays a f = true.

Lemma set_aside_kept a dir force h h1 h2 : set_aside a dir force h h1 → (∀ p, p ≠ dir → files_of p h2 = files_of p h1) →
  (files_of dir h1 = ∅ ∨ files_of dir h2 = files_of dir h1) → dirs_kept a force h h2.
Proof.
  intros [A1|(Hf & Hne & Hm & Hm' & Hdir & Ho)] O2 Hd p Hp; destruct (decide (p = dir)) as [-> | Hpd].
  - destruct Hd as [Hd|Hd]; [by rewrite A1 in Hd|left; by rewrite Hd, A1].
  - left. by rewrite O2, A1.
  - right. split; [done|]. by rewrite O2.
  - left. rewrite O2 by done. apply Ho; [done|]. intros ->. by rewrite Hm in Hp.
Qed.

Lemma set_aside_rests a dir force h h1 h2 : set_aside a dir force h h1 → (∀ p, p ≠ dir → files_of p h2 = files_of p h1) →
  files_of dir h2 = files_of dir h1 ∨ files_of dir h1 = ∅ ∧ (∀ f, f ∈ dom (files_of dir h2) → anStays a f = true) → only_rests a force h h2.
Proof.
  intros Ha O2 Hd p. destruct (decide (p = dir)) as [-> | Hpd].
  - destruct Hd as [Hd|[He Hd]]; destruct Ha as [A1|(Hf & Hne & _ & Hm' & Hdir & _)].
    + left. by rewrite Hd, A1.
    + right. right. rewrite Hd, Hdir. split; [right; split; [done|]; by rewrite O2|]. intros f. rewrite dom_empty_L. by intros ?%not_elem_of_empty.
    + right. right. split; [left; by rewrite <- A1|done].
    + right. right. split; [right; split; [done|]; by rewrite O2|done].
  - rewrite O2 by done. destruct Ha as [A1|(_ & _ & _ & Hm' & _ & Ho)]; [left; by apply A1|]. destruct (decide (p = moved_name a dir)) as [-> | Hpm].
    + right. left. by exists dir.
    + left. by apply Ho.
Qed.

(** C31: a restore loses nothing.  Whatever fails, at whatever point: every file
    outside the data directories is as it was, an existing configuration and
    policy among them, and only the two copies may be new there, which a failure
    can leave behind, cut where the write was; the files of a data directory are
    still in it, or, if that was asked for, all of them under the name it was
    moved to; and a restore that fails leaves a directory as it was, or the old
    one under its new name, or, of one that was empty or was set aside, only
    what the clean-up could not remove. *)
Theorem restore_loses_nothing a opts h :
  let '(h', r) := Restore a opts h in
  files_kept h h' ∧
  (∃ policy, ∀ p, p ≠ roConfigPath opts → p ≠ policy → hFiles h' !! p = hFiles h !! p) ∧
  (∀ p, files_of p h ≠ ∅ → files_of p h' = files_of p h ∨ (roForce opts = true ∧ files_of (moved_name a p) h' = files_of p h)) ∧
  (is_ok r = false → ∀ p, files_of p h' = files_of p h ∨ (∃ q, p = moved_name a q ∧ files_of p h' = files_of q h) ∨
     (files_of p h = ∅ ∨ roForce opts = true ∧ files_of (moved_name a p) h' = files_of p h) ∧ ∀ f, f ∈ dom (files_of p h') → anStays a f = true).
Proof.
  change (let '(h', r) := Restore a opts h in files_kept h h' ∧ (∃ policy, ∀ p, p ≠ roConfigPath opts → p ≠ policy → hFiles h' !! p = hFiles h !! p) ∧
    dirs_kept a (roForce opts) h h' ∧ (is_ok r = false → only_rests a (roForce opts) h h')).
  assert (∀ (e : restore_error), let r : result restore_error RestoreResult := Err e in files_kept h h ∧ (∃ policy, ∀ p, p ≠ roConfigPath opts → p ≠ policy → hFiles h !! p = hFiles h !! p) ∧
    dirs_kept a (roForce opts) h h ∧ (is_ok r = false → only_rests a (roForce opts) h h)) as Hrefl.
  { intros e. split; [by intros p x|]. split; [by exists ""|]. split; [by left|]. intros _ p. by left. }
  unfold Restore.Restore. destruct (negb (anTemp a)); [apply Hrefl|]. destruct (anArchive a) as [archive|]; [|apply Hrefl].
  destruct (Extract _ _ _ _ archive ∅) as [staging [m|e]]; [|apply Hrefl]. destruct (latest <? mSchema m); [apply Hrefl|].
  destruct (restoreConfig _ a _ staging h) as [cfg|]; [|apply Hrefl]. destruct (anServer a); [apply Hrefl|]. clear Hrefl.
  destruct (prepareDataDir a (DataDir cfg) (roForce opts) h) as [h1 r1] eqn:Ep. apply prepareDataDir_ok in Ep as (F1 & A1 & D1).
  destruct r1 as [moved|e].
  2:{ split_and!; [intros p x; by rewrite F1|exists ""; by rewrite F1|by eapply set_aside_kept; [exact A1| |right]|]. intros _. eapply set_aside_rests; [exact A1|done|by left]. }
  specialize (D1 eq_refl). destruct (restore_into a opts cfg m staging moved h1) as [h2 [res|e]] eqn:Er; apply restore_into_ok in Er as [[K2 C2] O2].
  - split_and!; [intros p x Hx; apply K2; by rewrite F1|exists (PolicyFile cfg); intros; by rewrite C2, F1|eapply set_aside_kept; [exact A1|done|by left]|done].
  - assert (∀ p, p ≠ DataDir cfg → files_of p (clearDataDir a (DataDir cfg) h2) = files_of p h1) as O3 by (intros p Hp; by rewrite files_of_clear, decide_False, O2).
    split_and!; [intros p x Hx; apply K2; by rewrite F1|exists (PolicyFile cfg); intros p Hp Hq; rewrite <- F1; by apply C2|eapply set_aside_kept; [exact A1|done|by left]|].
    intros _. eapply set_aside_rests; [exact A1|done|right]. split; [done|]. intros f. rewrite files_of_clear, decide_True by done. intros [x Hx]%elem_of_dom. by apply map_lookup_filter_Some in Hx as [_ Hx].
Qed.
End Kept.

(** ** A server comes back *)

Definition is_config (p : string) : bool := has_prefix "config/" p.

(** Nothing fails. *)
Record smooth (a : Answers) (archive : list byte) : Prop := {
  sm_temp : anTemp a = true; sm_archive : anArchive a = Some archive; sm_unpack : anUnpack a = (λ _, DiskOk); sm_stat : anStat a = true;
  sm_server : anServer a = false; sm_ensure : anEnsure a = true; sm_lock : anLock a = true; sm_list : anList a = true;
  sm_copy : ∀ p, anCopy a p = DiskOk; sm_write : ∀ p, anWrite a p = WOk; sm_schema : anSchemaRead a = true; sm_key : anKeyRead a = true; sm_mode : anKeyMode a = true;
  sm_meta : anMetaRead a = true; sm_count : anCount a = true; sm_tls : ∀ p, anTLSRead a p = true;
}.

(** Two paths that can both be files. *)
Definition apart (p q : string) : Prop := above p q = false ∧ above q p = false.

Lemma copy_files_ok a staging fs : (∀ p, anCopy a p = DiskOk) → ∀ d, NoDup (fPath <$> fs) → (∀ f, f ∈ fs → is_Some (staging !! fPath f)) →
  (∀ f, f ∈ fs → fPath f ≠ LockFile ∧ apart (fPath f) LockFile ∧ fPath f ∉ dom d ∧ (∀ q, q ∈ dom d → apart (fPath f) q)) →
  (∀ f g, f ∈ fs → g ∈ fs → apart (fPath f) (fPath g)) →
  ∃ d', copy_files a staging fs d = (d', true) ∧ ∀ p, d' !! p = if decide (p ∈ fPath <$> filter (λ f, is_config (fPath f) = false) fs) then staging !! p else d !! p.
Proof.
  intros Hcp. induction fs as [|f fs IH]; intros d Hnd Hst Hfree Hap; [exists d; split; [done|]; intros p; by rewrite decide_False by set_solver +|].
  apply NoDup_cons in Hnd as [Hnew Hnd]. cbn [copy_files]. unfold has_prefix. fold (has_prefix "config/" (fPath f)). fold (is_config (fPath f)).
  destruct (is_config (fPath f)) eqn:Ec.
  - destruct (IH d Hnd) as (d' & Hd & Hl); [intros g Hg; apply Hst; by right|intros g Hg; apply Hfree; by right|intros g g' Hg Hg'; apply Hap; by right|].
    exists d'. split; [done|]. intros p. rewrite Hl, filter_cons_False by congruence. done.
  - destruct (Hst f ltac:(by left)) as [data Hdata]. destruct (Hfree f ltac:(by left)) as (HL & HLa & Hnd' & Hq). unfold copyRestored. rewrite Hdata, Hcp.
    rewrite free_ok; cbn [negb].
    2:{ rewrite dom_insert_L. intros [He%elem_of_singleton|?]%elem_of_union; done. }
    2:{ intros q. rewrite dom_insert_L. intros [->%elem_of_singleton|Hin]%elem_of_union; [done|by apply Hq]. }
    destruct (IH (<[fPath f := data]> d) Hnd) as (d' & Hd & Hl).
    + intros g Hg. apply Hst. by right.
    + intros g Hg. destruct (Hfree g ltac:(by right)) as (? & ? & Hgd & Hgq). assert (fPath g ≠ fPath f) as Hne by (intros He; apply Hnew; rewrite <- He; by apply list_elem_of_fmap_2).
      rewrite dom_insert_L. split_and!; [done|done|by intros [?%elem_of_singleton|?]%elem_of_union|].
      intros q [->%elem_of_singleton|Hin]%elem_of_union; [apply Hap; set_solver +Hg|by apply Hgq].
    + intros g g' Hg Hg'. apply Hap; by right.
    + exists d'. split; [done|]. intros p. rewrite Hl, filter_cons_True, fmap_cons by done. destruct (decide (p = fPath f)) as [-> | Hne].
      * rewrite (decide_True (P := fPath f ∈ fPath f :: _)) by by left. case_decide; [done|]. by rewrite lookup_insert_eq.
      * destruct (decide (p ∈ fPath <$> filter (λ f0, is_config (fPath f0) = false) fs)) as [Hi|Hi].
        -- by rewrite decide_True by (by right).
        -- rewrite decide_False by (by intros [|]%elem_of_cons). by rewrite lookup_insert_ne.
Qed.

Section Back.
Context (volume : string → string) (EncodeManifest : Manifest → option (list byte)) (DecodeManifest : list byte → bool → option Manifest)
  (Open : list byte → option Tar) (header_ok : string → bool) (ParseAddress ParseURL : string → option (string * string)) (Decode : list byte → Config → option Config) (darwin : bool) (join : string → string → string) (level : string) (latest : Z)
  (read_db : list byte → option Database) (run_migrations : Z → Database → option Database) (write_db : list byte → Database → list byte)
  (ParseKey : string → option (list byte)) (KeyString : list byte → string) (PublicKeyOf : list byte → list byte)
  (X509KeyPair : list byte → list byte → option (list (list byte))) (disk : string → option (list byte)) (latest_fits : 0 <= latest < 2 ^ 63).

Notation store_open := (store_open latest read_db run_migrations).
Notation ParseConfig := (config_of ParseAddress ParseURL Decode darwin join level).
Notation checkRestored := (checkRestored latest read_db run_migrations write_db ParseKey KeyString PublicKeyOf X509KeyPair).
Notation Restore := (Restore volume DecodeManifest Open ParseConfig latest read_db run_migrations write_db ParseKey KeyString PublicKeyOf X509KeyPair).

(** The directory has what was backed up of the other one. *)
Definition backed_up (srcs : list Source) (d : Dir) : Prop :=
  (∀ s, s ∈ srcs → is_config (sPath s) = false → d !! sPath s = disk (sFrom s)) ∧
  (∀ p, p ∈ dom d → ∃ s, s ∈ srcs ∧ is_config (sPath s) = false ∧ sPath s = p).

(** The paths of a backup can be files next to each other and to the lock file. *)
Definition paths_apart (srcs : list Source) : Prop :=
  no_nesting srcs ∧ ∀ s, s ∈ srcs → sPath s ≠ LockFile ∧ apart (sPath s) LockFile.

Lemma config_source dir snapshot configPath policyFile acme text : configPath ≠ "" → disk configPath = Some text →
  {| sPath := BackupConfigPath; sFrom := configPath |} ∈ backupSources disk dir snapshot configPath policyFile acme.
Proof.
  intros Hne Hd. unfold backupSources. rewrite !elem_of_app. right. right. right. apply list_elem_of_filter. cbn [sFrom]. split; [|by left]. split; [done|].
  rewrite Hd. by apply bool_decide_eq_true.
Qed.

Lemma policy_source dir snapshot configPath policyFile acme text : policyFile ≠ "" → disk policyFile = Some text →
  {| sPath := BackupPolicyPath; sFrom := policyFile |} ∈ backupSources disk dir snapshot configPath policyFile acme.
Proof.
  intros Hne Hd. unfold backupSources. rewrite !elem_of_app. right. right. right. apply list_elem_of_filter. cbn [sFrom]. split; [|by right; left]. split; [done|].
  rewrite Hd. by apply bool_decide_eq_true.
Qed.

Lemma tls_source dir snapshot configPath policyFile acme p x : p = TLSCertFile ∨ p = TLSKeyFile → disk (join_path dir (join_path TLSDir p)) = Some x →
  {| sPath := join_path TLSDir p; sFrom := join_path dir (join_path TLSDir p) |} ∈ backupSources disk dir snapshot configPath policyFile acme.
Proof.
  intros Hp Hd. unfold backupSources. rewrite !elem_of_app. right. left. apply list_elem_of_filter. cbn [sFrom]. split; [|destruct Hp as [-> | ->]; set_solver +].
  rewrite Hd. by apply bool_decide_eq_true.
Qed.

(** An opened database has this binary's schema. *)
Lemma store_open_version text db : store_open text = Some db → schemaVersion db = Some latest.
Proof.
  unfold Restore.store_open. destruct (read_db text) as [db0|]; [|done]. cbn. destruct (schemaVersion db0) as [cur|] eqn:E; [|done]. cbn.
  destruct (Z.ltb_spec latest cur); [done|]. destruct (Z.leb_spec latest cur); [intros [= <-]; rewrite E; f_equal; lia|].
  destruct (run_migrations cur db0) as [db1|]; [|done]. intros [= <-]. unfold schemaVersion, set_meta. cbn. rewrite lookup_insert_eq. cbn. by apply atoi_itoa.
Qed.

(** The backup is of one server: its key is the one its database belongs to, the
    configuration keeps the database's overlay, and the certificate is there
    where the configuration names none. *)
Record one_server (dir snapshot : string) (cfg : Config) (db : Database) : Prop := {
  os_db : ∃ text, disk snapshot = Some text ∧ store_open text = Some db;
  os_key : ∃ text key, disk (join_path dir ServerKeyFile) = Some text ∧ ParseKey (of_chars (trim_space (chars (String.string_of_list_byte text)))) = Some key ∧
    meta_of db MetaServerKeyFingerprint = Some (Enroll.wgFingerprint (PublicKeyOf key));
  os_overlay : same_overlay cfg db = true;
  os_tls : Mode (tls cfg) ≠ TLSModeFile → ∃ c k chain, disk (join_path dir (join_path TLSDir TLSCertFile)) = Some c ∧
    disk (join_path dir (join_path TLSDir TLSKeyFile)) = Some k ∧ X509KeyPair c k = Some chain;
}.

Lemma check_passes a archive dir snapshot configPath policyFile acme cfg db d : smooth a archive → one_server dir snapshot cfg db →
  backed_up (backupSources disk dir snapshot configPath policyFile acme) d →
  ∃ fp, checkRestored a cfg d = (<[DBFile := write_db (default [] (disk snapshot)) db]> d, Ok {| ckPeers := dbPeers db; ckSchema := latest; ckFingerprint := fp |}).
Proof.
  intros Hsm [(text & Hs & Ho) (kt & key & Hkt & Hkey & Hfp) Hov Htls] [Hb _].
  assert (∀ p x, disk (join_path dir p) = Some x → {| sPath := p; sFrom := join_path dir p |} ∈ backupSources disk dir snapshot configPath policyFile acme → is_config p = false → d !! p = Some x) as Hin.
  { intros p x Hx Hp Hc. rewrite <- Hx. exact (Hb _ Hp Hc). }
  assert (d !! DBFile = Some text) as Hdb by (rewrite <- Hs; apply (Hb {| sPath := DBFile; sFrom := snapshot |}); [by left|by vm_compute]).
  assert (d !! ServerKeyFile = Some kt) as Hk by (apply Hin; [done|by right; left|by vm_compute]).
  unfold Restore.checkRestored. rewrite Hdb, Hs. cbn [default from_option id]. rewrite Ho, (sm_schema _ _ Hsm), (store_open_version _ _ Ho).
  unfold loadOrCreateServerKey. rewrite Hk, (sm_key _ _ Hsm), Hkey. cbn [negb]. unfold same_key. rewrite (sm_mode _ _ Hsm), (sm_meta _ _ Hsm), Hfp. cbn [negb].
  rewrite bool_decide_true by done. rewrite Hov, (sm_count _ _ Hsm). cbn [negb orb]. case_bool_decide as Hm; [by eexists|].
  destruct (Htls Hm) as (c & k & chain & Hc & Hck & Hx). unfold Pinning.LoadX509KeyPair. rewrite !(sm_tls _ _ Hsm). cbn [negb].
  rewrite (Hin _ c Hc), (Hin _ k Hck), Hx; [by eexists|eapply tls_source; [by right|done]|by vm_compute|eapply tls_source; [by left|done]|by vm_compute].
Qed.

(** The data directory as the loop over the files of the archive leaves it. *)
Lemma copied_from_archive a archive m m' es srcs staging : smooth a archive → paths_apart srcs →
  Write volume EncodeManifest disk disk header_ok m srcs = Ok (m', es) → (∀ s, s ∈ srcs → is_Some (disk (sFrom s)) ∧ staging !! sPath s = disk (sFrom s)) →
  ∃ d, copy_files a staging (mFiles m') ∅ = (d, true) ∧ backed_up srcs d.
Proof.
  intros Hsm [Hnest Hlock] (fs & -> & Hp & Hnd)%Write_manifest Hst. cbn [mFiles with_files].
  assert (∀ f, f ∈ fs → ∃ s, s ∈ srcs ∧ fPath f = sPath s) as Hfs.
  { intros f Hf. assert (fPath f ∈ sPath <$> srcs) as Hin by (rewrite <- Hp; by apply list_elem_of_fmap_2). apply list_elem_of_fmap in Hin as (s & ? & ?). by exists s. }
  destruct (copy_files_ok a staging fs (sm_copy _ _ Hsm) ∅) as (d & Hd & Hl); [by rewrite Hp| | | |].
  - intros f (s & Hs & ->)%Hfs. destruct (Hst s Hs) as [? ->]. done.
  - intros f (s & Hs & ->)%Hfs. destruct (Hlock s Hs). split_and!; [done|done|rewrite dom_empty_L; apply not_elem_of_empty|]. intros q. rewrite dom_empty_L. by intros ?%not_elem_of_empty.
  - intros f g (s & Hs & ->)%Hfs (t & Ht & ->)%Hfs. split; by apply Hnest.
  - exists d. split; [done|]. assert (∀ p, p ∈ fPath <$> filter (λ f, is_config (fPath f) = false) fs ↔ ∃ s, s ∈ srcs ∧ is_config (sPath s) = false ∧ sPath s = p) as Hiff.
    { intros p. rewrite list_elem_of_fmap. split.
      - intros (f & -> & [Hc Hf]%list_elem_of_filter). destruct (Hfs f Hf) as (s & Hs & He). exists s. by rewrite <- He.
      - intros (s & Hs & Hc & <-). assert (sPath s ∈ fPath <$> fs) as Hin by (rewrite Hp; by apply list_elem_of_fmap_2). apply list_elem_of_fmap in Hin as (f & He & Hf).
        exists f. split; [done|]. apply list_elem_of_filter. by rewrite <- He. }
    split.
    + intros s Hs Hc. rewrite Hl, decide_True by (apply Hiff; by exists s). by apply Hst.
    + intros p [x Hx]%elem_of_dom. rewrite Hl in Hx. case_decide as Hin; [by apply Hiff|]. by rewrite lookup_empty in Hx.
Qed.

(** C30: a server comes back from its backup.  On a host with no configuration and
    nothing in the data directory, restoring an archive that was made of one
    server's files gives that server again: its configuration, its policy where
    the configuration names a file that is not there, and a data directory with
    every other file of the backup and no more, the database as it is after it
    was opened, and migrated if it is older.  Required: nothing fails, the
    sources do not change while they are archived, their paths can be files
    next to each other, the archive and its manifest read back, the key belongs
    to the database, and the certificate is among the files unless the
    configuration names its own. *)
Theorem server_comes_back m dir snapshot configPath policyFile acme m' es archive rest a opts h cfg text db :
  let srcs := backupSources disk dir snapshot configPath policyFile acme in
  Write volume EncodeManifest disk disk header_ok m srcs = Ok (m', es) → paths_apart srcs →
  (∀ mj, EncodeManifest m' = Some mj → (length mj ≤ maxManifestSize)%nat ∧ DecodeManifest mj false = Some m') →
  Open archive = Some {| tEntries := es; tCut := false; tRest := Some rest |} → rest <= maxTarPadding → smooth a archive → mSchema m <= latest →
  configPath ≠ "" → disk configPath = Some text → ParseConfig text = Some cfg → roConfigPath opts ≠ "" → hFiles h !! roConfigPath opts = None →
  files_of (DataDir cfg) h = ∅ → one_server dir snapshot cfg db →
  ∃ h' r d, Restore a opts h = (h', Ok r) ∧ backed_up srcs d ∧
    files_of (DataDir cfg) h' = <[DBFile := write_db (default [] (disk snapshot)) db]> d ∧ hFiles h' !! roConfigPath opts = Some text ∧
    (∀ policy, policyFile ≠ "" → disk policyFile = Some policy → PolicyFile cfg ≠ "" → PolicyFile cfg ≠ roConfigPath opts → hFiles h !! PolicyFile cfg = None →
       hFiles h' !! PolicyFile cfg = Some policy) ∧
    rrPeers r = dbPeers db ∧ rrSchemaNow r = latest ∧ rrMovedAside r = "".
Proof.
  intros srcs HW Hap Hman Hopen Hrest Hsm Hschema Hcp Htext Hcfg Hrp Hnone Hempty Hone.
  destruct (archive_reads_back volume EncodeManifest DecodeManifest Open disk disk header_ok _ _ _ _ archive rest HW (proj1 Hap) Hman Hopen Hrest) as (staging & Hex & _ & Hst).
  assert (∀ s, s ∈ srcs → is_Some (disk (sFrom s)) ∧ staging !! sPath s = disk (sFrom s)) as Hst'.
  { intros s Hs. destruct (Hst s Hs) as (x & c & Hx & Hc & _ & _ & Hd). rewrite Hx in Hc. injection Hc as <-. rewrite Hx. split; [by eexists|by apply Hd]. }
  destruct (copied_from_archive _ _ _ _ _ _ staging Hsm Hap HW Hst') as (d & Hd & Hb). destruct (check_passes a archive dir snapshot configPath policyFile acme cfg db d Hsm Hone Hb) as [fp Hck].
  assert (staging !! BackupConfigPath = Some text) as Hsc.
  { destruct (Hst' _ (config_source dir snapshot configPath policyFile acme text Hcp Htext)) as [_ Hs]. cbn [sPath sFrom] in Hs. by rewrite Hs. }
  assert (mSchema m' = mSchema m) as Hm by (by apply Write_manifest in HW as (fs & -> & _)).
  destruct Hsm as [Htemp Harch Hunp Hstat Hserv Hens Hlk Hli Hcopy Hwr _ _ _ _ _ _]. unfold Restore.Restore. rewrite Htemp, Harch, Hunp, Hex. cbn [negb]. rewrite Hm.
  destruct (Z.ltb_spec latest (mSchema m)); [lia|]. unfold restoreConfig. rewrite Hstat, Hnone, Hsc. cbn [negb mbind option_bind]. rewrite Hcfg, Hserv.
  assert (prepareDataDir a (DataDir cfg) (roForce opts) h = (ensureDataDir (DataDir cfg) h, Ok "")) as ->.
  { unfold prepareDataDir. rewrite Hens, Hlk, Hli. cbn [negb orb]. unfold dirEmpty. pose proof (files_of_ensure (DataDir cfg) (DataDir cfg) h) as He. rewrite Hempty in He.
    unfold files_of in He. by rewrite He, bool_decide_true. }
  unfold restore_into. pose proof (files_of_ensure (DataDir cfg) (DataDir cfg) h) as He. rewrite Hempty in He. unfold files_of in He. rewrite He, Hd, Hck.
  set (d2 := <[DBFile := _]> d).
  destruct (writeIfAbsent a staging BackupConfigPath (roConfigPath opts) _) as [h1 cw] eqn:E1. apply writeIfAbsent_ok in E1 as (D1 & K1 & O1 & W1).
  destruct (W1 (Hwr _)) as [[cw' ->] Hfile]. destruct (writeIfAbsent a staging BackupPolicyPath (PolicyFile cfg) h1) as [h2 pw] eqn:E2.
  apply writeIfAbsent_ok in E2 as (D2 & K2 & O2 & W2). destruct (W2 (Hwr _)) as [[pw' ->] Hpol]. eexists h2, _, d. split_and!; [done|done| | | |done|done|done].
  - unfold files_of. rewrite D2, D1. cbn. by rewrite lookup_insert_eq.
  - apply K2, Hfile; [done| |done]. cbn. by rewrite hFiles_ensure.
  - intros policy Hpf Hdp Hpc Hpne Hpn. apply Hpol; [done| |].
    + rewrite O1 by done. cbn. by rewrite hFiles_ensure.
    + destruct (Hst' _ (policy_source dir snapshot configPath policyFile acme policy Hpf Hdp)) as [_ Hs]. cbn [sPath sFrom] in Hs. by rewrite Hs.
Qed.
End Back.

(** ** A small server *)

Definition demo_disk (p : string) : option (list byte) :=
  if bool_decide (p ∈ ["/tmp/thawr.db"; "/data/server.key"; "/data/tls/cert.pem"; "/data/tls/key.pem"; "/data/acme/account"; "/etc/server.yaml"; "/etc/policy.yaml"])
  then Some (string_bytes p) else None.
Definition demo_sources : list Source := backupSources demo_disk "/data" "/tmp/thawr.db" "/etc/server.yaml" "/etc/policy.yaml" ["acme/account"].
Definition demo_decode (text : list byte) (_ : Config) : option Config :=
  if decide (length text = 3%nat) then None
  else Some {| PublicAddr := PublicAddr demo_config; DataDir := "/data"; listen := listen demo_config; overlay := overlay demo_config; tls := tls demo_config;
               PolicyFile := "/etc/policy.yaml"; AdminSocket := ""; log := log demo_config; MinClientVersion := "0.2"; MaxBytesPerSecond := 0; dns := dns demo_config;
               RetentionDays := 0; MetricsListen := "" |}.
Definition demo_join (a b : string) : string := a +:+ "/" +:+ b.
Definition demo_address (s : string) : option (string * string) := Some ("", s).
Definition demo_cfg : Config := default demo_config (config_of demo_address (λ _, None) demo_decode false demo_join "" (string_bytes "/etc/server.yaml")).
Definition demo_db : Database :=
  {| dbMeta := Some {[SchemaVersionKey := "6"; MetaServerKeyFingerprint := Enroll.wgFingerprint (string_bytes "/data/server.key"); HubDevice.MetaOverlayIPv6 := "fd12:3456::/64"]};
     dbPeers := 2 |}.
Abbreviation demo_opened := (set_meta SchemaVersionKey "7" demo_db).
Definition demo_answers : Answers :=
  {| anTemp := true; anArchive := Some []; anUnpack := λ _, DiskOk; anStat := true; anServer := false; anEnsure := true; anLock := true; anList := true; anRename := true;
     anClosed := true; anRenameAgain := true; anEnsureAgain := true; anLockAgain := true; anStamp := "1"; anCopy := λ _, DiskOk; anWrite := λ _, WOk;
     anSchemaRead := true; anKeyRead := true; anGenerate := None; anKeyWritten := true; anKeyMode := true; anMetaRead := true; anMetaSet := true; anCount := true;
     anTLSRead := λ _, true; anStays := λ _, false |}.
(** Writing the configuration stops half-way. *)
Definition demo_cut : Answers :=
  {| anTemp := true; anArchive := Some []; anUnpack := λ _, DiskOk; anStat := true; anServer := false; anEnsure := true; anLock := true; anList := true; anRename := true;
     anClosed := true; anRenameAgain := true; anEnsureAgain := true; anLockAgain := true; anStamp := "1"; anCopy := λ _, DiskOk; anWrite := λ _, WCut 3;
     anSchemaRead := true; anKeyRead := true; anGenerate := None; anKeyWritten := true; anKeyMode := true; anMetaRead := true; anMetaSet := true; anCount := true;
     anTLSRead := λ _, true; anStays := λ _, false |}.
Definition demo_options (force : bool) : RestoreOptions := {| roConfigPath := "/etc/server.yaml"; roForce := force |}.
Definition demo_host (old : Dir) : Host := {| hDirs := {["/data" := old]}; hFiles := ∅ |}.
Abbreviation demo_written := (Write (λ _, "") demo_encode demo_disk demo_disk (λ _, true) demo_manifest demo_sources).

Example demo_files : sPath <$> demo_sources = ["thawr.db"; "server.key"; "tls/cert.pem"; "tls/key.pem"; "acme/account"; "config/server.yaml"; "config/policy.yaml"].
Proof. vm_compute. reflexivity. Qed.

Definition demo_restore_with (m : Manifest) (es : list Entry) (a : Answers) (force : bool) (h : Host) : Host * result restore_error RestoreResult :=
  Restore (λ _, "") (λ _ _, Some m) (λ _, Some (demo_tar es)) (config_of demo_address (λ _, None) demo_decode false demo_join "") 7
    (λ _, Some demo_db) (λ _, Some) (λ text _, text) (λ s, Some (string_bytes s)) (λ _, "") id (λ c _, Some [c]) a (demo_options force) h.
Definition demo_restore_of (w : result backup_error (Manifest * list Entry)) (a : Answers) (force : bool) (h : Host) : Host * result restore_error RestoreResult :=
  match w with Ok (m, es) => demo_restore_with m es a force h | Err _ => (h, Err ErrTempDir) end.
Abbreviation demo_restore := (demo_restore_of demo_written).

(** A data directory with files: refused, or set aside if asked to. *)
Example demo_refused :
  let r := demo_restore demo_answers false (demo_host {["old" := [Byte.x01]]}) in
  r.2 = Err ErrDataDirNotEmpty ∧ elements (dom (files_of "/data" r.1)) = ["old"].
Proof. split; vm_compute; reflexivity. Qed.
Example demo_moved :
  let r := demo_restore demo_answers true (demo_host {["old" := [Byte.x01]]}) in
  elements (dom (files_of "/data.pre-restore-1" r.1)) = ["old"] ∧ size (files_of "/data" r.1) = 5%nat.
Proof. split; vm_compute; reflexivity. Qed.

(** A configuration cut in the writing stays, and the next attempt reads it. *)
Example cut_config_stays :
  let r := demo_restore demo_cut false (demo_host ∅) in
  r.2 = Err ErrWriteConfig ∧ length <$> hFiles r.1 !! "/etc/server.yaml" = Some 3%nat ∧ files_of "/data" r.1 = ∅ ∧
  (demo_restore demo_answers false r.1).2 = Err ErrConfig.
Proof. split_and!; vm_compute; reflexivity. Qed.

Lemma demo_write_ok : is_ok demo_written = true.
Proof. vm_compute. reflexivity. Qed.

Lemma demo_apart : paths_apart demo_sources.
Proof.
  assert (forallb (λ s, forallb (λ t, negb (above (sPath s) (sPath t))) demo_sources && negb (bool_decide (sPath s = LockFile)) && negb (above (sPath s) LockFile) && negb (above LockFile (sPath s)))
    demo_sources = true) as H by (vm_compute; reflexivity).
  rewrite forallb_forall in H. split.
  - intros s t Hs Ht. specialize (H s ltac:(by apply list_elem_of_In)). rewrite !andb_true_iff, forallb_forall in H. destruct H as [[[H _] _] _].
    specialize (H t ltac:(by apply list_elem_of_In)). by apply negb_true_iff in H.
  - intros s Hs. specialize (H s ltac:(by apply list_elem_of_In)). rewrite !andb_true_iff, !negb_true_iff, bool_decide_eq_false in H. destruct H as [[[_ H1] H2] H3]. by split.
Qed.

Lemma demo_smooth : smooth demo_answers [].
Proof. by split. Qed.

Lemma demo_one_server : one_server 7 (λ _, Some demo_db) (λ _, Some) (λ s, Some (string_bytes s)) id (λ c _, Some [c]) demo_disk "/data" "/tmp/thawr.db" demo_cfg demo_opened.
Proof.
  split.
  - by eexists.
  - eexists _, _. split; [reflexivity|]. split; [reflexivity|]. vm_compute. reflexivity.
  - vm_compute. reflexivity.
  - intros _. eexists _, _, _. split; [reflexivity|]. split; reflexivity.
Qed.

Lemma server_comes_back_witness : ∃ m es h' r d, demo_written = Ok (m, es) ∧ demo_restore_with m es demo_answers false (demo_host ∅) = (h', Ok r) ∧
  backed_up demo_disk demo_sources d ∧ files_of "/data" h' = <[DBFile := string_bytes "/tmp/thawr.db"]> d ∧
  hFiles h' !! "/etc/policy.yaml" = Some (string_bytes "/etc/policy.yaml") ∧ rrPeers r = 2.
Proof.
  pose proof demo_write_ok as Hok. revert Hok. generalize (eq_refl demo_written). generalize demo_written at 2 3.
  intros [[m es]|e] E Hok; [|discriminate Hok]. clear Hok.
  destruct (server_comes_back (λ _, "") demo_encode (λ _ _, Some m) (λ _, Some (demo_tar es)) (λ _, true) demo_address (λ _, None) demo_decode false demo_join "" 7
    (λ _, Some demo_db) (λ _, Some) (λ text _, text) (λ s, Some (string_bytes s)) (λ _, "") id (λ c _, Some [c]) demo_disk ltac:(lia)
    demo_manifest "/data" "/tmp/thawr.db" "/etc/server.yaml" "/etc/policy.yaml" ["acme/account"] m es [] 9000 demo_answers (demo_options false) (demo_host ∅) demo_cfg
    (string_bytes "/etc/server.yaml") demo_opened E demo_apart) as (h' & r & d & H1 & H2 & H3 & _ & H4 & H5 & _).
  - intros mj Hmj. split; [|reflexivity]. injection Hmj as <-. apply (bool_decide_unpack _). vm_compute. reflexivity.
  - reflexivity.
  - vm_compute. discriminate.
  - exact demo_smooth.
  - vm_compute. discriminate.
  - discriminate.
  - reflexivity.
  - vm_compute. reflexivity.
  - discriminate.
  - reflexivity.
  - reflexivity.
  - exact demo_one_server.
  - exists m, es, h', r, d. split; [exact E|]. split; [exact H1|]. split; [exact H2|]. split; [exact H3|]. split; [|exact H5].
    apply (H4 (string_bytes "/etc/policy.yaml")); [discriminate|reflexivity|discriminate|discriminate|reflexivity].
Defined.
